(* ===== verification/_CoqProject ===== *)
-Q . S2P
Prelude.v
KvList.v
Prog.v
SvLock.v
SeqLock.v
Rng.v
VecSpec.v
ArrayOps.v
VectorSfra.v
VectorUmfra.v
UmfraSpec.v
UmfraSteal.v
Umfra.v
MultivectorCfra.v
Cfra.v
CfraOps.v
AsrWord.v
MultivectorAsr.v
AsrRun.v
AsrMoves.v
Pool.v
AsrInv.v
AsrSteps.v
AsrMethods.v
AsrHolder.v
AsrClient.v
AsrAlone.v
AsrExtract.v
Asr.v
HazardPtr.v
World.v
Layers.v
Heap.v
SvNode.v
SvOps.v
SvMaint.v
SvLayers.v
SvMem.v
SvWp.v
SvWalk.v
SvDescend.v
SvGrow.v
SvFreeze.v
SvInsert.v
SvRemove.v
SvScan.v
SvTear.v
SvSeq.v
Sv.v
DiscoNode.v
DiscoOps.v
DiscoDescent.v
DiscoUpdate.v
DiscoMirror.v
DiscoMaint.v
DiscoCheck.v
DiscoSeq.v
DiscoTear.v
Disco.v
DsRegister.v
Latency.v
DsNet.v
DsFutures.v
DsLayout.v
DsClient.v
DsMain.v
DsAlone.v
DsGetPut.v
DsRun.v
DsSequential.v
DsDeployment.v
DsConc.v
DsConcInv.v
DsConcNet.v
DsConcSafe.v
SwarmLru.v
SwarmState.v
SwarmIndex.v
SwarmMaxReg.v
SwarmRelaxed.v
