(* ===== verification/Prelude.v ===== *)
(** * Disco-skip: a verification development

    disco-skip replicates 64-bit registers over passive servers that clients
    reach by RDMA (src/disco-skip/src/), and keeps in each client a cache of
    the routing entries of a distributed skip vector (src/disco-skip/include/).
    This development models both halves in Rocq and proves what they promise.

    ** The program, and the files that model it

    _Locks._  SvLock: lock/sv_lock.h, the sequence lock with node states, every
    method on its 64-bit word, the spinning ones as programs.  SeqLock:
    lock/seq_lock.h.  Each file refines the methods to an abstract protocol and
    proves mutual exclusion and the optimistic-read guarantee for any number of
    threads that share the lock, as a step relation.

    _Vectors._  A chunk keeps its entries in a vector class.  VecSpec states,
    as a type class over operations, what a vector promises to the skip vector,
    over sorted association lists (KvList).  VectorSfra (vector_sfra.h, a
    sorted array) and VectorUmfra with UmfraSpec, UmfraSteal, Umfra
    (vector_umfra.h, an unsorted one over ArrayOps) discharge it.
    MultivectorCfra with Cfra, CfraOps: multivector_cfra.h, a circular sorted
    multimap.

    _The two-phase multivector._  multivector_asr.h and atomic_kv.h, a vector
    whose slots threads reserve with counters: AsrWord (the packed words),
    MultivectorAsr (every method, as a program over atomic accesses).  Alone:
    AsrRun (slots and quickselect), AsrMoves (the splits), AsrAlone (insertions
    and the lock).  Shared: Pool is a logic for any number of threads, each
    with a ghost, over one object; AsrInv is the invariant, AsrSteps its
    preservation by single accesses, AsrMethods and AsrHolder the methods (a
    thread that owns the whole array runs as if alone), AsrClient programs that
    call methods lawfully and pools of them, AsrExtract the extraction phase;
    Asr collects the theorems.

    _Random heights._  Rng: splitmix64.h, lehmer64.h and random_height.

    _Hazard pointers._  HazardPtr: hp_thread_context.h, hp_manager.h.

    _The cache._  Prog: methods as trees of atomic accesses.  World: nodes in
    memory and the accesses.  DiscoNode (node_t), DiscoOps (descents, lookups,
    gathering, reconciliation, insertion), DiscoMaint (construction, bootstrap,
    checking, destruction): skipvector_disco.h.  Layers is the abstract state
    and its invariant, Heap relates memory to it; DiscoDescent, DiscoUpdate,
    DiscoMirror, DiscoCheck, DiscoSeq and DiscoTear prove the operations, Disco
    collects the theorems.

    _The map._  skipvector.h, the skip vector with values, over the same locks,
    vectors, hazard pointers and memory: SvNode (node_t), SvOps (the methods),
    SvMaint (constructor, checker, destructor).  Its proofs are layered:
    SvLayers is the abstract state, complete or half way through an update;
    SvMem abstracts memory to cells, SvWp is a weakest precondition for
    programs over layers in memory; SvWalk (reading, merging, check_next),
    SvDescend (descents, contains, skip_to); SvGrow (splitting and filling
    nodes), SvFreeze (an insertion on its way down and up), SvInsert (both
    insertions); SvRemove; SvScan (for_each, range); SvTear (destructor and
    checker), SvSeq (sessions); Sv collects the theorems.

    _The client._  DsRegister: register.hpp, cache.hpp, layout.hpp.  Latency:
    latency.hpp.  DsNet: disco_skip_state.hpp and the requests to the network
    card.  DsFutures: get_future.hpp, put_future.hpp, range_future.hpp, each a
    state machine whose step is a function of the future and of the client.
    DsClient: op_future.hpp, disco_skip_client.hpp, polling, routing and the
    spinning loops.  DsMain: the operation loop of main.cpp.

    The client's proofs: DsLayout (addresses), DsAlone, DsGetPut, DsRun (one
    operation of a client that is alone, from posting to polling), DsSequential
    and DsDeployment (sequences of calls); DsConc (interleavings and the
    loops of a put), DsConcInv (the invariant of a client and its steps),
    DsConcNet (the network) and DsConcSafe.

    _The baseline swarm-kv._  Parts of src/swarm-kv/src/ that disco-skip is
    compared against.  SwarmLru: lru-cache.hpp (fusee has the same file), the
    clock cache of key addresses.  SwarmState: tspointers.hpp, the clock of
    oops_state.hpp, the addresses of layout.hpp.  SwarmIndex: race/, the index
    of keys in the servers' memory, searched and changed by any number of
    futures.  SwarmMaxReg: unreliable_maxreg.hpp, the max register that one
    server keeps for a key in timestamp words, which any number of clients read
    and raise by RDMA.  SwarmRelaxed: relaxed_maxreg.hpp, the register
    replicated over servers, one future of SwarmMaxReg for each.

    ** How the parts interact

    The cache calls the vector through [VecOps] and [VecSpec], so its theorems
    hold for both vector classes; it calls the lock through single accesses
    [lock_rmw] and the hazard pointers through the methods of their manager.
    A client posts requests to [c_sq], the network ([nic_exec]) moves them to
    [c_cq], [tickRdma] routes them to the futures by their id, and the futures
    step.  The client does not consult the cache yet, in the code either.

    ** What the theorems show

    - Cache: any sequence of operations on it, alone, answers like a sorted
      list of routing entries, in bounded fuel, and its destructor frees every
      node once (cache_refines, session_frees_all); each operation is specified
      on each of its branches; lookups return the entry at or below a key, and
      what was reconciled is served.
    - Map: the same for the skip vector with values, whose removals leave
      orphans that later walks merge away: sessions of lookups, insertions,
      removals and iterations refine a sorted map (map_refines), every
      operation keeps the layers linked (operations_keep_form), the destructor
      frees what the thread's zombie list still holds too (map_frees_all), the
      concurrent and the sequential insertion agree (inserts_agree), an
      insertion stands at the height it drew (sv_insert_correct), a removed key
      is in no layer (sv_remove_correct), and the checker accepts
      (sv_verify_accepts).  All this in a [setting] that each theorem names:
      vectors of twice the target size, exponents of at most 30, room for a
      zombie, and a merge threshold of at most 2, which the constructor does not
      check; with threshold 3 a session of insertions fails an assertion
      (high_threshold_crashes).
    - Locks: mutual exclusion, optimistic reads, and every method refines the
      abstract lock, the spinning ones alone and among other threads
      (lock_methods_refine).  Hazard pointers: a node that
      some thread protects is never reclaimed, and teardown frees all.
    - Vectors: each class is a sorted map (or multimap) with splitting, merging
      and stealing; array bounds and signed binary searches never fail.
    - Two-phase multivector: no interleaving of lawful programs fails an assert
      (asr_pool_safe) or loses or invents an entry (asr_pool_keeps_entries);
      splits divide the entries as documented and keep the minimum in slot 0
      (asr_splits_correct); insertions alone end on every branch
      (asr_insert_alone); a dead vector hands out each entry once
      (asr_extract_once), but not to threads that extract while it dies
      (asr_extract_during_die).
    - Registers: in the build without the register cache, a deployment whose calls do not
      overlap is one map from keys to values, each call returning in at most
      two polls (sequential_calls_correct, operation_completes); in every
      interleaving, and every build, registers never go back
      (registers_never_go_back); as long as they fit into the address
      space, the buffers of different future indices, servers and purposes do
      not overlap (buffers_disjoint).  Two theorems state what does not hold:
      cached_put_lost and overlapping_puts_diverge exhibit runs on which a
      completed put is lost and on which later gets disagree.

    - swarm-kv: the pointer cache is a lossy map that never answers a stale
      value (lru_session), but counts hits for the wrong key
      (lru_counts_other_key); timestamp words are faithful and ordered
      (tsp_words_correct), a client's clock stays ahead of what it has seen
      until its 2^32 granules, about 33 minutes, are used up
      (clock_stays_ahead), objects in memory do not overlap
      (swarm_objects_disjoint); a search of the index stays in it and ends once
      its requests are served (race_buckets_in_index) and finds what is there whatever others do
      (race_search_finds), but an insertion can be lost unnoticed
      (race_insert_lost); lawful clients keep the register of a server a max
      register, and a write that is done is in it (maxreg_register_safe), but
      the unguarded WriteTsAndIn can lower it (maxreg_in_place_lowers); a
      replicated write that is done is held by a majority
      (relaxed_write_quorum), a read that starts when a majority holds a word
      reports no smaller one (relaxed_read_sees), and a read that finds no word
      throws (relaxed_read_unwritten).

    ** Conventions

    A 64-bit word is its value in [Z], reduced by [u64] where it can wrap.
    [None] is a failed assertion, an access out of range or a throw.  Asserts
    are on, except where a comment says NDEBUG.  Loops that spin take fuel: a
    cache operation on [layers] layers needs [op_cost layers = 2 * layers + 4]
    per earlier operation, since each adds at most that many nodes to walk, and
    an operation of the map two per earlier operation and [layers] more (an
    insertion adds at most two nodes to a layer); the theorems give the bounds;
    a client's spinning loop needs one unit per poll, and two polls are enough
    when the network serves every request.  A step of the replicated register
    calls itself at most once, so fuel 2 is enough (tick_fuel).  The
    waiting loops of the two-phase multivector also take fuel; a thread that
    runs out of it stops, which the safety theorems allow, and the theorems on a
    single thread need one unit.  Atomic accesses are sequentially consistent,
    the relaxed ones too.

    ** Not modelled

    The concurrency of the operations of the cache and of the map beyond the
    protocols of their locks and hazard pointers (the operations are proved for
    a thread that runs alone); weak memory orders; extraction from a two-phase
    multivector while insertions are pending in it;
    the RDMA hardware, stated as [nic_exec]; printing, statistics in floating
    point, command lines, bootstrap through memcached and YCSB parsing; the
    name of a vector and its dumps.  Of the baselines, the protocol that
    OopsDataFuture runs on the replicated register, the clients of swarm-kv, its
    checksums, and fusee but for its cache; the dory
    libraries wrap the operating system and ibverbs, third-party is vendored.
    sv_lock_disco.h and hp_manager_leaky.h are not used by the program. *)

From stdpp Require Export base tactics option list gmap sorting fin_maps.
From Stdlib Require Export ZArith Lia.

Local Open Scope Z_scope.

(** ** Machine integers

    [uint64_t] values are represented by their value in [Z]; every operation
    that can wrap writes the reduction out with [u64].  [int64_t] values go
    through [i64], the two's complement reading of a 64-bit pattern. *)

Definition word64 : Z := 2 ^ 64.

Definition u64 (x : Z) : Z := x mod 2 ^ 64.

Definition i64 (x : Z) : Z :=
  let y := x mod 2 ^ 64 in if y <? 2 ^ 63 then y else y - 2 ^ 64.

Declare Scope disco_scope.
Delimit Scope disco_scope with disco.

(** [is_u64 x]: [x] is the value of some [uint64_t]. *)
Definition is_u64 (x : Z) : Prop := 0 <= x < 2 ^ 64.

Lemma u64_small x : is_u64 x -> u64 x = x.
Proof. intros H. apply Z.mod_small. exact H. Qed.

Lemma u64_range x : is_u64 (u64 x).
Proof. apply Z.mod_pos_bound. lia. Qed.

Lemma u64_idemp x : u64 (u64 x) = u64 x.
Proof. apply u64_small, u64_range. Qed.

Lemma i64_small x : 0 <= x < 2 ^ 63 -> i64 x = x.
Proof.
  intros H. unfold i64. rewrite Z.mod_small by lia.
  destruct (Z.ltb_spec x (2 ^ 63)); lia.
Qed.

(** [size - 1] on an empty vector wraps to the all-ones word, whose signed
    reading is [-1]. *)
Lemma i64_pred x : 0 <= x < 2 ^ 63 -> i64 (u64 (x - 1)) = x - 1.
Proof.
  intros H. unfold i64, u64. rewrite Z.mod_mod by lia.
  destruct (decide (x = 0)) as [->|Hx].
  - reflexivity.
  - rewrite Z.mod_small by lia. destruct (Z.ltb_spec (x - 1) (2 ^ 63)); lia.
Qed.

(** Fields packed with shifts and [|]: the low field fits below the high one. *)
Lemma lor_low a b n : 0 <= n -> 0 <= b < 2 ^ n -> Z.lor (Z.shiftl a n) b = a * 2 ^ n + b.
Proof.
  intros Hn Hb. assert (Hz : Z.land (Z.shiftl a n) b = 0).
  { apply Z.bits_inj'. intros i Hi. rewrite Z.land_spec, Z.bits_0. destruct (decide (i < n)).
    - by rewrite Z.shiftl_spec_low.
    - rewrite <- (Z.mod_small b (2 ^ n)), Z.mod_pow2_bits_high by lia. apply andb_false_r. }
  rewrite <- Z.lxor_lor, <- Z.add_nocarry_lxor, Z.shiftl_mul_pow2 by done. done.
Qed.

(** A mask of [k] ones above [n] zeros. *)
Lemma land_high x n k : 0 <= n -> Z.land x (Z.shiftl (Z.ones k) n) = Z.shiftl (Z.land (Z.shiftr x n) (Z.ones k)) n.
Proof.
  intros Hn. apply Z.bits_inj'. intros i Hi. rewrite Z.land_spec. destruct (decide (i < n)).
  - rewrite !Z.shiftl_spec_low by lia. by rewrite andb_false_r.
  - rewrite !Z.shiftl_spec, Z.land_spec, Z.shiftr_spec by lia. do 2 f_equal. lia.
Qed.

Create HintDb word discriminated.
#[export] Hint Resolve u64_range u64_small : word.

(** ** Assertions and partial reads

    A C++ [assert], an out-of-bounds access and a throw end the model's
    computation: they are [None] in the option monad. *)

Definition assert_ (b : bool) : option unit := if b then Some tt else None.

Lemma assert_true b : b = true -> assert_ b = Some tt.
Proof. by intros ->. Qed.

Lemma assert_inv b u : assert_ b = Some u -> b = true.
Proof. by destruct b. Qed.

(** Case analysis on a boolean comparison of [Z] or [nat], keeping the
    arithmetic fact. *)
Ltac zcases :=
  repeat match goal with
  | |- context [Z.ltb ?a ?b] => destruct (Z.ltb_spec a b); try lia
  | |- context [Z.leb ?a ?b] => destruct (Z.leb_spec a b); try lia
  | |- context [Z.eqb ?a ?b] => destruct (Z.eqb_spec a b); try lia
  | |- context [Nat.ltb ?a ?b] => destruct (Nat.ltb_spec a b); try lia
  | |- context [Nat.leb ?a ?b] => destruct (Nat.leb_spec a b); try lia
  | |- context [Nat.eqb ?a ?b] => destruct (Nat.eqb_spec a b); try lia
  end.

(** Discharge the first bind of an option computation with an equation for
    its head. *)
Ltac step_with H := rewrite H; cbn [mbind option_bind].
