(* ===== verification/KvList.v ===== *)
(** * KvList: sorted association lists, the reference semantics of a vector

    Every vector class of the cache implements a map from keys to values.  Its
    abstract content is the list of its pairs in increasing key order; the
    functions of this file are what the concrete operations of
    [vector_sfra.h] and [vector_umfra.h] are proved to compute.  The last part is on
    the sorted arrangement of a list of pairs. *)

From S2P Require Import Prelude.

Local Open Scope Z_scope.

Section KV.
Context {V : Type}.
Implicit Types (l : list (Z * V)) (k : Z) (e : Z * V).

Definition kv_lt (a b : Z * V) : Prop := a.1 < b.1.

Definition kv_sorted l : Prop := StronglySorted kv_lt l.

Definition kv_below k l : list (Z * V) := filter (fun e => e.1 < k) l.
Definition kv_upto k l : list (Z * V) := filter (fun e => e.1 <= k) l.
Definition kv_from k l : list (Z * V) := filter (fun e => k <= e.1) l.
Definition kv_above k l : list (Z * V) := filter (fun e => k < e.1) l.

Fixpoint kv_lookup k l : option V :=
  match l with
  | [] => None
  | (k', x) :: l' => if k' =? k then Some x else kv_lookup k l'
  end.

(** The greatest entry whose key is at most [k]. *)
Definition kv_lte k l : option (Z * V) := last (kv_upto k l).

(** Add [(k, x)] at its place ([k] is assumed absent). *)
Definition kv_insert k (x : V) l : list (Z * V) :=
  kv_below k l ++ (k, x) :: kv_above k l.

Definition kv_remove k l : list (Z * V) := filter (fun e => e.1 <> k) l.

Definition kv_first l : option Z := fst <$> head l.
Definition kv_last l : option Z := fst <$> last l.

Definition kv_map l : gmap Z V := list_to_map l.

Lemma kv_sorted_nil : kv_sorted [].
Proof. constructor. Qed.

Lemma kv_sorted_single e : kv_sorted [e].
Proof. repeat constructor. Qed.

Lemma kv_sorted_cons e l :
  kv_sorted (e :: l) <-> Forall (kv_lt e) l /\ kv_sorted l.
Proof. apply StronglySorted_cons. Qed.

Lemma kv_sorted_app l1 l2 :
  kv_sorted (l1 ++ l2) <->
  (forall a b, a ∈ l1 -> b ∈ l2 -> a.1 < b.1) /\ kv_sorted l1 /\ kv_sorted l2.
Proof.
  unfold kv_sorted. rewrite StronglySorted_app. unfold kv_lt. split.
  - intros (H & H1 & H2). repeat split; auto.
  - intros (H & H1 & H2). repeat split; auto.
Qed.

Lemma kv_sorted_filter (P : Z * V -> Prop) `{!forall e, Decision (P e)} l :
  kv_sorted l -> kv_sorted (filter P l).
Proof.
  induction l as [|e l IH]; [done|].
  rewrite kv_sorted_cons. intros [He Hl]. rewrite filter_cons.
  destruct (decide (P e)); [|by apply IH].
  apply kv_sorted_cons. split; [|by apply IH].
  rewrite Forall_forall in *. intros x Hx.
  apply He. by apply list_elem_of_filter in Hx as [_ Hx].
Qed.

Lemma kv_sorted_lookup l i j a b :
  kv_sorted l -> l !! i = Some a -> l !! j = Some b -> (i < j)%nat -> a.1 < b.1.
Proof.
  revert i j. induction l as [|e l IH]; intros i j Hs Hi Hj Hij; [done|].
  apply kv_sorted_cons in Hs as [He Hl].
  destruct j as [|j]; [lia|]. destruct i as [|i]; simplify_eq/=.
  - rewrite Forall_forall in He. apply He.
    apply list_elem_of_lookup. eauto.
  - eapply (IH i j); eauto. lia.
Qed.

Lemma kv_sorted_lookup_le l i j a b :
  kv_sorted l -> l !! i = Some a -> l !! j = Some b -> (i <= j)%nat -> a.1 <= b.1.
Proof.
  intros Hs Hi Hj Hij. destruct (decide (i = j)) as [->|].
  - simplify_eq. lia.
  - pose proof (kv_sorted_lookup l i j a b Hs Hi Hj ltac:(lia)). lia.
Qed.

(** *** Membership *)

Lemma elem_of_kv_below k l e : e ∈ kv_below k l <-> e.1 < k /\ e ∈ l.
Proof. unfold kv_below, kv_upto, kv_from, kv_above. by rewrite list_elem_of_filter. Qed.

Lemma elem_of_kv_upto k l e : e ∈ kv_upto k l <-> e.1 <= k /\ e ∈ l.
Proof. unfold kv_below, kv_upto, kv_from, kv_above. by rewrite list_elem_of_filter. Qed.

Lemma elem_of_kv_from k l e : e ∈ kv_from k l <-> k <= e.1 /\ e ∈ l.
Proof. unfold kv_below, kv_upto, kv_from, kv_above. by rewrite list_elem_of_filter. Qed.

Lemma elem_of_kv_above k l e : e ∈ kv_above k l <-> k < e.1 /\ e ∈ l.
Proof. unfold kv_below, kv_upto, kv_from, kv_above. by rewrite list_elem_of_filter. Qed.

Lemma kv_filter_all (P : Z * V -> Prop) `{Hdec : !forall e, Decision (P e)} l :
  (forall e, e ∈ l -> P e) -> filter P l = l.
Proof.
  induction l as [|e l IH]; intros H; [done|].
  rewrite filter_cons, decide_True by (apply H; left).
  f_equal. apply IH. intros e' He'. apply H. by right.
Qed.

Lemma kv_filter_none (P : Z * V -> Prop) `{Hdec : !forall e, Decision (P e)} l :
  (forall e, e ∈ l -> ~ P e) -> filter P l = [].
Proof.
  induction l as [|e l IH]; intros H; [done|].
  rewrite filter_cons, decide_False by (apply H; left).
  apply IH. intros e' He'. apply H. by right.
Qed.

(** *** Splitting a list at a key *)

Lemma kv_split_at (P Q : Z * V -> Prop)
    `{!forall e, Decision (P e)} `{!forall e, Decision (Q e)} l :
  kv_sorted l ->
  (forall e, Q e <-> ~ P e) ->
  (forall a b, P b -> a.1 < b.1 -> P a) ->
  l = filter P l ++ filter Q l.
Proof.
  intros Hs HQ Hdown. induction l as [|e l IH]; [done|].
  apply kv_sorted_cons in Hs as [He Hl]. rewrite !filter_cons.
  destruct (decide (P e)) as [HP|HP].
  - rewrite decide_False by (rewrite HQ; tauto). cbn. f_equal. by apply IH.
  - rewrite decide_True by (by rewrite HQ).
    rewrite Forall_forall in He.
    assert (Hn : forall x, x ∈ l -> ~ P x) by (intros x Hx Hp; eapply HP, Hdown; [done|by apply He]).
    rewrite (kv_filter_none P) by done. cbn. f_equal.
    rewrite kv_filter_all; [done|]. intros x Hx. by apply HQ, Hn.
Qed.

Lemma kv_below_from k l : kv_sorted l -> l = kv_below k l ++ kv_from k l.
Proof. intros Hs. apply kv_split_at; [done|intros; lia|cbn; intros; lia]. Qed.

Lemma kv_sorted_fst l : kv_sorted l <-> StronglySorted Z.lt (map fst l).
Proof.
  induction l as [|e l IH]; cbn; [split; constructor|].
  rewrite kv_sorted_cons, StronglySorted_cons, IH, Forall_map. done.
Qed.

Lemma kv_sorted_keys l l' : kv_sorted l -> map fst l' = map fst l -> kv_sorted l'.
Proof. rewrite !kv_sorted_fst. by intros H ->. Qed.

Lemma kv_upto_above k l : kv_sorted l -> l = kv_upto k l ++ kv_above k l.
Proof. intros Hs. apply kv_split_at; [done|intros; lia|cbn; intros; lia]. Qed.

Lemma kv_below_all k l : (forall e, e ∈ l -> e.1 < k) -> kv_below k l = l.
Proof. intros H. by apply kv_filter_all. Qed.
Lemma kv_below_none k l : (forall e, e ∈ l -> k <= e.1) -> kv_below k l = [].
Proof. intros H. apply kv_filter_none. intros e He. specialize (H e He). lia. Qed.
Lemma kv_above_all k l : (forall e, e ∈ l -> k < e.1) -> kv_above k l = l.
Proof. intros H. by apply kv_filter_all. Qed.
Lemma kv_above_none k l : (forall e, e ∈ l -> e.1 <= k) -> kv_above k l = [].
Proof. intros H. apply kv_filter_none. intros e He. specialize (H e He). lia. Qed.
Lemma kv_from_all k l : (forall e, e ∈ l -> k <= e.1) -> kv_from k l = l.
Proof. intros H. by apply kv_filter_all. Qed.
Lemma kv_from_none k l : (forall e, e ∈ l -> e.1 < k) -> kv_from k l = [].
Proof. intros H. apply kv_filter_none. intros e He. specialize (H e He). lia. Qed.
Lemma kv_upto_all k l : (forall e, e ∈ l -> e.1 <= k) -> kv_upto k l = l.
Proof. intros H. by apply kv_filter_all. Qed.
Lemma kv_upto_none k l : (forall e, e ∈ l -> k < e.1) -> kv_upto k l = [].
Proof. intros H. apply kv_filter_none. intros e He. specialize (H e He). lia. Qed.

Lemma kv_below_app k l1 l2 : kv_below k (l1 ++ l2) = kv_below k l1 ++ kv_below k l2.
Proof. apply filter_app. Qed.
Lemma kv_upto_app k l1 l2 : kv_upto k (l1 ++ l2) = kv_upto k l1 ++ kv_upto k l2.
Proof. apply filter_app. Qed.
Lemma kv_from_app k l1 l2 : kv_from k (l1 ++ l2) = kv_from k l1 ++ kv_from k l2.
Proof. apply filter_app. Qed.
Lemma kv_above_app k l1 l2 : kv_above k (l1 ++ l2) = kv_above k l1 ++ kv_above k l2.
Proof. apply filter_app. Qed.

(** A position that separates the keys below [k] from the others is the one
    the reference split uses. *)
Lemma kv_below_take k l p :
  (forall i e, l !! i = Some e -> (i < p)%nat -> e.1 < k) ->
  (forall i e, l !! i = Some e -> (p <= i)%nat -> k <= e.1) ->
  kv_below k l = take p l /\ kv_from k l = drop p l.
Proof.
  intros Hlo Hhi.
  assert (H1 : forall e, e ∈ take p l -> e.1 < k).
  { intros e [i Hi]%list_elem_of_lookup. apply lookup_take_Some in Hi as [Hi ?]. eauto. }
  assert (H2 : forall e, e ∈ drop p l -> k <= e.1).
  { intros e [i Hi]%list_elem_of_lookup. rewrite lookup_drop in Hi. eapply Hhi; [done|lia]. }
  split.
  - rewrite <- (take_drop p l) at 1.
    by rewrite kv_below_app, (kv_below_all k (take p l)), kv_below_none, app_nil_r.
  - rewrite <- (take_drop p l) at 1.
    rewrite kv_from_app, (kv_from_all k (drop p l)), kv_from_none by done. done.
Qed.

Lemma kv_sorted_take n l : kv_sorted l -> kv_sorted (take n l).
Proof. intros H. rewrite <- (take_drop n l), kv_sorted_app in H. tauto. Qed.
Lemma kv_sorted_drop n l : kv_sorted l -> kv_sorted (drop n l).
Proof. intros H. rewrite <- (take_drop n l), kv_sorted_app in H. tauto. Qed.

(** *** Lookup *)

Lemma kv_lookup_app k l1 l2 :
  kv_lookup k (l1 ++ l2) =
  match kv_lookup k l1 with Some x => Some x | None => kv_lookup k l2 end.
Proof.
  induction l1 as [|[k' x] l1 IH]; [done|]. cbn. by destruct (k' =? k).
Qed.

Lemma kv_lookup_elem k x l : kv_lookup k l = Some x -> (k, x) ∈ l.
Proof.
  induction l as [|[k' x'] l IH]; [done|]. cbn.
  destruct (Z.eqb_spec k' k) as [->|Hne]; intros H; simplify_eq; [left|right; auto].
Qed.

Lemma kv_lookup_None k l : kv_lookup k l = None <-> forall e, e ∈ l -> e.1 <> k.
Proof.
  induction l as [|[k' x'] l IH]; cbn.
  - split; [intros _ e He; by apply not_elem_of_nil in He|done].
  - destruct (Z.eqb_spec k' k) as [->|Hne].
    + split; [done|]. intros H. exfalso. apply (H (k, x')); [left|done].
    + rewrite IH. split.
      * intros H e [->|He]%elem_of_cons; [done|auto].
      * intros H e He. apply H. by right.
Qed.

Lemma kv_elem_lookup k x l : kv_sorted l -> (k, x) ∈ l -> kv_lookup k l = Some x.
Proof.
  intros Hs. induction l as [|[k' x'] l IH]; [by intros ?%not_elem_of_nil|].
  apply kv_sorted_cons in Hs as [He Hl]. rewrite Forall_forall in He. cbn.
  intros [H|H]%elem_of_cons.
  - simplify_eq. by rewrite Z.eqb_refl.
  - destruct (Z.eqb_spec k' k) as [->|Hne]; [|by auto].
    pose proof (He _ H) as Hlt. unfold kv_lt in Hlt. cbn in Hlt. lia.
Qed.

Lemma kv_lookup_index k x l i :
  kv_sorted l -> l !! i = Some (k, x) -> kv_lookup k l = Some x.
Proof. intros Hs Hi. apply kv_elem_lookup; [done|]. apply list_elem_of_lookup. eauto. Qed.

Lemma kv_lookup_all_ne k l : (forall e, e ∈ l -> e.1 <> k) -> kv_lookup k l = None.
Proof. apply kv_lookup_None. Qed.

Lemma kv_from_lookup_Some k x l :
  kv_sorted l -> kv_lookup k l = Some x -> kv_from k l = (k, x) :: kv_above k l.
Proof.
  intros Hs. induction l as [|[k' x'] l IH]; [done|].
  apply kv_sorted_cons in Hs as [He Hl]. rewrite Forall_forall in He.
  unfold kv_from, kv_above. rewrite !filter_cons. cbn [kv_lookup fst].
  destruct (Z.eqb_spec k' k) as [->|Hne]; intros H; simplify_eq.
  - rewrite decide_True, decide_False by lia. f_equal.
    rewrite !kv_filter_all; [done|..]; intros e Hin; pose proof (He e Hin) as Hlt;
      unfold kv_lt in Hlt; cbn in Hlt; lia.
  - apply kv_lookup_elem in H as Hin. pose proof (He _ Hin) as Hlt.
    unfold kv_lt in Hlt. cbn in Hlt. rewrite !decide_False by lia. by apply IH.
Qed.

Lemma kv_from_lookup_None k l : kv_lookup k l = None -> kv_from k l = kv_above k l.
Proof.
  rewrite kv_lookup_None. intros H. unfold kv_from, kv_above.
  induction l as [|e l IH]; [done|]. rewrite !filter_cons.
  pose proof (H e ltac:(left)) as Hne.
  rewrite IH by (intros e' He'; apply H; by right).
  destruct (decide (k <= e.1)); [rewrite decide_True by lia; done|].
  by rewrite decide_False by lia.
Qed.

Lemma kv_below_above k l :
  kv_sorted l -> kv_lookup k l = None -> l = kv_below k l ++ kv_above k l.
Proof. intros Hs Hk. rewrite <- kv_from_lookup_None by done. by apply kv_below_from. Qed.

Lemma kv_upto_below k l : kv_lookup k l = None -> kv_upto k l = kv_below k l.
Proof.
  rewrite kv_lookup_None. intros H. unfold kv_upto, kv_below.
  induction l as [|e l IH]; [done|]. rewrite !filter_cons.
  pose proof (H e ltac:(left)) as Hne.
  rewrite IH by (intros e' He'; apply H; by right).
  destruct (decide (e.1 < k)); [rewrite decide_True by lia; done|].
  by rewrite decide_False by lia.
Qed.

Lemma kv_decompose k x l :
  kv_sorted l -> kv_lookup k l = Some x -> l = kv_below k l ++ (k, x) :: kv_above k l.
Proof. intros Hs Hk. rewrite <- kv_from_lookup_Some by done. by apply kv_below_from. Qed.

Lemma kv_remove_lookup k x l :
  kv_sorted l -> kv_lookup k l = Some x -> kv_remove k l = kv_below k l ++ kv_above k l.
Proof.
  intros Hs Hk. rewrite (kv_decompose k x l Hs Hk) at 1. unfold kv_remove.
  rewrite filter_app, filter_cons. cbn [fst]. rewrite decide_False by (intros H; by apply H).
  rewrite !kv_filter_all; [done|..]; intros e He.
  - apply elem_of_kv_above in He as [? _]. lia.
  - apply elem_of_kv_below in He as [? _]. lia.
Qed.

(** *** Insertion *)

Lemma elem_of_kv_insert k x l e :
  kv_lookup k l = None -> e ∈ kv_insert k x l <-> e = (k, x) \/ e ∈ l.
Proof.
  rewrite kv_lookup_None. intros Hk. unfold kv_insert.
  rewrite elem_of_app, elem_of_cons, elem_of_kv_below, elem_of_kv_above.
  split; [tauto|]. intros [->|He]; [tauto|]. pose proof (Hk e He).
  destruct (Z.lt_trichotomy e.1 k) as [?|[?|?]]; tauto.
Qed.

Lemma kv_insert_sorted k x l : kv_sorted l -> kv_sorted (kv_insert k x l).
Proof.
  intros Hs. unfold kv_insert. rewrite kv_sorted_app, kv_sorted_cons, Forall_forall.
  repeat split.
  - intros a b Ha [->|Hb]%elem_of_cons.
    + by apply elem_of_kv_below in Ha as [Ha _].
    + apply elem_of_kv_below in Ha as [Ha _]. apply elem_of_kv_above in Hb as [Hb _]. lia.
  - by apply kv_sorted_filter.
  - intros e He. by apply elem_of_kv_above in He as [He _].
  - by apply kv_sorted_filter.
Qed.

Lemma kv_insert_length k x l :
  kv_sorted l -> kv_lookup k l = None -> length (kv_insert k x l) = S (length l).
Proof.
  intros Hs Hk. unfold kv_insert. rewrite length_app. cbn.
  rewrite (kv_below_above k l Hs Hk) at 3. rewrite length_app. lia.
Qed.

Lemma kv_lookup_insert k x l k' :
  kv_sorted l -> kv_lookup k l = None ->
  kv_lookup k' (kv_insert k x l) = if decide (k' = k) then Some x else kv_lookup k' l.
Proof.
  intros Hs Hk. case_decide as Hkk; subst.
  - apply kv_elem_lookup; [by apply kv_insert_sorted|].
    apply elem_of_kv_insert; auto.
  - destruct (kv_lookup k' l) as [y|] eqn:Hy.
    + apply kv_elem_lookup; [by apply kv_insert_sorted|].
      apply elem_of_kv_insert; [done|]. right. by apply kv_lookup_elem.
    + rewrite kv_lookup_None in *. intros e [->|He]%elem_of_kv_insert; auto.
      by rewrite kv_lookup_None.
Qed.

Lemma kv_insert_app_l k x l1 l2 :
  (forall e, e ∈ l2 -> k < e.1) -> kv_insert k x (l1 ++ l2) = kv_insert k x l1 ++ l2.
Proof.
  intros H2. unfold kv_insert.
  rewrite kv_below_app, kv_above_app, (kv_below_none k l2), (kv_above_all k l2), app_nil_r.
  - by rewrite <- app_assoc.
  - done.
  - intros e He. specialize (H2 e He). lia.
Qed.

Lemma kv_insert_app_r k x l1 l2 :
  (forall e, e ∈ l1 -> e.1 < k) -> kv_insert k x (l1 ++ l2) = l1 ++ kv_insert k x l2.
Proof.
  intros H1. unfold kv_insert.
  rewrite kv_below_app, kv_above_app, (kv_below_all k l1), (kv_above_none k l1).
  - by rewrite <- app_assoc.
  - intros e He. specialize (H1 e He). lia.
  - done.
Qed.

Lemma kv_insert_remove k x l : kv_sorted l -> kv_lookup k l = Some x -> kv_insert k x (kv_remove k l) = l.
Proof.
  intros Hs Hk. rewrite (kv_remove_lookup k x l Hs Hk). rewrite kv_insert_app_r.
  - rewrite <- (app_nil_l (kv_above k l)). rewrite kv_insert_app_l.
    + symmetry. exact (kv_decompose k x l Hs Hk).
    + intros e He. by apply elem_of_kv_above in He as [? _].
  - intros e He. by apply elem_of_kv_below in He as [? _].
Qed.

Lemma kv_remove_insert k x l : kv_sorted l -> kv_lookup k l = None -> kv_remove k (kv_insert k x l) = l.
Proof.
  intros Hs Hk. rewrite (kv_below_above k l Hs Hk) at 2. unfold kv_insert, kv_remove.
  rewrite filter_app, filter_cons_False by (cbn; auto).
  rewrite !kv_filter_all; [done|..]; intros e He.
  - apply elem_of_kv_above in He as [? _]. lia.
  - apply elem_of_kv_below in He as [? _]. lia.
Qed.

Lemma kv_lookup_remove k l : kv_lookup k (kv_remove k l) = None.
Proof. apply kv_lookup_None. by intros e [He _]%list_elem_of_filter. Qed.

Lemma kv_remove_absent k l : kv_lookup k l = None -> kv_remove k l = l.
Proof. intros Hk. apply kv_filter_all. intros e He. by eapply kv_lookup_None. Qed.

(** *** Greatest entry at most [k] *)

Lemma kv_lte_app_r k l1 l2 e :
  e ∈ l2 -> e.1 <= k -> kv_lte k (l1 ++ l2) = kv_lte k l2.
Proof.
  intros He Hle. unfold kv_lte. rewrite kv_upto_app, last_app.
  destruct (last (kv_upto k l2)) as [b|] eqn:Hl; [done|].
  apply last_None in Hl. exfalso.
  assert (Hin : e ∈ kv_upto k l2) by (by apply elem_of_kv_upto).
  rewrite Hl in Hin. by apply not_elem_of_nil in Hin.
Qed.

Lemma kv_lte_app_l k l1 l2 :
  (forall e, e ∈ l2 -> k < e.1) -> kv_lte k (l1 ++ l2) = kv_lte k l1.
Proof.
  intros H2. unfold kv_lte. rewrite kv_upto_app, (kv_upto_none k l2) by done.
  by rewrite app_nil_r.
Qed.

Lemma kv_lte_elem k l e : kv_lte k l = Some e -> e ∈ l /\ e.1 <= k.
Proof.
  unfold kv_lte. intros H. apply last_Some in H as [l' Hl'].
  assert (Hin : e ∈ kv_upto k l) by (rewrite Hl'; apply elem_of_app; right; left).
  apply elem_of_kv_upto in Hin. tauto.
Qed.

Lemma kv_lte_None k l : kv_lte k l = None <-> forall e, e ∈ l -> k < e.1.
Proof.
  unfold kv_lte. rewrite last_None. split.
  - intros H e He. destruct (Z.lt_ge_cases k e.1) as [|Hge]; [done|].
    assert (Hin : e ∈ kv_upto k l) by (by apply elem_of_kv_upto).
    rewrite H in Hin. by apply not_elem_of_nil in Hin.
  - apply kv_upto_none.
Qed.

(** A new entry answers the keys from its own up to the next entry. *)
Lemma kv_lte_insert k k' (x : V) l :
  k <= k' -> (forall e, e ∈ l -> k < e.1 -> k' < e.1) -> kv_lte k' (kv_insert k x l) = Some (k, x).
Proof.
  intros Hle Hnone. unfold kv_insert.
  change ((k, x) :: kv_above k l) with ([(k, x)] ++ kv_above k l). rewrite app_assoc, kv_lte_app_l.
  - rewrite (kv_lte_app_r k' _ _ (k, x)) by (try apply elem_of_cons; auto).
    unfold kv_lte, kv_upto. by rewrite filter_cons_True.
  - intros e [Hlt He]%list_elem_of_filter. by apply Hnone.
Qed.

(** [kv_lte] finds the greatest key that is at most [k]. *)
Lemma kv_lte_max k l e e' :
  kv_sorted l -> kv_lte k l = Some e -> e' ∈ l -> e'.1 <= k -> e'.1 <= e.1.
Proof.
  unfold kv_lte. intros Hs H Hin Hle. apply last_Some in H as [l' Hl'].
  assert (Hs' : kv_sorted (kv_upto k l)) by (by apply kv_sorted_filter).
  assert (Hin' : e' ∈ kv_upto k l) by (by apply elem_of_kv_upto).
  rewrite Hl' in Hs', Hin'. apply kv_sorted_app in Hs' as (Hlt & _ & _).
  apply elem_of_app in Hin' as [Hin'|Hin'].
  - specialize (Hlt e' e Hin' ltac:(left)). lia.
  - apply elem_of_cons in Hin' as [->|Hin']; [lia|]. by apply not_elem_of_nil in Hin'.
Qed.

Lemma kv_lte_lookup k l (x : V) :
  kv_sorted l -> kv_lookup k l = Some x -> kv_lte k l = Some (k, x).
Proof.
  intros Hs Hk. unfold kv_lte.
  assert (Hl : l = kv_below k l ++ (k, x) :: kv_above k l).
  { rewrite <- kv_from_lookup_Some by done. by apply kv_below_from. }
  rewrite Hl at 1. rewrite kv_upto_app. unfold kv_upto at 2. rewrite filter_cons.
  cbn. rewrite decide_True by lia.
  rewrite (kv_filter_none _ (kv_above k l)); [by rewrite last_snoc|].
  intros a Ha. apply elem_of_kv_above in Ha as [Ha _]. lia.
Qed.

(** *** First and last keys *)

Lemma kv_first_le l k0 e : kv_sorted l -> kv_first l = Some k0 -> e ∈ l -> k0 <= e.1.
Proof.
  destruct l as [|a l]; [done|]. cbn. intros Hs ? Hin; simplify_eq.
  apply kv_sorted_cons in Hs as [Ha _]. rewrite Forall_forall in Ha.
  apply elem_of_cons in Hin as [->|Hin]; [lia|]. specialize (Ha e Hin).
  unfold kv_lt in Ha. lia.
Qed.

Lemma kv_last_ge l k0 e : kv_sorted l -> kv_last l = Some k0 -> e ∈ l -> e.1 <= k0.
Proof.
  unfold kv_last. intros Hs Hl Hin.
  destruct (last l) as [b|] eqn:Hb; [|done]. cbn in Hl. simplify_eq.
  apply last_Some in Hb as [l' ->]. apply kv_sorted_app in Hs as (Hlt & _ & _).
  apply elem_of_app in Hin as [Hin|Hin].
  - specialize (Hlt e b Hin ltac:(left)). lia.
  - apply list_elem_of_singleton in Hin as ->. lia.
Qed.

Lemma kv_first_elem l k0 : kv_first l = Some k0 -> exists e, e ∈ l /\ e.1 = k0.
Proof. destruct l as [|a l]; [done|]. cbn. intros ?; simplify_eq. exists a. split; [left|done]. Qed.

Lemma kv_last_elem l k0 : kv_last l = Some k0 -> exists e, e ∈ l /\ e.1 = k0.
Proof.
  unfold kv_last. destruct (last l) as [b|] eqn:Hb; [|done]. cbn. intros ?; simplify_eq.
  exists b. split; [|done]. apply last_Some in Hb as [l' ->]. apply elem_of_app. right. left.
Qed.

(** *** The finite map a sorted list denotes *)

Lemma kv_map_lookup k l : kv_sorted l -> kv_map l !! k = kv_lookup k l.
Proof.
  intros _. unfold kv_map. induction l as [|[k' x] l IH]; [done|]. cbn.
  destruct (Z.eqb_spec k' k) as [->|Hne].
  - apply lookup_insert_eq.
  - by rewrite lookup_insert_ne.
Qed.

Lemma kv_map_insert k x l :
  kv_sorted l -> kv_lookup k l = None -> kv_map (kv_insert k x l) = <[k:=x]> (kv_map l).
Proof.
  intros Hs Hk. apply map_eq. intros k'.
  rewrite kv_map_lookup, kv_lookup_insert by auto using kv_insert_sorted.
  rewrite lookup_insert, kv_map_lookup by done.
  repeat case_decide; congruence.
Qed.
End KV.

(** *** Changing the values *)
Section VMap.
Context {V W : Type} (g : V -> W).
Implicit Types (l : list (Z * V)) (k : Z) (x : V).

(** Every value through [g]; the keys stay. *)
Definition kv_vmap l : list (Z * W) := map (fun e => (e.1, g e.2)) l.

Lemma kv_vmap_keys l : map fst (kv_vmap l) = map fst l.
Proof. unfold kv_vmap. rewrite map_map. done. Qed.

Lemma filter_kv_vmap (P : Z -> Prop) `{!forall z, Decision (P z)} l :
  filter (fun e : Z * W => P e.1) (kv_vmap l) = kv_vmap (filter (fun e => P e.1) l).
Proof.
  induction l as [|e l IH]; [done|]. cbn [kv_vmap map]. destruct (decide (P e.1)).
  - rewrite !filter_cons_True by done. cbn [kv_vmap map]. f_equal. exact IH.
  - rewrite !filter_cons_False by done. exact IH.
Qed.

Lemma kv_lookup_vmap k l : kv_lookup k (kv_vmap l) = g <$> kv_lookup k l.
Proof. induction l as [|[k' x] l IH]; [done|]. cbn. by destruct (k' =? k). Qed.

Lemma kv_below_vmap k l : kv_below k (kv_vmap l) = kv_vmap (kv_below k l).
Proof. exact (filter_kv_vmap (fun z => z < k) l). Qed.
Lemma kv_above_vmap k l : kv_above k (kv_vmap l) = kv_vmap (kv_above k l).
Proof. exact (filter_kv_vmap (fun z => k < z) l). Qed.
Lemma kv_upto_vmap k l : kv_upto k (kv_vmap l) = kv_vmap (kv_upto k l).
Proof. exact (filter_kv_vmap (fun z => z <= k) l). Qed.
Lemma kv_from_vmap k l : kv_from k (kv_vmap l) = kv_vmap (kv_from k l).
Proof. exact (filter_kv_vmap (fun z => k <= z) l). Qed.
Lemma kv_remove_vmap k l : kv_remove k (kv_vmap l) = kv_vmap (kv_remove k l).
Proof. exact (filter_kv_vmap (fun z => z <> k) l). Qed.

Lemma kv_vmap_app l l' : kv_vmap (l ++ l') = kv_vmap l ++ kv_vmap l'.
Proof. apply map_app. Qed.

Lemma kv_insert_vmap k x l : kv_insert k (g x) (kv_vmap l) = kv_vmap (kv_insert k x l).
Proof. unfold kv_insert. by rewrite kv_below_vmap, kv_above_vmap, kv_vmap_app. Qed.

Lemma kv_lte_vmap k l : kv_lte k (kv_vmap l) = (fun e => (e.1, g e.2)) <$> kv_lte k l.
Proof. unfold kv_lte. rewrite kv_upto_vmap. apply fmap_last. Qed.

Lemma kv_first_vmap l : kv_first (kv_vmap l) = kv_first l.
Proof. by destruct l. Qed.

Lemma kv_last_vmap l : kv_last (kv_vmap l) = kv_last l.
Proof.
  unfold kv_last. change (kv_vmap l) with ((fun e : Z * V => (e.1, g e.2)) <$> l).
  rewrite fmap_last. by destruct (last l).
Qed.

Lemma kv_sorted_vmap l : kv_sorted (kv_vmap l) <-> kv_sorted l.
Proof. by rewrite !kv_sorted_fst, kv_vmap_keys. Qed.

Lemma elem_of_kv_vmap l e : e ∈ l -> (e.1, g e.2) ∈ kv_vmap l.
Proof. apply (list_elem_of_fmap_2 (fun e => (e.1, g e.2))). Qed.

Lemma kv_vmap_take n l : kv_vmap (take n l) = take n (kv_vmap l).
Proof. symmetry. apply firstn_map. Qed.

Lemma kv_vmap_drop n l : kv_vmap (drop n l) = drop n (kv_vmap l).
Proof. symmetry. apply skipn_map. Qed.

Lemma kv_vmap_length l : length (kv_vmap l) = length l.
Proof. apply length_map. Qed.

Lemma kv_vmap_nil l : kv_vmap l = [] <-> l = [].
Proof. by destruct l. Qed.
End VMap.

(** *** Iteration

    A callback [f(key, value, exit_flag)] may update the value, raise the
    flag, and have effects of its own, on a state [St]. *)

Section Visit.
Context {V St : Type} (f : Z -> V -> bool -> St -> V * bool * St).

(** What an iteration does to the pairs it visits: the reference the
    loops are compared with. *)
Fixpoint visit (l : list (Z * V)) (exit_flag : bool) (s : St) : list (Z * V) * bool * St :=
  match l with
  | [] => ([], exit_flag, s)
  | e :: l' =>
      if exit_flag then (l, exit_flag, s)
      else
        let '(x, exit', s') := f e.1 e.2 exit_flag s in
        let '(l'', exit'', s'') := visit l' exit' s' in
        ((e.1, x) :: l'', exit'', s'')
  end.

Lemma visit_keys l b s : map fst (visit l b s).1.1 = map fst l.
Proof.
  revert b s. induction l as [|e l IH]; intros b s; [done|]. cbn [visit].
  destruct b; [done|]. destruct (f e.1 e.2 false s) as [[x b'] s'].
  specialize (IH b' s'). destruct (visit l b' s') as [[l'' b''] s'']. cbn in *. by rewrite IH.
Qed.

Lemma visit_length l b s : length (visit l b s).1.1 = length l.
Proof. rewrite <- (length_map fst), visit_keys. apply length_map. Qed.

Lemma visit_true l s : visit l true s = (l, true, s).
Proof. by destruct l. Qed.

Lemma visit_app l1 l2 b s :
  visit (l1 ++ l2) b s =
  let '(l1', b1, s1) := visit l1 b s in
  let '(l2', b2, s2) := visit l2 b1 s1 in (l1' ++ l2', b2, s2).
Proof.
  revert b s. induction l1 as [|e l1 IH]; intros b s; cbn [visit app].
  { by destruct (visit l2 b s) as [[? ?] ?]. }
  destruct b; [by rewrite visit_true|]. destruct (f e.1 e.2 false s) as [[x b'] s']. rewrite IH.
  destruct (visit l1 b' s') as [[l1' b1] s1]. by destruct (visit l2 b1 s1) as [[? ?] ?].
Qed.
End Visit.

Create HintDb kv discriminated.
#[export] Hint Resolve kv_sorted_nil kv_sorted_single kv_sorted_filter kv_insert_sorted
  kv_sorted_take kv_sorted_drop : kv.

(** * The sorted content of an unsorted array

    [kv_sort] is the sorted arrangement of pairs with distinct keys.  A sorted
    list is determined by its pairs, so an operation on an unsorted array is
    described by the permutation it makes. *)

(** The last pair of a list, under a name that no vector class redefines. *)
Abbreviation last_pair := last (only parsing).

Definition kv_le {V} (a b : Z * V) : Prop := a.1 <= b.1.

#[export] Instance kv_le_dec {V} (a b : Z * V) : Decision (kv_le a b).
Proof. unfold kv_le. apply _. Defined.

#[export] Instance kv_le_total {V} : Total (@kv_le V).
Proof. intros a b. unfold kv_le. lia. Qed.

#[export] Instance kv_le_trans {V} : Transitive (@kv_le V).
Proof. intros a b c. unfold kv_le. lia. Qed.

Definition kv_sort {V} (l : list (Z * V)) : list (Z * V) := merge_sort kv_le l.

Section Sort.
Context {V : Type}.
Implicit Types (l el : list (Z * V)) (k : Z) (e : Z * V).

Lemma kv_sort_perm l : kv_sort l ≡ₚ l.
Proof. apply merge_sort_Permutation. Qed.

(** Distinct keys. *)
Definition distinct l : Prop := NoDup (map fst l).

Lemma distinct_perm l l' : l ≡ₚ l' -> distinct l -> distinct l'.
Proof. unfold distinct. by intros ->. Qed.

Lemma distinct_app l l' :
  distinct (l ++ l') <-> distinct l /\ distinct l' /\ forall a b, a ∈ l -> b ∈ l' -> a.1 <> b.1.
Proof.
  unfold distinct. rewrite map_app, NoDup_app. split.
  - intros (H1 & H2 & H3). split_and!; try done. intros a b Ha Hb He.
    apply (H2 a.1); [by apply list_elem_of_fmap_2|]. rewrite He. by apply list_elem_of_fmap_2.
  - intros (H1 & H2 & H3). split_and!; try done.
    intros k (a & -> & Ha)%list_elem_of_fmap (b & He & Hb)%list_elem_of_fmap. by apply (H3 a b).
Qed.

Lemma kv_sorted_distinct l : kv_sorted l -> distinct l.
Proof.
  induction l as [|e l IH]; [constructor|]. intros [Hf Hs]%kv_sorted_cons. apply NoDup_cons.
  split; [|by apply IH]. intros (a & He & Ha)%list_elem_of_fmap.
  rewrite Forall_forall in Hf. specialize (Hf a Ha). unfold kv_lt in Hf. lia.
Qed.

Lemma kv_sort_sorted l : distinct l -> kv_sorted (kv_sort l).
Proof.
  intros Hd. apply (distinct_perm _ (kv_sort l)) in Hd; [|by rewrite kv_sort_perm].
  pose proof (StronglySorted_merge_sort kv_le l) as Hs. fold (kv_sort l) in Hs.
  revert Hd. induction Hs as [|e m Hm IH He]; intros Hd; [constructor|].
  apply NoDup_cons in Hd as [Hnot Hd]. apply kv_sorted_cons. split; [|by apply IH].
  rewrite Forall_forall in He |- *. intros a Ha. specialize (He a Ha). unfold kv_lt, kv_le in *.
  assert (e.1 <> a.1); [|lia]. intros Hea. apply Hnot. rewrite Hea. by apply list_elem_of_fmap_2.
Qed.

(** A sorted list is determined by its pairs. *)
Lemma kv_sorted_unique l l' : kv_sorted l -> kv_sorted l' -> l ≡ₚ l' -> l = l'.
Proof.
  revert l'. induction l as [|e l IH]; intros l' Hs Hs' Hp.
  { by apply Permutation_nil_l in Hp. }
  destruct l' as [|e' l']; [by apply Permutation_nil_r in Hp|].
  apply kv_sorted_cons in Hs as [Hf Hs]. apply kv_sorted_cons in Hs' as [Hf' Hs'].
  rewrite Forall_forall in Hf, Hf'. unfold kv_lt in *.
  assert (e = e') as <-.
  { assert (He : e ∈ e' :: l') by (rewrite <- Hp; left).
    assert (He' : e' ∈ e :: l) by (rewrite Hp; left).
    apply elem_of_cons in He as [?|He]; [done|]. apply elem_of_cons in He' as [?|He']; [done|].
    specialize (Hf e' He'). specialize (Hf' e He). lia. }
  f_equal. apply IH; [done..|]. by apply Permutation_cons_inv in Hp.
Qed.

Lemma kv_sort_unique l el : kv_sorted el -> l ≡ₚ el -> kv_sort l = el.
Proof.
  intros Hs Hp. apply kv_sorted_unique; [|done|by rewrite kv_sort_perm].
  apply kv_sort_sorted. eapply distinct_perm; [by symmetry|]. by apply kv_sorted_distinct.
Qed.

(** ** What permutations preserve *)

Lemma kv_lookup_perm k l el : kv_sorted el -> l ≡ₚ el -> kv_lookup k l = kv_lookup k el.
Proof.
  intros Hs Hp. destruct (kv_lookup k l) as [x|] eqn:Hk.
  - apply kv_lookup_elem in Hk. rewrite Hp in Hk. symmetry. by apply kv_elem_lookup.
  - symmetry. rewrite kv_lookup_None in Hk |- *. intros e He. apply Hk. by rewrite Hp.
Qed.

Lemma kv_filter_perm (P : Z * V -> Prop) `{!forall e, Decision (P e)} l el :
  l ≡ₚ el -> filter P l ≡ₚ filter P el.
Proof. by intros ->. Qed.

Lemma kv_insert_perm k x l : kv_sorted l -> kv_lookup k l = None -> kv_insert k x l ≡ₚ (k, x) :: l.
Proof.
  intros Hs Hk. unfold kv_insert. rewrite (kv_below_above k l) at 3 by done. solve_Permutation.
Qed.

Lemma kv_remove_perm k x l : kv_sorted l -> kv_lookup k l = Some x -> (k, x) :: kv_remove k l ≡ₚ l.
Proof.
  intros Hs Hk. rewrite (kv_remove_lookup k x) by done.
  rewrite (kv_decompose k x l) at 3 by done. solve_Permutation.
Qed.

(** The ends of a sorted list. *)
Lemma kv_head_min e el : kv_sorted el -> e ∈ el -> (forall a, a ∈ el -> e.1 <= a.1) -> head el = Some e.
Proof.
  intros Hs He Hmin. destruct el as [|a el]; [by apply elem_of_nil in He|]. cbn.
  apply elem_of_cons in He as [->|He]; [done|]. apply kv_sorted_cons in Hs as [Hf _].
  rewrite Forall_forall in Hf. specialize (Hf e He). specialize (Hmin a ltac:(left)). unfold kv_lt in Hf. lia.
Qed.

Lemma kv_head_le a e el : kv_sorted el -> head el = Some a -> e ∈ el -> a.1 <= e.1.
Proof.
  destruct el as [|b el]; [done|]. cbn. intros [Hf _]%kv_sorted_cons [= ->] [->|He]%elem_of_cons; [done|].
  rewrite Forall_forall in Hf. specialize (Hf e He). unfold kv_lt in Hf. lia.
Qed.

Lemma kv_last_ge' a e el : kv_sorted el -> last el = Some a -> e ∈ el -> e.1 <= a.1.
Proof.
  intros Hs Ha He. apply (kv_last_ge el a.1 e Hs); [|done]. unfold kv_last. by rewrite Ha.
Qed.

Lemma kv_last_max e el : kv_sorted el -> e ∈ el -> (forall a, a ∈ el -> a.1 <= e.1) -> last el = Some e.
Proof.
  intros Hs He Hmax. destruct (last el) as [a|] eqn:Ha.
  - pose proof (kv_last_ge' a e el Hs Ha He). apply last_Some in Ha as [l' ->].
    specialize (Hmax a ltac:(apply elem_of_app; right; left)).
    apply elem_of_app in He as [He|He%list_elem_of_singleton]; [|by rewrite He].
    apply kv_sorted_app in Hs as (Hlt & _). specialize (Hlt e a He ltac:(left)). lia.
  - apply last_None in Ha. subst. by apply elem_of_nil in He.
Qed.
End Sort.
