(* ===== verification/Prog.v ===== *)
(** * Prog: effectful C++ code as programs over atomic events

    The methods of the cache are sequences of atomic accesses to shared memory
    with ordinary control flow in between.  [prog E A] is the tree of such a
    method: [Vis e k] performs the atomic event [e] and continues with its
    answer, [Crash] is a failed [assert], a null or dangling dereference or a
    thrown exception, and [Spin] marks a loop whose fuel ran out.  [run]
    executes a program alone (no interference) against a handler of its
    events; a theorem that a program ends in [Done] therefore says that it
    neither fails an assertion nor runs out of fuel. *)

From S2P Require Import Prelude.

Inductive prog (E : Type -> Type) (A : Type) : Type :=
| Ret (a : A)
| Vis {B : Type} (e : E B) (k : B -> prog E A)
| Crash
| Spin.

Arguments Ret {E A} a.
Arguments Vis {E A B} e k.
Arguments Crash {E A}.
Arguments Spin {E A}.

Fixpoint bind {E : Type -> Type} {A B : Type} (m : prog E A) (f : A -> prog E B) : prog E B :=
  match m with
  | Ret a => f a
  | Vis e k => Vis e (fun b => bind (k b) f)
  | Crash => Crash
  | Spin => Spin
  end.

Declare Scope prog_scope.
Delimit Scope prog_scope with prog.

Notation "'let*' x := m 'in' k" := (bind m (fun x => k))
  (at level 10, x pattern, m at level 100, k at level 200) : prog_scope.
Notation "m ;;; k" := (bind m (fun _ => k))
  (at level 100, right associativity) : prog_scope.

Open Scope prog_scope.

Definition trigger {E : Type -> Type} {B : Type} (e : E B) : prog E B := Vis e Ret.

(** [assert(b)] *)
Definition passert {E : Type -> Type} (b : bool) : prog E unit :=
  if b then Ret tt else Crash.

(** A partial pure computation inside a program. *)
Definition lift_opt {E : Type -> Type} {A : Type} (o : option A) : prog E A :=
  match o with Some a => Ret a | None => Crash end.

(** [while (true) { body }] where [body] either goes round again ([None],
    the source's [continue] and [goto top]) or returns. *)
Fixpoint retry {E : Type -> Type} {A : Type} (fuel : nat) (body : prog E (option A)) : prog E A :=
  match fuel with
  | O => Spin
  | S fuel' =>
      let* r := body in
      match r with Some a => Ret a | None => retry fuel' body end
  end.

(** Replace every event of a program by a program over other events. *)
Fixpoint translate {E F : Type -> Type} (h : forall B, E B -> prog F B) {A : Type}
    (m : prog E A) : prog F A :=
  match m with
  | Ret a => Ret a
  | Vis e k => bind (h _ e) (fun b => translate h (k b))
  | Crash => Crash
  | Spin => Spin
  end.

Inductive outcome (S A : Type) : Type :=
| Done (a : A) (s : S)
| Crashed
| OutOfFuel.

Arguments Done {S A} a s.
Arguments Crashed {S A}.
Arguments OutOfFuel {S A}.

Section Run.
Context {E : Type -> Type} {St : Type}.
Context (h : forall B, E B -> St -> option (B * St)).

Fixpoint run {A : Type} (m : prog E A) (s : St) : outcome St A :=
  match m with
  | Ret a => Done a s
  | Vis e k =>
      match h _ e s with
      | Some (b, s') => run (k b) s'
      | None => Crashed
      end
  | Crash => Crashed
  | Spin => OutOfFuel
  end.

Lemma run_bind {A B : Type} (m : prog E A) (f : A -> prog E B) (s : St) :
  run (bind m f) s =
  match run m s with
  | Done a s' => run (f a) s'
  | Crashed => Crashed
  | OutOfFuel => OutOfFuel
  end.
Proof.
  revert s. induction m as [a|C e k IH| |]; intros s; cbn; [done| |done|done].
  destruct (h C e s) as [[b s']|]; [apply IH|done].
Qed.

Lemma run_bind_done {A B : Type} (m : prog E A) (f : A -> prog E B) (s s' : St) (a : A) :
  run m s = Done a s' -> run (bind m f) s = run (f a) s'.
Proof. intros H. by rewrite run_bind, H. Qed.

Lemma run_bind_assoc {A B C : Type} (m : prog E A) (f : A -> prog E B) (g : B -> prog E C)
    (s : St) :
  run (bind (bind m f) g) s = run (bind m (fun a => bind (f a) g)) s.
Proof.
  rewrite !run_bind. destruct (run m s) as [a s'| |]; try done.
  by rewrite run_bind.
Qed.

Lemma run_retry_done {A : Type} (fuel : nat) (body : prog E (option A)) (s s' : St) (a : A) :
  run body s = Done (Some a) s' -> run (retry (S fuel) body) s = Done a s'.
Proof. intros H. cbn. by rewrite run_bind, H. Qed.

Lemma run_lift_opt {A : Type} (o : option A) (a : A) (s : St) :
  o = Some a -> run (lift_opt o) s = Done a s.
Proof. by intros ->. Qed.

Lemma run_passert_true (b : bool) (s : St) : b = true -> run (passert b) s = Done tt s.
Proof. by intros ->. Qed.
End Run.

(** Runs with interference: before each event the environment may change the
    state, by a step of [env]; an event may answer and act as [may] allows. *)
Section Interference.
Context {E : Type -> Type} {St : Type}.
Context (may : forall B, E B -> St -> B -> St -> Prop) (env : St -> St -> Prop).

Fixpoint irun {A : Type} (m : prog E A) (s : St) (a : A) (s' : St) : Prop :=
  match m with
  | Ret x => x = a /\ s' = s
  | Vis e k => exists s1 b s2, env s s1 /\ may _ e s1 b s2 /\ irun (k b) s2 a s'
  | Crash => False
  | Spin => False
  end.
End Interference.

(** Execute the head of a bound program with an equation for it. *)
Ltac run_step H := rewrite (run_bind_done _ _ _ _ _ _ H).

(** The same, and reduce the continuation. *)
Ltac run_with H := rewrite (run_bind_done _ _ _ _ _ _ H); cbv beta iota zeta; cbn [negb].

(** Use an existential run lemma: name the state it ends in. *)
Tactic Notation "run_ex" constr(H) "as" simple_intropattern(m) simple_intropattern(Hr)
    simple_intropattern(Hm) :=
  let Hrun := fresh "Hrun" in destruct H as (m & Hrun & Hm); run_with Hrun; clear Hrun.
