(* ===== verification/SvLock.v ===== *)
(** * SvLock: the sequence lock of a node (lock/sv_lock.h)

    A lock is one 64-bit word: bit 0 is the orphan bit of the node, bit 1 the
    freeze bit, bit 2 the lock bit (both set: dead), and the remaining 61 bits
    count the releases that changed the node.  The first part translates every
    method as the atomic access it makes to the word.  The second part is the
    abstract lock (an orphan flag, a state, a counter modulo 2^61) that the
    words are proved to implement.  The third part is the protocol of threads
    using the lock, with the theorem readers rely on. *)

From S2P Require Import Prelude Prog.

Local Open Scope Z_scope.

(** ** The bits *)

Definition ORPHAN_BIT : Z := 1.
Definition FREEZE_BIT : Z := 2.
Definition LOCK_BIT : Z := 4.
Definition STATE_MASK : Z := FREEZE_BIT + LOCK_BIT.
Definition DEAD_MASK : Z := STATE_MASK.

Definition is_orphan (v : Z) : bool := Z.land v ORPHAN_BIT =? ORPHAN_BIT.
Definition is_unlocked (v : Z) : bool := Z.land v STATE_MASK =? 0.
Definition is_frozen (v : Z) : bool := Z.land v STATE_MASK =? FREEZE_BIT.
Definition is_locked (v : Z) : bool := Z.land v STATE_MASK =? LOCK_BIT.
Definition is_dead (v : Z) : bool := Z.land v STATE_MASK =? DEAD_MASK.

(** [explicit sv_lock(bool orphan)] *)
Definition sv_lock_new (orphan : bool) : Z := if orphan then ORPHAN_BIT else 0.

(** [initialize(_, orphan)], for a lock built by the default constructor. *)
Definition initialize (orphan : bool) (cur : Z) : option (unit * Z) :=
  Some (tt, if orphan then ORPHAN_BIT else cur).

(** ** Methods

    A method that makes one access to the word is a function of its current
    value: it yields the method's result and the new value, or [None] when its
    [assert] fails.  (The assertion loads the word just before the access; the
    methods that have one are called by the owner of the lock, while no other
    thread can change the word: [owner_exclusive] below.) *)

Section Methods.
Local Abbreviation rmw B := (Z -> option (B * Z)) (only parsing).

(** [compare_exchange_strong(v, new)] *)
Definition cas_strong (expected desired : Z) : rmw bool := fun cur =>
  if cur =? expected then Some (true, desired) else Some (false, cur).

Definition try_upgrade (v : Z) : rmw bool := fun cur =>
  assert_ (is_unlocked v) ;; cas_strong v (u64 (v + LOCK_BIT)) cur.

Definition try_freeze (v : Z) : rmw bool := fun cur =>
  assert_ (is_unlocked v) ;; cas_strong v (u64 (v + FREEZE_BIT)) cur.

(** [lock.fetch_add(LOCK_BIT) + LOCK_BIT] *)
Definition release : rmw Z := fun cur =>
  assert_ (is_locked cur) ;;
  Some (u64 (cur + LOCK_BIT), u64 (cur + LOCK_BIT)).

Definition release_as_orphan : rmw Z := fun cur =>
  assert_ (is_locked cur) ;; assert_ (negb (is_orphan cur)) ;;
  Some (u64 (cur + LOCK_BIT + ORPHAN_BIT), u64 (cur + (LOCK_BIT + ORPHAN_BIT))).

Definition release_and_adopt : rmw Z := fun cur =>
  assert_ (is_locked cur) ;; assert_ (is_orphan cur) ;;
  Some (u64 (cur + (LOCK_BIT - ORPHAN_BIT)), u64 (cur + (LOCK_BIT - ORPHAN_BIT))).

Definition release_unchanged : rmw unit := fun cur =>
  assert_ (is_locked cur) ;; Some (tt, u64 (cur - LOCK_BIT)).

Definition release_changed_if (b : bool) : rmw unit := fun cur =>
  if b then '(_, new) ← release cur; Some (tt, new) else release_unchanged cur.

Definition acquire_frozen : rmw unit := fun cur =>
  assert_ (is_frozen cur) ;; Some (tt, u64 (cur + (LOCK_BIT - FREEZE_BIT))).

Definition thaw : rmw unit := fun cur =>
  assert_ (is_frozen cur) ;; Some (tt, u64 (cur - FREEZE_BIT)).

Definition die : rmw unit := fun cur =>
  assert_ (is_locked cur) ;; Some (tt, u64 (cur + FREEZE_BIT)).

(** [lock.load() & ~STATE_MASK] *)
Definition begin_read : rmw Z := fun cur =>
  Some (Z.land cur (Z.lnot STATE_MASK), cur).

(** [v == (lock.load() & ~FREEZE_BIT)] *)
Definition confirm_read (v : Z) : rmw bool := fun cur =>
  Some (v =? Z.land cur (Z.lnot FREEZE_BIT), cur).

Definition get_value : rmw Z := fun cur => Some (cur, cur).
End Methods.

(** The accesses a method makes: one atomic read-modify-write, or a
    [compare_exchange_weak], which answers whether it succeeded and the value
    it saw. *)
Inductive lockE : Type -> Type :=
| Rmw {B : Type} (f : Z -> option (B * Z)) : lockE B
| CasWeak (expected desired : Z) : lockE (bool * Z).

Definition lock_handle (B : Type) (e : lockE B) : Z -> option (B * Z) :=
  match e with
  | Rmw f => f
  | CasWeak expected desired => fun cur =>
      Some ((cur =? expected, cur), if cur =? expected then desired else cur)
  end.

(** The loop of [acquire()]. *)
Fixpoint acquire_loop (fuel : nat) (read_value : Z) : prog lockE bool :=
  match fuel with
  | O => Spin
  | S fuel' =>
      if is_unlocked read_value then
        let* (success, seen) := trigger (CasWeak read_value (u64 (read_value + LOCK_BIT))) in
        if success : bool then Ret true else acquire_loop fuel' seen
      else if is_dead read_value then Ret false
      else
        let* v := trigger (Rmw get_value) in acquire_loop fuel' v
  end.

Definition acquire (fuel : nat) : prog lockE bool :=
  let* read_value := trigger (Rmw get_value) in acquire_loop fuel read_value.

(** The loop of [freeze()]. *)
Fixpoint freeze_loop (fuel : nat) (read_value : Z) : prog lockE bool :=
  match fuel with
  | O => Spin
  | S fuel' =>
      if is_unlocked read_value then
        let* (success, seen) := trigger (CasWeak read_value (u64 (read_value + FREEZE_BIT))) in
        if success : bool then Ret true else freeze_loop fuel' seen
      else if is_dead read_value then Ret false
      else
        let* v := trigger (Rmw get_value) in freeze_loop fuel' v
  end.

Definition freeze (fuel : nat) : prog lockE bool :=
  let* read_value := trigger (Rmw get_value) in freeze_loop fuel read_value.

(** ** The abstract lock *)

Inductive lock_state := Unlocked | Frozen | Locked | Dead.

#[export] Instance lock_state_eq_dec : EqDecision lock_state.
Proof. solve_decision. Defined.

Record alock := ALock { al_orphan : bool; al_state : lock_state; al_count : Z }.

#[export] Instance alock_eq_dec : EqDecision alock.
Proof. solve_decision. Defined.

Definition alock_ok (a : alock) : Prop := 0 <= al_count a < 2 ^ 61.

Definition state_code (st : lock_state) : Z :=
  match st with Unlocked => 0 | Frozen => 2 | Locked => 4 | Dead => 6 end.

(** The word of an abstract lock, and back. *)
Definition encode (a : alock) : Z :=
  8 * al_count a + (state_code (al_state a) + Z.b2z (al_orphan a)).

Definition decode (v : Z) : alock :=
  ALock (is_orphan v)
    (if is_unlocked v then Unlocked else if is_frozen v then Frozen
     else if is_locked v then Locked else Dead)
    (v / 8).

(** The transitions of the abstract lock. *)
Definition al_from (st : lock_state) (f : alock -> alock) (a : alock) : option alock :=
  if decide (al_state a = st) then Some (f a) else None.

Definition al_to (st : lock_state) (a : alock) : alock :=
  ALock (al_orphan a) st (al_count a).

Definition al_bump (orphan : bool) (a : alock) : alock :=
  ALock orphan Unlocked ((al_count a + 1) mod 2 ^ 61).

Definition al_lock := al_from Unlocked (al_to Locked).
Definition al_freeze := al_from Unlocked (al_to Frozen).
Definition al_release a := al_from Locked (al_bump (al_orphan a)) a.
Definition al_release_as_orphan a :=
  if al_orphan a then None else al_from Locked (al_bump true) a.
Definition al_release_and_adopt a :=
  if al_orphan a then al_from Locked (al_bump false) a else None.
Definition al_release_unchanged := al_from Locked (al_to Unlocked).
Definition al_acquire_frozen := al_from Frozen (al_to Locked).
Definition al_thaw := al_from Frozen (al_to Unlocked).
Definition al_die := al_from Locked (al_to Dead).

#[global] Arguments encode : simpl never.
#[global] Arguments al_bump : simpl never.
#[global] Arguments al_to : simpl never.

(** A mask below 8 only sees the low three bits. *)
Lemma land_low3 v m : 0 <= m < 8 -> Z.land v m = Z.land (v mod 8) m.
Proof.
  intros Hm. assert (Hm7 : m = Z.land 7 m).
  { assert (m = 0 \/ m = 1 \/ m = 2 \/ m = 3 \/ m = 4 \/ m = 5 \/ m = 6 \/ m = 7) as Hc by lia.
    by repeat destruct Hc as [->|Hc]; try subst. }
  rewrite Hm7 at 1. rewrite Z.land_assoc.
  change 7 with (Z.ones 3). rewrite Z.land_ones by lia. done.
Qed.

Lemma encode_low3 a : encode a mod 8 = state_code (al_state a) + Z.b2z (al_orphan a).
Proof.
  unfold encode. rewrite Z.add_comm, Z.mul_comm, Z.mod_add by lia.
  apply Z.mod_small. destruct (al_state a), (al_orphan a); cbn; lia.
Qed.

Lemma encode_range a : alock_ok a -> is_u64 (encode a).
Proof.
  unfold alock_ok, is_u64, encode. intros H.
  destruct (al_state a), (al_orphan a); cbn [state_code Z.b2z]; lia.
Qed.

(** Every test on the word of an abstract lock reduces to one on its low bits. *)
Ltac mask_range := unfold DEAD_MASK, STATE_MASK, ORPHAN_BIT, FREEZE_BIT, LOCK_BIT; lia.

Ltac low_bits :=
  unfold is_orphan, is_unlocked, is_frozen, is_locked, is_dead;
  rewrite land_low3 by mask_range; rewrite encode_low3.

Lemma is_orphan_encode a : is_orphan (encode a) = al_orphan a.
Proof. low_bits. by destruct a as [[] [] c]. Qed.

Lemma is_unlocked_encode a : is_unlocked (encode a) = bool_decide (al_state a = Unlocked).
Proof. low_bits. by destruct a as [[] [] c]. Qed.

Lemma is_frozen_encode a : is_frozen (encode a) = bool_decide (al_state a = Frozen).
Proof. low_bits. by destruct a as [[] [] c]. Qed.

Lemma is_locked_encode a : is_locked (encode a) = bool_decide (al_state a = Locked).
Proof. low_bits. by destruct a as [[] [] c]. Qed.

Lemma is_dead_encode a : is_dead (encode a) = bool_decide (al_state a = Dead).
Proof. low_bits. by destruct a as [[] [] c]. Qed.

Create Rewrite HintDb lock.
#[export] Hint Rewrite is_orphan_encode is_unlocked_encode is_frozen_encode
  is_locked_encode is_dead_encode : lock.

Lemma decode_encode a : decode (encode a) = a.
Proof.
  unfold decode. autorewrite with lock.
  replace (encode a / 8) with (al_count a).
  - destruct a as [o [] c]; done.
  - unfold encode. rewrite Z.add_comm, Z.mul_comm, Z.div_add by lia.
    rewrite Z.div_small; [lia|]. destruct (al_state a), (al_orphan a); cbn; lia.
Qed.

Lemma decode_ok v : is_u64 v -> alock_ok (decode v).
Proof. unfold is_u64, alock_ok. cbn. intros H. split; [apply Z.div_pos; lia|].
  apply Z.div_lt_upper_bound; lia. Qed.

Lemma encode_decode v : is_u64 v -> encode (decode v) = v.
Proof.
  intros Hv. pose proof (Z.div_mod v 8 ltac:(lia)) as Hd.
  pose proof (Z.mod_pos_bound v 8 ltac:(lia)) as Hm.
  unfold encode, decode. cbn [al_count al_state al_orphan].
  unfold is_orphan, is_unlocked, is_frozen, is_locked.
  rewrite !(land_low3 v) by mask_range.
  assert (v mod 8 = 0 \/ v mod 8 = 1 \/ v mod 8 = 2 \/ v mod 8 = 3 \/ v mod 8 = 4 \/
          v mod 8 = 5 \/ v mod 8 = 6 \/ v mod 8 = 7) as Hc by lia.
  repeat destruct Hc as [Hc|Hc]; rewrite Hc in *;
    match goal with |- _ + ?t = _ => let t' := eval vm_compute in t in change t with t' end; lia.
Qed.

Lemma encode_inj a b : encode a = encode b -> a = b.
Proof. intros H. by rewrite <- (decode_encode a), H, decode_encode. Qed.

(** ** Every method implements its abstract transition *)

Definition word_implements {B : Type} (f : Z -> option (B * Z)) (g : alock -> option alock)
    (ret : alock -> B) : Prop :=
  forall a, alock_ok a -> f (encode a) = (fun a' => (ret a', encode a')) <$> g a.

(** What a reader that cleared the freeze bit sees. *)
Definition al_unfreeze (a : alock) : alock :=
  match al_state a with
  | Frozen => al_to Unlocked a
  | Dead => al_to Locked a
  | _ => a
  end.

(** Releasing a locked word adds [8 - 4] plus the change of the orphan bit. *)
Lemma encode_bump a o :
  alock_ok a -> al_state a = Locked ->
  u64 (encode a + (LOCK_BIT + (Z.b2z o - Z.b2z (al_orphan a)))) = encode (al_bump o a).
Proof.
  intros Ha Hst. unfold encode, al_bump, LOCK_BIT, alock_ok, u64 in *.
  cbn [al_count al_state al_orphan]. rewrite Hst. cbn [state_code].
  destruct (decide (al_count a + 1 = 2 ^ 61)) as [He|Hne].
  - rewrite He, Z.mod_same by lia.
    replace (_ + _) with (Z.b2z o + 1 * 2 ^ 64) by lia. rewrite Z.mod_add by lia.
    rewrite Z.mod_small; destruct o; cbn; lia.
  - rewrite (Z.mod_small (al_count a + 1)) by lia.
    rewrite Z.mod_small; destruct o, (al_orphan a); cbn [Z.b2z]; lia.
Qed.

(** Changing the state adds the difference of the codes. *)
Lemma encode_to a st d :
  alock_ok a -> d = state_code st - state_code (al_state a) ->
  u64 (encode a + d) = encode (al_to st a).
Proof.
  intros Ha ->. rewrite u64_small.
  - unfold encode, al_to. cbn [al_count al_state al_orphan]. lia.
  - pose proof (encode_range (al_to st a) Ha) as Hr. unfold is_u64, encode, al_to in *.
    cbn [al_count al_state al_orphan] in Hr. lia.
Qed.

Lemma al_bump_ok o a : alock_ok (al_bump o a).
Proof. apply Z.mod_pos_bound. lia. Qed.

Lemma al_to_ok st a : alock_ok a -> alock_ok (al_to st a).
Proof. done. Qed.

Create HintDb lock_ok discriminated.
#[export] Hint Resolve al_bump_ok al_to_ok encode_range : lock_ok.

(** Decide the comparisons of known lock states. *)
Ltac decide_states :=
  repeat match goal with
  | |- context [bool_decide (?x = ?x)] => rewrite (bool_decide_eq_true_2 (x = x) eq_refl)
  | |- context [bool_decide (?x = ?y)] => rewrite (bool_decide_eq_false_2 (x = y)) by discriminate
  | |- context [decide (?x = ?x)] => rewrite (decide_True (P := x = x)) by reflexivity
  | |- context [decide (?x = ?y)] => rewrite (decide_False (P := x = y)) by discriminate
  end.

Ltac lock_method a Ha :=
  intros a Ha; autorewrite with lock;
  destruct (al_state a) eqn:Hst, (al_orphan a) eqn:Ho;
  rewrite ?Hst, ?Ho; decide_states; cbn; try reflexivity.

Lemma release_implements : word_implements release al_release encode.
Proof.
  unfold word_implements, release, al_release, al_from.
  lock_method a Ha; repeat f_equal;
    rewrite <- encode_bump, Ho by done; f_equal; unfold LOCK_BIT; cbn; lia.
Qed.

Lemma release_as_orphan_implements :
  word_implements release_as_orphan al_release_as_orphan encode.
Proof.
  unfold word_implements, release_as_orphan, al_release_as_orphan, al_from.
  lock_method a Ha; repeat f_equal;
    rewrite <- encode_bump, Ho by done; f_equal; unfold LOCK_BIT, ORPHAN_BIT; cbn; lia.
Qed.

Lemma release_and_adopt_implements :
  word_implements release_and_adopt al_release_and_adopt encode.
Proof.
  unfold word_implements, release_and_adopt, al_release_and_adopt, al_from.
  lock_method a Ha; repeat f_equal;
    rewrite <- encode_bump, Ho by done; f_equal; unfold LOCK_BIT, ORPHAN_BIT; cbn; lia.
Qed.

(** The methods that only change the state of the lock. *)
Ltac lock_state_method :=
  let a := fresh "a" in let Ha := fresh "Ha" in
  lock_method a Ha; repeat f_equal;
  match goal with
  | |- u64 (?x - ?d) = _ => replace (x - d) with (x + (- d)) by lia
  | _ => idtac
  end;
  apply encode_to;
  first [done | match goal with H : al_state _ = _ |- _ => rewrite H end; reflexivity].

Lemma release_unchanged_implements :
  word_implements release_unchanged al_release_unchanged (fun _ => tt).
Proof.
  unfold word_implements, release_unchanged, al_release_unchanged, al_from.
  lock_state_method.
Qed.

Lemma acquire_frozen_implements :
  word_implements acquire_frozen al_acquire_frozen (fun _ => tt).
Proof.
  unfold word_implements, acquire_frozen, al_acquire_frozen, al_from.
  lock_state_method.
Qed.

Lemma thaw_implements : word_implements thaw al_thaw (fun _ => tt).
Proof. unfold word_implements, thaw, al_thaw, al_from. lock_state_method. Qed.

Lemma die_implements : word_implements die al_die (fun _ => tt).
Proof. unfold word_implements, die, al_die, al_from. lock_state_method. Qed.

(** The compare-and-swap that [try_upgrade], [acquire], [try_freeze] and
    [freeze] attempt with the unlocked word they read. *)
Lemma cas_strong_encode b d st a :
  alock_ok a -> alock_ok b -> al_state b = Unlocked -> d = state_code st ->
  cas_strong (encode b) (u64 (encode b + d)) (encode a) =
  if decide (a = b) then Some (true, encode (al_to st a)) else Some (false, encode a).
Proof.
  intros Ha Hb Hst ->. unfold cas_strong.
  destruct (Z.eqb_spec (encode a) (encode b)) as [He|Hne].
  - apply encode_inj in He as ->. rewrite decide_True by done.
    rewrite (encode_to b st) by (try done; rewrite Hst; cbn; lia). done.
  - rewrite decide_False by (intros ->; done). done.
Qed.

Lemma try_upgrade_encode b a :
  alock_ok a -> alock_ok b -> al_state b = Unlocked ->
  try_upgrade (encode b) (encode a) =
  if decide (a = b) then Some (true, encode (al_to Locked a)) else Some (false, encode a).
Proof.
  intros Ha Hb Hst. unfold try_upgrade. autorewrite with lock.
  rewrite bool_decide_eq_true_2 by done. by apply cas_strong_encode.
Qed.

Lemma try_freeze_encode b a :
  alock_ok a -> alock_ok b -> al_state b = Unlocked ->
  try_freeze (encode b) (encode a) =
  if decide (a = b) then Some (true, encode (al_to Frozen a)) else Some (false, encode a).
Proof.
  intros Ha Hb Hst. unfold try_freeze. autorewrite with lock.
  rewrite bool_decide_eq_true_2 by done. by apply cas_strong_encode.
Qed.

(** Masking the state bits of a word, as readers do. *)
Lemma encode_mask a m :
  0 <= m < 8 ->
  Z.land (encode a) (Z.lnot m) =
  8 * al_count a + Z.land (state_code (al_state a) + Z.b2z (al_orphan a)) (Z.lnot m).
Proof.
  intros Hm. rewrite <- !Z.sub_land_same_l, land_low3, encode_low3 by done.
  unfold encode. lia.
Qed.

Lemma begin_read_encode a : begin_read (encode a) = Some (encode (al_to Unlocked a), encode a).
Proof.
  unfold begin_read. rewrite encode_mask by mask_range.
  repeat f_equal. unfold encode, al_to.
  destruct a as [[] [] c]; cbn [al_count al_state al_orphan]; f_equal.
Qed.

Lemma confirm_read_encode b a :
  confirm_read (encode b) (encode a) = Some (bool_decide (b = al_unfreeze a), encode a).
Proof.
  unfold confirm_read. rewrite encode_mask by mask_range.
  replace (8 * al_count a + _) with (encode (al_unfreeze a)).
  - repeat f_equal. destruct (Z.eqb_spec (encode b) (encode (al_unfreeze a))) as [He|Hne].
    + apply encode_inj in He. by rewrite bool_decide_eq_true_2.
    + rewrite bool_decide_eq_false_2; [done|]. congruence.
  - unfold encode, al_unfreeze, al_to.
    destruct a as [[] [] c]; cbn [al_count al_state al_orphan]; f_equal.
Qed.

Lemma sv_lock_new_encode b : sv_lock_new b = encode (ALock b Unlocked 0).
Proof. by destruct b. Qed.

(** *** The spinning methods *)

Lemma acquire_unlocked fuel a :
  alock_ok a -> al_state a = Unlocked ->
  run lock_handle (acquire (S fuel)) (encode a) = Done true (encode (al_to Locked a)).
Proof.
  intros Ha Hst. cbn. autorewrite with lock. rewrite Hst. decide_states. cbn.
  rewrite Z.eqb_refl. cbn. f_equal. apply encode_to; [done|]. by rewrite Hst.
Qed.

Lemma acquire_dead fuel a :
  al_state a = Dead -> run lock_handle (acquire (S fuel)) (encode a) = Done false (encode a).
Proof. intros Hst. cbn. autorewrite with lock. rewrite Hst. by decide_states. Qed.

(** Alone, a thread that finds the lock held waits for ever. *)
Lemma acquire_busy fuel a :
  al_state a = Locked \/ al_state a = Frozen ->
  run lock_handle (acquire fuel) (encode a) = OutOfFuel.
Proof.
  intros Hst. cbn. induction fuel as [|fuel IH]; [done|]. cbn.
  autorewrite with lock. destruct Hst as [Hst|Hst]; rewrite Hst; decide_states; cbn; apply IH.
Qed.

Lemma freeze_unlocked fuel a :
  alock_ok a -> al_state a = Unlocked ->
  run lock_handle (freeze (S fuel)) (encode a) = Done true (encode (al_to Frozen a)).
Proof.
  intros Ha Hst. cbn. autorewrite with lock. rewrite Hst. decide_states. cbn.
  rewrite Z.eqb_refl. cbn. f_equal. apply encode_to; [done|]. by rewrite Hst.
Qed.

Lemma freeze_dead fuel a :
  al_state a = Dead -> run lock_handle (freeze (S fuel)) (encode a) = Done false (encode a).
Proof. intros Hst. cbn. autorewrite with lock. rewrite Hst. by decide_states. Qed.

Lemma freeze_busy fuel a :
  al_state a = Locked \/ al_state a = Frozen ->
  run lock_handle (freeze fuel) (encode a) = OutOfFuel.
Proof.
  intros Hst. cbn. induction fuel as [|fuel IH]; [done|]. cbn.
  autorewrite with lock. destruct Hst as [Hst|Hst]; rewrite Hst; decide_states; cbn; apply IH.
Qed.

(** *** Spinning among other threads

    A weak compare-and-swap may fail even when the word is the expected one. *)

Definition lock_may (B : Type) (e : lockE B) : Z -> B -> Z -> Prop :=
  match e with
  | Rmw f => fun w b w' => f w = Some (b, w')
  | CasWeak expected desired => fun w r w' =>
      (r = (true, w) /\ w = expected /\ w' = desired) \/ (r = (false, w) /\ w' = w)
  end.

(** The other threads may do anything to the word that leaves a word. *)
Definition any_word (w w' : Z) : Prop := is_u64 w'.

(** What a spinning method that ends has done, with its last access. *)
Definition took (st : lock_state) (r : bool) (w' : Z) : Prop :=
  if r then exists a, alock_ok a /\ al_state a = Unlocked /\ w' = encode (al_to st a)
  else is_u64 w' /\ is_dead w' = true.

Lemma took_unlocked st w :
  is_u64 w -> is_unlocked w = true -> st <> Unlocked -> took st true (u64 (w + state_code st)).
Proof.
  intros Hw Hun Hst. rewrite <- (encode_decode w Hw) in Hun |- *. pose proof (decode_ok w Hw) as Ha.
  rewrite is_unlocked_encode in Hun. apply bool_decide_eq_true in Hun.
  exists (decode w). split_and!; try done. apply encode_to; [done|]. rewrite Hun. cbn. lia.
Qed.

Lemma acquire_loop_took fuel : forall w r w',
  is_u64 w -> irun lock_may any_word (acquire_loop fuel w) w r w' -> took Locked r w'.
Proof.
  induction fuel as [|fuel IH]; intros w r w' Hw; cbn; [done|].
  destruct (is_unlocked w) eqn:Hun; cbn.
  - intros (w1 & b & w2 & Hw1 & [(-> & -> & ->)|(-> & ->)] & H); [|by apply (IH w1)].
    destruct H as [<- ->]. by apply (took_unlocked Locked).
  - destruct (is_dead w) eqn:Hd; cbn.
    + by intros [<- ->].
    + intros (w1 & b & w2 & Hw1 & Hg & H). injection Hg as <- <-. by apply (IH w1).
Qed.

Lemma freeze_loop_took fuel : forall w r w',
  is_u64 w -> irun lock_may any_word (freeze_loop fuel w) w r w' -> took Frozen r w'.
Proof.
  induction fuel as [|fuel IH]; intros w r w' Hw; cbn; [done|].
  destruct (is_unlocked w) eqn:Hun; cbn.
  - intros (w1 & b & w2 & Hw1 & [(-> & -> & ->)|(-> & ->)] & H); [|by apply (IH w1)].
    destruct H as [<- ->]. by apply (took_unlocked Frozen).
  - destruct (is_dead w) eqn:Hd; cbn.
    + by intros [<- ->].
    + intros (w1 & b & w2 & Hw1 & Hg & H). injection Hg as <- <-. by apply (IH w1).
Qed.

(** ** The protocol

    Threads share one lock word and the payload [D] of its node.  A step is one
    access by one thread, made with the methods above; the owner is ghost
    state recording which thread holds the lock in which mode, and [c_dirty]
    that its holder has written since it acquired the lock.  A holder writes
    only in [Locked] mode, and calls [release_unchanged] only when it has not
    written, as [release_changed_if(changed)] does. *)

Section Protocol.
Context {D : Type}.

Record cfg := Cfg {
  c_word : Z;
  c_owner : option (nat * lock_state);
  c_dirty : bool;
  c_data : D }.

Definition cfg_set (w : Z) (o : option (nat * lock_state)) (c : cfg) : cfg :=
  Cfg w o false (c_data c).

Definition changing_release (w w' : Z) : Prop :=
  exists r, release w = Some (r, w') \/ release_as_orphan w = Some (r, w') \/
            release_and_adopt w = Some (r, w').

(** [pstep t c n c']: thread [t] steps; [n] is 1 for a release after a
    change and 0 otherwise. *)
Inductive pstep (t : nat) : cfg -> Z -> cfg -> Prop :=
| P_upgrade c v w' :
    is_u64 v -> try_upgrade v (c_word c) = Some (true, w') ->
    pstep t c 0 (cfg_set w' (Some (t, Locked)) c)
| P_acquire c v seen w' :
    is_u64 v -> is_unlocked v = true ->
    lock_handle _ (CasWeak v (u64 (v + LOCK_BIT))) (c_word c) = Some ((true, seen), w') ->
    pstep t c 0 (cfg_set w' (Some (t, Locked)) c)
| P_try_freeze c v w' :
    is_u64 v -> try_freeze v (c_word c) = Some (true, w') ->
    pstep t c 0 (cfg_set w' (Some (t, Frozen)) c)
| P_freeze c v seen w' :
    is_u64 v -> is_unlocked v = true ->
    lock_handle _ (CasWeak v (u64 (v + FREEZE_BIT))) (c_word c) = Some ((true, seen), w') ->
    pstep t c 0 (cfg_set w' (Some (t, Frozen)) c)
| P_acquire_frozen c w' :
    c_owner c = Some (t, Frozen) -> acquire_frozen (c_word c) = Some (tt, w') ->
    pstep t c 0 (cfg_set w' (Some (t, Locked)) c)
| P_thaw c w' :
    c_owner c = Some (t, Frozen) -> thaw (c_word c) = Some (tt, w') ->
    pstep t c 0 (cfg_set w' None c)
| P_write c d :
    c_owner c = Some (t, Locked) ->
    pstep t c 0 (Cfg (c_word c) (c_owner c) true d)
| P_release c w' :
    c_owner c = Some (t, Locked) -> changing_release (c_word c) w' ->
    pstep t c 1 (cfg_set w' None c)
| P_release_unchanged c w' :
    c_owner c = Some (t, Locked) -> c_dirty c = false ->
    release_unchanged (c_word c) = Some (tt, w') ->
    pstep t c 0 (cfg_set w' None c)
| P_die c w' :
    c_owner c = Some (t, Locked) -> die (c_word c) = Some (tt, w') ->
    pstep t c 0 (Cfg w' (Some (t, Dead)) (c_dirty c) (c_data c)).

(** [psteps c n c']: any number of steps of any threads, [n] of them
    releases after a change. *)
Inductive psteps : cfg -> Z -> cfg -> Prop :=
| psteps_refl c : psteps c 0 c
| psteps_step t c n c' m c'' : pstep t c n c' -> psteps c' m c'' -> psteps c (n + m) c''.

(** The ghost owner agrees with the state bits of the word. *)
Definition cfg_inv (c : cfg) : Prop :=
  exists a, alock_ok a /\ c_word c = encode a /\
    al_state a = from_option snd Unlocked (c_owner c) /\
    (c_owner c <> None -> al_state a <> Unlocked) /\
    (c_dirty c = true -> al_state a = Locked \/ al_state a = Dead).

Lemma cfg_inv_new orphan d : cfg_inv (Cfg (sv_lock_new orphan) None false d).
Proof.
  exists (ALock orphan Unlocked 0). rewrite sv_lock_new_encode. cbn.
  split_and!; done.
Qed.

(** A successful compare-and-swap from an unlocked word. *)
Lemma cas_from_unlocked a v d st w' :
  alock_ok a -> is_u64 v -> is_unlocked v = true -> d = state_code st ->
  cas_strong v (u64 (v + d)) (encode a) = Some (true, w') ->
  al_state a = Unlocked /\ w' = encode (al_to st a).
Proof.
  intros Ha Hv Hu Hd Hc. rewrite <- (encode_decode v Hv) in Hu, Hc.
  rewrite is_unlocked_encode in Hu. apply bool_decide_eq_true in Hu.
  rewrite (cas_strong_encode _ d st) in Hc by (try done; by apply decode_ok).
  destruct (decide (a = decode v)) as [Heq|]; [|done].
  rewrite <- Heq in Hu. by simplify_eq.
Qed.

Lemma cas_weak_strong v w cur seen w' :
  lock_handle _ (CasWeak v w) cur = Some ((true, seen), w') ->
  cas_strong v w cur = Some (true, w').
Proof. cbn. unfold cas_strong. destruct (cur =? v); intros; by simplify_eq. Qed.

Lemma try_cas f d v cur w' :
  f v cur = (assert_ (is_unlocked v) ;; cas_strong v (u64 (v + d)) cur) ->
  f v cur = Some (true, w') ->
  is_unlocked v = true /\ cas_strong v (u64 (v + d)) cur = Some (true, w').
Proof. intros -> H. by destruct (is_unlocked v). Qed.

(** The method [f] took the word of [a] to [w']. *)
Lemma word_implements_inv {B} f g (ret : alock -> B) a r w' :
  word_implements f g ret -> alock_ok a -> f (encode a) = Some (r, w') ->
  exists a', g a = Some a' /\ w' = encode a'.
Proof.
  intros Hf Ha H. rewrite Hf in H by done.
  destruct (g a) as [a'|]; [|done]. cbn in H. simplify_eq. eauto.
Qed.

Lemma al_from_inv st f a a' : al_from st f a = Some a' -> al_state a = st /\ a' = f a.
Proof. unfold al_from. case_decide; [|done]. intros; by simplify_eq. Qed.

Lemma changing_release_inv a w' :
  alock_ok a -> changing_release (encode a) w' ->
  al_state a = Locked /\ exists o, w' = encode (al_bump o a).
Proof.
  intros Ha [r [H|[H|H]]].
  - eapply word_implements_inv in H as (a' & Hg & ->); [|apply release_implements|done].
    apply al_from_inv in Hg as [? ->]. eauto.
  - eapply word_implements_inv in H as (a' & Hg & ->); [|apply release_as_orphan_implements|done].
    unfold al_release_as_orphan in Hg. destruct (al_orphan a); [done|].
    apply al_from_inv in Hg as [? ->]. eauto.
  - eapply word_implements_inv in H as (a' & Hg & ->); [|apply release_and_adopt_implements|done].
    unfold al_release_and_adopt in Hg. destruct (al_orphan a); [|done].
    apply al_from_inv in Hg as [? ->]. eauto.
Qed.

(** The facts about one step that the theorems below need. *)
Record pstep_ok (t : nat) (c : cfg) (n : Z) (c' : cfg) : Prop := {
  ps_inv : cfg_inv c';
  ps_owner : c_owner c = None \/ exists st, c_owner c = Some (t, st);
  ps_count : exists a a', alock_ok a' /\ c_word c = encode a /\ c_word c' = encode a' /\
               al_count a' = (al_count a + n) mod 2 ^ 61;
  ps_n : n = 0 \/ n = 1;
  ps_dirty : n = 0 -> c_dirty c = true -> c_dirty c' = true;
  ps_data : n = 0 -> c_data c' = c_data c \/ c_dirty c' = true }.

(** A step that leaves the lock in state [st], owned by [o], clean. *)
Lemma pstep_ok_set t c a a' o n :
  cfg_inv c -> c_word c = encode a -> alock_ok a -> alock_ok a' ->
  (c_owner c = None \/ exists st, c_owner c = Some (t, st)) ->
  al_count a' = (al_count a + n) mod 2 ^ 61 -> n = 0 \/ n = 1 ->
  al_state a' = from_option snd Unlocked o ->
  (o <> None -> al_state a' <> Unlocked) ->
  (n = 0 -> c_dirty c = false) ->
  pstep_ok t c n (cfg_set (encode a') o c).
Proof.
  intros Hinv Hw Ha Ha' Ho Hcnt Hn Hst Hne Hd. split; cbn; auto.
  - exists a'. cbn. by split_and!.
  - exists a, a'. auto.
  - intros H0 Ht. by rewrite (Hd H0) in Ht.
Qed.

Lemma cfg_inv_clean c a :
  cfg_inv c -> c_word c = encode a -> al_state a = Unlocked \/ al_state a = Frozen ->
  c_dirty c = false.
Proof.
  intros (b & Hb & Hw & _ & _ & Hd) Hw' Hst. rewrite Hw in Hw'. apply encode_inj in Hw' as ->.
  destruct (c_dirty c); [|done]. destruct (Hd eq_refl), Hst; congruence.
Qed.

Lemma cfg_inv_free c a :
  cfg_inv c -> c_word c = encode a -> al_state a = Unlocked -> c_owner c = None.
Proof.
  intros (b & Hb & Hw & Hst & Hne & _) Hw' Hu. rewrite Hw in Hw'. apply encode_inj in Hw' as ->.
  destruct (c_owner c); [|done]. exfalso. by apply Hne.
Qed.

Lemma count_stay a : alock_ok a -> al_count a = (al_count a + 0) mod 2 ^ 61.
Proof. intros H. rewrite Z.add_0_r, Z.mod_small; done. Qed.

(** Taking a free lock. *)
Lemma pstep_ok_take t c v d st w' :
  cfg_inv c -> is_u64 v -> is_unlocked v = true -> d = state_code st -> st <> Unlocked ->
  cas_strong v (u64 (v + d)) (c_word c) = Some (true, w') ->
  pstep_ok t c 0 (cfg_set w' (Some (t, st)) c).
Proof.
  intros Hinv Hv Hu Hd Hst Hc. pose proof Hinv as (a & Ha & Hw & _).
  rewrite Hw in Hc. eapply cas_from_unlocked in Hc as [Hun ->]; try done.
  eapply pstep_ok_set; try done.
  - left. by eapply cfg_inv_free.
  - exact (count_stay a Ha).
  - auto.
  - intros _. eapply cfg_inv_clean; eauto.
Qed.

(** A step by the holder that keeps the counter. *)
Lemma pstep_ok_own {B} t c (f : Z -> option (B * Z)) st st' ret r w' :
  cfg_inv c -> c_owner c = Some (t, st) ->
  word_implements f (al_from st (al_to st')) ret -> f (c_word c) = Some (r, w') ->
  c_dirty c = false ->
  pstep_ok t c 0 (cfg_set w' (if decide (st' = Unlocked) then None else Some (t, st')) c).
Proof.
  intros Hinv Ho Hf H Hd. pose proof Hinv as (a & Ha & Hw & _). rewrite Hw in H.
  eapply word_implements_inv in H as (a' & Hg & ->); [|done..].
  apply al_from_inv in Hg as [Hs ->].
  eapply pstep_ok_set; try done; eauto.
  - exact (count_stay a Ha).
  - by case_decide.
  - by case_decide.
Qed.

Lemma pstep_sound t c n c' : cfg_inv c -> pstep t c n c' -> pstep_ok t c n c'.
Proof.
  intros Hinv Hstep. pose proof Hinv as (a & Ha & Hw & Hst & Hne & Hdirty).
  destruct Hstep as [c v w' Hv H|c v seen w' Hv Hu H|c v w' Hv H|c v seen w' Hv Hu H
    |c w' Ho H|c w' Ho H|c d Ho|c w' Ho H|c w' Ho Hd H|c w' Ho H].
  - eapply try_cas in H as [Hu H]; [|reflexivity]. by eapply pstep_ok_take.
  - apply cas_weak_strong in H. by eapply pstep_ok_take.
  - eapply try_cas in H as [Hu H]; [|reflexivity]. by eapply pstep_ok_take.
  - apply cas_weak_strong in H. by eapply pstep_ok_take.
  - eapply (pstep_ok_own t c _ Frozen Locked); eauto using acquire_frozen_implements.
    rewrite Ho in Hst. eapply cfg_inv_clean; eauto.
  - eapply (pstep_ok_own t c _ Frozen Unlocked); eauto using thaw_implements.
    rewrite Ho in Hst. eapply cfg_inv_clean; eauto.
  - rewrite Ho in Hst. split; cbn; eauto.
    + exists a. rewrite Ho. cbn. rewrite Hst. split_and!; auto.
    + exists a, a. auto using count_stay.
  - rewrite Hw in H. apply changing_release_inv in H as [Hs [o ->]]; [|done].
    eapply pstep_ok_set; eauto using al_bump_ok; done.
  - eapply (pstep_ok_own t c _ Locked Unlocked); eauto using release_unchanged_implements.
  - rewrite Hw in H. eapply word_implements_inv in H as (a' & Hg & ->);
      [|apply die_implements|done].
    apply al_from_inv in Hg as [Hs ->]. split; cbn; auto.
    + exists (al_to Dead a). cbn. split_and!; auto.
    + rewrite Ho. eauto.
    + exists a, (al_to Dead a). split_and!; try done. exact (count_stay a Ha).
Qed.

(** While a thread holds the lock, in any mode, every step is its own. *)
Lemma owner_exclusive c t st t' n c' :
  cfg_inv c -> c_owner c = Some (t, st) -> pstep t' c n c' -> t' = t.
Proof.
  intros Hinv Ho Hstep. apply pstep_sound in Hstep; [|done].
  destruct (ps_owner _ _ _ _ Hstep) as [H|[st' H]]; congruence.
Qed.

Lemma psteps_inv c n c' :
  cfg_inv c -> psteps c n c' ->
  cfg_inv c' /\ 0 <= n /\
  (exists a a', alock_ok a' /\ c_word c = encode a /\ c_word c' = encode a' /\
     al_count a' = (al_count a + n) mod 2 ^ 61) /\
  (n = 0 -> c_dirty c' = false -> c_data c' = c_data c /\ c_dirty c = false).
Proof.
  intros Hinv Hs. induction Hs as [c|t c n c' m c'' Hstep Hs IH].
  - pose proof Hinv as (a & Ha & Hw & _). split_and!; try done.
    exists a, a. auto using count_stay.
  - apply pstep_sound in Hstep as [Hi _ (a & b & Hb & Hwa & Hwb & Hcnt) Hn Hdir Hdat]; [|done].
    destruct (IH Hi) as (Hi' & Hm & (b' & d & Hd & Hwb' & Hwd & Hcnt') & Hz).
    rewrite Hwb in Hwb'. apply encode_inj in Hwb' as <-.
    split_and!; [done|lia| |..].
    + exists a, d. split_and!; [done..|].
      rewrite Hcnt', Hcnt, Z.add_mod_idemp_l by lia. f_equal. lia.
    + intros Hnm Hclean. assert (n = 0 /\ m = 0) as [-> ->] by lia.
      destruct (Hz eq_refl Hclean) as [Hz1 Hz2]. split.
      * destruct (Hdat eq_refl); congruence.
      * destruct (c_dirty c) eqn:E; [|done]. by rewrite Hdir in Hz2.
Qed.

Lemma psteps_trans c n c' m c'' : psteps c n c' -> psteps c' m c'' -> psteps c (n + m) c''.
Proof.
  induction 1 as [c|t c n c' k c1 Hstep Hs IH]; intros H; [done|].
  rewrite <- Z.add_assoc. econstructor; eauto.
Qed.

(** A reader that calls [begin_read] at [c0], reads the payload at any later
    point [c1], and whose [confirm_read] succeeds at [c2], saw the payload
    that is there at [c2], with no write pending. *)
Lemma confirmed_snapshot c0 c1 c2 n m v w0 w2 :
  cfg_inv c0 -> psteps c0 n c1 -> psteps c1 m c2 -> n + m < 2 ^ 61 ->
  begin_read (c_word c0) = Some (v, w0) ->
  confirm_read v (c_word c2) = Some (true, w2) ->
  c_data c1 = c_data c2 /\ c_data c0 = c_data c2 /\ c_dirty c2 = false /\
  is_locked (c_word c2) = false.
Proof.
  intros Hinv H1 H2 Hnm Hb Hc.
  destruct (psteps_inv _ _ _ Hinv H1) as (Hinv1 & Hn & _ & Hz1).
  destruct (psteps_inv _ _ _ Hinv1 H2) as (Hinv2 & Hm & _ & Hz2).
  destruct (psteps_inv _ _ _ Hinv (psteps_trans _ _ _ _ _ H1 H2))
    as (_ & _ & (a & b & Hb' & Hwa & Hwb & Hcnt) & Hz).
  rewrite Hwa, begin_read_encode in Hb. simplify_eq.
  rewrite Hwb, confirm_read_encode in Hc. apply (inj Some) in Hc. simplify_eq.
  match goal with H : bool_decide _ = true |- _ => apply bool_decide_eq_true in H as Heq end.
  assert (Hst : al_state b = Unlocked \/ al_state b = Frozen).
  { apply (f_equal al_state) in Heq. destruct b as [o' [] cb]; auto; discriminate Heq. }
  assert (Hcc : al_count b = al_count a).
  { apply (f_equal al_count) in Heq. by destruct b as [o' [] cb]. }
  pose proof (cfg_inv_clean _ _ Hinv2 Hwb Hst) as Hclean.
  assert (n = 0 /\ m = 0) as [-> ->].
  { rewrite Hcc in Hcnt. unfold alock_ok in Hb'. rewrite Hcc in Hb'.
    destruct (Z.lt_ge_cases (al_count a + (n + m)) (2 ^ 61)).
    - rewrite Z.mod_small in Hcnt; lia.
    - replace (al_count a + (n + m)) with ((al_count a + (n + m) - 2 ^ 61) + 1 * 2 ^ 61) in Hcnt by lia.
      rewrite Z.mod_add, Z.mod_small in Hcnt; lia. }
  destruct (Hz2 eq_refl Hclean) as [Hd2 Hclean1].
  destruct (Hz1 eq_refl Hclean1) as [Hd1 _].
  split_and!; try congruence.
  rewrite Hwb, is_locked_encode. by destruct Hst as [->| ->].
Qed.

(** Reachable configurations keep the invariant. *)
Lemma reachable_inv orphan d n c : psteps (Cfg (sv_lock_new orphan) None false d) n c -> cfg_inv c.
Proof. intros H. by destruct (psteps_inv _ _ _ (cfg_inv_new orphan d) H) as [Hi _]. Qed.

(** C19: mutual exclusion.  However threads interleave from a new lock, while
    one holds it, in whatever mode, every step on the lock or on the payload
    is its own; the state bits of the word are the mode it holds the lock
    in; and a pending write means the lock is held for writing. *)
Theorem mutual_exclusion orphan d n c t st :
  psteps (Cfg (sv_lock_new orphan) None false d) n c -> c_owner c = Some (t, st) ->
  al_state (decode (c_word c)) = st /\ st <> Unlocked /\
  (c_dirty c = true -> st = Locked \/ st = Dead) /\
  forall t' m c', pstep t' c m c' -> t' = t.
Proof.
  intros Hr Ho. pose proof (reachable_inv _ _ _ _ Hr) as Hinv.
  pose proof Hinv as (a & Ha & Hw & Hst & Hne & Hd). rewrite Hw, decode_encode.
  rewrite Ho in Hst, Hne. cbn in Hst. rewrite <- Hst. split_and!; auto.
  intros t' m c' Hs. by eapply owner_exclusive.
Qed.

(** C18: optimistic reads.  A reader calls [begin_read], reads the payload
    at any later points, among any steps of other threads with fewer than
    2^61 releases, and if its [confirm_read] succeeds then every read saw
    the payload that is there at the confirmation, with no write pending,
    even if the lock was taken and released unchanged meanwhile. *)
Theorem optimistic_read orphan d n0 c0 c1 c2 n m v w0 w2 :
  psteps (Cfg (sv_lock_new orphan) None false d) n0 c0 ->
  psteps c0 n c1 -> psteps c1 m c2 -> n + m < 2 ^ 61 ->
  begin_read (c_word c0) = Some (v, w0) ->
  confirm_read v (c_word c2) = Some (true, w2) ->
  c_data c1 = c_data c2 /\ c_data c0 = c_data c2 /\ c_dirty c2 = false /\
  is_locked (c_word c2) = false.
Proof. intros Hr. apply confirmed_snapshot. by eapply reachable_inv. Qed.
End Protocol.

(** [acquire] and [freeze] among other threads that do anything to the
    word, and with spurious failures of the weak compare-and-swap: one that
    returns true has, in its last access, taken an unlocked word to the locked
    (frozen) state with the same counter and orphan bit; one that returns
    false saw a dead word. *)
Lemma spinning_methods_take fuel w :
  (forall r w', irun lock_may any_word (acquire fuel) w r w' -> took Locked r w') /\
  (forall r w', irun lock_may any_word (freeze fuel) w r w' -> took Frozen r w').
Proof.
  split; intros r w' (w1 & b & w2 & Hw1 & Hg & H); injection Hg as <- <-;
    [by eapply acquire_loop_took|by eapply freeze_loop_took].
Qed.

(** [acquire] and [freeze] alone: on an unlocked word they take it in one
    round, on a dead word they return false and leave it, and on a locked or
    frozen word they wait for as long as they are given. *)
Lemma spinning_methods_alone fuel a :
  alock_ok a ->
  run lock_handle (acquire (S fuel)) (encode a) =
    match al_state a with
    | Unlocked => Done true (encode (al_to Locked a))
    | Dead => Done false (encode a)
    | _ => OutOfFuel
    end /\
  run lock_handle (freeze (S fuel)) (encode a) =
    match al_state a with
    | Unlocked => Done true (encode (al_to Frozen a))
    | Dead => Done false (encode a)
    | _ => OutOfFuel
    end.
Proof.
  intros Ha. destruct (al_state a) eqn:Hst.
  - by rewrite acquire_unlocked, freeze_unlocked.
  - rewrite acquire_busy, freeze_busy; auto.
  - rewrite acquire_busy, freeze_busy; auto.
  - by rewrite acquire_dead, freeze_dead.
Qed.

Lemma spinning_methods_alone_witness :
  run lock_handle (acquire 1) (encode (ALock true Unlocked 7)) = Done true (encode (ALock true Locked 7)) /\
  run lock_handle (freeze 1) (encode (ALock true Unlocked 7)) = Done true (encode (ALock true Frozen 7)).
Proof. apply (spinning_methods_alone 0 (ALock true Unlocked 7)). unfold alock_ok. cbn. lia. Defined.

(** What [release_changed_if] does to the abstract lock. *)
Definition al_release_changed_if (b : bool) : alock -> option alock :=
  if b then al_release else al_release_unchanged.

Lemma release_changed_if_implements b :
  word_implements (release_changed_if b) (al_release_changed_if b) (fun _ => tt).
Proof.
  intros a Ha. unfold release_changed_if. destruct b; cbn [al_release_changed_if].
  - rewrite (release_implements a Ha). by destruct (al_release a).
  - exact (release_unchanged_implements a Ha).
Qed.


(** Thread 1 upgrades, writes and releases. *)
Lemma demo_run : exists c, psteps (Cfg (sv_lock_new false) None false 10) 0 c /\
  c = Cfg 4 (Some (1%nat, Locked)) true 11.
Proof.
  eexists. split; [|reflexivity].
  apply (psteps_step 1 _ 0 (Cfg 4 (Some (1%nat, Locked)) false 10) 0).
  - apply (P_upgrade 1 (Cfg 0 None false 10) 0 4); [unfold is_u64; lia|reflexivity].
  - apply (psteps_step 1 _ 0 (Cfg 4 (Some (1%nat, Locked)) true 11) 0); [|apply psteps_refl].
    apply (P_write 1 (Cfg 4 (Some (1%nat, Locked)) false 10) 11). reflexivity.
Qed.

Lemma mutual_exclusion_witness :
  Locked = Locked /\ Locked <> Unlocked /\ (true = true -> Locked = Locked \/ Locked = Dead) /\
  forall t' m c', pstep t' (Cfg 4 (Some (1%nat, Locked)) true 11) m c' -> t' = 1%nat.
Proof.
  destruct demo_run as (c & Hr & Hc). pose proof (eq_ind c (psteps _ 0) Hr _ Hc) as Hr'.
  exact (mutual_exclusion false 10 0 (Cfg 4 (Some (1%nat, Locked)) true 11) 1 Locked Hr' eq_refl).
Defined.

(** A reader that runs while a writer takes the lock and gives it back. *)
Lemma demo_read : psteps (Cfg 0 None false 10) 0 (Cfg 4 (Some (1%nat, Locked)) false 10) /\
  psteps (Cfg 4 (Some (1%nat, Locked)) false 10) 0 (Cfg 0 None false 10).
Proof.
  split.
  - apply (psteps_step 1 _ 0 (Cfg 4 (Some (1%nat, Locked)) false 10) 0); [|apply psteps_refl].
    apply (P_upgrade 1 (Cfg 0 None false 10) 0 4); [unfold is_u64; lia|reflexivity].
  - apply (psteps_step 1 _ 0 (Cfg 0 None false 10) 0); [|apply psteps_refl].
    by apply (P_release_unchanged 1 (Cfg 4 (Some (1%nat, Locked)) false 10) 0).
Qed.

Lemma optimistic_read_witness :
  10 = 10 /\ 10 = 10 /\ false = false /\ is_locked 0 = false.
Proof.
  exact (optimistic_read false 10 0 (Cfg 0 None false 10) (Cfg 4 (Some (1%nat, Locked)) false 10)
           (Cfg 0 None false 10) 0 0 0 0 0 (psteps_refl _) (proj1 demo_read) (proj2 demo_read)
           ltac:(lia) eq_refl eq_refl).
Defined.
