(* ===== verification/SeqLock.v ===== *)
(** * SeqLock: the plain sequence lock (lock/seq_lock.h)

    The lock of the multivectors: a 64-bit counter whose low bit is the lock
    bit, and one reserved value for a dead lock.  The methods are the accesses
    they make to the word, as in SvLock; the abstract lock is a count and a
    state.  The counter cannot wrap around: taking the lock at the last
    unlocked value makes it dead. *)

From S2P Require Import Prelude Prog.
From S2P Require SvLock.

Local Open Scope Z_scope.

Definition LOCK_BIT : Z := 1.
Definition DEAD_VALUE : Z := 2 ^ 64 - 1.

Definition is_unlocked (v : Z) : bool := Z.land v LOCK_BIT =? 0.
Definition is_locked (v : Z) : bool := Z.land v LOCK_BIT =? LOCK_BIT.
Definition is_dead (v : Z) : bool := v =? DEAD_VALUE.

(** [seq_lock()] *)
Definition seq_lock_new : Z := 0.

(** ** Methods *)

Section Methods.
Local Abbreviation rmw B := (Z -> option (B * Z)) (only parsing).

Definition try_upgrade (v : Z) : rmw bool := fun cur =>
  assert_ (is_unlocked v) ;; SvLock.cas_strong v (u64 (v + LOCK_BIT)) cur.

(** The assertions of the methods that give the lock up. *)
Definition assert_held (cur : Z) : option unit :=
  assert_ (negb (cur =? DEAD_VALUE)) ;; assert_ (is_locked cur).

(** [lock.fetch_add(LOCK_BIT) + LOCK_BIT] *)
Definition release : rmw Z := fun cur =>
  assert_held cur ;; Some (u64 (cur + LOCK_BIT), u64 (cur + LOCK_BIT)).

Definition release_unchanged : rmw unit := fun cur =>
  assert_held cur ;; Some (tt, u64 (cur - LOCK_BIT)).

Definition release_changed_if (b : bool) : rmw unit := fun cur =>
  if b then '(_, new) ← release cur; Some (tt, new) else release_unchanged cur.

Definition die : rmw unit := fun cur => assert_held cur ;; Some (tt, DEAD_VALUE).

(** [lock.load() & ~LOCK_BIT] *)
Definition begin_read : rmw Z := fun cur => Some (Z.land cur (Z.lnot LOCK_BIT), cur).

Definition confirm_read (v : Z) : rmw bool := fun cur => Some (v =? cur, cur).

Definition get_value : rmw Z := fun cur => Some (cur, cur).
End Methods.

(** The loop of [acquire()]. *)
Fixpoint acquire_loop (fuel : nat) (read_value : Z) : prog SvLock.lockE bool :=
  match fuel with
  | O => Spin
  | S fuel' =>
      if is_unlocked read_value then
        let* (success, seen) := trigger (SvLock.CasWeak read_value (u64 (read_value + LOCK_BIT))) in
        if success : bool then Ret true else acquire_loop fuel' seen
      else if is_dead read_value then Ret false
      else
        let* v := trigger (SvLock.Rmw get_value) in acquire_loop fuel' v
  end.

Definition acquire (fuel : nat) : prog SvLock.lockE bool :=
  let* read_value := trigger (SvLock.Rmw get_value) in acquire_loop fuel read_value.

(** ** The abstract lock *)

Inductive seq_state := Free (c : Z) | Held (c : Z) | SeqDead.

#[export] Instance seq_state_eq_dec : EqDecision seq_state.
Proof. solve_decision. Defined.

Definition seq_ok (a : seq_state) : Prop :=
  match a with
  | Free c => 0 <= c < 2 ^ 63
  | Held c => 0 <= c < 2 ^ 63 - 1
  | SeqDead => True
  end.

Definition seq_word (a : seq_state) : Z :=
  match a with Free c => 2 * c | Held c => 2 * c + 1 | SeqDead => DEAD_VALUE end.

Definition seq_read (v : Z) : seq_state :=
  if is_dead v then SeqDead else if is_locked v then Held (v / 2) else Free (v / 2).

(** Taking a free lock; at the end of the counter it dies. *)
Definition sq_lock (a : seq_state) : option seq_state :=
  match a with
  | Free c => Some (if decide (c = 2 ^ 63 - 1) then SeqDead else Held c)
  | _ => None
  end.
Definition sq_release (a : seq_state) : option seq_state :=
  match a with Held c => Some (Free (c + 1)) | _ => None end.
Definition sq_release_unchanged (a : seq_state) : option seq_state :=
  match a with Held c => Some (Free c) | _ => None end.
Definition sq_die (a : seq_state) : option seq_state :=
  match a with Held c => Some SeqDead | _ => None end.

(** The count a reader sees. *)
Definition sq_count (a : seq_state) : Z :=
  match a with Free c | Held c => c | SeqDead => 2 ^ 63 - 1 end.

Lemma land_1 v : Z.land v 1 = v mod 2.
Proof. change 1 with (Z.ones 1) at 1. rewrite Z.land_ones by lia. done. Qed.

Lemma seq_word_mod a : seq_word a mod 2 = match a with Free _ => 0 | _ => 1 end.
Proof.
  destruct a as [c|c|]; cbn [seq_word]; [|rewrite Z.add_comm|reflexivity]; rewrite Z.mul_comm.
  - apply Z_mod_mult.
  - by rewrite Z_mod_plus_full.
Qed.

Lemma is_unlocked_word a : is_unlocked (seq_word a) = match a with Free _ => true | _ => false end.
Proof. unfold is_unlocked, LOCK_BIT. rewrite land_1, seq_word_mod. by destruct a. Qed.

Lemma is_locked_word a : is_locked (seq_word a) = match a with Free _ => false | _ => true end.
Proof. unfold is_locked, LOCK_BIT. rewrite land_1, seq_word_mod. by destruct a. Qed.

Lemma is_dead_word a : seq_ok a -> is_dead (seq_word a) = match a with SeqDead => true | _ => false end.
Proof.
  unfold is_dead, DEAD_VALUE. destruct a as [c|c|]; cbn [seq_ok seq_word]; intros H; [..|done]; zcases; done.
Qed.

Lemma seq_word_range a : seq_ok a -> is_u64 (seq_word a).
Proof. unfold is_u64, DEAD_VALUE. destruct a; cbn [seq_ok seq_word]; unfold DEAD_VALUE; lia. Qed.

Lemma seq_read_word a : seq_ok a -> seq_read (seq_word a) = a.
Proof.
  intros Ha. unfold seq_read. rewrite is_dead_word, is_locked_word by done.
  destruct a as [c|c|]; cbn [seq_word]; [| |done]; f_equal.
  - by rewrite Z.mul_comm, Z.div_mul.
  - rewrite Z.add_comm, Z.mul_comm, Z.div_add by lia. done.
Qed.

Lemma seq_read_ok v : is_u64 v -> seq_ok (seq_read v) /\ seq_word (seq_read v) = v.
Proof.
  unfold is_u64, seq_read, is_dead, is_locked, LOCK_BIT, DEAD_VALUE. intros Hv. rewrite land_1.
  pose proof (Z.div_mod v 2 ltac:(lia)). pose proof (Z.mod_pos_bound v 2 ltac:(lia)).
  destruct (Z.eqb_spec v (2 ^ 64 - 1)) as [->|Hne]; [done|].
  destruct (Z.eqb_spec (v mod 2) 1); cbn [seq_ok seq_word]; lia.
Qed.

Lemma seq_word_inj a b : seq_ok a -> seq_ok b -> seq_word a = seq_word b -> a = b.
Proof. intros Ha Hb H. by rewrite <- (seq_read_word a), H, seq_read_word. Qed.

(** ** Every method implements its transition *)

Definition seq_implements {B : Type} (f : Z -> option (B * Z)) (g : seq_state -> option seq_state)
    (ret : seq_state -> B) : Prop :=
  forall a, seq_ok a -> f (seq_word a) = (fun a' => (ret a', seq_word a')) <$> g a.

Lemma assert_held_word a :
  seq_ok a -> assert_held (seq_word a) = match a with Held _ => Some tt | _ => None end.
Proof.
  intros Ha. unfold assert_held. pose proof (is_dead_word a Ha) as Hd. unfold is_dead in Hd.
  rewrite Hd, is_locked_word. by destruct a.
Qed.

Lemma seq_release_implements : seq_implements release sq_release seq_word.
Proof.
  intros a Ha. unfold release. rewrite assert_held_word by done. destruct a as [c|c|]; try done.
  cbn [mbind option_bind sq_release fmap option_fmap option_map seq_word seq_ok] in *. unfold LOCK_BIT.
  rewrite u64_small by (unfold is_u64; lia). repeat f_equal; lia.
Qed.

Lemma seq_release_unchanged_implements :
  seq_implements release_unchanged sq_release_unchanged (fun _ => tt).
Proof.
  intros a Ha. unfold release_unchanged. rewrite assert_held_word by done. destruct a as [c|c|]; try done.
  cbn [mbind option_bind sq_release_unchanged fmap option_fmap option_map seq_word seq_ok] in *. unfold LOCK_BIT.
  rewrite u64_small by (unfold is_u64; lia). repeat f_equal; lia.
Qed.

Lemma seq_die_implements : seq_implements die sq_die (fun _ => tt).
Proof. intros a Ha. unfold die. rewrite assert_held_word by done. by destruct a. Qed.

(** The word a successful compare-and-swap stores. *)
Lemma lock_word c : seq_ok (Free c) ->
  exists b, sq_lock (Free c) = Some b /\ seq_ok b /\ u64 (seq_word (Free c) + LOCK_BIT) = seq_word b.
Proof.
  cbn [seq_ok seq_word sq_lock]. unfold LOCK_BIT. intros Hc.
  rewrite u64_small by (unfold is_u64; lia). eexists. split; [done|]. case_decide as He.
  - subst c. done.
  - cbn [seq_ok seq_word]. lia.
Qed.

Lemma try_upgrade_word c a :
  seq_ok a -> seq_ok (Free c) ->
  try_upgrade (seq_word (Free c)) (seq_word a) =
  if decide (a = Free c) then (fun b => (true, seq_word b)) <$> sq_lock a else Some (false, seq_word a).
Proof.
  intros Ha Hc. unfold try_upgrade, SvLock.cas_strong. rewrite is_unlocked_word. cbn [assert_ mbind option_bind].
  destruct (lock_word c Hc) as (b & Hb & _ & Hw). rewrite Hw.
  destruct (Z.eqb_spec (seq_word a) (seq_word (Free c))) as [He|Hne].
  - apply seq_word_inj in He as ->; [|done..]. by rewrite decide_True, Hb by done.
  - rewrite decide_False by (intros ->; done). done.
Qed.

Lemma begin_read_word a : seq_ok a -> begin_read (seq_word a) = Some (seq_word (Free (sq_count a)), seq_word a).
Proof.
  intros Ha. unfold begin_read, LOCK_BIT. do 2 f_equal. rewrite <- Z.sub_land_same_l, land_1, seq_word_mod.
  destruct a; cbn [seq_word sq_count]; unfold DEAD_VALUE; lia.
Qed.

Lemma confirm_read_word b a :
  seq_ok a -> seq_ok b -> confirm_read (seq_word b) (seq_word a) = Some (bool_decide (b = a), seq_word a).
Proof.
  intros Ha Hb. unfold confirm_read. do 2 f_equal. destruct (Z.eqb_spec (seq_word b) (seq_word a)) as [He|Hne].
  - apply seq_word_inj in He as ->; [|done..]. by rewrite bool_decide_eq_true_2.
  - rewrite bool_decide_eq_false_2; [done|]. congruence.
Qed.

(** ** [acquire] *)

Lemma seq_acquire_free fuel c :
  seq_ok (Free c) -> exists b, sq_lock (Free c) = Some b /\
  run SvLock.lock_handle (acquire (S fuel)) (seq_word (Free c)) = Done true (seq_word b).
Proof.
  intros Hc. destruct (lock_word c Hc) as (b & Hb & _ & Hw). exists b. split; [done|].
  unfold acquire. cbn [bind trigger run SvLock.lock_handle get_value acquire_loop].
  rewrite is_unlocked_word, Hw. cbn [bind trigger run SvLock.lock_handle]. by rewrite Z.eqb_refl.
Qed.

Lemma seq_acquire_dead fuel :
  run SvLock.lock_handle (acquire (S fuel)) (seq_word SeqDead) = Done false (seq_word SeqDead).
Proof. reflexivity. Qed.

Lemma seq_acquire_held fuel c :
  seq_ok (Held c) -> run SvLock.lock_handle (acquire fuel) (seq_word (Held c)) = OutOfFuel.
Proof.
  intros Hc. unfold acquire. cbn [bind trigger run SvLock.lock_handle get_value].
  induction fuel as [|fuel IH]; [done|]. cbn [acquire_loop].
  rewrite is_unlocked_word, is_dead_word by done. apply IH.
Qed.

(** Every method of the sequence lock is a transition of the abstract
    lock, on every 64-bit word, failed assertions included: [release] counts
    one more, [release_unchanged] restores the count, [die] makes the lock
    dead for good, and [try_upgrade] takes the lock exactly when the word is
    the unlocked one the caller saw.  The counter never wraps around: taking
    the lock at its last value yields the dead lock.  [acquire] alone takes a
    free lock in one round and returns false on a dead one. *)
Theorem seq_lock_methods_refine :
  seq_implements release sq_release seq_word /\
  seq_implements release_unchanged sq_release_unchanged (fun _ => tt) /\
  seq_implements die sq_die (fun _ => tt) /\
  (forall c a, seq_ok a -> seq_ok (Free c) ->
    try_upgrade (seq_word (Free c)) (seq_word a) =
    if decide (a = Free c) then (fun b => (true, seq_word b)) <$> sq_lock a else Some (false, seq_word a)) /\
  (forall a, seq_ok a -> begin_read (seq_word a) = Some (seq_word (Free (sq_count a)), seq_word a)) /\
  (forall v, is_u64 v -> seq_ok (seq_read v) /\ seq_word (seq_read v) = v) /\
  seq_lock_new = seq_word (Free 0) /\
  (forall fuel c, seq_ok (Free c) -> exists b, sq_lock (Free c) = Some b /\
    run SvLock.lock_handle (acquire (S fuel)) (seq_word (Free c)) = Done true (seq_word b)) /\
  (forall fuel, run SvLock.lock_handle (acquire (S fuel)) (seq_word SeqDead) = Done false (seq_word SeqDead)) /\
  (forall fuel c, seq_ok (Held c) -> run SvLock.lock_handle (acquire fuel) (seq_word (Held c)) = OutOfFuel).
Proof.
  split_and!; auto using seq_release_implements, seq_release_unchanged_implements, seq_die_implements,
    try_upgrade_word, begin_read_word, seq_read_ok,
    seq_acquire_free, seq_acquire_dead, seq_acquire_held.
Qed.

(** ** The protocol

    Threads share one lock word and the payload [D] it protects.  A holder
    writes only while it holds the lock and releases the lock unchanged only
    when it has not written. *)

Section Protocol.
Context {D : Type}.

Record scfg := SCfg { s_word : Z; s_owner : option nat; s_dirty : bool; s_data : D }.

Inductive sstep (t : nat) : scfg -> scfg -> Prop :=
| S_upgrade w o b d v w' :
    is_u64 v -> try_upgrade v w = Some (true, w') ->
    sstep t (SCfg w o b d) (SCfg w' (Some t) false d)
| S_acquire w o b d v seen w' :
    is_u64 v -> is_unlocked v = true ->
    SvLock.lock_handle _ (SvLock.CasWeak v (u64 (v + LOCK_BIT))) w = Some ((true, seen), w') ->
    sstep t (SCfg w o b d) (SCfg w' (Some t) false d)
| S_write w b d d' : sstep t (SCfg w (Some t) b d) (SCfg w (Some t) true d')
| S_release w b d r w' :
    release w = Some (r, w') -> sstep t (SCfg w (Some t) b d) (SCfg w' None false d)
| S_release_unchanged w d w' :
    release_unchanged w = Some (tt, w') -> sstep t (SCfg w (Some t) false d) (SCfg w' None false d)
| S_die w b d w' :
    die w = Some (tt, w') -> sstep t (SCfg w (Some t) b d) (SCfg w' (Some t) b d).

Inductive ssteps : scfg -> scfg -> Prop :=
| ssteps_refl c : ssteps c c
| ssteps_step t c c' c'' : sstep t c c' -> ssteps c' c'' -> ssteps c c''.

(** The ghost owner agrees with the word. *)
Definition s_inv (c : scfg) : Prop :=
  exists a, seq_ok a /\ s_word c = seq_word a /\
    match a with
    | Free _ => s_owner c = None /\ s_dirty c = false
    | _ => s_owner c <> None
    end.

Lemma s_inv_new d : s_inv (SCfg seq_lock_new None false d).
Proof. by exists (Free 0). Qed.

(** The count of the word. *)
Definition version (c : scfg) : Z := sq_count (seq_read (s_word c)).

Lemma version_word c a : seq_ok a -> s_word c = seq_word a -> version c = sq_count a.
Proof. intros Ha Hw. unfold version. by rewrite Hw, seq_read_word. Qed.

(** Taking the lock: the word was free, its count does not change. *)
Lemma cas_takes v w w' :
  is_u64 v -> is_unlocked v = true -> SvLock.cas_strong v (u64 (v + LOCK_BIT)) w = Some (true, w') ->
  exists c b, w = seq_word (Free c) /\ seq_ok (Free c) /\ sq_lock (Free c) = Some b /\ seq_ok b /\
    w' = seq_word b /\ sq_count b = c.
Proof.
  intros Hv Hu Hc. destruct (seq_read_ok v Hv) as [Hok Hw]. rewrite <- Hw, is_unlocked_word in Hu.
  destruct (seq_read v) as [c|c|]; [|done..]. unfold SvLock.cas_strong in Hc.
  destruct (Z.eqb_spec w v) as [->|]; [|done]. injection Hc as <-. rewrite <- Hw.
  destruct (lock_word c Hok) as (b & Hb & Hbok & ->). exists c, b. split_and!; try done.
  cbn [sq_lock] in Hb. injection Hb as <-. by case_decide.
Qed.

(** One step: who may make it, the count it leaves, and what it may change
    when the count stays. *)
Lemma sstep_ok t c c' :
  s_inv c -> sstep t c c' ->
  s_inv c' /\ (s_owner c = None \/ s_owner c = Some t) /\ version c <= version c' /\
  (version c = version c' -> s_dirty c' = false -> s_dirty c = false /\ s_data c' = s_data c).
Proof.
  intros (a & Ha & Hw & Hinv) Hstep.
  assert (Htake : forall w o b d v w', c = SCfg w o b d -> c' = SCfg w' (Some t) false d ->
    is_u64 v -> is_unlocked v = true -> SvLock.cas_strong v (u64 (v + LOCK_BIT)) w = Some (true, w') ->
    s_inv c' /\ (s_owner c = None \/ s_owner c = Some t) /\ version c <= version c' /\
    (version c = version c' -> s_dirty c' = false -> s_dirty c = false /\ s_data c' = s_data c)).
  { intros w o b d v w' -> -> Hv Hu Hc. cbn in Hw, Hinv.
    destruct (cas_takes v w w' Hv Hu Hc) as (n & a' & -> & Hn & Hl & Ha' & -> & Hcnt).
    apply seq_word_inj in Hw as <-; [|done..]. destruct Hinv as [-> ->].
    rewrite (version_word (SCfg (seq_word (Free n)) None false d) (Free n)) by done.
    rewrite (version_word (SCfg (seq_word a') (Some t) false d) a'), Hcnt by done.
    split_and!; [|auto|cbn; lia|done]. exists a'. split_and!; [done|done|].
    cbn [sq_lock] in Hl. injection Hl as <-. by case_decide. }
  destruct Hstep as [w o b d v w' Hv H|w o b d v seen w' Hv Hu H|w b d d'|w b d r w' H|w d w' H|w b d w' H];
    cbn in Hw, Hinv.
  - unfold try_upgrade in H. destruct (is_unlocked v) eqn:Hu; [exact (Htake _ _ _ _ _ _ eq_refl eq_refl Hv Hu H)|done].
  - apply SvLock.cas_weak_strong in H. exact (Htake _ _ _ _ _ _ eq_refl eq_refl Hv Hu H).
  - split_and!; [exists a; cbn; split_and!; [done..|destruct a; destruct_and?; done]|auto|done|done].
  - subst w. rewrite seq_release_implements in H by done. destruct a as [n|n|]; try done. injection H as <- <-.
    rewrite (version_word (SCfg _ (Some t) _ d) (Held n)), (version_word (SCfg _ None false d) (Free (n + 1)))
      by (done || cbn in *; lia).
    split_and!; [exists (Free (n + 1)); cbn in *; split_and!; try done; lia|auto|cbn; lia|cbn; lia].
  - subst w. rewrite seq_release_unchanged_implements in H by done. destruct a as [n|n|]; try done. injection H as <-.
    rewrite (version_word (SCfg _ (Some t) _ d) (Held n)), (version_word (SCfg _ None false d) (Free n))
      by (done || cbn in *; lia).
    split_and!; [exists (Free n); cbn in *; split_and!; try done; lia|auto|done|done].
  - subst w. rewrite seq_die_implements in H by done. destruct a as [n|n|]; try done. injection H as <-.
    rewrite (version_word (SCfg _ (Some t) _ d) (Held n)), (version_word (SCfg _ (Some t) b d) SeqDead) by done.
    cbn in Ha. split_and!; [exists SeqDead; cbn; split_and!; done|auto|cbn; lia|cbn; lia].
Qed.

Lemma ssteps_ok c c' :
  s_inv c -> ssteps c c' ->
  s_inv c' /\ version c <= version c' /\
  (version c = version c' -> s_dirty c' = false -> s_dirty c = false /\ s_data c' = s_data c).
Proof.
  intros Hinv Hs. induction Hs as [c|t c c' c'' Hstep Hs IH]; [done|].
  apply sstep_ok in Hstep as (Hi & _ & Hle & Hsame); [|done]. destruct (IH Hi) as (Hi' & Hle' & Hsame').
  split_and!; [done|lia|]. intros Hv Hd. destruct Hsame' as [Hd' Hdata']; [lia|done|].
  destruct Hsame as [Hd2 Hdata]; [lia|done|]. split; [done|congruence].
Qed.

Lemma ssteps_trans c c' c'' : ssteps c c' -> ssteps c' c'' -> ssteps c c''.
Proof. induction 1; [done|]. intros. econstructor; eauto. Qed.

(** the sequence lock makes optimistic reads and writes safe.  However
    threads interleave from a new lock, a thread that holds the lock is the
    only one to step; and a reader whose [confirm_read] accepts the value its
    [begin_read] returned read, at any point in between, the payload that is
    there at the confirmation, with no write pending.  No bound on the number
    of releases is needed, since the counter cannot wrap around. *)
Theorem seq_lock_correct d c0 c1 c2 v w0 w2 :
  ssteps (SCfg seq_lock_new None false d) c0 -> ssteps c0 c1 -> ssteps c1 c2 ->
  begin_read (s_word c0) = Some (v, w0) -> confirm_read v (s_word c2) = Some (true, w2) ->
  s_data c0 = s_data c2 /\ s_data c1 = s_data c2 /\ s_dirty c2 = false /\
  (forall t t' c', s_owner c1 = Some t -> sstep t' c1 c' -> t' = t).
Proof.
  intros H0 H1 H2 Hb Hc.
  destruct (ssteps_ok _ _ (s_inv_new d) H0) as (Hi0 & _ & _).
  destruct (ssteps_ok _ _ Hi0 H1) as (Hi1 & Hle1 & Hs1).
  destruct (ssteps_ok _ _ Hi1 H2) as (Hi2 & Hle2 & Hs2).
  pose proof Hi0 as (a & Ha & Hwa & _). pose proof Hi2 as (b & Hb2 & Hwb & Hfree).
  rewrite Hwa, begin_read_word in Hb by done. assert (v = seq_word (Free (sq_count a))) as -> by congruence.
  assert (Hf : seq_ok (Free (sq_count a))) by (destruct a; cbn in *; lia).
  rewrite Hwb, confirm_read_word in Hc by done. injection Hc as Hc _.
  apply bool_decide_eq_true in Hc. subst b. destruct Hfree as [_ Hclean].
  assert (Hv : version c0 = version c2) by (by rewrite (version_word c0 a), (version_word c2 (Free (sq_count a)))).
  destruct Hs2 as [Hd1 Hdata2]; [lia|done|]. destruct Hs1 as [_ Hdata1]; [lia|done|].
  split_and!; [congruence|done|done|].
  intros t t' c' Ho Hstep. apply sstep_ok in Hstep as (_ & [Hn|Ht] & _); [congruence|congruence|done].
Qed.
End Protocol.

(** A reader that runs while a writer takes the lock and gives it back. *)
Lemma seq_demo_read : ssteps (SCfg 0 None false 10) (SCfg 1 (Some 1%nat) false 10) /\
  ssteps (SCfg 1 (Some 1%nat) false 10) (SCfg 0 None false 10).
Proof.
  split; (eapply ssteps_step; [|apply ssteps_refl]).
  - apply (S_upgrade 1 0 None false 10 0 1); [unfold is_u64; lia|reflexivity].
  - by apply (S_release_unchanged 1 1 10 0).
Qed.

Lemma seq_lock_correct_witness :
  10 = 10 /\ 10 = 10 /\ false = false /\
  (forall t t' c', Some 1%nat = Some t -> sstep t' (SCfg 1 (Some 1%nat) false 10) c' -> t' = t).
Proof.
  exact (seq_lock_correct 10 (SCfg 0 None false 10) (SCfg 1 (Some 1%nat) false 10) (SCfg 0 None false 10) 0 0 0
           (ssteps_refl _) (proj1 seq_demo_read) (proj2 seq_demo_read) eq_refl eq_refl).
Defined.
