(* ===== verification/Rng.v ===== *)
(** * Rng: pseudo-random heights (rng/splitmix64.h, rng/lehmer64.h, random_height)

    A thread seeds Lehmer's generator with [splitmix64] and draws one 64-bit
    word for each new key; the height of the key is the number of layers whose
    ratio divides the word.  All arithmetic is on unsigned 64- or 128-bit
    words, with the reductions written out. *)

From S2P Require Import Prelude.

Local Open Scope Z_scope.

(** [splitmix64_stateless(index)] *)
Definition splitmix64_stateless (index : Z) : Z :=
  let z := u64 (index + 0x9E3779B97F4A7C15) in
  let z := u64 (Z.lxor z (Z.shiftr z 30) * 0xBF58476D1CE4E5B9) in
  let z := u64 (Z.lxor z (Z.shiftr z 27) * 0x94D049BB133111EB) in
  Z.lxor z (Z.shiftr z 31).

Definition u128 (x : Z) : Z := x mod 2 ^ 128.

(** [lehmer64_seed(seed)] *)
Definition lehmer64_seed (seed : Z) : Z :=
  u128 (u128 (Z.shiftl (splitmix64_stateless seed) 64) + splitmix64_stateless (u64 (seed + 1))).

(** [lehmer64(g_lehmer64_state)]: the word drawn and the new state. *)
Definition lehmer64 (state : Z) : Z * Z :=
  let state := u128 (state * 0xda942042e4dd58b5) in
  (u64 (Z.shiftr state 64), state).

(** [exp_to_ratio(exp)]: [1 << exp] is a shift of an [int], which overflows
    beyond 30. *)
Definition exp_to_ratio (exp : Z) : option Z :=
  if exp <=? 0 then Some 2 else assert_ (exp <=? 30) ;; Some (Z.shiftl 1 exp).

Definition SKIPARRAY_SIM_MODE : Z := -2.

(** The loop of [random_height], at most [n] more rounds ([layers - h]). *)
Fixpoint height_loop (ratio : Z) (n h : nat) (r : Z) : nat :=
  match n with
  | O => h
  | S n' => if r mod ratio =? 0 then height_loop ratio n' (S h) (r / ratio) else h
  end.

(** The height a word [r] gives. *)
Definition height_of (data_ratio idx_ratio : Z) (layers : nat) (r : Z) : nat :=
  if r mod data_ratio =? 0 then height_loop idx_ratio (layers - 1) 1 (r / data_ratio) else O.

(** [random_height()]: the height and the thread's generator state. *)
Definition random_height (IDX_EXP DATA_EXP : Z) (layers : nat) (state : Z) : option (nat * Z) :=
  if IDX_EXP =? SKIPARRAY_SIM_MODE then Some (O, state)
  else
    TARGET_IDX_RATIO ← exp_to_ratio IDX_EXP;
    TARGET_DATA_RATIO ← exp_to_ratio DATA_EXP;
    let '(r, state') := lehmer64 state in
    Some (height_of TARGET_DATA_RATIO TARGET_IDX_RATIO layers r, state').

(** ** The generators lose no information *)

(** A shifted exclusive or can be undone: the high bits determine the low. *)
Lemma xorshift_inj s a b :
  0 < s -> is_u64 a -> is_u64 b ->
  Z.lxor a (Z.shiftr a s) = Z.lxor b (Z.shiftr b s) -> a = b.
Proof.
  intros Hs Ha Hb Heq. unfold is_u64 in *.
  assert (Hhigh : forall x n, 0 <= x < 2 ^ 64 -> 64 <= n -> Z.testbit x n = false).
  { intros x n Hx Hn. destruct (decide (x = 0)) as [->|]; [apply Z.bits_0|].
    apply Z.bits_above_log2; [lia|]. apply Z.log2_lt_pow2; [lia|].
    apply Z.lt_le_trans with (2 ^ 64); [lia|]. apply Z.pow_le_mono_r; lia. }
  assert (Hbit : forall m n, 64 - Z.of_nat m <= n -> 0 <= n -> Z.testbit a n = Z.testbit b n).
  { induction m as [|m IH]; intros n Hn H0.
    - rewrite !Hhigh by lia. done.
    - pose proof (f_equal (fun z => Z.testbit z n) Heq) as Hx. cbn beta in Hx.
      rewrite !Z.lxor_spec, !Z.shiftr_spec, (IH (n + s)) in Hx by lia.
      destruct (Z.testbit a n), (Z.testbit b n), (Z.testbit b (n + s)); done. }
  apply Z.bits_inj'. intros n Hn. apply (Hbit 64%nat); lia.
Qed.

Lemma xorshift_range s a : 0 <= s -> is_u64 a -> is_u64 (Z.lxor a (Z.shiftr a s)).
Proof.
  unfold is_u64. intros Hs Ha. assert (H : 0 <= Z.lxor a (Z.shiftr a s)).
  { apply Z.lxor_nonneg. pose proof (Z.shiftr_nonneg a s). lia. }
  split; [done|]. destruct (decide (Z.lxor a (Z.shiftr a s) = 0)) as [->|]; [lia|].
  apply Z.log2_lt_pow2; [lia|]. destruct (decide (a = 0)) as [->|Ha0]; [by rewrite Z.shiftr_0_l in *|].
  eapply Z.le_lt_trans; [apply Z.log2_lxor; [lia|by apply Z.shiftr_nonneg; lia]|].
  rewrite Z.log2_shiftr by lia. apply Z.max_lub_lt.
  - apply Z.log2_lt_pow2; lia.
  - pose proof (proj1 (Z.log2_lt_pow2 a 64 ltac:(lia)) ltac:(lia)). pose proof (Z.log2_nonneg a). lia.
Qed.

(** Multiplying by a number with an inverse modulo [m]. *)
Lemma mul_mod_inj m k inv a b :
  0 < m -> (k * inv) mod m = 1 mod m -> 0 <= a < m -> 0 <= b < m ->
  (a * k) mod m = (b * k) mod m -> a = b.
Proof.
  intros Hm Hinv Ha Hb Heq.
  assert (Hundo : forall x, 0 <= x < m -> ((x * k) mod m * inv) mod m = x).
  { intros x Hx. rewrite Z.mul_mod_idemp_l, <- Z.mul_assoc, <- Z.mul_mod_idemp_r, Hinv, Z.mul_mod_idemp_r, Z.mul_1_r by lia.
    by apply Z.mod_small. }
  by rewrite <- (Hundo a Ha), Heq, Hundo.
Qed.

Lemma splitmix64_range index : is_u64 (splitmix64_stateless index).
Proof. apply xorshift_range; [lia|apply u64_range]. Qed.

Lemma splitmix64_inj a b :
  is_u64 a -> is_u64 b -> splitmix64_stateless a = splitmix64_stateless b -> a = b.
Proof.
  intros Ha Hb H. unfold splitmix64_stateless in H.
  apply xorshift_inj in H; [|lia|apply u64_range..].
  apply (mul_mod_inj (2 ^ 64) 0x94D049BB133111EB 0x319642B2D24D8EC3) in H;
    [|lia|by vm_compute|apply xorshift_range; [lia|apply u64_range]..].
  apply xorshift_inj in H; [|lia|apply u64_range..].
  apply (mul_mod_inj (2 ^ 64) 0xBF58476D1CE4E5B9 0x96DE1B173F119089) in H;
    [|lia|by vm_compute|apply xorshift_range; [lia|apply u64_range]..].
  apply xorshift_inj in H; [|lia|apply u64_range..].
  unfold u64, is_u64 in *. set (c := 0x9E3779B97F4A7C15) in H.
  rewrite <- (Z.mod_small a (2 ^ 64)), <- (Z.mod_small b (2 ^ 64)) by done.
  replace a with (a + c - c) at 1 by lia. replace b with (b + c - c) at 1 by lia.
  by rewrite <- (Zminus_mod_idemp_l (a + c)), H, Zminus_mod_idemp_l.
Qed.

Lemma lehmer64_seed_high seed : Z.shiftr (lehmer64_seed seed) 64 = splitmix64_stateless seed.
Proof.
  unfold lehmer64_seed, u128. pose proof (splitmix64_range seed) as H1.
  pose proof (splitmix64_range (u64 (seed + 1))) as H2. unfold is_u64 in *.
  rewrite Z.shiftl_mul_pow2, (Z.mod_small (_ * _)), Z.mod_small, Z.shiftr_div_pow2 by lia.
  rewrite Z.div_add_l, (Z.div_small (splitmix64_stateless (u64 (seed + 1)))) by lia. lia.
Qed.

(** The random numbers are as different as their seeds.
    [splitmix64_stateless] is a permutation of the 64-bit words, so that two
    threads with different seeds start from different generator states; and
    one step of [lehmer64] is injective on the 128-bit states, so that they
    stay different after any number of draws. *)
Theorem generators_injective a b n :
  is_u64 a -> is_u64 b -> a <> b ->
  splitmix64_stateless a <> splitmix64_stateless b /\
  Nat.iter n (fun s => (lehmer64 s).2) (lehmer64_seed a) <> Nat.iter n (fun s => (lehmer64 s).2) (lehmer64_seed b).
Proof.
  intros Ha Hb Hab. split; [by intros H%splitmix64_inj|].
  assert (Hr : forall s m, 0 <= Nat.iter m (fun s => (lehmer64 s).2) (lehmer64_seed s) < 2 ^ 128).
  { intros s [|m]; [|rewrite Nat.iter_succ]; apply Z.mod_pos_bound; lia. }
  induction n as [|n IH].
  - intros H. change (lehmer64_seed a = lehmer64_seed b) in H. apply Hab, splitmix64_inj; [done..|]. by rewrite <- !lehmer64_seed_high, H.
  - rewrite !Nat.iter_succ. intros H. apply IH. cbn [lehmer64 snd] in H. unfold u128 in H.
    apply (mul_mod_inj (2 ^ 128) 0xda942042e4dd58b5 0xcd365d2cb1a6a6c8b838d0354ead59d) in H;
      [done|lia|by vm_compute|apply Hr..].
Qed.

Lemma generators_injective_witness :
  splitmix64_stateless 1 <> splitmix64_stateless 2 /\
  (lehmer64 (lehmer64_seed 1)).2 <> (lehmer64 (lehmer64_seed 2)).2.
Proof. apply (generators_injective 1 2 1); unfold is_u64; lia. Defined.

(** ** Heights *)

Lemma height_loop_le ratio n : forall h r, (h <= height_loop ratio n h r <= h + n)%nat.
Proof.
  induction n as [|n IH]; intros h r; cbn [height_loop]; [lia|].
  destruct (r mod ratio =? 0); [|lia]. specialize (IH (S h) (r / ratio)). lia.
Qed.

(** A height is drawn, and it is no greater than the number of layers. *)
Lemma random_height_le IDX_EXP DATA_EXP layers state :
  IDX_EXP <= 30 -> DATA_EXP <= 30 -> (0 < layers)%nat ->
  exists h state', random_height IDX_EXP DATA_EXP layers state = Some (h, state') /\ (h <= layers)%nat.
Proof.
  intros Hi Hd Hl. unfold random_height. destruct (IDX_EXP =? SKIPARRAY_SIM_MODE); [exists O, state; split; [done|lia]|].
  assert (He : forall e, e <= 30 -> exists r, exp_to_ratio e = Some r).
  { intros e He. unfold exp_to_ratio. destruct (e <=? 0); [eauto|].
    rewrite (proj2 (Z.leb_le e 30)) by done. cbn. eauto. }
  destruct (He IDX_EXP Hi) as (r1 & ->). destruct (He DATA_EXP Hd) as (r2 & ->). cbn.
  eexists _, _. split; [done|]. unfold height_of. destruct (_ =? 0); [|lia].
  match goal with |- (height_loop _ _ _ ?r <= _)%nat => pose proof (height_loop_le r1 (layers - 1) 1 r) end. lia.
Qed.

Lemma height_loop_divide ratio n : 0 < ratio -> forall h r m, (m <= n)%nat ->
  (h + m <= height_loop ratio n h r)%nat <-> (ratio ^ Z.of_nat m | r).
Proof.
  intros Hratio. induction n as [|n IH]; intros h r m Hm; cbn [height_loop].
  { assert (m = 0)%nat as -> by lia. split; [intros _; apply Z.divide_1_l|lia]. }
  destruct m as [|m].
  { split; [intros _; apply Z.divide_1_l|]. destruct (r mod ratio =? 0); [|lia].
    pose proof (height_loop_le ratio n (S h) (r / ratio)). lia. }
  rewrite Nat2Z.inj_succ, Z.pow_succ_r by lia. destruct (Z.eqb_spec (r mod ratio) 0) as [Hz|Hne].
  - replace (h + S m)%nat with (S h + m)%nat by lia. rewrite IH by lia.
    assert (Hr : r = ratio * (r / ratio)) by (apply Z_div_exact_full_2; lia).
    rewrite Hr at 2. symmetry. apply Z.mul_divide_cancel_l. lia.
  - split; [lia|]. intros Hd. exfalso. apply Hne. apply Z.mod_divide; [lia|].
    eapply Z.divide_trans; [|exact Hd]. apply Z.divide_factor_l.
Qed.

(** The exponent of the ratio of an exponent parameter. *)
Definition ratio_exp (exp : Z) : Z := if exp <=? 0 then 1 else exp.

Lemma exp_to_ratio_pow exp : exp <= 30 -> exp_to_ratio exp = Some (2 ^ ratio_exp exp).
Proof.
  intros H. unfold exp_to_ratio, ratio_exp. destruct (Z.leb_spec exp 0); [done|].
  rewrite assert_true by (by apply Z.leb_le). cbn [mbind option_bind].
  by rewrite Z.shiftl_1_l.
Qed.

(** C28: heights are geometric.  [random_height] draws one word [r] and
    returns a height of at most [layers]; a height of at least [j] is drawn
    for exactly the words that are multiples of the product of the ratios of
    the first [j] layers, a power of two, so that they are 2^(64 - e) of the
    2^64 words; in SKIPARRAY_SIM_MODE every height is 0 and nothing is drawn.  *)
Theorem random_height_geometric IDX_EXP DATA_EXP layers state :
  IDX_EXP <= 30 -> DATA_EXP <= 30 -> (1 <= layers)%nat ->
  exists h state', random_height IDX_EXP DATA_EXP layers state = Some (h, state') /\ (h <= layers)%nat /\
    (IDX_EXP = SKIPARRAY_SIM_MODE -> h = O /\ state' = state) /\
    (IDX_EXP <> SKIPARRAY_SIM_MODE ->
     state' = (lehmer64 state).2 /\
     forall j, (1 <= j <= layers)%nat ->
       let e := ratio_exp DATA_EXP + (Z.of_nat j - 1) * ratio_exp IDX_EXP in
       e <= 64 ->
       (j <= h)%nat <-> exists m, 0 <= m < 2 ^ (64 - e) /\ (lehmer64 state).1 = m * 2 ^ e).
Proof.
  intros Hi Hd Hl. unfold random_height. destruct (Z.eqb_spec IDX_EXP SKIPARRAY_SIM_MODE) as [Hsim|Hsim].
  { exists O, state. split_and!; [done|lia|done|done]. }
  rewrite (exp_to_ratio_pow IDX_EXP), (exp_to_ratio_pow DATA_EXP) by done. cbn [mbind option_bind].
  destruct (lehmer64 state) as [r state'] eqn:Hr. do 2 eexists. split; [done|].
  assert (Hr64 : is_u64 r) by (injection Hr as <- _; apply u64_range). unfold is_u64 in Hr64.
  assert (Hpos : forall exp, 1 <= ratio_exp exp) by (intros exp; unfold ratio_exp; destruct (Z.leb_spec exp 0); lia).
  pose proof (Hpos DATA_EXP) as Hde. pose proof (Hpos IDX_EXP) as Hie.
  set (de := ratio_exp DATA_EXP) in *. set (ie := ratio_exp IDX_EXP) in *. assert (0 < 2 ^ de) by (apply Z.pow_pos_nonneg; lia). assert (0 < 2 ^ ie) by (apply Z.pow_pos_nonneg; lia).
  unfold height_of. split_and!.
  - destruct (r mod 2 ^ de =? 0); [|lia]. pose proof (height_loop_le (2 ^ ie) (layers - 1) 1 (r / 2 ^ de)). lia.
  - done.
  - intros _. split; [done|]. intros j Hj. set (e := de + (Z.of_nat j - 1) * ie). intros He. cbn [fst].
    assert (He0 : 0 <= e) by (unfold e; nia).
    assert (Hpe : 2 ^ e = 2 ^ de * (2 ^ ie) ^ Z.of_nat (j - 1)).
    { unfold e. rewrite Z.pow_add_r, <- Z.pow_mul_r, Nat2Z.inj_sub by nia. do 2 f_equal. lia. }
    assert (Hdiv : (2 ^ e | r) <-> exists m, 0 <= m < 2 ^ (64 - e) /\ r = m * 2 ^ e).
    { split; [|intros (m & _ & Hm); by exists m]. intros [m Hm]. exists m. split; [|done].
      assert (0 < 2 ^ e) by (apply Z.pow_pos_nonneg; lia).
      assert (H64 : 2 ^ 64 = 2 ^ (64 - e) * 2 ^ e) by (rewrite <- Z.pow_add_r by lia; f_equal; lia). nia. }
    rewrite <- Hdiv, Hpe. destruct (Z.eqb_spec (r mod 2 ^ de) 0) as [Hz|Hne].
    + replace j with (1 + (j - 1))%nat at 1 by lia. rewrite height_loop_divide by lia.
      assert (Hrd : r = 2 ^ de * (r / 2 ^ de)) by (apply Z_div_exact_full_2; lia).
      rewrite Hrd at 2. symmetry. apply Z.mul_divide_cancel_l. lia.
    + split; [lia|]. intros Hdd. exfalso. apply Hne. apply Z.mod_divide; [lia|].
      eapply Z.divide_trans; [|exact Hdd]. apply Z.divide_factor_l.
Qed.

(** Exponents 2 and 2 on 4 layers. *)
Lemma random_height_geometric_witness :
  exists h state', random_height 2 2 4 (lehmer64_seed 1) = Some (h, state') /\ (h <= 4)%nat /\
    (2 = SKIPARRAY_SIM_MODE -> h = O /\ state' = lehmer64_seed 1) /\
    (2 <> SKIPARRAY_SIM_MODE ->
     state' = (lehmer64 (lehmer64_seed 1)).2 /\
     forall j, (1 <= j <= 4)%nat ->
       let e := 2 + (Z.of_nat j - 1) * 2 in
       e <= 64 ->
       (j <= h)%nat <-> exists m, 0 <= m < 2 ^ (64 - e) /\ (lehmer64 (lehmer64_seed 1)).1 = m * 2 ^ e).
Proof. apply (random_height_geometric 2 2 4 (lehmer64_seed 1)); lia. Defined.
