(* ===== verification/VecSpec.v ===== *)
(** * VecSpec: what a vector class promises to the skip vector

    [skipvector] is a template over the vector class of its chunks.  [VecOps]
    is the set of methods the template calls; [VecSpec] states what they do to
    the sorted content of the vector.  The skip vector's theorems are proved
    against this interface, and [vector_sfra.h] and [vector_umfra.h] discharge
    it in the files VectorSfra and VectorUmfra.

    A method is a partial function: [None] is a failed [assert], an
    out-of-range access or a thrown exception. *)

From S2P Require Import Prelude KvList.

Local Open Scope Z_scope.

Class VecOps (vec : Type -> Type) := {
  (** [CAPACITY] *)
  v_capacity : nat;
  (** A new vector over freshly allocated memory, whose content is arbitrary. *)
  v_new {V} : Z * V -> vec V;
  v_get_size {V} : vec V -> nat;
  v_first {V} : vec V -> option Z;
  (** [last(k)]: the inner [None] is [return false]. *)
  v_last {V} : vec V -> option (option Z);
  v_contains {V} : Z -> vec V -> option (option V);
  v_find_lte {V} : Z -> vec V -> option (option (Z * V));
  (** [insert(pair, overfull)]: result, final value of [overfull], vector. *)
  v_insert {V} : Z -> V -> vec V -> option (bool * bool * vec V);
  (** The stealing methods: the new vector, then its victim. *)
  v_split_insert {V} : Z -> V -> vec V -> vec V -> option (vec V * vec V);
  v_steal_half_and_insert {V} : Z -> V -> vec V -> vec V -> option (vec V * vec V);
  v_steal_half {V} : vec V -> vec V -> option (vec V * vec V);
  (** [merge(victim)]: this vector, then its victim. *)
  v_merge {V} : vec V -> vec V -> option (vec V * vec V);
  v_sort {V} : vec V -> vec V;
  v_at {V} : nat -> vec V -> option Z;
  v_max_key {V} : vec V -> option Z;
  v_verify {V} : vec V -> option bool;
}.

(** [split_at(victim, k)], which only the sorted vector has. *)
Class VecSplitAt (vec : Type -> Type) `{VecOps vec} := {
  v_split_at {V} : Z -> vec V -> vec V -> option (bool * (vec V * vec V));
}.

Section Laws.
Context {vec : Type -> Type} `{VecOps vec}.

Class VecSpec := {
  (** The state a vector is in between two calls, and its content. *)
  v_ok {V} : vec V -> Prop;
  v_elems {V} : vec V -> list (Z * V);

  v_capacity_pos : (1 <= v_capacity)%nat;
  v_elems_sorted {V} (v : vec V) : v_ok v -> kv_sorted (v_elems v);
  v_elems_length {V} (v : vec V) : v_ok v -> (length (v_elems v) <= v_capacity)%nat;

  v_new_spec {V} (junk : Z * V) : v_ok (v_new junk) /\ v_elems (v_new junk) = [];
  v_get_size_spec {V} (v : vec V) : v_ok v -> v_get_size v = length (v_elems v);
  v_first_spec {V} (v : vec V) k :
    v_ok v -> kv_first (v_elems v) = Some k -> v_first v = Some k;
  v_first_total {V} (v : vec V) : v_ok v -> is_Some (v_first v);
  v_last_spec {V} (v : vec V) : v_ok v -> v_last v = Some (kv_last (v_elems v));
  v_contains_spec {V} k (v : vec V) :
    v_ok v -> v_contains k v = Some (kv_lookup k (v_elems v));
  v_find_lte_spec {V} k (v : vec V) :
    v_ok v -> v_find_lte k v = Some (kv_lte k (v_elems v));

  v_insert_present {V} k (x y : V) v :
    v_ok v -> kv_lookup k (v_elems v) = Some y ->
    v_insert k x v = Some (false, false, v);
  v_insert_full {V} k (x : V) v :
    v_ok v -> kv_lookup k (v_elems v) = None -> length (v_elems v) = v_capacity ->
    v_insert k x v = Some (false, true, v);
  v_insert_room {V} k (x : V) v :
    v_ok v -> kv_lookup k (v_elems v) = None -> (length (v_elems v) < v_capacity)%nat ->
    exists v', v_insert k x v = Some (true, false, v') /\
      v_ok v' /\ v_elems v' = kv_insert k x (v_elems v);

  v_split_insert_spec {V} k (x : V) self victim :
    v_ok self -> v_ok victim -> kv_lookup k (v_elems victim) = None ->
    (S (length (kv_above k (v_elems victim))) <= v_capacity)%nat ->
    exists self' victim', v_split_insert k x self victim = Some (self', victim') /\
      v_ok self' /\ v_ok victim' /\
      v_elems self' = (k, x) :: kv_above k (v_elems victim) /\
      v_elems victim' = kv_below k (v_elems victim);

  v_steal_half_and_insert_spec {V} k (x : V) self victim :
    v_ok self -> v_ok victim -> kv_lookup k (v_elems victim) = None ->
    v_elems victim <> [] ->
    exists self' victim', v_steal_half_and_insert k x self victim = Some (self', victim') /\
      v_ok self' /\ v_ok victim' /\
      v_elems victim' ++ v_elems self' = kv_insert k x (v_elems victim) /\
      length (v_elems self') = (S (length (v_elems victim)) / 2)%nat;

  v_steal_half_spec {V} (self victim : vec V) :
    v_ok self -> v_ok victim ->
    exists self' victim', v_steal_half self victim = Some (self', victim') /\
      v_ok self' /\ v_ok victim' /\
      v_elems victim' = take (length (v_elems victim) / 2) (v_elems victim) /\
      v_elems self' = drop (length (v_elems victim) / 2) (v_elems victim);

  v_merge_spec {V} (self victim : vec V) :
    v_ok self -> v_ok victim ->
    (forall a b, a ∈ v_elems self -> b ∈ v_elems victim -> a.1 < b.1) ->
    (length (v_elems self) + length (v_elems victim) <= v_capacity)%nat ->
    exists self' victim', v_merge self victim = Some (self', victim') /\
      v_ok self' /\ v_ok victim' /\
      v_elems self' = v_elems self ++ v_elems victim /\ v_elems victim' = [];

  v_sort_spec {V} (v : vec V) : v_ok v -> v_ok (v_sort v) /\ v_elems (v_sort v) = v_elems v;
  v_at_spec {V} (v : vec V) i e :
    v_ok v -> v_elems v !! i = Some e -> v_at i (v_sort v) = Some e.1;
  v_max_key_spec {V} (v : vec V) k :
    v_ok v -> kv_last (v_elems v) = Some k -> v_max_key v = Some k;
  v_verify_spec {V} (v : vec V) : v_ok v -> v_verify v = Some true;
}.

Class VecSplitAtSpec `{!VecSpec} `{!VecSplitAt vec} := {
  v_split_at_spec {V} k (self victim : vec V) :
    v_ok self -> v_ok victim -> kv_from k (v_elems victim) <> [] ->
    exists self' victim', v_split_at k self victim = Some (true, (self', victim')) /\
      v_ok self' /\ v_ok victim' /\
      v_elems self' = kv_from k (v_elems victim) /\
      v_elems victim' = kv_below k (v_elems victim);
  v_split_at_none {V} k (self victim : vec V) :
    v_ok self -> v_ok victim -> kv_from k (v_elems victim) = [] ->
    v_split_at k self victim = Some (false, (self, victim));
}.
End Laws.

Arguments VecSpec vec {_}.
Arguments VecSplitAtSpec vec {_ _ _}.
Arguments v_ok {vec _ _ V} v.
Arguments v_elems {vec _ _ V} v.
Arguments v_capacity vec {_}.

(** ** The methods of a map's vector

    The skip vector of pairs (skipvector.h) also removes keys, and runs a
    callback over its data vectors.  A callback [f(key, value, exit_flag)] may
    update the value, raise the flag, and act on a state [St] of its own;
    [visit] is what it does to a list of pairs. *)

Class VecMapOps (vec : Type -> Type) := {
  (** [remove(k, v)]: the removed value. *)
  v_remove {V} : Z -> vec V -> option (option V * vec V);
  (** [for_each(f, exit_flag)]: the vector, the final flag, the state. *)
  v_for_each {V St} (f : Z -> V -> bool -> St -> V * bool * St) :
    vec V -> bool -> St -> option (vec V * bool * St);
  (** [range(from, to, f, exit_flag)]: its result first. *)
  v_range {V St} (f : Z -> V -> bool -> St -> V * bool * St) :
    Z -> Z -> vec V -> bool -> St -> option (bool * vec V * bool * St);
}.

Section MapLaws.
Context {vec : Type -> Type} `{HV : VecOps vec} `{HS : !VecSpec vec} `{HM : VecMapOps vec}.

Class VecMapSpec := {
  v_remove_absent {V} k (v : vec V) :
    v_ok v -> kv_lookup k (v_elems v) = None -> v_remove k v = Some (None, v);
  v_remove_present {V} k x (v : vec V) :
    v_ok v -> kv_lookup k (v_elems v) = Some x ->
    exists v', v_remove k v = Some (Some x, v') /\ v_ok v' /\
      v_elems v' = kv_remove k (v_elems v);
  v_for_each_spec {V St} (f : Z -> V -> bool -> St -> V * bool * St) (v : vec V) b s :
    v_ok v ->
    let '(l, b', s') := visit f (v_elems v) b s in
    exists v', v_for_each f v b s = Some (v', b', s') /\ v_ok v' /\ v_elems v' = l;
}.

(** [range] visits the keys from [from] to [to] and answers whether it met a
    key beyond [to]; the unsorted vector does not promise this. *)
Class VecRangeSpec := {
  v_range_spec {V St} (f : Z -> V -> bool -> St -> V * bool * St) from to (v : vec V) b s :
    v_ok v ->
    let mid := kv_from from (v_elems v) in
    let '(l, b', s') := visit f (kv_upto to mid) b s in
    exists v', v_range f from to v b s =
        Some (negb b' && negb (bool_decide (kv_above to mid = [])), v', b', s') /\
      v_ok v' /\ v_elems v' = kv_below from (v_elems v) ++ l ++ kv_above to mid;
}.
End MapLaws.

Arguments VecMapSpec vec {_ _ _}.
Arguments VecRangeSpec vec {_ _ _}.
