(* ===== verification/ArrayOps.v ===== *)
(** * ArrayOps: the arrays of pairs the vector classes keep

    The classes of vector/ keep their pairs in a C array [list], whose entries
    they read, write, swap and copy with [memcpy].  An access out of range is
    [None]. *)

From S2P Require Import Prelude KvList.

Local Open Scope Z_scope.

(** ** Array accesses *)

(** [list[i]] at a signed index. *)
Definition entry_at {V} (l : list (Z * V)) (i : Z) : option (Z * V) :=
  if i <? 0 then None else l !! Z.to_nat i.

(** [list[i] = e] *)
Definition store_at {V} (l : list (Z * V)) (i : nat) (e : Z * V) : option (list (Z * V)) :=
  assert_ (i <? length l)%nat ;; Some (<[i := e]> l).

(** [memcpy(dst + dpos, src + spos, n * ENTRY_SIZE)] between two arrays. *)
Definition memcpy {V} (dst : list (Z * V)) (dpos : nat) (src : list (Z * V)) (spos n : nat)
    : option (list (Z * V)) :=
  assert_ (spos + n <=? length src)%nat ;;
  assert_ (dpos + n <=? length dst)%nat ;;
  Some (take dpos dst ++ take n (drop spos src) ++ drop (dpos + n) dst).

(** [list[n].swap(list[m])] unless [n == m]. *)
Definition swap_at {V} (l : list (Z * V)) (n m : nat) : option (list (Z * V)) :=
  if (n =? m)%nat then Some l
  else a ← l !! n; b ← l !! m; Some (<[m := a]> (<[n := b]> l)).

(** ** Facts *)

Section Facts.
Context {V : Type}.
Implicit Types (l : list (Z * V)) (e : Z * V).

Lemma memcpy_spec (dst src : list (Z * V)) dpos spos n :
  (spos + n <= length src)%nat -> (dpos + n <= length dst)%nat ->
  exists l, memcpy dst dpos src spos n = Some l /\ length l = length dst /\
    take (dpos + n) l = take dpos dst ++ take n (drop spos src).
Proof.
  intros Hs Hd. unfold memcpy.
  rewrite (assert_true (spos + n <=? _)%nat) by (by apply Nat.leb_le).
  rewrite (assert_true (dpos + n <=? _)%nat) by (by apply Nat.leb_le).
  cbn [mbind option_bind]. eexists. split; [reflexivity|]. split.
  - rewrite !length_app, !length_take, !length_drop. lia.
  - rewrite app_assoc, take_app_length'; [done|].
    rewrite length_app, !length_take, length_drop. lia.
Qed.

Lemma store_at_spec (l : list (Z * V)) i e :
  (i < length l)%nat -> store_at l i e = Some (<[i:=e]> l).
Proof. intros H. unfold store_at. by rewrite assert_true by (by apply Nat.ltb_lt). Qed.

(** Overwriting one entry. *)
Lemma perm_insert l i a b : l !! i = Some a -> a :: <[i := b]> l ≡ₚ b :: l.
Proof.
  intros Hi. rewrite insert_take_drop by (by eapply lookup_lt_Some).
  rewrite <- (take_drop_middle l i a Hi) at 3. solve_Permutation.
Qed.

Lemma swap_at_spec l n m a b :
  l !! n = Some a -> l !! m = Some b ->
  exists l', swap_at l n m = Some l' /\ l' ≡ₚ l /\ length l' = length l /\
    l' !! n = Some b /\ l' !! m = Some a /\ forall i, i <> n -> i <> m -> l' !! i = l !! i.
Proof.
  intros Hn Hm. pose proof (lookup_lt_Some _ _ _ Hn). pose proof (lookup_lt_Some _ _ _ Hm).
  unfold swap_at. destruct (Nat.eqb_spec n m) as [->|Hne].
  - exists l. by simplify_eq.
  - rewrite Hn, Hm. cbn [mbind option_bind]. eexists. split; [reflexivity|].
    split_and!; rewrite ?length_insert; try done.
    + apply (Permutation_cons_inv (a := b)).
      rewrite perm_insert by (by rewrite list_lookup_insert_ne). by apply perm_insert.
    + rewrite list_lookup_insert_ne, list_lookup_insert_eq by done. done.
    + rewrite list_lookup_insert_eq by (by rewrite length_insert). done.
    + intros i Hi1 Hi2. by rewrite !list_lookup_insert_ne.
Qed.

(** Prefixes of equal length whose complements agree. *)
Lemma perm_take l l' n :
  l' ≡ₚ l -> (forall i, (n <= i)%nat -> l' !! i = l !! i) -> take n l' ≡ₚ take n l.
Proof.
  intros Hp Hi. assert (Hd : drop n l' = drop n l).
  { apply list_eq. intros i. rewrite !lookup_drop. apply Hi. lia. }
  rewrite <- (take_drop n l'), <- (take_drop n l), Hd in Hp. by eapply Permutation_app_inv_r.
Qed.

(** The last entry of a prefix. *)
Lemma take_last l n e : l !! n = Some e -> take (S n) l = take n l ++ [e].
Proof. apply take_S_r. Qed.

(** Appending at the end of a prefix. *)
Lemma take_store l n e :
  (n < length l)%nat -> take (S n) (<[n := e]> l) = take n l ++ [e].
Proof.
  intros Hn. rewrite (take_S_r _ n e) by (by apply list_lookup_insert_eq).
  by rewrite take_insert_ge.
Qed.

(** Overwriting inside a prefix. *)
Lemma take_overwrite l n i e :
  (i < n)%nat -> take n (<[i := e]> l) = <[i := e]> (take n l).
Proof. intros Hi. by rewrite take_insert_lt. Qed.
End Facts.
