(* ===== verification/VectorSfra.v ===== *)
(** * VectorSfra: the sorted vector (vector/vector_sfra.h)

    [vector_sfra] keeps its pairs in increasing key order in a fixed array of
    [CAPACITY] entries, of which the first [size] are live.  Every method is
    translated with its array accesses ([None] when out of range) and its
    asserts; the loops are translated as loops. *)

From S2P Require Import Prelude KvList VecSpec ArrayOps.

Local Open Scope Z_scope.

(** ** The class *)

Record sfra (V : Type) := Sfra { sf_list : list (Z * V); sf_size : nat }.
Arguments Sfra {V} sf_list sf_size.
Arguments sf_list {V} s.
Arguments sf_size {V} s.

Section Sfra.
Context (CAPACITY : nat) {V : Type}.
Implicit Types (v self victim : sfra V) (k : Z) (x : V).

(** The constructor: [size(0)] over whatever the memory held. *)
Definition sfra_new (junk : Z * V) : sfra V := Sfra (replicate CAPACITY junk) 0.

(** The loop of the private [find]. *)
Fixpoint find_loop (fuel : nat) (l : list (Z * V)) k (left right : Z) : option Z :=
  if right <? left then Some left
  else match fuel with
  | O => None
  | S fuel' =>
      let mid := left + Z.quot (right - left) 2 in
      e ← entry_at l mid;
      if e.1 =? k then Some mid
      else if k <? e.1 then find_loop fuel' l k left (mid - 1)
      else find_loop fuel' l k (mid + 1) right
  end.

Definition find v k : option nat :=
  let right := i64 (u64 (Z.of_nat (sf_size v) - 1)) in
  p ← find_loop (S (sf_size v)) (sf_list v) k 0 right;
  assert_ (0 <=? p) ;; Some (Z.to_nat p).

(** [pos < size && list[pos].key == k] *)
Definition key_at v pos k : option bool :=
  if (pos <? sf_size v)%nat then e ← sf_list v !! pos; Some (e.1 =? k) else Some false.

Definition split_insert k x self victim : option (sfra V * sfra V) :=
  start_pos ← find victim k;
  present ← key_at victim start_pos k;
  assert_ (negb present) ;;
  let entries_to_steal := (sf_size victim - start_pos)%nat in
  assert_ (entries_to_steal + 1 <=? CAPACITY)%nat ;;
  l0 ← store_at (sf_list self) 0 (k, x);
  l1 ← memcpy l0 1 (sf_list victim) start_pos entries_to_steal;
  Some (Sfra l1 (1 + entries_to_steal),
        Sfra (sf_list victim) (sf_size victim - entries_to_steal)).

Definition split_at k self victim : option (bool * (sfra V * sfra V)) :=
  start_pos ← find victim k;
  if (sf_size victim <=? start_pos)%nat then Some (false, (self, victim))
  else
    let entries_to_steal := (sf_size victim - start_pos)%nat in
    assert_ (entries_to_steal <=? CAPACITY)%nat ;;
    l1 ← memcpy (sf_list self) 0 (sf_list victim) start_pos entries_to_steal;
    Some (true, (Sfra l1 entries_to_steal,
                 Sfra (sf_list victim) (sf_size victim - entries_to_steal))).

(** [for (size_t i = size; i > pos; --i) list[i] = list[i - 1];]
    [n] is the number of iterations left, [pos + n] the current [i]. *)
Fixpoint shift_right (l : list (Z * V)) (pos n : nat) : option (list (Z * V)) :=
  match n with
  | O => Some l
  | S n' =>
      e ← l !! (pos + n')%nat;
      l' ← store_at l (pos + n) e;
      shift_right l' pos n'
  end.

(** [insert(pair, overfull)] *)
Definition insert k x v : option (bool * bool * sfra V) :=
  pos ← find v k;
  present ← key_at v pos k;
  if present : bool then Some (false, false, v)
  else if (sf_size v =? CAPACITY)%nat then Some (false, true, v)
  else
    l1 ← shift_right (sf_list v) pos (sf_size v - pos);
    l2 ← store_at l1 pos (k, x);
    Some (true, false, Sfra l2 (S (sf_size v))).

(** [insert(pair)], which asserts that there was room. *)
Definition insert_assert k x v : option (bool * sfra V) :=
  '(result, overfull, v') ← insert k x v;
  assert_ (negb overfull) ;; Some (result, v').

Definition steal_half_and_insert k x self victim : option (sfra V * sfra V) :=
  insert_pos ← find victim k;
  present ← key_at victim insert_pos k;
  assert_ (negb present) ;;
  let median_pos := (sf_size victim / 2)%nat in
  if (insert_pos <=? median_pos)%nat then
    let first_to_steal := median_pos in
    let entries_to_steal := (sf_size victim - first_to_steal)%nat in
    l ← memcpy (sf_list self) 0 (sf_list victim) first_to_steal entries_to_steal;
    '(_, victim') ← insert_assert k x (Sfra (sf_list victim) first_to_steal);
    Some (Sfra l entries_to_steal, victim')
  else
    let first_to_steal := (median_pos + 1)%nat in
    let entries_to_steal := (sf_size victim - first_to_steal)%nat in
    let first_batch_size := (insert_pos - first_to_steal)%nat in
    let second_batch_size := (entries_to_steal - first_batch_size)%nat in
    l1 ← memcpy (sf_list self) 0 (sf_list victim) first_to_steal first_batch_size;
    l2 ← store_at l1 first_batch_size (k, x);
    l3 ← memcpy l2 (first_batch_size + 1) (sf_list victim)
           (first_to_steal + first_batch_size) second_batch_size;
    Some (Sfra l3 (entries_to_steal + 1),
          Sfra (sf_list victim) (sf_size victim - entries_to_steal)).

Definition steal_half self victim : option (sfra V * sfra V) :=
  let median_pos := (sf_size victim / 2)%nat in
  let first_to_steal := median_pos in
  let entries_to_steal := (sf_size victim - first_to_steal)%nat in
  l ← memcpy (sf_list self) 0 (sf_list victim) first_to_steal entries_to_steal;
  Some (Sfra l entries_to_steal, Sfra (sf_list victim) first_to_steal).

(** [for (size_t i = pos; i < size; ++i) list[i] = list[i + 1];] *)
Fixpoint shift_left (l : list (Z * V)) (pos n : nat) : option (list (Z * V)) :=
  match n with
  | O => Some l
  | S n' =>
      e ← l !! S pos;
      l' ← store_at l pos e;
      shift_left l' (S pos) n'
  end.

(** [remove(k, v)]: the removed value if the key was there. *)
Definition remove k v : option (option V * sfra V) :=
  pos ← find v k;
  present ← key_at v pos k;
  if present : bool then
    e ← sf_list v !! pos;
    let size' := (sf_size v - 1)%nat in
    l ← shift_left (sf_list v) pos (size' - pos);
    Some (Some e.2, Sfra l size')
  else Some (None, v).

Definition contains k v : option (option V) :=
  pos ← find v k;
  present ← key_at v pos k;
  if present : bool then e ← sf_list v !! pos; Some (Some e.2) else Some None.

Definition first v : option Z := e ← sf_list v !! O; Some e.1.

Definition last v : option (option Z) :=
  if (0 <? sf_size v)%nat then e ← sf_list v !! (sf_size v - 1)%nat; Some (Some e.1)
  else Some None.

Definition find_lte sought_k v : option (option (Z * V)) :=
  if (sf_size v =? 0)%nat then Some None
  else
    pos ← find v sought_k;
    above ← (if (sf_size v <=? pos)%nat then Some true
             else e ← sf_list v !! pos; Some (sought_k <? e.1));
    if above : bool then
      if (pos =? 0)%nat then Some None
      else e ← sf_list v !! (pos - 1)%nat; Some (Some e)
    else e ← sf_list v !! pos; Some (Some e).

Definition merge self victim : option (sfra V * sfra V) :=
  assert_ (sf_size self + sf_size victim <=? CAPACITY)%nat ;;
  l ← memcpy (sf_list self) (sf_size self) (sf_list victim) 0 (sf_size victim);
  Some (Sfra l (sf_size self + sf_size victim), Sfra (sf_list victim) 0).

(** The loop of [verify]: [n] iterations from index [i], with [fail] returning
    false, as it does in a build with NDEBUG. *)
Fixpoint verify_loop (l : list (Z * V)) (i n : nat) : option bool :=
  match n with
  | O => Some true
  | S n' =>
      a ← l !! (i - 1)%nat; b ← l !! i;
      if b.1 <=? a.1 then Some false else verify_loop l (S i) n'
  end.

Definition verify v : option bool :=
  if (CAPACITY <? sf_size v)%nat then Some false
  else verify_loop (sf_list v) 1 (sf_size v - 1).

Definition sort v : sfra V := v.

Definition at_ (index : nat) v : option Z :=
  assert_ (index <? sf_size v)%nat ;; e ← sf_list v !! index; Some e.1.

Definition max_key v : option Z :=
  if (sf_size v =? 0)%nat then None else e ← sf_list v !! (sf_size v - 1)%nat; Some e.1.

Definition get_size v : nat := sf_size v.

(** *** Iteration

    A callback [f(key, value, exit_flag)] may update the value, raise the
    flag, and have effects of its own, on a state [St]. *)
Section Iteration.
Context {St : Type} (f : Z -> V -> bool -> St -> V * bool * St).

(** The loop of [for_each]: [n] iterations from index [i]. *)
Fixpoint for_each_loop (l : list (Z * V)) (i n : nat) (exit_flag : bool) (s : St)
    : option (list (Z * V) * bool * St) :=
  match n with
  | O => Some (l, exit_flag, s)
  | S n' =>
      if exit_flag then Some (l, exit_flag, s)
      else
        e ← l !! i;
        let '(x, exit', s') := f e.1 e.2 exit_flag s in
        l' ← store_at l i (e.1, x);
        for_each_loop l' (S i) n' exit' s'
  end.

Definition for_each v (exit_flag : bool) (s : St) : option (sfra V * bool * St) :=
  '(l, exit', s') ← for_each_loop (sf_list v) 0 (sf_size v) exit_flag s;
  Some (Sfra l (sf_size v), exit', s').

(** The first loop of [range], which skips the keys below [from]. *)
Fixpoint range_skip (l : list (Z * V)) (from : Z) (i n : nat) : option nat :=
  match n with
  | O => Some i
  | S n' => e ← l !! i; if e.1 <? from then range_skip l from (S i) n' else Some i
  end.

(** Its second loop; the boolean is the value returned. *)
Fixpoint range_loop (l : list (Z * V)) (to : Z) (i n : nat) (exit_flag : bool) (s : St)
    : option (bool * list (Z * V) * bool * St) :=
  match n with
  | O => Some (false, l, exit_flag, s)
  | S n' =>
      if exit_flag then Some (false, l, exit_flag, s)
      else
        e ← l !! i;
        if to <? e.1 then Some (true, l, exit_flag, s)
        else
          let '(x, exit', s') := f e.1 e.2 exit_flag s in
          l' ← store_at l i (e.1, x);
          range_loop l' to (S i) n' exit' s'
  end.

Definition range (from to : Z) v (exit_flag : bool) (s : St)
    : option (bool * sfra V * bool * St) :=
  i ← range_skip (sf_list v) from 0 (sf_size v);
  '(r, l, exit', s') ← range_loop (sf_list v) to i (sf_size v - i) exit_flag s;
  Some (r, Sfra l (sf_size v), exit', s').
End Iteration.

(** ** The invariant and the content *)

Definition elems v : list (Z * V) := take (sf_size v) (sf_list v).

Definition sfra_ok v : Prop :=
  length (sf_list v) = CAPACITY /\ (sf_size v <= CAPACITY)%nat /\ kv_sorted (elems v).

Lemma elems_length v : sfra_ok v -> length (elems v) = sf_size v.
Proof. intros (Hl & Hs & _). unfold elems. rewrite length_take. lia. Qed.

Lemma elems_lookup v i : (i < sf_size v)%nat -> elems v !! i = sf_list v !! i.
Proof. intros H. unfold elems. by rewrite lookup_take_lt. Qed.

Lemma elems_lookup_list v i e : elems v !! i = Some e -> sf_list v !! i = Some e.
Proof. unfold elems. rewrite lookup_take_Some. tauto. Qed.

(** A vector is determined to be fine by its array and a sorted prefix. *)
Lemma sfra_ok_mk l n el :
  length l = CAPACITY -> (n <= CAPACITY)%nat -> take n l = el -> kv_sorted el ->
  sfra_ok (Sfra l n) /\ elems (Sfra l n) = el.
Proof. intros Hl Hn He Hs. unfold sfra_ok, elems. cbn. rewrite He. auto. Qed.

Lemma sfra_new_ok junk : sfra_ok (sfra_new junk) /\ elems (sfra_new junk) = [].
Proof.
  apply sfra_ok_mk; [apply length_replicate|lia|done|apply kv_sorted_nil].
Qed.

(** *** The shifting loops *)

Lemma shift_right_spec (l : list (Z * V)) pos n :
  (pos + n < length l)%nat ->
  exists l', shift_right l pos n = Some l' /\ length l' = length l /\
    forall j, l' !! j = if decide (pos < j <= pos + n)%nat then l !! (j - 1)%nat else l !! j.
Proof.
  revert l. induction n as [|n IH]; intros l Hl.
  { exists l. split_and!; [done..|]. intros j. by rewrite decide_False by lia. }
  cbn [shift_right].
  destruct (lookup_lt_is_Some_2 l (pos + n)) as [e He]; [lia|].
  step_with He. rewrite store_at_spec by lia. cbn [mbind option_bind].
  destruct (IH (<[(pos + S n)%nat := e]> l)) as (l' & Hr & Hlen & Hj);
    [rewrite length_insert; lia|].
  exists l'. rewrite length_insert in Hlen. split_and!; [done..|]. intros j. rewrite Hj.
  destruct (decide (j = pos + S n)%nat) as [->|Hne].
  - rewrite decide_False, decide_True, list_lookup_insert_eq by lia.
    rewrite <- He. f_equal. lia.
  - destruct (decide (pos < j <= pos + n)%nat).
    + by rewrite decide_True, list_lookup_insert_ne by lia.
    + by rewrite decide_False, list_lookup_insert_ne by lia.
Qed.

Lemma shift_left_spec (l : list (Z * V)) pos n :
  (pos + n < length l)%nat ->
  exists l', shift_left l pos n = Some l' /\ length l' = length l /\
    forall j, l' !! j = if decide (pos <= j < pos + n)%nat then l !! S j else l !! j.
Proof.
  revert l pos. induction n as [|n IH]; intros l pos Hl.
  { exists l. split_and!; [done..|]. intros j. by rewrite decide_False by lia. }
  cbn [shift_left].
  destruct (lookup_lt_is_Some_2 l (S pos)) as [e He]; [lia|].
  step_with He. rewrite store_at_spec by lia. cbn [mbind option_bind].
  destruct (IH (<[pos := e]> l) (S pos)) as (l' & Hr & Hlen & Hj);
    [rewrite length_insert; lia|].
  exists l'. rewrite length_insert in Hlen. split_and!; [done..|]. intros j. rewrite Hj.
  destruct (decide (j = pos)) as [->|Hne].
  - by rewrite decide_False, decide_True, list_lookup_insert_eq by lia.
  - destruct (decide (S pos <= j < S pos + n)%nat).
    + by rewrite decide_True, list_lookup_insert_ne by lia.
    + by rewrite decide_False, list_lookup_insert_ne by lia.
Qed.

(** *** The binary search *)

Lemma find_loop_spec fuel l n k left right :
  (Z.of_nat n <= Z.of_nat (length l)) -> kv_sorted (take n l) ->
  0 <= left <= right + 1 -> right < Z.of_nat n -> right - left < Z.of_nat fuel ->
  (forall i e, take n l !! i = Some e -> Z.of_nat i < left -> e.1 < k) ->
  (forall i e, take n l !! i = Some e -> right < Z.of_nat i -> k <= e.1) ->
  exists p, find_loop fuel l k left right = Some (Z.of_nat p) /\ (p <= n)%nat /\
    (forall i e, take n l !! i = Some e -> (i < p)%nat -> e.1 < k) /\
    (forall i e, take n l !! i = Some e -> (p <= i)%nat -> k <= e.1).
Proof.
  intros Hn Hs. revert left right. induction fuel as [|fuel IH];
    intros left right Hl Hr Hf Hlo Hhi; cbn [find_loop].
  { destruct (Z.ltb_spec right left); [|lia].
    exists (Z.to_nat left). rewrite Z2Nat.id by lia.
    split_and!; [done|lia|intros; eapply Hlo; eauto; lia|intros; eapply Hhi; eauto; lia]. }
  destruct (Z.ltb_spec right left).
  { exists (Z.to_nat left). rewrite Z2Nat.id by lia.
    split_and!; [done|lia|intros; eapply Hlo; eauto; lia|intros; eapply Hhi; eauto; lia]. }
  set (mid := left + Z.quot (right - left) 2).
  assert (Hmid : left <= mid <= right).
  { unfold mid. rewrite Z.quot_div_nonneg by lia.
    pose proof (Z.div_pos (right - left) 2). pose proof (Z.div_le_upper_bound (right - left) 2 (right - left)). lia. }
  clearbody mid.
  destruct (lookup_lt_is_Some_2 (take n l) (Z.to_nat mid)) as [e He];
    [rewrite length_take; lia|].
  assert (He' : entry_at l mid = Some e).
  { unfold entry_at. destruct (Z.ltb_spec mid 0); [lia|].
    by apply lookup_take_Some in He as [He _]. }
  step_with He'.
  destruct (Z.eqb_spec e.1 k) as [Heq|Hne].
  - exists (Z.to_nat mid). rewrite Z2Nat.id by lia. split_and!; [done|lia| |].
    + intros i a Ha Hi. pose proof (kv_sorted_lookup _ _ _ _ _ Hs Ha He Hi). lia.
    + intros i a Ha Hi. pose proof (kv_sorted_lookup_le _ _ _ _ _ Hs He Ha Hi). lia.
  - destruct (Z.ltb_spec k e.1) as [Hk|Hk].
    + apply IH; [lia..|done|]. intros i a Ha Hi.
      pose proof (kv_sorted_lookup_le _ _ _ _ _ Hs He Ha ltac:(lia)). lia.
    + apply IH; [lia..| |done]. intros i a Ha Hi.
      pose proof (kv_sorted_lookup_le _ _ _ _ _ Hs Ha He ltac:(lia)). lia.
Qed.

(** The class is instantiated with a positive capacity, and an array of
    entries is shorter than [2^63]. *)
Context (Hcap : (1 <= CAPACITY)%nat) (Hcap64 : Z.of_nat CAPACITY < 2 ^ 63).

Lemma find_spec v k :
  sfra_ok v ->
  exists p, find v k = Some p /\ (p <= sf_size v)%nat /\
    kv_below k (elems v) = take p (elems v) /\ kv_from k (elems v) = drop p (elems v).
Proof.
  intros (Hl & Hs & Hk). unfold find. rewrite i64_pred by lia.
  destruct (find_loop_spec (S (sf_size v)) (sf_list v) (sf_size v) k 0
              (Z.of_nat (sf_size v) - 1)) as (p & Hf & Hp & Hlo & Hhi);
    [lia|done|lia..|intros; lia| |].
  { intros i e Hi Hlt. apply lookup_take_Some in Hi. lia. }
  rewrite Hf. cbn [mbind option_bind].
  rewrite assert_true by (apply Z.leb_le; lia). cbn [mbind option_bind].
  exists p. rewrite Nat2Z.id. split_and!; [done|done|apply kv_below_take; eauto..].
Qed.

(** What [find] and the test after it establish: the key is at the position,
    or the position splits the vector. *)
Lemma find_cases v k :
  sfra_ok v ->
  exists p, find v k = Some p /\ (p <= sf_size v)%nat /\
    kv_below k (elems v) = take p (elems v) /\
    ((exists x, key_at v p k = Some true /\ kv_lookup k (elems v) = Some x /\
        (p < sf_size v)%nat /\ sf_list v !! p = Some (k, x)) \/
     (key_at v p k = Some false /\ kv_lookup k (elems v) = None /\
        kv_above k (elems v) = drop p (elems v))).
Proof.
  intros Hok. destruct (find_spec v k Hok) as (p & Hf & Hp & Hb & Hfr).
  pose proof Hok as (Hl & Hs & Hk). exists p. split_and!; [done..|].
  unfold key_at. destruct (kv_lookup k (elems v)) as [x|] eqn:Hlk.
  - left. exists x. rewrite (kv_from_lookup_Some k x) in Hfr by done.
    assert (Hp' : elems v !! p = Some (k, x)).
    { replace p with (p + 0)%nat by lia. by rewrite <- lookup_drop, <- Hfr. }
    assert (p < sf_size v)%nat.
    { apply lookup_lt_Some in Hp'. by rewrite elems_length in Hp'. }
    apply elems_lookup_list in Hp'.
    rewrite (proj2 (Nat.ltb_lt _ _)) by done. step_with Hp'. cbn. by rewrite Z.eqb_refl.
  - right. rewrite kv_from_lookup_None in Hfr by done. split_and!; [|done|done].
    destruct (Nat.ltb_spec p (sf_size v)) as [Hlt|]; [|done].
    destruct (lookup_lt_is_Some_2 (elems v) p) as [e He]; [by rewrite elems_length|].
    step_with (elems_lookup_list v p e He).
    assert (Hin : e ∈ kv_above k (elems v)).
    { rewrite Hfr. apply list_elem_of_lookup. exists O. rewrite lookup_drop.
      by rewrite Nat.add_0_r. }
    apply elem_of_kv_above in Hin as [Hin _].
    destruct (Z.eqb_spec e.1 k); [lia|done].
Qed.

(** Use [find_cases] in a goal whose program starts with [find]. *)
Ltac find_step v k Hok p :=
  let Hf := fresh "Hf" in
  destruct (find_cases v k Hok) as (p & Hf & ? & ? & [(? & ? & ? & ? & ?)|(? & ? & ?)]);
  rewrite Hf; cbn [mbind option_bind];
  try match goal with H : key_at _ _ _ = Some _ |- _ => rewrite H; cbn [mbind option_bind] end;
  try congruence.

Lemma contains_spec k v : sfra_ok v -> contains k v = Some (kv_lookup k (elems v)).
Proof.
  intros Hok. unfold contains. find_step v k Hok p.
  match goal with H : sf_list v !! p = _ |- _ => step_with H end. cbn. congruence.
Qed.

Lemma insert_present k x y v :
  sfra_ok v -> kv_lookup k (elems v) = Some y -> insert k x v = Some (false, false, v).
Proof. intros Hok Hk. unfold insert. by find_step v k Hok p. Qed.

Lemma insert_full k x v :
  sfra_ok v -> kv_lookup k (elems v) = None -> length (elems v) = CAPACITY ->
  insert k x v = Some (false, true, v).
Proof.
  intros Hok Hk Hlen. rewrite elems_length in Hlen by done. unfold insert.
  find_step v k Hok p. by rewrite Hlen, Nat.eqb_refl.
Qed.

Lemma insert_room k x v :
  sfra_ok v -> kv_lookup k (elems v) = None -> (length (elems v) < CAPACITY)%nat ->
  exists v', insert k x v = Some (true, false, v') /\
    sfra_ok v' /\ elems v' = kv_insert k x (elems v).
Proof.
  intros Hok Hk Hlen. pose proof Hok as (Hl & Hs & Hso).
  rewrite elems_length in Hlen by done. unfold insert. find_step v k Hok p.
  destruct (Nat.eqb_spec (sf_size v) CAPACITY); [lia|].
  destruct (shift_right_spec (sf_list v) p (sf_size v - p)) as (l' & Hsh & Hlen' & Hj); [lia|].
  step_with Hsh. rewrite store_at_spec by lia. cbn [mbind option_bind].
  eexists. split; [reflexivity|]. apply sfra_ok_mk; [by rewrite length_insert, Hlen', Hl|lia| |].
  - unfold kv_insert. match goal with H : kv_below _ _ = _, H' : kv_above _ _ = _ |- _ =>
      rewrite H, H' end.
    assert (Hlt : length (take p (elems v)) = p) by (rewrite length_take, elems_length by done; lia).
    apply list_eq. intros j. destruct (decide (j < p)%nat) as [Hjp|Hjp].
    + rewrite lookup_app_l by lia. rewrite !lookup_take_lt by lia.
      rewrite list_lookup_insert_ne, Hj, decide_False by lia. by rewrite elems_lookup by lia.
    + rewrite lookup_app_r by lia. rewrite Hlt.
      destruct (decide (j = p)) as [->|Hne].
      * rewrite Nat.sub_diag, lookup_take_lt, list_lookup_insert_eq by lia. done.
      * rewrite lookup_cons_ne_0, lookup_drop by lia.
        replace (p + pred (j - p))%nat with (j - 1)%nat by lia.
        destruct (decide (j < S (sf_size v))%nat).
        -- rewrite lookup_take_lt, list_lookup_insert_ne, Hj, decide_True by lia.
           by rewrite elems_lookup by lia.
        -- rewrite lookup_take_ge by lia. symmetry. apply lookup_ge_None.
           rewrite elems_length by done. lia.
  - by apply kv_insert_sorted.
Qed.

Lemma first_spec v k : sfra_ok v -> kv_first (elems v) = Some k -> first v = Some k.
Proof.
  intros Hok Hf. unfold first. destruct (elems v) as [|e el] eqn:He; [done|].
  cbn in Hf. simplify_eq. assert (Hp : elems v !! O = Some e) by (by rewrite He).
  by rewrite (elems_lookup_list v O e Hp).
Qed.

Lemma first_total v : sfra_ok v -> is_Some (first v).
Proof.
  intros (Hl & _ & _). unfold first.
  destruct (lookup_lt_is_Some_2 (sf_list v) 0) as [e He]; [lia|]. rewrite He. by eexists.
Qed.

Lemma last_lookup v : sfra_ok v ->
  list.last (elems v) = if decide (sf_size v = 0)%nat then None else sf_list v !! (sf_size v - 1)%nat.
Proof.
  intros Hok. rewrite last_lookup, elems_length by done. case_decide as Hz.
  - rewrite Hz. apply lookup_ge_None. rewrite elems_length by done. lia.
  - rewrite elems_lookup by lia. f_equal. lia.
Qed.

Lemma last_spec v : sfra_ok v -> last v = Some (kv_last (elems v)).
Proof.
  intros Hok. unfold last, kv_last. rewrite last_lookup by done.
  pose proof Hok as (Hl & Hs & _).
  destruct (Nat.ltb_spec 0 (sf_size v)).
  - rewrite decide_False by lia.
    destruct (lookup_lt_is_Some_2 (sf_list v) (sf_size v - 1)) as [e He]; [lia|].
    by rewrite He.
  - by rewrite decide_True by lia.
Qed.

Lemma max_key_spec v k : sfra_ok v -> kv_last (elems v) = Some k -> max_key v = Some k.
Proof.
  intros Hok. unfold kv_last, max_key. rewrite last_lookup by done.
  destruct (Nat.eqb_spec (sf_size v) 0); [by rewrite decide_True by lia|].
  rewrite decide_False by lia. by destruct (sf_list v !! _).
Qed.

Lemma at_spec v i e : sfra_ok v -> elems v !! i = Some e -> at_ i v = Some e.1.
Proof.
  intros Hok He. unfold at_. pose proof (lookup_lt_Some _ _ _ He) as Hlt.
  rewrite elems_length in Hlt by done.
  rewrite assert_true by (by apply Nat.ltb_lt). cbn [mbind option_bind].
  by rewrite (elems_lookup_list v i e He).
Qed.

Lemma find_lte_spec k v : sfra_ok v -> find_lte k v = Some (kv_lte k (elems v)).
Proof.
  intros Hok. pose proof Hok as (Hl & Hs & Hso). unfold find_lte.
  destruct (Nat.eqb_spec (sf_size v) 0) as [Hz|Hz].
  { unfold elems. by rewrite Hz. }
  destruct (find_cases v k Hok) as (p & Hf & Hp & Hb & Hc). step_with Hf.
  destruct Hc as [(x & _ & Hk & Hlt & Hx)|(_ & Hk & Ha)].
  - destruct (Nat.leb_spec (sf_size v) p); [lia|]. step_with Hx.
    cbn [fst]. by rewrite Z.ltb_irrefl, (kv_lte_lookup k _ x) by done.
  - assert (Habove : (if (sf_size v <=? p)%nat then Some true
             else e ← sf_list v !! p; Some (k <? e.1)) = Some true).
    { destruct (Nat.leb_spec (sf_size v) p); [done|].
      destruct (lookup_lt_is_Some_2 (elems v) p) as [e He]; [by rewrite elems_length|].
      step_with (elems_lookup_list v p e He). f_equal. apply Z.ltb_lt.
      assert (Hin : e ∈ kv_above k (elems v)).
      { rewrite Ha. apply list_elem_of_lookup. exists O. rewrite lookup_drop.
        by rewrite Nat.add_0_r. }
      by apply elem_of_kv_above in Hin as [? _]. }
    step_with Habove.
    assert (Hup : kv_upto k (elems v) = take p (elems v)).
    { by rewrite kv_upto_below, Hb. }
    unfold kv_lte. rewrite Hup.
    destruct (Nat.eqb_spec p 0) as [->|Hp0]; [done|].
    destruct (lookup_lt_is_Some_2 (elems v) (p - 1)) as [e He]; [rewrite elems_length by done; lia|].
    step_with (elems_lookup_list v _ e He). f_equal.
    rewrite list.last_lookup, length_take, elems_length by done.
    replace (Nat.pred (p `min` sf_size v)) with (p - 1)%nat by lia.
    by rewrite lookup_take_lt, He by lia.
Qed.

(** Stealing the suffix from [p] on. *)
Lemma steal_suffix self victim p :
  sfra_ok self -> sfra_ok victim -> (p <= sf_size victim)%nat ->
  exists l, memcpy (sf_list self) 0 (sf_list victim) p (sf_size victim - p) = Some l /\
    (sfra_ok (Sfra l (sf_size victim - p)) /\
      elems (Sfra l (sf_size victim - p)) = drop p (elems victim)) /\
    (sfra_ok (Sfra (sf_list victim) p) /\ elems (Sfra (sf_list victim) p) = take p (elems victim)).
Proof.
  intros (Hl & Hs & _) (Hl' & Hs' & Hk') Hp.
  destruct (memcpy_spec (sf_list self) (sf_list victim) 0 p (sf_size victim - p))
    as (l & Hm & Hll & Ht); [lia..|].
  exists l. split; [done|]. split; apply sfra_ok_mk; auto with kv; try lia.
  - cbn in Ht. rewrite Ht. unfold elems. by rewrite take_drop_commute, Nat.add_comm, Nat.sub_add.
  - unfold elems. rewrite take_take. f_equal. lia.
Qed.

Lemma split_insert_spec k x self victim :
  sfra_ok self -> sfra_ok victim -> kv_lookup k (elems victim) = None ->
  (S (length (kv_above k (elems victim))) <= CAPACITY)%nat ->
  exists self' victim', split_insert k x self victim = Some (self', victim') /\
    sfra_ok self' /\ sfra_ok victim' /\
    elems self' = (k, x) :: kv_above k (elems victim) /\
    elems victim' = kv_below k (elems victim).
Proof.
  intros Hself Hv Hk Hroom. pose proof Hself as (Hl & Hs & _). pose proof Hv as (Hl' & Hs' & Hso').
  unfold split_insert. find_step victim k Hv p.
  match goal with H : kv_above _ _ = _ |- _ => rename H into Ha end.
  match goal with H : kv_below _ _ = _ |- _ => rename H into Hb end.
  rewrite Ha, length_drop, elems_length in Hroom by done.
  cbn [negb assert_ mbind option_bind].
  rewrite assert_true by (apply Nat.leb_le; lia). cbn [mbind option_bind].
  rewrite store_at_spec by lia. cbn [mbind option_bind].
  destruct (memcpy_spec (<[O:=(k, x)]> (sf_list self)) (sf_list victim) 1 p (sf_size victim - p))
    as (l & Hm & Hll & Ht); [lia|rewrite length_insert; lia|].
  step_with Hm. do 2 eexists. split; [reflexivity|].
  rewrite Ha, Hb.
  destruct (sfra_ok_mk l (1 + (sf_size victim - p)) ((k, x) :: drop p (elems victim)))
    as [Hok1 He1].
  - by rewrite Hll, length_insert.
  - lia.
  - rewrite Ht. unfold elems. rewrite take_drop_commute, Nat.add_comm, Nat.sub_add by done.
    destruct (sf_list self); [cbn in *; lia|]. done.
  - apply kv_sorted_cons. split; [|by apply kv_sorted_drop].
    apply Forall_forall. intros e He. rewrite <- Ha in He. by apply elem_of_kv_above in He as [? _].
  - replace (sf_size victim - (sf_size victim - p))%nat with p by lia.
    destruct (sfra_ok_mk (sf_list victim) p (take p (elems victim))) as [Hok2 He2];
      [done|lia|unfold elems; rewrite take_take; f_equal; lia|by apply kv_sorted_take|].
    auto.
Qed.

Lemma split_at_spec k self victim :
  sfra_ok self -> sfra_ok victim -> kv_from k (elems victim) <> [] ->
  exists self' victim', split_at k self victim = Some (true, (self', victim')) /\
    sfra_ok self' /\ sfra_ok victim' /\
    elems self' = kv_from k (elems victim) /\ elems victim' = kv_below k (elems victim).
Proof.
  intros Hself Hv Hne. unfold split_at.
  destruct (find_spec victim k Hv) as (p & Hf & Hp & Hb & Hfr). step_with Hf.
  destruct (Nat.leb_spec (sf_size victim) p) as [Hge|Hlt].
  { rewrite Hfr, drop_ge in Hne by (by rewrite elems_length). done. }
  rewrite assert_true by (apply Nat.leb_le; destruct Hv as (? & ? & _); lia).
  cbn [mbind option_bind].
  destruct (steal_suffix self victim p Hself Hv Hp) as (l & Hm & [Hok1 He1] & [Hok2 He2]).
  step_with Hm. do 2 eexists. split; [reflexivity|].
  replace (sf_size victim - (sf_size victim - p))%nat with p by lia.
  rewrite Hfr, Hb. auto.
Qed.

Lemma split_at_none k self victim :
  sfra_ok self -> sfra_ok victim -> kv_from k (elems victim) = [] ->
  split_at k self victim = Some (false, (self, victim)).
Proof.
  intros Hself Hv Hne. unfold split_at.
  destruct (find_spec victim k Hv) as (p & Hf & Hp & Hb & Hfr). step_with Hf.
  rewrite Hne in Hfr. apply (f_equal length) in Hfr.
  rewrite length_drop, elems_length in Hfr by done. cbn in Hfr.
  by rewrite (proj2 (Nat.leb_le _ _)) by lia.
Qed.

Lemma steal_half_spec self victim :
  sfra_ok self -> sfra_ok victim ->
  exists self' victim', steal_half self victim = Some (self', victim') /\
    sfra_ok self' /\ sfra_ok victim' /\
    elems victim' = take (length (elems victim) / 2) (elems victim) /\
    elems self' = drop (length (elems victim) / 2) (elems victim).
Proof.
  intros Hself Hv. unfold steal_half. rewrite elems_length by done.
  destruct (steal_suffix self victim (sf_size victim / 2) Hself Hv)
    as (l & Hm & [Hok1 He1] & [Hok2 He2]).
  { apply Nat.Div0.div_le_upper_bound. lia. }
  step_with Hm. do 2 eexists. by split_and!.
Qed.

Lemma merge_spec self victim :
  sfra_ok self -> sfra_ok victim ->
  (forall a b, a ∈ elems self -> b ∈ elems victim -> a.1 < b.1) ->
  (length (elems self) + length (elems victim) <= CAPACITY)%nat ->
  exists self' victim', merge self victim = Some (self', victim') /\
    sfra_ok self' /\ sfra_ok victim' /\
    elems self' = elems self ++ elems victim /\ elems victim' = [].
Proof.
  intros Hself Hv Hlt Hroom. pose proof Hself as (Hl & Hs & Hk). pose proof Hv as (Hl' & Hs' & Hk').
  rewrite !elems_length in Hroom by done. unfold merge.
  rewrite assert_true by (by apply Nat.leb_le). cbn [mbind option_bind].
  destruct (memcpy_spec (sf_list self) (sf_list victim) (sf_size self) 0 (sf_size victim))
    as (l & Hm & Hll & Ht); [lia..|].
  step_with Hm. do 2 eexists. split; [reflexivity|]. rewrite drop_0 in Ht.
  destruct (sfra_ok_mk l (sf_size self + sf_size victim) (elems self ++ elems victim)) as [? ?];
    [by rewrite Hll|lia|done|by apply kv_sorted_app|].
  destruct (sfra_ok_mk (sf_list victim) 0 []) as [? ?]; [done|lia|done|apply kv_sorted_nil|].
  auto.
Qed.

Lemma verify_loop_spec (l : list (Z * V)) i n :
  kv_sorted (take (i + n) l) -> (1 <= i)%nat -> (i + n <= length l)%nat ->
  verify_loop l i n = Some true.
Proof.
  revert i. induction n as [|n IH]; intros i Hs Hi Hl; [done|]. cbn [verify_loop].
  destruct (lookup_lt_is_Some_2 l (i - 1)) as [a Ha]; [lia|].
  destruct (lookup_lt_is_Some_2 l i) as [b Hb]; [lia|].
  step_with Ha. step_with Hb.
  pose proof (kv_sorted_lookup (take (i + S n) l) (i - 1) i a b Hs) as Hlt.
  rewrite !lookup_take_lt in Hlt by lia. specialize (Hlt Ha Hb ltac:(lia)).
  destruct (Z.leb_spec b.1 a.1); [lia|]. apply IH; [|lia..].
  by replace (S i + n)%nat with (i + S n)%nat by lia.
Qed.

Lemma verify_spec v : sfra_ok v -> verify v = Some true.
Proof.
  intros (Hl & Hs & Hk). unfold verify.
  destruct (Nat.ltb_spec CAPACITY (sf_size v)); [lia|].
  destruct (decide (sf_size v = 0)%nat) as [->|]; [done|].
  apply verify_loop_spec; [|lia..]. by replace (1 + (sf_size v - 1))%nat with (sf_size v) by lia.
Qed.

Lemma steal_half_and_insert_spec k x self victim :
  sfra_ok self -> sfra_ok victim -> kv_lookup k (elems victim) = None ->
  elems victim <> [] ->
  exists self' victim', steal_half_and_insert k x self victim = Some (self', victim') /\
    sfra_ok self' /\ sfra_ok victim' /\
    elems victim' ++ elems self' = kv_insert k x (elems victim) /\
    length (elems self') = (S (length (elems victim)) / 2)%nat.
Proof.
  intros Hself Hv Hk Hne. pose proof Hself as (Hl & Hs & _). pose proof Hv as (Hl' & Hs' & Hso').
  assert (Hn : (0 < sf_size victim)%nat).
  { rewrite <- elems_length by done. destruct (elems victim); [done|cbn; lia]. }
  unfold steal_half_and_insert. find_step victim k Hv p.
  match goal with H : kv_above _ _ = _ |- _ => rename H into Ha end.
  match goal with H : kv_below _ _ = _ |- _ => rename H into Hb end.
  cbn [negb assert_ mbind option_bind].
  pose proof (Nat.div_mod_eq (sf_size victim) 2) as Hdm.
  pose proof (Nat.mod_upper_bound (sf_size victim) 2 ltac:(lia)) as Hmb.
  pose proof (Nat.div_mod_eq (S (sf_size victim)) 2) as Hdm'.
  pose proof (Nat.mod_upper_bound (S (sf_size victim)) 2 ltac:(lia)) as Hmb'.
  rewrite (elems_length victim) by done.
  set (m := (sf_size victim / 2)%nat) in *. clearbody m.
  set (half := (S (sf_size victim) / 2)%nat) in *. clearbody half.
  destruct (Nat.leb_spec p m) as [Hpm|Hpm].
  - destruct (steal_suffix self victim m Hself Hv) as (l & Hm & [Hok1 He1] & [Hok2 He2]); [lia|].
    step_with Hm.
    assert (Hgt : forall e, e ∈ drop m (elems victim) -> k < e.1).
    { intros e He. assert (Hin : e ∈ kv_above k (elems victim)).
      { rewrite Ha. replace m with (p + (m - p))%nat in He by lia. rewrite <- drop_drop in He.
        rewrite <- (take_drop (m - p) (drop p (elems victim))). apply elem_of_app. by right. }
      by apply elem_of_kv_above in Hin as [? _]. }
    assert (Hk2 : kv_lookup k (elems (Sfra (sf_list victim) m)) = None).
    { rewrite He2. apply kv_lookup_None. intros e He. rewrite kv_lookup_None in Hk. apply Hk.
      rewrite <- (take_drop m (elems victim)). apply elem_of_app. by left. }
    destruct (insert_room k x (Sfra (sf_list victim) m) Hok2 Hk2) as (v' & Hi & Hok' & He');
      [rewrite elems_length by done; cbn [sf_size]; lia|].
    unfold insert_assert. rewrite Hi. cbn [mbind option_bind negb assert_].
    do 2 eexists. split; [reflexivity|]. split_and!; [done|done| |].
    + by rewrite He', He1, He2, <- kv_insert_app_l, take_drop.
    + rewrite elems_length by done. cbn [sf_size]. lia.
  - remember (m + 1)%nat as f eqn:Hfm. remember (p - f)%nat as fb eqn:Hfb.
    replace (sf_size victim - f - fb)%nat with (sf_size victim - p)%nat by lia.
    destruct (memcpy_spec (sf_list self) (sf_list victim) 0 f fb) as (l1 & Hm1 & Hl1 & Ht1); [lia..|].
    step_with Hm1. rewrite store_at_spec by lia. cbn [mbind option_bind].
    destruct (memcpy_spec (<[fb:=(k, x)]> l1) (sf_list victim) (fb + 1) (f + fb) (sf_size victim - p))
      as (l3 & Hm3 & Hl3 & Ht3); [lia|rewrite length_insert; lia|].
    step_with Hm3. do 2 eexists. split; [reflexivity|].
    assert (Hel : take (sf_size victim - f + 1) l3 =
                  take fb (drop f (elems victim)) ++ (k, x) :: drop p (elems victim)).
    { replace (sf_size victim - f + 1)%nat with (fb + 1 + (sf_size victim - p))%nat by lia.
      rewrite Ht3. replace (fb + 1)%nat with (S fb) by lia.
      rewrite (take_S_r _ _ (k, x)) by (apply list_lookup_insert_eq; lia).
      rewrite take_insert_ge by lia. rewrite take_0 in Ht1. cbn [app Nat.add] in Ht1.
      rewrite Ht1, <- app_assoc. cbn [app]. f_equal; [|f_equal].
      - rewrite !take_drop_commute. unfold elems. rewrite take_take. do 2 f_equal. lia.
      - rewrite take_drop_commute. unfold elems.
        replace (f + fb)%nat with p by lia. f_equal. f_equal. lia. }
    assert (Hins : take f (elems victim) ++ take fb (drop f (elems victim)) ++
                   (k, x) :: drop p (elems victim) = kv_insert k x (elems victim)).
    { unfold kv_insert. rewrite Ha, Hb, app_assoc. f_equal.
      rewrite take_take_drop. f_equal. lia. }
    assert (Hsorted : kv_sorted (take f (elems victim) ++ take fb (drop f (elems victim)) ++
                   (k, x) :: drop p (elems victim))) by (rewrite Hins; by apply kv_insert_sorted).
    edestruct (sfra_ok_mk l3 (sf_size victim - f + 1)) as [Hok3 He3];
      [by rewrite Hl3, length_insert, Hl1|lia|exact Hel|by apply kv_sorted_app in Hsorted as (_ & _ & ?)|].
    replace (sf_size victim - (sf_size victim - f))%nat with f by lia.
    destruct (sfra_ok_mk (sf_list victim) f (take f (elems victim))) as [Hok4 He4];
      [done|lia|unfold elems; rewrite take_take; f_equal; lia|by apply kv_sorted_take|].
    split_and!; [done|done|by rewrite He4, He3|].
    rewrite elems_length by done. cbn [sf_size]. lia.
Qed.

Lemma remove_absent k v :
  sfra_ok v -> kv_lookup k (elems v) = None -> remove k v = Some (None, v).
Proof. intros Hok Hk. unfold remove. by find_step v k Hok p. Qed.

Lemma remove_present k x v :
  sfra_ok v -> kv_lookup k (elems v) = Some x ->
  exists v', remove k v = Some (Some x, v') /\ sfra_ok v' /\ elems v' = kv_remove k (elems v).
Proof.
  intros Hok Hk. pose proof Hok as (Hl & Hs & Hso). unfold remove. find_step v k Hok p.
  match goal with H : kv_lookup k _ = Some ?y |- _ =>
    is_var y; tryif constr_eq y x then fail else (rewrite Hk in H; injection H as <-) end.
  match goal with H : sf_list v !! p = Some _ |- _ => step_with H; rename H into Hp end.
  destruct (shift_left_spec (sf_list v) p (sf_size v - 1 - p)) as (l' & Hsh & Hlen & Hj); [lia|].
  step_with Hsh. eexists. split; [reflexivity|].
  rewrite (kv_remove_lookup k x) by done.
  match goal with H : kv_below _ _ = _ |- _ => rewrite H end.
  assert (Hab : kv_above k (elems v) = drop (S p) (elems v)).
  { pose proof (kv_decompose k x (elems v) Hso Hk) as Hd.
    apply (f_equal (drop (S p))) in Hd. rewrite Hd.
    match goal with H : kv_below _ _ = _ |- _ => rewrite H end.
    rewrite drop_app, drop_ge by (rewrite length_take, elems_length by done; lia).
    rewrite length_take, elems_length by done.
    by replace (S p - p `min` sf_size v)%nat with 1%nat by lia. }
  rewrite Hab.
  apply sfra_ok_mk; [by rewrite Hlen|lia| |].
  - apply list_eq. intros j. destruct (decide (j < p)%nat).
    + rewrite lookup_app_l by (rewrite length_take, elems_length by done; lia).
      rewrite !lookup_take_lt, Hj, decide_False by lia. by rewrite elems_lookup by lia.
    + rewrite lookup_app_r by (rewrite length_take, elems_length by done; lia).
      rewrite length_take, elems_length, lookup_drop by done.
      replace (S p + (j - p `min` sf_size v))%nat with (S j) by lia.
      destruct (decide (j < sf_size v - 1)%nat).
      * rewrite lookup_take_lt, Hj, decide_True by lia. by rewrite elems_lookup by lia.
      * rewrite lookup_take_ge by lia. symmetry. apply lookup_ge_None.
        rewrite elems_length by done. lia.
  - rewrite <- Hab. match goal with H : kv_below _ _ = _ |- _ => rewrite <- H end.
    rewrite <- (kv_remove_lookup k x) by done. by apply kv_sorted_filter.
Qed.
(** *** Iteration *)
Section IterationFacts.
Context {St : Type} (f : Z -> V -> bool -> St -> V * bool * St).

Lemma for_each_loop_spec pre l post b s :
  for_each_loop f (pre ++ l ++ post) (length pre) (length l) b s =
  let '(l', b', s') := visit f l b s in Some (pre ++ l' ++ post, b', s').
Proof.
  revert pre b s. induction l as [|e l IH]; intros pre b s; [done|].
  cbn [for_each_loop visit length app]. destruct b; [done|].
  rewrite list_lookup_middle by done. cbn [mbind option_bind].
  destruct (f e.1 e.2 false s) as [[x b'] s'].
  rewrite store_at_spec by (rewrite length_app; cbn; lia). cbn [mbind option_bind].
  rewrite insert_app_r_alt, Nat.sub_diag by done. cbn [app list_insert].
  specialize (IH (pre ++ [(e.1, x)]) b' s').
  rewrite length_app, <- app_assoc in IH. cbn in IH. rewrite Nat.add_1_r in IH.
  cbn. rewrite IH. destruct (visit f l b' s') as [[l'' b''] s''].
  by rewrite <- app_assoc.
Qed.

Lemma range_skip_spec l from i n :
  kv_sorted (take (i + n) l) -> (i + n <= length l)%nat ->
  (forall j e, (j < i)%nat -> l !! j = Some e -> e.1 < from) ->
  exists p, range_skip l from i n = Some p /\ (i <= p <= i + n)%nat /\
    kv_below from (take (i + n) l) = take p (take (i + n) l) /\
    kv_from from (take (i + n) l) = drop p (take (i + n) l).
Proof.
  revert i. induction n as [|n IH]; intros i Hs Hn Hlo; cbn [range_skip].
  - exists i. rewrite Nat.add_0_r in *. split_and!; [done|lia|lia|..];
      apply kv_below_take; intros j e [Hj ?]%lookup_take_Some ?; eauto; lia.
  - destruct (lookup_lt_is_Some_2 l i) as [e He]; [lia|]. step_with He.
    destruct (Z.ltb_spec e.1 from) as [Hlt|Hge].
    + replace (i + S n)%nat with (S i + n)%nat in * by lia.
      destruct (IH (S i)) as (p & Hp & Hb & Hr); [done|lia| |exists p; split_and!; try tauto; lia].
      intros j a Hj Ha. destruct (decide (j = i)) as [->|]; [congruence|]. eapply Hlo; eauto; lia.
    + assert (Hi : take (i + S n) l !! i = Some e) by (rewrite lookup_take_lt by lia; done).
      assert (Hbt : kv_below from (take (i + S n) l) = take i (take (i + S n) l) /\
                    kv_from from (take (i + S n) l) = drop i (take (i + S n) l)).
      { apply kv_below_take.
        - intros j a [Hj ?]%lookup_take_Some ?. eauto.
        - intros j a Hj ?. pose proof (kv_sorted_lookup_le _ _ _ _ _ Hs Hi Hj ltac:(lia)). lia. }
      exists i. split_and!; [done|lia|lia|tauto|tauto].
Qed.

Lemma range_loop_spec pre l post to b s :
  kv_sorted l ->
  range_loop f (pre ++ l ++ post) to (length pre) (length l) b s =
  let '(l', b', s') := visit f (kv_upto to l) b s in
  Some (negb b' && negb (bool_decide (kv_above to l = [])),
        pre ++ l' ++ kv_above to l ++ post, b', s').
Proof.
  revert pre b s. induction l as [|e l IH]; intros pre b s Hs.
  { cbn. by destruct b. }
  cbn [range_loop length app]. destruct b.
  { rewrite visit_true. cbn [negb andb].
    by rewrite (app_assoc (kv_upto _ _)), <- kv_upto_above by done. }
  rewrite list_lookup_middle by done. cbn [mbind option_bind].
  destruct (Z.ltb_spec to e.1) as [Hgt|Hle].
  - assert (Hall : forall a, a ∈ e :: l -> to < a.1).
    { intros a Ha. apply kv_sorted_cons in Hs as [Hf _].
      apply elem_of_cons in Ha as [->|Ha]; [done|].
      rewrite Forall_forall in Hf. specialize (Hf a Ha). unfold kv_lt in Hf. lia. }
    rewrite kv_upto_none, kv_above_all by done. by cbn.
  - apply kv_sorted_cons in Hs as [Hf Hs].
    assert (Hu : kv_upto to (e :: l) = e :: kv_upto to l) by (apply filter_cons_True; lia).
    assert (Hab : kv_above to (e :: l) = kv_above to l) by (apply filter_cons_False; lia).
    rewrite Hu, Hab. cbn [visit]. destruct (f e.1 e.2 false s) as [[x b'] s'].
    rewrite store_at_spec by (rewrite length_app; cbn; lia). cbn [mbind option_bind].
    rewrite insert_app_r_alt, Nat.sub_diag by done. cbn [list_insert].
    specialize (IH (pre ++ [(e.1, x)]) b' s' Hs).
    rewrite length_app, <- app_assoc in IH. cbn in IH. rewrite Nat.add_1_r in IH.
    cbn. rewrite IH. destruct (visit f (kv_upto to l) b' s') as [[l'' b''] s''].
    by rewrite <- app_assoc.
Qed.
End IterationFacts.

(** A prefix of the array determines the content, whatever follows it. *)
Lemma elems_split v : sfra_ok v -> sf_list v = elems v ++ drop (sf_size v) (sf_list v).
Proof. intros _. unfold elems. by rewrite take_drop. Qed.

(** Replacing the live prefix by one with the same keys keeps the vector
    well formed. *)
Lemma sfra_ok_same_keys v el :
  sfra_ok v -> map fst el = map fst (elems v) ->
  sfra_ok (Sfra (el ++ drop (sf_size v) (sf_list v)) (sf_size v)) /\
  elems (Sfra (el ++ drop (sf_size v) (sf_list v)) (sf_size v)) = el.
Proof.
  intros Hok Hk. pose proof Hok as (Hl & Hs & Hso).
  assert (Hlen : length el = sf_size v).
  { rewrite <- (length_map fst), Hk, length_map. by apply elems_length. }
  apply sfra_ok_mk; [rewrite length_app, length_drop; lia|done|by rewrite take_app_length'|].
  by apply (kv_sorted_keys (elems v)).
Qed.
End Sfra.

(** ** The loops over a well-formed vector *)

Section IterationSpec.
Context (CAPACITY : nat) {V St : Type} (f : Z -> V -> bool -> St -> V * bool * St).
Context (Hcap : (1 <= CAPACITY)%nat) (Hcap64 : Z.of_nat CAPACITY < 2 ^ 63).
Implicit Types (v : sfra V).

Local Abbreviation ok := (sfra_ok CAPACITY).

Lemma for_each_spec v b s :
  ok v ->
  let '(l, b', s') := visit f (elems v) b s in
  exists v', for_each f v b s = Some (v', b', s') /\ ok v' /\ elems v' = l.
Proof.
  intros Hok. pose proof Hok as (Hl & Hs & Hso).
  pose proof (for_each_loop_spec CAPACITY Hcap f [] (elems v) (drop (sf_size v) (sf_list v)) b s) as Hf.
  pose proof (visit_keys f (elems v) b s) as Hk. cbn [app length] in Hf.
  rewrite <- (elems_split CAPACITY v Hok), (elems_length CAPACITY v Hok) in Hf.
  unfold for_each. rewrite Hf. destruct (visit f (elems v) b s) as [[l b'] s']. cbn in Hk.
  eexists. split; [reflexivity|]. by apply sfra_ok_same_keys.
Qed.

Lemma range_spec from to v b s :
  ok v ->
  let mid := kv_from from (elems v) in
  let '(l, b', s') := visit f (kv_upto to mid) b s in
  exists v', range f from to v b s =
      Some (negb b' && negb (bool_decide (kv_above to mid = [])), v', b', s') /\
    ok v' /\ elems v' = kv_below from (elems v) ++ l ++ kv_above to mid.
Proof.
  intros Hok. pose proof Hok as (Hl & Hs & Hso). cbv zeta. destruct (range_skip_spec CAPACITY Hcap Hcap64 f (sf_list v) from 0 (sf_size v)) as (p & Hp & Hb & Hbe & Hfr);
    [done|lia|lia|]. cbn [Nat.add] in Hb, Hbe, Hfr. fold (elems v) in Hbe, Hfr.
  pose proof (range_loop_spec CAPACITY Hcap f (kv_below from (elems v)) (kv_from from (elems v))
                (drop (sf_size v) (sf_list v)) to b s) as Hr.
  rewrite app_assoc, <- kv_below_from, <- (elems_split CAPACITY v Hok) in Hr by done.
  assert (Hlb : length (kv_below from (elems v)) = p)
    by (rewrite Hbe, length_take, (elems_length CAPACITY v Hok); lia).
  assert (Hlf : length (kv_from from (elems v)) = (sf_size v - p)%nat)
    by (rewrite Hfr, length_drop, (elems_length CAPACITY v Hok); lia).
  rewrite Hlb, Hlf in Hr. pose proof (visit_keys f (kv_upto to (kv_from from (elems v))) b s) as Hk.
  unfold range. rewrite Hp. cbn [mbind option_bind]. rewrite Hr by (by apply kv_sorted_filter).
  destruct (visit f (kv_upto to (kv_from from (elems v))) b s) as [[l b'] s']. cbn in Hk.
  cbn [mbind option_bind].
  eexists. split; [reflexivity|].
  rewrite (app_assoc l), (app_assoc (kv_below _ _)).
  apply sfra_ok_same_keys; [done..|].
  by rewrite !map_app, Hk, <- !map_app, <- kv_upto_above, <- kv_below_from by (done || by apply kv_sorted_filter).
Qed.
End IterationSpec.

(** ** The vector implements the interface *)

Section Instances.
Context (CAPACITY : nat).

#[global] Instance sfra_ops : VecOps sfra := {|
  v_capacity := CAPACITY;
  v_new V := sfra_new CAPACITY;
  v_get_size V := get_size;
  v_first V := first;
  v_last V := last;
  v_contains V := contains;
  v_find_lte V := find_lte;
  v_insert V := insert CAPACITY;
  v_split_insert V := split_insert CAPACITY;
  v_steal_half_and_insert V := steal_half_and_insert CAPACITY;
  v_steal_half V := steal_half;
  v_merge V := merge CAPACITY;
  v_sort V := sort;
  v_at V := at_;
  v_max_key V := max_key;
  v_verify V := verify CAPACITY;
|}.

#[global] Instance sfra_split_at_ops : VecSplitAt sfra := {|
  v_split_at V := split_at CAPACITY;
|}.

#[global] Instance sfra_map_ops : VecMapOps sfra := {|
  v_remove V := remove;
  v_for_each V St := for_each;
  v_range V St := range;
|}.

Context (Hcap : (1 <= CAPACITY)%nat) (Hcap64 : Z.of_nat CAPACITY < 2 ^ 63).

#[global] Instance sfra_spec : VecSpec sfra.
Proof.
  refine {| v_ok V := sfra_ok CAPACITY; v_elems V := elems |}; try done.
  - intros V v (_ & _ & H). exact H.
  - intros V v H. rewrite (elems_length CAPACITY) by done. apply H.
  - intros V junk. apply sfra_new_ok.
  - intros V v H. by rewrite (elems_length CAPACITY).
  - intros V v k. by apply first_spec.
  - intros V v. by apply first_total.
  - intros V v. by apply last_spec.
  - intros V k v. by apply contains_spec.
  - intros V k v. by apply find_lte_spec.
  - intros V k x y v. by apply insert_present.
  - intros V k x v. by apply insert_full.
  - intros V k x v. by apply insert_room.
  - intros V k x self victim. by apply split_insert_spec.
  - intros V k x self victim. by apply steal_half_and_insert_spec.
  - intros V self victim. by apply steal_half_spec.
  - intros V self victim. by apply merge_spec.
  - intros V v i e. by apply at_spec.
  - intros V v k. by apply max_key_spec.
  - intros V v. by apply verify_spec.
Defined.

#[global] Instance sfra_split_at_spec : VecSplitAtSpec sfra.
Proof.
  split.
  - intros V k self victim. by apply split_at_spec.
  - intros V k self victim. by apply split_at_none.
Qed.

#[global] Instance sfra_map_spec : VecMapSpec sfra.
Proof.
  split.
  - intros V k v. by apply remove_absent.
  - intros V k x v. by apply remove_present.
  - intros V St f v b s. by apply for_each_spec.
Qed.

#[global] Instance sfra_range_spec : VecRangeSpec sfra.
Proof. split. intros V St f from to v b s. by apply range_spec. Qed.
End Instances.

(** ** What the class guarantees *)

Section Properties.
Context (CAPACITY : nat) {V : Type}.
Implicit Types (v self victim : sfra V) (k : Z) (x : V).

Local Abbreviation ok := (sfra_ok CAPACITY).
Context (Hcap : (1 <= CAPACITY)%nat) (Hcap64 : Z.of_nat CAPACITY < 2 ^ 63).

(** [insert] on every branch: a present key is refused and nothing
    changes, a full vector reports the overflow and nothing changes, and
    otherwise the pair takes its place in key order. *)
Theorem sfra_insert_correct k x v :
  ok v ->
  match kv_lookup k (elems v) with
  | Some _ => insert CAPACITY k x v = Some (false, false, v)
  | None =>
      if decide (length (elems v) = CAPACITY) then insert CAPACITY k x v = Some (false, true, v)
      else exists v', insert CAPACITY k x v = Some (true, false, v') /\ ok v' /\
             elems v' = kv_insert k x (elems v)
  end.
Proof.
  intros Hok. destruct (kv_lookup k (elems v)) as [y|] eqn:Hk; [by eapply insert_present|].
  case_decide as Hl; [by apply insert_full|]. apply insert_room; try done.
  rewrite (elems_length CAPACITY) in * by done. destruct Hok as (_ & ? & _). lia.
Qed.

(** the queries: the binary search behind [contains] and [find_lte]
    terminates and answers as the search of a sorted list does, [last] is the
    greatest key or false on an empty vector, and [first] the least. *)
Theorem sfra_queries_correct k v :
  ok v ->
  contains k v = Some (kv_lookup k (elems v)) /\
  find_lte k v = Some (kv_lte k (elems v)) /\
  last v = Some (kv_last (elems v)) /\
  (elems v <> [] -> first v = kv_first (elems v) /\ max_key v = kv_last (elems v)) /\
  verify CAPACITY v = Some true.
Proof.
  intros Hok. split_and!.
  - by eapply contains_spec.
  - by eapply find_lte_spec.
  - by eapply last_spec.
  - intros Hne. split.
    + destruct (elems v) as [|e l] eqn:He; [done|]. apply (first_spec CAPACITY); [done|by rewrite He].
    + destruct (kv_last (elems v)) as [k'|] eqn:Hl; [by apply (max_key_spec CAPACITY)|].
      unfold kv_last in Hl. apply fmap_None, last_None in Hl. done.
  - by apply verify_spec.
Qed.

(** an overflow is repaired by [steal_half_and_insert]: the pair and
    the entries of the full victim end up, in key order, in the victim and
    then in the new vector, which takes half of them; both are well formed
    and nothing is lost. *)
Theorem sfra_steal_half_and_insert_correct k x self victim :
  ok self -> ok victim -> kv_lookup k (elems victim) = None -> elems victim <> [] ->
  exists self' victim', steal_half_and_insert CAPACITY k x self victim = Some (self', victim') /\
    ok self' /\ ok victim' /\
    elems victim' ++ elems self' = kv_insert k x (elems victim) /\
    length (elems self') = (S (length (elems victim)) / 2)%nat.
Proof. by apply steal_half_and_insert_spec. Qed.

(** splitting and merging are inverse: after [split_at] a key or
    [steal_half], merging the new vector back into its victim restores the
    content of the victim. *)
Theorem sfra_split_merge_roundtrip k self victim :
  ok self -> ok victim ->
  (exists self' victim' v u, steal_half self victim = Some (self', victim') /\
     merge CAPACITY victim' self' = Some (v, u) /\ ok v /\ elems v = elems victim /\ elems u = []) /\
  (kv_from k (elems victim) <> [] ->
   exists self' victim' v u, split_at CAPACITY k self victim = Some (true, (self', victim')) /\
     elems victim' = kv_below k (elems victim) /\
     merge CAPACITY victim' self' = Some (v, u) /\ ok v /\ elems v = elems victim /\ elems u = []).
Proof.
  intros Hs Hv. pose proof Hv as (_ & Hle & Hso).
  assert (Hmerge : forall self' victim', ok self' -> ok victim' ->
    elems victim' ++ elems self' = elems victim ->
    exists v u, merge CAPACITY victim' self' = Some (v, u) /\ ok v /\ elems v = elems victim /\ elems u = []).
  { intros self' victim' Hs' Hv' He.
    destruct (merge_spec CAPACITY Hcap victim' self' Hv' Hs') as (v & u & Hm & Hv2 & _ & H1 & H2).
    - rewrite <- He in Hso. by apply kv_sorted_app in Hso as (H & _).
    - rewrite <- length_app, He, (elems_length CAPACITY) by done. done.
    - exists v, u. by rewrite H1, He. }
  split.
  - destruct (steal_half_spec CAPACITY Hcap self victim Hs Hv) as (self' & victim' & Hst & Hs' & Hv' & H1 & H2).
    destruct (Hmerge self' victim' Hs' Hv') as (v & u & H); [rewrite H1, H2; apply take_drop|].
    by exists self', victim', v, u.
  - intros Hne. destruct (split_at_spec CAPACITY Hcap Hcap64 k self victim Hs Hv Hne)
      as (self' & victim' & Hst & Hs' & Hv' & H1 & H2).
    destruct (Hmerge self' victim' Hs' Hv') as (v & u & H); [rewrite H1, H2; symmetry; by apply kv_below_from|].
    by exists self', victim', v, u.
Qed.

(** [remove] hands out the value of a present key and closes the gap;
    removing an absent key changes nothing; what is inserted can be removed. *)
Theorem sfra_remove_correct k v :
  ok v ->
  match kv_lookup k (elems v) with
  | Some x => exists v', remove k v = Some (Some x, v') /\ ok v' /\
      elems v' = kv_remove k (elems v) /\ kv_lookup k (elems v') = None
  | None => remove k v = Some (None, v)
  end.
Proof.
  intros Hok. destruct (kv_lookup k (elems v)) as [x|] eqn:Hk; [|by eapply remove_absent].
  destruct (remove_present CAPACITY Hcap Hcap64 k x v Hok Hk) as (v' & Hr & Hok' & He). exists v'.
  split_and!; try done. rewrite He. apply kv_lookup_None. intros e [Hne _]%list_elem_of_filter. done.
Qed.

(** [for_each] and [range] call the function on the pairs in key order
    ([range]: those with keys from [from] to [to]), store back the values,
    stop when the flag is raised, and keep the vector well formed; [range]
    returns true exactly if it stopped at a key beyond [to]. *)
Theorem sfra_iteration_correct {St : Type} (f : Z -> V -> bool -> St -> V * bool * St) from to v b s :
  ok v ->
  (let '(l, b', s') := visit f (elems v) b s in
   exists v', for_each f v b s = Some (v', b', s') /\ ok v' /\ elems v' = l) /\
  (let mid := kv_from from (elems v) in
   let '(l, b', s') := visit f (kv_upto to mid) b s in
   exists v', range f from to v b s =
       Some (negb b' && negb (bool_decide (kv_above to mid = [])), v', b', s') /\
     ok v' /\ elems v' = kv_below from (elems v) ++ l ++ kv_above to mid).
Proof. intros Hok. split; [by apply for_each_spec|by apply range_spec]. Qed.
End Properties.

(** A vector of capacity 4 with three entries, and an empty one. *)
Definition demo_sfra : sfra Z := Sfra [(10, 1); (20, 2); (30, 3); (0, 0)] 3.
Definition demo_empty : sfra Z := sfra_new 4 (7, 7).

Lemma cap4 : (1 <= 4)%nat /\ Z.of_nat 4 < 2 ^ 63.
Proof. lia. Qed.

Lemma demo_sfra_ok : sfra_ok 4 demo_sfra.
Proof. split_and!; [done|cbn; lia|]. repeat constructor; cbn; lia. Qed.

Lemma demo_empty_ok : sfra_ok 4 demo_empty.
Proof. apply sfra_new_ok. Qed.

Lemma sfra_insert_correct_witness :
  exists v', insert 4 25 9 demo_sfra = Some (true, false, v') /\ sfra_ok 4 v' /\
    elems v' = [(10, 1); (20, 2); (25, 9); (30, 3)].
Proof. exact (sfra_insert_correct 4 (proj1 cap4) (proj2 cap4) 25 9 demo_sfra demo_sfra_ok). Defined.

Lemma sfra_queries_correct_witness :
  contains 20 demo_sfra = Some (Some 2) /\ find_lte 20 demo_sfra = Some (Some (20, 2)) /\
  last demo_sfra = Some (Some 30) /\
  (elems demo_sfra <> [] -> first demo_sfra = Some 10 /\ max_key demo_sfra = Some 30) /\
  verify 4 demo_sfra = Some true.
Proof. exact (sfra_queries_correct 4 (proj1 cap4) (proj2 cap4) 20 demo_sfra demo_sfra_ok). Defined.

Lemma sfra_steal_half_and_insert_correct_witness :
  exists self' victim', steal_half_and_insert 4 25 9 demo_empty demo_sfra = Some (self', victim') /\
    sfra_ok 4 self' /\ sfra_ok 4 victim' /\
    elems victim' ++ elems self' = [(10, 1); (20, 2); (25, 9); (30, 3)] /\ length (elems self') = 2%nat.
Proof.
  exact (sfra_steal_half_and_insert_correct 4 (proj1 cap4) (proj2 cap4) 25 9 demo_empty demo_sfra demo_empty_ok demo_sfra_ok
           eq_refl ltac:(discriminate)).
Defined.

Lemma sfra_split_merge_roundtrip_witness :
  (exists self' victim' v u, steal_half demo_empty demo_sfra = Some (self', victim') /\
     merge 4 victim' self' = Some (v, u) /\ sfra_ok 4 v /\ elems v = elems demo_sfra /\ elems u = []) /\
  (kv_from 15 (elems demo_sfra) <> [] ->
   exists self' victim' v u, split_at 4 15 demo_empty demo_sfra = Some (true, (self', victim')) /\
     elems victim' = [(10, 1)] /\
     merge 4 victim' self' = Some (v, u) /\ sfra_ok 4 v /\ elems v = elems demo_sfra /\ elems u = []).
Proof. exact (sfra_split_merge_roundtrip 4 (proj1 cap4) (proj2 cap4) 15 demo_empty demo_sfra demo_empty_ok demo_sfra_ok). Defined.

Lemma sfra_remove_correct_witness :
  exists v', remove 20 demo_sfra = Some (Some 2, v') /\ sfra_ok 4 v' /\
    elems v' = [(10, 1); (30, 3)] /\ kv_lookup 20 (elems v') = None.
Proof. exact (sfra_remove_correct 4 (proj1 cap4) (proj2 cap4) 20 demo_sfra demo_sfra_ok). Defined.

(** Count the pairs and add their values, stopping at the second. *)
Definition demo_callback (k x : Z) (flag : bool) (s : nat) : Z * bool * nat :=
  (x + 100, (1 <=? s)%nat, S s).

Lemma sfra_iteration_correct_witness :
  (exists v', for_each demo_callback demo_sfra false 0%nat = Some (v', true, 2%nat) /\ sfra_ok 4 v' /\
     elems v' = [(10, 101); (20, 102); (30, 3)]) /\
  (exists v', range demo_callback 15 25 demo_sfra false 0%nat = Some (true, v', false, 1%nat) /\ sfra_ok 4 v' /\
     elems v' = [(10, 1); (20, 102); (30, 3)]).
Proof. exact (sfra_iteration_correct 4 (proj1 cap4) (proj2 cap4) demo_callback 15 25 demo_sfra false 0%nat demo_sfra_ok). Defined.
