(* ===== verification/VectorUmfra.v ===== *)
(** * VectorUmfra: the unsorted vector (vector/vector_umfra.h)

    [vector_umfra] keeps its pairs unsorted in a fixed array, except that the
    minimum is at index 0 and the maximum at index 1.  Every method is
    translated with its array accesses, its asserts and its loops.  The
    standard library's [std::nth_element] may arrange the array in any way that
    puts one element at its sorted place and partitions the others around it;
    it is a parameter of the model, with that law.  [std::sort] on distinct
    keys has one result. *)

From S2P Require Import Prelude KvList VecSpec ArrayOps.

Local Open Scope Z_scope.

Record umfra (V : Type) := Umfra { uf_list : list (Z * V); uf_size : nat }.
Arguments Umfra {V} uf_list uf_size.
Arguments uf_list {V} u.
Arguments uf_size {V} u.

(** [std::nth_element(first, first + n, last)] on the list of the range. *)
Definition nth_element_t : Type := forall V : Type, nat -> list (Z * V) -> list (Z * V).

(** What the standard promises of it. *)
Record nth_element_ok (nth_element : nth_element_t) : Prop := {
  ne_perm V n (l : list (Z * V)) : nth_element V n l ≡ₚ l;
  ne_pivot V n (l : list (Z * V)) :
    (n < length l)%nat ->
    exists lo p hi, nth_element V n l = lo ++ p :: hi /\ length lo = n /\
      (forall a, a ∈ lo -> a.1 <= p.1) /\ (forall a, a ∈ hi -> p.1 <= a.1);
}.

Section Umfra.
Context (CAPACITY : nat) (nth_element : nth_element_t) {V : Type}.
Implicit Types (v self victim : umfra V) (k : Z) (x : V) (l : list (Z * V)).

Definition umfra_new (junk : Z * V) : umfra V := Umfra (replicate CAPACITY junk) 0.

(** ** Searching *)

(** The loop of [find]: [n] entries from index [i]. *)
Fixpoint find_loop l k (i n : nat) : option (option nat) :=
  match n with
  | O => Some None
  | S n' => e ← l !! i; if e.1 =? k then Some (Some i) else find_loop l k (S i) n'
  end.

Definition find v k : option (option nat) := find_loop (uf_list v) k 0 (uf_size v).

(** The loops that look for a better key: the position and key of the best of
    the current best and [n] entries from index [i]. *)
Fixpoint scan_loop (better : Z -> Z -> bool) l (i n pos : nat) (best : Z) : option nat :=
  match n with
  | O => Some pos
  | S n' =>
      e ← l !! i;
      if better e.1 best then scan_loop better l (S i) n' i e.1
      else scan_loop better l (S i) n' pos best
  end.

(** ** Restoring the invariant *)

Definition quickselect_median v : option (umfra V) :=
  let n := uf_size v in
  if (2 <? CAPACITY)%nat && (2 <? n)%nat then
    l ← swap_at (uf_list v) 1 (n - 1);
    Some (Umfra (take 1 l ++ nth_element V (n / 2 - 1)%nat (take (n - 2) (drop 1 l)) ++ drop (n - 1) l) n)
  else Some v.

Definition restore_invariant v : option (umfra V) :=
  if (2 <? CAPACITY)%nat && (2 <? uf_size v)%nat then
    l ← swap_at (uf_list v) 1 (uf_size v - 1); Some (Umfra l (uf_size v))
  else Some v.

Definition find_new_min v : option (umfra V) :=
  if (CAPACITY <=? 2)%nat || (uf_size v <=? 2)%nat then Some v
  else
    a ← uf_list v !! O;
    pos ← scan_loop Z.ltb (uf_list v) 2 (uf_size v - 2) 0 a.1;
    if (pos =? 0)%nat then Some v
    else l ← swap_at (uf_list v) 0 pos; Some (Umfra l (uf_size v)).

Definition find_new_max v : option (umfra V) :=
  if (CAPACITY <=? 2)%nat || (uf_size v <=? 2)%nat then Some v
  else
    a ← uf_list v !! 1%nat;
    pos ← scan_loop Z.gtb (uf_list v) 2 (uf_size v - 2) 1 a.1;
    if (pos =? 1)%nat then Some v
    else l ← swap_at (uf_list v) 1 pos; Some (Umfra l (uf_size v)).

(** ** Inserting *)

(** A test of an entry that is only read when [b] holds. *)
Definition test_at (b : bool) l (i : nat) (test : Z -> bool) : option bool :=
  if b then e ← l !! i; Some (test e.1) else Some false.

(** [insert(pair, overfull)]: the result, the final [overfull], the vector. *)
Definition insert k x (overfull : bool) v : option (bool * bool * umfra V) :=
  found ← find v k;
  match found with
  | Some _ => Some (false, overfull, v)
  | None =>
      let n := uf_size v in
      let l := uf_list v in
      if (n =? CAPACITY)%nat then Some (false, true, v)
      else
        below ← test_at ((1 <=? CAPACITY)%nat && (1 <=? n)%nat) l 0 (fun k0 => k <? k0);
        above ← test_at ((2 <=? CAPACITY)%nat && (2 <=? n)%nat) l 1 (fun k1 => k1 <? k);
        l' ← (if below : bool then
                a ← l !! O; l1 ← store_at l n a; store_at l1 0 (k, x)
              else if above : bool then
                b ← l !! 1%nat; l1 ← store_at l n b; store_at l1 1 (k, x)
              else store_at l n (k, x));
        Some (true, overfull, Umfra l' (S n))
  end.

(** [insert(pair)], which asserts that there is room; also [insert_seq]. *)
Definition insert_assert k x v : option (bool * umfra V) :=
  '(result, overfull, v') ← insert k x false v; assert_ (negb overfull) ;; Some (result, v').

(** ** Stealing *)

(** Move the last entry of the [n] into the gap at [pos]. *)
Definition fill_gap l (pos n : nat) : option (list (Z * V)) :=
  if (pos =? n)%nat then Some l else z ← l !! n; store_at l pos z.

(** The loop of [split_insert] that counts the entries above [k] and finds the
    victim's new maximum. *)
Fixpoint split_scan l k (i n count pos : nat) (key : Z) : option (nat * nat * Z) :=
  match n with
  | O => Some (count, pos, key)
  | S n' =>
      e ← l !! i;
      let count' := if k <? e.1 then S count else count in
      assert_ (negb (e.1 =? k)) ;;
      if (e.1 <? k) && (key <? e.1) then split_scan l k (S i) n' count' i e.1
      else split_scan l k (S i) n' count' pos key
  end.

(** Its last loop, which moves the entries above [k]: the victim's array and
    size, the new vector's. *)
Fixpoint split_loop (fuel : nat) k (vl : list (Z * V)) (vn i : nat) (sl : list (Z * V)) (sn : nat)
    : option (list (Z * V) * nat * (list (Z * V) * nat)) :=
  if (vn <=? i)%nat then Some (vl, vn, (sl, sn))
  else match fuel with
  | O => None
  | S fuel' =>
      e ← vl !! i;
      if e.1 <? k then split_loop fuel' k vl vn (S i) sl sn
      else
        let vn' := (vn - 1)%nat in
        z ← vl !! vn';
        if k <? z.1 then
          sl' ← store_at sl sn z; split_loop fuel' k vl vn' i sl' (S sn)
        else
          sl' ← store_at sl sn e;
          vl' ← store_at vl i z;
          split_loop fuel' k vl' vn' (S i) sl' (S sn)
  end.

(** [split_insert(victim, pair)]: the new vector, then its victim. *)
Definition split_insert k x self victim : option (umfra V * umfra V) :=
  let vl := uf_list victim in
  let vn := uf_size victim in
  v0 ← vl !! O;
  s0 ← test_at (0 <? vn)%nat vl 0 (fun k0 => k <? k0);
  s1 ← test_at ((2 <=? CAPACITY)%nat && (1 <? vn)%nat) vl 1 (fun k1 => k <? k1);
  '(steal, pos, key) ← split_scan vl k 2 (vn - 2) (Nat.b2n s0 + Nat.b2n s1) 0 v0.1;
  let needed := S steal in
  assert_ (needed <=? CAPACITY)%nat ;;
  sl ← store_at (uf_list self) 0 (k, x);
  if (CAPACITY =? 1)%nat || (steal =? 0)%nat then Some (Umfra sl 1, victim)
  else if (steal =? vn)%nat then
    (if (steal =? 1)%nat then
       sl1 ← store_at sl 1 v0; Some (Umfra sl1 needed, Umfra vl 0)
     else
       v1 ← vl !! 1%nat; sl1 ← store_at sl 1 v1; sl2 ← store_at sl1 2 v0;
       sl3 ← memcpy sl2 3 vl 2 (steal - 2);
       Some (Umfra sl3 needed, Umfra vl 0))
  else if key =? v0.1 then
    sl1 ← memcpy sl 1 vl 1 steal;
    Some (Umfra sl1 needed, Umfra vl 1)
  else
    v1 ← vl !! 1%nat; sl1 ← store_at sl 1 v1;
    m ← vl !! pos; vl1 ← store_at vl 1 m;
    let vn1 := (vn - 1)%nat in
    vl2 ← fill_gap vl1 pos vn1;
    '(vl3, vn3, (sl3, sn3)) ← split_loop vn1 k vl2 vn1 2 sl1 2;
    Some (Umfra sl3 sn3, Umfra vl3 vn3).

(** [steal_half_and_insert(victim, pair)]. *)
Definition steal_half_and_insert k x self victim : option (umfra V * umfra V) :=
  victim ← quickselect_median victim;
  let median_pos := (uf_size victim / 2)%nat in
  median ← uf_list victim !! median_pos;
  let low := k <? median.1 in
  let first := if low then median_pos else (median_pos + 1)%nat in
  assert_ (first <=? uf_size victim)%nat ;;
  let entries := (uf_size victim - first)%nat in
  l ← memcpy (uf_list self) 0 (uf_list victim) first entries;
  let victim := Umfra (uf_list victim) first in
  self ← restore_invariant (Umfra l entries);
  if low then
    victim ← find_new_max victim;
    '(_, victim) ← insert_assert k x victim;
    Some (self, victim)
  else
    victim ← restore_invariant victim;
    self ← find_new_min self;
    '(_, self) ← insert_assert k x self;
    Some (self, victim).

(** [steal_half(victim)]. *)
Definition steal_half self victim : option (umfra V * umfra V) :=
  victim ← quickselect_median victim;
  let first := (uf_size victim / 2)%nat in
  let entries := (uf_size victim - first)%nat in
  l ← memcpy (uf_list self) 0 (uf_list victim) first entries;
  self ← restore_invariant (Umfra l entries);
  victim ← find_new_max (Umfra (uf_list victim) first);
  Some (self, victim).

(** [merge(victim)]: this vector, then its victim. *)
Definition merge self victim : option (umfra V * umfra V) :=
  let n := uf_size self in
  let l := uf_list self in
  let vn := uf_size victim in
  let vl := uf_list victim in
  if (vn =? 0)%nat then Some (self, victim)
  else
    assert_ (n + vn <=? CAPACITY)%nat ;;
    if (CAPACITY =? 1)%nat || (n =? 0)%nat then
      assert_ (n =? 0)%nat ;;
      l' ← memcpy l 0 vl 0 vn;
      Some (Umfra l' vn, Umfra vl 0)
    else if (vn =? 1)%nat then
      b ← l !! 1%nat; l1 ← store_at l n b;
      v0 ← vl !! O; l2 ← store_at l1 1 v0;
      Some (Umfra l2 (S n), Umfra vl 0)
    else
      v0 ← vl !! O; l1 ← store_at l n v0;
      let n1 := S n in
      l2 ← (if (2 <=? n1)%nat then b ← l1 !! 1%nat; store_at l1 n1 b else Some l1);
      v1 ← vl !! 1%nat; l3 ← store_at l2 1 v1;
      let n2 := S n1 in
      l4 ← memcpy l3 n2 vl 2 (vn - 2);
      Some (Umfra l4 (n2 + (vn - 2)), Umfra vl 0).

(** ** Removing *)

Definition remove k v : option (option V * umfra V) :=
  let n := uf_size v in
  let l := uf_list v in
  is_min ← test_at (1 <=? n)%nat l 0 (fun k0 => k =? k0);
  is_max ← test_at ((2 <=? CAPACITY)%nat && (2 <=? n)%nat) l 1 (fun k1 => k =? k1);
  if is_min : bool then
    a ← l !! O;
    if (n =? 1)%nat then Some (Some a.2, Umfra l 0)
    else
      b ← l !! 1%nat;
      pos ← scan_loop Z.ltb l 2 (n - 2) 1 b.1;
      m ← l !! pos; l1 ← store_at l 0 m;
      l2 ← fill_gap l1 pos (n - 1);
      Some (Some a.2, Umfra l2 (n - 1))
  else if is_max : bool then
    b ← l !! 1%nat;
    if (n =? 2)%nat then Some (Some b.2, Umfra l 1)
    else
      c ← l !! 2%nat;
      pos ← scan_loop Z.gtb l 3 (n - 3) 2 c.1;
      m ← l !! pos; l1 ← store_at l 1 m;
      l2 ← fill_gap l1 pos (n - 1);
      Some (Some b.2, Umfra l2 (n - 1))
  else
    found ← find v k;
    match found with
    | None => Some (None, v)
    | Some pos =>
        e ← l !! pos;
        l1 ← fill_gap l pos (n - 1);
        Some (Some e.2, Umfra l1 (n - 1))
    end.

(** ** Queries *)

Definition contains k v : option (option V) :=
  found ← find v k;
  match found with
  | Some pos => e ← uf_list v !! pos; Some (Some e.2)
  | None => Some None
  end.

(** [first()]: junk when the vector is empty. *)
Definition first v : option Z := e ← uf_list v !! O; Some e.1.

Definition last v : option (option Z) :=
  if (2 <=? uf_size v)%nat then e ← uf_list v !! 1%nat; Some (Some e.1)
  else if (uf_size v =? 1)%nat then e ← uf_list v !! O; Some (Some e.1)
  else Some None.

(** The first loop of [find_lte]: where it stops, and the key found. *)
Fixpoint lte_first l k (i n : nat) : option (nat * option Z) :=
  match n with
  | O => Some (i, None)
  | S n' => e ← l !! i; if e.1 <=? k then Some (i, Some e.1) else lte_first l k (S i) n'
  end.

(** The second: the greatest key that is at most [k]. *)
Fixpoint lte_rest l k (i n pos : nat) (found_k : Z) : option (nat * Z) :=
  match n with
  | O => Some (pos, found_k)
  | S n' =>
      e ← l !! i;
      if (found_k <? e.1) && (e.1 <=? k) then lte_rest l k (S i) n' i e.1
      else lte_rest l k (S i) n' pos found_k
  end.

Definition find_lte k v : option (option (Z * V)) :=
  '(i, found) ← lte_first (uf_list v) k 0 (uf_size v);
  match found with
  | None => Some None
  | Some key =>
      '(pos, found_k) ← lte_rest (uf_list v) k i (uf_size v - i) i key;
      if (pos <? CAPACITY)%nat then e ← uf_list v !! pos; Some (Some (found_k, e.2)) else Some None
  end.

Definition max_key v : option Z :=
  if (uf_size v =? 0)%nat then None
  else if (uf_size v =? 1)%nat then e ← uf_list v !! O; Some e.1
  else e ← uf_list v !! 1%nat; Some e.1.

Definition get_size v : nat := uf_size v.

(** [sort()] *)
Definition sort v : umfra V :=
  if (3 <? CAPACITY)%nat && (3 <? uf_size v)%nat then
    let l := uf_list v in
    Umfra (take 2 l ++ kv_sort (drop 2 (take (uf_size v) l)) ++ drop (uf_size v) l) (uf_size v)
  else v.

(** [at(index)], on a sorted vector. *)
Definition at_ (index : nat) v : option Z :=
  assert_ (index <? uf_size v)%nat ;;
  e ← uf_list v !! (if (index =? 0)%nat then O
                    else if (index =? uf_size v - 1)%nat then 1%nat else (index + 1)%nat);
  Some e.1.

(** ** [verify()], with [fail()] as in a build with NDEBUG *)

Fixpoint dup_inner l (key : Z) (j n : nat) : option bool :=
  match n with
  | O => Some false
  | S n' => e ← l !! j; if key =? e.1 then Some true else dup_inner l key (S j) n'
  end.

Fixpoint dup_loop l (i n : nat) : option bool :=
  match n with
  | O => Some false
  | S n' =>
      e ← l !! i;
      d ← dup_inner l e.1 0 i;
      if d : bool then Some true else dup_loop l (S i) n'
  end.

Fixpoint between_loop l (lo hi : Z) (i n : nat) : option bool :=
  match n with
  | O => Some true
  | S n' =>
      e ← l !! i;
      if (e.1 <? lo) || (hi <? e.1) then Some false else between_loop l lo hi (S i) n'
  end.

Definition verify v : option bool :=
  let n := uf_size v in
  let l := uf_list v in
  if (CAPACITY <? n)%nat then Some false
  else if (CAPACITY =? 1)%nat then Some true
  else
    d ← dup_loop l 1 (n - 1);
    if d : bool then Some false
    else if (2 <=? n)%nat then
      a ← l !! O; b ← l !! 1%nat;
      if b.1 <? a.1 then Some false else between_loop l a.1 b.1 2 (n - 2)
    else Some true.

(** ** Iteration *)

Section Iteration.
Context {St : Type} (f : Z -> V -> bool -> St -> V * bool * St).

Definition iterate_element l (i : nat) (exit_flag : bool) (s : St)
    : option (list (Z * V) * bool * St) :=
  e ← l !! i;
  let '(x, exit', s') := f e.1 e.2 exit_flag s in
  l' ← store_at l i (e.1, x);
  Some (l', exit', s').

(** The loop of [for_each] over [n] entries from index [i]. *)
Fixpoint iterate_loop l (i n : nat) (exit_flag : bool) (s : St) : option (list (Z * V) * bool * St) :=
  match n with
  | O => Some (l, exit_flag, s)
  | S n' =>
      if exit_flag then Some (l, exit_flag, s)
      else
        '(l', exit', s') ← iterate_element l i exit_flag s;
        iterate_loop l' (S i) n' exit' s'
  end.

(** One conditional call, [if (b && !exit_flag) iterate_element(f, i, exit_flag)]. *)
Definition iterate_if (b : bool) l (i : nat) (exit_flag : bool) (s : St)
    : option (list (Z * V) * bool * St) :=
  if b && negb exit_flag then iterate_element l i exit_flag s else Some (l, exit_flag, s).

Definition for_each v (exit_flag : bool) (s : St) : option (umfra V * bool * St) :=
  let v := sort v in
  let n := uf_size v in
  '(l1, b1, s1) ← iterate_if (0 <? n)%nat (uf_list v) 0 exit_flag s;
  '(l2, b2, s2) ← iterate_loop l1 2 (n - 2) b1 s1;
  '(l3, b3, s3) ← iterate_if (1 <? n)%nat l2 1 b2 s2;
  Some (Umfra l3 n, b3, s3).

(** [iterate_element_range1]: its result says whether [from] is reached. *)
Definition iterate_element_range1 l (i : nat) (from to : Z) (exit_flag : bool) (s : St)
    : option (bool * (list (Z * V) * bool * St)) :=
  e ← l !! i;
  if e.1 <? from then Some (false, (l, exit_flag, s))
  else if to <? e.1 then Some (true, (l, true, s))
  else
    '(l', exit', s') ← iterate_element l i exit_flag s;
    Some (true, (l', (e.1 =? to) || exit', s')).

(** [iterate_element_range2]: it has no [return] after setting the flag for a
    key beyond [to]. *)
Definition iterate_element_range2 l (i : nat) (to : Z) (exit_flag : bool) (s : St)
    : option (list (Z * V) * bool * St) :=
  e ← l !! i;
  '(l', exit', s') ← iterate_element l i ((to <? e.1) || exit_flag) s;
  Some (l', (e.1 =? to) || exit', s').

(** The two loops of [range]. *)
Fixpoint range_loop1 l (from to : Z) (i n : nat) (reached exit_flag : bool) (s : St)
    : option (nat * (bool * (list (Z * V) * bool * St))) :=
  match n with
  | O => Some (i, (reached, (l, exit_flag, s)))
  | S n' =>
      if exit_flag || reached then Some (i, (reached, (l, exit_flag, s)))
      else
        '(r, (l', exit', s')) ← iterate_element_range1 l i from to exit_flag s;
        range_loop1 l' from to (S i) n' r exit' s'
  end.

Fixpoint range_loop2 l (to : Z) (i n : nat) (exit_flag : bool) (s : St)
    : option (list (Z * V) * bool * St) :=
  match n with
  | O => Some (l, exit_flag, s)
  | S n' =>
      if exit_flag then Some (l, exit_flag, s)
      else
        '(l', exit', s') ← iterate_element_range2 l i to exit_flag s;
        range_loop2 l' to (S i) n' exit' s'
  end.

(** [range(from, to, f, exit_flag)]: the result, which is the final flag. *)
Definition range (from to : Z) v (exit_flag : bool) (s : St)
    : option (bool * umfra V * bool * St) :=
  let v := sort v in
  let n := uf_size v in
  '(r0, (l1, b1, s1)) ←
    (if (0 <? n)%nat && negb exit_flag then iterate_element_range1 (uf_list v) 0 from to exit_flag s
     else Some (false, (uf_list v, exit_flag, s)));
  '(i, (r1, (l2, b2, s2))) ← range_loop1 l1 from to 2 (n - 2) r0 b1 s1;
  '(l3, b3, s3) ← range_loop2 l2 to i (n - i) b2 s2;
  '(_, (l4, b4, s4)) ←
    (if (1 <? n)%nat && negb b3 then iterate_element_range1 l3 1 from to b3 s3
     else Some (false, (l3, b3, s3)));
  Some (b4, Umfra l4 n, b4, s4).
End Iteration.
End Umfra.
