(* ===== verification/UmfraSpec.v ===== *)
(** * UmfraSpec: the unsorted vector implements the vector interface

    The content of a vector is the sorted arrangement of its live prefix.  A
    vector is well formed when its keys are distinct, its minimum is at index
    0 and its maximum at index 1; every method is described by the permutation
    of the live prefix it makes.  The second part is on the updates. *)

From S2P Require Import Prelude KvList VecSpec ArrayOps VectorUmfra.

Local Open Scope Z_scope.

Section Spec.
Context (CAPACITY : nat) {V : Type}.
Implicit Types (v self victim : umfra V) (k : Z) (x : V) (l el : list (Z * V)) (e : Z * V).

Definition live v : list (Z * V) := take (uf_size v) (uf_list v).
Definition uelems v : list (Z * V) := kv_sort (live v).

(** An array [l] whose first [n] entries are those of the sorted list [el],
    with the minimum and the maximum in place. *)
Definition holds l (n : nat) el : Prop :=
  length l = CAPACITY /\ (n <= CAPACITY)%nat /\ take n l ≡ₚ el /\ kv_sorted el /\
  ((1 <= n)%nat -> l !! O = head el) /\ ((2 <= n)%nat -> l !! 1%nat = last_pair el).

Definition umfra_ok v : Prop := holds (uf_list v) (uf_size v) (uelems v).

Lemma holds_ok l n el : holds l n el -> umfra_ok (Umfra l n) /\ uelems (Umfra l n) = el.
Proof.
  intros Hh. pose proof Hh as (_ & _ & Hp & Hs & _).
  assert (He : uelems (Umfra l n) = el) by (by apply kv_sort_unique).
  unfold umfra_ok. cbn [uf_list uf_size]. by rewrite He.
Qed.

Section Holds.
Context (l : list (Z * V)) (n : nat) (el : list (Z * V)) (Hh : holds l n el).

Lemma holds_length : length el = n.
Proof.
  destruct Hh as (Hl & Hn & Hp & _). rewrite <- Hp, length_take. lia.
Qed.

Lemma holds_elem i e : (i < n)%nat -> l !! i = Some e -> e ∈ el.
Proof.
  destruct Hh as (_ & _ & Hp & _). intros Hi He. rewrite <- Hp.
  apply list_elem_of_lookup. exists i. by rewrite lookup_take_lt.
Qed.

Lemma holds_index e : e ∈ el -> exists i, (i < n)%nat /\ l !! i = Some e.
Proof.
  destruct Hh as (_ & _ & Hp & _). rewrite <- Hp. intros (i & Hi)%list_elem_of_lookup.
  apply lookup_take_Some in Hi as [Hi Hlt]. by exists i.
Qed.

Lemma holds_lookup i : (i < n)%nat -> exists e, l !! i = Some e.
Proof. destruct Hh as (Hl & Hn & _). intros Hi. apply lookup_lt_is_Some_2. lia. Qed.

Lemma holds_distinct i j e e' :
  (i < n)%nat -> (j < n)%nat -> i <> j -> l !! i = Some e -> l !! j = Some e' -> e.1 <> e'.1.
Proof.
  destruct Hh as (_ & _ & Hp & Hs & _). intros Hi Hj Hij He He'.
  assert (Hd : distinct (take n l)).
  { eapply distinct_perm; [by symmetry|]. by apply kv_sorted_distinct. }
  intros Heq. apply Hij. unfold distinct in Hd. apply (NoDup_lookup _ i j e.1 Hd).
  - by rewrite list_lookup_fmap, lookup_take_lt, He.
  - by rewrite list_lookup_fmap, lookup_take_lt, He', Heq.
Qed.

(** The minimum and the maximum, where they are. *)
Lemma holds_min a e : (1 <= n)%nat -> l !! O = Some a -> e ∈ el -> a.1 <= e.1.
Proof.
  destruct Hh as (_ & _ & _ & Hs & Hmin & _). intros Hn Ha. rewrite (Hmin Hn) in Ha.
  by apply kv_head_le.
Qed.

Lemma holds_max a e : (2 <= n)%nat -> l !! 1%nat = Some a -> e ∈ el -> e.1 <= a.1.
Proof.
  destruct Hh as (_ & _ & _ & Hs & _ & Hmax). intros Hn Ha. rewrite (Hmax Hn) in Ha.
  by apply kv_last_ge'.
Qed.
End Holds.

(** To establish it: the ends by their extremality. *)
Lemma holds_intro l n el :
  length l = CAPACITY -> (n <= CAPACITY)%nat -> take n l ≡ₚ el -> kv_sorted el ->
  ((1 <= n)%nat -> exists a, l !! O = Some a /\ forall e, e ∈ el -> a.1 <= e.1) ->
  ((2 <= n)%nat -> exists a, l !! 1%nat = Some a /\ forall e, e ∈ el -> e.1 <= a.1) ->
  holds l n el.
Proof.
  intros Hl Hn Hp Hs Hmin Hmax. split_and!; try done.
  - intros H1. destruct (Hmin H1) as (a & Ha & Hle). rewrite Ha. symmetry. apply kv_head_min; try done.
    rewrite <- Hp. apply list_elem_of_lookup. exists O. by rewrite lookup_take_lt.
  - intros H2. destruct (Hmax H2) as (a & Ha & Hle). rewrite Ha. symmetry. apply kv_last_max; try done.
    rewrite <- Hp. apply list_elem_of_lookup. exists 1%nat. by rewrite lookup_take_lt.
Qed.

(** Two entries or fewer are in place as soon as the minimum (maximum) is. *)
Lemma holds_small l n el :
  length l = CAPACITY -> (n <= CAPACITY)%nat -> take n l ≡ₚ el -> kv_sorted el -> (n <= 2)%nat ->
  ((1 <= n)%nat -> l !! O = head el) \/ ((2 <= n)%nat -> l !! 1%nat = last_pair el) ->
  holds l n el.
Proof.
  intros Hl Hn Hp Hs H2 Hor. destruct n as [|[|[|n]]]; [..|lia].
  - split_and!; try done; lia.
  - destruct l as [|a l]; [cbn in Hl; lia|]. cbn in Hp. apply Permutation_singleton_l in Hp as <-.
    split_and!; try done; lia.
  - destruct l as [|a [|b l]]; [cbn in Hl; lia..|]. cbn in Hp.
    assert (Hlen : length el = 2%nat) by (by rewrite <- Hp).
    destruct el as [|a' [|b' [|? ?]]]; try done.
    assert (a = a' /\ b = b') as [-> ->]; [|split_and!; done].
    destruct Hor as [Hor|Hor].
    + specialize (Hor ltac:(lia)). cbn in Hor. simplify_eq. apply Permutation_cons_inv in Hp.
      by apply Permutation_singleton_inj in Hp.
    + specialize (Hor ltac:(lia)). cbn in Hor. simplify_eq.
      apply (Permutation_app_inv_r [b'] [a] [a']) in Hp.
      by apply Permutation_singleton_inj in Hp.
Qed.

(** ** Searching *)

Lemma ufind_loop_spec l k n : forall i,
  (i + n <= length l)%nat ->
  exists r, find_loop l k i n = Some r /\
    match r with
    | Some p => (i <= p < i + n)%nat /\ exists x, l !! p = Some (k, x)
    | None => forall j e, (i <= j < i + n)%nat -> l !! j = Some e -> e.1 <> k
    end.
Proof.
  induction n as [|n IH]; intros i Hi; cbn [find_loop].
  { exists None. split; [done|]. lia. }
  destruct (lookup_lt_is_Some_2 l i) as [e He]; [lia|]. step_with He.
  destruct (Z.eqb_spec e.1 k) as [<-|Hne].
  - exists (Some i). split_and!; [done|lia|lia|]. exists e.2. by destruct e.
  - destruct (IH (S i)) as (r & Hr & Hspec); [lia|]. exists r. split; [done|]. destruct r as [p|].
    + destruct Hspec as [Hp Hx]. split; [lia|done].
    + intros j a Hj Ha. destruct (decide (j = i)) as [->|]; [congruence|]. apply (Hspec j); [lia|done].
Qed.

Lemma find_holds l n el k :
  holds l n el ->
  exists r, find (Umfra l n) k = Some r /\
    match r with
    | Some p => (p < n)%nat /\ exists x, l !! p = Some (k, x) /\ kv_lookup k el = Some x
    | None => kv_lookup k el = None
    end.
Proof.
  intros Hh. pose proof Hh as (Hl & Hn & Hp & Hs & _).
  destruct (ufind_loop_spec l k n 0) as (r & Hr & Hspec); [lia|]. exists r. split; [done|].
  destruct r as [p|].
  - destruct Hspec as [Hlt (x & Hx)]. split; [lia|]. exists x. split; [done|].
    apply kv_elem_lookup; [done|]. apply (holds_elem l n el Hh p); [lia|done].
  - apply kv_lookup_None. intros e (i & Hi & He)%(holds_index l n el Hh). apply (Hspec i); [lia|done].
Qed.

(** The scans, for an order and the test of being strictly better in it. *)
Lemma scan_loop_spec (le : Z -> Z -> Prop) (better : Z -> Z -> bool) l n :
  (forall a, le a a) -> (forall a b c, le a b -> le b c -> le a c) ->
  (forall a b, if better a b then le a b else le b a) ->
  forall i pos e, (i + n <= length l)%nat -> l !! pos = Some e ->
  exists pos' e', scan_loop better l i n pos e.1 = Some pos' /\ l !! pos' = Some e' /\
    (pos' = pos \/ (i <= pos' < i + n)%nat) /\ le e'.1 e.1 /\
    forall j a, (i <= j < i + n)%nat -> l !! j = Some a -> le e'.1 a.1.
Proof.
  intros Hrefl Htrans Hbetter. induction n as [|n IH]; intros i pos e Hi He; cbn [scan_loop].
  { exists pos, e. split_and!; try done; [by left|lia]. }
  destruct (lookup_lt_is_Some_2 l i) as [a Ha]; [lia|]. step_with Ha.
  specialize (Hbetter a.1 e.1). destruct (better a.1 e.1).
  - destruct (IH (S i) i a) as (pos' & e' & Hr & He' & Hpos & Hle & Hall); [lia|done|].
    exists pos', e'. split_and!; try done; [right; lia|by eapply Htrans|].
    intros j b Hj Hb. destruct (decide (j = i)) as [->|]; [congruence|]. apply (Hall j); [lia|done].
  - destruct (IH (S i) pos e) as (pos' & e' & Hr & He' & Hpos & Hle & Hall); [lia|done|].
    exists pos', e'. split_and!; try done; [destruct Hpos; [by left|right; lia]|].
    intros j b Hj Hb. destruct (decide (j = i)) as [->|]; [|apply (Hall j); [lia|done]].
    simplify_eq. by eapply Htrans.
Qed.

Lemma scan_min l i n pos e :
  (i + n <= length l)%nat -> l !! pos = Some e ->
  exists pos' e', scan_loop Z.ltb l i n pos e.1 = Some pos' /\ l !! pos' = Some e' /\
    (pos' = pos \/ (i <= pos' < i + n)%nat) /\ e'.1 <= e.1 /\
    forall j a, (i <= j < i + n)%nat -> l !! j = Some a -> e'.1 <= a.1.
Proof.
  apply (scan_loop_spec Z.le); [lia|lia|]. intros a b. destruct (Z.ltb_spec a b); lia.
Qed.

Lemma scan_max l i n pos e :
  (i + n <= length l)%nat -> l !! pos = Some e ->
  exists pos' e', scan_loop Z.gtb l i n pos e.1 = Some pos' /\ l !! pos' = Some e' /\
    (pos' = pos \/ (i <= pos' < i + n)%nat) /\ e.1 <= e'.1 /\
    forall j a, (i <= j < i + n)%nat -> l !! j = Some a -> a.1 <= e'.1.
Proof.
  apply (scan_loop_spec (fun a b => b <= a)); [lia|lia|]. intros a b. rewrite Z.gtb_ltb. destruct (Z.ltb_spec b a); lia.
Qed.

(** ** Restoring the ends *)

(** Swapping inside the live prefix. *)
Lemma swap_live l n el i j :
  length l = CAPACITY -> (n <= CAPACITY)%nat -> take n l ≡ₚ el -> (i < n)%nat -> (j < n)%nat ->
  exists l' a b, swap_at l i j = Some l' /\ length l' = CAPACITY /\ take n l' ≡ₚ el /\
    l !! i = Some a /\ l !! j = Some b /\ l' !! i = Some b /\ l' !! j = Some a /\
    forall m, m <> i -> m <> j -> l' !! m = l !! m.
Proof.
  intros Hl Hn Hp Hi Hj.
  destruct (lookup_lt_is_Some_2 l i) as [a Ha]; [lia|]. destruct (lookup_lt_is_Some_2 l j) as [b Hb]; [lia|].
  destruct (swap_at_spec l i j a b Ha Hb) as (l' & Hs & Hp' & Hl' & H1 & H2 & H3).
  exists l', a, b. split_and!; try done; [congruence|]. rewrite <- Hp. apply perm_take; [done|].
  intros m Hm. apply H3; lia.
Qed.

Lemma restore_invariant_spec l n el :
  length l = CAPACITY -> (n <= CAPACITY)%nat -> take n l ≡ₚ el -> kv_sorted el ->
  ((2 <= n)%nat -> l !! (n - 1)%nat = last_pair el) ->
  exists l', restore_invariant CAPACITY (Umfra l n) = Some (Umfra l' n) /\ length l' = CAPACITY /\
    take n l' ≡ₚ el /\ l' !! O = l !! O /\ ((2 <= n)%nat -> l' !! 1%nat = last_pair el).
Proof.
  intros Hl Hn Hp Hs Hlast. unfold restore_invariant. cbn [uf_size uf_list].
  destruct (decide (2 < n)%nat) as [H2|H2].
  - rewrite (proj2 (Nat.ltb_lt 2 CAPACITY)), (proj2 (Nat.ltb_lt 2 n)) by lia. cbn [andb].
    destruct (swap_live l n el 1 (n - 1)) as (l' & a & b & Hsw & Hl' & Hp' & Ha & Hb & H1 & H3 & Hoth); [done|done|done|lia|lia|].
    rewrite Hsw. cbn [mbind option_bind]. exists l'. split_and!; try done; [apply Hoth; lia|].
    intros _. by rewrite <- Hlast, Hb by lia.
  - rewrite (proj2 (Nat.ltb_ge 2 n)), andb_false_r by lia. exists l. split_and!; try done.
    intros ?. rewrite <- Hlast by done. f_equal. lia.
Qed.

Lemma find_new_min_spec l n el :
  length l = CAPACITY -> (n <= CAPACITY)%nat -> take n l ≡ₚ el -> kv_sorted el ->
  ((2 <= n)%nat -> l !! 1%nat = last_pair el) ->
  exists l', find_new_min CAPACITY (Umfra l n) = Some (Umfra l' n) /\ holds l' n el.
Proof.
  intros Hl Hn Hp Hs Hlast. unfold find_new_min. cbn [uf_size uf_list].
  destruct (decide (n <= 2)%nat) as [H2|H2].
  { rewrite (proj2 (Nat.leb_le n 2)), orb_true_r by lia. exists l. split; [done|]. apply holds_small; auto. }
  rewrite (proj2 (Nat.leb_gt CAPACITY 2)), (proj2 (Nat.leb_gt n 2)) by lia. cbn [orb].
  destruct (lookup_lt_is_Some_2 l 0) as [a Ha]; [lia|]. step_with Ha.
  destruct (scan_min l 2 (n - 2) 0 a) as (pos & e & Hsc & He & Hpos & Hle & Hall); [lia|done|].
  rewrite Hsc. cbn [mbind option_bind].
  assert (Hmax : exists m, l !! 1%nat = Some m /\ forall e, e ∈ el -> e.1 <= m.1).
  { destruct (lookup_lt_is_Some_2 l 1) as [m Hm]; [lia|]. exists m. split; [done|].
    rewrite Hlast in Hm by lia. intros. by apply (kv_last_ge' m _ el). }
  destruct Hmax as (m & Hm & Hmax).
  assert (Hmin : forall b, b ∈ el -> e.1 <= b.1).
  { intros b Hb. rewrite <- Hp in Hb. apply list_elem_of_lookup in Hb as [j Hj].
    apply lookup_take_Some in Hj as [Hj Hlt].
    destruct j as [|[|j]]; [congruence| |apply (Hall (S (S j))); [lia|done]].
    rewrite Hm in Hj. injection Hj as <-. apply Hmax.
    rewrite <- Hp. apply list_elem_of_lookup. exists pos. rewrite lookup_take_lt by lia. done. }
  destruct (Nat.eqb_spec pos 0) as [->|Hp0].
  - exists l. split; [done|]. apply holds_intro; eauto.
  - destruct (swap_live l n el 0 pos) as (l' & a' & b & Hsw & Hl' & Hp' & Ha' & Hb & H1 & H3 & Hoth); [done|done|done|lia|lia|].
    rewrite Hsw. cbn [mbind option_bind]. exists l'. split; [done|]. simplify_eq.
    apply holds_intro; try done; [by eauto|]. intros _. exists m. by rewrite Hoth by lia.
Qed.

Lemma find_new_max_spec l n el :
  length l = CAPACITY -> (n <= CAPACITY)%nat -> take n l ≡ₚ el -> kv_sorted el ->
  ((1 <= n)%nat -> l !! O = head el) ->
  exists l', find_new_max CAPACITY (Umfra l n) = Some (Umfra l' n) /\ holds l' n el.
Proof.
  intros Hl Hn Hp Hs Hhead. unfold find_new_max. cbn [uf_size uf_list].
  destruct (decide (n <= 2)%nat) as [H2|H2].
  { rewrite (proj2 (Nat.leb_le n 2)), orb_true_r by lia. exists l. split; [done|]. apply holds_small; auto. }
  rewrite (proj2 (Nat.leb_gt CAPACITY 2)), (proj2 (Nat.leb_gt n 2)) by lia. cbn [orb].
  destruct (lookup_lt_is_Some_2 l 1) as [a Ha]; [lia|]. step_with Ha.
  destruct (scan_max l 2 (n - 2) 1 a) as (pos & e & Hsc & He & Hpos & Hle & Hall); [lia|done|].
  rewrite Hsc. cbn [mbind option_bind].
  assert (Hmin : exists m, l !! 0%nat = Some m /\ forall e, e ∈ el -> m.1 <= e.1).
  { destruct (lookup_lt_is_Some_2 l 0) as [m Hm]; [lia|]. exists m. split; [done|].
    rewrite Hhead in Hm by lia. intros. by apply (kv_head_le m _ el). }
  destruct Hmin as (m & Hm & Hmin).
  assert (Hmax : forall b, b ∈ el -> b.1 <= e.1).
  { intros b Hb. rewrite <- Hp in Hb. apply list_elem_of_lookup in Hb as [j Hj].
    apply lookup_take_Some in Hj as [Hj Hlt].
    destruct j as [|[|j]]; [|congruence|apply (Hall (S (S j))); [lia|done]].
    rewrite Hm in Hj. injection Hj as <-. apply Hmin.
    rewrite <- Hp. apply list_elem_of_lookup. exists pos. rewrite lookup_take_lt by lia. done. }
  destruct (Nat.eqb_spec pos 1) as [->|Hp0].
  - exists l. split; [done|]. apply holds_intro; eauto.
  - destruct (swap_live l n el 1 pos) as (l' & a' & b & Hsw & Hl' & Hp' & Ha' & Hb & H1 & H3 & Hoth); [done|done|done|lia|lia|].
    rewrite Hsw. cbn [mbind option_bind]. exists l'. split; [done|]. simplify_eq.
    apply holds_intro; try done; [|by eauto]. intros _. exists m. by rewrite Hoth by lia.
Qed.
End Spec.

(** * Insert, remove and merge of the unsorted vector

    Each operation moves a few entries of the array; the live prefix is a
    permutation of the sorted content it should have, and the minimum and the
    maximum are put back in their places. *)

(** ** Moves inside the array *)

Section Moves.
Context {V : Type}.
Implicit Types (l : list (Z * V)) (e g : Z * V).

(** Writing [e] at [i] after saving the entry there at the end. *)
Lemma displace l n i a e :
  l !! i = Some a -> (i <= n)%nat -> (n < length l)%nat ->
  take (S n) (<[i := e]> (<[n := a]> l)) ≡ₚ e :: take n l.
Proof.
  intros Ha Hi Hn. destruct (decide (i = n)) as [->|Hne].
  - rewrite list_insert_insert_eq, take_store by done. solve_Permutation.
  - rewrite take_overwrite, take_store by lia. apply (Permutation_cons_inv (a := a)).
    rewrite perm_insert; [solve_Permutation|].
    rewrite lookup_app_l, lookup_take_lt by (rewrite ?length_take; lia). done.
Qed.

(** Moving the last entry into a gap. *)
Lemma fill_gap_spec l pos n g :
  (pos <= n)%nat -> (n < length l)%nat -> l !! pos = Some g ->
  exists l', fill_gap l pos n = Some l' /\ length l' = length l /\
    g :: take n l' ≡ₚ take (S n) l /\ forall i, i <> pos -> l' !! i = l !! i.
Proof.
  intros Hpos Hn Hg. destruct (lookup_lt_is_Some_2 l n) as [z Hz]; [lia|].
  unfold fill_gap. destruct (Nat.eqb_spec pos n) as [->|Hne].
  - exists l. split_and!; try done. rewrite (take_last l n g) by done. solve_Permutation.
  - step_with Hz. rewrite store_at_spec by lia. eexists. split; [done|].
    rewrite length_insert. split_and!; [done| |].
    + rewrite take_overwrite, perm_insert by (rewrite ?lookup_take_lt; lia || done).
      rewrite (take_last l n z) by done. solve_Permutation.
    + intros i Hi. by rewrite list_lookup_insert_ne.
Qed.

(** A guarded read. *)
Lemma test_at_spec b l i test :
  (b = true -> (i < length l)%nat) ->
  exists r : bool, test_at b l i test = Some r /\
    if r then b = true /\ exists e, l !! i = Some e /\ test e.1 = true
    else b = true -> forall e, l !! i = Some e -> test e.1 = false.
Proof.
  intros Hb. unfold test_at. destruct b; [|by exists false].
  destruct (lookup_lt_is_Some_2 l i) as [e He]; [by apply Hb|]. rewrite He. cbn [mbind option_bind].
  exists (test e.1). split; [done|]. destruct (test e.1) eqn:Ht; [by eauto|]. intros _ ? [= <-]. done.
Qed.
End Moves.

Section Update.
Context (CAPACITY : nat) {V : Type}.
Implicit Types (v self victim : umfra V) (k : Z) (x : V) (l el : list (Z * V)) (e : Z * V).

Local Abbreviation holds := (holds CAPACITY).

(** The ends of a vector, as [holds_intro] wants them. *)
Lemma holds_ends l n el :
  holds l n el ->
  ((1 <= n)%nat -> exists a, l !! O = Some a /\ a ∈ el /\ forall e, e ∈ el -> a.1 <= e.1) /\
  ((2 <= n)%nat -> exists a, l !! 1%nat = Some a /\ a ∈ el /\ forall e, e ∈ el -> e.1 <= a.1).
Proof.
  intros Hh. split; intros Hn.
  - destruct (holds_lookup _ l n el Hh 0) as [a Ha]; [lia|]. exists a. split_and!; [done| |].
    + by apply (holds_elem _ l n el Hh 0).
    + intros e. by apply (holds_min _ l n el Hh).
  - destruct (holds_lookup _ l n el Hh 1) as [a Ha]; [lia|]. exists a. split_and!; [done| |].
    + by apply (holds_elem _ l n el Hh 1).
    + intros e. by apply (holds_max _ l n el Hh).
Qed.

(** A vector of one entry. *)
Lemma holds_one l el : holds l 1 el -> exists a, l !! O = Some a /\ el = [a].
Proof.
  intros Hh. destruct (holds_ends l 1 el Hh) as [(a & Ha & Hin & _) _]; [lia|].
  exists a. split; [done|]. pose proof (holds_length _ l 1 el Hh) as Hl.
  destruct el as [|b [|? ?]]; try done. by apply list_elem_of_singleton in Hin as ->.
Qed.

(** Only the live prefix matters. *)
Lemma holds_prefix l l' n el :
  length l' = CAPACITY -> take n l' = take n l -> holds l n el -> holds l' n el.
Proof.
  intros Hl' Ht (Hl & Hn & Hp & Hs & Hmin & Hmax).
  assert (Hi : forall i, (i < n)%nat -> l' !! i = l !! i).
  { intros i Hi. rewrite <- (lookup_take_lt l' n i), Ht by done. by apply lookup_take_lt. }
  split_and!; try done; [by rewrite Ht|..]; intros ?; rewrite Hi by lia; auto.
Qed.

(** ** [insert] *)

Lemma insert_present_holds l n el k x y over :
  holds l n el -> kv_lookup k el = Some y ->
  insert CAPACITY k x over (Umfra l n) = Some (false, over, Umfra l n).
Proof.
  intros Hh Hk. destruct (find_holds _ l n el k Hh) as (r & Hr & Hspec).
  unfold insert. step_with Hr. destruct r; [done|congruence].
Qed.

Lemma insert_full_holds l n el k x over :
  holds l n el -> kv_lookup k el = None -> n = CAPACITY ->
  insert CAPACITY k x over (Umfra l n) = Some (false, true, Umfra l n).
Proof.
  intros Hh Hk Hn. destruct (find_holds _ l n el k Hh) as (r & Hr & Hspec).
  unfold insert. step_with Hr. destruct r as [p|].
  - destruct Hspec as (_ & y & _ & Hy). congruence.
  - cbn [uf_size]. by rewrite Hn, Nat.eqb_refl.
Qed.

(** What remains to check of the array an insertion leaves. *)
Lemma insert_holds l l' n el k x :
  holds l n el -> kv_lookup k el = None -> (n < CAPACITY)%nat ->
  length l' = length l -> take (S n) l' ≡ₚ (k, x) :: take n l ->
  (exists a, l' !! O = Some a /\ a.1 <= k /\ forall e, e ∈ el -> a.1 <= e.1) ->
  ((1 <= n)%nat -> exists a, l' !! 1%nat = Some a /\ k <= a.1 /\ forall e, e ∈ el -> e.1 <= a.1) ->
  holds l' (S n) (kv_insert k x el).
Proof.
  intros (Hl & _ & Hp & Hs & _) Hk Hn Hl' Hp' Hmin' Hmax'.
  apply holds_intro; [lia|lia| |by apply kv_insert_sorted|..].
  - rewrite Hp', kv_insert_perm by done. by rewrite Hp.
  - intros _. destruct Hmin' as (a & Ha & Hak & Hae). exists a. split; [done|].
    intros e [->|He]%elem_of_kv_insert; auto.
  - intros H2. destruct Hmax' as (a & Ha & Hak & Hae); [lia|]. exists a. split; [done|].
    intros e [->|He]%elem_of_kv_insert; auto.
Qed.

Lemma insert_room_holds l n el k x over :
  holds l n el -> kv_lookup k el = None -> (n < CAPACITY)%nat ->
  exists l', insert CAPACITY k x over (Umfra l n) = Some (true, over, Umfra l' (S n)) /\
    holds l' (S n) (kv_insert k x el).
Proof.
  intros Hh Hk Hn. pose proof Hh as (Hl & _ & Hp & Hs & _).
  destruct (find_holds _ l n el k Hh) as (r & Hr & Hspec).
  unfold insert. step_with Hr. destruct r as [p|].
  { destruct Hspec as (_ & y & _ & Hy). congruence. }
  cbn [uf_size uf_list]. rewrite (proj2 (Nat.eqb_neq n CAPACITY)) by lia.
  destruct (test_at_spec ((1 <=? CAPACITY)%nat && (1 <=? n)%nat) l 0 (fun k0 => k <? k0))
    as (below & Hbelow & Sbelow); [intros; lia|]. step_with Hbelow.
  destruct (test_at_spec ((2 <=? CAPACITY)%nat && (2 <=? n)%nat) l 1 (fun k1 => k1 <? k))
    as (above & Habove & Sabove). { intros [?%Nat.leb_le _]%andb_prop. lia. } step_with Habove.
  destruct (holds_ends l n el Hh) as [Hmin Hmax].
  pose proof (fun l' => insert_holds l l' n el k x Hh Hk ltac:(lia)) as Hnew.
  destruct below; [|destruct above].
  - destruct Sbelow as (Hb%andb_prop & a & Ha & Hka%Z.ltb_lt). destruct Hb as [_ Hb%Nat.leb_le].
    step_with Ha. rewrite store_at_spec by lia. cbn [mbind option_bind].
    rewrite store_at_spec by (rewrite length_insert; lia). cbn [mbind option_bind].
    eexists. split; [done|]. destruct (Hmin Hb) as (a' & Ha' & _ & Hmin').
    rewrite Ha in Ha'. injection Ha' as <-.
    apply Hnew; [by rewrite !length_insert|apply displace; [done|lia..]|..].
    + exists (k, x). rewrite list_lookup_insert_eq by (rewrite length_insert; lia).
      split_and!; [done|cbn; lia|]. intros e He. specialize (Hmin' e He). cbn. lia.
    + intros _. rewrite list_lookup_insert_ne by done. destruct (decide (n = 1%nat)) as [->|Hn1].
      * exists a. rewrite list_lookup_insert_eq by lia. split_and!; [done|lia|].
        destruct (holds_one l el Hh) as (b & Hb' & ->). rewrite Ha in Hb'. injection Hb' as <-.
        by intros e ->%list_elem_of_singleton.
      * destruct Hmax as (m & Hm & Hin & Hmax); [lia|]. exists m. rewrite list_lookup_insert_ne by lia.
        split_and!; [done| |done]. specialize (Hmin' m Hin). lia.
  - destruct Sabove as (Hb%andb_prop & b & Hb' & Hka%Z.ltb_lt). destruct Hb as [_ Hb%Nat.leb_le].
    step_with Hb'. rewrite store_at_spec by lia. cbn [mbind option_bind].
    rewrite store_at_spec by (rewrite length_insert; lia). cbn [mbind option_bind].
    eexists. split; [done|]. destruct (Hmax Hb) as (b' & Hbb & Hin & Hmax').
    rewrite Hb' in Hbb. injection Hbb as <-.
    destruct Hmin as (a & Ha & _ & Hmin); [lia|].
    apply Hnew; [by rewrite !length_insert|apply displace; [done|lia..]|..].
    + exists a. rewrite !list_lookup_insert_ne by lia. split_and!; [done| |done].
      specialize (Hmin b Hin). lia.
    + intros _. exists (k, x). rewrite list_lookup_insert_eq by (rewrite length_insert; lia).
      split_and!; [done|cbn; lia|]. intros e He. specialize (Hmax' e He). cbn. lia.
  - rewrite store_at_spec by lia. cbn [mbind option_bind]. eexists. split; [done|].
    rewrite !(proj2 (Nat.leb_le 1 CAPACITY)) in Sbelow by lia. cbn [andb] in Sbelow.
    apply Hnew; [by rewrite !length_insert|rewrite take_store by lia; solve_Permutation|..].
    + destruct (decide (n = 0%nat)) as [->|Hn0].
      * exists (k, x). rewrite list_lookup_insert_eq by lia. split_and!; [done|cbn; lia|].
        apply (holds_length CAPACITY) in Hh. destruct el; [|done]. by intros e ?%not_elem_of_nil.
      * destruct Hmin as (a & Ha & _ & Hmin); [lia|]. exists a. rewrite list_lookup_insert_ne by done.
        split_and!; [done| |done]. specialize (Sbelow ltac:(by apply Nat.leb_le; lia) a Ha).
        apply Z.ltb_ge in Sbelow. done.
    + intros H1. destruct (decide (n = 1%nat)) as [->|Hn1].
      * exists (k, x). rewrite list_lookup_insert_eq by lia. split_and!; [done|cbn; lia|].
        destruct (holds_one l el Hh) as (b & Hb' & ->). specialize (Sbelow eq_refl b Hb').
        apply Z.ltb_ge in Sbelow. by intros e ->%list_elem_of_singleton.
      * destruct Hmax as (m & Hm & _ & Hmax); [lia|]. exists m. rewrite list_lookup_insert_ne by done.
        split_and!; [done| |done].
        rewrite (proj2 (Nat.leb_le 2 CAPACITY)), (proj2 (Nat.leb_le 2 n)) in Sabove by lia.
        specialize (Sabove eq_refl m Hm). apply Z.ltb_ge in Sabove. done.
Qed.

(** ** [remove] *)

(** The array a removal leaves holds the other entries, its ends given. *)
Lemma remove_holds l l' n el k x :
  holds l n el -> kv_lookup k el = Some x -> length l' = CAPACITY ->
  (k, x) :: take (n - 1) l' ≡ₚ take n l ->
  ((2 <= n)%nat -> exists a, l' !! O = Some a /\ forall e, e ∈ el -> e.1 <> k -> a.1 <= e.1) ->
  ((3 <= n)%nat -> exists a, l' !! 1%nat = Some a /\ forall e, e ∈ el -> e.1 <> k -> e.1 <= a.1) ->
  holds l' (n - 1) (kv_remove k el).
Proof.
  intros (Hl & Hn & Hp & Hs & _) Hk Hl' Hp' Hmin Hmax.
  assert (Hin : forall e, e ∈ kv_remove k el -> e ∈ el /\ e.1 <> k).
  { intros e He. unfold kv_remove in He. apply list_elem_of_filter in He. tauto. }
  apply holds_intro; [done|lia| |by apply kv_sorted_filter|..].
  - apply (Permutation_cons_inv (a := (k, x))). rewrite kv_remove_perm by done. by rewrite Hp'.
  - intros H1. destruct Hmin as (a & Ha & Hall); [lia|]. exists a. split; [done|].
    intros e [He Hne]%Hin. auto.
  - intros H1. destruct Hmax as (a & Ha & Hall); [lia|]. exists a. split; [done|].
    intros e [He Hne]%Hin. auto.
Qed.

(** Replacing the end at [i], whose key is removed, by the entry at [pos],
    whose place the last entry takes. *)
Lemma replace_end l n i pos g m :
  (i < pos < n)%nat -> (n <= length l)%nat -> l !! i = Some g -> l !! pos = Some m ->
  exists l', fill_gap (<[i := m]> l) pos (n - 1) = Some l' /\ length l' = length l /\
    g :: take (n - 1) l' ≡ₚ take n l /\ l' !! i = Some m /\
    forall j, j <> i -> j <> pos -> l' !! j = l !! j.
Proof.
  intros Hi Hn Hg Hm.
  destruct (fill_gap_spec (<[i := m]> l) pos (n - 1) m) as (l' & Hf & Hl' & Hp' & Hoth);
    rewrite ?length_insert; [lia|lia|by rewrite list_lookup_insert_ne by lia|].
  exists l'. rewrite length_insert in Hl'. split_and!; try done.
  - replace (S (n - 1)) with n in Hp' by lia. rewrite take_overwrite in Hp' by lia.
    apply (Permutation_cons_inv (a := m)).
    rewrite <- (perm_insert (take n l) i g m) by (by rewrite lookup_take_lt by lia).
    rewrite <- Hp'. solve_Permutation.
  - rewrite Hoth by lia. apply list_lookup_insert_eq. lia.
  - intros j Hji Hjp. by rewrite Hoth, list_lookup_insert_ne.
Qed.

Lemma remove_min_holds l n el a :
  holds l n el -> (1 <= n)%nat -> l !! O = Some a ->
  exists l', remove CAPACITY a.1 (Umfra l n) = Some (Some a.2, Umfra l' (n - 1)) /\
    holds l' (n - 1) (kv_remove a.1 el) /\ kv_lookup a.1 el = Some a.2.
Proof.
  intros Hh Hn Ha. pose proof Hh as (Hl & HnC & Hp & Hs & _).
  assert (Hk : kv_lookup a.1 el = Some a.2).
  { apply kv_elem_lookup; [done|]. rewrite <- surjective_pairing. by apply (holds_elem CAPACITY l n el Hh 0). }
  unfold remove, test_at. cbn [uf_size uf_list].
  rewrite (proj2 (Nat.leb_le 1 n)), Ha by done. cbn [mbind option_bind]. rewrite Z.eqb_refl.
  destruct (if _ && _ then _ else _) as [b|] eqn:Hb.
  2:{ destruct (_ && _) eqn:H2; [|done]. apply andb_prop in H2 as [_ H2%Nat.leb_le].
      destruct (lookup_lt_is_Some_2 l 1) as [c Hc]; [lia|]. by rewrite Hc in Hb. }
  cbn [mbind option_bind]. clear b Hb. destruct (Nat.eqb_spec n 1) as [->|Hn1].
  - exists l. split_and!; try done. apply (remove_holds l l 1 el a.1 a.2); try done; [|lia..].
    rewrite (take_last l 0 a) by done. by rewrite <- surjective_pairing.
  - destruct (holds_lookup CAPACITY l n el Hh 1) as [b Hb]; [lia|]. step_with Hb.
    destruct (scan_min l 2 (n - 2) 1 b) as (pos & m & Hsc & Hm & Hpos & Hle & Hall); [lia|done|].
    step_with Hsc. step_with Hm. rewrite store_at_spec by lia. cbn [mbind option_bind].
    destruct (replace_end l n 0 pos a m) as (l' & Hf & Hl' & Hp' & H0 & Hoth); [lia|lia|done|done|].
    step_with Hf. exists l'. split_and!; [done| |done].
    apply (remove_holds l l' n el a.1 a.2); [done|done|lia|by rewrite <- surjective_pairing|..].
    + intros _. exists m. split; [done|]. intros e He Hne.
      apply (holds_index CAPACITY l n el Hh) in He as (j & Hj & Hje).
      destruct j as [|[|j]]; [congruence|congruence|]. apply (Hall (S (S j))); [lia|done].
    + intros H3. destruct (holds_ends l n el Hh) as [_ (b' & Hb' & _ & Hmax)]; [lia|].
      rewrite Hb in Hb'. injection Hb' as <-. exists b. split; [|auto].
      rewrite Hoth; [done|lia|]. intros <-.
      destruct (holds_lookup CAPACITY l n el Hh 2) as [c Hc]; [lia|].
      pose proof (holds_distinct CAPACITY l n el Hh 1 2 b c ltac:(lia) ltac:(lia) ltac:(lia) Hb Hc).
      pose proof (Hmax c (holds_elem CAPACITY l n el Hh 2 c ltac:(lia) Hc)).
      specialize (Hall 2%nat c ltac:(lia) Hc). rewrite Hb in Hm. injection Hm as <-. lia.
Qed.

Lemma remove_max_holds l n el b :
  holds l n el -> (2 <= n)%nat -> l !! 1%nat = Some b ->
  exists l', remove CAPACITY b.1 (Umfra l n) = Some (Some b.2, Umfra l' (n - 1)) /\
    holds l' (n - 1) (kv_remove b.1 el) /\ kv_lookup b.1 el = Some b.2.
Proof.
  intros Hh Hn Hb. pose proof Hh as (Hl & HnC & Hp & Hs & _).
  assert (Hk : kv_lookup b.1 el = Some b.2).
  { apply kv_elem_lookup; [done|]. rewrite <- surjective_pairing. by apply (holds_elem CAPACITY l n el Hh 1). }
  destruct (holds_ends l n el Hh) as [(a & Ha & _ & Hmin) _]; [lia|].
  pose proof (holds_distinct CAPACITY l n el Hh 0 1 a b ltac:(lia) ltac:(lia) ltac:(lia) Ha Hb) as Hab.
  unfold remove, test_at. cbn [uf_size uf_list].
  rewrite (proj2 (Nat.leb_le 1 n)), (proj2 (Nat.leb_le 2 n)), (proj2 (Nat.leb_le 2 CAPACITY)), Ha, Hb by lia.
  cbn [mbind option_bind andb]. rewrite (proj2 (Z.eqb_neq b.1 a.1)), Z.eqb_refl by congruence.
  destruct (Nat.eqb_spec n 2) as [->|Hn1].
  - exists l. split_and!; try done. apply (remove_holds l l 2 el b.1 b.2); try done; [| |lia].
    + rewrite (take_last l 1 b) by done. rewrite <- surjective_pairing. cbn [Nat.sub]. solve_Permutation.
    + intros _. exists a. split; [done|auto].
  - destruct (holds_lookup CAPACITY l n el Hh 2) as [c Hc]; [lia|]. step_with Hc.
    destruct (scan_max l 3 (n - 3) 2 c) as (pos & m & Hsc & Hm & Hpos & Hle & Hall); [lia|done|].
    step_with Hsc. step_with Hm. rewrite store_at_spec by lia. cbn [mbind option_bind].
    destruct (replace_end l n 1 pos b m) as (l' & Hf & Hl' & Hp' & H1 & Hoth); [lia|lia|done|done|].
    step_with Hf. exists l'. split_and!; [done| |done].
    apply (remove_holds l l' n el b.1 b.2); [done|done|lia|by rewrite <- surjective_pairing|..].
    + intros _. exists a. split; [by rewrite Hoth by lia|auto].
    + intros _. exists m. split; [done|]. intros e He Hne.
      destruct (holds_index CAPACITY l n el Hh e He) as (j & Hj & Hje).
      destruct j as [|[|[|j]]]; [|congruence|congruence|apply (Hall (S (S (S j)))); [lia|done]].
      rewrite Ha in Hje. injection Hje as <-. apply Hmin. apply (holds_elem CAPACITY l n el Hh pos); [lia|done].
Qed.

(** Any other key: found by the search, or absent. *)
Lemma remove_other_holds l n el k :
  holds l n el ->
  (forall a, (1 <= n)%nat -> l !! O = Some a -> k <> a.1) ->
  (forall b, (2 <= n)%nat -> l !! 1%nat = Some b -> k <> b.1) ->
  match kv_lookup k el with
  | None => remove CAPACITY k (Umfra l n) = Some (None, Umfra l n)
  | Some x => exists l', remove CAPACITY k (Umfra l n) = Some (Some x, Umfra l' (n - 1)) /\
      holds l' (n - 1) (kv_remove k el)
  end.
Proof.
  intros Hh Ha Hb. pose proof Hh as (Hl & HnC & _).
  unfold remove. cbn [uf_size uf_list].
  destruct (test_at_spec (1 <=? n)%nat l 0 (fun k0 => k =? k0)) as (r0 & Hr0 & S0).
  { intros ?%Nat.leb_le. lia. } step_with Hr0.
  destruct (test_at_spec ((2 <=? CAPACITY)%nat && (2 <=? n)%nat) l 1 (fun k1 => k =? k1)) as (r1 & Hr1 & S1).
  { intros [?%Nat.leb_le _]%andb_prop. lia. } step_with Hr1.
  destruct r0. { destruct S0 as (H1%Nat.leb_le & a & Hla & Hka%Z.eqb_eq). by destruct (Ha a). }
  destruct r1. { destruct S1 as ([_ H1%Nat.leb_le]%andb_prop & a & Hla & Hka%Z.eqb_eq). by destruct (Hb a). }
  destruct (find_holds CAPACITY l n el k Hh) as (r & Hr & Hspec). step_with Hr. destruct r as [pos|].
  2:{ by rewrite Hspec. }
  destruct Hspec as (Hpos & x & Hlx & Hk). rewrite Hk. step_with Hlx.
  assert (2 <= pos)%nat.
  { destruct pos as [|[|pos]]; [exfalso; by apply (Ha (k, x))|exfalso; by apply (Hb (k, x))|lia]. }
  destruct (fill_gap_spec l pos (n - 1) (k, x)) as (l' & Hf & Hl' & Hp' & Hoth); [lia|lia|done|].
  step_with Hf. exists l'. split; [done|]. replace (S (n - 1)) with n in Hp' by lia.
  destruct (holds_ends l n el Hh) as [Hmin Hmax].
  apply (remove_holds l l' n el k x); [done|done|lia|done|..]; intros _; rewrite Hoth by lia.
  - destruct Hmin as (a & ? & _ & ?); [lia|]. eauto.
  - destruct Hmax as (a & ? & _ & ?); [lia|]. eauto.
Qed.

Lemma remove_holds_all l n el k :
  holds l n el ->
  match kv_lookup k el with
  | None => remove CAPACITY k (Umfra l n) = Some (None, Umfra l n)
  | Some x => exists l', remove CAPACITY k (Umfra l n) = Some (Some x, Umfra l' (n - 1)) /\
      holds l' (n - 1) (kv_remove k el)
  end.
Proof.
  intros Hh. pose proof Hh as (Hl & HnC & _).
  destruct (decide ((1 <= n)%nat /\ fst <$> l !! O = Some k)) as [[Hn Hf]|H0].
  { apply fmap_Some in Hf as (a & Ha & ->). destruct (remove_min_holds l n el a Hh Hn Ha) as (l' & ? & ? & Hk). rewrite Hk. eauto. }
  destruct (decide ((2 <= n)%nat /\ fst <$> l !! 1%nat = Some k)) as [[Hn Hf]|H1].
  { apply fmap_Some in Hf as (a & Ha & ->). destruct (remove_max_holds l n el a Hh Hn Ha) as (l' & ? & ? & Hk). rewrite Hk. eauto. }
  apply remove_other_holds; [done|..].
  - intros a ? Ha ->. apply H0. by rewrite Ha.
  - intros a ? Ha ->. apply H1. by rewrite Ha.
Qed.

(** ** [merge] *)

Lemma merge_holds l n el vl vn vel :
  holds l n el -> holds vl vn vel ->
  (forall a b, a ∈ el -> b ∈ vel -> a.1 < b.1) -> (n + vn <= CAPACITY)%nat ->
  exists l', merge CAPACITY (Umfra l n) (Umfra vl vn) = Some (Umfra l' (n + vn), Umfra vl 0) /\
    holds l' (n + vn) (el ++ vel).
Proof.
  intros Hh Hv Hlt Hfit. pose proof Hh as (Hl & _ & Hp & Hs & _). pose proof Hv as (Hvl & _ & Hvp & Hvs & _).
  pose proof (holds_length CAPACITY l n el Hh) as Hel. pose proof (holds_length CAPACITY vl vn vel Hv) as Hvel.
  unfold merge. cbn [uf_size uf_list]. destruct (Nat.eqb_spec vn 0) as [->|Hvn].
  { exists l. destruct vel; [|done]. by rewrite Nat.add_0_r, app_nil_r. }
  rewrite (assert_true (n + vn <=? CAPACITY)%nat) by (by apply Nat.leb_le). cbn [mbind option_bind].
  destruct (decide (n = 0%nat)) as [->|Hn].
  { rewrite Nat.eqb_refl, orb_true_r. cbn [assert_ mbind option_bind Nat.add].
    destruct (memcpy_spec l vl 0 0 vn) as (l' & Hm & Hl' & Ht); [lia|lia|]. step_with Hm.
    exists l'. destruct el; [|done]. split; [done|]. apply (holds_prefix vl); [lia|done|done]. }
  rewrite (proj2 (Nat.eqb_neq n 0)), (proj2 (Nat.eqb_neq CAPACITY 1)) by lia. cbn [orb].
  assert (Hnew : forall l', length l' = CAPACITY -> take (n + vn) l' ≡ₚ take n l ++ take vn vl ->
    l' !! O = l !! O ->
    (exists b, l' !! 1%nat = Some b /\ b ∈ vel /\ forall e, e ∈ vel -> e.1 <= b.1) ->
    holds l' (n + vn) (el ++ vel)).
  { intros l' Hl' Hp' H0 (b & Hb & Hin & Hmax). apply holds_intro; [done|done| | |..].
    - rewrite Hp'. by rewrite Hp, Hvp.
    - by apply kv_sorted_app.
    - intros _. destruct (holds_ends l n el Hh) as [(a & Ha & Hina & Hmin) _]; [lia|].
      exists a. rewrite H0. split; [done|]. intros e [He|He]%elem_of_app; [auto|].
      specialize (Hlt a e Hina He). lia.
    - intros _. exists b. split; [done|]. intros e [He|He]%elem_of_app; [|auto].
      specialize (Hlt e b He Hin). lia. }
  destruct (holds_lookup CAPACITY vl vn vel Hv 0) as [v0 Hv0]; [lia|].
  destruct (Nat.eqb_spec vn 1) as [->|Hvn1].
  - destruct (lookup_lt_is_Some_2 l 1) as [b Hb]; [lia|]. step_with Hb.
    rewrite store_at_spec by lia. cbn [mbind option_bind]. step_with Hv0.
    rewrite store_at_spec by (rewrite length_insert; lia). cbn [mbind option_bind].
    eexists. replace (n + 1)%nat with (S n) in * by lia. split; [done|]. apply Hnew.
    + by rewrite !length_insert.
    + rewrite (displace l n 1 b v0) by (done || lia).
      rewrite (take_last vl 0 v0) by done. cbn [take app]. solve_Permutation.
    + by rewrite !list_lookup_insert_ne by lia.
    + exists v0. rewrite list_lookup_insert_eq by (rewrite length_insert; lia).
      destruct (holds_one vl vel Hv) as (v0' & Hv0' & ->). rewrite Hv0 in Hv0'. injection Hv0' as <-.
      split_and!; [done|left|]. by intros e ->%list_elem_of_singleton.
  - step_with Hv0. rewrite store_at_spec by lia. cbn [mbind option_bind].
    rewrite (proj2 (Nat.leb_le 2 (S n))) by lia.
    destruct (lookup_lt_is_Some_2 (<[n := v0]> l) 1) as [b Hb]; [rewrite length_insert; lia|]. step_with Hb.
    rewrite store_at_spec by (rewrite length_insert; lia). cbn [mbind option_bind].
    destruct (holds_ends vl vn vel Hv) as [_ (v1 & Hv1 & Hin1 & Hmax1)]; [lia|]. step_with Hv1.
    rewrite store_at_spec by (rewrite !length_insert; lia). cbn [mbind option_bind].
    edestruct (memcpy_spec (<[1%nat := v1]> (<[S n := b]> (<[n := v0]> l))) vl (S (S n)) 2 (vn - 2))
      as (l' & Hm & Hl' & Ht); [lia|rewrite !length_insert; lia|]. step_with Hm. rewrite !length_insert in Hl'.
    replace (S (S n) + (vn - 2))%nat with (n + vn)%nat in * by lia.
    exists l'. split; [done|].
    assert (Hi : forall i, (i < n + 2)%nat -> l' !! i = <[1%nat := v1]> (<[S n := b]> (<[n := v0]> l)) !! i).
    { intros i Hi. rewrite <- (lookup_take_lt l' (n + vn)), Ht by lia.
      rewrite lookup_app_l by (rewrite length_take, !length_insert; lia). apply lookup_take_lt. lia. }
    apply Hnew; [lia|..].
    + rewrite Ht, (displace _ (S n) 1 b v1) by (rewrite ?length_insert; done || lia).
      rewrite take_store by lia.
      assert (Hvt : take vn vl = v0 :: v1 :: take (vn - 2) (drop 2 vl)).
      { destruct vl as [|? [|? vl]]; [done|done|]. injection Hv0 as ->. injection Hv1 as ->.
        destruct vn as [|[|vn]]; [lia|lia|]. cbn. by rewrite Nat.sub_0_r. }
      rewrite Hvt. solve_Permutation.
    + rewrite Hi by lia. by rewrite !list_lookup_insert_ne by lia.
    + exists v1. rewrite Hi by lia. by rewrite list_lookup_insert_eq by (rewrite !length_insert; lia).
Qed.
End Update.
