(* ===== verification/UmfraSteal.v ===== *)
(** * UmfraSteal: the stealing operations of the unsorted vector

    [steal_half] and [steal_half_and_insert] partition the victim with
    [quickselect_median]; [split_insert] takes the entries above a key.  Both
    are described by where they cut the sorted content of the victim. *)

From S2P Require Import Prelude KvList VecSpec ArrayOps VectorUmfra UmfraSpec.

Local Open Scope Z_scope.

(** ** Cutting a content in two *)

Section Cut.
Context {V : Type}.
Implicit Types (el lo hi l : list (Z * V)) (k : Z).

Lemma cut_at_key k lo hi el :
  kv_sorted el -> lo ++ hi ≡ₚ el ->
  (forall e, e ∈ lo -> e.1 < k) -> (forall e, e ∈ hi -> k < e.1) ->
  kv_below k el ≡ₚ lo /\ kv_above k el ≡ₚ hi.
Proof.
  intros Hs Hp Hlo Hhi. unfold kv_below, kv_above. rewrite <- Hp, !filter_app.
  split.
  - rewrite kv_filter_all, kv_filter_none; [by rewrite app_nil_r| |done].
    intros e He. specialize (Hhi e He). lia.
  - rewrite kv_filter_none, kv_filter_all; [done|done|].
    intros e He. specialize (Hlo e He). lia.
Qed.

Lemma cut_in_order lo hi el :
  kv_sorted el -> lo ++ hi ≡ₚ el -> (forall a b, a ∈ lo -> b ∈ hi -> a.1 < b.1) ->
  lo ≡ₚ take (length lo) el /\ hi ≡ₚ drop (length lo) el.
Proof.
  intros Hs Hp Hlt.
  assert (Hd : distinct (lo ++ hi)) by (eapply distinct_perm; [by symmetry|by apply kv_sorted_distinct]).
  apply distinct_app in Hd as (Hd1 & Hd2 & _).
  assert (He : kv_sort lo ++ kv_sort hi = el).
  { apply kv_sorted_unique; [|done|by rewrite !kv_sort_perm].
    apply kv_sorted_app. split_and!; [|by apply kv_sort_sorted..].
    intros a b. rewrite !kv_sort_perm. apply Hlt. }
  assert (Hlen : length lo = length (kv_sort lo)) by (by rewrite kv_sort_perm).
  rewrite <- He, Hlen, take_app_length, drop_app_length. by rewrite !kv_sort_perm.
Qed.

Lemma elem_of_take_index l n e : e ∈ take n l <-> exists i, (i < n)%nat /\ l !! i = Some e.
Proof.
  rewrite list_elem_of_lookup. split.
  - intros (i & Hi). apply lookup_take_Some in Hi as [Hi Hlt]. by exists i.
  - intros (i & Hlt & Hi). exists i. by rewrite lookup_take_lt.
Qed.

(** The start of an array of two entries or more. *)
Lemma take_two l n a b :
  l !! O = Some a -> l !! 1%nat = Some b -> (2 <= n)%nat ->
  take n l = a :: b :: take (n - 2) (drop 2 l).
Proof.
  intros Ha Hb Hn. destruct l as [|? [|? l]]; [done|done|]. injection Ha as ->. injection Hb as ->.
  destruct n as [|[|n]]; [lia|lia|]. cbn. by rewrite Nat.sub_0_r.
Qed.

Lemma take_one l n a : l !! O = Some a -> (1 <= n)%nat -> take n l = a :: take (n - 1) (drop 1 l).
Proof.
  intros Ha Hn. destruct l as [|? l]; [done|]. injection Ha as ->.
  destruct n as [|n]; [lia|]. cbn. by rewrite Nat.sub_0_r, drop_0.
Qed.
End Cut.

Section Steal.
Context (CAPACITY : nat) {V : Type}.
Implicit Types (k : Z) (x : V) (l vl el : list (Z * V)) (e : Z * V).

Local Abbreviation holds := (holds CAPACITY).

(** ** [split_insert] *)

Lemma split_scan_spec l k n : forall i count pos key,
  (n <> 0 -> i + n <= length l)%nat -> (forall j e, (i <= j < i + n)%nat -> l !! j = Some e -> e.1 <> k) ->
  exists pos' key',
    split_scan l k i n count pos key =
      Some ((count + length (filter (fun e => (k < e.1)%Z) (take n (drop i l))))%nat, pos', key') /\
    key <= key' /\
    (forall j e, (i <= j < i + n)%nat -> l !! j = Some e -> e.1 < k -> e.1 <= key') /\
    ((pos' = pos /\ key' = key) \/
     ((i <= pos' < i + n)%nat /\ key < key' /\ key' < k /\ exists m, l !! pos' = Some m /\ m.1 = key')).
Proof.
  induction n as [|n IH]; intros i count pos key Hi Hne; cbn [split_scan].
  { exists pos, key. rewrite take_0. cbn. rewrite Nat.add_0_r. split_and!; [done|lia|lia|auto]. }
  destruct (lookup_lt_is_Some_2 l i) as [e He]; [lia|]. step_with He.
  pose proof (Hne i e ltac:(lia) He) as Hek. rewrite (proj2 (Z.eqb_neq e.1 k)) by done.
  cbn [negb assert_ mbind option_bind]. rewrite (drop_S l e i) by done. cbn [take]. rewrite filter_cons.
  set (count' := if k <? e.1 then S count else count).
  assert (Hcount : (count + length (if decide (k < e.1)%Z
     then e :: filter (λ e, (k < e.1)%Z) (take n (drop (S i) l)) else filter (λ e, (k < e.1)%Z) (take n (drop (S i) l))))%nat
    = (count' + length (filter (λ e, (k < e.1)%Z) (take n (drop (S i) l))))%nat).
  { subst count'. destruct (Z.ltb_spec k e.1); [rewrite decide_True by done; cbn; lia|by rewrite decide_False by lia]. }
  rewrite Hcount.
  destruct (Z.ltb_spec e.1 k) as [Hlt|Hge]; [destruct (Z.ltb_spec key e.1) as [Hkey|Hkey]|]; cbn [andb].
  - destruct (IH (S i) count' i e.1) as (pos' & key' & Hr & Hle & Hall & Hpos); [lia|intros j a Hj; apply Hne; lia|].
    exists pos', key'. split_and!; [done|lia| |].
    + intros j a Hj Ha Hak. destruct (decide (j = i)) as [->|]; [congruence|]. apply (Hall j); [lia|done..].
    + right. destruct Hpos as [[-> ->]|(? & ? & ? & ?)]; [eauto 10 with lia|]. split_and!; try done; lia.
  - destruct (IH (S i) count' pos key) as (pos' & key' & Hr & Hle & Hall & Hpos); [lia|intros j a Hj; apply Hne; lia|].
    exists pos', key'. split_and!; [done|lia| |].
    + intros j a Hj Ha Hak. destruct (decide (j = i)) as [->|]; [|apply (Hall j); [lia|done..]].
      rewrite He in Ha. injection Ha as <-. lia.
    + destruct Hpos as [?|(? & ? & ? & ?)]; [by left|right]. split_and!; try done; lia.
  - destruct (IH (S i) count' pos key) as (pos' & key' & Hr & Hle & Hall & Hpos); [lia|intros j a Hj; apply Hne; lia|].
    exists pos', key'. split_and!; [done|lia| |].
    + intros j a Hj Ha Hak. destruct (decide (j = i)) as [->|]; [|apply (Hall j); [lia|done..]].
      rewrite He in Ha. injection Ha as <-. lia.
    + destruct Hpos as [?|(? & ? & ? & ?)]; [by left|right]. split_and!; try done; lia.
Qed.

Lemma split_loop_spec k fuel : forall vl vn i sl sn,
  (vn - i <= fuel)%nat -> (i <= vn <= length vl)%nat -> (sn + (vn - i) <= length sl)%nat ->
  (forall j e, (i <= j < vn)%nat -> vl !! j = Some e -> e.1 <> k) ->
  exists vl' vn' sl' L,
    split_loop fuel k vl vn i sl sn = Some (vl', vn', (sl', (sn + length L)%nat)) /\
    length vl' = length vl /\ length sl' = length sl /\ (i <= vn' <= vn)%nat /\
    (sn + length L <= length sl)%nat /\
    take (sn + length L) sl' = take sn sl ++ L /\ take vn' vl' ++ L ≡ₚ take vn vl /\
    take i vl' = take i vl /\ (forall e, e ∈ L -> k < e.1) /\
    (forall j e, (i <= j < vn')%nat -> vl' !! j = Some e -> e.1 < k).
Proof.
  induction fuel as [|fuel IH]; intros vl vn i sl sn Hfuel Hvn Hsn Hne; cbn [split_loop].
  { rewrite (proj2 (Nat.leb_le vn i)) by lia. exists vl, vn, sl, []. cbn. rewrite Nat.add_0_r, !app_nil_r.
    split_and!; try done; try lia. by intros ? ?%not_elem_of_nil. }
  destruct (Nat.leb_spec vn i) as [Hle|Hlt].
  { exists vl, vn, sl, []. cbn. rewrite Nat.add_0_r, !app_nil_r.
    split_and!; try done; try lia. by intros ? ?%not_elem_of_nil. }
  destruct (lookup_lt_is_Some_2 vl i) as [e He]; [lia|]. step_with He.
  pose proof (Hne i e ltac:(lia) He) as Hek.
  assert (Hti : forall l l' : list (Z * V), take (S i) l' = take (S i) l -> take i l' = take i l /\ l' !! i = l !! i).
  { intros l l' Ht. split.
    - replace i with (i `min` S i)%nat by lia. by rewrite <- !take_take, Ht.
    - rewrite <- (lookup_take_lt l' (S i)), Ht by lia. apply lookup_take_lt. lia. }
  destruct (Z.ltb_spec e.1 k) as [Hlek|Hgek].
  - destruct (IH vl vn (S i) sl sn) as (vl' & vn' & sl' & L & Hr & H1 & H2 & H3 & H4 & H5 & H6 & H7 & H8 & H9);
      [lia|lia|lia|intros j a Hj; apply Hne; lia|].
    apply Hti in H7 as [H7 H7']. exists vl', vn', sl', L. split_and!; try done; try lia.
    intros j a Hj Ha. destruct (decide (j = i)) as [->|]; [congruence|]. apply (H9 j); [lia|done].
  - destruct (lookup_lt_is_Some_2 vl (vn - 1)) as [z Hz]; [lia|]. step_with Hz.
    pose proof (Hne (vn - 1)%nat z ltac:(lia) Hz) as Hzk.
    assert (Hlast : take vn vl = take (vn - 1) vl ++ [z]).
    { rewrite <- (take_last vl (vn - 1) z) by done. f_equal. lia. }
    assert (Hcons : forall (a : Z * V) sl' L, take (S (sn + length L)) sl' = take (S sn) (<[sn := a]> sl) ++ L ->
      take (S (sn + length L)) sl' = take sn sl ++ a :: L).
    { intros a sl' L ->. rewrite take_store by lia. by rewrite <- app_assoc. }
    destruct (Z.ltb_spec k z.1) as [Hkz|Hkz].
    + rewrite store_at_spec by lia. cbn [mbind option_bind].
      destruct (IH vl (vn - 1)%nat i (<[sn := z]> sl) (S sn))
        as (vl' & vn' & sl' & L & Hr & H1 & H2 & H3 & H4 & H5 & H6 & H7 & H8 & H9);
        rewrite ?length_insert in *; [lia|lia|lia|intros j a Hj; apply Hne; lia|].
      exists vl', vn', sl', (z :: L). rewrite Hr. cbn [length]. rewrite !Nat.add_succ_r, !Nat.add_succ_l in *.
      split_and!; try done; try lia.
      * by apply Hcons.
      * rewrite Hlast, <- H6. solve_Permutation.
      * intros a [->|Ha]%elem_of_cons; auto.
    + assert (i <> vn - 1)%nat by (intros ->; rewrite He in Hz; injection Hz as ->; lia).
      rewrite store_at_spec by lia. cbn [mbind option_bind].
      rewrite store_at_spec by lia. cbn [mbind option_bind].
      destruct (IH (<[i := z]> vl) (vn - 1)%nat (S i) (<[sn := e]> sl) (S sn))
        as (vl' & vn' & sl' & L & Hr & H1 & H2 & H3 & H4 & H5 & H6 & H7 & H8 & H9);
        rewrite ?length_insert in *; [lia|lia|lia| |].
      { intros j a Hj. rewrite list_lookup_insert_ne by lia. apply Hne. lia. }
      apply Hti in H7 as [H7 H7']. rewrite take_insert_ge in H7 by lia.
      rewrite list_lookup_insert_eq in H7' by lia.
      exists vl', vn', sl', (e :: L). rewrite Hr. cbn [length]. rewrite !Nat.add_succ_r, !Nat.add_succ_l in *.
      split_and!; try done; try lia.
      * by apply Hcons.
      * rewrite <- Permutation_middle, H6, take_overwrite, perm_insert, Hlast
          by (rewrite ?lookup_take_lt by lia; done || lia). solve_Permutation.
      * intros a [->|Ha]%elem_of_cons; [lia|auto].
      * intros j a Hj Ha. destruct (decide (j = i)) as [->|]; [|apply (H9 j); [lia|done]].
        rewrite H7' in Ha. injection Ha as <-. lia.
Qed.

(** What is left to check of the two arrays. *)
Lemma taker_holds sl sn k x hi el :
  kv_sorted el -> kv_above k el ≡ₚ hi -> length sl = CAPACITY -> (sn <= CAPACITY)%nat ->
  take sn sl ≡ₚ (k, x) :: hi -> sl !! O = Some (k, x) ->
  ((2 <= sn)%nat -> exists m, sl !! 1%nat = Some m /\ k <= m.1 /\ forall e, e ∈ el -> e.1 <= m.1) ->
  holds sl sn ((k, x) :: kv_above k el).
Proof.
  intros Hs Hhi Hl Hn Hp H0 Hmax. apply holds_intro; [done|done|by rewrite Hp, Hhi|..].
  - apply kv_sorted_cons. split; [|by apply kv_sorted_filter]. apply Forall_forall.
    intros e He. by apply elem_of_kv_above in He as [He _].
  - intros _. exists (k, x). split; [done|]. intros e [->|He]%elem_of_cons; [done|].
    apply elem_of_kv_above in He as [He _]. cbn. lia.
  - intros H2. destruct (Hmax H2) as (m & Hm & Hk & Hle). exists m. split; [done|].
    intros e [->|He]%elem_of_cons; [done|]. apply elem_of_kv_above in He as [_ He]. auto.
Qed.

Lemma victim_holds vl vn lo k el :
  kv_sorted el -> kv_below k el ≡ₚ lo -> length vl = CAPACITY -> (vn <= CAPACITY)%nat ->
  take vn vl = lo ->
  ((1 <= vn)%nat -> exists a, vl !! O = Some a /\ forall e, e ∈ el -> a.1 <= e.1) ->
  ((2 <= vn)%nat -> exists m, vl !! 1%nat = Some m /\ forall e, e ∈ el -> e.1 < k -> e.1 <= m.1) ->
  holds vl vn (kv_below k el).
Proof.
  intros Hs Hlo Hl Hn Hp Hmin Hmax. apply holds_intro; [done|done|by rewrite Hp, Hlo|by apply kv_sorted_filter|..].
  - intros H1. destruct (Hmin H1) as (a & Ha & Hle). exists a. split; [done|].
    intros e [_ He]%elem_of_kv_below. auto.
  - intros H2. destruct (Hmax H2) as (m & Hm & Hle). exists m. split; [done|].
    intros e [Hk He]%elem_of_kv_below. auto.
Qed.

Section SplitInsert.
Context (ls : list (Z * V)) (vl : list (Z * V)) (vn : nat) (el : list (Z * V)) (k : Z) (x : V).
Context (Hls : length ls = CAPACITY) (Hv : holds vl vn el) (Hk : kv_lookup k el = None).
Context (Hfit : (S (length (kv_above k el)) <= CAPACITY)%nat).

Let Hsorted : kv_sorted el.
Proof. by destruct Hv as (_ & _ & _ & Hs & _). Qed.

Lemma victim_absent j e : (j < vn)%nat -> vl !! j = Some e -> e.1 <> k.
Proof.
  intros Hj He. pose proof (proj1 (kv_lookup_None k el) Hk) as Hne. apply Hne.
  by apply (holds_elem CAPACITY vl vn el Hv j).
Qed.

(** The part of the scan's count that the loop does not make. *)
Lemma split_count s0 s1 :
  test_at (0 <? vn)%nat vl 0 (fun k0 => k <? k0) = Some s0 ->
  test_at ((2 <=? CAPACITY)%nat && (1 <? vn)%nat) vl 1 (fun k1 => k <? k1) = Some s1 ->
  (Nat.b2n s0 + Nat.b2n s1 + length (filter (fun e => (k < e.1)%Z) (take (vn - 2) (drop 2 vl))))%nat
  = length (kv_above k el).
Proof.
  destruct Hv as (Hl & Hn & Hp & _). intros H0 H1.
  assert (Hab : length (kv_above k el) = length (filter (fun e => k < e.1) (take vn vl))).
  { unfold kv_above. by rewrite Hp. }
  rewrite Hab. unfold test_at in H0, H1. destruct (decide (vn = 0%nat)) as [->|Hn0].
  { rewrite andb_false_r in H1. injection H0 as <-. injection H1 as <-. done. }
  rewrite (proj2 (Nat.ltb_lt 0 vn)) in H0 by lia.
  destruct (lookup_lt_is_Some_2 vl 0) as [a Ha]; [lia|]. rewrite Ha in H0. injection H0 as <-.
  destruct (decide (vn = 1%nat)) as [->|Hn1].
  { rewrite andb_false_r in H1. injection H1 as <-. rewrite (take_one vl 1 a), filter_cons by done.
    destruct (Z.ltb_spec k a.1); case_decide; done || lia. }
  rewrite (proj2 (Nat.ltb_lt 1 vn)), (proj2 (Nat.leb_le 2 CAPACITY)) in H1 by lia.
  destruct (lookup_lt_is_Some_2 vl 1) as [b Hb]; [lia|]. rewrite Hb in H1. injection H1 as <-.
  rewrite (take_two vl vn a b), !filter_cons by (done || lia).
  destruct (Z.ltb_spec k a.1), (Z.ltb_spec k b.1); repeat case_decide; cbn; lia.
Qed.

(** Nothing to steal, everything, all but the minimum, and the general case. *)
Definition split_result (r : option (umfra V * umfra V)) : Prop :=
  exists sl sn vl' vn', r = Some (Umfra sl sn, Umfra vl' vn') /\
    holds sl sn ((k, x) :: kv_above k el) /\ holds vl' vn' (kv_below k el).

Lemma split_none : kv_above k el = [] -> split_result (Some (Umfra (<[0%nat := (k, x)]> ls) 1, Umfra vl vn)).
Proof.
  intros Ha. exists (<[0%nat := (k, x)]> ls), 1%nat, vl, vn. split; [done|].
  assert (Hlo : forall e, e ∈ el -> e.1 < k).
  { intros e He. pose proof (proj1 (kv_lookup_None k el) Hk e He).
    destruct (Z.lt_ge_cases e.1 k) as [|Hge]; [done|].
    assert (He' : e ∈ kv_above k el) by (apply elem_of_kv_above; split; [lia|done]).
    rewrite Ha in He'. by apply not_elem_of_nil in He'. }
  split; [|by rewrite kv_below_all].
  apply (taker_holds _ _ k x []); rewrite ?length_insert; try done; [by rewrite Ha|lia| | |lia].
  - rewrite take_store by lia. done.
  - apply list_lookup_insert_eq. lia.
Qed.

Lemma split_all sl :
  (1 <= vn)%nat -> length (kv_above k el) = vn -> length sl = CAPACITY ->
  take (S vn) sl ≡ₚ (k, x) :: take vn vl -> sl !! O = Some (k, x) ->
  (exists m, sl !! 1%nat = Some m /\ m ∈ el /\ forall e, e ∈ el -> e.1 <= m.1) ->
  split_result (Some (Umfra sl (S vn), Umfra vl 0)).
Proof.
  intros Hn Hall Hsl Hp H0 (m & Hm & Hin & Hmax). exists sl, (S vn), vl, 0%nat. split; [done|].
  destruct Hv as (Hl & HnC & Hvp & _).
  assert (Hba : length (kv_below k el) = 0%nat /\ kv_above k el = el).
  { pose proof (kv_below_above k el Hsorted Hk) as He. pose proof (holds_length CAPACITY vl vn el Hv) as Hlen.
    assert (Hb : length (kv_below k el) = 0%nat).
    { rewrite He, length_app in Hlen. lia. }
    split; [done|]. rewrite He at 2. by destruct (kv_below k el). }
  destruct Hba as [Hb%nil_length_inv Ha]. split.
  - apply (taker_holds sl _ k x el); try done; [by rewrite Ha|lia|by rewrite Hp, Hvp|].
    intros _. exists m. split_and!; try done. rewrite <- Ha in Hin. apply elem_of_kv_above in Hin. lia.
  - rewrite Hb. apply (holds_small CAPACITY vl 0 []); try done; [lia|apply kv_sorted_nil|lia|left; lia].
Qed.

Lemma split_most v0 :
  (2 <= vn)%nat -> vl !! O = Some v0 -> v0.1 < k ->
  (forall j e, (1 <= j < vn)%nat -> vl !! j = Some e -> k < e.1) ->
  length (kv_above k el) = (vn - 1)%nat /\
  exists sl1, memcpy (<[0%nat := (k, x)]> ls) 1 vl 1 (vn - 1) = Some sl1 /\
    split_result (Some (Umfra sl1 (S (vn - 1)), Umfra vl 1)).
Proof.
  intros Hn Hv0 Hlt Hgt. pose proof Hv as (Hl & HnC & Hvp & _).
  destruct (cut_at_key k [v0] (take (vn - 1) (drop 1 vl)) el Hsorted) as [Hb Ha].
  { rewrite <- Hvp, (take_one vl vn v0) by (done || lia). done. }
  { by intros e ->%list_elem_of_singleton. }
  { intros e (j & Hj & He)%elem_of_take_index. rewrite lookup_drop in He. apply (Hgt (1 + j)%nat); [lia|done]. }
  assert (Hlen : length (kv_above k el) = (vn - 1)%nat) by (rewrite Ha, length_take, length_drop; lia).
  split; [done|].
  destruct (memcpy_spec (<[0%nat := (k, x)]> ls) vl 1 1 (vn - 1)) as (sl1 & Hm & Hl1 & Ht);
    [lia|rewrite length_insert; lia|].
  rewrite length_insert in Hl1. rewrite take_store in Ht by lia. rewrite take_0 in Ht; cbn [app] in Ht. change (1 + (vn - 1))%nat with (S (vn - 1)) in Ht.
  assert (Hi : forall i, (i < vn)%nat -> sl1 !! i = ((k, x) :: take (vn - 1) (drop 1 vl)) !! i).
  { intros i Hi. rewrite <- Ht. symmetry. apply lookup_take_lt. lia. }
  exists sl1. split; [done|]. exists sl1, (S (vn - 1)), vl, 1%nat. split; [done|]. split.
  - apply (taker_holds sl1 _ k x (take (vn - 1) (drop 1 vl)) el); try done; [lia|lia|by rewrite <- Ht| |].
    + by rewrite Hi by lia.
    + intros _. destruct (holds_ends CAPACITY vl vn el Hv) as [_ (m & Hm1 & Hin & Hmax)]; [lia|].
      exists m. rewrite Hi, lookup_cons_ne_0, lookup_take_lt, lookup_drop by (cbn; lia).
      split_and!; [done| |done]. specialize (Hgt 1%nat m ltac:(lia) Hm1). lia.
  - apply (victim_holds vl 1 [v0]); try done; [lia|by rewrite (take_one vl 1 v0)| |lia].
    intros _. exists v0. split; [done|].
    destruct (holds_ends CAPACITY vl vn el Hv) as [(a & Ha' & _ & Hmin) _]; [lia|].
    rewrite Hv0 in Ha'. injection Ha' as <-. done.
Qed.

Lemma split_general v0 v1 pos m :
  (3 <= vn)%nat -> vl !! O = Some v0 -> vl !! 1%nat = Some v1 -> k < v1.1 ->
  (2 <= pos < vn)%nat -> vl !! pos = Some m -> v0.1 < m.1 < k ->
  (forall j e, (2 <= j < vn)%nat -> vl !! j = Some e -> e.1 < k -> e.1 <= m.1) ->
  exists vl2 vl3 vn3 sl3 sn3,
    fill_gap (<[1%nat := m]> vl) pos (vn - 1) = Some vl2 /\
    split_loop (vn - 1) k vl2 (vn - 1) 2 (<[1%nat := v1]> (<[0%nat := (k, x)]> ls)) 2
      = Some (vl3, vn3, (sl3, sn3)) /\
    split_result (Some (Umfra sl3 sn3, Umfra vl3 vn3)).
Proof.
  intros Hn Hv0 Hv1 Hk1 Hpos Hm Hmk Hall. pose proof Hv as (Hl & HnC & Hvp & _).
  destruct (replace_end vl vn 1 pos v1 m) as (vl2 & Hf & Hl2 & Hp2 & H21 & Hoth); [lia|lia|done|done|].
  set (sl1 := <[1%nat := v1]> (<[0%nat := (k, x)]> ls)).
  assert (Hsl1 : length sl1 = CAPACITY) by (by unfold sl1; rewrite !length_insert).
  destruct (split_loop_spec k (vn - 1) vl2 (vn - 1) 2 sl1 2)
    as (vl3 & vn3 & sl3 & L & Hr & H1 & H2 & H3 & H4 & H5 & H6 & H7 & H8 & H9); [lia|lia|lia| |].
  { intros j e Hj He. assert (Hin : e ∈ el).
    { rewrite <- Hvp, <- Hp2. right. apply elem_of_take_index. exists j. split; [lia|done]. }
    by apply (proj1 (kv_lookup_None k el) Hk). }
  exists vl2, vl3, vn3, sl3, (2 + length L)%nat. split_and!; [done|done|].
  assert (Hi : forall i, (i < 2)%nat -> vl3 !! i = vl2 !! i).
  { intros i Hi. rewrite <- (lookup_take_lt vl3 2), H7 by done. by apply lookup_take_lt. }
  destruct (holds_ends CAPACITY vl vn el Hv) as [(a & Ha & _ & Hmin) (b & Hb & _ & Hmax)]; [lia..|].
  rewrite Hv0 in Ha. injection Ha as <-. rewrite Hv1 in Hb. injection Hb as <-.
  assert (Ht2 : take 2 sl1 = [(k, x); v1]).
  { unfold sl1. destruct ls as [|? [|? ?]]; [cbn in Hls; lia..|]. done. }
  rewrite Ht2 in H5. cbn [app] in H5.
  destruct (cut_at_key k (take vn3 vl3) (v1 :: L) el Hsorted) as [Hlo Hhi].
  { rewrite <- Hvp, <- Hp2, <- H6. solve_Permutation. }
  { intros e (j & Hj & He)%elem_of_take_index. destruct j as [|[|j]].
    - rewrite Hi, Hoth, Hv0 in He by lia. injection He as <-. lia.
    - rewrite Hi, H21 in He by lia. injection He as <-. lia.
    - apply (H9 (S (S j))); [lia|done]. }
  { intros e [->|He]%elem_of_cons; auto. }
  exists sl3, (2 + length L)%nat, vl3, vn3. split; [done|]. split.
  - assert (His : forall i, (i < 2 + length L)%nat -> sl3 !! i = ((k, x) :: v1 :: L) !! i).
    { intros i Hi'. rewrite <- H5. symmetry. by apply lookup_take_lt. }
    apply (taker_holds sl3 _ k x (v1 :: L) el); try done; [lia|lia|by rewrite H5|by rewrite His by lia|].
    intros _. exists v1. rewrite His by lia. split_and!; [done|lia|done].
  - apply (victim_holds vl3 vn3 (take vn3 vl3)); try done; [lia|lia| |].
    + intros _. exists v0. rewrite Hi, Hoth by lia. done.
    + intros _. exists m. rewrite Hi by lia. split; [done|].
      intros e (j & Hj & He)%(holds_index CAPACITY vl vn el Hv) Hek.
      destruct j as [|[|j]]; [| |apply (Hall (S (S j))); [lia|done..]].
      * rewrite Hv0 in He. injection He as <-. lia.
      * rewrite Hv1 in He. injection He as <-. lia.
Qed.

(** Stealing everything: the arrays the three branches of the code make. *)
Lemma split_all_array v0 v1 :
  (2 <= vn)%nat -> (vn + 1 <= CAPACITY)%nat -> vl !! O = Some v0 -> vl !! 1%nat = Some v1 ->
  exists sl3, memcpy (<[2%nat := v0]> (<[1%nat := v1]> (<[0%nat := (k, x)]> ls))) 3 vl 2 (vn - 2) = Some sl3 /\
    length sl3 = CAPACITY /\ take (S vn) sl3 ≡ₚ (k, x) :: take vn vl /\
    sl3 !! O = Some (k, x) /\ sl3 !! 1%nat = Some v1.
Proof.
  intros Hn Hfits Hv0 Hv1. pose proof Hv as (Hl & HnC & _).
  destruct (memcpy_spec (<[2%nat := v0]> (<[1%nat := v1]> (<[0%nat := (k, x)]> ls))) vl 3 2 (vn - 2))
    as (sl3 & Hm & Hl3 & Ht); [lia|rewrite !length_insert; lia|].
  rewrite !length_insert in Hl3. replace (3 + (vn - 2))%nat with (S vn) in Ht by lia.
  assert (H3 : take 3 (<[2%nat := v0]> (<[1%nat := v1]> (<[0%nat := (k, x)]> ls))) = [(k, x); v1; v0]).
  { destruct ls as [|? [|? [|? ?]]]; [cbn in Hls; lia..|]. done. }
  rewrite H3 in Ht. cbn [app] in Ht.
  assert (Hi : forall i, (i < 3)%nat -> sl3 !! i = [(k, x); v1; v0] !! i).
  { intros i Hi. rewrite <- (lookup_take_lt sl3 (S vn)), Ht by lia.
    destruct i as [|[|[|i]]]; [done..|lia]. }
  exists sl3. split_and!; [done|lia| |by rewrite Hi by lia|by rewrite Hi by lia].
  rewrite Ht, (take_two vl vn v0 v1) by (done || lia). solve_Permutation.
Qed.

Lemma split_insert_holds n0 :
  split_result (split_insert CAPACITY k x (Umfra ls n0) (Umfra vl vn)).
Proof.
  pose proof Hv as (Hl & HnC & Hvp & _).
  unfold split_insert. cbn [uf_list uf_size].
  destruct (lookup_lt_is_Some_2 vl 0) as [v0 Hv0]; [lia|]. step_with Hv0.
  destruct (test_at_spec (0 <? vn)%nat vl 0 (fun k0 => k <? k0)) as (s0 & Hs0 & S0).
  { intros ?%Nat.ltb_lt. lia. } step_with Hs0.
  destruct (test_at_spec ((2 <=? CAPACITY)%nat && (1 <? vn)%nat) vl 1 (fun k1 => k <? k1)) as (s1 & Hs1 & S1).
  { intros [?%Nat.leb_le _]%andb_prop. lia. } step_with Hs1.
  destruct (split_scan_spec vl k (vn - 2) 2 (Nat.b2n s0 + Nat.b2n s1) 0 v0.1) as (pos & key & Hr & Hkey & Hall & Hpos).
  { lia. }
  { intros j e Hj. apply victim_absent. lia. }
  step_with Hr. rewrite (split_count s0 s1 Hs0 Hs1).
  pose proof (holds_length CAPACITY vl vn el Hv) as Hlen.
  pose proof (kv_below_above k el Hsorted Hk) as Happ. apply (f_equal length) in Happ. rewrite length_app in Happ.
  rewrite assert_true by (by apply Nat.leb_le). cbn [mbind option_bind].
  rewrite store_at_spec by lia. cbn [mbind option_bind].
  destruct ((CAPACITY =? 1)%nat || (length (kv_above k el) =? 0)%nat) eqn:Hedge.
  { apply split_none. apply nil_length_inv. apply orb_prop in Hedge as [?%Nat.eqb_eq|?%Nat.eqb_eq]; lia. }
  apply orb_false_elim in Hedge as [HC%Nat.eqb_neq Hsteal%Nat.eqb_neq].
  destruct (Nat.eqb_spec (length (kv_above k el)) vn) as [Heq|Hneq].
  { rewrite Heq. destruct (Nat.eqb_spec vn 1) as [Hvn1|Hvn1].
    - rewrite store_at_spec by (rewrite length_insert; lia). cbn [mbind option_bind].
      apply split_all; rewrite ?length_insert; try done; [lia| | |].
      + rewrite Hvn1. destruct ls as [|? [|? ?]]; [cbn in Hls; lia..|]. cbn [list_insert insert take].
        rewrite (take_one vl 1 v0) by done. done.
      + rewrite list_lookup_insert_ne, list_lookup_insert_eq by lia. done.
      + exists v0. rewrite list_lookup_insert_eq by (rewrite length_insert; lia). split; [done|].
        rewrite Hvn1 in Hv. destruct (holds_one CAPACITY vl el Hv) as (a & Ha & ->).
        rewrite Hv0 in Ha. injection Ha as <-. split; [left|]. by intros e ->%list_elem_of_singleton.
    - destruct (holds_ends CAPACITY vl vn el Hv) as [_ (v1 & Hv1 & Hin & Hmax)]; [lia|]. step_with Hv1.
      rewrite store_at_spec by (rewrite length_insert; lia). cbn [mbind option_bind].
      rewrite store_at_spec by (rewrite !length_insert; lia). cbn [mbind option_bind].
      destruct (split_all_array v0 v1) as (sl3 & Hm & Hl3 & Hp3 & H30 & H31); [lia|lia|done|done|].
      step_with Hm. apply split_all; try done; [lia|]. by exists v1. }
  destruct (holds_ends CAPACITY vl vn el Hv) as [(a & Ha & Hina & Hmin) (v1 & Hv1 & Hin & Hmax)]; [lia..|].
  rewrite Hv0 in Ha. injection Ha as <-.
  assert (H0k : v0.1 < k).
  { pose proof (victim_absent 0 v0 ltac:(lia) Hv0). destruct (Z.lt_ge_cases v0.1 k) as [|Hge]; [done|].
    exfalso. apply Hneq. rewrite kv_above_all; [done|]. intros e He. specialize (Hmin e He). lia. }
  assert (Hk1 : k < v1.1).
  { destruct (kv_above k el) as [|e above] eqn:Ha; [done|].
    assert (He : e ∈ kv_above k el) by (rewrite Ha; left). apply elem_of_kv_above in He as [He Hein].
    specialize (Hmax e Hein). lia. }
  destruct (Z.eqb_spec key v0.1) as [Hkv0|Hkv0].
  - destruct (split_most v0) as [Hst (sl1 & Hm & Hres)]; [lia|done|done| |].
    { intros j e Hj He. destruct (decide (j = 1%nat)) as [->|]; [by rewrite Hv1 in He; injection He as <-|].
      pose proof (victim_absent j e ltac:(lia) He). destruct (Z.lt_ge_cases k e.1) as [|Hge]; [done|].
      pose proof (Hall j e ltac:(lia) He ltac:(lia)).
      pose proof (holds_distinct CAPACITY vl vn el Hv 0 j v0 e ltac:(lia) ltac:(lia) ltac:(lia) Hv0 He).
      specialize (Hmin e (holds_elem CAPACITY vl vn el Hv j e ltac:(lia) He)). lia. }
    rewrite Hst, Hm. cbn [mbind option_bind]. done.
  - destruct Hpos as [[_ ?]|(Hposn & Hgt & Hlt & m & Hm & <-)]; [done|]. step_with Hv1.
    rewrite store_at_spec by (rewrite length_insert; lia). cbn [mbind option_bind].
    step_with Hm. rewrite store_at_spec by lia. cbn [mbind option_bind].
    destruct (split_general v0 v1 pos m) as (vl2 & vl3 & vn3 & sl3 & sn3 & Hf & Hlp & Hres);
      try done; [lia..| |].
    { intros j e Hj. apply Hall. lia. }
    step_with Hf. step_with Hlp. done.
Qed.
End SplitInsert.
End Steal.

(** ** Partitioning with [quickselect_median] *)

Section Halves.
Context (CAPACITY : nat) (nth_element : nth_element_t) (Hnth : nth_element_ok nth_element) {V : Type}.
Implicit Types (k : Z) (x : V) (l vl el : list (Z * V)) (e : Z * V).

Local Abbreviation holds := (holds CAPACITY).

(** What the array is after it: the smaller keys, the median, the greater
    keys, the minimum first and the maximum last. *)
Definition halved l n el : Prop :=
  length l = CAPACITY /\ take n l ≡ₚ el /\ l !! O = head el /\ l !! (n - 1)%nat = last_pair el /\
  exists p, l !! (n / 2)%nat = Some p /\
    (forall j e, (j < n / 2)%nat -> l !! j = Some e -> e.1 < p.1) /\
    (forall j e, (n / 2 < j < n)%nat -> l !! j = Some e -> p.1 < e.1).

(** Distinct keys make the partition strict. *)
Lemma partition_strict l n el p m :
  take n l ≡ₚ el -> kv_sorted el -> (m < n <= length l)%nat -> l !! m = Some p ->
  (forall j e, (j < m)%nat -> l !! j = Some e -> e.1 <= p.1) ->
  (forall j e, (m < j < n)%nat -> l !! j = Some e -> p.1 <= e.1) ->
  (forall j e, (j < m)%nat -> l !! j = Some e -> e.1 < p.1) /\
  (forall j e, (m < j < n)%nat -> l !! j = Some e -> p.1 < e.1).
Proof.
  intros Hp Hs Hm Hpm Hlo Hhi.
  assert (Hd : NoDup (map fst (take n l))).
  { change (distinct (take n l)). eapply distinct_perm; [by symmetry|]. by apply kv_sorted_distinct. }
  assert (Hne : forall j e, (j < n)%nat -> j <> m -> l !! j = Some e -> e.1 <> p.1).
  { intros j e Hj Hjm He Heq. apply Hjm. apply (NoDup_lookup _ j m e.1 Hd).
    - by rewrite list_lookup_fmap, lookup_take_lt, He.
    - by rewrite list_lookup_fmap, lookup_take_lt, Hpm, Heq by lia. }
  split; intros j e Hj He.
  - specialize (Hlo j e Hj He). pose proof (Hne j e ltac:(lia) ltac:(lia) He). lia.
  - specialize (Hhi j e Hj He). pose proof (Hne j e ltac:(lia) ltac:(lia) He). lia.
Qed.

Lemma quickselect_small vl n el :
  holds vl n el -> (1 <= n <= 2)%nat ->
  quickselect_median CAPACITY nth_element (Umfra vl n) = Some (Umfra vl n) /\ halved vl n el.
Proof.
  intros Hh Hn. pose proof Hh as (Hl & HnC & Hp & Hs & Hmin & Hmax). unfold quickselect_median. cbn [uf_size uf_list].
  rewrite (proj2 (Nat.ltb_ge 2 n)), andb_false_r by lia. split; [done|].
  split_and!; [done|done|apply Hmin; lia| |].
  - destruct (decide (n = 1%nat)) as [->|]; [|replace n with 2%nat by lia; apply Hmax; lia].
    destruct (holds_one CAPACITY vl el Hh) as (a & Ha & ->). done.
  - destruct (holds_lookup CAPACITY vl n el Hh (n / 2)) as [p Hpp]; [apply Nat.div_lt; lia|].
    exists p. split; [done|]. destruct (decide (n = 1%nat)) as [->|]; [split; cbn; lia|].
    replace n with 2%nat in * by lia. cbn in Hpp |- *. split; [|lia]. intros j e Hj He.
    replace j with 0%nat in * by lia.
    pose proof (holds_distinct CAPACITY vl 2 el Hh 0 1 e p ltac:(lia) ltac:(lia) ltac:(lia) He Hpp).
    pose proof (holds_min CAPACITY vl 2 el Hh e p ltac:(lia) He (holds_elem CAPACITY vl 2 el Hh 1 p ltac:(lia) Hpp)). lia.
Qed.

Lemma quickselect_large vl n el :
  holds vl n el -> (2 < n)%nat ->
  exists l', quickselect_median CAPACITY nth_element (Umfra vl n) = Some (Umfra l' n) /\ halved l' n el.
Proof.
  intros Hh Hn. pose proof Hh as (Hl & HnC & Hp & Hs & Hmin & Hmax). unfold quickselect_median. cbn [uf_size uf_list].
  rewrite (proj2 (Nat.ltb_lt 2 CAPACITY)), (proj2 (Nat.ltb_lt 2 n)) by lia. cbn [andb].
  destruct (swap_live CAPACITY vl n el 1 (n - 1)) as (l & a & b & Hsw & Hl' & Hp' & Ha & Hb & H1 & Hlast & Hoth); [done|done|done|lia|lia|].
  step_with Hsw.
  assert (Hh2 : (1 <= n / 2 < n - 1)%nat).
  { split; [apply (Nat.div_le_lower_bound n 2 1); lia|]. apply Nat.Div0.div_lt_upper_bound; lia. }
  set (mid := nth_element V (n / 2 - 1)%nat (take (n - 2) (drop 1 l))).
  assert (Hmidp : mid ≡ₚ take (n - 2) (drop 1 l)) by apply Hnth.
  assert (Hmidl : length mid = (n - 2)%nat) by (rewrite Hmidp, length_take, length_drop; lia).
  destruct (ne_pivot nth_element Hnth V (n / 2 - 1) (take (n - 2) (drop 1 l))) as (lo & p & hi & Hmid & Hlo & Hlop & Hhip).
  { rewrite length_take, length_drop. lia. }
  fold mid in Hmid.
  destruct (lookup_lt_is_Some_2 l 0) as [c Hc]; [lia|].
  assert (Hdl : drop (n - 1) l = a :: drop n l).
  { rewrite (drop_S l a (n - 1)) by done. do 2 f_equal. lia. }
  assert (Ht1 : take 1 l = [c]) by (rewrite (take_one l 1 c) by done; done).
  rewrite Ht1, Hdl. set (l' := [c] ++ mid ++ a :: drop n l).
  assert (Htn : take n l' = c :: mid ++ [a]).
  { unfold l'. rewrite (cons_middle a mid (drop n l)), !app_assoc, take_app_length'; [done|].
    rewrite !length_app, Hmidl. cbn. lia. }
  assert (Hperm : take n l' ≡ₚ take n l).
  { rewrite Htn, Hmidp, (take_one l n c) by (done || lia).
    replace (n - 1)%nat with (S (n - 2)) by lia.
    rewrite (take_last (drop 1 l) (n - 2) a); [done|]. rewrite lookup_drop, <- Hlast. f_equal. lia. }
  exists l'. split; [done|].
  assert (Hlen' : length l' = length l) by (unfold l'; rewrite !length_app; cbn; rewrite length_drop, Hmidl; lia).
  assert (Hi : forall i, (i < n)%nat -> l' !! i = (c :: (lo ++ p :: hi) ++ [a]) !! i).
  { intros i Hi. rewrite <- Hmid, <- Htn. symmetry. by apply lookup_take_lt. }
  assert (Hmidi : forall j, (1 <= j < n - 1)%nat -> l' !! j = (lo ++ p :: hi) !! (j - 1)%nat).
  { intros j Hj. rewrite Hi, lookup_cons_ne_0, lookup_app_l by (rewrite <- ?Hmid; lia). f_equal. lia. }
  assert (H0 : l' !! 0%nat = Some c) by (by rewrite Hi by lia).
  assert (Hn1 : l' !! (n - 1)%nat = Some a).
  { rewrite Hi, lookup_cons_ne_0, lookup_app_r by (rewrite <- ?Hmid; lia). rewrite <- Hmid, Hmidl.
    replace (Nat.pred (n - 1) - (n - 2))%nat with 0%nat by lia. done. }
  assert (Hpp : l' !! (n / 2)%nat = Some p).
  { rewrite Hmidi, lookup_app_r, Hlo, Nat.sub_diag by lia. done. }
  rewrite Hoth in Hc by lia.
  assert (Hin : p ∈ el) by (rewrite <- Hp', <- Hperm; apply elem_of_take_index; eexists; split; [|done]; lia).
  split_and!; [lia|by rewrite Hperm|by rewrite H0, <- Hmin by lia|by rewrite Hn1, <- Hmax by lia|].
  exists p. split; [done|]. apply (partition_strict l' n el); [by rewrite Hperm|done|lia|done|..].
  - intros j e Hj He. destruct (decide (j = 0%nat)) as [->|].
    + rewrite H0 in He. injection He as <-. by apply (holds_min CAPACITY vl n el Hh); [lia|..].
    + rewrite Hmidi, lookup_app_l in He by lia. apply Hlop. by eapply list_elem_of_lookup_2.
  - intros j e Hj He. destruct (decide (j = n - 1)%nat) as [->|].
    + rewrite Hn1 in He. injection He as <-. by apply (holds_max CAPACITY vl n el Hh); [lia|..].
    + rewrite Hmidi, lookup_app_r, lookup_cons_ne_0 in He by lia. apply Hhip. by eapply list_elem_of_lookup_2.
Qed.

Lemma quickselect_holds vl n el :
  holds vl n el -> (1 <= n)%nat ->
  exists l', quickselect_median CAPACITY nth_element (Umfra vl n) = Some (Umfra l' n) /\ halved l' n el.
Proof.
  intros Hh Hn. destruct (decide (2 < n)%nat) as [H2|H2]; [by apply quickselect_large|].
  exists vl. apply quickselect_small; [done|lia].
Qed.

(** Where the cut falls in the sorted content. *)
Lemma halved_cut l n el m :
  halved l n el -> kv_sorted el -> (n <= CAPACITY)%nat -> (m = n / 2 \/ m = n / 2 + 1)%nat -> (m <= n)%nat ->
  take m l ≡ₚ take m el /\ take (n - m) (drop m l) ≡ₚ drop m el.
Proof.
  intros (Hl & Hp & _ & _ & p & Hpp & Hlo & Hhi) Hs HnC Hm Hmn.
  assert (Hlm : length (take m l) = m) by (rewrite length_take; lia).
  rewrite <- Hlm at 2 5. apply cut_in_order; [done|..].
  - rewrite <- Hp. rewrite <- (take_drop m (take n l)), take_take, skipn_firstn_comm. by rewrite Nat.min_l by lia.
  - intros a b (i & Hi & Ha)%elem_of_take_index (j & Hj & Hb)%elem_of_take_index. rewrite lookup_drop in Hb.
    destruct (decide (i = n / 2)%nat) as [->|Hin].
    + rewrite Hpp in Ha. injection Ha as <-. apply (Hhi (m + j)%nat); [lia|done].
    + specialize (Hlo i a ltac:(lia) Ha). destruct (decide (m + j = n / 2)%nat) as [Hmj|].
      * rewrite Hmj, Hpp in Hb. injection Hb as <-. done.
      * specialize (Hhi (m + j)%nat b ltac:(lia) Hb). lia.
Qed.

Lemma halved_mid l n el p : halved l n el -> kv_sorted el -> (1 <= n <= CAPACITY)%nat ->
  l !! (n / 2)%nat = Some p ->
  el !! (n / 2)%nat = Some p.
Proof.
  intros Hh Hs HnC Hpp. assert (n / 2 < n)%nat by (apply Nat.div_lt; lia).
  destruct (halved_cut l n el (n / 2) Hh Hs) as [_ Hd]; [lia|by left|lia|].
  destruct Hh as (Hl & Hp & _ & _ & p' & Hpp' & _ & Hhi). rewrite Hpp in Hpp'. injection Hpp' as <-.
  rewrite <- (Nat.add_0_r (n / 2)), <- lookup_drop. rewrite <- head_lookup. apply kv_head_min; [by apply kv_sorted_drop|..].
  - rewrite <- Hd. apply elem_of_take_index. exists 0%nat. rewrite lookup_drop, Nat.add_0_r. split; [lia|done].
  - intros a. rewrite <- Hd. intros (j & Hj & Ha)%elem_of_take_index. rewrite lookup_drop in Ha.
    destruct (decide (j = 0%nat)) as [->|].
    + rewrite Nat.add_0_r, Hpp in Ha. injection Ha as <-. lia.
    + specialize (Hhi (n / 2 + j)%nat a ltac:(lia) Ha). lia.
Qed.

(** The arrays after the copy and the two restorations. *)
Lemma restored_holds l n el :
  length l = CAPACITY -> (n <= CAPACITY)%nat -> take n l ≡ₚ el -> kv_sorted el ->
  ((1 <= n)%nat -> l !! O = head el) -> ((2 <= n)%nat -> l !! (n - 1)%nat = last_pair el) ->
  exists l', restore_invariant CAPACITY (Umfra l n) = Some (Umfra l' n) /\ holds l' n el.
Proof.
  intros Hl Hn Hp Hs Hhead Hlast.
  destruct (restore_invariant_spec CAPACITY l n el) as (l' & Hr & Hl' & Hp' & H0 & H1); try done.
  exists l'. split; [done|]. split_and!; try done. intros. rewrite H0. auto.
Qed.

Lemma copied_upper ls l' n el m :
  length ls = CAPACITY -> halved l' n el -> kv_sorted el -> (1 <= n <= CAPACITY)%nat ->
  (m = n / 2 \/ m = n / 2 + 1)%nat -> (m <= n)%nat ->
  exists l, memcpy ls 0 l' m (n - m) = Some l /\ length l = CAPACITY /\ take (n - m) l ≡ₚ drop m el /\
    (forall i, (i < n - m)%nat -> l !! i = l' !! (m + i)%nat) /\
    ((1 <= n - m)%nat -> l !! (n - m - 1)%nat = last_pair (drop m el)).
Proof.
  intros Hls Hh Hs Hn Hm Hmn. destruct (halved_cut l' n el m Hh Hs) as [_ Hd]; [lia|done|done|].
  destruct Hh as (Hl & Hp & _ & Hlast & _).
  destruct (memcpy_spec ls l' 0 m (n - m)) as (l & Hmc & Hll & Ht); [lia|lia|].
  rewrite take_0 in Ht. cbn [app Nat.add] in Ht.
  assert (Hi : forall i, (i < n - m)%nat -> l !! i = l' !! (m + i)%nat).
  { intros i Hi. rewrite <- (lookup_take_lt l (n - m)), Ht, lookup_take_lt by lia. apply lookup_drop. }
  exists l. split_and!; [done|lia|by rewrite Ht|done|]. intros H1.
  rewrite Hi by lia. replace (m + (n - m - 1))%nat with (n - 1)%nat by lia. rewrite Hlast.
  assert (Hel : length el = n) by (rewrite <- Hp, length_take; lia).
  rewrite !last_lookup, length_drop, Hel, lookup_drop. f_equal. lia.
Qed.

Lemma steal_half_holds ls n0 vl n el :
  length ls = CAPACITY -> holds vl n el ->
  exists sl vl', steal_half CAPACITY nth_element (Umfra ls n0) (Umfra vl n)
      = Some (Umfra sl (n - n / 2), Umfra vl' (n / 2)) /\
    holds sl (n - n / 2) (drop (n / 2) el) /\ holds vl' (n / 2) (take (n / 2) el).
Proof.
  intros Hls Hv. pose proof Hv as (Hl & HnC & _ & Hs & _). unfold steal_half.
  destruct (decide (n = 0%nat)) as [->|Hn0].
  { unfold quickselect_median. cbn [uf_size uf_list]. rewrite andb_false_r. cbn [mbind option_bind uf_size uf_list].
    destruct (memcpy_spec ls vl 0 0 0) as (l & Hm & Hll & _); [lia|lia|]. change (0 / 2)%nat with 0%nat.
    change (0 - 0)%nat with 0%nat. step_with Hm. unfold restore_invariant, find_new_max. cbn [uf_size uf_list].
    rewrite andb_false_r, orb_true_r. cbn. exists l, vl. split; [done|].
    pose proof (holds_length CAPACITY vl 0 el Hv) as He. destruct el; [|done]. split; [|done].
    apply (holds_small CAPACITY l 0 []); try done; [lia|lia|left; lia]. }
  destruct (quickselect_holds vl n el Hv) as (l' & Hq & Hh); [lia|]. step_with Hq. cbn [uf_size uf_list].
  assert (Hdiv : (n / 2 < n)%nat) by (apply Nat.div_lt; lia).
  destruct (copied_upper ls l' n el (n / 2)) as (l & Hmc & Hll & Hp & Hi & Hlast); try done; [lia|by left|lia|].
  step_with Hmc. destruct (halved_cut l' n el (n / 2) Hh Hs) as [Ht _]; [lia|by left|lia|].
  pose proof Hh as (Hl' & Hp' & H0 & _ & p & Hpp & _).
  destruct (restored_holds l (n - n / 2) (drop (n / 2) el)) as (sl & Hr & Hsl); try done; [lia|by apply kv_sorted_drop| | |].
  { intros _. rewrite Hi, Nat.add_0_r, Hpp, head_lookup, lookup_drop, Nat.add_0_r by lia. symmetry.
    eapply halved_mid; try done. lia. }
  { intros _. apply Hlast. lia. }
  step_with Hr.
  destruct (find_new_max_spec CAPACITY l' (n / 2) (take (n / 2) el)) as (vl' & Hf & Hvl'); try done; [lia|by apply kv_sorted_take| |].
  { intros H1. rewrite H0, !head_lookup, lookup_take_lt by lia. done. }
  step_with Hf. by exists sl, vl'.
Qed.

Lemma steal_half_and_insert_holds ls n0 vl n el k x :
  length ls = CAPACITY -> holds vl n el -> kv_lookup k el = None -> el <> [] ->
  exists sl sn lo hi vl' vn', steal_half_and_insert CAPACITY nth_element k x (Umfra ls n0) (Umfra vl n)
      = Some (Umfra sl sn, Umfra vl' vn') /\
    holds sl sn hi /\ holds vl' vn' lo /\ lo ++ hi = kv_insert k x el /\ sn = (S n / 2)%nat.
Proof.
  intros Hls Hv Hk Hne. pose proof Hv as (Hl & HnC & Hvp & Hs & _).
  pose proof (holds_length CAPACITY vl n el Hv) as Hlen.
  assert (Hn0 : n <> 0%nat) by (intros ->; by apply Hne, nil_length_inv).
  unfold steal_half_and_insert.
  destruct (quickselect_holds vl n el Hv) as (l' & Hq & Hh); [lia|]. step_with Hq. cbn [uf_size uf_list].
  assert (Hdiv : (n / 2 < n)%nat) by (apply Nat.div_lt; lia).
  assert (Hhalf : (S n / 2 = n - n / 2)%nat).
  { pose proof (Nat.div_mod_eq n 2). pose proof (Nat.mod_upper_bound n 2 ltac:(lia)).
    symmetry. apply (Nat.div_unique (S n) 2 _ (1 - n mod 2)); lia. }
  pose proof Hh as (Hl' & Hp' & H0 & _ & p & Hpp & Hlo & Hhi). step_with Hpp.
  pose proof (halved_mid l' n el p Hh Hs ltac:(lia) Hpp) as Hep.
  destruct (Z.ltb_spec k p.1) as [Hkp|Hkp].
  - rewrite (assert_true (n / 2 <=? n)%nat) by (apply Nat.leb_le; lia). cbn [mbind option_bind].
    destruct (copied_upper ls l' n el (n / 2)) as (l & Hmc & Hll & Hp & Hi & Hlast); try done; [lia|by left|lia|].
    step_with Hmc. destruct (halved_cut l' n el (n / 2) Hh Hs) as [Ht _]; [lia|by left|lia|].
    destruct (restored_holds l (n - n / 2) (drop (n / 2) el)) as (sl & Hr & Hsl); try done; [lia|by apply kv_sorted_drop| | |].
    { intros _. rewrite Hi, Nat.add_0_r, Hpp, head_lookup, lookup_drop, Nat.add_0_r by lia. done. }
    { intros _. apply Hlast. lia. }
    step_with Hr.
    destruct (find_new_max_spec CAPACITY l' (n / 2) (take (n / 2) el)) as (vl' & Hf & Hvl'); try done; [lia|by apply kv_sorted_take| |].
    { intros H1. rewrite H0, !head_lookup, lookup_take_lt by lia. done. }
    step_with Hf.
    assert (Hk' : kv_lookup k (take (n / 2) el) = None).
    { rewrite kv_lookup_None in Hk |- *. intros e He. apply Hk. eapply elem_of_take_index in He as (i & _ & He).
      by eapply list_elem_of_lookup_2. }
    destruct (insert_room_holds CAPACITY vl' (n / 2) _ k x false Hvl' Hk') as (vl2 & Hins & Hvl2); [lia|].
    unfold insert_assert. step_with Hins. cbn [negb assert_ mbind option_bind].
    eexists sl, _, _, _, vl2, _. split_and!; [done|done|done| |lia].
    rewrite <- kv_insert_app_l, take_drop; [done|]. intros e [i Hie]%list_elem_of_lookup. rewrite lookup_drop in Hie.
    pose proof (kv_sorted_lookup_le el (n / 2) (n / 2 + i) p e Hs Hep Hie ltac:(lia)). lia.
  - assert (Hkp' : p.1 < k).
    { pose proof (proj1 (kv_lookup_None k el) Hk p ltac:(by eapply list_elem_of_lookup_2)). lia. }
    rewrite (assert_true (n / 2 + 1 <=? n)%nat) by (apply Nat.leb_le; lia). cbn [mbind option_bind].
    destruct (copied_upper ls l' n el (n / 2 + 1)) as (l & Hmc & Hll & Hp & Hi & Hlast); try done; [lia|by right|lia|].
    step_with Hmc. destruct (halved_cut l' n el (n / 2 + 1) Hh Hs) as [Ht _]; [lia|by right|lia|].
    destruct (restore_invariant_spec CAPACITY l (n - (n / 2 + 1)) (drop (n / 2 + 1) el)) as (sl & Hr & Hsl & Hslp & _ & Hsl1);
      try done; [lia|by apply kv_sorted_drop|intros; apply Hlast; lia|].
    step_with Hr.
    destruct (restored_holds l' (n / 2 + 1) (take (n / 2 + 1) el)) as (vl' & Hr' & Hvl'); try done; [lia|by apply kv_sorted_take| | |].
    { intros _. rewrite H0, !head_lookup, lookup_take_lt by lia. done. }
    { intros _. rewrite Nat.add_sub, Hpp, last_lookup, length_take, Hlen, lookup_take_lt by lia.
      rewrite <- Hep. f_equal. lia. }
    step_with Hr'.
    destruct (find_new_min_spec CAPACITY sl (n - (n / 2 + 1)) (drop (n / 2 + 1) el)) as (sl2 & Hf & Hsl2); try done; [lia|by apply kv_sorted_drop|].
    step_with Hf.
    assert (Hk' : kv_lookup k (drop (n / 2 + 1) el) = None).
    { rewrite kv_lookup_None in Hk |- *. intros e [i He]%list_elem_of_lookup. apply Hk. rewrite lookup_drop in He.
      by eapply list_elem_of_lookup_2. }
    destruct (insert_room_holds CAPACITY sl2 (n - (n / 2 + 1)) _ k x false Hsl2 Hk') as (sl3 & Hins & Hsl3); [lia|].
    unfold insert_assert. step_with Hins. cbn [negb assert_ mbind option_bind].
    eexists sl3, _, _, _, vl', _. split_and!; [done|done|done| |lia].
    rewrite <- kv_insert_app_r, take_drop; [done|]. intros e (i & Hi' & Hie)%elem_of_take_index.
    pose proof (kv_sorted_lookup_le el i (n / 2) e p Hs Hie Hep ltac:(lia)). lia.
Qed.
End Halves.
