(* ===== verification/Umfra.v ===== *)
(** * Umfra: the unsorted vector's queries and iteration, and its contract

    The searches and the sorting of vector_umfra.h, the instances of the
    vector interface, and the theorems of the class. *)

From S2P Require Import Prelude KvList VecSpec ArrayOps VectorUmfra UmfraSpec UmfraSteal.

Local Open Scope Z_scope.

Section Queries.
Context (CAPACITY : nat) {V : Type}.
Implicit Types (k : Z) (x : V) (l el : list (Z * V)) (e : Z * V).

Local Abbreviation holds := (holds CAPACITY).

Lemma contains_holds l n el k :
  holds l n el -> contains k (Umfra l n) = Some (kv_lookup k el).
Proof.
  intros Hh. destruct (find_holds CAPACITY l n el k Hh) as (r & Hr & Hspec).
  unfold contains. step_with Hr. destruct r as [p|]; [|by rewrite Hspec].
  destruct Hspec as (_ & x & Hx & Hk). cbn [uf_list]. step_with Hx. by rewrite Hk.
Qed.

Lemma first_holds l n el k : holds l n el -> kv_first el = Some k -> first (Umfra l n) = Some k.
Proof.
  intros Hh Hk. pose proof (holds_length CAPACITY l n el Hh) as Hl.
  destruct Hh as (_ & _ & _ & _ & H0 & _). unfold first. cbn [uf_list].
  destruct el as [|a el]; [done|]. rewrite H0 by (cbn in Hl; lia). done.
Qed.

Lemma last_holds l n el : holds l n el -> last (Umfra l n) = Some (kv_last el).
Proof.
  intros Hh. pose proof (holds_length CAPACITY l n el Hh) as Hl. unfold last. cbn [uf_list uf_size].
  destruct (Nat.leb_spec 2 n).
  - destruct (holds_lookup CAPACITY l n el Hh 1) as [b Hb]; [lia|]. step_with Hb.
    destruct Hh as (_ & _ & _ & _ & _ & H1). unfold kv_last. by rewrite <- H1, Hb by lia.
  - destruct (Nat.eqb_spec n 1) as [->|].
    + destruct (holds_one CAPACITY l el Hh) as (a & Ha & ->). by step_with Ha.
    + destruct el; [done|cbn in Hl; lia].
Qed.

Lemma max_key_holds l n el k : holds l n el -> kv_last el = Some k -> max_key (Umfra l n) = Some k.
Proof.
  intros Hh Hk. pose proof (holds_length CAPACITY l n el Hh) as Hl.
  pose proof (last_holds l n el Hh) as Hlast. unfold last in Hlast. unfold max_key. cbn [uf_list uf_size] in *.
  rewrite Hk in Hlast. destruct (Nat.eqb_spec n 0) as [->|]; [by destruct el|].
  destruct (Nat.eqb_spec n 1) as [->|].
  - cbn in Hlast. destruct (l !! 0%nat); [|done]. cbn in *. congruence.
  - rewrite (proj2 (Nat.leb_le 2 n)) in Hlast by lia. destruct (l !! 1%nat); [|done]. cbn in *. congruence.
Qed.

(** ** [find_lte] *)

Lemma lte_first_spec l k n : forall i, (i + n <= length l)%nat ->
  exists j r, lte_first l k i n = Some (j, r) /\ (i <= j <= i + n)%nat /\
    (forall m e, (i <= m < j)%nat -> l !! m = Some e -> k < e.1) /\
    match r with
    | Some key => (j < i + n)%nat /\ exists e, l !! j = Some e /\ e.1 = key /\ key <= k
    | None => j = (i + n)%nat
    end.
Proof.
  induction n as [|n IH]; intros i Hi; cbn [lte_first].
  { exists i, None. split_and!; [done|lia..]. }
  destruct (lookup_lt_is_Some_2 l i) as [e He]; [lia|]. step_with He.
  destruct (Z.leb_spec e.1 k) as [Hle|Hgt].
  - exists i, (Some e.1). split_and!; [done|lia|lia|lia|lia|eauto].
  - destruct (IH (S i)) as (j & r & Hr & Hj & Hall & Hres); [lia|]. exists j, r.
    split_and!; [done|lia|lia| |].
    + intros m a Hm Ha. destruct (decide (m = i)) as [->|]; [congruence|]. apply (Hall m); [lia|done].
    + destruct r; [|lia]. destruct Hres as [? ?]. split; [lia|done].
Qed.

Lemma lte_rest_spec l k n : forall i pos e, (i + n <= length l)%nat -> l !! pos = Some e -> e.1 <= k ->
  exists pos' e', lte_rest l k i n pos e.1 = Some (pos', e'.1) /\ l !! pos' = Some e' /\
    (pos' = pos \/ (i <= pos' < i + n)%nat) /\ e'.1 <= k /\ e.1 <= e'.1 /\
    forall m a, (i <= m < i + n)%nat -> l !! m = Some a -> a.1 <= k -> a.1 <= e'.1.
Proof.
  induction n as [|n IH]; intros i pos e Hi He Hek; cbn [lte_rest].
  { exists pos, e. split_and!; try done; [by left|lia..]. }
  destruct (lookup_lt_is_Some_2 l i) as [a Ha]; [lia|]. step_with Ha.
  destruct ((e.1 <? a.1) && (a.1 <=? k)) eqn:Hb.
  - apply andb_prop in Hb as [Hlt%Z.ltb_lt Hle%Z.leb_le].
    destruct (IH (S i) i a) as (pos' & e' & Hr & He' & Hpos & Hk' & Hle' & Hall); [lia|done|done|].
    exists pos', e'. split_and!; try done; [right; lia|lia|].
    intros m b Hm Hmb. destruct (decide (m = i)) as [->|]; [intros _; congruence|]. apply (Hall m); [lia|done].
  - destruct (IH (S i) pos e) as (pos' & e' & Hr & He' & Hpos & Hk' & Hle' & Hall); [lia|done|done|].
    exists pos', e'. split_and!; try done; [destruct Hpos; [by left|right; lia]|].
    intros m b Hm Hmb Hbk. destruct (decide (m = i)) as [->|]; [|apply (Hall m); [lia|done..]].
    rewrite Ha in Hmb. injection Hmb as <-.
    apply andb_false_iff in Hb as [Hge%Z.ltb_ge|Hgt%Z.leb_gt]; lia.
Qed.

Lemma find_lte_holds l n el k : holds l n el -> find_lte CAPACITY k (Umfra l n) = Some (kv_lte k el).
Proof.
  intros Hh. pose proof Hh as (Hl & HnC & Hp & Hs & _). unfold find_lte. cbn [uf_list uf_size].
  destruct (lte_first_spec l k n 0) as (j & r & Hr & Hj & Hbefore & Hres); [lia|]. step_with Hr.
  destruct r as [key|].
  - destruct Hres as (Hjn & e & He & <- & Hek).
    destruct (lte_rest_spec l k (n - j) j j e) as (pos & e' & Hr' & He' & Hpos & Hk' & Hle & Hall); [lia|done|done|].
    step_with Hr'. rewrite (proj2 (Nat.ltb_lt pos CAPACITY)) by lia. step_with He'.
    rewrite <- surjective_pairing. do 2 f_equal. unfold kv_lte. symmetry.
    apply kv_last_max; [by apply kv_sorted_filter|apply elem_of_kv_upto; split; [done|]|].
    + apply (holds_elem CAPACITY l n el Hh pos); [lia|done].
    + intros a [Hak (m & Hm & Ha)%(holds_index CAPACITY l n el Hh)]%elem_of_kv_upto.
      destruct (decide (m < j)%nat); [specialize (Hbefore m a ltac:(lia) Ha); lia|].
      apply (Hall m); [lia|done..].
  - f_equal. symmetry. apply kv_lte_None. intros e (m & Hm & He)%(holds_index CAPACITY l n el Hh).
    apply (Hbefore m); [lia|done].
Qed.

(** ** [sort] and [at] *)

(** The live prefix between the ends. *)
Lemma holds_ordered l n el :
  holds l n el -> (2 <= n)%nat -> kv_sorted (drop 2 (take n l)) ->
  exists a b, l !! O = Some a /\ l !! 1%nat = Some b /\ el = a :: drop 2 (take n l) ++ [b].
Proof.
  intros Hh Hn Hmid. destruct (holds_ends CAPACITY l n el Hh) as [(a & Ha & Hina & Hmin) (b & Hb & Hinb & Hmax)]; [lia..|].
  pose proof Hh as (Hl & HnC & Hp & Hs & _). exists a, b. split_and!; [done|done|].
  assert (Hin : forall i e, (2 <= i < n)%nat -> l !! i = Some e -> a.1 < e.1 < b.1).
  { intros i e Hi He. pose proof (holds_elem CAPACITY l n el Hh i e ltac:(lia) He) as Hel.
    pose proof (holds_distinct CAPACITY l n el Hh 0 i a e ltac:(lia) ltac:(lia) ltac:(lia) Ha He).
    pose proof (holds_distinct CAPACITY l n el Hh 1 i b e ltac:(lia) ltac:(lia) ltac:(lia) Hb He).
    specialize (Hmin e Hel). specialize (Hmax e Hel). lia. }
  assert (Hab : a.1 < b.1).
  { pose proof (holds_distinct CAPACITY l n el Hh 0 1 a b ltac:(lia) ltac:(lia) ltac:(lia) Ha Hb).
    specialize (Hmin b Hinb). lia. }
  assert (Hmid' : forall e, e ∈ drop 2 (take n l) -> a.1 < e.1 < b.1).
  { intros e [i Hi]%list_elem_of_lookup. rewrite lookup_drop in Hi. apply lookup_take_Some in Hi as [Hi Hlt].
    apply (Hin (2 + i)%nat); [lia|done]. }
  assert (Hd : drop 2 (take n l) = take (n - 2) (drop 2 l)).
  { rewrite skipn_firstn_comm. done. }
  symmetry. apply kv_sorted_unique; [|done|].
  - apply kv_sorted_cons. split.
    + apply Forall_forall. intros e [He|He%list_elem_of_singleton]%elem_of_app; [|by subst].
      specialize (Hmid' e He). unfold kv_lt. lia.
    + apply kv_sorted_app. split_and!; [|done|apply kv_sorted_single].
      intros e c He Hc%list_elem_of_singleton. subst c. specialize (Hmid' e He). lia.
  - rewrite Hd, <- Hp, (take_two l n a b) by (done || lia). solve_Permutation.
Qed.

Lemma sort_holds l n el :
  holds l n el ->
  exists l', sort CAPACITY (Umfra l n) = Umfra l' n /\ holds l' n el /\ kv_sorted (drop 2 (take n l')).
Proof.
  intros Hh. pose proof Hh as (Hl & HnC & Hp & Hs & H0 & H1). unfold sort. cbn [uf_list uf_size].
  assert (Hd : distinct (drop 2 (take n l))).
  { assert (Hdt : distinct (take n l)) by (eapply distinct_perm; [by symmetry|by apply kv_sorted_distinct]).
    rewrite <- (take_drop 2 (take n l)) in Hdt. by apply distinct_app in Hdt as (_ & ? & _). }
  destruct (decide (3 < n)%nat) as [H3|H3].
  - rewrite (proj2 (Nat.ltb_lt 3 CAPACITY)), (proj2 (Nat.ltb_lt 3 n)) by lia. cbn [andb].
    eexists. split; [done|]. set (mid := kv_sort (drop 2 (take n l))).
    assert (Hmp : mid ≡ₚ drop 2 (take n l)) by apply kv_sort_perm.
    assert (Hml : length mid = (n - 2)%nat) by (rewrite Hmp, length_drop, length_take; lia).
    assert (Ht : take n (take 2 l ++ mid ++ drop n l) = take 2 l ++ mid).
    { rewrite app_assoc. apply take_app_length'. rewrite length_app, length_take. lia. }
    assert (Hi : forall i, (i < 2)%nat -> (take 2 l ++ mid ++ drop n l) !! i = l !! i).
    { intros i Hi. rewrite lookup_app_l by (rewrite length_take; lia). by apply lookup_take_lt. }
    split; [split_and!|].
    + rewrite !length_app, length_take, length_drop. lia.
    + done.
    + rewrite Ht, Hmp. rewrite <- Hp. rewrite <- (take_drop 2 (take n l)) at 2. by rewrite take_take, Nat.min_l by lia.
    + done.
    + intros. rewrite Hi by lia. auto.
    + intros. rewrite Hi by lia. auto.
    + rewrite Ht, drop_app_length' by (rewrite length_take; lia). by apply kv_sort_sorted.
  - rewrite (proj2 (Nat.ltb_ge 3 n)), andb_false_r by lia. exists l. split_and!; [done..|].
    assert (Hlen : (length (drop 2 (take n l)) <= 1)%nat) by (rewrite length_drop, length_take; lia).
    destruct (drop 2 (take n l)) as [|a [|? ?]]; [apply kv_sorted_nil|apply kv_sorted_single|cbn in Hlen; lia].
Qed.

Lemma at_holds l n el i e :
  holds l n el -> el !! i = Some e -> at_ i (sort CAPACITY (Umfra l n)) = Some e.1.
Proof.
  intros Hh He. destruct (sort_holds l n el Hh) as (l' & -> & Hh' & Hmid).
  pose proof (holds_length CAPACITY l n el Hh) as Hlen. pose proof (lookup_lt_Some _ _ _ He) as Hi.
  unfold at_. cbn [uf_list uf_size]. rewrite (assert_true (i <? n)%nat) by (apply Nat.ltb_lt; lia).
  cbn [mbind option_bind]. destruct (decide (n = 1%nat)) as [->|Hn].
  { destruct (holds_one CAPACITY l' el Hh') as (a & Ha & ->). destruct i; [|lia]. injection He as <-. cbn [Nat.eqb]. by step_with Ha. }
  destruct (holds_ordered l' n el Hh') as (a & b & Ha & Hb & Hel); [lia|done|].
  pose proof Hh' as (Hl' & HnC & _).
  assert (Hml : length (drop 2 (take n l')) = (n - 2)%nat) by (rewrite length_drop, length_take; lia).
  rewrite Hel in He. destruct i as [|i]; [injection He as <-; cbn [Nat.eqb]; by step_with Ha|].
  rewrite (proj2 (Nat.eqb_neq (S i) 0)) by done.
  rewrite lookup_cons_ne_0 in He by done. cbn [Nat.pred] in He.
  destruct (Nat.eqb_spec (S i) (n - 1)) as [Hin|Hin].
  - rewrite lookup_app_r in He by lia. replace (i - _)%nat with 0%nat in He by lia. injection He as <-. by step_with Hb.
  - rewrite lookup_app_l, lookup_drop, lookup_take_lt in He by lia. replace (S i + 1)%nat with (2 + i)%nat by lia.
    by step_with He.
Qed.

(** ** [verify] *)

Lemma dup_inner_spec l key n : forall j, (j + n <= length l)%nat ->
  (forall i e, (j <= i < j + n)%nat -> l !! i = Some e -> key <> e.1) -> dup_inner l key j n = Some false.
Proof.
  induction n as [|n IH]; intros j Hj Hne; cbn [dup_inner]; [done|].
  destruct (lookup_lt_is_Some_2 l j) as [e He]; [lia|]. step_with He.
  rewrite (proj2 (Z.eqb_neq key e.1)) by (apply (Hne j); [lia|done]).
  apply IH; [lia|]. intros i a Hi. apply Hne. lia.
Qed.

Lemma dup_loop_spec l m n : forall i, (i + n = m)%nat -> (m <= length l)%nat -> distinct (take m l) ->
  dup_loop l i n = Some false.
Proof.
  induction n as [|n IH]; intros i Hi Hm Hd; cbn [dup_loop]; [done|].
  destruct (lookup_lt_is_Some_2 l i) as [e He]; [lia|]. step_with He.
  rewrite (dup_inner_spec l e.1 i 0); [|lia|].
  - cbn [mbind option_bind]. apply IH; [lia|done..].
  - intros j a Hj Ha Heq. assert (j = i); [|lia]. apply (NoDup_lookup _ j i e.1 Hd).
    + by rewrite list_lookup_fmap, lookup_take_lt, Ha, Heq by lia.
    + by rewrite list_lookup_fmap, lookup_take_lt, He by lia.
Qed.

Lemma between_loop_spec l lo hi n : forall i, (i + n <= length l)%nat ->
  (forall j e, (i <= j < i + n)%nat -> l !! j = Some e -> lo <= e.1 <= hi) ->
  between_loop l lo hi i n = Some true.
Proof.
  induction n as [|n IH]; intros i Hi Hall; cbn [between_loop]; [done|].
  destruct (lookup_lt_is_Some_2 l i) as [e He]; [lia|]. step_with He.
  specialize (Hall i e ltac:(lia) He) as He'.
  rewrite (proj2 (Z.ltb_ge e.1 lo)), (proj2 (Z.ltb_ge hi e.1)) by lia. cbn [orb].
  apply IH; [lia|]. intros j a Hj. apply Hall. lia.
Qed.

Lemma verify_holds l n el : holds l n el -> verify CAPACITY (Umfra l n) = Some true.
Proof.
  intros Hh. pose proof Hh as (Hl & HnC & Hp & Hs & _). unfold verify. cbn [uf_list uf_size].
  rewrite (proj2 (Nat.ltb_ge CAPACITY n)) by lia. destruct (CAPACITY =? 1)%nat; [done|].
  assert (Hdup : dup_loop l 1 (n - 1) = Some false).
  { destruct (decide (n = 0%nat)) as [->|]; [done|]. apply (dup_loop_spec l n); [lia|lia|].
    eapply distinct_perm; [by symmetry|by apply kv_sorted_distinct]. }
  step_with Hdup. destruct (Nat.leb_spec 2 n); [|done].
  destruct (holds_ends CAPACITY l n el Hh) as [(a & Ha & Hina & Hmin) (b & Hb & Hinb & Hmax)]; [lia..|].
  step_with Ha. step_with Hb. specialize (Hmin b Hinb) as Hab. rewrite (proj2 (Z.ltb_ge b.1 a.1)) by done.
  apply between_loop_spec; [lia|]. intros j e Hj He.
  pose proof (holds_elem CAPACITY l n el Hh j e ltac:(lia) He). auto.
Qed.

(** ** [for_each] *)

Section Iteration.
Context {St : Type} (f : Z -> V -> bool -> St -> V * bool * St).

Lemma iterate_loop_spec pre l post b s :
  iterate_loop f (pre ++ l ++ post) (length pre) (length l) b s =
  let '(l', b', s') := visit f l b s in Some (pre ++ l' ++ post, b', s').
Proof.
  revert pre b s. induction l as [|e l IH]; intros pre b s; [done|].
  cbn [iterate_loop visit length app]. destruct b; [done|]. unfold iterate_element.
  rewrite list_lookup_middle by done. cbn [mbind option_bind].
  destruct (f e.1 e.2 false s) as [[x b'] s'].
  rewrite store_at_spec by (rewrite length_app; cbn; lia). cbn [mbind option_bind].
  rewrite insert_app_r_alt, Nat.sub_diag by done. cbn [app list_insert].
  specialize (IH (pre ++ [(e.1, x)]) b' s').
  rewrite length_app, <- app_assoc in IH. cbn in IH. rewrite Nat.add_1_r in IH.
  cbn. rewrite IH. destruct (visit f l b' s') as [[l'' b''] s''].
  by rewrite <- app_assoc.
Qed.

(** One conditional call is the loop over one entry. *)
Lemma iterate_if_spec c l i b s :
  iterate_if f c l i b s = iterate_loop f l i (if c then 1 else 0) b s.
Proof.
  unfold iterate_if. destruct c, b; try done. cbn [andb negb iterate_loop].
  destruct (iterate_element f l i false s) as [[[? ?] ?]|]; done.
Qed.

Lemma visit_one a b s :
  exists a' b' s', visit f [a] b s = ([a'], b', s') /\ a'.1 = a.1.
Proof. cbn. destruct b; [eauto|]. destruct (f a.1 a.2 false s) as [[x b'] s']. by exists (a.1, x), b', s'. Qed.

Lemma for_each_holds l n el b s :
  holds l n el ->
  let '(el', b', s') := visit f el b s in
  exists l', for_each CAPACITY f (Umfra l n) b s = Some (Umfra l' n, b', s') /\ holds l' n el'.
Proof.
  intros Hh. destruct (sort_holds l n el Hh) as (l1 & Hsort & Hh1 & Hmid). clear Hh.
  unfold for_each. rewrite Hsort. cbn [uf_list uf_size]. pose proof Hh1 as (Hl & HnC & Hp & Hs & _).
  pose proof (holds_length CAPACITY l1 n el Hh1) as Hlen.
  destruct (decide (n = 0%nat)) as [->|Hn0].
  { destruct el; [|done]. cbn. eauto. }
  rewrite (proj2 (Nat.ltb_lt 0 n)) by lia. destruct (decide (n = 1%nat)) as [->|Hn1].
  - destruct (holds_one CAPACITY l1 el Hh1) as (a & Ha & ->).
    destruct l1 as [|? post]; [done|]. injection Ha as ->.
    destruct (visit_one a b s) as (a' & b' & s' & Hv & Hk).
    rewrite iterate_if_spec, (iterate_loop_spec [] [a] post), Hv. cbn. eexists. split; [done|].
    apply (holds_small CAPACITY (a' :: post) 1 [a']); try done; [apply kv_sorted_single|lia|by left].
  - destruct (holds_ordered l1 n el Hh1) as (a & m & Ha & Hm & Hel); [lia|done|].
    set (mid := drop 2 (take n l1)) in *. set (post := drop n l1).
    assert (Hl1 : l1 = a :: m :: mid ++ post).
    { rewrite <- (take_drop n l1) at 1. unfold mid, post. rewrite (take_two l1 n a m) by (done || lia). done. }
    assert (Hml : length mid = (n - 2)%nat) by (unfold mid; rewrite length_drop, length_take; lia).
    clearbody mid post. rewrite (proj2 (Nat.ltb_lt 1 n)) by lia. rewrite iterate_if_spec, Hl1.
    rewrite (iterate_loop_spec [] [a] (m :: mid ++ post)).
    destruct (visit_one a b s) as (a' & b1 & s1 & Hv1 & Hk1). rewrite Hv1. cbn [mbind option_bind].
    pose proof (iterate_loop_spec [a'; m] mid post b1 s1) as Hloop. rewrite Hml in Hloop. cbn [app length] in Hloop |- *.
    rewrite Hloop. pose proof (visit_keys f mid b1 s1) as Hk2. destruct (visit f mid b1 s1) as [[mid' b2] s2] eqn:Hv2.
    cbn [mbind option_bind fst] in *. rewrite iterate_if_spec.
    rewrite (iterate_loop_spec [a'] [m] (mid' ++ post)).
    destruct (visit_one m b2 s2) as (m' & b3 & s3 & Hv3 & Hk3). rewrite Hv3. cbn [mbind option_bind app].
    pose proof (visit_app f [a] (mid ++ [m]) b s) as Hva. rewrite Hv1, (visit_app f mid [m] b1 s1), Hv2, Hv3 in Hva. cbn [app] in Hva.
    rewrite Hel, Hva. eexists. split; [done|].
    assert (Hml' : length mid' = (n - 2)%nat) by (rewrite <- (length_map fst), Hk2, length_map; done).
    split_and!; [|done| | |done|].
    + rewrite <- Hl, Hl1. cbn. rewrite !length_app. lia.
    + replace n with (S (S (length mid'))) at 1 by lia. cbn [take]. rewrite take_app_length. solve_Permutation.
    + apply (kv_sorted_keys el); [done|]. rewrite Hel. cbn. rewrite !map_app, Hk2, Hk1. cbn. by rewrite Hk3.
    + intros _. cbn. rewrite app_comm_cons, last_snoc. done.
Qed.
End Iteration.
End Queries.

(** ** The vector implements the interface *)

Section Instances.
Context (CAPACITY : nat) (nth_element : nth_element_t).

Definition umfra_ops : VecOps umfra := {|
  v_capacity := CAPACITY;
  v_new V := umfra_new CAPACITY;
  v_get_size V := get_size;
  v_first V := first;
  v_last V := last;
  v_contains V := contains;
  v_find_lte V := find_lte CAPACITY;
  v_insert V := fun k x v => insert CAPACITY k x false v;
  v_split_insert V := split_insert CAPACITY;
  v_steal_half_and_insert V := steal_half_and_insert CAPACITY nth_element;
  v_steal_half V := steal_half CAPACITY nth_element;
  v_merge V := merge CAPACITY;
  v_sort V := sort CAPACITY;
  v_at V := at_;
  v_max_key V := max_key;
  v_verify V := verify CAPACITY;
|}.

Context (Hcap : (1 <= CAPACITY)%nat) (Hnth : nth_element_ok nth_element).

Section Laws.
Context {V : Type}.
Implicit Types (v self victim : umfra V).

Local Abbreviation ok := (umfra_ok CAPACITY).

Lemma uelems_length v : ok v -> length (uelems v) = uf_size v.
Proof. apply holds_length. Qed.

Lemma umfra_new_ok (junk : Z * V) : ok (umfra_new CAPACITY junk) /\ uelems (umfra_new CAPACITY junk) = [].
Proof.
  apply holds_ok. apply holds_small; try done; [apply length_replicate|lia|apply kv_sorted_nil|lia|left; lia].
Qed.

Lemma umfra_insert_room k x v :
  ok v -> kv_lookup k (uelems v) = None -> (length (uelems v) < CAPACITY)%nat ->
  exists v', insert CAPACITY k x false v = Some (true, false, v') /\ ok v' /\ uelems v' = kv_insert k x (uelems v).
Proof.
  intros Hok Hk Hn. rewrite uelems_length in Hn by done. destruct v as [l n].
  destruct (insert_room_holds CAPACITY l n _ k x false Hok Hk Hn) as (l' & Hi & Hh).
  exists (Umfra l' (S n)). split; [done|]. by apply holds_ok.
Qed.

Lemma umfra_split_insert k x self victim :
  ok self -> ok victim -> kv_lookup k (uelems victim) = None ->
  (S (length (kv_above k (uelems victim))) <= CAPACITY)%nat ->
  exists self' victim', split_insert CAPACITY k x self victim = Some (self', victim') /\
    ok self' /\ ok victim' /\
    uelems self' = (k, x) :: kv_above k (uelems victim) /\ uelems victim' = kv_below k (uelems victim).
Proof.
  intros (Hls & _) Hv Hk Hfit. destruct self as [ls n0], victim as [vl vn].
  destruct (split_insert_holds CAPACITY ls vl vn _ k x Hls Hv Hk Hfit n0) as (sl & sn & vl' & vn' & Hr & H1 & H2).
  apply holds_ok in H1 as [? ?]. apply holds_ok in H2 as [? ?]. by do 2 eexists.
Qed.

Lemma umfra_steal_half_and_insert k x self victim :
  ok self -> ok victim -> kv_lookup k (uelems victim) = None -> uelems victim <> [] ->
  exists self' victim', steal_half_and_insert CAPACITY nth_element k x self victim = Some (self', victim') /\
    ok self' /\ ok victim' /\ uelems victim' ++ uelems self' = kv_insert k x (uelems victim) /\
    length (uelems self') = (S (length (uelems victim)) / 2)%nat.
Proof.
  intros (Hls & _) Hv Hk Hne. rewrite (uelems_length victim) by done. destruct self as [ls n0], victim as [vl vn].
  destruct (steal_half_and_insert_holds CAPACITY nth_element Hnth ls n0 vl vn _ k x Hls Hv Hk Hne)
    as (sl & sn & lo & hi & vl' & vn' & Hr & H1 & H2 & H3 & H4).
  do 2 eexists. split; [done|]. pose proof (holds_length CAPACITY _ _ _ H1) as Hlen.
  apply holds_ok in H1 as [? ->]. apply holds_ok in H2 as [? ->]. rewrite Hlen. done.
Qed.

Lemma umfra_steal_half self victim :
  ok self -> ok victim ->
  exists self' victim', steal_half CAPACITY nth_element self victim = Some (self', victim') /\
    ok self' /\ ok victim' /\
    uelems victim' = take (length (uelems victim) / 2) (uelems victim) /\
    uelems self' = drop (length (uelems victim) / 2) (uelems victim).
Proof.
  intros (Hls & _) Hv. rewrite (uelems_length victim) by done. destruct self as [ls n0], victim as [vl vn].
  destruct (steal_half_holds CAPACITY nth_element Hnth ls n0 vl vn _ Hls Hv) as (sl & vl' & Hr & H1 & H2).
  apply holds_ok in H1 as [? ?]. apply holds_ok in H2 as [? ?]. by do 2 eexists.
Qed.

Lemma umfra_merge self victim :
  ok self -> ok victim -> (forall a b, a ∈ uelems self -> b ∈ uelems victim -> a.1 < b.1) ->
  (length (uelems self) + length (uelems victim) <= CAPACITY)%nat ->
  exists self' victim', merge CAPACITY self victim = Some (self', victim') /\
    ok self' /\ ok victim' /\ uelems self' = uelems self ++ uelems victim /\ uelems victim' = [].
Proof.
  intros Hs Hv Hlt Hfit. rewrite !uelems_length in Hfit by done. destruct self as [ls ln], victim as [vl vn].
  destruct (merge_holds CAPACITY ls ln _ vl vn _ Hs Hv Hlt Hfit) as (l' & Hr & Hh).
  apply holds_ok in Hh as [? ?]. destruct Hv as (Hvl & _).
  assert (Hempty : holds CAPACITY vl 0 []) by (apply holds_small; try done; [lia|apply kv_sorted_nil|lia|left; lia]).
  apply holds_ok in Hempty as [? ?]. by do 2 eexists.
Qed.

Lemma umfra_sort v : ok v -> ok (sort CAPACITY v) /\ uelems (sort CAPACITY v) = uelems v.
Proof.
  intros Hv. destruct v as [l n]. destruct (sort_holds CAPACITY l n _ Hv) as (l' & -> & Hh & _). by apply holds_ok.
Qed.
End Laws.

Definition umfra_spec : @VecSpec umfra umfra_ops.
Proof.
  refine {| v_ok V := umfra_ok CAPACITY; v_elems V := uelems : umfra V -> _ |}; try done.
  - intros V v (_ & _ & _ & H & _). exact H.
  - intros V v H. rewrite uelems_length by done. apply H.
  - intros V junk. apply umfra_new_ok.
  - intros V v H. by rewrite uelems_length.
  - intros V [l n] k. by apply first_holds.
  - intros V [l n] (Hl & _). cbn in Hl |- *. destruct (lookup_lt_is_Some_2 l 0) as [e He]; [lia|].
    unfold first. cbn [uf_list]. step_with He. eauto.
  - intros V [l n]. by apply last_holds.
  - intros V k [l n]. by apply contains_holds.
  - intros V k [l n]. by apply find_lte_holds.
  - intros V k x y [l n]. by apply insert_present_holds.
  - intros V k x [l n] Hok Hk Hn. rewrite uelems_length in Hn by done. by eapply insert_full_holds.
  - intros V k x v. by apply umfra_insert_room.
  - intros V k x self victim. by apply umfra_split_insert.
  - intros V k x self victim. by apply umfra_steal_half_and_insert.
  - intros V self victim. by apply umfra_steal_half.
  - intros V self victim. by apply umfra_merge.
  - intros V v. by apply umfra_sort.
  - intros V [l n] i e. by apply at_holds.
  - intros V [l n] k. by apply max_key_holds.
  - intros V [l n]. by apply verify_holds.
Defined.

Definition umfra_map_ops : VecMapOps umfra := {|
  v_remove V := remove CAPACITY;
  v_for_each V St := for_each CAPACITY;
  v_range V St := range CAPACITY;
|}.

Definition umfra_map_spec : @VecMapSpec umfra umfra_ops umfra_spec umfra_map_ops.
Proof.
  split.
  - intros V k [l n] Hok Hk. change (kv_lookup k (uelems (Umfra l n)) = None) in Hk. pose proof (remove_holds_all CAPACITY l n _ k Hok) as Hr. by rewrite Hk in Hr.
  - intros V k x [l n] Hok Hk. change (kv_lookup k (uelems (Umfra l n)) = Some x) in Hk. pose proof (remove_holds_all CAPACITY l n _ k Hok) as Hr. rewrite Hk in Hr.
    destruct Hr as (l' & Hr & Hh). exists (Umfra l' (n - 1)). split; [done|]. by apply holds_ok.
  - intros V St f [l n] b s Hok. pose proof (for_each_holds CAPACITY f l n _ b s Hok) as H. cbn [v_elems umfra_spec].
    destruct (visit f (uelems (Umfra l n)) b s) as [[el b'] s']. destruct H as (l' & Hr & Hh).
    exists (Umfra l' n). split; [done|]. by apply holds_ok.
Qed.
End Instances.

(** ** What the class guarantees *)

Section Properties.
Context (CAPACITY : nat) (nth_element : nth_element_t) {V : Type}.
Implicit Types (v self victim : umfra V) (k : Z) (x : V).

Local Abbreviation ok := (umfra_ok CAPACITY).
Context (Hcap : (1 <= CAPACITY)%nat) (Hnth : nth_element_ok nth_element).

(** The updates of the unsorted vector: [insert] refuses a present key,
    reports the overflow of a full vector and otherwise adds the pair;
    [remove] hands out the value of a present key and removes it.  Both keep
    the invariant: distinct keys, the minimum at index 0 and the maximum at
    index 1. *)
Theorem umfra_updates_correct k x v :
  ok v ->
  match kv_lookup k (uelems v) with
  | Some y =>
      insert CAPACITY k x false v = Some (false, false, v) /\
      exists v', remove CAPACITY k v = Some (Some y, v') /\ ok v' /\ uelems v' = kv_remove k (uelems v)
  | None =>
      remove CAPACITY k v = Some (None, v) /\
      if decide (length (uelems v) = CAPACITY) then insert CAPACITY k x false v = Some (false, true, v)
      else exists v', insert CAPACITY k x false v = Some (true, false, v') /\ ok v' /\
             uelems v' = kv_insert k x (uelems v)
  end.
Proof.
  intros Hok. destruct v as [l n]. pose proof (remove_holds_all CAPACITY l n _ k Hok) as Hr.
  destruct (kv_lookup k (uelems (Umfra l n))) as [y|] eqn:Hk.
  - split; [by eapply insert_present_holds|]. destruct Hr as (l' & Hr & Hh). exists (Umfra l' (n - 1)).
    split; [done|]. by apply holds_ok.
  - split; [done|]. case_decide as Hl.
    + rewrite (uelems_length CAPACITY) in Hl by done. by eapply insert_full_holds.
    + apply umfra_insert_room; try done. rewrite (uelems_length CAPACITY) in * by done.
      destruct Hok as (_ & ? & _). cbn in *. lia.
Qed.

(** The queries of the unsorted vector answer as those of a sorted list
    of its pairs, [sort] then [at(i)] gives the [i]-th key, and the minimum
    and maximum are read off without a search. *)
Theorem umfra_queries_correct k v :
  ok v ->
  contains k v = Some (kv_lookup k (uelems v)) /\
  find_lte CAPACITY k v = Some (kv_lte k (uelems v)) /\
  last v = Some (kv_last (uelems v)) /\
  (uelems v <> [] -> first v = kv_first (uelems v) /\ max_key v = kv_last (uelems v)) /\
  (forall i e, uelems v !! i = Some e -> at_ i (sort CAPACITY v) = Some e.1) /\
  verify CAPACITY v = Some true.
Proof.
  intros Hok. destruct v as [l n]. split_and!.
  - by eapply contains_holds.
  - by eapply find_lte_holds.
  - by eapply last_holds.
  - intros Hne. destruct (kv_first (uelems (Umfra l n))) as [k0|] eqn:Hf.
    2:{ by destruct (uelems (Umfra l n)). }
    destruct (kv_last (uelems (Umfra l n))) as [k1|] eqn:Hl.
    2:{ unfold kv_last in Hl. by apply fmap_None, last_None in Hl. }
    split; [by eapply first_holds|by eapply max_key_holds].
  - intros i e. by apply at_holds.
  - by eapply verify_holds.
Qed.

(** the operations that move entries between two unsorted vectors:
    [split_insert] takes the entries above the new key, [steal_half_and_insert]
    half of the victim whatever partition [nth_element] makes, and merging
    after [steal_half] restores the victim.  Nothing is lost and both vectors
    keep the invariant. *)
Theorem umfra_moves_correct k x self victim :
  ok self -> ok victim -> kv_lookup k (uelems victim) = None ->
  ((length (kv_above k (uelems victim)) < CAPACITY)%nat ->
   exists self' victim', split_insert CAPACITY k x self victim = Some (self', victim') /\ ok self' /\ ok victim' /\
     uelems self' = (k, x) :: kv_above k (uelems victim) /\ uelems victim' = kv_below k (uelems victim)) /\
  (uelems victim <> [] ->
   exists self' victim', steal_half_and_insert CAPACITY nth_element k x self victim = Some (self', victim') /\
     ok self' /\ ok victim' /\ uelems victim' ++ uelems self' = kv_insert k x (uelems victim) /\
     length (uelems self') = (S (length (uelems victim)) / 2)%nat) /\
  (exists self' victim' v u, steal_half CAPACITY nth_element self victim = Some (self', victim') /\
     merge CAPACITY victim' self' = Some (v, u) /\ ok v /\ uelems v = uelems victim /\ uelems u = []).
Proof.
  intros Hs Hv Hk. split_and!.
  - intros Hfit. by apply umfra_split_insert.
  - intros Hne. by apply umfra_steal_half_and_insert.
  - destruct (umfra_steal_half CAPACITY nth_element Hnth self victim Hs Hv) as (self' & victim' & Hst & Hs' & Hv' & H1 & H2).
    assert (Happ : uelems victim' ++ uelems self' = uelems victim) by (rewrite H1, H2; apply take_drop).
    destruct (umfra_merge CAPACITY Hcap victim' self' Hv' Hs') as (v & u & Hm & Hv2 & _ & H3 & H4).
    + assert (Hso : kv_sorted (uelems victim)) by (by destruct Hv as (_ & _ & _ & ? & _)).
      rewrite <- Happ in Hso. by apply kv_sorted_app in Hso as (H & _).
    + rewrite <- length_app, Happ, (uelems_length CAPACITY) by done. apply Hv.
    + exists self', victim', v, u. by rewrite H3, Happ.
Qed.

(** [for_each] on an unsorted vector calls the function on the pairs in
    key order, stores back the values and stops when the flag is raised; the
    vector keeps its keys and its invariant. *)
Theorem umfra_for_each_correct {St : Type} (f : Z -> V -> bool -> St -> V * bool * St) v b s :
  ok v ->
  let '(el, b', s') := visit f (uelems v) b s in
  exists v', for_each CAPACITY f v b s = Some (v', b', s') /\ ok v' /\ uelems v' = el.
Proof.
  intros Hok. destruct v as [l n]. pose proof (for_each_holds CAPACITY f l n _ b s Hok) as H.
  destruct (visit f (uelems (Umfra l n)) b s) as [[el b'] s']. destruct H as (l' & Hr & Hh).
  exists (Umfra l' n). split; [done|]. by apply holds_ok.
Qed.
End Properties.

(** ** Witnesses *)

(** [std::sort] is one [std::nth_element]. *)
Definition sort_nth : nth_element_t := fun V _ l => kv_sort l.

Lemma sort_nth_ok : nth_element_ok sort_nth.
Proof.
  split; [intros; apply kv_sort_perm|].
  intros V n l Hn. pose proof (StronglySorted_merge_sort kv_le l) as Hs. fold (kv_sort l) in Hs.
  destruct (lookup_lt_is_Some_2 (kv_sort l) n) as [p Hp]; [by rewrite kv_sort_perm|].
  exists (take n (kv_sort l)), p, (drop (S n) (kv_sort l)).
  assert (Heq : take n (kv_sort l) ++ p :: drop (S n) (kv_sort l) = kv_sort l) by (by apply take_drop_middle).
  split_and!; [done|apply lookup_lt_Some in Hp; rewrite length_take; lia|..];
    rewrite <- Heq in Hs; apply StronglySorted_app in Hs as (H1 & _ & H2).
  - intros a Ha. apply (H1 a p Ha). left.
  - intros a Ha. apply StronglySorted_cons in H2 as [H2 _]. rewrite Forall_forall in H2. by apply H2.
Qed.

Definition demo_umfra : umfra Z := Umfra [(10, 1); (50, 5); (40, 4); (20, 2); (30, 3); (0, 0)] 5.
Definition demo_umfra_empty : umfra Z := umfra_new 6 (7, 7).

Lemma demo_umfra_ok : umfra_ok 6 demo_umfra /\ uelems demo_umfra = [(10, 1); (20, 2); (30, 3); (40, 4); (50, 5)].
Proof.
  assert (Hp : take 5 (uf_list demo_umfra) ≡ₚ [(10, 1); (20, 2); (30, 3); (40, 4); (50, 5)]).
  { cbn. solve_Permutation. }
  apply holds_ok. split_and!; try done; [cbn; lia|]. repeat constructor; cbn; lia.
Qed.

Lemma demo_umfra_empty_ok : umfra_ok 6 demo_umfra_empty.
Proof. apply (umfra_new_ok 6). lia. Qed.

Lemma umfra_updates_correct_witness :
  remove 6 25 demo_umfra = Some (None, demo_umfra) /\
  exists v', insert 6 25 9 false demo_umfra = Some (true, false, v') /\ umfra_ok 6 v' /\
    uelems v' = [(10, 1); (20, 2); (25, 9); (30, 3); (40, 4); (50, 5)].
Proof. exact (umfra_updates_correct 6 ltac:(lia) 25 9 demo_umfra (proj1 demo_umfra_ok)). Defined.

Lemma umfra_queries_correct_witness :
  contains 20 demo_umfra = Some (Some 2) /\ find_lte 6 20 demo_umfra = Some (Some (20, 2)) /\
  last demo_umfra = Some (Some 50) /\
  (uelems demo_umfra <> [] -> first demo_umfra = Some 10 /\ max_key demo_umfra = Some 50) /\
  (forall i e, uelems demo_umfra !! i = Some e -> at_ i (sort 6 demo_umfra) = Some e.1) /\
  verify 6 demo_umfra = Some true.
Proof. exact (umfra_queries_correct 6 20 demo_umfra (proj1 demo_umfra_ok)). Defined.

Lemma umfra_moves_correct_witness :
  ((length (kv_above 25 (uelems demo_umfra)) < 6)%nat ->
   exists self' victim', split_insert 6 25 9 demo_umfra_empty demo_umfra = Some (self', victim') /\
     umfra_ok 6 self' /\ umfra_ok 6 victim' /\
     uelems self' = [(25, 9); (30, 3); (40, 4); (50, 5)] /\ uelems victim' = [(10, 1); (20, 2)]) /\
  (uelems demo_umfra <> [] ->
   exists self' victim', steal_half_and_insert 6 sort_nth 25 9 demo_umfra_empty demo_umfra = Some (self', victim') /\
     umfra_ok 6 self' /\ umfra_ok 6 victim' /\
     uelems victim' ++ uelems self' = [(10, 1); (20, 2); (25, 9); (30, 3); (40, 4); (50, 5)] /\
     length (uelems self') = 3%nat) /\
  (exists self' victim' v u, steal_half 6 sort_nth demo_umfra_empty demo_umfra = Some (self', victim') /\
     merge 6 victim' self' = Some (v, u) /\ umfra_ok 6 v /\ uelems v = uelems demo_umfra /\ uelems u = []).
Proof.
  exact (umfra_moves_correct 6 sort_nth ltac:(lia) sort_nth_ok 25 9 demo_umfra_empty demo_umfra demo_umfra_empty_ok
           (proj1 demo_umfra_ok) eq_refl).
Defined.

(** Add 100 to the values and collect the keys, stopping after the third. *)
Definition demo_collect (k x : Z) (flag : bool) (s : list Z) : Z * bool * list Z :=
  (x + 100, (2 <=? length s)%nat, s ++ [k]).

Lemma umfra_for_each_correct_witness :
  exists v', for_each 6 demo_collect demo_umfra false [] = Some (v', true, [10; 20; 30]) /\ umfra_ok 6 v' /\
    uelems v' = [(10, 101); (20, 102); (30, 103); (40, 4); (50, 5)].
Proof. exact (umfra_for_each_correct 6 demo_collect demo_umfra false [] (proj1 demo_umfra_ok)). Defined.

(** [range] goes beyond its end: [iterate_element_range2] sets the flag
    for a key greater than [to] but has no [return], so that the function is
    called on a pair outside the interval.  On the keys 10, 20, 30, 40, 50 the
    range from 15 to 35 calls it on 20, 30 and 40. *)
Theorem umfra_range_exceeds :
  umfra_ok 6 demo_umfra /\
  (range 6 (fun k x flag s => (x, flag, s ++ [k])) 15 35 demo_umfra false []
   = Some (true, sort 6 demo_umfra, true, [20; 30; 40])) /\
  map fst (kv_upto 35 (kv_from 15 (uelems demo_umfra))) = [20; 30].
Proof. split; [apply demo_umfra_ok|]. split; vm_compute; reflexivity. Qed.
