(* ===== verification/MultivectorCfra.v ===== *)
(** * MultivectorCfra: the circular sorted multivector (vector/multivector_cfra.h)

    [multivector_cfra] keeps entries sorted by key, equal keys in order of
    insertion, in a circular array: the entry of logical index [i] is at
    [(i + min_index) mod CAPACITY], so that the minimum is extracted by moving
    [min_index].  Every method is translated with its array accesses, its
    asserts, its loops and the [verify_locked()] of a debug build, which throws
    ([None]) when the vector is not sorted or its lock is dead.  Slots are
    natural numbers: [CAPACITY] is far below [2^63], so [idx + min_idx] and
    [m + CAPACITY - 1] do not wrap; [size - 1] may, and its reading as an
    [int64_t] is written out. *)

From S2P Require Import Prelude KvList ArrayOps.
From S2P Require Prog SvLock SeqLock.

Local Open Scope Z_scope.

Record cfra (V : Type) := Cfra {
  cf_list : list (Z * V);
  cf_lock : Z;
  cf_size : nat;
  cf_min : nat;
}.
Arguments Cfra {V} cf_list cf_lock cf_size cf_min.
Arguments cf_list {V} c.
Arguments cf_lock {V} c.
Arguments cf_size {V} c.
Arguments cf_min {V} c.

(** [enum insert_result] (insert_result.h). *)
Inductive insert_result := SUCCESS | VERSION_CHANGED | DEAD_VECTOR | MUST_SPLIT | SPLIT_PENDING.

#[export] Instance insert_result_eq_dec : EqDecision insert_result.
Proof. solve_decision. Defined.

(** The implicit conversion of the enumeration to [bool]: its first
    enumerator is zero. *)
Definition bool_of_result (r : insert_result) : bool :=
  match r with SUCCESS => false | _ => true end.

Section Cfra.
Context (CAPACITY : nat) {V : Type}.
Implicit Types (v self victim : cfra V) (l : list (Z * V)) (k : Z) (x : V) (m i j : nat).

(** ** Logical and physical indexes *)

Definition phys (idx min_idx : nat) : nat := ((idx + min_idx) mod CAPACITY)%nat.
Definition inc_min_index m : nat := ((m + 1) mod CAPACITY)%nat.
Definition dec_min_index m : nat := ((m + CAPACITY - 1) mod CAPACITY)%nat.

(** The key at a logical index; a negative one is out of range. *)
Definition key_at l m (idx : Z) : option Z :=
  if idx <? 0 then None else e ← l !! phys (Z.to_nat idx) m; Some e.1.

(** [int64_t right = size - 1] *)
Definition last_index v : Z := i64 (u64 (Z.of_nat (cf_size v) - 1)).

(** ** The three binary searches *)

Fixpoint any_loop (fuel : nat) l m k (left right : Z) : option Z :=
  if right <? left then Some left
  else match fuel with
  | O => None
  | S fuel' =>
      let mid := left + Z.quot (right - left) 2 in
      read_k ← key_at l m mid;
      if read_k =? k then Some mid
      else if k <? read_k then any_loop fuel' l m k left (mid - 1)
      else any_loop fuel' l m k (mid + 1) right
  end.

Definition find_any v k (min_idx : nat) : option nat :=
  p ← any_loop (S (cf_size v)) (cf_list v) min_idx k 0 (last_index v);
  assert_ (0 <=? p) ;; Some (Z.to_nat p).

(** The loop of [find_first]: the final [left] and [right]. *)
Fixpoint first_loop (fuel : nat) l m k (left right : Z) : option (Z * Z) :=
  if right <=? left then Some (left, right)
  else match fuel with
  | O => None
  | S fuel' =>
      let mid := left + Z.quot (right - left) 2 in
      read_k ← key_at l m mid;
      if read_k =? k then first_loop fuel' l m k left mid
      else if k <? read_k then first_loop fuel' l m k left (mid - 1)
      else first_loop fuel' l m k (mid + 1) right
  end.

Definition find_first v k (min_idx : nat) : option nat :=
  '(lo, hi) ← first_loop (S (cf_size v)) (cf_list v) min_idx k 0 (last_index v);
  assert_ (0 <=? lo) ;;
  if hi <? lo then Some (Z.to_nat lo)
  else
    here ← key_at (cf_list v) min_idx lo;
    if k <=? here then Some (Z.to_nat lo) else Some (Z.to_nat (lo + 1)).

Fixpoint last_loop (fuel : nat) l m k (left right : Z) : option (Z * Z) :=
  if right <=? left then Some (left, right)
  else match fuel with
  | O => None
  | S fuel' =>
      let mid := left + Z.quot (right - left + 1) 2 in
      read_k ← key_at l m mid;
      if k <? read_k then last_loop fuel' l m k left (mid - 1)
      else if read_k <? k then last_loop fuel' l m k (mid + 1) right
      else last_loop fuel' l m k mid right
  end.

(** [find_last]: [-1] when every key is greater. *)
Definition find_last v k (min_idx : nat) : option Z :=
  '(lo, hi) ← last_loop (S (cf_size v)) (cf_list v) min_idx k 0 (last_index v);
  if hi <? lo then Some hi
  else
    here ← key_at (cf_list v) min_idx hi;
    if here <=? k then Some hi else Some (hi - 1).

(** The default constructor over junk memory. *)
Definition cfra_new (junk : Z * V) : cfra V :=
  Cfra (replicate CAPACITY junk) SeqLock.seq_lock_new 0 0.

(** ** Verification, as in a debug build *)

Fixpoint verify_loop l m (i n : nat) : option unit :=
  match n with
  | O => Some tt
  | S n' =>
      e ← l !! phys i m; p ← l !! phys (i - 1) m;
      assert_ (negb (e.1 <? p.1)) ;; verify_loop l m (S i) n'
  end.

Definition verify_locked v : option bool :=
  assert_ (cf_size v <=? CAPACITY)%nat ;;
  assert_ (negb (SeqLock.is_dead (cf_lock v))) ;;
  verify_loop (cf_list v) (cf_min v) 1 (cf_size v - 1) ;; Some true.

Definition verify v : option bool :=
  assert_ (negb (SeqLock.is_locked (cf_lock v))) ;; verify_locked v.

Fixpoint nontail_loop l m (max : Z) (i n : nat) : option bool :=
  match n with
  | O => Some true
  | S n' =>
      e ← l !! phys i m; assert_ (negb (max <? e.1)) ;; nontail_loop l m max (S i) n'
  end.

Definition verify_nontail_node (max : Z) v : option bool :=
  nontail_loop (cf_list v) (cf_min v) max 0 (cf_size v).

(** ** Stealing *)

(** The copy of [n] entries from physical slot [from] of the victim to slots
    [dpos ...], in two parts when they wrap around. *)
Definition copy_entries l (dpos : nat) (vl : list (Z * V)) (from n : nat) : option (list (Z * V)) :=
  if (CAPACITY <? from + n)%nat then
    let first_batch_size := (CAPACITY - from)%nat in
    let second_batch_size := (n - first_batch_size)%nat in
    l1 ← memcpy l dpos vl from first_batch_size;
    memcpy l1 (first_batch_size + dpos) vl 0 second_batch_size
  else memcpy l dpos vl from n.

Definition split_insert k x self victim : option (bool * (cfra V * cfra V)) :=
  let victim_min_idx := cf_min victim in
  p ← find_last victim k victim_min_idx;
  let start_pos := Z.to_nat (p + 1) in
  let entries_to_steal := (cf_size victim - start_pos)%nat in
  assert_ (entries_to_steal + 1 <=? CAPACITY)%nat ;;
  l ← store_at (cf_list self) 0 (k, x);
  let phys_start_point := ((victim_min_idx + start_pos) mod CAPACITY)%nat in
  l' ← copy_entries l 1 (cf_list victim) phys_start_point entries_to_steal;
  let self' := Cfra l' (cf_lock self) (1 + entries_to_steal) (cf_min self) in
  let victim' := Cfra (cf_list victim) (cf_lock victim) (cf_size victim - entries_to_steal) victim_min_idx in
  verify_locked self' ;; verify_locked victim' ;;
  Some (true, (self', victim')).

Definition steal_half self victim : option (cfra V * cfra V) :=
  let victim_size := cf_size victim in
  assert_ (victim_size <=? CAPACITY)%nat ;;
  let entries_to_steal := ((victim_size + 1) / 2)%nat in
  let start_pos := (victim_size - entries_to_steal)%nat in
  let phys_start_point := ((cf_min victim + start_pos) mod CAPACITY)%nat in
  l' ← copy_entries (cf_list self) 0 (cf_list victim) phys_start_point entries_to_steal;
  let self' := Cfra l' (cf_lock self) entries_to_steal (cf_min self) in
  let victim' := Cfra (cf_list victim) (cf_lock victim) (victim_size - entries_to_steal) (cf_min victim) in
  verify_locked self' ;; verify_locked victim' ;;
  Some (self', victim').

(** [steal_max] throws for every other capacity. *)
Definition steal_max self victim : option (cfra V * cfra V) :=
  if (CAPACITY =? 2)%nat then steal_half self victim else None.

(** ** Inserting *)

(** Shift the right end: the array, and the slot that is free. *)
Fixpoint shift_right_end l m k i : option (list (Z * V) * nat) :=
  match i with
  | O => None
  | S j =>
      e ← l !! phys j m;
      if k <? e.1 then l' ← store_at l (phys i m) e; shift_right_end l' m k j
      else Some (l, i)
  end.

(** Shift the left end. *)
Fixpoint shift_left_end (fuel : nat) l m k i : option (list (Z * V) * nat) :=
  match fuel with
  | O => None
  | S fuel' =>
      e ← l !! phys (i + 1) m;
      if e.1 <=? k then l' ← store_at l (phys i m) e; shift_left_end fuel' l' m k (i + 1)
      else Some (l, i)
  end.

Definition insert k x v : option (insert_result * cfra V) :=
  let n := cf_size v in
  let l := cf_list v in
  if (n =? CAPACITY)%nat then Some (MUST_SPLIT, v)
  else
    let min_idx := cf_min v in
    right ← (if (0 <? n)%nat then e ← l !! phys (n / 2) min_idx; Some (e.1 <=? k) else Some false);
    '(l', i, min_idx') ←
      (if right : bool then
         '(l', i) ← shift_right_end l min_idx k n; Some (l', i, min_idx)
       else if (0 <? n)%nat then
         let min_idx' := dec_min_index min_idx in
         '(l', i) ← shift_left_end CAPACITY l min_idx' k 0; Some (l', i, min_idx')
       else Some (l, O, min_idx));
    l'' ← store_at l' (phys i min_idx') (k, x);
    let v' := Cfra l'' (cf_lock v) (n + 1) min_idx' in
    verify_locked v' ;; Some (SUCCESS, v').

(** [insert(b, e)]: the result, the entries from the final [b] on, the
    vector. *)
Fixpoint insert_range (es : list (Z * V)) v : option (insert_result * list (Z * V) * cfra V) :=
  match es with
  | [] => Some (SUCCESS, [], v)
  | e :: es' =>
      '(res, v') ← insert e.1 e.2 v;
      match res with
      | SUCCESS => insert_range es' v'
      | _ => Some (res, es, v')
      end
  end.

Definition insert_concurrent k x (_ : Z) v : option (insert_result * cfra V) := insert k x v.

(** Nothing ever waits for a split. *)
Definition wait_until_split : bool := true.

Definition insert_seq k x v : option (bool * cfra V) :=
  '(res, v') ← insert k x v; Some (bool_of_result res, v').

(** ** Removing *)

(** [for (j = i; j < size; ++j) list[phys(j)] = list[phys(j + 1)]], [n] rounds. *)
Fixpoint close_right l m j (n : nat) : option (list (Z * V)) :=
  match n with
  | O => Some l
  | S n' => e ← l !! phys (j + 1) m; l' ← store_at l (phys j m) e; close_right l' m (S j) n'
  end.

(** [for (j = i; j > 0; --j) list[phys(j)] = list[phys(j - 1)]] *)
Fixpoint close_left l m j : option (list (Z * V)) :=
  match j with
  | O => Some l
  | S j' => e ← l !! phys j' m; l' ← store_at l (phys j m) e; close_left l' m j'
  end.

Definition remove k v : option (option V * cfra V) :=
  let n := cf_size v in
  let l := cf_list v in
  let min_idx := cf_min v in
  i ← find_first v k min_idx;
  absent ← (if (n <=? i)%nat then Some true
            else e ← l !! phys i min_idx; Some (k <? e.1));
  if absent : bool then Some (None, v)
  else
    e ← l !! phys i min_idx;
    let n' := (n - 1)%nat in
    v' ← (if (n / 2 <=? i)%nat then
            l' ← close_right l min_idx i (n' - i); Some (Cfra l' (cf_lock v) n' min_idx)
          else
            l' ← close_left l min_idx i; Some (Cfra l' (cf_lock v) n' (inc_min_index min_idx)));
    verify_locked v' ;; Some (Some e.2, v').

Definition extract_min v : option (option (Z * V) * cfra V) :=
  if (cf_size v =? 0)%nat then Some (None, v)
  else
    e ← cf_list v !! phys 0 (cf_min v);
    Some (Some e, Cfra (cf_list v) (cf_lock v) (cf_size v - 1) (inc_min_index (cf_min v))).

Definition extract v : option (option (Z * V) * cfra V) := extract_min v.

(** ** Queries *)

(** [contains(k, v)]. *)
Definition contains k v : option (option V) :=
  i ← find_first v k (cf_min v);
  if (cf_size v <=? i)%nat then Some None
  else
    e ← cf_list v !! phys i (cf_min v);
    if negb (e.1 =? k) then Some None else Some (Some e.2).

(** [contains(k)], by the search for any instance. *)
Definition contains_key k v : option bool :=
  pos ← find_any v k (cf_min v);
  if (pos <? cf_size v)%nat then e ← cf_list v !! phys pos (cf_min v); Some (e.1 =? k) else Some false.

Definition first v : option Z :=
  assert_ (1 <=? cf_size v)%nat ;; assert_ (cf_size v <=? CAPACITY)%nat ;;
  e ← cf_list v !! phys 0 (cf_min v); Some e.1.

Definition last v : option (option Z) :=
  if (0 <? cf_size v)%nat then e ← cf_list v !! phys (cf_size v - 1) (cf_min v); Some (Some e.1)
  else Some None.

Definition find_lte k v : option (option V) :=
  pos ← find_last v k (cf_min v);
  if pos <? 0 then Some None
  else e ← cf_list v !! phys (Z.to_nat pos) (cf_min v); Some (Some e.2).

Definition at_ (index : nat) v : option Z :=
  assert_ (index <? cf_size v)%nat ;; e ← cf_list v !! phys index (cf_min v); Some e.1.

Definition value_at (index : nat) v : option V :=
  assert_ (index <? cf_size v)%nat ;; e ← cf_list v !! phys index (cf_min v); Some e.2.

Definition max_key v : option Z :=
  if (cf_size v =? 0)%nat then None
  else assert_ (cf_size v <=? CAPACITY)%nat ;;
       e ← cf_list v !! phys (cf_size v - 1) (cf_min v); Some e.1.

Definition sort v : cfra V := v.
Definition get_size v : nat := cf_size v.
Definition get_capacity : nat := CAPACITY.

(** ** The lock of the vector *)

Definition with_lock v (w : Z) : cfra V := Cfra (cf_list v) w (cf_size v) (cf_min v).

(** A method of the lock on the lock of the vector. *)
Definition lock_op {B : Type} (f : Z -> option (B * Z)) v : option (B * cfra V) :=
  '(r, w) ← f (cf_lock v); Some (r, with_lock v w).

Definition acquire (fuel : nat) v : Prog.outcome (cfra V) bool :=
  match Prog.run SvLock.lock_handle (SeqLock.acquire fuel) (cf_lock v) with
  | Prog.Done b w => Prog.Done b (with_lock v w)
  | Prog.Crashed => Prog.Crashed
  | Prog.OutOfFuel => Prog.OutOfFuel
  end.

Definition acquire_for_split : nat := (CAPACITY / 2)%nat.
Definition release_after_split : Z := 0.
Definition try_upgrade (seen : Z) v : option (bool * cfra V) := lock_op (SeqLock.try_upgrade seen) v.
Definition release v : option (Z * cfra V) := verify_locked v ;; lock_op SeqLock.release v.
Definition release_unchanged v : option (unit * cfra V) :=
  verify_locked v ;; lock_op SeqLock.release_unchanged v.
Definition die v : option (unit * cfra V) := verify_locked v ;; lock_op SeqLock.die v.
Definition is_dead v : bool := SeqLock.is_dead (cf_lock v).
Definition begin_read v : option (Z * cfra V) := lock_op SeqLock.begin_read v.
Definition confirm_read (seen : Z) v : option (bool * cfra V) := lock_op (SeqLock.confirm_read seen) v.
End Cfra.
