(* ===== verification/Cfra.v ===== *)
(** * Cfra: the logical content of a circular multivector

    [rot m l] is the array [l] read from slot [m] around its end: the accesses
    of [multivector_cfra] through [phys] are accesses to it, moving [min_index]
    rotates it by one, and the loops of the class are loops on it.  The
    entries are its first [size], sorted by key with equal keys in order of
    insertion ([kv_le]). *)

From S2P Require Import Prelude KvList ArrayOps MultivectorCfra.
From S2P Require Prog SvLock SeqLock.

Local Open Scope Z_scope.

Definition rot {V} (m : nat) (l : list (Z * V)) : list (Z * V) := drop m l ++ take m l.

Arguments rot {V} m l : simpl never.

(** ** Sorted lists with repeated keys *)

Section Multi.
Context {V : Type}.
Implicit Types (l : list (Z * V)) (k : Z) (e : Z * V).

Definition mk_sorted l : Prop := StronglySorted kv_le l.

(** The stable insertion: after the entries with the same key. *)
Definition mk_insert k (x : V) l : list (Z * V) := kv_upto k l ++ (k, x) :: kv_above k l.

(** The stable removal: the first entry with the key. *)
Fixpoint mk_remove k l : list (Z * V) :=
  match l with
  | [] => []
  | e :: l' => if e.1 =? k then l' else e :: mk_remove k l'
  end.

Lemma mk_sorted_app l1 l2 :
  mk_sorted (l1 ++ l2) <-> mk_sorted l1 /\ mk_sorted l2 /\ forall a b, a ∈ l1 -> b ∈ l2 -> a.1 <= b.1.
Proof.
  unfold mk_sorted. induction l1 as [|e l1 IH]; cbn.
  { split; [|tauto]. intros H. split_and!; [constructor|done|]. by intros a b Ha%elem_of_nil. }
  rewrite !StronglySorted_cons, IH, Forall_app, !Forall_forall. unfold kv_le. split.
  - intros ([H1 H2] & H3 & H4 & H5). split_and!; try done.
    intros a b [->|Ha]%elem_of_cons Hb; auto.
  - intros ([H1 H2] & H3 & H4). split_and!; try done.
    + intros b Hb. apply H4; [left|done].
    + intros a b Ha Hb. apply H4; [by right|done].
Qed.

Lemma mk_sorted_lookup l i j a b :
  mk_sorted l -> l !! i = Some a -> l !! j = Some b -> (i <= j)%nat -> a.1 <= b.1.
Proof.
  intros Hs Ha Hb Hij. destruct (decide (i = j)) as [->|Hne]; [replace a with b by congruence; lia|].
  rewrite <- (take_drop (S i) l) in Hs. apply mk_sorted_app in Hs as (_ & _ & H). apply H.
  - apply list_elem_of_lookup. exists i. rewrite lookup_take_lt by lia. done.
  - apply list_elem_of_lookup. exists (j - S i)%nat. rewrite lookup_drop. rewrite <- Hb. f_equal. lia.
Qed.

(** A position that separates the keys up to [k] from those above. *)
Lemma kv_upto_take k l p :
  (forall i e, l !! i = Some e -> (i < p)%nat -> e.1 <= k) ->
  (forall i e, l !! i = Some e -> (p <= i)%nat -> k < e.1) ->
  kv_upto k l = take p l /\ kv_above k l = drop p l.
Proof.
  intros Hlo Hhi.
  assert (H1 : forall e, e ∈ take p l -> e.1 <= k).
  { intros e [i Hi]%list_elem_of_lookup. apply lookup_take_Some in Hi as [Hi ?]. eauto. }
  assert (H2 : forall e, e ∈ drop p l -> k < e.1).
  { intros e [i Hi]%list_elem_of_lookup. rewrite lookup_drop in Hi. eapply Hhi; [done|lia]. }
  rewrite <- (take_drop p l) at 1 3.
  by rewrite kv_upto_app, kv_above_app, (kv_upto_all k (take p l)), (kv_upto_none k (drop p l)),
    (kv_above_none k (take p l)), (kv_above_all k (drop p l)), app_nil_r.
Qed.

Lemma mk_upto_above k l : mk_sorted l -> l = kv_upto k l ++ kv_above k l.
Proof.
  induction l as [|e l IH]; [done|]. intros [Hf Hs]%StronglySorted_cons.
  rewrite Forall_forall in Hf. unfold kv_le in Hf. unfold kv_upto, kv_above in *. rewrite !filter_cons.
  destruct (decide (e.1 <= k)).
  - rewrite decide_False by lia. cbn. f_equal. by apply IH.
  - rewrite decide_True by lia. rewrite kv_filter_none, kv_filter_all; [done|..];
      intros a Ha; specialize (Hf a Ha); lia.
Qed.

Lemma mk_insert_sorted k x l : mk_sorted l -> mk_sorted (mk_insert k x l).
Proof.
  intros Hs. pose proof Hs as Hs'. rewrite (mk_upto_above k l Hs) in Hs'.
  apply mk_sorted_app in Hs' as (H1 & H2 & _). unfold mk_insert. apply mk_sorted_app.
  split_and!; [done| |].
  - apply StronglySorted_cons. split; [|done]. rewrite Forall_forall. intros e He%elem_of_kv_above.
    unfold kv_le. cbn. lia.
  - intros a b Ha%elem_of_kv_upto [->|Hb]%elem_of_cons; [cbn; lia|]. apply elem_of_kv_above in Hb. lia.
Qed.

Lemma mk_insert_perm k x l : mk_sorted l -> mk_insert k x l ≡ₚ (k, x) :: l.
Proof.
  intros Hs. unfold mk_insert. rewrite (mk_upto_above k l Hs) at 3. solve_Permutation.
Qed.

Lemma mk_insert_length k x l : mk_sorted l -> length (mk_insert k x l) = S (length l).
Proof. intros Hs. by rewrite mk_insert_perm. Qed.

(** Removing at the position of the first entry with the key. *)
Lemma mk_remove_app k l1 x l2 :
  (forall e, e ∈ l1 -> e.1 < k) -> mk_remove k (l1 ++ (k, x) :: l2) = l1 ++ l2.
Proof.
  induction l1 as [|e l1 IH]; intros H; cbn; [by rewrite Z.eqb_refl|].
  destruct (Z.eqb_spec e.1 k) as [He|]; [|rewrite IH; [done|]; intros; apply H; by right].
  specialize (H e ltac:(left)). lia.
Qed.

Lemma mk_lookup_app k l1 x l2 :
  (forall e, e ∈ l1 -> e.1 < k) -> kv_lookup k (l1 ++ (k, x) :: l2) = Some x.
Proof.
  intros H. rewrite kv_lookup_app, (proj2 (kv_lookup_None k l1)).
  - cbn. by rewrite Z.eqb_refl.
  - intros e He. specialize (H e He). lia.
Qed.

Lemma mk_remove_absent k l : kv_lookup k l = None -> mk_remove k l = l.
Proof.
  induction l as [|[k' x] l IH]; [done|]. cbn. destruct (Z.eqb_spec k' k); [done|]. intros H. by rewrite IH.
Qed.
End Multi.

(** ** Rotations *)

Section Rotation.
Context (CAPACITY : nat) {V : Type}.
Implicit Types (l r : list (Z * V)) (m i : nat) (e : Z * V).

Lemma rot_length m l : length (rot m l) = length l.
Proof. unfold rot. rewrite length_app, length_drop, length_take. lia. Qed.

Lemma rot_lookup m l i :
  length l = CAPACITY -> (m < CAPACITY)%nat -> (i < CAPACITY)%nat ->
  rot m l !! i = l !! phys CAPACITY i m.
Proof.
  intros Hl Hm Hi. unfold rot, phys. destruct (decide (i + m < CAPACITY)%nat).
  - rewrite lookup_app_l by (rewrite length_drop; lia). rewrite lookup_drop, Nat.mod_small by lia. f_equal. lia.
  - rewrite lookup_app_r by (rewrite length_drop; lia). rewrite length_drop, lookup_take_lt by lia. f_equal.
    replace (i + m)%nat with (i + m - CAPACITY + 1 * CAPACITY)%nat by lia.
    rewrite Nat.Div0.mod_add, Nat.mod_small by lia. lia.
Qed.

Lemma phys_lt i m : (m < CAPACITY)%nat -> (phys CAPACITY i m < CAPACITY)%nat.
Proof. intros Hm. apply Nat.mod_upper_bound. lia. Qed.

Lemma rot_insert m l i e :
  length l = CAPACITY -> (m < CAPACITY)%nat -> (i < CAPACITY)%nat ->
  rot m (<[phys CAPACITY i m := e]> l) = <[i := e]> (rot m l).
Proof.
  intros Hl Hm Hi. unfold rot, phys. destruct (decide (i + m < CAPACITY)%nat).
  - rewrite Nat.mod_small, drop_insert_ge, take_insert_ge by lia.
    rewrite insert_app_l by (rewrite length_drop; lia). repeat f_equal. lia.
  - assert (Hp : ((i + m) mod CAPACITY = i + m - CAPACITY)%nat).
    { replace (i + m)%nat with (i + m - CAPACITY + 1 * CAPACITY)%nat at 1 by lia.
      by rewrite Nat.Div0.mod_add, Nat.mod_small by lia. }
    rewrite Hp, drop_insert_lt, take_insert_lt by lia.
    rewrite insert_app_r_alt by (rewrite length_drop; lia). rewrite length_drop. do 2 f_equal. lia.
Qed.

(** One access at the logical index [length pre]. *)
Lemma rot_read m l pre e post i :
  length l = CAPACITY -> (m < CAPACITY)%nat -> rot m l = pre ++ e :: post -> i = length pre ->
  l !! phys CAPACITY i m = Some e.
Proof.
  intros Hl Hm Hr ->. assert (length pre < CAPACITY)%nat.
  { rewrite <- Hl, <- (rot_length m l), Hr, length_app. cbn. lia. }
  rewrite <- (rot_lookup m l (length pre)), Hr by done. by apply list_lookup_middle.
Qed.

Lemma rot_write m l pre e post i e' :
  length l = CAPACITY -> (m < CAPACITY)%nat -> rot m l = pre ++ e :: post -> i = length pre ->
  exists l', store_at l (phys CAPACITY i m) e' = Some l' /\ length l' = CAPACITY /\
    rot m l' = pre ++ e' :: post.
Proof.
  intros Hl Hm Hr ->. assert (length pre < CAPACITY)%nat.
  { rewrite <- Hl, <- (rot_length m l), Hr, length_app. cbn. lia. }
  eexists. rewrite store_at_spec by (rewrite Hl; by apply phys_lt). split_and!; [done|by rewrite length_insert|].
  rewrite rot_insert, Hr by done. by rewrite insert_app_r_alt, Nat.sub_diag by lia.
Qed.

(** Moving [min_index] back brings the last slot to the front. *)
Lemma rot_dec m l r z :
  length l = CAPACITY -> (m < CAPACITY)%nat -> rot m l = r ++ [z] ->
  rot (dec_min_index CAPACITY m) l = z :: r.
Proof.
  intros Hl Hm Hr. unfold dec_min_index, rot in *. destruct m as [|m].
  - rewrite Nat.add_0_l, Nat.mod_small by lia. rewrite drop_0, take_0, app_nil_r in Hr. subst l.
    rewrite length_app in Hl. cbn in Hl. rewrite drop_app_length', take_app_length' by lia. done.
  - replace (S m + CAPACITY - 1)%nat with (m + 1 * CAPACITY)%nat by lia.
    rewrite Nat.Div0.mod_add, Nat.mod_small by lia.
    destruct (lookup_lt_is_Some_2 l m) as [e He]; [lia|].
    rewrite (take_S_r l m e He), app_assoc in Hr. apply app_inj_tail in Hr as [<- ->].
    by rewrite (drop_S l z m He).
Qed.

(** Moving it forward sends the front to the back. *)
Lemma rot_inc m l r a :
  length l = CAPACITY -> (m < CAPACITY)%nat -> rot m l = a :: r ->
  rot (inc_min_index CAPACITY m) l = r ++ [a].
Proof.
  intros Hl Hm Hr. unfold inc_min_index, rot in *.
  destruct (lookup_lt_is_Some_2 l m) as [e He]; [lia|].
  rewrite (drop_S l e m He) in Hr. injection Hr as -> <-. rewrite <- app_assoc, <- (take_S_r l m a He).
  destruct (decide (m + 1 = CAPACITY)%nat) as [Hc|Hc].
  - rewrite Hc, Nat.Div0.mod_same by lia. by rewrite drop_0, take_0, app_nil_r, drop_ge, take_ge by lia.
  - by rewrite Nat.add_1_r, Nat.mod_small by lia.
Qed.

(** The entries at logical indexes [p ...] of a rotation, as one or two runs
    of slots. *)
Lemma copy_entries_spec l dpos vl m p n :
  length vl = CAPACITY -> (m < CAPACITY)%nat -> (p + n <= CAPACITY)%nat ->
  (dpos + n <= length l)%nat ->
  exists l', copy_entries CAPACITY l dpos vl ((m + p) mod CAPACITY) n = Some l' /\ length l' = length l /\
    take (dpos + n) l' = take dpos l ++ take n (drop p (rot m vl)).
Proof.
  intros Hvl Hm Hp Hd. unfold copy_entries. set (q := ((m + p) mod CAPACITY)%nat).
  assert (Hq : (q < CAPACITY)%nat) by (apply Nat.mod_upper_bound; lia).
  assert (Hq' : q = (m + p)%nat \/ (q + CAPACITY = m + p)%nat).
  { unfold q. destruct (decide (m + p < CAPACITY)%nat); [left; by apply Nat.mod_small|right].
    replace (m + p)%nat with (m + p - CAPACITY + 1 * CAPACITY)%nat at 1 by lia.
    rewrite Nat.Div0.mod_add, Nat.mod_small by lia. lia. }
  destruct (Nat.ltb_spec CAPACITY (q + n)) as [Hw|Hw].
  - destruct Hq' as [Hq'|Hq']; [|lia].
    destruct (memcpy_spec l vl dpos q (CAPACITY - q)) as (l1 & H1 & Hl1 & Ht1); [lia|lia|]. rewrite H1.
    cbn [mbind option_bind].
    destruct (memcpy_spec l1 vl (CAPACITY - q + dpos) 0 (n - (CAPACITY - q))) as (l2 & H2 & Hl2 & Ht2); [lia|lia|].
    rewrite H2. exists l2. split_and!; [done|lia|].
    replace (dpos + n)%nat with (CAPACITY - q + dpos + (n - (CAPACITY - q)))%nat by lia. rewrite Ht2.
    replace (CAPACITY - q + dpos)%nat with (dpos + (CAPACITY - q))%nat by lia. rewrite Ht1, <- app_assoc. f_equal.
    unfold rot. rewrite drop_app_le by (rewrite length_drop; lia). rewrite drop_drop.
    replace (m + p)%nat with q by lia. rewrite drop_0. rewrite take_app, length_drop.
    rewrite !(take_ge (drop q vl)) by (rewrite length_drop; lia). f_equal. rewrite take_take. f_equal. lia.
  - destruct (memcpy_spec l vl dpos q n) as (l1 & H1 & Hl1 & Ht1); [lia|lia|]. rewrite H1.
    exists l1. split_and!; [done|done|]. rewrite Ht1. f_equal. unfold rot. destruct Hq' as [Hq'|Hq'].
    + destruct (decide (n = 0)%nat) as [->|]; [done|].
      rewrite drop_app_le by (rewrite length_drop; lia). rewrite drop_drop, <- Hq'.
      rewrite take_app_le by (rewrite length_drop; lia). done.
    + rewrite drop_app_ge by (rewrite length_drop; lia). rewrite length_drop.
      replace (p - (length vl - m))%nat with q by lia. 
      apply list_eq. intros i. destruct (decide (i < n)%nat).
      * rewrite !lookup_take_lt, !lookup_drop, lookup_take_lt by lia. done.
      * by rewrite !lookup_take_ge by lia.
Qed.
End Rotation.

(** ** The shifting loops, on the rotated array *)

Section Loops.
Context (CAPACITY : nat) {V : Type}.
Implicit Types (l pre post a b : list (Z * V)) (m i : nat) (e w : Z * V) (k : Z).

(** Moving the slot that is free, [w], down past [hi]. *)
Lemma shift_right_end_spec l m k pre c hi w post :
  length l = CAPACITY -> (m < CAPACITY)%nat ->
  rot m l = (pre ++ [c]) ++ hi ++ w :: post ->
  c.1 <= k -> (forall e, e ∈ hi -> k < e.1) ->
  exists l' w', shift_right_end CAPACITY l m k (length pre + 1 + length hi) =
      Some (l', (length pre + 1)%nat) /\
    length l' = CAPACITY /\ rot m l' = (pre ++ [c]) ++ w' :: hi ++ post.
Proof.
  intros Hl Hm Hr Hc. revert l w post Hl Hr. induction hi as [|e hi IH] using rev_ind; intros l w post Hl Hr Hk.
  - exists l, w. cbn [length]. rewrite Nat.add_0_r, Nat.add_1_r. cbn [shift_right_end].
    rewrite (rot_read CAPACITY m l pre c (w :: post) (length pre)); [|done..|by rewrite Hr, <- app_assoc|done].
    cbn [mbind option_bind]. by destruct (Z.ltb_spec k c.1); [lia|].
  - replace (length pre + 1 + length (hi ++ [e]))%nat with (S (length pre + 1 + length hi))
      by (rewrite length_app; cbn; lia). cbn [shift_right_end].
    rewrite (rot_read CAPACITY m l ((pre ++ [c]) ++ hi) e (w :: post)); [|done..| |rewrite !length_app; cbn; lia].
    2:{ by rewrite Hr, <- !app_assoc. }
    cbn [mbind option_bind]. rewrite (proj2 (Z.ltb_lt k e.1)) by (apply Hk, elem_of_app; right; left).
    edestruct (rot_write CAPACITY m l ((pre ++ [c]) ++ hi ++ [e]) w post) as (l' & Hs & Hl' & Hr');
      [done..|by rewrite Hr, <- !app_assoc| |].
    2:{ rewrite Hs. cbn [mbind option_bind].
        destruct (IH l' e (e :: post)) as (l'' & w' & H1 & H2 & H3);
          [done|by rewrite Hr', <- !app_assoc|intros; apply Hk, elem_of_app; by left|].
        exists l'', w'. split_and!; [done|done|]. by rewrite H3, <- !app_assoc. }
    rewrite !length_app. cbn. lia.
Qed.

(** Moving it up past [lo]. *)
Lemma shift_left_end_spec fuel l m k pre w lo c post :
  length l = CAPACITY -> (m < CAPACITY)%nat ->
  rot m l = pre ++ w :: lo ++ c :: post ->
  k < c.1 -> (forall e, e ∈ lo -> e.1 <= k) -> (length lo < fuel)%nat ->
  exists l' w', shift_left_end CAPACITY fuel l m k (length pre) = Some (l', (length pre + length lo)%nat) /\
    length l' = CAPACITY /\ rot m l' = (pre ++ lo) ++ w' :: c :: post.
Proof.
  intros Hl Hm Hr Hc. revert fuel l pre w Hl Hr. induction lo as [|e lo IH];
    intros fuel l pre w Hl Hr Hk Hf; (destruct fuel as [|fuel]; [cbn in Hf; lia|]); cbn [shift_left_end].
  - rewrite (rot_read CAPACITY m l (pre ++ [w]) c post); [|done..|by rewrite Hr, <- app_assoc|by rewrite length_app].
    cbn [mbind option_bind]. destruct (Z.leb_spec c.1 k); [lia|].
    exists l, w. cbn [length]. by rewrite Nat.add_0_r, app_nil_r.
  - rewrite (rot_read CAPACITY m l (pre ++ [w]) e (lo ++ c :: post));
      [|done..|by rewrite Hr, <- app_assoc|by rewrite length_app].
    cbn [mbind option_bind]. rewrite (proj2 (Z.leb_le e.1 k)) by (apply Hk; left).
    destruct (rot_write CAPACITY m l pre w ((e :: lo) ++ c :: post) (length pre) e) as (l' & Hs & Hl' & Hr');
      [done..|]. rewrite Hs. cbn [mbind option_bind].
    destruct (IH fuel l' (pre ++ [e]) e) as (l'' & w' & H1 & H2 & H3);
      [done|by rewrite Hr', <- app_assoc|intros; apply Hk; by right|cbn in Hf; lia|].
    rewrite length_app in H1. cbn [length] in *. exists l'', w'. split_and!; [|done|].
    + rewrite H1. do 2 f_equal. lia.
    + by rewrite H3, <- !app_assoc.
Qed.

(** Closing the gap at [length pre] from the right. *)
Lemma close_right_spec l m pre w hi post :
  length l = CAPACITY -> (m < CAPACITY)%nat -> rot m l = pre ++ w :: hi ++ post ->
  exists l' w', close_right CAPACITY l m (length pre) (length hi) = Some l' /\
    length l' = CAPACITY /\ rot m l' = (pre ++ hi) ++ w' :: post.
Proof.
  intros Hl Hm. revert l pre w Hl. induction hi as [|e hi IH]; intros l pre w Hl Hr; cbn [close_right length].
  { exists l, w. by rewrite app_nil_r. }
  rewrite (rot_read CAPACITY m l (pre ++ [w]) e (hi ++ post));
    [|done..|by rewrite Hr, <- app_assoc|by rewrite length_app]. cbn [mbind option_bind].
  destruct (rot_write CAPACITY m l pre w ((e :: hi) ++ post) (length pre) e) as (l' & Hs & Hl' & Hr'); [done..|].
  rewrite Hs. cbn [mbind option_bind].
  destruct (IH l' (pre ++ [e]) e) as (l'' & w' & H1 & H2 & H3); [done|by rewrite Hr', <- app_assoc|].
  rewrite length_app, Nat.add_1_r in H1. exists l'', w'. split_and!; [done|done|]. by rewrite H3, <- !app_assoc.
Qed.

(** And from the left. *)
Lemma close_left_spec l m lo w post :
  length l = CAPACITY -> (m < CAPACITY)%nat -> rot m l = lo ++ w :: post ->
  exists l' w', close_left CAPACITY l m (length lo) = Some l' /\
    length l' = CAPACITY /\ rot m l' = w' :: lo ++ post.
Proof.
  intros Hl Hm. revert l w post Hl. induction lo as [|e lo IH] using rev_ind; intros l w post Hl Hr.
  { by exists l, w. }
  rewrite length_app, Nat.add_1_r. cbn [close_left].
  rewrite (rot_read CAPACITY m l lo e (w :: post)); [|done..|by rewrite Hr, <- app_assoc|done]. cbn [mbind option_bind].
  destruct (rot_write CAPACITY m l (lo ++ [e]) w post (S (length lo)) e) as (l' & Hs & Hl' & Hr');
    [done..|rewrite length_app; cbn; lia|]. rewrite Hs. cbn [mbind option_bind].
  destruct (IH l' e (e :: post)) as (l'' & w' & H1 & H2 & H3); [done|by rewrite Hr', <- app_assoc|].
  exists l'', w'. split_and!; [done|done|]. by rewrite H3, <- app_assoc.
Qed.
End Loops.

(** * The circular multivector implements a stable sorted multimap

    The invariant of [multivector_cfra], what its searches return, and the
    properties of its updates, moves and queries. *)

Section Cfra.
Context (CAPACITY : nat) {V : Type}.
Implicit Types (v self victim : cfra V) (l el : list (Z * V)) (k : Z) (x : V) (m n i : nat) (e : Z * V).

(** The entries, in logical order. *)
Definition elems v : list (Z * V) := take (cf_size v) (rot (cf_min v) (cf_list v)).

Definition cfra_ok v : Prop :=
  length (cf_list v) = CAPACITY /\ (cf_min v < CAPACITY)%nat /\ (cf_size v <= CAPACITY)%nat /\
  mk_sorted (elems v).

Definition live v : Prop := SeqLock.is_dead (cf_lock v) = false.

Lemma cfra_elems v : cfra_ok v ->
  length (elems v) = cf_size v /\
  exists rest, rot (cf_min v) (cf_list v) = elems v ++ rest /\ length rest = (CAPACITY - cf_size v)%nat.
Proof.
  intros (Hl & Hm & Hn & Hs). unfold elems. split; [rewrite length_take, rot_length; lia|].
  eexists. split; [symmetry; apply take_drop|]. rewrite length_drop, rot_length. lia.
Qed.

Lemma cfra_mk l w n m el rest :
  length l = CAPACITY -> (m < CAPACITY)%nat -> rot m l = el ++ rest -> length el = n -> mk_sorted el ->
  cfra_ok (Cfra l w n m) /\ elems (Cfra l w n m) = el.
Proof.
  intros Hl Hm Hr Hn Hs. unfold cfra_ok, elems. cbn. rewrite Hr, take_app_length' by done.
  split_and!; try done. rewrite <- Hl, <- (rot_length m l), Hr, length_app. lia.
Qed.

Lemma cfra_new_ok (junk : Z * V) : (1 <= CAPACITY)%nat ->
  cfra_ok (cfra_new CAPACITY junk) /\ elems (cfra_new CAPACITY junk) = [] /\ live (cfra_new CAPACITY junk).
Proof.
  intros Hc. unfold cfra_ok, elems. cbn. split_and!; try done; [apply length_replicate|lia|constructor].
Qed.

(** ** Reads *)

(** The entry at a logical index. *)
Lemma cfra_read v i e : cfra_ok v -> elems v !! i = Some e ->
  cf_list v !! phys CAPACITY i (cf_min v) = Some e.
Proof.
  intros Hok Hi. pose proof Hok as (Hl & Hm & Hn & _).
  destruct (cfra_elems v Hok) as [Hlen (rest & Hr & _)].
  pose proof (lookup_lt_Some _ _ _ Hi). rewrite <- rot_lookup, Hr by lia.
  by rewrite lookup_app_l by lia.
Qed.

Lemma key_at_spec v (idx : Z) : cfra_ok v -> 0 <= idx < Z.of_nat (cf_size v) ->
  exists e, elems v !! Z.to_nat idx = Some e /\ key_at CAPACITY (cf_list v) (cf_min v) idx = Some e.1.
Proof.
  intros Hok Hi. destruct (cfra_elems v Hok) as [Hlen _].
  destruct (lookup_lt_is_Some_2 (elems v) (Z.to_nat idx)) as [e He]; [lia|].
  exists e. split; [done|]. unfold key_at. destruct (Z.ltb_spec idx 0); [lia|].
  by rewrite (cfra_read v _ e).
Qed.

Lemma verify_loop_ok l m i n el :
  (forall j e, el !! j = Some e -> l !! phys CAPACITY j m = Some e) ->
  (1 <= i)%nat -> (i + n <= length el)%nat ->
  (forall j a b, (i <= j < i + n)%nat -> el !! (j - 1)%nat = Some a -> el !! j = Some b -> a.1 <= b.1) ->
  verify_loop CAPACITY l m i n = Some tt.
Proof.
  intros Hr. revert i. induction n as [|n IH]; intros i Hi Hn Hs; [done|]. cbn [verify_loop].
  destruct (lookup_lt_is_Some_2 el i) as [b Hb]; [lia|].
  destruct (lookup_lt_is_Some_2 el (i - 1)) as [a Ha]; [lia|].
  rewrite (Hr i b Hb), (Hr _ a Ha). cbn [mbind option_bind].
  rewrite assert_true. 2:{ apply negb_true_iff, Z.ltb_ge, (Hs i); [lia|done|done]. }
  apply IH; [lia|lia|]. intros j. intros. apply (Hs j); [lia|done|done].
Qed.

Lemma verify_locked_ok v : cfra_ok v -> live v -> verify_locked CAPACITY v = Some true.
Proof.
  intros Hok Hlive. pose proof Hok as (Hl & Hm & Hn & Hs). destruct (cfra_elems v Hok) as [Hlen _].
  unfold verify_locked. rewrite Hlive, (assert_true (_ <=? _)%nat) by (by apply Nat.leb_le).
  cbn [mbind option_bind negb assert_].
  destruct (decide (cf_size v = 0)%nat) as [H0|H0].
  { rewrite H0. done. }
  rewrite (verify_loop_ok _ _ 1 _ (elems v)); [done| |lia|lia|].
  - intros j e. by apply cfra_read.
  - intros j a b Hj Ha Hb. apply (mk_sorted_lookup (elems v) (j - 1) j); [done..|lia].
Qed.

(** What [verify_locked] establishes when it does not throw. *)
Lemma verify_loop_inv l m i n :
  verify_loop CAPACITY l m i n = Some tt ->
  forall j a b, (i <= j < i + n)%nat -> l !! phys CAPACITY (j - 1) m = Some a ->
    l !! phys CAPACITY j m = Some b -> a.1 <= b.1.
Proof.
  revert i. induction n as [|n IH]; intros i Hv j a b Hj Ha Hb; [lia|]. cbn [verify_loop] in Hv.
  destruct (l !! phys CAPACITY i m) as [b'|] eqn:Hb'; [|done].
  destruct (l !! phys CAPACITY (i - 1) m) as [a'|] eqn:Ha'; [|done]. cbn [mbind option_bind] in Hv.
  destruct (negb _) eqn:Hlt; [|done]. cbn [assert_ mbind option_bind] in Hv.
  destruct (decide (i = j)) as [->|].
  - apply negb_true_iff, Z.ltb_ge in Hlt. congruence.
  - by apply (IH (S i) Hv j a b); [lia|..].
Qed.

Lemma sorted_adjacent el :
  (forall j a b, el !! j = Some a -> el !! S j = Some b -> a.1 <= b.1) -> mk_sorted el.
Proof.
  intros H. apply Sorted_StronglySorted; [exact kv_le_trans|].
  induction el as [|a el IH]; constructor.
  - apply IH. intros j c d Hc Hd. by apply (H (S j) c d).
  - destruct el as [|b el]; constructor. by apply (H 0%nat a b).
Qed.

(** [verify_locked] decides the invariant. *)
Lemma verify_locked_iff v :
  length (cf_list v) = CAPACITY -> (cf_min v < CAPACITY)%nat ->
  verify_locked CAPACITY v = Some true <-> cfra_ok v /\ live v.
Proof.
  intros Hl Hm. split; [|intros [? ?]; by apply verify_locked_ok].
  unfold verify_locked. destruct (Nat.leb_spec (cf_size v) CAPACITY) as [Hn|]; [|done].
  destruct (SeqLock.is_dead (cf_lock v)) eqn:Hd; [done|]. cbn [negb assert_ mbind option_bind].
  destruct (verify_loop _ _ _ _ _) as [[]|] eqn:Hv; [|done]. intros _. split; [|done].
  split_and!; try done. apply sorted_adjacent. unfold elems. intros j a b Ha Hb.
  apply lookup_take_Some in Ha as [Ha Hj]. apply lookup_take_Some in Hb as [Hb Hj'].
  rewrite (rot_lookup CAPACITY) in Ha, Hb by lia.
  apply (verify_loop_inv _ _ _ _ Hv (S j) a b); [lia| |done]. by replace (S j - 1)%nat with j by lia.
Qed.

(** ** Searches *)

Context (Hcap64 : Z.of_nat CAPACITY < 2 ^ 63).

Lemma last_index_spec v : cfra_ok v -> last_index v = Z.of_nat (cf_size v) - 1.
Proof. intros (_ & _ & Hn & _). apply i64_pred. lia. Qed.

Lemma quot_half a : 0 <= a -> 0 <= Z.quot a 2 /\ 2 * Z.quot a 2 <= a < 2 * Z.quot a 2 + 2.
Proof.
  intros Ha. rewrite Z.quot_div_nonneg by lia.
  pose proof (Z.div_mod a 2 ltac:(lia)). pose proof (Z.mod_pos_bound a 2 ltac:(lia)). lia.
Qed.

(** The order of two entries by their positions. *)
Lemma elems_le v i j a b : cfra_ok v ->
  elems v !! i = Some a -> elems v !! j = Some b -> (i <= j)%nat -> a.1 <= b.1.
Proof. intros (_ & _ & _ & Hs). by apply mk_sorted_lookup. Qed.

Lemma any_loop_spec v k fuel left right :
  cfra_ok v -> 0 <= left <= right + 1 -> right < Z.of_nat (cf_size v) -> right - left < Z.of_nat fuel ->
  (forall i e, elems v !! i = Some e -> Z.of_nat i < left -> e.1 < k) ->
  (forall i e, elems v !! i = Some e -> right < Z.of_nat i -> k < e.1) ->
  exists p, any_loop CAPACITY fuel (cf_list v) (cf_min v) k left right = Some (Z.of_nat p) /\
    (p <= cf_size v)%nat /\
    ((exists e, elems v !! p = Some e /\ e.1 = k) \/
     (forall i e, elems v !! i = Some e -> if decide (i < p)%nat then e.1 < k else k < e.1)).
Proof.
  intros Hok. revert left right. induction fuel as [|fuel IH]; intros left right Hl Hr Hf Hlo Hhi;
    cbn [any_loop].
  1: destruct (Z.ltb_spec right left); [|lia].
  2: destruct (Z.ltb_spec right left).
  1,2: exists (Z.to_nat left); rewrite Z2Nat.id by lia; split_and!; [done|lia|right];
       intros i e He; case_decide; [apply (Hlo i e He); lia|apply (Hhi i e He); lia].
  pose proof (quot_half (right - left) ltac:(lia)). set (mid := left + Z.quot (right - left) 2) in *.
  destruct (key_at_spec v mid Hok) as (e & He & Hk); [lia|]. rewrite Hk. cbn [mbind option_bind].
  destruct (Z.eqb_spec e.1 k) as [Heq|Hne].
  { exists (Z.to_nat mid). rewrite Z2Nat.id by lia. split_and!; [done|lia|]. left. eauto. }
  destruct (Z.ltb_spec k e.1).
  - apply IH; [lia..|done|]. intros i a Ha Hi. pose proof (elems_le v _ i e a Hok He Ha). lia.
  - apply IH; [lia..| |done]. intros i a Ha Hi. pose proof (elems_le v i _ a e Hok Ha He). lia.
Qed.

Lemma find_any_spec v k : cfra_ok v ->
  exists p, find_any CAPACITY v k (cf_min v) = Some p /\ (p <= cf_size v)%nat /\
    ((exists e, elems v !! p = Some e /\ e.1 = k) \/
     (forall i e, elems v !! i = Some e -> if decide (i < p)%nat then e.1 < k else k < e.1)).
Proof.
  intros Hok. unfold find_any. rewrite last_index_spec by done. destruct (cfra_elems v Hok) as [Hlen _].
  destruct (any_loop_spec v k (S (cf_size v)) 0 (Z.of_nat (cf_size v) - 1)) as (p & Hp & Hle & H);
    [done|lia..| |].
  { intros i e He%lookup_lt_Some ?. lia. }
  rewrite Hp. cbn [mbind option_bind]. rewrite assert_true by (apply Z.leb_le; lia).
  cbn [mbind option_bind]. rewrite Nat2Z.id. eauto.
Qed.

Lemma first_loop_spec v k fuel left right :
  cfra_ok v -> 0 <= left <= right + 1 -> right < Z.of_nat (cf_size v) -> right - left < Z.of_nat fuel ->
  (forall i e, elems v !! i = Some e -> Z.of_nat i < left -> e.1 < k) ->
  (forall i e, elems v !! i = Some e -> right < Z.of_nat i -> k <= e.1) ->
  exists left' right', first_loop CAPACITY fuel (cf_list v) (cf_min v) k left right = Some (left', right') /\
    0 <= left' <= right' + 1 /\ right' <= left' /\ right' < Z.of_nat (cf_size v) /\
    (forall i e, elems v !! i = Some e -> Z.of_nat i < left' -> e.1 < k) /\
    (forall i e, elems v !! i = Some e -> right' < Z.of_nat i -> k <= e.1).
Proof.
  intros Hok. revert left right. induction fuel as [|fuel IH]; intros left right Hl Hr Hf Hlo Hhi;
    cbn [first_loop].
  { destruct (Z.leb_spec right left); [eauto 10|lia]. }
  destruct (Z.leb_spec right left); [eauto 10|].
  pose proof (quot_half (right - left) ltac:(lia)). set (mid := left + Z.quot (right - left) 2) in *.
  destruct (key_at_spec v mid Hok) as (e & He & Hk); [lia|]. rewrite Hk. cbn [mbind option_bind].
  assert (Hge : forall i a, elems v !! i = Some a -> mid <= Z.of_nat i -> e.1 <= a.1).
  { intros i a Ha Hi. apply (elems_le v _ i e a Hok He Ha). lia. }
  destruct (Z.eqb_spec e.1 k) as [Heq|Hne]; [|destruct (Z.ltb_spec k e.1)].
  - apply IH; [lia..|done|]. intros i a Ha Hi. specialize (Hge i a Ha ltac:(lia)). lia.
  - apply IH; [lia..|done|]. intros i a Ha Hi. specialize (Hge i a Ha ltac:(lia)). lia.
  - apply IH; [lia..| |done]. intros i a Ha Hi. pose proof (elems_le v i _ a e Hok Ha He). lia.
Qed.

(** [find_first] splits the entries at the first key that is at least [k]. *)
Lemma find_first_spec v k : cfra_ok v ->
  exists p, find_first CAPACITY v k (cf_min v) = Some p /\ (p <= cf_size v)%nat /\
    kv_below k (elems v) = take p (elems v) /\ kv_from k (elems v) = drop p (elems v).
Proof.
  intros Hok. unfold find_first. rewrite last_index_spec by done. destruct (cfra_elems v Hok) as [Hlen _].
  destruct (first_loop_spec v k (S (cf_size v)) 0 (Z.of_nat (cf_size v) - 1))
    as (lo & hi & Hp & H1 & H2 & H3 & Hlo & Hhi); [done|lia..| |].
  { intros i e He%lookup_lt_Some ?. lia. }
  rewrite Hp. cbn [mbind option_bind]. rewrite assert_true by (apply Z.leb_le; lia). cbn [mbind option_bind].
  destruct (Z.ltb_spec hi lo).
  { exists (Z.to_nat lo). split_and!; [done|lia|..]; apply kv_below_take; intros i e He Hi;
      (apply (Hlo i e He) || apply (Hhi i e He)); lia. }
  destruct (key_at_spec v lo Hok) as (e & He & Hk); [lia|]. rewrite Hk. cbn [mbind option_bind].
  destruct (Z.leb_spec k e.1).
  - exists (Z.to_nat lo). split_and!; [done|lia|..]; apply kv_below_take; intros i a Ha Hi;
      (apply (Hlo i a Ha); lia) || (pose proof (elems_le v _ i e a Hok He Ha); lia).
  - exists (Z.to_nat (lo + 1)). split_and!; [done|lia|..]; apply kv_below_take; intros i a Ha Hi;
      (pose proof (elems_le v i _ a e Hok Ha He); lia) || (apply (Hhi i a Ha); lia).
Qed.

Lemma last_loop_spec v k fuel left right :
  cfra_ok v -> 0 <= left <= right + 1 -> right < Z.of_nat (cf_size v) -> right - left < Z.of_nat fuel ->
  (forall i e, elems v !! i = Some e -> Z.of_nat i < left -> e.1 <= k) ->
  (forall i e, elems v !! i = Some e -> right < Z.of_nat i -> k < e.1) ->
  exists left' right', last_loop CAPACITY fuel (cf_list v) (cf_min v) k left right = Some (left', right') /\
    0 <= left' <= right' + 1 /\ right' <= left' /\ right' < Z.of_nat (cf_size v) /\
    (forall i e, elems v !! i = Some e -> Z.of_nat i < left' -> e.1 <= k) /\
    (forall i e, elems v !! i = Some e -> right' < Z.of_nat i -> k < e.1).
Proof.
  intros Hok. revert left right. induction fuel as [|fuel IH]; intros left right Hl Hr Hf Hlo Hhi;
    cbn [last_loop].
  { destruct (Z.leb_spec right left); [eauto 10|lia]. }
  destruct (Z.leb_spec right left); [eauto 10|].
  pose proof (quot_half (right - left + 1) ltac:(lia)). set (mid := left + Z.quot (right - left + 1) 2) in *.
  destruct (key_at_spec v mid Hok) as (e & He & Hk); [lia|]. rewrite Hk. cbn [mbind option_bind].
  assert (Hle : forall i a, elems v !! i = Some a -> Z.of_nat i <= mid -> a.1 <= e.1).
  { intros i a Ha Hi. apply (elems_le v i _ a e Hok Ha He). lia. }
  destruct (Z.ltb_spec k e.1); [|destruct (Z.ltb_spec e.1 k)].
  - apply IH; [lia..|done|]. intros i a Ha Hi. pose proof (elems_le v _ i e a Hok He Ha). lia.
  - apply IH; [lia..| |done]. intros i a Ha Hi. specialize (Hle i a Ha ltac:(lia)). lia.
  - apply IH; [lia..| |done]. intros i a Ha Hi. specialize (Hle i a Ha ltac:(lia)). lia.
Qed.

(** [find_last] splits them after the last key that is at most [k]. *)
Lemma find_last_spec v k : cfra_ok v ->
  exists p, find_last CAPACITY v k (cf_min v) = Some (Z.of_nat p - 1) /\ (p <= cf_size v)%nat /\
    kv_upto k (elems v) = take p (elems v) /\ kv_above k (elems v) = drop p (elems v).
Proof.
  intros Hok. unfold find_last. rewrite last_index_spec by done. destruct (cfra_elems v Hok) as [Hlen _].
  destruct (last_loop_spec v k (S (cf_size v)) 0 (Z.of_nat (cf_size v) - 1))
    as (lo & hi & Hp & H1 & H2 & H3 & Hlo & Hhi); [done|lia..| |].
  { intros i e He%lookup_lt_Some ?. lia. }
  rewrite Hp. cbn [mbind option_bind]. destruct (Z.ltb_spec hi lo).
  { exists (Z.to_nat (hi + 1)). split_and!; [f_equal; lia|lia|..]; apply kv_upto_take; intros i e He Hi;
      (apply (Hlo i e He) || apply (Hhi i e He)); lia. }
  destruct (key_at_spec v hi Hok) as (e & He & Hk); [lia|]. rewrite Hk. cbn [mbind option_bind].
  destruct (Z.leb_spec e.1 k).
  - exists (Z.to_nat (hi + 1)). split_and!; [f_equal; lia|lia|..]; apply kv_upto_take; intros i a Ha Hi;
      (apply (Hhi i a Ha); lia) || (pose proof (elems_le v i _ a e Hok Ha He); lia).
  - exists (Z.to_nat hi). split_and!; [f_equal; lia|lia|..]; apply kv_upto_take; intros i a Ha Hi;
      (pose proof (elems_le v _ i e a Hok He Ha); lia) || (apply (Hlo i a Ha); lia).
Qed.
End Cfra.
