(* ===== verification/CfraOps.v ===== *)
(** * CfraOps: the operations of the circular multivector

    What every operation of [multivector_cfra] does to the entries, and the
    three properties of the class. *)

From S2P Require Import Prelude KvList ArrayOps MultivectorCfra Cfra.
From S2P Require Prog SvLock SeqLock.

Local Open Scope Z_scope.

Section CfraOps.
Context (CAPACITY : nat) (Hcap64 : Z.of_nat CAPACITY < 2 ^ 63) {V : Type}.
Implicit Types (v self victim : cfra V) (l el es : list (Z * V)) (k : Z) (x : V) (m n i : nat) (e : Z * V).

Local Abbreviation cfra_ok := (@cfra_ok CAPACITY V).
Local Abbreviation read_at := (cfra_read CAPACITY).

(** ** Inserting *)

Lemma upto_above_split k el : mk_sorted el -> exists lo hi, el = lo ++ hi /\
  kv_upto k el = lo /\ kv_above k el = hi /\ (forall e, e ∈ lo -> e.1 <= k) /\ (forall e, e ∈ hi -> k < e.1).
Proof.
  intros Hs. exists (kv_upto k el), (kv_above k el). split_and!; [by apply mk_upto_above|done|done|..];
    intros e; [rewrite elem_of_kv_upto|rewrite elem_of_kv_above]; tauto.
Qed.

(** Storing the new entry in the free slot. *)
Lemma store_new l w n m k x lo hi junk rest :
  length l = CAPACITY -> (m < CAPACITY)%nat -> SeqLock.is_dead w = false ->
  rot m l = lo ++ junk :: hi ++ rest -> (length lo + length hi = n)%nat ->
  mk_sorted (lo ++ (k, x) :: hi) ->
  exists l', store_at l (phys CAPACITY (length lo) m) (k, x) = Some l' /\
    verify_locked CAPACITY (Cfra l' w (n + 1) m) = Some true /\
    cfra_ok (Cfra l' w (n + 1) m) /\ elems (Cfra l' w (n + 1) m) = lo ++ (k, x) :: hi.
Proof.
  intros Hl Hm Hw Hr Hn Hs.
  destruct (rot_write CAPACITY m l lo junk (hi ++ rest) (length lo) (k, x)) as (l' & H1 & Hl' & H2); [done..|].
  exists l'. destruct (cfra_mk CAPACITY l' w (n + 1) m (lo ++ (k, x) :: hi) rest) as [Hok He];
    [done|done|by rewrite H2, <- app_assoc|rewrite length_app; cbn; lia|done|].
  split_and!; try done. by apply verify_locked_ok.
Qed.

Lemma insert_full_cfra k x v : cf_size v = CAPACITY -> insert CAPACITY k x v = Some (MUST_SPLIT, v).
Proof. intros H. unfold insert. by rewrite (proj2 (Nat.eqb_eq _ _) H). Qed.

Lemma insert_room_cfra k x v :
  cfra_ok v -> live v -> (cf_size v < CAPACITY)%nat ->
  exists v', insert CAPACITY k x v = Some (SUCCESS, v') /\ cfra_ok v' /\
    elems v' = mk_insert k x (elems v) /\ cf_lock v' = cf_lock v.
Proof.
  intros Hok Hlive Hn. pose proof Hok as (Hl & Hm & _ & Hs).
  destruct (cfra_elems CAPACITY v Hok) as [Hlen (rest & Hr & Hrest)].
  assert (Hnew : mk_sorted (mk_insert k x (elems v))) by by apply mk_insert_sorted.
  unfold insert. rewrite (proj2 (Nat.eqb_neq _ _)) by lia. unfold mk_insert in *.
  destruct (upto_above_split k (elems v) Hs) as (lo & hi & Hel & Hlo & Hhi & Hle & Hgt).
  rewrite Hlo, Hhi in *. rewrite Hel in *. clear Hlo Hhi. rewrite length_app in Hlen.
  assert (Hdone : forall l' m junk rest', length l' = CAPACITY -> (m < CAPACITY)%nat ->
    rot m l' = lo ++ junk :: hi ++ rest' ->
    exists v', (l'' ← store_at l' (phys CAPACITY (length lo) m) (k, x);
      verify_locked CAPACITY (Cfra l'' (cf_lock v) (cf_size v + 1) m) ;;
      Some (SUCCESS, Cfra l'' (cf_lock v) (cf_size v + 1) m)) = Some (SUCCESS, v') /\ cfra_ok v' /\
      elems v' = lo ++ (k, x) :: hi /\ cf_lock v' = cf_lock v).
  { intros l' m junk rest' Hl' Hm' Hr'.
    destruct (store_new l' (cf_lock v) (cf_size v) m k x lo hi junk rest') as (l'' & H1 & H2 & H3 & H4); [done..|].
    rewrite H1. cbn [mbind option_bind]. rewrite H2. cbn [mbind option_bind]. eauto 6. }
  destruct (Nat.ltb_spec 0 (cf_size v)) as [H0|H0].
  - destruct (lookup_lt_is_Some_2 (lo ++ hi) (cf_size v / 2)) as [c Hc].
    { rewrite length_app, Hlen. apply Nat.div_lt; lia. }
    rewrite <- Hel in Hc. rewrite (read_at v _ c Hok Hc). cbn [mbind option_bind]. rewrite Hel in Hc.
    apply list_elem_of_lookup_2, elem_of_app in Hc. destruct (Z.leb_spec c.1 k) as [Hck|Hck].
    + destruct Hc as [Hc|Hc]; [|specialize (Hgt c Hc); lia].
      destruct lo as [|d lo _] using rev_ind; [by apply elem_of_nil in Hc|].
      destruct rest as [|w rest]; [cbn in Hrest; lia|].
      destruct (shift_right_end_spec CAPACITY (cf_list v) (cf_min v) k lo d hi w rest) as (l' & w' & H1 & H2 & H3);
        [done|done|by rewrite Hr, <- !app_assoc|apply Hle, elem_of_app; right; left|done|].
      rewrite length_app in Hlen, Hdone. cbn [length] in Hlen, Hdone.
      rewrite Hlen in H1. rewrite H1. cbn [mbind option_bind].
      by apply (Hdone l' (cf_min v) w' rest).
    + destruct Hc as [Hc|Hc]; [specialize (Hle c Hc); lia|].
      destruct hi as [|d hi]; [by apply elem_of_nil in Hc|].
      destruct rest as [|z rest _] using rev_ind; [cbn in Hrest; lia|].
      assert (Hd : rot (dec_min_index CAPACITY (cf_min v)) (cf_list v) = [] ++ z :: lo ++ d :: hi ++ rest).
      { apply rot_dec; [done|done|]. rewrite Hr. rewrite <- !app_assoc. cbn. by rewrite <- app_assoc. }
      assert (Hm' : (dec_min_index CAPACITY (cf_min v) < CAPACITY)%nat) by (apply Nat.mod_upper_bound; lia).
      destruct (shift_left_end_spec CAPACITY CAPACITY (cf_list v) (dec_min_index CAPACITY (cf_min v)) k
        [] z lo d (hi ++ rest)) as (l' & w' & H1 & H2 & H3); [done|done|done|apply Hgt; left|done|cbn in Hlen; lia|].
      cbn [length Nat.add app] in H1, H3. rewrite H1. cbn [mbind option_bind].
      by apply (Hdone l' (dec_min_index CAPACITY (cf_min v)) w' rest).
  - destruct lo as [|? lo]; [|cbn in Hlen; lia]. destruct hi as [|? hi]; [|cbn in Hlen; lia].
    destruct rest as [|w rest]; [cbn in Hrest; lia|]. cbn [mbind option_bind].
    by apply (Hdone (cf_list v) (cf_min v) w rest).
Qed.

(** The range insertion inserts as many entries as there is room for. *)
Lemma insert_range_cfra es v :
  cfra_ok v -> live v ->
  exists v', insert_range CAPACITY es v =
      Some (if decide (length es <= CAPACITY - cf_size v)%nat then SUCCESS else MUST_SPLIT,
            drop (CAPACITY - cf_size v) es, v') /\
    cfra_ok v' /\ cf_lock v' = cf_lock v /\
    elems v' = foldl (fun el e => mk_insert e.1 e.2 el) (elems v) (take (CAPACITY - cf_size v) es).
Proof.
  revert v. induction es as [|e es IH]; intros v Hok Hlive; cbn [insert_range].
  { exists v. rewrite decide_True by (cbn; lia). rewrite drop_nil, take_nil. done. }
  pose proof Hok as (_ & _ & Hn & Hs).
  destruct (decide (cf_size v = CAPACITY)) as [Hf|Hf].
  { rewrite insert_full_cfra by done. cbn [mbind option_bind]. rewrite Hf, Nat.sub_diag, decide_False by (cbn; lia).
    exists v. done. }
  destruct (insert_room_cfra e.1 e.2 v Hok Hlive) as (v1 & H1 & Hok1 & He1 & Hk1); [lia|].
  rewrite H1. cbn [mbind option_bind].
  assert (Hn1 : cf_size v1 = S (cf_size v)).
  { destruct (cfra_elems CAPACITY v Hok) as [<- _]. destruct (cfra_elems CAPACITY v1 Hok1) as [<- _].
    rewrite He1. by apply mk_insert_length. }
  destruct (IH v1) as (v' & H2 & Hok' & Hk' & He'); [done|by unfold live; rewrite Hk1|].
  exists v'. rewrite H2. replace (CAPACITY - cf_size v)%nat with (S (CAPACITY - cf_size v1)) by lia.
  split_and!; [|done|congruence|by rewrite He', He1]. cbn [length drop].
  repeat case_decide; done || lia.
Qed.

(** ** Removing *)

Lemma remove_cfra k v :
  cfra_ok v -> live v ->
  exists v', remove CAPACITY k v = Some (kv_lookup k (elems v), v') /\ cfra_ok v' /\
    elems v' = mk_remove k (elems v) /\ cf_lock v' = cf_lock v.
Proof.
  intros Hok Hlive. pose proof Hok as (Hl & Hm & _ & Hs).
  destruct (cfra_elems CAPACITY v Hok) as [Hlen (rest & Hr & Hrest)].
  destruct (find_first_spec CAPACITY Hcap64 v k Hok) as (p & Hp & Hle & Hb & Hf).
  unfold remove. rewrite Hp. cbn [mbind option_bind].
  assert (Hlo : forall e, e ∈ take p (elems v) -> e.1 < k).
  { intros e. rewrite <- Hb, elem_of_kv_below. tauto. }
  assert (Hge : forall e, e ∈ drop p (elems v) -> k <= e.1).
  { intros e. rewrite <- Hf, elem_of_kv_from. tauto. }
  assert (Habs : (forall e, e ∈ drop p (elems v) -> k < e.1) -> kv_lookup k (elems v) = None).
  { intros Hgt. apply kv_lookup_None. intros e. rewrite <- (take_drop p (elems v)), elem_of_app.
    intros [H|H]; [specialize (Hlo e H)|specialize (Hgt e H)]; lia. }
  destruct (Nat.leb_spec (cf_size v) p) as [Hp0|Hp0]; cbn [mbind option_bind].
  { assert (Hn : kv_lookup k (elems v) = None).
    { apply Habs. rewrite drop_ge by lia. by intros e ?%elem_of_nil. }
    rewrite Hn. exists v. by rewrite mk_remove_absent. }
  destruct (lookup_lt_is_Some_2 (elems v) p) as [e He]; [lia|].
  rewrite (read_at v p e Hok He). cbn [mbind option_bind].
  rewrite (drop_S _ e p He) in *. destruct (Z.ltb_spec k e.1) as [Hk|Hk].
  { assert (Hn : kv_lookup k (elems v) = None).
    { apply Habs. intros a [->|Ha]%elem_of_cons; [done|].
      assert (Hd : mk_sorted (take p (elems v) ++ e :: drop (S p) (elems v))) by by rewrite <- drop_S, take_drop.
      apply mk_sorted_app in Hd as (_ & [Hd _]%StronglySorted_cons & _). rewrite Forall_forall in Hd.
      specialize (Hd a Ha). unfold kv_le in Hd. lia. }
    rewrite Hn. exists v. by rewrite mk_remove_absent. }
  assert (e.1 = k) as Hek by (specialize (Hge e ltac:(left)); lia). destruct e as [k' y]. cbn in Hek. subst k'.
  set (lo := take p (elems v)) in *. set (hi := drop (S p) (elems v)) in *.
  assert (Hel : elems v = lo ++ (k, y) :: hi) by (unfold lo, hi; by rewrite take_drop_middle).
  assert (Hlp : length lo = p) by (unfold lo; rewrite length_take; lia).
  assert (Hlh : length hi = (cf_size v - 1 - p)%nat) by (unfold hi; rewrite length_drop; lia).
  rewrite Hel, mk_lookup_app, mk_remove_app by done. rewrite Hel in Hr, Hs.
  assert (Hs' : mk_sorted (lo ++ hi)).
  { apply mk_sorted_app in Hs as (H1 & [_ H2]%StronglySorted_cons & H3). apply mk_sorted_app.
    split_and!; [done|done|]. intros a b Ha Hb'. apply H3; [done|by right]. }
  assert (Hdone : forall l' m rest', length l' = CAPACITY -> (m < CAPACITY)%nat ->
    rot m l' = (lo ++ hi) ++ rest' ->
    let v' := Cfra l' (cf_lock v) (cf_size v - 1) m in
    verify_locked CAPACITY v' = Some true /\ cfra_ok v' /\ elems v' = lo ++ hi).
  { intros l' m rest' Hl' Hm' Hr' v'.
    destruct (cfra_mk CAPACITY l' (cf_lock v) (cf_size v - 1) m (lo ++ hi) rest') as [Hok' He'];
      [done|done|done|rewrite length_app; lia|done|].
    split_and!; [by apply verify_locked_ok|done|done]. }
  destruct (Nat.leb_spec (cf_size v / 2) p).
  - destruct (close_right_spec CAPACITY (cf_list v) (cf_min v) lo (k, y) hi rest) as (l' & w & H1 & H2 & H3);
      [done|done|by rewrite Hr, <- app_assoc|]. rewrite Hlp, Hlh in H1. rewrite H1. cbn [mbind option_bind].
    destruct (Hdone l' (cf_min v) (w :: rest)) as (H4 & H5 & H6); [done..|]. rewrite H4. cbn [mbind option_bind].
    eauto.
  - destruct (close_left_spec CAPACITY (cf_list v) (cf_min v) lo (k, y) (hi ++ rest)) as (l' & w & H1 & H2 & H3);
      [done|done|by rewrite Hr, <- app_assoc|]. rewrite Hlp in H1. rewrite H1. cbn [mbind option_bind].
    destruct (Hdone l' (inc_min_index CAPACITY (cf_min v)) (rest ++ [w])) as (H4 & H5 & H6);
      [done|apply Nat.mod_upper_bound; lia|rewrite (rot_inc CAPACITY _ _ _ _ H2 Hm H3); by rewrite <- !app_assoc|].
    rewrite H4. cbn [mbind option_bind]. eauto.
Qed.

(** The minimum, or [false] when there is none. *)
Lemma extract_min_cfra v :
  cfra_ok v ->
  exists v', extract_min CAPACITY v = Some (head (elems v), v') /\ cfra_ok v' /\
    elems v' = tail (elems v) /\ cf_lock v' = cf_lock v.
Proof.
  intros Hok. pose proof Hok as (Hl & Hm & _ & Hs).
  destruct (cfra_elems CAPACITY v Hok) as [Hlen (rest & Hr & Hrest)].
  unfold extract_min. destruct (elems v) as [|e el] eqn:Hel.
  { rewrite <- Hlen. cbn. exists v. by rewrite Hel. }
  rewrite (proj2 (Nat.eqb_neq _ _)) by (cbn in Hlen; lia).
  rewrite (read_at v 0 e Hok) by (by rewrite Hel). cbn [mbind option_bind head hd_error tail].
  destruct (cfra_mk CAPACITY (cf_list v) (cf_lock v) (cf_size v - 1) (inc_min_index CAPACITY (cf_min v)) el (rest ++ [e]))
    as [Hok' He']; [done|apply Nat.mod_upper_bound; lia| |cbn in Hlen; lia| |eauto].
  - rewrite (rot_inc CAPACITY _ _ _ _ Hl Hm Hr). by rewrite <- app_assoc.
  - by apply StronglySorted_cons in Hs as [_ Hs].
Qed.

(** ** Moving entries between vectors *)

Lemma halves n : (n / 2 + (n + 1) / 2 = n)%nat /\ (n / 2 <= n)%nat.
Proof.
  pose proof (Nat.div_mod_eq n 2). pose proof (Nat.mod_upper_bound n 2).
  pose proof (Nat.div_mod_eq (n + 1) 2). pose proof (Nat.mod_upper_bound (n + 1) 2). lia.
Qed.

(** The victim keeps its first [p] entries. *)
Lemma victim_prefix v p : cfra_ok v -> (p <= cf_size v)%nat ->
  let v' := Cfra (cf_list v) (cf_lock v) p (cf_min v) in
  cfra_ok v' /\ elems v' = take p (elems v).
Proof.
  intros Hok Hp. pose proof Hok as (Hl & Hm & Hn & Hs). destruct (cfra_elems CAPACITY v Hok) as [Hlen (rest & Hr & _)].
  apply (cfra_mk CAPACITY _ _ _ _ _ (drop p (elems v) ++ rest)); [done|done| |rewrite length_take; lia|].
  - rewrite Hr, app_assoc. by rewrite take_drop.
  - rewrite <- (take_drop p (elems v)) in Hs. by apply mk_sorted_app in Hs as [Hs _].
Qed.

(** An array whose first entries are [el], with [min_index] zero. *)
Lemma prefix_vector l w el :
  length l = CAPACITY -> (1 <= CAPACITY)%nat -> take (length el) l = el -> mk_sorted el ->
  cfra_ok (Cfra l w (length el) 0) /\ elems (Cfra l w (length el) 0) = el.
Proof.
  intros Hl Hc He Hs. apply (cfra_mk CAPACITY _ _ _ _ _ (drop (length el) l)); [done|lia| |done|done].
  unfold rot. rewrite drop_0, take_0, app_nil_r. rewrite <- (take_drop (length el) l) at 1. by rewrite He.
Qed.

(** The entries a copy takes: the content from [p] on. *)
Lemma copied v l dpos p n :
  cfra_ok v -> (p + n = cf_size v)%nat -> (dpos + n <= length l)%nat ->
  exists l', copy_entries CAPACITY l dpos (cf_list v) ((cf_min v + p) mod CAPACITY) n = Some l' /\
    length l' = length l /\ take (dpos + n) l' = take dpos l ++ drop p (elems v).
Proof.
  intros Hok Hp Hd. pose proof Hok as (Hl & Hm & Hn & Hs).
  destruct (copy_entries_spec CAPACITY l dpos (cf_list v) (cf_min v) p n) as (l' & H1 & H2 & H3);
    [done|done|lia|done|]. exists l'. split_and!; [done|done|]. rewrite H3. f_equal.
  unfold elems. rewrite <- Hp. by rewrite skipn_firstn_comm, Nat.add_comm, Nat.add_sub.
Qed.

Lemma split_insert_cfra k x self victim :
  length (cf_list self) = CAPACITY -> (1 <= CAPACITY)%nat -> cf_min self = 0%nat -> live self ->
  cfra_ok victim -> live victim -> (length (kv_above k (elems victim)) < CAPACITY)%nat ->
  exists self' victim', split_insert CAPACITY k x self victim = Some (true, (self', victim')) /\
    cfra_ok self' /\ cfra_ok victim' /\ cf_lock self' = cf_lock self /\ cf_lock victim' = cf_lock victim /\
    elems self' = (k, x) :: kv_above k (elems victim) /\ elems victim' = kv_upto k (elems victim).
Proof.
  intros Hl Hc Hmin Hself Hok Hlive Hroom. pose proof Hok as (_ & _ & _ & Hs).
  destruct (cfra_elems CAPACITY victim Hok) as [Hlen _].
  destruct (find_last_spec CAPACITY Hcap64 victim k Hok) as (p & Hp & Hle & Hu & Ha).
  unfold split_insert. rewrite Hp. cbn [mbind option_bind]. rewrite Z.sub_add, Nat2Z.id.
  assert (Hcnt : length (kv_above k (elems victim)) = (cf_size victim - p)%nat) by (rewrite Ha, length_drop; lia).
  rewrite assert_true by (apply Nat.leb_le; lia). cbn [mbind option_bind].
  rewrite store_at_spec by lia. cbn [mbind option_bind].
  destruct (copied victim (<[0%nat := (k, x)]> (cf_list self)) 1 p (cf_size victim - p)) as (l' & H1 & H2 & H3);
    [done|lia|rewrite length_insert; lia|]. rewrite H1. cbn [mbind option_bind].
  rewrite length_insert in H2. rewrite (take_store _ 0) in H3 by lia. cbn [take app] in H3.
  destruct (prefix_vector l' (cf_lock self) ((k, x) :: kv_above k (elems victim))) as [Ho1 He1]; [lia|done|..].
  { cbn [length]. rewrite Hcnt. by rewrite Ha. }
  { apply (mk_insert_sorted k x) in Hs. unfold mk_insert in Hs. by apply mk_sorted_app in Hs as (_ & Hs & _). }
  destruct (victim_prefix victim p Hok Hle) as [Ho2 He2]. cbn [length] in *. rewrite Hcnt in *.
  replace (cf_size victim - (cf_size victim - p))%nat with p by lia. rewrite Hmin.
  do 2 (rewrite verify_locked_ok by done; cbn [mbind option_bind]).
  do 2 eexists. split; [done|]. split_and!; try done. by rewrite Hu.
Qed.

Lemma steal_half_cfra self victim :
  length (cf_list self) = CAPACITY -> (1 <= CAPACITY)%nat -> cf_min self = 0%nat -> live self ->
  cfra_ok victim -> live victim ->
  exists self' victim', steal_half CAPACITY self victim = Some (self', victim') /\
    cfra_ok self' /\ cfra_ok victim' /\ cf_lock self' = cf_lock self /\ cf_lock victim' = cf_lock victim /\
    elems self' = drop (cf_size victim / 2) (elems victim) /\
    elems victim' = take (cf_size victim / 2) (elems victim).
Proof.
  intros Hl Hc Hmin Hself Hok Hlive. pose proof Hok as (_ & _ & Hn & Hs).
  destruct (cfra_elems CAPACITY victim Hok) as [Hlen _].
  unfold steal_half. rewrite assert_true by (by apply Nat.leb_le). cbn [mbind option_bind].
  set (n := cf_size victim) in *.
  destruct (halves n) as [Hsum Hle]. replace (n - (n + 1) / 2)%nat with (n / 2)%nat by lia.
  destruct (copied victim (cf_list self) 0 (n / 2) ((n + 1) / 2)) as (l' & H1 & H2 & H3); [done|done|lia|].
  rewrite H1. cbn [mbind option_bind].
  assert (Hcnt : length (drop (n / 2) (elems victim)) = ((n + 1) / 2)%nat) by (rewrite length_drop; lia).
  destruct (prefix_vector l' (cf_lock self) (drop (n / 2) (elems victim))) as [Ho1 He1]; [lia|done|by rewrite Hcnt|..].
  { rewrite <- (take_drop (n / 2) (elems victim)) in Hs. by apply mk_sorted_app in Hs as (_ & Hs & _). }
  destruct (victim_prefix victim (n / 2) Hok Hle) as [Ho2 He2]. rewrite Hcnt in *. rewrite Hmin.
  do 2 (rewrite verify_locked_ok by done; cbn [mbind option_bind]). eauto 10.
Qed.

(** ** Queries *)

Lemma lookup_first k v p :
  cfra_ok v -> (p <= cf_size v)%nat ->
  kv_below k (elems v) = take p (elems v) -> kv_from k (elems v) = drop p (elems v) ->
  kv_lookup k (elems v) = match elems v !! p with
    | Some e => if e.1 =? k then Some e.2 else None
    | None => None
    end.
Proof.
  intros Hok Hp Hb Hf. pose proof Hok as (_ & _ & _ & Hs). destruct (cfra_elems CAPACITY v Hok) as [Hlen _].
  assert (Hlo : forall e, e ∈ take p (elems v) -> e.1 < k) by (intros e; rewrite <- Hb, elem_of_kv_below; tauto).
  assert (Hge : forall e, e ∈ drop p (elems v) -> k <= e.1) by (intros e; rewrite <- Hf, elem_of_kv_from; tauto).
  destruct (elems v !! p) as [e|] eqn:He.
  - rewrite <- (take_drop_middle _ p e He). destruct (Z.eqb_spec e.1 k) as [Hk|Hk].
    + rewrite (surjective_pairing e), Hk. by apply mk_lookup_app.
    + apply kv_lookup_None. rewrite (drop_S _ e p He) in Hge. rewrite <- (take_drop_middle _ p e He) in Hs.
      apply mk_sorted_app in Hs as (_ & [Hd _]%StronglySorted_cons & _). rewrite Forall_forall in Hd.
      pose proof (Hge e ltac:(left)). intros a [Ha|[->|Ha]%elem_of_cons]%elem_of_app; [|done|].
      * specialize (Hlo a Ha). lia.
      * specialize (Hd a Ha). unfold kv_le in Hd. lia.
  - apply lookup_ge_None in He. rewrite take_ge in Hlo by lia. apply kv_lookup_None.
    intros e Hin. specialize (Hlo e Hin). lia.
Qed.

Lemma contains_cfra k v : cfra_ok v -> contains CAPACITY k v = Some (kv_lookup k (elems v)).
Proof.
  intros Hok. destruct (find_first_spec CAPACITY Hcap64 v k Hok) as (p & Hp & Hle & Hb & Hf).
  rewrite (lookup_first k v p) by done. destruct (cfra_elems CAPACITY v Hok) as [Hlen _].
  unfold contains. rewrite Hp. cbn [mbind option_bind]. destruct (Nat.leb_spec (cf_size v) p).
  { by rewrite (lookup_ge_None_2 (elems v)) by lia. }
  destruct (lookup_lt_is_Some_2 (elems v) p) as [e He]; [lia|]. rewrite He, (read_at v p e Hok He).
  cbn [mbind option_bind]. by destruct (e.1 =? k).
Qed.

Lemma contains_key_cfra k v :
  cfra_ok v -> contains_key CAPACITY k v = Some (bool_decide (is_Some (kv_lookup k (elems v)))).
Proof.
  intros Hok. destruct (find_any_spec CAPACITY Hcap64 v k Hok) as (p & Hp & Hle & Hc).
  destruct (cfra_elems CAPACITY v Hok) as [Hlen _].
  unfold contains_key. rewrite Hp. cbn [mbind option_bind]. destruct Hc as [(e & He & Hk)|Hc].
  - pose proof (lookup_lt_Some _ _ _ He). rewrite (proj2 (Nat.ltb_lt _ _)) by lia.
    rewrite (read_at v p e Hok He). cbn [mbind option_bind]. rewrite Hk, Z.eqb_refl, bool_decide_eq_true_2; [done|].
    destruct (kv_lookup k (elems v)) eqn:Hl; [done|]. apply list_elem_of_lookup_2 in He.
    apply kv_lookup_None with (e := e) in Hl; done.
  - rewrite bool_decide_eq_false_2.
    2:{ intros [y Hy%kv_lookup_elem]. apply list_elem_of_lookup in Hy as [i Hi]. specialize (Hc i _ Hi).
        cbn in Hc. case_decide; lia. }
    destruct (Nat.ltb_spec p (cf_size v)); [|done].
    destruct (lookup_lt_is_Some_2 (elems v) p) as [e He]; [lia|]. rewrite (read_at v p e Hok He).
    cbn [mbind option_bind]. specialize (Hc p e He). rewrite decide_False in Hc by lia.
    by rewrite (proj2 (Z.eqb_neq _ _)) by lia.
Qed.

Lemma find_lte_cfra k v : cfra_ok v -> find_lte CAPACITY k v = Some (snd <$> kv_lte k (elems v)).
Proof.
  intros Hok. destruct (find_last_spec CAPACITY Hcap64 v k Hok) as (p & Hp & Hle & Hu & _).
  destruct (cfra_elems CAPACITY v Hok) as [Hlen _].
  unfold find_lte, kv_lte. rewrite Hp, Hu. cbn [mbind option_bind]. destruct p as [|p]; [done|].
  destruct (Z.ltb_spec (Z.of_nat (S p) - 1) 0); [lia|]. replace (Z.to_nat (Z.of_nat (S p) - 1)) with p by lia.
  destruct (lookup_lt_is_Some_2 (elems v) p) as [e He]; [lia|]. rewrite (read_at v p e Hok He).
  cbn [mbind option_bind]. by rewrite (take_S_r _ p e He), last_snoc.
Qed.

Lemma at_cfra i v : cfra_ok v ->
  at_ CAPACITY i v = fst <$> elems v !! i /\ value_at CAPACITY i v = snd <$> elems v !! i.
Proof.
  intros Hok. destruct (cfra_elems CAPACITY v Hok) as [Hlen _]. unfold at_, value_at.
  destruct (Nat.ltb_spec i (cf_size v)); cbn [assert_ mbind option_bind].
  - destruct (lookup_lt_is_Some_2 (elems v) i) as [e He]; [lia|]. by rewrite (read_at v i e Hok He), He.
  - by rewrite lookup_ge_None_2 by lia.
Qed.

Lemma ends_cfra v : cfra_ok v ->
  first CAPACITY v = kv_first (elems v) /\ last CAPACITY v = Some (kv_last (elems v)) /\
  max_key CAPACITY v = kv_last (elems v).
Proof.
  intros Hok. pose proof Hok as (_ & _ & Hn & _). destruct (cfra_elems CAPACITY v Hok) as [Hlen _].
  unfold first, last, max_key, kv_first, kv_last. rewrite last_lookup, head_lookup.
  rewrite (assert_true (_ <=? CAPACITY)%nat) by (by apply Nat.leb_le). rewrite Hlen.
  destruct (Nat.eqb_spec (cf_size v) 0) as [H0|H0].
  { rewrite H0 in *. by destruct (elems v). }
  rewrite (assert_true (1 <=? cf_size v)%nat) by (apply Nat.leb_le; lia).
  rewrite (proj2 (Nat.ltb_lt 0 (cf_size v))) by lia. cbn [mbind option_bind].
  destruct (lookup_lt_is_Some_2 (elems v) 0) as [a Ha]; [lia|].
  destruct (lookup_lt_is_Some_2 (elems v) (cf_size v - 1)) as [b Hb]; [lia|].
  replace (pred (cf_size v)) with (cf_size v - 1)%nat by lia.
  by rewrite (read_at v _ a Hok Ha), (read_at v _ b Hok Hb), Ha, Hb.
Qed.

(** the circular multivector is a stable sorted multimap.  On every
    vector whose entries are sorted, an insertion puts the entry after those
    with the same key, or asks for a split when the vector is full; the
    insertion of a range stops at the first entry without room; a removal
    takes the first entry with the key and returns its value, or changes
    nothing when there is none; and [extract_min] takes the first entry.  Each
    keeps the invariant: the array size, the sizes, the order and the lock. *)
Theorem cfra_updates_correct k x es v :
  cfra_ok v -> live v ->
  (cf_size v = CAPACITY -> insert CAPACITY k x v = Some (MUST_SPLIT, v)) /\
  ((cf_size v < CAPACITY)%nat -> exists v', insert CAPACITY k x v = Some (SUCCESS, v') /\
    cfra_ok v' /\ elems v' = mk_insert k x (elems v) /\ cf_lock v' = cf_lock v) /\
  (exists v', insert_range CAPACITY es v =
      Some (if decide (length es <= CAPACITY - cf_size v)%nat then SUCCESS else MUST_SPLIT,
            drop (CAPACITY - cf_size v) es, v') /\
    cfra_ok v' /\ cf_lock v' = cf_lock v /\
    elems v' = foldl (fun el e => mk_insert e.1 e.2 el) (elems v) (take (CAPACITY - cf_size v) es)) /\
  (exists v', remove CAPACITY k v = Some (kv_lookup k (elems v), v') /\ cfra_ok v' /\
    elems v' = mk_remove k (elems v) /\ cf_lock v' = cf_lock v) /\
  (exists v', extract_min CAPACITY v = Some (head (elems v), v') /\ cfra_ok v' /\
    elems v' = tail (elems v) /\ cf_lock v' = cf_lock v).
Proof.
  intros Hok Hlive. split_and!.
  - apply insert_full_cfra.
  - by apply insert_room_cfra.
  - by apply insert_range_cfra.
  - by apply remove_cfra.
  - by apply extract_min_cfra.
Qed.

(** splitting a circular multivector neither loses nor reorders
    entries.  Into a vector whose [min_index] is zero, [split_insert] moves
    the entries above the key behind the new one and leaves the others to the
    victim, whether or not they wrap around the end of the victim's array, and
    [steal_half] moves the upper half; afterwards both vectors satisfy the
    invariant and the victim's entries followed by the new vector's are the
    old ones, with the new entry inserted stably. *)
Theorem cfra_moves_correct k x self victim :
  length (cf_list self) = CAPACITY -> (1 <= CAPACITY)%nat -> cf_min self = 0%nat -> live self ->
  cfra_ok victim -> live victim ->
  ((length (kv_above k (elems victim)) < CAPACITY)%nat ->
   exists self' victim', split_insert CAPACITY k x self victim = Some (true, (self', victim')) /\
    cfra_ok self' /\ cfra_ok victim' /\ cf_lock self' = cf_lock self /\ cf_lock victim' = cf_lock victim /\
    elems victim' = kv_upto k (elems victim) /\ elems victim' ++ elems self' = mk_insert k x (elems victim)) /\
  (exists self' victim', steal_half CAPACITY self victim = Some (self', victim') /\
    cfra_ok self' /\ cfra_ok victim' /\ cf_lock self' = cf_lock self /\ cf_lock victim' = cf_lock victim /\
    length (elems victim') = (cf_size victim / 2)%nat /\ elems victim' ++ elems self' = elems victim).
Proof.
  intros Hl Hc Hmin Hself Hok Hlive. split.
  - intros Hroom. destruct (split_insert_cfra k x self victim) as (s & u & H1 & H2 & H3 & H4 & H5 & H6 & H7); [done..|].
    exists s, u. split_and!; try done. by rewrite H6, H7.
  - destruct (steal_half_cfra self victim) as (s & u & H1 & H2 & H3 & H4 & H5 & H6 & H7); [done..|].
    exists s, u. rewrite H6, H7, take_drop, length_take. destruct (cfra_elems CAPACITY victim Hok) as [-> _].
    split_and!; try done. destruct (halves (cf_size victim)). lia.
Qed.

(** The searches and checks of the circular multivector.  The binary
    searches end and every query agrees with the sorted entries: [contains]
    finds the first entry with the key, [find_lte] the last entry that is at
    most it, [contains(k)] decides presence, and [first], [last], [max_key],
    [at] and [value_at] read the entries at their positions, failing exactly
    when there is none; and [verify_locked] accepts exactly the vectors that
    satisfy the invariant and whose lock is not dead. *)
Theorem cfra_queries_correct k i v :
  cfra_ok v ->
  contains CAPACITY k v = Some (kv_lookup k (elems v)) /\
  contains_key CAPACITY k v = Some (bool_decide (is_Some (kv_lookup k (elems v)))) /\
  find_lte CAPACITY k v = Some (snd <$> kv_lte k (elems v)) /\
  at_ CAPACITY i v = fst <$> elems v !! i /\ value_at CAPACITY i v = snd <$> elems v !! i /\
  first CAPACITY v = kv_first (elems v) /\ last CAPACITY v = Some (kv_last (elems v)) /\
  max_key CAPACITY v = kv_last (elems v) /\
  (forall u, length (cf_list u) = CAPACITY -> (cf_min u < CAPACITY)%nat ->
    verify_locked CAPACITY u = Some true <-> cfra_ok u /\ live u).
Proof.
  intros Hok. destruct (at_cfra i v Hok). destruct (ends_cfra v Hok) as (? & ? & ?).
  split_and!; try done; [by apply contains_cfra|by apply contains_key_cfra|by apply find_lte_cfra|].
  intros u. apply verify_locked_iff.
Qed.
End CfraOps.

(** ** Witnesses *)

(** Entries that wrap around the end of the array, two of them with one key. *)
Definition demo_cfra : cfra Z :=
  Cfra [(20, 2); (20, 3); (30, 4); (0, 0); (0, 0); (10, 1)] 0 4 5.

Lemma demo_cfra_ok : cfra_ok 6 demo_cfra.
Proof.
  assert (He : elems demo_cfra = [(10, 1); (20, 2); (20, 3); (30, 4)]) by reflexivity.
  unfold cfra_ok. rewrite He. cbn. split_and!; try done; try lia.
  apply sorted_adjacent. intros [|[|[|[|j]]]] a b; cbn; intros; simplify_eq; cbn; lia.
Qed.

Lemma cap6 : Z.of_nat 6 < 2 ^ 63.
Proof. lia. Qed.

Lemma cfra_updates_correct_witness :
  exists v', insert 6 20 9 demo_cfra = Some (SUCCESS, v') /\
    elems v' = [(10, 1); (20, 2); (20, 3); (20, 9); (30, 4)].
Proof.
  destruct (cfra_updates_correct 6 cap6 20 9 [] demo_cfra demo_cfra_ok eq_refl) as (_ & H & _).
  destruct (H ltac:(cbn; lia)) as (v' & H1 & _ & H2 & _). exists v'. split; [exact H1|].
  rewrite H2. vm_compute. reflexivity.
Defined.

Lemma cfra_moves_correct_witness :
  exists s u, split_insert 6 20 9 (cfra_new 6 (7, 7)) demo_cfra = Some (true, (s, u)) /\
    elems u = [(10, 1); (20, 2); (20, 3)] /\ elems u ++ elems s = mk_insert 20 9 (elems demo_cfra).
Proof.
  destruct (cfra_moves_correct 6 cap6 20 9 (cfra_new 6 (7, 7)) demo_cfra eq_refl ltac:(lia) eq_refl eq_refl
    demo_cfra_ok eq_refl) as [H _].
  destruct (H ltac:(vm_compute; lia)) as (s & u & H1 & _ & _ & _ & _ & H2 & H3).
  exists s, u. split_and!; [exact H1|rewrite H2; vm_compute; reflexivity|exact H3].
Defined.

Lemma cfra_queries_correct_witness :
  contains 6 20 demo_cfra = Some (Some 2) /\ find_lte 6 20 demo_cfra = Some (Some 3).
Proof.
  destruct (cfra_queries_correct 6 cap6 20 0 demo_cfra demo_cfra_ok) as (H1 & _ & H2 & _).
  split; [rewrite H1|rewrite H2]; vm_compute; reflexivity.
Defined.

(** ** What modelling showed *)

(** [insert_seq] returns the enumeration as a [bool]: false on success, true
    when the vector is full. *)
Lemma cfra_insert_seq_inverted k x (v : cfra Z) :
  cfra_ok 6 v -> live v ->
  exists v', insert_seq 6 k x v = Some (bool_decide (cf_size v = 6)%nat, v').
Proof.
  intros Hok Hlive. pose proof Hok as (_ & _ & Hn & _). unfold insert_seq.
  destruct (decide (cf_size v = 6)%nat) as [Hf|Hf].
  - rewrite insert_full_cfra by done. cbn [mbind option_bind bool_of_result]. by rewrite bool_decide_eq_true_2; eauto.
  - destruct (insert_room_cfra 6 k x v Hok Hlive) as (v' & H & _); [lia|]. rewrite H.
    cbn [mbind option_bind bool_of_result]. rewrite bool_decide_eq_false_2; eauto.
Qed.

(** An empty vector whose minimum was extracted has [min_index] one.
    [split_insert] into it stores from slot 0 and does not reset [min_index]:
    the new entry is out of the logical range, and the check throws. *)
Lemma cfra_split_needs_min_zero :
  (r ← insert 4 5 0 (cfra_new 4 (0, 0));
   r' ← extract_min 4 r.2;
   Some (cf_size r'.2, cf_min r'.2, split_insert 4 15 9 r'.2 (Cfra [(10, 1); (20, 2); (30, 3); (0, 0)] 0 3 0)))
  = Some (0%nat, 1%nat, None).
Proof. vm_compute. reflexivity. Qed.
