(* ===== verification/AsrWord.v ===== *)
(** * AsrWord: the counters of the two-phase multivector

    The word arithmetic of [multivector_asr]: the [cas_counter] packs a number
    of reserved insertions (32 bits), a lock bit and a version number (31
    bits), and has two special values.  The first part translates the helpers
    of the class; the second shows what they compute on a packed word. *)

From S2P Require Import Prelude.

Local Open Scope Z_scope.

Definition INSERT_MASK : Z := 0xFFFFFFFF.
Definition LOCK_BIT : Z := 0x100000000.
Definition VERSION_LOWEST_BIT : Z := 0x200000000.
Definition EXTRACTION_STATE_VALUE : Z := 0xFFFFFFFFFFFFFFFF.

(** The two special answers of [reserve_for_insertion]. *)
Definition EXTRACT_ONLY : Z := 0xFFFFFFFFFFFFFFFF.
Definition VERSION_CHECK_FAIL : Z := 0xFFFFFFFFFFFFFFFE.

(** [enum state_t] *)
Inductive state_t := FAA_INSERTION | CAS_INSERTION | LOCKED | EXTRACTION.

#[export] Instance state_t_eq_dec : EqDecision state_t.
Proof. solve_decision. Defined.

Definition get_state (counter : Z) : state_t :=
  if counter =? 0 then FAA_INSERTION
  else if counter =? EXTRACTION_STATE_VALUE then EXTRACTION
  else if Z.land counter LOCK_BIT =? LOCK_BIT then LOCKED
  else CAS_INSERTION.

Definition is_insertion_state (state : state_t) : bool :=
  match state with CAS_INSERTION | FAA_INSERTION => true | _ => false end.

Definition get_insert_counter (counter : Z) : Z := Z.land counter INSERT_MASK.

Definition get_valid_reservations (CAPACITY : nat) (counter : Z) : Z :=
  let result := get_insert_counter counter in
  if Z.of_nat CAPACITY <? result then Z.of_nat CAPACITY else result.

Definition get_version_counter (counter : Z) : Z := counter / VERSION_LOWEST_BIT.

(** [counter & ~INSERT_MASK], then [+= count] *)
Definition set_insert_counter (counter count : Z) : option Z :=
  assert_ (count <=? INSERT_MASK) ;;
  Some (u64 (Z.land counter (Z.lnot INSERT_MASK) + count)).

(** [(CAPACITY / 2) + 1] *)
Definition FAA_CAPACITY (CAPACITY : nat) : Z := Z.of_nat (CAPACITY / 2) + 1.

(** ** Packed words *)

(** The word of version [v], lock bit [b] and [n] reserved insertions. *)
Definition pack (v : Z) (b : bool) (n : Z) : Z :=
  VERSION_LOWEST_BIT * v + (LOCK_BIT * Z.b2z b + n).

(** Words that are not the one of the extraction state. *)
Definition word_ok (v n : Z) : Prop := 0 <= v < 2 ^ 31 - 1 /\ 0 <= n < 2 ^ 32.

Lemma land_bit32 x : Z.land x LOCK_BIT = LOCK_BIT * ((x / LOCK_BIT) mod 2).
Proof.
  change LOCK_BIT with (2 ^ 32). rewrite <- Z.testbit_spec' by lia.
  apply Z.bits_inj'. intros i Hi. rewrite Z.land_spec, Z.pow2_bits_eqb by lia.
  rewrite Z.mul_comm, <- Z.shiftl_mul_pow2, Z.shiftl_spec by lia.
  destruct (Z.eqb_spec 32 i) as [<-|Hne].
  - rewrite andb_true_r. rewrite Z.sub_diag. by destruct (Z.testbit x 32).
  - rewrite andb_false_r. destruct (decide (i < 32)); [by rewrite Z.testbit_neg_r by lia|].
    destruct (Z.testbit x 32); cbn [Z.b2z]; [|by rewrite Z.bits_0].
    symmetry. apply Z.bits_above_log2; cbn; lia.
Qed.

Section Pack.
Context (v n : Z) (b : bool) (Hok : word_ok v n).

Lemma pack_range : is_u64 (pack v b n).
Proof using Hok.
  unfold word_ok, pack, is_u64, VERSION_LOWEST_BIT, LOCK_BIT in *. destruct b; cbn [Z.b2z]; lia.
Qed.

Lemma pack_below : pack v b n < 0xFFFFFFFF00000000.
Proof using Hok.
  unfold word_ok, pack, VERSION_LOWEST_BIT, LOCK_BIT in *. destruct b; cbn [Z.b2z]; lia.
Qed.

Lemma pack_insert : get_insert_counter (pack v b n) = n.
Proof using Hok.
  unfold get_insert_counter. change INSERT_MASK with (Z.ones 32). rewrite Z.land_ones by lia.
  unfold word_ok, pack, VERSION_LOWEST_BIT, LOCK_BIT in *.
  replace (_ + _) with (n + (2 * v + Z.b2z b) * 2 ^ 32) by lia.
  rewrite Z.mod_add by lia. apply Z.mod_small. lia.
Qed.

Lemma pack_version : get_version_counter (pack v b n) = v.
Proof using Hok.
  unfold get_version_counter, word_ok, pack, VERSION_LOWEST_BIT, LOCK_BIT in *.
  rewrite Z.mul_comm, Z.add_comm, Z.div_add by lia.
  rewrite Z.div_small; [lia|]. destruct b; cbn [Z.b2z]; lia.
Qed.

Lemma pack_lock : Z.land (pack v b n) LOCK_BIT = LOCK_BIT * Z.b2z b.
Proof using Hok.
  rewrite land_bit32. f_equal. unfold word_ok, pack, VERSION_LOWEST_BIT, LOCK_BIT in *.
  replace (_ + _) with (n + (2 * v + Z.b2z b) * 0x100000000) by lia.
  rewrite Z.div_add, (Z.div_small n) by lia. replace (0 + _) with (Z.b2z b + v * 2) by lia.
  rewrite Z.mod_add by lia. apply Z.mod_small. destruct b; cbn; lia.
Qed.

Lemma pack_zero : (pack v b n =? 0) = (v =? 0) && negb b && (n =? 0).
Proof using Hok.
  unfold word_ok, pack, VERSION_LOWEST_BIT, LOCK_BIT in *.
  destruct b; cbn [Z.b2z negb]; zcases; cbn; lia.
Qed.

Lemma pack_state : get_state (pack v b n) =
  if b then LOCKED else if (v =? 0) && (n =? 0) then FAA_INSERTION else CAS_INSERTION.
Proof using Hok.
  unfold get_state. rewrite pack_zero, pack_lock.
  replace (pack v b n =? EXTRACTION_STATE_VALUE) with false.
  - destruct b; cbn [negb]; rewrite ?andb_false_r, ?andb_true_r; [done|].
    by destruct ((v =? 0) && (n =? 0)).
  - symmetry. apply Z.eqb_neq. pose proof pack_below. unfold EXTRACTION_STATE_VALUE. lia.
Qed.

Lemma pack_valid C : get_valid_reservations C (pack v b n) = Z.min n (Z.of_nat C).
Proof using Hok. unfold get_valid_reservations. rewrite pack_insert. zcases; lia. Qed.

Lemma pack_set_insert m : 0 <= m < 2 ^ 32 -> set_insert_counter (pack v b n) m = Some (pack v b m).
Proof using Hok.
  intros Hm. unfold set_insert_counter. rewrite assert_true by (apply Z.leb_le; unfold INSERT_MASK; lia).
  cbn [mbind option_bind]. f_equal. rewrite <- Z.ldiff_land. change INSERT_MASK with (Z.ones 32).
  rewrite Z.ldiff_ones_r, Z.shiftl_mul_pow2, Z.shiftr_div_pow2 by lia.
  unfold word_ok, pack, VERSION_LOWEST_BIT, LOCK_BIT in *.
  replace ((_ + _) / 2 ^ 32) with (2 * v + Z.b2z b).
  - rewrite u64_small; [lia|]. unfold is_u64. destruct b; cbn [Z.b2z]; lia.
  - replace (_ + (_ + _)) with (n + (2 * v + Z.b2z b) * 2 ^ 32) by lia.
    rewrite Z.div_add, Z.div_small by lia. lia.
Qed.
End Pack.

Section Unlocked.
Context (v n : Z) (Hok : word_ok v n).

(** [read_val | LOCK_BIT] and [read_val + LOCK_BIT] take the lock. *)
Lemma pack_take : u64 (pack v false n + LOCK_BIT) = pack v true n.
Proof using Hok.
  pose proof (pack_range v n true Hok). rewrite u64_small; unfold pack, LOCK_BIT, is_u64 in *; cbn in *; lia.
Qed.

Lemma pack_lor : Z.lor (pack v false n) LOCK_BIT = pack v true n.
Proof using Hok.
  pose proof (Z.add_lor_land (pack v false n) LOCK_BIT) as H. rewrite pack_lock in H by done.
  cbn [Z.b2z] in H. unfold pack in *. cbn [Z.b2z] in *. lia.
Qed.

(** [read_val & ~LOCK_BIT] gives it back. *)
Lemma pack_clear : Z.land (pack v true n) (Z.lnot LOCK_BIT) = pack v false n.
Proof using Hok.
  rewrite <- Z.sub_land_same_l, pack_lock by done. unfold pack. cbn [Z.b2z]. lia.
Qed.

(** [read_val + LOCK_BIT] gives it back with the next version. *)
Lemma pack_release : u64 (pack v true n + LOCK_BIT) = pack (v + 1) false n.
Proof using Hok.
  rewrite u64_small; unfold word_ok, is_u64, pack, VERSION_LOWEST_BIT, LOCK_BIT in *; cbn; lia.
Qed.

Lemma pack_add e : 0 <= e -> n + e < 2 ^ 32 -> u64 (pack v false n + e) = pack v false (n + e).
Proof using Hok.
  intros He Hn. rewrite u64_small; unfold word_ok, is_u64, pack, VERSION_LOWEST_BIT, LOCK_BIT in *; cbn; lia.
Qed.
End Unlocked.

Lemma pack_inj v b n v' b' n' : word_ok v n -> word_ok v' n' -> pack v b n = pack v' b' n' ->
  v = v' /\ b = b' /\ n = n'.
Proof.
  intros H H' He. split_and!.
  - rewrite <- (pack_version v n b H), <- (pack_version v' n' b' H'). by rewrite He.
  - pose proof (pack_lock v n b H) as Hl. rewrite He, pack_lock in Hl by done.
    unfold LOCK_BIT in Hl. by destruct b, b'.
  - rewrite <- (pack_insert v n b H), <- (pack_insert v' n' b' H'). by rewrite He.
Qed.

Lemma state_extraction : get_state EXTRACTION_STATE_VALUE = EXTRACTION.
Proof. reflexivity. Qed.

Lemma FAA_CAPACITY_le C : (1 <= C)%nat -> 1 <= FAA_CAPACITY C <= Z.of_nat C.
Proof.
  intros H. unfold FAA_CAPACITY. pose proof (Nat.div_lt C 2 ltac:(lia) ltac:(lia)). lia.
Qed.
