(* ===== verification/MultivectorAsr.v ===== *)
(** * MultivectorAsr: the two-phase multivector (vector/multivector_asr.h)

    [multivector_asr] is an unsorted array whose slots threads reserve with
    atomic operations on counters: a [fetch_add] of [faa_counter] while the
    vector is the tail of its layer, a compare-and-swap of [cas_counter], which
    also is its lock, afterwards, and a [fetch_add] of [extraction_counter]
    when it is dying.  A reserved slot is filled by storing its value and then
    its key; until then its key is [EMPTY].

    Every method is a program over the atomic accesses it makes to the shared
    vector; a method that also fills a vector of its own (the new chunk of a
    split) carries that vector as a value.  [Crash] is a failed [assert], an
    index out of range or a [throw] of a debug build.  A loop that waits for
    another thread takes fuel and ends in [Spin].  Atomic accesses are
    sequentially consistent: the counters and the keys are [std::atomic] with
    the default order, and the relaxed value of a slot is written before its key
    and read after it. *)

From S2P Require Import Prelude KvList Prog ArrayOps AsrWord.
From S2P Require MultivectorCfra.

Local Open Scope Z_scope.

(** The answers of [insert] (insert_result.h). *)
Abbreviation insert_result := MultivectorCfra.insert_result.
Abbreviation SUCCESS := MultivectorCfra.SUCCESS.
Abbreviation VERSION_CHANGED := MultivectorCfra.VERSION_CHANGED.
Abbreviation DEAD_VECTOR := MultivectorCfra.DEAD_VECTOR.
Abbreviation MUST_SPLIT := MultivectorCfra.MUST_SPLIT.
Abbreviation SPLIT_PENDING := MultivectorCfra.SPLIT_PENDING.

#[export] Existing Instance MultivectorCfra.insert_result_eq_dec.

(** ** The vector and its atomic accesses *)

Record asr (V : Type) := Asr {
  a_list : list (Z * V);
  faa_counter : Z;
  cas_counter : Z;
  elements_at_phase_change : Z;
  extraction_counter : Z;
}.
Arguments Asr {V} a_list faa_counter cas_counter elements_at_phase_change extraction_counter.
Arguments a_list {V} a.
Arguments faa_counter {V} a.
Arguments cas_counter {V} a.
Arguments elements_at_phase_change {V} a.
Arguments extraction_counter {V} a.

(** The names of the four counters. *)
Inductive counter := FAA | CAS | PHASE | EXTRACTED.

#[export] Instance counter_eq_dec : EqDecision counter.
Proof. solve_decision. Defined.

Definition get_counter {V} (c : counter) (v : asr V) : Z :=
  match c with
  | FAA => faa_counter v
  | CAS => cas_counter v
  | PHASE => elements_at_phase_change v
  | EXTRACTED => extraction_counter v
  end.

Definition set_counter {V} (c : counter) (x : Z) (v : asr V) : asr V :=
  match v with
  | Asr l f s p e =>
      match c with
      | FAA => Asr l x s p e
      | CAS => Asr l f x p e
      | PHASE => Asr l f s x e
      | EXTRACTED => Asr l f s p x
      end
  end.

Definition set_list {V} (l : list (Z * V)) (v : asr V) : asr V :=
  Asr l (faa_counter v) (cas_counter v) (elements_at_phase_change v) (extraction_counter v).

Inductive asrE (V : Type) : Type -> Type :=
| KeyLoad (i : Z) : asrE V Z
| KeyStore (i : Z) (k : Z) : asrE V unit
| KeyExchange (i : Z) (k : Z) : asrE V Z
| ValLoad (i : Z) : asrE V V
| ValStore (i : Z) (x : V) : asrE V unit
| Load (c : counter) : asrE V Z
| Store (c : counter) (x : Z) : asrE V unit
| FetchAdd (c : counter) (d : Z) : asrE V Z
| CasWeak (c : counter) (expected desired : Z) : asrE V (bool * Z)
| CasStrong (c : counter) (expected desired : Z) : asrE V (bool * Z).
Arguments KeyLoad {V} i.
Arguments KeyStore {V} i k.
Arguments KeyExchange {V} i k.
Arguments ValLoad {V} i.
Arguments ValStore {V} i x.
Arguments Load {V} c.
Arguments Store {V} c x.
Arguments FetchAdd {V} c d.
Arguments CasWeak {V} c expected desired.
Arguments CasStrong {V} c expected desired.

Section Handler.
Context {V : Type}.
Implicit Types (v : asr V).

(** Change one slot and answer. *)
Definition on_slot {B : Type} (i : Z) (f : Z * V -> B * (Z * V)) v : option (B * asr V) :=
  e ← entry_at (a_list v) i;
  Some ((f e).1, set_list (<[Z.to_nat i := (f e).2]> (a_list v)) v).

Definition asr_handle (B : Type) (e : asrE V B) : asr V -> option (B * asr V) :=
  match e with
  | KeyLoad i => on_slot i (fun e => (e.1, e))
  | KeyStore i k => on_slot i (fun e => (tt, (k, e.2)))
  | KeyExchange i k => on_slot i (fun e => (e.1, (k, e.2)))
  | ValLoad i => on_slot i (fun e => (e.2, e))
  | ValStore i x => on_slot i (fun e => (tt, (e.1, x)))
  | Load c => fun v => Some (get_counter c v, v)
  | Store c x => fun v => Some (tt, set_counter c x v)
  | FetchAdd c d => fun v => Some (get_counter c v, set_counter c (u64 (get_counter c v + d)) v)
  | CasWeak c expected desired | CasStrong c expected desired => fun v =>
      let seen := get_counter c v in
      Some ((seen =? expected, seen), if seen =? expected then set_counter c desired v else v)
  end.

(** Among other threads: a weak compare-and-swap may also fail for no reason. *)
Definition asr_may (B : Type) (e : asrE V B) : asr V -> option (B * asr V) -> Prop :=
  match e with
  | CasWeak c expected desired => fun v r =>
      r = asr_handle _ (CasWeak c expected desired) v \/ r = Some ((false, get_counter c v), v)
  | e => fun v r => r = asr_handle _ e v
  end.
End Handler.

Section Asr.
Context (CAPACITY : nat) (EMPTY : Z) {V : Type}.

Local Abbreviation prog := (prog (asrE V)).
Local Abbreviation FAA_CAPACITY := (FAA_CAPACITY CAPACITY).
Local Abbreviation get_valid_reservations := (get_valid_reservations CAPACITY).

(** ** Slots (vector/atomic_kv.h) *)

(** [unwrap()] *)
Definition unwrap (i : Z) : prog (Z * V) :=
  let* k := trigger (KeyLoad i) in
  let* x := trigger (ValLoad i) in
  Ret (k, x).

(** [list[i] = entry]: the value first. *)
Definition assign (i : Z) (entry : Z * V) : prog unit :=
  trigger (ValStore i entry.2) ;;; trigger (KeyStore i entry.1).

(** [list[n].swap(list[m])] *)
Definition kv_swap (n m : Z) : prog unit :=
  let* entry := unwrap n in
  let* x := trigger (ValLoad m) in
  trigger (ValStore n x) ;;;
  let* k := trigger (KeyLoad m) in
  trigger (KeyStore n k) ;;;
  assign m entry.

(** The accesses of [rob(list[i])] to its victim: the entry it takes. *)
Definition rob_from (i : Z) : prog (Z * V) :=
  let* seen := trigger (KeyLoad i) in
  passert (negb (seen =? EMPTY)) ;;;
  let* k := trigger (KeyExchange i EMPTY) in
  let* x := trigger (ValLoad i) in
  Ret (k, x).

(** [list[n].rob(list[m])] inside one vector. *)
Definition kv_rob (n m : Z) : prog unit :=
  let* seen := trigger (KeyLoad m) in
  passert (negb (seen =? EMPTY)) ;;;
  let* k := trigger (KeyExchange m EMPTY) in
  trigger (KeyStore n k) ;;;
  let* x := trigger (ValLoad m) in
  trigger (ValStore n x).

(** A program run on a vector no other thread can see. *)
Definition private {A : Type} (self : asr V) (m : prog A) : prog (A * asr V) :=
  match run asr_handle m self with
  | Done a self' => Ret (a, self')
  | Crashed => Crash
  | OutOfFuel => Spin
  end.

(** ** Waiting for reserved slots *)

(** [while (list[i].key.load() == EMPTY);] and the key it ends with. *)
Fixpoint wait_slot (fuel : nat) (i : Z) : prog Z :=
  match fuel with
  | O => Spin
  | S fuel' =>
      let* k := trigger (KeyLoad i) in
      if k =? EMPTY then wait_slot fuel' i else Ret k
  end.

Fixpoint wait_loop (fuel : nat) (i : Z) (n : nat) : prog unit :=
  match n with
  | O => Ret tt
  | S n' => wait_slot fuel i ;;; wait_loop fuel (i + 1) n'
  end.

Definition wait_for_insertions (fuel : nat) (reservations : Z) : prog unit :=
  wait_loop fuel 0 (Z.to_nat reservations).

(** ** Inserting *)

(** The [while (true)] of [reserve_for_insertion]; it answers the slot and the
    new [expected_version]. *)
Fixpoint reserve_loop (fuel : nat) (expected_version elts read_faa : Z) : prog (Z * Z) :=
  match fuel with
  | O => Spin
  | S fuel' =>
      let* read_val := trigger (Load CAS) in
      let read_version := get_version_counter read_val in
      let insertions := get_insert_counter read_val in
      match get_state read_val with
      | EXTRACTION => Ret (EXTRACT_ONLY, expected_version)
      | LOCKED => reserve_loop fuel' expected_version elts read_faa
      | FAA_INSERTION => Ret (read_faa, 0)
      | CAS_INSERTION =>
          if (0 <=? expected_version) && negb (read_version =? u64 expected_version) then
            Ret (VERSION_CHECK_FAIL, expected_version)
          else if Z.of_nat CAPACITY <? insertions then Ret (insertions, i64 read_version)
          else
            passert (negb (Z.land read_val INSERT_MASK =? INSERT_MASK)) ;;;
            let* (success, _) := trigger (CasWeak CAS read_val (u64 (read_val + elts))) in
            if success : bool then Ret (insertions, i64 read_version)
            else reserve_loop fuel' expected_version elts read_faa
      end
  end.

Definition reserve_for_insertion (fuel : nat) (expected_version elts : Z) : prog (Z * Z) :=
  let* read_faa := trigger (FetchAdd FAA elts) in
  if read_faa <? FAA_CAPACITY then passert (expected_version <=? 0) ;;; Ret (read_faa, 0)
  else reserve_loop fuel expected_version elts read_faa.

(** The loop that fills slots; it answers the entries that are left. *)
Fixpoint fill_loop (slot limit : Z) (b : list (Z * V)) : prog (list (Z * V)) :=
  match b with
  | [] => Ret []
  | entry :: b' =>
      if slot <? limit then
        passert (negb (entry.1 =? EMPTY)) ;;;
        assign slot entry ;;;
        fill_loop (slot + 1) limit b'
      else Ret b
  end.

(** [insert_concurrent(b, e, version_number)]: [b] is the range, and the
    answer says what is left of it. *)
Definition insert_concurrent (fuel : nat) (b : list (Z * V)) (version_number : Z)
    : prog (insert_result * list (Z * V)) :=
  let* (slot, version_number) := reserve_for_insertion fuel version_number (Z.of_nat (length b)) in
  let limit := if version_number =? 0 then FAA_CAPACITY else Z.of_nat CAPACITY in
  if slot =? EXTRACT_ONLY then Ret (DEAD_VECTOR, b)
  else if slot =? VERSION_CHECK_FAIL then Ret (VERSION_CHANGED, b)
  else if limit <? slot then Ret (SPLIT_PENDING, b)
  else
    let* rest := fill_loop slot limit b in
    match rest with
    | [] => Ret (SUCCESS, [])
    | _ => Ret (MUST_SPLIT, rest)
    end.

(** [insert(b, e)] and [insert(entry)] *)
Definition insert_range (fuel : nat) (b : list (Z * V)) := insert_concurrent fuel b (-1).

Definition insert (fuel : nat) (entry : Z * V) : prog insert_result :=
  let* (r, _) := insert_range fuel [entry] in Ret r.

(** [bool insert_seq(entry) { return insert(entry); }] *)
Definition insert_seq (fuel : nat) (entry : Z * V) : prog bool :=
  let* r := insert fuel entry in Ret (MultivectorCfra.bool_of_result r).

(** [initialize()], the constructors' body *)
Fixpoint clear_loop (i : Z) (n : nat) : prog unit :=
  match n with
  | O => Ret tt
  | S n' => trigger (KeyStore i EMPTY) ;;; clear_loop (i + 1) n'
  end.

Definition initialize : prog unit :=
  clear_loop 0 CAPACITY ;;;
  trigger (Store FAA 0) ;;; trigger (Store CAS 0) ;;;
  trigger (Store PHASE 0) ;;; trigger (Store EXTRACTED 0).

(** ** The size and the checks *)

Definition get_size : prog Z :=
  let* faa_val := trigger (Load FAA) in
  if faa_val <=? FAA_CAPACITY then Ret faa_val
  else
    let* cas_val := trigger (Load CAS) in
    if cas_val =? 0 then Ret FAA_CAPACITY
    else
      match get_state cas_val with
      | CAS_INSERTION | LOCKED => Ret (get_valid_reservations cas_val)
      | EXTRACTION =>
          let* extracted := trigger (Load EXTRACTED) in
          let* present := trigger (Load PHASE) in
          if present <? extracted then Ret 0
          else
            let* present := trigger (Load PHASE) in
            let* extracted := trigger (Load EXTRACTED) in
            Ret (u64 (present - extracted))
      | FAA_INSERTION => Crash
      end.

(** [n] slots from [i] on hold keys, or hold none. *)
Fixpoint filled_loop (i : Z) (n : nat) : prog unit :=
  match n with
  | O => Ret tt
  | S n' =>
      let* curr := trigger (KeyLoad i) in
      passert (negb (curr =? EMPTY)) ;;; filled_loop (i + 1) n'
  end.

Fixpoint vacant_loop (i : Z) (n : nat) : prog unit :=
  match n with
  | O => Ret tt
  | S n' =>
      let* curr := trigger (KeyLoad i) in
      passert (curr =? EMPTY) ;;; vacant_loop (i + 1) n'
  end.

Definition verify_locked (size : Z) : prog bool :=
  passert (size <=? Z.of_nat CAPACITY) ;;;
  filled_loop 0 (Z.to_nat size) ;;;
  vacant_loop size (CAPACITY - Z.to_nat size) ;;;
  Ret true.

Definition verify : prog bool :=
  let* read_ic := trigger (Load CAS) in
  let* size := get_size in
  match get_state read_ic with
  | FAA_INSERTION | CAS_INSERTION =>
      (if 0 <? size then
        let* min := trigger (KeyLoad 0) in
        passert (negb (min =? EMPTY)) ;;;
        filled_loop 1 (Z.to_nat size - 1) ;;;
        vacant_loop size (CAPACITY - Z.to_nat size)
      else vacant_loop 0 CAPACITY) ;;;
      Ret true
  | EXTRACTION => Ret true
  | LOCKED => Crash
  end.

Fixpoint max_loop (max i : Z) (n : nat) : prog unit :=
  match n with
  | O => Ret tt
  | S n' =>
      let* k := trigger (KeyLoad i) in
      passert (k <=? max) ;;; max_loop max (i + 1) n'
  end.

Definition verify_nontail_node (max : Z) : prog bool :=
  let* read_faa := trigger (Load FAA) in
  let* read_cas := trigger (Load CAS) in
  passert (negb (read_faa <=? FAA_CAPACITY)) ;;;
  passert (bool_decide (get_state read_cas = CAS_INSERTION)) ;;;
  let* size := get_size in
  max_loop max 0 (Z.to_nat size) ;;;
  Ret true.

Definition verify_extraction_node : prog bool :=
  let* read_faa := trigger (Load FAA) in
  let* read_cas := trigger (Load CAS) in
  passert (negb (read_faa <=? FAA_CAPACITY)) ;;;
  passert (bool_decide (get_state read_cas = EXTRACTION)) ;;;
  Ret true.

(** ** Queries *)

Definition first : prog Z := trigger (KeyLoad 0).

Fixpoint any_lte_loop (fuel : nat) (k i : Z) (n : nat) : prog bool :=
  match n with
  | O => Ret false
  | S n' =>
      let* read_key := wait_slot fuel i in
      if read_key <=? k then Ret true else any_lte_loop fuel k (i + 1) n'
  end.

Definition any_lte (fuel : nat) (k : Z) : prog bool := any_lte_loop fuel k 0 CAPACITY.

(** The two scans of [max_key()]: for a first key, for a bigger one.  The first
    answers the index it stopped at. *)
Fixpoint first_key_loop (i : Z) (n : nat) : prog (Z * Z) :=
  match n with
  | O => Ret (EMPTY, i)
  | S n' =>
      let* k := trigger (KeyLoad i) in
      if negb (k =? EMPTY) then let* k := trigger (KeyLoad i) in Ret (k, i)
      else first_key_loop (i + 1) n'
  end.

Fixpoint bigger_key_loop (max_key i : Z) (n : nat) : prog Z :=
  match n with
  | O => Ret max_key
  | S n' =>
      let* k := trigger (KeyLoad i) in
      if k =? EMPTY then bigger_key_loop max_key (i + 1) n'
      else
        let* k := trigger (KeyLoad i) in
        if max_key <? k then let* k := trigger (KeyLoad i) in bigger_key_loop k (i + 1) n'
        else bigger_key_loop max_key (i + 1) n'
  end.

Definition max_key : prog Z :=
  let* (max_key, i) := first_key_loop 0 CAPACITY in
  if max_key =? EMPTY then Crash
  else bigger_key_loop max_key i (CAPACITY - Z.to_nat i).

(** ** Selecting the median *)

(** [swap(n, m)] *)
Definition swap (n m : Z) : prog unit :=
  if negb (n =? m) then kv_swap n m else Ret tt.

(** [while (hi >= u && list[hi].key > pivot_k) --hi;] *)
Fixpoint shrink_loop (fuel : nat) (pivot_k u hi : Z) : prog Z :=
  if u <=? hi then
    match fuel with
    | O => Spin
    | S fuel' =>
        let* k := trigger (KeyLoad hi) in
        if pivot_k <? k then shrink_loop fuel' pivot_k u (hi - 1) else Ret hi
    end
  else Ret hi.

(** The loop of [partition3]: the final [lo] and [hi]. *)
Fixpoint partition_loop (fuel : nat) (pivot_k lo u hi : Z) : prog (Z * Z) :=
  if u <=? hi then
    match fuel with
    | O => Spin
    | S fuel' =>
        let* ku := trigger (KeyLoad u) in
        if ku <? pivot_k then
          swap lo u ;;; partition_loop fuel' pivot_k (lo + 1) (u + 1) hi
        else if pivot_k <? ku then
          let* hi := shrink_loop fuel pivot_k u hi in
          if hi <? u then Ret (lo, hi)
          else swap u hi ;;; partition_loop fuel' pivot_k lo u (hi - 1)
        else partition_loop fuel' pivot_k lo (u + 1) hi
    end
  else Ret (lo, hi).

Definition partition3 (lo hi : Z) : prog (Z * Z) :=
  let* pivot_k := trigger (KeyLoad ((hi + lo) / 2)) in
  partition_loop (Z.to_nat (hi - lo + 1)) pivot_k lo lo hi.

Fixpoint quickselect (fuel : nat) (left right k : Z) : prog unit :=
  match fuel with
  | O => Spin
  | S fuel' =>
      passert (k <=? right) ;;; passert (left <=? k) ;;; passert (0 <=? left) ;;;
      if left =? right then Ret tt
      else
        let* (lo, hi) := partition3 left right in
        if (lo <=? k) && (k <=? hi) then Ret tt
        else if k <? lo then quickselect fuel' left (lo - 1) k
        else quickselect fuel' (hi + 1) right k
  end.

Definition quickselect_median (size : Z) : prog unit :=
  if (2 <=? CAPACITY)%nat && (2 <=? size) then quickselect (Z.to_nat size) 0 (size - 1) (size / 2)
  else Ret tt.

(** ** Splitting: the program runs on the victim, the new vector is a value *)

Definition set_size (victim_counter size : Z) : prog unit :=
  let* c := lift_opt (set_insert_counter victim_counter size) in
  trigger (Store CAS c).

Fixpoint count_above (k i : Z) (n : nat) : prog Z :=
  match n with
  | O => Ret 0
  | S n' =>
      let* ki := trigger (KeyLoad i) in
      let* rest := count_above k (i + 1) n' in
      Ret (if k <? ki then 1 + rest else rest)
  end.

(** The [while (i < victim_size)] of [split_insert]: the new vector, its size
    and the victim's. *)
Fixpoint steal_loop (fuel : nat) (k : Z) (self : asr V) (my_size i victim_size : Z)
    : prog (asr V * Z * Z) :=
  if i <? victim_size then
    match fuel with
    | O => Spin
    | S fuel' =>
        let* ki := trigger (KeyLoad i) in
        if ki <=? k then steal_loop fuel' k self my_size (i + 1) victim_size
        else
          let* kl := trigger (KeyLoad (victim_size - 1)) in
          if k <? kl then
            let* e := rob_from (victim_size - 1) in
            let* (_, self) := private self (assign my_size e) in
            steal_loop fuel' k self (my_size + 1) i (victim_size - 1)
          else
            let* x := trigger (ValLoad i) in
            let* ki := trigger (KeyLoad i) in
            let* (_, self) := private self (assign my_size (ki, x)) in
            kv_rob i (victim_size - 1) ;;;
            steal_loop fuel' k self (my_size + 1) (i + 1) (victim_size - 1)
    end
  else Ret (self, my_size, victim_size).

(** The counters of the new vector: it starts in the FAA phase if it can. *)
Definition start_phase (my_size : Z) : prog unit :=
  if my_size <=? FAA_CAPACITY then trigger (Store FAA my_size)
  else
    trigger (Store FAA (FAA_CAPACITY + 1)) ;;;
    let* my_counter := lift_opt (set_insert_counter VERSION_LOWEST_BIT my_size) in
    trigger (Store CAS my_counter).

Definition split_insert (fuel : nat) (self : asr V) (entry : Z * V) : prog (bool * asr V) :=
  let k := entry.1 in
  passert (negb (k =? EMPTY)) ;;;
  let* victim_counter := trigger (Load CAS) in
  passert (bool_decide (get_state victim_counter = LOCKED)) ;;;
  let victim_size := get_valid_reservations victim_counter in
  passert (victim_size <=? Z.of_nat CAPACITY) ;;;
  wait_for_insertions fuel victim_size ;;;
  let* elements_to_steal := count_above k 0 (Z.to_nat victim_size) in
  passert (elements_to_steal <? Z.of_nat CAPACITY) ;;;
  let* (_, self) := private self (assign 0 entry) in
  if (CAPACITY =? 1)%nat || (elements_to_steal =? 0) then
    let* (_, self) := private self (trigger (Store FAA 1)) in
    Ret (true, self)
  else
    let* (self, my_size, victim_size) :=
      steal_loop (Z.to_nat victim_size) k self 1 0 victim_size in
    let* (_, self) := private self (start_phase my_size ;;; verify_locked my_size) in
    set_size victim_counter victim_size ;;;
    verify_locked victim_size ;;;
    Ret (true, self).

(** The scan of [steal_max]: the greatest key and where it is. *)
Fixpoint scan_max (fuel : nat) (max_key max_location i : Z) (n : nat) : prog Z :=
  match n with
  | O => Ret max_location
  | S n' =>
      let* read_key := wait_slot fuel i in
      if (max_key =? EMPTY) || (max_key <=? read_key) then scan_max fuel read_key i (i + 1) n'
      else scan_max fuel max_key max_location (i + 1) n'
  end.

Definition steal_max (fuel : nat) (self : asr V) : prog (asr V) :=
  let* victim_counter := trigger (Load CAS) in
  passert (bool_decide (get_state victim_counter = LOCKED)) ;;;
  let victim_size := get_valid_reservations victim_counter in
  passert (0 <? victim_size) ;;;
  passert (victim_size <=? Z.of_nat CAPACITY) ;;;
  let* max_location := scan_max fuel EMPTY victim_size 0 (Z.to_nat victim_size) in
  let* e := rob_from max_location in
  let* (_, self) := private self (assign 0 e) in
  let last_location := victim_size - 1 in
  (if negb (max_location =? last_location) then kv_rob max_location last_location else Ret tt) ;;;
  let* (_, self) := private self (trigger (Store FAA 1)) in
  let victim_size := victim_size - 1 in
  set_size victim_counter victim_size ;;;
  let* (_, self) := private self (verify_locked 1) in
  verify_locked victim_size ;;;
  Ret self.

(** [for (i < entries_to_steal) list[i].rob(victim->list[first_to_steal + i])] *)
Fixpoint rob_loop (first_to_steal i : Z) (n : nat) (self : asr V) : prog (asr V) :=
  match n with
  | O => Ret self
  | S n' =>
      let* e := rob_from (first_to_steal + i) in
      let* (_, self) := private self (assign i e) in
      rob_loop first_to_steal (i + 1) n' self
  end.

Definition steal_half (fuel : nat) (self : asr V) : prog (asr V) :=
  let* victim_counter := trigger (Load CAS) in
  passert (bool_decide (get_state victim_counter = LOCKED)) ;;;
  let victim_size := get_valid_reservations victim_counter in
  wait_for_insertions fuel victim_size ;;;
  quickselect_median victim_size ;;;
  passert (victim_size <=? Z.of_nat CAPACITY) ;;;
  let first_to_steal := victim_size / 2 in
  let entries_to_steal := victim_size - first_to_steal in
  let* self := rob_loop first_to_steal 0 (Z.to_nat entries_to_steal) self in
  let* (_, self) := private self (trigger (Store FAA entries_to_steal)) in
  set_size victim_counter first_to_steal ;;;
  let* (_, self) := private self (verify_locked entries_to_steal) in
  verify_locked first_to_steal ;;;
  Ret self.

(** ** The extraction phase *)

Definition die : prog unit :=
  let* read_val := trigger (Load CAS) in
  passert (bool_decide (get_state read_val = LOCKED)) ;;;
  trigger (Store CAS EXTRACTION_STATE_VALUE) ;;;
  trigger (Store PHASE (get_valid_reservations read_val)).

Definition extract (fuel : nat) : prog (option (Z * V)) :=
  let* slot := trigger (FetchAdd EXTRACTED 1) in
  let* present := trigger (Load PHASE) in
  if present <=? slot then Ret None
  else
    wait_slot fuel slot ;;;
    let* entry := unwrap slot in Ret (Some entry).

Definition is_dead : prog bool :=
  let* c := trigger (Load CAS) in Ret (bool_decide (get_state c = EXTRACTION)).

(** ** The lock in [cas_counter] *)

(** The [while] of [faa_to_cas_transition]: the number of insertions. *)
Fixpoint transition_loop (fuel : nat) (read_faa : Z) : prog Z :=
  if read_faa <=? FAA_CAPACITY then
    match fuel with
    | O => Spin
    | S fuel' =>
        let* (success, seen) := trigger (CasWeak FAA read_faa (FAA_CAPACITY + 1)) in
        if success : bool then Ret read_faa
        else let* read_faa := trigger (Load FAA) in transition_loop fuel' read_faa
    end
  else Ret FAA_CAPACITY.

Definition faa_to_cas_transition (fuel : nat) : prog unit :=
  let* read_faa := trigger (Load FAA) in
  let* insertions := transition_loop fuel read_faa in
  trigger (Store CAS (u64 (LOCK_BIT + insertions))).

(** The [while] of [acquire]: the word the lock was taken from. *)
Fixpoint acquire_loop (fuel : nat) (read_val : Z) : prog (option Z) :=
  match fuel with
  | O => Spin
  | S fuel' =>
      let state := get_state read_val in
      if is_insertion_state state then
        let* (success, seen) := trigger (CasWeak CAS read_val (Z.lor read_val LOCK_BIT)) in
        if success : bool then Ret (Some read_val) else acquire_loop fuel' seen
      else if bool_decide (state = EXTRACTION) then Ret None
      else let* read_val := trigger (Load CAS) in acquire_loop fuel' read_val
  end.

Definition acquire (fuel : nat) : prog bool :=
  let* read_val := trigger (Load CAS) in
  let* taken := acquire_loop fuel read_val in
  match taken with
  | None => Ret false
  | Some read_val =>
      (if get_version_counter read_val =? 0 then faa_to_cas_transition fuel else Ret tt) ;;;
      Ret true
  end.

(** The [while] of [acquire_for_split]; [None] is its [return 0]. *)
Fixpoint split_loop (fuel : nat) (read_val : Z) : prog (option Z) :=
  match fuel with
  | O => Spin
  | S fuel' =>
      let state := get_state read_val in
      if is_insertion_state state then
        if (0 <? get_version_counter read_val) && (get_insert_counter read_val <=? Z.of_nat CAPACITY)
        then Ret None
        else
          let* (success, seen) := trigger (CasWeak CAS read_val (Z.lor read_val LOCK_BIT)) in
          if success : bool then Ret (Some read_val) else split_loop fuel' seen
      else if bool_decide (state = EXTRACTION) then Ret None
      else let* read_val := trigger (Load CAS) in split_loop fuel' read_val
  end.

Definition acquire_for_split (fuel : nat) : prog Z :=
  let* read_val := trigger (Load CAS) in
  let* taken := split_loop fuel read_val in
  match taken with
  | None => Ret 0
  | Some read_val =>
      let insertions := get_insert_counter read_val in
      if get_version_counter read_val =? 0 then
        passert (insertions =? 0) ;;; faa_to_cas_transition fuel ;;; Ret 1
      else
        passert (Z.of_nat CAPACITY <? insertions) ;;; Ret (Z.of_nat (CAPACITY / 2))
  end.

Definition try_upgrade (fuel : nat) (version_number : Z) : prog bool :=
  let* read_val := trigger (Load CAS) in
  if negb (get_version_counter read_val =? version_number)
     || negb (is_insertion_state (get_state read_val)) then Ret false
  else
    let* (result, _) := trigger (CasStrong CAS read_val (u64 (read_val + LOCK_BIT))) in
    (if (result : bool) && (get_version_counter read_val =? 0) then faa_to_cas_transition fuel
     else Ret tt) ;;;
    Ret (result : bool).

Definition release : prog Z :=
  let* read_val := trigger (Load CAS) in
  passert (bool_decide (get_state read_val = LOCKED)) ;;;
  passert (read_val <? 0xFFFFFFFF00000000) ;;;
  trigger (Store CAS (u64 (read_val + LOCK_BIT))) ;;;
  Ret (get_version_counter (u64 (read_val + LOCK_BIT))).

Definition release_after_split : prog Z := release.

Definition release_unchanged : prog unit :=
  let* read_val := trigger (Load CAS) in
  let insertions := get_insert_counter read_val in
  passert (bool_decide (get_state read_val = LOCKED)) ;;;
  if 1 <=? get_version_counter read_val then
    trigger (Store CAS (Z.land read_val (Z.lnot LOCK_BIT)))
  else
    passert (insertions <=? FAA_CAPACITY) ;;;
    trigger (Store FAA insertions) ;;;
    trigger (Store CAS 0).

Definition begin_read : prog Z :=
  let* c := trigger (Load CAS) in Ret (get_version_counter c).

Definition confirm_read (v : Z) : prog bool :=
  let* read_val := trigger (Load CAS) in
  Ret (is_insertion_state (get_state read_val) && (get_version_counter read_val =? v)).
End Asr.

#[export] Instance asr_eq_dec {V} `{EqDecision V} : EqDecision (asr V).
Proof. solve_decision. Defined.
