(* ===== verification/AsrRun.v ===== *)
(** * AsrRun: the two-phase multivector, method by method, run alone

    What the slot accesses and the loops of [MultivectorAsr] do to an array,
    written as a concatenation with the slots of interest in it; then the three-way
    partition and the selection of the median. *)

From S2P Require Import Prelude KvList Prog ArrayOps AsrWord MultivectorAsr.

Local Open Scope Z_scope.

(** Two ways to write one array. *)
Ltac same_list := cbn; rewrite <- ?app_assoc; cbn; rewrite <- ?app_assoc; first [reflexivity|done].

(** Two ways to write one index. *)
Ltac same_index := repeat first [progress rewrite length_app in * | progress cbn [length] in *]; lia.

(** ** Handlers that refuse some accesses

    The methods that split a vector are run by the holder of its lock, which
    makes accesses of a few kinds only.  The lemmas hold for every handler that
    performs those: for [asr_handle], which performs all, and for the one that
    refuses whatever other threads could notice. *)

Definition guarded {V} (guard : forall B, asrE V B -> bool) (B : Type) (e : asrE V B) : asr V -> option (B * asr V) :=
  if guard B e then asr_handle B e else fun _ => None.

(** Accesses to slots and loads of [cas_counter]; stores of words that keep the
    lock at a version. *)
Class HolderGuard {V} (guard : forall B, asrE V B -> bool) : Prop := {
  allows_key_load i : guard _ (KeyLoad i) = true;
  allows_key_store i k : guard _ (KeyStore i k) = true;
  allows_key_exchange i k : guard _ (KeyExchange i k) = true;
  allows_val_load i : guard _ (ValLoad i) = true;
  allows_val_store i x : guard _ (ValStore i x) = true;
  allows_load : guard _ (Load CAS) = true;
}.

Definition stores_at {V} (guard : forall B, asrE V B -> bool) (ver : Z) : Prop :=
  forall n, word_ok ver n -> guard _ (Store CAS (pack ver true n)) = true.

Definition any_access {V} (B : Type) (e : asrE V B) : bool := true.

#[export] Instance any_access_holder {V} : HolderGuard (@any_access V).
Proof. by split. Qed.

(** A run that is not refused anything is a run. *)
Lemma run_guarded {V A : Type} guard (m : prog (asrE V) A) (s s' : asr V) (a : A) :
  run (guarded guard) m s = Done a s' -> run asr_handle m s = Done a s'.
Proof.
  revert s. induction m as [b|B e k IH| |]; intros s; cbn [run]; try done.
  unfold guarded at 1. destruct (guard B e); [|done]. destruct (asr_handle B e s) as [[b s1]|]; [|done]. apply IH.
Qed.

Section AsrRun.
Context (CAPACITY : nat) (EMPTY : Z) {V : Type}.
Context {guard : forall B, asrE V B -> bool} `{Hguard : !HolderGuard guard}.
Implicit Types (l el : list (Z * V)) (e a b : Z * V) (k : Z) (f s p x : Z).

Local Abbreviation runs m l f s p x := (run (guarded guard) m (Asr l f s p x)).

(** ** One slot *)

Lemma entry_at_mid l1 e l2 i : i = Z.of_nat (length l1) -> entry_at (l1 ++ e :: l2) i = Some e.
Proof.
  intros ->. unfold entry_at. destruct (Z.ltb_spec (Z.of_nat (length l1)) 0); [lia|].
  rewrite Nat2Z.id. by apply list_lookup_middle.
Qed.

Lemma on_slot_mid {B : Type} (g : Z * V -> B * (Z * V)) l l1 e l2 i f s p x :
  l = l1 ++ e :: l2 -> i = Z.of_nat (length l1) ->
  on_slot i g (Asr l f s p x) = Some ((g e).1, Asr (l1 ++ (g e).2 :: l2) f s p x).
Proof.
  intros -> Hi. unfold on_slot. cbn [a_list]. rewrite (entry_at_mid l1 e l2 i Hi). cbn [mbind option_bind].
  subst i. rewrite Nat2Z.id, insert_app_r_alt, Nat.sub_diag by lia. done.
Qed.

Section Slot.
Context (l l1 l2 : list (Z * V)) (e : Z * V) (i f s p x : Z).
Context (Hl : l = l1 ++ e :: l2) (Hi : i = Z.of_nat (length l1)).

Lemma run_key_load : runs (trigger (KeyLoad i)) l f s p x = Done e.1 (Asr l f s p x).
Proof using Hl Hi Hguard.
  cbn [run trigger]. unfold guarded. rewrite allows_key_load. cbn [asr_handle]. rewrite (on_slot_mid _ _ _ _ _ _ _ _ _ _ Hl Hi). cbn. by rewrite Hl.
Qed.

Lemma run_val_load : runs (trigger (ValLoad i)) l f s p x = Done e.2 (Asr l f s p x).
Proof using Hl Hi Hguard.
  cbn [run trigger]. unfold guarded. rewrite allows_val_load. cbn [asr_handle]. rewrite (on_slot_mid _ _ _ _ _ _ _ _ _ _ Hl Hi). cbn. by rewrite Hl.
Qed.

Lemma run_key_store k :
  runs (trigger (KeyStore i k)) l f s p x = Done tt (Asr (l1 ++ (k, e.2) :: l2) f s p x).
Proof using Hl Hi Hguard.
  cbn [run trigger]. unfold guarded. rewrite allows_key_store. cbn [asr_handle]. by rewrite (on_slot_mid _ _ _ _ _ _ _ _ _ _ Hl Hi).
Qed.

Lemma run_val_store (v : V) :
  runs (trigger (ValStore i v)) l f s p x = Done tt (Asr (l1 ++ (e.1, v) :: l2) f s p x).
Proof using Hl Hi Hguard.
  cbn [run trigger]. unfold guarded. rewrite allows_val_store. cbn [asr_handle]. by rewrite (on_slot_mid _ _ _ _ _ _ _ _ _ _ Hl Hi).
Qed.

Lemma run_key_exchange k :
  runs (trigger (KeyExchange i k)) l f s p x = Done e.1 (Asr (l1 ++ (k, e.2) :: l2) f s p x).
Proof using Hl Hi Hguard.
  cbn [run trigger]. unfold guarded. rewrite allows_key_exchange. cbn [asr_handle]. by rewrite (on_slot_mid _ _ _ _ _ _ _ _ _ _ Hl Hi).
Qed.
End Slot.

Lemma run_unwrap l l1 e l2 i f s p x : l = l1 ++ e :: l2 -> i = Z.of_nat (length l1) ->
  runs (unwrap i) l f s p x = Done e (Asr l f s p x).
Proof.
  intros Hl Hi. unfold unwrap. run_with (run_key_load l l1 l2 e i f s p x Hl Hi).
  run_with (run_val_load l l1 l2 e i f s p x Hl Hi). by destruct e.
Qed.

Lemma run_assign l l1 e l2 i a f s p x : l = l1 ++ e :: l2 -> i = Z.of_nat (length l1) ->
  runs (assign i a) l f s p x = Done tt (Asr (l1 ++ a :: l2) f s p x).
Proof.
  intros Hl Hi. unfold assign. run_with (run_val_store l l1 l2 e i f s p x Hl Hi a.2).
  rewrite (run_key_store (l1 ++ (e.1, a.2) :: l2) l1 l2 (e.1, a.2) i f s p x eq_refl Hi). by destruct a.
Qed.

Lemma run_rob_from l l1 e l2 i f s p x : l = l1 ++ e :: l2 -> i = Z.of_nat (length l1) -> e.1 <> EMPTY ->
  runs (rob_from EMPTY i) l f s p x = Done e (Asr (l1 ++ (EMPTY, e.2) :: l2) f s p x).
Proof.
  intros Hl Hi He. unfold rob_from. run_with (run_key_load l l1 l2 e i f s p x Hl Hi).
  run_with (run_passert_true (E:=asrE V) (guarded guard) (negb (e.1 =? EMPTY)) (Asr l f s p x)
    (proj2 (negb_true_iff _) (proj2 (Z.eqb_neq _ _) He))).
  run_with (run_key_exchange l l1 l2 e i f s p x Hl Hi EMPTY).
  run_with (run_val_load (l1 ++ (EMPTY, e.2) :: l2) l1 l2 (EMPTY, e.2) i f s p x eq_refl Hi). by destruct e.
Qed.

(** [list[n].rob(list[m])], the victim being the later slot. *)
Lemma run_kv_rob l l1 a l2 b l3 n m f s p x :
  l = l1 ++ a :: l2 ++ b :: l3 -> n = Z.of_nat (length l1) -> m = n + 1 + Z.of_nat (length l2) ->
  b.1 <> EMPTY ->
  runs (kv_rob EMPTY n m) l f s p x = Done tt (Asr (l1 ++ b :: l2 ++ (EMPTY, b.2) :: l3) f s p x).
Proof.
  intros Hl Hn Hm Hb. unfold kv_rob. assert (Hm' : m = Z.of_nat (length (l1 ++ a :: l2))) by same_index.
  assert (Hl' : l = (l1 ++ a :: l2) ++ b :: l3) by (rewrite Hl; same_list).
  run_with (run_key_load l _ l3 b m f s p x Hl' Hm').
  run_with (run_passert_true (E:=asrE V) (guarded guard) (negb (b.1 =? EMPTY)) (Asr l f s p x)
    (proj2 (negb_true_iff _) (proj2 (Z.eqb_neq _ _) Hb))).
  run_with (run_key_exchange l _ l3 b m f s p x Hl' Hm' EMPTY). rewrite <- app_assoc. cbn [app].
  run_with (run_key_store _ l1 (l2 ++ (EMPTY, b.2) :: l3) a n f s p x eq_refl Hn b.1).
  run_with (run_val_load (l1 ++ (b.1, a.2) :: l2 ++ (EMPTY, b.2) :: l3) (l1 ++ (b.1, a.2) :: l2) l3 (EMPTY, b.2) m f s p x
    ltac:(same_list) ltac:(same_index)).
  rewrite (run_val_store _ l1 _ _ n f s p x eq_refl Hn). by destruct b.
Qed.

Lemma run_swap_same l n f s p x : runs (swap n n) l f s p x = Done tt (Asr l f s p x).
Proof. unfold swap. by rewrite Z.eqb_refl. Qed.

(** [swap(n, m)] and [swap(m, n)] of two slots. *)
Lemma run_swap_lt l l1 a l2 b l3 n m f s p x :
  l = l1 ++ a :: l2 ++ b :: l3 -> n = Z.of_nat (length l1) -> m = n + 1 + Z.of_nat (length l2) ->
  runs (swap n m) l f s p x = Done tt (Asr (l1 ++ b :: l2 ++ a :: l3) f s p x).
Proof.
  intros Hl Hn Hm. unfold swap. rewrite (proj2 (Z.eqb_neq n m)) by lia. cbn [negb]. unfold kv_swap.
  assert (Hm' : forall c, m = Z.of_nat (length (l1 ++ c :: l2))) by (intros c; same_index).
  assert (Hl' : l = (l1 ++ a :: l2) ++ b :: l3) by (rewrite Hl; same_list).
  run_with (run_unwrap l l1 a (l2 ++ b :: l3) n f s p x Hl Hn).
  run_with (run_val_load l _ l3 b m f s p x Hl' (Hm' a)).
  run_with (run_val_store l l1 (l2 ++ b :: l3) a n f s p x Hl Hn b.2).
  run_with (run_key_load (l1 ++ (a.1, b.2) :: l2 ++ b :: l3) (l1 ++ (a.1, b.2) :: l2) l3 b m f s p x
    ltac:(same_list) (Hm' _)).
  run_with (run_key_store _ l1 (l2 ++ b :: l3) (a.1, b.2) n f s p x eq_refl Hn b.1).
  cbn [fst snd]. rewrite (run_assign _ (l1 ++ (b.1, b.2) :: l2) b l3 m a f s p x ltac:(same_list) (Hm' _)).
  rewrite <- app_assoc. by destruct b.
Qed.

(** ** Scans of filled slots *)

Definition keyed e : Prop := e.1 <> EMPTY.
Definition vacant e : Prop := e.1 = EMPTY.

Lemma keyed_eqb e : keyed e -> (e.1 =? EMPTY) = false.
Proof. apply Z.eqb_neq. Qed.

Lemma run_wait_slot fuel l l1 e l2 i f s p x :
  l = l1 ++ e :: l2 -> i = Z.of_nat (length l1) -> keyed e ->
  runs (wait_slot EMPTY (S fuel) i) l f s p x = Done e.1 (Asr l f s p x).
Proof.
  intros Hl Hi He. cbn [wait_slot]. run_with (run_key_load l l1 l2 e i f s p x Hl Hi).
  by rewrite keyed_eqb.
Qed.

Lemma run_wait_loop fuel f s p x : forall el pre post l i,
  l = pre ++ el ++ post -> i = Z.of_nat (length pre) -> Forall keyed el ->
  runs (wait_loop EMPTY (S fuel) i (length el)) l f s p x = Done tt (Asr l f s p x).
Proof.
  induction el as [|e el IH]; intros pre post l i Hl Hi Hk; [done|].
  apply Forall_cons in Hk as [He Hk]. cbn [wait_loop length].
  run_with (run_wait_slot fuel l pre e (el ++ post) i f s p x Hl Hi He).
  apply (IH (pre ++ [e]) post); [by rewrite Hl; same_list|same_index|done].
Qed.

Lemma run_wait_for_insertions fuel el post l n f s p x :
  l = el ++ post -> n = Z.of_nat (length el) -> Forall keyed el ->
  runs (wait_for_insertions EMPTY (S fuel) n) l f s p x = Done tt (Asr l f s p x).
Proof. intros Hl -> Hk. unfold wait_for_insertions. rewrite Nat2Z.id. by apply (run_wait_loop _ _ _ _ _ _ [] post). Qed.

Lemma run_filled_loop f s p x : forall el pre post l i,
  l = pre ++ el ++ post -> i = Z.of_nat (length pre) -> Forall keyed el ->
  runs (filled_loop EMPTY i (length el)) l f s p x = Done tt (Asr l f s p x).
Proof.
  induction el as [|e el IH]; intros pre post l i Hl Hi Hk; [done|].
  apply Forall_cons in Hk as [He Hk]. cbn [filled_loop length].
  run_with (run_key_load l pre (el ++ post) e i f s p x Hl Hi). rewrite (keyed_eqb e He). cbn [negb passert bind].
  apply (IH (pre ++ [e]) post); [by rewrite Hl; same_list|same_index|done].
Qed.

Lemma run_vacant_loop f s p x : forall el pre post l i,
  l = pre ++ el ++ post -> i = Z.of_nat (length pre) -> Forall vacant el ->
  runs (vacant_loop EMPTY i (length el)) l f s p x = Done tt (Asr l f s p x).
Proof.
  induction el as [|e el IH]; intros pre post l i Hl Hi Hk; [done|].
  apply Forall_cons in Hk as [He Hk]. cbn [vacant_loop length].
  run_with (run_key_load l pre (el ++ post) e i f s p x Hl Hi). rewrite He, Z.eqb_refl. cbn [passert bind].
  apply (IH (pre ++ [e]) post); [by rewrite Hl; same_list|same_index|done].
Qed.

(** [l] holds the entries [el] in its first slots and nothing after them. *)
Definition holds l el : Prop :=
  exists free, l = el ++ free /\ length l = CAPACITY /\ Forall keyed el /\ Forall vacant free.

Lemma holds_le l el : holds l el -> (length el <= CAPACITY)%nat.
Proof. intros (free & -> & <- & _). rewrite length_app. lia. Qed.

Lemma run_verify_locked l el n f s p x : holds l el -> n = Z.of_nat (length el) ->
  runs (verify_locked CAPACITY EMPTY n) l f s p x = Done true (Asr l f s p x).
Proof.
  intros H ->. pose proof (holds_le l el H). destruct H as (free & Hl & Hlen & Hk & Hv). unfold verify_locked.
  rewrite (proj2 (Z.leb_le _ _)) by lia. cbn [passert bind]. rewrite Nat2Z.id.
  run_with (run_filled_loop f s p x el [] free l 0 Hl eq_refl Hk).
  replace (CAPACITY - length el)%nat with (length free) by (subst l; rewrite length_app in Hlen; lia).
  by run_with (run_vacant_loop f s p x free el [] l _ ltac:(by rewrite app_nil_r) eq_refl Hv).
Qed.
End AsrRun.

(** * The three-way partition and the quickselect

    [partition3] and [quickselect] on a region [R] of an array
    [pre ++ R ++ post]: the region is permuted, the selected slot holds the
    element that belongs there, and a minimum that is in the first slot of the
    region stays in it. *)

Section AsrSelect.
Context {V : Type} {guard : forall B, asrE V B -> bool} `{Hguard : !HolderGuard guard}.
Implicit Types (l pre post L E U G R : list (Z * V)) (e a b : Z * V) (k : Z) (f s p x : Z).

Local Abbreviation runs m l f s p x := (run (guarded guard) m (Asr l f s p x)).

Definition below k e : Prop := e.1 < k.
Definition at_key k e : Prop := e.1 = k.
Definition above k e : Prop := k < e.1.

(** [run_swap_lt] and [run_swap_same] in one: the slot at the front of [E],
    which may be the slot of [b] itself. *)
Lemma run_rotate pre E b l lo u post f s p x :
  l = pre ++ E ++ b :: post -> lo = Z.of_nat (length pre) -> u = lo + Z.of_nat (length E) ->
  exists E', runs (swap lo u) l f s p x = Done tt (Asr (pre ++ b :: E' ++ post) f s p x) /\ E' ≡ₚ E.
Proof.
  intros Hl Hlo Hu. destruct E as [|a E].
  - exists []. split; [|done]. cbn in Hl, Hu. replace u with lo by lia. rewrite run_swap_same. by subst l.
  - exists (E ++ [a]). split; [|by rewrite Permutation_app_comm].
    rewrite (run_swap_lt l pre a E b post lo u f s p x); [by rewrite <- app_assoc|by rewrite Hl; same_list|done|same_index].
Qed.

Lemma shrink_loop_spec k pre f s p x u : forall fuel U post l,
  l = pre ++ U ++ post -> u = Z.of_nat (length pre) -> (length U <= fuel)%nat ->
  exists U1 G1, U = U1 ++ G1 /\ Forall (above k) G1 /\ (U1 = [] \/ exists U2 b, U1 = U2 ++ [b] /\ b.1 <= k) /\
    runs (shrink_loop fuel k u (u + Z.of_nat (length U) - 1)) l f s p x =
      Done (u + Z.of_nat (length U1) - 1) (Asr l f s p x).
Proof.
  induction fuel as [|fuel IH]; intros U post l Hl Hu Hf.
  { destruct U; [|cbn in Hf; lia]. exists [], []. split_and!; try done; [by left|]. cbn. zcases. done. }
  destruct U as [|b U _] using rev_ind.
  { exists [], []. split_and!; try done; [by left|]. cbn. zcases. done. }
  rewrite length_app in Hf. cbn [length] in Hf. cbn [shrink_loop].
  rewrite (proj2 (Z.leb_le _ _)) by same_index.
  run_with (run_key_load l (pre ++ U) post b (u + Z.of_nat (length (U ++ [b])) - 1) f s p x
    ltac:(by rewrite Hl; same_list) ltac:(same_index)).
  destruct (Z.ltb_spec k b.1) as [Hb|Hb].
  - destruct (IH U (b :: post) l) as (U1 & G1 & -> & HG & Hlast & Hr); [by rewrite Hl; same_list|done|lia|].
    exists U1, (G1 ++ [b]). split_and!; [by rewrite app_assoc| |done|].
    + apply Forall_app. split; [done|]. by apply Forall_singleton.
    + rewrite <- Hr. f_equal. f_equal. same_index.
  - exists (U ++ [b]), []. split_and!; [by rewrite app_nil_r|done| |done]. right. eauto.
Qed.

Lemma list_split_at l n e : l !! n = Some e -> exists l1 l2, l = l1 ++ e :: l2 /\ length l1 = n.
Proof.
  intros H. exists (take n l), (drop (S n) l). split; [by rewrite take_drop_middle|].
  apply length_take_le, Nat.lt_le_incl. by eapply lookup_lt_Some.
Qed.

(** What [partition3] makes of a region. *)
Record parted k L E G R : Prop := {
  parted_perm : L ++ E ++ G ≡ₚ R;
  parted_less : Forall (below k) L;
  parted_equal : Forall (at_key k) E;
  parted_greater : Forall (above k) G;
}.

(** A minimum in front of [R] that is at most [k]. *)
Definition min_first k R e : Prop := head R = Some e /\ Forall (fun b => e.1 <= b.1) R /\ e.1 <= k.

Lemma min_first_perm k R R' e : R ≡ₚ R' -> head R' = head R -> min_first k R e -> min_first k R' e.
Proof. intros Hp Hh (H1 & H2 & H3). split_and!; [by rewrite Hh|by rewrite <- Hp|done]. Qed.

Lemma parted_same k L E G R R' : R ≡ₚ R' -> parted k L E G R -> parted k L E G R'.
Proof. intros Hp [H1 H2 H3 H4]. split; try done. by rewrite H1. Qed.

Section Loop.
Context (k : Z) (pre post : list (Z * V)) (f s p x : Z).

(** The loop, run with [fuel] from a region cut as the comment of
    [partition3] says. *)
Definition part_ok (m : prog (asrE V) (Z * Z)) l R : Prop :=
  exists L E G, parted k L E G R /\
    runs m l f s p x =
      Done (Z.of_nat (length pre + length L), Z.of_nat (length pre + length L + length E) - 1)
           (Asr (pre ++ L ++ E ++ G ++ post) f s p x) /\
    forall e, min_first k R e -> head (L ++ E ++ G) = Some e.

Definition loop_ok (fuel : nat) : Prop := forall L E U G l lo u hi,
  l = pre ++ L ++ E ++ U ++ G ++ post ->
  lo = Z.of_nat (length pre + length L) -> u = lo + Z.of_nat (length E) -> hi = u + Z.of_nat (length U) - 1 ->
  (length U <= fuel)%nat -> Forall (below k) L -> Forall (at_key k) E -> Forall (above k) G ->
  part_ok (partition_loop fuel k lo u hi) l (L ++ E ++ U ++ G).

(** Another program and another region with the same outcome. *)
Lemma part_ok_same m m' l l' R R' :
  part_ok m l R -> runs m' l' f s p x = runs m l f s p x -> R ≡ₚ R' ->
  (forall e, min_first k R' e -> head R' = head R) -> part_ok m' l' R'.
Proof.
  intros (L & E & G & Hp & Hr & Hm) Hm' HR Hh. exists L, E, G. split_and!.
  - by apply (parted_same k L E G R).
  - by rewrite Hm'.
  - intros e He. apply Hm, (min_first_perm k R'); [done| |done]. symmetry. by apply (Hh e).
Qed.

Lemma loop_done L E G l lo u hi :
  l = pre ++ L ++ E ++ G ++ post ->
  lo = Z.of_nat (length pre + length L) -> u = lo + Z.of_nat (length E) -> hi = u - 1 ->
  Forall (below k) L -> Forall (at_key k) E -> Forall (above k) G ->
  part_ok (Ret (lo, hi)) l (L ++ E ++ G).
Proof.
  intros -> -> -> -> HL HE HG. exists L, E, G. split_and!; [by constructor| |by intros e (? & _)].
  cbn [run]. do 2 f_equal. lia.
Qed.

Lemma min_first_below L E b R e :
  Forall (at_key k) E -> b.1 < k -> b ∈ R -> min_first k (L ++ E ++ R) e ->
  head (L ++ E ++ R) = head (L ++ R).
Proof.
  intros HE Hb HbR (Hh & Hall & Hk). destruct L as [|c L]; [|done]. destruct E as [|c E]; [done|].
  cbn in Hh. injection Hh as ->. apply Forall_cons in HE as [He _]. unfold at_key in He.
  rewrite Forall_forall in Hall. specialize (Hall b). rewrite elem_of_app in Hall. specialize (Hall ltac:(right; apply elem_of_app; by right)). lia.
Qed.

Lemma min_first_above L E b R R' e :
  k < b.1 -> min_first k (L ++ E ++ b :: R) e -> head (L ++ E ++ b :: R) = head (L ++ E ++ R').
Proof.
  intros Hb (Hh & _ & Hk). destruct L as [|c L]; [|done]. destruct E as [|c E]; [|done].
  cbn in Hh. injection Hh as ->. lia.
Qed.

(** A key above the pivot joins [G], with those found after it. *)
Lemma step_above fuel L E U G b l lo u hi :
  loop_ok fuel -> l = pre ++ L ++ E ++ (b :: U) ++ G ++ post ->
  lo = Z.of_nat (length pre + length L) -> u = lo + Z.of_nat (length E) -> hi = u + Z.of_nat (length (b :: U)) - 1 ->
  (length U <= fuel)%nat -> Forall (below k) L -> Forall (at_key k) E -> Forall (above k) G -> k < b.1 ->
  part_ok (let* hi := shrink_loop (S fuel) k u hi in
    if hi <? u then Ret (lo, hi)
    else swap u hi ;;; partition_loop fuel k lo u (hi - 1)) l (L ++ E ++ (b :: U) ++ G).
Proof.
  intros IH Hl Hlo Hu Hhi Hf HL HE HG Hb.
  destruct (shrink_loop_spec k (pre ++ L ++ E) f s p x u (S fuel) (b :: U) (G ++ post) l)
    as (U1 & G1 & HU & HG1 & Hlast & Hr); [by rewrite Hl; same_list|same_index|cbn; lia|].
  rewrite <- Hhi in Hr. destruct Hlast as [->|(U2 & c & -> & Hc)].
  - cbn [app] in HU. cbn [length] in Hr. subst G1.
    apply (part_ok_same (Ret (lo, u - 1)) _ l _ (L ++ E ++ ((b :: U) ++ G))); [|run_with Hr|done|done].
    + apply (loop_done L E ((b :: U) ++ G) l lo u); [by rewrite Hl; same_list|done..|]. by apply Forall_app.
    + replace (u + Z.of_nat 0 - 1) with (u - 1) by lia. by rewrite (proj2 (Z.ltb_lt _ _)) by lia.
  - destruct U2 as [|b' U3]; cbn [app] in HU; injection HU as <- HU; [lia|].
    set (hi' := u + 1 + Z.of_nat (length U3)).
    apply (part_ok_same (partition_loop fuel k lo u (hi' - 1)) _
      ((pre ++ L ++ E) ++ c :: U3 ++ b :: G1 ++ G ++ post) _ (L ++ E ++ (c :: U3) ++ (b :: G1 ++ G))).
    + apply (IH L E (c :: U3) (b :: G1 ++ G)); [same_list|done|done|unfold hi'; same_index| |done|done|].
      * apply (f_equal length) in HU. rewrite !length_app in HU. cbn in *. lia.
      * constructor; [done|]. by apply Forall_app.
    + run_with Hr. replace (u + Z.of_nat (length ((b :: U3) ++ [c])) - 1) with hi' by (unfold hi'; same_index).
      rewrite (proj2 (Z.ltb_ge _ _)) by (unfold hi'; lia).
      by run_with (run_swap_lt l (pre ++ L ++ E) b U3 c (G1 ++ G ++ post) u hi' f s p x
        ltac:(rewrite Hl, HU; same_list) ltac:(same_index) ltac:(done)).
    + rewrite HU. solve_Permutation.
    + intros e He. cbn [app]. rewrite (min_first_above L E b (U ++ G) ((c :: U3) ++ b :: G1 ++ G) e Hb He). done.
Qed.

Lemma loop_spec : forall fuel, loop_ok fuel.
Proof.
  induction fuel as [|fuel IH]; intros L E U G l lo u hi Hl Hlo Hu Hhi Hf HL HE HG.
  { destruct U; [|cbn in Hf; lia]. cbn [partition_loop]. cbn in Hhi. rewrite (proj2 (Z.leb_gt _ _)) by lia.
    apply (loop_done L E G l lo u hi); try done. lia. }
  destruct U as [|b U].
  { cbn [partition_loop]. cbn in Hhi. rewrite (proj2 (Z.leb_gt _ _)) by lia.
    apply (loop_done L E G l lo u hi); try done. lia. }
  cbn [length] in Hhi, Hf. cbn [partition_loop]. rewrite (proj2 (Z.leb_le _ _)) by lia.
  assert (Hload := run_key_load l (pre ++ L ++ E) (U ++ G ++ post) b u f s p x
    ltac:(by rewrite Hl; same_list) ltac:(same_index)).
  destruct (Z.ltb_spec b.1 k) as [Hb|Hb]; [|destruct (Z.ltb_spec k b.1) as [Hb'|Hb']].
  - destruct (run_rotate (pre ++ L) E b l lo u (U ++ G ++ post) f s p x) as (E1 & Hr & HE1);
      [by rewrite Hl; same_list|same_index|done|].
    assert (HlE : length E1 = length E) by (by apply Permutation_length).
    apply (part_ok_same (partition_loop fuel k (lo + 1) (u + 1) hi) _ ((pre ++ L) ++ b :: E1 ++ U ++ G ++ post) _
      ((L ++ [b]) ++ E1 ++ U ++ G)).
    + apply (IH (L ++ [b]) E1 U G); [same_list|same_index|lia|lia|lia| |by rewrite HE1|done].
      apply Forall_app. split; [done|]. by apply Forall_singleton.
    + run_with Hload. rewrite (proj2 (Z.ltb_lt _ _)) by done. by run_with Hr.
    + rewrite HE1. solve_Permutation.
    + intros e He. rewrite (min_first_below L E b ((b :: U) ++ G) e); [|done|done|by left|done].
      by destruct L.
  - destruct (step_above fuel L E U G b l lo u hi IH Hl Hlo Hu ltac:(cbn [length]; lia) ltac:(lia) HL HE HG Hb')
      as (L' & E' & G' & Hp & Hr & Hm). exists L', E', G'. split_and!; [done| |done]. rewrite <- Hr. run_with Hload.
    rewrite (proj2 (Z.ltb_ge _ _)) by lia. by rewrite (proj2 (Z.ltb_lt _ _)) by done.
  - apply (part_ok_same (partition_loop fuel k lo (u + 1) hi) _ l _ (L ++ (E ++ [b]) ++ U ++ G)).
    + apply (IH L (E ++ [b]) U G); [by rewrite Hl; same_list|same_index|same_index|lia|lia|done| |done].
      apply Forall_app. split; [done|]. apply Forall_singleton. unfold at_key. lia.
    + run_with Hload. by rewrite !(proj2 (Z.ltb_ge _ _)) by lia.
    + solve_Permutation.
    + intros e _. by destruct L, E.
Qed.
End Loop.

(** A minimum in front of a region. *)
Definition min_in_front R e : Prop := head R = Some e /\ Forall (fun b => e.1 <= b.1) R.

Lemma partition3_spec pre R post l left right f s p x :
  l = pre ++ R ++ post -> left = Z.of_nat (length pre) -> right = left + Z.of_nat (length R) - 1 -> R <> [] ->
  exists k L E G, parted k L E G R /\ E <> [] /\
    runs (partition3 left right) l f s p x =
      Done (Z.of_nat (length pre + length L), Z.of_nat (length pre + length L + length E) - 1)
           (Asr (pre ++ L ++ E ++ G ++ post) f s p x) /\
    forall e, min_in_front R e -> head (L ++ E ++ G) = Some e.
Proof.
  intros Hl Hleft Hright HR. assert (Hlen : (length R <> 0)%nat) by (by destruct R).
  set (mid := (Z.to_nat ((right + left) / 2) - length pre)%nat).
  assert (Hmid : (right + left) / 2 = Z.of_nat (length pre + mid) /\ (mid < length R)%nat).
  { assert (left <= (right + left) / 2 <= right) by (split; [apply Z.div_le_lower_bound|apply Z.div_le_upper_bound]; lia).
    unfold mid. lia. }
  destruct Hmid as [Hm Hmlt]. destruct (lookup_lt_is_Some_2 R mid Hmlt) as [c Hc].
  pose proof (list_split_at R mid c Hc) as (R1 & R2 & HRc & HmR1).
  destruct (loop_spec c.1 pre post f s p x (Z.to_nat (right - left + 1)) [] [] R [] l left left right)
    as (L & E & G & Hp & Hr & Hmin); [done|cbn; lia|cbn; lia|lia|lia|constructor..|]. cbn [app] in *. rewrite app_nil_r in *.
  exists c.1, L, E, G. split_and!; [done| | |].
  - assert (Hin : c ∈ L ++ E ++ G) by (rewrite (parted_perm _ _ _ _ _ Hp), HRc; set_solver). destruct Hp as [_ H1 H2 H3].
    rewrite Forall_forall in H1, H3. rewrite !elem_of_app in Hin. destruct Hin as [Hin|[Hin|Hin]].
    + specialize (H1 c Hin). unfold below in H1. lia.
    + intros ->. by apply elem_of_nil in Hin.
    + specialize (H3 c Hin). unfold above in H3. lia.
  - unfold partition3. rewrite Z.add_comm in Hm.
    run_with (run_key_load l (pre ++ R1) (R2 ++ post) c ((right + left) / 2) f s p x
      ltac:(rewrite Hl, HRc; same_list) ltac:(rewrite Z.add_comm, Hm, length_app; lia)). exact Hr.
  - intros e (Hh & Hall). apply Hmin. split_and!; [done|done|]. rewrite Forall_forall in Hall.
    apply Hall. rewrite HRc. set_solver.
Qed.

(** Slot [n] of [R] holds the element that sorting would put there. *)
Definition selected (n : nat) R : Prop :=
  exists A m B, R = A ++ m :: B /\ length A = n /\
    Forall (fun a => a.1 <= m.1) A /\ Forall (fun b => m.1 <= b.1) B.

Lemma Forall_weaken (P Q : Z * V -> Prop) l : (forall e, P e -> Q e) -> Forall P l -> Forall Q l.
Proof. intros H Hl. by apply (Forall_impl P Q l Hl). Qed.

Section Parted.
Context (k : Z) (L E G R : list (Z * V)) (Hp : parted k L E G R).

Lemma selected_equal n : (length L <= n < length L + length E)%nat -> selected n (L ++ E ++ G).
Proof using Hp.
  intros Hn. destruct Hp as [_ H1 H2 H3]. destruct (lookup_lt_is_Some_2 E (n - length L)) as [m Hm]; [lia|].
  pose proof (list_split_at E _ m Hm) as (E1 & E2 & -> & Hlen).
  apply Forall_app in H2 as [H2 [Hmk H2']%Forall_cons]. unfold at_key in Hmk.
  exists (L ++ E1), m, (E2 ++ G). split_and!.
  - same_list.
  - rewrite length_app. lia.
  - apply Forall_app. split; [revert H1|revert H2]; apply Forall_weaken; unfold below, at_key; lia.
  - apply Forall_app. split; [revert H2'|revert H3]; apply Forall_weaken; unfold above, at_key; lia.
Qed.

Lemma selected_less n L' : L' ≡ₚ L -> selected n L' -> selected n (L' ++ E ++ G).
Proof using Hp.
  intros HL (A & m & B & -> & Hn & HA & HB). destruct Hp as [_ H1 H2 H3]. rewrite <- HL in H1.
  apply Forall_app in H1 as [_ [Hm _]%Forall_cons]. unfold below in Hm.
  exists A, m, (B ++ E ++ G). split_and!; [same_list|done|done|]. rewrite !Forall_app. split_and!; [done| |].
  - revert H2. apply Forall_weaken. unfold at_key. lia.
  - revert H3. apply Forall_weaken. unfold above. lia.
Qed.

Lemma selected_greater n G' : G' ≡ₚ G -> selected n G' -> selected (length L + length E + n) (L ++ E ++ G').
Proof using Hp.
  intros HG (A & m & B & -> & Hn & HA & HB). destruct Hp as [_ H1 H2 H3]. rewrite <- HG in H3.
  apply Forall_app in H3 as [_ [Hm _]%Forall_cons]. unfold above in Hm.
  exists (L ++ E ++ A), m, B. split_and!; [same_list|rewrite !length_app; lia| |done].
  rewrite !Forall_app. split_and!; [| |done].
  - revert H1. apply Forall_weaken. unfold below. lia.
  - revert H2. apply Forall_weaken. unfold at_key. lia.
Qed.
End Parted.

Lemma head_app_same (l l' r : list (Z * V)) e : l' ≡ₚ l -> head (l ++ r) = Some e ->
  (head l = Some e -> head l' = Some e) -> head (l' ++ r) = Some e.
Proof.
  intros Hp Hh Hl. destruct l as [|a l].
  - by apply Permutation_nil_r in Hp as ->.
  - cbn in Hh. destruct l'; [by apply Permutation_nil_l in Hp|]. cbn. by apply Hl.
Qed.

Lemma quickselect_spec f s p x : forall fuel pre R post l left right k,
  l = pre ++ R ++ post -> left = Z.of_nat (length pre) -> right = left + Z.of_nat (length R) - 1 ->
  left <= k <= right -> (length R <= fuel)%nat ->
  exists R', runs (quickselect fuel left right k) l f s p x = Done tt (Asr (pre ++ R' ++ post) f s p x) /\
    R' ≡ₚ R /\ selected (Z.to_nat (k - left)) R' /\
    forall e, min_in_front R e -> head R' = Some e.
Proof.
  induction fuel as [|fuel IH]; intros pre R post l left right k Hl Hleft Hright Hk Hf; [lia|].
  cbn [quickselect]. rewrite !(proj2 (Z.leb_le _ _)) by lia. cbn [passert bind].
  destruct (Z.eqb_spec left right) as [He|Hne].
  { destruct R as [|m [|]]; cbn in Hright; [lia| |lia]. exists [m]. split_and!; [by rewrite Hl|done| |by intros e [? _]].
    exists [], m, []. split_and!; [done|cbn; lia|constructor..]. }
  destruct (partition3_spec pre R post l left right f s p x Hl Hleft Hright) as (kp & L & E & G & Hp & HE & Hr & Hmin);
    [by intros ->; cbn in *; lia|].
  assert (HlE : (length E <> 0)%nat) by (by destruct E).
  pose proof (Permutation_length (parted_perm _ _ _ _ _ Hp)) as Hlen. rewrite !length_app in Hlen.
  run_with Hr. destruct (Z.leb_spec (Z.of_nat (length pre + length L)) k) as [H1|H1]; cbn [andb];
    [destruct (Z.leb_spec k (Z.of_nat (length pre + length L + length E) - 1)) as [H2|H2]; cbn [andb]|].
  - exists (L ++ E ++ G). split_and!; [cbn [run]; do 2 f_equal; same_list|apply (parted_perm _ _ _ _ _ Hp)| |done].
    apply (selected_equal kp L E G R Hp). lia.
  - rewrite (proj2 (Z.ltb_ge _ _)) by lia.
    destruct (IH (pre ++ L ++ E) G post (pre ++ L ++ E ++ G ++ post) (Z.of_nat (length pre + length L + length E) - 1 + 1) right k)
      as (G' & Hr' & HG & Hs & _); [same_list|same_index|lia|lia|lia|].
    exists (L ++ E ++ G'). split_and!; [rewrite Hr'; do 2 f_equal; same_list|rewrite HG; apply (parted_perm _ _ _ _ _ Hp)| |].
    + pose proof (selected_greater kp L E G R Hp _ G' HG Hs) as Hs'.
      by replace (Z.to_nat (k - left)) with (length L + length E + Z.to_nat (k - (Z.of_nat (length pre + length L + length E) - 1 + 1)))%nat by lia.
    + intros e He. pose proof (Hmin e He) as Hh. by destruct L, E.
  - rewrite (proj2 (Z.ltb_lt _ _)) by lia.
    destruct (IH pre L (E ++ G ++ post) (pre ++ L ++ E ++ G ++ post) left (Z.of_nat (length pre + length L) - 1) k)
      as (L' & Hr' & HL & Hs & Hmin'); [done|done|lia|lia|lia|].
    exists (L' ++ E ++ G). split_and!; [rewrite Hr'; do 2 f_equal; same_list|rewrite HL; apply (parted_perm _ _ _ _ _ Hp)| |].
    + by apply (selected_less kp L E G R Hp).
    + intros e He. apply (head_app_same L L' (E ++ G) e HL); [by apply Hmin|]. intros Hh. apply Hmin'. split; [done|].
      destruct He as [_ Hall]. rewrite <- (parted_perm _ _ _ _ _ Hp), !Forall_app in Hall. tauto.
Qed.

Lemma quickselect_median_spec (CAPACITY : nat) R post l f s p x :
  l = R ++ post -> (length R <= CAPACITY)%nat ->
  exists R', runs (quickselect_median CAPACITY (Z.of_nat (length R))) l f s p x = Done tt (Asr (R' ++ post) f s p x) /\
    R' ≡ₚ R /\ (R <> [] -> selected (length R / 2) R') /\
    forall e, min_in_front R e -> head R' = Some e.
Proof.
  intros Hl Hc. unfold quickselect_median.
  destruct (Nat.leb_spec 2 CAPACITY) as [H2|H2]; cbn [andb]; [destruct (Z.leb_spec 2 (Z.of_nat (length R))) as [H3|H3]|].
  - rewrite Nat2Z.id. assert (Hd : Z.of_nat (length R) / 2 = Z.of_nat (length R / 2)) by (by rewrite Nat2Z.inj_div).
    pose proof (Nat.div_lt (length R) 2 ltac:(lia) ltac:(lia)).
    destruct (quickselect_spec f s p x (length R) [] R post l 0 (Z.of_nat (length R) - 1) (Z.of_nat (length R) / 2))
      as (R' & Hr & HR & Hs & Hm); [done|done|lia|lia|lia|].
    exists R'. split_and!; [done|done| |done]. intros _. by replace (length R / 2)%nat with (Z.to_nat (Z.of_nat (length R) / 2 - 0)) by lia.
  - exists R. split_and!; [by rewrite Hl|done| |by intros e [? _]]. intros HR. destruct R as [|m [|]]; [done| |cbn in H3; lia].
    exists [], m, []. split_and!; [done|done|constructor..].
  - exists R. split_and!; [by rewrite Hl|done| |by intros e [? _]]. intros HR. destruct R as [|m [|]]; [done| |cbn in Hc; lia].
    exists [], m, []. split_and!; [done|done|constructor..].
Qed.
End AsrSelect.
