(* ===== verification/AsrMoves.v ===== *)
(** * AsrMoves: splitting a two-phase multivector

    What [steal_max], [steal_half] and [split_insert] do, run by the thread that
    holds the victim's lock: the entries are divided between the two vectors,
    none is lost or made up, and the minimum of the victim stays in its first
    slot. *)

From S2P Require Import Prelude KvList Prog ArrayOps AsrWord MultivectorAsr AsrRun.

Local Open Scope Z_scope.

Section AsrMoves.
Context (CAPACITY : nat) (EMPTY : Z) {V : Type}.
Context {guard : forall B, asrE V B -> bool} `{Hguard : !HolderGuard guard}.
Implicit Types (l ls el : list (Z * V)) (e m a b : Z * V) (k : Z) (f s p x : Z) (self : asr V).

Local Abbreviation runs m l f s p x := (run (guarded guard) m (Asr l f s p x)).
(** The same of the new vector, which has no lock to hold. *)
Local Abbreviation alone m l f s p x := (run asr_handle m (Asr l f s p x)).
Local Abbreviation holds := (holds CAPACITY EMPTY).
Local Abbreviation keyed := (keyed EMPTY).
Local Abbreviation vacant := (vacant EMPTY).

Lemma run_private {A : Type} (m : prog (asrE V) A) self self' (a : A) l f s p x :
  run asr_handle m self = Done a self' ->
  runs (private self m) l f s p x = Done (a, self') (Asr l f s p x).
Proof. intros H. unfold private. by rewrite H. Qed.

Lemma keyed_app l l' : Forall keyed (l ++ l') <-> Forall keyed l /\ Forall keyed l'.
Proof. apply Forall_app. Qed.

(** ** Filling and emptying *)

Lemma vacant_cell e : vacant (EMPTY, e.2).
Proof. done. Qed.

Lemma holds_keyed l el : holds l el -> Forall keyed el.
Proof. by intros (free & _ & _ & H & _). Qed.

(** A free slot takes one more entry. *)
Lemma holds_room l el : holds l el -> (length el < CAPACITY)%nat ->
  exists c free, l = el ++ c :: free /\ forall e, keyed e -> holds (el ++ e :: free) (el ++ [e]).
Proof.
  intros (free & Hl & Hlen & Hk & Hv) Hn. destruct free as [|c free].
  { rewrite app_nil_r in Hl. subst l. lia. }
  exists c, free. split; [done|]. intros e He. apply Forall_cons in Hv as [_ Hv]. exists free. split_and!.
  - same_list.
  - rewrite <- Hlen, Hl, !length_app. done.
  - apply Forall_app. split; [done|]. by apply Forall_singleton.
  - done.
Qed.

Lemma run_append ls el e n f s p x : holds ls el -> (length el < CAPACITY)%nat -> keyed e -> n = Z.of_nat (length el) ->
  exists ls', alone (assign n e) ls f s p x = Done tt (Asr ls' f s p x) /\ holds ls' (el ++ [e]).
Proof.
  intros H Hn He ->. destruct (holds_room ls el H Hn) as (c & free & Hls & Hnew).
  exists (el ++ e :: free). split; [|by apply Hnew]. by apply (run_assign (guard:=any_access) ls el c free).
Qed.

Lemma alone_verify_locked ls el n f s p x : holds ls el -> n = Z.of_nat (length el) ->
  alone (verify_locked CAPACITY EMPTY n) ls f s p x = Done true (Asr ls f s p x).
Proof. apply (run_verify_locked CAPACITY EMPTY (guard:=any_access)). Qed.

(** Taking entries out of the end of the filled part. *)
Lemma holds_cut l el el' free : length l = CAPACITY -> l = el ++ el' ++ free -> Forall keyed el ->
  Forall vacant el' -> Forall vacant free -> holds l el.
Proof. intros Hn Hl Hk Hv Hf. exists (el' ++ free). split_and!; try done. by apply Forall_app. Qed.

(** ** [steal_max] *)

(** The last of the greatest keys. *)
Definition last_max (i : nat) (c : Z * V) el : Prop :=
  el !! i = Some c /\ Forall (fun e => e.1 <= c.1) el /\
  forall j e, el !! j = Some e -> (i < j)%nat -> e.1 < c.1.

Lemma last_max_greater pre i c e : last_max i c pre -> c.1 <= e.1 -> last_max (length pre) e (pre ++ [e]).
Proof.
  intros (H1 & H2 & H3) He. split_and!.
  - by apply list_lookup_middle.
  - apply Forall_app. split; [|by apply Forall_singleton]. revert H2. apply Forall_weaken. lia.
  - intros j d Hj Hlt. apply lookup_lt_Some in Hj. same_index.
Qed.

Lemma last_max_keep pre i c e : last_max i c pre -> e.1 < c.1 -> last_max i c (pre ++ [e]).
Proof.
  intros (H1 & H2 & H3) He. split_and!.
  - by apply lookup_app_l_Some.
  - apply Forall_app. split; [done|]. apply Forall_singleton. lia.
  - intros j d [Hj|[_ Hj]]%lookup_app_Some Hlt; [by apply (H3 j)|].
    by apply list_lookup_singleton_Some in Hj as [_ <-].
Qed.

Lemma scan_max_spec fuel f s p x : forall el pre post l i mk loc,
  l = pre ++ el ++ post -> i = Z.of_nat (length pre) -> Forall keyed (pre ++ el) -> pre ++ el <> [] ->
  (pre = [] /\ mk = EMPTY \/ exists n c, last_max n c pre /\ mk = c.1 /\ loc = Z.of_nat n) ->
  exists n c, last_max n c (pre ++ el) /\
    runs (scan_max EMPTY (S fuel) mk loc i (length el)) l f s p x = Done (Z.of_nat n) (Asr l f s p x).
Proof.
  induction el as [|e el IH]; intros pre post l i mk loc Hl Hi Hk Hne Hmk.
  - rewrite app_nil_r in *. destruct Hmk as [[-> _]|(n & c & Hc & -> & ->)]; [done|]. by exists n, c.
  - pose proof Hk as [_ [He _]%Forall_cons]%Forall_app. cbn [scan_max length].
    assert (Happ : pre ++ e :: el = (pre ++ [e]) ++ el) by same_list.
    run_with (run_wait_slot EMPTY fuel l pre e (el ++ post) i f s p x Hl Hi He).
    destruct Hmk as [[-> ->]|(n & c & Hc & -> & ->)].
    + rewrite Z.eqb_refl. cbn [orb]. rewrite Happ in *. apply (IH _ post); [done|cbn in *; lia|done|done|].
      right. exists O, e. split_and!; [|done|cbn in Hi; lia]. split_and!; [done|by apply Forall_singleton|].
      intros [|j] d; cbn; [lia|done].
    + pose proof (Hc) as (Hn & _). rewrite keyed_app in Hk. destruct Hk as [Hk1 Hk2].
      rewrite (keyed_eqb EMPTY c) by (rewrite Forall_forall in Hk1; by eapply Hk1, list_elem_of_lookup_2). cbn [orb].
      rewrite Happ. destruct (Z.leb_spec c.1 e.1) as [Hce|Hce].
      * apply (IH _ post); [by rewrite Hl; same_list|same_index|rewrite <- Happ; by apply keyed_app|by destruct pre|].
        right. exists (length pre), e. split_and!; [by eapply last_max_greater|done|done].
      * apply (IH _ post); [by rewrite Hl; same_list|same_index|rewrite <- Happ; by apply keyed_app|by destruct pre|].
        right. exists n, c. split_and!; [by apply last_max_keep|done|done].
Qed.

(** Removing the slot of the maximum and filling the hole with the last one. *)
Definition fill_hole (A B : list (Z * V)) : list (Z * V) :=
  match last B with Some z => A ++ z :: removelast B | None => A end.

Lemma fill_hole_perm A m B : m :: fill_hole A B ≡ₚ A ++ m :: B.
Proof.
  unfold fill_hole. destruct B as [|z B _] using rev_ind; cbn [last].
  - solve_Permutation.
  - rewrite last_snoc, removelast_last. solve_Permutation.
Qed.

Lemma fill_hole_length A m B : length (fill_hole A B) = (length (A ++ m :: B) - 1)%nat.
Proof. pose proof (Permutation_length (fill_hole_perm A m B)) as H. cbn in H. lia. Qed.

Lemma run_fill_hole l A m B free n f s p x :
  l = A ++ (EMPTY, m.2) :: B ++ free -> length l = CAPACITY -> Forall keyed (A ++ B) -> Forall vacant free ->
  n = Z.of_nat (length A) ->
  exists l', holds l' (fill_hole A B) /\
    runs (if negb (n =? n + Z.of_nat (length B)) then kv_rob EMPTY n (n + Z.of_nat (length B)) else Ret tt) l f s p x =
      Done tt (Asr l' f s p x).
Proof.
  intros Hl Hlen [HA HB]%keyed_app Hv Hn. unfold fill_hole. destruct B as [|z B _] using rev_ind; cbn [last].
  - exists l. cbn [length]. rewrite (proj2 (Z.eqb_eq _ _)) by lia. split; [|done].
    apply (holds_cut l A [(EMPTY, m.2)] free); try done. apply Forall_singleton, vacant_cell.
  - rewrite last_snoc, removelast_last. apply keyed_app in HB as [HB [Hz _]%Forall_cons].
    rewrite (proj2 (Z.eqb_neq _ _)) by same_index. cbn [negb].
    exists (A ++ z :: B ++ (EMPTY, z.2) :: free). split.
    + apply (holds_cut _ (A ++ z :: B) [(EMPTY, z.2)] free); [|same_list| |by apply Forall_singleton|done].
      * rewrite <- Hlen, Hl. same_index.
      * apply keyed_app. split; [done|]. by constructor.
    + apply (run_kv_rob EMPTY l A (EMPTY, m.2) B z free); [by rewrite Hl; same_list|done|same_index|done].
Qed.

(** The counter of a locked vector that holds [el]. *)
Definition locked_word (ver n : Z) el : Prop :=
  word_ok ver n /\ Z.min n (Z.of_nat CAPACITY) = Z.of_nat (length el) /\ Z.of_nat CAPACITY < 2 ^ 31.

Lemma run_set_size ver n n' l f p x : stores_at guard ver -> word_ok ver n -> 0 <= n' < 2 ^ 32 ->
  runs (set_size (pack ver true n) n') l f (pack ver true n) p x = Done tt (Asr l f (pack ver true n') p x).
Proof.
  intros Hsto Hok Hn. unfold set_size. rewrite (pack_set_insert ver n true Hok n' Hn). cbn [lift_opt bind run trigger].
  unfold guarded. rewrite Hsto; [done|]. by destruct Hok.
Qed.

(** The beginning of the methods that split a locked vector. *)
Lemma run_load l f s p x : runs (trigger (Load CAS)) l f s p x = Done s (Asr l f s p x).
Proof using Hguard. cbn [run trigger]. unfold guarded. by rewrite allows_load. Qed.

Lemma locked_state ver n el : locked_word ver n el ->
  bool_decide (get_state (pack ver true n) = LOCKED) = true /\
  get_valid_reservations CAPACITY (pack ver true n) = Z.of_nat (length el).
Proof. intros (Hok & Hmin & _). by rewrite (pack_state ver n true Hok), (pack_valid ver n true Hok), Hmin. Qed.

Lemma run_passert_then (b : bool) {A : Type} (m : prog (asrE V) A) l f s p x : b = true ->
  runs (passert b ;;; m) l f s p x = runs m l f s p x.
Proof. by intros ->. Qed.

Lemma run_steal_max fuel l ls el ver n f p x fs ss ps xs :
  stores_at guard ver -> holds l el -> el <> [] -> locked_word ver n el -> holds ls [] ->
  exists A m B ls' l', el = A ++ m :: B /\ Forall (fun e => e.1 <= m.1) el /\
    runs (steal_max CAPACITY EMPTY (S fuel) (Asr ls fs ss ps xs)) l f (pack ver true n) p x =
      Done (Asr ls' 1 ss ps xs) (Asr l' f (pack ver true (Z.of_nat (length el) - 1)) p x) /\
    holds ls' [m] /\ holds l' (fill_hole A B) /\
    forall e, min_in_front el e -> A = [] -> B = [].
Proof.
  intros Hsto Hl Hne Hw Hls. pose proof (holds_le _ _ _ _ Hl) as Hle. pose proof (holds_keyed _ _ Hl) as Hkel.
  destruct Hl as (free & Hll & Hlen & _ & Hv). assert (0 < Z.of_nat (length el)) by (destruct el; cbn; [done|lia]).
  pose proof (locked_state ver n el Hw) as [Hst Hsize]. destruct Hw as (Hok & Hmin & Hc31).
  destruct (scan_max_spec fuel f (pack ver true n) p x el [] free l 0 EMPTY (Z.of_nat (length el)))
    as (i & m & (Him & Hmax & Hlast) & Hscan); [done..|by left|].
  destruct (list_split_at el i m Him) as (A & B & -> & HlA).
  destruct (run_append ls [] m 0 fs ss ps xs Hls) as (ls' & Happ & Hls');
    [cbn; lia|apply keyed_app in Hkel as [_ [Hm _]%Forall_cons]; done|done|].
  destruct (run_fill_hole (A ++ (EMPTY, m.2) :: B ++ free) A m B free (Z.of_nat i) f (pack ver true n) p x)
    as (l' & Hl' & Hfill); [done|rewrite <- Hlen, Hll; same_index| |done|lia|].
  { apply keyed_app in Hkel as [H1 [_ H2]%Forall_cons]. by apply keyed_app. }
  exists A, m, B, ls', l'. split_and!; [done|done| |done|done|].
  - unfold steal_max. run_with (run_load l f (pack ver true n) p x).
    rewrite run_passert_then by done. rewrite Hsize, Nat2Z.id. rewrite !run_passert_then by (apply Z.ltb_lt || apply Z.leb_le; lia).
    run_with Hscan. apply keyed_app in Hkel as [_ [Hm _]%Forall_cons].
    run_with (run_rob_from EMPTY l A m (B ++ free) (Z.of_nat i) f (pack ver true n) p x
      ltac:(by rewrite Hll; same_list) ltac:(lia) Hm).
    run_with (run_private _ _ _ _ (A ++ (EMPTY, m.2) :: B ++ free) f (pack ver true n) p x Happ).
    replace (Z.of_nat (length (A ++ m :: B)) - 1) with (Z.of_nat i + Z.of_nat (length B)) by same_index. run_with Hfill.
    run_with (run_private (trigger (Store FAA 1)) (Asr ls' fs ss ps xs) (Asr ls' 1 ss ps xs) tt l' f (pack ver true n) p x eq_refl).
    run_with (run_set_size ver n (Z.of_nat i + Z.of_nat (length B)) l' f p x Hsto Hok ltac:(same_index)).
    run_with (run_private _ _ _ _ l' f (pack ver true (Z.of_nat i + Z.of_nat (length B))) p x
      (alone_verify_locked ls' [m] 1 1 ss ps xs Hls' eq_refl)).
    by run_with (run_verify_locked CAPACITY EMPTY l' (fill_hole A B) (Z.of_nat i + Z.of_nat (length B)) f (pack ver true (Z.of_nat i + Z.of_nat (length B))) p x Hl'
      ltac:(rewrite (fill_hole_length A m B); same_index)).
  - intros e [Hh Hall] ->. destruct B as [|b B]; [done|]. cbn in Hh, HlA. injection Hh as ->. subst i.
    specialize (Hlast 1%nat b eq_refl ltac:(lia)). rewrite Forall_forall in Hall. specialize (Hall b ltac:(set_solver)). lia.
Qed.

(** ** [steal_half] *)

Lemma run_rob_loop f s p x fs ss ps xs first : forall B pre gone free l ls S i,
  l = pre ++ gone ++ B ++ free -> first = Z.of_nat (length pre) -> i = Z.of_nat (length gone) ->
  length S = length gone -> holds ls S -> (length S + length B <= CAPACITY)%nat ->
  Forall keyed B -> Forall vacant gone ->
  exists gone' ls', length gone' = (length gone + length B)%nat /\ Forall vacant gone' /\ holds ls' (S ++ B) /\
    runs (rob_loop EMPTY first i (length B) (Asr ls fs ss ps xs)) l f s p x =
      Done (Asr ls' fs ss ps xs) (Asr (pre ++ gone' ++ free) f s p x).
Proof.
  induction B as [|e B IH]; intros pre gone free l ls S i Hl Hf Hi HS Hls Hc Hk Hv.
  - exists gone, ls. rewrite app_nil_r. split_and!; [cbn; lia|done|done|by rewrite Hl].
  - apply Forall_cons in Hk as [He Hk]. cbn [rob_loop length] in *.
    run_with (run_rob_from EMPTY l (pre ++ gone) e (B ++ free) (first + i) f s p x ltac:(by rewrite Hl; same_list)
      ltac:(same_index) He).
    destruct (run_append ls S e i fs ss ps xs Hls) as (ls1 & Happ & Hls1); [lia|done|lia|].
    run_with (run_private _ _ _ _ ((pre ++ gone) ++ (EMPTY, e.2) :: B ++ free) f s p x Happ).
    destruct (IH pre (gone ++ [(EMPTY, e.2)]) free ((pre ++ gone) ++ (EMPTY, e.2) :: B ++ free) ls1 (S ++ [e]) (i + 1))
      as (gone' & ls' & H1 & H2 & H3 & H4); [same_list|done|same_index|same_index|done|same_index|done| |].
    { apply Forall_app. split; [done|]. apply Forall_singleton, vacant_cell. }
    exists gone', ls'. split_and!; [same_index|done|by rewrite <- app_assoc in H3|done].
Qed.

(** [A] is the lower half, [B] the upper one, its least entry in front. *)
Definition halves el A B : Prop :=
  A ++ B ≡ₚ el /\ length A = (length el / 2)%nat /\
  (forall a b, a ∈ A -> b ∈ B -> a.1 <= b.1) /\
  (forall b, b ∈ B -> exists m, head B = Some m /\ m.1 <= b.1) /\
  (forall e, min_in_front el e -> head (A ++ B) = Some e).

Lemma selected_halves el R : R ≡ₚ el -> (el <> [] -> selected (length el / 2) R) ->
  (forall e, min_in_front el e -> head R = Some e) ->
  exists A B, R = A ++ B /\ halves el A B.
Proof.
  intros Hp Hs Hh. destruct el as [|e0 el'] eqn:Hel.
  - apply Permutation_nil_r in Hp as ->. exists [], []. split; [done|]. split_and!; try done; set_solver.
  - destruct Hs as (A & m & B & -> & Hlen & HA & HB); [done|]. exists A, (m :: B). split; [done|]. split_and!; try done.
    + rewrite Forall_forall in HA, HB. intros a b Ha [->|Hb]%elem_of_cons; [by apply HA|].
      specialize (HA a Ha). specialize (HB b Hb). lia.
    + rewrite Forall_forall in HB. intros b [->|Hb]%elem_of_cons; exists m; (split; [done|]); [lia|by apply HB].
Qed.

Lemma run_steal_half fuel l ls el ver n f p x fs ss ps xs :
  stores_at guard ver -> holds l el -> locked_word ver n el -> holds ls [] ->
  exists A B ls' l', halves el A B /\
    runs (steal_half CAPACITY EMPTY (S fuel) (Asr ls fs ss ps xs)) l f (pack ver true n) p x =
      Done (Asr ls' (Z.of_nat (length B)) ss ps xs) (Asr l' f (pack ver true (Z.of_nat (length A))) p x) /\
    holds ls' B /\ holds l' A.
Proof.
  intros Hsto Hl Hw Hls. pose proof (holds_le _ _ _ _ Hl) as Hle. pose proof (holds_keyed _ _ Hl) as Hkel.
  destruct Hl as (free & Hll & Hlen & _ & Hv).
  pose proof (locked_state ver n el Hw) as [Hst Hsize]. destruct Hw as (Hok & Hmin & Hc31).
  destruct (quickselect_median_spec CAPACITY el free l f (pack ver true n) p x Hll Hle) as (R & Hq & HR & Hs & Hh).
  destruct (selected_halves el R HR Hs Hh) as (A & B & -> & Hhalf).
  assert (HkAB : Forall keyed (A ++ B)) by (by rewrite HR). apply keyed_app in HkAB as [HkA HkB].
  pose proof (Permutation_length HR) as HlAB. rewrite length_app in HlAB.
  destruct (run_rob_loop f (pack ver true n) p x fs ss ps xs (Z.of_nat (length A)) B A [] free (A ++ B ++ free) ls [] 0)
    as (gone & ls' & Hg & Hvg & Hls' & Hrob); [done..|cbn; lia|done|constructor|].
  exists A, B, ls', (A ++ gone ++ free).
  assert (Hl' : holds (A ++ gone ++ free) A).
  { apply (holds_cut _ A gone free); try done. apply (f_equal length) in Hll. same_index. }
  split_and!; [done| |done|done]. destruct Hhalf as (_ & HlA & _).
  assert (Hdiv : Z.of_nat (length el) / 2 = Z.of_nat (length A)) by (by rewrite HlA, Nat2Z.inj_div).
  unfold steal_half. run_with (run_load l f (pack ver true n) p x).
  rewrite run_passert_then by done. rewrite Hsize.
  run_with (run_wait_for_insertions EMPTY fuel el free l _ f (pack ver true n) p x Hll eq_refl Hkel).
  run_with Hq. rewrite run_passert_then by (apply Z.leb_le; lia). rewrite Hdiv.
  replace (Z.of_nat (length el) - Z.of_nat (length A)) with (Z.of_nat (length B)) by lia. rewrite Nat2Z.id, <- app_assoc.
  run_with Hrob.
  run_with (run_private (trigger (Store FAA (Z.of_nat (length B)))) (Asr ls' fs ss ps xs) _ tt (A ++ gone ++ free) f
    (pack ver true n) p x eq_refl).
  run_with (run_set_size ver n (Z.of_nat (length A)) (A ++ gone ++ free) f p x Hsto Hok ltac:(lia)).
  run_with (run_private _ _ _ _ (A ++ gone ++ free) f (pack ver true (Z.of_nat (length A))) p x
    (alone_verify_locked ls' B _ (Z.of_nat (length B)) ss ps xs Hls' eq_refl)).
  by run_with (run_verify_locked CAPACITY EMPTY (A ++ gone ++ free) A _ f (pack ver true (Z.of_nat (length A))) p x Hl' eq_refl).
Qed.

(** ** [split_insert] *)

Lemma run_count_above k f s p x : forall el pre post l i,
  l = pre ++ el ++ post -> i = Z.of_nat (length pre) ->
  runs (count_above k i (length el)) l f s p x = Done (Z.of_nat (length (kv_above k el))) (Asr l f s p x).
Proof.
  induction el as [|e el IH]; intros pre post l i Hl Hi; [done|]. cbn [count_above length].
  run_with (run_key_load l pre (el ++ post) e i f s p x Hl Hi).
  run_with (IH (pre ++ [e]) post l (i + 1) ltac:(by rewrite Hl; same_list) ltac:(same_index)).
  cbn [run]. unfold kv_above. rewrite filter_cons. destruct (Z.ltb_spec k e.1) as [H|H].
  - rewrite decide_True by done. cbn [length]. do 2 f_equal. lia.
  - by rewrite decide_False by lia.
Qed.

(** What [steal_loop] does with a stretch [W] of the victim: [W'] stays, [T]
    goes. *)
Definition cut_at k W W' T : Prop :=
  W' ++ T ≡ₚ W /\ Forall (fun e => e.1 <= k) W' /\ Forall (fun e => k < e.1) T /\
  forall e, head W = Some e -> e.1 <= k -> head W' = Some e.

Lemma cut_at_keep k a W W' T : a.1 <= k -> cut_at k W W' T -> cut_at k (a :: W) (a :: W') T.
Proof.
  intros Ha (H1 & H2 & H3 & _). split_and!; [cbn; by rewrite H1|by constructor|done|]. by intros e [= <-].
Qed.

Lemma cut_at_lengths k W W' T : cut_at k W W' T -> (length W' + length T = length W)%nat.
Proof. intros (H & _). apply Permutation_length in H. by rewrite length_app in H. Qed.

#[local] Instance kv_upto_proper k : Proper ((≡ₚ) ==> (≡ₚ)) (@kv_upto V k).
Proof. intros l l' H. unfold kv_upto. by rewrite H. Qed.
#[local] Instance kv_above_proper k : Proper ((≡ₚ) ==> (≡ₚ)) (@kv_above V k).
Proof. intros l l' H. unfold kv_above. by rewrite H. Qed.

Lemma cut_at_perm k W W' T : cut_at k W W' T -> W' ≡ₚ kv_upto k W /\ T ≡ₚ kv_above k W.
Proof.
  intros (H1 & H2 & H3 & _). rewrite <- H1, kv_upto_app, kv_above_app. rewrite Forall_forall in H2, H3. split.
  - rewrite kv_upto_all, kv_upto_none, app_nil_r; [done|done..].
  - rewrite kv_above_none, kv_above_all; [done|done..].
Qed.

Definition steal_ok k f s p x fs ss ps xs (c : prog (asrE V) (asr V * Z * Z)) l P W free S my_size i : Prop :=
  exists W' T gone ls', cut_at k W W' T /\ length gone = length T /\ Forall vacant gone /\ holds ls' (S ++ T) /\
    runs c l f s p x =
      Done (Asr ls' fs ss ps xs, my_size + Z.of_nat (length T), i + Z.of_nat (length W'))
           (Asr (P ++ W' ++ gone ++ free) f s p x).

Lemma kv_above_cons k a el : kv_above k (a :: el) = if decide (k < a.1) then a :: kv_above k el else kv_above k el.
Proof. unfold kv_above. by rewrite filter_cons. Qed.

Section StealLoop.
Context (k f s p x fs ss ps xs : Z).
Local Abbreviation steal_ok := (steal_ok k f s p x fs ss ps xs).

(** The last entry of the stretch is stolen. *)
Lemma steal_last c c' l l' P W z free S my_size i :
  steal_ok c l P W ((EMPTY, z.2) :: free) (S ++ [z]) (my_size + 1) i -> k < z.1 ->
  (exists a, head (W ++ [z]) = Some a /\ k < a.1) -> runs c' l' f s p x = runs c l f s p x ->
  steal_ok c' l' P (W ++ [z]) free S my_size i.
Proof.
  intros (W' & T & gone & ls' & (H1 & H2 & H3 & _) & Hg & Hv & Hls' & Hr) Hz (a & Ha & Hka) Hc.
  exists W', (z :: T), (gone ++ [(EMPTY, z.2)]), ls'. split; [split_and!|split_and!].
  - rewrite <- H1. solve_Permutation.
  - done.
  - by constructor.
  - intros e He Hle. rewrite Ha in He. injection He as ->. lia.
  - same_index.
  - apply Forall_app. split; [done|]. apply Forall_singleton, vacant_cell.
  - by rewrite <- app_assoc in Hls'.
  - rewrite Hc, Hr. f_equal; [|by rewrite <- !app_assoc]. do 2 f_equal. same_index.
Qed.

(** The first entry is stolen and the last one takes its place. *)
Lemma steal_swap c c' l l' P a W z free S my_size i :
  steal_ok c l (P ++ [z]) W ((EMPTY, z.2) :: free) (S ++ [a]) (my_size + 1) (i + 1) -> z.1 <= k -> k < a.1 ->
  runs c' l' f s p x = runs c l f s p x ->
  steal_ok c' l' P (a :: W ++ [z]) free S my_size i.
Proof.
  intros (W' & T & gone & ls' & (H1 & H2 & H3 & _) & Hg & Hv & Hls' & Hr) Hz Ha Hc.
  exists (z :: W'), (a :: T), (gone ++ [(EMPTY, z.2)]), ls'. split; [split_and!|split_and!].
  - rewrite <- H1. solve_Permutation.
  - by constructor.
  - by constructor.
  - intros e [= <-]. lia.
  - same_index.
  - apply Forall_app. split; [done|]. apply Forall_singleton, vacant_cell.
  - by rewrite <- app_assoc in Hls'.
  - rewrite Hc, Hr. f_equal; [|by rewrite <- !app_assoc]. f_equal; [f_equal|]; same_index.
Qed.

(** The first entry of the stretch is not stolen. *)
Lemma steal_keep c c' l P a W free S my_size i :
  a.1 <= k -> steal_ok c l (P ++ [a]) W free S my_size (i + 1) -> runs c' l f s p x = runs c l f s p x ->
  steal_ok c' l P (a :: W) free S my_size i.
Proof.
  intros Ha (W' & T & gone & ls' & H1 & Hg & Hv & Hls' & Hr) Hc.
  exists (a :: W'), T, gone, ls'. split_and!; [by apply cut_at_keep|done|done|done|].
  rewrite Hc, Hr. f_equal; [|by rewrite <- !app_assoc]. f_equal. same_index.
Qed.

Lemma steal_nothing l P free ls S my_size i : l = P ++ [] ++ free -> holds ls S ->
  steal_ok (Ret (Asr ls fs ss ps xs, my_size, i + Z.of_nat (length (@nil (Z * V))))) l P [] free S my_size i.
Proof.
  intros -> Hls. exists [], [], [], ls. rewrite app_nil_r. split_and!; [|done..|].
  - split_and!; done.
  - cbn [run length]. do 2 f_equal. f_equal. lia.
Qed.

Lemma run_steal_loop : forall fuel P W free l ls S my_size i,
  l = P ++ W ++ free -> i = Z.of_nat (length P) -> my_size = Z.of_nat (length S) -> holds ls S ->
  (length S + length (kv_above k W) <= CAPACITY)%nat -> Forall keyed W -> (length W <= fuel)%nat ->
  steal_ok (steal_loop EMPTY fuel k (Asr ls fs ss ps xs) my_size i (i + Z.of_nat (length W))) l P W free S my_size i.
Proof.
  induction fuel as [|fuel IH]; intros P W free l ls S my_size i Hl Hi Hms Hls Hc Hk Hf;
    (destruct W as [|a W]; [|cbn [length] in Hf]).
  1, 3: cbn [steal_loop length]; rewrite (proj2 (Z.ltb_ge _ _)) by lia; by apply steal_nothing.
  { lia. }
  cbn [steal_loop]. rewrite (proj2 (Z.ltb_lt _ _)) by (cbn [length]; lia).
  assert (Hload := run_key_load l P (W ++ free) a i f s p x Hl Hi).
  apply Forall_cons in Hk as [Hka Hk]. destruct (Z.leb_spec a.1 k) as [Ha|Ha].
  - apply (steal_keep (steal_loop EMPTY fuel k (Asr ls fs ss ps xs) my_size (i + 1) (i + 1 + Z.of_nat (length W)))
      _ l P a W free S my_size i Ha).
    + apply IH; [by rewrite Hl; same_list|same_index|done|done| |done|lia].
      rewrite kv_above_cons in Hc. rewrite decide_False in Hc by lia. done.
    + run_with Hload. rewrite (proj2 (Z.leb_le _ _)) by done. do 2 f_equal. cbn [length]. lia.
  - rewrite kv_above_cons, decide_True in Hc by done. cbn [length] in Hc.
    destruct (run_append ls S a my_size fs ss ps xs Hls) as (ls1 & Happ & Hls1); [lia|done|done|].
    destruct W as [|z W _] using rev_ind.
    + apply (steal_last (steal_loop EMPTY fuel k (Asr ls1 fs ss ps xs) (my_size + 1) i (i + Z.of_nat (length (@nil (Z * V)))))
        _ (P ++ (EMPTY, a.2) :: free) l P [] a free S my_size i); [|done|by exists a|].
      * apply IH; [done|done|same_index|done|same_index|done|cbn; lia].
      * run_with Hload. rewrite (proj2 (Z.leb_gt _ _)) by done.
        replace (i + Z.of_nat (length [a]) - 1) with i by (cbn; lia). run_with Hload.
        rewrite (proj2 (Z.ltb_lt _ _)) by done.
        run_with (run_rob_from EMPTY l P a free i f s p x Hl Hi Hka).
        run_with (run_private _ _ _ _ (P ++ (EMPTY, a.2) :: free) f s p x Happ).
        do 2 f_equal. cbn. lia.
    + apply Forall_app in Hk as [Hk [Hkz _]%Forall_cons]. rewrite kv_above_app, length_app in Hc.
      assert (Hzl : i + Z.of_nat (length (a :: W ++ [z])) - 1 = i + 1 + Z.of_nat (length W)) by same_index.
      assert (Hloadz := run_key_load l (P ++ a :: W) free z (i + 1 + Z.of_nat (length W)) f s p x
        ltac:(by rewrite Hl; same_list) ltac:(same_index)).
      destruct (Z.ltb_spec k z.1) as [Hz|Hz].
      * rewrite (kv_above_cons k z), decide_True in Hc by done. cbn [length] in Hc.
        destruct (run_append ls S z my_size fs ss ps xs Hls) as (ls2 & Happz & Hls2); [lia|done|done|].
        apply (steal_last (steal_loop EMPTY fuel k (Asr ls2 fs ss ps xs) (my_size + 1) i (i + Z.of_nat (length (a :: W))))
          _ ((P ++ a :: W) ++ (EMPTY, z.2) :: free) l P (a :: W) z free S my_size i); [|done|by exists a|].
        -- apply IH; [same_list|done|same_index|done| |by constructor|same_index].
           rewrite kv_above_cons, decide_True by done. same_index.
        -- run_with Hload. rewrite (proj2 (Z.leb_gt _ _)) by done. rewrite Hzl. run_with Hloadz.
           rewrite (proj2 (Z.ltb_lt _ _)) by done.
           run_with (run_rob_from EMPTY l (P ++ a :: W) z free (i + 1 + Z.of_nat (length W)) f s p x
             ltac:(by rewrite Hl; same_list) ltac:(same_index) Hkz).
           run_with (run_private _ _ _ _ ((P ++ a :: W) ++ (EMPTY, z.2) :: free) f s p x Happz).
           do 2 f_equal. same_index.
      * apply (steal_swap (steal_loop EMPTY fuel k (Asr ls1 fs ss ps xs) (my_size + 1) (i + 1) (i + 1 + Z.of_nat (length W)))
          _ (P ++ z :: W ++ (EMPTY, z.2) :: free) l P a W z free S my_size i); [|done|done|].
        -- apply IH; [same_list|same_index|same_index|done|same_index|done|same_index].
        -- run_with Hload. rewrite (proj2 (Z.leb_gt _ _)) by done. rewrite Hzl. run_with Hloadz.
           rewrite (proj2 (Z.ltb_ge _ _)) by done.
           run_with (run_val_load l P ((W ++ [z]) ++ free) a i f s p x Hl Hi). run_with Hload.
           rewrite <- (surjective_pairing a). run_with (run_private _ _ _ _ l f s p x Happ).
           run_with (run_kv_rob EMPTY l P a W z free i (i + 1 + Z.of_nat (length W)) f s p x
             ltac:(by rewrite Hl; same_list) Hi eq_refl Hkz). done.
Qed.
End StealLoop.

(** The counters of a new vector of [my_size] entries. *)
Definition start_counters (my_size ss : Z) : Z * Z :=
  if my_size <=? FAA_CAPACITY CAPACITY then (my_size, ss)
  else (FAA_CAPACITY CAPACITY + 1, pack 1 false my_size).

Lemma run_start_phase my_size ls fs ss ps xs : 0 <= my_size < 2 ^ 32 ->
  alone (start_phase CAPACITY my_size) ls fs ss ps xs =
  Done tt (Asr ls (start_counters my_size ss).1 (start_counters my_size ss).2 ps xs).
Proof.
  intros Hm. unfold start_phase, start_counters. destruct (Z.leb_spec my_size (FAA_CAPACITY CAPACITY)); [done|].
  change VERSION_LOWEST_BIT with (pack 1 false 0).
  rewrite (pack_set_insert 1 0 false) by (done || split; lia). done.
Qed.

Lemma cut_at_none k el : kv_above k el = [] -> cut_at k el el [].
Proof.
  intros H. split_and!; [by rewrite app_nil_r| |constructor|done]. apply Forall_forall. intros e He.
  destruct (Z.le_gt_cases e.1 k); [done|]. assert (Hin : e ∈ kv_above k el) by (apply elem_of_kv_above; split; [lia|done]).
  rewrite H in Hin. by apply elem_of_nil in Hin.
Qed.

(** The rest of [split_insert], once the new vector [ls1] holds the entry. *)
Lemma run_split_rest l ls1 el ver n f p x fs ss ps xs e :
  stores_at guard ver -> holds l el -> locked_word ver n el -> holds ls1 [e] -> (length (kv_above e.1 el) < CAPACITY)%nat ->
  exists W' T ls' l', cut_at e.1 el W' T /\
  runs (if (CAPACITY =? 1)%nat || (Z.of_nat (length (kv_above e.1 el)) =? 0) then
      let* (_, self) := private (Asr ls1 fs ss ps xs) (trigger (Store FAA 1)) in Ret (true, self)
    else
      let* (self, my_size, victim_size) :=
        steal_loop EMPTY (length el) e.1 (Asr ls1 fs ss ps xs) 1 0 (Z.of_nat (length el)) in
      let* (_, self) := private self (start_phase CAPACITY my_size ;;; verify_locked CAPACITY EMPTY my_size) in
      set_size (pack ver true n) victim_size ;;;
      verify_locked CAPACITY EMPTY victim_size ;;;
      Ret (true, self)) l f (pack ver true n) p x =
    Done (true, Asr ls' (start_counters (1 + Z.of_nat (length T)) ss).1 (start_counters (1 + Z.of_nat (length T)) ss).2 ps xs)
         (Asr l' f (pack ver true (match T with [] => n | _ => Z.of_nat (length W') end)) p x) /\
  holds ls' (e :: T) /\ holds l' W'.
Proof.
  intros Hsto Hl (Hok & Hmin & Hc31) Hls1 Hc. pose proof (holds_le _ _ _ _ Hl) as Hle. pose proof (holds_keyed _ _ Hl) as Hkel.
  pose proof Hl as (free & Hll & Hlen & _ & Hv).
  destruct (decide (kv_above e.1 el = [])) as [Hno|Hsome].
  - exists el, [], ls1, l. rewrite Hno. cbn [length Z.of_nat Z.eqb]. rewrite orb_true_r.
    split_and!; [by apply cut_at_none| |done|done]. unfold start_counters.
    rewrite (proj2 (Z.leb_le _ _)) by (pose proof (FAA_CAPACITY_le CAPACITY ltac:(lia)); lia). done.
  - assert (Hab : (length (kv_above e.1 el) <> 0)%nat) by (by destruct (kv_above e.1 el)).
    rewrite (proj2 (Nat.eqb_neq _ _)) by lia. rewrite (proj2 (Z.eqb_neq _ _)) by lia. cbn [orb].
    destruct (run_steal_loop e.1 f (pack ver true n) p x fs ss ps xs (length el) [] el free l ls1 [e] 1 0)
      as (W' & T & gone & ls' & Hcut & Hg & Hvg & Hls' & Hr); [done|done|done|done|cbn; lia|done|done|].
    pose proof (cut_at_lengths _ _ _ _ Hcut) as HWT. pose proof (cut_at_perm _ _ _ _ Hcut) as [HW HT].
    apply Permutation_length in HT. assert (HkW : Forall keyed W').
    { destruct Hcut as (HcutP & _). rewrite <- HcutP in Hkel. by apply keyed_app in Hkel as [? _]. }
    assert (Hl' : holds (W' ++ gone ++ free) W').
    { apply (holds_cut _ W' gone free); try done. apply (f_equal length) in Hll. same_index. }
    exists W', T, ls', (W' ++ gone ++ free). split_and!; [done| |done|done].
    rewrite !Z.add_0_l in Hr. run_with Hr.
    run_with (run_private (start_phase CAPACITY (1 + Z.of_nat (length T)) ;;; verify_locked CAPACITY EMPTY (1 + Z.of_nat (length T)))
      (Asr ls' fs ss ps xs) (Asr ls' (start_counters (1 + Z.of_nat (length T)) ss).1
        (start_counters (1 + Z.of_nat (length T)) ss).2 ps xs) true ([] ++ W' ++ gone ++ free) f (pack ver true n) p x
      ltac:(rewrite (run_bind_done _ _ _ _ _ _ (run_start_phase (1 + Z.of_nat (length T)) ls' fs ss ps xs ltac:(lia)));
            apply (alone_verify_locked ls' (e :: T)); [done|cbn [length]; lia])).
    run_with (run_set_size ver n (Z.of_nat (length W')) (W' ++ gone ++ free) f p x Hsto Hok ltac:(lia)).
    run_with (run_verify_locked CAPACITY EMPTY (W' ++ gone ++ free) W' _ f (pack ver true (Z.of_nat (length W'))) p x Hl' eq_refl).
    destruct T; [cbn in HT; lia|done].
Qed.

Lemma run_split_insert fuel l ls el ver n f p x fs ss ps xs e :
  stores_at guard ver -> holds l el -> locked_word ver n el -> holds ls [] -> keyed e -> (length (kv_above e.1 el) < CAPACITY)%nat ->
  exists W' T ls' l', cut_at e.1 el W' T /\
    runs (split_insert CAPACITY EMPTY (S fuel) (Asr ls fs ss ps xs) e) l f (pack ver true n) p x =
      Done (true, Asr ls' (start_counters (1 + Z.of_nat (length T)) ss).1 (start_counters (1 + Z.of_nat (length T)) ss).2 ps xs)
           (Asr l' f (pack ver true (match T with [] => n | _ => Z.of_nat (length W') end)) p x) /\
    holds ls' (e :: T) /\ holds l' W'.
Proof.
  intros Hsto Hl Hw Hls He Hc. pose proof (holds_le _ _ _ _ Hl) as Hle. pose proof (holds_keyed _ _ Hl) as Hkel.
  pose proof Hl as (free & Hll & _).
  pose proof (locked_state ver n el Hw) as [Hst Hsize].
  destruct (run_append ls [] e 0 fs ss ps xs Hls) as (ls1 & Happ & Hls1); [cbn; lia|done|done|]. cbn [app] in Hls1.
  destruct (run_split_rest l ls1 el ver n f p x fs ss ps xs e Hsto Hl Hw Hls1 Hc) as (W' & T & ls' & l' & Hcut & Hr & H1 & H2).
  destruct Hw as (Hok & Hmin & Hc31).
  exists W', T, ls', l'. split_and!; [done| |done|done].
  rewrite <- Hr. unfold split_insert. rewrite run_passert_then by (by rewrite keyed_eqb).
  run_with (run_load l f (pack ver true n) p x).
  rewrite run_passert_then by done. rewrite Hsize, Nat2Z.id, run_passert_then by (apply Z.leb_le; lia).
  run_with (run_wait_for_insertions EMPTY fuel el free l _ f (pack ver true n) p x Hll eq_refl Hkel).
  run_with (run_count_above e.1 f (pack ver true n) p x el [] free l 0 Hll eq_refl).
  rewrite run_passert_then by (apply Z.ltb_lt; lia). by run_with (run_private _ _ _ _ l f (pack ver true n) p x Happ).
Qed.
End AsrMoves.
