(* ===== verification/Pool.v ===== *)
(** * Pool: threads that share one object

    A pool is a list of programs over the atomic events of one shared object;
    a step lets one thread make its next event.  Each thread has a ghost of type
    [G], what it knows and owns, and an invariant relates the ghosts of all
    threads to the object.  [safe m g Q] says that a thread with ghost [g] may
    run [m] among threads that keep the invariant: it keeps it too, does not
    crash, and ends with an answer and a ghost in [Q].  [pool_safe] then follows
    every interleaving. *)

From S2P Require Import Prelude Prog.

(** A thread in front of the others. *)
Lemma thread_front {G : Type} (gs : list G) i g : gs !! i = Some g ->
  exists rest, gs ≡ₚ g :: rest /\ forall g', <[i := g']> gs ≡ₚ g' :: rest.
Proof.
  intros Hi. exists (take i gs ++ drop (S i) gs). split.
  - rewrite <- (take_drop_middle gs i g Hi) at 1. solve_Permutation.
  - intros g'. rewrite insert_take_drop by (by eapply lookup_lt_Some). solve_Permutation.
Qed.

(** ** Pools *)

Section Pool.
Context {E : Type -> Type} {St R : Type}.
(** What an event may answer and do; [None] is a crash. *)
Context (may : forall B, E B -> St -> option (B * St) -> Prop).

Definition pool : Type := list (prog E R) * St.

Inductive pool_step : pool -> pool -> Prop :=
| step_event ts s i B (e : E B) k b s' :
    ts !! i = Some (Vis e k) -> may B e s (Some (b, s')) ->
    pool_step (ts, s) (<[i := k b]> ts, s')
| step_crash ts s i B (e : E B) k :
    ts !! i = Some (Vis e k) -> may B e s None ->
    pool_step (ts, s) (<[i := Crash]> ts, s).

Definition pool_steps : pool -> pool -> Prop := rtc pool_step.

(** The pool as a machine: [sched] says which thread makes each step, and
    [act] is a function that answers events as [may] allows. *)
Fixpoint pool_run (act : forall B, E B -> St -> option (B * St)) (sched : list nat) (p : pool) : pool :=
  match sched with
  | [] => p
  | i :: sched' =>
      match p.1 !! i with
      | Some (Vis e k) =>
          match act _ e p.2 with
          | Some (b, s') => pool_run act sched' (<[i := k b]> p.1, s')
          | None => pool_run act sched' (<[i := Crash]> p.1, p.2)
          end
      | _ => pool_run act sched' p
      end
  end.

Lemma pool_run_steps act sched p :
  (forall B (e : E B) s, may B e s (act B e s)) -> pool_steps p (pool_run act sched p).
Proof.
  intros Hact. revert p. induction sched as [|i sched IH]; intros [ts s]; [constructor|].
  cbn [pool_run fst snd]. destruct (ts !! i) as [[a|B e k| |]|] eqn:Hi; try apply IH.
  pose proof (Hact B e s) as Hm. destruct (act B e s) as [[b s']|].
  - eapply rtc_l; [by apply (step_event ts s i B e k b s')|apply IH].
  - eapply rtc_l; [by apply (step_crash ts s i B e k)|apply IH].
Qed.

(** ** Safety of one thread *)

Section Safe.
Context {G : Type} (inv : list G -> St -> Prop).

(** [g] is the ghost of thread [i] of a consistent pool. *)
Definition at_thread (g : G) (gs : list G) (i : nat) (s : St) : Prop := gs !! i = Some g /\ inv gs s.

Definition shift (g : G) (Q : G -> Prop) : Prop :=
  forall gs i s, at_thread g gs i s -> exists g', inv (<[i := g']> gs) s /\ Q g'.

Fixpoint safe {A : Type} (m : prog E A) (g : G) (Q : A -> G -> Prop) : Prop :=
  match m with
  | Ret a => shift g (Q a)
  | Vis e k => forall gs i s, at_thread g gs i s -> forall r, may _ e s r ->
      exists b s' g', r = Some (b, s') /\ inv (<[i := g']> gs) s' /\ safe (k b) g' Q
  | Crash => shift g (fun _ => False)
  | Spin => True
  end.

Lemma shift_refl (g : G) (Q : G -> Prop) : Q g -> shift g Q.
Proof. intros HQ gs i s [Hi Hinv]. exists g. by rewrite list_insert_id. Qed.

Lemma at_thread_insert gs i s (g g' : G) : at_thread g gs i s -> inv (<[i := g']> gs) s -> at_thread g' (<[i := g']> gs) i s.
Proof. intros [Hi _] Hinv. split; [|done]. apply list_lookup_insert_eq. by eapply lookup_lt_Some. Qed.

Lemma shift_trans (g : G) (P Q : G -> Prop) : shift g P -> (forall g', P g' -> shift g' Q) -> shift g Q.
Proof.
  intros HP HQ gs i s Hat. destruct (HP gs i s Hat) as (g1 & Hinv & H1).
  destruct (HQ g1 H1 _ i s (at_thread_insert gs i s g g1 Hat Hinv)) as (g2 & Hinv2 & H2).
  exists g2. by rewrite list_insert_insert_eq in Hinv2.
Qed.

Lemma safe_ret {A : Type} (a : A) (g : G) (Q : A -> G -> Prop) : Q a g -> safe (Ret a) g Q.
Proof. apply shift_refl. Qed.

(** A thread may change its ghost between two events. *)
Lemma safe_shift {A : Type} (m : prog E A) (g : G) (P : G -> Prop) (Q : A -> G -> Prop) :
  shift g P -> (forall g', P g' -> safe m g' Q) -> safe m g Q.
Proof.
  intros Hs Hm. destruct m as [a|B e k| |]; cbn [safe] in *; [by apply (shift_trans g P)| |by apply (shift_trans g P)|done].
  intros gs i s Hat r Hr. destruct (Hs gs i s Hat) as (g1 & Hinv & H1).
  destruct (Hm g1 H1 _ i s (at_thread_insert gs i s g g1 Hat Hinv) r Hr) as (b & s' & g2 & -> & Hinv2 & Hk).
  exists b, s', g2. by rewrite list_insert_insert_eq in Hinv2.
Qed.

Lemma safe_mono {A : Type} (m : prog E A) (g : G) (P Q : A -> G -> Prop) :
  safe m g P -> (forall a g', P a g' -> Q a g') -> safe m g Q.
Proof.
  intros Hm HPQ. revert g Hm. induction m as [a|B e k IH| |]; intros g Hm; cbn [safe] in *; try done.
  - apply (shift_trans g (P a)); [done|]. intros g' H. by apply shift_refl, HPQ.
  - intros gs i s Hat r Hr. destruct (Hm gs i s Hat r Hr) as (b & s' & g' & -> & Hinv & Hk).
    exists b, s', g'. split_and!; [done|done|by apply IH].
Qed.

Lemma safe_bind {A B : Type} (m : prog E A) (f : A -> prog E B) (g : G) (P : A -> G -> Prop) (Q : B -> G -> Prop) :
  safe m g P -> (forall a g', P a g' -> safe (f a) g' Q) -> safe (bind m f) g Q.
Proof.
  intros Hm Hf. revert g Hm. induction m as [a|C e k IH| |]; intros g Hm; cbn [safe bind] in *; try done.
  - by apply (safe_shift _ g (P a)), Hf.
  - intros gs i s Hat r Hr. destruct (Hm gs i s Hat r Hr) as (b & s' & g' & -> & Hinv & Hk).
    exists b, s', g'. split_and!; [done|done|by apply IH].
Qed.

Lemma safe_passert {B : Type} (b : bool) (f : prog E B) (g : G) (Q : B -> G -> Prop) :
  b = true -> safe f g Q -> safe (passert b ;;; f) g Q.
Proof. by intros ->. Qed.

(** ** Safety of a pool *)

Definition pool_inv (Q : nat -> R -> G -> Prop) (gs : list G) (p : pool) : Prop :=
  inv gs p.2 /\ length gs = length p.1 /\
  forall i m g, p.1 !! i = Some m -> gs !! i = Some g -> safe m g (Q i).

Lemma pool_step_inv Q gs p p' : pool_inv Q gs p -> pool_step p p' -> exists gs', pool_inv Q gs' p'.
Proof.
  intros (Hinv & Hlen & Hsafe) Hstep. destruct Hstep as [ts s i B e k b s' Hi Hm|ts s i B e k Hi Hm]; cbn [fst snd] in *;
    (destruct (lookup_lt_is_Some_2 gs i) as [g Hg]; [rewrite Hlen; by eapply lookup_lt_Some|]);
    destruct (Hsafe i _ g Hi Hg gs i s (conj Hg Hinv) _ Hm) as (b' & s1 & g' & Heq & Hinv' & Hk); [|done].
  injection Heq as -> ->. exists (<[i := g']> gs). split_and!; cbn [fst snd]; [done|by rewrite !length_insert|].
  intros j m gj [(<- & <- & _)|[Hne Hj]]%list_lookup_insert_Some Hgj.
  - rewrite list_lookup_insert_eq in Hgj by (exact (lookup_lt_Some _ _ _ Hg)). by injection Hgj as <-.
  - rewrite list_lookup_insert_ne in Hgj by done. by apply Hsafe.
Qed.

Lemma pool_safe Q gs p p' : pool_inv Q gs p -> pool_steps p p' -> exists gs', pool_inv Q gs' p'.
Proof.
  intros Hp Hsteps. revert gs Hp. induction Hsteps as [p|p p1 p' Hs _ IH]; intros gs Hp; [by exists gs|].
  destruct (pool_step_inv Q gs p p1 Hp Hs) as [gs1 Hp1]. by apply (IH gs1).
Qed.

(** No thread of a safe pool has crashed. *)
Lemma pool_no_crash Q gs p i : pool_inv Q gs p -> p.1 !! i <> Some Crash.
Proof.
  intros (Hinv & Hlen & Hsafe) Hi.
  destruct (lookup_lt_is_Some_2 gs i) as [g Hg]; [rewrite Hlen; by eapply lookup_lt_Some|].
  by destruct (Hsafe i _ g Hi Hg gs i p.2 (conj Hg Hinv)) as (g' & _ & []).
Qed.

(** When every thread has ended, all the final ghosts are reached together. *)
Lemma settle_upto (Q : nat -> R -> G -> Prop) gs (rs : list R) s n : pool_inv Q gs (map Ret rs, s) -> (n <= length rs)%nat ->
  exists gs', inv gs' s /\ length gs' = length rs /\
    forall i r g, rs !! i = Some r -> gs' !! i = Some g -> if (i <? n)%nat then Q i r g else shift g (Q i r).
Proof.
  intros (Hinv & Hlen & Hsafe) Hn. cbn [fst snd] in *. rewrite length_map in Hlen. induction n as [|n IH].
  - exists gs. split_and!; [done|done|]. intros i r g Hr Hg.
    by apply (Hsafe i (Ret r) g); [rewrite list_lookup_fmap, Hr|].
  - destruct IH as (gs1 & Hinv1 & Hlen1 & H1); [lia|].
    destruct (lookup_lt_is_Some_2 rs n) as [r Hr]; [lia|]. destruct (lookup_lt_is_Some_2 gs1 n) as [g Hg]; [lia|].
    pose proof (H1 n r g Hr Hg) as Hs. rewrite (proj2 (Nat.ltb_ge n n)) in Hs by lia.
    destruct (Hs gs1 n s (conj Hg Hinv1)) as (g' & Hinv' & HQ).
    exists (<[n := g']> gs1). split_and!; [done|by rewrite length_insert|].
    intros i ri gi Hri [(<- & <- & _)|[Hne Hgi]]%list_lookup_insert_Some.
    + rewrite Hr in Hri. injection Hri as <-. by rewrite (proj2 (Nat.ltb_lt n (S n))) by lia.
    + specialize (H1 i ri gi Hri Hgi). destruct (Nat.ltb_spec i n), (Nat.ltb_spec i (S n)); (done || lia).
Qed.

Lemma pool_settled (Q : nat -> R -> G -> Prop) gs (rs : list R) s : pool_inv Q gs (map Ret rs, s) ->
  exists gs', inv gs' s /\ length gs' = length rs /\ forall i r g, rs !! i = Some r -> gs' !! i = Some g -> Q i r g.
Proof.
  intros H. destruct (settle_upto Q gs rs s (length rs) H ltac:(done)) as (gs' & Hi & Hl & Hq).
  exists gs'. split_and!; [done|done|]. intros i r g Hr Hg. specialize (Hq i r g Hr Hg).
  by rewrite (proj2 (Nat.ltb_lt _ _)) in Hq by (by eapply lookup_lt_Some).
Qed.
End Safe.
End Pool.
