(* ===== verification/AsrInv.v ===== *)
(** * AsrInv: what threads know and own of a two-phase multivector

    The ghost of a thread says which slots it has reserved and not filled, how
    it holds the lock, and what it has put in and taken out; the invariant
    relates the ghosts of all threads to the counters and the slots. *)

From S2P Require Import Prelude KvList Prog ArrayOps AsrWord MultivectorAsr AsrRun Pool.

Local Open Scope Z_scope.

(** How a thread holds the lock in [cas_counter]:
    - [Pending]: it set the lock bit of version 0, and reservations with
      [faa_counter] go on;
    - [Closing n]: it closed [faa_counter] at [n] reservations;
    - [Held v n pre]: the lock is taken at version [v] with [n] reservations, and
      the first slots are filled and hold [pre];
    - [Excl v w l base]: every slot is known, the array is [l], the word is [w],
      and the entries [base] were in the vector when its entries were last
      accounted for;
    - [Rollback n]: it has reopened [faa_counter] at [n]. *)
Inductive hold (V : Type) :=
| Free
| Pending
| Closing (n : Z)
| Held (v n : Z) (pre : list (Z * V))
| Excl (v w : Z) (l base : list (Z * V))
| Rollback (n : Z).
Arguments Free {V}.
Arguments Pending {V}.
Arguments Closing {V} n.
Arguments Held {V} v n pre.
Arguments Excl {V} v w l base.
Arguments Rollback {V} n.

Record ghost (V : Type) := Ghost {
  g_lo : Z;
  g_hi : Z;
  g_val : option V;
  g_hold : hold V;
  g_new : bool;
  g_must : bool;
  g_adds : Z;
  g_rels : Z;
  g_in : list (Z * V);
  g_out : list (Z * V);
}.
Arguments Ghost {V} g_lo g_hi g_val g_hold g_new g_must g_adds g_rels g_in g_out.
Arguments g_lo {V} g.
Arguments g_hi {V} g.
Arguments g_val {V} g.
Arguments g_hold {V} g.
Arguments g_new {V} g.
Arguments g_must {V} g.
Arguments g_adds {V} g.
Arguments g_rels {V} g.
Arguments g_in {V} g.
Arguments g_out {V} g.

(** The state of the lock, as all threads see it. *)
Inductive mode (V : Type) :=
| MOpen
| MCount (v n : Z)
| MHeld (h : hold V)
| MDead (n : Z).
Arguments MOpen {V}.
Arguments MCount {V} v n.
Arguments MHeld {V} h.
Arguments MDead {V} n.

Section AsrInv.
Context (CAPACITY : nat) (EMPTY : Z) {V : Type}.
Implicit Types (l : list (Z * V)) (g : ghost V) (gs rest : list (ghost V)) (m : mode V) (h : hold V).

Local Abbreviation F := (FAA_CAPACITY CAPACITY).
Local Abbreviation C := (Z.of_nat CAPACITY).
Local Abbreviation keyed := (keyed EMPTY).

(** ** Sums over the threads *)

Definition slots_of g : list Z := seqZ (g_lo g) (g_hi g - g_lo g).
Definition owned gs : list Z := gs ≫= slots_of.

Definition hold_of g : list (hold V) := match g_hold g with Free => [] | h => [h] end.

Definition total (f : ghost V -> Z) gs : Z := foldr (fun g a => f g + a) 0 gs.

(** ** The parts of the invariant *)

Definition holders m : list (hold V) := match m with MHeld h => [h] | _ => [] end.

(** How many slots are reserved. *)
Definition reserved m (f : Z) : Z :=
  match m with
  | MOpen | MHeld Pending | MHeld (Rollback _) => Z.min f F
  | MHeld (Closing n) => n
  | MCount _ n | MHeld (Held _ n _) => Z.min n C
  | MDead n => n
  | MHeld (Excl _ _ _ _) | MHeld Free => 0
  end.

Definition word_inv m (f w : Z) : Prop :=
  match m with
  | MOpen => w = 0 /\ 0 <= f
  | MCount v n => w = pack v false n /\ 1 <= v /\ word_ok v n /\ F < f
  | MHeld Free => False
  | MHeld Pending => w = pack 0 true 0 /\ 0 <= f
  | MHeld (Closing n) => w = pack 0 true 0 /\ F < f /\ 0 <= n <= F
  | MHeld (Held v n _) => w = pack v true n /\ word_ok v n /\ F < f /\ (v = 0 -> n <= F)
  | MHeld (Excl v w' _ _) => w = w' /\ (exists n, w = pack v true n /\ word_ok v n) /\ F < f
  | MHeld (Rollback n) => w = pack 0 true n /\ 0 <= n <= F /\ 0 <= f
  | MDead n => w = EXTRACTION_STATE_VALUE /\ F < f /\ 0 <= n <= C
  end.

(** Every reserved slot is filled, or is the reservation of one thread. *)
Record slot_inv (res : Z) (own : list Z) l : Prop := {
  own_distinct : NoDup own;
  own_reserved i : i ∈ own -> 0 <= i < res;
  own_filled i e : l !! i = Some e -> (keyed e <-> Z.of_nat i < res /\ Z.of_nat i ∉ own);
}.

Definition list_inv m (f : Z) (own : list Z) l : Prop :=
  match m with
  | MHeld (Excl _ _ l' _) => own = [] /\ l = l'
  | MHeld (Held _ n pre) =>
      slot_inv (reserved m f) own l /\ Z.of_nat (length pre) <= reserved m f /\
      exists post, l = pre ++ post /\ Forall keyed pre
  | _ => slot_inv (reserved m f) own l
  end.

(** A value stored in a reserved slot whose key is not stored yet. *)
Definition val_inv l g : Prop :=
  match g_val g with
  | None => True
  | Some x => g_lo g < g_hi g /\ 0 <= g_lo g /\ exists k, l !! Z.to_nat (g_lo g) = Some (k, x)
  end.

(** The version is at least 1. *)
Definition newer m : Prop :=
  match m with
  | MCount _ _ | MDead _ => True
  | MHeld (Held v _ _) | MHeld (Excl v _ _ _) => 1 <= v
  | _ => False
  end.

(** [faa_counter] has run over, and nothing has been taken since. *)
Definition full m (f : Z) : Prop :=
  match m with
  | MOpen | MHeld Pending | MHeld (Rollback _) => F <= f
  | MHeld (Closing n) => n = F
  | MHeld (Held v n _) => v = 0 -> n = F
  | _ => True
  end.

Definition version_of m : Z :=
  match m with
  | MCount v _ | MHeld (Held v _ _) | MHeld (Excl v _ _ _) => v
  | _ => 0
  end.

(** The entries in the slots. *)
Definition contents l : list (Z * V) := filter (fun e => e.1 <> EMPTY) l.

Definition bag m l : list (Z * V) :=
  match m with MHeld (Excl _ _ _ base) => base | _ => contents l end.

(** What is true of each thread. *)
Record ghost_ok m (f : Z) l g : Prop := {
  gok_val : val_inv l g;
  gok_new : g_new g = true -> newer m;
  gok_must : g_must g = true -> full m f;
  gok_adds : 0 <= g_adds g;
  gok_rels : 0 <= g_rels g;
}.

Record ainv m gs (s : asr V) : Prop := {
  ai_length : length (a_list s) = CAPACITY;
  ai_hold : gs ≫= hold_of ≡ₚ holders m;
  ai_word : word_inv m (faa_counter s) (cas_counter s);
  ai_list : list_inv m (faa_counter s) (owned gs) (a_list s);
  ai_ghosts : Forall (ghost_ok m (faa_counter s) (a_list s)) gs;
  ai_adds : Z.max (faa_counter s) (F + 1) + total g_adds gs < 2 ^ 64;
  ai_version : version_of m + total g_rels gs < 2 ^ 31 - 1;
  ai_bag : bag m (a_list s) ++ (gs ≫= g_out) ≡ₚ gs ≫= g_in;
}.

Definition inv gs (s : asr V) : Prop := exists m, ainv m gs s.

(** ** The threads in any order *)

Lemma total_perm f gs gs' : gs ≡ₚ gs' -> total f gs = total f gs'.
Proof. unfold total. induction 1; cbn [foldr] in *; lia. Qed.

Lemma slot_inv_perm res own own' l : own ≡ₚ own' -> slot_inv res own l -> slot_inv res own' l.
Proof.
  intros Hp [H1 H2 H3]. split.
  - by rewrite <- Hp.
  - intros i. rewrite <- Hp. apply H2.
  - intros i e. rewrite <- Hp. apply H3.
Qed.

Lemma list_inv_perm m f own own' l : own ≡ₚ own' -> list_inv m f own l -> list_inv m f own' l.
Proof.
  intros Hp. destruct m as [| |[]|]; cbn [list_inv]; try apply (slot_inv_perm _ _ _ _ Hp).
  - intros (H1 & H2). split; [by apply (slot_inv_perm _ _ _ _ Hp)|done].
  - intros [-> ->]. split; [by apply Permutation_nil_l in Hp|done].
Qed.

Lemma ainv_perm m gs gs' s : gs ≡ₚ gs' -> ainv m gs s -> ainv m gs' s.
Proof.
  intros Hp [H1 H2 H3 H4 H5 H6 H7 H8]. split; try done.
  - by rewrite <- Hp.
  - apply (list_inv_perm _ _ (owned gs)); [|done]. unfold owned. by rewrite Hp.
  - by rewrite <- Hp.
  - by rewrite <- (total_perm _ _ _ Hp).
  - by rewrite <- (total_perm _ _ _ Hp).
  - by rewrite <- Hp.
Qed.

Lemma inv_perm gs gs' s : gs ≡ₚ gs' -> inv gs s -> inv gs' s.
Proof. intros Hp [m H]. exists m. by apply (ainv_perm m gs). Qed.

Local Abbreviation safe := (safe (@asr_may V) inv).

Lemma safe_event {A B : Type} (e : asrE V B) (k : B -> prog (asrE V) A) g Q :
  (forall m rest s, ainv m (g :: rest) s -> forall r, asr_may B e s r ->
    exists b s' g' m', r = Some (b, s') /\ ainv m' (g' :: rest) s' /\ safe (k b) g' Q) ->
  safe (Vis e k) g Q.
Proof.
  intros H gs i s [Hi Hinv] r Hr. destruct (thread_front gs i g Hi) as (rest & Hp & Hp').
  destruct (inv_perm _ _ _ Hp Hinv) as [m Hm].
  destruct (H m rest s Hm r Hr) as (b & s' & g' & m' & -> & Hinv' & Hk).
  exists b, s', g'. split_and!; [done| |done]. apply (inv_perm (g' :: rest)); [by rewrite Hp'|by exists m'].
Qed.

Lemma shift_ghost g (Q : ghost V -> Prop) :
  (forall m rest s, ainv m (g :: rest) s -> exists g' m', ainv m' (g' :: rest) s /\ Q g') ->
  shift inv g Q.
Proof.
  intros H gs i s [Hi Hinv]. destruct (thread_front gs i g Hi) as (rest & Hp & Hp').
  destruct (inv_perm _ _ _ Hp Hinv) as [m Hm]. destruct (H m rest s Hm) as (g' & m' & Hinv' & HQ).
  exists g'. split; [|done]. apply (inv_perm (g' :: rest)); [by rewrite Hp'|by exists m'].
Qed.

(** ** Updates of a ghost *)

Definition set_hold h g : ghost V :=
  Ghost (g_lo g) (g_hi g) (g_val g) h (g_new g) (g_must g) (g_adds g) (g_rels g) (g_in g) (g_out g).
Definition set_slots lo hi x g : ghost V :=
  Ghost lo hi x (g_hold g) (g_new g) (g_must g) (g_adds g) (g_rels g) (g_in g) (g_out g).
Definition set_new b g : ghost V :=
  Ghost (g_lo g) (g_hi g) (g_val g) (g_hold g) b (g_must g) (g_adds g) (g_rels g) (g_in g) (g_out g).
Definition set_must b g : ghost V :=
  Ghost (g_lo g) (g_hi g) (g_val g) (g_hold g) (g_new g) b (g_adds g) (g_rels g) (g_in g) (g_out g).
Definition set_adds a g : ghost V :=
  Ghost (g_lo g) (g_hi g) (g_val g) (g_hold g) (g_new g) (g_must g) a (g_rels g) (g_in g) (g_out g).
Definition set_rels r g : ghost V :=
  Ghost (g_lo g) (g_hi g) (g_val g) (g_hold g) (g_new g) (g_must g) (g_adds g) r (g_in g) (g_out g).
Definition set_bag ins outs g : ghost V :=
  Ghost (g_lo g) (g_hi g) (g_val g) (g_hold g) (g_new g) (g_must g) (g_adds g) (g_rels g) ins outs.

(** ** Who holds the lock *)

Lemma mode_of_holder m g rest s : ainv m (g :: rest) s -> g_hold g <> Free ->
  m = MHeld (g_hold g) /\ rest ≫= hold_of = [].
Proof.
  intros [_ H _ _ _ _ _ _] Hh. change ((g :: rest) ≫= hold_of) with (hold_of g ++ (rest ≫= hold_of)) in H.
  assert (Hg : hold_of g = [g_hold g]) by (unfold hold_of; by destruct (g_hold g)). rewrite Hg in H. cbn [app] in H.
  destruct m as [| |h|]; cbn [holders] in H; try (symmetry in H; by apply Permutation_nil_cons in H).
  apply Permutation_singleton_r in H. injection H as -> ->. done.
Qed.

Lemma mode_of_free m g rest s : ainv m (g :: rest) s -> g_hold g = Free -> rest ≫= hold_of ≡ₚ holders m.
Proof.
  intros [_ H _ _ _ _ _ _] Hh. change ((g :: rest) ≫= hold_of) with (hold_of g ++ (rest ≫= hold_of)) in H.
  unfold hold_of in H at 1. by rewrite Hh in H.
Qed.

Lemma holds_with m m' g h rest s : ainv m (g :: rest) s ->
  (g_hold g = Free /\ holders m = [] \/ g_hold g <> Free) -> holders m' = hold_of (set_hold h g) ->
  (set_hold h g :: rest) ≫= hold_of ≡ₚ holders m'.
Proof.
  intros H Hg ->. change (hold_of (set_hold h g) ++ (rest ≫= hold_of) ≡ₚ hold_of (set_hold h g)).
  assert (rest ≫= hold_of = []) as ->; [|by rewrite app_nil_r]. destruct Hg as [[Hg Hm]|Hg].
  - pose proof (mode_of_free m g rest s H Hg) as Hr. rewrite Hm in Hr. by apply Permutation_nil_r in Hr.
  - by apply (mode_of_holder m g rest s H).
Qed.

Lemma ghost_ok_mono m m' f f' l g : (newer m -> newer m') -> (full m f -> full m' f') ->
  ghost_ok m f l g -> ghost_ok m' f' l g.
Proof. intros Hn Hf [H1 H2 H3 H4 H5]. split; auto. Qed.

(** The general step: thread [g] becomes [g'], the others keep their ghosts. *)
Lemma ainv_update m m' g g' rest l f w p x l' f' w' p' x' : ainv m (g :: rest) (Asr l f w p x) ->
  length l' = CAPACITY ->
  (hold_of g ++ (rest ≫= hold_of) ≡ₚ holders m -> hold_of g' ++ (rest ≫= hold_of) ≡ₚ holders m') ->
  word_inv m' f' w' -> list_inv m' f' (slots_of g' ++ owned rest) l' ->
  ghost_ok m' f' l' g' -> (forall g1, g1 ∈ rest -> ghost_ok m f l g1 -> ghost_ok m' f' l' g1) ->
  Z.max f' (F + 1) + g_adds g' <= Z.max f (F + 1) + g_adds g ->
  version_of m' + g_rels g' <= version_of m + g_rels g ->
  (forall outs ins, bag m l ++ g_out g ++ outs ≡ₚ g_in g ++ ins -> bag m' l' ++ g_out g' ++ outs ≡ₚ g_in g' ++ ins) ->
  ainv m' (g' :: rest) (Asr l' f' w' p' x').
Proof.
  intros [H1 H2 H3 H4 H5 H6 H7 H8] G1 G2 G3 G4 G5 G6 G7 G8 G9. cbn [a_list faa_counter cas_counter] in *.
  apply Forall_cons in H5 as [H5 H5']. unfold total in H6, H7. cbn [foldr] in H6, H7.
  split; cbn [a_list faa_counter cas_counter]; try done.
  - by apply G2.
  - apply Forall_cons. split; [done|]. rewrite Forall_forall in H5' |- *. intros g1 Hg1. by apply G6, H5'.
  - unfold total. cbn [foldr]. lia.
  - unfold total. cbn [foldr]. lia.
  - by apply G9.
Qed.

(** A step of the lock that leaves the slots alone; [r] releases are used. *)
Lemma change_lock m m' g h rest l f w p x f' w' p' x' r : ainv m (g :: rest) (Asr l f w p x) ->
  (g_hold g = Free /\ holders m = [] \/ g_hold g <> Free) -> holders m' = hold_of (set_hold h g) ->
  word_inv m' f' w' -> list_inv m' f' (owned (g :: rest)) l ->
  (newer m -> newer m') -> (full m f -> full m' f') ->
  Z.max f' (F + 1) <= Z.max f (F + 1) -> 0 <= r <= g_rels g -> version_of m' <= version_of m + r ->
  bag m' l = bag m l ->
  ainv m' (set_hold h (set_rels (g_rels g - r) g) :: rest) (Asr l f' w' p' x').
Proof.
  intros H Hg Hm' Hw Hl Hnew Hfull Hf Hr Hv Hbag. pose proof (holds_with m m' g h rest _ H Hg Hm') as Hh.
  eapply ainv_update; try done.
  - apply (ai_length _ _ _ H).
  - pose proof (ai_ghosts _ _ _ H) as [[G1 G2 G3 G4 G5] _]%Forall_cons. split; cbn; auto; lia.
  - intros g1 _. by apply ghost_ok_mono.
  - cbn. lia.
  - cbn. lia.
  - intros outs ins. by rewrite Hbag.
Qed.

(** The same when no release is used. *)
Lemma change_hold m m' g h rest l f w p x f' w' p' x' : ainv m (g :: rest) (Asr l f w p x) ->
  (g_hold g = Free /\ holders m = [] \/ g_hold g <> Free) -> holders m' = hold_of (set_hold h g) ->
  word_inv m' f' w' -> list_inv m' f' (owned (g :: rest)) l ->
  (newer m -> newer m') -> (full m f -> full m' f') ->
  Z.max f' (F + 1) <= Z.max f (F + 1) -> version_of m' <= version_of m -> bag m' l = bag m l ->
  ainv m' (set_hold h g :: rest) (Asr l f' w' p' x').
Proof.
  intros H Hg Hm' Hw Hl Hnew Hfull Hf Hv Hbag.
  assert (Hr : 0 <= 0 <= g_rels g) by (destruct H as [_ _ _ _ [[_ _ _ _ Hr] _]%Forall_cons _ _ _]; lia).
  pose proof (change_lock m m' g h rest l f w p x f' w' p' x' 0 H Hg Hm' Hw Hl Hnew Hfull Hf Hr ltac:(lia) Hbag) as H'.
  rewrite Z.sub_0_r in H'. by destruct g.
Qed.
End AsrInv.
