(* ===== verification/AsrSteps.v ===== *)
(** * AsrSteps: the steps of the two-phase multivector keep its invariant

    One lemma for each way an access changes the counters or the slots:
    reserving with either counter, filling a slot, taking and giving back the
    lock, closing and reopening [faa_counter], and ending the insertions; then one
    rule for each event of a method. *)

From S2P Require Import Prelude KvList Prog ArrayOps AsrWord MultivectorAsr AsrRun Pool AsrInv.

Local Open Scope Z_scope.

Section AsrSteps.
Context (CAPACITY : nat) (EMPTY : Z) {V : Type} (HC : (2 <= CAPACITY)%nat) (HC31 : Z.of_nat CAPACITY < 2 ^ 31).
Implicit Types (l : list (Z * V)) (g : ghost V) (gs rest : list (ghost V)) (m : mode V) (h : hold V).

Local Abbreviation F := (FAA_CAPACITY CAPACITY).
Local Abbreviation C := (Z.of_nat CAPACITY).
Local Abbreviation keyed := (keyed EMPTY).
Local Abbreviation ainv := (ainv CAPACITY EMPTY).
Local Abbreviation slot_inv := (slot_inv EMPTY).
Local Abbreviation list_inv := (list_inv CAPACITY EMPTY).
Local Abbreviation reserved := (reserved CAPACITY).
Local Abbreviation word_inv := (word_inv CAPACITY).
Local Abbreviation ghost_ok := (ghost_ok CAPACITY).
Local Abbreviation full := (full CAPACITY).
Local Abbreviation contents := (contents EMPTY).
Local Abbreviation bag := (bag EMPTY).

Lemma F_range : 2 <= F <= C.
Proof using HC.
  unfold FAA_CAPACITY. pose proof (Nat.div_lt CAPACITY 2 ltac:(lia) ltac:(lia)).
  pose proof (Nat.Div0.div_le_mono 2 CAPACITY 2 HC). change (2 / 2)%nat with 1%nat in *. lia.
Qed.

(** ** Reserving *)

Lemma slot_inv_extend res res' own l : slot_inv res own l -> 0 <= res <= res' ->
  slot_inv res' (seqZ res (res' - res) ++ own) l.
Proof.
  intros [H1 H2 H3] Hr. split.
  - apply NoDup_app. split_and!; [apply NoDup_seqZ| |done]. intros i Hi%elem_of_seqZ Hown%H2. lia.
  - intros i [Hi%elem_of_seqZ|Hi%H2]%elem_of_app; lia.
  - intros i e Hi. rewrite (H3 i e Hi), elem_of_app, elem_of_seqZ. split.
    + intros [Hlt Hn]. split; [lia|]. intros [?|?]; [lia|done].
    + intros [Hlt Hn]. split; [|tauto]. destruct (Z.lt_ge_cases (Z.of_nat i) res); [done|]. exfalso. apply Hn. left. lia.
Qed.

(** A thread without reservations. *)
Definition no_slots g : Prop := g_hi g <= g_lo g /\ g_val g = None.

Lemma no_slots_of g : no_slots g -> slots_of g = [].
Proof. intros [H _]. unfold slots_of. apply length_zero_iff_nil. rewrite length_seqZ. lia. Qed.

Lemma owned_cons g rest : owned (g :: rest) = slots_of g ++ owned rest.
Proof. done. Qed.

(** The slots reserved when [faa_counter] reads less than [FAA_CAPACITY]. *)
Definition faa_open m : Prop := match m with MOpen | MHeld Pending | MHeld (Rollback _) => True | _ => False end.

Lemma faa_open_of m f w : word_inv m f w -> f <= F -> faa_open m.
Proof. destruct m as [| |[]|]; cbn; try done; try tauto; lia. Qed.

Lemma word_nonneg m f w : word_inv m f w -> 0 <= f.
Proof using HC. pose proof F_range. destruct m as [| |[]|]; cbn; try done; lia. Qed.

Lemma word_more m f w d : 0 <= d -> word_inv m f w -> word_inv m (f + d) w.
Proof. intros Hd. destruct m as [| |[]|]; cbn; try done; intros; intuition lia. Qed.

Lemma full_more m f d : 0 <= d -> full m f -> full m (f + d).
Proof. intros Hd. destruct m as [| |[]|]; cbn; try done; lia. Qed.

Lemma reserved_closed m f d : 0 <= d -> F <= f \/ ~ faa_open m -> reserved m (f + d) = reserved m f.
Proof. intros Hd. destruct m as [| |[]|]; cbn; try done; intros [?|?]; try tauto; lia. Qed.

Definition reserve_faa (d f : Z) g : ghost V :=
  set_adds (g_adds g - d) (set_must (g_must g || ((f <=? F) && (F <? f + d)))
    (if f <? F then set_slots f (Z.min (f + d) F) None g else g)).

Lemma reserve_faa_hold d f g : hold_of (reserve_faa d f g) = hold_of g.
Proof. unfold reserve_faa. by destruct (f <? F). Qed.

Lemma reserve_faa_owned m g rest l d f w : no_slots g -> 0 <= d -> word_inv m f w ->
  list_inv m f (owned (g :: rest)) l -> list_inv m (f + d) (owned (reserve_faa d f g :: rest)) l.
Proof using HC.
  intros Hg Hd Hw Hl. pose proof (word_nonneg m f w Hw) as Hf. rewrite owned_cons in *.
  rewrite (no_slots_of g Hg) in Hl. cbn [app] in Hl. unfold reserve_faa. destruct (Z.ltb_spec f F) as [HfF|HfF].
  - pose proof (faa_open_of m f w Hw ltac:(lia)) as Hopen.
    assert (Hres : reserved m f = f /\ reserved m (f + d) = Z.min (f + d) F).
    { destruct m as [| |[]|]; cbn in *; try done; lia. }
    assert (Hs : slot_inv (reserved m (f + d)) (seqZ f (Z.min (f + d) F - f) ++ owned rest) l).
    { destruct Hres as [Hres ->]. apply slot_inv_extend; [|lia]. rewrite <- Hres. by destruct m as [| |[]|]. }
    destruct m as [| |[]|]; cbn in Hopen |- *; try done; cbn in Hs; exact Hs.
  - assert (slots_of (set_adds (g_adds g - d) (set_must (g_must g || ((f <=? F) && (F <? f + d))) g)) = []) as ->.
    { by apply no_slots_of. }
    cbn [app]. pose proof (reserved_closed m f d Hd (or_introl HfF)) as Hres.
    destruct m as [| |[]|]; cbn [list_inv] in *; rewrite ?Hres; done.
Qed.

Lemma total_nonneg m f l rest : Forall (ghost_ok m f l) rest -> 0 <= total g_adds rest /\ 0 <= total g_rels rest.
Proof.
  unfold total. induction 1 as [|g rest [_ _ _ Ha Hr] _ IH]; cbn [foldr]; lia.
Qed.

Lemma ainv_faa_add m g rest l f w p x d : ainv m (g :: rest) (Asr l f w p x) -> no_slots g -> 0 <= d <= g_adds g ->
  u64 (f + d) = f + d /\ ainv m (reserve_faa d f g :: rest) (Asr l (f + d) w p x).
Proof using HC.
  intros H Hg Hd. pose proof H as [H1 H2 H3 H4 [[G1 G2 G3 G4 G5] H5]%Forall_cons H6 H7 H8]. cbn [a_list faa_counter cas_counter] in *.
  pose proof (word_nonneg m f w H3) as Hf. pose proof (total_nonneg m f l rest H5) as [Hadds _].
  assert (Hsum : total g_adds (g :: rest) = g_adds g + total g_adds rest) by done.
  split; [apply u64_small; split; lia|]. pose proof (reserve_faa_owned m g rest l d f w Hg ltac:(lia) H3 H4) as Hown.
  eapply ainv_update; try done.
  - by rewrite reserve_faa_hold.
  - by apply word_more; [lia|].
  - unfold reserve_faa. split; cbn; try by destruct (f <? F).
    + rewrite orb_true_iff, andb_true_iff, Z.leb_le, Z.ltb_lt. intros [Hm|[Hle Hlt]].
      * apply full_more; [lia|]. by apply G3.
      * pose proof (faa_open_of m f w H3 Hle). destruct m as [| |[]|]; cbn in *; try done; lia.
    + lia.
  - intros g1 _. apply ghost_ok_mono; [done|]. apply full_more. lia.
  - unfold reserve_faa. cbn. lia.
  - unfold reserve_faa. cbn. destruct (f <? F); cbn; lia.
  - intros outs ins. unfold reserve_faa. by destruct (f <? F).
Qed.

(** Reserving with [cas_counter]. *)
Lemma ainv_cas_add v n g rest l f p x d : ainv (MCount v n) (g :: rest) (Asr l f (pack v false n) p x) ->
  no_slots g -> n <= C -> 0 <= d -> n + d < 2 ^ 32 ->
  ainv (MCount v (n + d)) (set_slots n (Z.min (n + d) C) None g :: rest) (Asr l f (pack v false (n + d)) p x).
Proof.
  intros H Hg Hn Hd Hnd. pose proof H as [H1 H2 H3 H4 [[G1 G2 G3 G4 G5] H5]%Forall_cons H6 H7 H8].
  cbn [a_list faa_counter cas_counter] in *. destruct H3 as (_ & Hv & [Hv' Hn'] & HF).
  eapply ainv_update; try done.
  - split_and!; [done|done| |done]. split; [done|lia].
  - rewrite owned_cons, (no_slots_of g Hg) in H4. cbn [list_inv reserved app] in H4 |- *. cbn [AsrInv.reserved].
    unfold slots_of. cbn [g_lo g_hi set_slots]. cbn [AsrInv.list_inv AsrInv.reserved] in H4.
    replace (Z.min n C) with n in H4 by lia. apply slot_inv_extend; [done|lia].
  - intros g1 _ [K1 K2 K3 K4 K5]. by split.
Qed.

(** ** Filling a reserved slot *)

Lemma slot_of_list m f own l : list_inv m f own l -> own <> [] -> slot_inv (reserved m f) own l.
Proof. destruct m as [| |[]|]; cbn; try done; [by intros [? _]|by intros [-> _]]. Qed.

Lemma reserved_le m f w : word_inv m f w -> reserved m f <= C.
Proof using HC. pose proof F_range. destruct m as [| |[]|]; cbn; lia. Qed.

Lemma slots_of_first g : g_lo g < g_hi g -> slots_of g = g_lo g :: seqZ (g_lo g + 1) (g_hi g - (g_lo g + 1)).
Proof. intros H. unfold slots_of. rewrite seqZ_cons by lia. do 2 f_equal; lia. Qed.

(** The first slot a thread has reserved. *)
Lemma owner_slot m g rest l f w p x : ainv m (g :: rest) (Asr l f w p x) -> g_lo g < g_hi g ->
  exists l1 c l2, l = l1 ++ c :: l2 /\ g_lo g = Z.of_nat (length l1) /\ ~ keyed c /\
    (forall y, g_val g = Some y -> c.2 = y).
Proof using HC.
  intros H Hlt. pose proof H as [H1 _ H3 H4 [[G1 _ _ _ _] _]%Forall_cons _ _ _]. cbn [a_list faa_counter cas_counter] in *.
  rewrite owned_cons, slots_of_first in H4 by done.
  pose proof (slot_of_list m f _ l H4 ltac:(done)) as [S1 S2 S3]. pose proof (reserved_le m f w H3) as Hres.
  specialize (S2 (g_lo g) ltac:(by left)).
  destruct (lookup_lt_is_Some_2 l (Z.to_nat (g_lo g))) as [c Hc]; [lia|].
  pose proof (S3 _ _ Hc) as Hk. rewrite Z2Nat.id in Hk by lia.
  exists (take (Z.to_nat (g_lo g)) l), c, (drop (S (Z.to_nat (g_lo g))) l). split_and!.
  - by rewrite take_drop_middle.
  - rewrite length_take. lia.
  - rewrite Hk. intros [_ Hn]. apply Hn. by left.
  - intros y Hy. unfold val_inv in G1. rewrite Hy in G1. destruct G1 as (_ & _ & k & Hk'). rewrite Hc in Hk'. by injection Hk' as ->.
Qed.

(** A slot below [length pre] is filled. *)
Lemma prefix_before pre post l1 c l2 : l1 ++ c :: l2 = pre ++ post -> Forall keyed pre -> ~ keyed c ->
  exists l1', l1 = pre ++ l1'.
Proof.
  intros He Hk Hc. destruct (decide (length pre <= length l1)%nat) as [Hle|Hgt].
  - exists (drop (length pre) l1). apply (f_equal (take (length pre))) in He.
    rewrite take_app_le, take_app_length in He by done. rewrite <- He at 1. by rewrite take_drop.
  - exfalso. apply Hc. rewrite Forall_forall in Hk. apply Hk. apply (list_elem_of_lookup_2 pre (length l1)).
    rewrite <- (lookup_app_l pre post) by lia. rewrite <- He. by apply list_lookup_middle.
Qed.

(** Changing one slot that is not filled. *)
Lemma list_inv_set m f own own' l1 c c' l2 : list_inv m f own (l1 ++ c :: l2) -> ~ keyed c -> own <> [] ->
  (slot_inv (reserved m f) own (l1 ++ c :: l2) -> slot_inv (reserved m f) own' (l1 ++ c' :: l2)) ->
  list_inv m f own' (l1 ++ c' :: l2).
Proof.
  intros Hl Hc Hne Hs. pose proof (Hs (slot_of_list m f own _ Hl Hne)) as Hs'.
  destruct m as [| |[]|]; cbn [AsrInv.list_inv] in Hl |- *; try done; [|by destruct Hl].
  destruct Hl as (_ & Hlen & post & He & Hk). split_and!; [done|done|].
  destruct (prefix_before pre post l1 c l2 He Hk Hc) as [l1' ->]. exists (l1' ++ c' :: l2). by rewrite <- app_assoc.
Qed.

Lemma slot_inv_lookup res own own' l1 c c' l2 : slot_inv res own (l1 ++ c :: l2) ->
  NoDup own' -> (forall i, i ∈ own' -> i ∈ own) ->
  (forall i, i <> Z.of_nat (length l1) -> (i ∈ own' <-> i ∈ own)) ->
  (keyed c' <-> Z.of_nat (length l1) < res /\ Z.of_nat (length l1) ∉ own') ->
  slot_inv res own' (l1 ++ c' :: l2).
Proof.
  intros [H1 H2 H3] Hd Hsub Hsame Hc. split; [done| |].
  - intros i Hi. by apply H2, Hsub.
  - intros i e Hi. destruct (decide (i = length l1)) as [->|Hne].
    + rewrite list_lookup_middle in Hi by done. by injection Hi as <-.
    + rewrite (Hsame (Z.of_nat i)) by lia. apply H3. rewrite <- Hi.
      destruct (decide (i < length l1)%nat); [by rewrite !lookup_app_l by lia|].
      rewrite !lookup_app_r by lia. by destruct (i - length l1)%nat eqn:Hd'; [lia|].
Qed.

Lemma val_inv_set l1 c c' l2 g : val_inv (l1 ++ c :: l2) g -> g_lo g <> Z.of_nat (length l1) -> val_inv (l1 ++ c' :: l2) g.
Proof.
  unfold val_inv. destruct (g_val g); [|done]. intros (Hlt & H0 & k & Hk) Hne. split_and!; [done|done|]. exists k. rewrite <- Hk.
  destruct (decide (Z.to_nat (g_lo g) < length l1)%nat); [by rewrite !lookup_app_l by lia|].
  rewrite !lookup_app_r by lia. by destruct (Z.to_nat (g_lo g) - length l1)%nat eqn:Hd'; [lia|].
Qed.

(** The slot another thread is filling is not this one. *)
Lemma other_slot m g rest l f w p x g1 y : ainv m (g :: rest) (Asr l f w p x) -> g_lo g < g_hi g -> g1 ∈ rest ->
  g_val g1 = Some y -> val_inv l g1 -> g_lo g1 <> g_lo g.
Proof.
  intros H Hlt Hin Hy Hv Heq. unfold val_inv in Hv. rewrite Hy in Hv. destruct Hv as (Hlt1 & _).
  pose proof (ai_list _ _ _ _ _ H) as Hl. cbn [a_list faa_counter] in Hl. rewrite owned_cons, slots_of_first in Hl by done.
  pose proof (own_distinct _ _ _ _ (slot_of_list _ _ _ _ Hl ltac:(done))) as Hnd. apply NoDup_cons in Hnd as [Hn _].
  apply Hn, elem_of_app. right. unfold owned. apply list_elem_of_bind. exists g1. split; [|done].
  rewrite slots_of_first by done. rewrite Heq. by left.
Qed.

Lemma contents_vacant l1 c l2 : ~ keyed c -> contents (l1 ++ c :: l2) = contents l1 ++ contents l2.
Proof. intros Hc. unfold AsrInv.contents. by rewrite filter_app, filter_cons_False. Qed.

Lemma contents_keyed l1 c l2 : keyed c -> contents (l1 ++ c :: l2) = contents l1 ++ c :: contents l2.
Proof. intros Hc. unfold AsrInv.contents. by rewrite filter_app, filter_cons_True. Qed.

Lemma bag_contents m f own l : list_inv m f own l -> own <> [] -> forall l', bag m l' = contents l'.
Proof. destruct m as [| |[]|]; cbn; try done. by intros [-> _]. Qed.

Lemma ainv_val_store m g rest l1 c l2 f w p x y : ainv m (g :: rest) (Asr (l1 ++ c :: l2) f w p x) ->
  g_lo g < g_hi g -> g_lo g = Z.of_nat (length l1) -> ~ keyed c ->
  ainv m (set_slots (g_lo g) (g_hi g) (Some y) g :: rest) (Asr (l1 ++ (c.1, y) :: l2) f w p x).
Proof.
  intros H Hlt Hlo Hc. pose proof H as [H1 H2 H3 H4 [[G1 G2 G3 G4 G5] H5]%Forall_cons H6 H7 H8].
  cbn [a_list faa_counter cas_counter] in *. rewrite owned_cons in H4.
  assert (Hne : slots_of g ++ owned rest <> []) by (by rewrite slots_of_first).
  assert (Hc' : ~ keyed (c.1, y)) by done.
  eapply ainv_update; try done.
  - rewrite <- H1, !length_app. done.
  - apply (list_inv_set m f (slots_of g ++ owned rest) _ l1 c (c.1, y) l2 H4 Hc Hne). intros Hs.
    apply (slot_inv_lookup _ (slots_of g ++ owned rest) _ l1 c); [done|by destruct Hs|done|done|].
    destruct Hs as [_ _ S3]. apply (S3 (length l1) c). by apply list_lookup_middle.
  - split; cbn; try done. unfold val_inv. cbn. split_and!; [done|lia|]. exists c.1. rewrite Hlo, Nat2Z.id. by apply list_lookup_middle.
  - intros g1 Hin [K1 K2 K3 K4 K5]. split; try done. destruct (g_val g1) as [y1|] eqn:Hy; [|by unfold val_inv; rewrite Hy].
    apply (val_inv_set l1 c); [done|]. rewrite <- Hlo. by eapply other_slot.
  - intros outs ins. by rewrite !(bag_contents m f _ _ H4 Hne), !contents_vacant.
Qed.

Lemma ainv_key_store m g rest l1 c l2 f w p x k : ainv m (g :: rest) (Asr (l1 ++ c :: l2) f w p x) ->
  g_lo g < g_hi g -> g_lo g = Z.of_nat (length l1) -> ~ keyed c -> k <> EMPTY ->
  ainv m (set_slots (g_lo g + 1) (g_hi g) None (set_bag (g_in g ++ [(k, c.2)]) (g_out g) g) :: rest)
    (Asr (l1 ++ (k, c.2) :: l2) f w p x).
Proof.
  intros H Hlt Hlo Hc Hk. pose proof H as [H1 H2 H3 H4 [[G1 G2 G3 G4 G5] H5]%Forall_cons H6 H7 H8].
  cbn [a_list faa_counter cas_counter] in *. rewrite owned_cons in H4.
  assert (Hne : slots_of g ++ owned rest <> []) by (by rewrite slots_of_first).
  assert (Hs' : slots_of g ++ owned rest = g_lo g :: slots_of (set_slots (g_lo g + 1) (g_hi g) None g) ++ owned rest).
  { by rewrite slots_of_first. }
  eapply ainv_update; try done.
  - rewrite <- H1, !length_app. done.
  - apply (list_inv_set m f (slots_of g ++ owned rest) _ l1 c (k, c.2) l2 H4 Hc Hne). intros Hs.
    pose proof (own_distinct _ _ _ _ Hs) as Hnd. rewrite Hs' in Hnd. apply NoDup_cons in Hnd as [Hnin Hnd].
    pose proof (own_reserved _ _ _ _ Hs (g_lo g) ltac:(rewrite Hs'; by left)) as Hres.
    apply (slot_inv_lookup _ (slots_of g ++ owned rest) _ l1 c); [done|exact Hnd| | |].
    + intros i Hi. rewrite Hs'. by right.
    + intros i Hi. rewrite Hs', elem_of_cons. split; [by right|]. intros [->|?]; [by rewrite Hlo in Hi|done].
    + rewrite <- Hlo. split; [|done]. intros _. split; [lia|exact Hnin].
  - intros g1 Hin [K1 K2 K3 K4 K5]. split; try done. destruct (g_val g1) as [y1|] eqn:Hy; [|by unfold val_inv; rewrite Hy].
    apply (val_inv_set l1 c); [done|]. rewrite <- Hlo. by eapply other_slot.
  - intros outs ins. rewrite !(bag_contents m f _ _ H4 Hne), (contents_vacant _ _ _ Hc), contents_keyed by done.
    cbn [g_out g_in set_slots set_bag]. intros Hb.
    trans ((k, c.2) :: (contents l1 ++ contents l2) ++ g_out g ++ outs); [solve_Permutation|]. rewrite Hb. solve_Permutation.
Qed.

(** ** The lock *)

(** The state a word shows. *)
Lemma state_of_word m f w : word_inv m f w -> get_state w =
  match m with MOpen => FAA_INSERTION | MCount _ _ => CAS_INSERTION | MHeld _ => LOCKED | MDead _ => EXTRACTION end.
Proof using HC HC31.
  pose proof F_range as HFC. assert (Hok0 : word_ok 0 0) by (split; lia).
  destruct m as [|v n|[]|]; cbn.
  - by intros [-> _].
  - intros (-> & Hv & Hok & _). rewrite (pack_state v n false Hok). by rewrite (proj2 (Z.eqb_neq v 0)) by lia.
  - done.
  - intros [-> _]. by rewrite (pack_state 0 0 true Hok0).
  - intros (-> & _). by rewrite (pack_state 0 0 true Hok0).
  - intros (-> & Hok & _). by rewrite (pack_state v n true Hok).
  - intros (_ & (n & -> & Hok) & _). by rewrite (pack_state v n true Hok).
  - intros (-> & Hn & _). assert (Hok : word_ok 0 n) by (split; lia). by rewrite (pack_state 0 n true Hok).
  - intros (-> & _). apply state_extraction.
Qed.

(** Taking the lock of an insertion state. *)
Lemma ainv_take m g rest l f w p x : ainv m (g :: rest) (Asr l f w p x) -> g_hold g = Free ->
  is_insertion_state (get_state w) = true ->
  exists w', Z.lor w LOCK_BIT = w' /\ u64 (w + LOCK_BIT) = w' /\
    (w = 0 /\ ainv (MHeld Pending) (set_hold Pending g :: rest) (Asr l f w' p x) \/
     exists v n, w = pack v false n /\ 1 <= v /\ word_ok v n /\
       ainv (MHeld (Held v n [])) (set_hold (Held v n []) g :: rest) (Asr l f w' p x)).
Proof using HC HC31.
  intros H Hg Hst. pose proof H as [_ _ H3 H4 _ _ _ _]. cbn [a_list faa_counter cas_counter] in *.
  rewrite (state_of_word m f w H3) in Hst. pose proof F_range as HFC. assert (Hok0 : word_ok 0 0) by (split; lia).
  destruct m as [|v n| |]; try done; cbn [AsrInv.word_inv] in H3.
  - destruct H3 as [-> Hf]. exists (pack 0 true 0). split_and!; [done|done|]. left. split; [done|].
    eapply (change_hold _ _ MOpen); try done; try (by left); cbn; lia.
  - destruct H3 as (-> & Hv & Hok & Hf). exists (pack v true n).
    split_and!; [by apply pack_lor|by apply pack_take|]. right. exists v, n. split_and!; [done|done|done|].
    eapply (change_hold _ _ (MCount v n)); try done; try (by left); try (cbn; lia).
    + split_and!; [done|done|done|lia].
    + split_and!; [done| |by exists l]. cbn. destruct Hok as [_ Hn]. lia.
Qed.

Section Holder.
Context (g : ghost V) (rest : list (ghost V)) (m : mode V) (l : list (Z * V)) (f w p x : Z).
Context (H : ainv m (g :: rest) (Asr l f w p x)).

Lemma holder_mode h : g_hold g = h -> h <> Free -> m = MHeld h /\ word_inv (MHeld h) f w /\
  list_inv (MHeld h) f (owned (g :: rest)) l /\ length l = CAPACITY.
Proof using H HC HC31.
  intros <- Hh. destruct (mode_of_holder _ _ _ _ _ _ H Hh) as [-> _]. destruct H as [H1 _ H3 H4 _ _ _ _]. done.
Qed.

(** Closing [faa_counter]. *)
Lemma ainv_close : g_hold g = Pending -> f <= F ->
  ainv (MHeld (Closing f)) (set_hold (Closing f) g :: rest) (Asr l (F + 1) w p x).
Proof using H HC HC31.
  intros Hg Hf. destruct (holder_mode Pending Hg ltac:(done)) as (-> & (Hw & Hf0) & Hl & _). pose proof F_range.
  eapply (change_hold _ _ (MHeld Pending)); try done; try (cbn; lia); try (right; by rewrite Hg).
  cbn [AsrInv.list_inv AsrInv.reserved] in *. by replace (Z.min f F) with f in Hl by lia.
Qed.

Lemma ainv_closed : g_hold g = Pending -> F < f ->
  ainv (MHeld (Closing F)) (set_hold (Closing F) g :: rest) (Asr l f w p x).
Proof using H HC HC31.
  intros Hg Hf. destruct (holder_mode Pending Hg ltac:(done)) as (-> & (Hw & Hf0) & Hl & _). pose proof F_range.
  eapply (change_hold _ _ (MHeld Pending)); try done; try (cbn; lia); try (right; by rewrite Hg).
  cbn [AsrInv.list_inv AsrInv.reserved] in *. by replace (Z.min f F) with F in Hl by lia.
Qed.

Lemma ainv_counted n : g_hold g = Closing n -> u64 (LOCK_BIT + n) = pack 0 true n /\ 0 <= n <= F /\
  ainv (MHeld (Held 0 n [])) (set_hold (Held 0 n []) g :: rest) (Asr l f (pack 0 true n) p x).
Proof using H HC HC31.
  intros Hg. destruct (holder_mode (Closing n) Hg ltac:(done)) as (-> & (Hw & Hf & Hn) & Hl & _). pose proof F_range.
  assert (Hok : word_ok 0 n) by (split; lia). split_and!; [|lia|lia|].
  - rewrite u64_small; [unfold pack; cbn [Z.b2z]; lia|]. unfold is_u64, LOCK_BIT. lia.
  - eapply (change_hold _ _ (MHeld (Closing n))); try done; try (cbn; lia); try (right; by rewrite Hg).
    + split_and!; [done|done|done|lia].
    + cbn [AsrInv.list_inv AsrInv.reserved] in *. replace (Z.min n C) with n by lia.
      split_and!; [done|cbn; lia|by exists l].
Qed.

(** Reading one more filled slot. *)
Lemma ainv_seen v n pre e post : g_hold g = Held v n pre -> l = pre ++ e :: post -> keyed e ->
  Z.of_nat (length pre) < Z.min n C ->
  ainv (MHeld (Held v n (pre ++ [e]))) (set_hold (Held v n (pre ++ [e])) g :: rest) (Asr l f w p x).
Proof using H HC HC31.
  intros Hg Hpost He Hlt. destruct (holder_mode (Held v n pre) Hg ltac:(done)) as (-> & Hw & (Hs & Hlen & post' & Hl & Hk) & _).
  eapply (change_hold _ _ (MHeld (Held v n pre))); try done; try (cbn; lia); try (right; by rewrite Hg).
  split_and!; [done|cbn; rewrite length_app; cbn; lia|]. exists post. split; [by rewrite <- app_assoc|].
  apply Forall_app. split; [done|]. by apply Forall_singleton.
Qed.

Lemma held_prefix v n pre : g_hold g = Held v n pre ->
  w = pack v true n /\ word_ok v n /\ exists post, l = pre ++ post /\ Z.of_nat (length pre) <= Z.min n C.
Proof using H HC HC31.
  intros Hg. destruct (holder_mode (Held v n pre) Hg ltac:(done)) as (-> & (Hw & Hok & _) & (_ & Hlen & post & Hl & _) & _).
  split_and!; [done|done|]. by exists post.
Qed.

(** All reserved slots are filled: the holder knows the array. *)
Lemma held_holds v n pre : g_hold g = Held v n pre -> Z.of_nat (length pre) = Z.min n C ->
  holds CAPACITY EMPTY l pre /\ owned (g :: rest) = [].
Proof using H HC HC31.
  intros Hg Hn. destruct (holder_mode (Held v n pre) Hg ltac:(done)) as (-> & _ & ([S1 S2 S3] & _ & post & Hl & Hk) & Hlen).
  cbn [AsrInv.reserved] in *. rewrite <- Hn in S2, S3. split.
  - exists post. split_and!; [done|done|done|]. rewrite Forall_forall. intros e [i Hi]%list_elem_of_lookup.
    assert (Hle : l !! (length pre + i)%nat = Some e) by (by rewrite Hl, lookup_app_r, Nat.add_comm, Nat.add_sub by lia).
    specialize (S3 _ _ Hle). unfold AsrRun.keyed, vacant in *. destruct (Z.eq_dec e.1 EMPTY); [done|]. apply S3 in n0. lia.
  - destruct (owned (g :: rest)) as [|i own]; [done|]. exfalso. specialize (S2 i ltac:(by left)).
    destruct (lookup_lt_is_Some_2 pre (Z.to_nat i)) as [e He]; [lia|].
    assert (Hle : l !! Z.to_nat i = Some e) by (rewrite Hl; by apply lookup_app_l_Some).
    specialize (S3 _ _ Hle). rewrite Forall_forall in Hk. apply S3 in Hk; [|by eapply list_elem_of_lookup_2].
    rewrite Z2Nat.id in Hk by lia. destruct Hk as [_ Hk]. apply Hk. by left.
Qed.

Lemma ainv_exclusive v n pre : g_hold g = Held v n pre -> Z.of_nat (length pre) = Z.min n C ->
  ainv (MHeld (Excl v w l (contents l))) (set_hold (Excl v w l (contents l)) g :: rest) (Asr l f w p x).
Proof using H HC HC31.
  intros Hg Hn. destruct (held_holds v n pre Hg Hn) as [_ Hown].
  destruct (holder_mode (Held v n pre) Hg ltac:(done)) as (-> & Hw & _).
  destruct Hw as (Hw & Hok & Hf & _).
  eapply (change_hold _ _ (MHeld (Held v n pre))); try done; try (cbn; lia); try (right; by rewrite Hg).
  split_and!; [done|by exists n|done].
Qed.

(** *** Giving the lock back *)

Lemma holds_slot_inv l' el n : holds CAPACITY EMPTY l' el -> Z.of_nat (length el) = n -> slot_inv n [] l'.
Proof.
  intros (free & -> & _ & Hk & Hv) <-. split; [constructor|by intros i Hi%elem_of_nil|]. rewrite Forall_forall in Hk, Hv.
  intros i e [Hi|[Hle Hi]]%lookup_app_Some.
  - split; [|intros _; by eapply Hk, list_elem_of_lookup_2]. intros _. apply lookup_lt_Some in Hi.
    split; [lia|apply not_elem_of_nil].
  - apply list_elem_of_lookup_2, Hv in Hi. split; [done|lia].
Qed.

(** A holder whose entries are accounted for: it has changed nothing, or the
    array [l] it has made is well formed. *)
Definition settled v n h : Prop :=
  (exists pre, h = Held v n pre) \/
  (h = Excl v (pack v true n) l (contents l) /\ word_ok v n /\ exists el, holds CAPACITY EMPTY l el /\ Z.min n C = Z.of_nat (length el)).

Lemma settled_word v n : settled v n (g_hold g) ->
  g_hold g <> Free /\ m = MHeld (g_hold g) /\ w = pack v true n /\ word_ok v n /\ F < f /\
  slot_inv (Z.min n C) (owned (g :: rest)) l /\ bag m l = contents l /\ version_of m = v.
Proof using H HC HC31.
  intros [[pre Hg]|(Hg & Hok & el & Hel & Hn)].
  - destruct (holder_mode _ Hg ltac:(done)) as (-> & (Hw & Hok & Hf & _) & (Hs & _) & _). rewrite Hg. done.
  - destruct (holder_mode _ Hg ltac:(done)) as (-> & (Hw & _ & Hf) & (-> & _) & _). rewrite Hg.
    split_and!; try done. by apply (holds_slot_inv l el).
Qed.

Lemma ainv_release v n : settled v n (g_hold g) -> 1 <= g_rels g ->
  w < 0xFFFFFFFF00000000 /\ u64 (w + LOCK_BIT) = pack (v + 1) false n /\ get_version_counter (pack (v + 1) false n) = v + 1 /\
  ainv (MCount (v + 1) n) (set_hold Free (set_rels (g_rels g - 1) g) :: rest) (Asr l f (pack (v + 1) false n) p x).
Proof using H HC HC31.
  intros Hset Hr. destruct (settled_word v n Hset) as (Hg & Hm & -> & Hok & Hf & Hs & Hb & Hv).
  pose proof (ai_version _ _ _ _ _ H) as Hver. pose proof (ai_ghosts _ _ _ _ _ H) as [_ Hrest]%Forall_cons.
  pose proof (total_nonneg _ _ _ _ Hrest) as [_ Hrels]. cbn [a_list faa_counter] in *.
  assert (Hsum : total g_rels (g :: rest) = g_rels g + total g_rels rest) by done.
  assert (Hok' : word_ok (v + 1) n) by (destruct Hok; split; lia).
  split_and!; [by apply pack_below|by apply pack_release|by apply pack_version|].
  destruct Hok as [Hv0 Hn0]. eapply (change_lock _ _ m); try done; try (by right); cbn; try (split_and!; try done); lia.
Qed.

Lemma ainv_die v n : settled v n (g_hold g) ->
  get_valid_reservations CAPACITY w = Z.min n C /\
  ainv (MDead (Z.min n C)) (set_hold Free g :: rest) (Asr l f EXTRACTION_STATE_VALUE p x).
Proof using H HC HC31.
  intros Hset. destruct (settled_word v n Hset) as (Hg & Hm & -> & Hok & Hf & Hs & Hb & Hv).
  split; [by apply pack_valid|]. destruct Hok as [Hv0 Hn0].
  eapply (change_hold _ _ m); try done; try (by right); cbn; try (split_and!; try done); lia.
Qed.

Lemma ainv_unchanged v n pre : g_hold g = Held v n pre -> 1 <= v ->
  Z.land w (Z.lnot LOCK_BIT) = pack v false n /\
  ainv (MCount v n) (set_hold Free g :: rest) (Asr l f (pack v false n) p x).
Proof using H HC HC31.
  intros Hg Hv1. destruct (settled_word v n ltac:(left; eauto)) as (Hh & Hm & -> & Hok & Hf & Hs & Hb & Hv).
  split; [by apply pack_clear|]. eapply (change_hold _ _ m); try done; try (by right); cbn; try (split_and!; try done); lia.
Qed.

Lemma ainv_reopen n pre : g_hold g = Held 0 n pre -> get_insert_counter w = n /\ n <= F /\
  ainv (MHeld (Rollback n)) (set_hold (Rollback n) g :: rest) (Asr l n w p x).
Proof using H HC HC31.
  intros Hg. destruct (settled_word 0 n ltac:(left; eauto)) as (Hh & Hm & Hw & Hok & Hf & Hs & Hb & Hv).
  destruct (holder_mode _ Hg ltac:(done)) as (Hm' & (_ & _ & _ & Hn) & _). specialize (Hn eq_refl). pose proof F_range.
  split_and!; [rewrite Hw; by apply pack_insert|done|]. destruct Hok as [_ Hn0].
  eapply (change_hold _ _ m); try done; try (by right); try (cbn; lia).
  - cbn. replace (Z.min n F) with (Z.min n C) by lia. done.
  - rewrite Hm'. cbn. lia.
  - rewrite Hm'. cbn. lia.
Qed.

Lemma ainv_reopened n : g_hold g = Rollback n -> ainv MOpen (set_hold Free g :: rest) (Asr l f 0 p x).
Proof using H HC HC31.
  intros Hg. destruct (holder_mode _ Hg ltac:(done)) as (-> & (_ & Hn & Hf) & Hl & _).
  eapply (change_hold _ _ (MHeld (Rollback n))); try done; try (right; by rewrite Hg); try (cbn; lia).
Qed.

(** *** Working alone on the array *)

Lemma excl_state v w0 l0 base : g_hold g = Excl v w0 l0 base ->
  m = MHeld (Excl v w0 l0 base) /\ l0 = l /\ w0 = w /\ length l = CAPACITY.
Proof using H HC HC31.
  intros Hg. destruct (holder_mode _ Hg ltac:(done)) as (-> & (Hw & _) & (_ & Hl) & Hlen). done.
Qed.

Lemma ainv_excl v base l' w' : g_hold g = Excl v w l base -> length l' = CAPACITY -> (exists n, w' = pack v true n /\ word_ok v n) ->
  ainv (MHeld (Excl v w' l' base)) (set_hold (Excl v w' l' base) g :: rest) (Asr l' f w' p x).
Proof using H HC HC31.
  intros Hg Hlen Hw'. destruct (mode_of_holder _ _ _ _ _ _ H) as [Hm Hrest]; [by rewrite Hg|].
  destruct H as [H1 H2 H3 H4 [[G1 G2 G3 G4 G5] H5]%Forall_cons H6 H7 H8]. cbn [a_list faa_counter cas_counter] in *.
  rewrite Hg in Hm. subst m. cbn [AsrInv.word_inv AsrInv.list_inv] in H3, H4. destruct H4 as [Hown _].
  rewrite owned_cons in Hown. apply app_eq_nil in Hown as [Hown1 Hown2].
  assert (Hval : forall g1, g1 ∈ g :: rest -> val_inv l g1 -> val_inv l' g1).
  { intros g1 Hin Hv. unfold val_inv in *. destruct (g_val g1); [|done]. destruct Hv as (Hlt & _). exfalso.
    assert (g_lo g1 ∈ owned (g :: rest)).
    { unfold owned. apply list_elem_of_bind. exists g1. split; [|done]. rewrite slots_of_first by done. by left. }
    rewrite owned_cons, Hown1, Hown2 in *. by eapply elem_of_nil. }
  eapply ainv_update; try done.
  - intros _. rewrite Hrest. by rewrite app_nil_r.
  - by destruct H3 as (_ & _ & Hf).
  - split; [|done]. by rewrite Hown2, app_nil_r.
  - split; try done. apply (Hval g); [by left|done].
  - intros g1 Hin [K1 K2 K3 K4 K5]. split; try done. apply (Hval g1); [by right|done].
Qed.

(** Accounting for the entries after a move. *)
Lemma ainv_account v base ins outs : g_hold g = Excl v w l base ->
  base ++ ins ≡ₚ contents l ++ outs ->
  ainv (MHeld (Excl v w l (contents l)))
    (set_hold (Excl v w l (contents l)) (set_bag (g_in g ++ ins) (g_out g ++ outs) g) :: rest) (Asr l f w p x).
Proof using H HC HC31.
  intros Hg Hb. destruct (mode_of_holder _ _ _ _ _ _ H) as [Hm Hrest]; [by rewrite Hg|].
  destruct H as [H1 H2 H3 H4 [[G1 G2 G3 G4 G5] H5]%Forall_cons H6 H7 H8]. cbn [a_list faa_counter cas_counter] in *.
  rewrite Hg in Hm. subst m. eapply ainv_update; try done.
  - intros _. by rewrite Hrest, app_nil_r.
  - intros g1 _ [K1 K2 K3 K4 K5]. by split.
  - intros o i. cbn [AsrInv.bag g_out g_in set_hold set_bag]. intros Hp.
    trans ((contents l ++ outs) ++ g_out g ++ o); [solve_Permutation|]. rewrite <- Hb.
    trans ((base ++ g_out g ++ o) ++ ins); [solve_Permutation|]. rewrite Hp. solve_Permutation.
Qed.
End Holder.
End AsrSteps.

(** * Rules for the accesses of one thread among others

    What a thread has to show of its next access to a two-phase multivector,
    given what its ghost says, whatever the other threads are doing. *)

Section AsrSafe.
Context (CAPACITY : nat) (EMPTY : Z) {V : Type} (HC : (2 <= CAPACITY)%nat) (HC31 : Z.of_nat CAPACITY < 2 ^ 31).
Implicit Types (l : list (Z * V)) (g : ghost V) (gs rest : list (ghost V)) (m : mode V) (h : hold V).

Local Abbreviation F := (FAA_CAPACITY CAPACITY).
Local Abbreviation C := (Z.of_nat CAPACITY).
Local Abbreviation keyed := (keyed EMPTY).
Local Abbreviation ainv := (ainv CAPACITY EMPTY).
Local Abbreviation word_inv := (word_inv CAPACITY).
Local Abbreviation contents := (contents EMPTY).
Local Abbreviation safe := (safe (@asr_may V) (inv CAPACITY EMPTY)).
Local Abbreviation prog A := (prog (asrE V) A).

(** ** Reading the counters *)

Lemma safe_load {A : Type} c (k : Z -> prog A) g Q : (forall y, safe (k y) g Q) -> safe (Vis (Load c) k) g Q.
Proof. intros Hk. apply safe_event. intros m rest s H r ->. exists (get_counter c s), s, g, m. auto. Qed.

(** The words a thread may read in [cas_counter]. *)
Inductive seen_word : Z -> Prop :=
| seen_open : seen_word 0
| seen_count v n : 1 <= v -> word_ok v n -> seen_word (pack v false n)
| seen_locked v n : word_ok v n -> seen_word (pack v true n)
| seen_dead : seen_word EXTRACTION_STATE_VALUE.

Lemma word_seen m f w : word_inv m f w -> seen_word w.
Proof using HC HC31.
  pose proof (F_range CAPACITY HC). destruct m as [|v n|[]|]; cbn.
  - intros [-> _]. apply seen_open.
  - intros (-> & Hv & Hok & _). by apply seen_count.
  - done.
  - intros [-> _]. apply seen_locked. split; lia.
  - intros (-> & _). apply seen_locked. split; lia.
  - intros (-> & Hok & _). by apply seen_locked.
  - intros (_ & (n & -> & Hok) & _). by apply seen_locked.
  - intros (-> & Hn & _). apply seen_locked. split; lia.
  - intros (-> & _). apply seen_dead.
Qed.

Lemma seen_cases w : seen_word w -> get_state w = LOCKED \/
  (get_state w = FAA_INSERTION /\ w = 0) \/ (get_state w = EXTRACTION /\ w = EXTRACTION_STATE_VALUE) \/
  (get_state w = CAS_INSERTION /\ exists v n, w = pack v false n /\ 1 <= v /\ word_ok v n).
Proof using. clear HC HC31.
  intros [|v n Hv Hok|v n Hok|].
  - right; left. done.
  - right; right; right. split; [|by exists v, n]. rewrite (pack_state v n false Hok).
    by rewrite (proj2 (Z.eqb_neq v 0)) by lia.
  - left. by rewrite (pack_state v n true Hok).
  - right; right; left. done.
Qed.

Lemma safe_load_cas {A : Type} (k : Z -> prog A) g Q :
  (forall w, seen_word w -> safe (k w) g Q) -> safe (Vis (Load CAS) k) g Q.
Proof using HC HC31.
  intros Hk. apply safe_event. intros m rest s H r ->. exists (cas_counter s), s, g, m.
  split_and!; [done|done|]. apply Hk. eapply word_seen, (ai_word _ _ _ _ _ H).
Qed.

(** ** Ghost flags *)

Lemma ainv_set_must m g rest l f w p x : ainv m (g :: rest) (Asr l f w p x) -> full CAPACITY m f ->
  ainv m (set_must true g :: rest) (Asr l f w p x).
Proof.
  intros H Hf. pose proof H as [H1 H2 H3 H4 [[G1 G2 G3 G4 G5] H5]%Forall_cons H6 H7 H8].
  cbn [a_list faa_counter cas_counter] in *. eapply ainv_update; done.
Qed.

Lemma ainv_set_new m g rest l f w p x : ainv m (g :: rest) (Asr l f w p x) -> newer m ->
  ainv m (set_new true g :: rest) (Asr l f w p x).
Proof.
  intros H Hf. pose proof H as [H1 H2 H3 H4 [[G1 G2 G3 G4 G5] H5]%Forall_cons H6 H7 H8].
  cbn [a_list faa_counter cas_counter] in *. eapply ainv_update; done.
Qed.

(** A version above 0 was published by a release. *)
Lemma version_newer m f w : word_inv m f w -> 0 < get_version_counter w -> newer m.
Proof using HC HC31.
  assert (Hok0 : word_ok 0 0) by (split; lia). destruct m as [|v n|[]|]; cbn; try done.
  - by intros [-> _].
  - intros [-> _]. rewrite (pack_version 0 0 true Hok0). lia.
  - intros (-> & _). rewrite (pack_version 0 0 true Hok0). lia.
  - intros (-> & Hok & _). rewrite (pack_version v n true Hok). lia.
  - intros (_ & (n & -> & Hok) & _). rewrite (pack_version v n true Hok). lia.
  - pose proof (F_range CAPACITY HC). intros (-> & Hn & _). assert (Hok : word_ok 0 n) by (split; lia). rewrite (pack_version 0 n true Hok). lia.
Qed.

Lemma safe_begin_read g :
  safe begin_read g (fun v g' => if 0 <? v then g' = set_new true g else g' = g).
Proof using HC HC31.
  apply safe_event. intros m rest [l f w p x] H r ->. cbn [get_counter asr_handle].
  pose proof (ai_word _ _ _ _ _ H) as Hw. cbn [faa_counter cas_counter] in Hw.
  destruct (Z.ltb_spec 0 (get_version_counter w)) as [Hv|Hv].
  - exists w, (Asr l f w p x), (set_new true g), m. split_and!; [done| |].
    + apply ainv_set_new; [done|]. by eapply version_newer.
    + apply safe_ret. by rewrite (proj2 (Z.ltb_lt _ _)) by done.
  - exists w, (Asr l f w p x), g, m. split_and!; [done|done|].
    apply safe_ret. by rewrite (proj2 (Z.ltb_ge _ _)) by done.
Qed.

(** Reserving with [cas_counter]. *)
Lemma safe_cas_reserve {A : Type} v n d (k : bool * Z -> prog A) g Q :
  no_slots g -> word_ok v n -> 1 <= v -> n <= C -> 0 <= d -> n + d < 2 ^ 32 ->
  safe (k (true, pack v false n)) (set_must (g_must g || (C <? n + d)) (set_slots n (Z.min (n + d) C) None g)) Q ->
  (forall seen, safe (k (false, seen)) g Q) ->
  safe (Vis (CasWeak CAS (pack v false n) (pack v false (n + d))) k) g Q.
Proof using HC HC31.
  intros Hg Hok Hv Hn Hd Hnd Hs Hf. apply safe_event. intros m rest [l f w p x] H r Hr.
  assert (Hfail : exists a s' g' m', Some ((false, w), Asr l f w p x) = Some (a, s') /\ ainv m' (g' :: rest) s' /\ safe (k a) g' Q).
  { exists (false, w), (Asr l f w p x), g, m. split_and!; [done|done|apply Hf]. }
  destruct Hr as [-> | ->]; [|exact Hfail].
  cbn [asr_handle get_counter cas_counter set_counter]. destruct (Z.eqb_spec w (pack v false n)) as [->|Hne]; [|exact Hfail].
  assert (m = MCount v n) as ->.
  { pose proof (ai_word _ _ _ _ _ H) as Hwi. cbn [faa_counter cas_counter] in Hwi.
    pose proof (state_of_word CAPACITY HC HC31 m f _ Hwi) as Hst.
    rewrite (pack_state v n false Hok), (proj2 (Z.eqb_neq v 0)) in Hst by lia. destruct m as [|v' n'| |]; try done.
    cbn in Hwi. destruct Hwi as (Heq & _ & Hok' & _). by destruct (pack_inj v false n v' false n' Hok Hok' Heq) as (-> & _ & ->). }
  pose proof (ainv_cas_add CAPACITY EMPTY HC v n g rest l f p x d H Hg Hn Hd Hnd) as Hi.
  eexists (true, pack v false n), _, _, (MCount v (n + d)). split_and!; [done| |exact Hs].
  destruct (C <? n + d).
  - rewrite orb_true_r. by apply (ainv_set_must _ _ rest).
  - rewrite orb_false_r. exact Hi.
Qed.

(** ** Slots of one's own *)

Lemma safe_val_store {A : Type} i y (k : unit -> prog A) g Q : i = g_lo g -> g_lo g < g_hi g ->
  safe (k tt) (set_slots (g_lo g) (g_hi g) (Some y) g) Q -> safe (Vis (ValStore i y) k) g Q.
Proof using HC HC31.
  intros -> Hlt Hk. apply safe_event. intros m rest [l f w p x] H r ->.
  destruct (owner_slot CAPACITY EMPTY HC m g rest l f w p x H Hlt) as (l1 & c & l2 & -> & Hlo & Hc & _).
  cbn [asr_handle]. rewrite (on_slot_mid _ _ l1 c l2 (g_lo g) f w p x eq_refl Hlo). cbn [fst snd].
  eexists tt, _, _, m. split_and!; [done| |exact Hk]. by apply ainv_val_store.
Qed.

Lemma safe_key_store {A : Type} i y z (k : unit -> prog A) g Q : i = g_lo g -> g_lo g < g_hi g ->
  g_val g = Some y -> z <> EMPTY ->
  safe (k tt) (set_slots (g_lo g + 1) (g_hi g) None (set_bag (g_in g ++ [(z, y)]) (g_out g) g)) Q ->
  safe (Vis (KeyStore i z) k) g Q.
Proof using HC HC31.
  intros -> Hlt Hy Hz Hk. apply safe_event. intros m rest [l f w p x] H r ->.
  destruct (owner_slot CAPACITY EMPTY HC m g rest l f w p x H Hlt) as (l1 & c & l2 & -> & Hlo & Hc & Hval).
  cbn [asr_handle]. rewrite (on_slot_mid _ _ l1 c l2 (g_lo g) f w p x eq_refl Hlo). cbn [fst snd].
  eexists tt, _, _, m. split_and!; [done| |exact Hk]. rewrite <- (Hval y Hy). by apply ainv_key_store.
Qed.

(** ** The lock *)

(** A compare-and-swap that takes the lock from the word [w0]. *)
Lemma safe_take {A : Type} (weak : bool) w0 w1 (k : bool * Z -> prog A) g Q :
  g_hold g = Free -> is_insertion_state (get_state w0) = true ->
  w1 = Z.lor w0 LOCK_BIT \/ w1 = u64 (w0 + LOCK_BIT) ->
  (w0 = 0 -> safe (k (true, 0)) (set_hold Pending g) Q) ->
  (forall v n, w0 = pack v false n -> 1 <= v -> word_ok v n -> safe (k (true, w0)) (set_hold (Held v n []) g) Q) ->
  (forall seen, seen_word seen -> safe (k (false, seen)) g Q) ->
  safe (Vis (if weak then CasWeak CAS w0 w1 else CasStrong CAS w0 w1) k) g Q.
Proof using HC HC31.
  intros Hg Hst Hw1 Ho Hc Hf. apply safe_event. intros m rest [l f w p x] H r Hr.
  assert (Hfail : exists b s' g' m', Some ((false, w), Asr l f w p x) = Some (b, s') /\ ainv m' (g' :: rest) s' /\ safe (k b) g' Q).
  { exists (false, w), (Asr l f w p x), g, m. split_and!; [done|done|]. apply Hf. eapply word_seen, (ai_word _ _ _ _ _ H). }
  assert (Htake : r = asr_handle _ (CasWeak CAS w0 w1) (Asr l f w p x) ->
    exists b s' g' m', r = Some (b, s') /\ ainv m' (g' :: rest) s' /\ safe (k b) g' Q).
  { intros ->. cbn [asr_handle get_counter cas_counter set_counter]. destruct (Z.eqb_spec w w0) as [->|Hne]; [|done].
    destruct (ainv_take CAPACITY EMPTY HC HC31 m g rest l f w0 p x H Hg Hst) as (w' & Hlor & Hadd & Hcase).
    replace w1 with w' by (destruct Hw1; congruence). destruct Hcase as [[Hw0 Hi]|(v & n & Hw0 & Hv & Hok & Hi)].
    - eexists _, _, _, _. split_and!; [done|exact Hi|]. rewrite Hw0. by apply Ho.
    - eexists _, _, _, _. split_and!; [done|exact Hi|]. by eapply Hc. }
  destruct weak; [destruct Hr as [Hr|Hr]|]; [by apply Htake|by rewrite Hr|by apply Htake].
Qed.

(** Closing [faa_counter]: the compare-and-swap, or a load that finds it
    closed. *)
Lemma safe_close {A : Type} f0 (k : bool * Z -> prog A) g Q : g_hold g = Pending -> f0 <= F ->
  ((g_must g = true -> F <= f0) -> 0 <= f0 -> safe (k (true, f0)) (set_hold (Closing f0) g) Q) ->
  (forall seen, safe (k (false, seen)) g Q) ->
  safe (Vis (CasWeak FAA f0 (F + 1)) k) g Q.
Proof using HC HC31.
  intros Hg Hf0 Hs Hf. apply safe_event. intros m rest [l f w p x] H r [ -> | -> ].
  - cbn [asr_handle get_counter faa_counter set_counter]. destruct (Z.eqb_spec f f0) as [->|Hne].
    + eexists _, _, _, _. split_and!; [done|apply (ainv_close CAPACITY EMPTY HC HC31 g rest m l f0 w p x H Hg Hf0)|].
      destruct (holder_mode CAPACITY EMPTY HC HC31 g rest m l f0 w p x H Pending Hg ltac:(done)) as (-> & (_ & Hpos) & _).
      apply Hs; [|done]. pose proof (ai_ghosts _ _ _ _ _ H) as [[_ _ G3 _ _] _]%Forall_cons. exact G3.
    + exists (false, f), (Asr l f w p x), g, m. split_and!; [done|done|apply Hf].
  - exists (false, f), (Asr l f w p x), g, m. split_and!; [done|done|apply Hf].
Qed.

Lemma safe_load_faa {A : Type} (k : Z -> prog A) g Q : g_hold g = Pending ->
  (forall f, f <= F -> safe (k f) g Q) -> (forall f, F < f -> safe (k f) (set_hold (Closing F) g) Q) ->
  safe (Vis (Load FAA) k) g Q.
Proof using HC HC31.
  intros Hg Hle Hgt. apply safe_event. intros m rest [l f w p x] H r ->. cbn [asr_handle get_counter faa_counter].
  destruct (Z.le_gt_cases f F) as [Hf|Hf].
  - exists f, (Asr l f w p x), g, m. split_and!; [done|done|by apply Hle].
  - eexists f, _, _, _. split_and!; [done|apply (ainv_closed CAPACITY EMPTY HC HC31 g rest m l f w p x H Hg Hf)|by apply Hgt].
Qed.
End AsrSafe.
