(* ===== verification/AsrMethods.v ===== *)
(** * AsrMethods: the methods of the two-phase multivector among other threads

    What each method that several threads may run at once does to the ghost of
    its thread. *)

From S2P Require Import Prelude KvList Prog ArrayOps AsrWord MultivectorAsr AsrRun Pool AsrInv.
From S2P Require Import AsrSteps.

Local Open Scope Z_scope.

Section AsrMethods.
Context (CAPACITY : nat) (EMPTY : Z) {V : Type} (HC : (2 <= CAPACITY)%nat) (HC31 : Z.of_nat CAPACITY < 2 ^ 31).
Implicit Types (l b : list (Z * V)) (g : ghost V) (gs rest : list (ghost V)) (m : mode V) (h : hold V).

Local Abbreviation F := (FAA_CAPACITY CAPACITY).
Local Abbreviation C := (Z.of_nat CAPACITY).
Local Abbreviation keyed := (keyed EMPTY).
Local Abbreviation ainv := (ainv CAPACITY EMPTY).
Local Abbreviation contents := (contents EMPTY).
Local Abbreviation safe := (safe (@asr_may V) (inv CAPACITY EMPTY)).

(** ** Reserving slots *)

(** The ghost of a thread that has reserved the slots [lo] to [hi]; it has the
    duty to split if they are not all there. *)
Definition granted d lo hi must g : ghost V := set_adds (g_adds g - d) (set_must must (set_slots lo hi (g_val g) g)).

(** What [reserve_for_insertion] answers to a request of [d] slots. *)
Definition reserved_ok d g (r : Z * Z) (g' : ghost V) : Prop :=
  let limit := if r.2 =? 0 then F else C in
  exists lo hi must, g' = granted d lo hi must g /\ (g_must g = true -> must = true) /\
    (hi <= lo /\ (r.1 = EXTRACT_ONLY \/ r.1 = VERSION_CHECK_FAIL \/ limit <= r.1 /\ (r.1 = limit -> 0 < d -> must = true)) \/
     lo = r.1 /\ 0 <= r.1 <= limit /\ r.1 < 2 ^ 32 /\ hi = Z.min (r.1 + d) limit /\ (limit < r.1 + d -> must = true)).

Lemma reserve_faa_granted d f g : no_slots g ->
  exists lo hi, reserve_faa CAPACITY d f g = granted d lo hi (g_must g || ((f <=? F) && (F <? f + d))) g /\
    (if f <? F then lo = f /\ hi = Z.min (f + d) F else hi <= lo).
Proof.
  intros [Hs Hv]. unfold reserve_faa, granted. destruct (f <? F).
  - exists f, (Z.min (f + d) F). split; [|done]. by rewrite Hv.
  - exists (g_lo g), (g_hi g). split; [|done]. by destruct g.
Qed.

Lemma reserve_loop_safe d ver f fuel : forall lo hi must g, hi <= lo -> g_hold g = Free -> g_val g = None ->
  0 <= d -> C + d < 2 ^ 32 -> F <= f -> (g_must g = true -> must = true) -> (f = F -> 0 < d -> must = true) ->
  safe (reserve_loop CAPACITY fuel ver d f) (granted d lo hi must g) (reserved_ok d g).
Proof using HC HC31.
  pose proof (F_range CAPACITY HC) as HFC.
  induction fuel as [|fuel IH]; intros lo hi must g Hlo Hg Hval Hd HCd Hf Hm Hmust; [done|]. cbn [reserve_loop].
  apply safe_load_cas; [done..|]. intros w Hw.
  destruct (seen_cases w Hw) as [Hst|[[Hst ->]|[[Hst ->]|[Hst (v & n & -> & Hv & Hok)]]]]; rewrite Hst.
  - by apply IH.
  - apply safe_ret. unfold reserved_ok. cbn [fst snd]. exists lo, hi, must. split_and!; [done|done|]. left. split; [done|].
    right; right. split; [done|]. intros Hff. by apply Hmust.
  - apply safe_ret. exists lo, hi, must. split_and!; [done|done|]. left. split; [done|]. by left.
  - rewrite (pack_version v n false Hok), (pack_insert v n false Hok).
    assert (Hi64 : i64 v = v) by (destruct Hok; apply i64_small; lia).
    destruct ((0 <=? ver) && negb (v =? u64 ver)).
    { apply safe_ret. exists lo, hi, must. split_and!; [done|done|]. left. split; [done|]. right; by left. }
    destruct (Z.ltb_spec C n) as [Hn|Hn].
    { apply safe_ret. unfold reserved_ok. cbn [fst snd]. rewrite Hi64, (proj2 (Z.eqb_neq v 0)) by lia.
      exists lo, hi, must. split_and!; [done|done|]. left. split; [done|]. right; right. lia. }
    apply safe_passert.
    { change (Z.land (pack v false n) INSERT_MASK) with (get_insert_counter (pack v false n)).
      rewrite (pack_insert v n false Hok). apply negb_true_iff, Z.eqb_neq. unfold INSERT_MASK. lia. }
    destruct Hok as [Hv' Hn']. rewrite (pack_add v n ltac:(done) d) by lia.
    apply safe_cas_reserve; [done|done|by split|by split|done|done|done|lia| |intros; by apply IH]. apply safe_ret. unfold reserved_ok. cbn [fst snd].
    rewrite Hi64, (proj2 (Z.eqb_neq v 0)) by lia.
    exists n, (Z.min (n + d) C), (must || (C <? n + d)). split_and!; [by unfold granted; cbn; rewrite Hval|intros Hm'; by rewrite (Hm Hm')|].
    right. split_and!; try done; lia.
Qed.

Lemma reserve_safe d ver fuel g : no_slots g -> g_hold g = Free -> 0 <= d <= g_adds g -> C + d < 2 ^ 32 ->
  ver <= 0 \/ g_new g = true ->
  safe (reserve_for_insertion CAPACITY fuel ver d) g (reserved_ok d g).
Proof using HC HC31.
  intros Hs Hg Hd HCd Hver. pose proof (F_range CAPACITY HC) as HFC. apply safe_event. intros m rest [l f w p x] H r ->.
  destruct (ainv_faa_add CAPACITY EMPTY HC m g rest l f w p x d H Hs Hd) as [Hadd Hi].
  destruct (reserve_faa_granted d f g Hs) as (lo & hi & Hgr & Hlo).
  cbn [asr_handle get_counter faa_counter set_counter]. rewrite Hadd.
  eexists f, _, _, m. split_and!; [done|exact Hi|]. rewrite Hgr. destruct (Z.ltb_spec f F) as [Hf|Hf].
  - assert (Hle : ver <= 0).
    { destruct Hver as [?|Hnew]; [done|]. exfalso. pose proof (ai_ghosts _ _ _ _ _ H) as [[_ G2 _ _ _] _]%Forall_cons.
      pose proof (faa_open_of CAPACITY HC m f w (ai_word _ _ _ _ _ H) ltac:(cbn; lia)) as Ho. specialize (G2 Hnew).
      by destruct m as [| |[]|]. }
    apply safe_passert; [by apply Z.leb_le|]. apply safe_ret. unfold reserved_ok. cbn [fst snd].
    destruct Hlo as [-> ->]. exists f, (Z.min (f + d) F), (g_must g || ((f <=? F) && (F <? f + d))).
    pose proof (word_nonneg CAPACITY HC m f w (ai_word _ _ _ _ _ H)).
    split_and!; [done|by intros ->|]. right. cbn. split_and!; try done; try lia.
  - destruct Hs as [Hs1 Hs2]. apply reserve_loop_safe; try done; try lia. by intros ->.
Qed.

(** ** Filling them *)

Definition inserted done lo hi g : ghost V := set_slots lo hi None (set_bag (g_in g ++ done) (g_out g) g).

Lemma fill_loop_safe limit : forall b slot g, g_lo g = slot -> g_hi g = Z.min (slot + Z.of_nat (length b)) limit ->
  slot <= limit -> g_val g = None -> Forall keyed b ->
  safe (fill_loop EMPTY slot limit b) g (fun left g' => exists done lo hi, b = done ++ left /\ hi <= lo /\
    g' = inserted done lo hi g /\ (left = [] \/ limit < slot + Z.of_nat (length b))).
Proof using HC HC31.
  induction b as [|[k x] b IH]; intros slot g Hlo Hhi Hle Hval Hk; cbn [fill_loop].
  - apply safe_ret. exists [], (g_lo g), (g_hi g). cbn [length] in Hhi. split_and!; [done|lia| |by left].
    unfold inserted. rewrite app_nil_r. rewrite <- Hval. by destruct g.
  - apply Forall_cons in Hk as [Hk Hkb]. cbn [length] in Hhi. destruct (Z.ltb_spec slot limit) as [Hlt|Hge].
    + apply safe_passert; [by apply negb_true_iff, Z.eqb_neq|]. unfold assign. cbn [fst snd bind trigger].
      apply safe_val_store; [done|done|done|lia|]. apply (safe_key_store _ _ HC HC31 _ x); [done|cbn; lia|done|done|].
      cbn [g_lo g_hi g_in g_out set_slots set_bag]. eapply safe_mono; [apply IH|]; cbn [g_lo g_hi g_val set_slots]; try done; try lia.
      intros left g' (dn & lo & hi & -> & Hlh & -> & Hleft). exists ((k, x) :: dn), lo, hi. split_and!; [done|done| |].
      * unfold inserted. cbn. rewrite <- app_assoc. done.
      * cbn [length]. destruct Hleft; [by left|right; lia].
    + apply safe_ret. exists [], (g_lo g), (g_hi g). split_and!; [done|lia| |right; cbn [length]; lia].
      unfold inserted. rewrite app_nil_r. rewrite <- Hval. by destruct g.
Qed.

(** What [insert_concurrent] does: it fills slots with a prefix of the range and
    answers the rest. *)
Definition insert_ok b g (r : insert_result * list (Z * V)) (g' : ghost V) : Prop :=
  exists done lo hi must, b = done ++ r.2 /\ hi <= lo /\
    g' = inserted done lo hi (set_adds (g_adds g - Z.of_nat (length b)) (set_must must g)) /\
    (g_must g = true -> must = true) /\ (r.1 = MUST_SPLIT -> must = true) /\ (r.1 = SUCCESS <-> r.2 = [] /\ r.1 <> DEAD_VECTOR /\ r.1 <> VERSION_CHANGED /\ r.1 <> SPLIT_PENDING).

Lemma insert_safe b ver fuel g : no_slots g -> g_hold g = Free -> Forall keyed b ->
  Z.of_nat (length b) <= g_adds g -> C + Z.of_nat (length b) < 2 ^ 32 -> ver <= 0 \/ g_new g = true ->
  safe (insert_concurrent CAPACITY EMPTY fuel b ver) g (insert_ok b g).
Proof using HC HC31.
  intros Hs Hg Hk Hadds HCb Hver. pose proof (F_range CAPACITY HC) as HFC.
  eapply safe_bind; [apply (reserve_safe (Z.of_nat (length b)) ver fuel g); try done; lia|].
  intros [slot ver'] g' (lo & hi & must & -> & Hm & Hcase). cbn [fst snd] in Hcase. cbv zeta.
  set (limit := if ver' =? 0 then F else C) in *.
  assert (Hlimit : limit <= C /\ 2 <= limit) by (unfold limit; destruct (ver' =? 0); lia).
  assert (Hnothing : forall r, hi <= lo -> r = DEAD_VECTOR \/ r = VERSION_CHANGED \/ r = SPLIT_PENDING ->
    safe (Ret (r, b)) (granted (Z.of_nat (length b)) lo hi must g) (insert_ok b g)).
  { intros r Hlh Hr. apply safe_ret. exists [], lo, hi, must. cbn [fst snd]. split_and!; [done|done| |done| |].
    - unfold inserted, granted. cbn. rewrite app_nil_r. destruct Hs as [_ ->]. done.
    - by destruct Hr as [->|[->| ->]].
    - destruct Hr as [->|[->| ->]]; split; try done; by intros (_ & ? & ? & ?). }
  destruct (Z.eqb_spec slot EXTRACT_ONLY) as [Hx|Hx].
  { destruct Hcase as [[Hlh _]|(_ & _ & Hlt & _)]; [by apply Hnothing; [|left]|]. unfold EXTRACT_ONLY in Hx. lia. }
  destruct (Z.eqb_spec slot VERSION_CHECK_FAIL) as [Hv|Hv].
  { destruct Hcase as [[Hlh _]|(_ & _ & Hlt & _)]; [by apply Hnothing; [|right; left]|]. unfold VERSION_CHECK_FAIL in Hv. lia. }
  destruct (Z.ltb_spec limit slot) as [Hls|Hls].
  { destruct Hcase as [[Hlh _]|(_ & ? & _)]; [by apply Hnothing; [|right; right]|lia]. }
  destruct Hcase as [[Hlh [?|[?|[Hle Hmust]]]]|(-> & H0 & Hlt & -> & Hmust)]; try done.
  - assert (slot = limit) as -> by lia. destruct b as [|e b]; cbn [fill_loop].
    + apply safe_ret. exists [], lo, hi, must. cbn [fst snd]. split_and!; try done.
      unfold inserted, granted. cbn. rewrite app_nil_r. destruct Hs as [_ ->]. done.
    + rewrite (proj2 (Z.ltb_ge _ _)) by lia. apply safe_ret. exists [], lo, hi, must. cbn [fst snd]. split_and!; try done.
      * unfold inserted, granted. cbn. rewrite app_nil_r. destruct Hs as [_ ->]. done.
      * intros _. apply Hmust; [done|]. cbn [length]. lia.
      * split; [done|by intros (? & _)].
  - eapply safe_bind; [apply (fill_loop_safe limit b slot); [done|done|lia|by destruct Hs|done]|].
    intros left g' (dn & lo & hi & Hb & Hlh & -> & Hleft). destruct left as [|e left].
    + apply safe_ret. exists dn, lo, hi, must. cbn [fst snd]. split_and!; try done.
    + apply safe_ret. exists dn, lo, hi, must. cbn [fst snd]. split_and!; try done.
      * intros _. destruct Hleft as [?|Hleft]; [done|]. by apply Hmust.
      * split; [done|by intros (? & _)].
Qed.

(** ** Taking the lock *)

(** The lock is taken; [n] slots are reserved, all of them if the thread has
    the duty to split. *)
Definition taken g (g' : ghost V) : Prop :=
  exists v n, g' = set_hold (Held v n []) g /\ 0 <= v /\ 0 <= n /\ (v = 0 -> g_must g = true -> n = F).

Lemma transition_closed fuel f : F < f -> @transition_loop CAPACITY V fuel f = Ret F.
Proof using. intros Hf. destruct fuel; cbn [transition_loop]; by rewrite (proj2 (Z.leb_gt _ _)) by done. Qed.

Lemma transition_safe fuel g : g_hold g = Pending ->
  safe (faa_to_cas_transition CAPACITY fuel) g (fun _ g' =>
    exists n, g' = set_hold (Held 0 n []) g /\ 0 <= n /\ (g_must g = true -> n = F)).
Proof using HC HC31.
  intros Hg. pose proof (F_range CAPACITY HC) as HFC.
  assert (Hstore : forall n, (g_must g = true -> n = F) ->
    safe (trigger (Store CAS (u64 (LOCK_BIT + n)))) (set_hold (Closing n) g) (fun _ g' =>
      exists n, g' = set_hold (Held 0 n []) g /\ 0 <= n /\ (g_must g = true -> n = F))).
  { intros n Hn. apply safe_event. intros m rest [l f w p x] H r ->. cbn [asr_handle set_counter].
    destruct (ainv_counted CAPACITY EMPTY HC HC31 _ rest m l f w p x H n eq_refl) as (-> & Hn0 & Hi).
    eexists tt, _, _, _. split_and!; [done|exact Hi|]. apply safe_ret. exists n. split_and!; [done|lia|done]. }
  unfold faa_to_cas_transition.
  assert (Hloop : forall f0, f0 <= F -> safe (let* insertions := transition_loop CAPACITY fuel f0 in
    trigger (Store CAS (u64 (LOCK_BIT + insertions)))) g (fun _ g' =>
      exists n, g' = set_hold (Held 0 n []) g /\ 0 <= n /\ (g_must g = true -> n = F))).
  { induction fuel as [|fuel IH]; intros f0 Hf0; cbn [transition_loop]; rewrite (proj2 (Z.leb_le _ _)) by done; [done|].
    cbn [bind trigger]. apply safe_close; try done.
    - intros Hm Hpos. apply Hstore. intros Hmust. specialize (Hm Hmust). lia.
    - intros _. cbn [bind]. apply safe_load_faa; try done. intros f Hf. rewrite transition_closed by done. by apply Hstore. }
  cbn [bind trigger]. apply safe_load_faa; try done. intros f Hf. rewrite transition_closed by done. by apply Hstore.
Qed.

(** After taking the lock from the word [w0], closing [faa_counter] if it is of
    version 0. *)
Definition taken_from w0 g (g' : ghost V) : Prop :=
  w0 = 0 /\ g' = set_hold Pending g \/
  exists v n, w0 = pack v false n /\ 1 <= v /\ word_ok v n /\ g' = set_hold (Held v n []) g.

Lemma finish_safe fuel w0 g g' : taken_from w0 g g' ->
  safe (if get_version_counter w0 =? 0 then faa_to_cas_transition CAPACITY fuel else Ret tt) g' (fun _ => taken g).
Proof using HC HC31.
  intros [[-> ->]|(v & n & -> & Hv & Hok & ->)].
  - change (get_version_counter 0 =? 0) with true. eapply safe_mono; [by apply transition_safe|].
    intros _ g' (n & -> & Hn & Hm). exists 0, n. split_and!; [by destruct g|done|done|]. intros _. exact Hm.
  - rewrite (pack_version v n false Hok), (proj2 (Z.eqb_neq v 0)) by lia. apply safe_ret. exists v, n.
    destruct Hok. split_and!; [done|lia|lia|lia].
Qed.

Lemma acquire_loop_safe fuel : forall w0 g, seen_word w0 -> g_hold g = Free ->
  safe (acquire_loop fuel w0) g (fun r g' => match r with Some w => taken_from w g g' | None => g' = g end).
Proof using HC HC31.
  induction fuel as [|fuel IH]; intros w0 g Hw Hg; [done|]. cbn [acquire_loop].
  destruct (is_insertion_state (get_state w0)) eqn:Hst.
  - cbn [bind trigger]. apply (safe_take CAPACITY EMPTY HC HC31 true w0); [done|done|by left|..].
    + intros ->. apply safe_ret. by left.
    + intros v n Hw0 Hv Hok. apply safe_ret. right. by exists v, n.
    + intros seen Hseen. by apply IH.
  - destruct (bool_decide (get_state w0 = EXTRACTION)); [by apply safe_ret|]. cbn [bind trigger].
    apply safe_load_cas; try done. intros w Hs. by apply IH.
Qed.

Lemma acquire_safe fuel g : g_hold g = Free ->
  safe (acquire CAPACITY fuel) g (fun (ok : bool) g' => if ok then taken g g' else g' = g).
Proof using HC HC31.
  intros Hg. unfold acquire. cbn [bind trigger]. apply safe_load_cas; try done. intros w Hw.
  eapply safe_bind; [by apply acquire_loop_safe|]. intros [w0|] g' Hr.
  - eapply safe_bind; [by apply finish_safe|]. intros ? g1 Ht. by apply safe_ret.
  - by apply safe_ret.
Qed.

Lemma split_loop_safe fuel : forall w0 g, seen_word w0 -> g_hold g = Free ->
  safe (split_loop CAPACITY fuel w0) g (fun r g' =>
    match r with
    | Some w => taken_from w g g' /\ (w = 0 \/ C < get_insert_counter w)
    | None => g' = g
    end).
Proof using HC HC31.
  induction fuel as [|fuel IH]; intros w0 g Hw Hg; [done|]. cbn [split_loop].
  destruct (is_insertion_state (get_state w0)) eqn:Hst.
  - destruct ((0 <? get_version_counter w0) && (get_insert_counter w0 <=? C)) eqn:Hno; [by apply safe_ret|].
    cbn [bind trigger]. apply (safe_take CAPACITY EMPTY HC HC31 true w0); [done|done|by left|..].
    + intros ->. apply safe_ret. split; [by left|by left].
    + intros v n Hw0 Hv Hok. apply safe_ret. split; [right; by exists v, n|]. right. subst w0.
      rewrite (pack_version v n false Hok), (pack_insert v n false Hok) in *.
      rewrite (proj2 (Z.ltb_lt 0 v)) in Hno by lia. cbn [andb] in Hno. lia.
    + intros seen Hseen. by apply IH.
  - destruct (bool_decide (get_state w0 = EXTRACTION)); [by apply safe_ret|]. cbn [bind trigger].
    apply safe_load_cas; try done. intros w Hs. by apply IH.
Qed.

(** [acquire_for_split] by a thread with the duty to split: when it takes the
    lock there is something to split. *)
Lemma acquire_for_split_safe fuel g : g_hold g = Free -> g_must g = true ->
  safe (acquire_for_split CAPACITY fuel) g (fun z g' =>
    if z =? 0 then g' = g else exists v n, g' = set_hold (Held v n []) g /\ 0 <= v /\ 1 <= Z.min n C).
Proof using HC HC31.
  intros Hg Hmust. pose proof (F_range CAPACITY HC) as HFC. unfold acquire_for_split. cbn [bind trigger].
  apply safe_load_cas; try done. intros w Hw. eapply safe_bind; [by apply split_loop_safe|]. intros [w0|] g' Hr; [|by apply safe_ret].
  destruct Hr as [[[-> ->]|(v & n & -> & Hv & Hok & ->)] Hbig].
  - change (get_version_counter 0 =? 0) with true. cbv iota zeta. apply safe_passert; [done|].
    eapply safe_bind; [by apply transition_safe|]. intros _ g' (n & -> & Hn & Hm). specialize (Hm Hmust). apply safe_ret.
    cbn [Z.eqb]. exists 0, n. split_and!; [by destruct g|lia|lia].
  - rewrite (pack_version v n false Hok), (pack_insert v n false Hok), (proj2 (Z.eqb_neq v 0)) by lia. cbv zeta.
    assert (Hn : C < n).
    { destruct Hbig as [H0|Hb]; [|by rewrite (pack_insert v n false Hok) in Hb]. pose proof (pack_zero v n false Hok) as Hz.
      rewrite H0, (proj2 (Z.eqb_neq v 0)) in Hz by lia. done. }
    apply safe_passert; [by apply Z.ltb_lt|]. apply safe_ret.
    assert (Z.of_nat (CAPACITY / 2) = F - 1) as -> by (unfold FAA_CAPACITY; lia).
    rewrite (proj2 (Z.eqb_neq _ _)) by lia. exists v, n. split_and!; [done|lia|lia].
Qed.

Lemma try_upgrade_safe fuel v g : g_hold g = Free ->
  safe (try_upgrade CAPACITY fuel v) g (fun (ok : bool) g' => if ok then taken g g' else g' = g).
Proof using HC HC31.
  intros Hg. unfold try_upgrade. cbn [bind trigger]. apply safe_load_cas; try done. intros w Hw.
  destruct (is_insertion_state (get_state w)) eqn:Hst; [|rewrite orb_true_r; by apply safe_ret].
  destruct (negb _); [by apply safe_ret|]. cbn [orb negb].
  apply (safe_take CAPACITY EMPTY HC HC31 false w); [done|done|by right|..].
  - intros ->. cbn [andb]. eapply safe_bind; [apply (finish_safe fuel 0 g); by left|]. intros ? g1 Ht. by apply safe_ret.
  - intros v' n Hw0 Hv Hok. cbn [andb]. eapply safe_bind; [apply (finish_safe fuel w g); right; by exists v', n|].
    intros ? g1 Ht. by apply safe_ret.
  - intros seen _. by apply safe_ret.
Qed.
End AsrMethods.
