(* ===== verification/AsrHolder.v ===== *)
(** * AsrHolder: what the holder of the lock does among other threads

    The methods called with the lock held.  The holder waits for the slots that
    other threads are filling; from then on nothing another thread does changes
    the array, and a run of the rest of the method is a run alone. *)

From S2P Require Import Prelude KvList Prog ArrayOps AsrWord MultivectorAsr AsrRun AsrMoves Pool.
From S2P Require Import AsrInv AsrSteps AsrMethods.

Local Open Scope Z_scope.

Section AsrHolder.
Context (CAPACITY : nat) (EMPTY : Z) {V : Type} (HC : (2 <= CAPACITY)%nat) (HC31 : Z.of_nat CAPACITY < 2 ^ 31).
Implicit Types (l pre el : list (Z * V)) (g : ghost V) (gs rest : list (ghost V)) (m : mode V) (h : hold V).

Local Abbreviation F := (FAA_CAPACITY CAPACITY).
Local Abbreviation C := (Z.of_nat CAPACITY).
Local Abbreviation keyed := (keyed EMPTY).
Local Abbreviation holds := (holds CAPACITY EMPTY).
Local Abbreviation ainv := (ainv CAPACITY EMPTY).
Local Abbreviation contents := (contents EMPTY).
Local Abbreviation safe := (safe (@asr_may V) (inv CAPACITY EMPTY)).
Local Abbreviation prog A := (prog (asrE V) A).

(** A holder whose entries are accounted for. *)
Definition calm v n h : Prop :=
  (exists pre, h = Held v n pre) \/
  exists l el, h = Excl v (pack v true n) l (contents l) /\ word_ok v n /\ holds l el /\ Z.min n C = Z.of_nat (length el).

Lemma calm_settled v n g rest m l f w p x : ainv m (g :: rest) (Asr l f w p x) -> calm v n (g_hold g) ->
  settled CAPACITY EMPTY l v n (g_hold g).
Proof using HC HC31.
  intros H [Hg|(l0 & el & Hg & Hok & Hel & Hn)]; [by left|]. right.
  destruct (excl_state CAPACITY EMPTY HC HC31 g rest m l f w p x H _ _ _ _ Hg) as (_ & <- & _).
  split_and!; [done|done|by exists el].
Qed.

Lemma safe_load_held {A : Type} v n (k : Z -> prog A) g Q : calm v n (g_hold g) ->
  (word_ok v n -> safe (k (pack v true n)) g Q) -> safe (Vis (Load CAS) k) g Q.
Proof using HC HC31.
  intros Hc Hk. apply safe_event. intros m rest [l f w p x] H r ->.
  destruct (settled_word CAPACITY EMPTY HC HC31 g rest m l f w p x H v n (calm_settled _ _ _ _ _ _ _ _ _ _ H Hc))
    as (_ & _ & -> & Hok & _).
  eexists _, _, g, m. split_and!; [done|done|by apply Hk].
Qed.

Lemma release_safe v n g : calm v n (g_hold g) -> 1 <= g_rels g ->
  safe release g (fun z g' => z = v + 1 /\ g' = set_hold Free (set_rels (g_rels g - 1) g)).
Proof using HC HC31.
  intros Hc Hr. unfold release. cbn [bind trigger]. apply (safe_load_held v n); [done|]. intros Hok.
  rewrite (pack_state v n true Hok). apply safe_passert; [done|].
  apply safe_passert; [apply Z.ltb_lt; by apply pack_below|]. cbn [bind trigger].
  apply safe_event. intros m rest [l f w p x] H r ->.
  destruct (ainv_release CAPACITY EMPTY HC HC31 g rest m l f w p x H v n (calm_settled _ _ _ _ _ _ _ _ _ _ H Hc) Hr)
    as (_ & Hw & Hver & Hi).
  destruct (settled_word CAPACITY EMPTY HC HC31 g rest m l f w p x H v n (calm_settled _ _ _ _ _ _ _ _ _ _ H Hc))
    as (_ & _ & -> & _). rewrite Hw.
  eexists tt, _, _, _. split_and!; [done|exact Hi|]. apply safe_ret. by rewrite Hver.
Qed.

Lemma die_safe v n g : calm v n (g_hold g) -> safe (die CAPACITY) g (fun _ g' => g' = set_hold Free g).
Proof using HC HC31.
  intros Hc. unfold die. cbn [bind trigger]. apply (safe_load_held v n); [done|]. intros Hok.
  rewrite (pack_state v n true Hok). apply safe_passert; [done|]. cbn [bind trigger].
  apply safe_event. intros m rest [l f w p x] H r ->.
  destruct (ainv_die CAPACITY EMPTY HC HC31 g rest m l f w p x H v n (calm_settled _ _ _ _ _ _ _ _ _ _ H Hc)) as (_ & Hi).
  eexists tt, _, _, _. split_and!; [done|exact Hi|].
  apply safe_event. intros m' rest' [l' f' w' p' x'] H' r ->. eexists tt, _, _, m'. split_and!; [done| |by apply safe_ret].
  by destruct H'.
Qed.

Lemma release_unchanged_safe v n pre g : g_hold g = Held v n pre -> 0 <= v ->
  safe (release_unchanged CAPACITY) g (fun _ g' => g' = set_hold Free g).
Proof using HC HC31.
  intros Hg Hv. unfold release_unchanged. cbn [bind trigger].
  apply (safe_load_held v n); [left; eauto|]. intros Hok.
  rewrite (pack_state v n true Hok), (pack_version v n true Hok), (pack_insert v n true Hok). apply safe_passert; [done|].
  destruct (Z.leb_spec 1 v) as [H1|H1].
  - apply safe_event. intros m rest [l f w p x] H r ->.
    destruct (ainv_unchanged CAPACITY EMPTY HC HC31 g rest m l f w p x H v n pre Hg H1) as (Hw & Hi).
    destruct (held_prefix CAPACITY EMPTY HC HC31 g rest m l f w p x H v n pre Hg) as (-> & _). rewrite Hw.
    eexists tt, _, _, _. split_and!; [done|exact Hi|by apply safe_ret].
  - assert (v = 0) as -> by lia.
    assert (Hstore : safe (trigger (Store FAA n) ;;; trigger (Store CAS 0)) g (fun _ g' => g' = set_hold Free g)).
    { cbn [bind trigger]. apply safe_event. intros m rest [l f w p x] H r ->.
      destruct (ainv_reopen CAPACITY EMPTY HC HC31 g rest m l f w p x H n pre Hg) as (_ & _ & Hi).
      eexists tt, _, _, _. split_and!; [done|exact Hi|].
      apply safe_event. intros m' rest' [l' f' w' p' x'] H' r ->.
      pose proof (ainv_reopened CAPACITY EMPTY HC HC31 _ rest' m' l' f' w' p' x' H' n eq_refl) as Hi'.
      eexists tt, _, _, _. split_and!; [done|exact Hi'|by apply safe_ret]. }
    destruct (Z.leb_spec n F) as [Hn|Hn]; [exact Hstore|].
    (* a holder of version 0 has at most [FAA_CAPACITY] reservations *)
    intros gs i s [Hi Hinv]. exfalso. destruct (thread_front gs i g Hi) as (rest & Hp & _).
    destruct (inv_perm CAPACITY EMPTY _ _ _ Hp Hinv) as [m Hm]. destruct s as [l f w p x].
    destruct (ainv_reopen CAPACITY EMPTY HC HC31 g rest m l f w p x Hm n pre Hg) as (_ & Hle & _). lia.
Qed.

(** ** Reading filled slots *)

(** The holder's ghost when it has read on. *)
Definition reads v n pre g (g' : ghost V) pre' : Prop :=
  g' = set_hold (Held v n pre') g /\ exists more, pre' = pre ++ more.

Lemma key_load_held {A : Type} v n pre (k : Z -> prog A) i g Q : g_hold g = Held v n pre ->
  0 <= i <= Z.of_nat (length pre) -> i < C ->
  safe (k EMPTY) g Q ->
  (forall e pre', keyed e -> pre' !! Z.to_nat i = Some e -> i < Z.min n C ->
    pre' = pre \/ pre' = pre ++ [e] -> safe (k e.1) (set_hold (Held v n pre') g) Q) ->
  safe (Vis (KeyLoad i) k) g Q.
Proof using HC HC31.
  intros Hg Hi HiC Hempty Hk. apply safe_event. intros m rest [l f w p x] H r ->.
  destruct (holder_mode CAPACITY EMPTY HC HC31 g rest m l f w p x H _ Hg ltac:(done)) as (Hm & _ & (Hs & Hlen & post & Hl & Hkp) & HlC).
  destruct (lookup_lt_is_Some_2 l (Z.to_nat i)) as [e He]; [lia|].
  destruct (list_split_at l (Z.to_nat i) e He) as (l1 & l2 & Hl12 & Hl1).
  cbn [asr_handle]. rewrite (on_slot_mid _ l l1 e l2 i f w p x Hl12 ltac:(lia)). cbn [fst snd]. rewrite <- Hl12.
  destruct (decide (keyed e)) as [Hke|Hke].
  - destruct (own_filled _ _ _ _ Hs _ _ He) as [Hf _]. specialize (Hf Hke). cbn [AsrInv.reserved] in *.
    destruct (decide (i < Z.of_nat (length pre))) as [Hlt|Hge].
    + exists e.1, (Asr l f w p x), g, m. split_and!; [done|done|].
      assert (Hpe : pre !! Z.to_nat i = Some e) by (rewrite Hl, lookup_app_l in He by lia; done).
      pose proof (Hk e pre Hke Hpe ltac:(lia) ltac:(by left)) as Hk'.
      by destruct g; cbn in *; subst.
    + destruct (app_inj_1 l1 pre (e :: l2) post) as [-> <-]; [lia|congruence|].
      eexists e.1, _, _, _. split_and!; [done|apply (ainv_seen CAPACITY EMPTY HC HC31 g rest m l f w p x H v n pre e l2); try done; lia|].
      apply Hk; [done| |lia|by right]. replace (Z.to_nat i) with (length pre) by lia. by apply list_lookup_middle.
  - exists e.1, (Asr l f w p x), g, m. split_and!; [done|done|]. unfold AsrRun.keyed in Hke.
    by destruct (Z.eq_dec e.1 EMPTY) as [->|?].
Qed.

Lemma wait_slot_safe v n fuel : forall pre i g, g_hold g = Held v n pre ->
  0 <= i <= Z.of_nat (length pre) -> i < Z.min n C ->
  safe (wait_slot EMPTY fuel i) g (fun k g' => exists pre' e, reads v n pre g g' pre' /\
    pre' !! Z.to_nat i = Some e /\ keyed e /\ k = e.1).
Proof using HC HC31.
  induction fuel as [|fuel IH]; intros pre i g Hg Hi Hn; [done|]. cbn [wait_slot bind trigger].
  apply (key_load_held v n pre); [done|done|lia| |].
  - rewrite Z.eqb_refl. by apply IH.
  - intros e pre' He Hpe _ Hmore. rewrite keyed_eqb by done. apply safe_ret. exists pre', e. split_and!; try done.
    split; [done|]. destruct Hmore as [->| ->]; [exists []; by rewrite app_nil_r|by exists [e]].
Qed.

Lemma reads_trans v n pre pre1 pre2 g g1 g2 : reads v n pre g g1 pre1 -> reads v n pre1 g1 g2 pre2 -> reads v n pre g g2 pre2.
Proof.
  intros [-> [m1 ->]] [-> [m2 ->]]. split; [done|]. exists (m1 ++ m2). by rewrite app_assoc.
Qed.

Lemma reads_lookup v n pre g g' pre' i e : reads v n pre g g' pre' -> pre !! i = Some e -> pre' !! i = Some e.
Proof. intros [_ [more ->]] H. by apply lookup_app_l_Some. Qed.

Lemma wait_loop_safe v n fuel : forall cnt pre i g, g_hold g = Held v n pre ->
  0 <= i <= Z.of_nat (length pre) -> i + Z.of_nat cnt <= Z.min n C ->
  safe (wait_loop EMPTY fuel i cnt) g (fun _ g' => exists pre', reads v n pre g g' pre' /\ i + Z.of_nat cnt <= Z.of_nat (length pre')).
Proof using HC HC31.
  induction cnt as [|cnt IH]; intros pre i g Hg Hi Hn; cbn [wait_loop].
  - apply safe_ret. exists pre. split; [|lia]. split; [by destruct g; cbn in *; subst|]. exists []. by rewrite app_nil_r.
  - eapply safe_bind; [apply (wait_slot_safe v n fuel pre i g Hg Hi); lia|]. intros k g1 (pre1 & e & Hr & He & _).
    apply lookup_lt_Some in He. pose proof Hr as [-> _].
    eapply safe_mono; [apply (IH pre1 (i + 1)); [done|lia|lia]|]. intros ? g2 (pre2 & Hr2 & Hlen). exists pre2.
    split; [by eapply reads_trans|lia].
Qed.

(** ** Alone with the array *)

(** The accesses of an exclusive holder: no other thread notices them, and they
    notice no other thread. *)
Definition excl_guard (v : Z) (B : Type) (e : asrE V B) : bool :=
  match e with
  | KeyLoad _ | KeyStore _ _ | KeyExchange _ _ | ValLoad _ | ValStore _ _ | Load CAS => true
  | Store CAS x => (x =? pack v true (get_insert_counter x)) && (0 <=? v) && (v <? 2 ^ 31 - 1)
  | _ => false
  end.

#[local] Instance excl_guard_holder v : HolderGuard (excl_guard v).
Proof. by split. Qed.

Lemma excl_guard_stores v : stores_at (excl_guard v) v.
Proof.
  intros n Hok. cbn. rewrite (pack_insert v n true Hok), Z.eqb_refl. destruct Hok as [Hv _]. cbn [andb].
  apply andb_true_iff. split; [apply Z.leb_le|apply Z.ltb_lt]; lia.
Qed.

Lemma insert_counter_range x : 0 <= get_insert_counter x < 2 ^ 32.
Proof. unfold get_insert_counter. change INSERT_MASK with (Z.ones 32). rewrite Z.land_ones by lia. apply Z.mod_pos_bound. lia. Qed.

(** Such an access depends on the array and on the word only. *)
Lemma excl_access v B (e : asrE V B) l w f p x : excl_guard v B e = true ->
  match asr_handle B e (Asr l f w p x) with
  | Some (b, s) => exists l' w', s = Asr l' f w' p x /\ length l' = length l /\
      (w' = w \/ exists n, w' = pack v true n /\ word_ok v n) /\
      forall f' p' x', asr_handle B e (Asr l f' w p' x') = Some (b, Asr l' f' w' p' x')
  | None => True
  end.
Proof.
  assert (Hslot : forall B' (g : Z * V -> B' * (Z * V)) i,
    match on_slot i g (Asr l f w p x) with
    | Some (b, s) => exists l' w', s = Asr l' f w' p x /\ length l' = length l /\
        (w' = w \/ exists n, w' = pack v true n /\ word_ok v n) /\
        forall f' p' x', on_slot i g (Asr l f' w p' x') = Some (b, Asr l' f' w' p' x')
    | None => True
    end).
  { intros B' g i. unfold on_slot. cbn [a_list]. destruct (entry_at l i) as [c|]; cbn [mbind option_bind]; [|done].
    eexists _, w. split_and!; [done|by rewrite length_insert|by left|done]. }
  destruct e as [i|i k|i k|i|i y|c|c y|c d|c a b|c a b]; cbn [excl_guard asr_handle]; try done; try (intros _; apply Hslot).
  - destruct c; try done. intros _. exists l, w. split_and!; [done|done|by left|done].
  - destruct c; try done. rewrite !andb_true_iff, Z.eqb_eq, Z.leb_le, Z.ltb_lt. intros [[Hy Hv0] Hv1].
    exists l, y. split_and!; [done|done| |done]. right. exists (get_insert_counter y). split; [done|]. split; [lia|apply insert_counter_range].
Qed.

Lemma excl_may v B (e : asrE V B) s r : excl_guard v B e = true -> asr_may B e s r -> r = asr_handle B e s.
Proof. by destruct e as [| | | | |[]|[]|[]|[]|[]]. Qed.

(** A run of such accesses is what the thread does among the others. *)
Lemma safe_excl {A : Type} (prg : prog A) v base a l' w' Q : forall g l w,
  g_hold g = Excl v w l base ->
  run (guarded (excl_guard v)) prg (Asr l 0 w 0 0) = Done a (Asr l' 0 w' 0 0) ->
  shift (inv CAPACITY EMPTY) (set_hold (Excl v w' l' base) g) (Q a) -> safe prg g Q.
Proof using HC HC31.
  induction prg as [b|B e k IH| |]; intros g l w Hg; cbn [run]; [|unfold guarded at 1|done|done].
  - intros [= -> -> ->] HQ. cbn [Pool.safe]. by destruct g; cbn in *; subst.
  - destruct (excl_guard v B e) eqn:Hgd; [|done]. intros Hrun HQ.
    pose proof (excl_access v B e l w 0 0 0 Hgd) as Hacc.
    destruct (asr_handle B e (Asr l 0 w 0 0)) as [[b s]|]; [|done].
    destruct Hacc as (l1 & w1 & -> & Hlen & Hw1 & Hall).
    apply safe_event. intros m rest [l2 f w2 p x] H r Hr. apply (excl_may v) in Hr; [|done]. subst r.
    destruct (excl_state CAPACITY EMPTY HC HC31 g rest m l2 f w2 p x H v w l base Hg) as (Hm & -> & -> & HlC). rewrite Hall.
    eexists b, _, _, _. split_and!; [done|apply (ainv_excl CAPACITY EMPTY HC HC31 g rest m l2 f w2 p x H v base l1 w1 Hg); [lia|]|].
    + destruct Hw1 as [->|Hw1]; [|done].
      destruct (holder_mode CAPACITY EMPTY HC HC31 g rest m l2 f w2 p x H _ Hg ltac:(done)) as (_ & (_ & Hn & _) & _). done.
    + apply (IH b (set_hold (Excl v w1 l1 base) g) l1 w1); [done|done|]. exact HQ.
Qed.

Lemma contents_holds l el : holds l el -> contents l = el.
Proof.
  intros (free & -> & _ & Hk & Hv). unfold AsrInv.contents. rewrite filter_app.
  rewrite Forall_forall in Hk, Hv. rewrite (kv_filter_all (fun e => e.1 <> EMPTY) el), (kv_filter_none (fun e => e.1 <> EMPTY) free), app_nil_r; [done| |].
  - intros e He. specialize (Hv e He). unfold vacant in Hv. tauto.
  - intros e He. by apply Hk.
Qed.

(** All slots are filled: the holder knows the array. *)
Lemma go_exclusive {A : Type} (prg : prog A) v n pre g Q : g_hold g = Held v n pre -> Z.min n C <= Z.of_nat (length pre) ->
  (forall l, holds l pre -> word_ok v n -> Z.min n C = Z.of_nat (length pre) ->
    safe prg (set_hold (Excl v (pack v true n) l pre) g) Q) -> safe prg g Q.
Proof using HC HC31.
  intros Hg Hn Hk. eapply (safe_shift _ _ _ _ (fun g' => exists l, holds l pre /\ word_ok v n /\ Z.min n C = Z.of_nat (length pre) /\
    g' = set_hold (Excl v (pack v true n) l pre) g)).
  - apply shift_ghost. intros m rest [l f w p x] H.
    destruct (held_prefix CAPACITY EMPTY HC HC31 g rest m l f w p x H v n pre Hg) as (Hw & Hok & post & Hl & Hle).
    assert (Hn' : Z.of_nat (length pre) = Z.min n C) by lia.
    destruct (held_holds CAPACITY EMPTY HC HC31 g rest m l f w p x H v n pre Hg Hn') as [Hh _].
    pose proof (ainv_exclusive CAPACITY EMPTY HC HC31 g rest m l f w p x H v n pre Hg Hn') as Hi.
    rewrite (contents_holds l pre Hh) in Hi. eexists _, _. split; [exact Hi|]. exists l. rewrite Hw. split_and!; try done; lia.
  - intros g' (l & Hl & Hok & Hn' & ->). by apply Hk.
Qed.

(** The entries are accounted for. *)
Lemma account v n l el base ins outs g Q : g_hold g = Excl v (pack v true n) l base -> holds l el ->
  base ++ ins ≡ₚ el ++ outs ->
  Q (set_hold (Excl v (pack v true n) l el) (set_bag (g_in g ++ ins) (g_out g ++ outs) g)) ->
  shift (inv CAPACITY EMPTY) g Q.
Proof using HC HC31.
  intros Hg Hh Hb HQ. apply shift_ghost. intros m rest [l1 f w p x] H.
  destruct (excl_state CAPACITY EMPTY HC HC31 g rest m l1 f w p x H _ _ _ _ Hg) as (_ & -> & <- & _).
  rewrite <- (contents_holds l1 el Hh) in Hb.
  pose proof (ainv_account CAPACITY EMPTY HC HC31 g rest m l1 f _ p x H v base ins outs Hg Hb) as Hi.
  rewrite (contents_holds l1 el Hh) in Hi. eexists _, _. split; [exact Hi|exact HQ].
Qed.

Lemma calm_excl v n l el g : holds l el -> word_ok v n -> Z.min n C = Z.of_nat (length el) ->
  g_hold g = Excl v (pack v true n) l el -> calm v n (g_hold g).
Proof. intros Hh Hok Hn ->. right. exists l, el. by rewrite (contents_holds l el Hh). Qed.

(** ** Splitting *)

(** The entries of the new vector [self'] have left the shared one; [ins] came
    in. *)
Definition moved ins g (self' : asr V) (g' : ghost V) : Prop :=
  exists v n l el, holds l el /\ word_ok v n /\ Z.min n C = Z.of_nat (length el) /\
    g' = set_hold (Excl v (pack v true n) l el) (set_bag (g_in g ++ ins) (g_out g ++ contents (a_list self')) g).

Lemma moved_ok {A : Type} (a : A) (Q : A -> ghost V -> Prop) v n0 l0 base n' l el self' el' ins g :
  g_hold g = Excl v (pack v true n0) l0 base -> word_ok v n0 -> holds l el -> holds (a_list self') el' ->
  (n' = n0 \/ n' = Z.of_nat (length el)) -> Z.min n' C = Z.of_nat (length el) ->
  base ++ ins ≡ₚ el ++ el' ->
  (forall g', moved ins g self' g' -> Q a g') ->
  shift (inv CAPACITY EMPTY) (set_hold (Excl v (pack v true n') l base) g) (Q a).
Proof using HC HC31.
  intros Hg Hok Hl Hls Hn' Hmin Hb HQ. eapply (account v n' l el base ins el'); [done|done|done|]. apply HQ.
  exists v, n', l, el. split_and!; [done| |done|].
  - pose proof (holds_le _ _ _ _ Hl). destruct Hok. destruct Hn' as [->| ->]; split; lia.
  - by rewrite (contents_holds _ el' Hls).
Qed.

(** The state a locked vector's exclusive holder starts from. *)
Lemma locked_excl v n el : word_ok v n -> Z.min n C = Z.of_nat (length el) -> locked_word CAPACITY v n el.
Proof using HC31. intros. by split_and!. Qed.

Lemma steal_half_safe fuel self v n pre g : g_hold g = Held v n pre -> holds (a_list self) [] -> 0 <= Z.min n C ->
  safe (steal_half CAPACITY EMPTY (S fuel) self) g (moved [] g).
Proof using HC HC31.
  intros Hg Hself Hn0. destruct self as [ls fs ss ps xs]. cbn [a_list] in Hself. unfold steal_half. cbn [bind trigger].
  apply (safe_load_held v n); [left; eauto|]. intros Hok. rewrite (pack_state v n true Hok). apply safe_passert; [done|].
  rewrite (pack_valid v n true Hok). unfold wait_for_insertions.
  eapply safe_bind; [apply (wait_loop_safe v n (S fuel) _ pre 0 g Hg); lia|]. intros ? g1 (el & [-> _] & Hlen).
  eapply (go_exclusive _ v n el); [done|lia|]. intros l Hl _ Hmin. cbn [set_hold].
  pose proof Hl as (free & Hll & _ & Hkel & _).
  destruct (run_steal_half CAPACITY EMPTY fuel l ls el v n 0 0 0 fs ss ps xs (excl_guard_stores v) Hl (locked_excl v n el Hok Hmin) Hself)
    as (A & B & ls' & l' & (Hperm & _) & Hrun & HB & HA).
  unfold steal_half in Hrun. rewrite (run_bind_done _ _ _ _ _ _ (run_load l 0 (pack v true n) 0 0)) in Hrun.
  rewrite (pack_state v n true Hok), run_passert_then, (pack_valid v n true Hok), Hmin in Hrun by done.
  rewrite (run_bind_done _ _ _ _ _ _ (run_wait_for_insertions EMPTY fuel el free l _ 0 (pack v true n) 0 0 Hll eq_refl Hkel)) in Hrun.
  rewrite Hmin. eapply (safe_excl _ v el _ l' (pack v true (Z.of_nat (length A)))); [done|exact Hrun|].
  apply (moved_ok _ _ v n l el _ l' A (Asr ls' (Z.of_nat (length B)) ss ps xs) B []); [done|done|exact HA|exact HB|by right| | |done].
  - pose proof (holds_le _ _ _ _ HA). lia.
  - by rewrite app_nil_r, Hperm.
Qed.

(** The scan of [steal_max] finds the place that it would find alone. *)
Lemma scan_max_held v n fuel : forall cnt pre i mk loc g, g_hold g = Held v n pre ->
  0 <= i <= Z.of_nat (length pre) -> i + Z.of_nat cnt <= Z.min n C ->
  safe (scan_max EMPTY (S fuel) mk loc i cnt) g (fun r g' => exists pre', reads v n pre g g' pre' /\
    i + Z.of_nat cnt <= Z.of_nat (length pre') /\
    forall free l f w p x, l = pre' ++ free ->
      run (guarded (excl_guard v)) (scan_max EMPTY (S fuel) mk loc i cnt) (Asr l f w p x) = Done r (Asr l f w p x)).
Proof using HC HC31.
  induction cnt as [|cnt IH]; intros pre i mk loc g Hg Hi Hn; cbn [scan_max].
  - apply safe_ret. exists pre. split_and!; [|lia|done]. split; [by destruct g; cbn in *; subst|]. exists []. by rewrite app_nil_r.
  - eapply safe_bind; [apply (wait_slot_safe v n (S fuel) pre i g Hg Hi); lia|]. intros k g1 (pre1 & e & Hr & He & Hk & ->).
    pose proof (lookup_lt_Some _ _ _ He). pose proof Hr as [-> _].
    assert (Hstep : forall mk' loc', safe (scan_max EMPTY (S fuel) mk' loc' (i + 1) cnt) (set_hold (Held v n pre1) g) (fun r g' =>
      exists pre', reads v n pre g g' pre' /\ i + Z.of_nat (S cnt) <= Z.of_nat (length pre') /\
      forall free l f w p x, l = pre' ++ free -> exists l1 l2, l = l1 ++ e :: l2 /\ i = Z.of_nat (length l1) /\
        run (guarded (excl_guard v)) (scan_max EMPTY (S fuel) mk' loc' (i + 1) cnt) (Asr l f w p x) = Done r (Asr l f w p x))).
    { intros mk' loc'. eapply safe_mono; [apply (IH pre1 (i + 1)); [done|lia|lia]|]. intros r g2 (pre2 & Hr2 & Hlen & Hrun).
      exists pre2. split_and!; [by eapply reads_trans|lia|]. intros free l f w p x Hl.
      pose proof (reads_lookup _ _ _ _ _ _ _ _ Hr2 He) as He2.
      destruct (list_split_at l (Z.to_nat i) e) as (l1 & l2 & Hl12 & Hl1); [rewrite Hl; by apply lookup_app_l_Some|].
      exists l1, l2. split_and!; [done|lia|by apply (Hrun free)]. }
    destruct ((mk =? EMPTY) || (mk <=? e.1)) eqn:Hb; (eapply safe_mono; [apply Hstep|]); intros r g2 (pre2 & Hr2 & Hlen & Hrun);
      exists pre2; (split_and!; [done|done|]); intros free l f w p x Hl; destruct (Hrun free l f w p x Hl) as (l1 & l2 & Hl12 & Hi12 & <-);
      run_with (run_wait_slot EMPTY (guard:=excl_guard v) fuel l l1 e l2 i f w p x Hl12 Hi12 Hk); by rewrite Hb.
Qed.

Lemma steal_max_safe fuel self v n pre g : g_hold g = Held v n pre -> holds (a_list self) [] -> 1 <= Z.min n C ->
  safe (steal_max CAPACITY EMPTY (S fuel) self) g (moved [] g).
Proof using HC HC31.
  intros Hg Hself Hn1. destruct self as [ls fs ss ps xs]. cbn [a_list] in Hself. unfold steal_max. cbn [bind trigger].
  apply (safe_load_held v n); [left; eauto|]. intros Hok. rewrite (pack_state v n true Hok). apply safe_passert; [done|].
  rewrite (pack_valid v n true Hok). apply safe_passert; [apply Z.ltb_lt; lia|]. apply safe_passert; [apply Z.leb_le; lia|].
  eapply safe_bind; [apply (scan_max_held v n fuel _ pre 0 EMPTY _ g Hg); lia|]. intros loc g1 (el & [-> _] & Hlen & Hscan).
  eapply (go_exclusive _ v n el); [done|lia|]. intros l Hl _ Hmin. cbn [set_hold].
  pose proof Hl as (free & Hll & _).
  assert (Hne : el <> []) by (intros ->; cbn in Hmin; lia).
  destruct (run_steal_max CAPACITY EMPTY fuel l ls el v n 0 0 0 fs ss ps xs (excl_guard_stores v) Hl Hne (locked_excl v n el Hok Hmin) Hself)
    as (A & e & B & ls' & l' & Hel & _ & Hrun & HB & HA & _).
  unfold steal_max in Hrun. rewrite (run_bind_done _ _ _ _ _ _ (run_load l 0 (pack v true n) 0 0)) in Hrun.
  rewrite (pack_state v n true Hok), run_passert_then, (pack_valid v n true Hok), Hmin in Hrun by done.
  rewrite !run_passert_then in Hrun by (apply Z.ltb_lt || apply Z.leb_le; lia).
  rewrite Hmin in Hscan |- *. rewrite (run_bind_done _ _ _ _ _ _ (Hscan free l 0 (pack v true n) 0 0 Hll)) in Hrun.
  pose proof (Permutation_length (fill_hole_perm A e B)) as Hfl. cbn [length] in Hfl. rewrite <- Hel in Hfl.
  eapply (safe_excl _ v el _ l' (pack v true (Z.of_nat (length el) - 1))); [done|exact Hrun|].
  apply (moved_ok _ _ v n l el _ l' (fill_hole A B) (Asr ls' 1 ss ps xs) [e] []); [done|done|exact HA|exact HB|right; lia| | |done].
  - pose proof (holds_le _ _ _ _ HA). lia.
  - rewrite app_nil_r, Hel, <- (fill_hole_perm A e B). solve_Permutation.
Qed.

Lemma count_above_lt el k e0 i : el !! i = Some e0 -> e0.1 <= k -> (length (kv_above k el) < length el)%nat.
Proof.
  intros Hi Hk. apply list_elem_of_lookup_2, list_elem_of_split in Hi as (l1 & l2 & ->).
  rewrite kv_above_app, kv_above_cons, decide_False, !length_app by lia. cbn [length].
  pose proof (length_filter (fun e => k < e.1) l1) as H1. pose proof (length_filter (fun e => k < e.1) l2) as H2.
  unfold kv_above. lia.
Qed.

(** [split_insert] of a key that is not below the first one. *)
Lemma split_insert_safe fuel self e e0 v n more g : g_hold g = Held v n (e0 :: more) -> holds (a_list self) [] ->
  keyed e -> e0.1 <= e.1 -> 1 <= Z.min n C ->
  safe (split_insert CAPACITY EMPTY (S fuel) self e) g (fun r g' => r.1 = true /\ moved [e] g r.2 g').
Proof using HC HC31.
  intros Hg Hself He He0 Hn0. destruct self as [ls fs ss ps xs]. cbn [a_list] in Hself. unfold split_insert. cbn [bind trigger].
  apply safe_passert; [by rewrite keyed_eqb|]. cbn [bind trigger].
  apply (safe_load_held v n); [left; eauto|]. intros Hok. rewrite (pack_state v n true Hok). apply safe_passert; [done|].
  rewrite (pack_valid v n true Hok). apply safe_passert; [apply Z.leb_le; lia|]. unfold wait_for_insertions.
  eapply safe_bind; [apply (wait_loop_safe v n (S fuel) _ (e0 :: more) 0 g Hg); cbn [length]; lia|]. intros ? g1 (el & [-> [tl Htl]] & Hlen).
  eapply (go_exclusive _ v n el); [done|lia|]. intros l Hl _ Hmin. cbn [set_hold].
  pose proof Hl as (free & Hll & _ & Hkel & _). pose proof (holds_le _ _ _ _ Hl) as Hle.
  assert (Hab : (length (kv_above e.1 el) < CAPACITY)%nat).
  { eapply Nat.lt_le_trans; [|exact Hle]. apply (count_above_lt el e.1 e0 0); [by rewrite Htl|done]. }
  destruct (run_split_insert CAPACITY EMPTY fuel l ls el v n 0 0 0 fs ss ps xs e (excl_guard_stores v) Hl (locked_excl v n el Hok Hmin) Hself He Hab)
    as (W' & T & ls' & l' & (Hperm & _) & Hrun & HT & HW).
  unfold split_insert in Hrun. rewrite run_passert_then in Hrun by (by rewrite keyed_eqb).
  rewrite (run_bind_done _ _ _ _ _ _ (run_load l 0 (pack v true n) 0 0)) in Hrun.
  rewrite (pack_state v n true Hok), run_passert_then, (pack_valid v n true Hok), Hmin in Hrun by done.
  rewrite run_passert_then in Hrun by (apply Z.leb_le; lia).
  rewrite (run_bind_done _ _ _ _ _ _ (run_wait_for_insertions EMPTY fuel el free l _ 0 (pack v true n) 0 0 Hll eq_refl Hkel)) in Hrun.
  set (n' := match T with [] => n | _ => Z.of_nat (length W') end) in Hrun. set (self' := Asr ls' _ _ ps xs) in Hrun.
  rewrite Hmin. eapply (safe_excl _ v el (true, self') l' (pack v true n')); [done|exact Hrun|].
  pose proof (Permutation_length Hperm) as Hlp. rewrite length_app in Hlp. pose proof (holds_le _ _ _ _ HW) as HWle.
  apply (moved_ok (true, self') (fun r g' => r.1 = true /\ moved [e] g r.2 g') v n l el n' l' W' self' (e :: T) [e]);
    [done|done|exact HW|exact HT| | | |by intros g' Hg'].
  - unfold n'. destruct T; [by left|by right].
  - unfold n'. destruct T; cbn in Hlp; lia.
  - rewrite <- Hperm. solve_Permutation.
Qed.

(** [first()] by the holder: a key it reads is the one of the first slot. *)
Lemma first_held_safe v n g : g_hold g = Held v n [] ->
  safe first g (fun k g' => k = EMPTY /\ g' = g \/
    exists e, keyed e /\ k = e.1 /\ g' = set_hold (Held v n [e]) g /\ 1 <= Z.min n C).
Proof using HC HC31.
  intros Hg. unfold first. apply (key_load_held v n []); [done|cbn; lia|lia| |].
  - apply safe_ret. by left.
  - intros e pre' He Hpe Hlt [->| ->]; [done|]. apply safe_ret. right. exists e. split_and!; [done|done|done|lia].
Qed.
End AsrHolder.
