(* ===== verification/AsrClient.v ===== *)
(** * AsrClient: programs that share a two-phase multivector

    A client is a program whose events are calls of the public methods.
    [lawful] is what the methods ask of their callers: the lock is released by
    its holder and only by it, a split takes the lock first, [steal_max] is
    called on a vector that cannot be empty, a version number passed to
    [insert_concurrent] was read from the vector, and the counters have room
    for the calls.  [serve] runs a client, and keeps the account of the entries
    it has put in and taken out; a session is a client with its budgets, and
    [start] the pool of all sessions over a vector. *)

From S2P Require Import Prelude KvList Prog ArrayOps AsrWord MultivectorAsr AsrRun AsrMoves Pool.
From S2P Require Import AsrInv AsrSteps AsrMethods AsrHolder.

Local Open Scope Z_scope.

Inductive call (V : Type) : Type -> Type :=
| CInsert (b : list (Z * V)) (version_number : Z) : call V (insert_result * list (Z * V))
| CBeginRead : call V Z
| CConfirmRead (v : Z) : call V bool
| CIsDead : call V bool
| CGetSize : call V Z
| CFirst : call V Z
| CAcquire : call V bool
| CAcquireForSplit : call V Z
| CTryUpgrade (version_number : Z) : call V bool
| CStealMax (self : asr V) : call V (asr V)
| CStealHalf (self : asr V) : call V (asr V)
| CSplitInsert (self : asr V) (entry : Z * V) : call V (bool * asr V)
| CRelease : call V Z
| CReleaseUnchanged : call V unit
| CDie : call V unit.
Arguments CInsert {V} b version_number.
Arguments CBeginRead {V}.
Arguments CConfirmRead {V} v.
Arguments CIsDead {V}.
Arguments CGetSize {V}.
Arguments CFirst {V}.
Arguments CAcquire {V}.
Arguments CAcquireForSplit {V}.
Arguments CTryUpgrade {V} version_number.
Arguments CStealMax {V} self.
Arguments CStealHalf {V} self.
Arguments CSplitInsert {V} self entry.
Arguments CRelease {V}.
Arguments CReleaseUnchanged {V}.
Arguments CDie {V}.

(** The lock as a client knows it: not held; held, with what is known of the
    number of entries and of the first key; held, and the entries moved. *)
Inductive lock_use := Idle | Holding (nonempty : bool) (first_key : option Z) | Changed.

#[export] Instance lock_use_eq_dec : EqDecision lock_use.
Proof. solve_decision. Defined.

Record client (V : Type) := Client {
  c_lock : lock_use;
  c_new : bool;    (** it has seen a version above 0 *)
  c_must : bool;   (** it has the duty to split *)
  c_adds : Z;      (** the entries it may still ask slots for *)
  c_rels : Z;      (** the releases it may still make *)
  c_in : list (Z * V);
  c_out : list (Z * V);
}.
Arguments Client {V} c_lock c_new c_must c_adds c_rels c_in c_out.
Arguments c_lock {V} c.
Arguments c_new {V} c.
Arguments c_must {V} c.
Arguments c_adds {V} c.
Arguments c_rels {V} c.
Arguments c_in {V} c.
Arguments c_out {V} c.

Section AsrClient.
Context (CAPACITY : nat) (EMPTY : Z) {V : Type}.
Implicit Types (c : client V) (g : ghost V) (l el : list (Z * V)).

Local Abbreviation C := (Z.of_nat CAPACITY).
Local Abbreviation F := (FAA_CAPACITY CAPACITY).
Local Abbreviation keyed := (keyed EMPTY).
Local Abbreviation holds := (holds CAPACITY EMPTY).
Local Abbreviation contents := (contents EMPTY).

(** The method a call runs. *)
Definition method (fuel : nat) {B : Type} (e : call V B) : prog (asrE V) B :=
  match e with
  | CInsert b ver => insert_concurrent CAPACITY EMPTY fuel b ver
  | CBeginRead => begin_read
  | CConfirmRead v => confirm_read v
  | CIsDead => is_dead
  | CGetSize => get_size CAPACITY
  | CFirst => first
  | CAcquire => acquire CAPACITY fuel
  | CAcquireForSplit => acquire_for_split CAPACITY fuel
  | CTryUpgrade v => try_upgrade CAPACITY fuel v
  | CStealMax self => steal_max CAPACITY EMPTY fuel self
  | CStealHalf self => steal_half CAPACITY EMPTY fuel self
  | CSplitInsert self e => split_insert CAPACITY EMPTY fuel self e
  | CRelease => release
  | CReleaseUnchanged => release_unchanged CAPACITY
  | CDie => die CAPACITY
  end.

Definition set_lock (u : lock_use) c : client V :=
  Client u (c_new c) (c_must c) (c_adds c) (c_rels c) (c_in c) (c_out c).

Definition set_account ins outs c : client V :=
  Client (c_lock c) (c_new c) (c_must c) (c_adds c) (c_rels c) (c_in c ++ ins) (c_out c ++ outs).

(** When a client may make a call. *)
Definition allowed {B : Type} (e : call V B) c : Prop :=
  match e with
  | CInsert b ver => c_lock c = Idle /\ Forall keyed b /\ Z.of_nat (length b) <= c_adds c /\
      C + Z.of_nat (length b) < 2 ^ 32 /\ (ver <= 0 \/ c_new c = true)
  | CBeginRead | CConfirmRead _ | CIsDead | CGetSize => True
  | CFirst => c_lock c = Idle \/ exists ne, c_lock c = Holding ne None
  | CAcquire | CTryUpgrade _ => c_lock c = Idle
  | CAcquireForSplit => c_lock c = Idle /\ c_must c = true
  | CStealMax self => (exists fk, c_lock c = Holding true fk) /\ holds (a_list self) []
  | CStealHalf self => (exists ne fk, c_lock c = Holding ne fk) /\ holds (a_list self) []
  | CSplitInsert self e => (exists k, c_lock c = Holding true (Some k) /\ k <= e.1) /\ keyed e /\ holds (a_list self) []
  | CRelease => c_lock c <> Idle /\ 1 <= c_rels c
  | CReleaseUnchanged => exists ne fk, c_lock c = Holding ne fk
  | CDie => c_lock c <> Idle
  end.

(** What the client knows when a call has answered. *)
Definition after {B : Type} (e : call V B) : B -> client V -> client V :=
  match e in call _ B return B -> client V -> client V with
  | CInsert b _ => fun r c =>
      Client (c_lock c) (c_new c) (c_must c || bool_decide (r.1 = MUST_SPLIT)) (c_adds c - Z.of_nat (length b)) (c_rels c)
        (c_in c ++ take (length b - length r.2) b) (c_out c)
  | CBeginRead => fun v c =>
      Client (c_lock c) (c_new c || (0 <? v)) (c_must c) (c_adds c) (c_rels c) (c_in c) (c_out c)
  | CConfirmRead _ | CIsDead => fun _ c => c
  | CGetSize => fun _ c => c
  | CFirst => fun k c =>
      match c_lock c with
      | Holding ne None => if k =? EMPTY then c else set_lock (Holding true (Some k)) c
      | _ => c
      end
  | CAcquire | CTryUpgrade _ => fun b c => if b then set_lock (Holding false None) c else c
  | CAcquireForSplit => fun z c => if z =? 0 then c else set_lock (Holding true None) c
  | CStealMax _ | CStealHalf _ => fun self c => set_lock Changed (set_account [] (contents (a_list self)) c)
  | CSplitInsert _ e => fun r c => set_lock Changed (set_account [e] (contents (a_list r.2)) c)
  | CRelease => fun _ c =>
      Client Idle (c_new c) (c_must c) (c_adds c) (c_rels c - 1) (c_in c) (c_out c)
  | CReleaseUnchanged | CDie => fun _ c => set_lock Idle c
  end.

Fixpoint lawful {R : Type} (p : prog (call V) R) c : Prop :=
  match p with
  | Ret _ => c_lock c = Idle
  | Vis e k => allowed e c /\ forall b, lawful (k b) (after e b c)
  | Crash => False
  | Spin => True
  end.

Fixpoint serve (fuel : nat) {R : Type} (p : prog (call V) R) c : prog (asrE V) (R * client V) :=
  match p with
  | Ret r => Ret (r, c)
  | Vis e k => let* b := method fuel e in serve fuel (k b) (after e b c)
  | Crash => Crash
  | Spin => Spin
  end.

(** A client that has done nothing yet. *)
Definition client_new (adds rels : Z) : client V := Client Idle false false adds rels [] [].

(** ** The client's knowledge and the ghost of its thread *)

Definition knows c g : Prop :=
  no_slots g /\ g_new g = c_new c /\ (c_must c = true -> g_must g = true) /\
  g_adds g = c_adds c /\ g_rels g = c_rels c /\ g_in g = c_in c /\ g_out g = c_out c /\
  match c_lock c with
  | Idle => g_hold g = Free
  | Holding ne fk => exists v n pre, g_hold g = Held v n pre /\ 0 <= v /\ 0 <= n /\ (ne = true -> 1 <= Z.min n C) /\
      match fk with None => pre = [] | Some k => exists e more, pre = e :: more /\ e.1 = k end
  | Changed => exists v n, calm CAPACITY EMPTY v n (g_hold g)
  end.

Context (HC : (2 <= CAPACITY)%nat) (HC31 : C < 2 ^ 31).
Local Abbreviation safe := (safe (@asr_may V) (inv CAPACITY EMPTY)).

(** Methods that read. *)
Lemma load_only_safe {A : Type} (k : Z -> A) ct g : safe (let* y := trigger (Load ct) in Ret (k y)) g (fun _ g' => g' = g).
Proof. cbn [bind trigger]. apply safe_load. intros y. by apply safe_ret. Qed.

Lemma get_size_safe g : safe (get_size CAPACITY) g (fun _ g' => g' = g).
Proof using HC HC31.
  unfold get_size. cbn [bind trigger]. apply safe_load. intros f. destruct (f <=? F); [by apply safe_ret|].
  cbn [bind trigger]. apply safe_load_cas; try done. intros w Hw. destruct (Z.eqb_spec w 0) as [|Hne]; [by apply safe_ret|].
  destruct (seen_cases w Hw) as [Hst|[[Hst Hw0]|[[Hst _]|[Hst _]]]]; rewrite Hst; try done; try by apply safe_ret.
  cbn [bind trigger]. do 2 (apply safe_load; intros ?). case_match; [by apply safe_ret|].
  cbn [bind trigger]. do 2 (apply safe_load; intros ?). by apply safe_ret.
Qed.

Lemma first_safe g : safe first g (fun _ g' => g' = g).
Proof using HC HC31.
  apply safe_event. intros m rest [l f w p x] H r ->.
  pose proof (ai_length _ _ _ _ _ H) as Hlen. cbn [a_list] in Hlen. destruct l as [|e l]; [cbn in Hlen; lia|].
  cbn [asr_handle]. rewrite (on_slot_mid _ (e :: l) [] e l 0 f w p x eq_refl eq_refl). cbn [fst snd app].
  eexists _, _, g, m. split_and!; [done|done|by apply safe_ret].
Qed.

Lemma taken_knows c g g' : knows c g -> c_lock c = Idle -> taken CAPACITY g g' -> knows (set_lock (Holding false None) c) g'.
Proof.
  intros (H1 & H2 & H3 & H4 & H5 & H6 & H7 & _) _ (v & n & -> & Hv & Hn & _). split_and!; try done. by exists v, n, [].
Qed.

Lemma moved_knows c g ins self' g' : knows c g -> moved CAPACITY EMPTY ins g self' g' ->
  knows (set_lock Changed (set_account ins (contents (a_list self')) c)) g'.
Proof.
  intros (H1 & H2 & H3 & H4 & H5 & H6 & H7 & _) (v & n & l & el & Hl & Hok & Hmin & ->).
  split_and!; try done; cbn; [by rewrite H6|by rewrite H7|]. exists v, n. cbn.
  right. exists l, el. by rewrite (contents_holds CAPACITY EMPTY l el Hl).
Qed.

Lemma held_calm c g : knows c g -> c_lock c <> Idle -> exists v n, calm CAPACITY EMPTY v n (g_hold g).
Proof.
  intros (_ & _ & _ & _ & _ & _ & _ & H) Hc. destruct (c_lock c); [done| |done].
  destruct H as (v & n & pre & Hg & _). exists v, n. left. eauto.
Qed.

Lemma method_safe fuel {B : Type} (e : call V B) c g : knows c g -> allowed e c ->
  safe (method (S fuel) e) g (fun b g' => knows (after e b c) g').
Proof using HC HC31.
  intros Hk Ha. pose proof Hk as (H1 & H2 & H3 & H4 & H5 & H6 & H7 & H8).
  destruct e as [b ver| |v| | | | | |v|self|self|self e| | |]; cbn [method allowed after] in *.
  - destruct Ha as (Hl & Hb & Hadds & HCb & Hver). rewrite Hl in H8.
    eapply safe_mono; [apply (insert_safe CAPACITY EMPTY HC HC31 b ver); try done; [lia|by rewrite H2]|].
    intros [r left] g' (dn & lo & hi & must & -> & Hlh & -> & Hm & Hms & _). cbn [fst snd] in *.
    split_and!; cbn; try done; try lia.
    + intros [Hc|Hr%bool_decide_eq_true]%orb_true_iff; [by apply Hm, H3|by apply Hms].
    + rewrite length_app, Nat.add_sub, take_app_length. by rewrite H6.
    + by rewrite Hl.
  - eapply safe_mono; [by apply safe_begin_read|]. intros v g'. cbn beta. destruct (Z.ltb_spec 0 v) as [Hv|Hv]; intros ->.
    + rewrite orb_true_r. by split_and!.
    + rewrite orb_false_r. by destruct c.
  - eapply safe_mono; [apply load_only_safe|]. by intros ? g' ->.
  - eapply safe_mono; [apply load_only_safe|]. by intros ? g' ->.
  - eapply safe_mono; [by apply get_size_safe|]. by intros ? g' ->.
  - destruct Ha as [Hl|[ne Hl]]; rewrite Hl in H8 |- *.
    + eapply safe_mono; [by apply first_safe|]. by intros ? g' ->.
    + destruct H8 as (v & n & pre & Hg & Hv & Hn & Hne & ->).
      eapply safe_mono; [by apply (first_held_safe CAPACITY EMPTY HC HC31 v n)|]. intros k g' [[-> ->]|(e & He & -> & -> & Hmin)].
      * by rewrite Z.eqb_refl.
      * rewrite (keyed_eqb EMPTY e He). split_and!; try done. exists v, n, [e]. split_and!; try done. by exists e, [].
  - rewrite Ha in H8. eapply safe_mono; [by apply acquire_safe|]. intros [|] g' Hg; [by eapply taken_knows|by subst].
  - destruct Ha as [Hl Hm]. rewrite Hl in H8. eapply safe_mono; [apply acquire_for_split_safe; [done..|by apply H3]|].
    intros z g'. cbn beta. destruct (z =? 0); [by intros ->|]. intros (v & n & -> & Hv & Hn). split_and!; try done.
    exists v, n, []. split_and!; try done. lia.
  - rewrite Ha in H8. eapply safe_mono; [by apply try_upgrade_safe|]. intros [|] g' Hg; [by eapply taken_knows|by subst].
  - destruct Ha as [[fk Hl] Hself]. rewrite Hl in H8. destruct H8 as (v & n & pre & Hg & Hv & Hn & Hne & _).
    eapply safe_mono; [apply (steal_max_safe CAPACITY EMPTY HC HC31 fuel self v n pre g Hg Hself); auto|].
    intros self' g' Hm. by apply (moved_knows c g).
  - destruct Ha as [(ne & fk & Hl) Hself]. rewrite Hl in H8. destruct H8 as (v & n & pre & Hg & Hv & Hn & _).
    eapply safe_mono; [apply (steal_half_safe CAPACITY EMPTY HC HC31 fuel self v n pre g Hg Hself); lia|].
    intros self' g' Hm. by apply (moved_knows c g).
  - destruct Ha as ((k & Hl & Hke) & He & Hself). rewrite Hl in H8.
    destruct H8 as (v & n & pre & Hg & Hv & Hn & Hne & e0 & more & -> & He0).
    eapply safe_mono; [apply (split_insert_safe CAPACITY EMPTY HC HC31 fuel self e e0 v n more g Hg Hself He); [lia|auto]|].
    intros [r self'] g' [_ Hm]. by apply (moved_knows c g).
  - destruct Ha as [Hl Hr]. destruct (held_calm c g Hk Hl) as (v & n & Hc).
    eapply safe_mono; [apply (release_safe CAPACITY EMPTY HC HC31 v n g Hc); lia|]. intros z g' [_ ->]. split_and!; try done. cbn. lia.
  - destruct Ha as (ne & fk & Hl). rewrite Hl in H8. destruct H8 as (v & n & pre & Hg & Hv & _).
    eapply safe_mono; [by apply (release_unchanged_safe CAPACITY EMPTY HC HC31 v n pre)|]. intros ? g' ->. by split_and!.
  - destruct (held_calm c g Hk Ha) as (v & n & Hc).
    eapply safe_mono; [by apply (die_safe CAPACITY EMPTY HC HC31 v n)|]. intros ? g' ->. by split_and!.
Qed.

Lemma serve_safe fuel {R : Type} (p : prog (call V) R) : forall c g, knows c g -> lawful p c ->
  safe (serve (S fuel) p c) g (fun r g' => knows r.2 g' /\ c_lock r.2 = Idle).
Proof using HC HC31.
  induction p as [r|B e k IH| |]; intros c g Hk Hl; cbn [lawful serve] in *; try done.
  - by apply safe_ret.
  - destruct Hl as [Ha Hl]. eapply safe_bind; [by apply method_safe|]. intros b g' Hk'. by apply IH.
Qed.
End AsrClient.

(** * Any number of programs on one two-phase multivector

    A session is a client of [AsrClient] with the slots and the releases it may
    ask for; [start] is the pool of all sessions over a vector.  The lemmas
    connect the start and the end of a pool with the invariant of [AsrInv]. *)

Record session (V R : Type) := Session { s_prog : prog (call V) R; s_adds : Z; s_rels : Z }.
Arguments Session {V R} s_prog s_adds s_rels.
Arguments s_prog {V R} s.
Arguments s_adds {V R} s.
Arguments s_rels {V R} s.

Section AsrPool.
Context (CAPACITY : nat) (EMPTY : Z) {V R : Type}.
Implicit Types (s : session V R) (ss : list (session V R)) (l el : list (Z * V)) (g : ghost V) (gs : list (ghost V)).

Local Abbreviation C := (Z.of_nat CAPACITY).
Local Abbreviation F := (FAA_CAPACITY CAPACITY).
Local Abbreviation holds := (holds CAPACITY EMPTY).
Local Abbreviation contents := (contents EMPTY).
Local Abbreviation inv := (inv CAPACITY EMPTY).
Local Abbreviation ainv := (ainv CAPACITY EMPTY).

Definition client_of s : client V := client_new (s_adds s) (s_rels s).

(** The threads of some sessions. *)
Definition start (fuel : nat) ss : list (prog (asrE V) (R * client V)) :=
  map (fun s => serve CAPACITY EMPTY fuel (s_prog s) (client_of s)) ss.

(** The sessions call the methods as they ask, and the 64-bit [faa_counter] and
    the 31-bit version have room for their calls. *)
Definition fair ss : Prop :=
  Forall (fun s => lawful CAPACITY EMPTY (s_prog s) (client_of s) /\ 0 <= s_adds s /\ 0 <= s_rels s) ss /\
  F + 1 + foldr Z.add 0 (map s_adds ss) < 2 ^ 64 /\
  foldr Z.add 0 (map s_rels ss) < 2 ^ 31 - 1.

(** What the threads put in and took out. *)
Definition came_in (rs : list (R * client V)) : list (Z * V) := rs ≫= (fun r => c_in r.2).
Definition went_out (rs : list (R * client V)) : list (Z * V) := rs ≫= (fun r => c_out r.2).

Definition ghost_new s : ghost V := Ghost 0 0 None Free false false (s_adds s) (s_rels s) [] [].

Context (HC : (2 <= CAPACITY)%nat) (HC31 : C < 2 ^ 31).

Lemma knows_new s : knows CAPACITY EMPTY (client_of s) (ghost_new s).
Proof. by split_and!. Qed.

Lemma bind_nothing {A B : Type} (f : A -> list B) (xs : list A) : (forall x, x ∈ xs -> f x = []) -> xs ≫= f = [].
Proof.
  induction xs as [|x xs IH]; intros H; [done|]. change (f x ++ (xs ≫= f) = []).
  rewrite (H x) by (by left). apply IH. intros y Hy. apply H. by right.
Qed.

Lemma slots_empty l : holds l [] -> slot_inv EMPTY 0 [] l.
Proof. intros H. by eapply holds_slot_inv. Qed.

Lemma pool_start_inv fuel l ss p x : holds l [] -> fair ss ->
  pool_inv (@asr_may V) inv (fun _ r g => knows CAPACITY EMPTY r.2 g /\ c_lock r.2 = Idle)
    (map ghost_new ss) (start (S fuel) ss, Asr l 0 0 p x).
Proof using HC HC31.
  intros Hl (Hss & Hadds & Hrels). pose proof (F_range CAPACITY HC) as HFC. split_and!; cbn [fst snd].
  - exists MOpen. assert (Hown : owned (map ghost_new ss) = []).
    { apply bind_nothing. intros g (s & -> & _)%list_elem_of_fmap. done. }
    split; cbn [a_list faa_counter cas_counter].
    + by destruct Hl as (_ & _ & Hlen & _).
    + rewrite bind_nothing; [done|]. by intros g (s & -> & _)%list_elem_of_fmap.
    + done.
    + rewrite Hown. cbn. rewrite Z.min_l by lia. by apply slots_empty.
    + rewrite Forall_forall. intros g (s & -> & Hs)%list_elem_of_fmap. rewrite Forall_forall in Hss.
      destruct (Hss s Hs) as (_ & ? & ?). by split.
    + unfold total. rewrite foldr_fmap. rewrite Z.max_r by lia. revert Hadds. rewrite foldr_fmap. done.
    + unfold total. rewrite foldr_fmap. revert Hrels. rewrite foldr_fmap. cbn. lia.
    + cbn [bag]. rewrite (contents_holds CAPACITY EMPTY l [] Hl), !bind_nothing; [done|..];
        by intros g (s & -> & _)%list_elem_of_fmap.
  - unfold start. by rewrite !length_map.
  - intros i m g Hm Hg. apply list_lookup_fmap_Some in Hm as (s & -> & Hs), Hg as (s' & -> & Hs').
    rewrite Hs in Hs'. injection Hs' as <-.
    rewrite Forall_forall in Hss. destruct (Hss s ltac:(by eapply list_elem_of_lookup_2)) as (Hlaw & _).
    apply (serve_safe CAPACITY EMPTY HC HC31); [apply knows_new|done].
Qed.

(** ** The end *)

(** [n] slots are reserved, and all of them are filled. *)
Lemma slot_inv_holds l n : length l = CAPACITY -> slot_inv EMPTY n [] l -> 0 <= n <= C ->
  exists el, holds l el /\ Z.of_nat (length el) = n.
Proof.
  intros Hlen [_ _ Hs] Hn. exists (take (Z.to_nat n) l). split; [|rewrite length_take; lia].
  exists (drop (Z.to_nat n) l). split_and!; [by rewrite take_drop|done| |]; rewrite Forall_forall; intros e [i Hi]%list_elem_of_lookup.
  - apply lookup_take_Some in Hi as [Hi Hlt]. apply (Hs i e Hi). split; [lia|apply not_elem_of_nil].
  - rewrite lookup_drop in Hi. unfold vacant. destruct (Z.eq_dec e.1 EMPTY) as [|Hne]; [done|]. apply (Hs _ e Hi) in Hne. lia.
Qed.

(** When no thread holds the lock or a slot, the filled slots are compact. *)
Lemma rest_compact m gs l f w p x : ainv m gs (Asr l f w p x) -> gs ≫= hold_of = [] -> owned gs = [] ->
  exists el, holds l el /\ get_state w <> LOCKED /\ el ++ (gs ≫= g_out) ≡ₚ gs ≫= g_in /\
    (get_state w <> EXTRACTION -> run asr_handle (get_size CAPACITY) (Asr l f w p x) = Done (Z.of_nat (length el)) (Asr l f w p x)).
Proof using HC HC31.
  intros [Hlen Hhold Hw Hl _ _ _ Hbag] Hh Hown. rewrite Hh in Hhold. rewrite Hown in Hl. cbn [a_list faa_counter cas_counter] in *.
  pose proof (F_range CAPACITY HC) as HFC.
  assert (Hres : forall n, slot_inv EMPTY n [] l -> 0 <= n <= C -> exists el, holds l el /\ Z.of_nat (length el) = n /\
    contents l = el) by (intros n Hs Hn; destruct (slot_inv_holds l n Hlen Hs Hn) as (el & H1 & H2);
      exists el; split_and!; [done|done|by eapply contents_holds]).
  destruct m as [|v n|h|n]; cbn [word_inv list_inv reserved bag holders] in *.
  - destruct Hw as [-> Hf0]. destruct (Hres _ Hl ltac:(lia)) as (el & H1 & H2 & <-). exists (contents l). split_and!; try done.
    intros _. unfold get_size. cbn [bind trigger run asr_handle get_counter faa_counter].
    destruct (Z.leb_spec f F); [cbn [run]; do 2 f_equal; lia|]. cbn. rewrite H2, Z.min_r by lia. done.
  - destruct Hw as (-> & Hv & Hok & Hff). assert (0 <= n) by (unfold word_ok in Hok; lia).
    destruct (Hres _ Hl ltac:(lia)) as (el & H1 & H2 & <-). exists (contents l).
    assert (Hne : (pack v false n =? 0) = false).
    { apply Z.eqb_neq. unfold pack, VERSION_LOWEST_BIT, LOCK_BIT. cbn. lia. }
    rewrite (pack_state v n false Hok), (proj2 (Z.eqb_neq v 0)) by lia. cbn [andb].
    split_and!; try done.
    intros _. unfold get_size. cbn [bind trigger run asr_handle get_counter faa_counter].
    rewrite (proj2 (Z.leb_gt f F)) by lia. cbn [bind trigger run asr_handle get_counter cas_counter]. rewrite Hne.
    rewrite (pack_state v n false Hok), (proj2 (Z.eqb_neq v 0)) by lia. cbn [andb run].
    by rewrite (pack_valid v n false Hok), H2.
  - symmetry in Hhold. by apply Permutation_nil_r in Hhold.
  - destruct Hw as (-> & Hff & Hn). destruct (Hres _ Hl ltac:(lia)) as (el & H1 & H2 & <-). exists (contents l).
    rewrite state_extraction. split_and!; done.
Qed.

Lemma bind_same {A B D : Type} (f : A -> list D) (h : B -> list D) : forall (xs : list A) (ys : list B),
  length xs = length ys -> (forall i x y, ys !! i = Some y -> xs !! i = Some x -> f x = h y) -> xs ≫= f = ys ≫= h.
Proof.
  induction xs as [|x xs IH]; intros [|y ys] Hlen H; try done. change (f x ++ (xs ≫= f) = h y ++ (ys ≫= h)).
  f_equal; [by apply (H 0%nat)|]. apply IH; [by injection Hlen|]. intros i. apply (H (S i)).
Qed.

Lemma pool_at_rest gs l f w p x (rs : list (R * client V)) :
  pool_inv (@asr_may V) inv (fun _ r g => knows CAPACITY EMPTY r.2 g /\ c_lock r.2 = Idle) gs (map Ret rs, Asr l f w p x) ->
  exists el, holds l el /\ get_state w <> LOCKED /\ el ++ went_out rs ≡ₚ came_in rs /\
    (get_state w <> EXTRACTION -> run asr_handle (get_size CAPACITY) (Asr l f w p x) = Done (Z.of_nat (length el)) (Asr l f w p x)).
Proof using HC HC31.
  intros H. destruct (pool_settled _ _ _ _ _ _ H) as (gs' & [m Hm] & Hlen & Hk).
  assert (Hg : forall g, g ∈ gs' -> no_slots g /\ g_hold g = Free).
  { intros g [i Hi]%list_elem_of_lookup. destruct (lookup_lt_is_Some_2 rs i) as [r Hr]; [rewrite <- Hlen; by eapply lookup_lt_Some|].
    destruct (Hk i r g Hr Hi) as [(Hs & _ & _ & _ & _ & _ & _ & Hl) Hidle]. by rewrite Hidle in Hl. }
  unfold went_out, came_in.
  rewrite <- (bind_same g_out (fun r => c_out r.2) gs' rs), <- (bind_same g_in (fun r => c_in r.2) gs' rs);
    try done; try (by intros i g r Hr Hi; destruct (Hk i r g Hr Hi) as [(_ & _ & _ & _ & _ & ? & ? & _) _]).
  apply (rest_compact m gs'); [done| |]; apply bind_nothing; intros g Hin; destruct (Hg g Hin) as [Hs Hh].
  - unfold hold_of. by rewrite Hh.
  - destruct Hs as [Hlh _]. unfold slots_of. by rewrite seqZ_nil by lia.
Qed.
End AsrPool.
