(* ===== verification/AsrAlone.v ===== *)
(** * AsrAlone: a two-phase multivector used by one thread

    What insertions and the methods of the lock do when no other thread
    interferes: the answer and the state they end in, in each phase. *)

From S2P Require Import Prelude KvList Prog ArrayOps AsrWord MultivectorAsr AsrRun AsrMoves.

Local Open Scope Z_scope.

Section AsrAlone.
Context (CAPACITY : nat) (EMPTY : Z) {V : Type}.
Implicit Types (l el b : list (Z * V)) (f w p x v n : Z).

Local Abbreviation C := (Z.of_nat CAPACITY).
Local Abbreviation F := (FAA_CAPACITY CAPACITY).
Local Abbreviation holds := (holds CAPACITY EMPTY).
Local Abbreviation keyed := (keyed EMPTY).
Local Abbreviation alone m s := (run (asr_handle (V:=V)) m s).

(** ** Inserting *)

(** How many of the entries [b] get a slot, from the [n]-th on. *)
Definition quota (limit n : Z) b : nat := Z.to_nat (Z.min (Z.of_nat (length b)) (limit - n)).

Definition answer_of b : insert_result := match b with [] => SUCCESS | _ => MUST_SPLIT end.

Lemma alone_fill limit f w p x : limit <= C -> forall b l el slot, holds l el -> slot = Z.of_nat (length el) -> slot <= limit ->
  Forall keyed b -> exists l', holds l' (el ++ take (quota limit slot b) b) /\
    alone (fill_loop EMPTY slot limit b) (Asr l f w p x) = Done (drop (quota limit slot b) b) (Asr l' f w p x).
Proof.
  intros HlC. induction b as [|e b IH]; intros l el slot Hl Hs Hle Hk; cbn [fill_loop].
  - exists l. rewrite take_nil, app_nil_r, drop_nil. done.
  - apply Forall_cons in Hk as [He Hk]. unfold quota. cbn [length]. destruct (Z.ltb_spec slot limit) as [Hlt|Hge].
    + destruct (run_append CAPACITY EMPTY l el e slot f w p x Hl) as (l1 & Hr & Hl1); [lia|done|done|].
      destruct (IH l1 (el ++ [e]) (slot + 1) Hl1) as (l' & Hl' & Hr'); [rewrite length_app; cbn; lia|lia|done|].
      replace (Z.to_nat (Z.min (Z.of_nat (S (length b))) (limit - slot))) with (S (quota limit (slot + 1) b)) by (unfold quota; lia).
      exists l'. split; [by rewrite <- app_assoc in Hl'|].
      rewrite (keyed_eqb EMPTY e He). cbn [negb passert bind]. run_with Hr. exact Hr'.
    + replace (Z.to_nat _) with 0%nat by lia. exists l. by rewrite take_0, app_nil_r, drop_0.
Qed.

Lemma alone_fill_answer limit f w p x b l el slot : limit <= C -> holds l el -> slot = Z.of_nat (length el) -> slot <= limit ->
  Forall keyed b -> exists l', holds l' (el ++ take (quota limit slot b) b) /\
    alone (let* rest := fill_loop EMPTY slot limit b in match rest with [] => Ret (SUCCESS, []) | _ => Ret (MUST_SPLIT, rest) end)
      (Asr l f w p x) = Done (answer_of (drop (quota limit slot b) b), drop (quota limit slot b) b) (Asr l' f w p x).
Proof.
  intros HlC Hl Hs Hle Hk. destruct (alone_fill limit f w p x HlC b l el slot Hl Hs Hle Hk) as (l' & Hl' & Hr).
  exists l'. split; [done|]. run_with Hr. by destruct (drop (quota limit slot b) b).
Qed.

(** The slot numbers of the two special answers are out of reach. *)
Lemma slot_plain slot : 0 <= slot <= C -> C < 2 ^ 31 -> (slot =? EXTRACT_ONLY) = false /\ (slot =? VERSION_CHECK_FAIL) = false.
Proof. intros. unfold EXTRACT_ONLY, VERSION_CHECK_FAIL. split; apply Z.eqb_neq; lia. Qed.

Context (HC : (1 <= CAPACITY)%nat) (HC31 : C < 2 ^ 31).

(** While the vector is open, with [f] slots asked for so far. *)
Lemma alone_insert_open fuel b ver l el f p x : holds l el -> Forall keyed b -> Z.of_nat (length el) = Z.min f F ->
  f + Z.of_nat (length b) < 2 ^ 63 -> ver <= 0 \/ F <= f ->
  exists l', holds l' (el ++ take (quota F f b) b) /\
    alone (insert_concurrent CAPACITY EMPTY (S fuel) b ver) (Asr l f 0 p x) =
      Done (if F <? f then SPLIT_PENDING else answer_of (drop (quota F f b) b), drop (quota F f b) b)
        (Asr l' (f + Z.of_nat (length b)) 0 p x).
Proof using HC HC31.
  intros Hl Hk Hn Hf Hver. pose proof (FAA_CAPACITY_le CAPACITY HC) as HFC.
  unfold insert_concurrent, reserve_for_insertion. cbn [bind trigger run asr_handle get_counter set_counter faa_counter].
  rewrite u64_small by (unfold is_u64; lia). destruct (Z.ltb_spec f F) as [HfF|HfF].
  - rewrite (proj2 (Z.leb_le ver 0)) by lia. cbn [passert bind]. rewrite Z.eqb_refl.
    destruct (slot_plain f ltac:(lia) HC31) as [-> ->]. rewrite (proj2 (Z.ltb_ge F f)) by lia.
    apply (alone_fill_answer F); [lia|done|lia|lia|done].
  - cbn [reserve_loop bind trigger run asr_handle get_counter cas_counter]. change (get_state 0) with FAA_INSERTION. cbn [bind].
    rewrite Z.eqb_refl. destruct (Z.ltb_spec F f) as [Hlt|Hle].
    + assert (Hq : quota F f b = 0%nat) by (unfold quota; lia). rewrite Hq, take_0, app_nil_r, drop_0.
      exists l. split; [done|].
      rewrite !(proj2 (Z.eqb_neq f _)) by (unfold EXTRACT_ONLY, VERSION_CHECK_FAIL; lia). done.
    + destruct (slot_plain f ltac:(lia) HC31) as [-> ->]. assert (f = F) as -> by lia.
      apply (alone_fill_answer F); [lia|done|lia|lia|done].
Qed.

(** Once [faa_counter] is closed. *)
Lemma alone_counted fuel b ver l f w p x : F < f -> f + Z.of_nat (length b) < 2 ^ 63 ->
  alone (reserve_for_insertion CAPACITY fuel ver (Z.of_nat (length b))) (Asr l f w p x) =
  alone (reserve_loop CAPACITY fuel ver (Z.of_nat (length b)) f) (Asr l (f + Z.of_nat (length b)) w p x).
Proof using HC.
  intros Hf Hlen. pose proof (FAA_CAPACITY_le CAPACITY HC) as HFC. unfold reserve_for_insertion.
  cbn [bind trigger run asr_handle get_counter set_counter faa_counter]. rewrite u64_small by (unfold is_u64; lia).
  by rewrite (proj2 (Z.ltb_ge f F)) by lia.
Qed.

(** In the second phase, at version [v] with [n] slots asked for. *)
Lemma alone_insert_counted fuel b ver v n l el f p x : holds l el -> Forall keyed b ->
  word_ok v n -> 1 <= v -> Z.of_nat (length el) = Z.min n C -> n + Z.of_nat (length b) < 2 ^ 32 - 1 ->
  F < f -> f + Z.of_nat (length b) < 2 ^ 63 -> ver < 2 ^ 63 ->
  exists l' w', holds l' (el ++ (if (0 <=? ver) && negb (v =? ver) then [] else take (quota C n b) b)) /\
    alone (insert_concurrent CAPACITY EMPTY (S fuel) b ver) (Asr l f (pack v false n) p x) =
      Done (if (0 <=? ver) && negb (v =? ver) then (VERSION_CHANGED, b)
            else (if C <? n then SPLIT_PENDING else answer_of (drop (quota C n b) b), drop (quota C n b) b))
        (Asr l' (f + Z.of_nat (length b)) w' p x) /\
    w' = if ((0 <=? ver) && negb (v =? ver)) || (C <? n) then pack v false n else pack v false (n + Z.of_nat (length b)).
Proof using HC HC31.
  intros Hl Hk Hok Hv Hn Hnb Hf Hfb Hver. pose proof Hok as [Hv31 Hn32].
  unfold insert_concurrent.
  assert (Hst : get_state (pack v false n) = CAS_INSERTION).
  { rewrite (pack_state v n false Hok). by rewrite (proj2 (Z.eqb_neq v 0)) by lia. }
  assert (Hchk : (0 <=? ver) && negb (get_version_counter (pack v false n) =? u64 ver) = (0 <=? ver) && negb (v =? ver)).
  { rewrite (pack_version v n false Hok). destruct (Z.leb_spec 0 ver); [|done]. rewrite u64_small by (unfold is_u64; lia). done. }
  set (reserve := reserve_for_insertion _ _ _ _).
  assert (Hres : alone reserve (Asr l f (pack v false n) p x) =
    let s := Asr l (f + Z.of_nat (length b)) in
    if (0 <=? ver) && negb (v =? ver) then Done (VERSION_CHECK_FAIL, ver) (s (pack v false n) p x)
    else if C <? n then Done (n, v) (s (pack v false n) p x)
    else Done (n, v) (s (pack v false (n + Z.of_nat (length b))) p x)).
  { unfold reserve. rewrite (alone_counted (S fuel) b ver l f _ p x Hf Hfb).
    cbn [reserve_loop bind trigger run asr_handle get_counter cas_counter]. rewrite Hst, Hchk.
    destruct ((0 <=? ver) && negb (v =? ver)); [done|]. rewrite (pack_insert v n false Hok), (pack_version v n false Hok).
    rewrite i64_small by lia. destruct (C <? n); [done|].
    change (Z.land (pack v false n) INSERT_MASK) with (get_insert_counter (pack v false n)). rewrite (pack_insert v n false Hok).
    rewrite (proj2 (Z.eqb_neq n INSERT_MASK)) by (unfold INSERT_MASK; lia). cbn [negb passert bind trigger run asr_handle get_counter set_counter cas_counter].
    rewrite Z.eqb_refl. cbn [run]. rewrite (pack_add v n Hok) by lia. done. }
  destruct ((0 <=? ver) && negb (v =? ver)); cbv zeta in Hres; [|destruct (Z.ltb_spec C n) as [HCn|HCn]].
  - exists l, (pack v false n). rewrite app_nil_r. split_and!; [done| |done]. run_with Hres. done.
  - assert (Hq : quota C n b = 0%nat) by (unfold quota; lia). rewrite Hq, take_0, drop_0, app_nil_r.
    exists l, (pack v false n). split_and!; [done| |done]. run_with Hres. rewrite (proj2 (Z.eqb_neq v 0)) by lia.
    rewrite !(proj2 (Z.eqb_neq n _)) by (unfold EXTRACT_ONLY, VERSION_CHECK_FAIL; lia).
    by rewrite (proj2 (Z.ltb_lt C n)) by lia.
  - destruct (alone_fill_answer C (f + Z.of_nat (length b)) (pack v false (n + Z.of_nat (length b))) p x b l el n)
      as (l' & Hl' & Hr); [done|done|lia|lia|done|].
    exists l', (pack v false (n + Z.of_nat (length b))). split_and!; [done| |done]. run_with Hres.
    rewrite (proj2 (Z.eqb_neq v 0)) by lia. destruct (slot_plain n ltac:(lia) HC31) as [-> ->].
    by rewrite (proj2 (Z.ltb_ge C n)) by lia.
Qed.

Lemma alone_insert_dead fuel b ver l f p x : F < f -> f + Z.of_nat (length b) < 2 ^ 63 ->
  alone (insert_concurrent CAPACITY EMPTY (S fuel) b ver) (Asr l f EXTRACTION_STATE_VALUE p x) =
  Done (DEAD_VECTOR, b) (Asr l (f + Z.of_nat (length b)) EXTRACTION_STATE_VALUE p x).
Proof using HC.
  intros Hf Hlen. unfold insert_concurrent.
  assert (Hr : alone (reserve_for_insertion CAPACITY (S fuel) ver (Z.of_nat (length b))) (Asr l f EXTRACTION_STATE_VALUE p x) =
    Done (EXTRACT_ONLY, ver) (Asr l (f + Z.of_nat (length b)) EXTRACTION_STATE_VALUE p x)).
  { by rewrite (alone_counted (S fuel) b ver l f _ p x Hf Hlen). }
  by run_with Hr.
Qed.

(** ** The lock *)

(** Closing the first phase: [Z.min f F] slots stay reserved. *)
Lemma alone_transition fuel l f w p x : 0 <= f ->
  alone (faa_to_cas_transition CAPACITY (S fuel)) (Asr l f w p x) =
  Done tt (Asr l (Z.max f (F + 1)) (pack 0 true (Z.min f F)) p x).
Proof using HC HC31.
  intros Hf. pose proof (FAA_CAPACITY_le CAPACITY HC) as HFC. unfold faa_to_cas_transition.
  assert (Hw : forall n, 0 <= n <= F -> u64 (LOCK_BIT + n) = pack 0 true n).
  { intros n Hn. rewrite u64_small; unfold pack, is_u64, LOCK_BIT; cbn; lia. }
  cbn [bind trigger run asr_handle get_counter faa_counter transition_loop]. destruct (Z.leb_spec f F) as [Hle|Hgt].
  - cbn [bind trigger run asr_handle get_counter set_counter faa_counter]. rewrite Z.eqb_refl. cbn [bind run].
    cbn [bind trigger run asr_handle set_counter]. rewrite Hw, (Z.max_r f), (Z.min_l f) by lia. done.
  - cbn [bind trigger run asr_handle set_counter]. rewrite Hw, (Z.max_l f), (Z.min_r f) by lia. done.
Qed.

Lemma alone_acquire_open fuel l f p x : 0 <= f ->
  alone (acquire CAPACITY (S fuel)) (Asr l f 0 p x) = Done true (Asr l (Z.max f (F + 1)) (pack 0 true (Z.min f F)) p x).
Proof using HC HC31.
  intros Hf. unfold acquire. cbn [bind trigger run asr_handle get_counter cas_counter acquire_loop].
  change (is_insertion_state (get_state 0)) with true. cbn [bind trigger run asr_handle get_counter set_counter cas_counter Z.eqb].
  change (get_version_counter 0 =? 0) with true. cbn [bind]. run_with (alone_transition fuel l f (Z.lor 0 LOCK_BIT) p x Hf). done.
Qed.

Section Counting.
Context (v n : Z) (Hok : word_ok v n) (Hv : 1 <= v).

Lemma counting_state : is_insertion_state (get_state (pack v false n)) = true.
Proof using HC HC31 Hok Hv. rewrite (pack_state v n false Hok). by rewrite (proj2 (Z.eqb_neq v 0)) by lia. Qed.

Lemma alone_acquire_counted fuel l f p x :
  alone (acquire CAPACITY (S fuel)) (Asr l f (pack v false n) p x) = Done true (Asr l f (pack v true n) p x).
Proof using HC HC31 Hok Hv.
  unfold acquire. cbn [bind trigger run asr_handle get_counter cas_counter acquire_loop]. rewrite counting_state.
  cbn [bind trigger run asr_handle get_counter set_counter cas_counter]. rewrite Z.eqb_refl. cbn [bind run].
  rewrite (pack_version v n false Hok), (proj2 (Z.eqb_neq v 0)), (pack_lor v n Hok) by lia. done.
Qed.

Lemma alone_split_counted fuel l f p x :
  alone (acquire_for_split CAPACITY (S fuel)) (Asr l f (pack v false n) p x) =
  if n <=? C then Done 0 (Asr l f (pack v false n) p x) else Done (Z.of_nat (CAPACITY / 2)) (Asr l f (pack v true n) p x).
Proof using HC HC31 Hok Hv.
  unfold acquire_for_split. cbn [bind trigger run asr_handle get_counter cas_counter split_loop]. rewrite counting_state.
  rewrite (pack_version v n false Hok), (pack_insert v n false Hok), (proj2 (Z.ltb_lt 0 v)) by lia. cbn [andb].
  destruct (Z.leb_spec n C); [done|]. cbn [bind trigger run asr_handle get_counter set_counter cas_counter].
  rewrite Z.eqb_refl. cbn [bind run]. rewrite (pack_version v n false Hok), (pack_insert v n false Hok), (proj2 (Z.eqb_neq v 0)), (pack_lor v n Hok) by lia.
  rewrite (proj2 (Z.ltb_lt C n)) by lia. done.
Qed.

Lemma alone_upgrade_counted fuel ver l f p x :
  alone (try_upgrade CAPACITY (S fuel) ver) (Asr l f (pack v false n) p x) =
  if ver =? v then Done true (Asr l f (pack v true n) p x) else Done false (Asr l f (pack v false n) p x).
Proof using HC HC31 Hok Hv.
  unfold try_upgrade. cbn [bind trigger run asr_handle get_counter cas_counter].
  rewrite counting_state, (pack_version v n false Hok), Z.eqb_sym. cbn [negb]. rewrite orb_false_r.
  destruct (Z.eqb_spec ver v); cbn [negb]; [|done]. cbn [bind trigger run asr_handle get_counter set_counter cas_counter].
  rewrite Z.eqb_refl. cbn [bind run]. rewrite (proj2 (Z.eqb_neq v 0)), (pack_take v n Hok) by lia. done.
Qed.

Lemma alone_unchanged_counted l f p x :
  alone (release_unchanged CAPACITY) (Asr l f (pack v true n) p x) = Done tt (Asr l f (pack v false n) p x).
Proof using HC HC31 Hok Hv.
  unfold release_unchanged. cbn [bind trigger run asr_handle get_counter cas_counter].
  rewrite (pack_state v n true Hok), (pack_version v n true Hok), (proj2 (Z.leb_le 1 v)), (pack_clear v n Hok) by lia. done.
Qed.
End Counting.

Lemma alone_split_open fuel l f p x : 0 <= f ->
  alone (acquire_for_split CAPACITY (S fuel)) (Asr l f 0 p x) = Done 1 (Asr l (Z.max f (F + 1)) (pack 0 true (Z.min f F)) p x).
Proof using HC HC31.
  intros Hf. unfold acquire_for_split. cbn [bind trigger run asr_handle get_counter cas_counter split_loop].
  change (is_insertion_state (get_state 0)) with true. change (get_version_counter 0) with 0. cbn [Z.ltb Z.compare andb].
  cbn [bind trigger run asr_handle get_counter set_counter cas_counter Z.eqb].
  change (get_version_counter 0 =? 0) with true. change (get_insert_counter 0 =? 0) with true. cbn [passert bind].
  run_with (alone_transition fuel l f (Z.lor 0 LOCK_BIT) p x Hf). done.
Qed.

Lemma alone_upgrade_open fuel ver l f p x : 0 <= f ->
  alone (try_upgrade CAPACITY (S fuel) ver) (Asr l f 0 p x) =
  if ver =? 0 then Done true (Asr l (Z.max f (F + 1)) (pack 0 true (Z.min f F)) p x) else Done false (Asr l f 0 p x).
Proof using HC HC31.
  intros Hf. unfold try_upgrade. cbn [bind trigger run asr_handle get_counter cas_counter].
  change (is_insertion_state (get_state 0)) with true. change (get_version_counter 0) with 0. rewrite Z.eqb_sym. cbn [negb]. rewrite orb_false_r.
  destruct (Z.eqb_spec ver 0); cbn [negb]; [|done]. cbn [bind trigger run asr_handle get_counter set_counter cas_counter Z.eqb andb].
  run_with (alone_transition fuel l f (u64 (0 + LOCK_BIT)) p x Hf). done.
Qed.

Section Locked.
Context (v n : Z) (Hok : word_ok v n).

Lemma alone_release l f p x :
  alone release (Asr l f (pack v true n) p x) = Done (v + 1) (Asr l f (pack (v + 1) false n) p x).
Proof using HC HC31 Hok.
  assert (Hver : get_version_counter (pack (v + 1) false n) = v + 1).
  { unfold get_version_counter, pack, word_ok, VERSION_LOWEST_BIT, LOCK_BIT in *. symmetry. apply (Z.div_unique _ _ _ n); cbn; lia. }
  unfold release. cbn [bind trigger run asr_handle get_counter cas_counter].
  rewrite (pack_state v n true Hok), (proj2 (Z.ltb_lt _ _) (pack_below v n true Hok)), (pack_release v n Hok), Hver. done.
Qed.

Lemma alone_unchanged_open l f p x : v = 0 -> n <= F ->
  alone (release_unchanged CAPACITY) (Asr l f (pack v true n) p x) = Done tt (Asr l n 0 p x).
Proof using HC HC31 Hok.
  intros -> Hn. unfold release_unchanged. cbn [bind trigger run asr_handle get_counter cas_counter].
  rewrite (pack_state 0 n true Hok), (pack_version 0 n true Hok), (pack_insert 0 n true Hok). 
  rewrite (proj2 (Z.leb_le n F)) by done. done.
Qed.

Lemma alone_die l f p x :
  alone (die CAPACITY) (Asr l f (pack v true n) p x) = Done tt (Asr l f EXTRACTION_STATE_VALUE (Z.min n C) x).
Proof using HC HC31 Hok.
  unfold die. cbn [bind trigger run asr_handle get_counter cas_counter].
  rewrite (pack_state v n true Hok). cbn [passert bind run trigger asr_handle set_counter]. by rewrite (pack_valid v n true Hok).
Qed.
End Locked.

(** ** [initialize] *)

Lemma alone_clear f w p x : forall post pre,
  alone (clear_loop EMPTY (Z.of_nat (length pre)) (length post)) (Asr (pre ++ post) f w p x) =
  Done tt (Asr (pre ++ map (fun e => (EMPTY, e.2)) post) f w p x).
Proof using HC.
  induction post as [|e post IH]; intros pre; [done|]. cbn [clear_loop length map].
  run_with (run_guarded any_access _ _ _ _ (run_key_store (guard:=any_access) (pre ++ e :: post) pre post e _ f w p x eq_refl eq_refl EMPTY)).
  specialize (IH (pre ++ [(EMPTY, e.2)])). rewrite length_app, <- !app_assoc in IH. cbn [length app] in IH.
  by replace (Z.of_nat (length pre) + 1) with (Z.of_nat (length pre + 1)) by lia.
Qed.

Lemma alone_initialize l f w p x : length l = CAPACITY ->
  exists l', alone (initialize CAPACITY EMPTY) (Asr l f w p x) = Done tt (Asr l' 0 0 0 0) /\ holds l' [].
Proof using HC.
  intros Hl. exists (map (fun e => (EMPTY, e.2)) l). split.
  - unfold initialize. rewrite <- Hl. run_with (alone_clear f w p x l []). done.
  - eexists. split_and!; [done|by rewrite length_map|done|]. apply Forall_forall. by intros e (e0 & -> & _)%list_elem_of_fmap.
Qed.
End AsrAlone.
