(* ===== verification/AsrExtract.v ===== *)
(** * AsrExtract: taking the entries out of a dying vector

    After [die] the entries are taken out with a [fetch_add] of
    [extraction_counter].  The ghost of a thread lists the slots it has been
    given and the extractions it may still make; the slots of all threads are
    the first ones, each given once. *)

From S2P Require Import Prelude KvList Prog ArrayOps AsrWord MultivectorAsr AsrRun Pool.

Local Open Scope Z_scope.

Record taker := Taker { t_slots : list nat; t_left : nat }.

Section AsrExtract.
Context (CAPACITY : nat) (EMPTY : Z) {V : Type} (l el : list (Z * V)) (N : nat).
Implicit Types (t : taker) (ts : list taker).

(** [N] extractions are made in all. *)
Context (Hl : holds CAPACITY EMPTY l el) (HN : Z.of_nat N < 2 ^ 64).

(** [n] extractions, one after the other: the entries they answer. *)
Fixpoint extract_many (fuel n : nat) : prog (asrE V) (list (Z * V)) :=
  match n with
  | O => Ret []
  | S n' =>
      let* e := extract EMPTY fuel in
      let* rest := extract_many fuel n' in
      Ret (match e with Some e => e :: rest | None => rest end)
  end.

Definition taken_slots ts : list nat := ts ≫= t_slots.
Definition left_of ts : nat := foldr (fun t n => (t_left t + n)%nat) 0%nat ts.

(** The entries of some slots. *)
Definition entries_of (slots : list nat) : list (Z * V) := omap (fun i => el !! i) slots.

Definition extract_inv ts (s : asr V) : Prop :=
  exists f w x, s = Asr l f w (Z.of_nat (length el)) (Z.of_nat x) /\
    taken_slots ts ≡ₚ seq 0 x /\ (x + left_of ts)%nat = N.

Lemma extract_inv_perm ts ts' s : ts ≡ₚ ts' -> extract_inv ts s -> extract_inv ts' s.
Proof using.
  intros Hp (f & w & x & -> & Hs & Hx). assert (Hleft : left_of ts' = left_of ts).
  { unfold left_of. clear -Hp. induction Hp; cbn [foldr]; lia. }
  exists f, w, x. rewrite Hleft. split_and!; [done| |done]. unfold taken_slots in *. by rewrite <- Hp.
Qed.

Local Abbreviation safe := (safe (@asr_may V) extract_inv).

(** A load that the invariant answers. *)
Lemma safe_look {A B : Type} (e : asrE V B) (k : B -> prog (asrE V) A) b t Q :
  (forall f w x r, asr_may B e (Asr l f w (Z.of_nat (length el)) x) r -> r = Some (b, Asr l f w (Z.of_nat (length el)) x)) ->
  safe (k b) t Q -> safe (Vis e k) t Q.
Proof using.
  intros He Hk ts i s [Hi Hinv] r Hr. pose proof Hinv as (f & w & x & -> & _). apply He in Hr as ->.
  exists b, (Asr l f w (Z.of_nat (length el)) (Z.of_nat x)), t. split_and!; [done| |done]. by rewrite list_insert_id.
Qed.

(** Taking the next slot. *)
Lemma safe_claim {A : Type} (k : Z -> prog (asrE V) A) t Q : (1 <= t_left t)%nat ->
  (forall i, safe (k (Z.of_nat i)) (Taker (t_slots t ++ [i]) (t_left t - 1)) Q) ->
  safe (Vis (FetchAdd EXTRACTED 1) k) t Q.
Proof using HN.
  intros Ht Hk ts i s [Hi Hinv] r ->. destruct (thread_front ts i t Hi) as (rest & Hp & Hp').
  destruct (extract_inv_perm _ _ _ Hp Hinv) as (f & w & x & -> & Hs & Hx).
  unfold taken_slots, left_of in Hs, Hx. cbn [foldr] in Hx. change (t_slots t ++ taken_slots rest ≡ₚ seq 0 x) in Hs.
  cbn [asr_handle get_counter set_counter extraction_counter]. rewrite u64_small by (unfold is_u64; lia).
  exists (Z.of_nat x), (Asr l f w (Z.of_nat (length el)) (Z.of_nat (S x))), (Taker (t_slots t ++ [x]) (t_left t - 1)).
  split_and!; [do 2 f_equal; f_equal; lia| |by apply Hk].
  apply (extract_inv_perm (Taker (t_slots t ++ [x]) (t_left t - 1) :: rest)); [by rewrite Hp'|].
  exists f, w, (S x). split_and!; [done| |unfold left_of; cbn [foldr t_left]; lia].
  change ((t_slots t ++ [x]) ++ taken_slots rest ≡ₚ seq 0 (S x)). rewrite seq_S, <- Hs. solve_Permutation.
Qed.

Lemma extract_safe fuel t : (1 <= t_left t)%nat ->
  safe (extract EMPTY (S fuel)) t (fun r t' => exists i, t' = Taker (t_slots t ++ [i]) (t_left t - 1) /\ r = el !! i).
Proof using Hl HN.
  intros Ht. unfold extract. cbn [bind trigger]. apply safe_claim; [done|]. intros i.
  cbn [bind trigger]. apply (safe_look _ _ (Z.of_nat (length el))); [by intros f w x r ->|].
  destruct (Z.leb_spec (Z.of_nat (length el)) (Z.of_nat i)) as [Hle|Hlt].
  - apply safe_ret. exists i. by rewrite (lookup_ge_None_2 el i) by lia.
  - destruct (lookup_lt_is_Some_2 el i) as [e He]; [lia|]. pose proof Hl as (free & Hel & _ & Hk & _).
    assert (Hat : entry_at l (Z.of_nat i) = Some e).
    { unfold entry_at. rewrite (proj2 (Z.ltb_ge _ _)), Nat2Z.id, Hel by lia. by apply lookup_app_l_Some. }
    assert (Hsame : <[Z.to_nat (Z.of_nat i) := e]> l = l).
    { rewrite Nat2Z.id. apply list_insert_id. rewrite Hel. by apply lookup_app_l_Some. }
    assert (Hne : (e.1 =? EMPTY) = false).
    { apply keyed_eqb. rewrite Forall_forall in Hk. by eapply Hk, list_elem_of_lookup_2. }
    assert (Hkey : forall f w x r, asr_may Z (KeyLoad (Z.of_nat i)) (Asr l f w (Z.of_nat (length el)) x) r ->
      r = Some (e.1, Asr l f w (Z.of_nat (length el)) x)).
    { intros f w x r ->. cbn [asr_handle]. unfold on_slot. cbn [a_list]. rewrite Hat. cbn. by rewrite Hsame. }
    cbn [wait_slot bind trigger]. apply (safe_look _ _ e.1); [exact Hkey|]. rewrite Hne.
    cbn [bind trigger unwrap]. apply (safe_look _ _ e.1); [exact Hkey|]. cbn [bind trigger].
    apply (safe_look _ _ e.2).
    { intros f w x r ->. cbn [asr_handle]. unfold on_slot. cbn [a_list]. rewrite Hat. cbn. by rewrite Hsame. }
    apply safe_ret. exists i. rewrite He. by destruct e.
Qed.

Lemma extract_many_safe fuel : forall n t, (n <= t_left t)%nat ->
  safe (extract_many (S fuel) n) t (fun r t' => exists slots, t' = Taker (t_slots t ++ slots) (t_left t - n) /\ r = entries_of slots).
Proof using Hl HN.
  induction n as [|n IH]; intros t Hn; cbn [extract_many].
  - apply safe_ret. exists []. rewrite app_nil_r, Nat.sub_0_r. by destruct t.
  - eapply safe_bind; [apply (extract_safe fuel t); lia|]. intros e t1 (i & -> & ->).
    eapply safe_bind; [apply IH; cbn; lia|]. intros rest t2 (slots & -> & ->). cbn [t_slots t_left].
    apply safe_ret. exists (i :: slots). split.
    + rewrite <- app_assoc. f_equal. lia.
    + unfold entries_of. cbn [omap list_omap]. by destruct (el !! i).
Qed.

(** ** The pool *)

Definition extractors (fuel : nat) (ns : list nat) : list (prog (asrE V) (list (Z * V))) := map (extract_many fuel) ns.

Lemma extract_start fuel ns f w : foldr Nat.add 0%nat ns = N ->
  pool_inv (@asr_may V) extract_inv (fun _ r t => r = entries_of (t_slots t) /\ t_left t = 0%nat)
    (map (Taker []) ns) (extractors (S fuel) ns, Asr l f w (Z.of_nat (length el)) 0).
Proof using Hl HN.
  intros Hn. split_and!; cbn [fst snd].
  - exists f, w, 0%nat. split_and!; [done| |].
    + unfold taken_slots. clear. by induction ns.
    + unfold left_of. by rewrite foldr_fmap.
  - unfold extractors. by rewrite !length_map.
  - intros i m t Hm Ht. apply list_lookup_fmap_Some in Hm as (n & -> & Hi), Ht as (n' & -> & Hi').
    rewrite Hi in Hi'. injection Hi' as <-.
    eapply safe_mono; [by apply extract_many_safe|]. intros r t' (slots & -> & ->). cbn. by rewrite Nat.sub_diag.
Qed.

Lemma entries_of_seq x : entries_of (seq 0 x) = take x el.
Proof using N.
  unfold entries_of. induction x as [|x IH]; [done|]. rewrite seq_S, omap_app, IH. cbn [omap list_omap Nat.add].
  destruct (el !! x) as [e|] eqn:He; [by rewrite (take_S_r _ _ _ He)|].
  apply lookup_ge_None in He. rewrite app_nil_r, !take_ge by lia. done.
Qed.

(** The answers of threads that have ended. *)
Lemma extract_end ts rs s :
  pool_inv (@asr_may V) extract_inv (fun _ r t => r = entries_of (t_slots t) /\ t_left t = 0%nat) ts (map Ret rs, s) ->
  extraction_counter s = Z.of_nat N /\ concat rs ≡ₚ take N el.
Proof using Hl HN.
  intros H. destruct (pool_settled _ _ _ _ _ _ H) as (ts' & (f & w & x & -> & Hs & Hx) & Hlen & Hr).
  assert (Heq : concat rs = entries_of (taken_slots ts') /\ left_of ts' = 0%nat).
  { clear H Hs Hx. unfold taken_slots. revert rs Hlen Hr. induction ts' as [|t ts' IH]; intros [|r rs] Hlen Hr; try done.
    cbn [concat]. destruct (Hr 0%nat r t eq_refl eq_refl) as [-> Hz]. destruct (IH rs) as [-> Hl0]; [by injection Hlen|intros i; apply (Hr (S i))|].
    split; [unfold entries_of; by rewrite <- omap_app|]. change (left_of (t :: ts')) with (t_left t + left_of ts')%nat. lia. }
  destruct Heq as [-> Hz]. cbn [extraction_counter]. rewrite Hz, Nat.add_0_r in Hx. subst x.
  split; [done|]. rewrite <- entries_of_seq. unfold entries_of. by rewrite Hs.
Qed.
End AsrExtract.
