(* ===== verification/Asr.v ===== *)
(** * Asr: the theorems on the two-phase multivector *)

From S2P Require Import Prelude KvList Prog ArrayOps AsrWord MultivectorAsr AsrRun AsrMoves Pool.
From S2P Require Import AsrInv AsrSteps AsrMethods AsrHolder AsrClient AsrAlone AsrExtract.

Local Open Scope Z_scope.

(** ** Two sessions on a vector of three slots *)

Definition sample_vector : asr Z := Asr (replicate 3 (-1, 0)) 0 0 0 0.

(** It inserts three entries; when it must split the vector it takes half of the
    entries away. *)
Definition sample_splitter : session Z unit := Session (
  let* r := trigger (CInsert [(5, 50); (3, 30); (9, 90)] (-1)) in
  if bool_decide (r.1 = MUST_SPLIT) then
    let* taken := trigger CAcquireForSplit in
    if taken =? 0 then Ret tt
    else
      trigger (CStealHalf sample_vector) ;;;
      trigger CRelease ;;; Ret tt
  else Ret tt) 3 1.

(** It inserts one entry, then takes the lock to read the minimum, and later
    inserts under the version it saw. *)
Definition sample_inserter : session Z unit := Session (
  trigger (CInsert [(7, 70)] (-1)) ;;;
  let* taken := trigger CAcquire in
  (if taken : bool then trigger CFirst ;;; trigger CReleaseUnchanged else Ret tt) ;;;
  let* v := trigger CBeginRead in
  if 0 <? v then trigger (CInsert [(4, 40)] v) ;;; Ret tt else Ret tt) 2 0.

Lemma sample_splitter_lawful : lawful 3 (-1) (s_prog sample_splitter) (client_of sample_splitter).
Proof.
  cbn [s_prog sample_splitter bind trigger lawful]. split.
  - split_and!; try done; [by repeat constructor|by left].
  - intros [r rest]. cbn [fst]. destruct (bool_decide (r = MUST_SPLIT)) eqn:Hr; [|done].
    cbn [bind trigger lawful]. split; [split; [done|]; cbn; by rewrite Hr|]. intros z.
    destruct (z =? 0) eqn:Hz; [cbn; by rewrite Hz|]. cbn [bind trigger lawful after]. rewrite Hz. split.
    { split; [by eexists _, _|]. exists (replicate 3 (-1, 0)). split_and!; [done..|by repeat constructor]. }
    intros self. split; [by split|]. intros z'. done.
Qed.

Lemma sample_inserter_lawful : lawful 3 (-1) (s_prog sample_inserter) (client_of sample_inserter).
Proof.
  cbn [s_prog sample_inserter bind trigger lawful]. split.
  - split_and!; try done; [by repeat constructor|by left].
  - intros r. split; [done|]. intros [|]; cbn [bind trigger lawful].
    + split; [right; by eexists|]. intros k. split.
      { cbn. destruct (k =? -1); by eexists _, _. }
      intros []. split; [done|]. intros v. destruct (0 <? v) eqn:Hv; [|by cbn; destruct (k =? -1)].
      cbn [bind trigger lawful]. split; [|by cbn; destruct (k =? -1)].
      cbn. rewrite Hv. destruct (k =? -1); cbn; (split_and!; try done; [by repeat constructor|right; by rewrite ?orb_true_r]).
    + split; [done|]. intros v. destruct (0 <? v) eqn:Hv; [|done]. cbn [bind trigger lawful]. split; [|done].
      cbn. rewrite Hv. split_and!; try done; [by repeat constructor|right; by rewrite ?orb_true_r].
Qed.

Definition sample_sessions : list (session Z unit) := [sample_splitter; sample_inserter].

Lemma sample_fair : fair 3 (-1) sample_sessions.
Proof.
  split_and!; [|done|done]. unfold sample_sessions. repeat (apply Forall_cons; split); [| |by apply Forall_nil].
  - by split; [apply sample_splitter_lawful|].
  - by split; [apply sample_inserter_lawful|].
Qed.

Definition sample_start : pool := (start 3 (-1) 40 sample_sessions, sample_vector).

Definition sample_schedule : list nat := concat (replicate 45 [0%nat; 0%nat; 1%nat]).

Definition sample_end : pool := pool_run asr_handle sample_schedule sample_start.

Lemma act_may {V} B (e : asrE V B) (s : asr V) : asr_may B e s (asr_handle B e s).
Proof. destruct e; cbn [asr_may]; auto. Qed.

Lemma sample_steps : pool_steps (@asr_may Z) sample_start sample_end.
Proof. apply pool_run_steps, act_may. Qed.

Lemma sample_free : holds 3 (-1) (replicate 3 (-1, 0)) [].
Proof. exists (replicate 3 (-1, 0)). split_and!; [done..|by repeat constructor]. Qed.

Definition sample_results : list (unit * client Z) :=
  [(tt, Client Idle false true 0 0 [(5, 50); (3, 30)] [(5, 50)]);
   (tt, Client Idle true false 0 0 [(4, 40)] [])].

Definition sample_left : asr Z := Asr [(3, 30); (4, 40); (-1, 0)] 5 (pack 1 false 2) 0 0.

Lemma sample_end_is : sample_end = (map Ret sample_results, sample_left).
Proof. vm_compute. reflexivity. Qed.

(** ** Every interleaving *)

(** C7: no interleaving of threads on a two-phase multivector fails. Over an
    empty vector of at least two slots, any number of threads run any programs
    that call its methods lawfully (insertions of ranges in both phases, with or
    without a version, the three ways to take the lock, the reads, the three
    ways to split a locked vector, both releases and [die]), and a weak
    compare-and-swap may fail whenever it likes. Then in no interleaving of
    their atomic accesses does a thread fail an [assert], index a slot out of
    range or reach a [throw]: no [EMPTY] key is stolen, no slot is reserved
    beyond the capacity, the checks after a split find every slot filled or
    free as they should, no counter overflows. *)
Theorem asr_pool_safe {V R} (CAPACITY : nat) (EMPTY : Z) fuel (ss : list (session V R)) l p i
  (HC : (2 <= CAPACITY)%nat) (HC31 : Z.of_nat CAPACITY < 2 ^ 31)
  (Hl : holds CAPACITY EMPTY l []) (Hss : fair CAPACITY EMPTY ss)
  (Hp : pool_steps (@asr_may V) (start CAPACITY EMPTY (S fuel) ss, Asr l 0 0 0 0) p) :
  p.1 !! i <> Some Crash.
Proof.
  pose proof (pool_start_inv CAPACITY EMPTY HC HC31 fuel l ss 0 0 Hl Hss) as Hi.
  destruct (pool_safe _ _ _ _ _ _ Hi Hp) as [gs Hgs]. by eapply pool_no_crash.
Qed.

Lemma asr_pool_safe_witness : sample_end.1 !! 0%nat <> Some Crash /\ sample_end.1 !! 1%nat <> Some Crash.
Proof.
  split; apply (asr_pool_safe 3 (-1) 39 sample_sessions (replicate 3 (-1, 0)));
    [lia|done|apply sample_free|apply sample_fair|apply sample_steps|lia|done|apply sample_free|apply sample_fair|apply sample_steps].
Defined.

(** C8: threads on a two-phase multivector lose no entry and invent none. When
    all threads of such a pool have ended, in whatever interleaving, the vector
    is not locked, its filled slots are the first ones, and their entries
    together with all entries that splits took out are, as a multiset, the
    entries whose insertion was accepted; [get_size] then answers the number of
    entries, unless the vector was killed. *)
Theorem asr_pool_keeps_entries {V R} (CAPACITY : nat) (EMPTY : Z) fuel (ss : list (session V R)) l rs l' f w p x
  (HC : (2 <= CAPACITY)%nat) (HC31 : Z.of_nat CAPACITY < 2 ^ 31)
  (Hl : holds CAPACITY EMPTY l []) (Hss : fair CAPACITY EMPTY ss)
  (Hp : pool_steps (@asr_may V) (start CAPACITY EMPTY (S fuel) ss, Asr l 0 0 0 0) (map Ret rs, Asr l' f w p x)) :
  exists el, holds CAPACITY EMPTY l' el /\ get_state w <> LOCKED /\ el ++ went_out rs ≡ₚ came_in rs /\
    (get_state w <> EXTRACTION ->
     run asr_handle (get_size CAPACITY) (Asr l' f w p x) = Done (Z.of_nat (length el)) (Asr l' f w p x)).
Proof.
  pose proof (pool_start_inv CAPACITY EMPTY HC HC31 fuel l ss 0 0 Hl Hss) as Hi.
  destruct (pool_safe _ _ _ _ _ _ Hi Hp) as [gs Hgs]. by apply (pool_at_rest CAPACITY EMPTY HC HC31 gs l' f w p x rs).
Qed.

Lemma asr_pool_keeps_entries_witness : exists el, holds 3 (-1) (a_list sample_left) el /\
  get_state (cas_counter sample_left) <> LOCKED /\ el ++ went_out sample_results ≡ₚ came_in sample_results /\
  (get_state (cas_counter sample_left) <> EXTRACTION ->
   run asr_handle (get_size 3) sample_left = Done (Z.of_nat (length el)) sample_left).
Proof.
  apply (asr_pool_keeps_entries 3 (-1) 39 sample_sessions (replicate 3 (-1, 0)) sample_results
    [(3, 30); (4, 40); (-1, 0)] 5 (pack 1 false 2) 0 0); [lia|done|apply sample_free|apply sample_fair|].
  pose proof sample_steps as H. rewrite sample_end_is in H. exact H.
Defined.

(** ** One thread *)

Definition sample_filled : asr Z := Asr [(3, 30); (7, 70); (4, 40); (-1, 0); (-1, 0)] 4 (pack 2 true 3) 0 0.
Definition sample_new : asr Z := Asr (replicate 5 (-1, 0)) 0 0 0 0.

Lemma sample_filled_holds : holds 5 (-1) (a_list sample_filled) [(3, 30); (7, 70); (4, 40)].
Proof. exists [(-1, 0); (-1, 0)]. split_and!; [done|done|by repeat constructor|by repeat constructor]. Qed.

Lemma sample_new_holds : holds 5 (-1) (a_list sample_new) [].
Proof. exists (replicate 5 (-1, 0)). split_and!; [done..|by repeat constructor]. Qed.

Lemma fill_hole_rest {V} (A B el : list (Z * V)) m : el = A ++ m :: B -> (forall e, min_in_front el e -> A = [] -> B = []) ->
  m :: fill_hole A B ≡ₚ el /\ (forall e, min_in_front el e -> fill_hole A B <> [] -> head (fill_hole A B) = Some e).
Proof.
  intros -> Hm. split; [by rewrite fill_hole_perm; solve_Permutation|]. intros e He Hne. pose proof (Hm e He) as HAB.
  destruct He as [Hh _]. destruct A as [|a A]; [rewrite HAB in Hne by done; done|]. cbn in Hh. injection Hh as ->.
  unfold fill_hole. by destruct (last B).
Qed.

(** C23: splitting a locked multivector divides its entries. The three ways
    end, whatever the fuel, with the victim and the new vector holding in their
    first slots what they should, and the victim's minimum, if it is in slot 0
    and does not leave, still in slot 0. [steal_max] moves one entry with the
    greatest key; [steal_half] finds the median by quickselect, keeps half of the
    entries, rounded down, and moves the others, none with a smaller key than
    any that stays; [split_insert] puts the new entry and exactly the entries
    above its key into the new vector, which starts in the first or in the
    second phase as its size demands. *)
Theorem asr_splits_correct {V} (CAPACITY : nat) (EMPTY : Z) fuel (l ls el : list (Z * V)) ver n f p x fs ss ps xs
  (Hl : holds CAPACITY EMPTY l el) (Hls : holds CAPACITY EMPTY ls []) (Hw : locked_word CAPACITY ver n el) :
  let victim := Asr l f (pack ver true n) p x in
  let self := Asr ls fs ss ps xs in
  (el <> [] -> exists m rest ls' l',
     run asr_handle (steal_max CAPACITY EMPTY (S fuel) self) victim =
       Done (Asr ls' 1 ss ps xs) (Asr l' f (pack ver true (Z.of_nat (length el) - 1)) p x) /\
     holds CAPACITY EMPTY ls' [m] /\ holds CAPACITY EMPTY l' rest /\
     m :: rest ≡ₚ el /\ Forall (fun e => e.1 <= m.1) el /\
     (forall e, min_in_front el e -> rest <> [] -> head rest = Some e)) /\
  (exists A B ls' l',
     run asr_handle (steal_half CAPACITY EMPTY (S fuel) self) victim =
       Done (Asr ls' (Z.of_nat (length B)) ss ps xs) (Asr l' f (pack ver true (Z.of_nat (length A))) p x) /\
     holds CAPACITY EMPTY ls' B /\ holds CAPACITY EMPTY l' A /\ halves el A B) /\
  (forall e, e.1 <> EMPTY -> (length (kv_above e.1 el) < CAPACITY)%nat -> exists A B ls' l',
     run asr_handle (split_insert CAPACITY EMPTY (S fuel) self e) victim =
       Done (true, Asr ls' (start_counters CAPACITY (1 + Z.of_nat (length B)) ss).1
                        (start_counters CAPACITY (1 + Z.of_nat (length B)) ss).2 ps xs)
            (Asr l' f (pack ver true (match B with [] => n | _ => Z.of_nat (length A) end)) p x) /\
     holds CAPACITY EMPTY ls' (e :: B) /\ holds CAPACITY EMPTY l' A /\ cut_at e.1 el A B).
Proof.
  cbv zeta. assert (Hsto : stores_at (@any_access V) ver) by done. split_and!.
  - intros Hne. destruct (run_steal_max CAPACITY EMPTY (guard:=any_access) fuel l ls el ver n f p x fs ss ps xs Hsto Hl Hne Hw Hls)
      as (A & m & B & ls' & l' & Hel & Hmax & Hr & H1 & H2 & Hmin).
    destruct (fill_hole_rest A B el m Hel Hmin) as [Hp Hh].
    exists m, (fill_hole A B), ls', l'. by split_and!.
  - destruct (run_steal_half CAPACITY EMPTY (guard:=any_access) fuel l ls el ver n f p x fs ss ps xs Hsto Hl Hw Hls)
      as (A & B & ls' & l' & Hh & Hr & H1 & H2).
    exists A, B, ls', l'. by split_and!.
  - intros e He Hc. destruct (run_split_insert CAPACITY EMPTY (guard:=any_access) fuel l ls el ver n f p x fs ss ps xs e Hsto Hl Hw Hls He Hc)
      as (A & B & ls' & l' & Hcut & Hr & H1 & H2).
    exists A, B, ls', l'. by split_and!.
Qed.

Lemma asr_splits_correct_witness : exists A B ls' l',
  run asr_handle (steal_half 5 (-1) 1 sample_new) sample_filled =
    Done (Asr ls' (Z.of_nat (length B)) 0 0 0) (Asr l' 4 (pack 2 true (Z.of_nat (length A))) 0 0) /\
  holds 5 (-1) ls' B /\ holds 5 (-1) l' A /\ halves [(3, 30); (7, 70); (4, 40)] A B.
Proof.
  apply (asr_splits_correct 5 (-1) 0 (a_list sample_filled) (a_list sample_new) [(3, 30); (7, 70); (4, 40)] 2 3 4 0 0 0 0 0 0);
    [apply sample_filled_holds|apply sample_new_holds|by split_and!].
Defined.

(** C24: an insertion by a thread that is alone, on every branch. It always ends.
    While the vector is open it fills the slots left of the first phase and
    answers the entries that found none, with [MUST_SPLIT] if there are some, or
    [SPLIT_PENDING] if others have asked for more slots than there are; in the
    second phase it does the same with the slots of the whole vector, unless the
    version it was given is not the current one: then it fills nothing and
    answers [VERSION_CHANGED]; on a dead vector it answers [DEAD_VECTOR]. *)
Theorem asr_insert_alone {V} (CAPACITY : nat) (EMPTY : Z) fuel (b l el : list (Z * V)) ver f p x
  (HC : (1 <= CAPACITY)%nat) (HC31 : Z.of_nat CAPACITY < 2 ^ 31) (Hl : holds CAPACITY EMPTY l el)
  (Hb : Forall (keyed EMPTY) b) (Hf : f + Z.of_nat (length b) < 2 ^ 63) (Hver : ver < 2 ^ 63) :
  let F := FAA_CAPACITY CAPACITY in
  let C := Z.of_nat CAPACITY in
  let f' := f + Z.of_nat (length b) in
  (Z.of_nat (length el) = Z.min f F -> ver <= 0 \/ F <= f -> exists l',
     holds CAPACITY EMPTY l' (el ++ take (quota F f b) b) /\
     run asr_handle (insert_concurrent CAPACITY EMPTY (S fuel) b ver) (Asr l f 0 p x) =
       Done (if F <? f then SPLIT_PENDING else answer_of (drop (quota F f b) b), drop (quota F f b) b) (Asr l' f' 0 p x)) /\
  (forall v n, word_ok v n -> 1 <= v -> Z.of_nat (length el) = Z.min n C -> n + Z.of_nat (length b) < 2 ^ 32 - 1 -> F < f ->
   let stale := (0 <=? ver) && negb (v =? ver) in exists l' w',
     holds CAPACITY EMPTY l' (el ++ (if stale then [] else take (quota C n b) b)) /\
     run asr_handle (insert_concurrent CAPACITY EMPTY (S fuel) b ver) (Asr l f (pack v false n) p x) =
       Done (if stale then (VERSION_CHANGED, b)
             else (if C <? n then SPLIT_PENDING else answer_of (drop (quota C n b) b), drop (quota C n b) b))
         (Asr l' f' w' p x) /\
     w' = if stale || (C <? n) then pack v false n else pack v false (n + Z.of_nat (length b))) /\
  (F < f -> run asr_handle (insert_concurrent CAPACITY EMPTY (S fuel) b ver) (Asr l f EXTRACTION_STATE_VALUE p x) =
     Done (DEAD_VECTOR, b) (Asr l f' EXTRACTION_STATE_VALUE p x)).
Proof.
  cbv zeta. split_and!.
  - intros Hel Hv. by apply (alone_insert_open CAPACITY EMPTY HC HC31).
  - intros v n Hok Hv Hel Hn HF. by apply (alone_insert_counted CAPACITY EMPTY HC HC31).
  - intros HF. by apply alone_insert_dead.
Qed.

Lemma asr_insert_alone_witness : exists l' w', holds 5 (-1) l' ([(3, 30); (7, 70); (4, 40)] ++ [(8, 80); (2, 20)]) /\
  run asr_handle (insert_concurrent 5 (-1) 1 [(8, 80); (2, 20); (6, 60)] (-1)) (Asr (a_list sample_filled) 4 (pack 2 false 3) 0 0) =
    Done (MUST_SPLIT, [(6, 60)]) (Asr l' 7 w' 0 0) /\ w' = pack 2 false 6.
Proof.
  refine (proj1 (proj2 (asr_insert_alone 5 (-1) 0 [(8, 80); (2, 20); (6, 60)] (a_list sample_filled)
    [(3, 30); (7, 70); (4, 40)] (-1) 4 0 0 _ _ sample_filled_holds _ _ _)) 2 3 _ _ _ _ _); try done; try lia.
  by repeat constructor.
Defined.

(** The lock of a two-phase multivector, alone. [initialize] makes an empty
    open vector of any array. On an open vector the three ways to take the lock
    close the first phase for good and keep the slots reserved so far, and
    [release_unchanged] reopens it with exactly those; in the second phase they
    set the lock bit (the acquisition for a split only if more slots were asked
    for than there are, the upgrade only under the current version) and
    [release_unchanged] takes it back. [release] always moves to the second
    phase with the next version, which it answers, and [die] to the last one,
    with the number of filled slots. *)
Theorem asr_lock_alone {V} (CAPACITY : nat) (EMPTY : Z) fuel (l : list (Z * V)) f w p x
  (HC : (1 <= CAPACITY)%nat) (HC31 : Z.of_nat CAPACITY < 2 ^ 31) (Hlen : length l = CAPACITY) (Hf : 0 <= f) :
  let F := FAA_CAPACITY CAPACITY in
  let C := Z.of_nat CAPACITY in
  let closed := Asr l (Z.max f (F + 1)) (pack 0 true (Z.min f F)) p x in
  (exists l', run asr_handle (initialize CAPACITY EMPTY) (Asr l f w p x) = Done tt (Asr l' 0 0 0 0) /\ holds CAPACITY EMPTY l' []) /\
  run asr_handle (acquire CAPACITY (S fuel)) (Asr l f 0 p x) = Done true closed /\
  run asr_handle (acquire_for_split CAPACITY (S fuel)) (Asr l f 0 p x) = Done 1 closed /\
  (forall ver, run asr_handle (try_upgrade CAPACITY (S fuel) ver) (Asr l f 0 p x) =
     if ver =? 0 then Done true closed else Done false (Asr l f 0 p x)) /\
  run asr_handle (release_unchanged CAPACITY) closed = Done tt (Asr l (Z.min f F) 0 p x) /\
  (forall v n, word_ok v n -> 1 <= v ->
     let unlocked := Asr l f (pack v false n) p x in
     let locked := Asr l f (pack v true n) p x in
     run asr_handle (acquire CAPACITY (S fuel)) unlocked = Done true locked /\
     run asr_handle (acquire_for_split CAPACITY (S fuel)) unlocked =
       (if n <=? C then Done 0 unlocked else Done (Z.of_nat (CAPACITY / 2)) locked) /\
     (forall ver, run asr_handle (try_upgrade CAPACITY (S fuel) ver) unlocked =
        if ver =? v then Done true locked else Done false unlocked) /\
     run asr_handle (release_unchanged CAPACITY) locked = Done tt unlocked) /\
  (forall v n, word_ok v n ->
     run asr_handle release (Asr l f (pack v true n) p x) = Done (v + 1) (Asr l f (pack (v + 1) false n) p x) /\
     run asr_handle (die CAPACITY) (Asr l f (pack v true n) p x) = Done tt (Asr l f EXTRACTION_STATE_VALUE (Z.min n C) x)).
Proof.
  cbv zeta. pose proof (FAA_CAPACITY_le CAPACITY HC) as HFC. split_and!.
  - by apply alone_initialize.
  - by apply alone_acquire_open.
  - by apply alone_split_open.
  - intros ver. by apply alone_upgrade_open.
  - apply alone_unchanged_open; [done|done|split; lia|done|lia].
  - intros v n Hok Hv. split_and!; [by apply alone_acquire_counted|by apply alone_split_counted|intros ver; by apply alone_upgrade_counted|by apply alone_unchanged_counted].
  - intros v n Hok. split; [by apply (alone_release CAPACITY)|by apply alone_die].
Qed.

Lemma asr_lock_alone_witness :
  run asr_handle (acquire 5 1) (Asr (a_list sample_new) 2 0 0 0) = Done true (Asr (a_list sample_new) 4 (pack 0 true 2) 0 0).
Proof. refine (proj1 (proj2 (asr_lock_alone 5 (-1) 0 (a_list sample_new) 2 0 0 0 _ _ _ _))); (done || lia). Defined.

(** ** The dying vector *)

(** C25: the extraction of a dead vector hands out every entry once. After [die],
    when no slot is waited for, any threads call [extract] any numbers of times;
    then, in any interleaving, none fails, and when all have ended their answers
    together are, as a multiset, the entries of the first slots, as many as
    there were calls: all of them if there were enough calls, and [none] for
    the calls beyond. *)
Theorem asr_extract_once {V} (CAPACITY : nat) (EMPTY : Z) fuel (l el : list (Z * V)) f ns p
  (Hl : holds CAPACITY EMPTY l el) (Hns : Z.of_nat (foldr Nat.add 0%nat ns) < 2 ^ 64)
  (Hp : pool_steps (@asr_may V)
     (extractors EMPTY (S fuel) ns, Asr l f EXTRACTION_STATE_VALUE (Z.of_nat (length el)) 0) p) :
  (forall i, p.1 !! i <> Some Crash) /\
  forall rs, p.1 = map Ret rs -> concat rs ≡ₚ take (foldr Nat.add 0%nat ns) el.
Proof.
  pose proof (extract_start CAPACITY EMPTY l el _ Hl Hns fuel ns f EXTRACTION_STATE_VALUE eq_refl) as Hi.
  destruct (pool_safe _ _ _ _ _ _ Hi Hp) as [ts Hts]. split; [intros i; by eapply pool_no_crash|].
  intros rs Hrs. destruct p as [ms s]. cbn [fst] in Hrs. subst ms.
  by apply (extract_end CAPACITY EMPTY l el _ Hl Hns ts rs s).
Qed.

Definition sample_dead : asr Z := Asr (a_list sample_filled) 4 EXTRACTION_STATE_VALUE 3 0.

Definition extract_end_pool : pool :=
  pool_run asr_handle (concat (replicate 12 [1%nat; 0%nat])) (extractors (-1) 1 [2%nat; 2%nat], sample_dead).

Lemma asr_extract_once_witness : [(7, 70); (3, 30); (4, 40)] ≡ₚ [(3, 30); (7, 70); (4, 40)].
Proof.
  assert (Hp : pool_steps (@asr_may Z) (extractors (-1) 1 [2%nat; 2%nat], sample_dead) extract_end_pool)
    by (apply pool_run_steps, act_may).
  apply (proj2 (asr_extract_once 5 (-1) 0 (a_list sample_filled) [(3, 30); (7, 70); (4, 40)] 4 [2%nat; 2%nat] extract_end_pool
    sample_filled_holds ltac:(done) Hp) [[(7, 70)]; [(3, 30); (4, 40)]]). vm_compute. reflexivity.
Defined.

(** A thread kills the vector; another one extracts once it sees it dead. *)
Definition killer : prog (asrE Z) (list (Z * Z)) := die 5 ;;; Ret [].
Definition eager : prog (asrE Z) (list (Z * Z)) :=
  let* dead := is_dead in if dead : bool then extract_many (-1) 5 3 else Ret [].

Definition eager_schedule : list nat := [0; 0; 1; 1; 1; 0]%nat ++ replicate 20 1%nat.

Lemma eager_run : pool_run asr_handle eager_schedule ([killer; eager], sample_filled) =
  (map Ret [[]; [(7, 70); (4, 40)]], Asr (a_list sample_filled) 4 EXTRACTION_STATE_VALUE 3 3).
Proof. vm_compute. reflexivity. Qed.

(** C26: an extraction that overlaps [die] loses an entry. [die] stores the dead
    word before [elements_at_phase_change]: a thread that sees the vector dead
    in between takes slot 0 and is answered none. Here that thread goes on to
    extract until there is nothing more, both threads have ended, and the
    minimum, in slot 0, has been handed to nobody, though [extraction_counter]
    is past it. *)
Theorem asr_extract_during_die : exists s,
  pool_steps (@asr_may Z) ([killer; eager], sample_filled) (map Ret [[]; [(7, 70); (4, 40)]], s) /\
  a_list s !! 0%nat = Some (3, 30) /\ 0 < extraction_counter s.
Proof.
  pose proof (pool_run_steps (@asr_may Z) asr_handle eager_schedule ([killer; eager], sample_filled) act_may) as H.
  rewrite eager_run in H. eexists. split; [exact H|done].
Qed.
