(* ===== verification/HazardPtr.v ===== *)
(** * HazardPtr: hazard pointers (hp/hp_thread_context.h, hp/hp_manager.h)

    A thread protects at most two nodes, [curr] and [next], in two slots whose
    roles swap when [curr] is dropped.  Unlinked nodes wait in the thread's
    array of zombies until a sweep finds that no thread protects them.

    Module [Thread] is [hp_thread_context]: each method is a partial function
    on the context ([None] is a failed [assert] or an [at()] out of range).
    [held] is its abstract state, the pointers a thread protects, and the
    [_held] lemmas say what each method does to it.  Module [Manager] is
    [hp_manager]: the linked list of all contexts, newest first, and the
    entry points of one thread. *)

From S2P Require Import Prelude.

Module Thread.
Section Thread.
Context {P : Type} `{EqDecision P} (ZOMBIE_CAP : nat).
Implicit Types (p : P).

Record ctx := Ctx {
  curr_idx : nat;
  count : nat;
  zombies : list (option P);
  hazP : list (option P);
}.

Definition ctx_new : ctx := Ctx 0 0 (replicate ZOMBIE_CAP None) [None; None].

Definition set_hazP (c : ctx) (i : nat) (v : option P) : option ctx :=
  assert_ (i <? length (hazP c))%nat ;;
  Some (Ctx (curr_idx c) (count c) (zombies c) (<[i := v]> (hazP c))).

Definition next_idx (c : ctx) : option nat :=
  assert_ ((curr_idx c =? 0) || (curr_idx c =? 1))%nat ;; Some (1 - curr_idx c)%nat.

Definition is_null (o : option P) : bool := bool_decide (o = None).

(** [assert(hazP[i] == nullptr)] and its negation. *)
Definition assert_null (c : ctx) (i : nat) : option unit :=
  o ← hazP c !! i; assert_ (is_null o).
Definition assert_held (c : ctx) (i : nat) : option unit :=
  o ← hazP c !! i; assert_ (negb (is_null o)).

(** The destructor: the zombies it deletes. *)
Definition ctx_destroy (c : ctx) : option (list P) :=
  assert_null c 0 ;; assert_null c 1 ;;
  mapM id (rev (take (count c) (zombies c))).

(** [take_first(p)]; the pointer is not null, which the type says. *)
Definition take_first p (c : ctx) : option ctx :=
  assert_null c 0 ;; assert_null c 1 ;; set_hazP c (curr_idx c) (Some p).

Definition take_next p (c : ctx) : option ctx :=
  next_index ← next_idx c;
  assert_held c (curr_idx c) ;; assert_null c next_index ;;
  set_hazP c next_index (Some p).

Definition take_ p (c : ctx) : option ctx :=
  a ← hazP c !! 0%nat; b ← hazP c !! 1%nat;
  if is_null a && is_null b then take_first p c else take_next p c.

Definition count_reserved (c : ctx) : nat :=
  length (filter (fun o => o <> None) (hazP c)).

Definition drop_curr (c : ctx) : option ctx :=
  assert_held c (curr_idx c) ;;
  c' ← set_hazP c (curr_idx c) None;
  i ← next_idx c';
  Some (Ctx i (count c') (zombies c') (hazP c')).

Definition drop_next (c : ctx) : option ctx :=
  next_index ← next_idx c;
  assert_held c (curr_idx c) ;; assert_held c next_index ;;
  set_hazP c next_index None.

Definition drop_ (c : ctx) : option ctx :=
  next_index ← next_idx c;
  o ← hazP c !! next_index;
  if negb (is_null o) then drop_next c else drop_curr c.

Definition drop_all (c : ctx) : option ctx :=
  assert_held c 0 ;; assert_held c 1 ;;
  c' ← set_hazP c 0 None; set_hazP c' 1 None.

(** The loop of [sweep] at index [i]; also returns the deleted nodes. *)
Fixpoint sweep_loop (fuel : nat) (in_use : list P) (i cnt : nat) (zs : list (option P))
    (deleted : list P) : option (nat * list (option P) * list P) :=
  if (cnt <=? i)%nat then Some (cnt, zs, deleted)
  else match fuel with
  | O => None
  | S fuel' =>
      z ← zs !! i;
      zombie ← z;
      if bool_decide (zombie ∈ in_use) then sweep_loop fuel' in_use (S i) cnt zs deleted
      else
        let cnt' := (cnt - 1)%nat in
        l ← zs !! cnt';
        last_zombie ← l;
        let zs' := <[cnt' := None]> (<[i := Some last_zombie]> zs) in
        sweep_loop fuel' in_use i cnt' zs' (deleted ++ [zombie])
  end.

Definition sweep (in_use : list P) (c : ctx) : option (list P * ctx) :=
  '(cnt, zs, deleted) ← sweep_loop (count c) in_use 0 (count c) (zombies c) [];
  Some (deleted, Ctx (curr_idx c) cnt zs (hazP c)).

(** ** The protected pointers *)

Inductive held := HNone | HCurr (p : P) | HBoth (p q : P).

(** What the slots mean, with the representation invariant. *)
Definition slots (c : ctx) (h : held) : Prop :=
  (curr_idx c < 2)%nat /\ length (hazP c) = 2%nat /\
  hazP c !! curr_idx c =
    Some match h with HNone => None | HCurr p | HBoth p _ => Some p end /\
  hazP c !! (1 - curr_idx c)%nat =
    Some match h with HBoth _ q => Some q | _ => None end.

Lemma slots_inv c h :
  slots c h -> (curr_idx c = 0%nat \/ curr_idx c = 1%nat) /\
  exists a b, hazP c = [a; b].
Proof.
  intros (Hi & Hl & _). split; [lia|].
  destruct (hazP c) as [|a [|b [|? ?]]]; try discriminate. eauto.
Qed.
End Thread.

Arguments ctx P : clear implicits.
Arguments held P : clear implicits.

Section Facts.
Context {P : Type} `{EqDecision P} (ZOMBIE_CAP : nat).
Implicit Types (p q : P) (c : ctx P).

Lemma slots_new : slots (ctx_new (P:=P) ZOMBIE_CAP) HNone.
Proof. by split_and!; cbn; [lia|..]. Qed.

(** Compute a slot operation on a context with known slots. *)
Ltac slot_case Hs :=
  let ci := fresh "ci" in let cn := fresh "cn" in
  let zs := fresh "zs" in let hz := fresh "hz" in
  match type of Hs with slots ?c _ => destruct c as [ci cn zs hz] end;
  destruct (slots_inv _ _ Hs) as [[Hci|Hci] (? & ? & Hhz)]; cbn in Hci, Hhz; subst ci hz;
  destruct Hs as (_ & _ & Hc & Hn); cbn in Hc, Hn; simplify_eq;
  eexists; (split; [reflexivity|split_and!; cbn; auto; lia]).

Lemma take_first_held p c :
  slots c HNone -> exists c', take_first p c = Some c' /\ slots c' (HCurr p).
Proof. intros Hs. slot_case Hs. Qed.

Lemma take_next_held p q c :
  slots c (HCurr p) -> exists c', take_next q c = Some c' /\ slots c' (HBoth p q).
Proof. intros Hs. slot_case Hs. Qed.

Lemma drop_next_held p q c :
  slots c (HBoth p q) -> exists c', drop_next c = Some c' /\ slots c' (HCurr p).
Proof. intros Hs. slot_case Hs. Qed.

(** Dropping [curr] makes [next] the current pointer. *)
Lemma drop_curr_both p q c :
  slots c (HBoth p q) -> exists c', drop_curr c = Some c' /\ slots c' (HCurr q).
Proof. intros Hs. slot_case Hs. Qed.

Lemma drop_curr_one p c :
  slots c (HCurr p) -> exists c', drop_curr c = Some c' /\ slots c' HNone.
Proof. intros Hs. slot_case Hs. Qed.

Lemma take_held p c h :
  slots c h -> (forall a b, h <> HBoth a b) ->
  exists c', take_ p c = Some c' /\
    slots c' (match h with HCurr a => HBoth a p | _ => HCurr p end).
Proof.
  intros Hs Hb. destruct h as [|a|a b]; [..|by destruct (Hb a b)]; slot_case Hs.
Qed.

Lemma drop_held c h :
  slots c h -> h <> HNone ->
  exists c', drop_ c = Some c' /\
    slots c' (match h with HBoth a _ => HCurr a | _ => HNone end).
Proof. intros Hs Hb. destruct h as [|a|a b]; [done|..]; slot_case Hs. Qed.

Lemma drop_all_both p q c :
  slots c (HBoth p q) -> exists c', drop_all c = Some c' /\ slots c' HNone.
Proof. intros Hs. slot_case Hs. Qed.

(** The comment on [drop_all] says it drops all pointers held by the thread,
    but with only one held (every [drop_all] of a traversal that has not
    taken [next]) it fails its assertion. *)
Lemma drop_all_one p c : slots c (HCurr p) -> drop_all c = None.
Proof.
  intros Hs. destruct c as [ci cn zs hz].
  destruct (slots_inv _ _ Hs) as [[Hci|Hci] (? & ? & Hhz)]; cbn in Hci, Hhz; subst ci hz;
    destruct Hs as (_ & _ & Hc & Hn); cbn in Hc, Hn; by simplify_eq.
Qed.

(** The slot operations leave the zombies alone. *)
Lemma set_hazP_count c i v c' : set_hazP c i v = Some c' -> count c' = count c.
Proof. unfold set_hazP. destruct (assert_ _); cbn; [by intros [= <-]|done]. Qed.

Ltac count_case :=
  repeat match goal with
  | |- context [mbind _ ?o] => destruct o eqn:?; cbn [mbind option_bind]; [|discriminate]
  end.

Lemma take_first_count p c c' : take_first p c = Some c' -> count c' = count c.
Proof. unfold take_first. count_case. apply set_hazP_count. Qed.

Lemma take_next_count p c c' : take_next p c = Some c' -> count c' = count c.
Proof. unfold take_next. count_case. apply set_hazP_count. Qed.

Lemma drop_next_count c c' : drop_next c = Some c' -> count c' = count c.
Proof. unfold drop_next. count_case. apply set_hazP_count. Qed.

Lemma drop_curr_count c c' : drop_curr c = Some c' -> count c' = count c.
Proof.
  unfold drop_curr. count_case. intros [= <-]. cbn.
  match goal with H : set_hazP _ _ _ = _ |- _ => by apply set_hazP_count in H end.
Qed.

Lemma sweep_empty (in_use : list P) c :
  count c = O -> exists zs, sweep in_use c = Some ([], Ctx (curr_idx c) 0 zs (hazP c)).
Proof. intros Hc. unfold sweep. rewrite Hc. by eexists. Qed.

Definition held_list (h : held P) : list P :=
  match h with HNone => [] | HCurr p => [p] | HBoth p q => [p; q] end.

Lemma count_reserved_held c h : slots c h -> count_reserved c = length (held_list h).
Proof.
  intros Hs. destruct c as [ci cn zs hz].
  destruct (slots_inv _ _ Hs) as [[Hci|Hci] (? & ? & Hhz)]; cbn in Hci, Hhz; subst ci hz;
    destruct Hs as (_ & _ & Hc & Hn); cbn in Hc, Hn; simplify_eq; by destruct h.
Qed.

(** ** Zombies *)

(** The live zombies are the first [count] slots; the rest are null. *)
Definition zombies_ok c (l : list P) : Prop :=
  zombies c = map Some l ++ replicate (ZOMBIE_CAP - length l) None /\
  count c = length l /\ (length l <= ZOMBIE_CAP)%nat.

Lemma zombies_new : zombies_ok (ctx_new ZOMBIE_CAP) [].
Proof. split_and!; cbn; [by rewrite Nat.sub_0_r|done|lia]. Qed.

(** One deletion: the last zombie fills the hole. *)
Lemma sweep_hole (l0 : list P) (last_z : P) i z n :
  (l0 ++ [last_z]) !! i = Some z ->
  exists l1, length l1 = length l0 /\ l1 ++ [z] ≡ₚ l0 ++ [last_z] /\
    take i l1 = take i (l0 ++ [last_z]) /\
    <[length l0 := None]>
      (<[i := Some last_z]> (map Some (l0 ++ [last_z]) ++ replicate n None)) =
    map Some l1 ++ replicate (S n) None.
Proof.
  intros Hi. apply lookup_app_Some in Hi as [Hi|[Hge Hi]].
  - pose proof (lookup_lt_Some _ _ _ Hi) as Hlt. exists (<[i := last_z]> l0).
    split_and!.
    + apply length_insert.
    + rewrite (insert_take_drop l0), <- app_assoc by done.
      rewrite <- (take_drop_middle l0 i z) at 3 by done.
      rewrite <- !app_assoc. apply Permutation_app_head. cbn.
      rewrite Permutation_app_comm. cbn. rewrite perm_swap. apply perm_skip.
      apply (Permutation_app_comm [last_z]).
    + rewrite take_insert_ge, take_app_le by lia. done.
    + rewrite map_app, <- app_assoc. cbn.
      rewrite insert_app_l by (rewrite length_map; lia).
      rewrite insert_app_r_alt by (rewrite length_insert, length_map; lia).
      rewrite length_insert, length_map, Nat.sub_diag. cbn. f_equal.
      symmetry. apply (list_fmap_insert Some).
  - destruct (i - length l0)%nat eqn:Hd; cbn in Hi; [|done].
    simplify_eq. assert (i = length l0) as -> by lia. exists l0. split_and!; [done..| |].
    + by rewrite take_app_le by lia.
    + rewrite map_app, <- app_assoc. cbn.
      rewrite !insert_app_r_alt by (rewrite length_map; lia).
      by rewrite length_map, Nat.sub_diag.
Qed.

Lemma sweep_loop_spec fuel (in_use : list P) i (l : list P) n deleted :
  (i <= length l)%nat -> (length l - i <= fuel)%nat ->
  exists l' del,
    sweep_loop fuel in_use i (length l) (map Some l ++ replicate n None) deleted =
      Some (length l', map Some l' ++ replicate (n + (length l - length l')) None,
            deleted ++ del) /\
    l' ++ del ≡ₚ l /\ take i l' = take i l /\
    Forall (.∈ in_use) (drop i l') /\ Forall (.∉ in_use) del.
Proof.
  revert i l n deleted. induction fuel as [|fuel IH]; intros i l n deleted Hi Hf; cbn [sweep_loop].
  { rewrite (proj2 (Nat.leb_le _ _)) by lia. exists l, [].
    rewrite !app_nil_r, Nat.sub_diag, Nat.add_0_r.
    split_and!; [done..| |constructor]. rewrite drop_ge by lia. constructor. }
  destruct (Nat.leb_spec (length l) i).
  { exists l, []. rewrite !app_nil_r, Nat.sub_diag, Nat.add_0_r.
    split_and!; [done..| |constructor]. rewrite drop_ge by lia. constructor. }
  destruct (lookup_lt_is_Some_2 l i) as [z Hz]; [done|].
  assert (Hzs : forall j a, l !! j = Some a ->
            (map Some l ++ replicate n None) !! j = Some (Some a)).
  { intros j a Hj. apply lookup_app_l_Some. rewrite list_lookup_fmap. by rewrite Hj. }
  step_with (Hzs i z Hz). case_bool_decide as Hin.
  - destruct (IH (S i) l n deleted) as (l' & del & Hr & Hp & Ht & Hk & Hd); [lia..|].
    exists l', del. split_and!; [done..| | |done].
    + apply (f_equal (take i)) in Ht. rewrite !take_take in Ht.
      by replace (i `min` S i)%nat with i in Ht by lia.
    + assert (Hl' : l' !! i = Some z).
      { rewrite <- (lookup_take_lt l' (S i)), Ht, lookup_take_lt by lia. done. }
      rewrite (drop_S l' z i) by done. by constructor.
  - destruct (decide (l = [])) as [->|Hne]; [cbn in *; lia|].
    destruct (exists_last Hne) as (l0 & last_z & ->).
    rewrite length_app in *. cbn [length] in *.
    replace (length l0 + 1 - 1)%nat with (length l0) by lia.
    assert (Hl0 : (l0 ++ [last_z]) !! length l0 = Some last_z) by
      (rewrite lookup_app_r, Nat.sub_diag by lia; done).
    step_with (Hzs _ _ Hl0).
    destruct (sweep_hole l0 last_z i z n Hz) as (l1 & Hl1 & Hp1 & Ht1 & He). rewrite He, <- Hl1.
    destruct (IH i l1 (S n) (deleted ++ [z])) as (l' & del & Hr & Hp & Ht & Hk & Hd); [lia..|].
    exists l', (z :: del). rewrite Hr. split_and!.
    + pose proof (Permutation_length Hp) as Hlen. rewrite length_app in Hlen.
      replace (n + (length l1 + 1 - length l'))%nat
        with (S n + (length l1 - length l'))%nat by lia.
      by rewrite <- app_assoc.
    + rewrite <- Permutation_middle, Hp, <- Hp1. apply (Permutation_app_comm [z]).
    + by rewrite Ht, Ht1.
    + done.
    + by constructor.
Qed.

(** A sweep keeps the protected zombies and deletes the others, each once. *)
Lemma sweep_spec (in_use : list P) c l :
  zombies_ok c l ->
  exists kept del c', sweep in_use c = Some (del, c') /\ zombies_ok c' kept /\
    kept ++ del ≡ₚ l /\ Forall (.∈ in_use) kept /\ Forall (.∉ in_use) del /\
    curr_idx c' = curr_idx c /\ hazP c' = hazP c.
Proof.
  intros (Hz & Hc & Hl). unfold sweep. rewrite Hc, Hz.
  destruct (sweep_loop_spec (length l) in_use 0 l (ZOMBIE_CAP - length l) [])
    as (l' & del & Hr & Hp & _ & Hk & Hd); [lia..|].
  rewrite Hr. cbn. do 3 eexists. split; [reflexivity|]. rewrite drop_0 in Hk.
  pose proof (Permutation_length Hp) as Hlen. rewrite length_app in Hlen.
  split_and!; try done; split_and!; cbn; [do 2 f_equal; lia|done|lia].
Qed.

(** Putting a zombie in the first free slot. *)
Lemma push_zombie c (l : list P) z :
  zombies_ok c l -> (length l < ZOMBIE_CAP)%nat ->
  zombies c !! count c = Some None /\
  zombies_ok (Ctx (curr_idx c) (S (count c)) (<[count c := Some z]> (zombies c)) (hazP c))
    (l ++ [z]).
Proof.
  intros (Hz & Hc & Hl) Hlt. rewrite Hz, Hc.
  destruct (ZOMBIE_CAP - length l)%nat as [|n] eqn:Hn; [lia|]. cbn [replicate]. split.
  - by rewrite lookup_app_r, length_map, Nat.sub_diag by (rewrite length_map; lia).
  - split_and!; cbn; rewrite ?length_app; cbn; [|lia..].
    rewrite insert_app_r_alt, length_map, Nat.sub_diag by (rewrite length_map; lia). cbn.
    rewrite map_app, <- app_assoc. cbn. do 3 f_equal. lia.
Qed.
End Facts.
End Thread.

Module Manager.
Import Thread.

(** ** The size of the zombie array *)

(** [__builtin_clz] of a 32-bit word; undefined at 0. *)
Definition clz32 (y : Z) : option Z := if (y =? 0)%Z then None else Some (31 - Z.log2 y)%Z.

Definition log2 (x : Z) : option Z := z ← clz32 (x - 1); Some (32 - z)%Z.

Definition MAX_HP_COUNT (THREADS : nat) : nat := THREADS * 2.
Definition SWEEP_PROPORTION : nat := 10.

(** [2 << n] on [int], which must not overflow. *)
Definition zombies_capacity (THREADS : nat) : option nat :=
  n ← log2 (Z.of_nat (MAX_HP_COUNT THREADS * SWEEP_PROPORTION));
  assert_ (2 * 2 ^ n <? 2 ^ 31)%Z ;; Some (Z.to_nat (2 * 2 ^ n)).

Lemma log2_bounds x n : (2 <= x)%Z -> log2 x = Some n -> (2 ^ (n - 1) < x <= 2 ^ n)%Z.
Proof.
  intros Hx. unfold log2, clz32. destruct (Z.eqb_spec (x - 1) 0); [lia|]. cbn. intros [= <-].
  pose proof (Z.log2_spec (x - 1) ltac:(lia)) as [H1 H2].
  pose proof (Z.log2_nonneg (x - 1)).
  replace (32 - (31 - Z.log2 (x - 1)))%Z with (Z.succ (Z.log2 (x - 1))) by lia.
  replace (Z.succ (Z.log2 (x - 1)) - 1)%Z with (Z.log2 (x - 1)) by lia. lia.
Qed.

(** The array is at least ten times the number of hazard pointers, twice
    over: the shift starts from 2, not 1. *)
Lemma zombies_capacity_bounds THREADS cap :
  (1 <= THREADS)%nat -> zombies_capacity THREADS = Some cap ->
  (2 * SWEEP_PROPORTION * MAX_HP_COUNT THREADS <= cap)%nat /\
  (cap < 4 * SWEEP_PROPORTION * MAX_HP_COUNT THREADS)%nat.
Proof.
  intros HT. unfold zombies_capacity. set (x := Z.of_nat _).
  destruct (log2 x) as [n|] eqn:Hl; [|done]. cbn [mbind option_bind].
  destruct (_ <? _)%Z; [|done]. cbn. intros [= <-].
  assert (2 <= x)%Z by (unfold x, MAX_HP_COUNT, SWEEP_PROPORTION; lia).
  destruct (log2_bounds x n) as [H1 H2]; [done..|].
  assert (0 <= n)%Z by (destruct (Z.leb_spec 0 n); [done|rewrite (Z.pow_neg_r 2 n) in H2 by lia; lia]).
  assert (2 ^ n <= 2 * 2 ^ (n - 1))%Z.
  { destruct (decide (n = 0)%Z) as [->|]; [cbn in H2; lia|].
    rewrite <- Z.pow_succ_r by lia. replace (Z.succ (n - 1)) with n by lia. lia. }
  unfold x, SWEEP_PROPORTION in *. split; lia.
Qed.

Section Manager.
Context {P : Type} `{EqDecision P} (ZOMBIE_CAP : nat).
Implicit Types (t : nat) (p z : P).

(** The linked list from [contexts_head], each context with the thread
    whose [thread_ctx] points to it. *)
Definition mgr : Type := list (nat * ctx P).
Implicit Types (m : mgr).

Fixpoint thread_ctx t m : option (ctx P) :=
  match m with
  | [] => None
  | (u, c) :: m' => if decide (u = t) then Some c else thread_ctx t m'
  end.

Fixpoint set_ctx t (c : ctx P) m : mgr :=
  match m with
  | [] => []
  | (u, d) :: m' => if decide (u = t) then (u, c) :: m' else (u, d) :: set_ctx t c m'
  end.

Definition init_context t m : mgr :=
  match thread_ctx t m with
  | Some _ => m
  | None => (t, ctx_new ZOMBIE_CAP) :: m
  end.

Definition reserved_by_thread t m : option nat :=
  c ← thread_ctx t m; Some (count_reserved c).

Definition mgr_count_reserved m : nat :=
  fold_right (fun e n => count_reserved e.2 + n)%nat O m.

(** The set of protected pointers, of which only membership is used. *)
Definition get_in_use m : list P := m ≫= (fun e => omap id (hazP e.2)).

Definition mgr_sweep t m : option (list P * mgr) :=
  c ← thread_ctx t m;
  '(del, c') ← sweep (get_in_use m) c;
  Some (del, set_ctx t c' m).

(** [reclaim(zombie)]; also returns the nodes deleted. *)
Definition reclaim t z m : option (list P * mgr) :=
  c ← thread_ctx t m;
  '(del, m1) ← (if (ZOMBIE_CAP <=? count c)%nat then mgr_sweep t m else Some ([], m));
  c1 ← thread_ctx t m1;
  o ← zombies c1 !! count c1;
  assert_ (is_null o) ;;
  Some (del, set_ctx t (Ctx (curr_idx c1) (S (count c1))
                           (<[count c1 := Some z]> (zombies c1)) (hazP c1)) m1).

(** Sweep every context with the same set. *)
Fixpoint sweep_ctxs (in_use : list P) m : option (list P * mgr) :=
  match m with
  | [] => Some ([], [])
  | (u, c) :: m' =>
      '(del, c') ← sweep in_use c;
      '(del', m'') ← sweep_ctxs in_use m';
      Some (del ++ del', (u, c') :: m'')
  end.

Definition sweep_all m : option (list P * mgr) :=
  assert_ (bool_decide (get_in_use m = [])) ;; sweep_ctxs [] m.

Fixpoint tear_down m : option (list P) :=
  match m with
  | [] => Some []
  | (_, c) :: m' =>
      assert_ (count_reserved c =? 0)%nat ;;
      '(del, c') ← sweep [] c;
      del' ← ctx_destroy c';
      del'' ← tear_down m';
      Some (del ++ del' ++ del'')
  end.

(** The static entry points forward to the thread's context. *)
Definition with_ctx (f : ctx P -> option (ctx P)) t m : option mgr :=
  c ← thread_ctx t m; c' ← f c; Some (set_ctx t c' m).

Definition mgr_take_first p := with_ctx (take_first p).
Definition mgr_take_next p := with_ctx (take_next p).
Definition mgr_take p := with_ctx (take_ p).
Definition mgr_drop := with_ctx drop_.
Definition mgr_drop_curr := with_ctx drop_curr.
Definition mgr_drop_next := with_ctx drop_next.
Definition mgr_drop_all := with_ctx drop_all.

(** ** The abstract manager: per thread, what it protects and its zombies *)

Definition amgr : Type := list (nat * (held P * list P)).

Definition ctx_repr (c : ctx P) (a : held P * list P) : Prop :=
  slots c a.1 /\ zombies_ok ZOMBIE_CAP c a.2.

Definition mgr_repr m (a : amgr) : Prop :=
  Forall2 (fun e d => e.1 = d.1 /\ ctx_repr e.2 d.2) m a.

Lemma mgr_repr_lookup m a t c :
  mgr_repr m a -> thread_ctx t m = Some c ->
  exists d, (t, d) ∈ a /\ ctx_repr c d.
Proof.
  induction 1 as [|[u c'] [u' d] m a [Hu Hr] _ IH]; cbn in *; [done|].
  case_decide; intros Hc; simplify_eq.
  - exists d. split; [by left|done].
  - destruct (IH Hc) as (d' & Hin & Hr'). exists d'. split; [by right|done].
Qed.

Lemma slots_in_use c h p : slots c h -> p ∈ omap id (hazP c) <-> p ∈ held_list h.
Proof.
  intros Hs. destruct c as [ci cn zs hz].
  destruct (slots_inv _ _ Hs) as [[Hci|Hci] (? & ? & Hhz)]; cbn in Hci, Hhz; subst ci hz;
    destruct Hs as (_ & _ & Hc & Hn); cbn in Hc, Hn; simplify_eq; destruct h; set_solver.
Qed.

Lemma get_in_use_spec m a p :
  mgr_repr m a ->
  p ∈ get_in_use m <-> exists t d, (t, d) ∈ a /\ p ∈ held_list d.1.
Proof.
  induction 1 as [|[u c] [u' d] m a [Hu [Hs Hz]] _ IH].
  - cbn. split; [by intros ?%elem_of_nil|by intros (? & ? & ?%elem_of_nil & _)].
  - unfold get_in_use. cbn [mbind list_bind]. cbn in Hu, Hs. subst u'. cbn.
    rewrite elem_of_app, slots_in_use by exact Hs. fold (get_in_use m). split.
    + intros [Hin|(t & d' & Ht & Hin)%IH]; [exists u, d|exists t, d'];
        (split; [|done]); [by left|by right].
    + intros (t & d' & [?|Ht]%elem_of_cons & Hin); simplify_eq; [by left|right; apply IH; eauto].
Qed.

Lemma get_in_use_length m a :
  mgr_repr m a -> (length (get_in_use m) <= 2 * length m)%nat.
Proof.
  induction 1 as [|[u c] [u' d] m a [Hu [Hs Hz]] _ IH]; [done|].
  unfold get_in_use. cbn [mbind list_bind snd]. rewrite length_app.
  fold (get_in_use m). cbn [length snd fst] in *. cut (length (omap id (hazP c)) <= 2)%nat; [lia|].
  destruct (slots_inv _ _ Hs) as (_ & x & y & ->). by destruct x, y; cbn; lia.
Qed.

Lemma thread_ctx_set t c c' m :
  thread_ctx t m = Some c -> thread_ctx t (set_ctx t c' m) = Some c'.
Proof.
  induction m as [|[u d] m IH]; cbn; [done|].
  case_decide as Hu; cbn; [by rewrite decide_True|rewrite decide_False by done; auto].
Qed.

Lemma set_ctx_set t c c' m : set_ctx t c (set_ctx t c' m) = set_ctx t c m.
Proof.
  induction m as [|[u d] m IH]; cbn; [done|].
  case_decide; cbn; [by rewrite decide_True|rewrite decide_False by done; congruence].
Qed.

Fixpoint aset t (d : held P * list P) (a : amgr) : amgr :=
  match a with
  | [] => []
  | (u, e) :: a' => if decide (u = t) then (u, d) :: a' else (u, e) :: aset t d a'
  end.

Lemma mgr_repr_set m a t c d :
  mgr_repr m a -> ctx_repr c d -> mgr_repr (set_ctx t c m) (aset t d a).
Proof.
  intros Hm Hr. induction Hm as [|[u e] [u' d'] m a [Hu He] Hm IH]; cbn in *; [constructor|].
  subst u'. case_decide; constructor; auto.
Qed.
End Manager.
End Manager.

(** ** Theorems *)

Module HPFacts.
Import Thread Manager.

Section Slots.
Context {P : Type} `{EqDecision P}.

(** The slot operations of a context. *)
Inductive slot_op :=
| OTake (p : P) | OTakeFirst (p : P) | OTakeNext (p : P)
| ODrop | ODropCurr | ODropNext | ODropAll.

Definition run_op (o : slot_op) : ctx P -> option (ctx P) :=
  match o with
  | OTake p => take_ p | OTakeFirst p => take_first p | OTakeNext p => take_next p
  | ODrop => drop_ | ODropCurr => drop_curr | ODropNext => drop_next | ODropAll => drop_all
  end.

(** What each does to the protected pointers; [None] is a failed assert. *)
Definition held_op (o : slot_op) (h : held P) : option (held P) :=
  match o, h with
  | OTake p, HNone | OTakeFirst p, HNone => Some (HCurr p)
  | OTake q, HCurr p | OTakeNext q, HCurr p => Some (HBoth p q)
  | ODrop, HBoth p _ | ODropNext, HBoth p _ => Some (HCurr p)
  | ODrop, HCurr _ | ODropCurr, HCurr _ => Some HNone
  | ODropCurr, HBoth _ q => Some (HCurr q)
  | ODropAll, HBoth _ _ => Some HNone
  | _, _ => None
  end.

(** C27: the two-slot representation with its swapping [curr_idx] implements
    the hand-over-hand discipline: every slot operation succeeds exactly
    when the discipline allows it, with exactly its effect, and fails an
    assertion otherwise. *)
Theorem slot_op_refines (o : slot_op) (c : ctx P) (h : held P) :
  slots c h ->
  match held_op o h with
  | Some h' => exists c', run_op o c = Some c' /\ slots c' h'
  | None => run_op o c = None
  end.
Proof.
  intros Hs. destruct c as [ci cn zs hz].
  destruct (slots_inv _ _ Hs) as [[Hci|Hci] (? & ? & Hhz)]; cbn in Hci, Hhz; subst ci hz;
    destruct Hs as (_ & _ & Hc & Hn); cbn in Hc, Hn; destruct o, h; simplify_eq; cbn;
    try reflexivity; (eexists; split; [reflexivity|split_and!; cbn; auto; lia]).
Qed.
End Slots.

Lemma slot_op_refines_witness :
  exists c', run_op ODropCurr (Ctx 1 0 [] [Some true; Some false]) = Some c' /\
    slots c' (HCurr true).
Proof.
  apply (slot_op_refines ODropCurr _ (HBoth false true)). split_and!; cbn; [lia|reflexivity..].
Defined.

Section Reclaim.
Context {P : Type} `{EqDecision P} (THREADS cap : nat).
Context (HT : (1 <= THREADS)%nat) (Hcap : zombies_capacity THREADS = Some cap).
Implicit Types (m : mgr (P:=P)) (a : amgr (P:=P)) (t : nat) (z p : P).

Lemma cap_in_use m a :
  mgr_repr cap m a -> (length m <= THREADS)%nat ->
  (20 * length (get_in_use m) <= cap)%nat.
Proof.
  intros Hm Hl. destruct (zombies_capacity_bounds THREADS cap HT Hcap) as [Hb _].
  pose proof (get_in_use_length cap m a Hm). unfold SWEEP_PROPORTION, MAX_HP_COUNT in Hb. lia.
Qed.

(** C20: [reclaim] never overflows the zombie array and never deletes a
    protected node: for at most [THREADS] contexts it succeeds, the zombie
    is kept, a node is deleted only when no thread protects it, nothing is
    lost or deleted twice, and a full array is emptied to at most a
    twentieth (the 90% target of the comment, with a factor two to spare). *)
Theorem reclaim_safe m a t c h l z :
  mgr_repr cap m a -> (length m <= THREADS)%nat ->
  thread_ctx t m = Some c -> ctx_repr cap c (h, l) -> NoDup l ->
  exists del kept m',
    reclaim cap t z m = Some (del, m') /\
    mgr_repr cap m' (aset t (h, kept ++ [z]) a) /\
    kept ++ del ≡ₚ l /\
    (forall p u d, p ∈ del -> (u, d) ∈ a -> p ∉ held_list d.1) /\
    (length l = cap -> (20 * length kept <= cap)%nat).
Proof.
  intros Hm Hlen Hc [Hs Hz] Hnd. pose proof Hz as (_ & Hcount & Hle). cbn [snd fst] in *.
  pose proof (cap_in_use m a Hm Hlen) as Huse.
  destruct (zombies_capacity_bounds THREADS cap HT Hcap) as [Hb _].
  unfold reclaim. step_with Hc. destruct (Nat.leb_spec cap (count c)) as [Hfull|Hroom].
  - unfold mgr_sweep. step_with Hc.
    destruct (sweep_spec cap (get_in_use m) c l Hz)
      as (kept & del & c' & Hr & Hz' & Hp & Hk & Hd & Hi & Hh).
    rewrite Hr. cbn [mbind option_bind]. rewrite (thread_ctx_set t c) by done.
    cbn [mbind option_bind].
    assert (Hkept : (length kept <= length (get_in_use m))%nat).
    { apply submseteq_length, NoDup_submseteq; [|by apply Forall_forall].
      rewrite <- Hp in Hnd. by apply NoDup_app in Hnd as [? _]. }
    destruct (push_zombie cap c' kept z Hz') as [Hn Hz2];
      [unfold SWEEP_PROPORTION, MAX_HP_COUNT in Hb; lia|].
    step_with Hn. cbn. do 3 eexists. split; [reflexivity|]. split_and!; [|done| |lia].
    + rewrite set_ctx_set. apply mgr_repr_set; [done|]. split; [|exact Hz2].
      unfold slots in *. cbn in *. by rewrite Hi, Hh.
    + intros p u d Hin Ha Hheld. rewrite Forall_forall in Hd. apply (Hd p Hin).
      rewrite (get_in_use_spec cap m a) by done. eauto.
  - cbn [mbind option_bind]. step_with Hc.
    destruct (push_zombie cap c l z Hz) as [Hn Hz2]; [lia|].
    step_with Hn. cbn. exists [], l. eexists. split; [reflexivity|].
    rewrite app_nil_r. split_and!; [|done|by intros ??? ?%elem_of_nil|lia].
    apply mgr_repr_set; [done|]. split; [exact Hs|exact Hz2].
Qed.

Lemma sweep_none_held (c : ctx P) l :
  ctx_repr cap c (HNone, l) ->
  exists del c', sweep [] c = Some (del, c') /\ del ≡ₚ l /\ ctx_destroy c' = Some [].
Proof.
  intros [Hs Hz]. destruct (sweep_spec cap [] c l Hz)
    as (kept & del & c' & Hr & Hz' & Hp & Hk & _ & Hi & Hh).
  destruct kept as [|x kept]; [|by apply Forall_cons in Hk as [?%elem_of_nil _]].
  exists del, c'. split_and!; [done..|].
  destruct Hz' as (_ & Hc & _). destruct c' as [ci cn zs hz]. cbn in *. subst.
  destruct (slots_inv _ _ Hs) as [Hci (? & ? & Hhz)].
  destruct Hs as (_ & _ & H1 & H2). rewrite Hhz in *.
  destruct Hci as [Hci|Hci]; rewrite Hci in *; cbn in H1, H2; by simplify_eq.
Qed.

(** [tear_down] frees every zombie of every thread exactly once, and
    asserts nothing that fails, when no thread holds a hazard pointer. *)
Theorem tear_down_frees m a :
  mgr_repr cap m a -> (forall u d, (u, d) ∈ a -> d.1 = HNone) ->
  exists del, tear_down m = Some del /\ del ≡ₚ (a ≫= (fun e => e.2.2)).
Proof.
  intros Hm. induction Hm as [|[u c] [u' [h l]] m a [Hu Hr] Hm IH]; intros Hh.
  { by exists []. }
  cbn in Hr. assert (h = HNone) as -> by (apply (Hh u' (h, l)); by left).
  destruct IH as (del'' & Ht & Hp); [intros w d Hin; apply (Hh w d); by right|].
  destruct (sweep_none_held c l Hr) as (del & c' & Hsw & Hp1 & Hd).
  cbn [tear_down]. rewrite (count_reserved_held c HNone) by apply Hr. cbn [assert_ held_list length Nat.eqb mbind option_bind].
  rewrite Hsw. cbn [mbind option_bind]. rewrite Hd. cbn [mbind option_bind]. rewrite Ht. cbn.
  eexists. split; [reflexivity|]. cbn. by rewrite Hp1, Hp.
Qed.
End Reclaim.

(** A full array of the one-thread configuration: 64 zombies, one of them
    protected by the thread itself. *)
Definition full_ctx : ctx nat := Ctx 0 64 (map Some (seq 0 64)) [Some 7%nat; None].

Lemma full_ctx_repr : ctx_repr 64 full_ctx (HCurr 7%nat, seq 0 64).
Proof. split; split_and!; cbn; try reflexivity; lia. Qed.

Lemma reclaim_safe_witness :
  exists del kept m',
    reclaim 64 0 99%nat [(0%nat, full_ctx)] = Some (del, m') /\
    mgr_repr 64 m' [(0%nat, (HCurr 7%nat, kept ++ [99%nat]))] /\
    kept ++ del ≡ₚ seq 0 64 /\
    (forall p u d, p ∈ del -> (u, d) ∈ [(0%nat, (HCurr 7%nat, seq 0 64))] ->
       p ∉ held_list d.1) /\
    (length (seq 0 64) = 64%nat -> (20 * length kept <= 64)%nat).
Proof.
  apply (reclaim_safe (P:=nat) 1 64 ltac:(lia) ltac:(reflexivity) [(0%nat, full_ctx)]
           [(0%nat, (HCurr 7%nat, seq 0 64))] 0 full_ctx).
  - constructor; [|constructor]. split; [reflexivity|exact full_ctx_repr].
  - cbn. lia.
  - reflexivity.
  - exact full_ctx_repr.
  - apply NoDup_seq.
Defined.

Lemma tear_down_frees_witness :
  exists del, tear_down [(0%nat, Ctx 0 64 (map Some (seq 0 64)) [None; None])] = Some del /\
    del ≡ₚ seq 0 64 ++ [].
Proof.
  apply (tear_down_frees (P:=nat) 64 _ [(0%nat, (HNone, seq 0 64))]).
  - constructor; [|constructor]. split; [reflexivity|].
    split; split_and!; cbn; try reflexivity; lia.
  - intros u d [[= -> ->]|?%elem_of_nil]%elem_of_cons; done.
Defined.
End HPFacts.
