(* ===== verification/World.v ===== *)
(** * World: nodes in memory, and the atomic accesses to them

    Both skip vectors keep chunks ([node_t]) in singly linked layers.  A node
    is named by a pointer: the leftmost node of each layer is a member of the
    skip vector object, the others are allocated.  [node_t] is a template over
    the type of its values: data (or remote addresses) in the bottom layer,
    [void *] in the index layers; here the values are tagged, and reading one
    at the wrong type is a failure, as it would be undefined behaviour in C++.

    [memE] lists the accesses a method makes to memory, [handle t] performs
    one for thread [t].  An access to memory that is not allocated, a failed
    assertion of the lock, of the vector or of the hazard pointer manager is
    [None].  The methods of the vectors are single accesses. *)

From S2P Require Import Prelude Prog SvLock VecSpec HazardPtr.

Local Open Scope Z_scope.

(** ** Pointers *)

(** [Head n] is the leftmost node of layer [n], [Heap n] the [n]th allocation. *)
Inductive ptr := Head (layer : nat) | Heap (n : positive).

#[global] Instance ptr_eq_dec : EqDecision ptr.
Proof. solve_decision. Defined.

#[global] Instance ptr_countable : Countable ptr.
Proof.
  refine (inj_countable' (fun p => match p with Head n => inl n | Heap n => inr n end)
                         (fun s => match s with inl n => Head n | inr n => Heap n end) _).
  by intros [].
Defined.

Definition is_heap (p : ptr) : Prop := match p with Heap _ => True | Head _ => False end.

(** A value of a vector: data of the bottom layer, or a [void *]. *)
Inductive value (D : Type) := VData (d : D) | VDown (p : ptr).
Arguments VData {D} d.
Arguments VDown {D} p.

Definition mgr_t : Type := Manager.mgr (P := ptr).

Section World.
(** [D]: the values of the bottom layer; [X]: the plain fields of a node
    besides the lock, the next pointer and the vector. *)
Context {D X : Type} {vec : Type -> Type}.

Record node := Node {
  n_lock : Z;
  n_ext : X;
  n_next : option ptr;
  n_vec : vec (value D);
}.

Record world := World {
  w_nodes : gmap ptr node;
  w_fresh : positive;
  w_hp : mgr_t;
}.

Definition set_node (p : ptr) (n : node) (w : world) : world :=
  World (<[p := n]> (w_nodes w)) (w_fresh w) (w_hp w).

(** ** Accesses *)

Inductive memE : Type -> Type :=
| ELock {B : Type} (p : ptr) (e : lockE B) : memE B
| ELoadNext (p : ptr) : memE (option ptr)
| EStoreNext (p : ptr) (q : option ptr) : memE unit
| ELoadExt (p : ptr) : memE X
| EStoreExt (p : ptr) (x : X) : memE unit
| EVec {B : Type} (p : ptr) (f : vec (value D) -> option (B * vec (value D))) : memE B
| EVec2 {B : Type} (p q : ptr)
    (f : vec (value D) -> vec (value D) -> option (B * (vec (value D) * vec (value D)))) : memE B
| ENew (n : node) : memE ptr
| EDelete (p : ptr) : memE unit
| EHp {B : Type} (f : nat -> mgr_t -> option (B * mgr_t)) : memE B.

Definition handle (t : nat) (B : Type) (e : memE B) (w : world) : option (B * world) :=
  match e with
  | ELock p e =>
      n ← w_nodes w !! p;
      '(b, l) ← lock_handle _ e (n_lock n);
      Some (b, set_node p (Node l (n_ext n) (n_next n) (n_vec n)) w)
  | ELoadNext p => n ← w_nodes w !! p; Some (n_next n, w)
  | EStoreNext p q =>
      n ← w_nodes w !! p;
      Some (tt, set_node p (Node (n_lock n) (n_ext n) q (n_vec n)) w)
  | ELoadExt p => n ← w_nodes w !! p; Some (n_ext n, w)
  | EStoreExt p x =>
      n ← w_nodes w !! p;
      Some (tt, set_node p (Node (n_lock n) x (n_next n) (n_vec n)) w)
  | EVec p f =>
      n ← w_nodes w !! p;
      '(b, v) ← f (n_vec n);
      Some (b, set_node p (Node (n_lock n) (n_ext n) (n_next n) v) w)
  | EVec2 p q f =>
      n ← w_nodes w !! p; m ← w_nodes w !! q;
      assert_ (bool_decide (p <> q)) ;;
      '(b, (v, u)) ← f (n_vec n) (n_vec m);
      Some (b, set_node p (Node (n_lock n) (n_ext n) (n_next n) v)
                 (set_node q (Node (n_lock m) (n_ext m) (n_next m) u) w))
  | ENew n =>
      let p := Heap (w_fresh w) in
      Some (p, World (<[p := n]> (w_nodes w)) (Pos.succ (w_fresh w)) (w_hp w))
  | EDelete p =>
      _ ← w_nodes w !! p;
      Some (tt, World (delete p (w_nodes w)) (w_fresh w) (w_hp w))
  | EHp f => '(b, m) ← f t (w_hp w); Some (b, World (w_nodes w) (w_fresh w) m)
  end.

Definition mem (A : Type) : Type := prog memE A.

Definition lock_rmw {B : Type} (p : ptr) (f : Z -> option (B * Z)) : mem B :=
  trigger (ELock p (Rmw f)).

(** [p->lock.acquire()] *)
Definition lock_acquire (fuel : nat) (p : ptr) : mem bool :=
  translate (fun B e => trigger (ELock p e)) (acquire fuel).

Definition load_next (p : ptr) : mem (option ptr) := trigger (ELoadNext p).
Definition store_next (p : ptr) (q : option ptr) : mem unit := trigger (EStoreNext p q).

(** A const method of the node's vector. *)
Definition vec_get {B : Type} (p : ptr) (f : vec (value D) -> option B) : mem B :=
  trigger (EVec p (fun v => b ← f v; Some (b, v))).

(** A method that changes the vector. *)
Definition vec_upd {B : Type} (p : ptr) (f : vec (value D) -> option (B * vec (value D))) : mem B :=
  trigger (EVec p f).

(** A method of the vector of [p] that steals from that of [q]. *)
Definition vec_steal {B : Type} (p q : ptr)
    (f : vec (value D) -> vec (value D) -> option (B * (vec (value D) * vec (value D)))) : mem B :=
  trigger (EVec2 p q f).

(** The entry points of the hazard pointer manager. *)
Definition hp_call (f : nat -> mgr_t -> option mgr_t) : mem unit :=
  trigger (EHp (fun t m => m' ← f t m; Some (tt, m'))).

Definition hp_init (cap : nat) : mem unit :=
  hp_call (fun t m => Some (Manager.init_context cap t m)).
Definition hp_take_first (p : ptr) : mem unit := hp_call (Manager.mgr_take_first p).
Definition hp_take_next (p : ptr) : mem unit := hp_call (Manager.mgr_take_next p).
Definition hp_drop_curr : mem unit := hp_call Manager.mgr_drop_curr.
Definition hp_drop_next : mem unit := hp_call Manager.mgr_drop_next.
Definition hp_drop_all : mem unit := hp_call Manager.mgr_drop_all.
Definition hp_count_reserved : mem nat :=
  trigger (EHp (fun _ m => Some (Manager.mgr_count_reserved m, m))).

(** Delete the nodes of a list. *)
Fixpoint delete_all (l : list ptr) : mem unit :=
  match l with
  | [] => Ret tt
  | p :: l' => trigger (EDelete p) ;;; delete_all l'
  end.

(** [HP::reclaim(p)], with the deletions of the sweep it may cause. *)
Definition hp_reclaim (cap : nat) (p : ptr) : mem unit :=
  let* del := trigger (EHp (fun t m => Manager.reclaim cap t p m)) in delete_all del.

Definition hp_sweep_all : mem unit :=
  let* del := trigger (EHp (fun _ m => Manager.sweep_all m)) in delete_all del.

(** A value read at its static type. *)
Definition as_down (v : value D) : mem ptr :=
  match v with VDown p => Ret p | VData _ => Crash end.
Definition as_data (v : value D) : mem D :=
  match v with VData d => Ret d | VDown _ => Crash end.
End World.

Arguments node D X vec : clear implicits.
Arguments world D X vec : clear implicits.
Arguments memE D X vec : clear implicits.
Arguments mem D X vec A : clear implicits.
