(* ===== verification/Layers.v ===== *)
(** * Layers: the abstract state of a layered skip vector

    A layer is the list of its nodes in [next] order, the head first; the
    entries of a layer are the concatenation of the contents of its nodes.
    [wf] is the structural invariant the code maintains: it is what [verify()]
    and [verify_index()] check, plus what the descents rely on.  It has a
    parameter, the one node that may still lack a parent while an update is
    half way through. *)

From S2P Require Import Prelude KvList World.

Local Open Scope Z_scope.

(** Insert if absent. *)
Definition kv_add {V} (k : Z) (x : V) (l : list (Z * V)) : list (Z * V) :=
  match kv_lookup k l with Some _ => l | None => kv_insert k x l end.

Section KvAdd.
Context {V : Type}.
Implicit Types (l : list (Z * V)).

Lemma kv_add_sorted k x l : kv_sorted l -> kv_sorted (kv_add k x l).
Proof. unfold kv_add. destruct (kv_lookup k l); [done|]. apply kv_insert_sorted. Qed.

Lemma kv_add_absent k x l : kv_lookup k l = None -> kv_add k x l = kv_insert k x l.
Proof. unfold kv_add. by intros ->. Qed.

Lemma kv_add_present k x y l : kv_lookup k l = Some y -> kv_add k x l = l.
Proof. unfold kv_add. by intros ->. Qed.

Lemma kv_add_lookup k x l k' :
  kv_sorted l ->
  kv_lookup k' (kv_add k x l) =
  match kv_lookup k' l with
  | Some y => Some y
  | None => if decide (k' = k) then Some x else None
  end.
Proof.
  intros Hs. unfold kv_add. destruct (kv_lookup k l) eqn:Hk.
  - destruct (kv_lookup k' l) eqn:Hk'; [done|]. case_decide; congruence.
  - rewrite kv_lookup_insert by done. case_decide as He; [by rewrite He, Hk|].
    by destruct (kv_lookup k' l).
Qed.

Lemma elem_of_kv_add k x l e : e ∈ l -> e ∈ kv_add k x l.
Proof.
  unfold kv_add. destruct (kv_lookup k l) eqn:Hk; [done|].
  rewrite elem_of_kv_insert by done. auto.
Qed.

Lemma elem_of_kv_add_inv k x l e : e ∈ kv_add k x l -> e = (k, x) \/ e ∈ l.
Proof.
  unfold kv_add. destruct (kv_lookup k l) eqn:Hk; [auto|].
  by rewrite elem_of_kv_insert.
Qed.

Lemma kv_add_below k x l : (forall e, e ∈ l -> e.1 < k) -> kv_add k x l = l ++ [(k, x)].
Proof.
  intros Hl. rewrite kv_add_absent.
  - unfold kv_insert. rewrite kv_below_all by done. rewrite kv_above_none; [done|].
    intros e He. specialize (Hl e He). lia.
  - apply kv_lookup_all_ne. intros e He. specialize (Hl e He). lia.
Qed.

Lemma kv_add_first k x l k0 :
  kv_sorted l -> kv_first l = Some k0 -> k0 <= k -> kv_first (kv_add k x l) = Some k0.
Proof.
  intros Hs Hf Hle. unfold kv_add. destruct (kv_lookup k l) eqn:Hk; [done|].
  destruct l as [|[k1 y] l]; [done|]. cbn in Hf. injection Hf as ->.
  assert (Hne : k0 <> k) by (intros ->; cbn in Hk; by rewrite Z.eqb_refl in Hk).
  unfold kv_insert, kv_below. rewrite filter_cons_True by (cbn; lia). done.
Qed.

Lemma kv_add_nonempty k x l : kv_add k x l <> [].
Proof.
  unfold kv_add. destruct (kv_lookup k l) eqn:Hk.
  - by intros ->.
  - unfold kv_insert. by destruct (kv_below k l).
Qed.

Lemma elem_of_kv_add_key k x l : (k, x) ∈ kv_add k x l \/ exists y, (k, y) ∈ l /\ kv_lookup k l = Some y.
Proof.
  unfold kv_add. destruct (kv_lookup k l) as [y|] eqn:Hk.
  - right. exists y. split; [by apply kv_lookup_elem|done].
  - left. rewrite elem_of_kv_insert by done. by left.
Qed.

Lemma kv_first_app l l' : l <> [] -> kv_first (l ++ l') = kv_first l.
Proof. by destruct l. Qed.

Lemma kv_first_Some l k : kv_first l = Some k -> exists x l', l = (k, x) :: l'.
Proof. destruct l as [|[k0 x] l']; [done|]. cbn. intros [= ->]. eauto. Qed.

Lemma kv_first_nonempty l : l <> [] -> exists k, kv_first l = Some k.
Proof. destruct l as [|[k x] l']; [done|]. cbn. eauto. Qed.

Lemma kv_first_None l : kv_first l = None -> l = [].
Proof. by destruct l. Qed.
End KvAdd.

Section Layers.
Context {D X : Type}.

Record anode := ANode {
  a_ptr : ptr;
  a_orphan : bool;
  a_ext : X;
  a_elems : list (Z * value D);
}.
Implicit Types (a b : anode) (l m : list anode) (k : Z) (v : value D).

(** The entries of a layer. *)
Definition flat l : list (Z * value D) := l ≫= a_elems.

Lemma flat_app l m : flat (l ++ m) = flat l ++ flat m.
Proof. apply bind_app. Qed.

Lemma flat_cons a l : flat (a :: l) = a_elems a ++ flat l.
Proof. done. Qed.

Lemma flat_mid l a m : flat (l ++ a :: m) = flat l ++ a_elems a ++ flat m.
Proof. by rewrite flat_app. Qed.

Lemma elem_of_flat l e : e ∈ flat l <-> exists a, a ∈ l /\ e ∈ a_elems a.
Proof. unfold flat. rewrite list_elem_of_bind. split; intros (a & ? & ?); eauto. Qed.

(** ** One layer *)

(** A node that is not the head. *)
Definition body_ok a : Prop := a_elems a <> [] /\ is_heap (a_ptr a).

Record layer_ok (n : nat) l : Prop := {
  lo_head : exists a l', l = a :: l' /\ a_ptr a = Head n /\ a_orphan a = true /\ Forall body_ok l';
  lo_sorted : kv_sorted (flat l);
}.

(** [a] is a node from which walking right finds [k]: the head, or a node
    whose first key is at most [k]. *)
Definition starts k l a : Prop :=
  l = [] \/ exists k', kv_first (a_elems a) = Some k' /\ k' <= k.

(** [a] covers [k] in the layer [l ++ a :: m]. *)
Definition covers k l a m : Prop :=
  starts k l a /\ forall e, e ∈ flat m -> k < e.1.

(** *** Searching a sorted layer *)

Section Sorted.
Context (l : list anode) (a : anode) (m : list anode).
Context (Hsorted : kv_sorted (flat (l ++ a :: m))).

Lemma flat_parts :
  (forall e e', e ∈ flat l -> e' ∈ a_elems a -> e.1 < e'.1) /\
  (forall e e', e ∈ flat l -> e' ∈ flat m -> e.1 < e'.1) /\
  (forall e e', e ∈ a_elems a -> e' ∈ flat m -> e.1 < e'.1) /\
  kv_sorted (flat l) /\ kv_sorted (a_elems a) /\ kv_sorted (flat m).
Proof.
  pose proof Hsorted as H. rewrite flat_mid in H.
  apply kv_sorted_app in H as (H1 & H2 & (H3 & H4 & H5)%kv_sorted_app).
  split_and!; auto; intros e e' He He'; apply H1; auto; apply elem_of_app; auto.
Qed.

(** What is left of a starting node is below the key. *)
Lemma flat_starts_left k : starts k l a -> forall e, e ∈ flat l -> e.1 < k.
Proof.
  intros [Hl|(k' & Hf & Hle)] e He.
  - rewrite Hl in He. by apply elem_of_nil in He.
  - destruct flat_parts as (H1 & _). apply kv_first_elem in Hf as (e' & He' & Hk).
    specialize (H1 e e' He He'). lia.
Qed.

Lemma covers_lte k : covers k l a m -> kv_lte k (flat (l ++ a :: m)) = kv_lte k (a_elems a).
Proof.
  intros [Hst Hr]. rewrite flat_mid, app_assoc, kv_lte_app_l by done.
  destruct Hst as [Hl|(k' & Hf & Hle)]; [by rewrite Hl|].
  apply kv_first_elem in Hf as (e' & He' & Hk). apply (kv_lte_app_r _ _ _ e'); [done|lia].
Qed.

Lemma flat_covers_lookup k :
  covers k l a m -> kv_lookup k (flat (l ++ a :: m)) = kv_lookup k (a_elems a).
Proof.
  intros [Hst Hr]. rewrite flat_mid, !kv_lookup_app.
  rewrite (kv_lookup_all_ne k (flat l)).
  - destruct (kv_lookup k (a_elems a)); [done|].
    apply kv_lookup_all_ne. intros e He. specialize (Hr e He). lia.
  - intros e He. pose proof (flat_starts_left k Hst e He). lia.
Qed.

Lemma flat_covers_insert k v :
  covers k l a m ->
  kv_insert k v (flat (l ++ a :: m)) = flat l ++ kv_insert k v (a_elems a) ++ flat m.
Proof.
  intros [Hst Hr]. rewrite flat_mid, kv_insert_app_r by (by apply flat_starts_left).
  by rewrite kv_insert_app_l.
Qed.

(** The test by which [check_next] stops early: the last key of the node
    is at least the key. *)
Lemma flat_covers_last k k' :
  starts k l a -> kv_last (a_elems a) = Some k' -> k <= k' -> covers k l a m.
Proof.
  intros Hst Hla Hle. split; [done|]. intros e He.
  apply kv_last_elem in Hla as (e' & He' & Hk). destruct flat_parts as (_ & _ & H3 & _).
  specialize (H3 e' e He' He). lia.
Qed.
End Sorted.

(** The other test: the first key of the next node is above the key. *)
Lemma flat_covers_next l a b m k k' :
  kv_sorted (flat (l ++ a :: b :: m)) -> starts k l a ->
  kv_first (a_elems b) = Some k' -> k < k' -> covers k l a (b :: m).
Proof.
  intros Hok Hst Hf Hlt. split; [done|]. intros e He.
  destruct (flat_parts l a (b :: m) Hok) as (_ & _ & _ & _ & _ & Hs).
  pose proof (kv_first_le (flat (b :: m)) k' e Hs). rewrite flat_cons in H.
  apply kv_first_Some in Hf as (x & l' & Hf). rewrite Hf in H. specialize (H eq_refl).
  rewrite flat_cons, Hf in He. specialize (H He). lia.
Qed.

Section Layer.
Context (n : nat) (l : list anode) (a : anode) (m : list anode).
Context (Hok : layer_ok n (l ++ a :: m)).

Lemma layer_parts :
  (forall e e', e ∈ flat l -> e' ∈ a_elems a -> e.1 < e'.1) /\
  (forall e e', e ∈ flat l -> e' ∈ flat m -> e.1 < e'.1) /\
  (forall e e', e ∈ a_elems a -> e' ∈ flat m -> e.1 < e'.1) /\
  kv_sorted (flat l) /\ kv_sorted (a_elems a) /\ kv_sorted (flat m).
Proof. exact (flat_parts l a m (lo_sorted _ _ Hok)). Qed.

Lemma layer_head_cases :
  (l = [] /\ a_ptr a = Head n /\ a_orphan a = true) \/
  (l <> [] /\ body_ok a).
Proof.
  destruct (lo_head _ _ Hok) as (a0 & l' & He & Hp & Ho & Hb).
  destruct l as [|b l0]; cbn in He; simplify_eq; [by left|right].
  split; [done|]. rewrite Forall_forall in Hb. apply Hb.
  apply elem_of_app. right. left.
Qed.

Lemma layer_tail_ok : Forall body_ok m.
Proof.
  destruct (lo_head _ _ Hok) as (a0 & l' & He & _ & _ & Hb).
  destruct l as [|b l0]; cbn in He; simplify_eq; [done|].
  apply Forall_app in Hb as [_ Hb]. by apply Forall_cons in Hb as [_ Hb].
Qed.

Lemma starts_left k : starts k l a -> forall e, e ∈ flat l -> e.1 < k.
Proof. exact (flat_starts_left _ _ _ (lo_sorted _ _ Hok) k). Qed.

Lemma covers_lookup k :
  covers k l a m -> kv_lookup k (flat (l ++ a :: m)) = kv_lookup k (a_elems a).
Proof. exact (flat_covers_lookup l a m (lo_sorted _ _ Hok) k). Qed.

Lemma covers_insert k v :
  covers k l a m ->
  kv_insert k v (flat (l ++ a :: m)) = flat l ++ kv_insert k v (a_elems a) ++ flat m.
Proof. exact (flat_covers_insert l a m (lo_sorted _ _ Hok) k v). Qed.

Lemma covers_add k v :
  covers k l a m ->
  kv_add k v (flat (l ++ a :: m)) = flat l ++ kv_add k v (a_elems a) ++ flat m.
Proof.
  intros Hc. unfold kv_add. rewrite covers_lookup by done.
  destruct (kv_lookup k (a_elems a)); [apply flat_mid|by apply covers_insert].
Qed.

Lemma covers_last k k' :
  starts k l a -> kv_last (a_elems a) = Some k' -> k <= k' -> covers k l a m.
Proof. exact (flat_covers_last l a m (lo_sorted _ _ Hok) k k'). Qed.
End Layer.

Lemma covers_next n l a b m k k' :
  layer_ok n (l ++ a :: b :: m) -> starts k l a ->
  kv_first (a_elems b) = Some k' -> k < k' -> covers k l a (b :: m).
Proof. intros Hok. exact (flat_covers_next l a b m k k' (lo_sorted _ _ Hok)). Qed.

(** Two nodes of a layer with the same first key are the same node. *)
Lemma first_unique n l a b k :
  layer_ok n l -> a ∈ l -> b ∈ l ->
  kv_first (a_elems a) = Some k -> kv_first (a_elems b) = Some k -> a = b.
Proof.
  intros Hok (l1 & l2 & ->)%list_elem_of_split Hb Ha Hfb.
  destruct (layer_parts _ _ _ _ Hok) as (H1 & _ & H3 & _).
  apply kv_first_elem in Ha as (ea & Hea & Hka). apply kv_first_elem in Hfb as (eb & Heb & Hkb).
  apply elem_of_app in Hb as [Hb|[->|Hb]%elem_of_cons]; [|done|].
  - specialize (H1 eb ea). rewrite elem_of_flat in H1. specialize (H1 ltac:(eauto) Hea). lia.
  - specialize (H3 ea eb Hea). rewrite elem_of_flat in H3. specialize (H3 ltac:(eauto)). lia.
Qed.

(** The covering node, computed: the last node that is the head or starts at
    or below the key. *)
Definition starts_le k a : bool :=
  match kv_first (a_elems a) with Some k' => k' <=? k | None => false end.

Definition cover_node k l : option anode :=
  match l with
  | [] => None
  | a :: m => Some (default a (last (filter (fun b => starts_le k b = true) m)))
  end.

Lemma covers_cover_node n k l a m :
  layer_ok n (l ++ a :: m) -> covers k l a m -> cover_node k (l ++ a :: m) = Some a.
Proof.
  intros Hok [Hst Hr].
  assert (Hm : filter (fun b => starts_le k b = true) m = []).
  { apply elem_of_nil_inv. intros b [Hle Hb]%list_elem_of_filter. unfold starts_le in Hle.
    destruct (kv_first (a_elems b)) as [k'|] eqn:Hk; [|done]. apply Z.leb_le in Hle.
    apply kv_first_elem in Hk as (e & He & Hk). specialize (Hr e).
    rewrite elem_of_flat in Hr. specialize (Hr ltac:(eauto)). lia. }
  destruct l as [|a0 l]; cbn [cover_node app]; [by rewrite Hm|].
  destruct Hst as [?|(k' & Hk & Hle)]; [done|].
  rewrite filter_app, filter_cons_True, Hm, last_snoc; [done|].
  unfold starts_le. rewrite Hk. by apply Z.leb_le.
Qed.

(** ** All layers *)

Local Abbreviation astate := (list (list anode)).
Implicit Types (S : astate).

(** An entry is good at layer [n]: data at the bottom; above, a pointer to a
    node of the layer below that is no orphan and starts with the key. *)
Definition entry_ok S (n : nat) (e : Z * value D) : Prop :=
  match n with
  | O => exists d, e.2 = VData d
  | Datatypes.S n' => exists m b, S !! n' = Some m /\ b ∈ m /\ e.2 = VDown (a_ptr b) /\
               a_orphan b = false /\ kv_first (a_elems b) = Some e.1
  end.

(** [miss]: the node (layer, pointer) that may lack a parent. *)
Record wf (layers : nat) (miss : option (nat * ptr)) S : Prop := {
  wf_len : length S = layers;
  wf_layer n l : S !! n = Some l -> layer_ok n l;
  wf_entry n l e : S !! n = Some l -> e ∈ flat l -> entry_ok S n e;
  wf_parent n m l b k :
    S !! n = Some m -> S !! Datatypes.S n = Some l -> b ∈ m -> a_orphan b = false ->
    kv_first (a_elems b) = Some k -> miss <> Some (n, a_ptr b) ->
    (k, VDown (a_ptr b)) ∈ flat l;
}.
Lemma wf_weaken layers miss S : wf layers None S -> wf layers miss S.
Proof. intros [H1 H2 H3 H4]. split; auto. intros n m l b k ????? _. by apply (H4 n m l b k). Qed.

(** Nothing is above the top layer to route from. *)
Lemma wf_top layers n p S : (layers <= Datatypes.S n)%nat -> wf layers (Some (n, p)) S -> wf layers None S.
Proof.
  intros Hn [H1 H2 H3 H4]. split; auto. intros n' m l b k Hm Hl Hb Ho Hk _.
  apply (H4 n' m l b k); try done. intros [= -> ->]. apply lookup_lt_Some in Hl. lia.
Qed.

Lemma wf_sorted layers miss S n l : wf layers miss S -> S !! n = Some l -> kv_sorted (flat l).
Proof. intros Hwf Hl. eapply lo_sorted, wf_layer; eauto. Qed.

(** The update every operation makes: the node [a] of layer [L] becomes
    [a'], with new nodes after it. *)
Section Replace.
Context (layers : nat) (miss miss' : option (nat * ptr)) (S : astate).
Context (L : nat) (l1 : list anode) (a a' : anode) (news l2 : list anode).
Context (Hwf : wf layers miss S) (HL : S !! L = Some (l1 ++ a :: l2)).
Context (Hptr : a_ptr a' = a_ptr a) (Horph : a_orphan a' = a_orphan a).
Context (Hfirst : a_orphan a = false -> kv_first (a_elems a') = kv_first (a_elems a)).
Context (Hbody : l1 <> [] -> a_elems a' <> []) (Hnews : Forall body_ok news).
Context (Hsorted : kv_sorted (flat (l1 ++ a' :: news ++ l2))).
Context (Hkeep : forall e, e ∈ a_elems a -> e ∈ flat (a' :: news)).
Context (Hentry : forall e, e ∈ flat (a' :: news) -> e ∈ a_elems a \/ entry_ok S L e).
Context (Hnonorph : forall b, b ∈ news -> a_orphan b = false -> miss' = Some (L, a_ptr b)).
Context (Hmiss : forall n m b k,
  miss = Some (n, a_ptr b) -> S !! n = Some m -> b ∈ m -> a_orphan b = false ->
  kv_first (a_elems b) = Some k ->
  miss' = miss \/ (L = Datatypes.S n /\ (k, VDown (a_ptr b)) ∈ flat (a' :: news))).

Let S' := <[L := l1 ++ a' :: news ++ l2]> S.

Lemma replace_lookup_ne n : n <> L -> S' !! n = S !! n.
Proof. intros Hn. unfold S'. by rewrite list_lookup_insert_ne. Qed.

Lemma replace_lookup : S' !! L = Some (l1 ++ a' :: news ++ l2).
Proof. apply list_lookup_insert_eq. by eapply lookup_lt_Some. Qed.

Lemma replace_flat : flat (l1 ++ a' :: news ++ l2) = flat l1 ++ flat (a' :: news) ++ flat l2.
Proof.
  rewrite flat_app. f_equal. change (a' :: news ++ l2) with ((a' :: news) ++ l2). apply flat_app.
Qed.

Lemma replace_keep e : e ∈ flat (l1 ++ a :: l2) -> e ∈ flat (l1 ++ a' :: news ++ l2).
Proof.
  rewrite replace_flat, flat_mid, !elem_of_app. intros [|[|]]; auto.
Qed.

Lemma replace_layer_ok : layer_ok L (l1 ++ a' :: news ++ l2).
Proof.
  pose proof (wf_layer _ _ _ Hwf _ _ HL) as Hok. split; [|done].
  pose proof (layer_tail_ok _ _ _ _ Hok) as Ht.
  destruct (lo_head _ _ Hok) as (a0 & l' & He & Hp & Ho & Hb).
  destruct l1 as [|b l0]; cbn in He; simplify_eq.
  - exists a', (news ++ l'). split_and!; [done|congruence..|]. by apply Forall_app.
  - exists a0, (l0 ++ a' :: news ++ l2). split_and!; try done.
    apply Forall_app in Hb as [Hb0 [Hba _]%Forall_cons].
    apply Forall_app. split; [done|]. constructor; [|by apply Forall_app].
    split; [by apply Hbody|]. rewrite Hptr. apply Hba.
Qed.

(** A node of the old layer is found in the new one. *)
Lemma replace_elem b :
  b ∈ l1 ++ a :: l2 -> exists b', b' ∈ l1 ++ a' :: news ++ l2 /\ a_ptr b' = a_ptr b /\
    a_orphan b' = a_orphan b /\
    (a_orphan b = false -> kv_first (a_elems b') = kv_first (a_elems b)).
Proof.
  intros [Hb|[->|Hb]%elem_of_cons]%elem_of_app.
  - exists b. split_and!; try done. set_solver.
  - exists a'. split_and!; try done. set_solver.
  - exists b. split_and!; try done. set_solver.
Qed.

Lemma replace_entry_ok n e : entry_ok S n e -> entry_ok S' n e.
Proof.
  destruct n as [|n]; [done|]. intros (m & b & Hm & Hb & He & Ho & Hk).
  destruct (decide (n = L)) as [->|Hn].
  - rewrite HL in Hm. injection Hm as <-.
    destruct (replace_elem b Hb) as (b' & Hb' & Hp' & Ho' & Hk').
    exists (l1 ++ a' :: news ++ l2), b'. rewrite replace_lookup, Hp', Ho', Hk' by done. done.
  - exists m, b. by rewrite replace_lookup_ne.
Qed.

Lemma wf_replace : wf layers miss' S'.
Proof.
  split.
  - unfold S'. rewrite length_insert. by apply Hwf.
  - intros n l Hl. destruct (decide (n = L)) as [->|Hn].
    + rewrite replace_lookup in Hl. injection Hl as <-. apply replace_layer_ok.
    + rewrite replace_lookup_ne in Hl by done. by apply (wf_layer _ _ _ Hwf).
  - intros n l e Hl He. apply replace_entry_ok. destruct (decide (n = L)) as [->|Hn].
    + rewrite replace_lookup in Hl. injection Hl as <-.
      rewrite replace_flat, !elem_of_app in He.
      pose proof (wf_entry _ _ _ Hwf L _ e HL) as Hold. rewrite flat_mid, !elem_of_app in Hold.
      destruct He as [He|[He|He]]; [by auto| |by auto].
      destruct (Hentry e He); auto.
    + rewrite replace_lookup_ne in Hl by done. by apply (wf_entry _ _ _ Hwf n l).
  - intros n m l b k Hm Hl Hb Ho Hk Hne.
    (* the node as it was *)
    assert (Hold : exists m0 b0, S !! n = Some m0 /\ b0 ∈ m0 /\ a_ptr b0 = a_ptr b /\
              a_orphan b0 = false /\ kv_first (a_elems b0) = Some k).
    { destruct (decide (n = L)) as [->|Hn].
      - rewrite replace_lookup in Hm. injection Hm as <-.
        apply elem_of_app in Hb as [Hb|[->|[Hb|Hb]%elem_of_app]%elem_of_cons].
        + exists (l1 ++ a :: l2), b. split_and!; try done. set_solver.
        + exists (l1 ++ a :: l2), a. rewrite <- Hfirst by congruence.
          split_and!; try done; [set_solver|congruence].
        + by destruct Hne; apply Hnonorph.
        + exists (l1 ++ a :: l2), b. split_and!; try done. set_solver.
      - rewrite replace_lookup_ne in Hm by done. by exists m, b. }
    destruct Hold as (m0 & b0 & Hm0 & Hb0 & Hp0 & Ho0 & Hk0).
    destruct (decide (Datatypes.S n = L)) as [HnL|HnL].
    + assert (l = l1 ++ a' :: news ++ l2) as ->.
      { rewrite HnL in Hl. rewrite replace_lookup in Hl. by injection Hl as <-. }
      rewrite <- Hp0. destruct (decide (miss = Some (n, a_ptr b0))) as [Hmi|Hmi].
      * destruct (Hmiss n m0 b0 k Hmi) as [He|[_ Hin]]; try done.
        { destruct Hne. by rewrite He, Hmi, Hp0. }
        rewrite replace_flat, !elem_of_app. auto.
      * apply replace_keep. eapply (wf_parent _ _ _ Hwf n m0); eauto. congruence.
    + rewrite replace_lookup_ne in Hl by done. rewrite <- Hp0.
      eapply (wf_parent _ _ _ Hwf n m0); eauto. intros Hmi.
      destruct (Hmiss n m0 b0 k Hmi) as [He|[? _]]; try done.
      destruct Hne. by rewrite He, Hmi, Hp0.
Qed.
End Replace.
End Layers.

Arguments anode D X : clear implicits.
