(* ===== verification/Heap.v ===== *)
(** * Heap: memory that represents layers, and how accesses act on it

    [node_is] says what one node in memory holds, [seg] that a list of abstract
    nodes is a chain of [next] pointers, and [repr] that memory holds exactly
    the layers of an abstract state, with no node leaked.  The [run_] lemmas
    execute one access in such a memory, for a thread that runs alone. *)

From S2P Require Import Prelude KvList Prog SvLock VecSpec HazardPtr World Layers.

Local Open Scope Z_scope.

(** ** Hazard pointers of a thread that runs alone *)

(** No thread has a zombie: the cache unlinks no node. *)
Definition no_zombies (m : mgr_t) : Prop := Forall (fun e => Thread.count e.2 = O) m.

(** Thread [t] protects [h], and no other thread protects anything. *)
Definition hps (t : nat) (h : Thread.held ptr) (m : mgr_t) : Prop :=
  (exists c, Manager.thread_ctx t m = Some c /\ Thread.slots c h) /\
  Manager.mgr_count_reserved m = length (Thread.held_list h) /\ no_zombies m.

(** Between two operations: nothing is protected; the thread may not have a
    context yet. *)
Definition hps_idle (t : nat) (m : mgr_t) : Prop :=
  hps t Thread.HNone m \/
  (Manager.thread_ctx t m = None /\ Manager.mgr_count_reserved m = O /\ no_zombies m).

Lemma hps_idle_none t m : hps t Thread.HNone m -> hps_idle t m.
Proof. by left. Qed.

Lemma hps_idle_quiet t m :
  hps_idle t m -> Manager.mgr_count_reserved m = O /\ no_zombies m.
Proof. intros [(_ & Hn & Hz)|(_ & Hn & Hz)]; done. Qed.

Lemma no_zombies_set t c c' m :
  no_zombies m -> Manager.thread_ctx t m = Some c -> Thread.count c' = Thread.count c ->
  no_zombies (Manager.set_ctx t c' m).
Proof.
  unfold no_zombies. induction m as [|[u d] m IH]; cbn; [done|].
  intros [Hd Hm]%Forall_cons Hc Heq. case_decide; constructor; auto; cbn in *; simplify_eq; congruence.
Qed.

Lemma count_reserved_set t (c c' : Thread.ctx ptr) (m : mgr_t) :
  Manager.thread_ctx t m = Some c ->
  (Manager.mgr_count_reserved (Manager.set_ctx t c' m) + Thread.count_reserved c =
   Manager.mgr_count_reserved m + Thread.count_reserved c')%nat.
Proof.
  induction m as [|[u d] m IH]; cbn; [done|]. case_decide; intros Hc; simplify_eq; cbn; [lia|].
  specialize (IH Hc). unfold Manager.mgr_count_reserved in IH. lia.
Qed.

(** A slot operation in the manager does to this thread what it does to its
    context. *)
Lemma with_ctx_hps t (f : Thread.ctx ptr -> option (Thread.ctx ptr)) h h' m :
  (forall c, Thread.slots c h -> exists c', f c = Some c' /\ Thread.slots c' h') ->
  (forall c c', f c = Some c' -> Thread.count c' = Thread.count c) ->
  hps t h m -> exists m', Manager.with_ctx f t m = Some m' /\ hps t h' m'.
Proof.
  intros Hf Hcount ((c & Hc & Hs) & Hn & Hz). destruct (Hf c Hs) as (c' & Hfc & Hs').
  unfold Manager.with_ctx. step_with Hc. step_with Hfc. eexists. split; [reflexivity|].
  split; [exists c'; by rewrite (Manager.thread_ctx_set t c)|].
  split; [|eapply no_zombies_set; eauto].
  pose proof (count_reserved_set t c c' m Hc) as Hcr.
  rewrite (Thread.count_reserved_held c h), (Thread.count_reserved_held c' h') in Hcr by done. lia.
Qed.

Lemma init_hps cap t m : hps_idle t m -> hps t Thread.HNone (Manager.init_context cap t m).
Proof.
  unfold Manager.init_context. intros [H|(Hc & Hn & Hz)].
  - destruct H as ((c & Hc & Hs) & Hn & Hz). rewrite Hc. split; [eauto|done].
  - rewrite Hc. split; [|split; [done|by constructor]]. exists (Thread.ctx_new cap). cbn. rewrite decide_True by done.
    split; [done|apply Thread.slots_new].
Qed.

Section Heap.
Context {D X : Type} {vec : Type -> Type} `{HV : VecOps vec} `{HS : !VecSpec vec}.
Context (t : nat).

Local Abbreviation node := (node D X vec).
Local Abbreviation anode := (anode D X).
Local Abbreviation run := (run (handle (D:=D) (X:=X) (vec:=vec) t)).
Implicit Types (N : gmap ptr node) (fr : positive) (m : mgr_t) (p q : ptr).
Implicit Types (a : anode) (l news : list anode) (S : list (list anode)).

(** ** Nodes *)

(** Node [p] has lock [al], plain fields [x], successor [nx], content [el]. *)
Definition node_is N p (al : alock) (x : X) (nx : option ptr) (el : list (Z * value D)) : Prop :=
  exists v, N !! p = Some (Node (encode al) x nx v) /\ alock_ok al /\ v_ok v /\ v_elems v = el.

Lemma node_is_insert N p al x nx v :
  alock_ok al -> v_ok v ->
  node_is (<[p := Node (encode al) x nx v]> N) p al x nx (v_elems v).
Proof. intros Ha Hv. exists v. by rewrite lookup_insert_eq. Qed.

Lemma node_is_frame N N' p al x nx el :
  N' !! p = N !! p -> node_is N p al x nx el -> node_is N' p al x nx el.
Proof. intros He (v & Hn & H). exists v. by rewrite He. Qed.

(** A node at rest. *)
Definition rest N (a : anode) (nx : option ptr) : Prop :=
  exists c, node_is N (a_ptr a) (ALock (a_orphan a) Unlocked c) (a_ext a) nx (a_elems a).

Definition head_or (l : list anode) (nx : option ptr) : option ptr :=
  match l with [] => nx | a :: _ => Some (a_ptr a) end.

(** A chain of nodes at rest that ends with the successor [nx]. *)
Fixpoint seg N (l : list anode) (nx : option ptr) : Prop :=
  match l with
  | [] => True
  | a :: l' => rest N a (head_or l' nx) /\ seg N l' nx
  end.

Lemma seg_app N l1 l2 nx :
  seg N (l1 ++ l2) nx <-> seg N l1 (head_or l2 nx) /\ seg N l2 nx.
Proof.
  induction l1 as [|a l1 IH]; cbn; [tauto|]. rewrite IH.
  replace (head_or (l1 ++ l2) nx) with (head_or l1 (head_or l2 nx)) by (by destruct l1). tauto.
Qed.

Lemma seg_frame N N' l nx :
  (forall a, a ∈ l -> N' !! a_ptr a = N !! a_ptr a) -> seg N l nx -> seg N' l nx.
Proof.
  induction l as [|a l IH]; cbn; [done|]. intros Hf [(c & Hr) Hs]. split.
  - exists c. apply (node_is_frame N); [apply Hf; by left|done].
  - apply IH; [|done]. intros b Hb. apply Hf. by right.
Qed.

Lemma seg_mid N l1 a l2 nx :
  seg N (l1 ++ a :: l2) nx -> rest N a (head_or l2 nx).
Proof. rewrite seg_app. cbn. tauto. Qed.

(** ** Memory *)

Definition ptrs (S : list (list anode)) : list ptr := S ≫= map a_ptr.

(** Memory holds the layers of [S], and no other allocated node. *)
Record repr N fr (S : list (list anode)) : Prop := {
  r_seg n l : S !! n = Some l -> seg N l None;
  r_nodup : NoDup (ptrs S);
  r_dom n : is_Some (N !! Heap n) <-> Heap n ∈ ptrs S;
  r_fresh n : Heap n ∈ ptrs S -> (n < fr)%positive;
}.

Lemma elem_of_ptrs S n l a : S !! n = Some l -> a ∈ l -> a_ptr a ∈ ptrs S.
Proof.
  intros Hl Ha. apply list_elem_of_bind. exists l. split.
  - apply list_elem_of_fmap. eauto.
  - eapply list_elem_of_lookup_2; eauto.
Qed.

Lemma repr_fresh N fr S : repr N fr S -> N !! Heap fr = None.
Proof.
  intros Hr. destruct (N !! Heap fr) eqn:He; [|done].
  assert (Heap fr ∈ ptrs S) as Hin by (apply (r_dom _ _ _ Hr); eauto).
  apply (r_fresh _ _ _ Hr) in Hin. lia.
Qed.

Lemma repr_rest N fr S n l1 a l2 :
  repr N fr S -> S !! n = Some (l1 ++ a :: l2) -> rest N a (head_or l2 None).
Proof. intros Hr Hl. eapply seg_mid, r_seg; eauto. Qed.

Lemma ptrs_replace S n (l l' l0 : list anode) :
  S !! n = Some l -> map a_ptr l' ≡ₚ map a_ptr l0 ++ map a_ptr l ->
  ptrs (<[n := l']> S) ≡ₚ map a_ptr l0 ++ ptrs S.
Proof.
  intros Hl Hp. pose proof (lookup_lt_Some _ _ _ Hl) as Hlt.
  rewrite insert_take_drop by done. unfold ptrs.
  rewrite <- (take_drop_middle S n l) at 3 by done.
  rewrite !bind_app, !bind_cons, Hp.
  solve_Permutation.
Qed.

(** No other node of the layers has the pointer of [a]. *)
Lemma ptr_other S L l1 a l2 :
  NoDup (ptrs S) -> S !! L = Some (l1 ++ a :: l2) ->
  (forall b, b ∈ l1 \/ b ∈ l2 -> a_ptr b <> a_ptr a) /\
  (forall n l b, n <> L -> S !! n = Some l -> b ∈ l -> a_ptr b <> a_ptr a).
Proof.
  intros HndS HL.
  assert (Hsplit : ptrs S = ptrs (take L S) ++ (map a_ptr l1 ++ a_ptr a :: map a_ptr l2) ++
                            ptrs (drop (Datatypes.S L) S)).
  { rewrite <- (take_drop_middle S L _ HL) at 1. unfold ptrs.
    by rewrite bind_app, bind_cons, map_app. }
  rewrite Hsplit in HndS.
  apply NoDup_app in HndS as (_ & H1 & HndS). apply NoDup_app in HndS as (HndS & H2 & _).
  apply NoDup_app in HndS as (_ & H3 & [H4 _]%NoDup_cons).
  assert (Ha : a_ptr a ∈ map a_ptr l1 ++ a_ptr a :: map a_ptr l2).
  { apply elem_of_app. right. left. }
  split.
  - intros b [Hb|Hb] He; apply (list_elem_of_fmap_2 a_ptr) in Hb; rewrite He in Hb.
    + apply (H3 _ Hb). left.
    + done.
  - intros n l b Hn Hl Hb He. destruct (decide (n < L)%nat) as [Hlt|Hge].
    + apply (H1 (a_ptr a)); [|by apply elem_of_app; left].
      rewrite <- He. eapply elem_of_ptrs; [|exact Hb]. by rewrite lookup_take_lt.
    + apply (H2 (a_ptr a) Ha). rewrite <- He.
      apply (elem_of_ptrs _ (n - Datatypes.S L) l); [|done].
      rewrite lookup_drop, <- Hl. f_equal. lia.
Qed.

(** The node [a] of a layer became [a'] with new nodes after it, and nothing
    else changed. *)
Section Replace.
Context (N N' : gmap ptr node) (fr fr' : positive) (S : list (list anode)) (L : nat).
Context (l1 : list anode) (a a' : anode) (news l2 : list anode).
Context (Hr : repr N fr S) (HL : S !! L = Some (l1 ++ a :: l2)) (Hp : a_ptr a' = a_ptr a).
Context (Hframe : forall p, p <> a_ptr a -> p ∉ map a_ptr news -> N' !! p = N !! p).
Context (Hseg : seg N' (a' :: news) (head_or l2 None)).
Context (Hnd : NoDup (map a_ptr news)) (Hfr : (fr <= fr')%positive).
Context (Hnews : forall b, b ∈ news -> exists n, a_ptr b = Heap n /\ (fr <= n < fr')%positive).

Lemma replace_perm :
  ptrs (<[L := l1 ++ a' :: news ++ l2]> S) ≡ₚ map a_ptr news ++ ptrs S.
Proof using HL Hp.
  apply (ptrs_replace S L (l1 ++ a :: l2)); [done|].
  rewrite !map_app. cbn. rewrite map_app, Hp. solve_Permutation.
Qed.

Lemma replace_disjoint p : p ∈ map a_ptr news -> p ∉ ptrs S.
Proof using Hnews Hr.
  intros (b & -> & Hb)%list_elem_of_fmap Hin. destruct (Hnews b Hb) as (n & He & Hn).
  rewrite He in Hin. apply (r_fresh _ _ _ Hr) in Hin. lia.
Qed.

Lemma replace_frame n l b :
  S !! n = Some l -> b ∈ l -> a_ptr b <> a_ptr a -> N' !! a_ptr b = N !! a_ptr b.
Proof using Hframe Hnews Hr.
  intros Hl Hb Hne. apply Hframe; [done|]. intros Hin. apply (replace_disjoint _ Hin).
  by eapply elem_of_ptrs.
Qed.

Lemma replace_seg n l : <[L := l1 ++ a' :: news ++ l2]> S !! n = Some l -> seg N' l None.
Proof using HL Hframe Hnews Hp Hr Hseg.
  destruct (ptr_other S L l1 a l2 (r_nodup _ _ _ Hr) HL) as [Hsame Hothers].
  intros Hl. destruct (decide (n = L)) as [->|Hn].
  - rewrite list_lookup_insert_eq in Hl by (by eapply lookup_lt_Some). injection Hl as <-.
    pose proof (r_seg _ _ _ Hr _ _ HL) as Hs. apply seg_app in Hs as [Hs1 [_ Hs2]].
    apply seg_app. cbn [head_or] in *. rewrite Hp. split.
    + eapply seg_frame; [|exact Hs1]. intros b Hb.
      eapply replace_frame; [exact HL|apply elem_of_app; by left|auto].
    + change (a' :: news ++ l2) with ((a' :: news) ++ l2). apply seg_app. split; [done|].
      eapply seg_frame; [|exact Hs2]. intros b Hb.
      eapply replace_frame; [exact HL|apply elem_of_app; do 2 right; done|auto].
  - rewrite list_lookup_insert_ne in Hl by done.
    eapply seg_frame; [|by apply (r_seg _ _ _ Hr n)]. intros b Hb. eapply replace_frame; eauto.
Qed.

Lemma replace_dom n :
  is_Some (N' !! Heap n) <-> Heap n ∈ ptrs (<[L := l1 ++ a' :: news ++ l2]> S).
Proof using HL Hframe Hp Hr Hseg.
  rewrite replace_perm, elem_of_app.
  destruct (decide (Heap n ∈ map a_ptr (a' :: news))) as [Hin|Hin].
  - split; intros _.
    + rewrite map_cons, elem_of_cons in Hin. destruct Hin as [He|Hin]; [right|by left].
      rewrite He, Hp. eapply elem_of_ptrs; [exact HL|apply elem_of_app; right; left].
    + apply list_elem_of_fmap in Hin as (b & He & Hb). rewrite He.
      apply list_elem_of_split in Hb as (s1 & s2 & Hb). rewrite Hb in Hseg.
      apply seg_mid in Hseg as (c & v & Hv & _). eauto.
  - rewrite map_cons, not_elem_of_cons in Hin. destruct Hin as [Hpa Hpn].
    rewrite Hframe by congruence. rewrite (r_dom _ _ _ Hr). tauto.
Qed.

Lemma repr_replace : repr N' fr' (<[L := l1 ++ a' :: news ++ l2]> S).
Proof using All.
  split.
  - apply replace_seg.
  - rewrite replace_perm. apply NoDup_app.
    split_and!; [done|apply replace_disjoint|apply (r_nodup _ _ _ Hr)].
  - apply replace_dom.
  - intros n. rewrite replace_perm, elem_of_app. intros [Hin|Hin].
    + apply list_elem_of_fmap in Hin as (b & He & Hb).
      destruct (Hnews b Hb) as (n' & He' & Hn'). rewrite He' in He. injection He as ->. lia.
    + apply (r_fresh _ _ _ Hr) in Hin. lia.
Qed.
End Replace.

(** ** Accesses that do not change memory *)

Lemma set_node_id N fr m p n : N !! p = Some n -> set_node p n (World N fr m) = World N fr m.
Proof. intros Hn. unfold set_node. cbn. by rewrite insert_id. Qed.

Section Read.
Context (N : gmap ptr node) (fr : positive) (m : mgr_t) (p : ptr).
Context (al : alock) (x : X) (nx : option ptr) (el : list (Z * value D)).
Context (Hp : node_is N p al x nx el).

Lemma run_load_next : run (load_next p) (World N fr m) = Done nx (World N fr m).
Proof. destruct Hp as (v & Hn & _). cbn. by rewrite Hn. Qed.

Lemma run_load_ext : run (trigger (ELoadExt p)) (World N fr m) = Done x (World N fr m).
Proof. destruct Hp as (v & Hn & _). cbn. by rewrite Hn. Qed.

Lemma run_lock_read {B} (f : Z -> option (B * Z)) b :
  f (encode al) = Some (b, encode al) ->
  run (lock_rmw p f) (World N fr m) = Done b (World N fr m).
Proof.
  intros Hf. destruct Hp as (v & Hn & _). cbn. rewrite Hn. cbn. rewrite Hf. cbn.
  by rewrite set_node_id.
Qed.

Lemma run_begin_read :
  al_state al = Unlocked ->
  run (lock_rmw p begin_read) (World N fr m) = Done (encode al) (World N fr m).
Proof.
  intros Hst. apply run_lock_read. rewrite begin_read_encode. do 2 f_equal.
  unfold al_to. destruct al; cbn in Hst. by subst.
Qed.

Lemma run_confirm_read :
  al_state al = Unlocked ->
  run (lock_rmw p (confirm_read (encode al))) (World N fr m) = Done true (World N fr m).
Proof.
  intros Hst. apply run_lock_read. rewrite confirm_read_encode. do 2 f_equal.
  apply bool_decide_eq_true_2. unfold al_unfreeze. by rewrite Hst.
Qed.

Lemma run_vec_get {B} (f : vec (value D) -> option B) b :
  (forall v, v_ok v -> v_elems v = el -> f v = Some b) ->
  run (vec_get p f) (World N fr m) = Done b (World N fr m).
Proof.
  intros Hf. destruct Hp as (v & Hn & _ & Hv & He). cbn. rewrite Hn. cbn.
  rewrite Hf by done. cbn. by rewrite set_node_id.
Qed.

(** ** Accesses that change one node *)

Lemma run_lock_upd {B} (f : Z -> option (B * Z)) b al' :
  alock_ok al' -> f (encode al) = Some (b, encode al') ->
  exists n', run (lock_rmw p f) (World N fr m) = Done b (World (<[p := n']> N) fr m) /\
    node_is (<[p := n']> N) p al' x nx el.
Proof.
  intros Ha Hf. destruct Hp as (v & Hn & _ & Hv & He). cbn. rewrite Hn. cbn. rewrite Hf. cbn.
  eexists. split; [reflexivity|]. rewrite <- He. by apply node_is_insert.
Qed.

Lemma run_store_next (q : option ptr) :
  exists n', run (store_next p q) (World N fr m) = Done tt (World (<[p := n']> N) fr m) /\
    node_is (<[p := n']> N) p al x q el.
Proof.
  destruct Hp as (v & Hn & Ha & Hv & He). cbn. rewrite Hn. cbn.
  eexists. split; [reflexivity|]. rewrite <- He. by apply node_is_insert.
Qed.

Lemma run_store_ext y :
  exists n', run (trigger (EStoreExt p y)) (World N fr m) =
      Done tt (World (<[p := n']> N) fr m) /\
    node_is (<[p := n']> N) p al y nx el.
Proof.
  destruct Hp as (v & Hn & Ha & Hv & He). cbn. rewrite Hn. cbn.
  eexists. split; [reflexivity|]. rewrite <- He. by apply node_is_insert.
Qed.

Lemma run_vec_upd {B} (f : vec (value D) -> option (B * vec (value D))) b el' :
  (forall v, v_ok v -> v_elems v = el ->
     exists v', f v = Some (b, v') /\ v_ok v' /\ v_elems v' = el') ->
  exists n', run (vec_upd p f) (World N fr m) = Done b (World (<[p := n']> N) fr m) /\
    node_is (<[p := n']> N) p al x nx el'.
Proof.
  intros Hf. destruct Hp as (v & Hn & Ha & Hv & He). destruct (Hf v Hv He) as (v' & Hfv & Hv' & He').
  cbn. rewrite Hn. cbn. rewrite Hfv. cbn.
  eexists. split; [reflexivity|]. rewrite <- He'. by apply node_is_insert.
Qed.
End Read.

(** ** Accesses that involve two nodes, or a new one *)

Lemma run_vec_steal {B} N fr m p q al x nx el al2 x2 nx2 el2
    (f : vec (value D) -> vec (value D) -> option (B * (vec (value D) * vec (value D)))) b el' el2' :
  p <> q -> node_is N p al x nx el -> node_is N q al2 x2 nx2 el2 ->
  (forall v u, v_ok v -> v_ok u -> v_elems v = el -> v_elems u = el2 ->
     exists v' u', f v u = Some (b, (v', u')) /\ v_ok v' /\ v_ok u' /\
       v_elems v' = el' /\ v_elems u' = el2') ->
  exists n1 n2,
    run (vec_steal p q f) (World N fr m) = Done b (World (<[p := n1]> (<[q := n2]> N)) fr m) /\
    node_is (<[p := n1]> (<[q := n2]> N)) p al x nx el' /\
    node_is (<[p := n1]> (<[q := n2]> N)) q al2 x2 nx2 el2'.
Proof.
  intros Hpq (v & Hn & Ha & Hv & He) (u & Hn2 & Ha2 & Hu & He2) Hf.
  destruct (Hf v u Hv Hu He He2) as (v' & u' & Hfv & Hv' & Hu' & He' & He2').
  cbn. rewrite Hn, Hn2. cbn. rewrite bool_decide_eq_true_2 by done. cbn. rewrite Hfv. cbn.
  do 2 eexists. split; [reflexivity|]. split; [rewrite <- He'; by apply node_is_insert|].
  eapply node_is_frame; [by rewrite lookup_insert_ne|]. rewrite <- He2'. by apply node_is_insert.
Qed.

Lemma run_new N fr m o x nx v :
  v_ok v -> v_elems v = [] -> 
  exists n', run (trigger (ENew (Node (sv_lock_new o) x nx v))) (World N fr m) =
      Done (Heap fr) (World (<[Heap fr := n']> N) (Pos.succ fr) m) /\
    node_is (<[Heap fr := n']> N) (Heap fr) (ALock o Unlocked 0) x nx [].
Proof.
  intros Hv He. cbn. rewrite sv_lock_new_encode. eexists. split; [reflexivity|].
  rewrite <- He. apply node_is_insert; [|done]. unfold alock_ok. cbn. lia.
Qed.

Lemma run_passert b N fr m :
  b = true -> run (passert b) (World N fr m) = Done tt (World N fr m).
Proof. by intros ->. Qed.

(** ** Hazard pointer calls *)

Lemma run_hp_call N fr m f m' :
  f t m = Some m' -> run (hp_call f) (World N fr m) = Done tt (World N fr m').
Proof. intros Hf. cbn. by rewrite Hf. Qed.

Lemma run_hp_init cap N fr m :
  hps_idle t m -> exists m', run (hp_init cap) (World N fr m) = Done tt (World N fr m') /\
    hps t Thread.HNone m'.
Proof.
  intros Hm. eexists. split; [by apply run_hp_call|]. by apply init_hps.
Qed.

Lemma run_take_first N fr m p :
  hps t Thread.HNone m ->
  exists m', run (hp_take_first p) (World N fr m) = Done tt (World N fr m') /\
    hps t (Thread.HCurr p) m'.
Proof.
  intros Hm. destruct (with_ctx_hps t (Thread.take_first p) _ (Thread.HCurr p) m
    (fun c => Thread.take_first_held p c)
    (Thread.take_first_count p) Hm) as (m' & Hf & Hm').
  exists m'. split; [by apply run_hp_call|done].
Qed.

Lemma run_take_next N fr m p q :
  hps t (Thread.HCurr p) m ->
  exists m', run (hp_take_next q) (World N fr m) = Done tt (World N fr m') /\
    hps t (Thread.HBoth p q) m'.
Proof.
  intros Hm. destruct (with_ctx_hps t (Thread.take_next q) _ (Thread.HBoth p q) m
    (fun c => Thread.take_next_held p q c)
    (Thread.take_next_count q) Hm) as (m' & Hf & Hm').
  exists m'. split; [by apply run_hp_call|done].
Qed.

Lemma run_drop_next N fr m p q :
  hps t (Thread.HBoth p q) m ->
  exists m', run hp_drop_next (World N fr m) = Done tt (World N fr m') /\
    hps t (Thread.HCurr p) m'.
Proof.
  intros Hm. destruct (with_ctx_hps t Thread.drop_next _ (Thread.HCurr p) m
    (fun c => Thread.drop_next_held p q c)
    (Thread.drop_next_count) Hm) as (m' & Hf & Hm').
  exists m'. split; [by apply run_hp_call|done].
Qed.

Lemma run_drop_curr_both N fr m p q :
  hps t (Thread.HBoth p q) m ->
  exists m', run hp_drop_curr (World N fr m) = Done tt (World N fr m') /\
    hps t (Thread.HCurr q) m'.
Proof.
  intros Hm. destruct (with_ctx_hps t Thread.drop_curr _ (Thread.HCurr q) m
    (fun c => Thread.drop_curr_both p q c)
    (Thread.drop_curr_count) Hm) as (m' & Hf & Hm').
  exists m'. split; [by apply run_hp_call|done].
Qed.

Lemma run_drop_last m p :
  hps t (Thread.HCurr p) m ->
  exists m', (forall N fr, run hp_drop_curr (World N fr m) = Done tt (World N fr m')) /\
    hps t Thread.HNone m'.
Proof.
  intros Hm. destruct (with_ctx_hps t Thread.drop_curr _ Thread.HNone m
    (fun c => Thread.drop_curr_one p c)
    (Thread.drop_curr_count) Hm) as (m' & Hf & Hm').
  exists m'. split; [intros N fr; by apply run_hp_call|done].
Qed.

Lemma run_drop_curr N fr m p :
  hps t (Thread.HCurr p) m ->
  exists m', run hp_drop_curr (World N fr m) = Done tt (World N fr m') /\
    hps t Thread.HNone m'.
Proof. intros Hm. destruct (run_drop_last m p Hm) as (m' & Hr & Hm'). eauto. Qed.
End Heap.

(** Solve membership goals over short lists of pointers. *)
Ltac ptrs_solve :=
  intros;
  repeat match goal with
  | H : _ ∉ _ :: _ |- _ => apply not_elem_of_cons in H as [? H]
  | H : _ ∈ _ :: _ |- _ => apply elem_of_cons in H as [H|H]
  | H : _ ∈ [] |- _ => exfalso; apply (not_elem_of_nil _ H)
  | |- _ ∉ _ :: _ => apply not_elem_of_cons; split
  | |- _ ∉ [] => apply not_elem_of_nil
  | |- _ ∈ _ :: _ => rewrite !elem_of_cons
  end; first [congruence | tauto | intuition congruence].
