(* ===== verification/SvNode.v ===== *)
(** * SvNode: the chunks of the skip vector (skipvector.h, [node_t])

    [node_t] is a template over its value type, its exponent and its vector
    class; the skip vector has two instances of it, [index_t], whose vectors
    hold [void *], and [data_t], whose vectors hold the user's values.  Here an
    instance is a [kind], [vof kd] is its vector class, and memory holds nodes
    of both kinds; an access through a pointer of the other type ([static_cast]
    does not check) is a failure.  The operations are programs over the
    accesses of [World]; [this] is the node's own pointer. *)

From Stdlib Require Import QArith.
From S2P Require Import Prelude Prog SvLock VecSpec World.

Local Open Scope Z_scope.

Inductive kind := INDEX | DATA.

#[global] Instance kind_eq_dec : EqDecision kind.
Proof. solve_decision. Defined.

(** What the nodes of a layer of memory are: layer 0 is the data layer. *)
Definition kind_of (n : nat) : kind := match n with O => DATA | S _ => INDEX end.

Section Chunk.
Context {V : Type} {vof : kind -> Type -> Type}.

(** The type of the values of a vector. *)
Definition elt (kd : kind) : Type := match kd with INDEX => ptr | DATA => V end.

Inductive chunk := Chunk (kd : kind) (v : vof kd (elt kd)).

Definition as_kind (kd : kind) (c : chunk) : option (vof kd (elt kd)) :=
  match c with
  | Chunk kd' v =>
      match kd' as a, kd as b return vof a (elt a) -> option (vof b (elt b)) with
      | INDEX, INDEX | DATA, DATA => Some
      | _, _ => fun _ => None
      end v
  end.

Lemma as_kind_eq kd v : as_kind kd (Chunk kd v) = Some v.
Proof. by destruct kd. Qed.
End Chunk.

Arguments elt V kd : clear implicits.
Arguments chunk V vof : clear implicits.

Section SvNode.
Context {V : Type} {vof : kind -> Type -> Type} `{HV : forall kd, VecOps (vof kd)}.
(** The exponents of the two instances, and what fresh vector memory holds. *)
Context (EXP : kind -> Z) (junk : forall kd, Z * elt V kd).

Local Abbreviation mem := (mem V unit (fun _ => chunk V vof)).
Local Abbreviation node := (node V unit (fun _ => chunk V vof)).
Implicit Types (this prev next : ptr) (k : Z) (kd : kind).

(** Calls of the methods of a node's vector, by its type. *)
Definition vget {B : Type} kd this (f : vof kd (elt V kd) -> option B) : mem B :=
  vec_get this (fun c => v ← as_kind kd c; f v).

Definition vupd {B : Type} kd this (f : vof kd (elt V kd) -> option (B * vof kd (elt V kd)))
    : mem B :=
  vec_upd this (fun c => v ← as_kind kd c; '(b, v') ← f v; Some (b, Chunk kd v')).

Definition vsteal kd this victim
    (f : vof kd (elt V kd) -> vof kd (elt V kd) -> option (vof kd (elt V kd) * vof kd (elt V kd)))
    : mem unit :=
  vec_steal this victim (fun c d =>
    v ← as_kind kd c; u ← as_kind kd d;
    '(v', u') ← f v u; Some (tt, (Chunk kd v', Chunk kd u'))).

(** The default constructor: a head. *)
Definition node_head kd : node :=
  Node (sv_lock_new true) tt None (Chunk kd (v_new (junk kd))).

(** [node_t(prev, orphan)]: stitched in after [prev]. *)
Definition node_new kd prev (orphan : bool) : mem ptr :=
  let* nx := load_next prev in
  let* this := trigger (ENew (Node (sv_lock_new orphan) tt nx (Chunk kd (v_new (junk kd))))) in
  store_next prev (Some this) ;;;
  Ret this.

Definition is_orphan_seq this : mem bool :=
  let* v := lock_rmw this get_value in Ret (is_orphan v).

(** [lock.is_orphan()] *)
Definition lock_is_orphan this : mem bool :=
  let* v := lock_rmw this get_value in Ret (is_orphan v).

Definition get_size kd this : mem nat := vget kd this (fun v => Some (v_get_size v)).

Definition should_merge kd (CLEANUP : bool) (merge_threshold : Q) this next
    (next_is_orphan : bool) : mem bool :=
  if negb next_is_orphan then Ret false
  else
    let* nextsize := get_size kd next in
    if (nextsize =? 0)%nat then Ret true
    else if negb CLEANUP || (EXP kd <=? 0) then Ret false
    else
      let* size := get_size kd this in
      Ret (negb (Qle_bool (merge_threshold * inject_Z (2 ^ EXP kd))
                          (inject_Z (Z.of_nat (size + nextsize))))).

(** [merge()]: absorb and unlink the next node. *)
Definition merge kd this : mem unit :=
  let* nx := load_next this in
  let* zombie := lift_opt nx in
  vsteal kd this zombie v_merge ;;;
  let* zn := load_next zombie in
  store_next this zn ;;;
  lock_rmw zombie die.

(** [insert(pair)]: a full node is split. *)
Definition node_insert kd this k (x : elt V kd) : mem bool :=
  let* (result, overfull) := vupd kd this (v_insert k x) in
  if overfull : bool then
    let* new_orphan := node_new kd this true in
    vsteal kd new_orphan this (v_steal_half_and_insert k x) ;;;
    Ret true
  else Ret result.
End SvNode.
