(* ===== verification/SvOps.v ===== *)
(** * SvOps: the operations of the skip vector (skipvector.h, [skipvector])

    Each method of the class is a program over the accesses of [World].  The
    [goto]s are loops with [fuel], as are the loops along [next]; the theorems
    show how much is enough for a thread that runs alone.  A method with
    output or reference parameters returns their final values.

    The members [layers] and [merge_threshold] are fixed by the constructor
    and are parameters here, as are the template's MAX_LAYERS and the capacity
    [ZCAP] of the hazard pointer manager's zombie array. *)

From Stdlib Require Import QArith.
From S2P Require Import Prelude Prog SvLock Rng VecSpec HazardPtr World SvNode.

Local Open Scope Z_scope.

(** Where the loop that unlinks orphans in [check_next] ends: a lock that
    could not be taken, the end of the layer (with [curr]'s lock released),
    or a node that stays. *)
Inductive unlinked := UFail | UEnd (curr_lock : Z) | UNext (next : ptr) (next_lock : Z).

Section SvOps.
Context {V : Type} {vof : kind -> Type -> Type}.
Context `{HV : forall kd, VecOps (vof kd)} `{HM : forall kd, VecMapOps (vof kd)}.
Context (EXP : kind -> Z) (MAX_LAYERS layers ZCAP : nat) (merge_threshold : Q).
Context (junk : forall kd, Z * elt V kd).

Local Abbreviation mem := (mem V unit (fun _ => chunk V vof)).
Implicit Types (k : Z) (fuel layer : nat) (kd : kind).

Local Abbreviation should_merge := (should_merge (V:=V) (vof:=vof) EXP).
Local Abbreviation node_new := (node_new (vof:=vof) junk).
Local Abbreviation node_insert := (node_insert (vof:=vof) junk).

(** [&index_head.at(i)] and [&data_head]. *)
Definition index_head (i : nat) : mem ptr :=
  if (i <? MAX_LAYERS)%nat then Ret (Head (S i)) else Crash.
Definition data_head : ptr := Head 0.

Definition confirm curr (curr_lock : Z) : mem bool := lock_rmw curr (confirm_read curr_lock).

(** The test of the loops of [check_next]: [!curr->v.last(last) || k > last]. *)
Definition past_last kd curr k : mem bool :=
  let* l := vget kd curr v_last in
  Ret (match l with None => true | Some last => last <? k end).

(** ** Walking right *)

(** The do-while loop that merges and unlinks orphans after [curr], which is
    locked; [changed] says whether it has already unlinked one. *)
Fixpoint unlink_loop fuel kd (CLEANUP : bool) curr next (next_lock : Z) (changed : bool)
    : mem unlinked :=
  match fuel with
  | O => Spin
  | S fuel' =>
      let* ok := lock_rmw next (try_upgrade next_lock) in
      if negb ok then lock_rmw curr (release_changed_if changed) ;;; Ret UFail
      else
        merge kd curr ;;;
        hp_reclaim ZCAP next ;;;
        let* next' := load_next curr in
        match next' with
        | None => let* curr_lock := lock_rmw curr release in Ret (UEnd curr_lock)
        | Some next =>
            let* next_lock := lock_rmw next begin_read in
            let* again := should_merge kd CLEANUP merge_threshold curr next (is_orphan next_lock) in
            if again : bool then unlink_loop fuel' kd CLEANUP curr next next_lock true
            else Ret (UNext next next_lock)
        end
  end.

(** The loop of [check_next(curr, curr_lock, k)], [next] being the local
    variable: the result, and the final [curr] and [curr_lock]. *)
Fixpoint check_next_loop fuel kd (CLEANUP : bool) curr (curr_lock : Z) (next : option ptr) k
    : mem (bool * ptr * Z) :=
  match next with
  | None => Ret (true, curr, curr_lock)
  | Some next =>
      let* go := past_last kd curr k in
      if negb go then Ret (true, curr, curr_lock)
      else match fuel with
      | O => Spin
      | S fuel' =>
          (* the rest of the body: [next] is not to be unlinked *)
          let examine next (next_lock curr_lock : Z) :=
            let* first := vget kd next v_first in
            if k <? first then
              let* result := confirm next next_lock in
              hp_drop_next ;;; Ret (result, curr, curr_lock)
            else
              let* ok := confirm curr curr_lock in
              if negb ok then hp_drop_next ;;; Ret (false, curr, curr_lock)
              else
                let* next' := load_next next in
                hp_drop_curr ;;; check_next_loop fuel' kd CLEANUP next next_lock next' k in
          hp_take_next next ;;;
          let* ok := confirm curr curr_lock in
          if negb ok then hp_drop_next ;;; Ret (false, curr, curr_lock)
          else
            let* next_lock := lock_rmw next begin_read in
            let* orphan := lock_is_orphan next in
            let* m := should_merge kd CLEANUP merge_threshold curr next orphan in
            if negb m then examine next next_lock curr_lock
            else
              let* up := lock_rmw curr (try_upgrade curr_lock) in
              if negb up then hp_drop_next ;;; Ret (false, curr, curr_lock)
              else
                hp_drop_next ;;;
                let* u := unlink_loop fuel kd CLEANUP curr next next_lock false in
                match u with
                | UFail => Ret (false, curr, curr_lock)
                | UEnd curr_lock => Ret (true, curr, curr_lock)
                | UNext next next_lock =>
                    if CLEANUP then
                      let* curr_lock := lock_rmw curr release in
                      check_next_loop fuel' kd CLEANUP curr curr_lock (Some next) k
                    else
                      hp_take_next next ;;;
                      let* curr_lock := lock_rmw curr release in
                      examine next next_lock curr_lock
                end
      end
  end.

Definition check_next fuel kd (CLEANUP : bool) curr (curr_lock : Z) k : mem (bool * ptr * Z) :=
  let* next := load_next curr in check_next_loop fuel kd CLEANUP curr curr_lock next k.

(** The inner loop of [check_next_sequential], which merges orphans: [None]
    when it ran into the end of the layer. *)
Fixpoint merge_orphans fuel kd curr next : mem (option ptr) :=
  match fuel with
  | O => Spin
  | S fuel' =>
      let* orphan := lock_is_orphan next in
      let* m := should_merge kd true merge_threshold curr next orphan in
      if negb m then Ret (Some next)
      else
        lock_acquire fuel next ;;;
        merge kd curr ;;;
        trigger (EDelete next) ;;;
        let* next' := load_next curr in
        match next' with
        | None => Ret None
        | Some nx => merge_orphans fuel' kd curr nx
        end
  end.

(** [check_next_sequential(curr, k)]: the final [curr]. *)
Fixpoint check_next_sequential_loop fuel kd curr (next : option ptr) k : mem ptr :=
  match next with
  | None => Ret curr
  | Some next =>
      let* go := past_last kd curr k in
      if negb go then Ret curr
      else match fuel with
      | O => Spin
      | S fuel' =>
          let* next' := merge_orphans fuel kd curr next in
          match next' with
          | None => Ret curr
          | Some next =>
              let* first := vget kd next v_first in
              if k <? first then Ret curr
              else
                let* nn := load_next next in
                check_next_sequential_loop fuel' kd next nn k
          end
      end
  end.

Definition check_next_sequential fuel kd curr k : mem ptr :=
  let* next := load_next curr in check_next_sequential_loop fuel kd curr next k.

(** ** Going down *)

(** [reader_swap(curr, curr_lock, new_node)]: the result and [curr_lock]. *)
Definition reader_swap curr (curr_lock : Z) (new_node : ptr) : mem (bool * Z) :=
  hp_take_next new_node ;;;
  let* ok := confirm curr curr_lock in
  if negb ok then hp_drop_next ;;; Ret (false, curr_lock)
  else
    let* new_lock := lock_rmw new_node begin_read in
    let* ok' := confirm curr curr_lock in
    if negb ok' then hp_drop_next ;;; Ret (false, curr_lock)
    else hp_drop_curr ;;; Ret (true, new_lock).

(** [follow(curr, curr_lock, k, down)]: the result, [down] and [curr_lock]. *)
Definition follow fuel curr (curr_lock : Z) k down : mem (bool * ptr * Z) :=
  let* (ok, curr', lock') := check_next fuel INDEX false curr curr_lock k in
  if negb ok then Ret (false, down, lock')
  else
    let* found := vget INDEX curr' (v_find_lte k) in
    let down' := match found with Some (_, p) => p | None => down end in
    let* (ok', new_lock) := reader_swap curr' lock' down' in
    Ret (ok', down', new_lock).

(** The start of every traversal: the head of the top index layer. *)
Definition start_top : mem (ptr * Z) :=
  let* curr := index_head (layers - 1) in
  hp_take_first curr ;;;
  let* curr_lock := lock_rmw curr begin_read in
  Ret (curr, curr_lock).

(** [for (; layer >= 1; --layer)]: from index layer [layer] to index layer 0;
    [None] is [goto top]. *)
Fixpoint follow_layers fuel k layer curr (curr_lock : Z) : mem (option (ptr * Z)) :=
  match layer with
  | O => Ret (Some (curr, curr_lock))
  | S layer' =>
      let* down := index_head layer' in
      let* (ok, down', lock') := follow fuel curr curr_lock k down in
      if negb ok then hp_drop_curr ;;; Ret None
      else follow_layers fuel k layer' down' lock'
  end.

(** The traversal [skip_to] and [contains] start with: to the data layer. *)
Definition follow_down fuel k : mem (option (ptr * Z)) :=
  let* (curr, curr_lock) := start_top in
  let* r := follow_layers fuel k (layers - 1) curr curr_lock in
  match r with
  | None => Ret None
  | Some (curr, curr_lock) =>
      let* (ok, curr_dl, lock') := follow fuel curr curr_lock k data_head in
      if negb ok then hp_drop_curr ;;; Ret None else Ret (Some (curr_dl, lock'))
  end.

(** [skip_to(k)] *)
Definition skip_to fuel k : mem ptr :=
  retry fuel (
    let* r := follow_down fuel k in
    match r with
    | None => Ret None
    | Some (curr_dl, curr_lock) =>
        let* up := lock_rmw curr_dl (try_upgrade curr_lock) in
        if negb up then hp_drop_curr ;;; Ret None
        else hp_drop_curr ;;; Ret (Some curr_dl)
    end).

(** [contains(k, v)]: the value found, [None] for false. *)
Definition contains fuel k : mem (option V) :=
  hp_init ZCAP ;;;
  retry fuel (
    let* r := follow_down fuel k in
    match r with
    | None => Ret None
    | Some (curr_dl, curr_lock) =>
        let* (ok, curr_dl, curr_lock) := check_next fuel DATA false curr_dl curr_lock k in
        if negb ok then hp_drop_curr ;;; Ret None
        else
          let* result := vget DATA curr_dl (v_contains k) in
          let* ok := confirm curr_dl curr_lock in
          hp_drop_curr ;;; Ret (if ok : bool then Some result else None)
    end).

(** ** Inserting *)

(** The state of the descent of [insert]: [i_level] is [layer + 1], zero
    standing for the end of its loop. *)
Record istate := IState {
  i_level : nat;
  i_curr : ptr;
  i_lock : Z;
  i_dl : ptr;
  i_checkpoint : option ptr;
  i_checkpoint_dl : option ptr;
  i_load : bool;
  i_frozen : list (option ptr);
}.

(** What a round of its loop does next: [continue] or go round again,
    [goto top], or return. *)
Inductive iresult := INext (s : istate) | ITop (frozen : list (option ptr)) | IReturn (b : bool).

(** [frozen_nodes.at(i)], to be dereferenced, and [frozen_nodes.at(i) = p]. *)
Definition node_at (nodes : list (option ptr)) (i : nat) : mem ptr :=
  lift_opt (o ← nodes !! i; o).

Definition set_node_at (nodes : list (option ptr)) (i : nat) (p : ptr) : mem (list (option ptr)) :=
  if (i <? length nodes)%nat then Ret (<[i := Some p]> nodes) else Crash.

(** [for (int i = from; i < from + n; ++i) frozen_nodes.at(i)->lock.thaw();] *)
Fixpoint thaw_nodes (nodes : list (option ptr)) (from n : nat) : mem unit :=
  match n with
  | O => Ret tt
  | S n' =>
      let* p := node_at nodes from in
      lock_rmw p thaw ;;;
      thaw_nodes nodes (S from) n'
  end.

(** The node below the place of [k] in layer [layer]: what the down pointer
    says, or else the leftmost node of the next layer. *)
Definition down_target layer (found : option (Z * ptr)) : mem ptr :=
  match found with
  | Some (_, p) => Ret p
  | None => match layer with S layer' => index_head layer' | O => Ret data_head end
  end.

Definition restore (s : istate) : mem (option istate) :=
  if i_load s then
    hp_drop_curr ;;;
    match i_checkpoint s with
    | None => Ret None
    | Some c =>
        hp_take_first c ;;;
        let* l := lock_rmw c begin_read in
        Ret (Some (IState (i_level s) c l (i_dl s) (Some c) (i_checkpoint_dl s) false (i_frozen s)))
    end
  else Ret (Some s).

(** The rest of a round at [layer], from the node [curr] whose place for [k]
    was found: go down. *)
Definition insert_down (layer new_height : nat) (s : istate) (found : option (Z * ptr)) : mem iresult :=
  let* down := down_target layer found in
  let dl := match layer with O => down | S _ => i_dl s end in
  let curr := match layer with O => i_curr s | S _ => down end in
  if (layer <? new_height)%nat then
    hp_take_next down ;;;
    hp_drop_curr ;;;
    let* l := lock_rmw down begin_read in
    let cp := match layer with O => i_checkpoint s | S _ => Some down end in
    let cp_dl := match layer with O => Some down | S _ => i_checkpoint_dl s end in
    Ret (INext (IState layer curr l dl cp cp_dl false (i_frozen s)))
  else
    let* (ok, l) := reader_swap (i_curr s) (i_lock s) down in
    if negb ok
    then Ret (INext (IState (S layer) (i_curr s) l dl (i_checkpoint s) (i_checkpoint_dl s) true (i_frozen s)))
    else Ret (INext (IState layer curr l dl (i_checkpoint s) (i_checkpoint_dl s) false (i_frozen s))).

(** One round of the loop of [insert] over the index layers. *)
Definition insert_round fuel k (new_height layer : nat) (s : istate) : mem iresult :=
  let* r := restore s in
  match r with
  | None => Ret (ITop (i_frozen s))
  | Some s =>
      let again c l := INext (IState (S layer) c l (i_dl s) (i_checkpoint s) (i_checkpoint_dl s) true (i_frozen s)) in
      let* (ok, curr, curr_lock) := check_next fuel INDEX true (i_curr s) (i_lock s) k in
      if negb ok then Ret (again curr curr_lock)
      else
        let* frozen := (if (layer <? new_height)%nat then lock_rmw curr (try_freeze curr_lock) else Ret true) in
        if negb frozen then Ret (again curr curr_lock)
        else
          let* nodes := (if (layer <? new_height)%nat then set_node_at (i_frozen s) layer curr
                         else Ret (i_frozen s)) in
          let s := IState (S layer) curr curr_lock (i_dl s) (i_checkpoint s) (i_checkpoint_dl s) false nodes in
          let* found := vget INDEX curr (v_find_lte k) in
          match found with
          | Some (found_k, _) =>
              if found_k =? k then
                if (layer <? new_height)%nat then
                  thaw_nodes nodes layer (new_height - layer) ;;;
                  hp_drop_curr ;;; Ret (IReturn false)
                else
                  let* ok := confirm curr curr_lock in
                  if negb ok then Ret (again curr curr_lock)
                  else hp_drop_curr ;;; Ret (IReturn false)
              else insert_down layer new_height s found
          | None => insert_down layer new_height s None
          end
  end.

Fixpoint insert_rounds fuel (rounds : nat) k (new_height : nat) (s : istate) : mem iresult :=
  match i_level s with
  | O => Ret (INext s)
  | S layer =>
      match rounds with
      | O => Spin
      | S rounds' =>
          let* r := insert_round fuel k new_height layer s in
          match r with
          | INext s' => insert_rounds fuel rounds' k new_height s'
          | _ => Ret r
          end
      end
  end.

(** From [retry_dl] until the data node is locked; [None] is [goto top]. *)
Fixpoint lock_data fuel (rounds : nat) k curr_dl (curr_lock : Z) (checkpoint_dl : option ptr)
    : mem (option ptr) :=
  match rounds with
  | O => Spin
  | S rounds' =>
      let* (skip_success, curr_dl, curr_lock) := check_next fuel DATA true curr_dl curr_lock k in
      let* ok := (if skip_success : bool then lock_rmw curr_dl (try_upgrade curr_lock) else Ret false) in
      if negb ok then
        hp_drop_curr ;;;
        match checkpoint_dl with
        | Some c =>
            let* l := lock_rmw c begin_read in
            hp_take_first c ;;;
            lock_data fuel rounds' k c l checkpoint_dl
        | None => Ret None
        end
      else Ret (Some curr_dl)
  end.

(** Make room in a full leftmost node whose keys are all above [k]. *)
Definition make_room kd victim k : mem unit :=
  let* size := get_size kd victim in
  if (size =? v_capacity (vof kd))%nat then
    let* first := vget kd victim v_first in
    if k <? first then
      let* new_orphan := node_new kd victim true in
      vsteal kd new_orphan victim v_steal_half
    else Ret tt
  else Ret tt.

(** Partition the frozen index nodes of layers [i] to [i + n - 1] and insert
    down pointers; the last pointer. *)
Fixpoint partition_layers (nodes : list (option ptr)) k (i n : nat) (down_ptr : ptr) : mem ptr :=
  match n with
  | O => Ret down_ptr
  | S n' =>
      let* victim := node_at nodes i in
      lock_rmw victim acquire_frozen ;;;
      make_room INDEX victim k ;;;
      let* new_index_node := node_new INDEX victim false in
      vsteal INDEX new_index_node victim (v_split_insert k down_ptr) ;;;
      lock_rmw victim release ;;;
      partition_layers nodes k (S i) n' new_index_node
  end.

(** The rest of [insert], from the locked data node. *)
Definition insert_tall fuel k (x : V) (new_height : nat) curr_dl (nodes : list (option ptr)) : mem bool :=
  let* present := vget DATA curr_dl (v_contains k) in
  match present with
  | Some _ =>
      thaw_nodes nodes 0 new_height ;;;
      lock_rmw curr_dl release_unchanged ;;;
      hp_drop_curr ;;;
      Ret false
  | None =>
      make_room DATA curr_dl k ;;;
      let* new_data_node := node_new DATA curr_dl false in
      lock_acquire fuel new_data_node ;;;
      vsteal DATA new_data_node curr_dl (v_split_insert k x) ;;;
      lock_rmw new_data_node release ;;;
      lock_rmw curr_dl release ;;;
      let* down_ptr := partition_layers nodes k 0 (new_height - 1) new_data_node in
      let* top_node := node_at nodes (new_height - 1) in
      lock_rmw top_node acquire_frozen ;;;
      node_insert INDEX top_node k down_ptr ;;;
      lock_rmw top_node release ;;;
      hp_drop_curr ;;;
      Ret true
  end.

Definition insert_data fuel k (x : V) (new_height : nat) curr_dl (nodes : list (option ptr)) : mem bool :=
  if (new_height =? 0)%nat then
    let* result := node_insert DATA curr_dl k x in
    lock_rmw curr_dl (release_changed_if result) ;;;
    hp_drop_curr ;;;
    Ret result
  else insert_tall fuel k x new_height curr_dl nodes.

(** From [top]: [goto top] takes another of the [rounds]. *)
Fixpoint insert_loop fuel (rounds : nat) k (x : V) (new_height : nat) (nodes : list (option ptr)) : mem bool :=
  match rounds with
  | O => Spin
  | S rounds' =>
      let* (curr, curr_lock) := start_top in
      let* r := insert_rounds fuel fuel k new_height
                  (IState layers curr curr_lock data_head None None false nodes) in
      match r with
      | IReturn b => Ret b
      | ITop nodes => insert_loop fuel rounds' k x new_height nodes
      | INext s =>
          let* d := lock_data fuel fuel k (i_dl s) (i_lock s) (i_checkpoint_dl s) in
          match d with
          | None => insert_loop fuel rounds' k x new_height (i_frozen s)
          | Some curr_dl => insert_data fuel k x new_height curr_dl (i_frozen s)
          end
      end
  end.

(** [insert(pair)], and the thread's generator state. *)
Definition insert fuel (rng : Z) k (x : V) : mem (bool * Z) :=
  hp_init ZCAP ;;;
  let* (new_height, rng') := lift_opt (random_height (EXP INDEX) (EXP DATA) layers rng) in
  let* b := insert_loop fuel fuel k x new_height (replicate MAX_LAYERS None) in
  Ret (b, rng').

(** *** In isolation *)

(** The descent of [insert_seq] over the index layers, [level] being
    [layer + 1]: [None] when the key is found. *)
Fixpoint descend_seq fuel k (new_height level : nat) curr (nodes : list (option ptr))
    : mem (option (ptr * list (option ptr))) :=
  match level with
  | O => Ret (Some (curr, nodes))
  | S layer =>
      let* curr := check_next_sequential fuel INDEX curr k in
      let* nodes := (if (layer <? new_height)%nat then set_node_at nodes layer curr else Ret nodes) in
      let* found := vget INDEX curr (v_find_lte k) in
      match found with
      | Some (found_k, _) => if found_k =? k then Ret None
                             else let* down := down_target layer found in descend_seq fuel k new_height layer down nodes
      | None => let* down := down_target layer None in descend_seq fuel k new_height layer down nodes
      end
  end.

Fixpoint partition_layers_seq (nodes : list (option ptr)) k (i n : nat) (down_ptr : ptr) : mem ptr :=
  match n with
  | O => Ret down_ptr
  | S n' =>
      let* victim := node_at nodes i in
      make_room INDEX victim k ;;;
      let* new_index_node := node_new INDEX victim false in
      vsteal INDEX new_index_node victim (v_split_insert k down_ptr) ;;;
      partition_layers_seq nodes k (S i) n' new_index_node
  end.

(** [insert_seq(pair)] *)
Definition insert_seq fuel (rng : Z) k (x : V) : mem (bool * Z) :=
  let* (new_height, rng') := lift_opt (random_height (EXP INDEX) (EXP DATA) layers rng) in
  let* curr := index_head (layers - 1) in
  let* r := descend_seq fuel k new_height layers curr (replicate MAX_LAYERS None) in
  match r with
  | None => Ret (false, rng')
  | Some (curr_dl, nodes) =>
      let* curr_dl := check_next_sequential fuel DATA curr_dl k in
      if (new_height =? 0)%nat then
        let* b := node_insert DATA curr_dl k x in Ret (b, rng')
      else
        let* present := vget DATA curr_dl (v_contains k) in
        match present with
        | Some _ => Ret (false, rng')
        | None =>
            make_room DATA curr_dl k ;;;
            let* new_data_node := node_new DATA curr_dl false in
            vsteal DATA new_data_node curr_dl (v_split_insert k x) ;;;
            let* down_ptr := partition_layers_seq nodes k 0 (new_height - 1) new_data_node in
            let* top_node := node_at nodes (new_height - 1) in
            node_insert INDEX top_node k down_ptr ;;;
            Ret (true, rng')
        end
  end.

(** ** Removing *)

(** What the descent of [remove] ends with: [goto top], the uppermost
    occurrence of the key, in the locked [curr] at [layer], or the data layer. *)
Inductive rresult := RTop | RFound (layer : nat) (curr : ptr) | RData (curr_dl : ptr) (curr_lock : Z).

(** The test that an occurrence in [curr] is not the uppermost:
    [!is_orphan(curr_lock) && curr->v.first() == k]. *)
Definition not_uppermost kd curr (curr_lock : Z) k : mem bool :=
  if is_orphan curr_lock then Ret false
  else let* first := vget kd curr v_first in Ret (first =? k).

(** The loop of [remove] over the index layers; [level] is [layer + 1]. *)
Fixpoint remove_descend fuel k (level : nat) curr (curr_lock : Z) : mem rresult :=
  match level with
  | O => Ret (RData curr curr_lock)
  | S layer =>
      let* (ok, curr, curr_lock) := check_next fuel INDEX true curr curr_lock k in
      if negb ok then hp_drop_curr ;;; Ret RTop
      else
        let down found :=
          let* target := down_target layer found in
          let* (ok, l) := reader_swap curr curr_lock target in
          if negb ok then hp_drop_curr ;;; Ret RTop
          else remove_descend fuel k layer target l in
        let* found := vget INDEX curr (v_find_lte k) in
        match found with
        | Some (found_k, _) =>
            if found_k =? k then
              let* again := not_uppermost INDEX curr curr_lock k in
              if again : bool then hp_drop_curr ;;; Ret RTop
              else
                let* up := lock_rmw curr (try_upgrade curr_lock) in
                if negb up then hp_drop_curr ;;; Ret RTop
                else hp_drop_curr ;;; Ret (RFound layer curr)
            else down found
        | None => down None
        end
  end.

(** Take [k] out of the locked index node [curr], lock the node its down
    pointer leads to, and release [curr]: the first node normally, the nodes
    below it as orphans. *)
Definition remove_link fuel k (topmost : bool) curr : mem ptr :=
  let* removed := vupd INDEX curr (v_remove k) in
  let* down := lift_opt removed in
  lock_acquire fuel down ;;;
  (if topmost then lock_rmw curr release ;;; Ret tt
   else lock_rmw curr release_as_orphan ;;; Ret tt) ;;;
  Ret down.

(** [for (int i = layer; i > 0; --i)], then once more for layer 0. *)
Fixpoint remove_links fuel k (layer i : nat) curr : mem ptr :=
  let* down := remove_link fuel k (i =? layer)%nat curr in
  match i with
  | O => Ret down
  | S i' => remove_links fuel k layer i' down
  end.

(** One round of [remove(k)] from [top]; [None] is [goto top]. *)
Definition remove_round fuel k : mem (option bool) :=
  let* curr := index_head (layers - 1) in
  let* curr_lock := lock_rmw curr begin_read in
  hp_take_first curr ;;;
  let* r := remove_descend fuel k layers curr curr_lock in
  match r with
  | RTop => Ret None
  | RData curr_dl curr_lock =>
      let* (skip_success, curr_dl, curr_lock) := check_next fuel DATA true curr_dl curr_lock k in
      let* ok := (if skip_success : bool then lock_rmw curr_dl (try_upgrade curr_lock) else Ret false) in
      if negb ok then hp_drop_curr ;;; Ret None
      else
        let* again := not_uppermost DATA curr_dl curr_lock k in
        if again : bool then
          lock_rmw curr_dl release_unchanged ;;; hp_drop_curr ;;; Ret None
        else
          let* removed := vupd DATA curr_dl (v_remove k) in
          let result := match removed with Some _ => true | None => false end in
          lock_rmw curr_dl (release_changed_if result) ;;;
          hp_drop_curr ;;;
          Ret (Some result)
  | RFound layer curr =>
      let* curr_dl := remove_links fuel k layer layer curr in
      vupd DATA curr_dl (v_remove k) ;;;
      lock_rmw curr_dl release_as_orphan ;;;
      Ret (Some true)
  end.

Definition remove fuel k : mem bool :=
  hp_init ZCAP ;;; retry fuel (remove_round fuel k).

(** ** Iterating

    The callback [f(key, value, exit_flag)] may update the value, raise the
    flag, and act on a state [St] of its own. *)
Section Iterate.
Context {St : Type} (f : Z -> V -> bool -> St -> V * bool * St).

(** The locking phase of [for_each], from [curr]: the node it stops before. *)
Fixpoint for_each_loop fuel (curr : option ptr) (exit_flag : bool) (s : St)
    : mem (option ptr * St) :=
  match curr with
  | None => Ret (None, s)
  | Some c =>
      if exit_flag then Ret (Some c, s)
      else match fuel with
      | O => Spin
      | S fuel' =>
          lock_acquire fuel c ;;;
          let* (exit_flag, s) := vupd DATA c (fun v => '(v', b, s') ← v_for_each f v exit_flag s; Some ((b, s'), v')) in
          let* next := load_next c in
          for_each_loop fuel' next exit_flag s
      end
  end.

(** The lock-releasing phase: [while (curr != last)]. *)
Fixpoint release_until fuel (curr last : option ptr) : mem unit :=
  if decide (curr = last) then Ret tt
  else
    let* c := lift_opt curr in
    match fuel with
    | O => Spin
    | S fuel' =>
        let* next := load_next c in
        lock_rmw c release ;;;
        release_until fuel' next last
    end.

(** [for_each(f)]: the callback's final state. *)
Definition for_each fuel (s : St) : mem St :=
  let* (last, s) := for_each_loop fuel (Some data_head) false s in
  release_until fuel (Some data_head) last ;;;
  Ret s.

(** A call of the vector's [range]: its result, the flag and the state. *)
Definition vec_range curr (from to : Z) (exit_flag : bool) (s : St) : mem (bool * bool * St) :=
  vupd DATA curr (fun v => '(done, v', b, s') ← v_range f from to v exit_flag s; Some ((done, b, s'), v')).

(** The loop of [range] over the nodes after the first. *)
Fixpoint range_loop fuel (from to : Z) (curr : option ptr) (done exit_flag : bool) (s : St)
    : mem (option ptr * St) :=
  match curr with
  | None => Ret (None, s)
  | Some c =>
      if done || exit_flag then Ret (Some c, s)
      else match fuel with
      | O => Spin
      | S fuel' =>
          lock_acquire fuel c ;;;
          let* (done, exit_flag, s) := vec_range c from to exit_flag s in
          let* next := load_next c in
          range_loop fuel' from to next done exit_flag s
      end
  end.

(** [range(from, to, f)]: the callback's final state. *)
Definition range fuel (from to : Z) (s : St) : mem St :=
  hp_init ZCAP ;;;
  if to <? from then Ret s
  else
    let* first_locked := skip_to fuel from in
    let* (done, exit_flag, s) := vec_range first_locked from to false s in
    let* curr := load_next first_locked in
    let* (last, s) := range_loop fuel from to curr done exit_flag s in
    release_until fuel (Some first_locked) last ;;;
    Ret s.
End Iterate.
End SvOps.
