(* ===== verification/SvMaint.v ===== *)
(** * SvMaint: construction, checking and destruction of the skip vector (skipvector.h)

    The constructor checks its parameters and leaves a leftmost node in the
    data layer and in every possible index layer; the sequential-only
    destructor frees every other node, and sweeps the hazard pointer lists.
    [verify()] traces every index layer along the layer below it; it prints,
    and throws where assertions are on, when something is wrong. *)

From S2P Require Import Prelude Prog SvLock VecSpec HazardPtr World SvNode SvOps.

Local Open Scope Z_scope.

Section SvMaint.
Context {V : Type} {vof : kind -> Type -> Type} `{HV : forall kd, VecOps (vof kd)}.
Context (EXP : kind -> Z) (MAX_LAYERS layers : nat) (junk : forall kd, Z * elt V kd).
Context (NDEBUG : bool).

Local Abbreviation mem := (mem V unit (fun _ => chunk V vof)).
Local Abbreviation world := (world V unit (fun _ => chunk V vof)).
Implicit Types (fuel layer : nat) (kd : kind).

(** The members [data_head] and [index_head] in memory. *)
Definition heads : gmap ptr (node V unit (fun _ => chunk V vof)) :=
  list_to_map ((fun n => (Head n, node_head junk (kind_of n))) <$> seq 0 (S MAX_LAYERS)).

(** The constructor, with its two assertions. *)
Definition skipvector_new (hp : mgr_t) : option world :=
  assert_ ((0 <? layers) && (layers <=? MAX_LAYERS))%nat ;;
  assert_ (EXP DATA + Z.of_nat layers * EXP INDEX <=? 64) ;;
  Some (World heads 1%positive hp).

(** ** [verify()] *)

(** [fail()] throws unless assertions are compiled out. *)
Definition fail : mem bool := if NDEBUG then Ret false else Crash.

Definition verify_lock curr : mem bool :=
  let* lock := lock_rmw curr get_value in
  if is_locked lock then fail else Ret true.

(** [while (trace != down)]: the inner [None] is a null pointer, the outer one
    the return of a failed check. *)
Fixpoint trace_to fuel (trace down : option ptr) : mem (option (option ptr)) :=
  if decide (trace = down) then Ret (Some trace)
  else
    match trace, fuel with
    | None, _ => fail ;;; Ret None
    | Some _, O => Spin
    | Some p, S fuel' =>
        let* orphan := is_orphan_seq p in
        if negb orphan then fail ;;; Ret None
        else let* next := load_next p in trace_to fuel' next down
    end.

(** The loop over the entries of a node: [n] entries from index [j], whose
    down pointers lead to nodes of kind [kd].  The result is [None] for
    [return fail()], else the final [trace]. *)
Fixpoint verify_entries fuel kd (curr : ptr) (n j : nat) (trace : option ptr)
    : mem (option (option ptr)) :=
  match n with
  | O => Ret (Some trace)
  | S n' =>
      let* key := vget INDEX curr (v_at j) in
      let* found := vget INDEX curr (v_contains key) in
      let* t := trace_to fuel trace found in
      match t with
      | None => Ret None
      | Some trace =>
          let* down := lift_opt trace in
          let* trace' := load_next down in
          let* orphan := is_orphan_seq down in
          if orphan : bool then fail ;;; Ret None
          else
            let* size := get_size kd down in
            if (size =? 0)%nat then fail ;;; Ret None
            else
              let* first := vget kd down v_first in
              if negb (key =? first) then fail ;;; Ret None
              else verify_entries fuel kd curr n' (S j) trace'
      end
  end.

(** [while (next != nullptr && next->v.get_size() == 0)]: skip empty orphans.
    [None] is a failed check. *)
Fixpoint skip_empty fuel kd (next : option ptr) : mem (option (option ptr)) :=
  match next with
  | None => Ret (Some None)
  | Some p =>
      let* size := get_size kd p in
      if negb (size =? 0)%nat then Ret (Some (Some p))
      else match fuel with
      | O => Spin
      | S fuel' =>
          verify_lock p ;;;
          let* orphan := is_orphan_seq p in
          if negb orphan then fail ;;; Ret None
          else let* next' := load_next p in skip_empty fuel' kd next'
      end
  end.

(** The checks on the order of a node and the next nonempty one. *)
Definition verify_order kd (curr : ptr) (curr_size : nat) (next : option ptr) : mem bool :=
  match next with
  | None => Ret true
  | Some nx =>
      if (curr_size =? 0)%nat then
        let* orphan := is_orphan_seq curr in
        if negb orphan then fail else Ret true
      else
        let* mk := vget kd curr v_max_key in
        let* nf := vget kd nx v_first in
        if nf <? mk then fail else Ret true
  end.

(** The loop of [verify_index<T>(layer, trace)] over the nodes of a layer;
    [kd] stands for [T]. *)
Fixpoint verify_index_loop fuel kd (curr trace : option ptr) (rounds : nat) : mem bool :=
  match curr with
  | None => Ret true
  | Some c =>
      match rounds with
      | O => Spin
      | S rounds' =>
          let* curr_size := get_size INDEX c in
          let* next := load_next c in
          verify_lock c ;;;
          let* ok := vget INDEX c v_verify in
          if negb ok then fail
          else
            vupd INDEX c (fun v => Some (tt, v_sort v)) ;;;
            let* t := verify_entries fuel kd c curr_size 0 trace in
            match t with
            | None => Ret false
            | Some trace' =>
                let* nx := skip_empty fuel INDEX next in
                match nx with
                | None => Ret false
                | Some next' =>
                    let* ok' := verify_order INDEX c curr_size next' in
                    if negb ok' then Ret false
                    else verify_index_loop fuel kd next' trace' rounds'
                end
            end
      end
  end.

Definition verify_index fuel kd layer (trace : ptr) : mem bool :=
  let* h := index_head MAX_LAYERS layer in
  verify_index_loop fuel kd (Some h) (Some trace) fuel.

(** [for (int layer = layers - 1; layer > 0; --layer)]: the results are
    discarded. *)
Fixpoint verify_layers fuel layer : mem unit :=
  match layer with
  | O => Ret tt
  | S layer' =>
      let* h := index_head MAX_LAYERS layer' in
      verify_index fuel INDEX layer h ;;;
      verify_layers fuel layer'
  end.

(** The loop of [verify] over the data layer. *)
Fixpoint verify_data_loop fuel (curr : option ptr) (rounds : nat) : mem bool :=
  match curr with
  | None => Ret true
  | Some c =>
      match rounds with
      | O => Spin
      | S rounds' =>
          let* curr_size := get_size DATA c in
          let* next := load_next c in
          verify_lock c ;;;
          let* ok := vget DATA c v_verify in
          if negb ok then fail
          else
            let* nx := skip_empty fuel DATA next in
            match nx with
            | None => Ret false
            | Some next' =>
                let* ok' := verify_order DATA c curr_size next' in
                if negb ok' then Ret false else verify_data_loop fuel next' rounds'
            end
      end
  end.

Definition verify fuel : mem bool :=
  let* hps := hp_count_reserved in
  if negb (hps =? 0)%nat then fail
  else
    verify_layers fuel (layers - 1) ;;;
    verify_index fuel DATA 0 data_head ;;;
    verify_data_loop fuel (Some data_head) fuel.

(** [get_size()]: the number of pairs in the map. *)
Fixpoint get_size_loop fuel (curr : option ptr) (result : nat) : mem nat :=
  match curr with
  | None => Ret result
  | Some c =>
      match fuel with
      | O => Spin
      | S fuel' =>
          let* n := get_size DATA c in
          let* next := load_next c in
          get_size_loop fuel' next (result + n)
      end
  end.

Definition get_size_all fuel : mem nat := get_size_loop fuel (Some data_head) 0.

(** ** The destructor *)

(** Delete the nodes from [curr] on. *)
Fixpoint delete_chain fuel (curr : option ptr) : mem unit :=
  match curr with
  | None => Ret tt
  | Some c =>
      match fuel with
      | O => Spin
      | S fuel' =>
          let* next := load_next c in
          trigger (EDelete c) ;;;
          delete_chain fuel' next
      end
  end.

(** [for (size_t i = 0; i < layers; ++i)]: [n] layers from [i]. *)
Fixpoint delete_layers fuel (n i : nat) : mem unit :=
  match n with
  | O => Ret tt
  | S n' =>
      let* h := index_head MAX_LAYERS i in
      let* curr := load_next h in
      delete_chain fuel curr ;;;
      delete_layers fuel n' (S i)
  end.

(** [~skipvector()] *)
Definition skipvector_destroy fuel : mem unit :=
  delete_layers fuel layers 0 ;;;
  let* data_curr := load_next data_head in
  delete_chain fuel data_curr ;;;
  hp_sweep_all.
End SvMaint.
