(* ===== verification/SvLayers.v ===== *)
(** * SvLayers: the abstract state of the skip vector

    A layer is the list of its nodes in [next] order, the head first; layer 0
    is the data layer and layer [i + 1] is index layer [i].  Unlike in the
    disco cache, removals leave empty orphans behind, and nodes are unlinked.

    A node that is no orphan has a parent in the layer above: an entry with
    its first key and its address.  [anchors l] is the list of the entries that
    a layer's nodes want above them, and the invariant [linked] says that these
    are exactly the entries of the next layer.  The second part is on updates
    that go through several layers, one at a time. *)

From S2P Require Import Prelude KvList SvLock VecSpec World Layers SvNode.

Local Open Scope Z_scope.

Section SvLayers.
Context {V : Type} {vof : kind -> Type -> Type} `{HV : forall kd, VecOps (vof kd)}.

(** The plain fields of a node are its lock's state and counter. *)
Local Abbreviation anode := (anode V (lock_state * Z)).
Implicit Types (a b : anode) (l m news : list anode) (S : list (list anode)) (k : Z) (n : nat).

Definition lock_of a : alock := ALock (a_orphan a) (a_ext a).1 (a_ext a).2.
Definition state_of a : lock_state := (a_ext a).1.
Definition word a : Z := encode (lock_of a).

Definition with_lock (al : alock) a : anode :=
  ANode (a_ptr a) (al_orphan al) (al_state al, al_count al) (a_elems a).
Definition with_elems (el : list (Z * value V)) a : anode :=
  ANode (a_ptr a) (a_orphan a) (a_ext a) el.

(** What the lock's methods do: a new state, or a release that counts. *)
Definition set_state (st : lock_state) a : anode :=
  ANode (a_ptr a) (a_orphan a) (st, (a_ext a).2) (a_elems a).
Definition bump a : anode :=
  ANode (a_ptr a) (a_orphan a) (Unlocked, ((a_ext a).2 + 1) mod 2 ^ 61) (a_elems a).

Lemma set_state_with_lock st a : set_state st a = with_lock (al_to st (lock_of a)) a.
Proof. done. Qed.

Lemma bump_with_lock a : bump a = with_lock (al_bump (a_orphan a) (lock_of a)) a.
Proof. done. Qed.

Lemma set_state_twice st st' a : set_state st (set_state st' a) = set_state st a.
Proof. done. Qed.

Lemma set_state_same st a : state_of a = st -> set_state st a = a.
Proof. destruct a as [p o [st' c] el]. cbn. by intros ->. Qed.

Lemma lock_of_with_lock al a : lock_of (with_lock al a) = al.
Proof. by destruct al. Qed.

Definition unlocked a : Prop := state_of a = Unlocked.
Definition resting l : Prop := Forall unlocked l.

Lemma resting_parts l a m : resting (l ++ a :: m) -> resting l /\ unlocked a /\ resting m.
Proof. intros [H1 [H2 H3]%Forall_cons]%Forall_app. done. Qed.

(** ** Anchors *)

Definition anchor a : option (Z * value V) :=
  if a_orphan a then None else k ← kv_first (a_elems a); Some (k, VDown (a_ptr a)).
Definition anchors l : list (Z * value V) := omap anchor l.

Lemma anchors_app l m : anchors (l ++ m) = anchors l ++ anchors m.
Proof. apply omap_app. Qed.

Lemma anchors_cons a l :
  anchors (a :: l) = match anchor a with Some e => e :: anchors l | None => anchors l end.
Proof. done. Qed.

Lemma anchors_orphan a l : a_orphan a = true -> anchors (a :: l) = anchors l.
Proof. intros Ho. rewrite anchors_cons. unfold anchor. by rewrite Ho. Qed.

Lemma anchors_single_orphan a l : a_orphan a = true -> anchors [a] = [].
Proof. intros Ho. by rewrite anchors_orphan. Qed.

Lemma elem_of_anchors l e :
  e ∈ anchors l <->
  exists b, b ∈ l /\ a_orphan b = false /\ kv_first (a_elems b) = Some e.1 /\ e.2 = VDown (a_ptr b).
Proof.
  unfold anchors. rewrite list_elem_of_omap. split.
  - intros (b & Hb & He). exists b. unfold anchor in He. destruct (a_orphan b); [done|].
    destruct (kv_first (a_elems b)); cbn in He; by simplify_eq.
  - intros (b & Hb & Ho & Hk & He). exists b. split; [done|]. unfold anchor. rewrite Ho, Hk. cbn.
    by rewrite <- He, <- surjective_pairing.
Qed.

Lemma anchors_flat l e : e ∈ anchors l -> exists x, (e.1, x) ∈ flat l.
Proof.
  intros (b & Hb & _ & Hk & _)%elem_of_anchors. apply kv_first_elem in Hk as (e' & He' & <-).
  exists e'.2. rewrite <- surjective_pairing. apply elem_of_flat. eauto.
Qed.

Lemma anchors_sorted l : kv_sorted (flat l) -> kv_sorted (anchors l).
Proof.
  induction l as [|a l IH]; intros Hs; [apply kv_sorted_nil|].
  rewrite flat_cons in Hs. apply kv_sorted_app in Hs as (Hlt & _ & Hs).
  rewrite anchors_cons. unfold anchor. destruct (a_orphan a); [auto|].
  destruct (kv_first (a_elems a)) as [k|] eqn:Hk; cbn; [|auto].
  apply kv_sorted_cons. split; [|auto]. apply Forall_forall. intros e He.
  apply anchors_flat in He as [x Hx]. apply kv_first_elem in Hk as (e' & He' & <-).
  exact (Hlt e' (e.1, x) He' Hx).
Qed.

(** Changing a lock without its orphan bit changes no anchor. *)
Lemma anchors_with_lock al a : al_orphan al = a_orphan a -> anchors [with_lock al a] = anchors [a].
Proof. intros Ho. cbn. unfold anchor. cbn. by rewrite Ho. Qed.

(** ** One layer *)

Definition cap n : nat := v_capacity (vof (kind_of n)).

Record good n a : Prop := {
  g_anchored : a_orphan a = false -> a_elems a <> [];
  g_size : (length (a_elems a) <= cap n)%nat;
  g_lock : alock_ok (lock_of a);
}.

Record slayer n l : Prop := {
  sl_head : exists a l', l = a :: l' /\ a_ptr a = Head n /\ a_orphan a = true /\
              Forall (fun b => is_heap (a_ptr b)) l';
  sl_sorted : kv_sorted (flat l);
  sl_good : Forall (good n) l;
}.

Lemma slayer_mid n l a m : slayer n (l ++ a :: m) -> good n a.
Proof. intros H. apply sl_good in H. by apply Forall_app in H as [_ [? _]%Forall_cons]. Qed.

(** What a node is: the head, or allocated. *)
Lemma slayer_cases n l a m :
  slayer n (l ++ a :: m) ->
  (l = [] /\ a_ptr a = Head n /\ a_orphan a = true) \/ (l <> [] /\ is_heap (a_ptr a)).
Proof.
  intros H. destruct (sl_head _ _ H) as (a0 & l' & He & Hp & Ho & Hb).
  destruct l as [|b l0]; cbn in He; simplify_eq; [by left|right].
  split; [done|]. rewrite Forall_forall in Hb. apply Hb. apply elem_of_app. right. left.
Qed.

Lemma slayer_tail n l a m : slayer n (l ++ a :: m) -> Forall (fun b => is_heap (a_ptr b)) m.
Proof.
  intros H. destruct (sl_head _ _ H) as (a0 & l' & He & _ & _ & Hb).
  destruct l as [|b l0]; cbn in He; simplify_eq; [done|].
  apply Forall_app in Hb as [_ Hb]. by apply Forall_cons in Hb as [_ Hb].
Qed.

Lemma flat_replace l1 a news l2 :
  flat (l1 ++ a :: news ++ l2) = flat l1 ++ flat (a :: news) ++ flat l2.
Proof. rewrite flat_app. f_equal. change (a :: news ++ l2) with ((a :: news) ++ l2). apply flat_app. Qed.

Lemma anchors_replace l1 a news l2 :
  anchors (l1 ++ a :: news ++ l2) = anchors l1 ++ anchors (a :: news) ++ anchors l2.
Proof.
  rewrite anchors_app. f_equal. change (a :: news ++ l2) with ((a :: news) ++ l2). apply anchors_app.
Qed.

(** The update every operation makes: [a] and some nodes after it become [a']
    and others. *)
Lemma slayer_replace n l1 a mid l2 a' news :
  slayer n (l1 ++ a :: mid ++ l2) -> a_ptr a' = a_ptr a ->
  (a_orphan a = true -> a_orphan a' = true) ->
  Forall (good n) (a' :: news) -> Forall (fun b => is_heap (a_ptr b)) news ->
  kv_sorted (flat l1 ++ flat (a' :: news) ++ flat l2) ->
  slayer n (l1 ++ a' :: news ++ l2).
Proof.
  intros H Hp Ho Hg Hh Hs. split; [|by rewrite flat_replace|].
  - pose proof (slayer_tail _ _ _ _ H) as [_ Ht]%Forall_app.
    destruct (sl_head _ _ H) as (a0 & l' & He & Hp0 & Ho0 & Hb).
    destruct l1 as [|b l0]; cbn in He; simplify_eq.
    + exists a', (news ++ l2). split_and!; [done|congruence|auto|]. by apply Forall_app.
    + exists a0, (l0 ++ a' :: news ++ l2). split_and!; try done.
      apply Forall_app in Hb as [Hb0 [Hba _]%Forall_cons].
      apply Forall_app. split; [done|]. constructor; [by rewrite Hp|by apply Forall_app].
  - pose proof (sl_good _ _ H) as HG. rewrite !Forall_app, !Forall_cons, !Forall_app in HG |- *.
    rewrite Forall_cons in Hg. tauto.
Qed.

(** A lock changes, and not its orphan bit. *)
Lemma slayer_lock n l a m al :
  slayer n (l ++ a :: m) -> alock_ok al -> al_orphan al = a_orphan a ->
  slayer n (l ++ with_lock al a :: m).
Proof.
  intros H Hal Ho. pose proof (slayer_mid _ _ _ _ H) as [G1 G2 G3].
  apply (slayer_replace n l a [] m (with_lock al a) []); try done.
  - by intros ?; cbn; rewrite Ho.
  - constructor; [|done]. split; [|done|by rewrite lock_of_with_lock]. cbn. rewrite Ho. done.
  - pose proof (sl_sorted _ _ H) as Hs. rewrite flat_mid in Hs. cbn. by rewrite app_nil_r.
Qed.

(** ** The same entries, arranged differently *)

Definition same l l' : Prop := flat l' = flat l /\ anchors l' = anchors l.

Lemma same_refl l : same l l.
Proof. done. Qed.

Lemma same_trans l1 l2 l3 : same l1 l2 -> same l2 l3 -> same l1 l3.
Proof. intros [H1 H2] [H3 H4]. split; congruence. Qed.

Lemma same_lock l a m al :
  al_orphan al = a_orphan a -> same (l ++ a :: m) (l ++ with_lock al a :: m).
Proof.
  intros Ho. split; [by rewrite !flat_mid|].
  rewrite !anchors_app. f_equal. rewrite !(anchors_app [_] m : anchors (_ :: m) = _).
  by rewrite anchors_with_lock.
Qed.

(** [a] absorbs its orphan successor. *)
Definition absorb a b : anode := with_elems (a_elems a ++ a_elems b) a.

Lemma same_absorb n l a b m :
  slayer n (l ++ a :: b :: m) -> a_orphan b = true ->
  same (l ++ a :: b :: m) (l ++ absorb a b :: m).
Proof.
  intros H Ho. split.
  - rewrite !flat_mid, flat_cons. cbn. by rewrite <- app_assoc.
  - rewrite !anchors_app. f_equal. rewrite !anchors_cons. f_equal.
    unfold anchor. cbn. destruct (a_orphan a) eqn:Ha; [by rewrite Ho|].
    pose proof (g_anchored _ _ (slayer_mid _ _ _ _ H) Ha) as Hne.
    rewrite kv_first_app by done. by rewrite Ho.
Qed.

Lemma slayer_absorb n l a b m :
  slayer n (l ++ a :: b :: m) -> a_orphan b = true ->
  (length (a_elems a) + length (a_elems b) <= cap n)%nat ->
  slayer n (l ++ absorb a b :: m).
Proof.
  intros H Ho Hl. pose proof (slayer_mid _ _ _ _ H) as [G1 G2 G3].
  apply (slayer_replace n l a [b] m (absorb a b) []); try done.
  - constructor; [|done]. split; [|cbn; rewrite length_app; lia|done].
    intros Ha. cbn. specialize (G1 Ha). by destruct (a_elems a).
  - pose proof (sl_sorted _ _ H) as Hs. rewrite flat_mid, flat_cons in Hs. cbn.
    by rewrite app_nil_r, <- app_assoc.
Qed.

(** ** All layers *)

(** Each layer's entries are the anchors of the layer below; nothing is
    above the top layer. *)
Record linked (layers : nat) S : Prop := {
  lk_link n l u : S !! n = Some l -> S !! Datatypes.S n = Some u -> flat u = anchors l;
  lk_top l : S !! layers = Some l -> anchors l = [];
}.

(** The content of the map. *)
Definition holds S (d : list (Z * V)) : Prop := exists l, S !! 0%nat = Some l /\ flat l = kv_vmap VData d.

(** Replace a layer by one with the same entries and anchors. *)
Lemma linked_same layers S n l l' :
  linked layers S -> S !! n = Some l -> same l l' -> linked layers (<[n := l']> S).
Proof.
  intros [HL HT] Hl [Hf Ha]. pose proof (lookup_lt_Some _ _ _ Hl) as Hlt.
  assert (Hx : forall i u, <[n := l']> S !! i = Some u ->
            exists u0, S !! i = Some u0 /\ flat u = flat u0 /\ anchors u = anchors u0).
  { intros i u. destruct (decide (i = n)) as [->|Hne].
    - rewrite list_lookup_insert_eq by done. intros [= <-]. eauto.
    - rewrite list_lookup_insert_ne by done. eauto. }
  split.
  - intros i u v (u0 & Hu & _ & Eu)%Hx (v0 & Hv & Ev & _)%Hx. rewrite Ev, Eu. eauto.
  - intros u (u0 & Hu & _ & Eu)%Hx. rewrite Eu. eauto.
Qed.

Lemma holds_same S n l l' d :
  holds S d -> S !! n = Some l -> same l l' -> holds (<[n := l']> S) d.
Proof.
  intros (u & Hu & Hd) Hl [Hf Ha]. pose proof (lookup_lt_Some _ _ _ Hl) as Hlt.
  destruct (decide (n = 0%nat)) as [->|Hne].
  - exists l'. rewrite list_lookup_insert_eq by done. split; [done|]. congruence.
  - exists u. by rewrite list_lookup_insert_ne.
Qed.
End SvLayers.

Arguments with_lock {V} al a.
Arguments cap vof {HV} n.
Arguments good {V} vof {HV} n a.
Arguments slayer {V} vof {HV} n l.

(** * Updates that go through several layers

    An insertion goes up and a removal goes down, one layer at a time.  In
    between, one layer has an anchor that the layer above it lacks. *)

Section SvLink.
Context {V : Type} (layers : nat).

Local Abbreviation anode := (anode V (lock_state * Z)).
Implicit Types (a b : anode) (l m L : list anode) (S : list (list anode)) (k : Z) (n j : nat) (v : value V).

(** Layer [j] has the anchor [(k, v)] and the layer above does not. *)
Record pending j k v S : Prop := {
  pd_link n l u : n <> j -> S !! n = Some l -> S !! Datatypes.S n = Some u -> flat u = anchors l;
  pd_gap l u : S !! j = Some l -> S !! Datatypes.S j = Some u -> anchors l = kv_insert k v (flat u);
  pd_top l : S !! layers = Some l -> anchors l = [];
}.

Ltac layer_cases H :=
  apply list_lookup_insert_Some in H as [(? & ? & ?)|[? H]]; simplify_eq/=; try done; try lia.

Section Step.
Context (S : list (list anode)) (l l' : list anode) (k : Z) (v : value V).

(** The data layer changes, and not its anchors. *)
Lemma linked_bottom :
  linked layers S -> S !! 0%nat = Some l -> anchors l' = anchors l -> linked layers (<[0%nat := l']> S).
Proof.
  intros [HL HT] Hl Ha. split.
  - intros n u w Hu Hw. layer_cases Hw. layer_cases Hu.
    + rewrite Ha. eauto.
    + eauto.
  - intros u Hu. layer_cases Hu; [|eauto]. rewrite Ha. eauto.
Qed.

(** A layer is rearranged. *)
Lemma pending_same j n :
  pending j k v S -> S !! n = Some l -> same l l' -> pending j k v (<[n := l']> S).
Proof.
  intros [HL HG HT] Hl [Hf Ha]. split.
  - intros i u w Hi Hu Hw. layer_cases Hu; layer_cases Hw.
    + rewrite Ha. by eapply HL.
    + rewrite Hf. by eapply HL.
    + by eapply HL.
  - intros u w Hu Hw. layer_cases Hu; layer_cases Hw.
    + rewrite Ha. eauto.
    + rewrite Hf. eauto.
    + eauto.
  - intros u Hu. layer_cases Hu; [|eauto]. rewrite Ha. eauto.
Qed.

(** Upwards. *)

Lemma pending_start :
  linked layers S -> (0 < layers)%nat -> S !! 0%nat = Some l ->
  anchors l' = kv_insert k v (anchors l) -> pending 0 k v (<[0%nat := l']> S).
Proof.
  intros [HL HT] Hpos Hl Ha. split.
  - intros n u w Hn Hu Hw. layer_cases Hw. layer_cases Hu. eauto.
  - intros u w Hu Hw. layer_cases Hw. layer_cases Hu. rewrite Ha. f_equal. symmetry. eauto.
  - intros u Hu. layer_cases Hu. eauto.
Qed.

Lemma pending_up j v' :
  pending j k v S -> (Datatypes.S j < layers)%nat -> S !! Datatypes.S j = Some l ->
  flat l' = kv_insert k v (flat l) -> anchors l' = kv_insert k v' (anchors l) ->
  pending (Datatypes.S j) k v' (<[Datatypes.S j := l']> S).
Proof.
  intros [HL HG HT] Hj Hl Hf Ha. split.
  - intros n u w Hn Hu Hw. layer_cases Hu. layer_cases Hw; [|eauto]. rewrite Hf. symmetry. eauto.
  - intros u w Hu Hw. layer_cases Hw. layer_cases Hu. rewrite Ha. f_equal. symmetry. eauto.
  - intros u Hu. layer_cases Hu. eauto.
Qed.

Lemma pending_top j :
  pending j k v S -> S !! Datatypes.S j = Some l ->
  flat l' = kv_insert k v (flat l) -> anchors l' = anchors l ->
  linked layers (<[Datatypes.S j := l']> S).
Proof.
  intros [HL HG HT] Hl Hf Ha. split.
  - intros n u w Hu Hw. layer_cases Hu; layer_cases Hw.
    + rewrite Ha. eapply (HL (Datatypes.S j)); [lia|done|done].
    + rewrite Hf. symmetry. eauto.
    + eapply (HL n); [|done|done]. intros ->. done.
  - intros u Hu. layer_cases Hu; [|eauto]. rewrite Ha. eauto.
Qed.

(** Downwards. *)

Lemma pending_remove j :
  linked layers S -> S !! Datatypes.S j = Some l ->
  kv_sorted (flat l) -> kv_lookup k (flat l) = Some v -> flat l' = kv_remove k (flat l) -> anchors l' = anchors l ->
  pending j k v (<[Datatypes.S j := l']> S).
Proof.
  intros [HL HT] Hl Hs Hv Hf Ha. split.
  - intros n u w Hn Hu Hw. layer_cases Hu; layer_cases Hw; [|by eapply HL].
    rewrite Ha. by eapply HL.
  - intros u w Hu Hw. layer_cases Hu. layer_cases Hw. rewrite Hf.
    rewrite <- (HL _ _ _ Hu Hl). symmetry. by apply kv_insert_remove.
  - intros u Hu. layer_cases Hu; [|eauto]. rewrite Ha. eauto.
Qed.

Lemma pending_down j u v' :
  pending (Datatypes.S j) k v S -> S !! Datatypes.S j = Some l -> S !! Datatypes.S (Datatypes.S j) = Some u ->
  kv_sorted (flat u) -> kv_lookup k (flat u) = None ->
  kv_sorted (flat l) -> kv_lookup k (flat l) = Some v' ->
  flat l' = kv_remove k (flat l) -> anchors l' = kv_remove k (anchors l) ->
  pending j k v' (<[Datatypes.S j := l']> S).
Proof.
  intros [HL HG HT] Hl Hu Hsu Hku Hs Hk Hf Ha.
  assert (Ha' : anchors l' = flat u) by (rewrite Ha, (HG _ _ Hl Hu); by apply kv_remove_insert).
  pose proof (lookup_lt_Some _ _ _ Hu) as Hlt. split.
  - intros n w z Hn Hw Hz. layer_cases Hw; layer_cases Hz. eapply (HL n); [lia|done|done].
  - intros w z Hw Hz. layer_cases Hw. layer_cases Hz. rewrite Hf, kv_insert_remove by done. symmetry.
    eapply (HL j); [lia|done|done].
  - intros w Hw. layer_cases Hw; [|eauto]. rewrite Ha. by rewrite (HT l) by done.
Qed.

Lemma pending_bottom u :
  pending 0 k v S -> S !! 0%nat = Some l -> S !! 1%nat = Some u ->
  kv_sorted (flat u) -> kv_lookup k (flat u) = None -> anchors l' = kv_remove k (anchors l) ->
  linked layers (<[0%nat := l']> S).
Proof.
  intros [HL HG HT] Hl Hu Hsu Hku Ha.
  assert (Ha' : anchors l' = flat u) by (rewrite Ha, (HG _ _ Hl Hu); by apply kv_remove_insert). split.
  - intros n w z Hw Hz. layer_cases Hw; layer_cases Hz. eapply (HL n); [lia|done|done].
  - intros w Hw. layer_cases Hw; [|eauto]. rewrite Ha. by rewrite (HT l) by done.
Qed.
End Step.
End SvLink.
