(* ===== verification/SvMem.v ===== *)
(** * SvMem: abstract memory, and what each access does to it

    A [cell] is what a node in memory holds, with its lock decoded and its
    vector replaced by the entries it stands for.  [represents] relates an
    abstract memory, with what the thread's hazard pointer context holds, to a
    world; [exec m s r s'] says that the program [m], run alone in any world
    that [s] represents, returns [r] in a world that [s'] represents.  The
    [exec_] lemmas give the effect of each access as a function of [s]. *)

From S2P Require Import Prelude KvList Prog SvLock VecSpec HazardPtr World SvNode.

Local Open Scope Z_scope.
Import Thread.

Section SvMem.
Context {V : Type} {vof : kind -> Type -> Type}.
Context `{HV : forall kd, VecOps (vof kd)} `{HS : forall kd, VecSpec (vof kd)}.
Context (junk : forall kd, Z * elt V kd) (ZCAP t : nat).

Local Abbreviation mem := (mem V unit (fun _ => chunk V vof)).
Local Abbreviation world := (world V unit (fun _ => chunk V vof)).
Local Abbreviation cnode := (node V unit (fun _ => chunk V vof)).
Local Abbreviation run := (run (handle (D:=V) (X:=unit) (vec:=fun _ => chunk V vof) t)).

(** A value as an entry of a node. *)
Definition wrap (kd : kind) : elt V kd -> value V :=
  match kd with INDEX => VDown | DATA => VData end.

Lemma wrap_inj kd x y : wrap kd x = wrap kd y -> x = y.
Proof. destruct kd; by intros [=]. Qed.

Record cell := Cell {
  c_lock : alock;
  c_next : option ptr;
  c_kind : kind;
  c_elems : list (Z * value V);
}.

Record cell_is (n : cnode) (c : cell) : Prop := {
  ci_lock : n_lock n = encode (c_lock c);
  ci_next : n_next n = c_next c;
  ci_vec : exists v : vof (c_kind c) (elt V (c_kind c)),
    n_vec n = Chunk (c_kind c) v /\ v_ok v /\ c_elems c = kv_vmap (wrap (c_kind c)) (v_elems v);
}.

(** The hazard pointers: no context yet, or what the thread's context
    protects and its zombies. *)
Local Abbreviation hpstate := (option (held ptr * list ptr)).

Definition hp_is (hp : hpstate) (m : mgr_t) : Prop :=
  match hp with
  | None => m = []
  | Some (h, zs) => exists c, m = [(t, c)] /\ slots c h /\ zombies_ok ZCAP c zs
  end.

Record astate := AState { s_mem : gmap ptr cell; s_fresh : positive; s_hp : hpstate }.
Implicit Types (s : astate) (M : gmap ptr cell) (p q : ptr) (al : alock) (hp : hpstate).
Implicit Types (kd : kind) (el : list (Z * value V)) (zs : list ptr).

Record represents s (w : world) : Prop := {
  re_mem p : option_Forall2 cell_is (w_nodes w !! p) (s_mem s !! p);
  re_fresh : w_fresh w = s_fresh s;
  re_hp : hp_is (s_hp s) (w_hp w);
}.

Definition exec {A} (m : mem A) s (r : A) s' : Prop :=
  forall w, represents s w -> exists w', run m w = Done r w' /\ represents s' w'.

Lemma exec_ret {A} (r : A) s : exec (Ret r) s r s.
Proof. intros w Hw. by exists w. Qed.

Lemma exec_bind {A B} (m : mem A) (f : A -> mem B) s r s1 x s2 :
  exec m s r s1 -> exec (f r) s1 x s2 -> exec (bind m f) s x s2.
Proof.
  intros Hm Hf w Hw. destruct (Hm w Hw) as (w1 & Hr1 & Hw1).
  destruct (Hf w1 Hw1) as (w2 & Hr2 & Hw2). exists w2. split; [|done].
  by rewrite (run_bind_done _ _ _ _ _ _ Hr1).
Qed.

Lemma exec_lift_opt {A} (o : option A) (r : A) s : o = Some r -> exec (lift_opt o) s r s.
Proof. intros ->. apply exec_ret. Qed.

(** ** Accesses to one node *)

Lemma represents_node s w p c :
  represents s w -> s_mem s !! p = Some c -> exists n, w_nodes w !! p = Some n /\ cell_is n c.
Proof.
  intros Hw Hp. pose proof (re_mem _ _ Hw p) as H. rewrite Hp in H.
  inversion H as [n c' Hc Hn Hc'|]; subst. eauto.
Qed.

Lemma represents_put M fr hp w p n c :
  represents (AState M fr hp) w -> cell_is n c ->
  represents (AState (<[p := c]> M) fr hp) (set_node p n w).
Proof.
  intros [Hm Hf Hh] Hc. split; [|done|done]. intros q. cbn.
  destruct (decide (p = q)) as [->|Hne].
  - rewrite !lookup_insert_eq. by constructor.
  - rewrite !lookup_insert_ne by done. apply Hm.
Qed.

Lemma set_node_same (w : world) p n : w_nodes w !! p = Some n -> set_node p n w = w.
Proof. intros Hn. unfold set_node. rewrite insert_id by done. by destruct w. Qed.

Lemma exec_load_next s p c : s_mem s !! p = Some c -> exec (load_next p) s (c_next c) s.
Proof.
  intros Hp w Hw. destruct (represents_node s w p c Hw Hp) as (n & Hn & Hc).
  exists w. split; [|done]. cbn. rewrite Hn. cbn. by rewrite (ci_next _ _ Hc).
Qed.

Lemma exec_lock_read {B} s p c (f : Z -> option (B * Z)) (b : B) :
  s_mem s !! p = Some c -> f (encode (c_lock c)) = Some (b, encode (c_lock c)) ->
  exec (lock_rmw p f) s b s.
Proof.
  intros Hp Hf w Hw. destruct (represents_node s w p c Hw Hp) as (n & Hn & Hc).
  exists w. split; [|done]. cbn. rewrite Hn. cbn. rewrite (ci_lock _ _ Hc), Hf. cbn.
  rewrite <- (ci_lock _ _ Hc). destruct n. by rewrite set_node_same.
Qed.

Section Put.
Context (M : gmap ptr cell) (fr : positive) (hp : hpstate) (p : ptr).
Context (al : alock) (nx : option ptr) (kd : kind) (el : list (Z * value V)).
Context (Hp : M !! p = Some (Cell al nx kd el)).

Lemma exec_lock {B} (f : Z -> option (B * Z)) (b : B) al' :
  f (encode al) = Some (b, encode al') ->
  exec (lock_rmw p f) (AState M fr hp) b (AState (<[p := Cell al' nx kd el]> M) fr hp).
Proof.
  intros Hf w Hw. destruct (represents_node _ w p _ Hw Hp) as (n & Hn & [H1 H2 H3]). cbn in H1, H2, H3.
  eexists. split; [cbn; rewrite Hn; cbn; rewrite H1, Hf; reflexivity|].
  by apply represents_put.
Qed.

Lemma exec_store_next nx' :
  exec (store_next p nx') (AState M fr hp) tt (AState (<[p := Cell al nx' kd el]> M) fr hp).
Proof.
  intros w Hw. destruct (represents_node _ w p _ Hw Hp) as (n & Hn & [H1 H2 H3]). cbn in H1, H2, H3.
  eexists. split; [cbn; rewrite Hn; reflexivity|]. by apply represents_put.
Qed.

Lemma exec_vget {B} (f : vof kd (elt V kd) -> option B) (b : B) :
  (forall v, v_ok v -> el = kv_vmap (wrap kd) (v_elems v) -> f v = Some b) ->
  exec (vget kd p f) (AState M fr hp) b (AState M fr hp).
Proof.
  intros Hf w Hw. destruct (represents_node _ w p _ Hw Hp) as (n & Hn & [H1 H2 (v & Hv & Hok & He)]).
  cbn in v, Hv, Hok, He. exists w. split; [|done].
  unfold vget, vec_get. cbn. rewrite Hn. cbn. rewrite Hv, as_kind_eq. cbn. rewrite Hf by done. cbn.
  rewrite <- Hv. destruct n. by rewrite set_node_same.
Qed.

Lemma exec_vupd {B} (f : vof kd (elt V kd) -> option (B * vof kd (elt V kd))) (b : B) el' :
  (forall v, v_ok v -> el = kv_vmap (wrap kd) (v_elems v) ->
     exists v', f v = Some (b, v') /\ v_ok v' /\ el' = kv_vmap (wrap kd) (v_elems v')) ->
  exec (vupd kd p f) (AState M fr hp) b (AState (<[p := Cell al nx kd el']> M) fr hp).
Proof.
  intros Hf w Hw. destruct (represents_node _ w p _ Hw Hp) as (n & Hn & [H1 H2 (v & Hv & Hok & He)]).
  cbn in v, H1, H2, Hv, Hok, He. destruct (Hf v Hok He) as (v' & Hfv & Hok' & He').
  eexists. split; [unfold vupd, vec_upd; cbn; rewrite Hn; cbn; rewrite Hv, as_kind_eq; cbn;
    rewrite Hfv; reflexivity|].
  apply represents_put; [done|]. split; [done|done|]. exists v'. done.
Qed.

(** A method that steals from [q]. *)
Lemma exec_vsteal q al2 nx2 el2 f el' el2' :
  p <> q -> M !! q = Some (Cell al2 nx2 kd el2) ->
  (forall v u, v_ok v -> v_ok u -> el = kv_vmap (wrap kd) (v_elems v) ->
     el2 = kv_vmap (wrap kd) (v_elems u) ->
     exists v' u', f v u = Some (v', u') /\ v_ok v' /\ v_ok u' /\
       el' = kv_vmap (wrap kd) (v_elems v') /\ el2' = kv_vmap (wrap kd) (v_elems u')) ->
  exec (vsteal kd p q f) (AState M fr hp) tt
    (AState (<[p := Cell al nx kd el']> (<[q := Cell al2 nx2 kd el2']> M)) fr hp).
Proof.
  intros Hpq Hq Hf w Hw.
  destruct (represents_node _ w p _ Hw Hp) as (n & Hn & [H1 H2 (v & Hv & Hok & He)]).
  destruct (represents_node _ w q _ Hw Hq) as (n2 & Hn2 & [H3 H4 (u & Hu & Hok2 & He2)]).
  cbn in v, H1, H2, Hv, Hok, He, u, H3, H4, Hu, Hok2, He2.
  destruct (Hf v u Hok Hok2 He He2) as (v' & u' & Hfv & Hok' & Hok2' & He' & He2').
  eexists. split.
  { unfold vsteal, vec_steal. cbn. rewrite Hn, Hn2. cbn. rewrite bool_decide_eq_true_2 by done. cbn.
    rewrite Hv, Hu, !as_kind_eq. cbn. rewrite Hfv. reflexivity. }
  apply represents_put; [|split; [done|done|by exists v']].
  apply represents_put; [done|]. split; [done|done|by exists u'].
Qed.

Lemma exec_delete : exec (trigger (EDelete p)) (AState M fr hp) tt (AState (delete p M) fr hp).
Proof.
  intros w Hw. destruct (represents_node _ w p _ Hw Hp) as (n & Hn & _).
  eexists. split; [cbn; rewrite Hn; reflexivity|]. destruct Hw as [Hm Hf Hh]. split; [|done|done].
  intros q. cbn. destruct (decide (p = q)) as [->|Hne].
  - rewrite !lookup_delete_eq. constructor.
  - rewrite !lookup_delete_ne by done. apply Hm.
Qed.

(** [acquire()] on a free lock. *)
Lemma exec_acquire fuel :
  alock_ok al -> al_state al = Unlocked ->
  exec (lock_acquire (S fuel) p) (AState M fr hp) true
    (AState (<[p := Cell (al_to Locked al) nx kd el]> M) fr hp).
Proof.
  intros Hal Hst w Hw. destruct (represents_node _ w p _ Hw Hp) as (n & Hn & [H1 H2 H3]). cbn in H1, H2, H3.
  assert (Hu : is_unlocked (encode al) = true).
  { rewrite is_unlocked_encode. by apply bool_decide_eq_true_2. }
  assert (He : u64 (encode al + LOCK_BIT) = encode (al_to Locked al)).
  { apply encode_to; [done|]. by rewrite Hst. }
  exists (set_node p (Node (encode (al_to Locked al)) (n_ext n) (n_next n) (n_vec n)) w). split.
  - unfold lock_acquire, acquire. cbn. rewrite Hn. cbn. rewrite H1, Hu. cbn.
    rewrite lookup_insert_eq. cbn. rewrite Z.eqb_refl, He. unfold set_node. cbn. by rewrite insert_insert_eq.
  - by apply represents_put.
Qed.
End Put.

(** ** A new node *)

Lemma exec_new M fr hp o nx kd :
  exec (trigger (ENew (Node (sv_lock_new o) tt nx (Chunk kd (v_new (junk kd))))))
    (AState M fr hp) (Heap fr)
    (AState (<[Heap fr := Cell (ALock o Unlocked 0) nx kd []]> M) (Pos.succ fr) hp).
Proof.
  intros w Hw. destruct w as [N f m]. pose proof (re_fresh _ _ Hw) as Hfr. cbn in Hfr. subst f.
  eexists. split; [reflexivity|].
  assert (Hc : cell_is (Node (sv_lock_new o) tt nx (Chunk kd (v_new (junk kd))))
                 (Cell (ALock o Unlocked 0) nx kd [])).
  { split; cbn; [apply sv_lock_new_encode|done|].
    destruct (v_new_spec (vec:=vof kd) (junk kd)) as [Hok He]. exists (v_new (junk kd)). by rewrite He. }
  destruct (represents_put M fr hp (World N fr m) (Heap fr) _ _ Hw Hc) as [Hm Hf Hh].
  by split.
Qed.

(** ** Hazard pointers *)

Section Hp.
Context (M : gmap ptr cell) (fr : positive).

Lemma exec_hp_call f hp hp' :
  (forall m, hp_is hp m -> exists m', f t m = Some m' /\ hp_is hp' m') ->
  exec (hp_call f) (AState M fr hp) tt (AState M fr hp').
Proof.
  intros Hf [N g m] [Hm Hg Hh]. destruct (Hf m Hh) as (m' & Hfm & Hh').
  eexists. split; [cbn; rewrite Hfm; reflexivity|]. by split.
Qed.

(** After [init_context()]. *)
Definition hp_started hp : held ptr * list ptr :=
  match hp with None => (HNone, []) | Some x => x end.

Lemma exec_hp_init hp : exec (hp_init ZCAP) (AState M fr hp) tt (AState M fr (Some (hp_started hp))).
Proof.
  apply exec_hp_call. intros m Hm. eexists. split; [reflexivity|].
  unfold Manager.init_context. destruct hp as [[h zs]|]; cbn in Hm.
  - destruct Hm as (c & -> & Hc). cbn. rewrite decide_True by done. cbn. eauto.
  - subst m. cbn. exists (ctx_new ZCAP). split; [done|]. split; [apply slots_new|apply zombies_new].
Qed.

(** A slot operation acts on the thread's context and leaves its zombies. *)
Lemma hp_slot (f : ctx ptr -> option (ctx ptr)) h h' zs m :
  (forall c, slots c h -> exists c', f c = Some c' /\ slots c' h' /\
     count c' = count c /\ zombies c' = zombies c) ->
  hp_is (Some (h, zs)) m -> exists m', Manager.with_ctx f t m = Some m' /\ hp_is (Some (h', zs)) m'.
Proof.
  intros Hf (c & -> & Hs & Hz1 & Hz2 & Hz3). destruct (Hf c Hs) as (c' & Hfc & Hs' & Hn & Hzc).
  exists [(t, c')]. split.
  - unfold Manager.with_ctx. cbn. rewrite decide_True by done. cbn. rewrite Hfc. cbn. by rewrite decide_True.
  - exists c'. split_and!; try done. split_and!; congruence.
Qed.

Ltac slot_exec :=
  apply exec_hp_call; intros m; apply hp_slot; intros [ci cn zz hz] Hs;
  destruct (slots_inv _ _ Hs) as [[Hci|Hci] (? & ? & Hhz)]; cbn in Hci, Hhz; subst ci hz;
  destruct Hs as (_ & _ & Hc & Hn); cbn in Hc, Hn; simplify_eq;
  eexists; (split; [reflexivity|split_and!; cbn; [split_and!; cbn; auto; lia|done|done]]).

Lemma exec_take_first p zs :
  exec (hp_take_first p) (AState M fr (Some (HNone, zs))) tt (AState M fr (Some (HCurr p, zs))).
Proof. slot_exec. Qed.

Lemma exec_take_next p q zs :
  exec (hp_take_next q) (AState M fr (Some (HCurr p, zs))) tt (AState M fr (Some (HBoth p q, zs))).
Proof. slot_exec. Qed.

Lemma exec_drop_next p q zs :
  exec hp_drop_next (AState M fr (Some (HBoth p q, zs))) tt (AState M fr (Some (HCurr p, zs))).
Proof. slot_exec. Qed.

Lemma exec_drop_curr_both p q zs :
  exec hp_drop_curr (AState M fr (Some (HBoth p q, zs))) tt (AState M fr (Some (HCurr q, zs))).
Proof. slot_exec. Qed.

Lemma exec_drop_curr p zs :
  exec hp_drop_curr (AState M fr (Some (HCurr p, zs))) tt (AState M fr (Some (HNone, zs))).
Proof. slot_exec. Qed.
End Hp.

(** ** Reclamation *)

Lemma exec_delete_all l : forall M fr hp,
  NoDup l -> (forall p, p ∈ l -> is_Some (M !! p)) ->
  exists M', exec (delete_all l) (AState M fr hp) tt (AState M' fr hp) /\
    forall p, M' !! p = if decide (p ∈ l) then None else M !! p.
Proof.
  induction l as [|q l IH]; intros M fr hp Hnd Hl.
  { exists M. split; [apply exec_ret|]. intros p. by rewrite decide_False by apply not_elem_of_nil. }
  apply NoDup_cons in Hnd as [Hq Hnd]. destruct (Hl q) as [[al nx kd el] Hc]; [by left|].
  destruct (IH (delete q M) fr hp Hnd) as (M' & He & HM').
  { intros p Hp. rewrite lookup_delete_ne by congruence. apply Hl. by right. }
  exists M'. split; [cbn [delete_all]; eapply exec_bind; [eapply exec_delete, Hc|exact He]|].
  intros p. rewrite HM'. destruct (decide (q = p)) as [->|Hne].
  - rewrite (decide_True (P := p ∈ p :: l)) by (by left). by rewrite lookup_delete_eq; case_decide.
  - rewrite lookup_delete_ne by done. destruct (decide (p ∈ l)).
    + by rewrite decide_True by (by right).
    + by rewrite decide_False by (rewrite not_elem_of_cons; auto).
Qed.

(** With nothing of them protected, a sweep deletes all zombies. *)
Lemma sweep_all_dead (c : ctx ptr) h zs (in_use : list ptr) :
  zombies_ok ZCAP c zs -> slots c h -> (forall q, q ∈ in_use -> q ∉ zs) ->
  exists del c', sweep in_use c = Some (del, c') /\ del ≡ₚ zs /\ zombies_ok ZCAP c' [] /\ slots c' h.
Proof.
  intros Hz Hs Hu. destruct (sweep_spec ZCAP in_use c zs Hz)
    as (kept & del & c' & Hr & Hz' & Hp & Hk & _ & Hi & Hh).
  assert (kept = []) as ->.
  { destruct kept as [|q kept]; [done|]. apply Forall_cons in Hk as [Hq _]. destruct (Hu q Hq).
    rewrite <- Hp. by left. }
  exists del, c'. split_and!; try done. unfold slots in *. by rewrite Hi, Hh.
Qed.

Definition without (dead : list ptr) M M' : Prop :=
  forall p, M' !! p = if decide (p ∈ dead) then None else M !! p.

Lemma without_perm dead dead' M M' : dead ≡ₚ dead' -> without dead M M' -> without dead' M M'.
Proof. intros Hp Hw p. rewrite Hw. by repeat case_decide; try done; rewrite Hp in *. Qed.

Lemma without_eq dead M M1 M2 : without dead M M1 -> without dead M M2 -> M1 = M2.
Proof. intros H1 H2. apply map_eq. intros p. by rewrite H1, H2. Qed.

Lemma exec_reclaim M fr h zs p :
  (1 <= ZCAP)%nat -> NoDup zs -> (forall q, q ∈ zs -> is_Some (M !! q)) ->
  (forall q, q ∈ held_list h -> q ∉ zs) ->
  exists M' kept dead,
    exec (hp_reclaim ZCAP p) (AState M fr (Some (h, zs))) tt (AState M' fr (Some (h, kept ++ [p]))) /\
    kept ++ dead ≡ₚ zs /\ without dead M M'.
Proof.
  intros Hcap Hnd Hzs Hh. destruct (decide (ZCAP <= length zs)%nat) as [Hfull|Hroom].
  - destruct (exec_delete_all zs M fr (Some (h, [p])) Hnd Hzs) as (M' & _ & HM').
    exists M', [], zs. split_and!; [|done|exact HM'].
    intros [N g m] [Hm Hg (c & Hc & Hs & Hz)]. cbn in Hm, Hg, Hc. subst m g.
    destruct (sweep_all_dead c h zs (Manager.get_in_use [(t, c)]) Hz Hs) as (del & c' & Hsw & Hdel & Hz' & Hs').
    { intros q Hq. apply Hh. unfold Manager.get_in_use in Hq. cbn in Hq. rewrite app_nil_r in Hq.
      by apply (Manager.slots_in_use c). }
    destruct (push_zombie ZCAP c' [] p Hz') as [Hfree Hz2]; [cbn; lia|].
    assert (Hre : exists c2, Manager.reclaim ZCAP t p [(t, c)] = Some (del, [(t, c2)]) /\
              slots c2 h /\ zombies_ok ZCAP c2 [p]).
    { pose proof Hz as (_ & Hcount & _). unfold Manager.reclaim. cbn. rewrite decide_True by done. cbn.
      rewrite (proj2 (Nat.leb_le _ _)) by lia. unfold Manager.mgr_sweep. cbn.
      rewrite ?decide_True by done. cbn.
      change (omap id (hazP c) ++ []) with (Manager.get_in_use [(t, c)]). rewrite Hsw. cbn.
      repeat (rewrite decide_True by done; cbn). rewrite Hfree. cbn.
      repeat (rewrite decide_True by done; cbn). eexists. split; [reflexivity|]. done. }
    destruct Hre as (c2 & Hre & Hs2 & Hz3).
    destruct (exec_delete_all del M (s_fresh (AState M fr (Some (h, zs)))) (Some (h, [p]))) as (M2 & He2 & HM2).
    { by rewrite Hdel. } { intros q Hq. apply Hzs. by rewrite <- Hdel. }
    assert (M2 = M') as -> by exact (without_eq zs M M2 M' (without_perm del zs M M2 Hdel HM2) HM').
    destruct (He2 (World N fr [(t, c2)])) as (w' & Hr & Hw'); [by split; [|done|exists c2]|].
    exists w'. split; [|done]. unfold hp_reclaim. rewrite run_bind. cbn [trigger Prog.run handle w_hp].
    rewrite Hre. cbn. exact Hr.
  - exists M, zs, []. split_and!; [|by rewrite app_nil_r|intros q; by rewrite decide_False by apply not_elem_of_nil].
    intros [N g m] [Hm Hg (c & Hc & Hs & Hz)]. cbn in Hm, Hg, Hc. subst m g.
    destruct (push_zombie ZCAP c zs p Hz) as [Hfree Hz2]; [lia|].
    pose proof Hz as (_ & Hcount & _).
    eexists. split.
    { unfold hp_reclaim. rewrite run_bind. cbn [trigger Prog.run handle w_hp].
      unfold Manager.reclaim. cbn. rewrite decide_True by done. cbn.
      rewrite (proj2 (Nat.leb_gt _ _)) by lia. cbn. rewrite decide_True by done. cbn. rewrite Hfree. cbn.
      repeat (rewrite decide_True by done; cbn). reflexivity. }
    split; [done|done|]. eexists. split; [reflexivity|]. done.
Qed.

(** [sweep_all()] of a thread that protects nothing. *)
Lemma exec_sweep_all M fr hp :
  (forall h zs, hp = Some (h, zs) -> h = HNone /\ NoDup zs /\ forall q, q ∈ zs -> is_Some (M !! q)) ->
  exists M', exec hp_sweep_all (AState M fr hp) tt (AState M' fr ((fun x => (x.1, [])) <$> hp)) /\
    without (match hp with Some (_, zs) => zs | None => [] end) M M'.
Proof.
  destruct hp as [[h zs]|]; intros H.
  - destruct (H h zs eq_refl) as (-> & Hnd & Hzs).
    destruct (exec_delete_all zs M fr (Some (HNone, [])) Hnd Hzs) as (M' & _ & HM').
    exists M'. split; [|exact HM'].
    intros [N g m] [Hm Hg (c & Hc & Hs & Hz)]. cbn in Hm, Hg, Hc. subst m g.
    destruct (sweep_all_dead c HNone zs [] Hz Hs) as (del & c' & Hsw & Hdel & Hz' & Hs').
    { intros q Hq. by apply elem_of_nil in Hq. }
    assert (Hin : Manager.get_in_use [(t, c)] = []).
    { unfold Manager.get_in_use. cbn. rewrite app_nil_r. apply elem_of_nil_inv. intros q Hq.
      apply (Manager.slots_in_use c HNone) in Hq; [|done]. by apply elem_of_nil in Hq. }
    destruct (exec_delete_all del M fr (Some (HNone, []))) as (M2 & He2 & HM2).
    { by rewrite Hdel. } { intros q Hq. apply Hzs. by rewrite <- Hdel. }
    assert (M2 = M') as -> by exact (without_eq zs M M2 M' (without_perm del zs M M2 Hdel HM2) HM').
    destruct (He2 (World N fr [(t, c')])) as (w' & Hr & Hw'); [by split; [|done|exists c']|].
    exists w'. split; [|done]. unfold hp_sweep_all. rewrite run_bind. cbn [trigger Prog.run handle w_hp].
    unfold Manager.sweep_all. rewrite Hin. cbn. rewrite Hsw. cbn. rewrite app_nil_r. exact Hr.
  - exists M. split; [|intros q; by rewrite decide_False by apply not_elem_of_nil].
    intros [N g m] [Hm Hg Hh]. cbn in Hm, Hg, Hh. subst m g.
    eexists. split; [reflexivity|]. by split.
Qed.
End SvMem.

Arguments cell V : clear implicits.
Arguments astate V : clear implicits.
Arguments exec_load_next {V vof HV HS ZCAP t s p c} _.
Arguments exec_lock_read {V vof HV HS ZCAP t B s p c f b} _ _.
Arguments exec_lock {V vof HV HS ZCAP t M fr hp p al nx kd el} Hp {B f b al'} _.
Arguments exec_store_next {V vof HV HS ZCAP t M fr hp p al nx kd el} Hp nx'.
Arguments exec_vget {V vof HV HS ZCAP t M fr hp p al nx kd el} Hp {B f b} _.
Arguments exec_vupd {V vof HV HS ZCAP t M fr hp p al nx kd el} Hp {B f b el'} _.
Arguments exec_vsteal {V vof HV HS ZCAP t M fr hp p al nx kd el} Hp {q al2 nx2 el2 f el' el2'} _ _ _.
Arguments exec_delete {V vof HV HS ZCAP t M fr hp p al nx kd el} Hp.
Arguments exec_acquire {V vof HV HS ZCAP t M fr hp p al nx kd el} Hp fuel _ _.
