(* ===== verification/SvWp.v ===== *)
(** * SvWp: layers in memory, and reasoning about programs over them

    [sv S s]: the abstract memory [s] holds the layers [S] and the thread's
    zombies, and no other allocated node.  [wp m S hp Q] says that the program
    [m], started with the layers [S] and the hazard pointers [hp], fails no
    assertion, ends, and that its result with the layers and hazard pointers
    it leaves satisfy [Q]: a weakest precondition for total correctness. *)

From S2P Require Import Prelude KvList Prog SvLock VecSpec HazardPtr World Layers Heap SvNode SvOps.
From S2P Require Import SvLayers SvMem.

Local Open Scope Z_scope.
Import Thread.

Section SvWp.
Context {V : Type} {vof : kind -> Type -> Type}.
Context `{HV : forall kd, VecOps (vof kd)} `{HS : forall kd, VecSpec (vof kd)}.
Context (layers ZCAP t : nat).

Local Abbreviation mem := (mem V unit (fun _ => chunk V vof)).
Local Abbreviation anode := (anode V (lock_state * Z)).
Local Abbreviation hpstate := (option (held ptr * list ptr)).
Local Abbreviation exec := (exec (V:=V) (vof:=vof) ZCAP t).
Local Abbreviation slayer := (slayer (V:=V) vof).
Implicit Types (a b : anode) (l m : list anode) (S : list (list anode)) (hp : hpstate).
Implicit Types (M : gmap ptr (cell V)) (s : astate V) (n : nat) (p : ptr).

(** ** Layers in memory *)

Definition cell_of n a (nx : option ptr) : cell V := Cell (lock_of a) nx (kind_of n) (a_elems a).

(** A chain of nodes whose last one has the successor [nx]. *)
Fixpoint chain M n l (nx : option ptr) : Prop :=
  match l with
  | [] => True
  | a :: l' => M !! a_ptr a = Some (cell_of n a (head_or l' nx)) /\ chain M n l' nx
  end.

Lemma head_or_app l1 l2 nx : head_or (l1 ++ l2) nx = head_or l1 (head_or l2 nx).
Proof. by destruct l1. Qed.

Lemma chain_app M n l1 l2 nx :
  chain M n (l1 ++ l2) nx <-> chain M n l1 (head_or l2 nx) /\ chain M n l2 nx.
Proof. induction l1 as [|a l1 IH]; cbn; [tauto|]. rewrite IH, head_or_app. tauto. Qed.

Lemma chain_frame M M' n l nx :
  (forall a, a ∈ l -> M' !! a_ptr a = M !! a_ptr a) -> chain M n l nx -> chain M' n l nx.
Proof.
  induction l as [|a l IH]; cbn; [done|]. intros Hf [Ha Hc]. split.
  - rewrite Hf; [done|by left].
  - apply IH; [|done]. intros b Hb. apply Hf. by right.
Qed.

Lemma chain_elem M n l nx a : chain M n l nx -> a ∈ l -> is_Some (M !! a_ptr a).
Proof.
  induction l as [|b l IH]; [by intros _ ?%not_elem_of_nil|]. intros [Hb Hc] [->|Ha]%elem_of_cons; eauto.
Qed.

Definition zombies_of hp : list ptr := match hp with Some (_, zs) => zs | None => [] end.

Record sv S s : Prop := {
  sv_len : length S = Datatypes.S layers;
  sv_chain n l : S !! n = Some l -> chain (s_mem s) n l None;
  sv_layer n l : S !! n = Some l -> slayer n l;
  sv_nodup : NoDup (zombies_of (s_hp s) ++ ptrs S);
  sv_dom q : is_Some (s_mem s !! Heap q) <-> Heap q ∈ zombies_of (s_hp s) ++ ptrs S;
  sv_fresh q : Heap q ∈ zombies_of (s_hp s) ++ ptrs S -> (q < s_fresh s)%positive;
  sv_zombies : Forall is_heap (zombies_of (s_hp s));
}.

Lemma sv_zombie S s p : sv S s -> p ∈ zombies_of (s_hp s) -> is_Some (s_mem s !! p).
Proof.
  intros H Hp. pose proof (sv_zombies _ _ H) as Hz. rewrite Forall_forall in Hz. specialize (Hz p Hp).
  destruct p as [|q]; [done|]. apply (sv_dom _ _ H). apply elem_of_app. by left.
Qed.

Lemma sv_cell S s n l1 a l2 :
  sv S s -> S !! n = Some (l1 ++ a :: l2) -> s_mem s !! a_ptr a = Some (cell_of n a (head_or l2 None)).
Proof. intros H Hl. apply (sv_chain _ _ H), chain_app in Hl. apply Hl. Qed.

(** A node of the layers is no zombie. *)
Lemma sv_alive S s n l1 a l2 :
  sv S s -> S !! n = Some (l1 ++ a :: l2) -> a_ptr a ∉ zombies_of (s_hp s).
Proof.
  intros H Hl Hz. pose proof (sv_nodup _ _ H) as Hnd. apply NoDup_app in Hnd as (_ & Hnd & _).
  apply (Hnd _ Hz). eapply elem_of_ptrs; [exact Hl|]. apply elem_of_app. right. left.
Qed.

(** ** Changing one layer *)

Section Update.
Context (S : list (list anode)) (s s' : astate V) (n : nat) (l l' : list anode).
Context (touched news dead : list ptr).
Context (Hsv : sv S s) (Hl : S !! n = Some l).
Context (Hlayer : slayer n l') (Hchain : chain (s_mem s') n l' None).
Context (Hframe : forall p, p ∉ touched -> s_mem s' !! p = s_mem s !! p).
Context (Htouched : forall p, p ∈ touched -> p ∈ zombies_of (s_hp s) ++ map a_ptr l ++ news).
Context (Hperm : zombies_of (s_hp s') ++ map a_ptr l' ++ dead ≡ₚ
                 zombies_of (s_hp s) ++ map a_ptr l ++ news).
Context (Hnews : NoDup news).
Context (Hfresh : forall p, p ∈ news ->
  exists q, p = Heap q /\ (s_fresh s <= q)%positive /\ (q < s_fresh s')%positive).
Context (Hmono : (s_fresh s <= s_fresh s')%positive).
Context (Hdead : forall p, p ∈ dead -> s_mem s' !! p = None).
Context (Hzs : forall p, p ∈ zombies_of (s_hp s') -> is_heap p /\ is_Some (s_mem s' !! p)).

(** All pointers, before and after. *)
Lemma update_ptrs :
  dead ++ zombies_of (s_hp s') ++ ptrs (<[n := l']> S) ≡ₚ news ++ zombies_of (s_hp s) ++ ptrs S.
Proof using All.
  pose proof (lookup_lt_Some _ _ _ Hl) as Hlt. unfold ptrs.
  rewrite insert_take_drop by done. rewrite <- (take_drop_middle S n l Hl) at 3.
  rewrite !bind_app, !bind_cons.
  rewrite (Permutation_app_comm dead), <- !app_assoc.
  transitivity ((zombies_of (s_hp s') ++ map a_ptr l' ++ dead) ++
    (take n S ≫= map a_ptr) ++ (drop (Datatypes.S n) S ≫= map a_ptr)); [solve_Permutation|].
  rewrite Hperm. solve_Permutation.
Qed.

Lemma update_news p : p ∈ news -> p ∉ zombies_of (s_hp s) ++ ptrs S.
Proof using All.
  intros (q & -> & Hq & _)%Hfresh Hin. apply (sv_fresh _ _ Hsv) in Hin. lia.
Qed.

Lemma update_nodup : NoDup (dead ++ zombies_of (s_hp s') ++ ptrs (<[n := l']> S)).
Proof using All.
  rewrite update_ptrs. apply NoDup_app. split_and!; [done|apply update_news|apply (sv_nodup _ _ Hsv)].
Qed.

(** The nodes of the other layers are untouched. *)
Lemma update_other i u b :
  i <> n -> S !! i = Some u -> b ∈ u -> s_mem s' !! a_ptr b = s_mem s !! a_ptr b.
Proof using All.
  intros Hi Hu Hb. apply Hframe. intros Ht. apply Htouched in Ht.
  pose proof (sv_nodup _ _ Hsv) as Hnd. apply NoDup_app in Hnd as (_ & Hz & Hnd).
  assert (Hin : a_ptr b ∈ ptrs S) by (by eapply elem_of_ptrs).
  apply elem_of_app in Ht as [Ht|[Ht|Ht]%elem_of_app].
  - by apply (Hz _ Ht).
  - apply list_elem_of_fmap in Ht as (c & Hc & Hcl). apply list_elem_of_split in Hcl as (x & y & ->).
    destruct (ptr_other S n x c y Hnd Hl) as [_ Ho]. by apply (Ho i u b).
  - apply (update_news _ Ht). apply elem_of_app. by right.
Qed.

Lemma sv_update : sv (<[n := l']> S) s'.
Proof using All.
  pose proof update_nodup as Hnd. pose proof (lookup_lt_Some _ _ _ Hl) as Hlt. split.
  - rewrite length_insert. apply (sv_len _ _ Hsv).
  - intros i u. destruct (decide (i = n)) as [->|Hi].
    + rewrite list_lookup_insert_eq by done. by intros [= <-].
    + rewrite list_lookup_insert_ne by done. intros Hu.
      eapply chain_frame; [|by apply (sv_chain _ _ Hsv)]. intros b. by apply (update_other i u).
  - intros i u. destruct (decide (i = n)) as [->|Hi].
    + rewrite list_lookup_insert_eq by done. by intros [= <-].
    + rewrite list_lookup_insert_ne by done. apply (sv_layer _ _ Hsv).
  - by apply NoDup_app in Hnd as (_ & _ & Hnd).
  - intros q. apply NoDup_app in Hnd as (_ & Hdj & _). split.
    + intros Hq. assert (Hin : Heap q ∈ news ++ zombies_of (s_hp s) ++ ptrs S).
      { apply elem_of_app. destruct (decide (Heap q ∈ touched)) as [Ht|Ht].
        - apply Htouched in Ht. apply elem_of_app in Ht as [Ht|[Ht|Ht]%elem_of_app].
          + right. apply elem_of_app. by left.
          + right. apply elem_of_app. right. apply list_elem_of_bind. exists l. split; [done|].
            by eapply list_elem_of_lookup_2.
          + by left.
        - right. apply (sv_dom _ _ Hsv). by rewrite <- Hframe. }
      rewrite <- update_ptrs in Hin. apply elem_of_app in Hin as [Hin|Hin]; [|done].
      rewrite Hdead in Hq by done. by destruct Hq.
    + intros [Hz|Hp]%elem_of_app; [by apply Hzs|].
      apply list_elem_of_bind in Hp as (u & Hp & Hu). apply list_elem_of_fmap in Hp as (b & Hb & Hin).
      apply list_elem_of_lookup in Hu as [i Hi]. rewrite Hb. destruct (decide (i = n)) as [->|Hne].
      * rewrite list_lookup_insert_eq in Hi by done. injection Hi as <-. by eapply chain_elem.
      * rewrite list_lookup_insert_ne in Hi by done. rewrite (update_other i u) by done.
        eapply chain_elem; [by apply (sv_chain _ _ Hsv)|done].
  - intros q Hq. assert (Hin : Heap q ∈ news ++ zombies_of (s_hp s) ++ ptrs S).
    { rewrite <- update_ptrs. apply elem_of_app. by right. }
    apply elem_of_app in Hin as [Hin|Hin].
    + apply Hfresh in Hin as (q' & [= ->] & _ & ?). done.
    + apply (sv_fresh _ _ Hsv) in Hin. lia.
  - apply Forall_forall. intros p Hp. by apply Hzs.
Qed.
End Update.

(** One node changes. *)
Lemma sv_node S M fr hp n l1 a a' l2 :
  sv S (AState M fr hp) -> S !! n = Some (l1 ++ a :: l2) -> a_ptr a' = a_ptr a ->
  slayer n (l1 ++ a' :: l2) ->
  sv (<[n := l1 ++ a' :: l2]> S) (AState (<[a_ptr a := cell_of n a' (head_or l2 None)]> M) fr hp).
Proof.
  intros H Hl Hp Hlay.
  assert (Hother : forall b, b ∈ l1 \/ b ∈ l2 -> a_ptr b <> a_ptr a).
  { pose proof (sv_nodup _ _ H) as Hnd. apply NoDup_app in Hnd as (_ & _ & Hnd).
    apply (ptr_other S n l1 a l2 Hnd Hl). }
  apply (sv_update S (AState M fr hp) _ n (l1 ++ a :: l2) _ [a_ptr a] [] []); try done; cbn [s_mem s_hp s_fresh].
  - pose proof (sv_chain _ _ H _ _ Hl) as Hc. cbn in Hc. apply chain_app in Hc as [H1 [_ H2]].
    apply chain_app. cbn [chain head_or] in *. rewrite Hp, lookup_insert_eq. split_and!; [|done|].
    + eapply chain_frame; [|exact H1]. intros b Hb. rewrite lookup_insert_ne; [done|]. intros He. eapply Hother; eauto.
    + eapply chain_frame; [|exact H2]. intros b Hb. rewrite lookup_insert_ne; [done|]. intros He. eapply Hother; eauto.
  - intros p Hp'. rewrite lookup_insert_ne; [done|]. intros <-. apply Hp'. by left.
  - intros p ->%list_elem_of_singleton. apply elem_of_app. right. apply elem_of_app. left.
    rewrite map_app. apply elem_of_app. right. left.
  - by rewrite !map_app, !map_cons, Hp.
  - apply NoDup_nil_2.
  - by intros p ?%elem_of_nil.
  - by intros p ?%elem_of_nil.
  - intros p Hz. pose proof (sv_zombies _ _ H) as Hh. rewrite Forall_forall in Hh. split; [by apply Hh|].
    destruct (decide (p = a_ptr a)) as [->|Hne]; [rewrite lookup_insert_eq; eauto|].
    rewrite lookup_insert_ne by done. by apply (sv_zombie _ _ _ H).
Qed.

(** The hazard pointers change, and no zombie. *)
Lemma sv_hp S M fr hp hp' :
  zombies_of hp' = zombies_of hp -> sv S (AState M fr hp) -> sv S (AState M fr hp').
Proof. intros Hz [H1 H2 H3 H4 H5 H6 H7]. cbn in *. split; cbn; rewrite ?Hz; try done; intros q; rewrite ?Hz; auto. Qed.

(** ** Weakest preconditions *)

Definition wp {A} (m : mem A) S hp (Q : A -> list (list anode) -> hpstate -> Prop) : Prop :=
  forall M fr, sv S (AState M fr hp) -> exists r M' fr' S' hp',
    exec m (AState M fr hp) r (AState M' fr' hp') /\ sv S' (AState M' fr' hp') /\ Q r S' hp'.

(** What holds of the layers whenever a program runs. *)
Record okay S hp : Prop := {
  ok_len : length S = Datatypes.S layers;
  ok_layer n l : S !! n = Some l -> slayer n l;
  ok_nodup : NoDup (zombies_of hp ++ ptrs S);
}.

End SvWp.

Section Rules.
Context {V : Type} {vof : kind -> Type -> Type}.
Context `{HV : forall kd, VecOps (vof kd)} `{HS : forall kd, VecSpec (vof kd)}.
Context {layers ZCAP t : nat}.

Local Abbreviation mem := (mem V unit (fun _ => chunk V vof)).
Local Abbreviation anode := (anode V (lock_state * Z)).
Local Abbreviation hpstate := (option (held ptr * list ptr)).
Local Abbreviation exec := (exec (V:=V) (vof:=vof) ZCAP t).
Local Abbreviation slayer := (slayer (V:=V) vof).
Local Abbreviation sv := (sv (V:=V) (vof:=vof) layers).
Local Abbreviation wp := (wp (V:=V) (vof:=vof) layers ZCAP t).
Implicit Types (a b : anode) (l m : list anode) (S : list (list anode)) (hp : hpstate).
Implicit Types (M : gmap ptr (cell V)) (s : astate V) (n : nat) (p : ptr).

Lemma wp_ret {A} (r : A) S hp Q : Q r S hp -> wp (Ret r) S hp Q.
Proof. intros HQ M fr H. exists r, M, fr, S, hp. split_and!; try done. apply exec_ret. Qed.

Lemma wp_bind {A B} (m : mem A) (f : A -> mem B) S hp Q :
  wp m S hp (fun r S' hp' => wp (f r) S' hp' Q) -> wp (bind m f) S hp Q.
Proof.
  intros Hm M fr H. destruct (Hm M fr H) as (r & M1 & fr1 & S1 & hp1 & He1 & H1 & Hf).
  destruct (Hf M1 fr1 H1) as (x & M2 & fr2 & S2 & hp2 & He2 & H2 & HQ).
  exists x, M2, fr2, S2, hp2. split_and!; try done. by eapply exec_bind.
Qed.

Lemma wp_mono {A} (m : mem A) S hp (Q Q' : A -> list (list anode) -> hpstate -> Prop) :
  wp m S hp Q -> (forall r S' hp', Q r S' hp' -> Q' r S' hp') -> wp m S hp Q'.
Proof.
  intros Hm HQ M fr H. destruct (Hm M fr H) as (r & M1 & fr1 & S1 & hp1 & He1 & H1 & Hq).
  exists r, M1, fr1, S1, hp1. auto.
Qed.

(** Reassociate nested binds. *)
Lemma wp_assoc {A B C} (m : mem A) (f : A -> mem B) (g : B -> mem C) S hp Q :
  wp (bind m (fun x => bind (f x) g)) S hp Q -> wp (bind (bind m f) g) S hp Q.
Proof.
  intros Hm M fr H. destruct (Hm M fr H) as (r & M1 & fr1 & S1 & hp1 & He1 & H1 & Hq).
  exists r, M1, fr1, S1, hp1. split_and!; try done. intros w Hw. rewrite run_bind_assoc. by apply He1.
Qed.

Lemma wp_unassoc {A B C} (m : mem A) (f : A -> mem B) (g : B -> mem C) S hp Q :
  wp (bind (bind m f) g) S hp Q -> wp (bind m (fun x => bind (f x) g)) S hp Q.
Proof.
  intros Hm M fr H. destruct (Hm M fr H) as (r & M1 & fr1 & S1 & hp1 & He1 & H1 & Hq).
  exists r, M1, fr1, S1, hp1. split_and!; try done. intros w Hw. rewrite <- run_bind_assoc. by apply He1.
Qed.

(** A program may be followed by a return. *)
Lemma wp_tail (m : mem unit) S hp Q : wp (m ;;; Ret tt) S hp Q -> wp m S hp Q.
Proof.
  intros Hm M fr H. destruct (Hm M fr H) as ([] & M1 & fr1 & S1 & hp1 & He1 & H1 & Hq).
  exists tt, M1, fr1, S1, hp1. split_and!; try done. intros w Hw. destruct (He1 w Hw) as (w' & Hr & Hw').
  exists w'. split; [|done]. rewrite run_bind in Hr. by destruct (run _ m w) as [[] ?| |].
Qed.

(** Programs that change nothing. *)
Lemma wp_read {A} (m : mem A) (r : A) S hp Q :
  (forall M fr, sv S (AState M fr hp) -> exec m (AState M fr hp) r (AState M fr hp)) ->
  Q r S hp -> wp m S hp Q.
Proof. intros Hm HQ M fr H. exists r, M, fr, S, hp. auto. Qed.

Lemma wp_lift_opt {A} (o : option A) (r : A) S hp Q : o = Some r -> Q r S hp -> wp (lift_opt o) S hp Q.
Proof. intros Ho. apply wp_read. intros M fr _. by apply exec_lift_opt. Qed.

Lemma wp_okay {A} (m : mem A) S hp Q : (okay layers S hp -> wp m S hp Q) -> wp m S hp Q.
Proof.
  intros Hm M fr H. apply Hm; [|done]. split; [apply (sv_len _ _ _ H)|apply (sv_layer _ _ _ H)|apply (sv_nodup _ _ _ H)].
Qed.

(** *** Accesses to a node of the layers *)

Section At.
Context {S : list (list anode)} {hp : hpstate} {n : nat} {l1 : list anode} {a : anode} {l2 : list anode}.
Context (Hl : S !! n = Some (l1 ++ a :: l2)).

Lemma wp_load_next Q : Q (head_or l2 None) S hp -> wp (load_next (a_ptr a)) S hp Q.
Proof using Hl.
  apply wp_read. intros M fr H. pose proof (sv_cell _ _ _ _ _ _ _ H Hl) as Hc.
  exact (exec_load_next Hc).
Qed.

Lemma wp_lock_read {B} (f : Z -> option (B * Z)) (b : B) Q :
  f (word a) = Some (b, word a) -> Q b S hp -> wp (lock_rmw (a_ptr a) f) S hp Q.
Proof using Hl.
  intros Hf. apply wp_read. intros M fr H. pose proof (sv_cell _ _ _ _ _ _ _ H Hl) as Hc.
  by eapply exec_lock_read.
Qed.

Lemma wp_get_value Q : Q (word a) S hp -> wp (lock_rmw (a_ptr a) get_value) S hp Q.
Proof using Hl. by apply wp_lock_read. Qed.

Lemma wp_begin_read Q : unlocked a -> Q (word a) S hp -> wp (lock_rmw (a_ptr a) begin_read) S hp Q.
Proof using Hl.
  intros Hu. apply wp_lock_read. unfold word. rewrite begin_read_encode.
  change (al_to Unlocked (lock_of a)) with (lock_of (set_state Unlocked a)). by rewrite set_state_same.
Qed.

Lemma wp_confirm Q : unlocked a -> Q true S hp -> wp (confirm (a_ptr a) (word a)) S hp Q.
Proof using Hl.
  intros Hu. apply wp_lock_read. unfold word. rewrite confirm_read_encode. do 2 f_equal.
  apply bool_decide_eq_true_2. unfold al_unfreeze. unfold unlocked, state_of in Hu. cbn. by rewrite Hu.
Qed.

Lemma wp_lock_is_orphan Q : Q (a_orphan a) S hp -> wp (lock_is_orphan (a_ptr a)) S hp Q.
Proof using Hl.
  intros HQ. apply wp_bind, wp_get_value, wp_ret. unfold word. by rewrite is_orphan_encode.
Qed.

Lemma wp_vget {B} kd (f : vof kd (elt V kd) -> option B) (b : B) Q :
  kind_of n = kd ->
  (forall v, v_ok v -> a_elems a = kv_vmap (wrap kd) (v_elems v) -> f v = Some b) ->
  Q b S hp -> wp (vget kd (a_ptr a) f) S hp Q.
Proof using Hl.
  intros <- Hf. apply wp_read. intros M fr H. pose proof (sv_cell _ _ _ _ _ _ _ H Hl) as Hc.
  by eapply exec_vget.
Qed.

(** A lock changes, and not the orphan bit. *)
Lemma wp_lock {B} (f : Z -> option (B * Z)) (b : B) al Q :
  (alock_ok (lock_of a) -> f (word a) = Some (b, encode al)) ->
  (alock_ok (lock_of a) -> alock_ok al) -> al_orphan al = a_orphan a ->
  Q b (<[n := l1 ++ with_lock al a :: l2]> S) hp -> wp (lock_rmw (a_ptr a) f) S hp Q.
Proof using Hl.
  intros Hf Hal Ho HQ M fr H. pose proof (sv_cell _ _ _ _ _ _ _ H Hl) as Hc.
  pose proof (sv_layer _ _ _ H _ _ Hl) as Hlay. pose proof (g_lock _ _ (slayer_mid _ _ _ _ Hlay)) as Hok.
  do 5 eexists. split; [eapply exec_lock; [exact Hc|by apply Hf]|]. split; [|exact HQ].
  replace (Cell al _ _ _) with (cell_of n (with_lock al a) (head_or l2 None))
    by (unfold cell_of; by rewrite lock_of_with_lock).
  apply sv_node; try done. apply slayer_lock; auto.
Qed.

Lemma wp_state {B} (f : Z -> option (B * Z)) (b : B) st Q :
  (alock_ok (lock_of a) -> f (word a) = Some (b, encode (al_to st (lock_of a)))) ->
  Q b (<[n := l1 ++ set_state st a :: l2]> S) hp -> wp (lock_rmw (a_ptr a) f) S hp Q.
Proof using Hl. intros Hf. apply (wp_lock f b (al_to st (lock_of a))); done. Qed.

Lemma wp_try_upgrade Q :
  unlocked a -> Q true (<[n := l1 ++ set_state Locked a :: l2]> S) hp ->
  wp (lock_rmw (a_ptr a) (try_upgrade (word a))) S hp Q.
Proof using Hl.
  intros Hu. apply wp_state. intros Hok. unfold word. rewrite try_upgrade_encode by done.
  by rewrite decide_True.
Qed.

Lemma wp_try_freeze Q :
  unlocked a -> Q true (<[n := l1 ++ set_state Frozen a :: l2]> S) hp ->
  wp (lock_rmw (a_ptr a) (try_freeze (word a))) S hp Q.
Proof using Hl.
  intros Hu. apply wp_state. intros Hok. unfold word. rewrite try_freeze_encode by done.
  by rewrite decide_True.
Qed.

(** The methods of an owner, by the transition they implement. *)
Lemma wp_owner {B} (f : Z -> option (B * Z)) (g : alock -> option alock) (ret : alock -> B) st0 st Q :
  word_implements f g ret -> g (lock_of a) = al_from st0 (al_to st) (lock_of a) -> state_of a = st0 ->
  Q (ret (lock_of (set_state st a))) (<[n := l1 ++ set_state st a :: l2]> S) hp ->
  wp (lock_rmw (a_ptr a) f) S hp Q.
Proof using Hl.
  intros Hf Hg Hst. apply wp_state. intros Hok. unfold word. rewrite Hf, Hg by done.
  unfold al_from. by rewrite decide_True.
Qed.

Lemma wp_thaw Q :
  state_of a = Frozen -> Q tt (<[n := l1 ++ set_state Unlocked a :: l2]> S) hp ->
  wp (lock_rmw (a_ptr a) thaw) S hp Q.
Proof using Hl.
  by apply (wp_owner thaw al_thaw (fun _ => tt) Frozen Unlocked _ thaw_implements eq_refl).
Qed.

Lemma wp_acquire_frozen Q :
  state_of a = Frozen -> Q tt (<[n := l1 ++ set_state Locked a :: l2]> S) hp ->
  wp (lock_rmw (a_ptr a) acquire_frozen) S hp Q.
Proof using Hl.
  by apply (wp_owner acquire_frozen al_acquire_frozen (fun _ => tt) Frozen Locked _ acquire_frozen_implements eq_refl).
Qed.

Lemma wp_release_unchanged Q :
  state_of a = Locked -> Q tt (<[n := l1 ++ set_state Unlocked a :: l2]> S) hp ->
  wp (lock_rmw (a_ptr a) release_unchanged) S hp Q.
Proof using Hl.
  by apply (wp_owner release_unchanged al_release_unchanged (fun _ => tt) Locked Unlocked _ release_unchanged_implements eq_refl).
Qed.

Lemma release_word :
  state_of a = Locked -> alock_ok (lock_of a) -> release (word a) = Some (word (bump a), word (bump a)).
Proof.
  intros Hst Hok. unfold word. rewrite release_implements by done. unfold al_release, al_from.
  by rewrite decide_True.
Qed.

Lemma wp_release Q :
  state_of a = Locked -> Q (word (bump a)) (<[n := l1 ++ bump a :: l2]> S) hp ->
  wp (lock_rmw (a_ptr a) release) S hp Q.
Proof using Hl.
  intros Hst. rewrite bump_with_lock. apply (wp_lock release _ (al_bump (a_orphan a) (lock_of a))); [|intros _; apply al_bump_ok|done].
  by apply release_word.
Qed.

Lemma wp_release_changed_if (changed : bool) Q :
  state_of a = Locked ->
  Q tt (<[n := l1 ++ (if changed then bump a else set_state Unlocked a) :: l2]> S) hp ->
  wp (lock_rmw (a_ptr a) (release_changed_if changed)) S hp Q.
Proof using Hl.
  intros Hst. destruct changed; [|by apply wp_release_unchanged].
  rewrite bump_with_lock. apply (wp_lock _ _ (al_bump (a_orphan a) (lock_of a))); [|intros _; apply al_bump_ok|done].
  intros Hok. unfold release_changed_if. by rewrite release_word.
Qed.

Lemma wp_acquire fuel Q :
  unlocked a -> Q true (<[n := l1 ++ set_state Locked a :: l2]> S) hp ->
  wp (lock_acquire (Datatypes.S fuel) (a_ptr a)) S hp Q.
Proof using Hl.
  intros Hu HQ M fr H. pose proof (sv_cell _ _ _ _ _ _ _ H Hl) as Hc.
  pose proof (sv_layer _ _ _ H _ _ Hl) as Hlay. pose proof (g_lock _ _ (slayer_mid _ _ _ _ Hlay)) as Hok.
  do 5 eexists. split; [eapply exec_acquire; [exact Hc|done|done]|]. split; [|exact HQ].
  apply (sv_node layers ZCAP t S M fr hp n l1 a (set_state Locked a) l2); try done.
  rewrite set_state_with_lock. by apply slayer_lock.
Qed.

(** The entries of a node change. *)
Lemma wp_vupd {B} kd (f : vof kd (elt V kd) -> option (B * vof kd (elt V kd))) (b : B) el Q :
  kind_of n = kd ->
  (forall v, v_ok v -> a_elems a = kv_vmap (wrap kd) (v_elems v) ->
     exists v', f v = Some (b, v') /\ v_ok v' /\ el = kv_vmap (wrap kd) (v_elems v')) ->
  slayer n (l1 ++ with_elems el a :: l2) ->
  Q b (<[n := l1 ++ with_elems el a :: l2]> S) hp -> wp (vupd kd (a_ptr a) f) S hp Q.
Proof using Hl.
  intros <- Hf Hlay HQ M fr H. pose proof (sv_cell _ _ _ _ _ _ _ H Hl) as Hc.
  do 5 eexists. split; [eapply exec_vupd; [exact Hc|exact Hf]|]. split; [|exact HQ].
  by apply (sv_node layers ZCAP t S M fr hp n l1 a (with_elems el a) l2).
Qed.
End At.

(** *** Hazard pointers *)

Lemma wp_hp (m : mem unit) S hp hp' Q :
  zombies_of hp' = zombies_of hp ->
  (forall M fr, exec m (AState M fr hp) tt (AState M fr hp')) ->
  Q tt S hp' -> wp m S hp Q.
Proof. intros Hz Hm HQ M fr H. exists tt, M, fr, S, hp'. split_and!; [done| |done]. by eapply sv_hp. Qed.

Lemma wp_hp_init S hp Q : Q tt S (Some (hp_started hp)) -> wp (hp_init ZCAP) S hp Q.
Proof. apply wp_hp; [by destruct hp as [[]|]|]. intros M fr. apply exec_hp_init. Qed.

Lemma wp_take_first S p zs Q :
  Q tt S (Some (HCurr p, zs)) -> wp (hp_take_first p) S (Some (HNone, zs)) Q.
Proof. apply wp_hp; [done|]. intros M fr. apply exec_take_first. Qed.

Lemma wp_take_next S p q zs Q :
  Q tt S (Some (HBoth p q, zs)) -> wp (hp_take_next q) S (Some (HCurr p, zs)) Q.
Proof. apply wp_hp; [done|]. intros M fr. apply exec_take_next. Qed.

Lemma wp_drop_next S p q zs Q :
  Q tt S (Some (HCurr p, zs)) -> wp hp_drop_next S (Some (HBoth p q, zs)) Q.
Proof. apply wp_hp; [done|]. intros M fr. apply exec_drop_next. Qed.

Lemma wp_drop_curr_both S p q zs Q :
  Q tt S (Some (HCurr q, zs)) -> wp hp_drop_curr S (Some (HBoth p q, zs)) Q.
Proof. apply wp_hp; [done|]. intros M fr. apply exec_drop_curr_both. Qed.

Lemma wp_drop_curr S p zs Q :
  Q tt S (Some (HNone, zs)) -> wp hp_drop_curr S (Some (HCurr p, zs)) Q.
Proof. apply wp_hp; [done|]. intros M fr. apply exec_drop_curr. Qed.
End Rules.
