(* ===== verification/SvWalk.v ===== *)
(** * SvWalk: reading nodes and unlinking orphans

    A node's successor is unlinked by [merge()], which moves its entries to the
    node; it becomes a zombie of the thread, or is deleted on the spot.  The
    entries of the layer and their anchors stay the same.  The second part is on
    [check_next], which walks on and merges as it goes. *)

From Stdlib Require Import QArith.
From S2P Require Import Prelude KvList Prog SvLock VecSpec HazardPtr World Layers Heap SvNode SvOps.
From S2P Require Import SvLayers SvMem SvWp.

Local Open Scope Z_scope.
Import Thread.

Section SvWalk.
Context {V : Type} {vof : kind -> Type -> Type}.
Context `{HV : forall kd, VecOps (vof kd)} `{HS : forall kd, VecSpec (vof kd)}.
Context (EXP : kind -> Z) (layers ZCAP t : nat) (merge_threshold : Q).
Context (Hzcap : (1 <= ZCAP)%nat).
(** The merge threshold leaves room: what it accepts fits a node. *)
Context (Hthreshold : forall kd n, (0 < EXP kd) ->
  Qle_bool (merge_threshold * inject_Z (2 ^ EXP kd)) (inject_Z (Z.of_nat n)) = false ->
  (n <= v_capacity (vof kd))%nat).

Local Abbreviation anode := (anode V (lock_state * Z)).
Local Abbreviation hpstate := (option (held ptr * list ptr)).
Local Abbreviation wp := (wp (V:=V) (vof:=vof) layers ZCAP t).
Local Abbreviation sv := (sv (V:=V) (vof:=vof) layers).
Local Abbreviation exec := (exec (V:=V) (vof:=vof) ZCAP t).
Implicit Types (a b : anode) (l m : list anode) (S : list (list anode)) (hp : hpstate).
Implicit Types (n : nat) (p : ptr) (k : Z) (kd : kind) (zs : list ptr).

(** ** Reading a vector *)

Definition unwrap kd (x : value V) : option (elt V kd) :=
  match kd as kd return option (elt V kd) with
  | INDEX => match x with VDown p => Some p | VData _ => None end
  | DATA => match x with VData d => Some d | VDown _ => None end
  end.

Lemma unwrap_wrap kd (x : elt V kd) : unwrap kd (wrap kd x) = Some x.
Proof. by destruct kd. Qed.

Section Read.
Context {S : list (list anode)} {hp : hpstate} {n : nat} {l1 : list anode} {a : anode} {l2 : list anode}.
Context (Hl : S !! n = Some (l1 ++ a :: l2)) {kd : kind} (Hkd : kind_of n = kd).

Lemma wp_past_last k Q :
  Q (match kv_last (a_elems a) with None => true | Some last => last <? k end) S hp ->
  wp (past_last kd (a_ptr a) k) S hp Q.
Proof using Hl Hkd.
  intros HQ. apply wp_bind. eapply (wp_vget Hl); [done| |apply wp_ret, HQ].
  intros v Hv He. by rewrite v_last_spec, He, kv_last_vmap.
Qed.

Lemma wp_first k Q :
  kv_first (a_elems a) = Some k -> Q k S hp -> wp (vget kd (a_ptr a) v_first) S hp Q.
Proof using Hl Hkd.
  intros Hk. apply (wp_vget Hl); [done|].
  intros v Hv He. apply v_first_spec; [done|]. by rewrite He, kv_first_vmap in Hk.
Qed.

Lemma wp_get_size Q : Q (length (a_elems a)) S hp -> wp (get_size kd (a_ptr a)) S hp Q.
Proof using Hl Hkd.
  apply (wp_vget Hl); [done|].
  intros v Hv He. by rewrite v_get_size_spec, He, kv_vmap_length.
Qed.

Lemma wp_find_lte k Q :
  Q (e ← kv_lte k (a_elems a); x ← unwrap kd e.2; Some (e.1, x)) S hp ->
  wp (vget kd (a_ptr a) (v_find_lte k)) S hp Q.
Proof using Hl Hkd.
  apply (wp_vget Hl); [done|].
  intros v Hv He. rewrite v_find_lte_spec, He, kv_lte_vmap by done. f_equal.
  destruct (kv_lte k (v_elems v)) as [[k' x]|]; [|done]. cbn. by rewrite unwrap_wrap.
Qed.

Lemma wp_contains_key k Q :
  Q (x ← kv_lookup k (a_elems a); unwrap kd x) S hp ->
  wp (vget kd (a_ptr a) (v_contains k)) S hp Q.
Proof using Hl Hkd.
  apply (wp_vget Hl); [done|].
  intros v Hv He. rewrite v_contains_spec, He, kv_lookup_vmap by done. f_equal.
  destruct (kv_lookup k (v_elems v)) as [x|]; [|done]. cbn. by rewrite unwrap_wrap.
Qed.

(** Removing a key of the node. *)
Lemma wp_remove_key `{HM : forall kd, VecMapOps (vof kd)} `{HMS : forall kd, VecMapSpec (vof kd)} k Q :
  slayer vof n (l1 ++ with_elems (kv_remove k (a_elems a)) a :: l2) ->
  Q (x ← kv_lookup k (a_elems a); unwrap kd x)
    (<[n := l1 ++ with_elems (kv_remove k (a_elems a)) a :: l2]> S) hp ->
  wp (vupd kd (a_ptr a) (v_remove k)) S hp Q.
Proof using Hl Hkd.
  intros Hlay. apply (wp_vupd Hl); [done| |done].
  intros v Hv He. rewrite He, kv_lookup_vmap, kv_remove_vmap.
  destruct (kv_lookup k (v_elems v)) as [x|] eqn:Hx; cbn.
  - destruct (v_remove_present k x v Hv Hx) as (v' & Hr & Hv' & He'). exists v'.
    by rewrite Hr, unwrap_wrap, He'.
  - exists v. rewrite v_remove_absent by done. split_and!; [done|done|].
    by rewrite kv_remove_absent.
Qed.
End Read.

(** ** Unlinking the next node *)

Section Unlink.
Context (S : list (list anode)) (n : nat) (l : list anode) (a b : anode) (m : list anode).
Context (Hl : S !! n = Some (l ++ a :: b :: m)).
Context (Hfit : (length (a_elems a) + length (a_elems b) <= cap vof n)%nat).
Context (Horphan : a_orphan b = true) (Hlocked : state_of b = Locked).

Lemma pair_next : S !! n = Some ((l ++ [a]) ++ b :: m).
Proof using Hl. by rewrite <- app_assoc. Qed.

Lemma pair_distinct s :
  sv S s -> a_ptr a <> a_ptr b /\
  (forall c, c ∈ l \/ c ∈ m -> a_ptr c <> a_ptr a /\ a_ptr c <> a_ptr b).
Proof using Hl.
  intros H. pose proof (sv_nodup _ _ _ H) as Hnd. apply NoDup_app in Hnd as (_ & _ & Hnd).
  destruct (ptr_other S n l a (b :: m) Hnd Hl) as [Ha _].
  destruct (ptr_other S n (l ++ [a]) b m Hnd pair_next) as [Hb _]. split.
  - apply Hb. left. apply elem_of_app. right. left.
  - intros c Hc. split; [apply Ha|apply Hb]; destruct Hc as [Hc|Hc]; auto.
    + right. by right.
    + left. apply elem_of_app. by left.
Qed.

(** [merge()] moves [b]'s entries to [a], unlinks [b] and kills its lock. *)
Lemma exec_merge M fr hp :
  sv S (AState M fr hp) -> exists M',
    exec (merge (kind_of n) (a_ptr a)) (AState M fr hp) tt (AState M' fr hp) /\
    M' !! a_ptr a = Some (cell_of n (absorb a b) (head_or m None)) /\
    is_Some (M' !! a_ptr b) /\ (forall p, p ∉ [a_ptr a; a_ptr b] -> M' !! p = M !! p).
Proof using Hl Hfit Horphan Hlocked.
  intros H. destruct (pair_distinct _ H) as [Hab _].
  pose proof (sv_cell _ _ _ _ _ _ _ H Hl) as Ha. pose proof (sv_cell _ _ _ _ _ _ _ H pair_next) as Hb.
  pose proof (sv_layer _ _ _ H _ _ Hl) as Hlay. cbn in Ha, Hb.
  pose proof (g_lock _ _ (slayer_mid _ _ _ _ (sv_layer _ _ _ H _ _ pair_next))) as Hok.
  destruct (flat_parts _ _ _ (sl_sorted _ _ Hlay)) as (_ & _ & Hlt & _).
  set (ca := Cell (V:=V) (lock_of a) (Some (a_ptr b)) (kind_of n) (a_elems a ++ a_elems b)).
  set (cb := Cell (V:=V) (lock_of b) (head_or m None) (kind_of n) []).
  set (ca' := Cell (V:=V) (lock_of a) (head_or m None) (kind_of n) (a_elems a ++ a_elems b)).
  set (cb' := Cell (V:=V) (al_to Dead (lock_of b)) (head_or m None) (kind_of n) []).
  set (M1 := <[a_ptr a := ca]> (<[a_ptr b := cb]> M)).
  assert (H1a : M1 !! a_ptr a = Some ca) by apply lookup_insert_eq.
  assert (H1b : M1 !! a_ptr b = Some cb) by (unfold M1; by rewrite lookup_insert_ne, lookup_insert_eq).
  set (M2 := <[a_ptr a := ca']> M1).
  assert (H2b : M2 !! a_ptr b = Some cb) by (unfold M2; by rewrite lookup_insert_ne).
  exists (<[a_ptr b := cb']> M2). split_and!.
  - unfold merge. eapply exec_bind; [exact (exec_load_next (s:=AState M fr hp) Ha)|].
    eapply exec_bind; [by apply exec_lift_opt|].
    eapply exec_bind; [eapply (exec_vsteal Ha); [done|exact Hb|]|].
    { intros v u Hv Hu Ev Eu.
      destruct (v_merge_spec v u Hv Hu) as (v' & u' & Hm & Hv' & Hu' & Ev' & Eu').
      - intros x y Hx Hy. apply (Hlt (x.1, wrap (kind_of n) x.2) (y.1, wrap (kind_of n) y.2)).
        + rewrite Ev. by apply elem_of_kv_vmap.
        + rewrite flat_cons, Eu. apply elem_of_app. left. by apply elem_of_kv_vmap.
      - rewrite <- (kv_vmap_length (wrap (kind_of n)) (v_elems v)), <- (kv_vmap_length (wrap (kind_of n)) (v_elems u)), <- Ev, <- Eu. exact Hfit.
      - exists v', u'. rewrite Hm, Ev', Eu', kv_vmap_app, <- Ev, <- Eu. done. }
    eapply exec_bind; [exact (exec_load_next (s:=AState M1 fr hp) H1b)|].
    eapply exec_bind; [exact (exec_store_next H1a _)|].
    apply (exec_lock H2b).
    rewrite die_implements by done. unfold al_die, al_from. by rewrite decide_True.
  - rewrite lookup_insert_ne by done. apply lookup_insert_eq.
  - rewrite lookup_insert_eq. eauto.
  - intros p Hp. rewrite !not_elem_of_cons in Hp. unfold M2, M1.
    by rewrite !lookup_insert_ne by (intros <-; tauto).
Qed.

Lemma sv_unlink M M' fr hp hp' dead :
  sv S (AState M fr hp) ->
  M' !! a_ptr a = Some (cell_of n (absorb a b) (head_or m None)) ->
  (forall p, p ∉ a_ptr a :: a_ptr b :: dead -> M' !! p = M !! p) ->
  zombies_of hp' ++ dead ≡ₚ a_ptr b :: zombies_of hp ->
  (forall p, p ∈ dead -> M' !! p = None) ->
  (forall p, p ∈ zombies_of hp' -> is_Some (M' !! p)) ->
  sv (<[n := l ++ absorb a b :: m]> S) (AState M' fr hp').
Proof using Hl Hfit Horphan HS ZCAP t.
  intros H Ha Hf Hp Hd Hz. destruct (pair_distinct _ H) as [Hab Hne].
  pose proof (sv_layer _ _ _ H _ _ Hl) as Hlay.
  assert (Hdz : forall p, p ∈ dead \/ p ∈ zombies_of hp' -> p = a_ptr b \/ p ∈ zombies_of hp).
  { intros p Hin. apply elem_of_cons. rewrite <- Hp. apply elem_of_app. tauto. }
  assert (Hsame : forall c, c ∈ l \/ c ∈ m -> M' !! a_ptr c = M !! a_ptr c).
  { intros c Hc. destruct (Hne c Hc) as [H1 H2]. apply Hf. rewrite !not_elem_of_cons. split_and!; [done|done|].
    intros Hin. destruct (Hdz (a_ptr c) (or_introl Hin)) as [?|Hcz]; [done|].
    pose proof (sv_nodup _ _ _ H) as Hnd. apply NoDup_app in Hnd as (_ & Hnd & _).
    apply (Hnd _ Hcz). eapply elem_of_ptrs; [exact Hl|]. apply elem_of_app. rewrite !elem_of_cons. tauto. }
  apply (sv_update layers ZCAP t S (AState M fr hp) (AState M' fr hp') n (l ++ a :: b :: m) _
           (a_ptr a :: a_ptr b :: dead) [] dead); try done; cbn [s_mem s_hp s_fresh].
  - by apply slayer_absorb.
  - pose proof (sv_chain _ _ _ H _ _ Hl) as Hc. cbn in Hc. apply chain_app in Hc as [H1 (_ & _ & H2)].
    apply chain_app. cbn [chain head_or] in *. split_and!; [|done|].
    + eapply chain_frame; [|exact H1]. auto.
    + eapply chain_frame; [|exact H2]. auto.
  - intros p. rewrite !elem_of_cons, !map_app, !map_cons, !elem_of_app, !elem_of_cons.
    intros [->|[->|Hin]]; [tauto|tauto|]. destruct (Hdz p (or_introl Hin)) as [->|?]; tauto.
  - rewrite !map_app, !map_cons, app_nil_r. cbn [a_ptr absorb with_elems].
    transitivity ((zombies_of hp' ++ dead) ++ map a_ptr l ++ a_ptr a :: map a_ptr m); [solve_Permutation|].
    rewrite Hp. solve_Permutation.
  - apply NoDup_nil_2.
  - by intros p ?%elem_of_nil.
  - intros p Hin. split; [|auto]. destruct (Hdz p (or_intror Hin)) as [->|Hzp].
    + pose proof (slayer_tail _ _ _ _ Hlay) as Ht. by apply Forall_cons in Ht as [? _].
    + pose proof (sv_zombies _ _ _ H) as Hzh. rewrite Forall_forall in Hzh. by apply Hzh.
Qed.

(** With the node handed to the hazard pointer manager. *)
Lemma wp_unlink h zs Q :
  (forall q, q ∈ held_list h -> q ∉ zs) ->
  (forall zs', Q tt (<[n := l ++ absorb a b :: m]> S) (Some (h, zs'))) ->
  wp (merge (kind_of n) (a_ptr a) ;;; hp_reclaim ZCAP (a_ptr b)) S (Some (h, zs)) Q.
Proof using Hl Hfit Horphan Hlocked Hzcap.
  intros Hh HQ M fr H. destruct (exec_merge M fr _ H) as (M1 & He1 & Ha1 & Hb1 & Hf1).
  pose proof (sv_alive _ _ _ _ _ _ _ H Hl) as Haz. pose proof (sv_alive _ _ _ _ _ _ _ H pair_next) as Hbz.
  cbn in Haz, Hbz.
  assert (Hz1 : forall q, q ∈ zs -> M1 !! q = M !! q).
  { intros q Hq. apply Hf1. rewrite !not_elem_of_cons. split_and!; [by intros ->|by intros ->|apply not_elem_of_nil]. }
  destruct (exec_reclaim ZCAP t M1 fr h zs (a_ptr b)) as (M2 & kept & dead & He2 & Hp & Hw); [done| | |done|].
  { pose proof (sv_nodup _ _ _ H) as Hnd. by apply NoDup_app in Hnd as [Hnd _]. }
  { intros q Hq. rewrite Hz1 by done. by apply (sv_zombie _ _ _ _ H). }
  assert (Hdz : forall p, p ∈ dead -> p ∈ zs) by (intros p Hin; rewrite <- Hp; apply elem_of_app; by right).
  do 5 eexists. split; [eapply exec_bind; [exact He1|exact He2]|]. split; [|apply HQ].
  apply (sv_unlink M M2 fr _ _ dead H).
  - rewrite Hw, decide_False; [done|]. auto.
  - intros p Hp'. rewrite !not_elem_of_cons in Hp'. rewrite Hw, decide_False by tauto.
    apply Hf1. rewrite !not_elem_of_cons. split_and!; [tauto|tauto|apply not_elem_of_nil].
  - cbn. rewrite <- Hp. solve_Permutation.
  - intros p Hin. by rewrite Hw, decide_True.
  - cbn. intros p Hin. pose proof (sv_nodup _ _ _ H) as Hnd. apply NoDup_app in Hnd as [Hnd _].
    cbn in Hnd. rewrite <- Hp in Hnd. apply NoDup_app in Hnd as (_ & Hkd & _).
    apply elem_of_app in Hin as [Hin| ->%list_elem_of_singleton]; rewrite Hw, decide_False.
    + rewrite Hz1 by (rewrite <- Hp; apply elem_of_app; by left). apply (sv_zombie _ _ _ _ H).
      cbn. rewrite <- Hp. apply elem_of_app. by left.
    + by apply Hkd.
    + done.
    + auto.
Qed.

(** With the node deleted on the spot. *)
Lemma wp_unlink_delete hp Q :
  Q tt (<[n := l ++ absorb a b :: m]> S) hp ->
  wp (merge (kind_of n) (a_ptr a) ;;; trigger (EDelete (a_ptr b))) S hp Q.
Proof using Hl Hfit Horphan Hlocked.
  intros HQ M fr H. destruct (exec_merge M fr _ H) as (M1 & He1 & Ha1 & [[al nx kd el] Hb1] & Hf1).
  destruct (pair_distinct _ H) as [Hab _].
  pose proof (sv_alive _ _ _ _ _ _ _ H Hl) as Haz. pose proof (sv_alive _ _ _ _ _ _ _ H pair_next) as Hbz.
  cbn in Haz, Hbz.
  do 5 eexists. split; [eapply exec_bind; [exact He1|eapply exec_delete, Hb1]|]. split; [|exact HQ].
  apply (sv_unlink M _ fr hp hp [a_ptr b] H).
  - by rewrite lookup_delete_ne.
  - intros p Hp. rewrite !not_elem_of_cons in Hp. rewrite lookup_delete_ne by (intros <-; tauto).
    apply Hf1. rewrite !not_elem_of_cons. split_and!; [tauto|tauto|apply not_elem_of_nil].
  - solve_Permutation.
  - intros p ->%list_elem_of_singleton. apply lookup_delete_eq.
  - intros p Hin. rewrite lookup_delete_ne by (by intros <-). rewrite Hf1.
    + by apply (sv_zombie _ _ _ _ H).
    + rewrite !not_elem_of_cons. split_and!; [by intros ->|by intros ->|apply not_elem_of_nil].
Qed.
End Unlink.
End SvWalk.

(** * Walking right

    [check_next] and [check_next_sequential] walk from a node to the one that
    covers a key.  On their way they merge and unlink orphans (without
    [CLEANUP] only the empty ones), so they change the layer, but neither its
    entries nor its anchors. *)
Import Thread.

Section SvCheck.
Context {V : Type} {vof : kind -> Type -> Type}.
Context `{HV : forall kd, VecOps (vof kd)} `{HS : forall kd, VecSpec (vof kd)}.
Context (EXP : kind -> Z) (layers ZCAP t : nat) (merge_threshold : Q).
(** The merge threshold leaves room: what it accepts fits a node. *)
Context (Hthreshold : forall kd n, (0 < EXP kd) ->
  Qle_bool (merge_threshold * inject_Z (2 ^ EXP kd)) (inject_Z (Z.of_nat n)) = false ->
  (n <= v_capacity (vof kd))%nat).

Local Abbreviation mem := (mem V unit (fun _ => chunk V vof)).
Local Abbreviation anode := (anode V (lock_state * Z)).
Local Abbreviation hpstate := (option (held ptr * list ptr)).
Local Abbreviation wp := (wp (V:=V) (vof:=vof) layers ZCAP t).
Local Abbreviation should_merge := (should_merge (V:=V) (vof:=vof) EXP).
Implicit Types (a b c : anode) (l m : list anode) (S : list (list anode)) (hp : hpstate).
Implicit Types (n fuel : nat) (p : ptr) (k : Z) (kd : kind) (zs : list ptr) (CLEANUP : bool).

(** A thread at [a] protects no zombie. *)
Lemma held_not_zombie S n l a m zs :
  okay (vof:=vof) layers S (Some (HCurr (a_ptr a), zs)) -> S !! n = Some (l ++ a :: m) ->
  forall q, q ∈ held_list (HCurr (a_ptr a)) -> q ∉ zs.
Proof.
  intros Hok Hl q ->%list_elem_of_singleton Hz. pose proof (ok_nodup _ _ _ Hok) as Hnd.
  apply NoDup_app in Hnd as (_ & Hnd & _). apply (Hnd _ Hz).
  eapply elem_of_ptrs; [exact Hl|]. apply elem_of_app. right. left.
Qed.

(** ** The merge decision *)

Lemma wp_should_merge S hp n l a b m CLEANUP Q :
  S !! n = Some (l ++ a :: b :: m) ->
  (a_orphan b = true -> (length (a_elems a) + length (a_elems b) <= cap vof n)%nat -> Q true S hp) ->
  (a_elems b <> [] -> Q false S hp) ->
  wp (should_merge (kind_of n) CLEANUP merge_threshold (a_ptr a) (a_ptr b) (a_orphan b)) S hp Q.
Proof using Hthreshold.
  intros Hl HT HF. apply wp_okay. intros Hok.
  assert (Hl' : S !! n = Some ((l ++ [a]) ++ b :: m)) by (by rewrite <- app_assoc).
  pose proof (ok_layer _ _ _ Hok _ _ Hl) as Hlay. pose proof (ok_layer _ _ _ Hok _ _ Hl') as Hlay'.
  pose proof (slayer_mid _ _ _ _ Hlay) as [_ Ga _]. pose proof (slayer_mid _ _ _ _ Hlay') as [Gb _ _].
  unfold SvNode.should_merge. destruct (a_orphan b) eqn:Ho; cbn [negb]; [|apply wp_ret; auto].
  apply wp_bind, (wp_get_size _ _ _ Hl' eq_refl). destruct (Nat.eqb_spec (length (a_elems b)) 0) as [H0|H0].
  { apply wp_ret, HT; [done|]. rewrite H0. lia. }
  assert (Hne : a_elems b <> []) by (intros He; by rewrite He in H0).
  destruct (negb CLEANUP || (EXP (kind_of n) <=? 0)) eqn:Hc; [apply wp_ret; auto|].
  apply orb_false_iff in Hc as [_ Hexp%Z.leb_gt].
  apply wp_bind, (wp_get_size _ _ _ Hl eq_refl), wp_ret.
  destruct (Qle_bool _ _) eqn:Hq; cbn; [auto|]. apply HT; [done|]. by apply (Hthreshold (kind_of n)).
Qed.

(** ** Growing a node *)

(** [a], with successors [m], became [a'], with successors [m']. *)
Record grows n l a m a' m' : Prop := {
  gr_layer : slayer vof n (l ++ a :: m) -> slayer vof n (l ++ a' :: m');
  gr_same : slayer vof n (l ++ a :: m) -> same (l ++ a :: m) (l ++ a' :: m');
  gr_ptr : a_ptr a' = a_ptr a;
  gr_first k : kv_first (a_elems a) = Some k -> kv_first (a_elems a') = Some k;
  gr_suffix : m' `suffix_of` m;
}.

Lemma grows_lock n l a m al :
  al_orphan al = a_orphan a -> alock_ok al -> grows n l a m (with_lock al a) m.
Proof. intros Ho Hal. split; try done. - intros H. by apply slayer_lock. - intros _. by apply same_lock. Qed.

Lemma grows_absorb n l a b m :
  a_orphan b = true -> (length (a_elems a) + length (a_elems b) <= cap vof n)%nat ->
  grows n l a (b :: m) (absorb a b) m.
Proof.
  intros Ho Hf. split; try done.
  - intros H. by apply slayer_absorb.
  - intros H. by eapply same_absorb.
  - cbn. intros k Hk. destruct (a_elems a); [done|]. exact Hk.
  - by apply suffix_cons_r.
Qed.

Lemma grows_trans n l a m a' m' a'' m'' :
  grows n l a m a' m' -> grows n l a' m' a'' m'' -> grows n l a m a'' m''.
Proof.
  intros H1 H2. split.
  - intros H. apply H2, H1, H.
  - intros H. eapply same_trans; [by apply H1|apply H2, H1, H].
  - by rewrite (gr_ptr _ _ _ _ _ _ H2), (gr_ptr _ _ _ _ _ _ H1).
  - intros k Hk. by apply H2, H1.
  - transitivity m'; [apply H2|apply H1].
Qed.

Lemma grows_starts n l a m a' m' k : grows n l a m a' m' -> starts k l a -> starts k l a'.
Proof.
  intros H [Hl|(k' & Hk & Hle)]; [by left|right]. exists k'. split; [by apply H|done].
Qed.
(** ** The unlinking loop *)

Context (Hzcap : (1 <= ZCAP)%nat).

(** What the loop ends with. *)
Definition unlinked_to S n l a m u S' hp : Prop :=
  exists a' m' zs, grows n l a m a' m' /\ state_of a' = Locked /\ hp = Some (HCurr (a_ptr a), zs) /\
    match u with
    | UFail => False
    | UEnd w => m' = [] /\ w = word (bump a') /\ S' = <[n := l ++ [bump a']]> S
    | UNext p w => exists c m'', m' = c :: m'' /\ p = a_ptr c /\ w = word c /\ a_elems c <> [] /\
        (length m' < length m)%nat /\ S' = <[n := l ++ a' :: m']> S
    end.

Lemma wp_unlink_loop CLEANUP n l fuel : forall S a b m changed zs,
  S !! n = Some (l ++ a :: b :: m) -> state_of a = Locked -> resting (b :: m) ->
  a_orphan b = true -> (length (a_elems a) + length (a_elems b) <= cap vof n)%nat ->
  (length m < fuel)%nat ->
  wp (unlink_loop EXP ZCAP merge_threshold fuel (kind_of n) CLEANUP (a_ptr a) (a_ptr b) (word b) changed)
    S (Some (HCurr (a_ptr a), zs)) (unlinked_to S n l a (b :: m)).
Proof using Hthreshold Hzcap.
  induction fuel as [|fuel IH]; intros S a b m changed zs Hl Hst Hr Ho Hfit Hfuel; [lia|].
  apply wp_okay. intros Hok. pose proof (lookup_lt_Some _ _ _ Hl) as Hlt.
  apply Forall_cons in Hr as [Hb Hr].
  assert (Hl' : S !! n = Some ((l ++ [a]) ++ b :: m)) by (by rewrite <- app_assoc).
  cbn [unlink_loop]. apply wp_bind, (wp_try_upgrade Hl' _ Hb). cbn [negb]. rewrite <- app_assoc. cbn [app].
  set (b1 := set_state Locked b).
  assert (Hl1 : <[n := l ++ a :: b1 :: m]> S !! n = Some (l ++ a :: b1 :: m)) by (by apply list_lookup_insert_eq).
  apply wp_unassoc, wp_bind. change (a_ptr b) with (a_ptr b1).
  apply (wp_unlink _ _ _ Hzcap _ _ _ _ _ _ Hl1); [done|done|done| |].
  { by eapply held_not_zombie. }
  intros zs'. rewrite list_insert_insert_eq. change (absorb a b1) with (absorb a b).
  pose proof (grows_absorb n l a b m Ho Hfit) as Hg.
  assert (Hl2 : <[n := l ++ absorb a b :: m]> S !! n = Some (l ++ absorb a b :: m)) by (by apply list_lookup_insert_eq).
  change (a_ptr a) with (a_ptr (absorb a b)).
  apply wp_bind, (wp_load_next Hl2). destruct m as [|c m]; cbn [head_or].
  { apply wp_bind, (wp_release Hl2); [done|]. apply wp_ret. rewrite list_insert_insert_eq.
    by exists (absorb a b), [], zs'. }
  apply Forall_cons in Hr as [Hc Hr].
  assert (Hl3 : <[n := l ++ absorb a b :: c :: m]> S !! n = Some ((l ++ [absorb a b]) ++ c :: m))
    by (by rewrite <- app_assoc).
  apply wp_bind, (wp_begin_read Hl3); [done|]. unfold word at 1. rewrite is_orphan_encode.
  apply wp_bind, (wp_should_merge _ _ _ _ _ _ _ _ _ Hl2).
  - intros Hco Hcf. eapply wp_mono; [apply IH; try done; [by constructor|cbn in Hfuel; lia]|].
    intros u S' hp' (a' & m' & zs'' & Hg' & Hst' & Hhp & Hu). exists a', m', zs''.
    split; [by eapply grows_trans|]. split_and!; [done|done|].
    destruct u as [|w|p w]; [done| |].
    + destruct Hu as (-> & -> & ->). by rewrite list_insert_insert_eq.
    + destruct Hu as (c' & m'' & -> & -> & -> & Hne & Hlen & ->). exists c', m''.
      rewrite list_insert_insert_eq. split_and!; try done. cbn in Hlen |- *. lia.
  - intros Hne. apply wp_ret. exists (absorb a b), (c :: m), zs'. split_and!; try done.
    exists c, m. split_and!; try done. cbn. lia.
Qed.
(** ** [check_next] *)

(** The walk found the place of [k] in a layer that was [L]. *)
Record found n k L l a m : Prop := {
  fd_layer : slayer vof n (l ++ a :: m);
  fd_same : same L (l ++ a :: m);
  fd_resting : resting (l ++ a :: m);
  fd_covers : covers k l a m;
  fd_length : (length (l ++ a :: m) <= length L)%nat;
}.

(** On the way, it has come to a node from which [k] is to be found. *)
Record walking n k L l a m : Prop := {
  wk_same : same L (l ++ a :: m);
  wk_resting : resting (l ++ m);
  wk_starts : starts k l a;
  wk_length : (length (l ++ a :: m) <= length L)%nat;
}.

Lemma walking_found n k L l a m :
  slayer vof n (l ++ a :: m) -> walking n k L l a m -> unlocked a -> covers k l a m -> found n k L l a m.
Proof.
  intros Hlay [H1 H2 H3 H4] Ha Hc. split; try done. apply Forall_app in H2 as [? ?].
  apply Forall_app. split; [done|]. by constructor.
Qed.

Lemma walking_grows n k L l a m a' m' :
  slayer vof n (l ++ a :: m) -> walking n k L l a m -> grows n l a m a' m' -> walking n k L l a' m'.
Proof.
  intros Hlay [H1 H2 H3 H4] Hg. pose proof (gr_suffix _ _ _ _ _ _ Hg) as [pre ->]. split.
  - eapply same_trans; [done|]. by apply Hg.
  - unfold resting in *. rewrite !Forall_app in *. tauto.
  - by eapply grows_starts.
  - rewrite !length_app in *. cbn in *. rewrite length_app in H4. lia.
Qed.

Lemma walking_right n k L l a b m k' :
  walking n k L l a (b :: m) -> unlocked a -> kv_first (a_elems b) = Some k' -> k' <= k ->
  walking n k L (l ++ [a]) b m.
Proof.
  intros [H1 H2 H3 H4] Ha Hb Hle. split.
  - by rewrite <- app_assoc.
  - apply Forall_app in H2 as [? [? ?]%Forall_cons]. unfold resting. rewrite !Forall_app. by repeat constructor.
  - right. eauto.
  - by rewrite <- app_assoc.
Qed.

Definition check_post n k S0 L (Q : bool * ptr * Z -> list (list anode) -> hpstate -> Prop) : Prop :=
  forall l a m zs, found n k L l a m ->
    Q (true, a_ptr a, word a) (<[n := l ++ a :: m]> S0) (Some (HCurr (a_ptr a), zs)).

(** The rest of a round, for a [next] that stays. *)
Lemma wp_examine (rec : option ptr -> mem (bool * ptr * Z)) S0 n k L l a b m zs Q :
  (n < length S0)%nat -> walking n k L l a (b :: m) -> unlocked a -> a_elems b <> [] ->
  check_post n k S0 L Q ->
  (walking n k L (l ++ [a]) b m ->
   wp (rec (head_or m None)) (<[n := (l ++ [a]) ++ b :: m]> S0) (Some (HCurr (a_ptr b), zs)) Q) ->
  wp (let* first := vget (kind_of n) (a_ptr b) v_first in
      if k <? first then
        let* result := confirm (a_ptr b) (word b) in
        hp_drop_next ;;; Ret (result, a_ptr a, word a)
      else
        let* ok := confirm (a_ptr a) (word a) in
        if negb ok then hp_drop_next ;;; Ret (false, a_ptr a, word a)
        else
          let* next' := load_next (a_ptr b) in
          hp_drop_curr ;;; rec next')
    (<[n := l ++ a :: b :: m]> S0) (Some (HBoth (a_ptr a) (a_ptr b), zs)) Q.
Proof.
  intros Hlt Hw Ha Hne HQ Hrec. apply wp_okay. intros Hok.
  assert (Hl : <[n := l ++ a :: b :: m]> S0 !! n = Some (l ++ a :: b :: m)) by (by apply list_lookup_insert_eq).
  assert (Hl' : <[n := l ++ a :: b :: m]> S0 !! n = Some ((l ++ [a]) ++ b :: m)) by (by rewrite <- app_assoc).
  pose proof (ok_layer _ _ _ Hok _ _ Hl) as Hlay.
  destruct (kv_first_nonempty _ Hne) as [k' Hk'].
  apply wp_bind, (wp_first _ _ _ Hl' eq_refl _ _ Hk'). destruct (Z.ltb_spec k k') as [Hkk|Hkk].
  - assert (Hb : unlocked b).
    { pose proof (wk_resting _ _ _ _ _ _ Hw) as Hr. by apply Forall_app in Hr as [_ [? _]%Forall_cons]. }
    apply wp_bind, (wp_confirm Hl' _ Hb). apply wp_bind, wp_drop_next, wp_ret, HQ.
    apply walking_found; try done. eapply flat_covers_next; [exact (sl_sorted _ _ Hlay)|apply Hw|done|done].
  - apply wp_bind, (wp_confirm Hl _ Ha). cbn [negb].
    apply wp_bind, (wp_load_next Hl'). apply wp_bind, wp_drop_curr_both.
    rewrite <- app_assoc in Hrec. apply Hrec. by eapply walking_right.
Qed.

Lemma wp_check_next_loop CLEANUP n k L S0 Q fuel : forall l a m zs,
  (n < length S0)%nat -> walking n k L l a m -> unlocked a -> (length m < fuel)%nat ->
  check_post n k S0 L Q ->
  wp (check_next_loop EXP ZCAP merge_threshold fuel (kind_of n) CLEANUP (a_ptr a) (word a) (head_or m None) k)
    (<[n := l ++ a :: m]> S0) (Some (HCurr (a_ptr a), zs)) Q.
Proof using Hthreshold Hzcap.
  induction fuel as [|fuel IH]; intros l a m zs Hlt Hw Ha Hfuel HQ; [lia|]. apply wp_okay. intros Hok.
  assert (Hl : <[n := l ++ a :: m]> S0 !! n = Some (l ++ a :: m)) by (by apply list_lookup_insert_eq).
  pose proof (ok_layer _ _ _ Hok _ _ Hl) as Hlay. pose proof (sl_sorted _ _ Hlay) as Hs.
  destruct m as [|b m]; cbn [head_or check_next_loop].
  { apply wp_ret, HQ, walking_found; try done. split; [apply Hw|by intros e ?%elem_of_nil]. }
  assert (Hl' : <[n := l ++ a :: b :: m]> S0 !! n = Some ((l ++ [a]) ++ b :: m)) by (by rewrite <- app_assoc).
  assert (Hr : resting (b :: m)) by (pose proof (wk_resting _ _ _ _ _ _ Hw) as Hr; by apply Forall_app in Hr as [_ Hr]).
  pose proof Hr as [Hb _]%Forall_cons.
  apply wp_bind, (wp_past_last _ _ _ Hl eq_refl).
  destruct (match kv_last (a_elems a) with None => true | Some last => last <? k end) eqn:Hpast; cbn [negb].
  2: { destruct (kv_last (a_elems a)) as [k'|] eqn:Hk'; [|done]. apply Z.ltb_ge in Hpast.
       apply wp_ret, HQ, walking_found; try done. eapply flat_covers_last; try done. apply Hw. }
  apply wp_bind, wp_take_next. apply wp_bind, (wp_confirm Hl _ Ha). cbn [negb].
  apply wp_bind, (wp_begin_read Hl' _ Hb). apply wp_bind, (wp_lock_is_orphan Hl').
  apply wp_bind, (wp_should_merge _ _ _ _ _ _ _ _ _ Hl).
  2: { intros Hne. cbn [negb]. apply (wp_examine _ S0 n k L); try done. intros Hw'. apply IH; try done.
       cbn in Hfuel. lia. }
  intros Ho Hfit. cbn [negb]. apply wp_bind, (wp_try_upgrade Hl _ Ha). cbn [negb].
  apply wp_bind, wp_drop_next. rewrite list_insert_insert_eq. set (a1 := set_state Locked a).
  assert (Hl1 : <[n := l ++ a1 :: b :: m]> S0 !! n = Some (l ++ a1 :: b :: m)) by (by apply list_lookup_insert_eq).
  assert (Hg1 : grows n l a (b :: m) a1 (b :: m)).
  { unfold a1. rewrite set_state_with_lock. apply grows_lock; [done|].
    apply (g_lock _ _ (slayer_mid _ _ _ _ Hlay)). }
  change (a_ptr a) with (a_ptr a1).
  apply wp_bind. eapply wp_mono; [apply (wp_unlink_loop CLEANUP n l _ _ _ _ _ _ _ Hl1); try done; cbn in Hfuel; lia|].
  intros u S' hp' (a' & m' & zs' & Hg2 & Hst & -> & Hu).
  pose proof (grows_trans _ _ _ _ _ _ _ _ Hg1 Hg2) as Hg.
  pose proof (gr_ptr _ _ _ _ _ _ Hg) as Hp. pose proof (gr_layer _ _ _ _ _ _ Hg Hlay) as Hlay'.
  pose proof (g_lock _ _ (slayer_mid _ _ _ _ Hlay')) as Hal'.
  assert (Hbump : grows n l a (b :: m) (bump a') m').
  { eapply grows_trans; [exact Hg|]. rewrite bump_with_lock. apply grows_lock; [done|by apply al_bump_ok]. }
  pose proof (walking_grows _ _ _ _ _ _ _ _ Hlay Hw Hbump) as Hw'.
  change (a_ptr a1) with (a_ptr a). rewrite <- Hp in *. change (a_ptr a') with (a_ptr (bump a')).
  destruct u as [|w|p w]; [done| |].
  - destruct Hu as (-> & -> & ->). rewrite list_insert_insert_eq. apply wp_ret, HQ.
    apply walking_found; [by apply Hbump|done|done|]. split; [apply Hw'|by intros e ?%elem_of_nil].
  - destruct Hu as (c & m'' & -> & -> & -> & Hne & Hlen & ->). rewrite list_insert_insert_eq.
    assert (Hl2 : <[n := l ++ a' :: c :: m'']> S0 !! n = Some (l ++ a' :: c :: m'')) by (by apply list_lookup_insert_eq).
    assert (Hl3 : <[n := l ++ bump a' :: c :: m'']> S0 !! n = Some (l ++ bump a' :: c :: m'')) by (by apply list_lookup_insert_eq).
    destruct CLEANUP.
    + apply wp_bind, (wp_release Hl2 _ Hst). rewrite list_insert_insert_eq.
      apply (IH l (bump a') (c :: m'')); try done. cbn in Hlen, Hfuel |- *. lia.
    + apply wp_bind, wp_take_next. apply wp_bind, (wp_release Hl2 _ Hst). rewrite list_insert_insert_eq.
      apply (wp_examine _ S0 n k L l (bump a') c m''); try done. intros Hw2.
      pose proof (wk_resting _ _ _ _ _ _ Hw') as Hr'. apply Forall_app in Hr' as [_ [Hc _]%Forall_cons].
      apply IH; try done.
      cbn in Hlen, Hfuel |- *. lia.
Qed.

(** [check_next] finds the node that covers the key. *)
Lemma wp_check_next CLEANUP fuel S n k l a m zs Q :
  S !! n = Some (l ++ a :: m) -> resting (l ++ a :: m) -> starts k l a -> (length m < fuel)%nat ->
  check_post n k S (l ++ a :: m) Q ->
  wp (check_next EXP ZCAP merge_threshold fuel (kind_of n) CLEANUP (a_ptr a) (word a) k)
    S (Some (HCurr (a_ptr a), zs)) Q.
Proof using Hthreshold Hzcap.
  intros Hl Hr Hst Hfuel HQ. apply wp_bind, (wp_load_next Hl).
  rewrite <- (list_insert_id S n _ Hl) at 1.
  apply Forall_app in Hr as Hr'. destruct Hr' as [Hr1 [Ha Hr2]%Forall_cons].
  apply (wp_check_next_loop CLEANUP n k (l ++ a :: m)); try done; [by eapply lookup_lt_Some|].
  split; try done. apply Forall_app. done.
Qed.
(** ** [check_next_sequential] *)

Definition merged_to S n l a m (r : option ptr) S' : Prop :=
  exists a' m', grows n l a m a' m' /\ state_of a' = state_of a /\ S' = <[n := l ++ a' :: m']> S /\
    match r with
    | None => m' = []
    | Some p => exists c m'', m' = c :: m'' /\ p = a_ptr c /\ a_elems c <> []
    end.

Lemma wp_merge_orphans n l hp fuel : forall S a b m,
  S !! n = Some (l ++ a :: b :: m) -> resting (b :: m) -> (length m < fuel)%nat ->
  wp (merge_orphans EXP merge_threshold fuel (kind_of n) (a_ptr a) (a_ptr b)) S hp
    (fun r S' hp' => hp' = hp /\ merged_to S n l a (b :: m) r S').
Proof using Hthreshold Hzcap.
  induction fuel as [|fuel IH]; intros S a b m Hl Hr Hfuel; [lia|].
  pose proof (lookup_lt_Some _ _ _ Hl) as Hlt. apply Forall_cons in Hr as [Hb Hr].
  assert (Hl' : S !! n = Some ((l ++ [a]) ++ b :: m)) by (by rewrite <- app_assoc).
  cbn [merge_orphans]. apply wp_bind, (wp_lock_is_orphan Hl').
  apply wp_bind, (wp_should_merge _ _ _ _ _ _ _ _ _ Hl); cbn [negb].
  2: { intros Hne. apply wp_ret. split; [done|]. exists a, (b :: m). split_and!; [done|done|by rewrite list_insert_id|eauto]. }
  intros Ho Hfit. apply wp_bind, (wp_acquire Hl' _ _ Hb). rewrite <- app_assoc. cbn [app].
  set (b1 := set_state Locked b).
  assert (Hl1 : <[n := l ++ a :: b1 :: m]> S !! n = Some (l ++ a :: b1 :: m)) by (by apply list_lookup_insert_eq).
  apply wp_unassoc, wp_bind. change (a_ptr b) with (a_ptr b1).
  apply (wp_unlink_delete _ _ _ _ _ _ _ _ _ Hl1); [done|done|done|].
  rewrite list_insert_insert_eq. change (absorb a b1) with (absorb a b).
  pose proof (grows_absorb n l a b m Ho Hfit) as Hg.
  assert (Hl2 : <[n := l ++ absorb a b :: m]> S !! n = Some (l ++ absorb a b :: m)) by (by apply list_lookup_insert_eq).
  change (a_ptr a) with (a_ptr (absorb a b)).
  apply wp_bind, (wp_load_next Hl2). destruct m as [|c m]; cbn [head_or].
  { apply wp_ret. split; [done|]. by exists (absorb a b), []. }
  eapply wp_mono; [apply (IH _ _ _ _ Hl2 Hr); cbn in Hfuel; lia|].
  intros r S' hp' (-> & a' & m' & Hg' & Hst & -> & Hm'). split; [done|]. exists a', m'.
  rewrite list_insert_insert_eq. split_and!; try done. by eapply grows_trans.
Qed.

Lemma wp_check_next_sequential_loop n k L S0 hp Q fuel : forall l a m,
  (n < length S0)%nat -> walking n k L l a m -> unlocked a -> (length m < fuel)%nat ->
  (forall l a m, found n k L l a m -> Q (a_ptr a) (<[n := l ++ a :: m]> S0) hp) ->
  wp (check_next_sequential_loop EXP merge_threshold fuel (kind_of n) (a_ptr a) (head_or m None) k)
    (<[n := l ++ a :: m]> S0) hp Q.
Proof using Hthreshold Hzcap.
  induction fuel as [|fuel IH]; intros l a m Hlt Hw Ha Hfuel HQ; [lia|]. apply wp_okay. intros Hok.
  assert (Hl : <[n := l ++ a :: m]> S0 !! n = Some (l ++ a :: m)) by (by apply list_lookup_insert_eq).
  pose proof (ok_layer _ _ _ Hok _ _ Hl) as Hlay. pose proof (sl_sorted _ _ Hlay) as Hs.
  destruct m as [|b m]; cbn [head_or check_next_sequential_loop].
  { apply wp_ret, HQ, walking_found; try done. split; [apply Hw|by intros e ?%elem_of_nil]. }
  assert (Hr : resting (b :: m)) by (pose proof (wk_resting _ _ _ _ _ _ Hw) as Hr; by apply Forall_app in Hr as [_ Hr]).
  apply wp_bind, (wp_past_last _ _ _ Hl eq_refl).
  destruct (match kv_last (a_elems a) with None => true | Some last => last <? k end) eqn:Hpast; cbn [negb].
  2: { destruct (kv_last (a_elems a)) as [k'|] eqn:Hk'; [|done]. apply Z.ltb_ge in Hpast.
       apply wp_ret, HQ, walking_found; try done. eapply flat_covers_last; try done. apply Hw. }
  apply wp_bind. eapply wp_mono; [apply (wp_merge_orphans n l hp _ _ _ _ _ Hl Hr); cbn in Hfuel; lia|].
  intros r S' hp' (-> & a' & m' & Hg & Hst & -> & Hr'). rewrite list_insert_insert_eq.
  pose proof (walking_grows _ _ _ _ _ _ _ _ Hlay Hw Hg) as Hw'.
  pose proof (gr_ptr _ _ _ _ _ _ Hg) as Hp. pose proof (gr_layer _ _ _ _ _ _ Hg Hlay) as Hlay'.
  assert (Ha' : unlocked a') by (unfold unlocked; congruence).
  pose proof (suffix_length _ _ (gr_suffix _ _ _ _ _ _ Hg)) as Hlen. rewrite <- Hp.
  destruct r as [p|].
  2: { subst m'. apply wp_ret, HQ, walking_found; try done. split; [apply Hw'|by intros e ?%elem_of_nil]. }
  destruct Hr' as (c & m'' & -> & -> & Hne). destruct (kv_first_nonempty _ Hne) as [k' Hk'].
  assert (Hl2 : <[n := l ++ a' :: c :: m'']> S0 !! n = Some ((l ++ [a']) ++ c :: m''))
    by (rewrite <- app_assoc; by apply list_lookup_insert_eq).
  apply wp_bind, (wp_first _ _ _ Hl2 eq_refl _ _ Hk'). destruct (Z.ltb_spec k k') as [Hkk|Hkk].
  - apply wp_ret, HQ, walking_found; try done.
    eapply flat_covers_next; [exact (sl_sorted _ _ Hlay')|apply Hw'|done|done].
  - apply wp_bind, (wp_load_next Hl2).
    pose proof (wk_resting _ _ _ _ _ _ Hw') as Hr2. apply Forall_app in Hr2 as [_ [Hc _]%Forall_cons].
    rewrite (app_assoc l [a'] (c :: m'') : l ++ a' :: c :: m'' = _).
    apply (IH (l ++ [a']) c m''); try done; [by eapply walking_right|]. cbn in Hlen, Hfuel. lia.
Qed.

Lemma wp_check_next_sequential fuel S n k l a m hp Q :
  S !! n = Some (l ++ a :: m) -> resting (l ++ a :: m) -> starts k l a -> (length m < fuel)%nat ->
  (forall l' a' m', found n k (l ++ a :: m) l' a' m' -> Q (a_ptr a') (<[n := l' ++ a' :: m']> S) hp) ->
  wp (check_next_sequential EXP merge_threshold fuel (kind_of n) (a_ptr a) k) S hp Q.
Proof using Hthreshold Hzcap.
  intros Hl Hr Hst Hfuel HQ. apply wp_bind, (wp_load_next Hl).
  rewrite <- (list_insert_id S n _ Hl) at 1.
  apply Forall_app in Hr as Hr'. destruct Hr' as [Hr1 [Ha Hr2]%Forall_cons].
  apply (wp_check_next_sequential_loop n k (l ++ a :: m)); try done; [by eapply lookup_lt_Some|].
  split; try done. apply Forall_app. done.
Qed.
End SvCheck.
