(* ===== verification/SvDescend.v ===== *)
(** * SvDescend: going down, and looking up

    Each index layer's entries are the anchors of the layer below, so the
    greatest entry at most [k] of the node that covers [k] leads to a node from
    which [k] is to be found one layer down.  [contains] and [skip_to] descend
    to the data layer in this way. *)

From Stdlib Require Import QArith.
From S2P Require Import Prelude KvList Prog SvLock VecSpec HazardPtr World Layers Heap SvNode SvOps.
From S2P Require Import SvLayers SvMem SvWp SvWalk.

Local Open Scope Z_scope.
Import Thread.

(** ** Layers ready for an operation *)

Section Ready.
Context {V : Type} {vof : kind -> Type -> Type} `{HV : forall kd, VecOps (vof kd)}.
Context (layers : nat).

Local Abbreviation anode := (anode V (lock_state * Z)).
Implicit Types (a b c : anode) (l m L : list anode) (S : list (list anode)) (n N : nat) (k : Z).

(** The layers hold the map [d], no node is locked or frozen, and a walk along
    a layer takes at most [N] steps. *)
Record ready N S (d : list (Z * V)) : Prop := {
  rd_linked : linked layers S;
  rd_holds : holds S d;
  rd_resting n l : S !! n = Some l -> resting l;
  rd_sized n l : S !! n = Some l -> (length l <= N)%nat;
}.

Lemma ready_found N S d n k L l a m :
  ready N S d -> S !! n = Some L -> found (vof:=vof) n k L l a m ->
  ready N (<[n := l ++ a :: m]> S) d.
Proof.
  intros [H1 H2 H3 H4] HL [F1 F2 F3 F4 F5]. split.
  - by eapply linked_same.
  - by eapply holds_same.
  - intros i u. destruct (decide (i = n)) as [->|Hne].
    + rewrite list_lookup_insert_eq by (by eapply lookup_lt_Some). by intros [= <-].
    + rewrite list_lookup_insert_ne by done. apply H3.
  - intros i u. destruct (decide (i = n)) as [->|Hne].
    + rewrite list_lookup_insert_eq by (by eapply lookup_lt_Some). intros [= <-].
      specialize (H4 n L HL). lia.
    + rewrite list_lookup_insert_ne by done. apply H4.
Qed.

Lemma ready_unlocked N S d n l a m : ready N S d -> S !! n = Some (l ++ a :: m) -> unlocked a.
Proof. intros H Hl. apply (rd_resting _ _ _ H) in Hl. by apply Forall_app in Hl as [_ [? _]%Forall_cons]. Qed.

(** What [find_lte] answers for an index node. *)
Definition lookup_down k a : option (Z * ptr) :=
  e ← kv_lte k (a_elems a); x ← unwrap INDEX e.2; Some (e.1, x).

(** Where it leads: the answer, or else the head of layer [n]. *)
Definition down_from n (found : option (Z * ptr)) : ptr :=
  match found with Some (_, p) => p | None => Head n end.

(** The covering node of layer [n + 1] leads to a node that starts [k]'s walk
    along layer [n]. *)
Lemma covers_down S n k L l a m :
  linked layers S -> S !! n = Some L -> slayer vof n L -> S !! Datatypes.S n = Some (l ++ a :: m) ->
  slayer vof (Datatypes.S n) (l ++ a :: m) -> covers k l a m ->
  exists l1 b l2, L = l1 ++ b :: l2 /\ starts k l1 b /\ a_ptr b = down_from n (lookup_down k a) /\
    match lookup_down k a with
    | Some (k', _) => a_orphan b = false /\ kv_first (a_elems b) = Some k' /\ k' <= k
    | None => l1 = []
    end.
Proof.
  intros Hlk HL HlayL Hu Hlay Hc. pose proof (lk_link _ _ Hlk _ _ _ HL Hu) as Hf.
  pose proof (covers_lte _ _ _ k Hc) as Hlte. unfold lookup_down. rewrite <- Hlte, Hf.
  destruct (kv_lte k (anchors L)) as [[k' x]|] eqn:He; cbn.
  - apply kv_lte_elem in He as [Hin Hle]. cbn in Hle.
    apply elem_of_anchors in Hin as (b & Hb & Ho & Hk & Hx). cbn in Hk, Hx. subst x. cbn.
    apply list_elem_of_split in Hb as (l1 & l2 & ->). exists l1, b, l2. split_and!; try done.
    right. eauto.
  - destruct (sl_head _ _ HlayL) as (h & l' & -> & Hp & _). exists [], h, l'. split_and!; try done. by left.
Qed.

(** It finds [k] iff [k] is in layer [n + 1]. *)
Lemma lookup_down_key S n k L l a m :
  linked layers S -> S !! n = Some L -> S !! Datatypes.S n = Some (l ++ a :: m) ->
  slayer vof (Datatypes.S n) (l ++ a :: m) -> covers k l a m ->
  (exists p, lookup_down k a = Some (k, p)) <-> is_Some (kv_lookup k (anchors L)).
Proof.
  intros Hlk HL Hu Hlay Hc. pose proof (lk_link _ _ Hlk _ _ _ HL Hu) as Hf.
  pose proof (sl_sorted _ _ Hlay) as Hs. unfold lookup_down. rewrite <- (covers_lte _ _ _ k Hc).
  rewrite Hf in Hs |- *. split.
  - intros [p Hp]. destruct (kv_lte k (anchors L)) as [[k' x]|] eqn:He; [|done]. cbn in Hp.
    destruct x as [x|q]; [done|]. cbn in Hp. injection Hp as -> ->.
    apply kv_lte_elem in He as [Hin _]. eexists. by apply kv_elem_lookup.
  - intros [x Hx]. rewrite (kv_lte_lookup _ _ _ Hs Hx). cbn.
    apply kv_lookup_elem, elem_of_anchors in Hx as (b & _ & _ & _ & Hx). cbn in Hx. subst x. cbn. eauto.
Qed.
(** A layer starts with its head. *)
Lemma okay_head S hp n : okay (vof:=vof) layers S hp -> (n <= layers)%nat ->
  exists a m, S !! n = Some (a :: m) /\ a_ptr a = Head n.
Proof.
  intros Hok Hn. destruct (lookup_lt_is_Some_2 S n) as [L HL].
  { rewrite (ok_len _ _ _ Hok). lia. }
  destruct (sl_head _ _ (ok_layer _ _ _ Hok _ _ HL)) as (a & m & -> & Hp & _). eauto.
Qed.
End Ready.

Arguments ready {V} layers N S d.

(** ** The operations *)

Section SvDescend.
Context {V : Type} {vof : kind -> Type -> Type}.
Context `{HV : forall kd, VecOps (vof kd)} `{HS : forall kd, VecSpec (vof kd)}.
Context (EXP : kind -> Z) (MAX_LAYERS layers ZCAP t : nat) (merge_threshold : Q).
Context (Hthreshold : forall kd n, (0 < EXP kd) ->
  Qle_bool (merge_threshold * inject_Z (2 ^ EXP kd)) (inject_Z (Z.of_nat n)) = false ->
  (n <= v_capacity (vof kd))%nat).
Context (Hzcap : (1 <= ZCAP)%nat) (Hpos : (0 < layers)%nat) (Hmax : (layers <= MAX_LAYERS)%nat).

Local Abbreviation mem := (mem V unit (fun _ => chunk V vof)).
Local Abbreviation anode := (anode V (lock_state * Z)).
Local Abbreviation hpstate := (option (held ptr * list ptr)).
Local Abbreviation wp := (wp (V:=V) (vof:=vof) layers ZCAP t).
Local Abbreviation ready := (ready (V:=V) layers).
Local Abbreviation follow := (follow EXP ZCAP merge_threshold).
Implicit Types (a b c : anode) (l m L : list anode) (S : list (list anode)) (hp : hpstate).
Implicit Types (n i N fuel : nat) (p : ptr) (k : Z) (kd : kind) (zs : list ptr) (d : list (Z * V)).

(** The body of a loop that is not repeated. *)
Lemma wp_retry {A} (m : mem (option A)) fuel S hp Q :
  wp m S hp (fun r S' hp' => match r with Some x => Q x S' hp' | None => False end) ->
  wp (retry (Datatypes.S fuel) m) S hp Q.
Proof.
  intros Hm. cbn [retry]. apply wp_bind. eapply wp_mono; [exact Hm|].
  intros [x|] S' hp' HQ; [|done]. by apply wp_ret.
Qed.

Lemma wp_index_head i S hp Q :
  (i < MAX_LAYERS)%nat -> Q (Head (Datatypes.S i)) S hp -> wp (index_head MAX_LAYERS i) S hp Q.
Proof. intros Hi HQ. unfold index_head. rewrite (proj2 (Nat.ltb_lt _ _) Hi). by apply wp_ret. Qed.

(** The thread stands at a node from which [k]'s walk along layer [n] starts. *)
Definition stands k n S hp (p : ptr) (w : Z) : Prop :=
  exists l b m zs, S !! n = Some (l ++ b :: m) /\ starts k l b /\
    p = a_ptr b /\ w = word b /\ hp = Some (HCurr (a_ptr b), zs).

Definition at_start N d k n S hp p w : Prop := ready N S d /\ stands k n S hp p w.

Lemma wp_start_top N d k S zs Q :
  ready N S d ->
  (forall p w hp, stands k layers S hp p w -> Q (p, w) S hp) ->
  wp (start_top MAX_LAYERS layers) S (Some (HNone, zs)) Q.
Proof using All.
  intros Hrd HQ. apply wp_okay. intros Hok. destruct (okay_head layers _ _ layers Hok) as (a & m & Hl & Hp); [done|].
  apply wp_bind, wp_index_head; [lia|]. replace (Datatypes.S (layers - 1)) with layers by lia. rewrite <- Hp.
  apply wp_bind, wp_take_first.
  apply wp_bind, (wp_begin_read (l1:=[]) Hl); [exact (ready_unlocked _ _ _ _ _ [] a m Hrd Hl)|].
  apply wp_ret, HQ. exists [], a, m, zs. split_and!; try done. by left.
Qed.

(** [reader_swap] *)
Lemma wp_reader_swap S n l a m n' l' b m' zs Q :
  S !! n = Some (l ++ a :: m) -> S !! n' = Some (l' ++ b :: m') -> unlocked a -> unlocked b ->
  Q (true, word b) S (Some (HCurr (a_ptr b), zs)) ->
  wp (reader_swap (a_ptr a) (word a) (a_ptr b)) S (Some (HCurr (a_ptr a), zs)) Q.
Proof.
  intros Hl Hl' Ha Hb HQ. apply wp_bind, wp_take_next. apply wp_bind, (wp_confirm Hl _ Ha). cbn [negb].
  apply wp_bind, (wp_begin_read Hl' _ Hb). apply wp_bind, (wp_confirm Hl _ Ha). cbn [negb].
  by apply wp_bind, wp_drop_curr_both, wp_ret.
Qed.

(** [check_next], from where the thread stands. *)
Lemma wp_check_next_at CLEANUP fuel N S n k p w hp Q :
  stands k n S hp p w -> (forall L, S !! n = Some L -> resting L /\ (length L <= N)%nat) -> (N < fuel)%nat ->
  (forall L l a m zs, S !! n = Some L -> found n k L l a m ->
     Q (true, a_ptr a, word a) (<[n := l ++ a :: m]> S) (Some (HCurr (a_ptr a), zs))) ->
  wp (check_next EXP ZCAP merge_threshold fuel (kind_of n) CLEANUP p w k) S hp Q.
Proof using All.
  intros (l & b & m & zs & Hl & Hst & -> & -> & ->) HN Hfuel HQ. destruct (HN _ Hl) as [Hr Hn].
  apply (wp_check_next EXP layers ZCAP t merge_threshold Hthreshold Hzcap _ _ _ n k l b m); try done.
  - rewrite length_app in Hn. cbn in Hn. lia.
  - intros l' a m' zs' Hf. by eapply HQ.
Qed.

Lemma wp_check_next_ready CLEANUP fuel N d S n k p w hp Q :
  at_start N d k n S hp p w -> (N < fuel)%nat ->
  (forall L l a m zs, S !! n = Some L -> found n k L l a m -> ready N (<[n := l ++ a :: m]> S) d ->
     Q (true, a_ptr a, word a) (<[n := l ++ a :: m]> S) (Some (HCurr (a_ptr a), zs))) ->
  wp (check_next EXP ZCAP merge_threshold fuel (kind_of n) CLEANUP p w k) S hp Q.
Proof using All.
  intros [Hrd Hst] Hfuel HQ. apply (wp_check_next_at CLEANUP fuel N); [done| |done|].
  - intros L HL. split; [by eapply rd_resting|by eapply rd_sized].
  - intros L l a m zs HL Hf. eapply HQ; try done. by eapply ready_found.
Qed.

Lemma wp_lookup_down S hp n k l a m Q :
  S !! Datatypes.S n = Some (l ++ a :: m) -> Q (lookup_down k a) S hp ->
  wp (vget INDEX (a_ptr a) (v_find_lte k)) S hp Q.
Proof. intros Hl. by apply (wp_find_lte _ _ _ Hl (kd:=INDEX)). Qed.

(** [follow]: one layer down. *)
Lemma wp_follow fuel N d S n k p w hp Q :
  at_start N d k (Datatypes.S n) S hp p w -> (N < fuel)%nat ->
  (forall S' hp' p' w', at_start N d k n S' hp' p' w' -> Q (true, p', w') S' hp') ->
  wp (follow fuel p w k (Head n)) S hp Q.
Proof using All.
  intros Hat Hfuel HQ. unfold SvOps.follow.
  apply wp_bind, (wp_check_next_ready false fuel N d S (Datatypes.S n) k p w hp); try done.
  intros U l a m zs HU Hf Hrd. cbn [negb]. apply wp_okay. intros Hok.
  set (S1 := <[Datatypes.S n := l ++ a :: m]> S) in *.
  assert (Hl : S1 !! Datatypes.S n = Some (l ++ a :: m)).
  { apply list_lookup_insert_eq. by eapply lookup_lt_Some. }
  destruct (lookup_lt_is_Some_2 S1 n) as [L HL]; [apply lookup_lt_Some in Hl; lia|].
  destruct (covers_down layers S1 n k L l a m (rd_linked _ _ _ _ Hrd) HL (ok_layer _ _ _ Hok _ _ HL) Hl
              (fd_layer _ _ _ _ _ _ Hf) (fd_covers _ _ _ _ _ _ Hf)) as (l1 & b & l2 & -> & Hst & Hp & _).
  apply wp_bind, (wp_lookup_down _ _ _ _ _ _ _ _ Hl). cbn [elt]. cbv zeta.
  change (match lookup_down k a with Some (_, p) => p | None => Head n end) with (down_from n (lookup_down k a)).
  rewrite <- Hp. apply wp_bind, (wp_reader_swap _ _ _ _ _ _ _ _ _ _ _ Hl HL).
  { by eapply ready_unlocked. } { by eapply ready_unlocked. }
  apply wp_ret, HQ. split; [done|]. by exists l1, b, l2, zs.
Qed.
Lemma wp_follow_layers fuel N d k layer : forall S p w hp Q,
  at_start N d k (Datatypes.S layer) S hp p w -> (N < fuel)%nat -> (layer <= layers)%nat ->
  (forall S' hp' p' w', at_start N d k 1 S' hp' p' w' -> Q (Some (p', w')) S' hp') ->
  wp (follow_layers EXP MAX_LAYERS ZCAP merge_threshold fuel k layer p w) S hp Q.
Proof using All.
  induction layer as [|layer IH]; intros S p w hp Q Hat Hfuel Hle HQ; cbn [follow_layers].
  { by apply wp_ret, HQ. }
  apply wp_bind, wp_index_head; [lia|].
  apply wp_bind, (wp_follow fuel N d S (Datatypes.S layer) k p w hp); try done.
  intros S' hp' p' w' Hat'. cbn [negb]. apply IH; [done|done|lia|done].
Qed.

(** The descent reaches the data layer. *)
Lemma wp_follow_down fuel N d S k zs Q :
  ready N S d -> (N < fuel)%nat ->
  (forall S' hp' p' w', at_start N d k 0 S' hp' p' w' -> Q (Some (p', w')) S' hp') ->
  wp (follow_down EXP MAX_LAYERS layers ZCAP merge_threshold fuel k) S (Some (HNone, zs)) Q.
Proof using All.
  intros Hrd Hfuel HQ. apply wp_bind, (wp_start_top N d k); [done|]. intros p w hp Hat.
  apply wp_bind, (wp_follow_layers fuel N d k (layers - 1)); [|done|lia|].
  { split; [done|]. by replace (Datatypes.S (layers - 1)) with layers by lia. }
  intros S' hp' p' w' Hat'. apply wp_bind, (wp_follow fuel N d S' 0 k p' w' hp'); try done.
  intros S2 hp2 p2 w2 Hat2. cbn [negb]. by apply wp_ret, HQ.
Qed.

(** The data node that covers a key knows its value. *)
Lemma layers_lookup S d k l a m :
  holds S d -> S !! 0%nat = Some (l ++ a :: m) -> slayer vof 0 (l ++ a :: m) -> covers k l a m ->
  (x ← kv_lookup k (a_elems a); unwrap DATA x) = kv_lookup k d.
Proof.
  intros (L & HL & Hd) Hl Hlay Hc. assert (L = l ++ a :: m) as -> by congruence.
  rewrite <- (flat_covers_lookup _ _ _ (sl_sorted _ _ Hlay) k Hc), Hd, kv_lookup_vmap.
  by destruct (kv_lookup k d).
Qed.

Lemma wp_lookup_data S hp N d k l a m Q :
  ready N S d -> S !! 0%nat = Some (l ++ a :: m) -> covers k l a m -> Q (kv_lookup k d) S hp ->
  wp (vget DATA (a_ptr a) (v_contains k)) S hp Q.
Proof.
  intros Hrd Hl Hc HQ. apply wp_okay. intros Hok. apply (wp_contains_key _ _ _ Hl (kd:=DATA)); [done|].
  by rewrite (layers_lookup S d k l a m (rd_holds _ _ _ _ Hrd) Hl (ok_layer _ _ _ Hok _ _ Hl) Hc).
Qed.

(** Between two operations a thread protects nothing. *)
Definition idle hp : Prop := match hp with Some (h, _) => h = HNone | None => True end.

Lemma wp_init_idle S hp Q :
  idle hp -> (forall zs, Q tt S (Some (HNone, zs))) -> wp (hp_init ZCAP) S hp Q.
Proof.
  intros Hi HQ. apply wp_hp_init. destruct hp as [[h zs]|]; cbn in *; [subst h|]; apply HQ.
Qed.

(** [contains] answers what the map holds. *)
Lemma wp_contains fuel N d S hp k Q :
  ready N S d -> (N < fuel)%nat -> idle hp ->
  (forall S' zs, ready N S' d -> Q (kv_lookup k d) S' (Some (HNone, zs))) ->
  wp (contains EXP MAX_LAYERS layers ZCAP merge_threshold fuel k) S hp Q.
Proof using All.
  intros Hrd Hfuel Hhp HQ. apply wp_bind, wp_init_idle; [done|]. intros zs.
  destruct fuel as [|fuel]; [lia|]. apply wp_retry.
  apply wp_bind, (wp_follow_down _ N d); [done|done|]. intros S1 hp1 p w Hat.
  apply wp_bind, (wp_check_next_ready false _ N d S1 0 k p w hp1 _ Hat Hfuel).
  intros L l a m zs1 HL Hf Hrd1. cbn [negb]. set (S2 := <[0%nat := l ++ a :: m]> S1) in *.
  assert (Hl : S2 !! 0%nat = Some (l ++ a :: m)) by (apply list_lookup_insert_eq; by eapply lookup_lt_Some).
  apply wp_bind, (wp_lookup_data _ _ N d k l a m); [done|done|apply Hf|].
  apply wp_bind, (wp_confirm Hl); [by eapply ready_unlocked|].
  apply wp_bind, wp_drop_curr, wp_ret. by apply HQ.
Qed.

(** [skip_to] ends with a locked data node, from which [k]'s walk starts. *)
Lemma wp_skip_to fuel N d S k zs Q :
  ready N S d -> (N < fuel)%nat ->
  (forall S' l b m zs', ready N S' d -> S' !! 0%nat = Some (l ++ b :: m) -> starts k l b ->
     Q (a_ptr b) (<[0%nat := l ++ set_state Locked b :: m]> S') (Some (HNone, zs'))) ->
  wp (skip_to EXP MAX_LAYERS layers ZCAP merge_threshold fuel k) S (Some (HNone, zs)) Q.
Proof using All.
  intros Hrd Hfuel HQ. destruct fuel as [|fuel]; [lia|]. apply wp_retry.
  apply wp_bind, (wp_follow_down _ N d); [done|done|].
  intros S1 hp1 p w [Hrd1 (l & b & m & zs1 & Hl & Hst & -> & -> & ->)].
  apply wp_bind, (wp_try_upgrade Hl); [by eapply ready_unlocked|]. cbn [negb].
  apply wp_bind, wp_drop_curr, wp_ret. by eapply HQ.
Qed.
End SvDescend.
