(* ===== verification/SvGrow.v ===== *)
(** * SvGrow: new nodes

    An insertion may split a node: the new node is stitched in after the old one
    and takes a part of its entries.  Splitting off an orphan changes neither
    the entries nor the anchors of the layer; splitting at a new key adds the
    key to both.  The second part places an entry in its node. *)

From S2P Require Import Prelude KvList Prog SvLock VecSpec HazardPtr World Layers Heap SvNode SvOps.
From S2P Require Import SvLayers SvMem SvWp SvWalk.

Local Open Scope Z_scope.
Import Thread.

Section SvGrow.
Context {V : Type} {vof : kind -> Type -> Type}.
Context `{HV : forall kd, VecOps (vof kd)} `{HS : forall kd, VecSpec (vof kd)}.
Context (layers ZCAP t : nat) (junk : forall kd, Z * elt V kd).

Local Abbreviation mem := (mem V unit (fun _ => chunk V vof)).
Local Abbreviation anode := (anode V (lock_state * Z)).
Local Abbreviation hpstate := (option (held ptr * list ptr)).
Local Abbreviation wp := (wp (V:=V) (vof:=vof) layers ZCAP t).
Local Abbreviation sv := (sv (V:=V) (vof:=vof) layers).
Local Abbreviation exec := (exec (V:=V) (vof:=vof) ZCAP t).
Local Abbreviation node_new := (node_new (V:=V) (vof:=vof) junk).
Local Abbreviation slayer := (slayer (V:=V) vof).
Implicit Types (a b c : anode) (l m L : list anode) (S : list (list anode)) (hp : hpstate).
Implicit Types (n N fuel : nat) (p : ptr) (k : Z) (kd : kind) (zs : list ptr) (o : bool).
Implicit Types (el : list (Z * value V)).

(** ** The constructor *)

Lemma exec_node_new M fr hp p al nx kd el o :
  M !! p = Some (Cell al nx kd el) -> p <> Heap fr ->
  exec (node_new kd p o) (AState M fr hp) (Heap fr)
    (AState (<[p := Cell al (Some (Heap fr)) kd el]> (<[Heap fr := Cell (ALock o Unlocked 0) nx kd []]> M))
       (Pos.succ fr) hp).
Proof.
  intros Hp Hne. eapply exec_bind; [exact (exec_load_next (s:=AState M fr hp) Hp)|].
  eapply exec_bind; [apply exec_new|].
  eapply exec_bind; [eapply exec_store_next|apply exec_ret]. by rewrite lookup_insert_ne.
Qed.

(** A node that a split made. *)
Definition new_node p o (st : lock_state) el : anode := ANode p o (st, 0) el.

Section Split.
Context {S : list (list anode)} {n : nat} {l : list anode} {a : anode} {m : list anode}.
Context (Hl : S !! n = Some (l ++ a :: m)).

Lemma fresh_ne M fr hp : sv S (AState M fr hp) -> a_ptr a <> Heap fr.
Proof using Hl.
  intros H He. assert (Hin : Heap fr ∈ zombies_of hp ++ ptrs S).
  { apply elem_of_app. right. rewrite <- He. eapply elem_of_ptrs; [exact Hl|]. apply elem_of_app. right. left. }
  apply (sv_fresh _ _ _ H) in Hin. cbn in Hin. lia.
Qed.

Lemma sv_split M M' fr hp a' b :
  sv S (AState M fr hp) -> a_ptr a' = a_ptr a -> a_ptr b = Heap fr -> slayer n (l ++ a' :: b :: m) ->
  M' !! a_ptr a = Some (cell_of n a' (Some (Heap fr))) ->
  M' !! Heap fr = Some (cell_of n b (head_or m None)) ->
  (forall p, p ∉ [a_ptr a; Heap fr] -> M' !! p = M !! p) ->
  sv (<[n := l ++ a' :: b :: m]> S) (AState M' (Pos.succ fr) hp).
Proof using Hl ZCAP t HS.
  intros H Ha Hb Hlay Hca Hcb Hf. pose proof (fresh_ne _ _ _ H) as Hne.
  pose proof (sv_nodup _ _ _ H) as Hnd. apply NoDup_app in Hnd as (_ & _ & Hnd).
  destruct (ptr_other S n l a m Hnd Hl) as [Hother _].
  assert (Hin : forall c, c ∈ l \/ c ∈ m -> M' !! a_ptr c = M !! a_ptr c).
  { intros c Hc. apply Hf. rewrite !not_elem_of_cons. split_and!; [by apply Hother| |apply not_elem_of_nil].
    intros He. assert (Hx : Heap fr ∈ zombies_of hp ++ ptrs S).
    { apply elem_of_app. right. rewrite <- He. eapply elem_of_ptrs; [exact Hl|].
      apply elem_of_app. destruct Hc; [by left|right; by right]. }
    apply (sv_fresh _ _ _ H) in Hx. cbn in Hx. lia. }
  apply (sv_update layers ZCAP t S (AState M fr hp) (AState M' (Pos.succ fr) hp) n (l ++ a :: m) _
           [a_ptr a; Heap fr] [Heap fr] []); try done; cbn [s_mem s_hp s_fresh].
  - pose proof (sv_chain _ _ _ H _ _ Hl) as Hc. cbn in Hc. apply chain_app in Hc as [H1 [_ H2]].
    apply chain_app. cbn [chain head_or] in *. rewrite Ha, Hb in *. split_and!; [|done|done|].
    + eapply chain_frame; [|exact H1]. auto.
    + eapply chain_frame; [|exact H2]. auto.
  - intros p. rewrite !elem_of_cons, !elem_of_app, map_app, map_cons, elem_of_app, !elem_of_cons. tauto.
  - rewrite !map_app, !map_cons, Ha, Hb, app_nil_r. solve_Permutation.
  - apply NoDup_singleton.
  - intros p ->%list_elem_of_singleton. exists fr. split; [done|]. lia.
  - lia.
  - by intros p ?%elem_of_nil.
  - intros p Hz. pose proof (sv_zombies _ _ _ H) as Hh. rewrite Forall_forall in Hh. split; [by apply Hh|].
    rewrite Hf; [by apply (sv_zombie _ _ _ _ H)|]. rewrite !not_elem_of_cons. split_and!; [| |apply not_elem_of_nil].
    + intros ->. by apply (sv_alive _ _ _ _ _ _ _ H Hl).
    + intros ->. assert (Hx : Heap fr ∈ zombies_of hp ++ ptrs S) by (apply elem_of_app; by left).
      apply (sv_fresh _ _ _ H) in Hx. cbn in Hx. lia.
Qed.

(** What a method that fills a new node from [a] does to the two. *)
Definition fills kd (f : vof kd (elt V kd) -> vof kd (elt V kd) -> option (vof kd (elt V kd) * vof kd (elt V kd)))
    el el1 el2 : Prop :=
  forall v u, v_ok v -> v_ok u -> v_elems v = [] -> el = kv_vmap (wrap kd) (v_elems u) ->
    exists v' u', f v u = Some (v', u') /\ v_ok v' /\ v_ok u' /\
      el2 = kv_vmap (wrap kd) (v_elems v') /\ el1 = kv_vmap (wrap kd) (v_elems u').

Lemma fills_steal kd f el el1 el2 :
  fills kd f el el1 el2 ->
  forall v u, v_ok v -> v_ok u -> [] = kv_vmap (wrap kd) (v_elems v) -> el = kv_vmap (wrap kd) (v_elems u) ->
    exists v' u', f v u = Some (v', u') /\ v_ok v' /\ v_ok u' /\
      el2 = kv_vmap (wrap kd) (v_elems v') /\ el1 = kv_vmap (wrap kd) (v_elems u').
Proof. intros Hf v u Hv Hu He. apply Hf; [done|done|]. by apply (kv_vmap_nil (wrap kd)). Qed.

Context {hp : hpstate}.

(** [new node_t(a, o)], filled from [a]; [pre] acts on its lock before. *)
Lemma wp_new_pre {A B} kd f el1 el2 o st (pre : ptr -> mem B) (r : B) (K : ptr -> mem A) Q :
  kind_of n = kd -> fills kd f (a_elems a) el1 el2 ->
  (forall M fr q nx, M !! q = Some (Cell (ALock o Unlocked 0) nx kd []) ->
     exec (pre q) (AState M fr hp) r (AState (<[q := Cell (ALock o st 0) nx kd []]> M) fr hp)) ->
  (forall q, slayer n (l ++ a :: m) -> slayer n (l ++ with_elems el1 a :: new_node (Heap q) o st el2 :: m)) ->
  (forall q, wp (K (Heap q)) (<[n := l ++ with_elems el1 a :: new_node (Heap q) o st el2 :: m]> S) hp Q) ->
  wp (let* new := node_new kd (a_ptr a) o in pre new ;;; vsteal kd new (a_ptr a) f ;;; K new) S hp Q.
Proof using Hl.
  intros <- Hf Hpre Hlay HK M fr H. pose proof (fresh_ne _ _ _ H) as Hne.
  pose proof (sv_cell _ _ _ _ _ _ _ H Hl) as Hc. cbn in Hc.
  pose proof (sv_layer _ _ _ H _ _ Hl) as Hlay0.
  set (M0 := <[a_ptr a := Cell (lock_of a) (Some (Heap fr)) (kind_of n) (a_elems a)]>
              (<[Heap fr := Cell (ALock o Unlocked 0) (head_or m None) (kind_of n) []]> M)).
  assert (H0 : M0 !! Heap fr = Some (Cell (ALock o Unlocked 0) (head_or m None) (kind_of n) []))
    by (unfold M0; by rewrite lookup_insert_ne, lookup_insert_eq).
  pose proof (Hpre M0 (Pos.succ fr) (Heap fr) (head_or m None) H0) as He1.
  match type of He1 with SvMem.exec _ _ _ _ _ (AState ?M1' _ _) => set (M1 := M1') in He1 end.
  assert (H1a : M1 !! a_ptr a = Some (Cell (lock_of a) (Some (Heap fr)) (kind_of n) (a_elems a)))
    by (unfold M1, M0; rewrite lookup_insert_ne by done; apply lookup_insert_eq).
  pose proof (exec_vsteal (ZCAP:=ZCAP) (t:=t) (fr:=Pos.succ fr) (hp:=hp) (lookup_insert_eq M0 (Heap fr) _)
                (not_eq_sym Hne) H1a (fills_steal _ _ _ _ _ Hf)) as He2.
  match type of He2 with SvMem.exec _ _ _ _ _ (AState ?M2' _ _) => set (M2 := M2') in He2 end.
  assert (H2 : sv (<[n := l ++ with_elems el1 a :: new_node (Heap fr) o st el2 :: m]> S) (AState M2 (Pos.succ fr) hp)).
  { apply (sv_split M M2 fr hp); try done; [by apply Hlay| | |].
    - unfold M2. rewrite lookup_insert_ne by done. by rewrite lookup_insert_eq.
    - apply lookup_insert_eq.
    - intros p Hp. rewrite !not_elem_of_cons in Hp. unfold M2, M1, M0.
      by rewrite !lookup_insert_ne by (intros <-; tauto). }
  destruct (HK fr M2 (Pos.succ fr) H2) as (x & M3 & fr3 & S3 & hp3 & He3 & H3 & HQ).
  exists x, M3, fr3, S3, hp3. split_and!; [|done|done].
  eapply exec_bind; [exact (exec_node_new _ _ _ _ _ _ _ _ _ Hc Hne)|].
  eapply exec_bind; [exact He1|]. eapply exec_bind; [exact He2|exact He3].
Qed.

Lemma wp_new_filled {A} kd f el1 el2 o (K : ptr -> mem A) Q :
  kind_of n = kd -> fills kd f (a_elems a) el1 el2 ->
  (forall q, slayer n (l ++ a :: m) -> slayer n (l ++ with_elems el1 a :: new_node (Heap q) o Unlocked el2 :: m)) ->
  (forall q, wp (K (Heap q)) (<[n := l ++ with_elems el1 a :: new_node (Heap q) o Unlocked el2 :: m]> S) hp Q) ->
  wp (let* new := node_new kd (a_ptr a) o in vsteal kd new (a_ptr a) f ;;; K new) S hp Q.
Proof using Hl.
  intros Hk Hf Hlay HK. apply (wp_new_pre kd f el1 el2 o Unlocked (fun _ => Ret tt) tt K Q); try done.
  intros M fr q nx Hq. rewrite insert_id by done. apply exec_ret.
Qed.

(** The same, with the new node locked before it is filled. *)
Lemma wp_new_locked {A} fuel kd f el1 el2 o (K : ptr -> mem A) Q :
  kind_of n = kd -> fills kd f (a_elems a) el1 el2 ->
  (forall q, slayer n (l ++ a :: m) -> slayer n (l ++ with_elems el1 a :: new_node (Heap q) o Locked el2 :: m)) ->
  (forall q, wp (K (Heap q)) (<[n := l ++ with_elems el1 a :: new_node (Heap q) o Locked el2 :: m]> S) hp Q) ->
  wp (let* new := node_new kd (a_ptr a) o in
      lock_acquire (Datatypes.S fuel) new ;;; vsteal kd new (a_ptr a) f ;;; K new) S hp Q.
Proof using Hl.
  intros Hk Hf. apply (wp_new_pre kd f el1 el2 o Locked _ true K Q Hk Hf).
  intros M fr q nx Hq. by apply (exec_acquire Hq).
Qed.
End Split.

(** ** What the vectors' methods fill it with *)

Lemma fills_split_insert kd k (x : elt V kd) el :
  kv_lookup k el = None -> (Datatypes.S (length (kv_above k el)) <= v_capacity (vof kd))%nat ->
  fills kd (v_split_insert k x) el (kv_below k el) ((k, wrap kd x) :: kv_above k el).
Proof.
  intros Hk Hroom v u Hv Hu _ ->. rewrite kv_lookup_vmap in Hk. rewrite kv_above_vmap, kv_vmap_length in Hroom.
  destruct (v_split_insert_spec k x v u Hv Hu) as (v' & u' & Hf & Hv' & Hu' & Ev & Eu); [|done|].
  { by destruct (kv_lookup k (v_elems u)). }
  exists v', u'. rewrite Ev, Eu, kv_below_vmap, kv_above_vmap. done.
Qed.

Lemma fills_steal_half kd el :
  fills kd v_steal_half el (take (length el / 2) el) (drop (length el / 2) el).
Proof.
  intros v u Hv Hu _ ->. destruct (v_steal_half_spec v u Hv Hu) as (v' & u' & Hf & Hv' & Hu' & Eu & Ev).
  exists v', u'. rewrite Ev, Eu, kv_vmap_take, kv_vmap_drop, kv_vmap_length. done.
Qed.

(** What an overfull node keeps. *)
Definition keeps el : nat := Datatypes.S (length el) - Datatypes.S (length el) / 2.

Lemma fills_half_insert kd k (x : elt V kd) el :
  kv_sorted el -> kv_lookup k el = None -> el <> [] ->
  fills kd (v_steal_half_and_insert k x) el
    (take (keeps el) (kv_insert k (wrap kd x) el)) (drop (keeps el) (kv_insert k (wrap kd x) el)).
Proof.
  intros Hs Hk Hne v u Hv Hu _ ->. rewrite kv_lookup_vmap in Hk.
  assert (Hk' : kv_lookup k (v_elems u) = None) by (by destruct (kv_lookup k (v_elems u))).
  destruct (v_steal_half_and_insert_spec k x v u Hv Hu) as (v' & u' & Hf & Hv' & Hu' & Ei & El); [done| |].
  { intros He. by rewrite He in Hne. }
  exists v', u'. split_and!; [done|done|done| |]; rewrite kv_insert_vmap, <- Ei; unfold keeps;
    rewrite kv_vmap_length; rewrite kv_vmap_app.
  - rewrite drop_app_length'; [done|]. rewrite kv_vmap_length.
    pose proof (f_equal length Ei) as Hl. rewrite length_app, (kv_insert_length k x) in Hl by (try done; by apply v_elems_sorted). lia.
  - rewrite take_app_length'; [done|]. rewrite kv_vmap_length.
    pose proof (f_equal length Ei) as Hl. rewrite length_app, (kv_insert_length k x) in Hl by (try done; by apply v_elems_sorted). lia.
Qed.

(** ** Splitting a node of a layer *)

Section Layer.
Context {n : nat} {l : list anode} {a : anode} {m : list anode} {k : Z}.
Context (Hlay : slayer n (l ++ a :: m)) (Hc : covers k l a m).

Lemma layer_sorted : kv_sorted (a_elems a).
Proof using Hlay. by apply (flat_parts l a m (sl_sorted _ _ Hlay)). Qed.

(** A node that is no orphan starts at or below the key it covers. *)
Lemma anchored_first : a_orphan a = false -> exists k0, kv_first (a_elems a) = Some k0 /\ k0 <= k.
Proof using Hlay Hc.
  intros Ho. destruct (slayer_cases _ _ _ _ Hlay) as [(_ & _ & Ht)|[Hne _]]; [congruence|].
  destruct (proj1 Hc) as [?|?]; [done|done].
Qed.

Lemma slayer_split q o st el1 el2 :
  (a_orphan a = false -> el1 <> []) -> (o = false -> el2 <> []) ->
  (length el1 <= cap vof n)%nat -> (length el2 <= cap vof n)%nat ->
  kv_sorted (flat l ++ el1 ++ el2 ++ flat m) ->
  slayer n (l ++ with_elems el1 a :: new_node (Heap q) o st el2 :: m).
Proof using Hlay.
  intros H1 H2 H3 H4 Hs.
  apply (slayer_replace n l a [] m (with_elems el1 a) [new_node (Heap q) o st el2]); try done.
  - pose proof (slayer_mid _ _ _ _ Hlay) as [G1 G2 G3]. constructor; [by split|].
    constructor; [|done]. by split.
  - by repeat constructor.
  - rewrite flat_cons, flat_cons. cbn. by rewrite app_nil_r, <- app_assoc.
Qed.

(** The entries left of the place of [k] are below it, the others above. *)
Lemma anchors_around :
  (forall e, e ∈ anchors l -> e.1 < k) /\ (forall e, e ∈ anchors m -> k < e.1).
Proof using Hlay Hc.
  split; intros e [x Hx]%anchors_flat.
  - exact (flat_starts_left l a m (sl_sorted _ _ Hlay) k (proj1 Hc) _ Hx).
  - exact (proj2 Hc _ Hx).
Qed.

Context (Habs : kv_lookup k (a_elems a) = None).

Lemma anchor_below : forall e, e ∈ anchors [a] -> e.1 < k.
Proof using Hlay Hc Habs.
  intros e (b & ->%list_elem_of_singleton & Ho & Hk & _)%elem_of_anchors.
  destruct (anchored_first Ho) as (k0 & Hk0 & Hle). assert (He1 : e.1 = k0) by congruence.
  apply kv_first_elem in Hk as (e0 & He0 & He). rewrite kv_lookup_None in Habs.
  specialize (Habs _ He0). lia.
Qed.

(** Splitting at a new key. *)
Lemma slayer_split_at q st v :
  (Datatypes.S (length (kv_above k (a_elems a))) <= cap vof n)%nat ->
  slayer n (l ++ with_elems (kv_below k (a_elems a)) a ::
              new_node (Heap q) false st ((k, v) :: kv_above k (a_elems a)) :: m).
Proof using Hlay Hc Habs.
  intros Hroom. pose proof (slayer_mid _ _ _ _ Hlay) as [G1 G2 G3].
  pose proof (flat_covers_insert _ _ _ (sl_sorted _ _ Hlay) k v Hc) as Hi.
  apply slayer_split; try done.
  - intros Ho He. destruct (anchored_first Ho) as (k0 & Hk0 & Hle).
    apply kv_first_elem in Hk0 as (e & He0 & <-). rewrite kv_lookup_None in Habs. specialize (Habs _ He0).
    assert (Hin : e ∈ kv_below k (a_elems a)) by (apply elem_of_kv_below; split; [lia|done]).
    rewrite He in Hin. by apply elem_of_nil in Hin.
  - etransitivity; [apply length_filter|done].
  - replace (flat l ++ _) with (kv_insert k v (flat (l ++ a :: m)));
      [apply kv_insert_sorted, (sl_sorted _ _ Hlay)|].
    rewrite Hi. unfold kv_insert. by rewrite <- !app_assoc.
Qed.

Lemma flat_split_at q st v :
  flat (l ++ with_elems (kv_below k (a_elems a)) a ::
          new_node (Heap q) false st ((k, v) :: kv_above k (a_elems a)) :: m) =
  kv_insert k v (flat (l ++ a :: m)).
Proof using Hlay Hc.
  rewrite (flat_covers_insert _ _ _ (sl_sorted _ _ Hlay) k v Hc), flat_mid, flat_cons.
  unfold kv_insert. cbn. by rewrite <- !app_assoc.
Qed.

Lemma anchors_split_at q st v :
  anchors (l ++ with_elems (kv_below k (a_elems a)) a ::
             new_node (Heap q) false st ((k, v) :: kv_above k (a_elems a)) :: m) =
  kv_insert k (VDown (Heap q)) (anchors (l ++ a :: m)).
Proof using Hlay Hc Habs.
  destruct anchors_around as [Hal Ham].
  change (l ++ a :: m) with (l ++ [a] ++ m). rewrite !anchors_app.
  change (with_elems ?e a :: ?b :: m) with ([with_elems e a] ++ [b] ++ m). rewrite !anchors_app.
  rewrite kv_insert_app_r by done. f_equal. rewrite kv_insert_app_r by apply anchor_below.
  rewrite <- (app_nil_l (anchors m)) at 2. rewrite kv_insert_app_l by done. f_equal.
  cbn. unfold anchor. cbn. destruct (a_orphan a) eqn:Ho; [done|].
  destruct (anchored_first Ho) as (k0 & Hk0 & Hle). rewrite Hk0.
  apply kv_first_Some in Hk0 as (x & el & He). rewrite kv_lookup_None in Habs. rewrite He in *.
  assert (k0 <> k) by (apply (Habs (k0, x)); left).
  unfold kv_below. rewrite filter_cons_True by (cbn; lia). done.
Qed.
End Layer.
End SvGrow.

(** * Placing a key in a node

    [make_room] halves a full leftmost node whose keys are all above the new
    one; [split_insert] then divides the node at the key; [node_insert] puts the
    key into a node, which it halves when it is full. *)
Import Thread.

Section SvPlace.
Context {V : Type} {vof : kind -> Type -> Type}.
Context `{HV : forall kd, VecOps (vof kd)} `{HS : forall kd, VecSpec (vof kd)}.
Context (layers ZCAP t : nat) (junk : forall kd, Z * elt V kd).

Local Abbreviation mem := (mem V unit (fun _ => chunk V vof)).
Local Abbreviation anode := (anode V (lock_state * Z)).
Local Abbreviation hpstate := (option (held ptr * list ptr)).
Local Abbreviation wp := (wp (V:=V) (vof:=vof) layers ZCAP t).
Local Abbreviation slayer := (slayer (V:=V) vof).
Implicit Types (a b c : anode) (l m L : list anode) (S : list (list anode)) (hp : hpstate).
Implicit Types (n N fuel : nat) (p : ptr) (k : Z) (kd : kind) (zs : list ptr) (o : bool).
Implicit Types (el : list (Z * value V)).

(** ** Room for a key *)

(** [a] may now be split at [k]; only nodes without anchors were added. *)
Record roomy n k l a m a1 m1 : Prop := {
  ro_layer : slayer n (l ++ a1 :: m1);
  ro_same : same (l ++ a :: m) (l ++ a1 :: m1);
  ro_ptr : a_ptr a1 = a_ptr a;
  ro_ext : a_ext a1 = a_ext a;
  ro_covers : covers k l a1 m1;
  ro_absent : kv_lookup k (a_elems a1) = None;
  ro_room : (Datatypes.S (length (kv_above k (a_elems a1))) <= cap vof n)%nat;
  ro_resting : resting m -> resting m1;
  ro_length : (length m1 <= Datatypes.S (length m))%nat;
}.

Section At.
Context {n : nat} {l : list anode} {a : anode} {m : list anode} {k : Z}.
Context (Hlay : slayer n (l ++ a :: m)) (Hc : covers k l a m) (Habs : kv_lookup k (a_elems a) = None).

(** A node that is not full has room, as has one that starts below the key. *)
Lemma roomy_same :
  ((length (a_elems a) < cap vof n)%nat \/ exists k0, kv_first (a_elems a) = Some k0 /\ k0 <= k) ->
  roomy n k l a m a m.
Proof using All.
  intros Hr. split; try done; [|lia]. pose proof (slayer_mid _ _ _ _ Hlay) as [_ G _].
  destruct Hr as [Hr|(k0 & Hk0 & Hle)].
  - pose proof (length_filter (fun e => k < e.1) (a_elems a)) as Hf. unfold kv_above. lia.
  - pose proof (kv_below_above k (a_elems a) (layer_sorted Hlay) Habs) as Hs.
    apply kv_first_elem in Hk0 as (e & He & <-). rewrite kv_lookup_None in Habs.
    specialize (Habs _ He). assert (Hin : e ∈ kv_below k (a_elems a)) by (apply elem_of_kv_below; split; [lia|done]).
    rewrite Hs, length_app in G. destruct (kv_below k (a_elems a)); [by apply elem_of_nil in Hin|]. cbn in G. lia.
Qed.

(** Halving the leftmost node. *)
Lemma roomy_half q k0 :
  length (a_elems a) = cap vof n -> kv_first (a_elems a) = Some k0 -> k < k0 ->
  roomy n k l a m (with_elems (take (cap vof n / 2) (a_elems a)) a)
    (new_node (Heap q) true Unlocked (drop (cap vof n / 2) (a_elems a)) :: m).
Proof using All.
  intros Hfull Hk0 Hlt. pose proof (v_capacity_pos (vec:=vof (kind_of n))) as Hpos.
  change (1 <= cap vof n)%nat in Hpos.
  assert (Hhalf : (cap vof n / 2 < cap vof n)%nat) by (apply Nat.div_lt; lia).
  assert (Hhead : l = [] /\ a_orphan a = true).
  { destruct (slayer_cases _ _ _ _ Hlay) as [(? & _ & ?)|[Hne _]]; [done|].
    destruct (proj1 Hc) as [?|(k1 & Hk1 & ?)]; [done|]. simplify_eq. lia. }
  destruct Hhead as [-> Ho]. pose proof (slayer_mid _ _ _ _ Hlay) as [_ G _].
  assert (Hnew : slayer n ([] ++ with_elems (take (cap vof n / 2) (a_elems a)) a ::
            new_node (Heap q) true Unlocked (drop (cap vof n / 2) (a_elems a)) :: m)).
  { apply (slayer_split Hlay); [by rewrite Ho|done|rewrite length_take; lia|rewrite length_drop; lia|].
    cbn. rewrite app_assoc, take_drop. exact (sl_sorted _ _ Hlay). }
  split; try done.
  - split.
    + cbn. by rewrite app_assoc, take_drop.
    + cbn. unfold anchor. cbn. by rewrite Ho.
  - split; [by left|]. intros e. rewrite flat_cons. intros [He|He]%elem_of_app; [|by apply Hc].
    cbn in He. apply list_elem_of_lookup in He as [i Hi]. rewrite lookup_drop in Hi.
    pose proof (kv_first_le _ k0 e (layer_sorted Hlay) Hk0 (list_elem_of_lookup_2 _ _ _ Hi)). lia.
  - cbn. rewrite kv_lookup_None in *. intros e He. apply Habs. apply list_elem_of_lookup in He as [i Hi].
    apply lookup_take_Some in Hi as [Hi _]. by eapply list_elem_of_lookup_2.
  - cbn [with_elems a_elems]. pose proof (length_filter (fun e => k < e.1) (take (cap vof n / 2) (a_elems a))) as Hf.
    rewrite length_take in Hf. unfold kv_above. lia.
  - intros Hr. by constructor.
Qed.
End At.

Lemma wp_make_room S hp n k l a m Q :
  S !! n = Some (l ++ a :: m) -> covers k l a m -> kv_lookup k (a_elems a) = None ->
  (forall a1 m1, roomy n k l a m a1 m1 -> Q tt (<[n := l ++ a1 :: m1]> S) hp) ->
  wp (make_room junk (kind_of n) (a_ptr a) k) S hp Q.
Proof.
  intros Hl Hc Habs HQ. apply wp_okay. intros Hok. pose proof (ok_layer _ _ _ Hok _ _ Hl) as Hlay.
  pose proof (slayer_mid _ _ _ _ Hlay) as [_ G _]. unfold make_room.
  assert (Hsame : roomy n k l a m a m -> wp (Ret tt) S hp Q).
  { intros Hr. apply wp_ret. rewrite <- (list_insert_id S n _ Hl). by apply HQ. }
  apply wp_bind, (wp_get_size layers ZCAP t Hl eq_refl). change (v_capacity (vof (kind_of n))) with (cap vof n).
  destruct (Nat.eqb_spec (length (a_elems a)) (cap vof n)) as [Hfull|Hroom].
  2: { apply Hsame, roomy_same; try done. left. lia. }
  pose proof (v_capacity_pos (vec:=vof (kind_of n))) as Hpos. change (1 <= cap vof n)%nat in Hpos.
  assert (Hne : a_elems a <> []) by (intros He; rewrite He in Hfull; cbn in Hfull; lia).
  destruct (kv_first_nonempty _ Hne) as [k0 Hk0].
  apply wp_bind, (wp_first layers ZCAP t Hl eq_refl _ _ Hk0). destruct (Z.ltb_spec k k0) as [Hlt|Hge].
  2: { apply Hsame, roomy_same; try done. right. eauto. }
  apply wp_tail, wp_assoc. pose proof (roomy_half Hlay Hc Habs) as Hh.
  apply (wp_new_filled layers ZCAP t junk Hl _ _ _ _ true (fun _ => Ret tt) _ eq_refl (fills_steal_half _ _)).
  - intros q _. rewrite Hfull. by eapply ro_layer, Hh.
  - intros q. rewrite Hfull. apply wp_ret, HQ. by eapply Hh.
Qed.
(** ** Inserting into a node *)

(** [a] received [k] with the value [v]; an orphan may have been added. *)
Record placed n k v l a m a1 m1 : Prop := {
  pl_layer : slayer n (l ++ a1 :: m1);
  pl_flat : flat (l ++ a1 :: m1) = kv_insert k v (flat (l ++ a :: m));
  pl_anchors : anchors (l ++ a1 :: m1) = anchors (l ++ a :: m);
  pl_ptr : a_ptr a1 = a_ptr a;
  pl_ext : a_ext a1 = a_ext a;
  pl_resting : resting m -> resting m1;
  pl_length : (length m1 <= Datatypes.S (length m))%nat;
}.

Section Insert.
Context {n : nat} {l : list anode} {a : anode} {m : list anode} {k : Z} (v : value V).
Context (Hlay : slayer n (l ++ a :: m)) (Hc : covers k l a m) (Habs : kv_lookup k (a_elems a) = None).

(** Its first key is the same, unless the node is an orphan. *)
Lemma insert_first :
  a_orphan a = false -> kv_first (kv_insert k v (a_elems a)) = kv_first (a_elems a).
Proof using All.
  intros Ho. destruct (anchored_first Hlay Hc Ho) as (k0 & Hk0 & Hle). rewrite Hk0.
  rewrite <- (kv_add_absent k v _ Habs). by apply kv_add_first; [apply (layer_sorted Hlay)|done|done].
Qed.

Lemma anchors_same_first el (news : list anode) :
  (a_orphan a = false -> kv_first el = kv_first (a_elems a)) -> Forall (fun b => a_orphan b = true) news ->
  anchors (l ++ with_elems el a :: news ++ m) = anchors (l ++ a :: m).
Proof.
  intros Hf Hn. change (with_elems el a :: news ++ m) with ([with_elems el a] ++ news ++ m).
  change (a :: m) with ([a] ++ m). rewrite !anchors_app.
  assert (anchors news = []) as ->.
  { clear -Hn. induction Hn as [|b news Hb _ IH]; [done|]. by rewrite anchors_orphan. }
  f_equal. cbn. unfold anchor. cbn. destruct (a_orphan a); [done|]. by rewrite Hf.
Qed.

Lemma placed_room :
  (length (a_elems a) < cap vof n)%nat ->
  placed n k v l a m (with_elems (kv_insert k v (a_elems a)) a) m.
Proof using All.
  intros Hroom. pose proof (slayer_mid _ _ _ _ Hlay) as [G1 G2 G3].
  pose proof (flat_covers_insert _ _ _ (sl_sorted _ _ Hlay) k v Hc) as Hi.
  split; try done; [|by rewrite flat_mid|by apply (anchors_same_first _ [] insert_first)|lia].
  apply (slayer_replace n l a [] m (with_elems (kv_insert k v (a_elems a)) a) []); try done.
  - constructor; [|done]. split; [|cbn|done].
    + intros _. cbn. rewrite <- (kv_add_absent k v _ Habs). apply kv_add_nonempty.
    + rewrite kv_insert_length; [lia|apply (layer_sorted Hlay)|done].
  - cbn. rewrite app_nil_r. rewrite <- Hi. apply kv_insert_sorted, (sl_sorted _ _ Hlay).
Qed.

Lemma placed_split q :
  length (a_elems a) = cap vof n ->
  placed n k v l a m (with_elems (take (keeps (a_elems a)) (kv_insert k v (a_elems a))) a)
    (new_node (Heap q) true Unlocked (drop (keeps (a_elems a)) (kv_insert k v (a_elems a))) :: m).
Proof using All.
  intros Hfull. pose proof (v_capacity_pos (vec:=vof (kind_of n))) as Hpos.
  change (1 <= cap vof n)%nat in Hpos.
  pose proof (flat_covers_insert _ _ _ (sl_sorted _ _ Hlay) k v Hc) as Hi.
  pose proof (kv_insert_length k v (a_elems a) (layer_sorted Hlay) Habs) as Hlen.
  pose proof insert_first as Hfirst. set (ins := kv_insert k v (a_elems a)) in *.
  assert (Hk : (1 <= keeps (a_elems a) <= cap vof n)%nat).
  { unfold keeps. rewrite Hfull. pose proof (Nat.div_lt (Datatypes.S (cap vof n)) 2). 
    pose proof (Nat.div_le_lower_bound (Datatypes.S (cap vof n)) 2 1). lia. }
  assert (Htake : kv_first (take (keeps (a_elems a)) ins) = kv_first ins).
  { destruct ins; [by rewrite take_nil|]. by destruct (keeps (a_elems a)); [lia|]. }
  split; try done.
  - apply (slayer_split Hlay); [|done| | |].
    + intros _ He. rewrite He in Htake. destruct ins; [cbn in Hlen; lia|done].
    + rewrite length_take. lia.
    + rewrite length_drop, Hlen. unfold keeps. pose proof (Nat.Div0.div_le_upper_bound (Datatypes.S (length (a_elems a))) 2 (cap vof n)). lia.
    + rewrite (app_assoc (take _ _)), take_drop, <- Hi. apply kv_insert_sorted, (sl_sorted _ _ Hlay).
  - rewrite flat_mid, flat_cons. cbn. by rewrite (app_assoc (take _ _)), take_drop, <- Hi.
  - apply (anchors_same_first _ [_]); [|by repeat constructor].
    intros Ho. by rewrite Htake, Hfirst.
  - intros Hr. by constructor.
Qed.
End Insert.

(** [insert(pair)] on a node that covers the key. *)
Lemma wp_node_insert S hp n kd k (x : elt V kd) l a m Q :
  S !! n = Some (l ++ a :: m) -> kind_of n = kd -> covers k l a m ->
  (is_Some (kv_lookup k (a_elems a)) -> Q false S hp) ->
  (forall a1 m1, kv_lookup k (a_elems a) = None -> placed n k (wrap kd x) l a m a1 m1 ->
     Q true (<[n := l ++ a1 :: m1]> S) hp) ->
  wp (node_insert junk kd (a_ptr a) k x) S hp Q.
Proof.
  intros Hl <- Hc HF HT. apply wp_okay. intros Hok. pose proof (ok_layer _ _ _ Hok _ _ Hl) as Hlay.
  pose proof (slayer_mid _ _ _ _ Hlay) as [G1 G2 G3]. unfold node_insert.
  pose proof (v_capacity_pos (vec:=vof (kind_of n))) as Hpos. change (1 <= cap vof n)%nat in Hpos.
  destruct (kv_lookup k (a_elems a)) as [y|] eqn:Hk.
  { apply wp_bind, (wp_vupd Hl _ _ (false, false) (a_elems a) _ eq_refl).
    - intros v Hv He. rewrite He, kv_lookup_vmap in Hk.
      destruct (kv_lookup k (v_elems v)) as [y'|] eqn:Hy; [|done].
      exists v. by rewrite (v_insert_present k x y' v Hv Hy).
    - assert (with_elems (a_elems a) a = a) as -> by (by destruct a). done.
    - assert (with_elems (a_elems a) a = a) as -> by (by destruct a). rewrite list_insert_id by done.
      apply wp_ret. eauto. }
  assert (Hv0 : forall v : vof (kind_of n) (elt V (kind_of n)), a_elems a = kv_vmap (wrap _) (v_elems v) ->
            kv_lookup k (v_elems v) = None).
  { intros v He. rewrite He, kv_lookup_vmap in Hk. by destruct (kv_lookup k (v_elems v)). }
  destruct (decide (length (a_elems a) < cap vof n)%nat) as [Hroom|Hfull].
  - pose proof (placed_room (wrap _ x) Hlay Hc Hk Hroom) as Hp.
    apply wp_bind, (wp_vupd Hl _ _ (true, false) (kv_insert k (wrap _ x) (a_elems a)) _ eq_refl).
    + intros v Hv He. destruct (v_insert_room k x v Hv (Hv0 v He)) as (v' & Hf & Hv' & Ev).
      { rewrite He, kv_vmap_length in Hroom. exact Hroom. }
      exists v'. by rewrite Hf, Ev, He, kv_insert_vmap.
    + apply Hp.
    + apply wp_ret. by apply HT.
  - assert (Hfull' : length (a_elems a) = cap vof n) by lia.
    apply wp_bind, (wp_vupd Hl _ _ (false, true) (a_elems a) _ eq_refl).
    + intros v Hv He. exists v. rewrite (v_insert_full k x v Hv (Hv0 v He)); [done|].
      rewrite He, kv_vmap_length in Hfull'. exact Hfull'.
    + assert (with_elems (a_elems a) a = a) as -> by (by destruct a). done.
    + assert (with_elems (a_elems a) a = a) as -> by (by destruct a). rewrite list_insert_id by done.
      assert (Hne : a_elems a <> []) by (intros He; rewrite He in Hfull'; cbn in Hfull'; lia).
      apply (wp_new_filled layers ZCAP t junk Hl _ _ _ _ true (fun _ => Ret true) _ eq_refl
               (fills_half_insert _ k x _ (layer_sorted Hlay) Hk Hne)).
      * intros q _. by apply placed_split.
      * intros q. apply wp_ret, HT; [done|]. by apply placed_split.
Qed.

(** ** Splitting at a new key *)

(** [a] was divided at [k]: [k] is in the new node [b], with the value [v]. *)
Record divided k v l a m a' b m' : Prop := {
  dv_flat : flat (l ++ a' :: b :: m') = kv_insert k v (flat (l ++ a :: m));
  dv_anchors : anchors (l ++ a' :: b :: m') = kv_insert k (VDown (a_ptr b)) (anchors (l ++ a :: m));
  dv_ptr : a_ptr a' = a_ptr a;
  dv_ext : a_ext a' = a_ext a;
  dv_orphan : a_orphan b = false;
  dv_resting : resting m -> resting m';
  dv_length : (length m' <= Datatypes.S (length m))%nat;
}.

Lemma roomy_divided n k v l a m a1 m1 q st :
  roomy n k l a m a1 m1 ->
  divided k v l a m (with_elems (kv_below k (a_elems a1)) a1)
    (new_node (Heap q) false st ((k, v) :: kv_above k (a_elems a1))) m1.
Proof.
  intros [R1 [R2 R2'] R3 R4 R5 R6 R7 R8 R9]. split; try done.
  - by rewrite (flat_split_at R1 R5), R2.
  - by rewrite (anchors_split_at R1 R5 R6), R2'.
Qed.

Section Divide.
Context {S : list (list anode)} {hp : hpstate} {n : nat} {l : list anode} {a : anode} {m : list anode} {k : Z}.
Context (Hl : S !! n = Some (l ++ a :: m)) (Hc : covers k l a m) (Habs : kv_lookup k (a_elems a) = None).

Lemma wp_divide {A} kd (x : elt V kd) (K : ptr -> mem A) Q :
  kind_of n = kd ->
  (forall a' b m', divided k (wrap kd x) l a m a' b m' -> unlocked b ->
     wp (K (a_ptr b)) (<[n := l ++ a' :: b :: m']> S) hp Q) ->
  wp (make_room junk kd (a_ptr a) k ;;;
      let* new := node_new junk kd (a_ptr a) false in
      vsteal kd new (a_ptr a) (v_split_insert k x) ;;; K new) S hp Q.
Proof using Hl Hc Habs.
  intros <- HK. apply wp_bind, (wp_make_room _ _ n k l a m); try done. intros a1 m1 Hr.
  pose proof (lookup_lt_Some _ _ _ Hl) as Hlt.
  assert (Hl1 : <[n := l ++ a1 :: m1]> S !! n = Some (l ++ a1 :: m1)) by (by apply list_lookup_insert_eq).
  rewrite <- (ro_ptr _ _ _ _ _ _ _ Hr).
  apply (wp_new_filled layers ZCAP t junk Hl1 _ _ _ _ false _ _ eq_refl
           (fills_split_insert _ k x _ (ro_absent _ _ _ _ _ _ _ Hr) (ro_room _ _ _ _ _ _ _ Hr))).
  - intros q Hlay. by apply (slayer_split_at Hlay); apply Hr.
  - intros q. rewrite list_insert_insert_eq. by apply (HK _ (new_node (Heap q) _ _ _)); [apply (roomy_divided n)|].
Qed.

Lemma wp_divide_locked {A} fuel kd (x : elt V kd) (K : ptr -> mem A) Q :
  kind_of n = kd ->
  (forall a' b m', divided k (wrap kd x) l a m a' b m' -> state_of b = Locked ->
     wp (K (a_ptr b)) (<[n := l ++ a' :: b :: m']> S) hp Q) ->
  wp (make_room junk kd (a_ptr a) k ;;;
      let* new := node_new junk kd (a_ptr a) false in
      lock_acquire (Datatypes.S fuel) new ;;;
      vsteal kd new (a_ptr a) (v_split_insert k x) ;;; K new) S hp Q.
Proof using Hl Hc Habs.
  intros <- HK. apply wp_bind, (wp_make_room _ _ n k l a m); try done. intros a1 m1 Hr.
  pose proof (lookup_lt_Some _ _ _ Hl) as Hlt.
  assert (Hl1 : <[n := l ++ a1 :: m1]> S !! n = Some (l ++ a1 :: m1)) by (by apply list_lookup_insert_eq).
  rewrite <- (ro_ptr _ _ _ _ _ _ _ Hr).
  apply (wp_new_locked layers ZCAP t junk Hl1 fuel _ _ _ _ false _ _ eq_refl
           (fills_split_insert _ k x _ (ro_absent _ _ _ _ _ _ _ Hr) (ro_room _ _ _ _ _ _ _ Hr))).
  - intros q Hlay. by apply (slayer_split_at Hlay); apply Hr.
  - intros q. rewrite list_insert_insert_eq. by apply (HK _ (new_node (Heap q) _ _ _)); [apply (roomy_divided n)|].
Qed.
End Divide.

(** Releasing a lock changes neither entries nor anchors. *)
Lemma bump_flat l a m : flat (l ++ bump a :: m) = flat (l ++ a :: m).
Proof. by rewrite !flat_mid. Qed.

Lemma bump_anchors l a m : anchors (l ++ bump a :: m) = anchors (l ++ a :: m).
Proof. rewrite bump_with_lock. by apply same_lock. Qed.

(** The new node is released. *)
Lemma divided_bump k v l a m a' b m' : divided k v l a m a' b m' -> divided k v l a m a' (bump b) m'.
Proof.
  intros [D1 D2 D3 D4 D5 D6 D7]. split; try done.
  - rewrite (app_assoc l [a'] (bump b :: m') : l ++ a' :: bump b :: m' = _), bump_flat, <- app_assoc. exact D1.
  - rewrite (app_assoc l [a'] (bump b :: m') : l ++ a' :: bump b :: m' = _), bump_anchors, <- app_assoc. exact D2.
Qed.
End SvPlace.
