(* ===== verification/SvFreeze.v ===== *)
(** * SvFreeze: the descent of an insertion

    An insertion of height [h] freezes the node that covers the key in each of
    the lowest [h] index layers on its way down, and remembers it in
    [frozen_nodes].  When it meets the key, it thaws what it froze.  The second part
    is the abstract state of an insertion on its way up. *)

From Stdlib Require Import QArith.
From S2P Require Import Prelude KvList Prog SvLock VecSpec HazardPtr World Layers Heap SvNode SvOps.
From S2P Require Import SvLayers SvMem SvWp SvWalk SvDescend SvGrow.

Local Open Scope Z_scope.
Import Thread.

(** ** Frozen layers *)

Section Frozen.
Context {V : Type} {vof : kind -> Type -> Type} `{HV : forall kd, VecOps (vof kd)}.
Context (layers : nat) (st : lock_state).

Local Abbreviation anode := (anode V (lock_state * Z)).
Implicit Types (a b c : anode) (l m L : list anode) (S : list (list anode)) (i n h N lv : nat) (k : Z) (p : ptr).
Implicit Types (d : list (Z * V)) (nodes : list (option ptr)).

(** The node that covers [k] in index layer [i] is at [p], in the state [st]:
    [insert] freezes it, [insert_seq] leaves it unlocked. *)
Definition frozen_at k S i p : Prop :=
  exists l c m, S !! Datatypes.S i = Some (l ++ c :: m) /\ p = a_ptr c /\ state_of c = st /\
    resting (l ++ m) /\ covers k l c m.

(** The lock states while index layers [lv] to [h - 1] are frozen. *)
Record iced k h lv S nodes : Prop := {
  ic_resting n l : S !! n = Some l -> (n <= lv \/ h < n)%nat -> resting l;
  ic_frozen i : (lv <= i < h)%nat -> exists p, nodes !! i = Some (Some p) /\ frozen_at k S i p;
}.

Record content N S d : Prop := {
  ct_linked : linked layers S;
  ct_holds : holds S d;
  ct_sized n l : S !! n = Some l -> (length l <= N)%nat;
}.

Lemma ready_content N S d : ready layers N S d -> content N S d.
Proof. by intros [H1 H2 H3 H4]. Qed.

Lemma iced_all N S d k h lv nodes : content N S d -> iced k h lv S nodes -> (h <= lv)%nat -> ready layers N S d.
Proof. intros [H1 H2 H3] [H4 _] Hle. split; try done. intros n l Hl. apply (H4 n); [done|lia]. Qed.

Lemma ready_iced N S d k h lv nodes : ready layers N S d -> (h <= lv)%nat -> iced k h lv S nodes.
Proof. intros H Hle. split; [intros n l Hl _; by eapply rd_resting|lia]. Qed.

(** A layer is rearranged. *)
Lemma content_same N S d n L l' :
  content N S d -> S !! n = Some L -> same L l' -> (length l' <= N)%nat -> content N (<[n := l']> S) d.
Proof.
  intros [H1 H2 H3] HL Hs Hn. split; [by eapply linked_same|by eapply holds_same|].
  intros i l [(-> & -> & _)|[_ Hi]]%list_lookup_insert_Some; eauto.
Qed.

Lemma frozen_other k S i p n l' : n <> Datatypes.S i -> frozen_at k S i p -> frozen_at k (<[n := l']> S) i p.
Proof. intros Hn (l & c & m & Hl & H). exists l, c, m. by rewrite list_lookup_insert_ne. Qed.

(** A layer that is not frozen changes to another. *)
Lemma iced_resting k h lv S nodes n l' :
  iced k h lv S nodes -> (n <= lv \/ h < n)%nat -> resting l' -> iced k h lv (<[n := l']> S) nodes.
Proof.
  intros [H1 H2] Hn Hr. split.
  - intros i l [(-> & -> & _)|[_ Hi]]%list_lookup_insert_Some; [done|by apply (H1 i)].
  - intros i Hi. destruct (H2 i Hi) as (p & Hp & Hf). exists p. split; [done|]. apply frozen_other; [lia|done].
Qed.

(** The descent leaves a layer: frozen, when the insertion is high enough. *)
Lemma iced_freeze k h lv S nodes l c m :
  iced k h (Datatypes.S lv) S nodes -> S !! Datatypes.S lv = Some (l ++ c :: m) -> covers k l c m ->
  (lv < h)%nat -> (lv < length nodes)%nat ->
  iced k h lv (<[Datatypes.S lv := l ++ set_state st c :: m]> S) (<[lv := Some (a_ptr c)]> nodes).
Proof.
  intros [H1 H2] Hl Hc Hh Hlen. split.
  - intros i u [(<- & <- & _)|[_ Hi]]%list_lookup_insert_Some Hr; [lia|]. apply (H1 i); [done|lia].
  - intros i Hi. destruct (decide (i = lv)) as [->|Hne].
    + exists (a_ptr c). rewrite list_lookup_insert_eq by done. split; [done|].
      exists l, (set_state st c), m. rewrite list_lookup_insert_eq by (by eapply lookup_lt_Some).
      split_and!; try done. assert (Hr : resting (l ++ c :: m)) by (apply (H1 _ _ Hl); lia).
      unfold resting in *. rewrite Forall_app, Forall_cons in Hr. apply Forall_app. tauto.
    + destruct (H2 i) as (p & Hp & Hf); [lia|]. exists p. rewrite list_lookup_insert_ne by done.
      split; [done|]. apply frozen_other; [lia|done].
Qed.

Lemma iced_pass k h lv S nodes : iced k h (Datatypes.S lv) S nodes -> (h <= lv)%nat -> iced k h lv S nodes.
Proof. intros [H1 H2] Hle. split; [intros n l Hl Hr; apply (H1 n); [done|lia]|lia]. Qed.

(** A layer thaws, or its update is over. *)
Lemma iced_thaw k h lv S nodes l' :
  iced k h lv S nodes -> (lv < h)%nat -> resting l' -> iced k h (Datatypes.S lv) (<[Datatypes.S lv := l']> S) nodes.
Proof.
  intros [H1 H2] Hh Hr. split.
  - intros i l [(<- & <- & _)|[Hne Hi]]%list_lookup_insert_Some Hor; [done|]. apply (H1 i); [done|lia].
  - intros i Hi. destruct (H2 i) as (p & Hp & Hf); [lia|]. exists p. split; [done|]. apply frozen_other; [lia|done].
Qed.

(** A key that the map lacks is in no layer. *)
Lemma absent_everywhere S d k n l :
  linked layers S -> holds S d -> kv_lookup k d = None -> S !! n = Some l -> kv_lookup k (flat l) = None.
Proof.
  intros Hlk (L & HL & Hd) Hk. revert l. induction n as [|n IH]; intros l Hl.
  { simplify_eq. rewrite Hd, kv_lookup_vmap. by rewrite Hk. }
  destruct (lookup_lt_is_Some_2 S n) as [u Hu]; [apply lookup_lt_Some in Hl; lia|].
  rewrite (lk_link _ _ Hlk _ _ _ Hu Hl). specialize (IH u Hu). rewrite kv_lookup_None in *.
  intros e [x Hx]%anchors_flat. exact (IH _ Hx).
Qed.

(** With nothing frozen, all layers are at rest. *)
Lemma iced_unlocked N S d k h lv nodes :
  st = Unlocked -> content N S d -> iced k h lv S nodes -> ready layers N S d.
Proof.
  intros Hst [H1 H2 H3] [H4 H5]. split; try done. intros n l Hl.
  destruct (decide (n <= lv \/ h < n)%nat) as [Hr|Hn]; [by apply (H4 n)|].
  destruct (H5 (n - 1)%nat) as (p & _ & l1 & c & l2 & Hl' & _ & Hs & Hr & _); [lia|].
  replace (Datatypes.S (n - 1)) with n in Hl' by lia. simplify_eq.
  apply Forall_app in Hr as [? ?]. apply Forall_app. split; [done|]. constructor; [|done]. unfold unlocked. congruence.
Qed.
End Frozen.

(** ** The descent *)

Section SvFreeze.
Context {V : Type} {vof : kind -> Type -> Type}.
Context `{HV : forall kd, VecOps (vof kd)} `{HS : forall kd, VecSpec (vof kd)}.
Context (EXP : kind -> Z) (MAX_LAYERS layers ZCAP t : nat) (merge_threshold : Q).
Context (Hthreshold : forall kd n, (0 < EXP kd) ->
  Qle_bool (merge_threshold * inject_Z (2 ^ EXP kd)) (inject_Z (Z.of_nat n)) = false ->
  (n <= v_capacity (vof kd))%nat).
Context (Hzcap : (1 <= ZCAP)%nat) (Hpos : (0 < layers)%nat) (Hmax : (layers <= MAX_LAYERS)%nat).

Local Abbreviation mem := (mem V unit (fun _ => chunk V vof)).
Local Abbreviation anode := (anode V (lock_state * Z)).
Local Abbreviation hpstate := (option (held ptr * list ptr)).
Local Abbreviation wp := (wp (V:=V) (vof:=vof) layers ZCAP t).
Local Abbreviation content := (content (V:=V) layers).
Local Abbreviation ready := (ready (V:=V) layers).
Local Abbreviation iced := (iced (V:=V) Frozen).
Implicit Types (a b c : anode) (l m L : list anode) (S : list (list anode)) (hp : hpstate).
Implicit Types (n i h N fuel : nat) (p : ptr) (k : Z) (kd : kind) (zs : list ptr) (d : list (Z * V)).
Implicit Types (nodes : list (option ptr)) (s : istate).

Lemma wp_node_at nodes i p S hp Q :
  nodes !! i = Some (Some p) -> Q p S hp -> wp (node_at nodes i) S hp Q.
Proof. intros Hi. apply wp_lift_opt. by rewrite Hi. Qed.

(** Thawing what is frozen ends with layers at rest; the data layer is left
    alone, whatever [L0] it is. *)
Lemma wp_thaw_nodes_above L0 N d k h nodes n : forall lv S hp Q,
  content N S d -> iced k h lv S nodes -> (lv + n = h)%nat ->
  (forall S', ready N S' d -> S' !! 0%nat = S !! 0%nat -> Q tt (<[0%nat := L0]> S') hp) ->
  wp (thaw_nodes nodes lv n) (<[0%nat := L0]> S) hp Q.
Proof.
  induction n as [|n IH]; intros lv S hp Q Hct Hic Hn HQ; cbn [thaw_nodes].
  { apply wp_ret, HQ; [|done]. eapply iced_all; [done|exact Hic|lia]. }
  destruct (ic_frozen _ _ _ _ _ _ Hic lv) as (p & Hp & l & c & m & Hl & -> & Hst & Hr & Hc); [lia|].
  assert (Hl0 : <[0%nat := L0]> S !! Datatypes.S lv = Some (l ++ c :: m)) by (by rewrite list_lookup_insert_ne).
  apply wp_bind, (wp_node_at _ _ _ _ _ _ Hp). apply wp_bind, (wp_thaw Hl0 _ Hst).
  assert (Hr' : resting (l ++ set_state Unlocked c :: m)).
  { unfold resting in *. rewrite Forall_app in *. rewrite Forall_cons. split_and!; [tauto|done|tauto]. }
  rewrite list_insert_insert_ne by done. apply IH; [|apply iced_thaw; [done|lia|done]|lia|].
  - pose proof (ct_sized _ _ _ _ Hct _ _ Hl) as Hs. eapply content_same; [done|done| |].
    + rewrite set_state_with_lock. by apply same_lock.
    + by rewrite length_app in *.
  - intros S' Hrd He. apply HQ; [done|]. rewrite He. by rewrite list_lookup_insert_ne.
Qed.

Lemma wp_thaw_nodes N d k h nodes n lv S hp Q :
  content N S d -> iced k h lv S nodes -> (lv + n = h)%nat ->
  (forall S', ready N S' d -> Q tt S' hp) -> wp (thaw_nodes nodes lv n) S hp Q.
Proof.
  intros Hct Hic Hn HQ. destruct (ct_holds _ _ _ _ Hct) as (L0 & HL0 & _).
  rewrite <- (list_insert_id S 0 L0 HL0). eapply wp_thaw_nodes_above; [done|done|done|].
  intros S' Hrd He. rewrite list_insert_id by congruence. by apply HQ.
Qed.

Lemma wp_down_target n found S hp Q :
  (n <= layers)%nat -> Q (down_from n found) S hp -> wp (down_target MAX_LAYERS n found) S hp Q.
Proof using All.
  intros Hn HQ. destruct found as [[k' p]|]; [by apply wp_ret|].
  destruct n as [|n]; [by apply wp_ret|]. apply wp_index_head; [lia|done].
Qed.

(** The state of the descent of [insert]. *)
Record descending N d k h S hp s : Prop := {
  dg_content : content N S d;
  dg_iced : iced k h (i_level s) S (i_frozen s);
  dg_nodes : length (i_frozen s) = MAX_LAYERS;
  dg_load : i_load s = false;
  dg_level : (i_level s <= layers)%nat;
  dg_stands : stands k (i_level s) S hp (match i_level s with O => i_dl s | _ => i_curr s end) (i_lock s);
}.

(** Going down from the node [a] that covers [k], frozen or not. *)
Lemma wp_insert_down N d k h n S l a m zs s Q :
  content N S d -> iced k h n S (i_frozen s) -> length (i_frozen s) = MAX_LAYERS ->
  S !! Datatypes.S n = Some (l ++ a :: m) -> covers k l a m -> (n < layers)%nat ->
  i_curr s = a_ptr a -> (~ (n < h)%nat -> unlocked a /\ i_lock s = word a) ->
  (forall s' hp', descending N d k h S hp' s' -> i_level s' = n -> Q (INext s') S hp') ->
  wp (insert_down MAX_LAYERS n h s (lookup_down k a)) S (Some (HCurr (a_ptr a), zs)) Q.
Proof using All.
  intros Hct Hic Hnodes Hl Hc Hn Hcurr Hu HQ. apply wp_okay. intros Hok. unfold insert_down.
  apply wp_bind, wp_down_target; [lia|].
  destruct (lookup_lt_is_Some_2 S n) as [L HL]; [apply lookup_lt_Some in Hl; lia|].
  destruct (covers_down layers S n k L l a m (ct_linked _ _ _ _ Hct) HL (ok_layer _ _ _ Hok _ _ HL) Hl
              (ok_layer _ _ _ Hok _ _ Hl) Hc) as (l1 & b & l2 & -> & Hst & Hp & _).
  rewrite <- Hp. cbv zeta.
  assert (Hb : unlocked b).
  { pose proof (ic_resting _ _ _ _ _ _ Hic _ _ HL) as Hr. unfold resting in Hr.
    rewrite Forall_app, Forall_cons in Hr. apply Hr. lia. }
  assert (Hgo : forall s' zs', i_level s' = n -> i_frozen s' = i_frozen s -> i_load s' = false ->
            (match n with O => i_dl s' | _ => i_curr s' end) = a_ptr b -> i_lock s' = word b ->
            Q (INext s') S (Some (HCurr (a_ptr b), zs'))).
  { intros s' zs' E1 E2 E3 E4 E5. apply HQ; [|done]. split; rewrite ?E1, ?E2; try done; [lia|].
    rewrite E4, E5. by exists l1, b, l2, zs'. }
  destruct (Nat.ltb_spec n h) as [Hh|Hh].
  - apply wp_bind, wp_take_next. apply wp_bind, wp_drop_curr_both. apply wp_bind, (wp_begin_read HL _ Hb).
    apply wp_ret, Hgo; try done; by destruct n.
  - destruct Hu as [Hu Hlock]; [lia|]. rewrite Hcurr, Hlock.
    apply wp_bind, (wp_reader_swap layers ZCAP t _ _ _ _ _ _ _ _ _ _ _ Hl HL); [done|done|].
    cbn [negb]. apply wp_ret, Hgo; try done; by destruct n.
Qed.
(** What a round, or the whole descent, ends with. *)
Definition round_post N d k h n r S hp : Prop :=
  match r with
  | INext s => descending N d k h S hp s /\ i_level s = n
  | ITop _ => False
  | IReturn b => b = false /\ ready N S d /\ is_Some (kv_lookup k d) /\ exists zs, hp = Some (HNone, zs)
  end.

(** [k] was found in a layer: the map holds it. *)
Lemma found_holds S d k n l a m k' p :
  linked layers S -> holds S d -> S !! Datatypes.S n = Some (l ++ a :: m) ->
  lookup_down k a = Some (k', p) -> k' = k -> is_Some (kv_lookup k d).
Proof.
  intros Hlk Hd Hl Hlook ->. destruct (kv_lookup k d) eqn:Hk; [done|exfalso].
  pose proof (absent_everywhere layers S d k _ _ Hlk Hd Hk Hl) as Habs. rewrite kv_lookup_None in Habs.
  unfold lookup_down in Hlook. destruct (kv_lte k (a_elems a)) as [[k0 x]|] eqn:He; [|done]. cbn in Hlook.
  destruct x as [x|q]; [done|]. cbn in Hlook. simplify_eq. apply kv_lte_elem in He as [Hin _].
  apply (Habs (k, VDown p)); [|done]. apply elem_of_flat. exists a. split; [|done].
  apply elem_of_app. right. left.
Qed.

(** The rest of a round, from the node that covers [k]. *)
Lemma wp_insert_choose N d k h n S l a m zs s w (again : iresult) :
  content N S d -> iced k h n S (i_frozen s) -> length (i_frozen s) = MAX_LAYERS ->
  S !! Datatypes.S n = Some (l ++ a :: m) -> covers k l a m -> (n < layers)%nat ->
  i_curr s = a_ptr a -> i_lock s = w -> (~ (n < h)%nat -> unlocked a /\ w = word a) ->
  wp (let* found := vget INDEX (a_ptr a) (v_find_lte k) in
      match found with
      | Some (found_k, _) =>
          if found_k =? k then
            if (n <? h)%nat then thaw_nodes (i_frozen s) n (h - n) ;;; hp_drop_curr ;;; Ret (IReturn false)
            else
              let* ok := confirm (a_ptr a) w in
              if negb ok then Ret again else hp_drop_curr ;;; Ret (IReturn false)
          else insert_down MAX_LAYERS n h s found
      | None => insert_down MAX_LAYERS n h s None
      end) S (Some (HCurr (a_ptr a), zs)) (round_post N d k h n).
Proof using All.
  intros Hct Hic Hnodes Hl Hc Hn Hcurr Hw Hu.
  apply wp_bind, (wp_lookup_down layers ZCAP t _ _ _ _ _ _ _ _ Hl).
  assert (Hgo : wp (insert_down MAX_LAYERS n h s (lookup_down k a)) S (Some (HCurr (a_ptr a), zs)) (round_post N d k h n)).
  { apply (wp_insert_down N d k h n S l a m zs s); try done. by rewrite Hw. }
  destruct (lookup_down k a) as [[k' p]|] eqn:Hlook; [|exact Hgo].
  destruct (Z.eqb_spec k' k) as [->|Hne]; [|exact Hgo].
  pose proof (found_holds S d k n l a m k p (ct_linked _ _ _ _ Hct) (ct_holds _ _ _ _ Hct) Hl Hlook eq_refl) as Hk.
  destruct (Nat.ltb_spec n h) as [Hh|Hh].
  - apply wp_bind, (wp_thaw_nodes N d k h _ (h - n) n); [exact Hct|exact Hic|lia|]. intros S' Hrd.
    apply wp_bind, wp_drop_curr, wp_ret. split_and!; eauto.
  - destruct Hu as [Hu ->]; [lia|]. apply wp_bind, (wp_confirm Hl _ Hu). cbn [negb].
    apply wp_bind, wp_drop_curr, wp_ret. split_and!; eauto. eapply iced_all; [done|exact Hic|lia].
Qed.

Lemma wp_insert_round fuel N d k h n S hp s :
  descending N d k h S hp s -> i_level s = Datatypes.S n -> (h <= layers)%nat -> (N < fuel)%nat ->
  wp (insert_round EXP MAX_LAYERS ZCAP merge_threshold fuel k h n s) S hp (round_post N d k h n).
Proof using All.
  intros [Hct Hic Hnodes Hload Hlv Hst] Hs Hh Hfuel. unfold insert_round, restore. rewrite Hload.
  rewrite Hs in Hst, Hic, Hlv. cbn [bind].
  apply wp_bind, (wp_check_next_at EXP MAX_LAYERS layers ZCAP t merge_threshold Hthreshold Hzcap Hpos Hmax true fuel N S
                    (Datatypes.S n) k _ _ hp); [done| |done|].
  { intros L HL. split; [apply (ic_resting _ _ _ _ _ _ Hic _ _ HL); lia|by eapply ct_sized]. }
  intros L l a m zs HL Hf. cbn [negb]. pose proof (fd_covers _ _ _ _ _ _ Hf) as Hc.
  pose proof (fd_length _ _ _ _ _ _ Hf) as Hlen. pose proof (ct_sized _ _ _ _ Hct _ _ HL) as HlenL.
  pose proof (lookup_lt_Some _ _ _ HL) as Hlt.
  assert (Hct1 : content N (<[Datatypes.S n := l ++ a :: m]> S) d)
    by (eapply content_same; [done|done|apply Hf|lia]).
  assert (Hic1 : iced k h (Datatypes.S n) (<[Datatypes.S n := l ++ a :: m]> S) (i_frozen s))
    by (apply iced_resting; [done|lia|apply Hf]).
  set (S1 := <[Datatypes.S n := l ++ a :: m]> S) in *.
  assert (Hl : S1 !! Datatypes.S n = Some (l ++ a :: m)) by (by apply list_lookup_insert_eq).
  assert (Ha : unlocked a).
  { pose proof (fd_resting _ _ _ _ _ _ Hf) as Hr. by apply Forall_app in Hr as [_ [? _]%Forall_cons]. }
  destruct (Nat.ltb_spec n h) as [Hnh|Hnh].
  - apply wp_bind, (wp_try_freeze Hl _ Ha). cbn [negb]. unfold set_node_at.
    rewrite (proj2 (Nat.ltb_lt n _)) by lia. cbn [bind]. set (fz := set_state Frozen a).
    pose proof (wp_insert_choose N d k h n (<[Datatypes.S n := l ++ fz :: m]> S1) l fz m zs
      (IState (Datatypes.S n) (a_ptr a) (word a) (i_dl s) (i_checkpoint s) (i_checkpoint_dl s) false
         (<[n := Some (a_ptr a)]> (i_frozen s))) (word a) (IReturn true)) as Hch. cbn [i_frozen i_curr i_lock] in Hch.
    rewrite (proj2 (Nat.ltb_lt n _)) in Hch by lia. apply Hch; try done.
    + eapply content_same; [exact Hct1|exact Hl| |by rewrite length_app in *; cbn in *; lia].
      unfold fz. rewrite set_state_with_lock. by apply same_lock.
    + apply iced_freeze; [done|done|done|lia|lia].
    + by rewrite length_insert.
    + apply list_lookup_insert_eq. by eapply lookup_lt_Some.
  - pose proof (wp_insert_choose N d k h n S1 l a m zs
      (IState (Datatypes.S n) (a_ptr a) (word a) (i_dl s) (i_checkpoint s) (i_checkpoint_dl s) false
         (i_frozen s)) (word a)) as Hch. cbn [i_frozen i_curr i_lock] in Hch.
    rewrite (proj2 (Nat.ltb_ge n _)) in Hch by lia. apply Hch; try done. by apply iced_pass.
Qed.

(** The whole descent; it takes no more rounds than there are layers. *)
Lemma wp_insert_rounds fuel N d k h rounds : forall S hp s,
  descending N d k h S hp s -> (i_level s <= rounds)%nat -> (h <= layers)%nat -> (N < fuel)%nat ->
  wp (insert_rounds EXP MAX_LAYERS ZCAP merge_threshold fuel rounds k h s) S hp (round_post N d k h 0).
Proof using All.
  induction rounds as [|rounds IH]; intros S hp s Hs Hlv Hh Hfuel.
  - cbn. replace (i_level s) with 0%nat by lia. apply wp_ret. split; [done|lia].
  - cbn [insert_rounds]. destruct (i_level s) as [|n] eqn:Hn; [by apply wp_ret|].
    apply wp_bind. eapply wp_mono; [by apply wp_insert_round|]. intros r S' hp' Hr.
    destruct r as [s'|f|b]; [|done|by apply wp_ret]. destruct Hr as [Hs' Hn']. apply IH; [done|lia|done|done].
Qed.

(** Locking the data node that covers the key. *)
Lemma wp_lock_data fuel N S k p w cp hp rounds Q :
  stands k 0 S hp p w -> (forall L, S !! 0%nat = Some L -> resting L /\ (length L <= N)%nat) -> (N < fuel)%nat ->
  (forall L l a m zs, S !! 0%nat = Some L -> found (vof:=vof) 0 k L l a m ->
     Q (Some (a_ptr a)) (<[0%nat := l ++ set_state Locked a :: m]> S) (Some (HCurr (a_ptr a), zs))) ->
  wp (lock_data EXP ZCAP merge_threshold fuel (Datatypes.S rounds) k p w cp) S hp Q.
Proof using All.
  intros Hst HN Hfuel HQ. cbn [lock_data].
  apply wp_bind, (wp_check_next_at EXP MAX_LAYERS layers ZCAP t merge_threshold Hthreshold Hzcap Hpos Hmax true fuel N S
                    0 k p w hp); [done|done|done|].
  intros L l a m zs HL Hf. pose proof (lookup_lt_Some _ _ _ HL) as Hlt.
  assert (Hl : <[0%nat := l ++ a :: m]> S !! 0%nat = Some (l ++ a :: m)) by (by apply list_lookup_insert_eq).
  assert (Ha : unlocked a).
  { pose proof (fd_resting _ _ _ _ _ _ Hf) as Hr. by apply Forall_app in Hr as [_ [? _]%Forall_cons]. }
  apply wp_bind, (wp_try_upgrade Hl _ Ha). cbn [negb]. rewrite list_insert_insert_eq.
  apply wp_ret. by eapply HQ.
Qed.
End SvFreeze.

(** * An insertion goes up

    An insertion of height [h] divides the nodes that cover its key in layers 0
    to [h - 1], and puts the last pointer into layer [h].  In between, the key
    is in the layers up to [j], and the layer above lacks an anchor. *)

Section SvClimb.
Context {V : Type} {vof : kind -> Type -> Type} `{HV : forall kd, VecOps (vof kd)}.
Context (layers : nat) (st : lock_state).

Local Abbreviation anode := (anode V (lock_state * Z)).
Local Abbreviation content := (content (V:=V) layers).
Local Abbreviation ready := (ready (V:=V) layers).
Local Abbreviation iced := (iced (V:=V) st).
Implicit Types (a b c : anode) (l m L : list anode) (S : list (list anode)).
Implicit Types (n i j h N : nat) (p : ptr) (k : Z) (d : list (Z * V)).
Implicit Types (nodes : list (option ptr)) (v : value V).

(** The key is in layers 0 to [h], and in no other: an insertion of height [h]
    put it there. *)
Definition tower k h S : Prop :=
  forall n l, S !! n = Some l -> (is_Some (kv_lookup k (flat l)) <-> (n <= h)%nat).

Lemma kv_lookup_inserted k v (l : list (Z * value V)) : is_Some (kv_lookup k (kv_insert k v l)).
Proof.
  unfold kv_insert. rewrite kv_lookup_app. destruct (kv_lookup k (kv_below k l)); [done|]. cbn. by rewrite Z.eqb_refl.
Qed.

(** Layers 0 to [j] hold the key, and [v] is to be its value in layer [j + 1];
    the nodes to divide up there are in state [st]. *)
Record climbing N d k v h j S nodes : Prop := {
  cb_pending : pending layers j k v S;
  cb_holds : holds S d;
  cb_iced : iced k h j S nodes;
  cb_sized n l : S !! n = Some l -> (length l <= N + 2)%nat;
  cb_above n l : S !! n = Some l -> (j < n)%nat -> (length l <= N)%nat /\ kv_lookup k (flat l) = None;
  cb_below n l : S !! n = Some l -> (n <= j)%nat -> is_Some (kv_lookup k (flat l));
}.

Lemma resting_bump l a m : resting l -> resting m -> resting (l ++ bump a :: m).
Proof. intros H1 H2. apply Forall_app. split; [done|]. by constructor. Qed.

Lemma resting_mid l a m : resting (l ++ m) -> unlocked a -> resting (l ++ a :: m).
Proof. intros [H1 H2]%Forall_app Ha. apply Forall_app. split; [done|]. by constructor. Qed.

Lemma ready_mono N N' S d : ready N S d -> (N <= N')%nat -> ready N' S d.
Proof. intros [H1 H2 H3 H4] Hle. split; try done. intros n l Hl. specialize (H4 n l Hl). lia. Qed.

(** What [insert] does to one layer. *)
Record gains k v L L' : Prop := {
  gn_flat : flat L' = kv_insert k v (flat L);
  gn_resting : resting L';
  gn_length : (length L' <= length L + 2)%nat;
}.

(** The first layer, when it is not the last. *)
Lemma climbing_start N d k (x : V) v h S nodes L L' :
  content N S d -> iced k h 0 S nodes -> S !! 0%nat = Some L -> (0 < h)%nat -> (h <= layers)%nat ->
  kv_lookup k d = None -> gains k (VData x) L L' -> anchors L' = kv_insert k v (anchors L) ->
  climbing N (kv_add k x d) k v h 0 (<[0%nat := L']> S) nodes.
Proof.
  intros Hct Hic HL Hh Hhl Hk [Hf Hr Hn] Ha. pose proof (ct_sized _ _ _ _ Hct _ _ HL) as HN.
  destruct (ct_holds _ _ _ _ Hct) as (L0 & HL0 & Hd). assert (L0 = L) as -> by congruence. split.
  - apply (pending_start layers S L); [apply Hct|lia|done|done].
  - exists L'. split; [apply list_lookup_insert_eq; by eapply lookup_lt_Some|].
    by rewrite Hf, Hd, kv_insert_vmap, kv_add_absent.
  - apply iced_resting; [done|lia|done].
  - intros i u [(<- & <- & _)|[_ Hi]]%list_lookup_insert_Some; [lia|].
    pose proof (ct_sized _ _ _ _ Hct _ _ Hi). lia.
  - intros i u [(<- & <- & _)|[_ Hi]]%list_lookup_insert_Some Hlt; [lia|].
    split; [by eapply ct_sized|]. by apply (absent_everywhere layers S d k i); [apply Hct|apply Hct|..].
  - intros i u [(<- & <- & _)|[Hne Hi]]%list_lookup_insert_Some Hle; [|lia]. rewrite Hf. apply kv_lookup_inserted.
Qed.

(** The only layer. *)
Lemma placed_bottom N d k (x : V) S nodes L L' :
  content N S d -> iced k 0 0 S nodes -> S !! 0%nat = Some L -> kv_lookup k d = None ->
  gains k (VData x) L L' -> anchors L' = anchors L ->
  ready (N + 2) (<[0%nat := L']> S) (kv_add k x d) /\ tower k 0 (<[0%nat := L']> S).
Proof.
  intros Hct Hic HL Hk [Hf Hr Hn] Ha. pose proof (ct_sized _ _ _ _ Hct _ _ HL) as HN.
  destruct (ct_holds _ _ _ _ Hct) as (L0 & HL0 & Hd). assert (L0 = L) as -> by congruence. split; [split|].
  - apply (linked_bottom layers S L); [apply Hct|done|done].
  - exists L'. split; [apply list_lookup_insert_eq; by eapply lookup_lt_Some|].
    by rewrite Hf, Hd, kv_insert_vmap, kv_add_absent.
  - intros i u [(<- & <- & _)|[Hne Hi]]%list_lookup_insert_Some; [done|].
    apply (ic_resting _ _ _ _ _ _ Hic _ _ Hi). lia.
  - intros i u [(<- & <- & _)|[_ Hi]]%list_lookup_insert_Some; [lia|].
    pose proof (ct_sized _ _ _ _ Hct _ _ Hi). lia.
  - intros i u [(<- & <- & _)|[Hne Hi]]%list_lookup_insert_Some.
    + split; [by intros _|]. intros _. rewrite Hf. apply kv_lookup_inserted.
    + rewrite (absent_everywhere layers S d k i u (ct_linked _ _ _ _ Hct) (ct_holds _ _ _ _ Hct) Hk Hi).
      split; [by intros ?%is_Some_None|lia].
Qed.

(** The step from layer [j] to the next. *)
Lemma climbing_up N d k v h j S nodes L L' v' :
  climbing N d k v h j S nodes -> (Datatypes.S j < h)%nat -> (h <= layers)%nat ->
  S !! Datatypes.S j = Some L -> gains k v L L' -> anchors L' = kv_insert k v' (anchors L) ->
  climbing N d k v' h (Datatypes.S j) (<[Datatypes.S j := L']> S) nodes.
Proof.
  intros [H1 (L0 & HL & Hd) H3 H4 H5 H6] Hj Hh Hl [Hf Hr Hn] Ha. destruct (H5 _ _ Hl) as [Hs _]; [lia|]. split.
  - by apply (pending_up layers S L L' k v j v'); [|lia| | |].
  - exists L0. by rewrite list_lookup_insert_ne.
  - apply iced_thaw; [done|lia|done].
  - intros i u [(<- & <- & _)|[_ Hi]]%list_lookup_insert_Some; [lia|eauto].
  - intros i u [(<- & <- & _)|[_ Hi]]%list_lookup_insert_Some Hlt; [lia|]. apply (H5 i); [done|lia].
  - intros i u [(<- & <- & _)|[Hne Hi]]%list_lookup_insert_Some Hle; [|apply (H6 i); [done|lia]].
    rewrite Hf. apply kv_lookup_inserted.
Qed.

(** The topmost layer ends the insertion. *)
Lemma climbing_top N d k v h S nodes L L' :
  climbing N d k v h (h - 1) S nodes -> (0 < h)%nat -> S !! h = Some L ->
  gains k v L L' -> anchors L' = anchors L -> ready (N + 2) (<[h := L']> S) d /\ tower k h (<[h := L']> S).
Proof.
  intros [H1 (L0 & HL & Hd) H3 H4 H5 H6] Hh Hl [Hf Hr Hn] Ha. destruct (H5 _ _ Hl) as [Hs _]; [lia|]. split; [split|].
  - replace h with (Datatypes.S (h - 1)) in Hl |- * at 1 by lia. by eapply pending_top.
  - exists L0. rewrite list_lookup_insert_ne by lia. done.
  - intros i u [(<- & <- & _)|[Hne Hi]]%list_lookup_insert_Some; [done|].
    apply (ic_resting _ _ _ _ _ _ H3 _ _ Hi). lia.
  - intros i u [(<- & <- & _)|[_ Hi]]%list_lookup_insert_Some; [lia|eauto].
  - intros i u [(<- & <- & _)|[Hne Hi]]%list_lookup_insert_Some.
    + split; [by intros _|]. intros _. rewrite Hf. apply kv_lookup_inserted.
    + split; [|intros Hle; apply (H6 i); [done|lia]]. intros Hk. destruct (decide (i <= h)%nat) as [|Hgt]; [done|].
      destruct (H5 _ _ Hi) as [_ Habs]; [lia|]. rewrite Habs in Hk. by apply is_Some_None in Hk.
Qed.

(** The node to divide in layer [i + 1]. *)
Lemma climbing_node N d k v h j S nodes :
  climbing N d k v h j S nodes -> (j < h)%nat ->
  exists l c m, nodes !! j = Some (Some (a_ptr c)) /\ S !! Datatypes.S j = Some (l ++ c :: m) /\
    state_of c = st /\ resting l /\ resting m /\ covers k l c m /\
    (slayer vof (Datatypes.S j) (l ++ c :: m) -> kv_lookup k (a_elems c) = None).
Proof.
  intros Hcb Hj.
  destruct (ic_frozen _ _ _ _ _ _ (cb_iced _ _ _ _ _ _ _ _ Hcb) j) as (q & Hq & l & c & m & Hl & -> & Hst & Hr & Hc); [lia|].
  destruct (cb_above _ _ _ _ _ _ _ _ Hcb _ _ Hl) as [_ Habs]; [lia|]. apply Forall_app in Hr as [Hr1 Hr2].
  exists l, c, m. split_and!; try done. intros Hlay.
  by rewrite (flat_covers_lookup _ _ _ (sl_sorted _ _ Hlay) k Hc) in Habs.
Qed.
End SvClimb.

Section Gains.
Context {V : Type} {vof : kind -> Type -> Type} `{HV : forall kd, VecOps (vof kd)}.
Local Abbreviation anode := (anode V (lock_state * Z)).
Implicit Types (a b c : anode) (l m L : list anode) (k : Z) (n : nat) (v : value V).

Lemma with_own_lock a : with_lock (lock_of a) a = a.
Proof. by destruct a as [p o [st c] el]. Qed.

(** A node was divided, or received the key; before and after, only its lock
    changed, and in the end it is unlocked. *)
Section Locks.
Context (al al' : alock) {k : Z} {v : value V} {l : list anode} {a : anode} {m : list anode} {a' : anode} {m' : list anode}.
Context (Hal : al_orphan al = a_orphan a) (Hal' : al_orphan al' = a_orphan a') (Hu : al_state al' = Unlocked).
Context (Hl : resting l) (Hm : resting m).

Lemma divided_gains b :
  divided k v l (with_lock al a) m a' b m' -> unlocked b ->
  gains k v (l ++ a :: m) (l ++ with_lock al' a' :: b :: m') /\
  anchors (l ++ with_lock al' a' :: b :: m') = kv_insert k (VDown (a_ptr b)) (anchors (l ++ a :: m)).
Proof using All.
  intros [D1 D2 D3 D4 D5 D6 D7] Hb.
  destruct (same_lock l a m al Hal) as [Hsf Hsa]. destruct (same_lock l a' (b :: m') al' Hal') as [Hsf' Hsa'].
  split; [split|].
  - by rewrite Hsf', D1, Hsf.
  - apply Forall_app. split; [done|]. constructor; [done|]. constructor; [done|]. by apply D6.
  - rewrite !length_app. cbn. lia.
  - by rewrite Hsa', D2, Hsa.
Qed.

Lemma placed_gains n :
  placed (vof:=vof) n k v l (with_lock al a) m a' m' ->
  gains k v (l ++ a :: m) (l ++ with_lock al' a' :: m') /\
  anchors (l ++ with_lock al' a' :: m') = anchors (l ++ a :: m).
Proof using All.
  intros [P1 P2 P3 P4 P5 P6 P7].
  destruct (same_lock l a m al Hal) as [Hsf Hsa]. destruct (same_lock l a' m' al' Hal') as [Hsf' Hsa'].
  split; [split|].
  - by rewrite Hsf', P2, Hsf.
  - apply Forall_app. split; [done|]. constructor; [done|exact (P6 Hm)].
  - rewrite !length_app. cbn. lia.
  - by rewrite Hsa', P3, Hsa.
Qed.
End Locks.

(** Locked, then released. *)
Lemma divided_released k v l a m a' b m' :
  divided k v l (set_state Locked a) m a' b m' -> resting l -> resting m -> unlocked b ->
  gains k v (l ++ a :: m) (l ++ bump a' :: b :: m') /\
  anchors (l ++ bump a' :: b :: m') = kv_insert k (VDown (a_ptr b)) (anchors (l ++ a :: m)).
Proof. rewrite set_state_with_lock, bump_with_lock. intros Hd Hl Hm Hb. eapply divided_gains; try exact Hd; done. Qed.

Lemma placed_released n k v l a m a' m' :
  placed (vof:=vof) n k v l (set_state Locked a) m a' m' -> resting l -> resting m ->
  gains k v (l ++ a :: m) (l ++ bump a' :: m') /\ anchors (l ++ bump a' :: m') = anchors (l ++ a :: m).
Proof. rewrite set_state_with_lock, bump_with_lock. intros Hp Hl Hm. eapply placed_gains; try exact Hp; done. Qed.

(** Never locked. *)
Lemma divided_unlocked k v l a m a' b m' :
  divided k v l a m a' b m' -> resting l -> resting m -> unlocked a -> unlocked b ->
  gains k v (l ++ a :: m) (l ++ a' :: b :: m') /\
  anchors (l ++ a' :: b :: m') = kv_insert k (VDown (a_ptr b)) (anchors (l ++ a :: m)).
Proof.
  intros Hd Hl Hm Ha Hb. rewrite <- (with_own_lock a'). rewrite <- (with_own_lock a) in Hd.
  assert (Hu : al_state (lock_of a') = Unlocked) by (cbn; by rewrite (dv_ext _ _ _ _ _ _ _ _ Hd)).
  eapply divided_gains; try exact Hd; done.
Qed.

Lemma placed_unlocked n k v l a m a' m' :
  placed (vof:=vof) n k v l a m a' m' -> resting l -> resting m -> unlocked a ->
  gains k v (l ++ a :: m) (l ++ a' :: m') /\ anchors (l ++ a' :: m') = anchors (l ++ a :: m).
Proof.
  intros Hp Hl Hm Ha. rewrite <- (with_own_lock a'). rewrite <- (with_own_lock a) in Hp.
  assert (Hu : al_state (lock_of a') = Unlocked) by (cbn; by rewrite (pl_ext _ _ _ _ _ _ _ _ Hp)).
  eapply placed_gains; try exact Hp; done.
Qed.
End Gains.
