(* ===== verification/SvInsert.v ===== *)
(** * SvInsert: insertion

    From the bottom up, the locked data node and the frozen index nodes are
    divided at the key; the topmost index node just receives an entry.  Run
    alone, an insertion adds the key iff it was absent, and thaws or releases
    every node it froze or locked.  The sequential-only [insert_seq] follows. *)

From Stdlib Require Import QArith.
From S2P Require Import Prelude KvList Prog SvLock Rng VecSpec HazardPtr World Layers Heap SvNode.
From S2P Require Import SvOps SvLayers SvMem SvWp SvWalk SvDescend SvGrow SvFreeze.

Local Open Scope Z_scope.
Import Thread.

Section SvInsert.
Context {V : Type} {vof : kind -> Type -> Type}.
Context `{HV : forall kd, VecOps (vof kd)} `{HS : forall kd, VecSpec (vof kd)}.
Context (EXP : kind -> Z) (MAX_LAYERS layers ZCAP t : nat) (merge_threshold : Q).
Context (junk : forall kd, Z * elt V kd).
Context (Hthreshold : forall kd n, (0 < EXP kd) ->
  Qle_bool (merge_threshold * inject_Z (2 ^ EXP kd)) (inject_Z (Z.of_nat n)) = false ->
  (n <= v_capacity (vof kd))%nat).
Context (Hzcap : (1 <= ZCAP)%nat) (Hpos : (0 < layers)%nat) (Hmax : (layers <= MAX_LAYERS)%nat).

Local Abbreviation mem := (mem V unit (fun _ => chunk V vof)).
Local Abbreviation anode := (anode V (lock_state * Z)).
Local Abbreviation hpstate := (option (held ptr * list ptr)).
Local Abbreviation wp := (wp (V:=V) (vof:=vof) layers ZCAP t).
Local Abbreviation content := (content (V:=V) layers).
Local Abbreviation climbing := (climbing (V:=V) layers Frozen).
Local Abbreviation iced := (iced (V:=V) Frozen).
Local Abbreviation ready := (ready (V:=V) layers).
Implicit Types (a b c : anode) (l m L : list anode) (S : list (list anode)) (hp : hpstate).
Implicit Types (n i j h N fuel : nat) (p : ptr) (k : Z) (kd : kind) (zs : list ptr) (d : list (Z * V)).
Implicit Types (nodes : list (option ptr)) (s : istate) (v : value V).

Lemma wp_partition_layers N d k h nodes n : forall i S p Q hp,
  climbing N d k (VDown p) h i S nodes -> (i + n + 1 = h)%nat -> (h <= layers)%nat ->
  (forall S' p', climbing N d k (VDown p') h (h - 1) S' nodes -> Q p' S' hp) ->
  wp (partition_layers junk nodes k i n p) S hp Q.
Proof.
  induction n as [|n IH]; intros i S p Q hp Hcb Hn Hh HQ; cbn [partition_layers].
  { apply wp_ret, HQ. by replace (h - 1)%nat with i by lia. }
  destruct (climbing_node (vof:=vof) _ _ _ _ _ _ _ _ _ _ Hcb) as (l & c & m & Hq & Hl & Hst & Hr1 & Hr2 & Hc & Habs); [lia|].
  pose proof (lookup_lt_Some _ _ _ Hl) as Hlt. apply wp_okay. intros Hok.
  specialize (Habs (ok_layer _ _ _ Hok _ _ Hl)).
  apply wp_bind, (wp_node_at layers ZCAP t _ _ _ _ _ _ Hq).
  apply wp_bind, (wp_acquire_frozen Hl _ Hst).
  set (c1 := set_state Locked c).
  assert (Hl1 : <[Datatypes.S i := l ++ c1 :: m]> S !! Datatypes.S i = Some (l ++ c1 :: m)) by (by apply list_lookup_insert_eq).
  change (a_ptr c) with (a_ptr c1).
  apply (wp_divide layers ZCAP t junk Hl1 Hc Habs INDEX p); [done|].
  intros a' b m' Hdv Hb. rewrite list_insert_insert_eq. rewrite <- (dv_ptr _ _ _ _ _ _ _ _ Hdv).
  assert (Hl2 : <[Datatypes.S i := l ++ a' :: b :: m']> S !! Datatypes.S i = Some (l ++ a' :: b :: m'))
    by (by apply list_lookup_insert_eq).
  apply wp_bind, (wp_release Hl2); [unfold state_of; by rewrite (dv_ext _ _ _ _ _ _ _ _ Hdv)|].
  rewrite list_insert_insert_eq.
  destruct (divided_released _ _ _ _ _ _ _ _ Hdv Hr1 Hr2 Hb) as [Hg Ha].
  apply IH; [by eapply climbing_up; [exact Hcb|lia|..]|lia|done|done].
Qed.

Lemma wp_insert_top {A} N d k h S nodes p hp (K : mem A) Q :
  climbing N d k (VDown p) h (h - 1) S nodes -> (0 < h)%nat ->
  (forall S', ready (N + 2) S' d -> tower k h S' -> wp K S' hp Q) ->
  wp (let* top_node := node_at nodes (h - 1) in
      lock_rmw top_node acquire_frozen ;;;
      node_insert junk INDEX top_node k p ;;;
      lock_rmw top_node release ;;; K) S hp Q.
Proof.
  intros Hcb Hh0 HK.
  destruct (climbing_node (vof:=vof) _ _ _ _ _ _ _ _ _ _ Hcb) as (l & c & m & Hq & Hl & Hst & Hr1 & Hr2 & Hc & Habs); [lia|].
  replace (Datatypes.S (h - 1)) with h in Hl, Habs by lia. pose proof (lookup_lt_Some _ _ _ Hl) as Hlt.
  apply wp_okay. intros Hok. specialize (Habs (ok_layer _ _ _ Hok _ _ Hl)).
  apply wp_bind, (wp_node_at layers ZCAP t _ _ _ _ _ _ Hq).
  apply wp_bind, (wp_acquire_frozen Hl _ Hst).
  set (c1 := set_state Locked c).
  assert (Hl1 : <[h := l ++ c1 :: m]> S !! h = Some (l ++ c1 :: m)) by (by apply list_lookup_insert_eq).
  assert (Hkind : kind_of h = INDEX) by (destruct h; [lia|done]).
  change (a_ptr c) with (a_ptr c1).
  apply wp_bind, (wp_node_insert layers ZCAP t junk _ _ h INDEX k p l c1 m); try done.
  { intros [z Hz]. change (a_elems c1) with (a_elems c) in Hz. congruence. }
  intros c' m' _ Hp. rewrite list_insert_insert_eq. rewrite <- (pl_ptr _ _ _ _ _ _ _ _ Hp).
  assert (Hl2 : <[h := l ++ c' :: m']> S !! h = Some (l ++ c' :: m')) by (by apply list_lookup_insert_eq).
  apply wp_bind, (wp_release Hl2); [unfold state_of; by rewrite (pl_ext _ _ _ _ _ _ _ _ Hp)|].
  rewrite list_insert_insert_eq.
  destruct (placed_released _ _ _ _ _ _ _ _ Hp Hr1 Hr2) as [Hg Ha].
  destruct (climbing_top layers Frozen N d k (VDown p) h S nodes (l ++ c :: m) (l ++ bump c' :: m')) as [Hrd Htw]; try done.
  by apply HK.
Qed.

(** ** At the data layer

    [S] are the layers as they were when the data node [a] that covers the
    key was locked. *)
Section Data.
Context {N h : nat} {d : list (Z * V)} {k : Z} (x : V) {S : list (list anode)}.
Context {nodes : list (option ptr)} {l : list anode} {a : anode} {m : list anode}.
Context (Hct : content N S d) (Hic : iced k h 0 S nodes) (Hl : S !! 0%nat = Some (l ++ a :: m)).
Context (Hc : covers k l a m) (Ha : unlocked a) (Hh : (h <= layers)%nat).

Local Abbreviation a1 := (set_state Locked a).
Local Abbreviation S1 := (<[0%nat := l ++ a1 :: m]> S).
Local Abbreviation finished Q :=
  (forall S' zs', ready (N + 2) S' (kv_add k x d) -> (kv_lookup k d = None -> tower k h S') ->
     Q (bool_decide (kv_lookup k d = None)) S' (Some (HNone, zs'))).

Lemma data_locked : S1 !! 0%nat = Some (l ++ a1 :: m).
Proof using Hl. apply list_lookup_insert_eq. by eapply lookup_lt_Some. Qed.

Lemma data_flat : flat (l ++ a1 :: m) = kv_vmap VData d.
Proof using Hct Hl.
  destruct (ct_holds _ _ _ _ Hct) as (L & HL & Hd). assert (L = l ++ a :: m) as -> by congruence.
  rewrite <- Hd. by rewrite !flat_mid.
Qed.

Lemma data_lookup : slayer vof 0 (l ++ a1 :: m) -> kv_lookup k (a_elems a) = VData <$> kv_lookup k d.
Proof using Hct Hl Hc.
  intros Hlay. rewrite <- kv_lookup_vmap, <- data_flat. symmetry.
  exact (flat_covers_lookup l a1 m (sl_sorted _ _ Hlay) k Hc).
Qed.

Lemma data_resting : resting l /\ resting m.
Proof using All.
  pose proof (ic_resting _ _ _ _ _ _ Hic _ _ Hl) as Hr. unfold resting in *.
  rewrite Forall_app, Forall_cons in Hr. split; apply Hr; lia.
Qed.

(** Undoing the lock. *)
Lemma data_undo S' : S' !! 0%nat = S !! 0%nat ->
  <[0%nat := l ++ set_state Unlocked a1 :: m]> (<[0%nat := l ++ a1 :: m]> S') = S'.
Proof using Hl Ha.
  intros He. rewrite list_insert_insert_eq. apply list_insert_id. rewrite He, Hl.
  do 2 f_equal. f_equal. symmetry. by apply (set_state_same Unlocked a).
Qed.

(** The key was there: everything is as before. *)
Lemma wp_insert_present Q zs :
  is_Some (kv_lookup k d) -> finished Q ->
  wp (thaw_nodes nodes 0 h ;;; lock_rmw (a_ptr a) release_unchanged ;;; hp_drop_curr ;;; Ret false)
    S1 (Some (HCurr (a_ptr a), zs)) Q.
Proof using All.
  intros [y Hk] HQ. eapply wp_bind, (wp_thaw_nodes_above MAX_LAYERS); [done|done|done|exact Hct|exact Hic|done|].
  intros S' Hrd He. pose proof (lookup_lt_Some _ _ _ Hl) as Hlt.
  assert (Hl' : <[0%nat := l ++ a1 :: m]> S' !! 0%nat = Some (l ++ a1 :: m)).
  { apply list_lookup_insert_eq. rewrite <- He in Hl. by eapply lookup_lt_Some. }
  change (a_ptr a) with (a_ptr a1). apply wp_bind, (wp_release_unchanged Hl'); [done|].
  rewrite data_undo by done. apply wp_bind, wp_drop_curr, wp_ret.
  specialize (HQ S' zs). rewrite bool_decide_eq_false_2 in HQ by congruence. apply HQ; [|congruence].
  rewrite (kv_add_present _ _ y) by done. eapply ready_mono; [done|lia].
Qed.

(** The key is new, and its height is not zero. *)
Lemma wp_insert_tall fuel Q zs :
  (0 < h)%nat -> finished Q ->
  wp (insert_tall junk (Datatypes.S fuel) k x h (a_ptr a) nodes) S1 (Some (HCurr (a_ptr a), zs)) Q.
Proof using All.
  intros Hh0 HQ. apply wp_okay. intros Hok. pose proof data_locked as Hl1.
  pose proof (data_lookup (ok_layer _ _ _ Hok _ _ Hl1)) as Hlook.
  unfold insert_tall. change (a_ptr a) with (a_ptr a1).
  apply wp_bind, (wp_contains_key layers ZCAP t Hl1 (kd:=DATA)); [done|].
  change (a_elems a1) with (a_elems a). rewrite Hlook.
  destruct (kv_lookup k d) as [y|] eqn:Hk; cbn [mbind option_bind unwrap fmap option_fmap option_map].
  { apply wp_insert_present; [by rewrite Hk|]. by rewrite Hk. }
  apply (wp_divide_locked layers ZCAP t junk Hl1 Hc Hlook fuel DATA x); [done|].
  intros a' b m' Hdv Hb. rewrite list_insert_insert_eq. pose proof (lookup_lt_Some _ _ _ Hl) as Hlt.
  assert (Hl2 : <[0%nat := l ++ a' :: b :: m']> S !! 0%nat = Some ((l ++ [a']) ++ b :: m'))
    by (rewrite <- app_assoc; by apply list_lookup_insert_eq).
  apply wp_bind, (wp_release Hl2 _ Hb). rewrite list_insert_insert_eq, <- app_assoc. cbn [app].
  assert (Hl3 : <[0%nat := l ++ a' :: bump b :: m']> S !! 0%nat = Some (l ++ a' :: bump b :: m'))
    by (by apply list_lookup_insert_eq).
  rewrite <- (dv_ptr _ _ _ _ _ _ _ _ Hdv).
  apply wp_bind, (wp_release Hl3); [unfold state_of; by rewrite (dv_ext _ _ _ _ _ _ _ _ Hdv)|].
  rewrite list_insert_insert_eq.
  apply wp_bind, (wp_partition_layers N (kv_add k x d) k h nodes _ 0); [|lia|done|].
  { destruct data_resting as [Hr1 Hr2].
    destruct (divided_released _ _ _ _ _ _ _ _ (divided_bump _ _ _ _ _ _ _ _ Hdv) Hr1 Hr2) as [Hg Ha']; [done|].
    by eapply (climbing_start layers Frozen). }
  intros S4 p' Hcb. apply (wp_insert_top N (kv_add k x d) k h S4 nodes p'); [done|done|]. intros S5 Hrd Htw.
  change (a_ptr a1) with (a_ptr a). rewrite (dv_ptr _ _ _ _ _ _ _ _ Hdv).
  by apply wp_bind, wp_drop_curr, wp_ret, (HQ S5 zs).
Qed.

Lemma wp_insert_data fuel Q zs :
  finished Q ->
  wp (insert_data junk (Datatypes.S fuel) k x h (a_ptr a) nodes) S1 (Some (HCurr (a_ptr a), zs)) Q.
Proof using All.
  intros HQ. unfold insert_data. destruct (Nat.eqb_spec h 0) as [Hh0|Hh0]; [|apply wp_insert_tall; [lia|done]].
  apply wp_okay. intros Hok. pose proof data_locked as Hl1. pose proof (lookup_lt_Some _ _ _ Hl) as Hlt.
  pose proof (data_lookup (ok_layer _ _ _ Hok _ _ Hl1)) as Hlook. change (a_ptr a) with (a_ptr a1).
  apply wp_bind, (wp_node_insert layers ZCAP t junk _ _ 0 DATA k x l a1 m); try done.
  - change (a_elems a1) with (a_elems a). rewrite Hlook. intros [y Hy].
    destruct (kv_lookup k d) as [z|] eqn:Hk; [|done].
    apply wp_bind, (wp_release_changed_if Hl1 false); [done|]. rewrite data_undo by done.
    apply wp_bind, wp_drop_curr, wp_ret, (HQ S zs).
    { rewrite (kv_add_present _ _ z) by done. eapply ready_mono; [eapply iced_all; [done|exact Hic|lia]|lia]. }
    done.
  - intros a' m' Habs Hp. rewrite list_insert_insert_eq.
    assert (Hk : kv_lookup k d = None).
    { change (a_elems a1) with (a_elems a) in Habs. rewrite Hlook in Habs. by destruct (kv_lookup k d). }
    assert (Hl2 : <[0%nat := l ++ a' :: m']> S !! 0%nat = Some (l ++ a' :: m')) by (by apply list_lookup_insert_eq).
    rewrite <- (pl_ptr _ _ _ _ _ _ _ _ Hp).
    apply wp_bind, (wp_release_changed_if Hl2 true); [unfold state_of; by rewrite (pl_ext _ _ _ _ _ _ _ _ Hp)|].
    rewrite list_insert_insert_eq. apply wp_bind, wp_drop_curr, wp_ret.
    specialize (HQ (<[0%nat := l ++ bump a' :: m']> S) zs). rewrite bool_decide_eq_true_2 in HQ by done.
    destruct data_resting as [Hr1 Hr2]. destruct (placed_released _ _ _ _ _ _ _ _ Hp Hr1 Hr2) as [Hg Ha'].
    rewrite Hh0 in Hic, HQ. destruct (placed_bottom layers Frozen N d k x S nodes (l ++ a :: m) (l ++ bump a' :: m')) as [Hrd Htw]; try done.
    by apply HQ.
Qed.
End Data.

(** ** The operation *)

Lemma wp_insert fuel N d S hp rng k x Q :
  EXP INDEX <= 30 -> EXP DATA <= 30 ->
  ready N S d -> (N + layers < fuel)%nat -> idle hp ->
  (forall h rng' S' zs, random_height (EXP INDEX) (EXP DATA) layers rng = Some (h, rng') ->
     ready (N + 2) S' (kv_add k x d) -> (kv_lookup k d = None -> tower k h S') ->
     Q (bool_decide (kv_lookup k d = None), rng') S' (Some (HNone, zs))) ->
  wp (insert EXP MAX_LAYERS layers ZCAP merge_threshold junk fuel rng k x) S hp Q.
Proof using All.
  intros Hei Hed Hrd Hfuel Hhp HQ. unfold insert. apply wp_bind, wp_init_idle; [done|]. intros zs.
  destruct (random_height_le _ _ layers rng Hei Hed Hpos) as (h & rng' & Hrng & Hh). rewrite Hrng.
  apply wp_bind, wp_ret. apply wp_bind.
  assert (HQ' : forall S' zs', ready (N + 2) S' (kv_add k x d) -> (kv_lookup k d = None -> tower k h S') ->
            Q (bool_decide (kv_lookup k d = None), rng') S' (Some (HNone, zs'))) by (intros; by eapply HQ).
  clear HQ. destruct fuel as [|fuel]; [lia|]. cbn [insert_loop].
  apply wp_bind, (wp_start_top EXP MAX_LAYERS layers ZCAP t merge_threshold Hthreshold Hzcap Hpos Hmax N d k S zs); [done|]. intros p w hp0 Hst.
  apply wp_bind. eapply wp_mono; [apply (wp_insert_rounds EXP MAX_LAYERS layers ZCAP t merge_threshold Hthreshold Hzcap Hpos Hmax
    (Datatypes.S fuel) N d k h); [|cbn; lia|done|lia]|].
  { split; cbn; [by apply ready_content|by eapply ready_iced|apply length_replicate|done|done|].
    by destruct layers; [lia|]. }
  intros r S1 hp1 Hr. destruct r as [s|f|b]; [|done|].
  - destruct Hr as [[Hct Hic Hnodes Hload Hlv Hst1] Hs]. rewrite Hs in Hst1, Hic.
    apply wp_bind, (wp_lock_data EXP MAX_LAYERS layers ZCAP t merge_threshold Hthreshold Hzcap Hpos Hmax _ N _ k _ _ _ hp1); [done| |lia|].
    { intros L HL. split; [apply (ic_resting _ _ _ _ _ _ Hic _ _ HL); lia|by eapply ct_sized]. }
    intros L l a m zs1 HL Hf. pose proof (fd_length _ _ _ _ _ _ Hf) as Hlen. pose proof (ct_sized _ _ _ _ Hct _ _ HL) as HlenL.
    pose proof (fd_resting _ _ _ _ _ _ Hf) as Hrest. pose proof (lookup_lt_Some _ _ _ HL) as Hlt.
    rewrite <- (list_insert_insert_eq S1 0 (l ++ set_state Locked a :: m) (l ++ a :: m)).
    apply (wp_insert_data (N:=N) (d:=d)).
    + eapply content_same; [done|done|apply Hf|lia].
    + apply iced_resting; [done|lia|done].
    + by apply list_lookup_insert_eq.
    + apply Hf.
    + by apply Forall_app in Hrest as [_ [? _]%Forall_cons].
    + done.
    + intros S' zs' Hrd' Htw. apply wp_ret. by apply HQ'.
  - destruct Hr as (-> & Hrd1 & [y Hy] & zs1 & ->). apply wp_ret, wp_ret.
    specialize (HQ' S1 zs1). rewrite bool_decide_eq_false_2 in HQ' by congruence. apply HQ'; [|congruence].
    rewrite (kv_add_present _ _ y) by done. eapply ready_mono; [done|lia].
Qed.
End SvInsert.

(** * Insertion in isolation

    [insert_seq] does what [insert] does, without locking: it notes the nodes
    that it will divide, and deletes the nodes it unlinks on the spot. *)
Import Thread.

Section SvInsertSeq.
Context {V : Type} {vof : kind -> Type -> Type}.
Context `{HV : forall kd, VecOps (vof kd)} `{HS : forall kd, VecSpec (vof kd)}.
Context (EXP : kind -> Z) (MAX_LAYERS layers ZCAP t : nat) (merge_threshold : Q).
Context (junk : forall kd, Z * elt V kd).
Context (Hthreshold : forall kd n, (0 < EXP kd) ->
  Qle_bool (merge_threshold * inject_Z (2 ^ EXP kd)) (inject_Z (Z.of_nat n)) = false ->
  (n <= v_capacity (vof kd))%nat).
Context (Hzcap : (1 <= ZCAP)%nat) (Hpos : (0 < layers)%nat) (Hmax : (layers <= MAX_LAYERS)%nat).

Local Abbreviation mem := (mem V unit (fun _ => chunk V vof)).
Local Abbreviation anode := (anode V (lock_state * Z)).
Local Abbreviation hpstate := (option (held ptr * list ptr)).
Local Abbreviation wp := (wp (V:=V) (vof:=vof) layers ZCAP t).
Local Abbreviation content := (content (V:=V) layers).
Local Abbreviation climbing := (climbing (V:=V) layers Unlocked).
Local Abbreviation iced := (iced (V:=V) Unlocked).
Local Abbreviation ready := (ready (V:=V) layers).
Implicit Types (a b c : anode) (l m L : list anode) (S : list (list anode)) (hp : hpstate).
Implicit Types (n i j h N fuel : nat) (p : ptr) (k : Z) (kd : kind) (zs : list ptr) (d : list (Z * V)).
Implicit Types (nodes : list (option ptr)) (v : value V).

(** ** The descent *)

(** The thread is at [p], from which [k]'s walk along layer [n] starts; the
    nodes to divide in the layers above are noted. *)
Record noting N d k h n S nodes p : Prop := {
  nt_content : content N S d;
  nt_iced : iced k h n S nodes;
  nt_nodes : length nodes = MAX_LAYERS;
  nt_stands : exists l b m, S !! n = Some (l ++ b :: m) /\ starts k l b /\ p = a_ptr b;
}.

Lemma wp_check_next_noting fuel N d k h n S nodes p hp Q :
  noting N d k h n S nodes p -> (N < fuel)%nat ->
  (forall S' l a m, content N S' d -> iced k h n S' nodes -> S' !! n = Some (l ++ a :: m) -> covers k l a m ->
     unlocked a -> Q (a_ptr a) S' hp) ->
  wp (check_next_sequential EXP merge_threshold fuel (kind_of n) p k) S hp Q.
Proof using All.
  intros [Hct Hic Hnodes (l & b & m & Hl & Hst & ->)] Hfuel HQ.
  pose proof (ic_resting _ _ _ _ _ _ Hic _ _ Hl ltac:(lia)) as Hr. pose proof (ct_sized _ _ _ _ Hct _ _ Hl) as HN.
  pose proof (lookup_lt_Some _ _ _ Hl) as Hlt.
  apply (wp_check_next_sequential EXP layers ZCAP t merge_threshold Hthreshold Hzcap fuel S n k l b m); try done.
  { rewrite length_app in HN. cbn in HN. lia. }
  intros l' a' m' [F1 F2 F3 F4 F5]. eapply HQ; [| |by apply list_lookup_insert_eq|done|].
  - eapply content_same; [done|done|done|lia].
  - apply iced_resting; [done|lia|done].
  - by apply Forall_app in F3 as [_ [? _]%Forall_cons].
Qed.

Definition seq_post N d k h (r : option (ptr * list (option ptr))) S : Prop :=
  match r with
  | None => ready N S d /\ is_Some (kv_lookup k d)
  | Some (p, nodes) => noting N d k h 0 S nodes p
  end.

Lemma wp_note k h n S l a m nodes hp Q :
  iced k h (Datatypes.S n) S nodes -> S !! Datatypes.S n = Some (l ++ a :: m) -> covers k l a m -> unlocked a ->
  (n < layers)%nat -> length nodes = MAX_LAYERS -> (h <= layers)%nat ->
  (forall nodes', length nodes' = MAX_LAYERS -> iced k h n S nodes' -> Q nodes' S hp) ->
  wp (if (n <? h)%nat then set_node_at nodes n (a_ptr a) else Ret nodes) S hp Q.
Proof using All.
  intros Hic Hl Hc Ha Hn Hnodes Hh HQ. destruct (Nat.ltb_spec n h) as [Hnh|Hnh].
  - unfold set_node_at. rewrite (proj2 (Nat.ltb_lt n _)) by lia. apply wp_ret, HQ; [by rewrite length_insert|].
    pose proof (iced_freeze Unlocked k h n S nodes l a m Hic Hl Hc Hnh ltac:(lia)) as Hf.
    rewrite set_state_same in Hf by done. by rewrite list_insert_id in Hf.
  - apply wp_ret, HQ; [done|]. by apply iced_pass.
Qed.

Lemma wp_descend_seq fuel N d k h hp n : forall S nodes p,
  noting N d k h n S nodes p -> (n <= layers)%nat -> (h <= layers)%nat -> (N < fuel)%nat ->
  wp (descend_seq EXP MAX_LAYERS merge_threshold fuel k h n p nodes) S hp
    (fun r S' hp' => hp' = hp /\ seq_post N d k h r S').
Proof using All.
  induction n as [|n IH]; intros S nodes p Hnt Hn Hh Hfuel; cbn [descend_seq]; [by apply wp_ret|].
  pose proof (nt_nodes _ _ _ _ _ _ _ _ Hnt) as Hnodes.
  apply wp_bind, (wp_check_next_noting fuel N d k h (Datatypes.S n) S nodes p); [done|lia|].
  intros S1 l a m Hct Hic Hl Hc Ha. pose proof (lookup_lt_Some _ _ _ Hl) as Hlt.
  apply wp_okay. intros Hok.
  apply wp_bind, (wp_note k h n S1 l a m nodes hp); [done|done|done|done|lia|done|lia|]. intros nodes1 Hlen Hic1.
  destruct (lookup_lt_is_Some_2 S1 n) as [L HL]; [lia|].
  destruct (covers_down layers S1 n k L l a m (ct_linked _ _ _ _ Hct) HL (ok_layer _ _ _ Hok _ _ HL) Hl
              (ok_layer _ _ _ Hok _ _ Hl) Hc) as (l1 & b & l2 & -> & Hst & Hp & _).
  apply wp_bind, (wp_lookup_down layers ZCAP t _ _ _ _ _ _ _ _ Hl).
  assert (Hgo : wp (let* down := down_target MAX_LAYERS n (lookup_down k a) in
                    descend_seq EXP MAX_LAYERS merge_threshold fuel k h n down nodes1) S1 hp
                  (fun r S' hp' => hp' = hp /\ seq_post N d k h r S')).
  { apply wp_bind, (wp_down_target EXP MAX_LAYERS layers ZCAP t merge_threshold Hthreshold Hzcap Hpos Hmax); [lia|]. rewrite <- Hp.
    apply IH; [|lia|done|done]. split; try done. by exists l1, b, l2. }
  destruct (lookup_down k a) as [[k' q]|] eqn:Hlook; [|exact Hgo].
  destruct (Z.eqb_spec k' k) as [->|Hne]; [|exact Hgo]. apply wp_ret. split; [done|].
  split; [exact (iced_unlocked layers Unlocked N S1 d k h n nodes1 eq_refl Hct Hic1)|].
  by apply (found_holds layers S1 d k n l a m k q); [apply Hct|apply Hct|..].
Qed.

(** ** Going up *)

Lemma wp_partition_layers_seq N d k h nodes n : forall i S p Q hp,
  climbing N d k (VDown p) h i S nodes -> (i + n + 1 = h)%nat -> (h <= layers)%nat ->
  (forall S' p', climbing N d k (VDown p') h (h - 1) S' nodes -> Q p' S' hp) ->
  wp (partition_layers_seq junk nodes k i n p) S hp Q.
Proof.
  induction n as [|n IH]; intros i S p Q hp Hcb Hn Hh HQ; cbn [partition_layers_seq].
  { apply wp_ret, HQ. by replace (h - 1)%nat with i by lia. }
  destruct (climbing_node (vof:=vof) _ _ _ _ _ _ _ _ _ _ Hcb) as (l & c & m & Hq & Hl & Hst & Hr1 & Hr2 & Hc & Habs); [lia|].
  apply wp_okay. intros Hok. specialize (Habs (ok_layer _ _ _ Hok _ _ Hl)).
  apply wp_bind, (wp_node_at layers ZCAP t _ _ _ _ _ _ Hq).
  apply (wp_divide layers ZCAP t junk Hl Hc Habs INDEX p); [done|]. intros a' b m' Hdv Hb.
  destruct (divided_unlocked _ _ _ _ _ _ _ _ Hdv Hr1 Hr2 Hst Hb) as [Hg Ha].
  apply IH; [by eapply climbing_up; [exact Hcb|lia|..]|lia|done|done].
Qed.

Section Data.
Context {N h : nat} {d : list (Z * V)} {k : Z} (x : V) {S : list (list anode)}.
Context {nodes : list (option ptr)} {l : list anode} {a : anode} {m : list anode} {hp : hpstate}.
Context (Hct : content N S d) (Hic : iced k h 0 S nodes) (Hl : S !! 0%nat = Some (l ++ a :: m)).
Context (Hc : covers k l a m) (Ha : unlocked a) (Hh : (h <= layers)%nat).

Context (rng : Z) (Q : bool * Z -> list (list anode) -> hpstate -> Prop).
Context (HQ : forall S', ready (N + 2) S' (kv_add k x d) -> (kv_lookup k d = None -> tower k h S') -> Q (bool_decide (kv_lookup k d = None), rng) S' hp).

Lemma seq_lookup : slayer vof 0 (l ++ a :: m) -> kv_lookup k (a_elems a) = VData <$> kv_lookup k d.
Proof using Hct Hl Hc.
  intros Hlay. destruct (ct_holds _ _ _ _ Hct) as (L & HL & Hd). assert (L = l ++ a :: m) as -> by congruence.
  rewrite <- kv_lookup_vmap, <- Hd. symmetry. by apply (flat_covers_lookup l a m (sl_sorted _ _ Hlay)).
Qed.

Lemma seq_present : is_Some (kv_lookup k d) -> Q (false, rng) S hp.
Proof using All.
  intros [y Hk]. pose proof (HQ S) as HF. rewrite bool_decide_eq_false_2 in HF by congruence. apply HF; [|congruence].
  rewrite (kv_add_present _ _ y) by done. eapply ready_mono; [|by apply Nat.le_add_r].
  exact (iced_unlocked layers Unlocked N S d k h 0 nodes eq_refl Hct Hic).
Qed.

Lemma wp_insert_seq_tall :
  (0 < h)%nat ->
  wp (let* present := vget DATA (a_ptr a) (v_contains k) in
      match present with
      | Some _ => Ret (false, rng)
      | None =>
          make_room junk DATA (a_ptr a) k ;;;
          let* new_data_node := node_new junk DATA (a_ptr a) false in
          vsteal DATA new_data_node (a_ptr a) (v_split_insert k x) ;;;
          let* down_ptr := partition_layers_seq junk nodes k 0 (h - 1) new_data_node in
          let* top_node := node_at nodes (h - 1) in
          node_insert junk INDEX top_node k down_ptr ;;;
          Ret (true, rng)
      end) S hp Q.
Proof using All.
  intros Hh0. apply wp_okay. intros Hok. pose proof (seq_lookup (ok_layer _ _ _ Hok _ _ Hl)) as Hlook.
  pose proof (ic_resting _ _ _ _ _ _ Hic _ _ Hl ltac:(lia)) as Hr. apply Forall_app in Hr as [Hr1 [_ Hr2]%Forall_cons].
  apply wp_bind, (wp_contains_key layers ZCAP t Hl (kd:=DATA)); [done|]. rewrite Hlook.
  destruct (kv_lookup k d) as [y|] eqn:Hk in Hlook |- *; cbn [mbind option_bind unwrap fmap option_fmap option_map].
  { apply wp_ret, seq_present. by rewrite Hk. }
  apply (wp_divide layers ZCAP t junk Hl Hc Hlook DATA x); [done|]. intros a' b m' Hdv Hb.
  destruct (divided_unlocked _ _ _ _ _ _ _ _ Hdv Hr1 Hr2 Ha Hb) as [Hg Ha'].
  apply wp_bind, (wp_partition_layers_seq N (kv_add k x d) k h nodes _ 0); [|lia|done|].
  { by eapply (climbing_start layers Unlocked). }
  intros S2 p Hcb.
  destruct (climbing_node (vof:=vof) _ _ _ _ _ _ _ _ _ _ Hcb) as (l2 & c & m2 & Hq & Hl2 & Hst & Hr3 & Hr4 & Hc2 & Habs); [lia|].
  replace (Datatypes.S (h - 1)) with h in Hl2, Habs by lia. clear Hok.
  apply wp_okay. intros Hok. specialize (Habs (ok_layer _ _ _ Hok _ _ Hl2)).
  apply wp_bind, (wp_node_at layers ZCAP t _ _ _ _ _ _ Hq).
  assert (Hkind : kind_of h = INDEX) by (destruct h; [lia|done]).
  apply wp_bind, (wp_node_insert layers ZCAP t junk _ _ h INDEX k p l2 c m2); try done.
  { intros [z Hz]. congruence. }
  intros c' m3 _ Hp. destruct (placed_unlocked _ _ _ _ _ _ _ _ Hp Hr3 Hr4 Hst) as [Hg2 Ha2].
  pose proof (HQ (<[h := l2 ++ c' :: m3]> S2)) as HT. rewrite bool_decide_eq_true_2 in HT by done.
  destruct (climbing_top layers Unlocked N (kv_add k x d) k (VDown p) h S2 nodes (l2 ++ c :: m2) (l2 ++ c' :: m3)) as [Hrd Htw]; try done.
  by apply wp_ret, HT.
Qed.

Lemma wp_insert_seq_data :
  h = 0%nat -> wp (let* r := node_insert junk DATA (a_ptr a) k x in Ret (r, rng)) S hp Q.
Proof using All.
  intros Hh0. apply wp_okay. intros Hok. pose proof (seq_lookup (ok_layer _ _ _ Hok _ _ Hl)) as Hlook.
  pose proof (ic_resting _ _ _ _ _ _ Hic _ _ Hl ltac:(lia)) as Hr. apply Forall_app in Hr as [Hr1 [_ Hr2]%Forall_cons].
  apply wp_bind, (wp_node_insert layers ZCAP t junk _ _ 0 DATA k x l a m); try done.
  - rewrite Hlook. intros [y Hy]. apply wp_ret, seq_present. by destruct (kv_lookup k d).
  - intros a' m' Habs Hp. destruct (placed_unlocked _ _ _ _ _ _ _ _ Hp Hr1 Hr2 Ha) as [Hg Ha'].
    assert (Hk : kv_lookup k d = None) by (rewrite Hlook in Habs; by destruct (kv_lookup k d)).
    pose proof (HQ (<[0%nat := l ++ a' :: m']> S)) as HT. rewrite bool_decide_eq_true_2 in HT by done.
    rewrite Hh0 in Hic, HT.
    destruct (placed_bottom layers Unlocked N d k x S nodes (l ++ a :: m) (l ++ a' :: m')) as [Hrd Htw]; try done.
    by apply wp_ret, HT.
Qed.
End Data.

(** ** The operation *)

Lemma wp_insert_seq fuel N d S hp rng k x Q :
  EXP INDEX <= 30 -> EXP DATA <= 30 ->
  ready N S d -> (N < fuel)%nat ->
  (forall h rng' S', random_height (EXP INDEX) (EXP DATA) layers rng = Some (h, rng') ->
     ready (N + 2) S' (kv_add k x d) -> (kv_lookup k d = None -> tower k h S') ->
     Q (bool_decide (kv_lookup k d = None), rng') S' hp) ->
  wp (insert_seq EXP MAX_LAYERS layers merge_threshold junk fuel rng k x) S hp Q.
Proof using All.
  intros Hei Hed Hrd Hfuel HQ. unfold insert_seq.
  destruct (random_height_le _ _ layers rng Hei Hed Hpos) as (h & rng' & Hrng & Hh). rewrite Hrng.
  apply wp_bind, wp_ret.
  assert (HQ' : forall S', ready (N + 2) S' (kv_add k x d) -> (kv_lookup k d = None -> tower k h S') ->
            Q (bool_decide (kv_lookup k d = None), rng') S' hp)
    by (intros; by eapply HQ).
  clear HQ. apply wp_okay. intros Hok. destruct (okay_head layers _ _ layers Hok) as (a & m & Hl & Hp); [done|].
  apply wp_bind, wp_index_head; [lia|]. replace (Datatypes.S (layers - 1)) with layers by lia. rewrite <- Hp.
  apply wp_bind. eapply wp_mono; [apply (wp_descend_seq fuel N d k h hp layers); [|done|done|done]|].
  { split; [by apply ready_content|by eapply ready_iced|apply length_replicate|].
    exists [], a, m. split_and!; [done|by left|done]. }
  intros r S1 hp1 [-> Hr]. destruct r as [[p nodes]|].
  - apply wp_bind, (wp_check_next_noting fuel N d k h 0 S1 nodes p); [done|done|].
    intros S2 l b m2 Hct Hic Hl2 Hc Hb. destruct (Nat.eqb_spec h 0) as [Hh0|Hh0].
    + by apply (wp_insert_seq_data x Hct Hic Hl2 Hc Hb Hh).
    + apply (wp_insert_seq_tall x Hct Hic Hl2 Hc Hb Hh); [done|lia].
  - destruct Hr as [Hrd1 [y Hy]]. apply wp_ret. specialize (HQ' S1).
    rewrite bool_decide_eq_false_2 in HQ' by congruence. apply HQ'; [|congruence].
    rewrite (kv_add_present _ _ y) by done. eapply ready_mono; [done|lia].
Qed.
End SvInsertSeq.
