(* ===== verification/SvRemove.v ===== *)
(** * SvRemove: a removal goes down

    A removal takes the key out of the uppermost layer that has it, follows its
    down pointer, and goes on in the layer below, where the key starts a node;
    that node becomes an orphan.  In between, layer [j] has an anchor for the
    key and the layer above does not. *)

From Stdlib Require Import QArith.
From S2P Require Import Prelude KvList Prog SvLock VecSpec HazardPtr World Layers Heap SvNode SvOps.
From S2P Require Import SvLayers SvMem SvWp SvWalk SvDescend SvGrow SvFreeze.

Local Open Scope Z_scope.
Import Thread.

(** ** Taking a key out of a node *)

Section Remove.
Context {V : Type} {vof : kind -> Type -> Type} `{HV : forall kd, VecOps (vof kd)}.
Local Abbreviation anode := (anode V (lock_state * Z)).
Implicit Types (a b c : anode) (l m L : list anode) (k : Z) (n : nat) (v : value V).

Definition without_key k a : anode := with_elems (kv_remove k (a_elems a)) a.

(** After [release_as_orphan]. *)
Definition orphaned k a : anode := with_lock (al_bump true (lock_of a)) (without_key k a).

Section Layer.
Context {n : nat} {l : list anode} {a : anode} {m : list anode} {k : Z}.
Context (Hlay : slayer vof n (l ++ a :: m)) (Hc : covers k l a m).

Lemma flat_without a' : a_elems a' = kv_remove k (a_elems a) -> flat (l ++ a' :: m) = kv_remove k (flat (l ++ a :: m)).
Proof using All.
  intros He. rewrite !flat_mid, He. unfold kv_remove. rewrite !filter_app.
  pose proof (flat_starts_left l a m (sl_sorted _ _ Hlay) k (proj1 Hc)) as Hleft. destruct Hc as [_ Hright].
  f_equal; [|f_equal]; symmetry; apply kv_filter_all; intros e Hin.
  - specialize (Hleft e Hin). lia.
  - specialize (Hright e Hin). lia.
Qed.

Lemma slayer_without a' :
  a_elems a' = kv_remove k (a_elems a) -> a_ptr a' = a_ptr a -> (a_orphan a = true -> a_orphan a' = true) ->
  alock_ok (lock_of a') -> (a_orphan a' = false -> kv_remove k (a_elems a) <> []) -> slayer vof n (l ++ a' :: m).
Proof using All.
  intros He Hp Ho Hal Hne. pose proof (slayer_mid _ _ _ _ Hlay) as [_ G2 _].
  apply (slayer_replace n l a [] m a' []); try done.
  - constructor; [|done]. split; [by rewrite He| |done]. rewrite He.
    etransitivity; [apply length_filter|done].
  - pose proof (flat_without a' He) as Hf. rewrite flat_mid in Hf. cbn. rewrite app_nil_r, Hf.
    apply kv_sorted_filter, (sl_sorted _ _ Hlay).
Qed.

(** A node that does not start with the key keeps its anchor. *)
Lemma keeps_first :
  a_orphan a = false -> kv_first (a_elems a) <> Some k ->
  kv_remove k (a_elems a) <> [] /\ kv_first (kv_remove k (a_elems a)) = kv_first (a_elems a).
Proof using Hlay.
  intros Ho Hne. pose proof (g_anchored _ _ (slayer_mid _ _ _ _ Hlay) Ho) as Hn.
  destruct (a_elems a) as [|[k0 x] el]; [done|]. unfold kv_remove. rewrite filter_cons_True; [done|].
  cbn in *. congruence.
Qed.

Lemma anchors_without :
  (a_orphan a = false -> kv_first (a_elems a) <> Some k) ->
  anchors (l ++ without_key k a :: m) = anchors (l ++ a :: m).
Proof using Hlay.
  intros Hne. rewrite !anchors_app. f_equal. rewrite !anchors_cons. unfold anchor. cbn.
  destruct (a_orphan a) eqn:Ho; [done|]. by destruct (keeps_first Ho (Hne eq_refl)) as [_ ->].
Qed.

(** A node that starts with the key loses it, as an orphan. *)
Lemma anchors_orphaned :
  kv_first (a_elems a) = Some k -> anchors (l ++ orphaned k a :: m) = kv_remove k (anchors (l ++ a :: m)).
Proof using All.
  intros Hk. destruct (anchors_around Hlay Hc) as [Hal Ham].
  change (l ++ a :: m) with (l ++ [a] ++ m). change (l ++ orphaned k a :: m) with (l ++ [orphaned k a] ++ m).
  rewrite !anchors_app. unfold kv_remove. rewrite !filter_app.
  rewrite (kv_filter_all _ (anchors l)), (kv_filter_all _ (anchors m)).
  - f_equal. f_equal. cbn. unfold anchor. cbn. rewrite Hk. destruct (a_orphan a); [done|].
    cbn. case_decide; [congruence|done].
  - intros e He. specialize (Ham e He). lia.
  - intros e He. specialize (Hal e He). lia.
Qed.
End Layer.
End Remove.

(** ** Half-done removals *)

Section SvSink.
Context {V : Type} {vof : kind -> Type -> Type} `{HV : forall kd, VecOps (vof kd)}.
Context (layers : nat).
Local Abbreviation anode := (anode V (lock_state * Z)).
Local Abbreviation ready := (ready (V:=V) layers).
Implicit Types (a b c : anode) (l m L : list anode) (S : list (list anode)).
Implicit Types (n i j N : nat) (p : ptr) (k : Z) (d : list (Z * V)) (v : value V).

(** Node [b] of layer [j] is locked and starts with [k], which is not in the
    layers above any more. *)
Record sinking N d k j l b m S : Prop := {
  sk_pending : pending layers j k (VDown (a_ptr b)) S;
  sk_holds : holds S d;
  sk_node : S !! j = Some (l ++ b :: m);
  sk_locked : state_of b = Locked;
  sk_orphan : a_orphan b = false;
  sk_first : kv_first (a_elems b) = Some k;
  sk_around : resting l /\ resting m;
  sk_resting n L : S !! n = Some L -> n <> j -> resting L;
  sk_sized n L : S !! n = Some L -> (length L <= N)%nat;
  sk_above n L : S !! n = Some L -> (j < n)%nat -> kv_lookup k (flat L) = None;
  sk_level : (j < layers)%nat;
}.

(** A node that starts with [k] covers it. *)
Lemma first_covers n l b m k :
  slayer vof n (l ++ b :: m) -> kv_first (a_elems b) = Some k -> covers k l b m.
Proof.
  intros Hlay Hk. split; [right; exists k; split; [done|lia]|]. intros e He.
  destruct (flat_parts l b m (sl_sorted _ _ Hlay)) as (_ & _ & Hlt & _).
  apply kv_first_elem in Hk as (e0 & He0 & <-). by apply Hlt.
Qed.

Lemma first_lookup n l b m k :
  slayer vof n (l ++ b :: m) -> kv_first (a_elems b) = Some k -> exists x, kv_lookup k (a_elems b) = Some x.
Proof.
  intros Hlay Hk. apply kv_first_Some in Hk as (x & el & ->). exists x. cbn. by rewrite Z.eqb_refl.
Qed.

(** The node that an entry of the layer above leads to. *)
Lemma anchor_node L k v :
  kv_sorted (flat L) -> kv_lookup k (anchors L) = Some v ->
  exists l b m, L = l ++ b :: m /\ v = VDown (a_ptr b) /\ a_orphan b = false /\ kv_first (a_elems b) = Some k.
Proof.
  intros Hs Hk. apply kv_lookup_elem, elem_of_anchors in Hk as (b & Hb & Ho & Hf & Hv). cbn in Hf, Hv.
  apply list_elem_of_split in Hb as (l & m & ->). by exists l, b, m.
Qed.

Lemma insert_twice_Some S i j L1 L2 n L :
  <[i := L1]> (<[j := L2]> S) !! n = Some L ->
  (n = i /\ L = L1) \/ (n <> i /\ n = j /\ L = L2) \/ (n <> i /\ n <> j /\ S !! n = Some L).
Proof. rewrite !list_lookup_insert_Some. intuition. Qed.

(** The node [c] is locked, and the layer above it lost the key. *)
Lemma sinking_intro N d k j S X l c m :
  pending layers j k (VDown (a_ptr c)) (<[Datatypes.S j := X]> S) -> holds S d ->
  S !! j = Some (l ++ c :: m) -> a_orphan c = false -> kv_first (a_elems c) = Some k ->
  resting (l ++ c :: m) -> resting X -> (length X <= N)%nat -> kv_lookup k (flat X) = None ->
  (forall n L, S !! n = Some L -> n <> Datatypes.S j -> resting L) ->
  (forall n L, S !! n = Some L -> (length L <= N)%nat) ->
  (forall n L, S !! n = Some L -> (Datatypes.S j < n)%nat -> kv_lookup k (flat L) = None) ->
  (j < layers)%nat -> (j < length S)%nat ->
  sinking N d k j l (set_state Locked c) m (<[Datatypes.S j := X]> (<[j := l ++ set_state Locked c :: m]> S)).
Proof.
  intros H1 (D & HD & Hd) Hl Ho Hf Hrl HrX HX HkX Hr HN Hk Hj Hlt.
  assert (Hsame : same (l ++ c :: m) (l ++ set_state Locked c :: m))
    by (rewrite set_state_with_lock; by apply same_lock).
  split; try done.
  - rewrite list_insert_insert_ne by lia.
    apply (pending_same layers _ (l ++ c :: m)); [done|by rewrite list_lookup_insert_ne|done].
  - destruct (decide (j = 0%nat)) as [->|Hj0].
    + assert (D = l ++ c :: m) as -> by congruence. eexists. rewrite list_lookup_insert_ne by done.
      split; [by apply list_lookup_insert_eq|]. rewrite <- Hd. apply Hsame.
    + exists D. by rewrite !list_lookup_insert_ne.
  - rewrite list_lookup_insert_ne by lia. by apply list_lookup_insert_eq.
  - destruct (resting_parts _ _ _ Hrl) as (? & _ & ?). done.
  - intros n L [[-> ->]|[(_ & -> & _)|(Hne & _ & Hn)]]%insert_twice_Some Hnj; [done|done|by apply (Hr n)].
  - intros n L [[-> ->]|[(_ & -> & ->)|(_ & _ & Hn)]]%insert_twice_Some; [done| |eauto].
    specialize (HN _ _ Hl). by rewrite length_app in *.
  - intros n L [[-> ->]|[(_ & -> & _)|(Hne & _ & Hn)]]%insert_twice_Some Hjn; [done|lia|].
    apply (Hk n); [done|lia].
Qed.

Context (S : list (list anode)) (Hslayer : forall n L, S !! n = Some L -> slayer vof n L).
Context (Hlen : length S = Datatypes.S layers).

(** From one layer to the next. *)
Lemma sinking_down N d k j l b m :
  sinking N d k (Datatypes.S j) l b m S ->
  covers k l b m /\
  exists l' c m', S !! j = Some (l' ++ c :: m') /\ kv_lookup k (a_elems b) = Some (VDown (a_ptr c)) /\ unlocked c /\
    sinking N d k j l' (set_state Locked c) m'
      (<[Datatypes.S j := l ++ orphaned k b :: m]> (<[j := l' ++ set_state Locked c :: m']> S)).
Proof using Hslayer Hlen.
  intros [H1 H2 Hl Hst Ho Hf [Hr1 Hr2] H7 H8 H9 Hj]. pose proof (Hslayer _ _ Hl) as Hlay.
  pose proof (first_covers _ _ _ _ _ Hlay Hf) as Hc. split; [done|].
  destruct (first_lookup _ _ _ _ _ Hlay Hf) as [x Hx].
  destruct (lookup_lt_is_Some_2 S j) as [L HL]; [lia|].
  destruct (lookup_lt_is_Some_2 S (Datatypes.S (Datatypes.S j))) as [U HU]; [lia|].
  pose proof (sl_sorted _ _ (Hslayer _ _ HL)) as HsL. pose proof (sl_sorted _ _ (Hslayer _ _ HU)) as HsU.
  pose proof (pd_link _ _ _ _ _ H1 j _ _ ltac:(lia) HL Hl) as Hlink.
  assert (Hxl : kv_lookup k (flat (l ++ b :: m)) = Some x)
    by (by rewrite (flat_covers_lookup _ _ _ (sl_sorted _ _ Hlay) k Hc)).
  destruct (anchor_node L k x HsL) as (l' & c & m' & -> & -> & Hco & Hcf); [congruence|].
  pose proof (H7 _ _ HL ltac:(lia)) as Hrc. destruct (resting_parts _ _ _ Hrc) as (_ & Hcu & _).
  exists l', c, m'. split_and!; try done. apply sinking_intro; try done; try lia.
  - eapply (pending_down layers S (l ++ b :: m) _ k _ j U); try done.
    + eapply H9; [done|lia].
    + apply (sl_sorted _ _ Hlay).
    + by apply (flat_without Hlay Hc).
    + by apply (anchors_orphaned Hlay Hc).
  - apply Forall_app. split; [done|]. by constructor.
  - specialize (H8 _ _ Hl). by rewrite length_app in *.
  - rewrite (flat_without Hlay Hc) by done. apply kv_lookup_remove.
Qed.

(** No node of layer [n] starts with [k] and has a parent. *)
Definition topless k n : Prop := forall L, S !! n = Some L -> kv_lookup k (anchors L) = None.

(** The start: the uppermost layer with the key. *)
Lemma sinking_start N d k j l a m x a' :
  ready N S d -> S !! Datatypes.S j = Some (l ++ a :: m) -> covers k l a m ->
  kv_lookup k (a_elems a) = Some x -> topless k (Datatypes.S j) ->
  a_elems a' = kv_remove k (a_elems a) -> unlocked a' -> anchors (l ++ a' :: m) = anchors (l ++ a :: m) ->
  exists l' c m', S !! j = Some (l' ++ c :: m') /\ x = VDown (a_ptr c) /\ unlocked c /\
    sinking N d k j l' (set_state Locked c) m'
      (<[Datatypes.S j := l ++ a' :: m]> (<[j := l' ++ set_state Locked c :: m']> S)).
Proof using Hslayer Hlen.
  intros [H1 H2 H3 H4] Hl Hc Hx Htop Ha' Hu Hanc. pose proof (Hslayer _ _ Hl) as Hlay.
  pose proof (lookup_lt_Some _ _ _ Hl) as Hlt.
  destruct (lookup_lt_is_Some_2 S j) as [L HL]; [lia|].
  pose proof (sl_sorted _ _ (Hslayer _ _ HL)) as HsL.
  pose proof (lk_link _ _ H1 _ _ _ HL Hl) as Hlink.
  assert (Hxl : kv_lookup k (flat (l ++ a :: m)) = Some x)
    by (by rewrite (flat_covers_lookup _ _ _ (sl_sorted _ _ Hlay) k Hc)).
  destruct (anchor_node L k x HsL) as (l' & c & m' & -> & -> & Hco & Hcf); [congruence|].
  destruct (resting_parts _ _ _ (H3 _ _ HL)) as (_ & Hcu & _).
  destruct (resting_parts _ _ _ (H3 _ _ Hl)) as (Hr1 & _ & Hr2).
  exists l', c, m'. split_and!; try done. apply sinking_intro; try done; try lia.
  - eapply (pending_remove layers S (l ++ a :: m)); try done; [apply (sl_sorted _ _ Hlay)|].
    by apply (flat_without Hlay Hc).
  - eauto.
  - apply Forall_app. split; [done|]. by constructor.
  - specialize (H4 _ _ Hl). by rewrite length_app in *.
  - rewrite (flat_without Hlay Hc) by done. apply kv_lookup_remove.
  - intros n U HU _. eauto.
  - intros n U HU Hn. (* every layer above has only anchors of the one below *)
    assert (Hup : forall i u, S !! (i + Datatypes.S (Datatypes.S j))%nat = Some u -> kv_lookup k (flat u) = None).
    { induction i as [|i IH]; intros u Hi.
      - rewrite (lk_link _ _ H1 _ _ _ Hl Hi). by apply Htop.
      - destruct (lookup_lt_is_Some_2 S (i + Datatypes.S (Datatypes.S j))) as [w Hw]; [apply lookup_lt_Some in Hi; lia|].
        rewrite (lk_link _ _ H1 _ _ _ Hw Hi). specialize (IH w Hw). rewrite kv_lookup_None in *.
        intros e [y Hy]%anchors_flat. exact (IH _ Hy). }
    apply (Hup (n - Datatypes.S (Datatypes.S j))%nat). by replace (n - _ + _)%nat with n by lia.
Qed.
End SvSink.

(** * Removal

    [remove] finds the uppermost layer with the key, takes the key out there,
    and follows its down pointers to the data layer, locking each node before
    it releases the one above.  Run alone, its test that the node is the
    uppermost never sends it back. *)
Import Thread.

Section SvRemove.
Context {V : Type} {vof : kind -> Type -> Type}.
Context `{HV : forall kd, VecOps (vof kd)} `{HS : forall kd, VecSpec (vof kd)}.
Context `{HM : forall kd, VecMapOps (vof kd)} `{HMS : forall kd, VecMapSpec (vof kd)}.
Context (EXP : kind -> Z) (MAX_LAYERS layers ZCAP t : nat) (merge_threshold : Q).
Context (Hthreshold : forall kd n, (0 < EXP kd) ->
  Qle_bool (merge_threshold * inject_Z (2 ^ EXP kd)) (inject_Z (Z.of_nat n)) = false ->
  (n <= v_capacity (vof kd))%nat).
Context (Hzcap : (1 <= ZCAP)%nat) (Hpos : (0 < layers)%nat) (Hmax : (layers <= MAX_LAYERS)%nat).

Local Abbreviation mem := (mem V unit (fun _ => chunk V vof)).
Local Abbreviation anode := (anode V (lock_state * Z)).
Local Abbreviation hpstate := (option (held ptr * list ptr)).
Local Abbreviation wp := (wp (V:=V) (vof:=vof) layers ZCAP t).
Local Abbreviation sv := (sv (V:=V) (vof:=vof) layers).
Local Abbreviation exec := (exec (V:=V) (vof:=vof) ZCAP t).
Local Abbreviation ready := (ready (V:=V) layers).
Local Abbreviation sinking := (sinking (V:=V) layers).
Implicit Types (a b c : anode) (l m L : list anode) (S : list (list anode)) (hp : hpstate).
Implicit Types (n i j N fuel : nat) (p : ptr) (k : Z) (kd : kind) (zs : list ptr) (d : list (Z * V)).

(** ** One layer down *)

Section GiveUp.
Context {S : list (list anode)} {M : gmap ptr (cell V)} {fr : positive} {hp : hpstate}.
Context {n : nat} {l : list anode} {b : anode} {m : list anode} {k : Z}.
Context (H : sv S (AState M fr hp)) (Hl : S !! n = Some (l ++ b :: m)).
Context (Hst : state_of b = Locked) (Ho : a_orphan b = false).

Local Abbreviation given_up := (Cell (lock_of b) (head_or m None) (kind_of n) (kv_remove k (a_elems b))).

(** The node [b] gives up a key, *)
Lemma exec_remove_key x :
  kv_lookup k (a_elems b) = Some (wrap (kind_of n) x) ->
  exec (vupd (kind_of n) (a_ptr b) (v_remove k)) (AState M fr hp) (Some x)
    (AState (<[a_ptr b := given_up]> M) fr hp).
Proof using H Hl HMS.
  intros Hk. pose proof (sv_cell _ _ _ _ _ _ _ H Hl) as Hb. cbn in Hb.
  eapply (exec_vupd Hb). intros v Hv He. rewrite He, kv_lookup_vmap in Hk.
  destruct (kv_lookup k (v_elems v)) as [y|] eqn:Hy; [|done]. cbn in Hk. injection Hk as Hk.
  apply wrap_inj in Hk as ->. destruct (v_remove_present k x v Hv Hy) as (v' & Hr & Hv' & He').
  exists v'. by rewrite Hr, He', He, kv_remove_vmap.
Qed.

(** and becomes an orphan. *)
Lemma exec_orphan M1 :
  exists w, exec (lock_rmw (a_ptr b) release_as_orphan) (AState (<[a_ptr b := given_up]> M1) fr hp) w
    (AState (<[a_ptr b := cell_of n (orphaned k b) (head_or m None)]> M1) fr hp).
Proof using H Hl Hst Ho.
  pose proof (g_lock _ _ (slayer_mid _ _ _ _ (sv_layer _ _ _ H _ _ Hl))) as Hal.
  exists (word (orphaned k b)).
  rewrite <- (insert_insert_eq M1 (a_ptr b) (cell_of n (orphaned k b) (head_or m None)) given_up).
  apply (exec_lock (lookup_insert_eq _ _ _)).
  rewrite release_as_orphan_implements by done. unfold al_release_as_orphan. cbn [al_orphan lock_of]. rewrite Ho.
  unfold al_from. rewrite decide_True by exact Hst. reflexivity.
Qed.

Lemma slayer_orphaned : slayer vof n (l ++ b :: m) -> covers k l b m -> slayer vof n (l ++ orphaned k b :: m).
Proof using Ho.
  intros Hlay Hc. apply (slayer_without Hlay Hc); try done. cbn. apply al_bump_ok.
Qed.

Lemma sv_orphaned : covers k l b m ->
  sv (<[n := l ++ orphaned k b :: m]> S)
    (AState (<[a_ptr b := cell_of n (orphaned k b) (head_or m None)]> M) fr hp).
Proof using H Hl Hst Ho HS ZCAP t.
  intros Hc. apply (sv_node layers ZCAP t S M fr hp n l b (orphaned k b) m); try done.
  apply slayer_orphaned; [|done]. by apply (sv_layer _ _ _ H).
Qed.
End GiveUp.

(** A lock of another layer changes before. *)
Lemma wp_remove_link_down fuel S hp n l b m k x n' l' c m' Q :
  S !! Datatypes.S n = Some (l ++ b :: m) -> state_of b = Locked -> a_orphan b = false -> covers k l b m ->
  kv_lookup k (a_elems b) = Some (VDown x) -> x = a_ptr c ->
  S !! n' = Some (l' ++ c :: m') -> n' <> Datatypes.S n -> unlocked c ->
  Q (a_ptr c) (<[Datatypes.S n := l ++ orphaned k b :: m]> (<[n' := l' ++ set_state Locked c :: m']> S)) hp ->
  wp (remove_link (Datatypes.S fuel) k false (a_ptr b)) S hp Q.
Proof.
  intros Hl Hst Ho Hc Hk -> Hl' Hn Hcu HQ M fr H.
  pose proof (sv_nodup _ _ _ H) as Hnd. apply NoDup_app in Hnd as (_ & _ & Hnd).
  assert (Hne : a_ptr c <> a_ptr b).
  { destruct (ptr_other S n' l' c m' Hnd Hl') as [_ Hoth]. intros He. symmetry in He.
    apply (Hoth (Datatypes.S n) (l ++ b :: m) b) in He; [done|done|done|]. apply elem_of_app. right. left. }
  pose proof (sv_cell _ _ _ _ _ _ _ H Hl') as Hcc. cbn in Hcc.
  pose proof (g_lock _ _ (slayer_mid _ _ _ _ (sv_layer _ _ _ H _ _ Hl'))) as Hal.
  assert (H1 : sv (<[n' := l' ++ set_state Locked c :: m']> S)
            (AState (<[a_ptr c := cell_of n' (set_state Locked c) (head_or m' None)]> M) fr hp)).
  { apply (sv_node layers ZCAP t S M fr hp n' l' c (set_state Locked c) m'); try done.
    rewrite set_state_with_lock. apply slayer_lock; [by apply (sv_layer _ _ _ H)|done|done]. }
  assert (Hl1 : <[n' := l' ++ set_state Locked c :: m']> S !! Datatypes.S n = Some (l ++ b :: m))
    by (by rewrite list_lookup_insert_ne).
  destruct (exec_orphan (k:=k) H Hl Hst Ho (<[a_ptr c := cell_of n' (set_state Locked c) (head_or m' None)]> M)) as [w He].
  do 5 eexists. split; [|split; [exact (sv_orphaned H1 Hl1 Hst Ho Hc)|exact HQ]].
  eapply exec_bind; [exact (exec_remove_key (n:=Datatypes.S n) H Hl (a_ptr c) Hk)|].
  eapply exec_bind; [by apply exec_lift_opt|].
  eapply exec_bind; [apply (exec_acquire (p:=a_ptr c) (al:=lock_of c) (nx:=head_or m' None) (kd:=kind_of n') (el:=a_elems c));
    [by rewrite lookup_insert_ne|done|exact Hcu]|].
  rewrite insert_insert_ne by done.
  eapply exec_bind; [|apply exec_ret]. eapply exec_bind; [exact He|apply exec_ret].
Qed.

(** The removal sinks by one layer. *)
Lemma wp_sink fuel N d k j l b m S hp Q :
  sinking N d k (Datatypes.S j) l b m S ->
  (forall S' l' b' m', sinking N d k j l' b' m' S' -> Q (a_ptr b') S' hp) ->
  wp (remove_link (Datatypes.S fuel) k false (a_ptr b)) S hp Q.
Proof.
  intros Hsk HQ. apply wp_okay. intros Hok.
  destruct (sinking_down layers S (ok_layer _ _ _ Hok) (ok_len _ _ _ Hok) N d k j l b m Hsk)
    as (Hc & l' & c & m' & Hl' & Hx & Hcu & Hsk').
  eapply (wp_remove_link_down fuel S hp j l b m k _ j l' c m'); try done; try apply Hsk.
  by apply (HQ _ l' (set_state Locked c) m').
Qed.

(** ** The uppermost layer *)

Section Top.
Context {N : nat} {d : list (Z * V)} {S : list (list anode)} {hp : hpstate} {j : nat} {k : Z}.
Context {l : list anode} {a : anode} {m : list anode}.
Context (Hrd : ready N S d) (Hok : okay (vof:=vof) layers S hp) (Hl : S !! j = Some (l ++ a :: m)).
Context (Hc : covers k l a m) (Htop : topless S k j).

Local Abbreviation locked := (set_state Locked a).
Local Abbreviation removed := (without_key k locked).

Lemma top_layer : slayer vof j (l ++ a :: m).
Proof using Hok Hl. by apply (ok_layer _ _ _ Hok). Qed.

(** The node does not start with [k], or it is an orphan. *)
Lemma top_not_first : a_orphan a = false -> kv_first (a_elems a) <> Some k.
Proof using Hl Htop Hok.
  intros Ho Hk. specialize (Htop _ Hl). rewrite kv_lookup_None in Htop.
  apply (Htop (k, VDown (a_ptr a))); [|done]. apply elem_of_anchors. exists a. split; [|done].
  apply elem_of_app. right. left.
Qed.

Lemma top_removed st :
  slayer vof j (l ++ without_key k (set_state st a) :: m) /\
  anchors (l ++ without_key k (set_state st a) :: m) = anchors (l ++ a :: m).
Proof using Hl Htop Hok Hc.
  pose proof top_layer as Hlay. split.
  - apply (slayer_without Hlay Hc); try done; [apply (g_lock _ _ (slayer_mid _ _ _ _ Hlay))|].
    intros Ho. by destruct (keeps_first Hlay Ho (top_not_first Ho)).
  - rewrite <- (anchors_without Hlay top_not_first). rewrite !anchors_app, !anchors_cons. done.
Qed.

Lemma top_bumped :
  slayer vof j (l ++ bump removed :: m) /\ anchors (l ++ bump removed :: m) = anchors (l ++ a :: m).
Proof using Hl Htop Hok Hc.
  destruct (top_removed Locked) as [H1 <-]. rewrite bump_with_lock. split.
  - apply slayer_lock; [done|apply al_bump_ok|done].
  - by apply (same_lock l removed m).
Qed.
End Top.

(** The first step: no node above starts with the key. *)
Lemma wp_remove_link_top fuel N d k j l a m S hp Q :
  ready N S d -> okay (vof:=vof) layers S hp -> S !! Datatypes.S j = Some (l ++ a :: m) ->
  covers k l a m -> is_Some (kv_lookup k (a_elems a)) -> topless S k (Datatypes.S j) ->
  (forall S' l' b' m', sinking N d k j l' b' m' S' -> Q (a_ptr b') S' hp) ->
  wp (remove_link (Datatypes.S fuel) k true (a_ptr a)) (<[Datatypes.S j := l ++ set_state Locked a :: m]> S) hp Q.
Proof.
  intros Hrd Hok Hl Hc [x Hx] Htop HQ. pose proof (lookup_lt_Some _ _ _ Hl) as Hlt.
  destruct (top_removed Hok Hl Hc Htop Locked) as [Hr1 _]. destruct (top_bumped Hok Hl Hc Htop) as [_ Hb2].
  destruct (sinking_start layers S (ok_layer _ _ _ Hok) (ok_len _ _ _ Hok) N d k j l a m x
              (bump (without_key k (set_state Locked a))) Hrd Hl Hc Hx Htop eq_refl eq_refl Hb2)
    as (l' & c & m' & Hl' & -> & Hcu & Hsk).
  assert (Hl0 : <[Datatypes.S j := l ++ set_state Locked a :: m]> S !! Datatypes.S j = Some (l ++ set_state Locked a :: m))
    by (by apply list_lookup_insert_eq).
  change (a_ptr a) with (a_ptr (set_state Locked a)).
  apply wp_bind, (wp_remove_key layers ZCAP t Hl0 (kd:=INDEX) eq_refl (HMS:=HMS)); [exact Hr1|].
  cbn [a_elems set_state]. rewrite Hx, list_insert_insert_eq. cbn [mbind option_bind unwrap lift_opt].
  apply wp_bind, wp_ret.
  change (with_elems (kv_remove k (a_elems a)) (set_state Locked a)) with (without_key k (set_state Locked a)).
  set (r := without_key k (set_state Locked a)) in *.
  assert (Hl2 : <[Datatypes.S j := l ++ r :: m]> S !! j = Some (l' ++ c :: m')) by (by rewrite list_lookup_insert_ne by lia).
  apply wp_bind, (wp_acquire Hl2); [done|].
  assert (Hl3 : <[j := l' ++ set_state Locked c :: m']> (<[Datatypes.S j := l ++ r :: m]> S) !! Datatypes.S j = Some (l ++ r :: m))
    by (rewrite list_lookup_insert_ne by lia; by apply list_lookup_insert_eq).
  change (a_ptr (set_state Locked a)) with (a_ptr r).
  apply wp_bind, wp_bind, (wp_release Hl3); [done|]. apply wp_ret, wp_ret.
  rewrite (list_insert_insert_ne S j (Datatypes.S j)) by lia. rewrite list_insert_insert_eq.
  apply (HQ _ l' (set_state Locked c) m'). exact Hsk.
Qed.

(** All the way down. *)
Lemma remove_links_top fuel k layer p :
  remove_links (V:=V) (vof:=vof) fuel k layer layer p =
  let* down := remove_link fuel k true p in
  match layer with O => Ret down | Datatypes.S i' => remove_links fuel k layer i' down end.
Proof. destruct layer; cbn [remove_links]; by rewrite Nat.eqb_refl. Qed.

Lemma wp_remove_links fuel N d k layer : forall i l b m S hp Q,
  sinking N d k i l b m S -> (i <= layer)%nat ->
  (forall S' l' b' m', sinking N d k 0 l' b' m' S' -> Q (a_ptr b') S' hp) ->
  wp (match i with
      | O => Ret (a_ptr b)
      | Datatypes.S i' => remove_links (Datatypes.S fuel) k layer i' (a_ptr b)
      end) S hp Q.
Proof.
  cut (forall i l b m S hp Q, sinking N d k (Datatypes.S i) l b m S -> (i < layer)%nat ->
    (forall S' l' b' m', sinking N d k 0 l' b' m' S' -> Q (a_ptr b') S' hp) ->
    wp (remove_links (Datatypes.S fuel) k layer i (a_ptr b)) S hp Q).
  { intros Hcut [|i] l b m S hp Q Hsk Hi HQ; [by apply wp_ret, (HQ S l b m)|by apply (Hcut i l b m)]. }
  induction i as [|i IH]; intros l b m S hp Q Hsk Hi HQ; cbn [remove_links];
    rewrite (proj2 (Nat.eqb_neq _ _)) by lia; eapply wp_bind, wp_sink; try exact Hsk; intros S' l' b' m' Hsk'.
  - by apply wp_ret, (HQ S' l' b' m').
  - apply (IH l' b' m'); [done|lia|done].
Qed.

(** ** The data layer *)

Lemma ready_removed N d k S l a m a' :
  linked layers (<[0%nat := l ++ a' :: m]> S) -> holds S d -> S !! 0%nat = Some (l ++ a :: m) ->
  slayer vof 0 (l ++ a :: m) -> covers k l a m -> a_elems a' = kv_remove k (a_elems a) -> unlocked a' ->
  resting l -> resting m -> (forall n L, S !! n = Some L -> n <> 0%nat -> resting L) ->
  (forall n L, S !! n = Some L -> (length L <= N)%nat) ->
  ready N (<[0%nat := l ++ a' :: m]> S) (kv_remove k d).
Proof.
  intros H1 (D & HD & Hd) Hl Hlay Hc He Hu Hr1 Hr2 Hr HN. assert (D = l ++ a :: m) as -> by congruence. split.
  - done.
  - eexists. split; [apply list_lookup_insert_eq; by eapply lookup_lt_Some|].
    by rewrite (flat_without Hlay Hc) by done; rewrite Hd, kv_remove_vmap.
  - intros n L [(<- & <- & _)|[Hn HL]]%list_lookup_insert_Some; [|by apply (Hr n)].
    apply Forall_app. split; [done|]. by constructor.
  - intros n L [(<- & <- & _)|[Hn HL]]%list_lookup_insert_Some; [|by eapply HN].
    specialize (HN _ _ Hl). by rewrite length_app in *.
Qed.

(** The removal arrives. *)
Lemma wp_remove_last N d k l b m S hp Q :
  sinking N d k 0 l b m S ->
  (is_Some (kv_lookup k d) -> forall S', ready N S' (kv_remove k d) -> Q (Some true) S' hp) ->
  wp (vupd DATA (a_ptr b) (v_remove k) ;;; lock_rmw (a_ptr b) release_as_orphan ;;; Ret (Some true)) S hp Q.
Proof.
  intros [H1 H2 Hl Hst Ho Hf [Hr1 Hr2] H7 H8 H9 Hj] HQ M fr H.
  pose proof (sv_layer _ _ _ H _ _ Hl) as Hlay. pose proof (first_covers _ _ _ _ _ Hlay Hf) as Hc.
  destruct (first_lookup _ _ _ _ _ Hlay Hf) as [x Hx].
  pose proof (layers_lookup S d k l b m H2 Hl Hlay Hc) as Hd. rewrite Hx in Hd. cbn [mbind option_bind] in Hd.
  destruct x as [x|p]; cbn in Hd; [|]; cycle 1.
  { exfalso. destruct H2 as (D & HD & Hfd). assert (D = l ++ b :: m) as -> by congruence.
    rewrite <- (flat_covers_lookup _ _ _ (sl_sorted _ _ Hlay) k Hc), Hfd, kv_lookup_vmap in Hx.
    by destruct (kv_lookup k d). }
  destruct (exec_orphan (k:=k) H Hl Hst Ho M) as [w He].
  do 5 eexists. split; [|split; [exact (sv_orphaned H Hl Hst Ho Hc)|]].
  { eapply exec_bind; [exact (exec_remove_key (n:=0%nat) H Hl x Hx)|].
    eapply exec_bind; [exact He|apply exec_ret]. }
  apply HQ; [by eexists|]. destruct (lookup_lt_is_Some_2 S 1%nat) as [u Hu]; [rewrite (sv_len _ _ _ H); lia|].
  apply (ready_removed N d k S l b m); try done.
  eapply (pending_bottom layers S (l ++ b :: m) _ k _ u); try done.
  - apply (sl_sorted _ _ (sv_layer _ _ _ H _ _ Hu)).
  - eapply H9; [done|lia].
  - by apply (anchors_orphaned Hlay Hc).
Qed.

(** ** The descent *)

Lemma wp_not_uppermost S hp n l a m k w Q :
  S !! n = Some (l ++ a :: m) -> is_orphan w = a_orphan a -> topless S k n -> Q false S hp ->
  wp (not_uppermost (kind_of n) (a_ptr a) w k) S hp Q.
Proof.
  intros Hl Hw Htop HQ. apply wp_okay. intros Hok. unfold not_uppermost. rewrite Hw.
  destruct (a_orphan a) eqn:Ho; [by apply wp_ret|].
  pose proof (g_anchored _ _ (slayer_mid _ _ _ _ (ok_layer _ _ _ Hok _ _ Hl)) Ho) as Hne.
  destruct (a_elems a) as [|[k0 x] el] eqn:Hel; [done|].
  apply wp_bind, (wp_first layers ZCAP t Hl eq_refl k0); [by rewrite Hel|]. apply wp_ret.
  pose proof (top_not_first Hok Hl Htop Ho) as Hk. rewrite Hel in Hk. cbn in Hk.
  by rewrite (proj2 (Z.eqb_neq _ _)) by congruence.
Qed.

(** The locked node that has the uppermost occurrence. *)
Definition uppermost N d k layer p S' hp' : Prop :=
  exists S l a m zs, ready N S d /\ okay (vof:=vof) layers S hp' /\
    S !! Datatypes.S layer = Some (l ++ a :: m) /\ covers k l a m /\
    is_Some (kv_lookup k (a_elems a)) /\ topless S k (Datatypes.S layer) /\
    p = a_ptr a /\ S' = <[Datatypes.S layer := l ++ set_state Locked a :: m]> S /\ hp' = Some (HNone, zs).

Definition descend_post N d k r S hp : Prop :=
  match r with
  | RTop => False
  | RFound layer p => uppermost N d k layer p S hp
  | RData p w => at_start layers N d k 0 S hp p w /\ topless S k 0
  end.

Lemma topless_same S n L L' k i :
  S !! n = Some L -> same L L' -> topless S k i -> topless (<[n := L']> S) k i.
Proof.
  intros HL [_ Ha] Htop u [(-> & <- & _)|[_ Hu]]%list_lookup_insert_Some; [rewrite Ha|]; by apply Htop.
Qed.

Lemma wp_remove_descend fuel N d k level : forall S p w hp,
  at_start layers N d k level S hp p w -> topless S k level -> (level <= layers)%nat -> (N < fuel)%nat ->
  wp (remove_descend EXP MAX_LAYERS ZCAP merge_threshold fuel k level p w) S hp (descend_post N d k).
Proof using All.
  induction level as [|layer IH]; intros S p w hp Hat Htop Hle Hfuel; cbn [remove_descend]; [by apply wp_ret|].
  apply wp_bind, (wp_check_next_ready EXP MAX_LAYERS layers ZCAP t merge_threshold Hthreshold Hzcap Hpos Hmax true fuel N d S (Datatypes.S layer) k p w hp); [done|done|].
  intros L l a m zs HL Hf Hrd. cbn [negb]. set (S1 := <[Datatypes.S layer := l ++ a :: m]> S) in *.
  assert (Hl : S1 !! Datatypes.S layer = Some (l ++ a :: m)) by (apply list_lookup_insert_eq; by eapply lookup_lt_Some).
  assert (Htop1 : topless S1 k (Datatypes.S layer)) by (eapply topless_same; [done|apply Hf|done]).
  pose proof (ready_unlocked _ _ _ _ _ _ _ _ Hrd Hl) as Hu. apply wp_okay. intros Hok.
  destruct (lookup_lt_is_Some_2 S1 layer) as [L0 HL0]; [apply lookup_lt_Some in Hl; lia|].
  pose proof (lookup_down_key layers S1 layer k L0 l a m (rd_linked _ _ _ _ Hrd) HL0 Hl (ok_layer _ _ _ Hok _ _ Hl) (fd_covers _ _ _ _ _ _ Hf)) as Hkey.
  destruct (covers_down layers S1 layer k L0 l a m (rd_linked _ _ _ _ Hrd) HL0 (ok_layer _ _ _ Hok _ _ HL0) Hl
              (ok_layer _ _ _ Hok _ _ Hl) (fd_covers _ _ _ _ _ _ Hf)) as (l1 & b & l2 & -> & Hst & Hp & _).
  assert (Hdown : (forall q, lookup_down k a <> Some (k, q)) ->
    wp (let* target := down_target MAX_LAYERS layer (lookup_down k a) in
        let* (ok, l) := reader_swap (a_ptr a) (word a) target in
        if negb ok then hp_drop_curr ;;; Ret RTop
        else remove_descend EXP MAX_LAYERS ZCAP merge_threshold fuel k layer target l) S1 (Some (HCurr (a_ptr a), zs)) (descend_post N d k)).
  { intros Hne. apply wp_bind, (wp_down_target EXP MAX_LAYERS layers ZCAP t merge_threshold Hthreshold Hzcap Hpos Hmax); [lia|]. rewrite <- Hp.
    apply wp_bind, (wp_reader_swap layers ZCAP t _ _ _ _ _ _ _ _ _ _ _ Hl HL0); [done|by eapply ready_unlocked|]. cbn [negb].
    apply IH; [|..|lia|done].
    - split; [done|]. by exists l1, b, l2, zs.
    - intros u Hu'. assert (u = l1 ++ b :: l2) as -> by congruence.
      destruct (kv_lookup k (anchors _)) eqn:Hk; [|done]. destruct (proj2 Hkey) as [q Hq]; [eauto|]. by destruct (Hne q). }
  apply wp_bind, (wp_lookup_down layers ZCAP t _ _ _ _ _ _ _ _ Hl).
  destruct (lookup_down k a) as [[k' q]|] eqn:Hfd in Hdown, Hkey |- *; [|by apply Hdown].
  destruct (Z.eqb_spec k' k) as [->|Hne]; [|by apply Hdown; intros q' [= -> _]].
  apply wp_bind, (wp_not_uppermost S1 _ (Datatypes.S layer) l a m); [done|apply is_orphan_encode|done|].
  apply wp_bind, (wp_try_upgrade Hl); [done|]. cbn [negb].
  apply wp_bind, wp_drop_curr, wp_ret. exists S1, l, a, m, zs. split_and!; try done.
  - by destruct Hok.
  - apply Hf.
  - rewrite <- (flat_covers_lookup _ _ _ (sl_sorted _ _ (ok_layer _ _ _ Hok _ _ Hl)) k (fd_covers _ _ _ _ _ _ Hf)).
    rewrite (lk_link _ _ (rd_linked _ _ _ _ Hrd) _ _ _ HL0 Hl). apply Hkey. eauto.
Qed.

(** ** The operation *)

(** The data layer, where no node starts with the key. *)
Lemma wp_remove_data fuel N d k S p w hp Q :
  at_start layers N d k 0 S hp p w -> topless S k 0 -> (N < fuel)%nat ->
  (forall S' zs, ready N S' (kv_remove k d) ->
     Q (Some (bool_decide (is_Some (kv_lookup k d)))) S' (Some (HNone, zs))) ->
  wp (let* (skip_success, curr_dl, curr_lock) := check_next EXP ZCAP merge_threshold fuel DATA true p w k in
      let* ok := (if skip_success : bool then lock_rmw curr_dl (try_upgrade curr_lock) else Ret false) in
      if negb ok then hp_drop_curr ;;; Ret None
      else
        let* again := not_uppermost DATA curr_dl curr_lock k in
        if again : bool then
          lock_rmw curr_dl release_unchanged ;;; hp_drop_curr ;;; Ret None
        else
          let* removed := vupd DATA curr_dl (v_remove k) in
          let result := match removed with Some _ => true | None => false end in
          lock_rmw curr_dl (release_changed_if result) ;;;
          hp_drop_curr ;;;
          Ret (Some result)) S hp Q.
Proof using All.
  intros Hat Htop Hfuel HQ.
  apply wp_bind, (wp_check_next_ready EXP MAX_LAYERS layers ZCAP t merge_threshold Hthreshold Hzcap Hpos Hmax true fuel N d S 0 k p w hp); [done|done|].
  intros L l a m zs HL Hf Hrd. set (S1 := <[0%nat := l ++ a :: m]> S) in *.
  assert (Hl : S1 !! 0%nat = Some (l ++ a :: m)) by (apply list_lookup_insert_eq; by eapply lookup_lt_Some).
  assert (Htop1 : topless S1 k 0) by (eapply topless_same; [done|apply Hf|done]).
  pose proof (ready_unlocked _ _ _ _ _ _ _ _ Hrd Hl) as Hu. pose proof (fd_covers _ _ _ _ _ _ Hf) as Hc.
  apply wp_okay. intros Hok.
  pose proof (layers_lookup S1 d k l a m (rd_holds _ _ _ _ Hrd) Hl (ok_layer _ _ _ Hok _ _ Hl) Hc) as Hd.
  apply wp_bind, (wp_try_upgrade Hl); [done|]. cbn [negb].
  set (S2 := <[0%nat := l ++ set_state Locked a :: m]> S1).
  assert (Hl2 : S2 !! 0%nat = Some (l ++ set_state Locked a :: m)) by (apply list_lookup_insert_eq; by eapply lookup_lt_Some).
  change (a_ptr a) with (a_ptr (set_state Locked a)).
  apply wp_bind, (wp_not_uppermost S2 _ 0 l (set_state Locked a) m k (word a)); [done|apply is_orphan_encode| |].
  { eapply topless_same; [exact Hl| |done]. rewrite set_state_with_lock. by apply same_lock. }
  destruct (top_removed Hok Hl Hc Htop1 Locked) as [Hr1 _].
  apply wp_bind, (wp_remove_key layers ZCAP t Hl2 (kd:=DATA) eq_refl (HMS:=HMS)); [exact Hr1|].
  cbn [a_elems set_state]. rewrite Hd. unfold S2 at 1. rewrite list_insert_insert_eq. cbv zeta.
  change (with_elems (kv_remove k (a_elems a)) (set_state Locked a)) with (without_key k (set_state Locked a)).
  set (r := without_key k (set_state Locked a)) in *.
  assert (Hl3 : <[0%nat := l ++ r :: m]> S1 !! 0%nat = Some (l ++ r :: m)) by (apply list_lookup_insert_eq; by eapply lookup_lt_Some).
  change (a_ptr (set_state Locked a)) with (a_ptr r).
  apply wp_bind, (wp_release_changed_if Hl3); [done|]. rewrite list_insert_insert_eq.
  apply wp_bind, wp_drop_curr, wp_ret.
  destruct (resting_parts _ _ _ (rd_resting _ _ _ _ Hrd _ _ Hl)) as (Hr & _ & Hr').
  assert (Hfin : forall r', anchors (l ++ r' :: m) = anchors (l ++ a :: m) -> a_elems r' = kv_remove k (a_elems a) ->
            unlocked r' -> ready N (<[0%nat := l ++ r' :: m]> S1) (kv_remove k d)).
  { intros r' Ha He Hu'. apply (ready_removed N d k S1 l a m); try done; [| |by apply (ok_layer _ _ _ Hok)|..].
    - eapply linked_bottom; [apply Hrd|done|done].
    - apply Hrd.
    - intros n u Hn _. by eapply rd_resting.
    - intros n u Hn. by eapply rd_sized. }
  destruct (kv_lookup k d) as [y|] eqn:Hk in HQ |- *.
  - specialize (HQ (<[0%nat := l ++ bump r :: m]> S1) zs). rewrite bool_decide_eq_true_2 in HQ by eauto.
    apply HQ, Hfin; [|done|done]. by destruct (top_bumped Hok Hl Hc Htop1).
  - specialize (HQ (<[0%nat := l ++ set_state Unlocked r :: m]> S1) zs).
    rewrite bool_decide_eq_false_2 in HQ by (by intros []).
    apply HQ, Hfin; [|done|done]. by destruct (top_removed Hok Hl Hc Htop1 Unlocked).
Qed.

(** [remove] answers whether the map held the key, which it takes out. *)
Lemma wp_remove fuel N d S hp k Q :
  ready N S d -> (N < fuel)%nat -> idle hp ->
  (forall S' zs, ready N S' (kv_remove k d) ->
     Q (bool_decide (is_Some (kv_lookup k d))) S' (Some (HNone, zs))) ->
  wp (remove EXP MAX_LAYERS layers ZCAP merge_threshold fuel k) S hp Q.
Proof using All.
  intros Hrd Hfuel Hhp HQ. apply wp_bind, wp_init_idle; [done|]. intros zs.
  destruct fuel as [|fuel]; [lia|]. apply wp_retry. apply wp_okay. intros Hok.
  destruct (okay_head layers _ _ layers Hok) as (a & m & Hl & Hp); [done|].
  apply wp_bind, wp_index_head; [lia|]. replace (Datatypes.S (layers - 1)) with layers by lia. rewrite <- Hp.
  apply wp_bind, (wp_begin_read (l1:=[]) Hl); [exact (ready_unlocked _ _ _ _ _ [] a m Hrd Hl)|].
  apply wp_bind, wp_take_first.
  apply wp_bind. eapply wp_mono; [apply (wp_remove_descend (Datatypes.S fuel) N d k layers); [|..|done|done]|].
  { split; [done|]. exists [], a, m, zs. split_and!; try done. by left. }
  { intros L HL. by rewrite (lk_top _ _ (rd_linked _ _ _ _ Hrd) L HL). }
  intros r S1 hp1 Hr. destruct r as [|layer p|p w]; [done| |].
  - destruct Hr as (S0 & l & b & m0 & zs0 & Hrd0 & Hok0 & Hl0 & Hc & Hx & Htop & -> & -> & ->).
    apply wp_bind. rewrite remove_links_top. apply wp_bind, (wp_remove_link_top fuel N d k layer l b m0 S0); try done. intros S2 l2 b2 m2 Hsk.
    apply (wp_remove_links fuel N d k layer layer l2 b2 m2 S2); [done|done|]. intros S3 l3 b3 m3 Hsk3.
    apply (wp_remove_last N d k l3 b3 m3); [done|]. intros Hd S4 Hrd4.
    specialize (HQ S4 zs0). rewrite bool_decide_eq_true_2 in HQ by done. by apply HQ.
  - destruct Hr as [Hat Htop]. by apply (wp_remove_data (Datatypes.S fuel) N d k S1 p w hp1).
Qed.
End SvRemove.
