(* ===== verification/SvScan.v ===== *)
(** * SvScan: iterating over the map

    [for_each] and [range] run a callback over the data layer, from left to
    right: they lock the nodes one after the other, each before its vector is
    visited, and release them in the same order when they are done.  A callback
    changes values and no keys, so the index layers are not touched. *)

From Stdlib Require Import QArith.
From S2P Require Import Prelude KvList Prog SvLock VecSpec HazardPtr World Layers Heap SvNode SvOps.
From S2P Require Import SvLayers SvMem SvWp SvWalk SvDescend.

Local Open Scope Z_scope.
Import Thread.

(** ** The callback of a range *)

Section Within.
Context {V St : Type} (f : Z -> V -> bool -> St -> V * bool * St) (from to : Z).
Implicit Types (l : list (Z * V)) (b : bool) (s : St).

(** [f], on the keys between [from] and [to] only. *)
Definition within (k : Z) (x : V) b s : V * bool * St :=
  if (from <=? k) && (k <=? to) then f k x b s else (x, b, s).

Lemma visit_outside l b s :
  (forall e, e ∈ l -> e.1 < from \/ to < e.1) -> visit within l b s = (l, b, s).
Proof.
  induction l as [|[k x] l IH]; intros Hl; [done|]. cbn [visit]. destruct b; [done|].
  unfold within at 1. cbn [fst snd]. replace ((from <=? k) && (k <=? to)) with false.
  - by rewrite IH by (intros e He; apply Hl; by right).
  - symmetry. destruct (Hl (k, x)) as [?|?]; [by left| |]; cbn in *; lia.
Qed.

Lemma visit_inside l b s :
  (forall e, e ∈ l -> from <= e.1 <= to) -> visit within l b s = visit f l b s.
Proof.
  revert b s. induction l as [|[k x] l IH]; intros b s Hl; [done|]. cbn [visit]. destruct b; [done|].
  unfold within at 1. cbn [fst snd]. replace ((from <=? k) && (k <=? to)) with true.
  - destruct (f k x false s) as [[x' b'] s']. by rewrite IH by (intros e He; apply Hl; by right).
  - symmetry. specialize (Hl (k, x)). cbn in *. assert (from <= k <= to) by (apply Hl; left). lia.
Qed.

(** What a vector's [range] does is to visit its whole content with that
    callback. *)
Lemma visit_within l b s :
  kv_sorted l ->
  visit within l b s =
  let mid := kv_from from l in
  let '(l', b', s') := visit f (kv_upto to mid) b s in
  (kv_below from l ++ l' ++ kv_above to mid, b', s').
Proof.
  intros Hs. cbv zeta. rewrite (kv_below_from from l Hs) at 1.
  rewrite (kv_upto_above to (kv_from from l)) at 1 by (by apply kv_sorted_filter).
  rewrite visit_app, visit_outside by (intros e [? _]%list_elem_of_filter; by left).
  rewrite visit_app, visit_inside by (by intros e [? [? _]%list_elem_of_filter]%list_elem_of_filter).
  destruct (visit f (kv_upto to (kv_from from l)) b s) as [[l' b'] s'].
  by rewrite visit_outside by (intros e [? _]%list_elem_of_filter; by right).
Qed.
End Within.

(** ** Nodes with the same keys *)

Section Reshaped.
Context {V : Type} {vof : kind -> Type -> Type} `{HV : forall kd, VecOps (vof kd)}.
Local Abbreviation anode := (anode V (lock_state * Z)).
Implicit Types (a b : anode) (l m : list anode) (n : nat) (k : Z).

(** Only values, and the lock's state and counter, differ. *)
Record reshaped a a' : Prop := {
  rs_ptr : a_ptr a' = a_ptr a;
  rs_orphan : a_orphan a' = a_orphan a;
  rs_keys : map fst (a_elems a') = map fst (a_elems a);
  rs_lock : alock_ok (lock_of a) -> alock_ok (lock_of a');
}.

#[global] Instance reshaped_reflexive : Reflexive reshaped.
Proof. by split. Qed.

#[global] Instance reshaped_transitive : Transitive reshaped.
Proof. intros a b c [] []. split; [congruence|congruence|congruence|auto]. Qed.

Lemma reshaped_state st a : reshaped a (set_state st a).
Proof. by split. Qed.

Lemma reshaped_bump a : reshaped a (bump a).
Proof. split; try done. intros _. apply (al_bump_ok (a_orphan a) (lock_of a)). Qed.

Lemma reshaped_elems a el : map fst el = map fst (a_elems a) -> reshaped a (with_elems el a).
Proof. by split. Qed.

Lemma keys_length (l l' : list (Z * value V)) : map fst l' = map fst l -> length l' = length l.
Proof. intros H. by rewrite <- (length_map fst), H, length_map. Qed.

Lemma keys_first (l l' : list (Z * value V)) : map fst l' = map fst l -> kv_first l' = kv_first l.
Proof. by destruct l, l'; intros [=]; cbn; f_equal. Qed.

Lemma keys_sorted {W W'} (l : list (Z * W)) (l' : list (Z * W')) :
  map fst l' = map fst l -> kv_sorted l -> kv_sorted l'.
Proof.
  revert l'. induction l as [|e l IH]; intros [|e' l'] H; try done; [intros; apply kv_sorted_nil|].
  cbn in H. injection H as He H.
  rewrite !kv_sorted_cons, !Forall_forall. intros [H1 H2]. split; [|by apply IH].
  intros x Hx. assert (Hk : x.1 ∈ map fst l) by (rewrite <- H; by apply list_elem_of_fmap_2).
  apply list_elem_of_fmap in Hk as (y & Hxy & Hy). unfold kv_lt in *. rewrite He, Hxy. by apply H1.
Qed.

Lemma reshaped_ptrs l l' : Forall2 reshaped l l' -> map a_ptr l' = map a_ptr l.
Proof. induction 1 as [|a a' l1 l1' Ha _ IH]; [done|]. cbn. by rewrite IH, (rs_ptr _ _ Ha). Qed.

Lemma reshaped_flat l l' : Forall2 reshaped l l' -> map fst (flat l') = map fst (flat l).
Proof.
  induction 1 as [|a a' l1 l1' Ha _ IH]; [done|].
  by rewrite !flat_cons, !map_app, IH, (rs_keys _ _ Ha).
Qed.

Lemma reshaped_anchors l l' : Forall2 reshaped l l' -> anchors l' = anchors l.
Proof.
  induction 1 as [|a a' l1 l1' [H1 H2 H3 _] _ IH]; [done|]. rewrite !anchors_cons, IH. unfold anchor.
  by rewrite H1, H2, (keys_first _ _ H3).
Qed.

Lemma good_reshaped n a a' : reshaped a a' -> good vof n a -> good vof n a'.
Proof.
  intros [P1 P2 P3 P4] [G1 G2 G3]. pose proof (keys_length _ _ P3) as Hlen. split; [|by rewrite Hlen|auto].
  rewrite P2. intros Ho He. apply (G1 Ho). rewrite He in Hlen. by destruct (a_elems a).
Qed.

Lemma slayer_reshaped n l l' : Forall2 reshaped l l' -> slayer vof n l -> slayer vof n l'.
Proof.
  intros H [H1 H2 H3]. split.
  - destruct H1 as (a & l0 & -> & Hp & Ho & Hh). apply Forall2_cons_inv_l in H as (a' & l0' & Ha & Hl0 & ->).
    exists a', l0'. split_and!; [done|by rewrite (rs_ptr _ _ Ha)|by rewrite (rs_orphan _ _ Ha)|].
    apply Forall2_flip in Hl0. apply (Forall2_Forall_l _ _ _ _ Hl0).
    eapply Forall_impl; [exact Hh|]. intros b Hb b' Hb'. by rewrite (rs_ptr _ _ Hb').
  - by eapply keys_sorted; [apply reshaped_flat|].
  - apply Forall2_flip in H. apply (Forall2_Forall_l _ _ _ _ H). eapply Forall_impl; [exact H3|].
    intros b Hb b' Hb'. by eapply good_reshaped.
Qed.

Lemma reshaped_mid l a a' m : reshaped a a' -> Forall2 reshaped (l ++ a :: m) (l ++ a' :: m).
Proof. intros Ha. apply Forall2_app; [|constructor; [done|]]; apply Forall_Forall2_diag, Forall_true; done. Qed.
End Reshaped.

(** ** The loops *)

Section SvScan.
Context {V : Type} {vof : kind -> Type -> Type}.
Context `{HV : forall kd, VecOps (vof kd)} `{HS : forall kd, VecSpec (vof kd)}.
Context `{HM : forall kd, VecMapOps (vof kd)} `{HMS : forall kd, VecMapSpec (vof kd)}.
Context (layers ZCAP t : nat) {St : Type} (f : Z -> V -> bool -> St -> V * bool * St).

Local Abbreviation mem := (mem V unit (fun _ => chunk V vof)).
Local Abbreviation anode := (anode V (lock_state * Z)).
Local Abbreviation hpstate := (option (held ptr * list ptr)).
Local Abbreviation wp := (wp (V:=V) (vof:=vof) layers ZCAP t).
Local Abbreviation ready := (ready (V:=V) layers).
Local Abbreviation data := (kv_vmap (VData (D:=V))).
Implicit Types (a b c : anode) (l m L : list anode) (S : list (list anode)) (hp : hpstate).
Implicit Types (n N fuel : nat) (p : ptr) (k : Z) (d e : list (Z * V)) (x : bool) (s : St).

Definition locked_all l : Prop := Forall (fun a => state_of a = Locked) l.

Lemma data_app_inv e el1 el2 : data e = el1 ++ el2 -> exists e1 e2, e = e1 ++ e2 /\ el1 = data e1 /\ el2 = data e2.
Proof. intros (e1 & e2 & He & H1 & H2)%map_eq_app. eauto. Qed.

Lemma data_inj e1 e2 : data e1 = data e2 -> e1 = e2.
Proof.
  revert e2. induction e1 as [|[k y] e1 IH]; intros [|[k' y'] e2]; intros [=]; [done|]. subst. f_equal. auto.
Qed.

(** A callback visits a node's vector. *)
Lemma wp_visit {B} S hp l a m (F : vof DATA V -> option (B * vof DATA V)) (r : B) e e' Q :
  S !! 0%nat = Some (l ++ a :: m) -> a_elems a = data e -> map fst e' = map fst e ->
  (forall v, v_ok v -> v_elems v = e -> exists v', F v = Some (r, v') /\ v_ok v' /\ v_elems v' = e') ->
  Q r (<[0%nat := l ++ with_elems (data e') a :: m]> S) hp -> wp (vupd DATA (a_ptr a) F) S hp Q.
Proof.
  intros Hl Ha Hk HF HQ. apply wp_okay. intros Hok. apply (wp_vupd Hl DATA F r (data e')); [done| | |done].
  - intros v Hv Hve. destruct (HF v Hv) as (v' & Hr & Hv' & He'); [apply data_inj; by etransitivity; [symmetry; exact Hve|]|].
    exists v'. split_and!; [done|done|exact (f_equal data (eq_sym He'))].
  - eapply slayer_reshaped; [|by apply (ok_layer _ _ _ Hok _ _ Hl)]. apply reshaped_mid, reshaped_elems.
    by rewrite Ha, !kv_vmap_keys.
Qed.

(** The nodes [m], of which the first have been visited and are locked. *)
Record scanned m m1 m2 e : Prop := {
  sc_reshaped : Forall2 reshaped m (m1 ++ m2);
  sc_locked : locked_all m1;
  sc_resting : resting m2;
  sc_flat : flat (m1 ++ m2) = data e;
}.

Lemma scanned_none m e : resting m -> flat m = data e -> scanned m [] m e.
Proof. intros Hr He. split; try done. apply Forall_nil_2. Qed.

Lemma scanned_cons a a' m m1 m2 e e' :
  reshaped a a' -> state_of a' = Locked -> a_elems a' = data e -> scanned m m1 m2 e' ->
  scanned (a :: m) (a' :: m1) m2 (e ++ e').
Proof.
  intros Ha Hs He [H1 H2 H3 H4]. split; [by constructor|by constructor|done|].
  cbn [app]. rewrite flat_cons, kv_vmap_app, He. by f_equal.
Qed.

Lemma scanned_released m m1 m2 e :
  scanned m m1 m2 e ->
  Forall2 reshaped m (map bump m1 ++ m2) /\ resting (map bump m1 ++ m2) /\ flat (map bump m1 ++ m2) = data e.
Proof.
  intros [H1 H2 H3 H4]. split_and!.
  - etransitivity; [exact H1|]. apply Forall2_app; [|done]. clear. induction m1; cbn; constructor; [apply reshaped_bump|done].
  - apply Forall_app. split; [|done]. clear. induction m1; cbn; by constructor.
  - rewrite <- H4, !flat_app. f_equal. clear. induction m1 as [|a m1 IH]; [done|]. cbn [map]. by rewrite !flat_cons, IH.
Qed.

Lemma scanned_ready N S d L L' d' :
  ready N S d -> S !! 0%nat = Some L -> Forall2 reshaped L L' -> resting L' -> flat L' = data d' ->
  ready N (<[0%nat := L']> S) d'.
Proof.
  intros [H1 H2 H3 H4] HL Hrs Hr Hf. split.
  - eapply linked_bottom; [done|done|]. by apply reshaped_anchors.
  - eexists. split; [apply list_lookup_insert_eq; by eapply lookup_lt_Some|done].
  - intros n u [(<- & <- & _)|[_ Hu]]%list_lookup_insert_Some; eauto.
  - intros n u [(<- & <- & _)|[_ Hu]]%list_lookup_insert_Some; [|eauto].
    rewrite <- (Forall2_length _ _ _ Hrs). eauto.
Qed.

Lemma reshaped_head L L' : Forall2 reshaped L L' -> head_or L' None = head_or L None.
Proof. intros H. inversion H as [|a a' l l' Ha _]; subst; [done|]. cbn. by rewrite (rs_ptr _ _ Ha). Qed.

(** The releasing phase. *)
Lemma wp_release_until m2 hp Q fuel : forall m1 l S,
  S !! 0%nat = Some (l ++ m1 ++ m2) -> locked_all m1 -> (length m1 <= fuel)%nat ->
  Q tt (<[0%nat := l ++ map bump m1 ++ m2]> S) hp ->
  wp (release_until fuel (head_or (m1 ++ m2) None) (head_or m2 None)) S hp Q.
Proof.
  induction fuel as [|fuel IH]; intros [|a m1] l S Hl Hlk Hfuel HQ; cbn [length] in Hfuel; try lia.
  1,2: unfold release_until; rewrite decide_True by done; apply wp_ret; cbn in HQ; by rewrite list_insert_id in HQ.
  apply wp_okay. intros Hok. apply Forall_cons in Hlk as [Ha Hlk]. cbn [app head_or] in Hl |- *. cbn [release_until].
  rewrite decide_False; cycle 1.
  { destruct m2 as [|c m2]; cbn; [done|]. intros [= He]. pose proof (ok_nodup _ _ _ Hok) as Hnd.
    apply NoDup_app in Hnd as (_ & _ & Hnd). destruct (ptr_other S 0 l a (m1 ++ c :: m2) Hnd Hl) as [Hoth _].
    apply (Hoth c); [|done]. right. apply elem_of_app. right. left. }
  apply wp_bind, wp_ret. apply wp_bind, (wp_load_next Hl). apply wp_bind, (wp_release Hl); [done|].
  apply (IH m1 (l ++ [bump a])); [|done|lia|].
  - rewrite <- app_assoc. apply list_lookup_insert_eq. by eapply lookup_lt_Some.
  - rewrite list_insert_insert_eq, <- app_assoc. exact HQ.
Qed.

(** The locking phase of [for_each]. *)
Lemma wp_for_each_loop hp fuel : forall m l e x s S Q,
  S !! 0%nat = Some (l ++ m) -> resting m -> flat m = data e -> (length m <= fuel)%nat ->
  (forall m1 m2, scanned m m1 m2 (visit f e x s).1.1 ->
     Q (head_or m2 None, (visit f e x s).2) (<[0%nat := l ++ m1 ++ m2]> S) hp) ->
  wp (for_each_loop f fuel (head_or m None) x s) S hp Q.
Proof using All.
  induction fuel as [|fuel IH]; intros [|a m] l e x s S Q Hl Hr He Hfuel HQ; cbn [length] in Hfuel; try lia.
  1,2: unfold for_each_loop; cbn [head_or]; destruct e; [|done]; apply wp_ret; rewrite <- (list_insert_id S 0 _ Hl);
    apply (HQ [] []); by apply scanned_none.
  cbn [head_or for_each_loop]. destruct x.
  { apply wp_ret. rewrite visit_true in HQ. rewrite <- (list_insert_id S 0 _ Hl). by apply (HQ [] (a :: m)), scanned_none. }
  apply Forall_cons in Hr as [Ha Hr]. rewrite flat_cons in He. symmetry in He.
  apply data_app_inv in He as (e1 & e2 & -> & Ha1 & He2). rewrite visit_app in HQ.
  apply wp_bind, (wp_acquire Hl); [done|].
  set (a1 := set_state Locked a). set (S1 := <[0%nat := l ++ a1 :: m]> S).
  assert (Hl1 : S1 !! 0%nat = Some (l ++ a1 :: m)) by (apply list_lookup_insert_eq; by eapply lookup_lt_Some).
  pose proof (visit_keys f e1 false s) as Hk.
  destruct (visit f e1 false s) as [[e1' x1] s1] eqn:Hv. cbn [fst] in Hk.
  change (a_ptr a) with (a_ptr a1).
  apply wp_bind, (wp_visit S1 hp l a1 m _ (x1, s1) e1 e1'); [done|done|done| |].
  { intros v Hok <-. pose proof (v_for_each_spec f v false s Hok) as Hs. rewrite Hv in Hs.
    destruct Hs as (v' & Hfe & Hok' & He'). exists v'. by rewrite Hfe. }
  unfold S1. rewrite list_insert_insert_eq. set (a2 := with_elems (data e1') a1).
  set (S2 := <[0%nat := l ++ a2 :: m]> S).
  assert (Hl2 : S2 !! 0%nat = Some (l ++ a2 :: m)) by (apply list_lookup_insert_eq; by eapply lookup_lt_Some).
  change (a_ptr a1) with (a_ptr a2). apply wp_bind, (wp_load_next Hl2).
  apply (IH m (l ++ [a2]) e2); [by rewrite <- app_assoc|done|done|lia|].
  intros m1 m2 Hsc. destruct (visit f e2 x1 s1) as [[e2' x2] s2]. unfold S2. rewrite list_insert_insert_eq, <- app_assoc.
  apply (HQ (a2 :: m1) m2). apply scanned_cons; [|done|done|done].
  etransitivity; [apply (reshaped_state Locked)|]. apply reshaped_elems. cbn. by rewrite Ha1, !kv_vmap_keys.
Qed.

(** [for_each] leaves what visiting the whole map leaves. *)
Lemma wp_for_each fuel N d S hp s Q :
  ready N S d -> (N <= fuel)%nat ->
  (forall S', ready N S' (visit f d false s).1.1 -> Q (visit f d false s).2 S' hp) ->
  wp (for_each f fuel s) S hp Q.
Proof using All.
  intros Hrd Hfuel HQ. apply wp_okay. intros Hok. destruct (okay_head layers _ _ 0 Hok) as (a & m & Hl & Hp); [lia|].
  destruct (rd_holds _ _ _ _ Hrd) as (D & HD & Hd). assert (D = a :: m) as -> by congruence.
  pose proof (rd_sized _ _ _ _ Hrd _ _ Hl) as Hlen.
  unfold for_each, data_head. rewrite <- Hp. change (Some (a_ptr a)) with (head_or (a :: m) None).
  apply wp_bind, (wp_for_each_loop hp fuel (a :: m) [] d); [done|by eapply rd_resting|done|lia|].
  intros m1 m2 Hsc. pose proof Hsc as [H1 H2 H3 H4]. cbn [app].
  rewrite <- (reshaped_head _ _ H1).
  assert (Hlt : (0 < length S)%nat) by (by eapply lookup_lt_Some).
  apply wp_bind, (wp_release_until m2 hp _ fuel m1 []); [by apply list_lookup_insert_eq|done| |].
  { apply Forall2_length in H1. rewrite length_app in H1. lia. }
  apply wp_ret. rewrite list_insert_insert_eq. apply HQ.
  destruct (scanned_released _ _ _ _ Hsc) as (? & ? & ?). by apply (scanned_ready N S d (a :: m)).
Qed.

(** ** Ranges *)

Section Range.
Context `{HRS : !VecRangeSpec (vof DATA)} (from to : Z).
Local Abbreviation g := (within f from to).

(** Whether the vector's [range] answers that it met a key beyond [to]. *)
Definition went_past e x : bool := negb x && negb (bool_decide (kv_above to (kv_from from e) = [])).

Lemma went_past_spec e x e' :
  kv_sorted (e ++ e') -> went_past e x = true -> forall y, y ∈ e' -> to < y.1.
Proof.
  intros (Hlt & _ & _)%kv_sorted_app [_ Hne]%andb_true_iff y Hy. apply negb_true_iff, bool_decide_eq_false in Hne.
  destruct (kv_above to (kv_from from e)) as [|z r] eqn:Hz; [done|].
  assert (Hin : z ∈ kv_above to (kv_from from e)) by (rewrite Hz; left).
  apply list_elem_of_filter in Hin as [Hto [_ Hin]%list_elem_of_filter]. specialize (Hlt z y Hin Hy). unfold kv_lt in Hlt. lia.
Qed.

Lemma wp_vec_range S hp l a m e x s Q :
  S !! 0%nat = Some (l ++ a :: m) -> a_elems a = data e ->
  (let '(e', x', s') := visit g e x s in
   Q (went_past e x', x', s') (<[0%nat := l ++ with_elems (data e') a :: m]> S) hp) ->
  wp (vec_range f (a_ptr a) from to x s) S hp Q.
Proof using HRS.
  intros Hl Ha HQ. pose proof (visit_keys g e x s) as Hk. destruct (visit g e x s) as [[e' x'] s'] eqn:Hv. cbn [fst] in Hk.
  unfold vec_range. apply (wp_visit S hp l a m _ (went_past e x', x', s') e e'); [done|done|done| |done].
  intros v Hok <-. pose proof (v_range_spec f from to v x s Hok) as Hs.
  rewrite visit_within in Hv by (by apply v_elems_sorted). cbv zeta in *.
  destruct (visit f (kv_upto to (kv_from from (v_elems v))) x s) as [[e1 x1] s1].
  destruct Hs as (v' & Hr & Hok' & He'). injection Hv as He -> ->. exists v'.
  rewrite Hr. split_and!; [done|done|congruence].
Qed.

Lemma wp_range_loop hp fuel : forall m l e done x s S Q,
  S !! 0%nat = Some (l ++ m) -> resting m -> flat m = data e -> kv_sorted e -> (length m <= fuel)%nat ->
  (done = true -> forall y, y ∈ e -> to < y.1) ->
  (forall m1 m2, scanned m m1 m2 (visit g e x s).1.1 ->
     Q (head_or m2 None, (visit g e x s).2) (<[0%nat := l ++ m1 ++ m2]> S) hp) ->
  wp (range_loop f fuel from to (head_or m None) done x s) S hp Q.
Proof using HRS.
  induction fuel as [|fuel IH]; intros [|a m] l e dn x s S Q Hl Hr He Hs Hfuel Hdn HQ; cbn [length] in Hfuel; try lia.
  1,2: unfold range_loop; cbn [head_or]; destruct e; [|done]; apply wp_ret; rewrite <- (list_insert_id S 0 _ Hl);
    apply (HQ [] []); by apply scanned_none.
  cbn [head_or range_loop]. destruct (dn || x) eqn:Hstop.
  { apply wp_ret. assert (Hv : visit g e x s = (e, x, s)).
    { destruct x; [apply visit_true|]. apply visit_outside. intros y Hy. right. apply Hdn; [by destruct dn|done]. }
    rewrite Hv in HQ. rewrite <- (list_insert_id S 0 _ Hl). by apply (HQ [] (a :: m)), scanned_none. }
  apply orb_false_iff in Hstop as [-> ->].
  apply Forall_cons in Hr as [Ha Hr]. rewrite flat_cons in He. symmetry in He.
  apply data_app_inv in He as (e1 & e2 & -> & Ha1 & He2). rewrite visit_app in HQ.
  apply wp_bind, (wp_acquire Hl); [done|].
  set (a1 := set_state Locked a). set (S1 := <[0%nat := l ++ a1 :: m]> S).
  assert (Hl1 : S1 !! 0%nat = Some (l ++ a1 :: m)) by (apply list_lookup_insert_eq; by eapply lookup_lt_Some).
  pose proof (visit_keys g e1 false s) as Hk. change (a_ptr a) with (a_ptr a1).
  apply wp_bind, (wp_vec_range S1 hp l a1 m e1); [done|done|].
  destruct (visit g e1 false s) as [[e1' x1] s1] eqn:Hv. cbn [fst] in Hk.
  unfold S1. rewrite list_insert_insert_eq. set (a2 := with_elems (data e1') a1).
  set (S2 := <[0%nat := l ++ a2 :: m]> S).
  assert (Hl2 : S2 !! 0%nat = Some (l ++ a2 :: m)) by (apply list_lookup_insert_eq; by eapply lookup_lt_Some).
  change (a_ptr a1) with (a_ptr a2). apply wp_bind, (wp_load_next Hl2).
  apply (IH m (l ++ [a2]) e2); [by rewrite <- app_assoc|done|done|by apply kv_sorted_app in Hs as (_ & _ & ?)|lia| |].
  { by apply went_past_spec. }
  intros m1 m2 Hsc. destruct (visit g e2 x1 s1) as [[e2' x2] s2]. unfold S2. rewrite list_insert_insert_eq, <- app_assoc.
  apply (HQ (a2 :: m1) m2). apply scanned_cons; [|done|done|done].
  etransitivity; [apply (reshaped_state Locked)|]. apply reshaped_elems. cbn. by rewrite Ha1, !kv_vmap_keys.
Qed.
End Range.
End SvScan.

Section SvRange.
Context {V : Type} {vof : kind -> Type -> Type}.
Context `{HV : forall kd, VecOps (vof kd)} `{HS : forall kd, VecSpec (vof kd)}.
Context `{HM : forall kd, VecMapOps (vof kd)} `{HRS : !VecRangeSpec (vof DATA)}.
Context (EXP : kind -> Z) (MAX_LAYERS layers ZCAP t : nat) (merge_threshold : Q).
Context (Hthreshold : forall kd n, (0 < EXP kd) ->
  Qle_bool (merge_threshold * inject_Z (2 ^ EXP kd)) (inject_Z (Z.of_nat n)) = false ->
  (n <= v_capacity (vof kd))%nat).
Context (Hzcap : (1 <= ZCAP)%nat) (Hpos : (0 < layers)%nat) (Hmax : (layers <= MAX_LAYERS)%nat).
Context {St : Type} (f : Z -> V -> bool -> St -> V * bool * St).

Local Abbreviation anode := (anode V (lock_state * Z)).
Local Abbreviation hpstate := (option (held ptr * list ptr)).
Local Abbreviation wp := (wp (V:=V) (vof:=vof) layers ZCAP t).
Local Abbreviation ready := (ready (V:=V) layers).
Local Abbreviation data := (kv_vmap (VData (D:=V))).
Implicit Types (a b : anode) (l m : list anode) (S : list (list anode)) (hp : hpstate).

(** From the locked node where the walk starts. *)
Lemma wp_range_from fuel N d from to S l b m hp s Q :
  ready N S d -> S !! 0%nat = Some (l ++ b :: m) -> starts from l b -> (N <= fuel)%nat ->
  (forall S', ready N S' (visit (within f from to) d false s).1.1 ->
     Q (visit (within f from to) d false s).2 S' hp) ->
  wp (let* (done, exit_flag, s) := vec_range f (a_ptr b) from to false s in
      let* curr := load_next (a_ptr b) in
      let* (last, s) := range_loop f fuel from to curr done exit_flag s in
      release_until fuel (Some (a_ptr b)) last ;;; Ret s) (<[0%nat := l ++ set_state Locked b :: m]> S) hp Q.
Proof using All.
  intros Hrd Hl Hst Hfuel HQ. apply wp_okay. intros Hok.
  destruct (rd_holds _ _ _ _ Hrd) as (D & HD & Hd). assert (D = l ++ b :: m) as -> by congruence. clear HD.
  pose proof (rd_sized _ _ _ _ Hrd _ _ Hl) as Hlen. rewrite length_app in Hlen. cbn in Hlen.
  destruct (resting_parts _ _ _ (rd_resting _ _ _ _ Hrd _ _ Hl)) as (Hr1 & _ & Hr2).
  set (b1 := set_state Locked b). set (S1 := <[0%nat := l ++ b1 :: m]> S).
  assert (Hlt : (0 < length S)%nat) by (by eapply lookup_lt_Some).
  assert (Hl1 : S1 !! 0%nat = Some (l ++ b1 :: m)) by (by apply list_lookup_insert_eq).
  pose proof (sl_sorted _ _ (ok_layer _ _ _ Hok _ _ Hl1)) as Hs0. pose proof Hs0 as Hs. rewrite flat_mid in Hs, Hd. symmetry in Hd.
  apply data_app_inv in Hd as (dl & d' & -> & Hdl & Hd'). symmetry in Hd'.
  apply data_app_inv in Hd' as (db & dm & -> & Hdb & Hdm). rewrite visit_app in HQ.
  assert (Hsd : kv_sorted (dl ++ db ++ dm)).
  { change (a_elems b1) with (a_elems b) in Hs. rewrite Hdl, Hdb, Hdm, <- !kv_vmap_app in Hs.
    eapply keys_sorted; [|exact Hs]. by rewrite kv_vmap_keys. }
  rewrite visit_outside in HQ; cycle 1.
  { intros e He. left. pose proof (flat_starts_left l b1 m Hs0 from Hst (e.1, VData e.2)) as Hlt'. apply Hlt'.
    rewrite Hdl. by apply elem_of_kv_vmap. }
  apply kv_sorted_app in Hsd as (_ & _ & Hsd). rewrite visit_app in HQ.
  pose proof (visit_keys (within f from to) db false s) as Hk.
  change (a_ptr b) with (a_ptr b1). apply wp_bind, (wp_vec_range layers ZCAP t f from to S1 hp l b1 m db); [done|done|].
  destruct (visit (within f from to) db false s) as [[db' x1] s1] eqn:Hv. cbn [fst] in Hk.
  unfold S1. rewrite list_insert_insert_eq. set (b2 := with_elems (data db') b1).
  assert (Hl2 : <[0%nat := l ++ b2 :: m]> S !! 0%nat = Some (l ++ b2 :: m)) by (by apply list_lookup_insert_eq).
  change (a_ptr b1) with (a_ptr b2). apply wp_bind, (wp_load_next Hl2).
  assert (Hl3 : <[0%nat := l ++ b2 :: m]> S !! 0%nat = Some ((l ++ [b2]) ++ m)) by (by rewrite <- app_assoc).
  apply wp_bind, (wp_range_loop layers ZCAP t f from to hp fuel m (l ++ [b2]) dm); [done|done|done| |lia| |].
  { by apply kv_sorted_app in Hsd as (_ & _ & ?). }
  { by apply went_past_spec. }
  intros m1 m2 Hsc. destruct (visit (within f from to) dm x1 s1) as [[dm' x2] s2]. cbn [fst snd] in *.
  rewrite list_insert_insert_eq, <- app_assoc. cbn [app].
  assert (Hrb : reshaped b b2).
  { etransitivity; [apply (reshaped_state Locked)|]. apply reshaped_elems. cbn. by rewrite Hdb, !kv_vmap_keys. }
  pose proof (scanned_cons b b2 m m1 m2 db' dm' Hrb eq_refl eq_refl Hsc) as Hsc2.
  pose proof (Forall2_length _ _ _ (sc_reshaped _ _ _ _ Hsc)) as Hlen2. rewrite length_app in Hlen2.
  change (Some (a_ptr b2)) with (head_or ((b2 :: m1) ++ m2) None).
  apply wp_bind, (wp_release_until layers ZCAP t m2 hp _ fuel (b2 :: m1) l); [by apply list_lookup_insert_eq|apply Hsc2|cbn; lia|].
  apply wp_ret. rewrite list_insert_insert_eq. apply HQ.
  destruct (scanned_released _ _ _ _ Hsc2) as (H1 & H2 & H3).
  apply (scanned_ready layers N S (dl ++ db ++ dm) (l ++ b :: m)); [done|done|..].
  - apply Forall2_app; [|done]. apply Forall_Forall2_diag, Forall_true. done.
  - by apply Forall_app.
  - by rewrite flat_app, H3, Hdl, <- !kv_vmap_app.
Qed.

(** [range] leaves what visiting the keys from [from] to [to] leaves. *)
Lemma wp_range fuel N d S hp from to s Q :
  ready N S d -> (N < fuel)%nat -> idle hp ->
  (forall S' zs, ready N S' (visit (within f from to) d false s).1.1 ->
     Q (visit (within f from to) d false s).2 S' (Some (HNone, zs))) ->
  wp (range EXP MAX_LAYERS layers ZCAP merge_threshold f fuel from to s) S hp Q.
Proof using All.
  intros Hrd Hfuel Hhp HQ. apply wp_bind, wp_init_idle; [done|]. intros zs. destruct (Z.ltb_spec to from) as [Hlt|Hle].
  - rewrite visit_outside in HQ by (intros e _; lia). by apply wp_ret, HQ.
  - apply wp_bind, (wp_skip_to EXP MAX_LAYERS layers ZCAP t merge_threshold Hthreshold Hzcap Hpos Hmax fuel N d); [done|done|].
    intros S' l b m zs' Hrd' Hl Hst. apply (wp_range_from fuel N d); [done|done|done|lia|]. intros S2 Hrd2. by apply HQ.
Qed.
End SvRange.
