(* ===== verification/SvTear.v ===== *)
(** * SvTear: the destructor and the checker of the skip vector

    The sequential-only destructor deletes every layer from its second node
    on, first the index layers and then the data layer, and sweeps the zombies.
    Each deletion finds its node, so none happens twice, and at the end no
    allocated node is left. *)

From S2P Require Import Prelude KvList Prog SvLock VecSpec HazardPtr World Layers Heap SvNode SvOps.
From S2P Require Import SvMaint SvLayers SvMem SvWp SvWalk SvDescend.

Local Open Scope Z_scope.
Import Thread.

Section SvTear.
Context {V : Type} {vof : kind -> Type -> Type}.
Context `{HV : forall kd, VecOps (vof kd)} `{HS : forall kd, VecSpec (vof kd)}.
Context (MAX_LAYERS layers ZCAP t : nat).

Local Abbreviation mem := (mem V unit (fun _ => chunk V vof)).
Local Abbreviation anode := (anode V (lock_state * Z)).
Local Abbreviation hpstate := (option (held ptr * list ptr)).
Local Abbreviation exec := (exec (V:=V) (vof:=vof) ZCAP t).
Local Abbreviation sv := (sv (V:=V) (vof:=vof) layers).
Implicit Types (a b : anode) (l m : list anode) (S : list (list anode)) (hp : hpstate).
Implicit Types (n i fuel : nat) (p : ptr) (M : gmap ptr (cell V)) (dead : list ptr) (js : list nat).

Lemma cells_without_nil M : without [] M M.
Proof. intros p. by rewrite decide_False by apply not_elem_of_nil. Qed.

Lemma cells_without_app dead1 dead2 M1 M2 M3 :
  without dead1 M1 M2 -> without dead2 M2 M3 -> without (dead1 ++ dead2) M1 M3.
Proof.
  intros H1 H2 p. rewrite H2, H1. destruct (decide (p ∈ dead1 ++ dead2)) as [Hin|Hout].
  - apply elem_of_app in Hin as [Hin|Hin]; [by repeat case_decide|by rewrite decide_True].
  - rewrite not_elem_of_app in Hout. by rewrite !decide_False by tauto.
Qed.

Lemma chain_without dead M M' n l nx :
  without dead M M' -> (forall a, a ∈ l -> a_ptr a ∉ dead) -> chain M n l nx -> chain M' n l nx.
Proof. intros Hw Hd. apply chain_frame. intros a Ha. rewrite Hw. by rewrite decide_False by auto. Qed.

Lemma exec_delete_chain n fr hp m : forall M fuel,
  chain M n m None -> NoDup (map a_ptr m) -> (length m <= fuel)%nat ->
  exists M', exec (delete_chain fuel (head_or m None)) (AState M fr hp) tt (AState M' fr hp) /\
    without (map a_ptr m) M M'.
Proof.
  induction m as [|a m IH]; intros M fuel Hc Hnd Hf.
  { exists M. split; [destruct fuel; apply exec_ret|apply cells_without_nil]. }
  destruct fuel as [|fuel]; cbn [length] in Hf; [lia|]. destruct Hc as [Ha Hc].
  cbn [map] in Hnd. apply NoDup_cons in Hnd as [Hna Hnd].
  assert (Hw : without [a_ptr a] M (delete (a_ptr a) M)).
  { intros p. case_decide as Hp.
    - apply list_elem_of_singleton in Hp as ->. apply lookup_delete_eq.
    - rewrite list_elem_of_singleton in Hp. by rewrite lookup_delete_ne by congruence. }
  destruct (IH (delete (a_ptr a) M) fuel) as (M' & He & Hw'); [|done|lia|].
  - eapply chain_without; [exact Hw| |exact Hc]. intros b Hb Hin. apply list_elem_of_singleton in Hin.
    apply Hna. rewrite <- Hin. by apply list_elem_of_fmap_2.
  - exists M'. split; [|by apply (cells_without_app [a_ptr a] (map a_ptr m) M (delete (a_ptr a) M))].
    cbn [head_or delete_chain]. eapply exec_bind; [exact (exec_load_next (s:=AState M fr hp) Ha)|].
    eapply exec_bind; [eapply exec_delete, Ha|exact He].
Qed.

(** Everything but the head of a layer, and of several layers. *)
Definition tail_ptrs S n : list ptr := map a_ptr (tail (default [] (S !! n))).
Definition tails S js : list ptr := js ≫= tail_ptrs S.

Section State.
Context {S : list (list anode)} {M0 : gmap ptr (cell V)} {fr : positive} {hp : hpstate}.
Context (H : sv S (AState M0 fr hp)).

Lemma row_split n : (n <= layers)%nat ->
  exists a m, S !! n = Some (a :: m) /\ a_ptr a = Head n /\ tail_ptrs S n = map a_ptr m /\
    Forall (fun b => is_heap (a_ptr b)) m.
Proof using H.
  intros Hn. destruct (lookup_lt_is_Some_2 S n) as [l Hl]; [rewrite (sv_len _ _ _ H); lia|].
  destruct (sl_head _ _ (sv_layer _ _ _ H _ _ Hl)) as (a & m & -> & Hp & _ & Hm).
  exists a, m. split_and!; try done. unfold tail_ptrs. by rewrite Hl.
Qed.

Lemma tail_ptrs_in n p : (n <= layers)%nat -> p ∈ tail_ptrs S n -> is_heap p /\ p ∈ ptrs S.
Proof using H.
  intros Hn. destruct (row_split n Hn) as (a & m & Hl & _ & -> & Hm). intros (b & -> & Hb)%list_elem_of_fmap. split.
  - rewrite Forall_forall in Hm. by apply Hm.
  - eapply elem_of_ptrs; [exact Hl|]. by right.
Qed.

Lemma row_tail_other n js b L : (forall j, j ∈ js -> (j <= layers)%nat) -> n ∉ js ->
  S !! n = Some L -> b ∈ L -> a_ptr b ∉ tails S js.
Proof using H.
  intros Hjs Hn HL Hb (j & Hp & Hj)%list_elem_of_bind. destruct (row_split j (Hjs j Hj)) as (a & m & Hl & _ & Ht & _).
  rewrite Ht in Hp. apply list_elem_of_fmap in Hp as (c & Hc & Hin).
  apply list_elem_of_split in Hb as (l1 & l2 & ->).
  pose proof (sv_nodup _ _ _ H) as Hnd. apply NoDup_app in Hnd as (_ & _ & Hnd).
  destruct (ptr_other S n l1 b l2 Hnd HL) as [_ Hoth]. apply (Hoth j (a :: m) c); [congruence|done|by right|done].
Qed.

Lemma layer_nodup n a m : S !! n = Some (a :: m) -> NoDup (map a_ptr m).
Proof using H.
  intros Hl. pose proof (sv_nodup _ _ _ H) as Hnd. apply NoDup_app in Hnd as (_ & _ & Hnd).
  rewrite <- (take_drop_middle S n _ Hl) in Hnd. unfold ptrs in Hnd.
  rewrite bind_app, bind_cons in Hnd. apply NoDup_app in Hnd as (_ & _ & Hnd).
  apply NoDup_app in Hnd as (Hnd & _). cbn in Hnd. by apply NoDup_cons in Hnd as [_ Hnd].
Qed.

Context (fuel : nat) (Hfuel : forall n L, S !! n = Some L -> (length L <= fuel)%nat).

(** Delete layer [n], when the layers [js] are gone. *)
Lemma exec_delete_tail n js M :
  (n <= layers)%nat -> (forall j, j ∈ js -> (j <= layers)%nat) -> n ∉ js -> without (tails S js) M0 M ->
  exists M', exec (let* curr := load_next (Head n) in delete_chain fuel curr) (AState M fr hp) tt (AState M' fr hp) /\
    without (tails S (js ++ [n])) M0 M'.
Proof using All.
  intros Hn Hjs Hnj Hw. destruct (row_split n Hn) as (a & m & Hl & Hp & Ht & _).
  assert (Hc : chain M n (a :: m) None).
  { eapply chain_without; [exact Hw| |by apply (sv_chain _ _ _ H)]. intros b Hb. by eapply row_tail_other. }
  destruct Hc as [Ha Hc]. destruct (exec_delete_chain n fr hp m M fuel Hc) as (M' & He & Hw').
  - by eapply layer_nodup.
  - specialize (Hfuel _ _ Hl). cbn in Hfuel. lia.
  - exists M'. split.
    + rewrite <- Hp. eapply exec_bind; [exact (exec_load_next (s:=AState M fr hp) Ha)|exact He].
    + unfold tails. rewrite bind_app, bind_singleton, Ht. by eapply cells_without_app.
Qed.

Lemma exec_delete_layers k : forall i M,
  (i + k <= layers)%nat -> (layers <= MAX_LAYERS)%nat -> without (tails S (seq 1 i)) M0 M ->
  exists M', exec (delete_layers MAX_LAYERS fuel k i) (AState M fr hp) tt (AState M' fr hp) /\
    without (tails S (seq 1 (i + k))) M0 M'.
Proof using All.
  induction k as [|k IH]; intros i M Hi Hmax Hw.
  { exists M. rewrite Nat.add_0_r. split; [apply exec_ret|done]. }
  destruct (exec_delete_tail (Datatypes.S i) (seq 1 i) M) as (M1 & He1 & Hw1); [lia| |rewrite elem_of_seq; lia|done|].
  { intros j. rewrite elem_of_seq. lia. }
  destruct (IH (Datatypes.S i) M1) as (M2 & He2 & Hw2); [lia|done|by rewrite seq_S|].
  exists M2. split; [|by replace (i + Datatypes.S k)%nat with (Datatypes.S i + k)%nat by lia].
  cbn [delete_layers]. eapply exec_bind.
  { unfold index_head. rewrite (proj2 (Nat.ltb_lt _ _)) by lia. apply exec_ret. }
  intros w Hr. rewrite <- run_bind_assoc. revert w Hr. eapply exec_bind; [exact He1|exact He2].
Qed.

(** The destructor of a skip vector that nobody uses. *)
Lemma exec_destroy :
  (layers <= MAX_LAYERS)%nat -> idle hp ->
  exists M' hp', exec (skipvector_destroy MAX_LAYERS layers fuel) (AState M0 fr hp) tt (AState M' fr hp') /\
    (forall q, M' !! Heap q = None) /\ (forall n, M' !! Head n = M0 !! Head n).
Proof using All.
  intros Hmax Hidle.
  destruct (exec_delete_layers layers 0 M0) as (M1 & He1 & Hw1); [lia|done|apply cells_without_nil|]. cbn [Nat.add] in Hw1.
  destruct (exec_delete_tail 0 (seq 1 layers) M1) as (M2 & He2 & Hw2); [lia| |rewrite elem_of_seq; lia|done|].
  { intros j. rewrite elem_of_seq. lia. }
  set (js := seq 1 layers ++ [0%nat]) in *.
  assert (Hjs : forall j, j ∈ js <-> (j <= layers)%nat).
  { intros j. unfold js. rewrite elem_of_app, elem_of_seq, list_elem_of_singleton. lia. }
  assert (Htails : forall p, p ∈ tails S js -> is_heap p /\ p ∈ ptrs S).
  { intros p (j & Hp & Hj%Hjs)%list_elem_of_bind. by eapply tail_ptrs_in. }
  destruct (exec_sweep_all ZCAP t M2 fr hp) as (M3 & He3 & Hw3).
  { intros h zs ->. pose proof (sv_nodup _ _ _ H) as Hnd. cbn in Hnd. apply NoDup_app in Hnd as (Hnd & Hdj & _).
    split_and!; [exact Hidle|done|]. intros q Hq. rewrite Hw2, decide_False.
    - by apply (sv_zombie _ _ _ q H).
    - intros [_ Hin]%Htails. by apply (Hdj q). }
  exists M3. eexists. split_and!.
  - unfold skipvector_destroy, data_head. eapply exec_bind; [exact He1|].
    intros w Hr. rewrite <- run_bind_assoc. revert w Hr. eapply exec_bind; [exact He2|exact He3].
  - intros q. rewrite Hw3. case_decide as Hz; [done|]. rewrite Hw2. case_decide as Ht; [done|].
    apply eq_None_not_Some. intros Hin%(sv_dom _ _ _ H). apply elem_of_app in Hin as [Hin|Hin].
    + apply Hz. by destruct hp as [[h zs]|].
    + apply Ht. apply list_elem_of_bind in Hin as (L & Hp & HL). apply list_elem_of_lookup in HL as [n Hn].
      assert (Hle : (n <= layers)%nat) by (pose proof (sv_len _ _ _ H); apply lookup_lt_Some in Hn; lia).
      apply list_elem_of_bind. exists n. split; [|by apply Hjs].
      destruct (row_split n Hle) as (a & m & Hl & Hpa & -> & _). assert (L = a :: m) as -> by congruence.
      cbn in Hp. apply elem_of_cons in Hp as [Hp|Hp]; [congruence|done].
  - intros n. rewrite Hw3, decide_False, Hw2, decide_False; [done| |].
    + by intros [? _]%Htails.
    + intros Hz. pose proof (sv_zombies _ _ _ H) as Hh. rewrite Forall_forall in Hh.
      assert (Hin : Head n ∈ zombies_of hp) by (by destruct hp as [[h zs]|]). exact (Hh _ Hin).
Qed.
End State.
End SvTear.

(** * The structural checker accepts every skip vector at rest

    [verify()] traces the down pointers of every index layer along the layer
    below, and checks the order of the nodes of every layer.  When the layers
    are ready for an operation it returns true, and fails no check on the way.
    It only reads, but for sorting the vectors of the index nodes. *)
Import Thread.

Section SvVerify.
Context {V : Type} {vof : kind -> Type -> Type}.
Context `{HV : forall kd, VecOps (vof kd)} `{HS : forall kd, VecSpec (vof kd)}.
Context (MAX_LAYERS layers ZCAP t : nat) (NDEBUG : bool).

Local Abbreviation mem := (mem V unit (fun _ => chunk V vof)).
Local Abbreviation world := (world V unit (fun _ => chunk V vof)).
Local Abbreviation anode := (anode V (lock_state * Z)).
Local Abbreviation hpstate := (option (held ptr * list ptr)).
Local Abbreviation run := (run (handle (D:=V) (X:=unit) (vec:=fun _ => chunk V vof) t)).
Implicit Types (a b c : anode) (l m : list anode) (S : list (list anode)) (hp : hpstate).
Implicit Types (n N fuel : nat) (p : ptr) (k : Z) (w : world).

(** The world holds the layers. *)
Definition reps S hp w : Prop :=
  exists s, represents ZCAP t s w /\ sv (vof:=vof) layers S s /\ s_hp s = hp.

(** ** Looking at a node *)

Section See.
Context {S : list (list anode)} {hp : hpstate} {n : nat} {l : list anode} {a : anode} {m : list anode} {w : world}.
Context (Hw : reps S hp w) (Hl : S !! n = Some (l ++ a :: m)).

Lemma see_node : exists nd, w_nodes w !! a_ptr a = Some nd /\ cell_is nd (cell_of n a (head_or m None)).
Proof using Hw Hl.
  destruct Hw as (s & Hr & Hsv & _). eapply represents_node; [exact Hr|]. by apply (sv_cell layers S s n l a m).
Qed.

Lemma see_next : run (load_next (a_ptr a)) w = Done (head_or m None) w.
Proof using Hw Hl.
  destruct see_node as (nd & Hn & Hc). cbn. rewrite Hn. cbn. by rewrite (ci_next _ _ Hc).
Qed.

Lemma see_orphan : run (is_orphan_seq (a_ptr a)) w = Done (a_orphan a) w.
Proof using Hw Hl.
  destruct see_node as ([lk x nx v] & Hn & [H1 _ _]). cbn in H1. unfold is_orphan_seq. cbn. rewrite Hn. cbn.
  rewrite H1, is_orphan_encode, <- H1, set_node_same by done. done.
Qed.

Lemma see_lock : state_of a <> Locked -> run (verify_lock NDEBUG (a_ptr a)) w = Done true w.
Proof using Hw Hl.
  intros Hst. destruct see_node as ([lk x nx v] & Hn & [H1 _ _]). cbn in H1. unfold verify_lock. cbn. rewrite Hn. cbn.
  rewrite H1, is_locked_encode, bool_decide_eq_false_2, <- H1 by exact Hst. cbn. by rewrite set_node_same.
Qed.

Lemma see_vec {B} kd (f : vof kd (elt V kd) -> option B) (r : B) :
  kind_of n = kd -> (forall v, v_ok v -> a_elems a = kv_vmap (wrap kd) (v_elems v) -> f v = Some r) ->
  run (vget kd (a_ptr a) f) w = Done r w.
Proof using Hw Hl.
  intros <- Hf. destruct see_node as (nd & Hn & [H1 H2 (v & Hv & Hok & He)]). cbn in v, Hv, Hok, He.
  unfold vget, vec_get. cbn. rewrite Hn. cbn. rewrite Hv, as_kind_eq. cbn. rewrite Hf by done. cbn.
  rewrite <- Hv. destruct nd. by rewrite set_node_same.
Qed.

Lemma see_size kd : kind_of n = kd -> run (get_size kd (a_ptr a)) w = Done (length (a_elems a)) w.
Proof using Hw Hl.
  intros Hk. apply see_vec; [done|]. intros v Hv ->. by rewrite v_get_size_spec, kv_vmap_length.
Qed.

Lemma see_first kd k : kind_of n = kd -> kv_first (a_elems a) = Some k -> run (vget kd (a_ptr a) v_first) w = Done k w.
Proof using Hw Hl.
  intros Hkd Hk. apply see_vec; [done|]. intros v Hv He. apply v_first_spec; [done|]. by rewrite He, kv_first_vmap in Hk.
Qed.

Lemma see_max kd k : kind_of n = kd -> kv_last (a_elems a) = Some k -> run (vget kd (a_ptr a) v_max_key) w = Done k w.
Proof using Hw Hl.
  intros Hkd Hk. apply see_vec; [done|]. intros v Hv He. apply v_max_key_spec; [done|]. by rewrite He, kv_last_vmap in Hk.
Qed.

Lemma see_verify kd : kind_of n = kd -> run (vget kd (a_ptr a) v_verify) w = Done true w.
Proof using Hw Hl. intros Hkd. apply see_vec; [done|]. intros v Hv _. by apply v_verify_spec. Qed.
End See.

(** The vector of an index node is sorted: its entries have their indexes. *)
Definition at_sorted w c : Prop :=
  forall i e, a_elems c !! i = Some e -> run (vget INDEX (a_ptr c) (v_at i)) w = Done e.1 w.

Lemma see_sort S hp n l c m w :
  reps S hp w -> S !! Datatypes.S n = Some (l ++ c :: m) ->
  exists w', run (vupd INDEX (a_ptr c) (fun v => Some (tt, v_sort v))) w = Done tt w' /\ reps S hp w' /\ at_sorted w' c.
Proof.
  intros Hw Hl. destruct (see_node Hw Hl) as (nd & Hn & [H1 H2 (v & Hv & Hok & He)]). cbn in v, H1, H2, Hv, Hok, He.
  destruct (v_sort_spec v Hok) as [Hoks Hes]. eexists. split; [|split].
  - unfold vupd, vec_upd. cbn. rewrite Hn. cbn. rewrite Hv. cbn. reflexivity.
  - destruct Hw as ([M fr h] & Hr & Hsv & <-). exists (AState M fr h). split; [|done].
    pose proof (sv_cell _ _ _ _ _ _ _ Hsv Hl) as Hc. cbn in Hc. rewrite <- (insert_id M _ _ Hc).
    apply represents_put; [done|]. split; [done|done|]. exists (v_sort v).
    split_and!; [done|done|]. exact (eq_trans He (f_equal (kv_vmap VDown) (eq_sym Hes))).
  - intros i e Hi. unfold vget, vec_get. cbn. rewrite lookup_insert_eq. cbn.
    rewrite He in Hi. unfold kv_vmap in Hi. apply list_lookup_fmap_Some in Hi as (e0 & -> & Hi).
    rewrite (v_at_spec v i e0) by done. cbn. unfold set_node. cbn. by rewrite insert_insert_eq.
Qed.

(** ** Tracing *)

(** The next entry's target is reached over orphans only. *)
Lemma anchors_next n suf e rst :
  Forall (good vof n) suf -> anchors suf = e :: rst ->
  exists mid b suf', suf = mid ++ b :: suf' /\ Forall (fun c => a_orphan c = true) mid /\ a_orphan b = false /\
    kv_first (a_elems b) = Some e.1 /\ e.2 = VDown (a_ptr b) /\ anchors suf' = rst.
Proof.
  induction suf as [|c suf IH]; [done|]. intros [Hg Hgs]%Forall_cons Ha. rewrite anchors_cons in Ha.
  unfold anchor in Ha. destruct (a_orphan c) eqn:Ho.
  - destruct (IH Hgs Ha) as (mid & b & suf' & -> & Hm & H). exists (c :: mid), b, suf'. split_and!; try done; [by constructor|tauto..].
  - destruct (kv_first_nonempty (a_elems c) (g_anchored _ _ Hg Ho)) as [k Hk]. rewrite Hk in Ha. cbn in Ha.
    injection Ha as <- <-. by exists [], c, suf.
Qed.

Section Quiet.
Context {S : list (list anode)} {hp : hpstate}.
Context (Hnd : NoDup (ptrs S)) (Hlay : forall n L, S !! n = Some L -> slayer vof n L).
Context (Hrest : forall n L, S !! n = Some L -> resting L).

Lemma see_trace_to n w mid b suf : forall pre f,
  reps S hp w -> S !! n = Some (pre ++ mid ++ b :: suf) -> Forall (fun c => a_orphan c = true) mid -> (length mid <= f)%nat ->
  run (trace_to NDEBUG f (head_or (mid ++ b :: suf) None) (Some (a_ptr b))) w = Done (Some (Some (a_ptr b))) w.
Proof using Hnd.
  induction mid as [|c mid IH]; intros pre f Hw Hl Ho Hf; cbn [app head_or].
  { destruct f; cbn [trace_to]; by rewrite decide_True. }
  destruct f as [|f]; cbn [length] in Hf; [lia|]. apply Forall_cons in Ho as [Hc Ho]. cbn [trace_to].
  destruct (ptr_other S n pre c (mid ++ b :: suf) Hnd Hl) as [Hsame _].
  rewrite decide_False; cycle 1.
  { intros [= He]. apply (Hsame b); [|done]. right. apply elem_of_app. right. left. }
  run_with (see_orphan Hw Hl). rewrite Hc. cbn [negb]. run_with (see_next Hw Hl).
  apply (IH (pre ++ [c])); [done|by rewrite <- app_assoc|done|lia].
Qed.

Context (N fuel : nat) (Hsize : forall n L, S !! n = Some L -> (length L <= N)%nat) (Hfuel : (N < fuel)%nat).

(** The loop over the entries of node [c] of layer [n + 1]. *)
Lemma see_verify_entries n w l c m lo cnt : forall j pre suf,
  reps S hp w -> at_sorted w c -> S !! Datatypes.S n = Some (l ++ c :: m) -> S !! n = Some lo -> lo = pre ++ suf ->
  (j + cnt = length (a_elems c))%nat -> anchors suf = drop j (a_elems c) ++ flat m ->
  exists pre' suf', lo = pre' ++ suf' /\ anchors suf' = flat m /\
    run (verify_entries NDEBUG fuel (kind_of n) (a_ptr c) cnt j (head_or suf None)) w = Done (Some (head_or suf' None)) w.
Proof using Hnd Hlay Hsize Hfuel.
  induction cnt as [|cnt IH]; intros j pre suf Hw Hat Hu Hlo Hpre Hj Ha.
  { exists pre, suf. rewrite drop_ge in Ha by lia. done. }
  cbn [verify_entries]. destruct (lookup_lt_is_Some_2 (a_elems c) j) as [e He]; [lia|].
  run_with (Hat j e He). pose proof (Hlay _ _ Hu) as Hlu. pose proof (Hlay _ _ Hlo) as Hll.
  rewrite (drop_S _ _ _ He) in Ha.
  destruct (anchors_next n suf e (drop (Datatypes.S j) (a_elems c) ++ flat m)) as (mid & b & suf' & -> & Hmid & Ho & Hk & Hv & Ha').
  { pose proof (sl_good _ _ Hll) as Hg. rewrite Hpre in Hg. by apply Forall_app in Hg as [_ ?]. }
  { exact Ha. }
  subst lo. assert (Hcon : run (vget INDEX (a_ptr c) (v_contains e.1)) w = Done (Some (a_ptr b)) w).
  { apply (see_vec Hw Hu); [done|]. intros v Hok Hev. rewrite v_contains_spec by done. f_equal.
    assert (Hlk : kv_lookup e.1 (a_elems c) = Some e.2).
    { destruct (flat_parts _ _ _ (sl_sorted _ _ Hlu)) as (_ & _ & _ & _ & Hs & _).
      apply (kv_lookup_index _ _ _ j); [done|]. by destruct e. }
    rewrite Hev, kv_lookup_vmap, Hv in Hlk. destruct (kv_lookup e.1 (v_elems v)); cbn in Hlk; [|done]. by injection Hlk as ->. }
  run_with Hcon.
  assert (Hlen : (length mid <= fuel)%nat) by (specialize (Hsize _ _ Hlo); rewrite !length_app in Hsize; lia).
  run_with (see_trace_to n w mid b suf' pre fuel Hw Hlo Hmid Hlen). cbn [lift_opt].
  assert (Hlb : S !! n = Some ((pre ++ mid) ++ b :: suf')) by (by rewrite <- app_assoc).
  assert (Hret : run (Ret (a_ptr b)) w = Done (a_ptr b) w) by done. run_with Hret.
  run_with (see_next Hw Hlb). run_with (see_orphan Hw Hlb). rewrite Ho.
  run_with (see_size Hw Hlb _ eq_refl). destruct (kv_first_Some _ _ Hk) as (y & el & Hel). rewrite Hel. cbn [length Nat.eqb].
  run_with (see_first Hw Hlb _ e.1 eq_refl Hk). rewrite Z.eqb_refl. cbn [negb].
  apply (IH (Datatypes.S j) (pre ++ mid ++ [b])); try done; [|lia]. by rewrite <- !app_assoc.
Qed.

(** Empty nodes are orphans, and are skipped. *)
Lemma see_skip_empty n w kd m : forall l f,
  reps S hp w -> S !! n = Some (l ++ m) -> l <> [] -> kind_of n = kd -> (length m <= f)%nat ->
  exists mid m', m = mid ++ m' /\ Forall (fun c => a_elems c = []) mid /\
    (forall d m'', m' = d :: m'' -> a_elems d <> []) /\
    run (skip_empty NDEBUG f kd (head_or m None)) w = Done (Some (head_or m' None)) w.
Proof using Hlay Hrest.
  clear Hsize Hfuel. induction m as [|d m IH]; intros l f Hw Hl Hne Hk Hf.
  { exists [], []. split_and!; [done|by apply Forall_nil_2|done|by destruct f]. }
  pose proof (slayer_mid _ _ _ _ (Hlay _ _ Hl)) as Hg. cbn [length] in Hf.
  destruct (resting_parts _ _ _ (Hrest _ _ Hl)) as (_ & Hu & _). destruct f as [|f]; [lia|].
  cbn [head_or skip_empty]. run_with (see_size Hw Hl kd Hk).
  destruct (Nat.eqb_spec (length (a_elems d)) 0) as [Hz|Hz]; cbn [negb].
  - apply nil_length_inv in Hz. run_with (see_lock Hw Hl ltac:(unfold unlocked in Hu; congruence)).
    run_with (see_orphan Hw Hl). destruct (a_orphan d) eqn:Ho; [|by destruct (g_anchored _ _ Hg Ho)]. cbn [negb].
    run_with (see_next Hw Hl).
    destruct (IH (l ++ [d]) f) as (mid & m' & -> & H1 & H2 & H3); [done|by rewrite <- app_assoc|by destruct l|done|lia|].
    exists (d :: mid), m'. split_and!; [done|by constructor|done|done].
  - exists [], (d :: m). split_and!; [done|by apply Forall_nil_2| |done]. intros d' m'' [= <- <-] He. by rewrite He in Hz.
Qed.

Lemma see_verify_order n w kd l c mid m' :
  reps S hp w -> S !! n = Some (l ++ c :: mid ++ m') -> kind_of n = kd ->
  (forall d m'', m' = d :: m'' -> a_elems d <> []) ->
  run (verify_order NDEBUG kd (a_ptr c) (length (a_elems c)) (head_or m' None)) w = Done true w.
Proof using Hlay.
  clear Hsize Hfuel Hrest. intros Hw Hl Hk Hne. destruct m' as [|d m']; [done|]. cbn [head_or verify_order].
  pose proof (Hlay _ _ Hl) as Hs. pose proof (slayer_mid _ _ _ _ Hs) as Hg.
  destruct (Nat.eqb_spec (length (a_elems c)) 0) as [Hz|Hz].
  - apply nil_length_inv in Hz. run_with (see_orphan Hw Hl).
    destruct (a_orphan c) eqn:Ho; [done|by destruct (g_anchored _ _ Hg Ho)].
  - assert (exists mk, kv_last (a_elems c) = Some mk) as [mk Hmk].
    { destruct (a_elems c) as [|e el] using rev_ind; [done|]. exists e.1. unfold kv_last. by rewrite last_snoc. }
    run_with (see_max Hw Hl kd mk Hk Hmk). destruct (kv_first_nonempty _ (Hne d m' eq_refl)) as [nf Hnf].
    assert (Hld : S !! n = Some ((l ++ c :: mid) ++ d :: m')) by (by rewrite <- app_assoc).
    run_with (see_first Hw Hld kd nf Hk Hnf).
    apply kv_last_elem in Hmk as (x & Hx & <-). apply kv_first_elem in Hnf as (y & Hy & <-).
    destruct (flat_parts _ _ _ (sl_sorted _ _ Hs)) as (_ & _ & Hlt & _).
    specialize (Hlt x y Hx). rewrite flat_app, flat_cons, !elem_of_app in Hlt. specialize (Hlt ltac:(auto)).
    destruct (Z.ltb_spec y.1 x.1); [lia|done].
Qed.

Lemma flat_empty mid m : Forall (fun c => a_elems c = []) mid -> flat (mid ++ m) = flat m.
Proof using.
  intros H. rewrite flat_app. replace (flat mid) with (@nil (Z * value V)); [done|].
  induction H as [|c mid Hc _ IH]; [done|]. by rewrite flat_cons, Hc.
Qed.

(** The loop over layer [n + 1], whose entries trace layer [n]. *)
Lemma see_verify_index_loop n lo rounds : forall w l c m pre suf,
  reps S hp w -> S !! Datatypes.S n = Some (l ++ c :: m) -> S !! n = Some lo -> lo = pre ++ suf ->
  anchors suf = a_elems c ++ flat m -> (length m < rounds)%nat ->
  exists w', run (verify_index_loop NDEBUG fuel (kind_of n) (Some (a_ptr c)) (head_or suf None) rounds) w = Done true w' /\
    reps S hp w'.
Proof using Hnd Hlay Hrest Hsize Hfuel.
  induction rounds as [|rounds IH]; intros w l c m pre suf Hw Hu Hlo Hpre Ha Hr; [lia|]. cbn [verify_index_loop].
  destruct (resting_parts _ _ _ (Hrest _ _ Hu)) as (_ & Hc & _).
  run_with (see_size Hw Hu INDEX eq_refl). run_with (see_next Hw Hu).
  run_with (see_lock Hw Hu ltac:(unfold unlocked in Hc; congruence)). run_with (see_verify Hw Hu INDEX eq_refl).
  destruct (see_sort S hp n l c m w Hw Hu) as (w1 & Hr1 & Hw1 & Hat). run_with Hr1.
  destruct (see_verify_entries n w1 l c m lo (length (a_elems c)) 0 pre suf) as (pre' & suf' & Hpre' & Ha' & Hr2); try done.
  run_with Hr2.
  assert (Hl' : S !! Datatypes.S n = Some ((l ++ [c]) ++ m)) by (by rewrite <- app_assoc).
  destruct (see_skip_empty (Datatypes.S n) w1 INDEX m (l ++ [c]) fuel) as (mid & m' & -> & Hmid & Hne & Hr3);
    [done|done|by destruct l|done| |].
  { specialize (Hsize _ _ Hu). rewrite length_app in Hsize. cbn in Hsize. lia. }
  run_with Hr3. run_with (see_verify_order (Datatypes.S n) w1 INDEX l c mid m' Hw1 Hu eq_refl Hne).
  rewrite length_app in Hr. rewrite flat_empty in Ha' by done. destruct m' as [|d m']; cbn [head_or].
  { exists w1. split; [by destruct rounds|done]. }
  apply (IH w1 (l ++ c :: mid) d m' pre' suf'); try done; [by rewrite <- app_assoc|cbn in Hr; lia].
Qed.

Lemma see_verify_data_loop w rounds : forall l c m,
  reps S hp w -> S !! 0%nat = Some (l ++ c :: m) -> (length m < rounds)%nat ->
  run (verify_data_loop NDEBUG fuel (Some (a_ptr c)) rounds) w = Done true w.
Proof using Hnd Hlay Hrest Hsize Hfuel.
  induction rounds as [|rounds IH]; intros l c m Hw Hu Hr; [lia|]. cbn [verify_data_loop].
  destruct (resting_parts _ _ _ (Hrest _ _ Hu)) as (_ & Hc & _).
  run_with (see_size Hw Hu DATA eq_refl). run_with (see_next Hw Hu).
  run_with (see_lock Hw Hu ltac:(unfold unlocked in Hc; congruence)). run_with (see_verify Hw Hu DATA eq_refl).
  assert (Hl' : S !! 0%nat = Some ((l ++ [c]) ++ m)) by (by rewrite <- app_assoc).
  destruct (see_skip_empty 0 w DATA m (l ++ [c]) fuel) as (mid & m' & -> & Hmid & Hne & Hr3);
    [done|done|by destruct l|done| |].
  { specialize (Hsize _ _ Hu). rewrite length_app in Hsize. cbn in Hsize. lia. }
  run_with Hr3. run_with (see_verify_order 0 w DATA l c mid m' Hw Hu eq_refl Hne).
  rewrite length_app in Hr. destruct m' as [|d m']; cbn [head_or]; [by destruct rounds|].
  apply (IH (l ++ c :: mid) d m'); [done|by rewrite <- app_assoc|cbn in Hr; lia].
Qed.

(** ** The checker *)

Context (Hlinked : linked layers S) (Hlen : length S = Datatypes.S layers).
Context (Hmax : (layers <= MAX_LAYERS)%nat).

Lemma layer_cons n : (n <= layers)%nat -> exists a m, S !! n = Some (a :: m) /\ a_ptr a = Head n.
Proof using Hlay Hlen.
  clear Hmax Hsize Hfuel. intros Hn. destruct (lookup_lt_is_Some_2 S n) as [L HL]; [rewrite Hlen; lia|].
  destruct (sl_head _ _ (Hlay _ _ HL)) as (a & m & -> & Hp & _). eauto.
Qed.

Lemma see_verify_index n w :
  (n < layers)%nat -> reps S hp w ->
  exists w', run (verify_index MAX_LAYERS NDEBUG fuel (kind_of n) n (Head n)) w = Done true w' /\ reps S hp w'.
Proof using All.
  intros Hn Hw. destruct (layer_cons n) as (a & lo & Hlo & Hpa); [lia|].
  destruct (layer_cons (Datatypes.S n)) as (c & m & Hu & Hpc); [lia|]. unfold verify_index, index_head.
  rewrite (proj2 (Nat.ltb_lt _ _)) by lia. rewrite <- Hpc, <- Hpa.
  change (Some (a_ptr a)) with (head_or (a :: lo) None).
  assert (Hret : run (Ret (a_ptr c)) w = Done (a_ptr c) w) by done. run_with Hret.
  apply (see_verify_index_loop n (a :: lo) fuel w [] c m [] (a :: lo)); try done.
  - by rewrite <- (lk_link _ _ Hlinked _ _ _ Hlo Hu).
  - specialize (Hsize _ _ Hu). cbn in Hsize. lia.
Qed.

Lemma see_verify_layers n : forall w,
  (n < layers)%nat -> reps S hp w ->
  exists w', run (verify_layers MAX_LAYERS NDEBUG fuel n) w = Done tt w' /\ reps S hp w'.
Proof using All.
  induction n as [|n IH]; intros w Hn Hw; [by exists w|]. cbn [verify_layers]. unfold index_head.
  rewrite (proj2 (Nat.ltb_lt _ _)) by lia.
  assert (Hret : run (Ret (Head (Datatypes.S n))) w = Done (Head (Datatypes.S n)) w) by done. run_with Hret.
  destruct (see_verify_index (Datatypes.S n) w Hn Hw) as (w1 & Hr1 & Hw1). cbn [kind_of] in Hr1. run_with Hr1.
  apply IH; [lia|done].
Qed.
End Quiet.

(** [get_size()] counts the pairs. *)
Lemma see_get_size S hp w m : forall l r f,
  reps S hp w -> S !! 0%nat = Some (l ++ m) -> (length m <= f)%nat ->
  run (get_size_loop f (head_or m None) r) w = Done (r + length (flat m))%nat w.
Proof.
  induction m as [|a m IH]; intros l r f Hw Hl Hf.
  { rewrite Nat.add_0_r. by destruct f. }
  cbn [length] in Hf. destruct f as [|f]; [lia|]. cbn [head_or get_size_loop].
  run_with (see_size Hw Hl DATA eq_refl). run_with (see_next Hw Hl).
  rewrite (IH (l ++ [a])); [|done|by rewrite <- app_assoc|lia]. rewrite flat_cons, length_app. f_equal. lia.
Qed.
(** Nobody holds a hazard pointer. *)
Lemma see_count_reserved S hp w : reps S hp w -> idle hp -> run hp_count_reserved w = Done 0%nat w.
Proof.
  intros (s & Hr & _ & <-) Hi. pose proof (re_hp _ _ _ _ Hr) as Hh. destruct w as [nodes fr mgr]. cbn in Hh |- *.
  f_equal. destruct (s_hp s) as [[h zs]|]; cbn in Hh, Hi; [subst h|by subst mgr].
  destruct Hh as (c & -> & Hs & _). cbn. by rewrite (count_reserved_held c HNone Hs).
Qed.

(** [verify()] *)
Lemma see_verify_all N d S hp w fuel :
  ready layers N S d -> idle hp -> (N < fuel)%nat -> (0 < layers <= MAX_LAYERS)%nat -> reps S hp w ->
  exists w', run (verify MAX_LAYERS layers NDEBUG fuel) w = Done true w' /\ reps S hp w'.
Proof.
  intros [H1 H2 H3 H4] Hi Hfuel [Hpos Hmax] Hw. pose proof Hw as (s & Hr & Hsv & Hhp).
  pose proof (sv_nodup _ _ _ Hsv) as Hnd. apply NoDup_app in Hnd as (_ & _ & Hnd).
  pose proof (sv_layer _ _ _ Hsv) as Hlay. pose proof (sv_len _ _ _ Hsv) as Hlen.
  unfold verify. run_with (see_count_reserved S hp w Hw Hi). cbn [Nat.eqb negb].
  destruct (see_verify_layers (hp:=hp) Hnd Hlay H3 N fuel H4 Hfuel H1 Hlen Hmax (layers - 1) w) as (w1 & Hr1 & Hw1); [lia|done|].
  run_with Hr1.
  destruct (see_verify_index (hp:=hp) Hnd Hlay H3 N fuel H4 Hfuel H1 Hlen Hmax 0 w1) as (w2 & Hr2 & Hw2); [lia|done|].
  unfold data_head. run_with Hr2. destruct (layer_cons Hlay Hlen 0) as (a & m & Hl & Hp); [lia|].
  exists w2. split; [|done]. rewrite <- Hp. apply (see_verify_data_loop (hp:=hp) Hnd Hlay H3 N fuel H4 Hfuel w2 fuel [] a m Hw2 Hl).
  specialize (H4 _ _ Hl). cbn in H4. lia.
Qed.
End SvVerify.
