(* ===== verification/SvSeq.v ===== *)
(** * SvSeq: the life of a skip vector

    The constructor leaves empty layers at rest.  Any sequence of operations of
    one thread keeps them linked, and answers like [spec_run], a sorted
    association list; the destructor then deletes every node there is, the
    zombies of the thread's hazard pointer context with them. *)

From Stdlib Require Import QArith.
From S2P Require Import Prelude KvList Prog SvLock Rng VecSpec HazardPtr World Layers Heap SvNode.
From S2P Require Import SvOps SvMaint SvLayers SvMem SvWp SvDescend SvFreeze SvInsert SvRemove.
From S2P Require Import SvScan.

Local Open Scope Z_scope.
Import Thread.

(** ** The specification *)

Section Spec.
Context {V St : Type}.
Implicit Types (d : list (Z * V)) (k : Z).

(** A callback of [for_each] and [range], with the state it starts with. *)
Record callback := Callback { cb_run : Z -> V -> bool -> St -> V * bool * St; cb_state : St }.

Inductive op :=
| OContains (k : Z)
| OInsert (k : Z) (x : V)
| OInsertSeq (k : Z) (x : V)
| ORemove (k : Z)
| OForEach (f : callback)
| ORange (from to : Z) (f : callback).

Inductive answer := AValue (x : option V) | ABool (b : bool) | AFinal (s : St).

Definition spec_op d (o : op) : answer * list (Z * V) :=
  match o with
  | OContains k => (AValue (kv_lookup k d), d)
  | OInsert k x | OInsertSeq k x => (ABool (bool_decide (kv_lookup k d = None)), kv_add k x d)
  | ORemove k => (ABool (bool_decide (is_Some (kv_lookup k d))), kv_remove k d)
  | OForEach f => let '(d', _, s) := visit (cb_run f) d false (cb_state f) in (AFinal s, d')
  | ORange from to f => let '(d', _, s) := visit (within (cb_run f) from to) d false (cb_state f) in (AFinal s, d')
  end.

Fixpoint spec_run d (ops : list op) : list answer * list (Z * V) :=
  match ops with
  | [] => ([], d)
  | o :: ops' =>
      let '(r, d') := spec_op d o in
      let '(rs, d'') := spec_run d' ops' in (r :: rs, d'')
  end.
End Spec.

Arguments callback V St : clear implicits.
Arguments op V St : clear implicits.
Arguments answer V St : clear implicits.

(** ** Construction *)

Section Heads.
Context {A : Type} (f : nat -> A).

Definition at_heads (m : nat) : gmap ptr A := list_to_map ((fun n => (Head n, f n)) <$> seq 0 m).

Lemma at_heads_head m n : at_heads m !! Head n = if decide (n < m)%nat then Some (f n) else None.
Proof.
  unfold at_heads. case_decide as Hn.
  - apply elem_of_list_to_map_1.
    + rewrite <- list_fmap_compose. apply NoDup_fmap_2; [by intros ?? [=]|apply NoDup_seq].
    + apply list_elem_of_fmap. exists n. split; [done|]. apply elem_of_seq. lia.
  - apply not_elem_of_list_to_map_1. rewrite <- list_fmap_compose.
    intros (i & Hi & Hin)%list_elem_of_fmap. cbn in Hi. injection Hi as ->. apply elem_of_seq in Hin. lia.
Qed.

Lemma at_heads_heap m q : at_heads m !! Heap q = None.
Proof.
  unfold at_heads. apply not_elem_of_list_to_map_1. rewrite <- list_fmap_compose.
  by intros (i & [=] & _)%list_elem_of_fmap.
Qed.
End Heads.

Section SvSeq.
Context {V : Type} {vof : kind -> Type -> Type}.
Context `{HV : forall kd, VecOps (vof kd)} `{HS : forall kd, VecSpec (vof kd)}.
Context `{HM : forall kd, VecMapOps (vof kd)} `{HMS : forall kd, VecMapSpec (vof kd)}.
Context `{HRS : !VecRangeSpec (vof DATA)}.
Context (EXP : kind -> Z) (MAX_LAYERS layers ZCAP t : nat) (merge_threshold : Q).
Context (junk : forall kd, Z * elt V kd) {St : Type}.

Local Abbreviation mem := (mem V unit (fun _ => chunk V vof)).
Local Abbreviation anode := (anode V (lock_state * Z)).
Local Abbreviation hpstate := (option (held ptr * list ptr)).
Local Abbreviation wp := (wp (V:=V) (vof:=vof) layers ZCAP t).
Local Abbreviation sv := (sv (V:=V) (vof:=vof) layers).
Local Abbreviation exec := (exec (V:=V) (vof:=vof) ZCAP t).
Local Abbreviation ready := (ready (V:=V) layers).
Implicit Types (a b : anode) (l m : list anode) (S : list (list anode)) (hp : hpstate).
Implicit Types (n N fuel : nat) (p : ptr) (k : Z) (d : list (Z * V)) (o : op V St) (ops : list (op V St)).

Definition new_head n : anode := ANode (Head n) true (Unlocked, 0) [].
Definition new_layers : list (list anode) := map (fun n => [new_head n]) (seq 0 (Datatypes.S layers)).
Definition new_cells : gmap ptr (cell V) :=
  at_heads (fun n => Cell (ALock true Unlocked 0) None (kind_of n) []) (Datatypes.S MAX_LAYERS).

Lemma layers_at_start n l :
  new_layers !! n = Some l <-> l = [new_head n] /\ (n <= layers)%nat.
Proof.
  unfold new_layers. rewrite list_lookup_fmap_Some. split.
  - intros (m & -> & [-> Hm]%lookup_seq). split; [done|lia].
  - intros [-> Hn]. exists n. split; [done|]. apply lookup_seq. lia.
Qed.

Lemma ptrs_at_start : ptrs new_layers = map Head (seq 0 (Datatypes.S layers)).
Proof. unfold ptrs, new_layers. induction (seq 0 _) as [|n l IH]; [done|]. cbn. by f_equal. Qed.

Lemma new_represents : represents ZCAP t (AState new_cells 1%positive None) (World (heads MAX_LAYERS junk) 1%positive []).
Proof.
  split; [|done|done]. cbn [w_nodes s_mem]. change (heads MAX_LAYERS junk) with (at_heads (fun n => node_head (vof:=vof) junk (kind_of n)) (Datatypes.S MAX_LAYERS)).
  intros [n|q]; unfold new_cells; [rewrite !at_heads_head|rewrite !at_heads_heap; constructor].
  case_decide; constructor. split; [apply (sv_lock_new_encode true)|done|].
  destruct (v_new_spec (vec:=vof (kind_of n)) (junk (kind_of n))) as [Hok He]. exists (v_new (junk (kind_of n))).
  cbn [c_kind c_elems]. by rewrite He.
Qed.

Lemma new_slayer n : slayer vof n [new_head n].
Proof.
  split.
  - exists (new_head n), []. by split_and!.
  - apply kv_sorted_nil.
  - constructor; [|done]. split; [done|cbn; lia|]. done.
Qed.

Lemma new_ready : ready 1 new_layers [].
Proof.
  split.
  - split; [intros n l u [-> _]%layers_at_start [-> _]%layers_at_start|intros l [-> _]%layers_at_start]; done.
  - exists [new_head 0]. split; [|done]. apply layers_at_start. split; [done|lia].
  - intros n l [-> _]%layers_at_start. by constructor.
  - by intros n l [-> _]%layers_at_start.
Qed.

Lemma new_sv : (layers <= MAX_LAYERS)%nat -> sv new_layers (AState new_cells 1%positive None).
Proof.
  intros Hmax. split; cbn [s_mem s_hp s_fresh zombies_of app]; try rewrite ptrs_at_start.
  - unfold new_layers. by rewrite length_map, length_seq.
  - intros n l [-> Hn]%layers_at_start. split; [|done]. unfold new_cells. cbn [a_ptr new_head]. rewrite at_heads_head.
    by rewrite decide_True by lia.
  - intros n l [-> _]%layers_at_start. apply new_slayer.
  - apply NoDup_fmap_2; [by intros ?? [=]|apply NoDup_seq].
  - intros q. unfold new_cells. rewrite at_heads_heap. split; [by intros []|].
    by intros (n & [=] & _)%list_elem_of_fmap.
  - by intros q (n & [=] & _)%list_elem_of_fmap.
  - done.
Qed.

(** ** Sessions *)

(** One operation, with the thread's generator state. *)
Definition exec_op fuel (rng : Z) o : mem (answer V St * Z) :=
  match o with
  | OContains k =>
      let* r := contains EXP MAX_LAYERS layers ZCAP merge_threshold fuel k in Ret (AValue r, rng)
  | OInsert k x =>
      let* (r, rng') := insert EXP MAX_LAYERS layers ZCAP merge_threshold junk fuel rng k x in Ret (ABool r, rng')
  | OInsertSeq k x =>
      let* (r, rng') := insert_seq EXP MAX_LAYERS layers merge_threshold junk fuel rng k x in Ret (ABool r, rng')
  | ORemove k =>
      let* r := remove EXP MAX_LAYERS layers ZCAP merge_threshold fuel k in Ret (ABool r, rng)
  | OForEach f => let* s := for_each (cb_run f) fuel (cb_state f) in Ret (AFinal s, rng)
  | ORange from to f =>
      let* s := range EXP MAX_LAYERS layers ZCAP merge_threshold (cb_run f) fuel from to (cb_state f) in
      Ret (AFinal s, rng)
  end.

Fixpoint exec_ops fuel (rng : Z) ops : mem (list (answer V St)) :=
  match ops with
  | [] => Ret []
  | o :: ops' =>
      let* (r, rng') := exec_op fuel rng o in
      let* rs := exec_ops fuel rng' ops' in Ret (r :: rs)
  end.

Section Run.
(** The capacities that [node_t::get_vector_size()] chooses, and a merge
    threshold that they can meet. *)
Context (Hcap : forall kd, 0 < EXP kd -> Z.of_nat (v_capacity (vof kd)) = 2 * 2 ^ EXP kd).
Context (Hmerge : (merge_threshold <= 2)%Q).
Context (Hexp : EXP INDEX <= 30 /\ EXP DATA <= 30).
Context (Hzcap : (1 <= ZCAP)%nat) (Hpos : (0 < layers)%nat) (Hmax : (layers <= MAX_LAYERS)%nat).

(** Two nodes that [should_merge] accepts fit one. *)
Lemma threshold_fits kd n :
  0 < EXP kd ->
  Qle_bool (merge_threshold * inject_Z (2 ^ EXP kd)) (inject_Z (Z.of_nat n)) = false ->
  (n <= v_capacity (vof kd))%nat.
Proof using Hcap Hmerge.
  clear Hzcap Hpos Hmax Hexp. intros He Hn. specialize (Hcap kd He). assert (Hp : 0 < 2 ^ EXP kd) by (apply Z.pow_pos_nonneg; lia).
  assert (Hlt : (inject_Z (Z.of_nat n) < merge_threshold * inject_Z (2 ^ EXP kd))%Q).
  { apply Qnot_le_lt. intros H%Qle_bool_iff. congruence. }
  assert (Hle : (merge_threshold * inject_Z (2 ^ EXP kd) <= 2 * inject_Z (2 ^ EXP kd))%Q).
  { apply Qmult_le_compat_r; [done|]. change 0%Q with (inject_Z 0). rewrite <- Zle_Qle. lia. }
  pose proof (Qlt_le_trans _ _ _ Hlt Hle) as H. change 2%Q with (inject_Z 2) in H.
  rewrite <- inject_Z_mult, <- Zlt_Qlt in H. lia.
Qed.

(** What an operation does to layers ready for it. *)
Definition op_post N d o : answer V St * Z -> list (list anode) -> hpstate -> Prop :=
  fun r S hp => r.1 = (spec_op d o).1 /\ ready (N + 2) S (spec_op d o).2 /\ idle hp.

Lemma wp_exec_op fuel N d S hp rng o :
  ready N S d -> (N + layers < fuel)%nat -> idle hp ->
  wp (exec_op fuel rng o) S hp (op_post N d o).
Proof using All.
  intros Hrd Hfuel Hhp. destruct Hexp as [Hei Hed].
  assert (Hm : forall S' d', ready N S' d' -> ready (N + 2) S' d') by (intros S' d' ?; eapply ready_mono; [done|lia]).
  destruct o as [k|k x|k x|k|f|from to f]; cbn [exec_op].
  - apply wp_bind, (wp_contains EXP MAX_LAYERS layers ZCAP t merge_threshold threshold_fits Hzcap Hpos Hmax fuel N d); [done|lia|done|].
    intros S' zs Hrd'. apply wp_ret. by split_and!; [|apply Hm|].
  - apply wp_bind, (wp_insert EXP MAX_LAYERS layers ZCAP t merge_threshold junk threshold_fits Hzcap Hpos Hmax fuel N d); try done.
    intros h rng' S' zs _ Hrd' _. by apply wp_ret.
  - apply wp_bind, (wp_insert_seq EXP MAX_LAYERS layers ZCAP t merge_threshold junk threshold_fits Hzcap Hpos Hmax fuel N d); try done; [lia|].
    intros h rng' S' _ Hrd' _. by apply wp_ret.
  - apply wp_bind, (wp_remove EXP MAX_LAYERS layers ZCAP t merge_threshold threshold_fits Hzcap Hpos Hmax fuel N d); [done|lia|done|].
    intros S' zs Hrd'. apply wp_ret. by split_and!; [|apply Hm|].
  - apply wp_bind, (wp_for_each layers ZCAP t (cb_run f) fuel N d); [done|lia|]. intros S' Hrd'. apply wp_ret.
    unfold op_post. cbn [spec_op]. destruct (visit (cb_run f) d false (cb_state f)) as [[d' x] s].
    by split_and!; [|apply Hm|].
  - apply wp_bind, (wp_range EXP MAX_LAYERS layers ZCAP t merge_threshold threshold_fits Hzcap Hpos Hmax (cb_run f) fuel N d); [done|lia|done|].
    intros S' zs Hrd'. apply wp_ret. unfold op_post. cbn [spec_op].
    destruct (visit (within (cb_run f) from to) d false (cb_state f)) as [[d' x] s]. by split_and!; [|apply Hm|].
Qed.

Lemma wp_exec_ops fuel ops : forall N d S hp rng,
  ready N S d -> (N + 2 * length ops + layers < fuel)%nat -> idle hp ->
  wp (exec_ops fuel rng ops) S hp (fun rs S' hp' =>
    rs = (spec_run d ops).1 /\ ready (N + 2 * length ops) S' (spec_run d ops).2 /\ idle hp').
Proof using All.
  induction ops as [|o ops IH]; intros N d S hp rng Hrd Hfuel Hhp; cbn [exec_ops spec_run length] in *.
  { apply wp_ret. split_and!; [done|by rewrite Nat.mul_0_r, Nat.add_0_r|done]. }
  apply wp_bind. eapply wp_mono; [apply (wp_exec_op fuel N d); [done|lia|done]|].
  intros [r rng'] S1 hp1 (Hr & Hrd1 & Hhp1). cbn [fst] in Hr. destruct (spec_op d o) as [r' d1]. cbn [fst snd] in *. subst r'.
  apply wp_bind. eapply wp_mono; [apply (IH (N + 2)%nat d1); [done|lia|done]|].
  intros rs S2 hp2 (-> & Hrd2 & Hhp2). destruct (spec_run d1 ops) as [rs d2]. apply wp_ret.
  split_and!; [done|eapply ready_mono; [exact Hrd2|lia]|done].
Qed.
End Run.
End SvSeq.
