(* ===== verification/Sv.v ===== *)
(** * Sv: what the skip vector guarantees

    The theorems about [skipvector.h], for a thread that runs alone, on top of
    any vector classes that meet [VecSpec], [VecMapSpec] and, for the data
    nodes, [VecRangeSpec].  They hold in a [setting] of the template arguments
    and the configuration, which each theorem names as its first premise; the
    one part of it that a user can break on the command line is the merge
    threshold, and [high_threshold_crashes] shows what then happens.  The
    witnesses run the skip vector over the sorted
    vector of [vector_sfra.h], with exponent 1 (nodes of four entries) and two
    index layers. *)

From Stdlib Require Import QArith.
From S2P Require Import Prelude KvList Prog SvLock Rng VecSpec VectorSfra HazardPtr World Layers.
From S2P Require Import Heap SvNode SvOps SvMaint SvLayers SvMem SvWp SvDescend SvFreeze SvInsert.
From S2P Require Import SvRemove SvScan SvTear SvSeq.

Local Open Scope Z_scope.
Import Thread.

Section Sv.
Context {V : Type} {vof : kind -> Type -> Type}.
Context `{HV : forall kd, VecOps (vof kd)} `{HS : forall kd, VecSpec (vof kd)}.
Context `{HM : forall kd, VecMapOps (vof kd)} `{HMS : forall kd, VecMapSpec (vof kd)}.
Context `{HRS : !VecRangeSpec (vof DATA)}.
Context (EXP : kind -> Z) (MAX_LAYERS layers ZCAP t : nat) (merge_threshold : Q).
Context (junk : forall kd, Z * elt V kd) {St : Type}.

Local Abbreviation mem := (mem V unit (fun _ => chunk V vof)).
Local Abbreviation world := (world V unit (fun _ => chunk V vof)).
Local Abbreviation run := (run (handle (D:=V) (X:=unit) (vec:=fun _ => chunk V vof) t)).
Local Abbreviation wp := (wp (V:=V) (vof:=vof) layers ZCAP t).
Implicit Types (N fuel : nat) (k rng : Z) (d : list (Z * V)) (w : world) (ops : list (op V St)).

(** The world holds a well-formed skip vector whose content is [d], and which
    no thread is using: its layers are sorted, every node that is no orphan has
    a parent and every index entry leads to such a node, locks are free, and
    memory holds these nodes and the thread's zombies.  A layer has at most [N]
    nodes.  [S] are its layers, the data layer first. *)
Definition holds_layers N (S : list (list (anode V (lock_state * Z)))) d w : Prop :=
  exists s, represents ZCAP t s w /\ sv (vof:=vof) layers S s /\ ready layers N S d /\ idle (s_hp s).

Definition holds_map N d w : Prop := exists S, holds_layers N S d w.

(** The key is in layers 0 to [h] and in no other, and starts a node of its
    own, one that is no orphan, in exactly the layers below [h]: at height [h]
    it is an entry of a node that another key starts. *)
Definition placed_at k h (S : list (list (anode V (lock_state * Z)))) : Prop :=
  forall n l, S !! n = Some l ->
    (is_Some (kv_lookup k (flat l)) <-> (n <= h)%nat) /\
    ((exists b, b ∈ l /\ a_orphan b = false /\ kv_first (a_elems b) = Some k) <-> (n < h)%nat).

(** The template arguments and the configuration: capacities of twice the
    target size, as [get_vector_size()] chooses them; a merge threshold of at
    most 2, so that two nodes that are merged fit into one; exponents of at most
    30; room for a zombie; and the number of layers that the constructor
    asserts.  The constructor does not check the merge threshold. *)
Record setting : Prop := {
  st_capacity kd : 0 < EXP kd -> Z.of_nat (v_capacity (vof kd)) = 2 * 2 ^ EXP kd;
  st_threshold : (merge_threshold <= 2)%Q;
  st_exponents : EXP INDEX <= 30 /\ EXP DATA <= 30;
  st_zombies : (1 <= ZCAP)%nat;
  st_layers : (0 < layers <= MAX_LAYERS)%nat;
}.

Lemma wp_run {A} (m : mem A) (P : A -> nat -> list (list (anode V (lock_state * Z))) -> list (Z * V) -> Prop) N d w :
  (forall S hp, ready layers N S d -> idle hp ->
    wp m S hp (fun r S' hp' => exists N' d', P r N' S' d' /\ ready layers N' S' d' /\ idle hp')) ->
  holds_map N d w -> exists r w' N' S' d', run m w = Done r w' /\ P r N' S' d' /\ holds_layers N' S' d' w'.
Proof.
  intros Hm (S & [M fr hp] & Hw & Hsv & Hrd & Hi).
  destruct (Hm S hp Hrd Hi M fr Hsv) as (r & M' & fr' & S' & hp' & He & Hsv' & N' & d' & HP & Hrd' & Hi').
  destruct (He w Hw) as (w' & Hr & Hw'). exists r, w', N', S', d'. split_and!; [done|done|].
  by exists (AState M' fr' hp').
Qed.

(** The result and the content are known; [P] says more about the layers. *)
Lemma wp_run_layers {A} (m : mem A) (r : A) N' d' (P : list (list (anode V (lock_state * Z))) -> Prop) N d w :
  (forall S hp, ready layers N S d -> idle hp ->
    wp m S hp (fun r0 S' hp' => r0 = r /\ P S' /\ ready layers N' S' d' /\ idle hp')) ->
  holds_map N d w -> exists w' S', run m w = Done r w' /\ holds_layers N' S' d' w' /\ P S'.
Proof.
  intros Hm Hw.
  destruct (wp_run m (fun r0 N0 S0 d0 => r0 = r /\ N0 = N' /\ d0 = d' /\ P S0) N d w)
    as (r' & w' & ? & S' & ? & Hr & (-> & -> & -> & HP) & Hw').
  - intros S hp Hrd Hi. eapply wp_mono; [by apply Hm|]. intros r0 S' hp' (-> & ? & ? & ?). by exists N', d'.
  - done.
  - by exists w', S'.
Qed.

Lemma wp_run_to {A} (m : mem A) (r : A) N' d' N d w :
  (forall S hp, ready layers N S d -> idle hp ->
    wp m S hp (fun r0 S' hp' => r0 = r /\ ready layers N' S' d' /\ idle hp')) ->
  holds_map N d w -> exists w', run m w = Done r w' /\ holds_map N' d' w'.
Proof.
  intros Hm Hw. destruct (wp_run_layers m r N' d' (fun _ => True) N d w) as (w' & S' & Hr & Hw' & _); [|done|].
  - intros S hp Hrd Hi. eapply wp_mono; [by apply Hm|]. naive_solver.
  - exists w'. split; [done|]. by exists S'.
Qed.

(** The key that an insertion of height [h] put into layers 0 to [h] starts
    the nodes below [h]: in a linked structure the entries of a layer are the
    first keys of the nodes below that are no orphans. *)
Lemma tower_placed S d N s k h :
  sv (vof:=vof) layers S s -> ready layers N S d -> (h <= layers)%nat -> tower k h S -> placed_at k h S.
Proof.
  intros Hsv Hrd Hh Htw n l Hl. split; [by apply Htw|].
  assert (Ha : (exists b, b ∈ l /\ a_orphan b = false /\ kv_first (a_elems b) = Some k) <->
    exists v, (k, v) ∈ anchors l).
  { split.
    - intros (b & Hb & Ho & Hk). exists (VDown (a_ptr b)). apply elem_of_anchors. by exists b.
    - intros (v & (b & Hb & Ho & Hk & _)%elem_of_anchors). by exists b. }
  rewrite Ha. clear Ha. pose proof (rd_linked _ _ _ _ Hrd) as Hlk. destruct (decide (n = layers)) as [->|Hne].
  - rewrite (lk_top _ _ Hlk _ Hl). split; [by intros (v & ?%elem_of_nil)|lia].
  - pose proof (lookup_lt_Some _ _ _ Hl) as Hlt. rewrite (sv_len _ _ _ Hsv) in Hlt.
    destruct (lookup_lt_is_Some_2 S (Datatypes.S n)) as [u Hu]; [rewrite (sv_len _ _ _ Hsv); lia|].
    rewrite <- (lk_link _ _ Hlk _ _ _ Hl Hu). transitivity (is_Some (kv_lookup k (flat u))).
    + split; [|intros [v Hv]; exists v; by apply kv_lookup_elem].
      intros [v Hv]. destruct (kv_lookup k (flat u)) eqn:Hk; [done|]. rewrite kv_lookup_None in Hk. by destruct (Hk _ Hv).
    + rewrite (Htw _ _ Hu). lia.
Qed.

Section Setting.
Context (Hst : setting).

Local Abbreviation fits := (threshold_fits EXP merge_threshold (st_capacity Hst) (st_threshold Hst)).

(** ** Construction, sessions, destruction *)

Lemma constructed w0 :
  skipvector_new EXP MAX_LAYERS layers junk [] = Some w0 -> w0 = World (heads MAX_LAYERS junk) 1%positive [].
Proof.
  clear Hst. unfold skipvector_new. destruct ((0 <? layers) && (layers <=? MAX_LAYERS))%nat; cbn; [|done].
  destruct (EXP DATA + Z.of_nat layers * EXP INDEX <=? 64); cbn; congruence.
Qed.

Lemma new_holds_map w0 : skipvector_new EXP MAX_LAYERS layers junk [] = Some w0 -> holds_map 1 [] w0.
Proof.
  intros ->%constructed. exists (new_layers layers), (AState (new_cells MAX_LAYERS) 1%positive None). split_and!.
  - apply new_represents.
  - apply new_sv, Hst.
  - apply new_ready.
  - done.
Qed.

Lemma run_ops fuel rng ops N d w :
  holds_map N d w -> (N + 2 * length ops + layers < fuel)%nat ->
  exists w', run (exec_ops EXP MAX_LAYERS layers ZCAP merge_threshold junk fuel rng ops) w = Done (spec_run d ops).1 w' /\
    holds_map (N + 2 * length ops) (spec_run d ops).2 w'.
Proof.
  intros Hw Hfuel. eapply wp_run_to; [|exact Hw]. intros S hp Hrd Hi. destruct Hst as [H1 H2 H3 H4 [H5 H6]].
  by apply wp_exec_ops.
Qed.
End Setting.

Local Abbreviation fits Hst := (threshold_fits EXP merge_threshold (st_capacity Hst) (st_threshold Hst)).

(** C2: the skip vector refines a sorted map.  Let the [setting] hold: vectors
    of twice the target size, a merge threshold of at most 2 (which the
    constructor does not check), exponents of at most 30, room for a zombie, at
    least one layer and at most MAX_LAYERS.  Then a skip vector that the
    constructor accepts, used by one thread for any sequence of lookups,
    insertions (concurrent or sequential versions), removals and iterations
    with any callbacks, fails no assertion, reads no freed node and terminates,
    and its answers are those of [spec_run] from the empty map: lookup,
    insert-if-absent, removal, and the callback run over the pairs in key
    order.  The fuel is linear in the number of operations. *)
Theorem map_refines fuel rng ops w0 :
  setting ->
  skipvector_new EXP MAX_LAYERS layers junk [] = Some w0 -> (1 + 2 * length ops + layers < fuel)%nat ->
  exists w, run (exec_ops EXP MAX_LAYERS layers ZCAP merge_threshold junk fuel rng ops) w0 =
    Done (spec_run [] ops).1 w.
Proof.
  intros Hst Hnew Hfuel. destruct (run_ops Hst fuel rng ops 1 [] w0) as (w & Hr & _); [by apply new_holds_map|done|eauto].
Qed.

(** C10: in a [setting] (vectors of twice the target size, a merge threshold of
    at most 2, exponents of at most 30, room for a zombie, a number of layers
    within bounds), the destructor, after any session of one thread, deletes
    every node the session allocated and has not deleted itself, those that wait
    in the thread's zombie list included, each once (a second deletion would be
    a failure), and leaves the heads, which are members of the object. *)
Theorem map_frees_all fuel rng ops w0 :
  setting ->
  skipvector_new EXP MAX_LAYERS layers junk [] = Some w0 -> (1 + 2 * length ops + layers < fuel)%nat ->
  exists w, run (exec_ops EXP MAX_LAYERS layers ZCAP merge_threshold junk fuel rng ops ;;;
                 skipvector_destroy MAX_LAYERS layers fuel) w0 = Done tt w /\
    (forall q, w_nodes w !! Heap q = None) /\
    (forall n, (n <= layers)%nat -> is_Some (w_nodes w !! Head n)).
Proof.
  intros Hst Hnew Hfuel.
  destruct (run_ops Hst fuel rng ops 1 [] w0) as (w1 & Hr1 & S & [M fr hp] & Hw1 & Hsv & Hrd & Hi);
    [by apply new_holds_map|done|].
  destruct (exec_destroy MAX_LAYERS layers ZCAP t Hsv fuel) as (M' & hp' & He & Hheap & Hhead);
    [|apply Hst|done|].
  { intros n L HL. pose proof (rd_sized _ _ _ _ Hrd _ _ HL). lia. }
  destruct (He w1 Hw1) as (w2 & Hr2 & Hw2). exists w2. split_and!.
  - rewrite run_bind, Hr1. exact Hr2.
  - intros q. pose proof (re_mem _ _ _ _ Hw2 (Heap q)) as Hq. cbn [s_mem] in Hq. rewrite Hheap in Hq. by inversion Hq.
  - intros n Hn. destruct (row_split layers Hsv n Hn) as (a & m & Hl & Hp & _).
    pose proof (sv_cell _ _ _ _ [] _ _ Hsv Hl) as Hc. cbn [s_mem] in Hc. rewrite Hp, <- Hhead in Hc.
    pose proof (re_mem _ _ _ _ Hw2 (Head n)) as Hq. cbn [s_mem] in Hq. rewrite Hc in Hq. inversion Hq; subst. eauto.
Qed.

(** C11: every operation keeps the skip vector well formed, in a [setting]
    (vectors of twice the target size, a merge threshold of at most 2, exponents
    of at most 30, room for a zombie, a number of layers within bounds).
    Started in a world that holds a map, each of the six operations, run by one
    thread, ends in a world that holds the map [spec_op] says, whatever nodes it
    split, merged, unlinked or deleted; and if no layer had more than [N] nodes
    before, none has more than [N + 2] after. *)
Theorem operations_keep_form fuel rng (o : op V St) N d w :
  setting ->
  holds_map N d w -> (N + layers < fuel)%nat ->
  exists rng' w', run (exec_op EXP MAX_LAYERS layers ZCAP merge_threshold junk fuel rng o) w =
      Done ((spec_op d o).1, rng') w' /\ holds_map (N + 2) (spec_op d o).2 w'.
Proof.
  intros [H1 H2 H3 H4 [H5 H6]] Hw Hfuel.
  destruct (wp_run (exec_op EXP MAX_LAYERS layers ZCAP merge_threshold junk fuel rng o)
    (fun r N' _ d' => r.1 = (spec_op d o).1 /\ N' = (N + 2)%nat /\ d' = (spec_op d o).2) N d w)
    as ([r rng'] & w' & N' & S' & d' & Hr & (Hr' & -> & ->) & Hw').
  - intros S hp Hrd Hi. eapply wp_mono; [by apply (wp_exec_op EXP MAX_LAYERS layers ZCAP t merge_threshold junk H1 H2 H3 H4 H5 H6 fuel N d)|].
    intros r S' hp' (? & ? & ?). by exists (N + 2)%nat, (spec_op d o).2.
  - done.
  - cbn in Hr'. subst r. exists rng', w'. split; [done|]. by exists S'.
Qed.

(** ** The operations *)

(** [contains] finds the value of the key, or none, and changes the content
    of no layer. *)
Theorem sv_contains_correct fuel N d w k :
  setting -> holds_map N d w -> (N < fuel)%nat ->
  exists w', run (contains EXP MAX_LAYERS layers ZCAP merge_threshold fuel k) w = Done (kv_lookup k d) w' /\
    holds_map N d w'.
Proof.
  intros Hst Hw Hfuel. eapply wp_run_to; [|exact Hw]. intros S hp Hrd Hi.
  by apply (wp_contains EXP MAX_LAYERS layers ZCAP t merge_threshold (fits Hst) (st_zombies Hst) (proj1 (st_layers Hst)) (proj2 (st_layers Hst)) fuel N d).
Qed.

(** C15: [insert], run by one thread in a [setting] (vectors of twice the target
    size, a merge threshold of at most 2, exponents of at most 30, room for a
    zombie, a number of layers within bounds), draws a height [h] from the
    thread's generator, answers whether the key was absent, and leaves a well
    formed skip vector whose map has the pair added if it was.  In that case the
    pair stands at the height drawn ([placed_at]): the key is in the data layer
    and in the index layers up to height [h] and in none above, in each layer
    below [h] it is the first key of a node that is no orphan, and in the layer
    at height [h] it is an entry of a node that it does not start, unless that
    node is an orphan. *)
Theorem sv_insert_correct fuel rng N d w k x :
  setting -> holds_map N d w -> (N + layers < fuel)%nat ->
  exists h rng' w' S', random_height (EXP INDEX) (EXP DATA) layers rng = Some (h, rng') /\
    run (insert EXP MAX_LAYERS layers ZCAP merge_threshold junk fuel rng k x) w =
      Done (bool_decide (kv_lookup k d = None), rng') w' /\
    holds_layers (N + 2) S' (kv_add k x d) w' /\
    (kv_lookup k d = None -> placed_at k h S').
Proof.
  intros Hst Hw Hfuel. pose proof Hst as [H1 H2 [H3 H3'] H4 [H5 H6]].
  destruct (random_height_le _ _ layers rng H3 H3' H5) as (h & rng' & Hrng & Hh). exists h, rng'.
  destruct (wp_run_layers (insert EXP MAX_LAYERS layers ZCAP merge_threshold junk fuel rng k x)
    (bool_decide (kv_lookup k d = None), rng') (N + 2) (kv_add k x d) (fun S => kv_lookup k d = None -> tower k h S) N d w)
    as (w' & S' & Hr & Hw' & Htw); [|done|].
  - intros S hp Hrd Hi. apply (wp_insert EXP MAX_LAYERS layers ZCAP t merge_threshold junk (fits Hst) H4 H5 H6 fuel N d); try done.
    intros h' rng1 S' zs Hrng' Hrd' Htw. rewrite Hrng in Hrng'. by injection Hrng' as <- <-.
  - exists w', S'. split_and!; [done..|]. intros Hk. destruct Hw' as (s & _ & Hsv & Hrd & _).
    by eapply tower_placed; eauto.
Qed.

(** C17: the sequential-only [insert_seq], which takes no hazard pointer and
    neither freezes nor locks the nodes it inserts into (it locks only the next
    node when it merges orphans on its way), does what [insert] does when a
    thread runs alone in a [setting] (vectors of twice the target size, a merge
    threshold of at most 2, exponents of at most 30, room for a zombie, a number
    of layers within bounds): the same answer, the same next generator state and
    the same map. *)
Theorem inserts_agree fuel rng N d w k x :
  setting -> holds_map N d w -> (N + layers < fuel)%nat ->
  exists r w1 w2,
    run (insert EXP MAX_LAYERS layers ZCAP merge_threshold junk fuel rng k x) w = Done r w1 /\
    run (insert_seq EXP MAX_LAYERS layers merge_threshold junk fuel rng k x) w = Done r w2 /\
    holds_map (N + 2) (kv_add k x d) w1 /\ holds_map (N + 2) (kv_add k x d) w2.
Proof.
  intros Hst Hw Hfuel. pose proof Hst as [H1 H2 [H3 H3'] H4 [H5 H6]].
  destruct (random_height_le _ _ layers rng H3 H3' H5) as (h & rng' & Hrng & _).
  exists (bool_decide (kv_lookup k d = None), rng').
  destruct (wp_run_to (insert EXP MAX_LAYERS layers ZCAP merge_threshold junk fuel rng k x)
    (bool_decide (kv_lookup k d = None), rng') (N + 2) (kv_add k x d) N d w) as (w1 & Hr1 & Hw1); [|done|].
  { intros S hp Hrd Hi. apply (wp_insert EXP MAX_LAYERS layers ZCAP t merge_threshold junk (fits Hst) H4 H5 H6 fuel N d); try done.
    intros h' rng1 S' zs Hrng' Hrd' _. rewrite Hrng in Hrng'. by injection Hrng' as <- <-. }
  destruct (wp_run_to (insert_seq EXP MAX_LAYERS layers merge_threshold junk fuel rng k x)
    (bool_decide (kv_lookup k d = None), rng') (N + 2) (kv_add k x d) N d w) as (w2 & Hr2 & Hw2); [|done|].
  { intros S hp Hrd Hi. apply (wp_insert_seq EXP MAX_LAYERS layers ZCAP t merge_threshold junk (fits Hst) H4 H5 H6 fuel N d); try done; [lia|].
    intros h' rng1 S' Hrng' Hrd' _. rewrite Hrng in Hrng'. by injection Hrng' as <- <-. }
  by exists w1, w2.
Qed.

(** C16: [remove], run by one thread in a [setting] (vectors of twice the target
    size, a merge threshold of at most 2, exponents of at most 30, room for a
    zombie, a number of layers within bounds), answers whether the map held the
    key, and leaves a well formed skip vector whose map is without it: the key is
    in no layer, neither in the data layer nor in an index layer, so that no node
    starts with it. *)
Theorem sv_remove_correct fuel N d w k :
  setting -> holds_map N d w -> (N < fuel)%nat ->
  exists w' S', run (remove EXP MAX_LAYERS layers ZCAP merge_threshold fuel k) w =
      Done (bool_decide (is_Some (kv_lookup k d))) w' /\
    holds_layers N S' (kv_remove k d) w' /\
    (forall n l, S' !! n = Some l -> kv_lookup k (flat l) = None).
Proof.
  intros Hst Hw Hfuel. eapply wp_run_layers; [|exact Hw]. intros S hp Hrd Hi. pose proof Hst as [H1 H2 H3 H4 [H5 H6]].
  apply (wp_remove EXP MAX_LAYERS layers ZCAP t merge_threshold (fits Hst) H4 H5 H6 fuel N d); try done.
  intros S' zs Hrd'. split_and!; try done. intros n l Hl. pose proof (ready_content _ _ _ _ Hrd') as Hct.
  eapply absent_everywhere; [apply Hct|apply Hct|apply kv_lookup_remove|exact Hl].
Qed.

(** [range] runs the callback on the pairs from [from] to [to], in key
    order, until it raises its flag; the map keeps the values the callback
    leaves, and all others. *)
Theorem sv_range_correct fuel N d w from to (f : Z -> V -> bool -> St -> V * bool * St) (s : St) :
  setting -> holds_map N d w -> (N < fuel)%nat ->
  let mid := kv_from from d in
  let '(visited, _, s') := visit f (kv_upto to mid) false s in
  exists w', run (range EXP MAX_LAYERS layers ZCAP merge_threshold f fuel from to s) w = Done s' w' /\
    holds_map N (kv_below from d ++ visited ++ kv_above to mid) w'.
Proof.
  intros Hst Hw Hfuel. cbv zeta. assert (Hs : kv_sorted d).
  { destruct Hw as (S & st & _ & Hsv & Hrd & _). destruct (rd_holds _ _ _ _ Hrd) as (L & HL & Hd).
    eapply keys_sorted; [|exact (sl_sorted _ _ (sv_layer _ _ _ Hsv _ _ HL))]. by rewrite Hd, kv_vmap_keys. }
  pose proof (visit_within f from to d false s Hs) as Hv. cbv zeta in Hv.
  destruct (visit f (kv_upto to (kv_from from d)) false s) as [[e x] s'].
  eapply wp_run_to; [|exact Hw]. intros S hp Hrd Hi. pose proof Hst as [H1 H2 H3 H4 [H5 H6]].
  apply (wp_range EXP MAX_LAYERS layers ZCAP t merge_threshold (fits Hst) H4 H5 H6 f fuel N d); [done..|].
  intros S' zs. by rewrite Hv.
Qed.
(** The debugging checker [verify()] accepts every well-formed skip vector:
    it traces each index layer along the layer below, checks locks and the
    order of nodes, fails none of its checks, returns true and keeps the map;
    [get_size()] answers the number of pairs. *)
Theorem sv_verify_accepts NDEBUG fuel N d w :
  setting -> holds_map N d w -> (N < fuel)%nat ->
  (exists w', run (verify MAX_LAYERS layers NDEBUG fuel) w = Done true w' /\ holds_map N d w') /\
  run (get_size_all fuel) w = Done (length d) w.
Proof.
  intros Hst (S & s & Hw & Hsv & Hrd & Hi) Hfuel.
  assert (Hr : reps layers ZCAP t S (s_hp s) w) by (by exists s). split.
  - destruct (see_verify_all MAX_LAYERS layers ZCAP t NDEBUG N d S (s_hp s) w fuel Hrd Hi Hfuel (st_layers Hst) Hr)
      as (w' & Hv & s' & Hw' & Hsv' & Hhp). exists w'. split; [done|]. exists S, s'. by rewrite Hhp.
  - destruct (rd_holds _ _ _ _ Hrd) as (L & HL & Hd). pose proof (rd_sized _ _ _ _ Hrd _ _ HL) as Hlen.
    destruct (sl_head _ _ (sv_layer _ _ _ Hsv _ _ HL)) as (a & m & -> & Hp & _).
    unfold get_size_all, data_head. rewrite <- Hp.
    pose proof (see_get_size layers ZCAP t S (s_hp s) w (a :: m) [] 0 fuel Hr HL ltac:(lia)) as Hg.
    rewrite Hd, kv_vmap_length in Hg. exact Hg.
Qed.
End Sv.

(** ** Witnesses *)

Module SvDemo.
Definition vof (kd : kind) : Type -> Type := sfra.
#[export] Instance ops4 (kd : kind) : VecOps (vof kd) := sfra_ops 4.
#[export] Instance spec4 (kd : kind) : VecSpec (vof kd) := sfra_spec 4 ltac:(lia) ltac:(lia).
#[export] Instance mops4 (kd : kind) : VecMapOps (vof kd) := sfra_map_ops.
#[export] Instance mspec4 (kd : kind) : VecMapSpec (vof kd) := sfra_map_spec 4 ltac:(lia) ltac:(lia).
#[export] Instance rspec4 : VecRangeSpec (vof DATA) := sfra_range_spec 4 ltac:(lia) ltac:(lia).

Definition EXP (kd : kind) : Z := 1.
Definition junk (kd : kind) : Z * elt Z kd :=
  match kd with INDEX => (0, Head 0) | DATA => (0, 0) end.
Definition threshold : Q := 167 # 100.

Lemma demo_setting : setting (vof:=vof) EXP 2 2 1 threshold.
Proof. split; try done; cbn; lia. Qed.

(** A callback that doubles every value, adds it up, and stops at 30. *)
Definition tally (k x : Z) (b : bool) (s : Z) : Z * bool * Z := (2 * x, 30 <=? s + x, s + x).

(** Insertions that split nodes, removals, and a range. *)
Definition ops : list (op Z Z) :=
  [OInsert 10 1; OInsert 20 2; OInsert 30 3; OInsert 40 4; OInsert 50 5; OInsertSeq 60 6; OInsert 15 7;
   OInsert 25 8; OInsert 35 9; ORemove 30; ORemove 31; OContains 20; ORange 12 45 (Callback tally 0); OInsert 20 0].

Definition w0 : world Z unit (fun _ => chunk Z vof) := World (heads (vof:=vof) 2 junk) 1%positive [].

(** The world the operations end in, and what it holds. *)
Definition w1 : world Z unit (fun _ => chunk Z vof) :=
  match run (handle 0) (exec_ops EXP 2 2 1 threshold junk 40 12345 ops) w0 with Done _ w => w | _ => w0 end.
Definition d1 : list (Z * Z) := [(10, 1); (15, 14); (20, 4); (25, 16); (35, 18); (40, 8); (50, 5); (60, 6)].

Lemma demo_new : skipvector_new (vof:=vof) EXP 2 2 junk [] = Some w0.
Proof. reflexivity. Qed.

Lemma demo_holds : holds_map (vof:=vof) 2 1 0 29 d1 w1.
Proof.
  destruct (run_ops EXP 2 2 1 0 threshold junk demo_setting 40 12345 ops 1 [] w0) as (w & Hr & Hw).
  - by apply (new_holds_map EXP 2 2 1 0 threshold junk demo_setting).
  - cbn. lia.
  - unfold w1. rewrite Hr. exact Hw.
Qed.

(** Twelve ascending insertions, whose merges need a node of more than four
    entries when the merge threshold is 3. *)
Definition ascending : list (op Z Z) := map (fun k => OInsert k k) [1; 2; 3; 4; 5; 6; 7; 8; 9; 10; 11; 12].

(** The constructor takes no notice of the merge threshold: with threshold 3 a
    session of insertions fails the assertion of [merge] that the entries of two
    nodes fit into one; with threshold 2 the same session ends well. *)
Lemma high_threshold_crashes :
  skipvector_new (vof:=vof) EXP 2 2 junk [] = Some w0 /\
  run (handle 0) (exec_ops EXP 2 2 1 (3 # 1) junk 60 1 ascending) w0 = Crashed /\
  exists w, run (handle 0) (exec_ops EXP 2 2 1 (2 # 1) junk 60 1 ascending) w0 = Done (replicate 12 (ABool true)) w.
Proof.
  split_and!; [done|by vm_compute|].
  destruct (run (handle 0) (exec_ops EXP 2 2 1 (2 # 1) junk 60 1 ascending) w0) eqn:He; vm_compute in He; simplify_eq. eauto.
Qed.

End SvDemo.

Import SvDemo.
Local Abbreviation run := (run (handle 0)).
Local Abbreviation holds := (holds_map (vof:=vof) 2 1 0).

Lemma map_refines_witness :
  exists w, run (exec_ops EXP 2 2 1 threshold junk 40 12345 ops) w0 =
    Done [ABool true; ABool true; ABool true; ABool true; ABool true; ABool true; ABool true; ABool true;
          ABool true; ABool true; ABool false; AValue (Some 2); AFinal 30; ABool false] w.
Proof. apply (map_refines EXP 2 2 1 0 threshold junk 40 12345 ops w0 demo_setting demo_new). cbn. lia. Defined.

Lemma map_frees_all_witness :
  exists w, run (exec_ops EXP 2 2 1 threshold junk 40 12345 ops ;;; skipvector_destroy 2 2 40) w0 = Done tt w /\
    (forall q, w_nodes w !! Heap q = None) /\ (forall n, (n <= 2)%nat -> is_Some (w_nodes w !! Head n)).
Proof. apply (map_frees_all EXP 2 2 1 0 threshold junk 40 12345 ops w0 demo_setting demo_new). cbn. lia. Defined.

Lemma operations_keep_form_witness :
  exists rng' w', run (exec_op EXP 2 2 1 threshold junk 40 7 (ORange 15 35 (Callback tally 0))) w1 =
      Done (AFinal 34, rng') w' /\
    holds 31 [(10, 1); (15, 28); (20, 8); (25, 32); (35, 18); (40, 8); (50, 5); (60, 6)] w'.
Proof.
  apply (operations_keep_form EXP 2 2 1 0 threshold junk 40 7 (ORange 15 35 (Callback tally 0)) 29 d1 w1 demo_setting demo_holds).
  lia.
Defined.

Lemma sv_contains_correct_witness :
  exists w', run (contains EXP 2 2 1 threshold 40 25) w1 = Done (Some 16) w' /\ holds 29 d1 w'.
Proof. apply (sv_contains_correct EXP 2 2 1 0 threshold 40 29 d1 w1 25 demo_setting demo_holds). lia. Defined.

Lemma sv_insert_correct_witness :
  exists h rng' w' S', random_height 1 1 2 7 = Some (h, rng') /\
    run (insert EXP 2 2 1 threshold junk 40 7 22 0) w1 = Done (true, rng') w' /\
    holds_layers (vof:=vof) 2 1 0 31 S'
      [(10, 1); (15, 14); (20, 4); (22, 0); (25, 16); (35, 18); (40, 8); (50, 5); (60, 6)] w' /\
    (kv_lookup 22 d1 = None -> placed_at 22 h S').
Proof. apply (sv_insert_correct EXP 2 2 1 0 threshold junk 40 7 29 d1 w1 22 0 demo_setting demo_holds). lia. Defined.

Lemma inserts_agree_witness :
  exists r w2 w3,
    run (insert EXP 2 2 1 threshold junk 40 7 25 0) w1 = Done r w2 /\
    run (insert_seq EXP 2 2 threshold junk 40 7 25 0) w1 = Done r w3 /\ holds 31 d1 w2 /\ holds 31 d1 w3.
Proof. apply (inserts_agree EXP 2 2 1 0 threshold junk 40 7 29 d1 w1 25 0 demo_setting demo_holds). lia. Defined.

Lemma sv_remove_correct_witness :
  exists w' S', run (remove EXP 2 2 1 threshold 40 25) w1 = Done true w' /\
    holds_layers (vof:=vof) 2 1 0 29 S' [(10, 1); (15, 14); (20, 4); (35, 18); (40, 8); (50, 5); (60, 6)] w' /\
    (forall n l, S' !! n = Some l -> kv_lookup 25 (flat l) = None).
Proof. apply (sv_remove_correct EXP 2 2 1 0 threshold 40 29 d1 w1 25 demo_setting demo_holds). lia. Defined.

Lemma sv_range_correct_witness :
  exists w', run (range EXP 2 2 1 threshold tally 40 15 35 0) w1 = Done 34 w' /\
    holds 29 [(10, 1); (15, 28); (20, 8); (25, 32); (35, 18); (40, 8); (50, 5); (60, 6)] w'.
Proof. apply (sv_range_correct EXP 2 2 1 0 threshold 40 29 d1 w1 15 35 tally 0 demo_setting demo_holds). lia. Defined.

Lemma sv_verify_accepts_witness :
  (exists w', run (verify 2 2 false 40) w1 = Done true w' /\ holds 29 d1 w') /\ run (get_size_all 40) w1 = Done 8%nat w1.
Proof. apply (sv_verify_accepts EXP 2 2 1 0 threshold false 40 29 d1 w1 demo_setting demo_holds). lia. Defined.
