(* ===== verification/DiscoNode.v ===== *)
(** * DiscoNode: the chunks of the disco cache (skipvector_disco.h, [node_t])

    A node of the cache carries, besides its lock, next pointer and vector,
    the remote address of the node it mirrors.  The operations are programs
    over the accesses of [World]; [this] is the node's own pointer. *)

From Stdlib Require Import QArith.
From S2P Require Import Prelude Prog SvLock VecSpec World.

Local Open Scope Z_scope.

(** The fields [remote_addr] and [cached_struct_ver] of a node. *)
Record remote (ADDR : Type) := Remote { remote_addr : ADDR; cached_struct_ver : Z }.
Arguments Remote {ADDR} remote_addr cached_struct_ver.
Arguments remote_addr {ADDR} r.
Arguments cached_struct_ver {ADDR} r.

(** [get_vector_size()] for a chunk exponent: [2 << EXP] on [int], which must
    not overflow. *)
Definition get_vector_size (EXP : Z) : option nat :=
  assert_ (EXP <=? 64) ;;
  if 0 <? EXP then assert_ (2 * 2 ^ EXP <? 2 ^ 31) ;; Some (Z.to_nat (2 * 2 ^ EXP))
  else Some 1%nat.

Section DiscoNode.
(** [ADDR] is the template parameter [REMOTE_ADDR] and [null] its default
    value; [junk] is what fresh vector memory holds. *)
Context {ADDR : Type} (null : ADDR) {vec : Type -> Type} `{HV : VecOps vec}.
Context (EXP : Z) (junk : Z * value ADDR).

Local Abbreviation mem := (mem ADDR (remote ADDR) vec).
Implicit Types (this prev next : ptr) (k : Z) (x : value ADDR) (r_addr : ADDR).

(** The default constructor: a head. *)
Definition node_head : node ADDR (remote ADDR) vec :=
  Node (sv_lock_new true) (Remote null 0) None (v_new junk).

(** [node_t(prev, orphan, r_addr)]: stitched in after [prev]. *)
Definition node_new prev (orphan : bool) r_addr : mem ptr :=
  let* nx := load_next prev in
  let* this := trigger (ENew (Node (sv_lock_new orphan) (Remote r_addr 0) nx (v_new junk))) in
  store_next prev (Some this) ;;;
  Ret this.

Definition is_orphan_seq this : mem bool :=
  let* v := lock_rmw this get_value in Ret (is_orphan v).

(** [lock.is_orphan()] *)
Definition lock_is_orphan this : mem bool :=
  let* v := lock_rmw this get_value in Ret (is_orphan v).

Definition get_size this : mem nat := vec_get this (fun v => Some (v_get_size v)).

Definition should_merge (CLEANUP : bool) (merge_threshold : Q) this next (next_is_orphan : bool)
    : mem bool :=
  if negb next_is_orphan then Ret false
  else
    let* nextsize := get_size next in
    if (nextsize =? 0)%nat then Ret true
    else if negb CLEANUP || (EXP <=? 0) then Ret false
    else
      let* size := get_size this in
      Ret (negb (Qle_bool (merge_threshold * inject_Z (2 ^ EXP))
                          (inject_Z (Z.of_nat (size + nextsize))))).

(** [merge()]: absorb and unlink the next node. *)
Definition merge this : mem unit :=
  let* nx := load_next this in
  let* zombie := lift_opt nx in
  vec_steal this zombie (fun v u => r ← v_merge v u; Some (tt, r)) ;;;
  let* zn := load_next zombie in
  store_next this zn ;;;
  lock_rmw zombie die.

(** [insert(pair, r_addr, new_orphan_out)]: the result, and the orphan if the
    node was full and split. *)
Definition node_insert this k x r_addr : mem (bool * option ptr) :=
  let* (result, overfull) := vec_upd this (v_insert k x) in
  if overfull : bool then
    let* new_orphan := node_new this true r_addr in
    vec_steal new_orphan this
      (fun v u => r ← v_steal_half_and_insert k x v u; Some (tt, r)) ;;;
    Ret (true, Some new_orphan)
  else Ret (result, None).
End DiscoNode.
