(* ===== verification/DiscoOps.v ===== *)
(** * DiscoOps: the operations of the disco cache (skipvector_disco.h, [skipvector])

    Each method of the class is a program over the accesses of [World].  A
    method that restarts when a sequence lock check fails is a [retry] loop,
    and every loop whose number of rounds depends on the shared memory is
    bounded by [fuel]; the theorems show how much is enough for a thread that
    runs alone.  A method with output parameters returns their final values.

    The members [layers] and [merge_threshold] are fixed by the constructor
    and are parameters here, as are the template's MAX_LAYERS and the capacity
    [ZCAP] of the hazard pointer manager's zombie array.  [NDEBUG] says whether
    the [assert]s of [fail()] are compiled out. *)

From Stdlib Require Import QArith.
From S2P Require Import Prelude Prog SvLock VecSpec HazardPtr World DiscoNode.

Local Open Scope Z_scope.

(** [path_step]: one level of what a remote descent saw. *)
Record path_step (ADDR : Type) := PathStep { ps_k_min : Z; ps_addr : ADDR; ps_first_down : ADDR }.
Arguments PathStep {ADDR} ps_k_min ps_addr ps_first_down.
Arguments ps_k_min {ADDR} p.
Arguments ps_addr {ADDR} p.
Arguments ps_first_down {ADDR} p.

Section DiscoOps.
Context {ADDR : Type} (null : ADDR) {vec : Type -> Type} `{HV : VecOps vec} `{HSA : !VecSplitAt vec}.
Context (IDX_EXP : Z) (MAX_LAYERS layers ZCAP : nat) (merge_threshold : Q) (NDEBUG : bool).
Context (junk : Z * value ADDR).

Local Abbreviation mem := (mem ADDR (remote ADDR) vec).
Implicit Types (curr down child : ptr) (k : Z) (fuel : nat) (level layer : nat).

(** [PROMOTE_INDEX_ORPHANS] *)
Definition PROMOTE_INDEX_ORPHANS : bool := false.

(** [&index_head.at(i)] and [&directory_head]. *)
Definition index_head (i : nat) : mem ptr :=
  if (i <? MAX_LAYERS - 1)%nat then Ret (Head (S i)) else Crash.
Definition directory_head : ptr := Head 0.

(** [is_head(node, layer)] *)
Definition is_head (node : ptr) layer : mem bool :=
  if (layer =? 0)%nat then Ret (bool_decide (node = directory_head))
  else let* h := index_head (layer - 1) in Ret (bool_decide (node = h)).

(** ** Reading *)

(** The test of the loops of [check_next]: [!curr->v.last(last) || k > last]. *)
Definition past_last curr k : mem bool :=
  let* l := vec_get curr v_last in
  Ret (match l with None => true | Some last => last <? k end).

Definition confirm curr (curr_lock : Z) : mem bool := lock_rmw curr (confirm_read curr_lock).

(** [check_next(curr, curr_lock, k)]: the result and the final [curr] and
    [curr_lock]. *)
Fixpoint check_next_loop fuel curr (curr_lock : Z) (next : option ptr) k : mem (bool * ptr * Z) :=
  match next with
  | None => Ret (true, curr, curr_lock)
  | Some next =>
      let* go := past_last curr k in
      if negb go then Ret (true, curr, curr_lock)
      else match fuel with
      | O => Spin
      | S fuel' =>
          hp_take_next next ;;;
          let* ok := confirm curr curr_lock in
          if negb ok then hp_drop_next ;;; Ret (false, curr, curr_lock)
          else
            let* next_lock := lock_rmw next begin_read in
            let* next_first := vec_get next v_first in
            if k <? next_first then
              let* result := confirm next next_lock in
              hp_drop_next ;;; Ret (result, curr, curr_lock)
            else
              let* ok' := confirm curr curr_lock in
              if negb ok' then hp_drop_next ;;; Ret (false, curr, curr_lock)
              else
                let* next' := load_next next in
                hp_drop_curr ;;; check_next_loop fuel' next next_lock next' k
      end
  end.

Definition check_next fuel curr (curr_lock : Z) k : mem (bool * ptr * Z) :=
  let* next := load_next curr in check_next_loop fuel curr curr_lock next k.

(** The inner loop of [check_next_sequential], which merges orphans: [None]
    when it ran into the end of the layer. *)
Fixpoint merge_orphans fuel curr next : mem (option ptr) :=
  match fuel with
  | O => Spin
  | S fuel' =>
      let* orphan := lock_is_orphan next in
      let* m := should_merge IDX_EXP true merge_threshold curr next orphan in
      if negb m then Ret (Some next)
      else
        lock_acquire fuel next ;;;
        merge curr ;;;
        trigger (EDelete next) ;;;
        let* next' := load_next curr in
        match next' with
        | None => Ret None
        | Some nx => merge_orphans fuel' curr nx
        end
  end.

(** [check_next_sequential(curr, k)]: the final [curr]. *)
Fixpoint check_next_sequential_loop fuel curr (next : option ptr) k : mem ptr :=
  match next with
  | None => Ret curr
  | Some next =>
      let* go := past_last curr k in
      if negb go then Ret curr
      else match fuel with
      | O => Spin
      | S fuel' =>
          let* next' := merge_orphans fuel curr next in
          match next' with
          | None => Ret curr
          | Some next =>
              let* next_first := vec_get next v_first in
              if k <? next_first then Ret curr
              else
                let* nn := load_next next in
                check_next_sequential_loop fuel' next nn k
          end
      end
  end.

Definition check_next_sequential fuel curr k : mem ptr :=
  let* next := load_next curr in check_next_sequential_loop fuel curr next k.

(** [reader_swap(curr, curr_lock, new_node)]: the result and [curr_lock]. *)
Definition reader_swap curr (curr_lock : Z) (new_node : ptr) : mem (bool * Z) :=
  hp_take_next new_node ;;;
  let* ok := confirm curr curr_lock in
  if negb ok then hp_drop_next ;;; Ret (false, curr_lock)
  else
    let* new_lock := lock_rmw new_node begin_read in
    let* ok' := confirm curr curr_lock in
    if negb ok' then hp_drop_next ;;; Ret (false, curr_lock)
    else hp_drop_curr ;;; Ret (true, new_lock).

(** [follow(curr, curr_lock, k, down, prev_addr_out)]: [want] says whether
    [prev_addr_out] is given, the last component is what was written to it. *)
Definition follow fuel curr (curr_lock : Z) k down (want : bool)
    : mem (bool * ptr * Z * option ADDR) :=
  let* (ok, curr', lock') := check_next fuel curr curr_lock k in
  if negb ok then Ret (false, down, lock', None)
  else
    let* found := vec_get curr' (v_find_lte k) in
    let* down' := (match found with Some (_, v) => as_down v | None => Ret down end) in
    let* out := (if want then let* r := trigger (ELoadExt curr') in Ret (Some (remote_addr r))
                 else Ret None) in
    let* (ok', new_lock) := reader_swap curr' lock' down' in
    Ret (ok', down', new_lock, out).

(** *** Descents *)

(** The start of every descent: the head of the top index layer. *)
Definition start_top : mem (ptr * Z) :=
  let* curr := index_head (layers - 1 - 1) in
  hp_take_first curr ;;;
  let* curr_lock := lock_rmw curr begin_read in
  Ret (curr, curr_lock).

(** [for (; layer > target; --layer)]: follow [n] layers down, through index
    layers; [None] is [restart]. *)
Fixpoint follow_layers fuel k (n layer : nat) curr (curr_lock : Z) : mem (option (ptr * Z)) :=
  match n with
  | O => Ret (Some (curr, curr_lock))
  | S n' =>
      let* down := index_head (layer - 2) in
      let* (ok, down', lock', _) := follow fuel curr curr_lock k down false in
      if negb ok then hp_drop_curr ;;; Ret None
      else follow_layers fuel k n' (layer - 1) down' lock'
  end.

(** The end of a descent: walk right, and hand the node over or restart. *)
Definition finish_walk fuel k curr (curr_lock : Z) : mem (option (ptr * Z)) :=
  let* (ok, curr', lock') := check_next fuel curr curr_lock k in
  if negb ok then hp_drop_curr ;;; Ret None else Ret (Some (curr', lock')).

(** [descend_to_directory(target_lock, k)] *)
Definition descend_to_directory fuel k : mem (ptr * Z) :=
  passert (2 <=? layers)%nat ;;;
  retry fuel (
    let* (curr, curr_lock) := start_top in
    let* r := follow_layers fuel k (layers - 2) (layers - 1) curr curr_lock in
    match r with
    | None => Ret None
    | Some (curr, curr_lock) =>
        let* (ok, curr_0, lock', _) := follow fuel curr curr_lock k directory_head false in
        if negb ok then hp_drop_curr ;;; Ret None
        else finish_walk fuel k curr_0 lock'
    end).

(** [descend_to_index_level(target_lock, k, target_level)] *)
Definition descend_to_index_level fuel k (target_level : nat) : mem (ptr * Z) :=
  passert (2 <=? layers)%nat ;;;
  passert (1 <=? target_level)%nat ;;;
  passert (target_level <? layers)%nat ;;;
  retry fuel (
    let* (curr, curr_lock) := start_top in
    let* r := follow_layers fuel k (layers - 1 - target_level) (layers - 1) curr curr_lock in
    match r with
    | None => Ret None
    | Some (curr, curr_lock) => finish_walk fuel k curr curr_lock
    end).

(** The descent of [mirror_split_at_level] and its like, by node type. *)
Definition descend fuel k level : mem (ptr * Z) :=
  if (level =? 0)%nat then descend_to_directory fuel k
  else descend_to_index_level fuel k level.

(** [locate_data(k)] *)
Definition locate_data fuel k : mem ADDR :=
  hp_init ZCAP ;;;
  retry fuel (
    let* (curr_dl, curr_lock) := descend_to_directory fuel k in
    let* found := vec_get curr_dl (v_find_lte k) in
    let* r_addr := (match found with Some (_, v) => as_data v | None => Ret null end) in
    let* ok := confirm curr_dl curr_lock in
    hp_drop_curr ;;;
    Ret (if ok : bool then Some r_addr else None)).

(** [prev_addrs[i] = a] *)
Definition set_addr (prev_addrs : list ADDR) (i : nat) (a : ADDR) : mem (list ADDR) :=
  if (i <? length prev_addrs)%nat then Ret (<[i := a]> prev_addrs) else Crash.

Definition set_out (prev_addrs : list ADDR) (i : nat) (o : option ADDR) : mem (list ADDR) :=
  match o with Some a => set_addr prev_addrs i a | None => Ret prev_addrs end.

(** The descending loop of [gather_prevs]: [n] layers from [layer]. *)
Fixpoint gather_layers fuel k (height n layer : nat) curr (curr_lock : Z) (prev_addrs : list ADDR)
    : mem (option (ptr * Z) * list ADDR) :=
  match n with
  | O => Ret (Some (curr, curr_lock), prev_addrs)
  | S n' =>
      let* down := index_head (layer - 2) in
      let* (ok, down', lock', out) := follow fuel curr curr_lock k down (layer <? height)%nat in
      let* prev_addrs' := set_out prev_addrs layer out in
      if negb ok then hp_drop_curr ;;; Ret (None, prev_addrs')
      else gather_layers fuel k height n' (layer - 1) down' lock' prev_addrs'
  end.

(** One round of the loop of [gather_prevs]; the array survives a restart. *)
Definition gather_round fuel k (height : nat) (prev_addrs : list ADDR)
    : mem (bool * list ADDR) :=
  let* (curr, curr_lock) := start_top in
  let* (r, addrs) := gather_layers fuel k height (layers - 2) (layers - 1) curr curr_lock prev_addrs in
  match r with
  | None => Ret (false, addrs)
  | Some (curr, curr_lock) =>
      let* (ok, curr_dl, lock', out) :=
        follow fuel curr curr_lock k directory_head (1 <? height)%nat in
      let* addrs := set_out addrs 1 out in
      if negb ok then hp_drop_curr ;;; Ret (false, addrs)
      else
        let* (ok', curr_dl, lock') := check_next fuel curr_dl lock' k in
        if negb ok' then hp_drop_curr ;;; Ret (false, addrs)
        else
          let* r := trigger (ELoadExt curr_dl) in
          let* addrs := set_addr addrs 0 (remote_addr r) in
          let* ok'' := confirm curr_dl lock' in
          hp_drop_curr ;;; Ret (ok'', addrs)
  end.

Fixpoint gather_loop fuel (rounds : nat) k (height : nat) (prev_addrs : list ADDR)
    : mem (bool * list ADDR) :=
  match rounds with
  | O => Spin
  | S rounds' =>
      let* (ok, addrs) := gather_round fuel k height prev_addrs in
      if ok : bool then Ret (true, addrs) else gather_loop fuel rounds' k height addrs
  end.

(** [gather_prevs(k, height, prev_addrs)] *)
Definition gather_prevs fuel k (height : nat) (prev_addrs : list ADDR) : mem (bool * list ADDR) :=
  hp_init ZCAP ;;; gather_loop fuel fuel k height prev_addrs.

(** ** Updating *)

(** Descend, and lock the node found: the restart loop at the top of every
    updating method. *)
Definition descend_locked fuel k level : mem ptr :=
  retry fuel (
    let* (curr, curr_lock) := descend fuel k level in
    let* ok := lock_rmw curr (try_upgrade curr_lock) in
    if negb ok then hp_drop_curr ;;; Ret None else Ret (Some curr)).

(** The loop of [promote_one] that reads the child's minimum; [None] is the
    return of an empty child. *)
Definition child_minimum fuel child : mem (option Z) :=
  retry fuel (
    let* l := lock_rmw child begin_read in
    let* size := get_size child in
    if (size =? 0)%nat then Ret (Some None)
    else
      let* child_min := vec_get child v_first in
      let* ok := confirm child l in
      Ret (if ok : bool then Some (Some child_min) else None)).

(** [promote_one(child, child_level, path, levels)] *)
Definition promote_one fuel child (child_level : nat) (path : list (path_step ADDR))
    (levels : nat) : mem (option ptr) :=
  let parent_level := S child_level in
  if (layers <=? parent_level)%nat then Ret None
  else
    let* cm := child_minimum fuel child in
    match cm with
    | None => Ret None
    | Some child_min =>
        let* parent_orphan_addr :=
          (if (parent_level <? levels)%nat
           then let* st := lift_opt (path !! parent_level) in Ret (ps_addr st) else Ret null) in
        let* curr := descend_locked fuel child_min parent_level in
        let* (installed, made) := node_insert junk curr child_min (VDown child) parent_orphan_addr in
        lock_rmw curr (release_changed_if installed) ;;;
        hp_drop_curr ;;;
        if negb installed then Ret None
        else
          lock_acquire fuel child ;;;
          let* orphan := lock_is_orphan child in
          (if orphan : bool then lock_rmw child release_and_adopt ;;; Ret tt
           else lock_rmw child release_unchanged) ;;;
          Ret made
    end.

(** The loop of [promote_orphan]: [rounds] bounds the number of layers. *)
Fixpoint promote_loop fuel (rounds : nat) (next_orphan : option ptr) (level : nat)
    (path : list (path_step ADDR)) (levels : nat) : mem unit :=
  match next_orphan with
  | None => Ret tt
  | Some o =>
      match rounds with
      | O => Spin
      | S rounds' =>
          let* o' := promote_one fuel o level path levels in
          promote_loop fuel rounds' o' (S level) path levels
      end
  end.

Definition promote_orphan fuel child (child_level : nat) (path : list (path_step ADDR))
    (levels : nat) : mem unit :=
  let* next_orphan := promote_one fuel child child_level path levels in
  promote_loop fuel fuel next_orphan (S child_level) path levels.

(** [install_data_entry] at level 0 and [install_index_entry] above it: the
    two differ in the descent and in the type of the value. *)
Definition install_entry fuel level k (x : value ADDR) (orphan_addr : ADDR) : mem unit :=
  let* curr := descend_locked fuel k level in
  let* (changed, made) := node_insert junk curr k x orphan_addr in
  lock_rmw curr (release_changed_if changed) ;;;
  hp_drop_curr ;;;
  match made with
  | Some o => if PROMOTE_INDEX_ORPHANS then promote_orphan fuel o level [] 0 else Ret tt
  | None => Ret tt
  end.

Definition install_data_entry fuel k (addr orphan_addr : ADDR) : mem unit :=
  install_entry fuel 0 k (VData addr) orphan_addr.

Definition install_index_entry fuel level k down (orphan_addr : ADDR) : mem unit :=
  install_entry fuel level k (VDown down) orphan_addr.

(** [mirror_split_at_level(k, level, down_ptr_k, new_remote_addr)] *)
Definition mirror_split_at_level fuel k level (down_ptr_k : value ADDR) (new_remote_addr : ADDR)
    : mem (option ptr) :=
  let* curr := descend_locked fuel k level in
  let* size := get_size curr in
  let* at_min := (if (0 <? size)%nat then let* f := vec_get curr v_first in Ret (f =? k)
                  else Ret false) in
  if at_min : bool then
    let* orphan := lock_is_orphan curr in
    let usable := negb orphan in
    (if usable : bool then
       let* r := trigger (ELoadExt curr) in
       trigger (EStoreExt curr (Remote new_remote_addr (cached_struct_ver r)))
     else Ret tt) ;;;
    lock_rmw curr (release_changed_if usable) ;;;
    hp_drop_curr ;;;
    Ret (if usable : bool then Some curr else None)
  else
    let* present := vec_get curr (v_contains k) in
    match present with
    | Some _ =>
        let* split := node_new junk curr false new_remote_addr in
        let* moved := vec_steal split curr (v_split_at k) in
        if negb moved then
          let* nx := load_next split in
          store_next curr nx ;;;
          trigger (EDelete split) ;;;
          lock_rmw curr release_unchanged ;;;
          hp_drop_curr ;;; Ret None
        else lock_rmw curr release ;;; hp_drop_curr ;;; Ret (Some split)
    | None =>
        let* size := get_size curr in
        let* full_left :=
          (if (size =? v_capacity vec)%nat then let* f := vec_get curr v_first in Ret (k <? f)
           else Ret false) in
        (if full_left : bool then
           let* shed := node_new junk curr true null in
           vec_steal shed curr (fun v u => r ← v_steal_half v u; Some (tt, r))
         else Ret tt) ;;;
        let* new_local := node_new junk curr false new_remote_addr in
        vec_steal new_local curr (fun v u => r ← v_split_insert k down_ptr_k v u; Some (tt, r)) ;;;
        lock_rmw curr release ;;;
        hp_drop_curr ;;;
        Ret (Some new_local)
    end.

(** [mirror_insert_at_top_level(k, level, down_ptr, orphan_remote_addr)] *)
Definition mirror_insert_at_top_level fuel k level (down_ptr : value ADDR)
    (orphan_remote_addr : ADDR) : mem unit :=
  let* curr := descend_locked fuel k level in
  let* (changed, _) := node_insert junk curr k down_ptr orphan_remote_addr in
  lock_rmw curr (release_changed_if changed) ;;;
  hp_drop_curr.

(** The climbing loop of [mirror_reconcile]: [n] rounds at most from level
    [L]; the final child and level. *)
Fixpoint reconcile_climb fuel b (path : list (path_step ADDR)) (n L : nat) child
    : mem (ptr * nat) :=
  match n with
  | O => Ret (child, L)
  | S n' =>
      let* st := lift_opt (path !! L) in
      if ps_k_min st =? b then
        let* r := mirror_split_at_level fuel b L (VDown child) (ps_addr st) in
        match r with
        | None => Ret (child, L)
        | Some nd => reconcile_climb fuel b path n' (S L) nd
        end
      else Ret (child, L)
  end.

(** [mirror_reconcile(data_k_min, data_addr, path, levels)]; a null [path] is
    the empty list, which goes with [levels = 0]. *)
Definition mirror_reconcile fuel (data_k_min : Z) (data_addr : ADDR)
    (path : list (path_step ADDR)) (levels : nat) : mem unit :=
  hp_init ZCAP ;;;
  let* dir_orphan_addr :=
    (if (0 <? levels)%nat then let* st := lift_opt (path !! O) in Ret (ps_addr st)
     else Ret null) in
  install_data_entry fuel data_k_min data_addr dir_orphan_addr ;;;
  if (levels =? 0)%nat || bool_decide (path = []) then Ret tt
  else
    let* p0 := lift_opt (path !! O) in
    let b := ps_k_min p0 in
    let* d := mirror_split_at_level fuel b 0 (VData (ps_first_down p0)) (ps_addr p0) in
    match d with
    | None => Ret tt
    | Some d =>
        let top := Nat.min levels layers in
        let* (child, L) := reconcile_climb fuel b path (top - 1) 1 d in
        if (L <? layers)%nat then
          let* a := (if (L <? levels)%nat
                     then let* st := lift_opt (path !! L) in Ret (ps_addr st) else Ret null) in
          install_index_entry fuel L b child a
        else Ret tt
    end.

(** The overload without a path. *)
Definition mirror_reconcile_entry fuel (data_k_min : Z) (data_addr : ADDR) : mem unit :=
  mirror_reconcile fuel data_k_min data_addr [] 0.

(** The loop of [mirror_insert]: [n] levels from [level]. *)
Fixpoint insert_levels fuel k (addrs : list ADDR) (n level : nat) child : mem (ptr * nat) :=
  match n with
  | O => Ret (child, level)
  | S n' =>
      let* a := lift_opt (addrs !! level) in
      let* r := mirror_split_at_level fuel k level (VDown child) a in
      match r with
      | None => Ret (child, level)
      | Some nd => insert_levels fuel k addrs n' (S level) nd
      end
  end.

(** [mirror_insert(k, height, new_remote_data_addr, new_remote_index_addrs)] *)
Definition mirror_insert fuel k (height : nat) (new_remote_data_addr : ADDR)
    (new_remote_index_addrs : list ADDR) : mem unit :=
  hp_init ZCAP ;;;
  passert (0 <? height)%nat ;;;
  let top_level := (height - 1)%nat in
  let* a0 := lift_opt (new_remote_index_addrs !! O) in
  if (top_level =? 0)%nat then
    mirror_insert_at_top_level fuel k 0 (VData new_remote_data_addr) a0
  else
    let* d := mirror_split_at_level fuel k 0 (VData new_remote_data_addr) a0 in
    match d with
    | None => Ret tt
    | Some d =>
        let* (child, level) := insert_levels fuel k new_remote_index_addrs (top_level - 1) 1 d in
        if (level <? layers)%nat then
          let* a := lift_opt (new_remote_index_addrs !! level) in
          mirror_insert_at_top_level fuel k level (VDown child) a
        else Ret tt
    end.
End DiscoOps.
