(* ===== verification/DiscoDescent.v ===== *)
(** * DiscoDescent: reading the cache alone

    A thread that runs alone in a well-formed memory: [check_next] walks to
    the node that covers the key, [follow] goes down to a node from which the
    layer below can be walked, and so a descent ends, without a restart, at
    the covering node of the layer it aims for, protecting just that node.
    The index layers only speed the search up: the answer is that of a search
    in the entries of the bottom layer.  The last part is on [gather_prevs]. *)

From Stdlib Require Import QArith.
From S2P Require Import Prelude KvList Prog SvLock VecSpec HazardPtr World Layers Heap DiscoNode.
From S2P Require Import DiscoOps.

Local Open Scope Z_scope.

Section Descent.
Context {ADDR : Type} (null : ADDR) {vec : Type -> Type}.
Context `{HV : VecOps vec} `{HS : !VecSpec vec} `{HSA : !VecSplitAt vec}.
Context (MAX_LAYERS layers ZCAP t : nat).
Context (Hlayers : (2 <= layers <= MAX_LAYERS)%nat).

Local Abbreviation node := (node ADDR (remote ADDR) vec).
Local Abbreviation anode := (anode ADDR (remote ADDR)).
Local Abbreviation run := (run (handle (D:=ADDR) (X:=remote ADDR) (vec:=vec) t)).
Implicit Types (N : gmap ptr node) (fr : positive) (h : mgr_t) (k : Z) (fuel : nat).
Implicit Types (a b : anode) (l : list anode) (S : list (list anode)).

(** ** A reader at a node *)

(** Node [a] is at rest and [lk] is its lock word. *)
Definition at_node N a (nx : option ptr) (lk : Z) : Prop :=
  exists c, lk = encode (ALock (a_orphan a) Unlocked c) /\
    node_is N (a_ptr a) (ALock (a_orphan a) Unlocked c) (a_ext a) nx (a_elems a).

Lemma rest_at N a nx : rest N a nx -> exists lk, at_node N a nx lk.
Proof. intros (c & H). eexists. exists c. eauto. Qed.

Lemma run_at_begin N fr h a nx :
  rest N a nx -> exists lk, run (lock_rmw (a_ptr a) begin_read) (World N fr h) =
    Done lk (World N fr h) /\ at_node N a nx lk.
Proof.
  intros (c & H). eexists. split; [by eapply run_begin_read|]. exists c. eauto.
Qed.

Lemma run_at_confirm N fr h a nx lk :
  at_node N a nx lk -> run (confirm (a_ptr a) lk) (World N fr h) = Done true (World N fr h).
Proof. intros (c & -> & H). by eapply run_confirm_read. Qed.

Lemma run_at_next N fr h a nx lk :
  at_node N a nx lk -> run (load_next (a_ptr a)) (World N fr h) = Done nx (World N fr h).
Proof. intros (c & -> & H). by eapply run_load_next. Qed.

Lemma run_at_ext N fr h a nx lk :
  at_node N a nx lk ->
  run (trigger (ELoadExt (a_ptr a))) (World N fr h) = Done (a_ext a) (World N fr h).
Proof. intros (c & -> & H). by eapply run_load_ext. Qed.

Lemma run_at_vec {B} N fr h a nx lk (f : vec (value ADDR) -> option B) r :
  at_node N a nx lk -> (forall v, v_ok v -> v_elems v = a_elems a -> f v = Some r) ->
  run (vec_get (a_ptr a) f) (World N fr h) = Done r (World N fr h).
Proof. intros (c & -> & H) Hf. by eapply run_vec_get. Qed.

Lemma run_past_last N fr h a nx lk k :
  at_node N a nx lk ->
  run (past_last (a_ptr a) k) (World N fr h) =
    Done (match kv_last (a_elems a) with None => true | Some last => last <? k end)
         (World N fr h).
Proof.
  intros Ha. unfold past_last.
  assert (Hr : run (vec_get (a_ptr a) v_last) (World N fr h) =
               Done (kv_last (a_elems a)) (World N fr h)).
  { eapply run_at_vec; [done|]. intros v Hv He. by rewrite v_last_spec, He. }
  by run_with Hr.
Qed.

Lemma run_first N fr h a nx lk k :
  at_node N a nx lk -> kv_first (a_elems a) = Some k ->
  run (vec_get (a_ptr a) v_first) (World N fr h) = Done k (World N fr h).
Proof.
  intros Ha Hk. eapply run_at_vec; [done|]. intros v Hv He. apply v_first_spec; [done|congruence].
Qed.

Lemma run_find_lte N fr h a nx lk k :
  at_node N a nx lk ->
  run (vec_get (a_ptr a) (v_find_lte k)) (World N fr h) =
    Done (kv_lte k (a_elems a)) (World N fr h).
Proof.
  intros Ha. eapply run_at_vec; [done|]. intros v Hv He. by rewrite v_find_lte_spec, He.
Qed.

(** ** Walking right *)

(** The walk of [check_next] from a starting node ends at the covering node
    of its layer. *)
Lemma run_check_next_loop n N fr k m : forall fuel l a h lk,
  layer_ok n (l ++ a :: m) -> seg N (l ++ a :: m) None -> starts k l a ->
  at_node N a (head_or m None) lk -> hps t (Thread.HCurr (a_ptr a)) h ->
  (length m <= fuel)%nat ->
  exists l' b m' lk' h', l ++ a :: m = l' ++ b :: m' /\ covers k l' b m' /\
    run (check_next_loop fuel (a_ptr a) lk (head_or m None) k) (World N fr h) =
      Done (true, a_ptr b, lk') (World N fr h') /\
    at_node N b (head_or m' None) lk' /\ hps t (Thread.HCurr (a_ptr b)) h'.
Proof.
  induction m as [|b m IH]; intros fuel l a h lk Hok Hseg Hst Hat Hh Hf.
  { exists l, a, [], lk, h. split_and!; try done.
    - split; [done|]. by intros e ?%elem_of_nil.
    - by destruct fuel. }
  destruct fuel as [|fuel]; cbn in Hf; [lia|].
  cbn [check_next_loop head_or].
  run_with (run_past_last N fr h _ _ _ k Hat).
  destruct (match kv_last (a_elems a) with None => true | Some last => last <? k end) eqn:Hgo;
    cbn [negb].
  2: { destruct (kv_last (a_elems a)) as [last|] eqn:Hla; [|done].
       apply Z.ltb_ge in Hgo. exists l, a, (b :: m), lk, h. split_and!; try done.
       by eapply covers_last. }
  assert (Hb : rest N b (head_or m None)).
  { rewrite (app_assoc l [a] (b :: m) : l ++ a :: b :: m = _) in Hseg. by eapply seg_mid. }
  destruct (kv_first_nonempty (a_elems b)) as [fb Hfb].
  { pose proof (layer_tail_ok _ _ _ _ Hok) as Ht. by apply Forall_cons in Ht as [[? _] _]. }
  run_ex (run_take_next t N fr h _ (a_ptr b) Hh) as h1 _ Hh1.
  run_with (run_at_confirm N fr h1 _ _ _ Hat).
  destruct (run_at_begin N fr h1 b _ Hb) as (lkb & Hrb & Hatb). run_with Hrb.
  run_with (run_first N fr h1 _ _ _ _ Hatb Hfb).
  destruct (Z.ltb_spec k fb) as [Hlt|Hge].
  - run_with (run_at_confirm N fr h1 _ _ _ Hatb).
    run_ex (run_drop_next t N fr h1 _ _ Hh1) as h2 _ Hh2.
    exists l, a, (b :: m), lk, h2. split_and!; try done. by eapply covers_next.
  - run_with (run_at_confirm N fr h1 _ _ _ Hat).
    run_with (run_at_next N fr h1 _ _ _ Hatb).
    run_ex (run_drop_curr_both t N fr h1 _ _ Hh1) as h2 _ Hh2.
    replace (l ++ a :: b :: m) with ((l ++ [a]) ++ b :: m) in * by (by rewrite <- app_assoc).
    apply IH; try done; [|lia]. right. eauto.
Qed.

Lemma run_check_next n N fr k fuel l a m h lk :
  layer_ok n (l ++ a :: m) -> seg N (l ++ a :: m) None -> starts k l a ->
  at_node N a (head_or m None) lk -> hps t (Thread.HCurr (a_ptr a)) h ->
  (length m <= fuel)%nat ->
  exists l' b m' lk' h', l ++ a :: m = l' ++ b :: m' /\ covers k l' b m' /\
    run (check_next fuel (a_ptr a) lk k) (World N fr h) =
      Done (true, a_ptr b, lk') (World N fr h') /\
    at_node N b (head_or m' None) lk' /\ hps t (Thread.HCurr (a_ptr b)) h'.
Proof.
  intros Hok Hseg Hst Hat Hh Hf. unfold check_next.
  destruct (run_check_next_loop n N fr k m fuel l a h lk Hok Hseg Hst Hat Hh Hf)
    as (l' & b & m' & lk' & h' & He & Hc & Hr & Hb & Hh').
  exists l', b, m', lk', h'. split_and!; try done. by run_with (run_at_next N fr h _ _ _ Hat).
Qed.

(** ** Going down *)

(** Memory represents a well-formed state; [miss] as in [wf]. *)
Definition inv (miss : option (nat * ptr)) N fr S : Prop := wf layers miss S /\ repr N fr S.

(** Enough rounds for every loop of a reader: the length of every layer. *)
Definition enough fuel S : Prop := forall n l, S !! n = Some l -> (length l <= fuel)%nat.

Section State.
Context (miss : option (nat * ptr)) (N : gmap ptr node) (fr : positive).
Context (S : list (list anode)) (Hinv : inv miss N fr S) (fuel : nat) (Hfuel : enough fuel S).

Lemma inv_layer n : (n < layers)%nat -> exists l, S !! n = Some l /\ layer_ok n l /\ seg N l None.
Proof.
  intros Hn. destruct Hinv as [Hwf Hr].
  destruct (lookup_lt_is_Some_2 S n) as [l Hl]; [rewrite (wf_len _ _ _ Hwf); lia|].
  exists l. split_and!; [done|by eapply wf_layer|by eapply r_seg].
Qed.

Lemma inv_fuel : exists fuel', fuel = Datatypes.S fuel'.
Proof.
  destruct (inv_layer 0) as (l & Hl & Hok & _); [lia|].
  destruct (lo_head _ _ Hok) as (a & l' & -> & _). specialize (Hfuel _ _ Hl).
  cbn in Hfuel. destruct fuel; [lia|eauto].
Qed.

(** The head of a layer is a node to start from. *)
Lemma inv_head n : (n < layers)%nat -> exists a m, S !! n = Some (a :: m) /\ a_ptr a = Head n.
Proof.
  intros Hn. destruct (inv_layer n Hn) as (l & Hl & Hok & _).
  destruct (lo_head _ _ Hok) as (a & l' & -> & Hp & _). eauto.
Qed.

Lemma inv_check_next n k l a m h lk :
  S !! n = Some (l ++ a :: m) -> starts k l a -> at_node N a (head_or m None) lk ->
  hps t (Thread.HCurr (a_ptr a)) h ->
  exists l' b m' lk' h', l ++ a :: m = l' ++ b :: m' /\ covers k l' b m' /\
    run (check_next fuel (a_ptr a) lk k) (World N fr h) =
      Done (true, a_ptr b, lk') (World N fr h') /\
    at_node N b (head_or m' None) lk' /\ hps t (Thread.HCurr (a_ptr b)) h'.
Proof.
  intros Hl Hst Hat Hh. destruct Hinv as [Hwf Hr].
  eapply (run_check_next n); try done; [by eapply wf_layer|by eapply r_seg|].
  specialize (Hfuel _ _ Hl). rewrite length_app in Hfuel. cbn in Hfuel. lia.
Qed.

Lemma run_reader_swap a nx lk b nxb h :
  at_node N a nx lk -> rest N b nxb -> hps t (Thread.HCurr (a_ptr a)) h ->
  exists lk' h',
    run (reader_swap (a_ptr a) lk (a_ptr b)) (World N fr h) = Done (true, lk') (World N fr h') /\
    at_node N b nxb lk' /\ hps t (Thread.HCurr (a_ptr b)) h'.
Proof.
  intros Hat Hb Hh. unfold reader_swap.
  run_ex (run_take_next t N fr h _ (a_ptr b) Hh) as h1 _ Hh1.
  run_with (run_at_confirm N fr h1 _ _ _ Hat).
  destruct (run_at_begin N fr h1 b _ Hb) as (lkb & Hrb & Hatb). run_with Hrb.
  run_with (run_at_confirm N fr h1 _ _ _ Hat).
  run_ex (run_drop_curr_both t N fr h1 _ _ Hh1) as h2 _ Hh2.
  by exists lkb, h2.
Qed.

(** The down pointer found in a covering node, or the head by default. *)
Lemma down_target n k lc c mc lo :
  S !! Datatypes.S n = Some (lc ++ c :: mc) -> S !! n = Some lo -> covers k lc c mc ->
  exists l' b m', lo = l' ++ b :: m' /\ starts k l' b /\
    match kv_lte k (a_elems c) with
    | Some (_, v) => v = VDown (a_ptr b)
    | None => a_ptr b = Head n
    end.
Proof.
  intros Hl Hlo Hc. destruct Hinv as [Hwf Hr].
  destruct (kv_lte k (a_elems c)) as [[k' v]|] eqn:Hlte.
  - apply kv_lte_elem in Hlte as [Hin Hle].
    destruct (wf_entry _ _ _ Hwf (Datatypes.S n) _ (k', v) Hl) as (m & b & Hm & Hb & Hv & Ho & Hk).
    { rewrite flat_mid, !elem_of_app. auto. }
    rewrite Hlo in Hm. injection Hm as <-.
    apply list_elem_of_split in Hb as (l' & m' & ->).
    exists l', b, m'. split_and!; [done|right; eauto|done].
  - pose proof (wf_layer _ _ _ Hwf _ _ Hlo) as Hok.
    destruct (lo_head _ _ Hok) as (b & m' & -> & Hp & _).
    exists [], b, m'. split_and!; [done|by left|done].
Qed.

Lemma run_follow n k l a m lo h lk want :
  S !! Datatypes.S n = Some (l ++ a :: m) -> S !! n = Some lo -> starts k l a ->
  at_node N a (head_or m None) lk -> hps t (Thread.HCurr (a_ptr a)) h ->
  exists lc c mc l' b m' lk' h',
    l ++ a :: m = lc ++ c :: mc /\ covers k lc c mc /\
    lo = l' ++ b :: m' /\ starts k l' b /\
    run (follow fuel (a_ptr a) lk k (Head n) want) (World N fr h) =
      Done (true, a_ptr b, lk', if want then Some (remote_addr (a_ext c)) else None)
           (World N fr h') /\
    at_node N b (head_or m' None) lk' /\ hps t (Thread.HCurr (a_ptr b)) h'.
Proof.
  intros Hl Hlo Hst Hat Hh. unfold follow.
  destruct (inv_check_next _ k l a m h lk Hl Hst Hat Hh)
    as (lc & c & mc & lkc & h1 & Hec & Hc & Hr1 & Hatc & Hh1).
  rewrite Hec in Hl. run_with Hr1. run_with (run_find_lte N fr h1 _ _ _ k Hatc).
  destruct (down_target n k lc c mc lo Hl Hlo Hc) as (l' & b & m' & Hlo' & Hst' & Hv).
  assert (Hdown : run (match kv_lte k (a_elems c) with
                       | Some (_, v) => as_down v | None => Ret (Head n) end) (World N fr h1) =
                  Done (a_ptr b) (World N fr h1)).
  { destruct (kv_lte k (a_elems c)) as [[k' v]|]; [by rewrite Hv|by rewrite Hv]. }
  run_with Hdown.
  assert (Hout : run (if want then let* r := trigger (ELoadExt (a_ptr c)) in
                                    Ret (Some (remote_addr r)) else Ret None) (World N fr h1) =
                 Done (if want then Some (remote_addr (a_ext c)) else None) (World N fr h1)).
  { destruct want; [|done]. by run_with (run_at_ext N fr h1 _ _ _ Hatc). }
  run_with Hout.
  assert (Hb : rest N b (head_or m' None)).
  { destruct Hinv as [_ Hrep]. eapply repr_rest; [exact Hrep|]. by rewrite Hlo, Hlo'. }
  destruct (run_reader_swap c _ lkc b _ h1 Hatc Hb Hh1) as (lk' & h2 & Hr2 & Hatb & Hh2).
  run_with Hr2. exists lc, c, mc, l', b, m', lk', h2. by split_and!.
Qed.

(** *** Descents *)

Lemma run_index_head i h :
  (i < MAX_LAYERS - 1)%nat ->
  run (index_head MAX_LAYERS i) (World N fr h) = Done (Head (Datatypes.S i)) (World N fr h).
Proof. intros Hi. unfold index_head. by rewrite (proj2 (Nat.ltb_lt _ _)). Qed.

Lemma run_start_top h :
  hps t Thread.HNone h ->
  exists a m lk h', S !! (layers - 1)%nat = Some (a :: m) /\
    run (start_top MAX_LAYERS layers) (World N fr h) = Done (a_ptr a, lk) (World N fr h') /\
    at_node N a (head_or m None) lk /\ hps t (Thread.HCurr (a_ptr a)) h'.
Proof.
  intros Hh. destruct (inv_head (layers - 1)) as (a & m & Hl & Hp); [lia|].
  unfold start_top. run_with (run_index_head (layers - 1 - 1) h ltac:(lia)).
  replace (Datatypes.S (layers - 1 - 1)) with (layers - 1)%nat by lia. rewrite <- Hp.
  run_ex (run_take_first t N fr h (a_ptr a) Hh) as h1 _ Hh1.
  assert (Ha : rest N a (head_or m None)).
  { destruct Hinv as [_ Hr]. by apply (repr_rest N fr S (layers - 1) [] a m). }
  destruct (run_at_begin N fr h1 a _ Ha) as (lk & Hrb & Hat). run_with Hrb.
  exists a, m, lk, h1. by split_and!.
Qed.

Lemma run_follow_layers k n : forall layer l a m h lk,
  (n < layer)%nat -> (layer < layers)%nat ->
  S !! layer = Some (l ++ a :: m) -> starts k l a ->
  at_node N a (head_or m None) lk -> hps t (Thread.HCurr (a_ptr a)) h ->
  exists l' b m' lk' h', S !! (layer - n)%nat = Some (l' ++ b :: m') /\ starts k l' b /\
    run (follow_layers MAX_LAYERS fuel k n layer (a_ptr a) lk) (World N fr h) =
      Done (Some (a_ptr b, lk')) (World N fr h') /\
    at_node N b (head_or m' None) lk' /\ hps t (Thread.HCurr (a_ptr b)) h'.
Proof.
  induction n as [|n IH]; intros layer l a m h lk Hn Hlayer Hl Hst Hat Hh.
  { exists l, a, m, lk, h. rewrite Nat.sub_0_r. by split_and!. }
  cbn [follow_layers].
  destruct layer as [|layer]; [lia|].
  run_with (run_index_head (Datatypes.S layer - 2) h ltac:(lia)).
  replace (Datatypes.S (Datatypes.S layer - 2)) with layer by lia.
  destruct (inv_layer layer) as (lo & Hlo & _); [lia|].
  destruct (run_follow layer k l a m lo h lk false Hl Hlo Hst Hat Hh)
    as (lc & c & mc & l' & b & m' & lk' & h' & _ & _ & Hlo' & Hst' & Hr & Hatb & Hh').
  run_with Hr. rewrite Hlo' in Hlo.
  replace (Datatypes.S layer - 1)%nat with layer by lia.
  replace (Datatypes.S layer - Datatypes.S n)%nat with (layer - n)%nat by lia.
  apply (IH layer l' b m'); try done; lia.
Qed.

Lemma run_finish_walk n k l a m h lk :
  S !! n = Some (l ++ a :: m) -> starts k l a -> at_node N a (head_or m None) lk ->
  hps t (Thread.HCurr (a_ptr a)) h ->
  exists l' b m' lk' h', S !! n = Some (l' ++ b :: m') /\ covers k l' b m' /\
    run (finish_walk fuel k (a_ptr a) lk) (World N fr h) =
      Done (Some (a_ptr b, lk')) (World N fr h') /\
    at_node N b (head_or m' None) lk' /\ hps t (Thread.HCurr (a_ptr b)) h'.
Proof.
  intros Hl Hst Hat Hh. unfold finish_walk.
  destruct (inv_check_next n k l a m h lk Hl Hst Hat Hh)
    as (l' & b & m' & lk' & h' & He & Hc & Hr & Hb & Hh').
  exists l', b, m', lk', h'. rewrite <- He. run_with Hr. by split_and!.
Qed.

(** A descent ends at the node of its layer that covers the key. *)
Definition lands k (level : nat) h (d : mem ADDR (remote ADDR) vec (ptr * Z)) : Prop :=
  exists l a m lk h', S !! level = Some (l ++ a :: m) /\ covers k l a m /\
    run d (World N fr h) = Done (a_ptr a, lk) (World N fr h') /\
    at_node N a (head_or m None) lk /\ hps t (Thread.HCurr (a_ptr a)) h'.

Lemma run_descend_to_index_level k target h :
  (1 <= target < layers)%nat -> hps t Thread.HNone h ->
  lands k target h (descend_to_index_level MAX_LAYERS layers fuel k target).
Proof.
  intros Ht Hh. unfold descend_to_index_level, lands.
  run_with (run_passert t (2 <=? layers)%nat N fr h ltac:(by apply Nat.leb_le; lia)).
  run_with (run_passert t (1 <=? target)%nat N fr h ltac:(by apply Nat.leb_le; lia)).
  run_with (run_passert t (target <? layers)%nat N fr h ltac:(by apply Nat.ltb_lt; lia)).
  destruct inv_fuel as [f' Hf'].
  destruct (run_start_top h Hh) as (a & m & lk & h1 & Hl & Hr1 & Hat & Hh1).
  destruct (run_follow_layers k (layers - 1 - target) (layers - 1) [] a m h1 lk)
    as (l' & b & m' & lk' & h2 & Hl' & Hst' & Hr2 & Hatb & Hh2); try done; [lia..|by left|].
  replace (layers - 1 - (layers - 1 - target))%nat with target in Hl' by lia.
  destruct (run_finish_walk target k l' b m' h2 lk' Hl' Hst' Hatb Hh2)
    as (l3 & c & m3 & lk3 & h3 & Hl3 & Hc & Hr3 & Hatc & Hh3).
  exists l3, c, m3, lk3, h3. split_and!; try done.
  rewrite Hf'. apply run_retry_done. rewrite <- Hf'.
  run_with Hr1. run_with Hr2. exact Hr3.
Qed.

Lemma run_descend_to_directory k h :
  hps t Thread.HNone h ->
  lands k 0 h (descend_to_directory MAX_LAYERS layers fuel k).
Proof.
  intros Hh. unfold descend_to_directory, lands.
  run_with (run_passert t (2 <=? layers)%nat N fr h ltac:(by apply Nat.leb_le; lia)).
  destruct inv_fuel as [f' Hf'].
  destruct (run_start_top h Hh) as (a & m & lk & h1 & Hl & Hr1 & Hat & Hh1).
  destruct (run_follow_layers k (layers - 2) (layers - 1) [] a m h1 lk)
    as (l' & b & m' & lk' & h2 & Hl' & Hst' & Hr2 & Hatb & Hh2); try done; [lia..|by left|].
  replace (layers - 1 - (layers - 2))%nat with 1%nat in Hl' by lia.
  destruct (inv_layer 0) as (lo & Hlo & _); [lia|].
  destruct (run_follow 0 k l' b m' lo h2 lk' false Hl' Hlo Hst' Hatb Hh2)
    as (lc & c & mc & l3 & d & m3 & lk3 & h3 & _ & _ & Hlo' & Hst3 & Hr3 & Hatd & Hh3).
  rewrite Hlo' in Hlo.
  destruct (run_finish_walk 0 k l3 d m3 h3 lk3 Hlo Hst3 Hatd Hh3)
    as (l4 & e & m4 & lk4 & h4 & Hl4 & Hc & Hr4 & Hate & Hh4).
  exists l4, e, m4, lk4, h4. split_and!; try done.
  rewrite Hf'. apply run_retry_done. rewrite <- Hf'.
  run_with Hr1. run_with Hr2. unfold directory_head. run_with Hr3. exact Hr4.
Qed.

Lemma run_descend k level h :
  (level < layers)%nat -> hps t Thread.HNone h ->
  lands k level h (descend MAX_LAYERS layers fuel k level).
Proof.
  intros Hlv Hh. unfold descend. destruct (Nat.eqb_spec level 0) as [->|].
  - by apply run_descend_to_directory.
  - apply run_descend_to_index_level; [lia|done].
Qed.

(** ** Lookups *)

(** The routing entry of a key: the last entry of the directory at or
    below it. *)
Definition route k : ADDR :=
  match kv_lte k (flat (default [] (S !! 0%nat))) with
  | Some (_, VData d) => d
  | _ => null
  end.

Lemma run_locate_data k h :
  hps_idle t h ->
  exists h', run (locate_data null MAX_LAYERS layers ZCAP fuel k) (World N fr h) =
    Done (route k) (World N fr h') /\ hps t Thread.HNone h'.
Proof.
  intros Hh. unfold locate_data. run_ex (run_hp_init t ZCAP N fr h Hh) as h1 _ Hh1.
  destruct inv_fuel as [f' Hf'].
  destruct (run_descend_to_directory k h1 Hh1) as (l & a & m & lk & h2 & Hl & Hc & Hr & Hat & Hh2).
  destruct (run_drop_curr t N fr h2 _ Hh2) as (h3 & Hr3 & Hh3).
  exists h3. split; [|done]. rewrite Hf'. apply run_retry_done. rewrite <- Hf'.
  run_with Hr. run_with (run_find_lte N fr h2 _ _ _ k Hat).
  assert (Hroute : run (match kv_lte k (a_elems a) with
                        | Some (_, v) => as_data v | None => Ret null end) (World N fr h2) =
                   Done (route k) (World N fr h2)).
  { destruct Hinv as [Hwf _]. unfold route. rewrite Hl. cbn [from_option id].
    rewrite covers_lte by done.
    destruct (kv_lte k (a_elems a)) as [[k' v]|] eqn:Hlte; [|done].
    apply kv_lte_elem in Hlte as [Hin _].
    destruct (wf_entry _ _ _ Hwf 0%nat _ (k', v) Hl) as [d Hd].
    { rewrite flat_mid, !elem_of_app. auto. }
    cbn in Hd. by rewrite Hd. }
  run_with Hroute. run_with (run_at_confirm N fr h2 _ _ _ Hat). by run_with Hr3.
Qed.
End State.
End Descent.

Arguments inv_layer {ADDR vec HV HS MAX_LAYERS layers} Hlayers {miss N fr S} Hinv n _.
Arguments inv_fuel {ADDR vec HV HS MAX_LAYERS layers} Hlayers {miss N fr S} Hinv {fuel} Hfuel.
Arguments inv_check_next {ADDR vec HV HS MAX_LAYERS layers t} Hlayers {miss N fr S} Hinv {fuel} Hfuel
  n k l a m h lk _ _ _ _.
Arguments run_follow {ADDR vec HV HS MAX_LAYERS layers t} Hlayers {miss N fr S} Hinv {fuel} Hfuel
  n k l a m lo h lk want _ _ _ _ _.
Arguments run_start_top {ADDR vec HV HS MAX_LAYERS layers t} Hlayers {miss N fr S} Hinv h _.
Arguments run_descend {ADDR vec HV HS MAX_LAYERS layers t} Hlayers {miss N fr S} Hinv {fuel} Hfuel
  k level h _ _.
Arguments run_at_ext {ADDR vec HV HS t N fr h a nx lk} _.
Arguments run_at_confirm {ADDR vec HV HS t N fr h a nx lk} _.

(** * The read-only queries of the cache, alone

    [gather_prevs] reports, for every level a key of the given height will
    occupy, the remote address of the local node that covers the key there. *)

Section Gather.
Context {ADDR : Type} (null : ADDR) {vec : Type -> Type}.
Context `{HV : VecOps vec} `{HS : !VecSpec vec} `{HSA : !VecSplitAt vec}.
Context (MAX_LAYERS layers ZCAP t : nat).
Context (Hlayers : (2 <= layers <= MAX_LAYERS)%nat).

Local Abbreviation node := (node ADDR (remote ADDR) vec).
Local Abbreviation anode := (anode ADDR (remote ADDR)).
Local Abbreviation run := (run (handle (D:=ADDR) (X:=remote ADDR) (vec:=vec) t)).

Context (miss : option (nat * ptr)) (N : gmap ptr node) (fr : positive).
Context (S : list (list anode)) (Hinv : inv layers miss N fr S).
Context (fuel : nat) (Hfuel : enough fuel S).

Implicit Types (h : mgr_t) (k : Z) (a b : anode) (l m : list anode).

(** The remote address of the node that covers [k] at level [i]. *)
Definition cover_addr k (i : nat) : option ADDR :=
  (fun a => remote_addr (a_ext a)) <$> (S !! i ≫= cover_node k).

Lemma cover_addr_at k i l a m :
  S !! i = Some (l ++ a :: m) -> covers k l a m -> cover_addr k i = Some (remote_addr (a_ext a)).
Proof.
  intros Hl Hc. unfold cover_addr. rewrite Hl. cbn [mbind option_bind].
  destruct Hinv as [Hwf _]. by erewrite covers_cover_node by (done || by eapply wf_layer).
Qed.

(** The array after the levels of a range have been recorded. *)
Definition gathered k (height lo hi : nat) (addrs addrs' : list ADDR) : Prop :=
  length addrs' = length addrs /\
  forall i, addrs' !! i =
    if decide (lo < i <= hi /\ i < height)%nat then cover_addr k i else addrs !! i.

Lemma run_set_out addrs i (out : bool) (x : ADDR) h :
  (out = true -> (i < length addrs)%nat) ->
  run (set_out addrs i (if out then Some x else None)) (World N fr h) =
    Done (if out then <[i := x]> addrs else addrs) (World N fr h).
Proof.
  destruct out; intros Hi; [|done]. cbn. unfold set_addr.
  by rewrite (proj2 (Nat.ltb_lt _ _)) by auto.
Qed.

Lemma gathered_step k height lo layer addrs addrs' x :
  cover_addr k layer = Some x -> (layer < length addrs)%nat \/ (height <= layer)%nat ->
  (lo < layer)%nat ->
  gathered k height lo (layer - 1)
    (if (layer <? height)%nat then <[layer := x]> addrs else addrs) addrs' ->
  gathered k height lo layer addrs addrs'.
Proof.
  intros Hx Hlen Hlo [Hl Hg]. split.
  - rewrite Hl. destruct (layer <? height)%nat; [apply length_insert|done].
  - intros i. rewrite Hg. destruct (Nat.ltb_spec layer height).
    + destruct (decide (i = layer)) as [->|Hi].
      * rewrite decide_False, decide_True by lia. rewrite list_lookup_insert_eq by lia. done.
      * rewrite list_lookup_insert_ne by done. repeat case_decide; try done; lia.
    + repeat case_decide; try done; lia.
Qed.

Lemma gathered_refl k height lo addrs : gathered k height lo lo addrs addrs.
Proof. split; [done|]. intros i. rewrite decide_False by lia. done. Qed.

Lemma run_gather_layers k height n : forall layer l a m h lk addrs,
  (n < layer)%nat -> (layer < layers)%nat -> (height <= length addrs)%nat ->
  S !! layer = Some (l ++ a :: m) -> starts k l a ->
  at_node N a (head_or m None) lk -> hps t (Thread.HCurr (a_ptr a)) h ->
  exists l' b m' lk' h' addrs',
    S !! (layer - n)%nat = Some (l' ++ b :: m') /\ starts k l' b /\
    run (gather_layers MAX_LAYERS fuel k height n layer (a_ptr a) lk addrs) (World N fr h) =
      Done (Some (a_ptr b, lk'), addrs') (World N fr h') /\
    gathered k height (layer - n) layer addrs addrs' /\
    at_node N b (head_or m' None) lk' /\ hps t (Thread.HCurr (a_ptr b)) h'.
Proof.
  induction n as [|n IH]; intros layer l a m h lk addrs Hn Hlayer Hlen Hl Hst Hat Hh.
  { exists l, a, m, lk, h, addrs. rewrite Nat.sub_0_r.
    split_and!; try done. apply gathered_refl. }
  cbn [gather_layers]. destruct layer as [|layer]; [lia|].
  run_with (run_index_head MAX_LAYERS t N fr (Datatypes.S layer - 2) h ltac:(lia)).
  replace (Datatypes.S (Datatypes.S layer - 2)) with layer by lia.
  destruct (inv_layer Hlayers Hinv layer) as (lo & Hlo & _); [lia|].
  destruct (run_follow Hlayers Hinv Hfuel layer k l a m lo h lk
              (Datatypes.S layer <? height)%nat Hl Hlo Hst Hat Hh)
    as (lc & c & mc & l' & b & m' & lk' & h' & Hec & Hc & Hlo' & Hst' & Hr & Hatb & Hh').
  run_with Hr. rewrite Hec in Hl.
  assert (Hlt : (Datatypes.S layer <? height)%nat = true -> (Datatypes.S layer < length addrs)%nat).
  { intros ?%Nat.ltb_lt. lia. }
  run_with (run_set_out addrs _ _ (remote_addr (a_ext c)) h' Hlt). rewrite Hlo' in Hlo.
  replace (Datatypes.S layer - 1)%nat with layer by lia.
  destruct (IH layer l' b m' h' lk'
              (if (Datatypes.S layer <? height)%nat
               then <[Datatypes.S layer := remote_addr (a_ext c)]> addrs else addrs))
    as (l2 & d & m2 & lk2 & h2 & addrs2 & Hl2 & Hst2 & Hr2 & Hg & Hatd & Hh2); try done; [lia..| |].
  { destruct (_ <? _)%nat; [by rewrite length_insert|done]. }
  exists l2, d, m2, lk2, h2, addrs2.
  replace (Datatypes.S layer - Datatypes.S n)%nat with (layer - n)%nat by lia.
  split_and!; try done. eapply gathered_step; [by eapply cover_addr_at|lia|lia|].
  by replace (Datatypes.S layer - 1)%nat with layer by lia.
Qed.

Lemma gathered_trans k height lo mid hi addrs1 addrs2 addrs3 :
  (lo <= mid <= hi)%nat -> gathered k height mid hi addrs1 addrs2 ->
  gathered k height lo mid addrs2 addrs3 -> gathered k height lo hi addrs1 addrs3.
Proof.
  intros Hle [H1 H2] [H3 H4]. split; [congruence|]. intros i. rewrite H4, H2.
  repeat case_decide; try done; lia.
Qed.

Lemma run_gather_round k height h addrs :
  hps t Thread.HNone h -> (height <= length addrs)%nat -> (1 <= length addrs)%nat ->
  (height <= layers)%nat ->
  exists h' addrs', run (gather_round MAX_LAYERS layers fuel k height addrs) (World N fr h) =
      Done (true, addrs') (World N fr h') /\ hps t Thread.HNone h' /\
    length addrs' = length addrs /\
    forall i, addrs' !! i =
      if decide (i < Nat.max 1 height)%nat then cover_addr k i else addrs !! i.
Proof.
  intros Hh Hlen Hlen1 Hheight. unfold gather_round.
  destruct (run_start_top Hlayers Hinv h Hh) as (a & m & lk & h1 & Hl & Hr1 & Hat & Hh1).
  run_with Hr1.
  destruct (run_gather_layers k height (layers - 2) (layers - 1) [] a m h1 lk addrs)
    as (l' & b & m' & lk' & h2 & addrs2 & Hl' & Hst' & Hr2 & Hg & Hatb & Hh2);
    try done; [lia..|by left|].
  run_with Hr2. replace (layers - 1 - (layers - 2))%nat with 1%nat in * by lia.
  destruct (inv_layer Hlayers Hinv 0) as (lo & Hlo & _); [lia|].
  destruct (run_follow Hlayers Hinv Hfuel 0 k l' b m' lo h2 lk' (1 <? height)%nat Hl' Hlo Hst' Hatb Hh2)
    as (lc & c & mc & l3 & d & m3 & lk3 & h3 & Hec & Hc & Hlo' & Hst3 & Hr3 & Hatd & Hh3).
  unfold directory_head. run_with Hr3. rewrite Hec in Hl'. rewrite Hlo' in Hlo.
  destruct Hg as [Hlen2 Hg].
  assert (Hlt : (1 <? height)%nat = true -> (1 < length addrs2)%nat).
  { intros ?%Nat.ltb_lt. lia. }
  run_with (run_set_out addrs2 1 _ (remote_addr (a_ext c)) h3 Hlt).
  set (addrs3 := if (1 <? height)%nat then _ else _).
  destruct (inv_check_next Hlayers Hinv Hfuel 0 k l3 d m3 h3 lk3 Hlo Hst3 Hatd Hh3)
    as (l4 & e & m4 & lk4 & h4 & He4 & Hc4 & Hr4 & Hate & Hh4).
  run_with Hr4. run_with (run_at_ext (t:=t) (fr:=fr) (h:=h4) Hate).
  assert (Hg3 : gathered k height 0 (layers - 1) addrs addrs3).
  { apply (gathered_trans k height 0 1 (layers - 1) addrs addrs2); [lia|done|].
    eapply gathered_step; [by eapply cover_addr_at|lia|lia|apply gathered_refl]. }
  destruct Hg3 as [Hlen3 Hg3].
  assert (H0 : (0 < length addrs3)%nat) by lia.
  run_with (run_set_out addrs3 0 true (remote_addr (a_ext e)) h4 (fun _ => H0)).
  run_with (run_at_confirm (t:=t) (fr:=fr) (h:=h4) Hate).
  run_ex (run_drop_curr t N fr h4 _ Hh4) as h5 _ Hh5.
  exists h5, (<[0%nat := remote_addr (a_ext e)]> addrs3).
  split_and!; [done|done|by rewrite length_insert, Hlen3|].
  intros i. rewrite He4 in Hlo. destruct (decide (i = 0%nat)) as [->|Hi].
  - rewrite list_lookup_insert_eq, decide_True by lia. by rewrite (cover_addr_at k 0 l4 e m4).
  - rewrite list_lookup_insert_ne, Hg3 by done. repeat case_decide; try done; lia.
Qed.

Lemma run_gather_prevs k height h addrs :
  hps_idle t h -> (height <= length addrs)%nat -> (1 <= length addrs)%nat ->
  (height <= layers)%nat ->
  exists h' addrs', run (gather_prevs MAX_LAYERS layers ZCAP fuel k height addrs) (World N fr h) =
      Done (true, addrs') (World N fr h') /\ hps t Thread.HNone h' /\
    length addrs' = length addrs /\
    forall i, addrs' !! i =
      if decide (i < Nat.max 1 height)%nat then cover_addr k i else addrs !! i.
Proof.
  intros Hh Hlen Hlen1 Hheight. unfold gather_prevs.
  run_ex (run_hp_init t ZCAP N fr h Hh) as h1 _ Hh1.
  destruct (run_gather_round k height h1 addrs) as (h2 & addrs2 & Hr & Hrest); try done.
  destruct (inv_fuel Hlayers Hinv Hfuel) as [f' Hf']. exists h2, addrs2. split; [|done].
  assert (Hloop : forall r, gather_loop MAX_LAYERS layers fuel (Datatypes.S r) k height addrs =
    let* (ok, addrs) := gather_round MAX_LAYERS layers fuel k height addrs in
    if ok : bool then Ret (true, addrs)
    else gather_loop MAX_LAYERS layers fuel r k height addrs) by done.
  replace (gather_loop MAX_LAYERS layers fuel fuel k height addrs)
    with (gather_loop MAX_LAYERS layers fuel (Datatypes.S f') k height addrs) by (by rewrite <- Hf').
  rewrite Hloop. by run_with Hr.
Qed.
End Gather.
