(* ===== verification/DiscoUpdate.v ===== *)
(** * DiscoUpdate: the updates of the cache, alone

    What [node_t]'s constructor and [insert], the locking descent, the install
    methods and [mirror_split_at_level] do to memory, and that each preserves
    the invariant and changes the entries of its layer exactly by adding the
    key if it was absent. *)

From Stdlib Require Import QArith.
From S2P Require Import Prelude KvList Prog SvLock VecSpec HazardPtr World Layers Heap DiscoNode.
From S2P Require Import DiscoOps DiscoDescent.

Local Open Scope Z_scope.

Section Update.
Context {ADDR : Type} (null : ADDR) {vec : Type -> Type}.
Context `{HV : VecOps vec} `{HS : !VecSpec vec} `{HSA : !VecSplitAt vec}.
Context `{HSAS : !VecSplitAtSpec vec}.
Context (MAX_LAYERS layers ZCAP t : nat) (junk : Z * value ADDR).
Context (Hlayers : (2 <= layers <= MAX_LAYERS)%nat).

Local Abbreviation node := (node ADDR (remote ADDR) vec).
Local Abbreviation anode := (anode ADDR (remote ADDR)).
Local Abbreviation run := (run (handle (D:=ADDR) (X:=remote ADDR) (vec:=vec) t)).
Implicit Types (N : gmap ptr node) (fr : positive) (h : mgr_t) (k : Z) (fuel : nat).
Implicit Types (a : anode) (l m news : list anode) (S : list (list anode)) (p q : ptr).
Implicit Types (x : value ADDR) (el : list (Z * value ADDR)).

(** ** Frames *)

(** Memory changed at the pointers of [ps] only. *)
Definition frame (ps : list ptr) N N' : Prop := forall q, q ∉ ps -> N' !! q = N !! q.

Lemma frame_insert p n N : frame [p] N (<[p := n]> N).
Proof. intros q Hq. rewrite lookup_insert_ne; [done|]. intros ->. apply Hq. left. Qed.

Lemma frame_trans ps N1 N2 N3 : frame ps N1 N2 -> frame ps N2 N3 -> frame ps N1 N3.
Proof. intros H1 H2 q Hq. by rewrite H2, H1. Qed.

Lemma frame_mono ps ps' N N' : (forall q, q ∈ ps -> q ∈ ps') -> frame ps N N' -> frame ps' N N'.
Proof. intros Hsub H q Hq. apply H. auto. Qed.

Lemma frame_node ps N N' p al e nx el :
  frame ps N N' -> p ∉ ps -> node_is N p al e nx el -> node_is N' p al e nx el.
Proof. intros Hf Hp. apply node_is_frame. by apply Hf. Qed.

(** A locked node with its ghost count hidden, and a released one. *)
Definition locked N p (o : bool) (e : remote ADDR) (nx : option ptr) el : Prop :=
  exists c, node_is N p (ALock o Locked c) e nx el.
Definition free N p (o : bool) (e : remote ADDR) (nx : option ptr) el : Prop :=
  exists c, node_is N p (ALock o Unlocked c) e nx el.

Lemma free_rest N a nx : free N (a_ptr a) (a_orphan a) (a_ext a) nx (a_elems a) <-> rest N a nx.
Proof. done. Qed.

Lemma locked_frame ps N N' p o e nx el :
  frame ps N N' -> p ∉ ps -> locked N p o e nx el -> locked N' p o e nx el.
Proof. intros Hf Hp [c H]. exists c. by eapply frame_node. Qed.

Lemma free_frame ps N N' p o e nx el :
  frame ps N N' -> p ∉ ps -> free N p o e nx el -> free N' p o e nx el.
Proof. intros Hf Hp [c H]. exists c. by eapply frame_node. Qed.

(** ** Accesses by the holder of a lock *)

Lemma run_try_upgrade N fr h a nx lk :
  at_node N a nx lk ->
  exists N', run (lock_rmw (a_ptr a) (try_upgrade lk)) (World N fr h) =
      Done true (World N' fr h) /\ frame [a_ptr a] N N' /\
    locked N' (a_ptr a) (a_orphan a) (a_ext a) nx (a_elems a).
Proof.
  intros (c & -> & Hn). pose proof Hn as (v & _ & Hok & _).
  destruct (run_lock_upd t N fr h _ _ _ _ _ Hn
              (try_upgrade (encode (ALock (a_orphan a) Unlocked c))) true
              (al_to Locked (ALock (a_orphan a) Unlocked c)))
    as (n' & Hr & Hn').
  - done.
  - rewrite try_upgrade_encode by done. by rewrite decide_True.
  - eexists. split; [exact Hr|]. split; [apply frame_insert|]. by exists c.
Qed.

Lemma run_release_changed_if (b : bool) N fr h p o e nx el :
  locked N p o e nx el ->
  exists N', run (lock_rmw p (release_changed_if b)) (World N fr h) =
      Done tt (World N' fr h) /\ frame [p] N N' /\ free N' p o e nx el.
Proof.
  intros (c & Hn). pose proof Hn as (v & _ & Hok & _).
  destruct (run_lock_upd t N fr h _ _ _ _ _ Hn (release_changed_if b) tt
              (if b then al_bump o (ALock o Locked c) else al_to Unlocked (ALock o Locked c)))
    as (n' & Hr & Hn').
  - destruct b; [apply al_bump_ok|done].
  - unfold release_changed_if. destruct b.
    + by rewrite (release_implements (ALock o Locked c) Hok).
    + by rewrite (release_unchanged_implements (ALock o Locked c) Hok).
  - eexists. split; [exact Hr|]. split; [apply frame_insert|].
    destruct b; [exists ((c + 1) mod 2 ^ 61)|exists c]; exact Hn'.
Qed.

Lemma run_release N fr h p o e nx el :
  locked N p o e nx el ->
  exists r N', run (lock_rmw p release) (World N fr h) = Done r (World N' fr h) /\
    frame [p] N N' /\ free N' p o e nx el.
Proof.
  intros (c & Hn). pose proof Hn as (v & _ & Hok & _).
  destruct (run_lock_upd t N fr h _ _ _ _ _ Hn release
              (encode (al_bump o (ALock o Locked c))) (al_bump o (ALock o Locked c)))
    as (n' & Hr & Hn').
  - apply al_bump_ok.
  - by rewrite (release_implements (ALock o Locked c) Hok).
  - do 2 eexists. split; [exact Hr|]. split; [apply frame_insert|].
    exists ((c + 1) mod 2 ^ 61). exact Hn'.
Qed.

Lemma run_lock_is_orphan N fr h p o e nx el :
  locked N p o e nx el ->
  run (lock_is_orphan p) (World N fr h) = Done o (World N fr h).
Proof.
  intros (c & Hn). unfold lock_is_orphan.
  assert (Hr : run (lock_rmw p get_value) (World N fr h) =
               Done (encode (ALock o Locked c)) (World N fr h)) by (by eapply run_lock_read).
  run_with Hr. cbn. by rewrite is_orphan_encode.
Qed.

Lemma run_locked_vec {B} N fr h p o e nx el (f : vec (value ADDR) -> option B) r :
  locked N p o e nx el -> (forall v, v_ok v -> v_elems v = el -> f v = Some r) ->
  run (vec_get p f) (World N fr h) = Done r (World N fr h).
Proof. intros (c & Hn) Hf. by eapply run_vec_get. Qed.

Lemma run_get_size N fr h p o e nx el :
  locked N p o e nx el -> run (get_size p) (World N fr h) = Done (length el) (World N fr h).
Proof.
  intros Hl. eapply run_locked_vec; [done|]. intros v Hv He. by rewrite v_get_size_spec, He.
Qed.

Lemma run_locked_first N fr h p o e nx el k :
  locked N p o e nx el -> kv_first el = Some k ->
  run (vec_get p v_first) (World N fr h) = Done k (World N fr h).
Proof.
  intros Hl Hk. eapply run_locked_vec; [done|]. intros v Hv He. apply v_first_spec; [done|congruence].
Qed.

Lemma locked_sorted N p o e nx el :
  locked N p o e nx el -> kv_sorted el /\ (length el <= v_capacity vec)%nat.
Proof.
  intros (c & v & _ & _ & Hv & <-). split; [by apply v_elems_sorted|by apply v_elems_length].
Qed.

(** [new node_t(prev, orphan, r_addr)] *)
Lemma run_node_new N fr h p o e nx el orphan r_addr :
  locked N p o e nx el -> N !! Heap fr = None ->
  exists N', run (node_new junk p orphan r_addr) (World N fr h) =
      Done (Heap fr) (World N' (Pos.succ fr) h) /\
    frame [p; Heap fr] N N' /\ p <> Heap fr /\
    locked N' p o e (Some (Heap fr)) el /\
    free N' (Heap fr) orphan (Remote r_addr 0) nx [].
Proof.
  intros (c & Hn) Hfr.
  assert (Hne : p <> Heap fr) by (intros ->; destruct Hn as (v & Hv & _); congruence).
  unfold node_new. run_with (run_load_next t N fr h _ _ _ _ _ Hn).
  destruct (v_new_spec (V:=value ADDR) junk) as [Hvn Hve].
  destruct (run_new t N fr h orphan (Remote r_addr 0) nx (v_new junk) Hvn Hve) as (n1 & Hr1 & Hn1).
  run_with Hr1.
  assert (Hp1 : node_is (<[Heap fr := n1]> N) p (ALock o Locked c) e nx el).
  { eapply frame_node; [apply frame_insert| |exact Hn]. ptrs_solve. }
  destruct (run_store_next t _ (Pos.succ fr) h _ _ _ _ _ Hp1 (Some (Heap fr))) as (n2 & Hr2 & Hn2).
  run_with Hr2. eexists. split; [reflexivity|]. split_and!; [|done|by exists c|].
  - apply (frame_trans _ _ (<[Heap fr := n1]> N)).
    + eapply frame_mono; [|apply frame_insert]. ptrs_solve.
    + eapply frame_mono; [|apply frame_insert]. ptrs_solve.
  - exists 0. eapply frame_node; [apply frame_insert| |exact Hn1]. ptrs_solve.
Qed.

Lemma run_steal {B} N fr h p q o e nx el o2 e2 nx2 el2
    (f : vec (value ADDR) -> vec (value ADDR) ->
         option (B * (vec (value ADDR) * vec (value ADDR)))) b el' el2' :
  p <> q -> free N p o e nx el -> locked N q o2 e2 nx2 el2 ->
  (forall v u, v_ok v -> v_ok u -> v_elems v = el -> v_elems u = el2 ->
     exists v' u', f v u = Some (b, (v', u')) /\ v_ok v' /\ v_ok u' /\
       v_elems v' = el' /\ v_elems u' = el2') ->
  exists N', run (vec_steal p q f) (World N fr h) = Done b (World N' fr h) /\
    frame [p; q] N N' /\ free N' p o e nx el' /\ locked N' q o2 e2 nx2 el2'.
Proof.
  intros Hpq (c & Hp) (c2 & Hq) Hf.
  destruct (run_vec_steal t N fr h p q _ _ _ _ _ _ _ _ f b el' el2' Hpq Hp Hq Hf)
    as (n1 & n2 & Hr & Hn1 & Hn2).
  eexists. split; [exact Hr|]. split_and!; [|by exists c|by exists c2].
  apply (frame_trans _ _ (<[q := n2]> N)); (eapply frame_mono; [|apply frame_insert]); ptrs_solve.
Qed.

(** ** [node_t::insert] *)

(** What inserting [k] makes of a node's content: the node's new content,
    and that of the orphan split off, if any. *)
Definition inserted k x el el' (orphan : option (list (Z * value ADDR))) : Prop :=
  match orphan with
  | None => el' = kv_add k x el
  | Some el2 => kv_lookup k el = None /\ el' ++ el2 = kv_insert k x el /\ el' <> [] /\ el2 <> []
  end.

Lemma run_vec_insert N fr h p o e nx el k x :
  locked N p o e nx el ->
  exists N' r, run (vec_upd p (v_insert k x)) (World N fr h) = Done r (World N' fr h) /\
    frame [p] N N' /\
    ((r = (bool_decide (kv_lookup k el = None), false) /\ locked N' p o e nx (kv_add k x el)) \/
     (r = (false, true) /\ locked N' p o e nx el /\
      kv_lookup k el = None /\ length el = v_capacity vec)).
Proof.
  intros Hl. destruct (locked_sorted _ _ _ _ _ _ Hl) as [Hs Hc]. destruct Hl as (c & Hn).
  destruct (kv_lookup k el) as [y|] eqn:Hk.
  - destruct (run_vec_upd t N fr h _ _ _ _ _ Hn (v_insert k x) (false, false) el) as (n' & Hr & Hn').
    { intros v Hv <-. exists v. by rewrite (v_insert_present k x y). }
    do 2 eexists. split; [exact Hr|]. split; [apply frame_insert|]. left.
    rewrite bool_decide_eq_false_2 by done. split; [done|]. exists c.
    by rewrite (kv_add_present k x y).
  - destruct (decide (length el = v_capacity vec)) as [Hfull|Hroom].
    + destruct (run_vec_upd t N fr h _ _ _ _ _ Hn (v_insert k x) (false, true) el) as (n' & Hr & Hn').
      { intros v Hv <-. exists v. by rewrite v_insert_full. }
      do 2 eexists. split; [exact Hr|]. split; [apply frame_insert|]. right.
      split_and!; try done. by exists c.
    + destruct (run_vec_upd t N fr h _ _ _ _ _ Hn (v_insert k x) (true, false) (kv_insert k x el))
        as (n' & Hr & Hn').
      { intros v Hv <-. apply v_insert_room; try done. lia. }
      do 2 eexists. split; [exact Hr|]. split; [apply frame_insert|]. left.
      rewrite bool_decide_eq_true_2 by done. split; [done|]. exists c.
      by rewrite kv_add_absent.
Qed.

(** The halves of a full node and the pair that overflowed it. *)
Lemma overflow_halves k x el :
  kv_sorted el -> kv_lookup k el = None -> el <> [] ->
  let ins := kv_insert k x el in
  let half := (Datatypes.S (length el) / 2)%nat in
  let el' := take (length ins - half) ins in
  let el2 := drop (length ins - half) ins in
  el' ++ el2 = ins /\ el' <> [] /\ el2 <> [] /\
  forall s1 s2, s1 ++ s2 = ins -> length s2 = half -> s1 = el' /\ s2 = el2.
Proof.
  intros Hs Hk Hne ins half el' el2.
  assert (Hlen : length ins = Datatypes.S (length el)) by (by apply kv_insert_length).
  assert (Hpos : (0 < length el)%nat) by (destruct el; [done|cbn; lia]).
  assert (Hhalf : (1 <= half /\ half < length ins)%nat).
  { rewrite Hlen. unfold half. split.
    - apply Nat.div_le_lower_bound; lia.
    - apply Nat.Div0.div_lt_upper_bound; lia. }
  split_and!; [apply take_drop| | |].
  - intros Ht. apply (f_equal length) in Ht. unfold el' in Ht. rewrite length_take in Ht. cbn [length] in Ht. lia.
  - intros Ht. apply (f_equal length) in Ht. unfold el2 in Ht. rewrite length_drop in Ht. cbn [length] in Ht. lia.
  - intros s1 s2 Happ Hs2.
    assert (Hs1 : (length ins - half)%nat = length s1).
    { apply (f_equal length) in Happ. rewrite length_app in Happ. lia. }
    unfold el', el2. rewrite Hs1, <- Happ. by rewrite take_app_length, drop_app_length.
Qed.

Lemma run_overflow N fr h p o e nx el k x r_addr :
  locked N p o e nx el -> N !! Heap fr = None -> kv_lookup k el = None -> el <> [] ->
  exists N' el' el2,
    run (let* new_orphan := node_new junk p true r_addr in
         vec_steal new_orphan p
           (fun v u => r ← v_steal_half_and_insert k x v u; Some (tt, r)) ;;;
         Ret (true, Some new_orphan)) (World N fr h) =
      Done (true, Some (Heap fr)) (World N' (Pos.succ fr) h) /\
    frame [p; Heap fr] N N' /\ inserted k x el el' (Some el2) /\
    locked N' p o e (Some (Heap fr)) el' /\ free N' (Heap fr) true (Remote r_addr 0) nx el2.
Proof.
  intros Hl Hfr Hk Hneel. destruct (locked_sorted _ _ _ _ _ _ Hl) as [Hs _].
  destruct (run_node_new N fr h p o e nx el true r_addr Hl Hfr)
    as (N2 & Hr2 & Hf2 & Hne & Hl2 & Ho2). run_with Hr2.
  destruct (overflow_halves k x el Hs Hk Hneel) as (Happ & Hne1 & Hne2 & Huniq).
  destruct (run_steal N2 (Pos.succ fr) h (Heap fr) p _ _ _ _ _ _ _ _
    (fun v u => r ← v_steal_half_and_insert k x v u; Some (tt, r)) tt
    (drop (length (kv_insert k x el) - Datatypes.S (length el) / 2) (kv_insert k x el))
    (take (length (kv_insert k x el) - Datatypes.S (length el) / 2) (kv_insert k x el))
    (not_eq_sym Hne) Ho2 Hl2)
    as (N3 & Hr3 & Hf3 & Ho3 & Hl3).
  { intros v u Hv Hu Hev Heu.
    destruct (v_steal_half_and_insert_spec k x v u) as (v' & u' & Hst & Hv' & Hu' & Happ' & Hlv);
      [done|done|congruence|congruence|].
    rewrite Heu in Happ', Hlv. destruct (Huniq _ _ Happ' Hlv).
    exists v', u'. by rewrite Hst. }
  run_with Hr3. do 3 eexists. split; [reflexivity|]. split_and!; [|split_and!|exact Hl3|exact Ho3]; try done.
  intros q Hq. rewrite Hf3, Hf2 by ptrs_solve. done.
Qed.

Lemma run_node_insert_full N fr h p o e nx el k x r_addr :
  locked N p o e nx el -> N !! Heap fr = None ->
  exists N' fr' res made el',
    run (node_insert junk p k x r_addr) (World N fr h) = Done (res, made) (World N' fr' h) /\
    frame [p; Heap fr] N N' /\
    match made with
    | None => fr' = fr /\ res = bool_decide (kv_lookup k el = None) /\
        el' = kv_add k x el /\ locked N' p o e nx el' /\ N' !! Heap fr = None
    | Some q => q = Heap fr /\ fr' = Pos.succ fr /\ res = true /\ kv_lookup k el = None /\
        length el = v_capacity vec /\
        exists el2, el' ++ el2 = kv_insert k x el /\ el' <> [] /\ el2 <> [] /\
          locked N' p o e (Some q) el' /\ free N' q true (Remote r_addr 0) nx el2
    end.
Proof.
  intros Hl Hfr. unfold node_insert.
  assert (Hne : p <> Heap fr) by (intros ->; destruct Hl as (c & v & Hv & _); congruence).
  destruct (run_vec_insert N fr h p o e nx el k x Hl) as (N1 & r & Hr & Hf1 & Hcase). run_with Hr.
  assert (Hfr1 : N1 !! Heap fr = None) by (rewrite Hf1 by ptrs_solve; done).
  destruct Hcase as [[-> Hl1]|(-> & Hl1 & Hk & Hfull)].
  - exists N1, fr, (bool_decide (kv_lookup k el = None)), None, (kv_add k x el).
    split_and!; try done. eapply frame_mono; [|done]; ptrs_solve.
  - pose proof v_capacity_pos as Hpos.
    assert (Hneel : el <> []) by (intros ->; cbn in Hfull; lia).
    destruct (run_overflow N1 fr h p o e nx el k x r_addr Hl1 Hfr1 Hk Hneel)
      as (N2 & el' & el2 & Hr2 & Hf2 & (_ & Happ & Hne1 & Hne2) & Hl2 & Ho2).
    exists N2, (Pos.succ fr), true, (Some (Heap fr)), el'.
    split_and!; try done; [|by exists el2]. intros q Hq. rewrite Hf2, Hf1 by ptrs_solve. done.
Qed.

Lemma run_node_insert N fr h p o e nx el k x r_addr :
  locked N p o e nx el -> N !! Heap fr = None ->
  exists N' fr' res made el' orphan,
    run (node_insert junk p k x r_addr) (World N fr h) = Done (res, made) (World N' fr' h) /\
    frame [p; Heap fr] N N' /\ inserted k x el el' orphan /\
    match orphan with
    | None => fr' = fr /\ made = None /\ locked N' p o e nx el' /\
        (res = false -> el' = el) /\ N' !! Heap fr = None
    | Some el2 => fr' = Pos.succ fr /\ made = Some (Heap fr) /\ res = true /\
        locked N' p o e (Some (Heap fr)) el' /\ free N' (Heap fr) true (Remote r_addr 0) nx el2
    end.
Proof.
  intros Hl Hfr.
  destruct (run_node_insert_full N fr h p o e nx el k x r_addr Hl Hfr)
    as (N' & fr' & res & made & el' & Hr & Hf & Hm). exists N', fr', res, made, el'.
  destruct made as [q|].
  - destruct Hm as (-> & -> & -> & Hk & _ & el2 & Happ & H1 & H2 & Hl' & Hn'). by exists (Some el2).
  - destruct Hm as (-> & -> & -> & Hl' & Hn). exists None. split_and!; try done.
    intros Hb%bool_decide_eq_false. destruct (kv_lookup k el) eqn:Hk; [|done].
    by eapply kv_add_present.
Qed.

(** ** Committing an update *)

(** Layer [L] of [S'] has the entries of that of [S] with [k] added if
    absent; the other layers are the same. *)
Definition adds (L : nat) k x S S' : Prop :=
  (forall n, n <> L -> S' !! n = S !! n) /\
  exists l l', S !! L = Some l /\ S' !! L = Some l' /\
    flat l' = kv_add k x (flat l) /\ (length l' <= length l + 2)%nat.

(** The node that lacks a parent, if any, gets it from the entry added. *)
Definition parented (miss : option (nat * ptr)) (L : nat) x : Prop :=
  match miss with
  | None => True
  | Some (n, p) => L = Datatypes.S n /\ x = VDown p
  end.

Section Commit.
Context (miss miss' : option (nat * ptr)) (N N' : gmap ptr node) (fr fr' : positive).
Context (S : list (list anode)) (L : nat) (l : list anode) (a a' : anode) (news m : list anode).
Context (k : Z) (x : value ADDR).
Context (Hinv : inv layers miss N fr S) (HL : S !! L = Some (l ++ a :: m)).
Context (Hcov : covers k l a m).
Context (Hptr : a_ptr a' = a_ptr a) (Horph : a_orphan a' = a_orphan a).
Context (Hflat : flat (a' :: news) = kv_add k x (a_elems a)).
Context (Hne : l <> [] -> a_elems a' <> []).
Context (Hnews : forall b, b ∈ news -> a_elems b <> [] /\
  (exists n, a_ptr b = Heap n /\ (fr <= n < fr')%positive) /\
  (a_orphan b = false -> miss' = Some (L, a_ptr b))).
Context (Hnd : NoDup (map a_ptr news)) (Hfr : (fr <= fr')%positive).
Context (Hframe : frame (a_ptr a :: map a_ptr news) N N').
Context (Hseg : seg N' (a' :: news) (head_or m None)).
Context (Hentry : entry_ok S L (k, x)) (Hmiss : parented miss L x).

Lemma commit_flat : flat (l ++ a' :: news ++ m) = kv_add k x (flat (l ++ a :: m)).
Proof using Hcov HL Hflat Hinv.
  destruct Hinv as [Hwf _]. pose proof (wf_layer _ _ _ Hwf _ _ HL) as Hok.
  erewrite covers_add by done. rewrite <- Hflat, flat_app. f_equal.
  change (a' :: news ++ m) with ((a' :: news) ++ m). by rewrite flat_app.
Qed.

Lemma commit_sorted : kv_sorted (flat (l ++ a' :: news ++ m)).
Proof using Hcov HL Hflat Hinv.
  rewrite commit_flat. apply kv_add_sorted. destruct Hinv as [Hwf _]. by eapply wf_sorted.
Qed.

Lemma commit_first : a_orphan a = false -> kv_first (a_elems a') = kv_first (a_elems a).
Proof using HL Hcov Hflat Hinv Hne.
  intros Ho. destruct Hinv as [Hwf _]. pose proof (wf_layer _ _ _ Hwf _ _ HL) as Hok.
  destruct (layer_head_cases _ _ _ _ Hok) as [(_ & _ & ?)|[Hl [Hb _]]]; [congruence|].
  destruct Hcov as [[?|(k0 & Hk0 & Hle)] _]; [done|]. rewrite Hk0.
  destruct (layer_parts _ _ _ _ Hok) as (_ & _ & _ & _ & Hs & _).
  rewrite <- (kv_add_first k x (a_elems a) k0 Hs Hk0 Hle), <- Hflat, flat_cons.
  symmetry. apply kv_first_app. auto.
Qed.

Lemma commit_miss n m0 b k0 :
  miss = Some (n, a_ptr b) -> S !! n = Some m0 -> b ∈ m0 -> a_orphan b = false ->
  kv_first (a_elems b) = Some k0 ->
  miss' = miss \/ (L = Datatypes.S n /\ (k0, VDown (a_ptr b)) ∈ flat (a' :: news)).
Proof using HL Hentry Hflat Hinv Hmiss.
  intros Hm Hm0 Hb Ho Hk0. right. rewrite Hm in Hmiss. cbn in Hmiss.
  destruct Hmiss as [HLn Hx]. split; [done|]. destruct Hinv as [Hwf Hr].
  rewrite HLn in Hentry. destruct Hentry as (m1 & b1 & Hm1 & Hb1 & Hx1 & Ho1 & Hk1).
  rewrite Hm0 in Hm1. injection Hm1 as <-. cbn in Hx1, Hk1.
  assert (Hpb : a_ptr b = a_ptr b1) by congruence.
  assert (Heq : b = b1).
  { pose proof Hb1 as (s1 & s2 & Hs)%list_elem_of_split. rewrite Hs in Hm0, Hb.
    destruct (ptr_other S n s1 b1 s2 (r_nodup _ _ _ Hr) Hm0) as [Hsame _].
    apply elem_of_app in Hb as [Hb|[->|Hb]%elem_of_cons]; [|done|].
    - by destruct (Hsame b (or_introl Hb)).
    - by destruct (Hsame b (or_intror Hb)). }
  subst b1. assert (k0 = k) as -> by congruence. rewrite Hflat, <- Hx.
  destruct (elem_of_kv_add_key k x (a_elems a)) as [?|(y & Hy & Hlk)]; [done|].
  rewrite (kv_add_present k x y) by done.
  assert (Hyin : (k, y) ∈ flat (l ++ a :: m)) by (rewrite flat_mid, !elem_of_app; auto).
  pose proof (wf_entry _ _ _ Hwf _ _ _ HL Hyin) as He. rewrite HLn in He.
  destruct He as (m2 & b2 & Hm2 & Hb2 & Hy2 & Ho2 & Hk2).
  rewrite Hm0 in Hm2. injection Hm2 as <-. cbn in Hy2, Hk2.
  rewrite (first_unique n m0 b2 b k (wf_layer _ _ _ Hwf _ _ Hm0)) in Hy2 by done.
  congruence.
Qed.

Lemma inv_commit : inv layers miss' N' fr' (<[L := l ++ a' :: news ++ m]> S).
Proof using All.
  destruct Hinv as [Hwf Hr]. split.
  - eapply wf_replace; try done.
    + by apply commit_first.
    + apply Forall_forall. intros b Hb. destruct (Hnews b Hb) as (H1 & (n & H2 & _) & _).
      split; [done|]. by rewrite H2.
    + apply commit_sorted.
    + intros e He. rewrite Hflat. by apply elem_of_kv_add.
    + intros e He. rewrite Hflat in He. apply elem_of_kv_add_inv in He as [->|He]; auto.
    + intros b Hb. by destruct (Hnews b Hb) as (_ & _ & H3).
    + apply commit_miss.
  - eapply repr_replace; try done.
    + intros p Hp Hp'. apply Hframe. by apply not_elem_of_cons.
    + intros b Hb. by destruct (Hnews b Hb) as (_ & H2 & _).
Qed.

Lemma adds_commit :
  (length news <= 2)%nat -> adds L k x S (<[L := l ++ a' :: news ++ m]> S).
Proof using Hcov HL Hflat Hinv.
  intros Hlen. split.
  - intros n Hn. by rewrite list_lookup_insert_ne.
  - exists (l ++ a :: m), (l ++ a' :: news ++ m). split_and!; [done| |apply commit_flat|].
    + apply list_lookup_insert_eq. by eapply lookup_lt_Some.
    + rewrite !length_app. cbn. rewrite length_app. clear Hlayers Hfr. lia.
Qed.
End Commit.

(** ** The locking descent *)

Section Ops.
Context (miss : option (nat * ptr)) (N : gmap ptr node) (fr : positive).
Context (S : list (list anode)) (Hinv : inv layers miss N fr S).
Context (fuel : nat) (Hfuel : enough fuel S).

Lemma run_descend_locked k L h :
  (L < layers)%nat -> hps t Thread.HNone h ->
  exists l a m N1 h1, S !! L = Some (l ++ a :: m) /\ covers k l a m /\
    run (descend_locked MAX_LAYERS layers fuel k L) (World N fr h) =
      Done (a_ptr a) (World N1 fr h1) /\
    frame [a_ptr a] N N1 /\ N1 !! Heap fr = None /\ a_ptr a <> Heap fr /\
    locked N1 (a_ptr a) (a_orphan a) (a_ext a) (head_or m None) (a_elems a) /\
    hps t (Thread.HCurr (a_ptr a)) h1.
Proof.
  intros HL Hh.
  destruct (run_descend Hlayers Hinv Hfuel k L h HL Hh)
    as (l & a & m & lk & h1 & Hl & Hc & Hr & Hat & Hh1).
  destruct (run_try_upgrade N fr h1 a _ lk Hat) as (N1 & Hr1 & Hf & Hlk).
  exists l, a, m, N1, h1. destruct (inv_fuel Hlayers Hinv Hfuel) as [f' Hf'].
  assert (Hfresh : N !! Heap fr = None) by (destruct Hinv as [_ Hrep]; by eapply repr_fresh).
  assert (Hpne : a_ptr a <> Heap fr).
  { intros He. destruct Hat as (c & _ & v & Hv & _). congruence. }
  split_and!; try done.
  - unfold descend_locked. rewrite Hf'. apply run_retry_done. rewrite <- Hf'.
    run_with Hr. by run_with Hr1.
  - rewrite Hf by ptrs_solve. done.
Qed.

(** Insert into the locked node, release it, and drop its hazard pointer. *)
Lemma insert_commit k x r_addr L l a m N1 h1 :
  S !! L = Some (l ++ a :: m) -> covers k l a m ->
  frame [a_ptr a] N N1 -> N1 !! Heap fr = None ->
  locked N1 (a_ptr a) (a_orphan a) (a_ext a) (head_or m None) (a_elems a) ->
  hps t (Thread.HCurr (a_ptr a)) h1 -> entry_ok S L (k, x) -> parented miss L x ->
  exists N2 fr' res made N3 h2 S',
    run (node_insert junk (a_ptr a) k x r_addr) (World N1 fr h1) =
      Done (res, made) (World N2 fr' h1) /\
    run (lock_rmw (a_ptr a) (release_changed_if res)) (World N2 fr' h1) =
      Done tt (World N3 fr' h1) /\
    run hp_drop_curr (World N3 fr' h1) = Done tt (World N3 fr' h2) /\
    hps t Thread.HNone h2 /\ inv layers None N3 fr' S' /\ adds L k x S S'.
Proof.
  intros HL Hc Hf1 Hfr1 Hl1 Hh1 He Hm.
  assert (Hpne : a_ptr a <> Heap fr).
  { intros Heq. destruct Hl1 as (c & v & Hv & _). congruence. }
  destruct (run_node_insert N1 fr h1 _ _ _ _ _ k x r_addr Hl1 Hfr1)
    as (N2 & fr2 & res & made & el' & orphan & Hr2 & Hf2 & Hins & Hpost).
  destruct (run_drop_last (D:=ADDR) (X:=remote ADDR) (vec:=vec) t h1 _ Hh1) as (h2 & Hdrop & Hh2).
  assert (Hl2 : exists nx2, locked N2 (a_ptr a) (a_orphan a) (a_ext a) nx2 el').
  { destruct orphan; [destruct Hpost as (_ & _ & _ & Hp & _)|destruct Hpost as (_ & _ & Hp & _)];
      eexists; exact Hp. }
  destruct Hl2 as [nx2 Hl2].
  destruct (run_release_changed_if res N2 fr2 h1 _ _ _ _ _ Hl2) as (N3 & Hr3 & Hf3 & Hl3).
  set (a' := ANode (a_ptr a) (a_orphan a) (a_ext a) el').
  exists N2, fr2, res, made, N3, h2.
  destruct orphan as [el2|].
  - destruct Hpost as (-> & -> & -> & Hl2' & Hn2). destruct Hins as (Hk & Happ & Hne & Hne2).
    assert (nx2 = Some (Heap fr)) as ->.
    { destruct Hl2 as (? & v & Hv & _), Hl2' as (? & v' & Hv' & _). congruence. }
    set (o2 := ANode (Heap fr) true (Remote r_addr 0) el2).
    exists (<[L := l ++ a' :: [o2] ++ m]> S). split_and!; try done.
    + eapply (inv_commit miss None N N3 fr (Pos.succ fr) S L l a a' [o2] m k x); try done.
      * cbn. rewrite app_nil_r, Happ. by rewrite kv_add_absent.
      * intros b ->%list_elem_of_singleton. split_and!; [exact Hne2|exists fr; split; [done|lia]|by cbn].
      * apply NoDup_singleton.
      * lia.
      * intros q Hq. cbn in Hq. rewrite Hf3, Hf2, Hf1 by ptrs_solve. done.
      * cbn. split_and!; [exact Hl3| |done].
        eapply free_frame; [exact Hf3| |exact Hn2]. cbn. ptrs_solve.
    + eapply (adds_commit miss N fr S L l a a' [o2] m k x); try done; [|cbn; lia].
      cbn. rewrite app_nil_r, Happ. by rewrite kv_add_absent.
  - destruct Hpost as (-> & -> & Hl2' & _ & Hn2). cbn in Hins.
    assert (nx2 = head_or m None) as ->.
    { destruct Hl2 as (? & v & Hv & _), Hl2' as (? & v' & Hv' & _). congruence. }
    exists (<[L := l ++ a' :: [] ++ m]> S). split_and!; try done.
    + eapply (inv_commit miss None N N3 fr fr S L l a a' [] m k x); try done.
      * cbn. by rewrite app_nil_r.
      * intros _. cbn. rewrite Hins. apply kv_add_nonempty.
      * by intros b ?%elem_of_nil.
      * apply NoDup_nil_2.
      * intros q Hq. cbn in Hq. destruct (decide (q = Heap fr)) as [->|Hq2].
        -- rewrite Hf3 by ptrs_solve. rewrite Hn2.
           destruct Hinv as [_ Hrep]. by rewrite (repr_fresh _ _ _ Hrep).
        -- rewrite Hf3, Hf2, Hf1 by ptrs_solve. done.
    + eapply (adds_commit miss N fr S L l a a' [] m k x); try done; [|cbn; lia].
      cbn. by rewrite app_nil_r.
Qed.

(** ** Installing an entry *)

Lemma run_mirror_insert_at_top_level L k x r_addr h :
  (L < layers)%nat -> hps t Thread.HNone h -> entry_ok S L (k, x) -> parented miss L x ->
  exists N' fr' h' S',
    run (mirror_insert_at_top_level MAX_LAYERS layers junk fuel k L x r_addr) (World N fr h) =
      Done tt (World N' fr' h') /\
    hps t Thread.HNone h' /\ inv layers None N' fr' S' /\ adds L k x S S'.
Proof.
  intros HL Hh He Hm. unfold mirror_insert_at_top_level.
  destruct (run_descend_locked k L h HL Hh)
    as (l & a & m & N1 & h1 & Hl & Hc & Hr & Hf & Hfr & _ & Hlk & Hh1). run_with Hr.
  destruct (insert_commit k x r_addr L l a m N1 h1 Hl Hc Hf Hfr Hlk Hh1 He Hm)
    as (N2 & fr2 & res & made & N3 & h2 & S' & Hr2 & Hr3 & Hr4 & Hh2 & Hinv' & Hadds).
  run_with Hr2. run_with Hr3. rewrite Hr4. by exists N3, fr2, h2, S'.
Qed.

Lemma run_install_entry L k x r_addr h :
  (L < layers)%nat -> hps t Thread.HNone h -> entry_ok S L (k, x) -> parented miss L x ->
  exists N' fr' h' S',
    run (install_entry null MAX_LAYERS layers junk fuel L k x r_addr) (World N fr h) =
      Done tt (World N' fr' h') /\
    hps t Thread.HNone h' /\ inv layers None N' fr' S' /\ adds L k x S S'.
Proof.
  intros HL Hh He Hm. unfold install_entry.
  destruct (run_descend_locked k L h HL Hh)
    as (l & a & m & N1 & h1 & Hl & Hc & Hr & Hf & Hfr & _ & Hlk & Hh1). run_with Hr.
  destruct (insert_commit k x r_addr L l a m N1 h1 Hl Hc Hf Hfr Hlk Hh1 He Hm)
    as (N2 & fr2 & res & made & N3 & h2 & S' & Hr2 & Hr3 & Hr4 & Hh2 & Hinv' & Hadds).
  run_with Hr2. run_with Hr3. run_with Hr4. exists N3, fr2, h2, S'. split; [|done].
  by destruct made.
Qed.

(** ** [mirror_split_at_level] *)

(** What it leaves behind: without a node to hand up, a state where every
    node has its parent; otherwise one where at most that node lacks it. *)
Definition split_post L k x (r : option ptr) N' fr' S' : Prop :=
  adds L k x S S' /\
  match r with
  | None => inv layers None N' fr' S'
  | Some p => inv layers (Some (L, p)) N' fr' S' /\ entry_ok S' (Datatypes.S L) (k, VDown p)
  end.

(** The node found, locked, and the hypotheses on the entry. *)
Section Found.
Context (k : Z) (x : value ADDR) (L : nat) (l : list anode) (a : anode) (m : list anode).
Context (N1 : gmap ptr node) (h1 : mgr_t).
Context (Hl : S !! L = Some (l ++ a :: m)) (Hc : covers k l a m).
Context (Hf1 : frame [a_ptr a] N N1) (Hfr1 : N1 !! Heap fr = None).
Context (Hpne : a_ptr a <> Heap fr).
Context (Hlk : locked N1 (a_ptr a) (a_orphan a) (a_ext a) (head_or m None) (a_elems a)).
Context (Hh1 : hps t (Thread.HCurr (a_ptr a)) h1).
Context (He : entry_ok S L (k, x)) (Hm : parented miss L x).

Lemma found_layer : layer_ok L (l ++ a :: m).
Proof using Hinv Hl. destruct Hinv as [Hwf _]. by eapply wf_layer. Qed.

Lemma found_sorted : kv_sorted (a_elems a) /\ (length (a_elems a) <= v_capacity vec)%nat.
Proof using Hlk. by eapply locked_sorted. Qed.

(** The new node is a legal target of a down pointer. *)
Lemma new_entry_ok a' b news1 news2 :
  a_orphan b = false -> kv_first (a_elems b) = Some k ->
  entry_ok (<[L := l ++ a' :: (news1 ++ b :: news2) ++ m]> S) (Datatypes.S L)
    (k, VDown (a_ptr b)).
Proof using Hl.
  intros Ho Hk. exists (l ++ a' :: (news1 ++ b :: news2) ++ m), b.
  split_and!; try done.
  - apply list_lookup_insert_eq. by eapply lookup_lt_Some.
  - apply elem_of_app. right. right. apply elem_of_app. left. apply elem_of_app. right. left.
Qed.

(** [k] is the node's minimum already. *)
Lemma split_at_minimum r_addr :
  kv_first (a_elems a) = Some k ->
  exists N' h' S',
    run (let* orphan := lock_is_orphan (a_ptr a) in
         let usable := negb orphan in
         (if usable : bool then
            let* r := trigger (ELoadExt (a_ptr a)) in
            trigger (EStoreExt (a_ptr a) (Remote r_addr (cached_struct_ver r)))
          else Ret tt) ;;;
         lock_rmw (a_ptr a) (release_changed_if usable) ;;;
         hp_drop_curr ;;;
         Ret (if usable : bool then Some (a_ptr a) else None)) (World N1 fr h1) =
      Done (if a_orphan a then None else Some (a_ptr a)) (World N' fr h') /\
    hps t Thread.HNone h' /\
    split_post L k x (if a_orphan a then None else Some (a_ptr a)) N' fr S'.
Proof using All.
  intros Hk. run_with (run_lock_is_orphan N1 fr h1 _ _ _ _ _ Hlk).
  set (e' := if a_orphan a then a_ext a
             else Remote r_addr (cached_struct_ver (a_ext a))).
  assert (Hext : exists N2,
    run (if negb (a_orphan a) then
           let* r := trigger (ELoadExt (a_ptr a)) in
           trigger (EStoreExt (a_ptr a) (Remote r_addr (cached_struct_ver r)))
         else Ret tt) (World N1 fr h1) = Done tt (World N2 fr h1) /\
    frame [a_ptr a] N1 N2 /\
    locked N2 (a_ptr a) (a_orphan a) e' (head_or m None) (a_elems a)).
  { unfold e'. destruct (a_orphan a); cbn [negb].
    - exists N1. split_and!; try done.
    - destruct Hlk as (c & Hn). run_with (run_load_ext t N1 fr h1 _ _ _ _ _ Hn).
      destruct (run_store_ext t N1 fr h1 _ _ _ _ _ Hn
                  (Remote r_addr (cached_struct_ver (a_ext a)))) as (n' & Hr & Hn').
      eexists. split; [exact Hr|]. split; [apply frame_insert|]. by exists c. }
  destruct Hext as (N2 & Hr2 & Hf2 & Hl2). run_with Hr2.
  destruct (run_release_changed_if (negb (a_orphan a)) N2 fr h1 _ _ _ _ _ Hl2)
    as (N3 & Hr3 & Hf3 & Hl3). run_with Hr3.
  run_ex (run_drop_curr t N3 fr h1 _ Hh1) as h2 _ Hh2.
  set (a' := ANode (a_ptr a) (a_orphan a) e' (a_elems a)).
  assert (Hadd : flat (a' :: []) = kv_add k x (a_elems a)).
  { cbn. rewrite app_nil_r. apply kv_first_Some in Hk as (y & l' & Hel). symmetry.
    apply (kv_add_present k x y). rewrite Hel. cbn. by rewrite Z.eqb_refl. }
  assert (Hi : inv layers None N3 fr (<[L := l ++ a' :: [] ++ m]> S)).
  { eapply (inv_commit miss None N N3 fr fr S L l a a' [] m k x); try done.
    - intros _ Hnil. cbn in Hnil. by rewrite Hnil in Hk.
    - by intros b ?%elem_of_nil.
    - apply NoDup_nil_2.
    - intros q Hq. cbn in Hq. rewrite Hf3, Hf2, Hf1 by ptrs_solve. done. }
  exists N3, h2, (<[L := l ++ a' :: [] ++ m]> S).
  split_and!; [by destruct (a_orphan a)|done|].
  split; [by eapply (adds_commit miss N fr S L l a a' [] m k x); try done; cbn; lia|].
  destruct (a_orphan a) eqn:Ho; [done|].
  split; [destruct Hi as [Hw Hrp]; split; [by apply wf_weaken|done]|].
  exists (l ++ a' :: [] ++ m), a'. split_and!; try done.
  - apply list_lookup_insert_eq. by eapply lookup_lt_Some.
  - apply elem_of_app. right. left.
Qed.

(** [k] is an entry that is not the minimum: the node is split there. *)
Lemma split_present y r_addr :
  kv_lookup k (a_elems a) = Some y -> kv_first (a_elems a) <> Some k ->
  exists N' fr' h' S',
    run (let* split := node_new junk (a_ptr a) false r_addr in
         let* moved := vec_steal split (a_ptr a) (v_split_at k) in
         if negb moved then
           let* nx := load_next split in
           store_next (a_ptr a) nx ;;;
           trigger (EDelete split) ;;;
           lock_rmw (a_ptr a) release_unchanged ;;;
           hp_drop_curr ;;; Ret None
         else lock_rmw (a_ptr a) release ;;; hp_drop_curr ;;; Ret (Some split))
      (World N1 fr h1) = Done (Some (Heap fr)) (World N' fr' h') /\
    hps t Thread.HNone h' /\ split_post L k x (Some (Heap fr)) N' fr' S'.
Proof using All.
  intros Hk Hnf. destruct found_sorted as [Hs _].
  destruct (run_node_new N1 fr h1 _ _ _ _ _ false r_addr Hlk Hfr1)
    as (N2 & Hr2 & Hf2 & _ & Hl2 & Hn2). run_with Hr2.
  pose proof (kv_decompose k y (a_elems a) Hs Hk) as Hdec.
  pose proof (kv_from_lookup_Some k y (a_elems a) Hs Hk) as Hfrom.
  destruct (run_steal N2 (Pos.succ fr) h1 (Heap fr) (a_ptr a) _ _ _ _ _ _ _ _ (v_split_at k)
              true (kv_from k (a_elems a)) (kv_below k (a_elems a)) (not_eq_sym Hpne) Hn2 Hl2)
    as (N3 & Hr3 & Hf3 & Hn3 & Hl3).
  { intros v u Hv Hu Hev Heu. rewrite <- Heu. apply v_split_at_spec; try done.
    by rewrite Heu, Hfrom. }
  run_with Hr3.
  destruct (run_release N3 (Pos.succ fr) h1 _ _ _ _ _ Hl3) as (rv & N4 & Hr4 & Hf4 & Hl4).
  run_with Hr4. run_ex (run_drop_curr t N4 (Pos.succ fr) h1 _ Hh1) as h2 _ Hh2.
  set (a' := ANode (a_ptr a) (a_orphan a) (a_ext a) (kv_below k (a_elems a))).
  set (b := ANode (Heap fr) false (Remote r_addr 0) (kv_from k (a_elems a))).
  assert (Hadd : flat (a' :: [b]) = kv_add k x (a_elems a)).
  { rewrite (kv_add_present k x y) by done. cbn. rewrite app_nil_r, Hfrom. by rewrite Hdec at 3. }
  exists N4, (Pos.succ fr), h2, (<[L := l ++ a' :: [b] ++ m]> S).
  split_and!; [done|done|].
  split; [by eapply (adds_commit miss N fr S L l a a' [b] m k x); try done; cbn; lia|].
  split; [|apply (new_entry_ok a' b [] []); [done|cbn; by rewrite Hfrom]].
  eapply (inv_commit miss (Some (L, Heap fr)) N N4 fr (Pos.succ fr) S L l a a' [b] m k x); try done.
  - intros _ Hnil. cbn in Hnil. apply Hnf. by rewrite Hdec, Hnil.
  - intros b0 ->%list_elem_of_singleton. split_and!; [cbn; by rewrite Hfrom| |done].
    exists fr. split; [done|lia].
  - apply NoDup_singleton.
  - lia.
  - intros q Hq. cbn in Hq. rewrite Hf4, Hf3, Hf2, Hf1 by ptrs_solve. done.
  - cbn. split_and!; [exact Hl4| |done].
    eapply free_frame; [exact Hf4| |exact Hn3]. cbn. ptrs_solve.
Qed.

(** The entries above [k] and the new pair fit in a vector, unless the
    node is full and all above [k]. *)
Lemma above_fits f0 :
  kv_lookup k (a_elems a) = None -> kv_first (a_elems a) = Some f0 -> f0 <= k ->
  (Datatypes.S (length (kv_above k (a_elems a))) <= v_capacity vec)%nat.
Proof using Hlk Hlayers.
  intros Hk Hf0 Hle. destruct found_sorted as [Hs Hlen].
  pose proof (kv_below_above k (a_elems a) Hs Hk) as Hdec.
  apply kv_first_elem in Hf0 as (e0 & He0 & Hk0).
  assert (Hb : e0 ∈ kv_below k (a_elems a)).
  { apply elem_of_kv_below. split; [|done]. rewrite kv_lookup_None in Hk.
    specialize (Hk e0 He0). lia. }
  assert (0 < length (kv_below k (a_elems a)))%nat.
  { destruct (kv_below k (a_elems a)); [by apply elem_of_nil in Hb|cbn; lia]. }
  apply (f_equal length) in Hdec. rewrite length_app in Hdec. lia.
Qed.

(** A full node whose minimum is above [k] first sheds its upper half. *)
Lemma run_shed :
  kv_lookup k (a_elems a) = None ->
  exists full N2 fr2 shed el,
    run (if (length (a_elems a) =? v_capacity vec)%nat then
           let* f := vec_get (a_ptr a) v_first in Ret (k <? f)
         else Ret false) (World N1 fr h1) = Done full (World N1 fr h1) /\
    run (if full : bool then
           let* shed := node_new junk (a_ptr a) true null in
           vec_steal shed (a_ptr a) (fun v u => r ← v_steal_half v u; Some (tt, r))
         else Ret tt) (World N1 fr h1) = Done tt (World N2 fr2 h1) /\
    frame (a_ptr a :: map a_ptr shed) N1 N2 /\ N2 !! Heap fr2 = None /\
    locked N2 (a_ptr a) (a_orphan a) (a_ext a) (head_or (shed ++ m) None) el /\
    el ++ flat shed = a_elems a /\ seg N2 shed (head_or m None) /\
    (Datatypes.S (length (kv_above k el)) <= v_capacity vec)%nat /\
    ((shed = [] /\ fr2 = fr) \/
     (exists el2, shed = [ANode (Heap fr) true (Remote null 0) el2] /\ el2 <> [] /\
        fr2 = Pos.succ fr /\ forall e, e ∈ a_elems a -> k < e.1)).
Proof using All.
  intros Hk. destruct found_sorted as [Hs Hlen]. pose proof v_capacity_pos as Hcap.
  assert (Hnoshed : (Datatypes.S (length (kv_above k (a_elems a))) <= v_capacity vec)%nat ->
    exists N2 fr2 shed el,
    run (Ret tt) (World N1 fr h1) = Done tt (World N2 fr2 h1) /\
    frame (a_ptr a :: map a_ptr shed) N1 N2 /\ N2 !! Heap fr2 = None /\
    locked N2 (a_ptr a) (a_orphan a) (a_ext a) (head_or (shed ++ m) None) el /\
    el ++ flat shed = a_elems a /\ seg N2 shed (head_or m None) /\
    (Datatypes.S (length (kv_above k el)) <= v_capacity vec)%nat /\
    ((shed = [] /\ fr2 = fr) \/
     (exists el2, shed = [ANode (Heap fr) true (Remote null 0) el2] /\ el2 <> [] /\
        fr2 = Pos.succ fr /\ forall e, e ∈ a_elems a -> k < e.1))).
  { intros Hfit. exists N1, fr, [], (a_elems a). rewrite app_nil_r.
    split_and!; try done. by left. }
  destruct (Nat.eqb_spec (length (a_elems a)) (v_capacity vec)) as [Hfull|Hroom].
  2: { exists false. destruct Hnoshed as (N2 & fr2 & shed & el & H); [|by exists N2, fr2, shed, el].
       pose proof (length_filter (fun e : Z * value ADDR => k < e.1) (a_elems a)).
       unfold kv_above. lia. }
  destruct (kv_first_nonempty (a_elems a)) as [f0 Hf0]; [intros Hnil; rewrite Hnil in Hfull; cbn in Hfull; lia|].
  exists (k <? f0). run_with (run_locked_first N1 fr h1 _ _ _ _ _ _ Hlk Hf0).
  destruct (Z.ltb_spec k f0) as [Hlt|Hge].
  2: { destruct Hnoshed as (N2 & fr2 & shed & el & H); [by eapply above_fits|].
       by exists N2, fr2, shed, el. }
  assert (Hall : forall e, e ∈ a_elems a -> k < e.1).
  { intros e Hin. pose proof (kv_first_le _ _ _ Hs Hf0 Hin). lia. }
  set (half := (length (a_elems a) / 2)%nat).
  assert (Hhalf : (half < length (a_elems a))%nat) by (apply Nat.div_lt; lia).
  destruct (run_node_new N1 fr h1 _ _ _ _ _ true null Hlk Hfr1)
    as (N2 & Hr2 & Hf2 & _ & Hl2 & Hn2). run_with Hr2.
  destruct (run_steal N2 (Pos.succ fr) h1 (Heap fr) (a_ptr a) _ _ _ _ _ _ _ _
              (fun v u => r ← v_steal_half v u; Some (tt, r)) tt
              (drop half (a_elems a)) (take half (a_elems a)) (not_eq_sym Hpne) Hn2 Hl2)
    as (N3 & Hr3 & Hf3 & Hn3 & Hl3).
  { intros v u Hv Hu Hev Heu. destruct (v_steal_half_spec v u Hv Hu) as (v' & u' & Hst & H).
    rewrite Heu in H. exists v', u'. rewrite Hst. tauto. }
  exists N3, (Pos.succ fr), [ANode (Heap fr) true (Remote null 0) (drop half (a_elems a))],
    (take half (a_elems a)).
  split_and!; try done.
  - intros q Hq. cbn in Hq. rewrite Hf3, Hf2 by ptrs_solve. done.
  - assert (Hnx : N !! Heap (Pos.succ fr) = None).
    { destruct (N !! Heap (Pos.succ fr)) eqn:Hx; [|done]. destruct Hinv as [_ Hrep].
      assert (Heap (Pos.succ fr) ∈ ptrs S) as Hin by (apply (r_dom _ _ _ Hrep); eauto).
      apply (r_fresh _ _ _ Hrep) in Hin. lia. }
    assert (a_ptr a <> Heap (Pos.succ fr)).
    { intros Heq. destruct Hinv as [_ Hrep].
      destruct (repr_rest _ _ _ _ _ _ _ Hrep Hl) as (c & v & Hv & _). congruence. }
    assert (Heap (Pos.succ fr) <> Heap fr) by (intros [=]; lia).
    rewrite Hf3, Hf2, Hf1 by ptrs_solve. done.
  - cbn. rewrite app_nil_r. apply take_drop.
  - rewrite kv_above_all.
    + rewrite length_take. lia.
    + intros e Hin. apply Hall. rewrite <- (take_drop half (a_elems a)). apply elem_of_app. by left.
  - right. exists (drop half (a_elems a)). split_and!; try done.
    intros Hnil. apply (f_equal length) in Hnil. rewrite length_drop in Hnil. cbn [length] in Hnil. lia.
Qed.

(** Keys left of everything that is shed stay below the rest. *)
Lemma shed_below el (shed : list anode) :
  kv_lookup k (a_elems a) = None -> el ++ flat shed = a_elems a ->
  shed = [] \/ (forall e, e ∈ a_elems a -> k < e.1) ->
  kv_lookup k el = None /\
  kv_below k el ++ ((k, x) :: kv_above k el) ++ flat shed = kv_add k x (a_elems a) /\
  (l <> [] -> kv_below k el <> []).
Proof using Hc Hl Hinv Hlk Hlayers.
  intros Hk Happ Hsh. destruct found_sorted as [Hs _].
  assert (Hkel : kv_lookup k el = None).
  { rewrite <- Happ, kv_lookup_app in Hk. by destruct (kv_lookup k el). }
  split; [done|]. rewrite kv_add_absent by done. unfold kv_insert. rewrite <- Happ.
  destruct Hsh as [->|Hall].
  - cbn. rewrite !app_nil_r. split; [done|]. intros Hne Hnil.
    destruct Hc as [[?|(k0 & Hk0 & Hle)] _]; [done|].
    cbn in Happ. rewrite app_nil_r in Happ. subst el.
    apply kv_first_elem in Hk0 as (e0 & He0 & <-).
    rewrite kv_lookup_None in Hk. specialize (Hk e0 He0).
    assert (Hb : e0 ∈ kv_below k (a_elems a)) by (apply elem_of_kv_below; split; [lia|done]).
    rewrite Hnil in Hb. by apply elem_of_nil in Hb.
  - assert (H1 : forall e, e ∈ el -> k < e.1).
    { intros e Hin. apply Hall. rewrite <- Happ. apply elem_of_app. by left. }
    assert (H2 : forall e, e ∈ flat shed -> k < e.1).
    { intros e Hin. apply Hall. rewrite <- Happ. apply elem_of_app. by right. }
    rewrite kv_below_app, kv_above_app, (kv_below_none k el), (kv_below_none k (flat shed)),
      (kv_above_all k el), (kv_above_all k (flat shed)) by
      (intros e Hin; first [by apply H1 | by apply H2
        | specialize (H1 e Hin); lia | specialize (H2 e Hin); lia]).
    split; [done|]. intros Hne.
    destruct Hc as [[?|(k0 & Hk0 & Hle)] _]; [done|].
    apply kv_first_elem in Hk0 as (e0 & He0 & <-). specialize (Hall e0 He0). lia.
Qed.

(** [k] is absent: it starts a new node that takes the entries above. *)
Lemma split_absent r_addr N2 fr2 (shed : list anode) el :
  frame (a_ptr a :: map a_ptr shed) N1 N2 -> N2 !! Heap fr2 = None ->
  locked N2 (a_ptr a) (a_orphan a) (a_ext a) (head_or (shed ++ m) None) el ->
  el ++ flat shed = a_elems a -> seg N2 shed (head_or m None) ->
  (Datatypes.S (length (kv_above k el)) <= v_capacity vec)%nat ->
  kv_lookup k (a_elems a) = None ->
  ((shed = [] /\ fr2 = fr) \/
   (exists el2, shed = [ANode (Heap fr) true (Remote null 0) el2] /\ el2 <> [] /\
      fr2 = Pos.succ fr /\ forall e, e ∈ a_elems a -> k < e.1)) ->
  exists N' fr' h' S',
    run (let* new_local := node_new junk (a_ptr a) false r_addr in
         vec_steal new_local (a_ptr a)
           (fun v u => r ← v_split_insert k x v u; Some (tt, r)) ;;;
         lock_rmw (a_ptr a) release ;;;
         hp_drop_curr ;;;
         Ret (Some new_local)) (World N2 fr2 h1) =
      Done (Some (Heap fr2)) (World N' fr' h') /\
    hps t Thread.HNone h' /\ split_post L k x (Some (Heap fr2)) N' fr' S'.
Proof using All.
  intros Hf2 Hfr2 Hl2 Happ Hseg2 Hfit Hk Hshed.
  destruct (shed_below el shed Hk Happ) as (Hkel & Hadd & Hbel).
  { destruct Hshed as [[-> _]|(el2 & _ & _ & _ & Hall)]; auto. }
  destruct (run_node_new N2 fr2 h1 _ _ _ _ _ false r_addr Hl2 Hfr2)
    as (N3 & Hr3 & Hf3 & Hne3 & Hl3 & Hn3). run_with Hr3.
  destruct (run_steal N3 (Pos.succ fr2) h1 (Heap fr2) (a_ptr a) _ _ _ _ _ _ _ _
              (fun v u => r ← v_split_insert k x v u; Some (tt, r)) tt
              ((k, x) :: kv_above k el) (kv_below k el) (not_eq_sym Hne3) Hn3 Hl3)
    as (N4 & Hr4 & Hf4 & Hn4 & Hl4).
  { intros v u Hv Hu Hev Heu.
    destruct (v_split_insert_spec k x v u) as (v' & u' & Hst & H); try done; [congruence..|].
    rewrite Heu in H. exists v', u'. rewrite Hst. tauto. }
  run_with Hr4.
  destruct (run_release N4 (Pos.succ fr2) h1 _ _ _ _ _ Hl4) as (rv & N5 & Hr5 & Hf5 & Hl5).
  run_with Hr5. run_ex (run_drop_curr t N5 (Pos.succ fr2) h1 _ Hh1) as h2 _ Hh2.
  set (a' := ANode (a_ptr a) (a_orphan a) (a_ext a) (kv_below k el)).
  set (b := ANode (Heap fr2) false (Remote r_addr 0) ((k, x) :: kv_above k el)).
  assert (Hflat' : flat (a' :: b :: shed) = kv_add k x (a_elems a)) by exact Hadd.
  exists N5, (Pos.succ fr2), h2, (<[L := l ++ a' :: (b :: shed) ++ m]> S).
  split_and!; [done|done|].
  split; [eapply (adds_commit miss N fr S L l a a' (b :: shed) m k x); try done|].
  { destruct Hshed as [[-> _]|(el2 & -> & _)]; cbn; lia. }
  split; [|apply (new_entry_ok a' b [] shed); done].
  eapply (inv_commit miss (Some (L, Heap fr2)) N N5 fr (Pos.succ fr2) S L l a a' (b :: shed) m k x);
    try done.
  - intros b0 [->|Hb0]%elem_of_cons.
    + split_and!; [done| |done]. exists fr2. split; [done|].
      destruct Hshed as [[_ ->]|(el2 & _ & _ & -> & _)]; lia.
    + destruct Hshed as [[-> _]|(el2 & -> & Hne2 & -> & _)]; [by apply elem_of_nil in Hb0|].
      apply list_elem_of_singleton in Hb0 as ->. split_and!; [done| |done].
      exists fr. split; [done|lia].
  - destruct Hshed as [[-> _]|(el2 & -> & Hne2 & -> & _)]; [apply NoDup_singleton|].
    cbn. apply NoDup_cons. split; [|apply NoDup_singleton].
    intros Hin%list_elem_of_singleton. injection Hin. lia.
  - destruct Hshed as [[_ ->]|(el2 & _ & _ & -> & _)]; lia.
  - intros q Hq. cbn in Hq. apply not_elem_of_cons in Hq as [Hq1 Hq].
    apply not_elem_of_cons in Hq as [Hq2 Hq].
    rewrite Hf5, Hf4, Hf3 by ptrs_solve.
    rewrite Hf2 by (apply not_elem_of_cons; done). by rewrite Hf1 by ptrs_solve.
  - assert (Hsp : forall q, q ∈ map a_ptr shed -> q <> a_ptr a /\ q <> Heap fr2).
    { intros q Hq. destruct Hshed as [[-> _]|(el2 & -> & _ & -> & _)]; [by apply elem_of_nil in Hq|].
      apply list_elem_of_singleton in Hq as ->. split; cbn; [congruence|]. intros [=]. lia. }
    cbn. split_and!; [exact Hl5| |].
    + eapply free_frame; [exact Hf5| |].
      * cbn. ptrs_solve.
      * assert (Hnx : head_or (shed ++ m) None = head_or shed (head_or m None)) by (by destruct shed).
        rewrite <- Hnx. exact Hn4.
    + eapply seg_frame; [|exact Hseg2]. intros b0 Hb0.
      apply (list_elem_of_fmap_2 a_ptr) in Hb0. destruct (Hsp _ Hb0).
      rewrite Hf5, Hf4, Hf3 by ptrs_solve. done.
Qed.
End Found.

Lemma run_mirror_split_at_level L k x r_addr h :
  (L < layers)%nat -> hps t Thread.HNone h -> entry_ok S L (k, x) -> parented miss L x ->
  exists r N' fr' h' S',
    run (mirror_split_at_level null MAX_LAYERS layers junk fuel k L x r_addr) (World N fr h) =
      Done r (World N' fr' h') /\
    hps t Thread.HNone h' /\ split_post L k x r N' fr' S'.
Proof.
  intros HL Hh He Hm. unfold mirror_split_at_level.
  destruct (run_descend_locked k L h HL Hh)
    as (l & a & m & N1 & h1 & Hl & Hc & Hr & Hf & Hfr & Hpne & Hlk & Hh1). run_with Hr.
  run_with (run_get_size N1 fr h1 _ _ _ _ _ Hlk).
  assert (Hmin : run (if (0 <? length (a_elems a))%nat then
                        let* f := vec_get (a_ptr a) v_first in Ret (f =? k)
                      else Ret false) (World N1 fr h1) =
                 Done (bool_decide (kv_first (a_elems a) = Some k)) (World N1 fr h1)).
  { destruct (kv_first (a_elems a)) as [f|] eqn:Hfst.
    - destruct (kv_first_Some _ _ Hfst) as (y & l' & Hel). rewrite Hel. cbn [length Nat.ltb Nat.leb].
      run_with (run_locked_first N1 fr h1 _ _ _ _ _ _ Hlk Hfst). cbn. f_equal.
      destruct (Z.eqb_spec f k) as [->|Hne]; [by rewrite bool_decide_eq_true_2|].
      rewrite bool_decide_eq_false_2; [done|congruence].
    - apply kv_first_None in Hfst. by rewrite Hfst. }
  run_with Hmin. destruct (decide (kv_first (a_elems a) = Some k)) as [Hk|Hk].
  - rewrite bool_decide_eq_true_2 by done.
    destruct (split_at_minimum k x L l a m N1 h1 Hl Hc Hf Hfr Hpne Hlk Hh1 He Hm r_addr Hk)
      as (N' & h' & S' & Hrun & Hh' & Hpost).
    eexists _, N', fr, h', S'. split_and!; [exact Hrun|done|done].
  - rewrite bool_decide_eq_false_2 by done.
    assert (Hcon : run (vec_get (a_ptr a) (v_contains k)) (World N1 fr h1) =
                   Done (kv_lookup k (a_elems a)) (World N1 fr h1)).
    { eapply run_locked_vec; [done|]. intros v Hv Hev. by rewrite v_contains_spec, Hev. }
    run_with Hcon. destruct (kv_lookup k (a_elems a)) as [y|] eqn:Hlk2.
    + destruct (split_present k x L l a m N1 h1 Hl Hc Hf Hfr Hpne Hlk Hh1 He Hm y r_addr Hlk2 Hk)
        as (N' & fr' & h' & S' & Hrun & Hh' & Hpost).
      eexists _, N', fr', h', S'. split_and!; [exact Hrun|done|done].
    + run_with (run_get_size N1 fr h1 _ _ _ _ _ Hlk).
      destruct (run_shed k x L l a m N1 h1 Hl Hc Hf Hfr Hpne Hlk Hh1 He Hm Hlk2)
        as (full & N2 & fr2 & shed & el & Hr1 & Hr2 & Hf2 & Hfr2 & Hl2 & Happ & Hsg & Hfit & Hsh).
      run_with Hr1. run_with Hr2.
      destruct (split_absent k x L l a m N1 h1 Hl Hc Hf Hfr Hpne Hlk Hh1 He Hm r_addr N2 fr2 shed el
                  Hf2 Hfr2 Hl2 Happ Hsg Hfit Hlk2 Hsh)
        as (N' & fr' & h' & S' & Hrun & Hh' & Hpost).
      eexists _, N', fr', h', S'. split_and!; [exact Hrun|done|done].
Qed.
End Ops.
End Update.

Arguments run_mirror_insert_at_top_level {ADDR} null {vec HV HS HSA HSAS MAX_LAYERS layers} ZCAP {t junk} Hlayers
  {miss N fr S} Hinv {fuel} Hfuel L k x r_addr h _ _ _ _.
Arguments run_install_entry {ADDR} null {vec HV HS HSA HSAS MAX_LAYERS layers} ZCAP {t junk} Hlayers
  {miss N fr S} Hinv {fuel} Hfuel L k x r_addr h _ _ _ _.
Arguments run_mirror_split_at_level {ADDR} null {vec HV HS HSA HSAS MAX_LAYERS layers} ZCAP {t junk}
  Hlayers {miss N fr S} Hinv {fuel} Hfuel L k x r_addr h _ _ _ _.
