(* ===== verification/DiscoMirror.v ===== *)
(** * DiscoMirror: [mirror_reconcile] and [mirror_insert], alone

    The two operations by which the cache learns: each succeeds, keeps the
    structure well formed at every level, and adds to the entries of the
    directory exactly the routing entries it was given, if they were absent. *)

From Stdlib Require Import QArith.
From S2P Require Import Prelude KvList Prog SvLock VecSpec HazardPtr World Layers Heap DiscoNode.
From S2P Require Import DiscoOps DiscoDescent DiscoUpdate.

Local Open Scope Z_scope.

Section Mirror.
Context {ADDR : Type} (null : ADDR) {vec : Type -> Type}.
Context `{HV : VecOps vec} `{HS : !VecSpec vec} `{HSA : !VecSplitAt vec}.
Context `{HSAS : !VecSplitAtSpec vec}.
Context (MAX_LAYERS layers ZCAP t : nat) (junk : Z * value ADDR).

Local Abbreviation node := (node ADDR (remote ADDR) vec).
Local Abbreviation anode := (anode ADDR (remote ADDR)).
Local Abbreviation run := (run (handle (D:=ADDR) (X:=remote ADDR) (vec:=vec) t)).
Implicit Types (N : gmap ptr node) (fr : positive) (h : mgr_t) (k b : Z) (fuel : nat).
Implicit Types (S : list (list anode)) (path : list (path_step ADDR)) (child : ptr).

(** Fuel for the walks in every layer after [d] more nodes. *)
Definition room (d fuel : nat) S : Prop :=
  forall n l, S !! n = Some l -> (length l + d <= fuel)%nat.

Lemma room_enough d fuel S : room d fuel S -> enough fuel S.
Proof. intros H n l Hl. specialize (H n l Hl). lia. Qed.

Lemma room_mono d d' fuel S : (d' <= d)%nat -> room d fuel S -> room d' fuel S.
Proof. intros Hd H n l Hl. specialize (H n l Hl). lia. Qed.

Lemma room_adds d fuel L k x S S' : adds L k x S S' -> room (d + 2) fuel S -> room d fuel S'.
Proof.
  intros [Hother (l & l' & Hl & Hl' & _ & Hlen)] H n l0 Hl0.
  destruct (decide (n = L)) as [->|Hn].
  - rewrite Hl' in Hl0. injection Hl0 as <-. specialize (H L l Hl). lia.
  - rewrite Hother in Hl0 by done. specialize (H n l0 Hl0). lia.
Qed.

(** An operation costs at most [n] nodes in any layer. *)
Definition spends (n fuel : nat) S S' : Prop := forall d, room (d + n) fuel S -> room d fuel S'.

Lemma spends_refl fuel S : spends 0 fuel S S.
Proof. intros d. by rewrite Nat.add_0_r. Qed.

Lemma spends_adds fuel L k x S S' : adds L k x S S' -> spends 2 fuel S S'.
Proof. intros Ha d Hr. by eapply room_adds. Qed.

Lemma spends_trans n m fuel S1 S2 S3 :
  spends n fuel S1 S2 -> spends m fuel S2 S3 -> spends (n + m) fuel S1 S3.
Proof.
  intros H1 H2 d Hr. apply H2, H1. eapply room_mono; [|exact Hr]. lia.
Qed.

Lemma spends_mono n m fuel S S' : (n <= m)%nat -> spends n fuel S S' -> spends m fuel S S'.
Proof. intros Hn H d Hr. apply H. eapply room_mono; [|exact Hr]. lia. Qed.

Lemma spends_enough n fuel S S' : spends n fuel S S' -> room n fuel S -> enough fuel S'.
Proof. intros H Hr. apply (room_enough 0), H. exact Hr. Qed.

(** The entries of the directory. *)
Definition dir S : list (Z * value ADDR) := flat (default [] (S !! 0%nat)).

Lemma dir_adds_0 k x S S' : adds 0 k x S S' -> dir S' = kv_add k x (dir S).
Proof. intros [_ (l & l' & Hl & Hl' & Hf & _)]. unfold dir. by rewrite Hl, Hl'. Qed.

Lemma dir_adds_S L k x S S' : adds (Datatypes.S L) k x S S' -> dir S' = dir S.
Proof. intros [Hother _]. unfold dir. by rewrite Hother. Qed.

(** Entries of a layer point one layer down, so they survive additions to
    their own layer. *)
Lemma entry_ok_adds L k x S S' e : adds L k x S S' -> entry_ok S L e -> entry_ok S' L e.
Proof.
  intros [Hother _]. destruct L as [|L]; [done|].
  intros (m & c & Hm & H). exists m, c. by rewrite Hother.
Qed.

Lemma inv_weaken miss N fr S : inv layers None N fr S -> inv layers miss N fr S.
Proof. intros [Hw Hr]. split; [by apply wf_weaken|done]. Qed.

(** ** Climbing *)

Context (Hlayers : (2 <= layers <= MAX_LAYERS)%nat).

(** State of a climb: [child], at the layer below [L], may lack its parent,
    whose entry is good at [L]. *)
Definition climbing (L : nat) k child N fr S : Prop :=
  exists L', L = Datatypes.S L' /\ inv layers (Some (L', child)) N fr S /\
    entry_ok S L (k, VDown child).

Lemma climbing_inv L k child N fr S :
  climbing L k child N fr S -> (layers <= L)%nat -> inv layers None N fr S.
Proof.
  intros (L' & -> & [Hw Hr] & _) HL. split; [|done]. by eapply wf_top.
Qed.

(** The part of the state a climb from [L] does not touch, and the fuel it
    leaves after [n] levels. *)
Definition climbed (L n fuel : nat) S S' : Prop :=
  (forall i, (i < L)%nat -> S' !! i = S !! i) /\
  spends (2 * n) fuel S S'.

Lemma climbed_refl L fuel S : climbed L 0 fuel S S.
Proof. split; [done|apply spends_refl]. Qed.

Lemma climbed_trans L n fuel S1 S2 S3 :
  climbed L 1 fuel S1 S2 -> climbed (Datatypes.S L) n fuel S2 S3 ->
  climbed L (Datatypes.S n) fuel S1 S3.
Proof.
  intros [H1 H2] [H3 H4]. split.
  - intros i Hi. rewrite H3, H1 by lia. done.
  - eapply spends_mono; [|by eapply spends_trans]. lia.
Qed.

Lemma climbed_mono L n n' fuel S S' : (n <= n')%nat -> climbed L n fuel S S' -> climbed L n' fuel S S'.
Proof.
  intros Hn [H1 H2]. split; [done|]. eapply spends_mono; [|exact H2]. lia.
Qed.

Lemma climbed_adds L k x fuel S S' : adds L k x S S' -> climbed L 1 fuel S S'.
Proof.
  intros Ha. split.
  - intros i Hi. destruct Ha as [Hother _]. apply Hother. lia.
  - by eapply spends_adds.
Qed.

(** One level of a climb. *)
Lemma climb_step L k child N fr S fuel r_addr h :
  climbing L k child N fr S -> (L < layers)%nat -> enough fuel S -> hps t Thread.HNone h ->
  exists r N' fr' h' S',
    run (mirror_split_at_level null MAX_LAYERS layers junk fuel k L (VDown child) r_addr)
      (World N fr h) = Done r (World N' fr' h') /\
    hps t Thread.HNone h' /\ climbed L 1 fuel S S' /\
    match r with
    | None => climbing L k child N' fr' S'
    | Some p => climbing (Datatypes.S L) k p N' fr' S'
    end.
Proof.
  intros (L' & -> & Hinv & He) HL Hf Hh.
  destruct (run_mirror_split_at_level (t:=t) (junk:=junk) null ZCAP Hlayers Hinv Hf (Datatypes.S L') k (VDown child)
              r_addr h HL Hh He (conj eq_refl eq_refl))
    as (r & N' & fr' & h' & S' & Hr & Hh' & Hadds & Hpost).
  exists r, N', fr', h', S'. split_and!; try done; [by eapply climbed_adds|].
  destruct r as [p|].
  - destruct Hpost as [Hinv' He']. exists (Datatypes.S L'). by split_and!.
  - exists L'. split_and!; [done|by apply inv_weaken|by eapply entry_ok_adds].
Qed.

Lemma run_reconcile_climb k path fuel n : forall L child N fr S h,
  climbing L k child N fr S -> (L + n <= layers)%nat -> (L + n <= length path)%nat ->
  room (2 * n) fuel S -> hps t Thread.HNone h ->
  exists child' L' N' fr' h' S',
    run (reconcile_climb null MAX_LAYERS layers junk fuel k path n L child) (World N fr h) =
      Done (child', L') (World N' fr' h') /\
    hps t Thread.HNone h' /\ climbed L n fuel S S' /\ climbing L' k child' N' fr' S' /\
    (L <= L' <= L + n)%nat.
Proof.
  induction n as [|n IH]; intros L child N fr S h Hc Hn Hp Hroom Hh.
  { exists child, L, N, fr, h, S. split_and!; try done; [apply climbed_refl|lia..]. }
  cbn [reconcile_climb].
  destruct (lookup_lt_is_Some_2 path L) as [st Hst]; [lia|]. rewrite Hst.
  assert (Hl : run (lift_opt (Some st)) (World N fr h) = Done st (World N fr h)) by done.
  run_with Hl. destruct (Z.eqb_spec (ps_k_min st) k) as [_|_].
  2: { exists child, L, N, fr, h, S. split_and!; try done; [|lia..].
       eapply climbed_mono; [|apply climbed_refl]. lia. }
  destruct (climb_step L k child N fr S fuel (ps_addr st) h Hc)
    as (r & N1 & fr1 & h1 & S1 & Hr1 & Hh1 & Hcl & Hpost); [lia|by eapply room_enough|done|].
  run_with Hr1. destruct r as [p|].
  - destruct (IH (Datatypes.S L) p N1 fr1 S1 h1 Hpost) as (c' & L' & N' & fr' & h' & S' & Hr & Hh' & Hcl' & Hc' & HL');
      [lia..| |done|].
    { destruct Hcl as [_ Hroom']. apply Hroom'. eapply room_mono; [|exact Hroom]. lia. }
    exists c', L', N', fr', h', S'. split_and!; try done; [by eapply climbed_trans|lia..].
  - exists child, L, N1, fr1, h1, S1. split_and!; try done; [|lia..].
    eapply climbed_mono; [|exact Hcl]. lia.
Qed.

Lemma run_insert_levels k addrs fuel n : forall L child N fr S h,
  climbing L k child N fr S -> (L + n <= layers)%nat -> (L + n <= length addrs)%nat ->
  room (2 * n) fuel S -> hps t Thread.HNone h ->
  exists child' L' N' fr' h' S',
    run (insert_levels null MAX_LAYERS layers junk fuel k addrs n L child) (World N fr h) =
      Done (child', L') (World N' fr' h') /\
    hps t Thread.HNone h' /\ climbed L n fuel S S' /\ climbing L' k child' N' fr' S' /\
    (L <= L' <= L + n)%nat.
Proof.
  induction n as [|n IH]; intros L child N fr S h Hc Hn Hp Hroom Hh.
  { exists child, L, N, fr, h, S. split_and!; try done; [apply climbed_refl|lia..]. }
  cbn [insert_levels].
  destruct (lookup_lt_is_Some_2 addrs L) as [st Hst]; [lia|]. rewrite Hst.
  assert (Hl : run (lift_opt (Some st)) (World N fr h) = Done st (World N fr h)) by done.
  run_with Hl.
  destruct (climb_step L k child N fr S fuel st h Hc)
    as (r & N1 & fr1 & h1 & S1 & Hr1 & Hh1 & Hcl & Hpost); [lia|by eapply room_enough|done|].
  run_with Hr1. destruct r as [p|].
  - destruct (IH (Datatypes.S L) p N1 fr1 S1 h1 Hpost) as (c' & L' & N' & fr' & h' & S' & Hr & Hh' & Hcl' & Hc' & HL');
      [lia..| |done|].
    { destruct Hcl as [_ Hroom']. apply Hroom'. eapply room_mono; [|exact Hroom]. lia. }
    exists c', L', N', fr', h', S'. split_and!; try done; [by eapply climbed_trans|lia..].
  - exists child, L, N1, fr1, h1, S1. split_and!; try done; [|lia..].
    eapply climbed_mono; [|exact Hcl]. lia.
Qed.

(** ** The two operations *)

Lemma dir_climbed L n fuel S S' : (1 <= L)%nat -> climbed L n fuel S S' -> dir S' = dir S.
Proof. intros HL [Hi _]. unfold dir. by rewrite Hi by lia. Qed.

(** After the split at level 0: the climb to the parent levels, as both
    operations make it, whatever loop does it. *)
Lemma split_0_climbing N fr S S' k x p :
  split_post layers S 0 k x (Some p) N fr S' -> climbing 1 k p N fr S'.
Proof. intros [_ [Hi He]]. exists 0%nat. by split_and!. Qed.

(** Installing the entry of the topmost node built, as [mirror_reconcile] and
    [mirror_insert] end. *)
Lemma climbing_parent L k child N fr S fuel h r_addr :
  climbing L k child N fr S -> (L < layers)%nat -> (1 <= L)%nat -> enough fuel S ->
  hps t Thread.HNone h ->
  (exists N' fr' h' S',
    run (install_index_entry null MAX_LAYERS layers junk fuel L k child r_addr) (World N fr h) =
      Done tt (World N' fr' h') /\
    hps t Thread.HNone h' /\ inv layers None N' fr' S' /\ spends 2 fuel S S' /\ dir S' = dir S) /\
  (exists N' fr' h' S',
    run (mirror_insert_at_top_level MAX_LAYERS layers junk fuel k L (VDown child) r_addr)
      (World N fr h) = Done tt (World N' fr' h') /\
    hps t Thread.HNone h' /\ inv layers None N' fr' S' /\ spends 2 fuel S S' /\ dir S' = dir S).
Proof.
  intros (L' & -> & Hinv & He) HL _ Hen Hh. split.
  - destruct (run_install_entry (t:=t) (junk:=junk) null ZCAP Hlayers Hinv Hen (Datatypes.S L')
                k (VDown child) r_addr h HL Hh He (conj eq_refl eq_refl))
      as (N' & fr' & h' & S' & Hr & Hh' & Hinv' & Ha).
    exists N', fr', h', S'.
    split_and!; [done|done|done|by eapply spends_adds|by eapply dir_adds_S].
  - destruct (run_mirror_insert_at_top_level (t:=t) (junk:=junk) null ZCAP Hlayers Hinv Hen
                (Datatypes.S L') k (VDown child) r_addr h HL Hh He (conj eq_refl eq_refl))
      as (N' & fr' & h' & S' & Hr & Hh' & Hinv' & Ha).
    exists N', fr', h', S'.
    split_and!; [done|done|done|by eapply spends_adds|by eapply dir_adds_S].
Qed.

(** The part of [mirror_reconcile] after the split at level 0. *)
Lemma run_reconcile_up N fr S h fuel b path levels d :
  climbing 1 b d N fr S -> (1 <= levels <= length path)%nat -> room (2 * layers) fuel S ->
  hps t Thread.HNone h ->
  exists N' fr' h' S',
    run (let* (child, L) := reconcile_climb null MAX_LAYERS layers junk fuel b path
                              (Nat.min levels layers - 1) 1 d in
         if (L <? layers)%nat then
           let* a := (if (L <? levels)%nat
                      then let* st := lift_opt (path !! L) in Ret (ps_addr st) else Ret null) in
           install_index_entry null MAX_LAYERS layers junk fuel L b child a
         else Ret tt) (World N fr h) = Done tt (World N' fr' h') /\
    hps t Thread.HNone h' /\ inv layers None N' fr' S' /\ spends (2 * layers) fuel S S' /\
    dir S' = dir S.
Proof.
  intros Hd Hlv Hroom Hh.
  destruct (run_reconcile_climb b path fuel (Nat.min levels layers - 1) 1 d N fr S h Hd)
    as (child & L & N3 & fr3 & h4 & S3 & Hr3 & Hh4 & Hcl & Hc & HL);
    [lia|lia|eapply room_mono; [|exact Hroom]; lia|done|].
  run_with Hr3. pose proof (dir_climbed _ _ _ _ _ (le_n 1) Hcl) as Hd3.
  destruct Hcl as [_ Hsp].
  destruct (Nat.ltb_spec L layers) as [HLt|HLge].
  2: { exists N3, fr3, h4, S3. split_and!; [done|done|by eapply climbing_inv| |done].
       eapply spends_mono; [|exact Hsp]. lia. }
  assert (Ha3 : exists a, run (if (L <? levels)%nat
             then let* st := lift_opt (path !! L) in Ret (ps_addr st) else Ret null)
             (World N3 fr3 h4) = Done a (World N3 fr3 h4)).
  { destruct (Nat.ltb_spec L levels); [|by eexists].
    destruct (lookup_lt_is_Some_2 path L) as [st Hst]; [lia|]. rewrite Hst. by eexists. }
  destruct Ha3 as [a3 Ha3]. run_with Ha3.
  destruct (climbing_parent L b child N3 fr3 S3 fuel h4 a3 Hc) as [(N4 & fr4 & h5 & S4 & Hr4 & Hh5 & Hi4 & Hs4 & Hd4) _];
    [done|lia|eapply spends_enough; [exact Hsp|eapply room_mono; [|exact Hroom]; lia]|done|].
  exists N4, fr4, h5, S4. split_and!; [done|done|done| |congruence].
  eapply spends_mono; [|by eapply spends_trans]. lia.
Qed.

Lemma run_mirror_reconcile N fr S h fuel data_k_min data_addr path levels :
  inv layers None N fr S -> hps_idle t h -> room (2 * layers + 4) fuel S ->
  (levels <= length path)%nat ->
  exists N' fr' h' S',
    run (mirror_reconcile null MAX_LAYERS layers ZCAP junk fuel data_k_min data_addr path levels)
      (World N fr h) = Done tt (World N' fr' h') /\
    hps t Thread.HNone h' /\ inv layers None N' fr' S' /\ spends (2 * layers + 4) fuel S S' /\
    dir S' = let d := kv_add data_k_min (VData data_addr) (dir S) in
             match take levels path with
             | [] => d
             | p0 :: _ => kv_add (ps_k_min p0) (VData (ps_first_down p0)) d
             end.
Proof.
  intros Hinv Hh Hroom Hlv. unfold mirror_reconcile.
  run_ex (run_hp_init t ZCAP N fr h Hh) as h1 _ Hh1.
  assert (Ha : exists a, run (if (0 <? levels)%nat then let* st := lift_opt (path !! 0%nat) in Ret (ps_addr st)
                    else Ret null) (World N fr h1) = Done a (World N fr h1)).
  { destruct levels as [|lv]; [by eexists|]. destruct path as [|p0 path]; [cbn in Hlv; lia|]. by eexists. }
  destruct Ha as [a0 Ha0]. run_with Ha0. unfold install_data_entry.
  destruct (run_install_entry (t:=t) (junk:=junk) null ZCAP Hlayers Hinv (room_enough _ _ _ Hroom) 0
              data_k_min (VData data_addr) a0 h1) as (N1 & fr1 & h2 & S1 & Hr1 & Hh2 & Hinv1 & Hadd1);
    [lia|done|by eexists|done|].
  run_with Hr1. pose proof (dir_adds_0 _ _ _ _ Hadd1) as Hd1.
  apply (spends_adds fuel) in Hadd1 as Hs1.
  destruct levels as [|lv].
  { exists N1, fr1, h2, S1. split_and!; try done. eapply spends_mono; [|exact Hs1]. lia. }
  destruct path as [|p0 path]; [cbn in Hlv; lia|].
  rewrite bool_decide_eq_false_2 by done. cbn [Nat.eqb orb take lookup list_lookup].
  assert (Hp0 : run (lift_opt (Some p0)) (World N1 fr1 h2) = Done p0 (World N1 fr1 h2)) by done.
  run_with Hp0.
  assert (Hroom1 : room (2 * layers + 2) fuel S1) by (apply Hs1; eapply room_mono; [|done]; lia).
  destruct (run_mirror_split_at_level (t:=t) (junk:=junk) null ZCAP Hlayers Hinv1 (room_enough _ _ _ Hroom1) 0
              (ps_k_min p0) (VData (ps_first_down p0)) (ps_addr p0) h2)
    as (r & N2 & fr2 & h3 & S2 & Hr2 & Hh3 & Hpost); [lia|done|by eexists|done|].
  run_with Hr2. pose proof (dir_adds_0 _ _ _ _ (proj1 Hpost)) as Hd2. rewrite Hd1 in Hd2.
  pose proof (spends_adds fuel _ _ _ _ _ (proj1 Hpost)) as Hs2.
  destruct r as [d|].
  2: { destruct Hpost as [_ Hinv2]. exists N2, fr2, h3, S2. split_and!; try done.
       eapply spends_mono; [|by eapply spends_trans]. lia. }
  apply split_0_climbing in Hpost.
  destruct (run_reconcile_up N2 fr2 S2 h3 fuel (ps_k_min p0) (p0 :: path) (Datatypes.S lv) d Hpost)
    as (N3 & fr3 & h4 & S3 & Hr3 & Hh4 & Hi3 & Hs3 & Hd3); [split; [lia|done]|by apply Hs2|done|].
  exists N3, fr3, h4, S3. split_and!; [exact Hr3|done|done| |congruence].
  eapply spends_mono; [|eapply spends_trans; [exact Hs1|by eapply spends_trans]]. lia.
Qed.

Lemma run_mirror_insert N fr S h fuel k height data_addr addrs :
  inv layers None N fr S -> hps_idle t h -> room (2 * layers + 4) fuel S ->
  (1 <= height <= layers)%nat -> (layers <= length addrs)%nat ->
  exists N' fr' h' S',
    run (mirror_insert null MAX_LAYERS layers ZCAP junk fuel k height data_addr addrs)
      (World N fr h) = Done tt (World N' fr' h') /\
    hps t Thread.HNone h' /\ inv layers None N' fr' S' /\ spends (2 * layers + 4) fuel S S' /\
    dir S' = kv_add k (VData data_addr) (dir S).
Proof.
  intros Hinv Hh Hroom Hheight Haddrs. unfold mirror_insert.
  run_ex (run_hp_init t ZCAP N fr h Hh) as h1 _ Hh1.
  run_with (run_passert t (0 <? height)%nat N fr h1 ltac:(by apply Nat.ltb_lt; lia)).
  destruct (lookup_lt_is_Some_2 addrs 0) as [a0 Ha0]; [lia|]. rewrite Ha0.
  assert (Hr0 : run (lift_opt (Some a0)) (World N fr h1) = Done a0 (World N fr h1)) by done.
  run_with Hr0. destruct (Nat.eqb_spec (height - 1) 0) as [_|Hh1'].
  { destruct (run_mirror_insert_at_top_level (t:=t) (junk:=junk) null ZCAP Hlayers Hinv
                (room_enough _ _ _ Hroom) 0 k (VData data_addr) a0 h1)
      as (N1 & fr1 & h2 & S1 & Hr1 & Hh2 & Hinv1 & Hadd1); [lia|done|by eexists|done|].
    exists N1, fr1, h2, S1. split_and!; [done|done|done| |by eapply dir_adds_0].
    eapply spends_mono; [|by eapply spends_adds]. lia. }
  destruct (run_mirror_split_at_level (t:=t) (junk:=junk) null ZCAP Hlayers Hinv (room_enough _ _ _ Hroom) 0
              k (VData data_addr) a0 h1)
    as (r & N2 & fr2 & h3 & S2 & Hr2 & Hh3 & Hpost); [lia|done|by eexists|done|].
  run_with Hr2. pose proof (dir_adds_0 _ _ _ _ (proj1 Hpost)) as Hd2.
  pose proof (spends_adds fuel _ _ _ _ _ (proj1 Hpost)) as Hs2.
  destruct r as [d|].
  2: { destruct Hpost as [_ Hinv2]. exists N2, fr2, h3, S2. split_and!; try done.
       eapply spends_mono; [|exact Hs2]. lia. }
  assert (Hroom2 : room (2 * layers + 2) fuel S2) by (apply Hs2; eapply room_mono; [|exact Hroom]; lia).
  apply split_0_climbing in Hpost.
  destruct (run_insert_levels k addrs fuel (height - 1 - 1) 1 d N2 fr2 S2 h3 Hpost)
    as (child & L & N3 & fr3 & h4 & S3 & Hr3 & Hh4 & Hcl & Hc & HL);
    [lia|lia|eapply room_mono; [|exact Hroom2]; lia|done|].
  run_with Hr3. pose proof (dir_climbed _ _ _ _ _ (le_n 1) Hcl) as Hd3. destruct Hcl as [_ Hs3].
  rewrite (proj2 (Nat.ltb_lt L layers)) by lia.
  destruct (lookup_lt_is_Some_2 addrs L) as [a3 Ha3]; [lia|]. rewrite Ha3.
  assert (Hra3 : run (lift_opt (Some a3)) (World N3 fr3 h4) = Done a3 (World N3 fr3 h4)) by done.
  run_with Hra3.
  destruct (climbing_parent L k child N3 fr3 S3 fuel h4 a3 Hc) as [_ (N4 & fr4 & h5 & S4 & Hr4 & Hh5 & Hi4 & Hs4 & Hd4)];
    [lia|lia|eapply spends_enough; [exact Hs3|eapply room_mono; [|exact Hroom2]; lia]|done|].
  exists N4, fr4, h5, S4. split_and!; [done|done|done| |congruence].
  eapply spends_mono; [|eapply spends_trans; [exact Hs2|by eapply spends_trans]]. lia.
Qed.
End Mirror.
