(* ===== verification/DiscoMaint.v ===== *)
(** * DiscoMaint: construction, bootstrap, checking and teardown (skipvector_disco.h)

    The sequential-only methods of the cache: the constructor, the bootstrap
    of the heads' remote addresses, the walks that count nodes and entries,
    [verify()] with [verify_index()], and the destructor. *)

From Stdlib Require Import QArith.
From S2P Require Import Prelude Prog SvLock VecSpec HazardPtr World DiscoNode DiscoOps.

Local Open Scope Z_scope.

Section DiscoMaint.
Context {ADDR : Type} (null : ADDR) {vec : Type -> Type} `{HV : VecOps vec}.
Context (IDX_EXP DATA_EXP : Z) (MAX_LAYERS layers : nat) (NDEBUG : bool) (junk : Z * value ADDR).

Local Abbreviation mem := (mem ADDR (remote ADDR) vec).
Local Abbreviation world := (world ADDR (remote ADDR) vec).
Implicit Types (fuel : nat).

(** The object in memory: one head per possible layer. *)
Definition heads : gmap ptr (node ADDR (remote ADDR) vec) :=
  list_to_map ((fun n => (Head n, node_head null junk)) <$> seq 0 MAX_LAYERS).

(** The constructor, with its two assertions. *)
Definition skipvector_new (hp : mgr_t) : option world :=
  assert_ ((1 <? layers) && (layers <=? MAX_LAYERS))%nat ;;
  assert_ (DATA_EXP + Z.of_nat layers * IDX_EXP <=? 64) ;;
  Some (World heads 1%positive hp).

(** [set_head_remote_addrs(addrs)]: the loop over the index layers. *)
Fixpoint set_index_heads (n i : nat) (addrs : list ADDR) : mem unit :=
  match n with
  | O => Ret tt
  | S n' =>
      let* h := index_head MAX_LAYERS (i - 1) in
      let* a := lift_opt (addrs !! i) in
      let* r := trigger (ELoadExt h) in
      trigger (EStoreExt h (Remote a (cached_struct_ver r))) ;;;
      set_index_heads n' (S i) addrs
  end.

(** [booted] is [heads_bootstrapped_]; returns its new value. *)
Definition set_head_remote_addrs (booted : bool) (addrs : list ADDR) : mem bool :=
  passert (negb booted) ;;;
  let* a := lift_opt (addrs !! O) in
  let* r := trigger (ELoadExt directory_head) in
  trigger (EStoreExt directory_head (Remote a (cached_struct_ver r))) ;;;
  set_index_heads (layers - 1) 1 addrs ;;;
  Ret true.

Definition heads_bootstrapped (booted : bool) : bool := booted.

(** ** Walks *)

(** A loop along [next] that folds [f] over the nodes. *)
Fixpoint walk {A : Type} fuel (f : ptr -> A -> mem A) (curr : option ptr) (acc : A) : mem A :=
  match curr with
  | None => Ret acc
  | Some c =>
      match fuel with
      | O => Spin
      | S fuel' =>
          let* acc' := f c acc in
          let* next := load_next c in
          walk fuel' f next acc'
      end
  end.

(** The first node of a layer. *)
Definition layer_head (level : nat) : mem ptr :=
  if (level =? 0)%nat then Ret directory_head else index_head MAX_LAYERS (level - 1).

Definition node_count fuel (level : nat) : mem nat :=
  let* h := layer_head level in walk fuel (fun _ n => Ret (S n)) (Some h) O.

(** [get_size()]: the number of entries of the directory. *)
Definition get_size_all fuel : mem nat :=
  walk fuel (fun c n => let* s := get_size c in Ret (n + s)%nat) (Some directory_head) O.

(** [for_each_node(level, f)]: the list of the arguments [f] is called with. *)
Definition for_each_node fuel (level : nat) : mem (list (Z * bool * nat)) :=
  let* h := layer_head level in
  walk fuel (fun c l =>
    let* size := get_size c in
    let* m := (if (0 <? size)%nat then vec_get c v_first else Ret 0) in
    let* o := is_orphan_seq c in
    let* size' := get_size c in
    Ret (l ++ [(m, o, size')])) (Some h) [].

(** ** [verify()] *)

(** [fail()] throws unless assertions are compiled out. *)
Definition fail : mem bool := if NDEBUG then Ret false else Crash.

Definition verify_lock (curr : ptr) : mem bool :=
  let* lock := lock_rmw curr get_value in
  if is_locked lock then fail else Ret true.

(** [while (trace != down)]: [None] is the return of a failed check. *)
Fixpoint trace_to fuel (trace : option ptr) (down : ptr) : mem (option ptr) :=
  match trace with
  | Some p =>
      if decide (p = down) then Ret (Some p)
      else match fuel with
      | O => Spin
      | S fuel' =>
          let* orphan := is_orphan_seq p in
          if negb orphan then fail ;;; Ret None
          else let* next := load_next p in trace_to fuel' next down
      end
  | None => fail ;;; Ret None
  end.

(** The loop over the entries of a node: [n] entries from index [j].  The
    result is [None] for [return fail()], else the final [trace]. *)
Fixpoint verify_entries fuel (curr : ptr) (n j : nat) (trace : option ptr) : mem (option (option ptr)) :=
  match n with
  | O => Ret (Some trace)
  | S n' =>
      let* key := vec_get curr (v_at j) in
      let* found := vec_get curr (v_contains key) in
      let* down := (match found with Some v => as_down v | None => Crash end) in
      let* t := trace_to fuel trace down in
      match t with
      | None => Ret None
      | Some p =>
          let* trace' := load_next p in
          let* orphan := is_orphan_seq down in
          if orphan : bool then fail ;;; Ret None
          else
            let* size := get_size down in
            if (size =? 0)%nat then fail ;;; Ret None
            else
              let* first := vec_get down v_first in
              if negb (key =? first) then fail ;;; Ret None
              else verify_entries fuel curr n' (S j) trace'
      end
  end.

(** [while (next != nullptr && next->v.get_size() == 0)]: skip empty orphans.
    [None] is a failed check. *)
Fixpoint skip_empty fuel (next : option ptr) : mem (option (option ptr)) :=
  match next with
  | None => Ret (Some None)
  | Some p =>
      let* size := get_size p in
      if negb (size =? 0)%nat then Ret (Some (Some p))
      else match fuel with
      | O => Spin
      | S fuel' =>
          verify_lock p ;;;
          let* orphan := is_orphan_seq p in
          if negb orphan then fail ;;; Ret None
          else let* next' := load_next p in skip_empty fuel' next'
      end
  end.

(** The checks on the order of a node and the next nonempty one. *)
Definition verify_order (curr : ptr) (curr_size : nat) (next : option ptr) : mem bool :=
  match next with
  | None => Ret true
  | Some nx =>
      if (curr_size =? 0)%nat then
        let* orphan := is_orphan_seq curr in
        if negb orphan then fail else Ret true
      else
        let* mk := vec_get curr v_max_key in
        let* nf := vec_get nx v_first in
        if nf <? mk then fail else Ret true
  end.

(** The loop of [verify_index(layer_idx, trace)] over the nodes of a layer. *)
Fixpoint verify_index_loop fuel (curr : option ptr) (trace : option ptr) (rounds : nat) : mem bool :=
  match curr with
  | None => Ret true
  | Some c =>
      match rounds with
      | O => Spin
      | S rounds' =>
          let* curr_size := get_size c in
          let* next := load_next c in
          verify_lock c ;;;
          let* ok := vec_get c v_verify in
          if negb ok then fail
          else
            vec_upd c (fun v => Some (tt, v_sort v)) ;;;
            let* t := verify_entries fuel c curr_size 0 trace in
            match t with
            | None => Ret false
            | Some trace' =>
                let* nx := skip_empty fuel next in
                match nx with
                | None => Ret false
                | Some next' =>
                    let* ok' := verify_order c curr_size next' in
                    if negb ok' then Ret false
                    else verify_index_loop fuel next' trace' rounds'
                end
            end
      end
  end.

Definition verify_index fuel (layer_idx : nat) (trace : ptr) : mem bool :=
  let* h := index_head MAX_LAYERS layer_idx in
  verify_index_loop fuel (Some h) (Some trace) fuel.

(** [for (int layer = layers - 1; layer > 0; --layer)]: the results are
    discarded. *)
Fixpoint verify_layers fuel (layer : nat) : mem unit :=
  match layer with
  | O => Ret tt
  | S layer' =>
      (if (layer =? 1)%nat then verify_index fuel layer' directory_head
       else let* h := index_head MAX_LAYERS (layer - 2) in verify_index fuel layer' h) ;;;
      verify_layers fuel layer'
  end.

(** The loop of [verify] over the directory. *)
Fixpoint verify_data_loop fuel (curr : option ptr) (rounds : nat) : mem bool :=
  match curr with
  | None => Ret true
  | Some c =>
      match rounds with
      | O => Spin
      | S rounds' =>
          let* curr_size := get_size c in
          let* next := load_next c in
          verify_lock c ;;;
          let* ok := vec_get c v_verify in
          if negb ok then fail
          else
            let* nx := skip_empty fuel next in
            match nx with
            | None => Ret false
            | Some next' =>
                let* ok' := verify_order c curr_size next' in
                if negb ok' then Ret false else verify_data_loop fuel next' rounds'
            end
      end
  end.

Definition verify fuel : mem bool :=
  let* hps := hp_count_reserved in
  if negb (hps =? 0)%nat then fail
  else
    verify_layers fuel (layers - 1) ;;;
    verify_data_loop fuel (Some directory_head) fuel.

(** ** The destructor *)

(** Delete the nodes from [curr] on. *)
Fixpoint delete_chain fuel (curr : option ptr) : mem unit :=
  match curr with
  | None => Ret tt
  | Some c =>
      match fuel with
      | O => Spin
      | S fuel' =>
          let* next := load_next c in
          trigger (EDelete c) ;;;
          delete_chain fuel' next
      end
  end.

(** [for (size_t i = 1; i < layers; ++i)]: [n] layers from [i]. *)
Fixpoint delete_layers fuel (n i : nat) : mem unit :=
  match n with
  | O => Ret tt
  | S n' =>
      let* h := index_head MAX_LAYERS (i - 1) in
      let* curr := load_next h in
      delete_chain fuel curr ;;;
      delete_layers fuel n' (S i)
  end.

Definition skipvector_destroy fuel : mem unit :=
  delete_layers fuel (layers - 1) 1 ;;;
  let* data_curr := load_next directory_head in
  delete_chain fuel data_curr ;;;
  hp_sweep_all.
End DiscoMaint.
