(* ===== verification/DiscoCheck.v ===== *)
(** * DiscoCheck: the structural checker accepts every well-formed cache

    [verify()] traces the down pointers of every index layer along the layer
    below.  In a memory that represents a well-formed state it returns true,
    and fails no assertion on the way. *)

From Stdlib Require Import QArith.
From S2P Require Import Prelude KvList Prog SvLock VecSpec HazardPtr World Layers Heap DiscoNode.
From S2P Require Import DiscoOps DiscoDescent DiscoUpdate DiscoMaint.

Local Open Scope Z_scope.

Section Check.
Context {ADDR : Type} (null : ADDR) {vec : Type -> Type}.
Context `{HV : VecOps vec} `{HS : !VecSpec vec}.
Context (MAX_LAYERS layers t : nat) (NDEBUG : bool).
Context (Hlayers : (2 <= layers <= MAX_LAYERS)%nat).

Local Abbreviation node := (node ADDR (remote ADDR) vec).
Local Abbreviation anode := (anode ADDR (remote ADDR)).
Local Abbreviation run := (run (handle (D:=ADDR) (X:=remote ADDR) (vec:=vec) t)).
Implicit Types (N : gmap ptr node) (fr : positive) (h : mgr_t) (fuel : nat).
Implicit Types (a b c : anode) (l m : list anode) (S : list (list anode)).

(** ** Looking at a node at rest *)

Section Rest.
Context (N : gmap ptr node) (fr : positive) (h : mgr_t) (a : anode) (nx : option ptr).
Context (Ha : rest N a nx).

Lemma run_rest_next : run (load_next (a_ptr a)) (World N fr h) = Done nx (World N fr h).
Proof. destruct Ha as (c & H). by eapply run_load_next. Qed.

Lemma run_rest_vec {B} (f : vec (value ADDR) -> option B) r :
  (forall v, v_ok v -> v_elems v = a_elems a -> f v = Some r) ->
  run (vec_get (a_ptr a) f) (World N fr h) = Done r (World N fr h).
Proof. destruct Ha as (c & H). intros Hf. by eapply run_vec_get. Qed.

Lemma run_rest_size :
  run (get_size (a_ptr a)) (World N fr h) = Done (length (a_elems a)) (World N fr h).
Proof. apply run_rest_vec. intros v Hv He. by rewrite v_get_size_spec, He. Qed.

Lemma run_rest_first k :
  kv_first (a_elems a) = Some k ->
  run (vec_get (a_ptr a) v_first) (World N fr h) = Done k (World N fr h).
Proof. intros Hk. apply run_rest_vec. intros v Hv He. apply v_first_spec; [done|congruence]. Qed.

Lemma run_rest_orphan :
  run (is_orphan_seq (a_ptr a)) (World N fr h) = Done (a_orphan a) (World N fr h).
Proof.
  destruct Ha as (c & H). unfold is_orphan_seq.
  assert (Hr : run (lock_rmw (a_ptr a) get_value) (World N fr h) =
               Done (encode (ALock (a_orphan a) Unlocked c)) (World N fr h)) by (by eapply run_lock_read).
  run_with Hr. cbn. by rewrite is_orphan_encode.
Qed.

Lemma run_verify_lock : run (verify_lock NDEBUG (a_ptr a)) (World N fr h) = Done true (World N fr h).
Proof.
  destruct Ha as (c & H). unfold verify_lock.
  assert (Hr : run (lock_rmw (a_ptr a) get_value) (World N fr h) =
               Done (encode (ALock (a_orphan a) Unlocked c)) (World N fr h)) by (by eapply run_lock_read).
  run_with Hr. by rewrite is_locked_encode.
Qed.

Lemma run_rest_verify : run (vec_get (a_ptr a) v_verify) (World N fr h) = Done true (World N fr h).
Proof. apply run_rest_vec. intros v Hv He. by apply v_verify_spec. Qed.

Lemma run_sort :
  exists N', run (vec_upd (a_ptr a) (fun v => Some (tt, v_sort v))) (World N fr h) =
      Done tt (World N' fr h) /\ frame [a_ptr a] N N' /\ rest N' a nx /\
    forall i e, a_elems a !! i = Some e ->
      run (vec_get (a_ptr a) (v_at i)) (World N' fr h) = Done e.1 (World N' fr h).
Proof.
  destruct Ha as (c & v & Hn & Hok & Hv & He).
  destruct (v_sort_spec v Hv) as [Hsv Hse].
  eexists. split; [cbn; rewrite Hn; cbn; reflexivity|]. split; [apply frame_insert|]. split.
  - exists c, (v_sort v). rewrite lookup_insert_eq. split_and!; try done. congruence.
  - intros i e Hi. cbn. rewrite lookup_insert_eq. cbn.
    rewrite (v_at_spec v i e) by (try done; by rewrite He). cbn.
    unfold set_node. cbn. by rewrite insert_insert_eq.
Qed.
End Rest.

(** Touching one node without changing what it represents. *)
Lemma repr_touch N N' fr S L l a m :
  repr N fr S -> S !! L = Some (l ++ a :: m) -> frame [a_ptr a] N N' ->
  rest N' a (head_or m None) -> repr N' fr S.
Proof.
  intros Hr HL Hf Ha.
  rewrite <- (list_insert_id S L (l ++ a :: [] ++ m)) by done.
  eapply repr_replace; try done.
  - intros p Hp _. apply Hf. ptrs_solve.
  - apply NoDup_nil_2.
  - by intros b ?%elem_of_nil.
Qed.

(** ** Tracing *)

(** [suf] is what is left of the lower layer [lo], [rst] of the entries of
    the upper layer: they route to each other. *)
Definition traced (lo suf : list anode) (rst : list (Z * value ADDR)) : Prop :=
  (exists pre, lo = pre ++ suf) /\
  (forall b k, b ∈ suf -> a_orphan b = false -> kv_first (a_elems b) = Some k ->
     (k, VDown (a_ptr b)) ∈ rst) /\
  (forall e, e ∈ rst -> exists b, b ∈ suf /\ e.2 = VDown (a_ptr b) /\ a_orphan b = false /\
     kv_first (a_elems b) = Some e.1).

(** A node before another in a layer has a smaller first key. *)
Lemma first_lt n pre (mid : list anode) b suf c kc kb :
  layer_ok n (pre ++ mid ++ b :: suf) -> c ∈ mid ->
  kv_first (a_elems c) = Some kc -> kv_first (a_elems b) = Some kb -> kc < kb.
Proof.
  rewrite app_assoc. intros Hok Hc Hkc Hkb.
  destruct (layer_parts _ _ _ _ Hok) as (H1 & _).
  apply kv_first_elem in Hkc as (ec & Hec & <-). apply kv_first_elem in Hkb as (eb & Heb & <-).
  apply H1; [|done]. apply elem_of_flat. exists c. split; [|done]. apply elem_of_app. by right.
Qed.

Lemma nonorphan_nonempty n l b :
  layer_ok n l -> b ∈ l -> a_orphan b = false -> exists k, kv_first (a_elems b) = Some k.
Proof.
  intros Hok (l1 & l2 & ->)%list_elem_of_split Ho.
  destruct (layer_head_cases _ _ _ _ Hok) as [(_ & _ & ?)|[_ [Hne _]]]; [congruence|].
  by apply kv_first_nonempty.
Qed.

(** The next entry's target is reached over orphans only, and what is left
    still corresponds. *)
Lemma traced_step n lo suf e rst :
  layer_ok n lo -> kv_sorted (e :: rst) -> traced lo suf (e :: rst) ->
  exists mid b suf', suf = mid ++ b :: suf' /\ e.2 = VDown (a_ptr b) /\ a_orphan b = false /\
    kv_first (a_elems b) = Some e.1 /\ (forall c, c ∈ mid -> a_orphan c = true) /\
    traced lo suf' rst.
Proof.
  intros Hok Hs ((pre & Hpre) & H1 & H2).
  apply kv_sorted_cons in Hs as [Hlt Hs]. rewrite Forall_forall in Hlt. unfold kv_lt in Hlt.
  destruct (H2 e) as (b & Hb & He & Ho & Hk); [by left|].
  apply list_elem_of_split in Hb as (mid & suf' & ->). exists mid, b, suf'.
  assert (Hmid : forall c, c ∈ mid -> a_orphan c = true).
  { intros c Hc. destruct (a_orphan c) eqn:Hoc; [done|].
    destruct (nonorphan_nonempty n lo c Hok) as [kc Hkc]; [|done|].
    { rewrite Hpre, !elem_of_app. auto. }
    rewrite Hpre in Hok. pose proof (first_lt _ _ _ _ _ _ _ _ Hok Hc Hkc Hk).
    assert (Hin : (kc, VDown (a_ptr c)) ∈ e :: rst) by (apply H1; [apply elem_of_app; by left|done..]).
    apply elem_of_cons in Hin as [<-|Hin]; [cbn in *; lia|]. apply Hlt in Hin. cbn in Hin. lia. }
  split_and!; try done. split; [|split].
  - exists (pre ++ mid ++ [b]). by rewrite Hpre, <- !app_assoc.
  - intros c k Hc Hoc Hkc.
    assert (Hin : (k, VDown (a_ptr c)) ∈ e :: rst).
    { apply H1; [|done..]. apply elem_of_app. right. by right. }
    apply elem_of_cons in Hin as [Heq|Hin]; [|done]. exfalso. subst e. cbn in Hk.
    rewrite Hpre in Hok. apply list_elem_of_split in Hc as (s1 & s2 & ->).
    assert (Hok' : layer_ok n ((pre ++ mid) ++ (b :: s1) ++ c :: s2)) by (by rewrite <- app_assoc).
    pose proof (first_lt _ _ _ _ _ _ _ _ Hok' ltac:(left) Hk Hkc). lia.
  - intros e' He'. destruct (H2 e') as (c & Hc & Hec & Hoc & Hkc); [by right|].
    exists c. split_and!; try done. apply Hlt in He'.
    apply elem_of_app in Hc as [Hc|[->|Hc]%elem_of_cons];
      [|rewrite Hk in Hkc; injection Hkc; lia|done].
    apply Hmid in Hc. congruence.
Qed.

Section Quiet.
Context (fr : positive) (S : list (list anode)) (Hwf : wf layers None S).
Context (fuel : nat) (Hfuel : enough fuel S).

Lemma run_trace_to N h n pre (mid : list anode) b suf f :
  repr N fr S -> S !! n = Some (pre ++ mid ++ b :: suf) ->
  (forall c, c ∈ mid -> a_orphan c = true) -> (length mid <= f)%nat ->
  run (trace_to NDEBUG f (head_or (mid ++ b :: suf) None) (a_ptr b)) (World N fr h) =
    Done (Some (a_ptr b)) (World N fr h).
Proof.
  intros Hr. revert pre f. induction mid as [|c mid IH]; intros pre f Hl Ho Hf; cbn [app head_or].
  { destruct f; cbn [trace_to]; by rewrite decide_True. }
  destruct f as [|f]; cbn [length] in Hf; [lia|]. cbn [trace_to].
  destruct (ptr_other S n pre c (mid ++ b :: suf) (r_nodup _ _ _ Hr) Hl) as [Hsame _].
  rewrite decide_False.
  2: { intros He. apply (Hsame b); [|done]. right. apply elem_of_app. right. left. }
  assert (Hc : rest N c (head_or (mid ++ b :: suf) None)) by (by eapply repr_rest).
  run_with (run_rest_orphan N fr h c _ Hc). rewrite (Ho c) by left. cbn [negb].
  run_with (run_rest_next N fr h c _ Hc).
  apply (IH (pre ++ [c])); [by rewrite <- app_assoc|intros d Hd; apply Ho; by right|lia].
Qed.

(** The loop over the entries of node [c] of layer [n + 1]. *)
Lemma run_verify_entries N h n l c m lo cnt : forall j suf,
  repr N fr S -> S !! Datatypes.S n = Some (l ++ c :: m) -> S !! n = Some lo ->
  (forall i e, a_elems c !! i = Some e ->
     run (vec_get (a_ptr c) (v_at i)) (World N fr h) = Done e.1 (World N fr h)) ->
  (j + cnt = length (a_elems c))%nat -> traced lo suf (drop j (a_elems c) ++ flat m) ->
  exists suf', traced lo suf' (flat m) /\
    run (verify_entries NDEBUG fuel (a_ptr c) cnt j (head_or suf None)) (World N fr h) =
      Done (Some (head_or suf' None)) (World N fr h).
Proof.
  induction cnt as [|cnt IH]; intros j suf Hr Hu Hlo Hat Hj Htr.
  { exists suf. split; [|done]. rewrite drop_ge in Htr by lia. exact Htr. }
  cbn [verify_entries]. destruct (lookup_lt_is_Some_2 (a_elems c) j) as [e He]; [lia|].
  run_with (Hat j e He).
  pose proof (wf_layer _ _ _ Hwf _ _ Hu) as Hoku. pose proof (wf_layer _ _ _ Hwf _ _ Hlo) as Hoklo.
  destruct (layer_parts _ _ _ _ Hoku) as (_ & _ & Hcm & _ & Hsc & Hsm).
  rewrite (drop_S _ _ _ He) in Htr.
  destruct (traced_step n lo suf e (drop (Datatypes.S j) (a_elems c) ++ flat m) Hoklo)
    as (mid & b & suf' & -> & Hv & Ho & Hk & Hmid & Htr'); [|done|].
  { rewrite app_comm_cons. rewrite <- (drop_S _ _ _ He).
    apply kv_sorted_app. split_and!; [|by apply kv_sorted_drop|done].
    intros x y Hx Hy. apply Hcm; [|done]. rewrite <- (take_drop j (a_elems c)). apply elem_of_app. by right. }
  assert (Hc : rest N c (head_or m None)) by (by eapply repr_rest).
  assert (Hcon : run (vec_get (a_ptr c) (v_contains e.1)) (World N fr h) =
                 Done (Some e.2) (World N fr h)).
  { eapply run_rest_vec; [exact Hc|]. intros v Hvk Hev. rewrite v_contains_spec, Hev by done.
    f_equal. apply (kv_lookup_index _ _ _ j); [done|]. by destruct e. }
  run_with Hcon. rewrite Hv. cbn [as_down].
  assert (Hd : run (Ret (a_ptr b)) (World N fr h) = Done (a_ptr b) (World N fr h)) by done.
  run_with Hd. destruct Htr as [(pre & Hpre) _].
  rewrite Hpre in Hlo.
  assert (Hlen : (length mid <= fuel)%nat).
  { specialize (Hfuel _ _ Hlo). rewrite !length_app in Hfuel. lia. }
  run_with (run_trace_to N h n pre mid b suf' fuel Hr Hlo Hmid Hlen).
  assert (Hb : rest N b (head_or suf' None)).
  { rewrite app_assoc in Hlo. by eapply repr_rest. }
  run_with (run_rest_next N fr h b _ Hb). run_with (run_rest_orphan N fr h b _ Hb). rewrite Ho.
  run_with (run_rest_size N fr h b _ Hb).
  destruct (kv_first_Some _ _ Hk) as (y & l' & Hel). rewrite Hel. cbn [length Nat.eqb].
  run_with (run_rest_first N fr h b _ Hb _ Hk). rewrite Z.eqb_refl. cbn [negb].
  apply IH; try done; [by rewrite Hlo, Hpre|lia].
Qed.

Lemma run_skip_empty N h n l c m :
  repr N fr S -> S !! n = Some (l ++ c :: m) ->
  run (skip_empty NDEBUG fuel (head_or m None)) (World N fr h) =
    Done (Some (head_or m None)) (World N fr h).
Proof.
  intros Hr Hl. pose proof (wf_layer _ _ _ Hwf _ _ Hl) as Hok.
  pose proof (layer_tail_ok _ _ _ _ Hok) as Ht.
  destruct m as [|d m]; [by destruct fuel|]. apply Forall_cons in Ht as [[Hne _] _].
  assert (Hd : rest N d (head_or m None)).
  { rewrite (app_assoc l [c] (d :: m) : l ++ c :: d :: m = _) in Hl. by eapply repr_rest. }
  cbn [head_or]. destruct fuel as [|f]; cbn [skip_empty];
    run_with (run_rest_size N fr h d _ Hd); by destruct (a_elems d).
Qed.

Lemma run_order_nonempty N h c nx d nxd :
  rest N c nx -> rest N d nxd -> a_elems c <> [] -> a_elems d <> [] ->
  (forall x y, x ∈ a_elems c -> y ∈ flat [d] -> x.1 < y.1) ->
  run (if (length (a_elems c) =? 0)%nat then
         let* orphan := is_orphan_seq (a_ptr c) in
         if negb orphan then fail NDEBUG else Ret true
       else
         let* mk := vec_get (a_ptr c) v_max_key in
         let* nf := vec_get (a_ptr d) v_first in
         if nf <? mk then fail NDEBUG else Ret true) (World N fr h) = Done true (World N fr h).
Proof.
  intros Hc Hd Hnc Hnd Hlt.
  destruct (Nat.eqb_spec (length (a_elems c)) 0) as [Hz|_]; [by apply nil_length_inv in Hz|].
  assert (exists mk, kv_last (a_elems c) = Some mk) as [mk Hmk].
  { destruct (a_elems c) as [|e el] using rev_ind; [done|]. exists e.1. unfold kv_last.
    by rewrite last_snoc. }
  assert (Hmax : run (vec_get (a_ptr c) v_max_key) (World N fr h) = Done mk (World N fr h)).
  { eapply run_rest_vec; [exact Hc|]. intros v Hv He. apply v_max_key_spec; [done|congruence]. }
  run_with Hmax. destruct (kv_first_nonempty _ Hnd) as [nf Hnf].
  run_with (run_rest_first N fr h d _ Hd _ Hnf).
  apply kv_last_elem in Hmk as (x & Hx & <-). apply kv_first_elem in Hnf as (y & Hy & <-).
  specialize (Hlt x y Hx). destruct (Z.ltb_spec y.1 x.1); [|done].
  rewrite flat_cons, elem_of_app in Hlt. specialize (Hlt (or_introl Hy)). lia.
Qed.

Lemma run_verify_order N h n l c m :
  repr N fr S -> S !! n = Some (l ++ c :: m) ->
  run (verify_order NDEBUG (a_ptr c) (length (a_elems c)) (head_or m None)) (World N fr h) =
    Done true (World N fr h).
Proof.
  intros Hr Hl. pose proof (wf_layer _ _ _ Hwf _ _ Hl) as Hok.
  destruct m as [|d m]; [done|]. cbn [head_or verify_order].
  assert (Hc : rest N c (Some (a_ptr d))) by (by eapply (repr_rest N fr S n l c (d :: m))).
  assert (Hd : rest N d (head_or m None)).
  { rewrite (app_assoc l [c] (d :: m) : l ++ c :: d :: m = _) in Hl. by eapply repr_rest. }
  destruct (layer_parts _ _ _ _ Hok) as (_ & _ & Hcd & _ & Hsc & _).
  pose proof (layer_tail_ok _ _ _ _ Hok) as Ht. apply Forall_cons in Ht as [[Hne _] _].
  destruct (layer_head_cases _ _ _ _ Hok) as [(_ & _ & Ho)|[_ [Hnec _]]].
  - destruct (decide (a_elems c = [])) as [Hnil|Hnec].
    + rewrite Hnil. cbn [length Nat.eqb]. run_with (run_rest_orphan N fr h c _ Hc). by rewrite Ho.
    + eapply run_order_nonempty; try done.
      intros x y Hx Hy. apply Hcd; [done|]. rewrite flat_cons, elem_of_app in Hy.
      rewrite flat_cons, elem_of_app. destruct Hy as [?|?%elem_of_nil]; [by left|done].
  - eapply run_order_nonempty; try done.
      intros x y Hx Hy. apply Hcd; [done|]. rewrite flat_cons, elem_of_app in Hy.
      rewrite flat_cons, elem_of_app. destruct Hy as [?|?%elem_of_nil]; [by left|done].
Qed.

Lemma run_verify_index_loop h n lo m : forall l c N suf rounds,
  repr N fr S -> S !! Datatypes.S n = Some (l ++ c :: m) -> S !! n = Some lo ->
  traced lo suf (a_elems c ++ flat m) -> (length m < rounds)%nat ->
  exists N', run (verify_index_loop NDEBUG fuel (Some (a_ptr c)) (head_or suf None) rounds)
      (World N fr h) = Done true (World N' fr h) /\ repr N' fr S.
Proof.
  induction m as [|d m IH]; intros l c N suf rounds Hr Hu Hlo Htr Hrd;
    (destruct rounds as [|rounds]; cbn [length] in Hrd; [lia|]); cbn [verify_index_loop];
    (assert (Hc : rest N c (head_or _ None)) by (by eapply repr_rest));
    run_with (run_rest_size N fr h c _ Hc); run_with (run_rest_next N fr h c _ Hc);
    run_with (run_verify_lock N fr h c _ Hc); run_with (run_rest_verify N fr h c _ Hc);
    destruct (run_sort N fr h c _ Hc) as (N1 & Hr1 & Hf1 & Hc1 & Hat); run_with Hr1;
    (assert (Hrep1 : repr N1 fr S) by (by eapply repr_touch));
    (destruct (run_verify_entries N1 h n l c _ lo (length (a_elems c)) 0 suf Hrep1 Hu Hlo Hat)
      as (suf' & Htr' & Hr2); [lia|by rewrite drop_0|]); run_with Hr2;
    run_with (run_skip_empty N1 h _ l c _ Hrep1 Hu);
    run_with (run_verify_order N1 h _ l c _ Hrep1 Hu).
  - exists N1. split; [|done]. by destruct rounds.
  - cbn [head_or]. rewrite flat_cons in Htr'.
    rewrite (app_assoc l [c] (d :: m) : l ++ c :: d :: m = _) in Hu.
    apply (IH (l ++ [c]) d N1 suf' rounds); try done. lia.
Qed.

Lemma traced_init n lo lu :
  S !! n = Some lo -> S !! Datatypes.S n = Some lu -> traced lo lo (flat lu).
Proof.
  intros Hlo Hlu. split; [by exists []|]. split.
  - intros b k Hb Ho Hk. by apply (wf_parent _ _ _ Hwf n lo).
  - intros e He. destruct (wf_entry _ _ _ Hwf _ _ e Hlu He) as (m & b & Hm & Hb & H).
    rewrite Hlo in Hm. injection Hm as <-. by exists b.
Qed.

Lemma run_verify_index N h n :
  repr N fr S -> (Datatypes.S n < layers)%nat ->
  exists N', run (verify_index MAX_LAYERS NDEBUG fuel n (Head n)) (World N fr h) =
      Done true (World N' fr h) /\ repr N' fr S.
Proof.
  intros Hr Hn.
  destruct (lookup_lt_is_Some_2 S n) as [lo Hlo]; [rewrite (wf_len _ _ _ Hwf); lia|].
  destruct (lookup_lt_is_Some_2 S (Datatypes.S n)) as [lu Hlu]; [rewrite (wf_len _ _ _ Hwf); lia|].
  pose proof (traced_init n lo lu Hlo Hlu) as Htr.
  destruct (lo_head _ _ (wf_layer _ _ _ Hwf _ _ Hlo)) as (a & lo' & -> & Hpa & _).
  destruct (lo_head _ _ (wf_layer _ _ _ Hwf _ _ Hlu)) as (c & lu' & -> & Hpc & _).
  unfold verify_index. run_with (run_index_head MAX_LAYERS t N fr n h ltac:(lia)).
  rewrite <- Hpa, <- Hpc.
  apply (run_verify_index_loop h n (a :: lo') lu' [] c N (a :: lo') fuel); try done.
  specialize (Hfuel _ _ Hlu). cbn in Hfuel. lia.
Qed.

Lemma run_verify_layers h layer : forall N,
  repr N fr S -> (layer < layers)%nat ->
  exists N', run (verify_layers MAX_LAYERS NDEBUG fuel layer) (World N fr h) =
      Done tt (World N' fr h) /\ repr N' fr S.
Proof.
  induction layer as [|layer IH]; intros N Hr Hl; [by exists N|]. cbn [verify_layers].
  destruct (run_verify_index N h layer Hr ltac:(lia)) as (N1 & Hr1 & Hrep1).
  assert (Hrun : run (if (Datatypes.S layer =? 1)%nat
                      then verify_index MAX_LAYERS NDEBUG fuel layer directory_head
                      else let* hd := index_head MAX_LAYERS (Datatypes.S layer - 2) in
                           verify_index MAX_LAYERS NDEBUG fuel layer hd) (World N fr h) =
                 Done true (World N1 fr h)).
  { destruct (Nat.eqb_spec (Datatypes.S layer) 1) as [He|Hne].
    - assert (layer = 0%nat) as -> by lia. exact Hr1.
    - run_with (run_index_head MAX_LAYERS t N fr (Datatypes.S layer - 2) h ltac:(lia)).
      replace (Datatypes.S (Datatypes.S layer - 2)) with layer by lia. exact Hr1. }
  run_with Hrun. apply IH; [done|lia].
Qed.

Lemma run_verify_data_loop N h m : forall l c rounds,
  repr N fr S -> S !! 0%nat = Some (l ++ c :: m) -> (length m < rounds)%nat ->
  run (verify_data_loop NDEBUG fuel (Some (a_ptr c)) rounds) (World N fr h) =
    Done true (World N fr h).
Proof.
  induction m as [|d m IH]; intros l c rounds Hr Hu Hrd;
    (destruct rounds as [|rounds]; cbn [length] in Hrd; [lia|]); cbn [verify_data_loop];
    (assert (Hc : rest N c (head_or _ None)) by (by eapply repr_rest));
    run_with (run_rest_size N fr h c _ Hc); run_with (run_rest_next N fr h c _ Hc);
    run_with (run_verify_lock N fr h c _ Hc); run_with (run_rest_verify N fr h c _ Hc);
    run_with (run_skip_empty N h _ l c _ Hr Hu);
    run_with (run_verify_order N h _ l c _ Hr Hu).
  - by destruct rounds.
  - cbn [head_or]. rewrite (app_assoc l [c] (d :: m) : l ++ c :: d :: m = _) in Hu.
    apply (IH (l ++ [c])); try done. lia.
Qed.

Lemma run_verify N h :
  repr N fr S -> Manager.mgr_count_reserved h = O ->
  exists N', run (verify MAX_LAYERS layers NDEBUG fuel) (World N fr h) =
      Done true (World N' fr h) /\ repr N' fr S.
Proof.
  intros Hr Hh. unfold verify.
  assert (Hc : run hp_count_reserved (World N fr h) = Done 0%nat (World N fr h)).
  { change (Done (S:=world ADDR (remote ADDR) vec) (Manager.mgr_count_reserved h) (World N fr h) =
            Done 0%nat (World N fr h)). by rewrite Hh. }
  run_with Hc. cbn [Nat.eqb negb].
  destruct (run_verify_layers h (layers - 1) N Hr ltac:(lia)) as (N1 & Hr1 & Hrep1).
  run_with Hr1. exists N1. split; [|done].
  destruct (lookup_lt_is_Some_2 S 0) as [l0 Hl0]; [rewrite (wf_len _ _ _ Hwf); lia|].
  destruct (lo_head _ _ (wf_layer _ _ _ Hwf _ _ Hl0)) as (a & l' & -> & Hp & _).
  unfold directory_head. rewrite <- Hp.
  apply (run_verify_data_loop N1 h l' [] a fuel); try done.
  specialize (Hfuel _ _ Hl0). cbn in Hfuel. lia.
Qed.
End Quiet.

(** ** The walks *)

(** A fold over a chain at rest, by a step that only looks. *)
Lemma run_walk {A} N fr h (f : ptr -> A -> mem ADDR (remote ADDR) vec A) (g : A -> anode -> A) l :
  (forall a nx acc, rest N a nx -> run (f (a_ptr a) acc) (World N fr h) = Done (g acc a) (World N fr h)) ->
  forall fuel acc, seg N l None -> (length l <= fuel)%nat ->
  run (walk fuel f (head_or l None) acc) (World N fr h) = Done (fold_left g l acc) (World N fr h).
Proof.
  intros Hf. induction l as [|a l IH]; intros fuel acc Hs Hlen; [by destruct fuel|].
  destruct fuel as [|fuel]; cbn [length] in Hlen; [lia|]. destruct Hs as [Ha Hs].
  cbn [head_or walk fold_left]. run_with (Hf a _ acc Ha). run_with (run_rest_next N fr h a _ Ha).
  apply IH; [done|lia].
Qed.

(** A walk of a layer, from its head. *)
Lemma run_layer_walk {A} N fr h S fuel n l (f : ptr -> A -> mem ADDR (remote ADDR) vec A) (g : A -> anode -> A) acc :
  (forall a nx acc, rest N a nx -> run (f (a_ptr a) acc) (World N fr h) = Done (g acc a) (World N fr h)) ->
  inv layers None N fr S -> enough fuel S -> S !! n = Some l ->
  run (walk fuel f (Some (Head n)) acc) (World N fr h) = Done (fold_left g l acc) (World N fr h).
Proof.
  intros Hf [Hwf Hr] Hfuel Hl.
  assert (Hh : Some (Head n) = head_or l None).
  { destruct (lo_head _ _ (wf_layer _ _ _ Hwf _ _ Hl)) as (a & m & -> & Hp & _). cbn. congruence. }
  rewrite Hh. apply run_walk; [done|by eapply r_seg|by apply (Hfuel n)].
Qed.

Lemma run_layer_head N fr h n :
  (n < layers)%nat -> run (layer_head MAX_LAYERS n) (World N fr h) = Done (Head n) (World N fr h).
Proof.
  intros Hn. unfold layer_head. destruct (Nat.eqb_spec n 0) as [->|Hne]; [done|].
  rewrite (run_index_head MAX_LAYERS t N fr (n - 1) h) by lia. do 2 f_equal. lia.
Qed.

(** What [for_each_node] reports of a node. *)
Definition summary a : Z * bool * nat :=
  (default 0 (kv_first (a_elems a)), a_orphan a, length (a_elems a)).

Lemma run_for_each_node N fr h S fuel n l :
  inv layers None N fr S -> enough fuel S -> S !! n = Some l ->
  run (for_each_node MAX_LAYERS fuel n) (World N fr h) = Done (map summary l) (World N fr h).
Proof.
  intros Hinv Hfuel Hl. unfold for_each_node.
  assert (Hn : (n < layers)%nat) by (rewrite <- (wf_len _ _ _ (proj1 Hinv)); by eapply lookup_lt_Some).
  run_with (run_layer_head N fr h n Hn).
  rewrite (run_layer_walk N fr h S fuel n l _ (fun acc a => acc ++ [summary a])); try done.
  - f_equal. assert (Hfold : forall l acc, fold_left (fun acc a => acc ++ [summary a]) l acc = acc ++ map summary l).
    { intros l0. induction l0 as [|a l0 IH]; intros acc; cbn; [by rewrite app_nil_r|]. by rewrite IH, <- app_assoc. }
    apply Hfold.
  - intros a nx acc Ha. run_with (run_rest_size N fr h a _ Ha). unfold summary.
    destruct (a_elems a) as [|[k x] el] eqn:He; cbn [length Nat.ltb Nat.leb].
    + assert (H0 : run (Ret 0) (World N fr h) = Done 0 (World N fr h)) by done. run_with H0.
      run_with (run_rest_orphan N fr h a _ Ha). run_with (run_rest_size N fr h a _ Ha). by rewrite He.
    + run_with (run_rest_first N fr h a _ Ha k ltac:(by rewrite He)).
      run_with (run_rest_orphan N fr h a _ Ha). run_with (run_rest_size N fr h a _ Ha). by rewrite He.
Qed.

Lemma run_node_count N fr h S fuel n l :
  inv layers None N fr S -> enough fuel S -> S !! n = Some l ->
  run (node_count MAX_LAYERS fuel n) (World N fr h) = Done (length l) (World N fr h).
Proof.
  intros Hinv Hfuel Hl. unfold node_count.
  assert (Hn : (n < layers)%nat) by (rewrite <- (wf_len _ _ _ (proj1 Hinv)); by eapply lookup_lt_Some).
  run_with (run_layer_head N fr h n Hn).
  rewrite (run_layer_walk N fr h S fuel n l _ (fun (z : nat) _ => Datatypes.S z)); try done.
  f_equal. clear. enough (forall z : nat, fold_left (fun (z : nat) _ => Datatypes.S z) l z = (length l + z)%nat) as H
    by (rewrite H; lia).
  induction l as [|a l IH]; intros z; cbn; [done|]. rewrite IH. lia.
Qed.

Lemma run_get_size_all N fr h S fuel l :
  inv layers None N fr S -> enough fuel S -> S !! 0%nat = Some l ->
  run (get_size_all fuel) (World N fr h) = Done (length (flat l)) (World N fr h).
Proof.
  intros Hinv Hfuel Hl. unfold get_size_all, directory_head.
  rewrite (run_layer_walk N fr h S fuel 0 l _ (fun (z : nat) a => (z + length (a_elems a))%nat)); try done.
  - f_equal. clear. enough (forall z : nat, fold_left (fun (z : nat) a => (z + length (a_elems a))%nat) l z = (length (flat l) + z)%nat) as H
      by (rewrite H; lia).
    induction l as [|a l IH]; intros z; [done|]. cbn [fold_left]. rewrite IH, flat_cons, length_app. lia.
  - intros a nx z Ha. by run_with (run_rest_size N fr h a _ Ha).
Qed.
End Check.
