(* ===== verification/DiscoSeq.v ===== *)
(** * DiscoSeq: construction, bootstrap, and sequences of operations

    The constructor builds a well-formed empty cache, the bootstrap sets the
    heads' addresses, and any sequence of operations keeps the cache well
    formed: its answers are those of [spec_run], a sorted list of routing
    entries with insert-if-absent and last-entry-at-or-below lookup. *)

From Stdlib Require Import QArith.
From S2P Require Import Prelude KvList Prog SvLock VecSpec HazardPtr World Layers Heap DiscoNode.
From S2P Require Import DiscoOps DiscoDescent DiscoUpdate DiscoMirror DiscoMaint DiscoCheck.

Local Open Scope Z_scope.

(** ** Tagging the entries of the directory *)

Section Tag.
Context {D : Type}.
Implicit Types (l : list (Z * D)).

Definition tag (e : Z * D) : Z * value D := (e.1, VData e.2).

Lemma kv_lookup_tag k l : kv_lookup k (map tag l) = VData <$> kv_lookup k l.
Proof. exact (kv_lookup_vmap VData k l). Qed.

Lemma kv_add_tag k x l : kv_add k (VData x) (map tag l) = map tag (kv_add k x l).
Proof.
  unfold kv_add. rewrite kv_lookup_tag. destruct (kv_lookup k l); [done|].
  exact (kv_insert_vmap VData k x l).
Qed.

Lemma kv_lte_tag k l : kv_lte k (map tag l) = tag <$> kv_lte k l.
Proof. exact (kv_lte_vmap VData k l). Qed.
End Tag.

(** ** The abstract cache *)

Section Spec.
Context {ADDR : Type} (null : ADDR).

Inductive op :=
| OReconcile (data_k_min : Z) (data_addr : ADDR) (path : list (path_step ADDR)) (levels : nat)
| OInsert (k : Z) (height : nat) (data_addr : ADDR) (index_addrs : list ADDR)
| OLocate (k : Z)
| OVerify.

Inductive answer := AUnit | AAddr (a : ADDR) | ABool (b : bool).

(** The routing entries are a sorted list. *)
Definition spec_locate (d : list (Z * ADDR)) (k : Z) : ADDR :=
  match kv_lte k d with Some (_, a) => a | None => null end.

Definition spec_op (d : list (Z * ADDR)) (o : op) : answer * list (Z * ADDR) :=
  match o with
  | OReconcile dk da path levels =>
      let d' := kv_add dk da d in
      (AUnit, match take levels path with
              | [] => d'
              | p0 :: _ => kv_add (ps_k_min p0) (ps_first_down p0) d'
              end)
  | OInsert k _ da _ => (AUnit, kv_add k da d)
  | OLocate k => (AAddr (spec_locate d k), d)
  | OVerify => (ABool true, d)
  end.

Fixpoint spec_run (d : list (Z * ADDR)) (ops : list op) : list answer :=
  match ops with
  | [] => []
  | o :: ops' => let '(r, d') := spec_op d o in r :: spec_run d' ops'
  end.

(** What the callers guarantee: the arrays are as long as they say. *)
Definition op_ok (layers : nat) (o : op) : Prop :=
  match o with
  | OReconcile _ _ path levels => (levels <= length path)%nat
  | OInsert _ height _ addrs => (1 <= height <= layers)%nat /\ (layers <= length addrs)%nat
  | _ => True
  end.
End Spec.

Arguments op ADDR : clear implicits.
Arguments answer ADDR : clear implicits.

Section Seq.
Context {ADDR : Type} (null : ADDR) {vec : Type -> Type}.
Context `{HV : VecOps vec} `{HS : !VecSpec vec} `{HSA : !VecSplitAt vec}.
Context `{HSAS : !VecSplitAtSpec vec}.
Context (IDX_EXP DATA_EXP : Z) (MAX_LAYERS layers ZCAP t : nat) (NDEBUG : bool).
Context (junk : Z * value ADDR).
Context (Hlayers : (2 <= layers <= MAX_LAYERS)%nat).

Local Abbreviation node := (node ADDR (remote ADDR) vec).
Local Abbreviation anode := (anode ADDR (remote ADDR)).
Local Abbreviation mem := (mem ADDR (remote ADDR) vec).
Local Abbreviation run := (run (handle (D:=ADDR) (X:=remote ADDR) (vec:=vec) t)).
Implicit Types (N : gmap ptr node) (fr : positive) (h : mgr_t) (fuel : nat).
Implicit Types (S : list (list anode)).

(** ** Construction *)

Definition new_head (n : nat) : anode := ANode (Head n) true (Remote null 0) [].
Definition new_layers : list (list anode) := map (fun n => [new_head n]) (seq 0 layers).

Lemma new_layers_lookup n l :
  new_layers !! n = Some l <-> l = [new_head n] /\ (n < layers)%nat.
Proof.
  unfold new_layers. rewrite list_lookup_fmap_Some. split.
  - intros (m & -> & [-> Hm]%lookup_seq). done.
  - intros [-> Hn]. exists n. split; [done|]. by apply lookup_seq.
Qed.

Lemma heads_lookup n :
  (n < MAX_LAYERS)%nat -> heads (vec:=vec) null MAX_LAYERS junk !! Head n = Some (node_head null junk).
Proof.
  intros Hn. unfold heads. apply elem_of_list_to_map_1.
  - rewrite <- list_fmap_compose. apply NoDup_fmap_2; [by intros ?? [=]|apply NoDup_seq].
  - apply list_elem_of_fmap. exists n. split; [done|]. apply elem_of_seq. lia.
Qed.

Lemma heads_heap n : heads (vec:=vec) null MAX_LAYERS junk !! Heap n = None.
Proof.
  unfold heads. apply not_elem_of_list_to_map_1. rewrite <- list_fmap_compose.
  intros (m & [=] & _)%list_elem_of_fmap.
Qed.

Lemma ptrs_new p : p ∈ ptrs new_layers <-> exists n, p = Head n /\ (n < layers)%nat.
Proof.
  unfold ptrs. rewrite list_elem_of_bind. split.
  - intros (l & Hp & Hl). apply list_elem_of_lookup in Hl as [n Hn].
    apply new_layers_lookup in Hn as [-> Hn]. apply list_elem_of_singleton in Hp as ->.
    by exists n.
  - intros (n & -> & Hn). exists [new_head n]. split; [by apply list_elem_of_singleton|].
    apply list_elem_of_lookup. exists n. by apply new_layers_lookup.
Qed.

Lemma inv_new : inv layers None (heads (vec:=vec) null MAX_LAYERS junk) 1%positive new_layers.
Proof.
  split; split.
  - unfold new_layers. by rewrite length_map, length_seq.
  - intros n l [-> Hn]%new_layers_lookup. split.
    + exists (new_head n), []. by split_and!.
    + apply kv_sorted_nil.
  - intros n l e [-> Hn]%new_layers_lookup He. by apply elem_of_nil in He.
  - intros n m l b k [-> Hn]%new_layers_lookup _ Hb%list_elem_of_singleton. subst b. done.
  - intros n l [-> Hn]%new_layers_lookup. split; [|done]. exists 0.
    destruct (v_new_spec (V:=value ADDR) junk) as [Hvn Hve].
    exists (v_new junk). change (a_ptr (new_head n)) with (Head n). rewrite heads_lookup by lia. split_and!; [done|unfold alock_ok; cbn; lia|done|done].
  - assert (Hp : ptrs new_layers = map Head (seq 0 layers)).
    { unfold ptrs, new_layers. generalize (seq 0 layers).
      intros l. induction l as [|n l IH]; [done|]. cbn. by rewrite IH. }
    rewrite Hp. apply NoDup_fmap_2; [by intros ?? [=]|apply NoDup_seq].
  - intros n. rewrite heads_heap, ptrs_new. split; [by intros [? ?]|by intros (? & [=] & _)].
  - intros n (? & [=] & _)%ptrs_new.
Qed.

(** ** Bootstrap *)

(** Only the plain fields of one node change. *)
Lemma inv_ext N N' fr S L l a m e :
  inv layers None N fr S -> S !! L = Some (l ++ a :: m) -> frame [a_ptr a] N N' ->
  rest N' (ANode (a_ptr a) (a_orphan a) e (a_elems a)) (head_or m None) ->
  inv layers None N' fr
    (<[L := l ++ ANode (a_ptr a) (a_orphan a) e (a_elems a) :: m]> S).
Proof.
  intros [Hw Hr] HL Hf Ha. set (a' := ANode _ _ _ _) in *.
  pose proof (wf_layer _ _ _ Hw _ _ HL) as Hok.
  change (a' :: m) with (a' :: [] ++ m). split.
  - eapply wf_replace; try done.
    + intros Hl. destruct (layer_head_cases _ _ _ _ Hok) as [(? & _)|[_ [Hne _]]]; done.
    + pose proof (lo_sorted _ _ Hok) as Hs. by rewrite flat_app in *.
    + intros x Hx. cbn. by rewrite app_nil_r.
    + intros x Hx. cbn in Hx. rewrite app_nil_r in Hx. by left.
    + by intros b ?%elem_of_nil.
  - eapply repr_replace; try done.
    + intros p Hp _. apply Hf. ptrs_solve.
    + apply NoDup_nil_2.
    + by intros b ?%elem_of_nil.
Qed.

(** The same nodes with the same entries, the plain fields aside. *)
Definition same_content S S' : Prop :=
  forall n, map a_elems <$> S' !! n = map a_elems <$> S !! n.

Lemma same_content_dir S S' : same_content S S' -> dir S' = dir S.
Proof.
  intros H. specialize (H 0%nat). unfold dir.
  destruct (S !! 0%nat) as [l|], (S' !! 0%nat) as [l'|]; cbn in *; try done.
  injection H as H. unfold flat. cbn. revert l' H.
  induction l as [|a l IH]; intros [|a' l'] H; cbn in *; try done.
  injection H as -> H. by rewrite (IH l').
Qed.

Lemma same_content_room d fuel S S' : same_content S S' -> room d fuel S -> room d fuel S'.
Proof.
  intros H Hr n l' Hl'. specialize (H n). rewrite Hl' in H.
  destruct (S !! n) as [l|] eqn:Hl; [|done]. cbn in H. injection H as H.
  rewrite <- (length_map a_elems l'), H, length_map. by apply (Hr n).
Qed.

(** The address of the head of a layer. *)
Definition head_addr S (n : nat) : option ADDR :=
  l ← S !! n; a ← head l; Some (remote_addr (a_ext a)).

Lemma run_set_head N fr h S n a :
  inv layers None N fr S -> (n < layers)%nat ->
  exists N' S',
    run (let* r := trigger (ELoadExt (Head n)) in
         trigger (EStoreExt (Head n) (Remote a (cached_struct_ver r)))) (World N fr h) =
      Done tt (World N' fr h) /\
    inv layers None N' fr S' /\ same_content S S' /\
    forall i, head_addr S' i = if decide (i = n) then Some a else head_addr S i.
Proof.
  intros Hinv Hn. destruct (inv_head MAX_LAYERS layers Hlayers None N fr S Hinv n Hn) as (b & m & Hl & Hp).
  assert (Hb : rest N b (head_or m None)).
  { destruct Hinv as [_ Hr]. by apply (repr_rest N fr S n [] b m). }
  destruct Hb as (c & Hb). rewrite <- Hp. run_with (run_load_ext t N fr h _ _ _ _ _ Hb).
  destruct (run_store_ext t N fr h _ _ _ _ _ Hb (Remote a (cached_struct_ver (a_ext b))))
    as (n' & Hr & Hb').
  set (b' := ANode (a_ptr b) (a_orphan b) (Remote a (cached_struct_ver (a_ext b))) (a_elems b)).
  exists (<[a_ptr b := n']> N), (<[n := b' :: m]> S). split_and!; [done| | |].
  - apply (inv_ext N _ fr S n [] b m); try done; [apply frame_insert|]. by exists c.
  - intros i. destruct (decide (i = n)) as [->|Hi].
    + rewrite list_lookup_insert_eq by (by eapply lookup_lt_Some). by rewrite Hl.
    + by rewrite list_lookup_insert_ne.
  - intros i. unfold head_addr. case_decide as Hi.
    + subst i. rewrite list_lookup_insert_eq by (by eapply lookup_lt_Some). done.
    + by rewrite list_lookup_insert_ne.
Qed.

Lemma same_content_trans S1 S2 S3 : same_content S1 S2 -> same_content S2 S3 -> same_content S1 S3.
Proof. intros H1 H2 n. by rewrite H2. Qed.

Lemma run_set_index_heads addrs fr h n : forall i N S,
  inv layers None N fr S -> (1 <= i)%nat -> (i + n <= layers)%nat -> (i + n <= length addrs)%nat ->
  exists N' S', run (set_index_heads MAX_LAYERS n i addrs) (World N fr h) = Done tt (World N' fr h) /\
    inv layers None N' fr S' /\ same_content S S' /\
    forall j, head_addr S' j = if decide (i <= j < i + n)%nat then addrs !! j else head_addr S j.
Proof.
  induction n as [|n IH]; intros i N S Hinv Hi Hn Ha.
  { exists N, S. split_and!; try done. intros j. by rewrite decide_False by lia. }
  cbn [set_index_heads]. run_with (run_index_head MAX_LAYERS t N fr (i - 1) h ltac:(lia)).
  replace (Datatypes.S (i - 1)) with i by lia.
  destruct (lookup_lt_is_Some_2 addrs i) as [a Hai]; [lia|]. rewrite Hai.
  assert (Hla : run (lift_opt (Some a)) (World N fr h) = Done a (World N fr h)) by done. run_with Hla.
  destruct (run_set_head N fr h S i a Hinv ltac:(lia)) as (N1 & S1 & Hr1 & Hinv1 & Hsc1 & Hh1).
  destruct (IH (Datatypes.S i) N1 S1 Hinv1) as (N2 & S2 & Hr2 & Hinv2 & Hsc2 & Hh2); [lia..|].
  exists N2, S2. split_and!; [|done|by eapply same_content_trans|].
  - rewrite <- run_bind_assoc. run_with Hr1. exact Hr2.
  - intros j. rewrite Hh2, Hh1.
    destruct (decide (j = i)) as [->|Hj]; repeat case_decide; try done; lia.
Qed.

Lemma run_set_head_remote_addrs N fr h S addrs :
  inv layers None N fr S -> (layers <= length addrs)%nat ->
  exists N' S',
    run (set_head_remote_addrs MAX_LAYERS layers false addrs) (World N fr h) =
      Done true (World N' fr h) /\
    inv layers None N' fr S' /\ same_content S S' /\
    forall n, (n < layers)%nat -> head_addr S' n = addrs !! n.
Proof.
  intros Hinv Ha. unfold set_head_remote_addrs.
  run_with (run_passert t (negb false) N fr h eq_refl).
  destruct (lookup_lt_is_Some_2 addrs 0) as [a Ha0]; [lia|]. rewrite Ha0.
  assert (Hla : run (lift_opt (Some a)) (World N fr h) = Done a (World N fr h)) by done. run_with Hla.
  destruct (run_set_head N fr h S 0 a Hinv ltac:(lia)) as (N1 & S1 & Hr1 & Hinv1 & Hsc1 & Hh1).
  destruct (run_set_index_heads addrs fr h (layers - 1) 1 N1 S1 Hinv1)
    as (N2 & S2 & Hr2 & Hinv2 & Hsc2 & Hh2); [lia..|].
  exists N2, S2. split_and!; [|done|by eapply same_content_trans|].
  - unfold directory_head. rewrite <- run_bind_assoc. run_with Hr1. by run_with Hr2.
  - intros n Hn. rewrite Hh2, Hh1. destruct n as [|n].
    + rewrite decide_False by lia. by rewrite decide_True.
    + by rewrite decide_True by lia.
Qed.

(** ** Sequences of operations *)

Definition exec_op fuel (o : op ADDR) : mem (answer ADDR) :=
  match o with
  | OReconcile dk da path levels =>
      mirror_reconcile null MAX_LAYERS layers ZCAP junk fuel dk da path levels ;;; Ret AUnit
  | OInsert k height da addrs =>
      mirror_insert null MAX_LAYERS layers ZCAP junk fuel k height da addrs ;;; Ret AUnit
  | OLocate k => let* a := locate_data null MAX_LAYERS layers ZCAP fuel k in Ret (AAddr a)
  | OVerify => let* b := verify MAX_LAYERS layers NDEBUG fuel in Ret (ABool b)
  end.

Fixpoint exec_ops fuel (ops : list (op ADDR)) : mem (list (answer ADDR)) :=
  match ops with
  | [] => Ret []
  | o :: ops' => let* r := exec_op fuel o in let* rs := exec_ops fuel ops' in Ret (r :: rs)
  end.

(** The most nodes one operation adds to a layer. *)
Definition op_cost : nat := 2 * layers + 4.

Lemma route_dir fr N S k d :
  inv layers None N fr S -> dir S = map tag d -> route null S k = spec_locate null d k.
Proof.
  intros _ Hd. unfold route, spec_locate. fold (dir S). rewrite Hd, kv_lte_tag.
  by destruct (kv_lte k d) as [[k' a]|].
Qed.

Lemma run_exec_op N fr h S fuel o d :
  inv layers None N fr S -> hps_idle t h -> room op_cost fuel S -> op_ok layers o ->
  dir S = map tag d ->
  exists N' fr' h' S', run (exec_op fuel o) (World N fr h) =
      Done (spec_op null d o).1 (World N' fr' h') /\
    inv layers None N' fr' S' /\ hps_idle t h' /\ spends op_cost fuel S S' /\
    dir S' = map tag (spec_op null d o).2.
Proof.
  intros Hinv Hh Hroom Hok Hd. assert (Hen : enough fuel S) by (by eapply room_enough).
  assert (Hspend0 : spends op_cost fuel S S) by (eapply spends_mono; [apply Nat.le_0_l|apply spends_refl]).
  destruct o as [dk da path levels|k height da addrs|k|]; cbn [exec_op spec_op fst snd].
  - destruct (run_mirror_reconcile null MAX_LAYERS layers ZCAP t junk Hlayers N fr S h fuel dk da path levels
                Hinv Hh Hroom Hok) as (N' & fr' & h' & S' & Hr & Hh' & Hi & Hs & Hd').
    run_with Hr. exists N', fr', h', S'. split_and!; try done; [by apply hps_idle_none|].
    rewrite Hd', Hd. destruct (take levels path) as [|p0 p]; cbn; by rewrite !kv_add_tag.
  - destruct Hok as [Hht Hlen].
    destruct (run_mirror_insert null MAX_LAYERS layers ZCAP t junk Hlayers N fr S h fuel k height da addrs
                Hinv Hh Hroom Hht Hlen) as (N' & fr' & h' & S' & Hr & Hh' & Hi & Hs & Hd').
    run_with Hr. exists N', fr', h', S'. split_and!; try done; [by apply hps_idle_none|]. by rewrite Hd', Hd, kv_add_tag.
  - destruct (run_locate_data null MAX_LAYERS layers ZCAP t Hlayers None N fr S Hinv fuel Hen k h Hh)
      as (h' & Hr & Hh').
    run_with Hr. exists N, fr, h', S. split_and!; try done; [|by apply hps_idle_none]. cbn. by erewrite route_dir.
  - destruct Hinv as [Hw Hrep].
    destruct (run_verify MAX_LAYERS layers t NDEBUG Hlayers fr S Hw fuel Hen N h Hrep (proj1 (hps_idle_quiet _ _ Hh))) as (N' & Hr & Hrep').
    run_with Hr. by exists N', fr, h, S.
Qed.

Lemma run_exec_ops fuel ops : forall N fr h S d,
  inv layers None N fr S -> hps_idle t h -> room (op_cost * length ops) fuel S ->
  Forall (op_ok layers) ops -> dir S = map tag d ->
  exists N' fr' h' S', run (exec_ops fuel ops) (World N fr h) =
      Done (spec_run null d ops) (World N' fr' h') /\
    inv layers None N' fr' S' /\ hps_idle t h' /\ enough fuel S'.
Proof.
  induction ops as [|o ops IH]; intros N fr h S d Hinv Hh Hroom Hok Hd.
  { exists N, fr, h, S. split_and!; try done. by eapply room_enough. }
  apply Forall_cons in Hok as [Ho Hok]. cbn [length] in Hroom.
  destruct (run_exec_op N fr h S fuel o d Hinv Hh) as (N1 & fr1 & h1 & S1 & Hr1 & Hi1 & Hh1 & Hs1 & Hd1);
    [eapply room_mono; [|exact Hroom]; lia|done|done|].
  destruct (IH N1 fr1 h1 S1 (spec_op null d o).2 Hi1 Hh1) as (N2 & fr2 & h2 & S2 & Hr2 & Hrest);
    [apply Hs1; eapply room_mono; [|exact Hroom]; lia|done|done|].
  exists N2, fr2, h2, S2. split; [|done]. cbn [exec_ops spec_run].
  run_with Hr1. run_with Hr2. by destruct (spec_op null d o).
Qed.
End Seq.
