(* ===== verification/DiscoTear.v ===== *)
(** * DiscoTear: the destructor frees every node once

    The destructor deletes each layer from its second node on; the heads are
    members of the object.  In a well-formed memory no deletion fails, and no
    allocated node is left. *)

From Stdlib Require Import QArith.
From S2P Require Import Prelude KvList Prog SvLock VecSpec HazardPtr World Layers Heap DiscoNode.
From S2P Require Import DiscoOps DiscoDescent DiscoUpdate DiscoMaint DiscoCheck.

Local Open Scope Z_scope.

Section Tear.
Context {ADDR : Type} {vec : Type -> Type} `{HV : VecOps vec} `{HS : !VecSpec vec}.
Context (MAX_LAYERS layers t : nat).
Context (Hlayers : (2 <= layers <= MAX_LAYERS)%nat).

Local Abbreviation node := (node ADDR (remote ADDR) vec).
Local Abbreviation anode := (anode ADDR (remote ADDR)).
Local Abbreviation run := (run (handle (D:=ADDR) (X:=remote ADDR) (vec:=vec) t)).
Implicit Types (N : gmap ptr node) (fr : positive) (h : mgr_t) (fuel : nat) (dead : list ptr).
Implicit Types (a : anode) (l m : list anode) (S : list (list anode)).

(** [N'] is [N] without the nodes of [dead]. *)
Definition without dead N N' : Prop :=
  forall p, N' !! p = if decide (p ∈ dead) then None else N !! p.

Lemma without_nil N : without [] N N.
Proof. intros p. by rewrite decide_False by apply not_elem_of_nil. Qed.

Lemma without_app dead1 dead2 N1 N2 N3 :
  without dead1 N1 N2 -> without dead2 N2 N3 -> without (dead1 ++ dead2) N1 N3.
Proof.
  intros H1 H2 p. rewrite H2, H1. destruct (decide (p ∈ dead1 ++ dead2)) as [Hin|Hout].
  - apply elem_of_app in Hin as [Hin|Hin].
    + by repeat case_decide.
    + by rewrite decide_True.
  - rewrite not_elem_of_app in Hout. by rewrite !decide_False by tauto.
Qed.

Lemma seg_without dead N N' l nx :
  without dead N N' -> (forall a, a ∈ l -> a_ptr a ∉ dead) -> seg N l nx -> seg N' l nx.
Proof. intros Hw Hd. apply seg_frame. intros a Ha. rewrite Hw. by rewrite decide_False by auto. Qed.

Lemma run_delete_chain fr h m : forall N fuel,
  seg N m None -> NoDup (map a_ptr m) -> (length m <= fuel)%nat ->
  exists N', run (delete_chain fuel (head_or m None)) (World N fr h) = Done tt (World N' fr h) /\
    without (map a_ptr m) N N'.
Proof.
  induction m as [|a m IH]; intros N fuel Hs Hnd Hf.
  { exists N. split; [by destruct fuel|apply without_nil]. }
  destruct fuel as [|fuel]; cbn [length] in Hf; [lia|]. cbn [head_or delete_chain].
  destruct Hs as [Ha Hs]. run_with (run_rest_next t N fr h a _ Ha).
  assert (Hd : run (trigger (EDelete (a_ptr a))) (World N fr h) =
               Done tt (World (delete (a_ptr a) N) fr h)).
  { destruct Ha as (c & v & Hv & _). cbn. by rewrite Hv. }
  run_with Hd. cbn [map] in Hnd. apply NoDup_cons in Hnd as [Hna Hnd].
  assert (Hw : without [a_ptr a] N (delete (a_ptr a) N)).
  { intros p. case_decide as Hp.
    - apply list_elem_of_singleton in Hp as ->. apply lookup_delete_eq.
    - rewrite list_elem_of_singleton in Hp. by rewrite lookup_delete_ne by congruence. }
  destruct (IH (delete (a_ptr a) N) fuel) as (N' & Hr & Hw'); [|done|lia|].
  - eapply seg_without; [exact Hw| |exact Hs]. intros b Hb Hin.
    apply list_elem_of_singleton in Hin. apply Hna. rewrite <- Hin. by apply list_elem_of_fmap_2.
  - exists N'. split; [done|]. cbn [map]. by apply (without_app [a_ptr a] (map a_ptr m) N (delete (a_ptr a) N)).
Qed.

(** Everything but the head of a layer. *)
Definition tail_ptrs S (i : nat) : list ptr := map a_ptr (tail (default [] (S !! i))).

Section State.
Context (S : list (list anode)) (Hwf : wf layers None S).
Context (N0 : gmap ptr node) (fr : positive) (Hrep : repr N0 fr S).
Context (fuel : nat) (Hfuel : enough fuel S).

Lemma layer_split i :
  (i < layers)%nat -> exists a m, S !! i = Some (a :: m) /\ a_ptr a = Head i /\
    Forall body_ok m /\ tail_ptrs S i = map a_ptr m.
Proof.
  intros Hi. destruct (lookup_lt_is_Some_2 S i) as [l Hl]; [rewrite (wf_len _ _ _ Hwf); lia|].
  destruct (lo_head _ _ (wf_layer _ _ _ Hwf _ _ Hl)) as (a & m & -> & Hp & _ & Hb).
  exists a, m. split_and!; try done. unfold tail_ptrs. by rewrite Hl.
Qed.

Lemma tail_heap i p : (i < layers)%nat -> p ∈ tail_ptrs S i -> is_heap p.
Proof.
  intros Hi. destruct (layer_split i Hi) as (a & m & _ & _ & Hb & ->).
  intros (b & -> & Hin)%list_elem_of_fmap. rewrite Forall_forall in Hb. by apply Hb.
Qed.

(** Nodes of different layers are different. *)
Lemma tail_other i j p :
  (i < layers)%nat -> (j < layers)%nat -> i <> j -> p ∈ tail_ptrs S i -> p ∉ tail_ptrs S j.
Proof.
  intros Hi Hj Hij. destruct (layer_split i Hi) as (a & m & Hl & _ & _ & ->).
  destruct (layer_split j Hj) as (b & m' & Hl' & _ & _ & ->).
  intros (x & -> & Hx)%list_elem_of_fmap (y & Hxy & Hy)%list_elem_of_fmap.
  apply list_elem_of_split in Hx as (s1 & s2 & ->).
  destruct (ptr_other S i (a :: s1) x s2 (r_nodup _ _ _ Hrep)) as [_ Hother]; [done|].
  apply (Hother j (b :: m') y); try done. by right.
Qed.

(** Delete layer [i] in a memory where other layers are gone. *)
Lemma run_delete_layer i dead N h :
  (i < layers)%nat -> without dead N0 N ->
  (forall p, p ∈ dead -> is_heap p /\ p ∉ tail_ptrs S i) ->
  exists N', run (let* curr := load_next (Head i) in delete_chain fuel curr) (World N fr h) =
      Done tt (World N' fr h) /\ without (dead ++ tail_ptrs S i) N0 N'.
Proof.
  intros Hi Hw Hd. destruct (layer_split i Hi) as (a & m & Hl & Hp & Hb & Ht).
  pose proof (r_seg _ _ _ Hrep _ _ Hl) as [Ha Hs].
  assert (Ha' : rest N a (head_or m None)).
  { destruct Ha as (c & Hn). exists c. eapply node_is_frame; [|exact Hn].
    rewrite Hw, decide_False; [done|]. rewrite Hp. intros Hin. by destruct (Hd _ Hin). }
  rewrite <- Hp. run_with (run_rest_next t N fr h a _ Ha').
  destruct (run_delete_chain fr h m N fuel) as (N' & Hr & Hw').
  - eapply seg_without; [exact Hw| |exact Hs]. intros b Hin Hdead.
    destruct (Hd _ Hdead) as [_ Hnot]. apply Hnot. rewrite Ht. by apply list_elem_of_fmap_2.
  - pose proof (r_nodup _ _ _ Hrep) as Hnd.
    rewrite <- (take_drop_middle S i _ Hl) in Hnd. unfold ptrs in Hnd.
    rewrite bind_app, bind_cons in Hnd. apply NoDup_app in Hnd as (_ & _ & Hnd).
    apply NoDup_app in Hnd as (Hnd & _). cbn in Hnd. by apply NoDup_cons in Hnd as [_ Hnd].
  - specialize (Hfuel _ _ Hl). cbn in Hfuel. lia.
  - exists N'. split; [done|]. rewrite Ht. by eapply without_app.
Qed.

(** The tails of the layers from [i] on, [n] of them. *)
Definition tails (i n : nat) : list ptr := seq i n ≫= tail_ptrs S.

Lemma elem_of_tails i n p :
  p ∈ tails i n <-> exists j, (i <= j < i + n)%nat /\ p ∈ tail_ptrs S j.
Proof.
  unfold tails. rewrite list_elem_of_bind. split.
  - intros (j & Hp & Hj%elem_of_seq). exists j. split; [lia|done].
  - intros (j & Hj & Hp). exists j. split; [done|]. apply elem_of_seq. lia.
Qed.

Lemma run_delete_layers h n : forall i dead N,
  (1 <= i)%nat -> (i + n <= layers)%nat -> without dead N0 N ->
  (forall p, p ∈ dead -> exists j, (1 <= j < i)%nat /\ p ∈ tail_ptrs S j) ->
  exists N', run (delete_layers MAX_LAYERS fuel n i) (World N fr h) = Done tt (World N' fr h) /\
    without (dead ++ tails i n) N0 N'.
Proof.
  induction n as [|n IH]; intros i dead N Hi Hn Hw Hd.
  { exists N. split; [done|]. cbn. by rewrite app_nil_r. }
  cbn [delete_layers]. run_with (run_index_head MAX_LAYERS t N fr (i - 1) h ltac:(lia)).
  replace (Datatypes.S (i - 1)) with i by lia.
  destruct (run_delete_layer i dead N h ltac:(lia) Hw) as (N1 & Hr1 & Hw1).
  { intros p (j & Hj & Hp)%Hd. split; [eapply tail_heap; [|exact Hp]; lia|].
    eapply tail_other; [| | |exact Hp]; lia. }
  rewrite <- run_bind_assoc. run_with Hr1.
  destruct (IH (Datatypes.S i) (dead ++ tail_ptrs S i) N1) as (N2 & Hr2 & Hw2); [lia|lia|done| |].
  - intros p [(j & Hj & Hp)%Hd|Hp]%elem_of_app; [exists j; split; [lia|done]|].
    exists i. split; [lia|done].
  - exists N2. split; [done|]. unfold tails. cbn [seq]. rewrite bind_cons. fold (tails (Datatypes.S i) n).
    by rewrite app_assoc.
Qed.
End State.

(** With nothing protected and no zombies, the final sweep deletes nothing. *)
Lemma run_sweep_all N fr h :
  Manager.mgr_count_reserved h = O -> no_zombies h ->
  exists h', run hp_sweep_all (World N fr h) = Done tt (World N fr h').
Proof.
  intros Hc Hz.
  assert (Huse : Manager.get_in_use h = []).
  { clear Hz. induction h as [|[u c] h IH]; [done|]. cbn in Hc.
    unfold Manager.get_in_use. cbn [mbind list_bind snd]. fold (Manager.get_in_use h).
    rewrite IH by (unfold Manager.mgr_count_reserved; lia).
    rewrite app_nil_r. assert (Hl : length (filter (fun o : option ptr => o <> None) (Thread.hazP c)) = O).
    { unfold Thread.count_reserved in Hc. cbn in Hc. lia. }
    apply nil_length_inv in Hl. clear -Hl. induction (Thread.hazP c) as [|[p|] l IHl]; cbn in *; [done|done|].
    by apply IHl. }
  assert (Hsw : exists h', Manager.sweep_ctxs [] h = Some ([], h')).
  { clear Hc Huse. induction h as [|[u c] h IH]; [by eexists|].
    apply Forall_cons in Hz as [Hz1 Hz]. destruct (IH Hz) as [h' Hh']. cbn.
    destruct (Thread.sweep_empty (P:=ptr) [] c Hz1) as [zs Hzs]. rewrite Hzs. cbn. rewrite Hh'. by eexists. }
  destruct Hsw as [h' Hh']. exists h'. unfold hp_sweep_all.
  assert (Hr : run (trigger (EHp (fun _ hm => Manager.sweep_all hm))) (World N fr h) =
               Done [] (World N fr h')).
  { cbn. unfold Manager.sweep_all. rewrite Huse. cbn. by rewrite Hh'. }
  by run_with Hr.
Qed.

Lemma run_destroy N fr h S fuel :
  inv layers None N fr S -> enough fuel S -> hps_idle t h ->
  exists N' h', run (skipvector_destroy MAX_LAYERS layers fuel) (World N fr h) =
      Done tt (World N' fr h') /\
    (forall n, N' !! Heap n = None) /\ (forall n, N' !! Head n = N !! Head n).
Proof.
  intros [Hwf Hrep] Hfuel [Hc Hz]%hps_idle_quiet. unfold skipvector_destroy.
  destruct (run_delete_layers S Hwf N fr Hrep fuel Hfuel h (layers - 1) 1 [] N)
    as (N1 & Hr1 & Hw1); [lia|lia|apply without_nil|by intros p ?%elem_of_nil|].
  run_with Hr1. cbn [app] in Hw1.
  destruct (run_delete_layer S Hwf N fr Hrep fuel Hfuel 0 (tails S 1 (layers - 1)) N1 h)
    as (N2 & Hr2 & Hw2); [lia|done| |].
  { intros p (j & Hj & Hp)%elem_of_tails. split.
    - apply (tail_heap S Hwf j); [lia|done].
    - apply (tail_other S Hwf N fr Hrep j 0); try done; lia. }
  unfold directory_head. rewrite <- run_bind_assoc. run_with Hr2.
  destruct (run_sweep_all N2 fr h Hc Hz) as [h' Hr3]. exists N2, h'. split; [done|].
  assert (Hall : forall p, p ∈ tails S 1 (layers - 1) ++ tail_ptrs S 0 <->
            exists j, (j < layers)%nat /\ p ∈ tail_ptrs S j).
  { intros p. rewrite elem_of_app, elem_of_tails. split.
    - intros [(j & Hj & Hp)|Hp]; [exists j|exists 0%nat]; (split; [lia|done]).
    - intros (j & Hj & Hp). destruct j; [by right|left]. exists (Datatypes.S j). split; [lia|done]. }
  split; intros n; rewrite Hw2.
  - case_decide as Hin; [done|]. destruct (N !! Heap n) as [x|] eqn:Hx; [|done]. exfalso. apply Hin, Hall.
    assert (Hp : Heap n ∈ ptrs S) by (apply (r_dom _ _ _ Hrep); eauto).
    apply list_elem_of_bind in Hp as (l & Hp & Hl). apply list_elem_of_lookup in Hl as [i Hi].
    assert (Hlt : (i < layers)%nat) by (rewrite <- (wf_len _ _ _ Hwf); by eapply lookup_lt_Some).
    exists i. split; [done|]. destruct (layer_split S Hwf i Hlt) as (a & m & Hl & Hpa & _ & ->).
    rewrite Hi in Hl. injection Hl as ->. cbn in Hp. apply elem_of_cons in Hp as [Hp|Hp]; [congruence|done].
  - rewrite decide_False; [done|]. intros (j & Hj & Hp)%Hall.
    by apply (tail_heap S Hwf j (Head n) Hj) in Hp.
Qed.
End Tear.
