(* ===== verification/Disco.v ===== *)
(** * Disco: what the disco cache guarantees

    The theorems about [skipvector_disco.h], for a thread that runs alone, on
    top of any vector class that meets [VecSpec].  Each has a witness on the
    sorted vector of [vector_sfra.h], with chunks of two entries, two layers
    and integer remote addresses. *)

From Stdlib Require Import QArith.
From S2P Require Import Prelude KvList Prog SvLock VecSpec VectorSfra HazardPtr World Layers Heap.
From S2P Require Import DiscoNode DiscoOps DiscoDescent DiscoUpdate DiscoMirror DiscoMaint.
From S2P Require Import DiscoCheck DiscoSeq DiscoTear.

Local Open Scope Z_scope.

(** ** A populated cache *)

(** A cache of two layers over chunks of two entries: the directory holds the
    keys 10, 20 and 25, and its second node, not an orphan, has its parent
    entry in the head of the index layer. *)
Module Demo.
Local Abbreviation vec := (sfra).
Definition val : Type := value Z.
Definition junk : Z * val := (0, VData 0).
Definition ops2 : VecOps sfra := sfra_ops 2.
Definition spec2 : @VecSpec sfra ops2 := sfra_spec 2 ltac:(lia) ltac:(lia).
#[export] Existing Instance ops2.
#[export] Existing Instance spec2.
Definition split2 : VecSplitAt sfra := sfra_split_at_ops 2.
#[export] Existing Instance split2.
Definition split_spec2 : VecSplitAtSpec sfra := sfra_split_at_spec 2 ltac:(lia) ltac:(lia).
#[export] Existing Instance split_spec2.

Definition n0 : node Z (remote Z) sfra :=
  Node 1 (Remote 100 0) (Some (Heap 1)) (Sfra [(10, VData 110); junk] 1).
Definition n1 : node Z (remote Z) sfra :=
  Node 0 (Remote 101 0) None (Sfra [(20, VData 120); (25, VData 125)] 2).
Definition i0 : node Z (remote Z) sfra :=
  Node 1 (Remote 200 0) None (Sfra [(20, VDown (Heap 1)); junk] 1).
Definition nodes : gmap ptr (node Z (remote Z) sfra) :=
  <[Head 0 := n0]> (<[Head 1 := i0]> {[Heap 1 := n1]}).

Definition a0 := ANode (D:=Z) (Head 0) true (Remote 100 0) [(10, VData 110)].
Definition a1 := ANode (D:=Z) (Heap 1) false (Remote 101 0) [(20, VData 120); (25, VData 125)].
Definition b0 := ANode (D:=Z) (Head 1) true (Remote 200 0) [(20, VDown (Heap 1))].
Definition state := [[a0; a1]; [b0]].

Lemma layers_cases n l :
  state !! n = Some l -> (n = 0%nat /\ l = [a0; a1]) \/ (n = 1%nat /\ l = [b0]).
Proof. destruct n as [|[|n]]; cbn; intros [= <-]; auto. Qed.

Lemma nodes_heap n : is_Some (nodes !! Heap n) <-> n = 1%positive.
Proof.
  unfold nodes. rewrite !lookup_insert_ne by done. rewrite lookup_singleton_is_Some. split; congruence.
Qed.

Lemma layer_ok_cases n l : state !! n = Some l -> layer_ok n l.
Proof.
  intros [[-> ->]|[-> ->]]%layers_cases; split.
  - exists a0, [a1]. by split_and!; [..|repeat constructor].
  - repeat constructor; cbn; lia.
  - by exists b0, [].
  - apply kv_sorted_single.
Qed.

Lemma rest_a0 : rest nodes a0 (Some (Heap 1)).
Proof. exists 0, (Sfra [(10, VData 110); junk] 1). split_and!; [done..| |done]. split_and!; [done|cbn; lia|apply kv_sorted_single]. Qed.
Lemma rest_a1 : rest nodes a1 None.
Proof.
  exists 0, (Sfra [(20, VData 120); (25, VData 125)] 2). split_and!; [done..| |done].
  split_and!; [done|cbn; lia|]. repeat constructor; cbn; lia.
Qed.
Lemma rest_b0 : rest nodes b0 None.
Proof. exists 0, (Sfra [(20, VDown (Heap 1)); junk] 1). split_and!; [done..| |done]. split_and!; [done|cbn; lia|apply kv_sorted_single]. Qed.

(** The cache is well formed, and memory holds exactly it. *)
Lemma demo_inv : inv 2 None nodes 2 state.
Proof.
  split; split.
  - done.
  - apply layer_ok_cases.
  - intros n l e [[-> ->]|[-> ->]]%layers_cases He.
    + cbn in He. by repeat (apply elem_of_cons in He as [->|He]; [by eexists|]); apply elem_of_nil in He.
    + apply list_elem_of_singleton in He as ->. exists [a0; a1], a1. split_and!; try done. right. left.
  - intros n m l b k [[-> ->]|[-> ->]]%layers_cases Hl Hb Ho Hk _; [|done].
    injection Hl as <-. apply elem_of_cons in Hb as [->|Hb]; [done|].
    apply list_elem_of_singleton in Hb as ->. injection Hk as <-. left.
  - intros n l [[-> ->]|[-> ->]]%layers_cases; cbn [seg head_or].
    + split_and!; [apply rest_a0|apply rest_a1|done].
    + split; [apply rest_b0|done].
  - apply (bool_decide_unpack _). vm_compute. exact I.
  - intros n. rewrite nodes_heap. change (ptrs state) with [Head 0; Heap 1; Head 1].
    rewrite !elem_of_cons, elem_of_nil. split; [by intros ->; auto|].
    intros [[=]|[[=]|[[=]|[]]]]. done.
  - intros n. change (ptrs state) with [Head 0; Heap 1; Head 1].
    rewrite !elem_of_cons, elem_of_nil. intros [[=]|[[=]|[[=]|[]]]]. subst. lia.
Qed.

Lemma demo_room d fuel : (2 + d <= fuel)%nat -> room d fuel state.
Proof. intros Hf n l [[-> ->]|[-> ->]]%layers_cases; cbn; lia. Qed.

Lemma demo_enough fuel : (2 <= fuel)%nat -> enough fuel state.
Proof. intros Hf n l [[-> ->]|[-> ->]]%layers_cases; cbn; lia. Qed.

Lemma demo_idle : hps_idle 0 [].
Proof. right. by split_and!; [..|constructor]. Qed.

(** The hazard pointers of a thread that has its context. *)
Definition hp1 : mgr_t := Manager.init_context 4 0 [].

Lemma demo_hps : hps 0 Thread.HNone hp1.
Proof. apply init_hps, demo_idle. Qed.
End Demo.

Section Disco.
Context {ADDR : Type} (null : ADDR) {vec : Type -> Type}.
Context `{HV : VecOps vec} `{HS : !VecSpec vec} `{HSA : !VecSplitAt vec}.
Context `{HSAS : !VecSplitAtSpec vec}.
Context (IDX_EXP DATA_EXP : Z) (MAX_LAYERS layers ZCAP t : nat) (NDEBUG : bool).
Context (junk : Z * value ADDR).

Local Abbreviation node := (node ADDR (remote ADDR) vec).
Local Abbreviation anode := (anode ADDR (remote ADDR)).
Local Abbreviation run := (run (handle (D:=ADDR) (X:=remote ADDR) (vec:=vec) t)).
Implicit Types (N : gmap ptr node) (fr : positive) (h : mgr_t) (fuel : nat) (k : Z).
Implicit Types (S : list (list anode)) (l m : list anode) (a : anode).

(** ** The life of a cache *)

Lemma new_layers_bound hp w0 :
  skipvector_new (vec:=vec) null IDX_EXP DATA_EXP MAX_LAYERS layers junk hp = Some w0 ->
  (2 <= layers <= MAX_LAYERS)%nat /\ w0 = World (heads null MAX_LAYERS junk) 1 hp.
Proof.
  unfold skipvector_new. intros H.
  destruct ((1 <? layers) && (layers <=? MAX_LAYERS))%nat eqn:Hb; cbn in H; [|done].
  destruct (DATA_EXP + Z.of_nat layers * IDX_EXP <=? 64); cbn in H; [|done].
  apply andb_true_iff in Hb as [H1%Nat.ltb_lt H2%Nat.leb_le]. split; [lia|congruence].
Qed.

(** The bootstrap of a new cache, then operations. *)
Definition session fuel (addrs : list ADDR) (ops : list (op ADDR))
    : mem ADDR (remote ADDR) vec (list (answer ADDR)) :=
  set_head_remote_addrs MAX_LAYERS layers false addrs ;;;
  exec_ops null MAX_LAYERS layers ZCAP NDEBUG junk fuel ops.

Lemma run_session fuel addrs ops hp w0 :
  skipvector_new null IDX_EXP DATA_EXP MAX_LAYERS layers junk hp = Some w0 ->
  hps_idle t hp -> (layers <= length addrs)%nat -> Forall (op_ok layers) ops ->
  (1 + op_cost layers * length ops <= fuel)%nat ->
  exists N fr h S, run (session fuel addrs ops) w0 = Done (spec_run null [] ops) (World N fr h) /\
    inv layers None N fr S /\ hps_idle t h /\ enough fuel S.
Proof.
  intros [Hlayers ->]%new_layers_bound Hh Ha Hok Hf.
  pose proof (inv_new null MAX_LAYERS layers junk Hlayers) as Hinv.
  destruct (run_set_head_remote_addrs MAX_LAYERS layers t Hlayers _ _ hp _ addrs Hinv Ha)
    as (N1 & S1 & Hr1 & Hinv1 & Hsc & _).
  assert (Hroom : room (op_cost layers * length ops) fuel (new_layers null layers)).
  { intros n l [-> _]%new_layers_lookup. exact Hf. }
  assert (Hd : dir (new_layers null layers) = map tag []).
  { unfold dir. destruct (new_layers null layers !! 0%nat) as [l|] eqn:Hl; [|done].
    by apply new_layers_lookup in Hl as [-> _]. }
  destruct (run_exec_ops null MAX_LAYERS layers ZCAP t NDEBUG junk Hlayers fuel ops N1 1%positive hp S1 [])
    as (N2 & fr2 & h2 & S2 & Hr2 & H2); try done.
  - by eapply same_content_room.
  - by rewrite (same_content_dir (new_layers null layers)).
  - exists N2, fr2, h2, S2. split; [|done]. unfold session. by run_with Hr1.
Qed.

(** C1: the cache refines a sorted list of routing entries.  A cache that
    the constructor accepts, bootstrapped and then used by any sequence of
    reconciliations, insertions, lookups and checks, fails no assertion,
    reads no freed node and terminates, and its answers are those of
    [spec_run] from the empty list: insert-if-absent, and lookup of the last
    entry at or below the key.  The fuel is linear in the number of
    operations. *)
Theorem cache_refines fuel addrs ops hp w0 :
  skipvector_new null IDX_EXP DATA_EXP MAX_LAYERS layers junk hp = Some w0 ->
  hps_idle t hp -> (layers <= length addrs)%nat -> Forall (op_ok layers) ops ->
  (1 + op_cost layers * length ops <= fuel)%nat ->
  exists w, run (session fuel addrs ops) w0 = Done (spec_run null [] ops) w.
Proof.
  intros Hnew Hh Ha Hok Hf.
  destruct (run_session fuel addrs ops hp w0 Hnew Hh Ha Hok Hf) as (N & fr & h & S & Hr & _). eauto.
Qed.

(** C9: the destructor, after any session, deletes every node the session
    allocated, each once (a second deletion would be a failure), and leaves
    the heads, which are members of the object. *)
Theorem session_frees_all fuel addrs ops hp w0 :
  skipvector_new null IDX_EXP DATA_EXP MAX_LAYERS layers junk hp = Some w0 ->
  hps_idle t hp -> (layers <= length addrs)%nat -> Forall (op_ok layers) ops ->
  (1 + op_cost layers * length ops <= fuel)%nat ->
  exists w, run (session fuel addrs ops ;;; skipvector_destroy MAX_LAYERS layers fuel) w0 = Done tt w /\
    (forall n, w_nodes w !! Heap n = None) /\
    (forall n, (n < layers)%nat -> is_Some (w_nodes w !! Head n)).
Proof.
  intros Hnew Hh Ha Hok Hf.
  destruct (run_session fuel addrs ops hp w0 Hnew Hh Ha Hok Hf) as (N & fr & h & S & Hr & Hinv & Hh' & Hen).
  destruct (new_layers_bound hp w0 Hnew) as [Hlayers _].
  destruct (run_destroy MAX_LAYERS layers t Hlayers N fr h S fuel Hinv Hen Hh') as (N' & h' & Hr' & Hheap & Hhead).
  exists (World N' fr h'). split_and!; [by run_with Hr|done|]. intros n Hn. cbn. rewrite Hhead.
  destruct (inv_head MAX_LAYERS layers Hlayers None N fr S Hinv n Hn) as (a & m & Hl & Hp).
  destruct Hinv as [_ Hrep]. destruct (repr_rest N fr S n [] a m Hrep Hl) as (c & v & Hv & _).
  rewrite <- Hp. eauto.
Qed.

(** ** The operations, one by one *)

Context (Hlayers : (2 <= layers <= MAX_LAYERS)%nat).

Section State.
Context (N : gmap ptr node) (fr : positive) (S : list (list anode)).
Context (Hinv : inv layers None N fr S).

(** C13: [mirror_reconcile] on a well-formed cache returns, keeps every
    layer well formed (so every non-orphan has its parent entry), protects
    nothing afterwards, and adds to the directory the entry of the data
    node, then that of the first step of the path, each only if its key
    was absent; nothing else changes in the directory. *)
Theorem mirror_reconcile_correct fuel h data_k_min data_addr path levels :
  hps_idle t h -> room (op_cost layers) fuel S -> (levels <= length path)%nat ->
  exists N' fr' h' S',
    run (mirror_reconcile null MAX_LAYERS layers ZCAP junk fuel data_k_min data_addr path levels)
      (World N fr h) = Done tt (World N' fr' h') /\
    hps t Thread.HNone h' /\ inv layers None N' fr' S' /\ spends (op_cost layers) fuel S S' /\
    dir S' = let d := kv_add data_k_min (VData data_addr) (dir S) in
             match take levels path with
             | [] => d
             | p0 :: _ => kv_add (ps_k_min p0) (VData (ps_first_down p0)) d
             end.
Proof. intros Hh Hroom Hp. by apply run_mirror_reconcile. Qed.

(** C14: [mirror_insert] of a key of any height returns, keeps every layer
    well formed, and adds to the directory exactly the entry of the key,
    if it was absent. *)
Theorem mirror_insert_correct fuel h k height data_addr addrs :
  hps_idle t h -> room (op_cost layers) fuel S ->
  (1 <= height <= layers)%nat -> (layers <= length addrs)%nat ->
  exists N' fr' h' S',
    run (mirror_insert null MAX_LAYERS layers ZCAP junk fuel k height data_addr addrs)
      (World N fr h) = Done tt (World N' fr' h') /\
    hps t Thread.HNone h' /\ inv layers None N' fr' S' /\ spends (op_cost layers) fuel S S' /\
    dir S' = kv_add k (VData data_addr) (dir S).
Proof. intros Hh Hroom H1 H2. by apply run_mirror_insert. Qed.

(** [locate_data] returns the remote address of the last routing entry
    at or below the key, the null address when there is none; it writes no
    node, and leaves no hazard pointer set. *)
Theorem locate_data_correct fuel h k :
  hps_idle t h -> enough fuel S ->
  exists h', run (locate_data null MAX_LAYERS layers ZCAP fuel k) (World N fr h) =
    Done match kv_lte k (dir S) with Some (_, VData d) => d | _ => null end (World N fr h') /\
    hps t Thread.HNone h'.
Proof. intros Hh Hen. by apply (run_locate_data null MAX_LAYERS layers ZCAP t Hlayers None N fr S Hinv fuel Hen). Qed.

(** A descent to a level, for reading, ends at the node that covers
    the key there: it is the head of the level or starts at or below the
    key, and every entry right of it is above the key.  The
    lock word it returns is the node's, and the node is the only one the
    thread protects. *)
Theorem descend_correct fuel h k level :
  hps t Thread.HNone h -> enough fuel S -> (level < layers)%nat ->
  exists l a m lk h', S !! level = Some (l ++ a :: m) /\ covers k l a m /\
    run (descend MAX_LAYERS layers fuel k level) (World N fr h) =
      Done (a_ptr a, lk) (World N fr h') /\
    at_node N a (head_or m None) lk /\ hps t (Thread.HCurr (a_ptr a)) h'.
Proof. intros Hh Hen Hl. by apply (run_descend Hlayers Hinv Hen). Qed.

(** [gather_prevs] writes, at every level below the height (and at
    level 0 in any case), the remote address of the node that covers the
    key at that level, and leaves the rest of the array as it was. *)
Theorem gather_prevs_correct fuel h k height addrs :
  hps_idle t h -> enough fuel S ->
  (height <= length addrs)%nat -> (1 <= length addrs)%nat -> (height <= layers)%nat ->
  exists h' addrs', run (gather_prevs MAX_LAYERS layers ZCAP fuel k height addrs) (World N fr h) =
      Done (true, addrs') (World N fr h') /\ hps t Thread.HNone h' /\
    length addrs' = length addrs /\
    forall i, addrs' !! i =
      if decide (i < Nat.max 1 height)%nat
      then (fun a => remote_addr (a_ext a)) <$> (S !! i ≫= cover_node k) else addrs !! i.
Proof. intros Hh Hen H1 H2 H3. by apply (run_gather_prevs MAX_LAYERS layers ZCAP t Hlayers None). Qed.

(** [check_next], started at a node of a level that is the head or
    starts at or below the key, walks right to the node that covers the
    key, and moves the hazard pointer along with it. *)
Theorem check_next_correct fuel h k level l a m lk :
  enough fuel S -> S !! level = Some (l ++ a :: m) -> starts k l a ->
  at_node N a (head_or m None) lk -> hps t (Thread.HCurr (a_ptr a)) h ->
  exists l' b m' lk' h', l ++ a :: m = l' ++ b :: m' /\ covers k l' b m' /\
    run (check_next fuel (a_ptr a) lk k) (World N fr h) = Done (true, a_ptr b, lk') (World N fr h') /\
    at_node N b (head_or m' None) lk' /\ hps t (Thread.HCurr (a_ptr b)) h'.
Proof. intros Hen Hl Hst Hat Hh. by apply (inv_check_next Hlayers Hinv Hen level). Qed.

(** [mirror_split_at_level], on every branch (the key is the node's
    minimum; it is inside the node, which is split there; it is absent, and
    a new node takes the entries above it; the node is full and all above
    the key, and first sheds its upper half): the level has the entry of
    the key and otherwise the entries it had.  With a node handed up, that
    node starts with the key and is the only one that may lack its parent
    entry; with none, no node lacks it. *)
Theorem mirror_split_at_level_correct fuel h k level x r_addr :
  enough fuel S -> hps t Thread.HNone h -> (level < layers)%nat -> entry_ok S level (k, x) ->
  exists r N' fr' h' S',
    run (mirror_split_at_level null MAX_LAYERS layers junk fuel k level x r_addr) (World N fr h) =
      Done r (World N' fr' h') /\
    hps t Thread.HNone h' /\ adds level k x S S' /\
    match r with
    | None => inv layers None N' fr' S'
    | Some p => inv layers (Some (level, p)) N' fr' S' /\
                entry_ok S' (Datatypes.S level) (k, VDown p)
    end.
Proof. intros Hen Hh Hl He. by apply (run_mirror_split_at_level null ZCAP Hlayers Hinv Hen). Qed.

(** [mirror_insert_at_top_level] adds the entry to its level, if it is
    absent, splitting an orphan off a full node, and leaves every level
    well formed. *)
Theorem mirror_insert_at_top_level_correct fuel h k level x r_addr :
  enough fuel S -> hps t Thread.HNone h -> (level < layers)%nat -> entry_ok S level (k, x) ->
  exists N' fr' h' S',
    run (mirror_insert_at_top_level MAX_LAYERS layers junk fuel k level x r_addr) (World N fr h) =
      Done tt (World N' fr' h') /\
    hps t Thread.HNone h' /\ inv layers None N' fr' S' /\ adds level k x S S'.
Proof.
  intros Hen Hh Hl He.
  exact (run_mirror_insert_at_top_level null ZCAP Hlayers Hinv Hen level k x r_addr h Hl Hh He I).
Qed.

(** What is reconciled is served.  After [mirror_reconcile] of a data
    node whose minimum had no entry, [locate_data] routes to that data
    node every key from its minimum up to the next entry. *)
Theorem reconciled_is_served fuel h data_k_min data_addr k :
  hps_idle t h -> room (op_cost layers) fuel S ->
  kv_lookup data_k_min (dir S) = None -> data_k_min <= k ->
  (forall e, e ∈ dir S -> data_k_min < e.1 -> k < e.1) ->
  exists w,
    run (mirror_reconcile_entry null MAX_LAYERS layers ZCAP junk fuel data_k_min data_addr ;;;
         locate_data null MAX_LAYERS layers ZCAP fuel k) (World N fr h) = Done data_addr w.
Proof.
  intros Hh Hroom Hk Hle Hnone. unfold mirror_reconcile_entry.
  destruct (run_mirror_reconcile null MAX_LAYERS layers ZCAP t junk Hlayers N fr S h fuel data_k_min
              data_addr [] 0 Hinv Hh Hroom (le_n 0)) as (N1 & fr1 & h1 & S1 & Hr1 & Hh1 & Hinv1 & Hs & Hd).
  run_with Hr1. apply hps_idle_none in Hh1.
  destruct (run_locate_data null MAX_LAYERS layers ZCAP t Hlayers None N1 fr1 S1 Hinv1 fuel
              (spends_enough _ _ _ _ Hs Hroom) k h1 Hh1) as (h2 & Hr2 & _).
  exists (World N1 fr1 h2). rewrite Hr2. f_equal. unfold route. fold (dir S1). rewrite Hd. cbn [take].
  by rewrite kv_add_absent, kv_lte_insert.
Qed.

(** [verify()] accepts every well-formed cache that protects nothing:
    no check of [verify_index()] fails, every down pointer is met in order
    along the layer below, and what memory represents is unchanged. *)
Theorem verify_accepts fuel h :
  enough fuel S -> Manager.mgr_count_reserved h = O ->
  exists N', run (verify MAX_LAYERS layers NDEBUG fuel) (World N fr h) =
    Done true (World N' fr h) /\ inv layers None N' fr S.
Proof.
  intros Hen Hh. destruct Hinv as [Hwf Hrep].
  destruct (run_verify MAX_LAYERS layers t NDEBUG Hlayers fr S Hwf fuel Hen N h Hrep Hh) as (N' & Hr & Hrep').
  by exists N'.
Qed.

(** The counts: [node_count(level)] is the number of nodes of the
    level, [get_size()] the number of routing entries, and
    [for_each_node(level, f)] calls [f] on the minimum, the orphan flag
    and the size of each node of the level, in order. *)
Theorem counts_correct fuel h level l :
  enough fuel S -> S !! level = Some l ->
  run (node_count MAX_LAYERS fuel level) (World N fr h) = Done (length l) (World N fr h) /\
  run (for_each_node MAX_LAYERS fuel level) (World N fr h) =
    Done (map (fun a => (default 0 (kv_first (a_elems a)), a_orphan a, length (a_elems a))) l) (World N fr h) /\
  run (get_size_all fuel) (World N fr h) = Done (length (dir S)) (World N fr h).
Proof.
  intros Hen Hl.
  split_and!; [by eapply run_node_count|by eapply run_for_each_node|].
  destruct (inv_layer Hlayers Hinv 0) as (l0 & Hl0 & _); [lia|].
  unfold dir. rewrite Hl0. by eapply run_get_size_all.
Qed.

(** [set_head_remote_addrs] on a cache not yet bootstrapped gives the
    head of every layer its address, changes no entry, and returns the
    flag set; a second call fails its assertion. *)
Theorem set_head_remote_addrs_correct h addrs :
  (layers <= length addrs)%nat ->
  (exists N' S',
    run (set_head_remote_addrs MAX_LAYERS layers false addrs) (World N fr h) =
      Done true (World N' fr h) /\
    inv layers None N' fr S' /\ same_content S S' /\
    forall n, (n < layers)%nat -> head_addr S' n = addrs !! n) /\
  run (set_head_remote_addrs MAX_LAYERS layers true addrs) (World N fr h) = Crashed.
Proof. intros Ha. split; [by apply run_set_head_remote_addrs|done]. Qed.
End State.

(** [node_t::insert] on a locked node: without an overflow the node has
    the pair added if its key was absent, and the result says whether it
    was; a full node keeps the lower part of its entries and the pair, and
    an orphan that takes the upper part is linked after it.  No other node
    is touched. *)
Theorem node_insert_correct N fr h p (o : bool) e nx el k x r_addr :
  locked N p o e nx el -> N !! Heap fr = None ->
  exists N' fr' res made el',
    run (node_insert junk p k x r_addr) (World N fr h) = Done (res, made) (World N' fr' h) /\
    frame [p; Heap fr] N N' /\
    match made with
    | None => fr' = fr /\ res = bool_decide (kv_lookup k el = None) /\
        el' = kv_add k x el /\ locked N' p o e nx el' /\ N' !! Heap fr = None
    | Some q => q = Heap fr /\ fr' = Pos.succ fr /\ res = true /\ kv_lookup k el = None /\
        length el = v_capacity vec /\
        exists el2, el' ++ el2 = kv_insert k x el /\ el' <> [] /\ el2 <> [] /\
          locked N' p o e (Some q) el' /\ free N' q true (Remote r_addr 0) nx el2
    end.
Proof. by apply (run_node_insert_full MAX_LAYERS layers). Qed.
End Disco.

(** ** Witnesses *)

Section Witnesses.
Import Demo.

Local Abbreviation run := (run (handle (D:=Z) (X:=remote Z) (vec:=sfra) 0)).

Local Definition le22 : (2 <= 2 <= 4)%nat.
Proof. lia. Defined.

(** An index of a new cache, after two reconciliations, one with a path. *)
Definition demo_ops : list (op Z) :=
  [OReconcile 10 110 [] 0; OLocate 15; OReconcile 30 130 [PathStep 20 300 120; PathStep 20 400 0] 2;
   OLocate 25; OInsert 40 2 140 [500; 600]; OVerify; OLocate 99; OLocate 5].

Lemma demo_ops_ok : Forall (op_ok 2) demo_ops.
Proof. repeat constructor; cbn; lia. Qed.

Lemma cache_refines_witness :
  exists w, run (session 0 4 2 4 false junk 100 [1; 2] demo_ops) (World (heads 0 4 junk) 1 []) =
    Done [AUnit; AAddr 110; AUnit; AAddr 120; AUnit; ABool true; AAddr 140; AAddr 0] w.
Proof.
  apply (cache_refines 0 1 1 4 2 4 0 false junk 100 [1; 2] demo_ops [] (World (heads 0 4 junk) 1 []));
    [reflexivity|apply demo_idle|cbn; lia|apply demo_ops_ok|cbn; lia].
Defined.

(** The same session, executed. *)
Example session_runs :
  match run (session 0 4 2 4 false junk 100 [1; 2] demo_ops) (World (heads 0 4 junk) 1 []) with
  | Done l _ => l = [AUnit; AAddr 110; AUnit; AAddr 120; AUnit; ABool true; AAddr 140; AAddr 0]
  | _ => False
  end.
Proof. vm_compute. reflexivity. Qed.

Lemma session_frees_all_witness :
  exists w, run (session 0 4 2 4 false junk 100 [1; 2] demo_ops ;;; skipvector_destroy 4 2 100)
      (World (heads 0 4 junk) 1 []) = Done tt w /\
    (forall n, w_nodes w !! Heap n = None) /\
    (forall n, (n < 2)%nat -> is_Some (w_nodes w !! Head n)).
Proof.
  apply (session_frees_all 0 1 1 4 2 4 0 false junk 100 [1; 2] demo_ops [] (World (heads 0 4 junk) 1 []));
    [reflexivity|apply demo_idle|cbn; lia|apply demo_ops_ok|cbn; lia].
Defined.

Lemma mirror_reconcile_correct_witness :
  exists N' fr' h' S',
    run (mirror_reconcile 0 4 2 4 junk 20 22 122 [PathStep 25 300 125; PathStep 25 400 0] 2)
      (World nodes 2 []) = Done tt (World N' fr' h') /\
    hps 0 Thread.HNone h' /\ inv 2 None N' fr' S' /\ spends 8 20 state S' /\
    dir S' = [(10, VData 110); (20, VData 120); (22, VData 122); (25, VData 125)].
Proof.
  apply (mirror_reconcile_correct 0 4 2 4 0 junk le22 nodes 2 state demo_inv 20 [] 22 122
           [PathStep 25 300 125; PathStep 25 400 0] 2);
    [apply demo_idle|apply demo_room; cbn; lia|cbn; lia].
Defined.

Lemma mirror_insert_correct_witness :
  exists N' fr' h' S',
    run (mirror_insert 0 4 2 4 junk 20 5 2 105 [300; 400]) (World nodes 2 []) = Done tt (World N' fr' h') /\
    hps 0 Thread.HNone h' /\ inv 2 None N' fr' S' /\ spends 8 20 state S' /\
    dir S' = [(5, VData 105); (10, VData 110); (20, VData 120); (25, VData 125)].
Proof.
  apply (mirror_insert_correct 0 4 2 4 0 junk le22 nodes 2 state demo_inv 20 [] 5 2 105 [300; 400]);
    [apply demo_idle|apply demo_room; cbn; lia|lia|cbn; lia].
Defined.

Lemma locate_data_correct_witness :
  exists h', run (locate_data 0 4 2 4 9 24) (World nodes 2 []) = Done 120 (World nodes 2 h') /\
    hps 0 Thread.HNone h'.
Proof.
  apply (locate_data_correct 0 4 2 4 0 le22 nodes 2 state demo_inv 9 [] 24 demo_idle).
  apply demo_enough. lia.
Defined.

Lemma descend_correct_witness :
  exists l a m lk h', state !! 0%nat = Some (l ++ a :: m) /\ covers 24 l a m /\
    run (descend 4 2 9 24 0) (World nodes 2 hp1) = Done (a_ptr a, lk) (World nodes 2 h') /\
    at_node nodes a (head_or m None) lk /\ hps 0 (Thread.HCurr (a_ptr a)) h'.
Proof.
  apply (descend_correct 4 2 0 le22 nodes 2 state demo_inv 9 hp1 24 0 demo_hps); [|lia].
  apply demo_enough. lia.
Defined.

Lemma gather_prevs_correct_witness :
  exists h' addrs', run (gather_prevs 4 2 4 9 24 2 [7; 8; 9]) (World nodes 2 []) =
      Done (true, addrs') (World nodes 2 h') /\ hps 0 Thread.HNone h' /\
    length addrs' = 3%nat /\
    forall i, addrs' !! i =
      if decide (i < 2)%nat
      then (fun a => remote_addr (a_ext a)) <$> (state !! i ≫= cover_node 24) else [7; 8; 9] !! i.
Proof.
  apply (gather_prevs_correct 4 2 4 0 le22 nodes 2 state demo_inv 9 [] 24 2 [7; 8; 9] demo_idle);
    [apply demo_enough; lia|cbn; lia..].
Defined.

Lemma check_next_correct_witness :
  exists l' b m' lk' h', state !! 0%nat = Some (l' ++ b :: m') /\ covers 24 l' b m' /\
    run (check_next 9 (Head 0) 1 24) (World nodes 2 (default [] (Manager.mgr_take_first (Head 0) 0 hp1))) =
      Done (true, a_ptr b, lk') (World nodes 2 h') /\
    at_node nodes b (head_or m' None) lk' /\ hps 0 (Thread.HCurr (a_ptr b)) h'.
Proof.
  destruct (check_next_correct 4 2 0 le22 nodes 2 state demo_inv 9
              (default [] (Manager.mgr_take_first (Head 0) 0 hp1)) 24 0 [] a0 [a1] 1)
    as (l' & b & m' & lk' & h' & He & H).
  - apply demo_enough. lia.
  - reflexivity.
  - by left.
  - exists 0. split; [done|]. exists (Sfra [(10, VData 110); junk] 1).
    split_and!; [done..| |done]. split_and!; [done|cbn; lia|apply kv_sorted_single].
  - destruct (run_take_first (D:=Z) (X:=remote Z) (vec:=sfra) 0 nodes 2 hp1 (Head 0) demo_hps)
      as (m & Hr & Hm).
    vm_compute in Hr. vm_compute. injection Hr as <-. exact Hm.
  - exists l', b, m', lk', h'. split; [|exact H]. rewrite <- He. reflexivity.
Defined.

Lemma mirror_split_at_level_correct_witness :
  exists r N' fr' h' S',
    run (mirror_split_at_level 0 4 2 junk 9 25 0 (VData 0) 300) (World nodes 2 hp1) = Done r (World N' fr' h') /\
    hps 0 Thread.HNone h' /\ adds 0 25 (VData 0) state S' /\
    match r with
    | None => inv 2 None N' fr' S'
    | Some p => inv 2 (Some (0%nat, p)) N' fr' S' /\ entry_ok S' 1 (25, VDown p)
    end.
Proof.
  apply (mirror_split_at_level_correct 0 4 2 4 0 junk le22 nodes 2 state demo_inv 9 hp1 25 0 (VData 0) 300);
    [apply demo_enough; lia|apply demo_hps|lia|by eexists].
Defined.

Lemma mirror_insert_at_top_level_correct_witness :
  exists N' fr' h' S',
    run (mirror_insert_at_top_level 4 2 junk 9 22 0 (VData 122) 300) (World nodes 2 hp1) = Done tt (World N' fr' h') /\
    hps 0 Thread.HNone h' /\ inv 2 None N' fr' S' /\ adds 0 22 (VData 122) state S'.
Proof.
  apply (mirror_insert_at_top_level_correct 0 4 2 4 0 junk le22 nodes 2 state demo_inv 9 hp1 22 0 (VData 122) 300);
    [apply demo_enough; lia|apply demo_hps|lia|by eexists].
Defined.

Lemma reconciled_is_served_witness :
  exists w, run (mirror_reconcile_entry 0 4 2 4 junk 20 12 112 ;;; locate_data 0 4 2 4 20 17)
      (World nodes 2 []) = Done 112 w.
Proof.
  apply (reconciled_is_served 0 4 2 4 0 junk le22 nodes 2 state demo_inv 20 [] 12 112 17);
    [apply demo_idle|apply demo_room; cbn; lia|reflexivity|lia|].
  intros e He Hlt. cbn in He.
  repeat (apply elem_of_cons in He as [->|He]; [cbn in *; lia|]). by apply elem_of_nil in He.
Defined.

Lemma verify_accepts_witness :
  exists N', run (verify 4 2 false 9) (World nodes 2 []) = Done true (World N' 2 []) /\ inv 2 None N' 2 state.
Proof.
  apply (verify_accepts 4 2 0 false le22 nodes 2 state demo_inv 9 []); [apply demo_enough; lia|reflexivity].
Defined.

Lemma counts_correct_witness :
  run (node_count 4 9 0) (World nodes 2 []) = Done 2%nat (World nodes 2 []) /\
  run (for_each_node 4 9 0) (World nodes 2 []) =
    Done [(10, true, 1%nat); (20, false, 2%nat)] (World nodes 2 []) /\
  run (get_size_all 9) (World nodes 2 []) = Done 3%nat (World nodes 2 []).
Proof.
  apply (counts_correct 4 2 0 le22 nodes 2 state demo_inv 9 [] 0 [a0; a1]); [apply demo_enough; lia|reflexivity].
Defined.

Lemma set_head_remote_addrs_correct_witness :
  (exists N' S',
    run (set_head_remote_addrs 4 2 false [7; 8]) (World nodes 2 []) = Done true (World N' 2 []) /\
    inv 2 None N' 2 S' /\ same_content state S' /\
    forall n, (n < 2)%nat -> head_addr S' n = [7; 8] !! n) /\
  run (set_head_remote_addrs 4 2 true [7; 8]) (World nodes 2 []) = Crashed.
Proof.
  apply (set_head_remote_addrs_correct 4 2 0 le22 nodes 2 state demo_inv [] [7; 8]). cbn. lia.
Defined.

(** A full node, locked. *)
Definition locked_node : gmap ptr (World.node Z (remote Z) sfra) :=
  {[Heap 1 := Node 4 (Remote 101 0) None (Sfra [(20, VData 120); (25, VData 125)] 2)]}.

Lemma node_insert_correct_witness :
  exists N' fr' res made el',
    run (node_insert junk (Heap 1) 22 (VData 122) 300) (World locked_node 2 []) =
      Done (res, made) (World N' fr' []) /\
    frame [Heap 1; Heap 2] locked_node N' /\
    match made with
    | None => fr' = 2%positive /\ res = true /\
        el' = [(20, VData 120); (22, VData 122); (25, VData 125)] /\
        locked N' (Heap 1) false (Remote 101 0) None el' /\ N' !! Heap 2 = None
    | Some q => q = Heap 2 /\ fr' = 3%positive /\ res = true /\ None = None (A:=val) /\ 2%nat = 2%nat /\
        exists el2, el' ++ el2 = [(20, VData 120); (22, VData 122); (25, VData 125)] /\ el' <> [] /\ el2 <> [] /\
          locked N' (Heap 1) false (Remote 101 0) (Some q) el' /\ free N' q true (Remote 300 0) None el2
    end.
Proof.
  assert (Hl : locked locked_node (Heap 1) false (Remote 101 0) None [(20, VData 120); (25, VData 125)]).
  { exists 0, (Sfra [(20, VData 120); (25, VData 125)] 2). split_and!; [done..| |done].
    split_and!; [done|cbn; lia|]. repeat constructor; cbn; lia. }
  exact (node_insert_correct 4 2 0 junk le22 locked_node 2 [] (Heap 1) false (Remote 101 0) None
           [(20, VData 120); (25, VData 125)] 22 (VData 122) 300 Hl eq_refl).
Defined.
End Witnesses.
