(* ===== verification/DsRegister.v ===== *)
(** * DsRegister: registers, their local cache and the memory layout

    The word a replica keeps for a key ([register.hpp]), the array of cached
    registers of a client ([cache.hpp]) and the addresses of a client's
    buffers and of the servers' registers ([layout.hpp]).  A register is its
    raw 64-bit value, an address is a 64-bit value. *)

From S2P Require Import Prelude.

Local Open Scope Z_scope.

Definition u16 (x : Z) : Z := x mod 2 ^ 16.
Definition u32 (x : Z) : Z := x mod 2 ^ 32.

(** ** [Register]: the value in the low 32 bits, then the client, then the
    sequence number (the struct of a little-endian machine). *)

Definition reg_value (raw : Z) : Z := Z.land raw (Z.ones 32).
Definition reg_client (raw : Z) : Z := Z.land (Z.shiftr raw 32) (Z.ones 16).
Definition reg_seq (raw : Z) : Z := Z.land (Z.shiftr raw 48) (Z.ones 16).

(** [Register(s, id, v)], on arguments of the widths of the fields. *)
Definition reg_make (s id v : Z) : Z := Z.lor (Z.lor v (Z.shiftl id 32)) (Z.shiftl s 48).

(** [operator<]: by sequence number, then by client. *)
Definition reg_lt (a b : Z) : bool :=
  if negb (reg_seq a =? reg_seq b) then reg_seq a <? reg_seq b else reg_client a <? reg_client b.

(** ** [Cache]: the registers a client has seen; no bounds check. *)

Record regcache := RegCache { rc_data : list Z; rc_valid : list bool }.

Definition cache_new (size : nat) : regcache := RegCache (replicate size 0) (replicate size false).

Definition cache_put (offset : Z) (reg : Z) (c : regcache) : option regcache :=
  assert_ ((0 <=? offset) && (Z.to_nat offset <? length (rc_data c))%nat) ;;
  assert_ (Z.to_nat offset <? length (rc_valid c))%nat ;;
  Some (RegCache (<[Z.to_nat offset := reg]> (rc_data c)) (<[Z.to_nat offset := true]> (rc_valid c))).

(** [get(offset, out_reg)]: the inner [None] is [return false]. *)
Definition cache_get (offset : Z) (c : regcache) : option (option Z) :=
  assert_ (0 <=? offset) ;;
  valid ← rc_valid c !! Z.to_nat offset;
  if valid : bool then r ← rc_data c !! Z.to_nat offset; Some (Some r) else Some None.

Definition cache_contains (offset : Z) (c : regcache) : option bool :=
  assert_ (0 <=? offset) ;; rc_valid c !! Z.to_nat offset.

Definition cache_clear (offset : Z) (c : regcache) : option regcache :=
  assert_ ((0 <=? offset) && (Z.to_nat offset <? length (rc_valid c))%nat) ;;
  Some (RegCache (rc_data c) (<[Z.to_nat offset := false]> (rc_valid c))).

Definition cache_clear_all (c : regcache) : regcache :=
  RegCache (rc_data c) (replicate (length (rc_valid c)) false).

Definition cache_size (c : regcache) : nat := length (rc_data c).

(** ** [Layout] *)

Record layout := Layout {
  num_clients : Z;
  num_servers : Z;
  async_parallelism : Z;
  num_registers : Z;
  max_range : Z;
  majority : Z;
  cache_layers : Z;
  consult_cache : bool;
  layout_writeback : bool;
  client_local_region : Z;
}.

(** [sizeof(Register)] *)
Definition REG_SIZE : Z := 8.

(** [(size + 63) & ~63] *)
Definition align64 (size : Z) : Z := Z.land (u64 (size + 63)) (u64 (Z.lnot 63)).

Section Layout.
Context (L : layout).

Definition firstClientId : Z := u64 (num_servers L + 1).

Definition effectiveMajority : Z :=
  if majority L =? 0 then num_servers L / 2 + 1 else majority L.

Definition readBufsSize : Z := u64 (num_servers L * REG_SIZE).
Definition swapBufsSize : Z := u64 (num_servers L * REG_SIZE).
Definition bulkBufsSize : Z := u64 (u64 (num_servers L * max_range L) * REG_SIZE).

Definition perFutureSize : Z :=
  align64 (u64 (u64 (readBufsSize + swapBufsSize) + bulkBufsSize)).

Definition clientSize : Z := u64 (async_parallelism L * perFutureSize).
Definition serverSize : Z := u64 (num_registers L * REG_SIZE).

Definition getReadBufs (future_id : Z) : Z :=
  u64 (client_local_region L + u64 (future_id * perFutureSize)).
Definition getSwapBufs (future_id : Z) : Z :=
  u64 (u64 (client_local_region L + u64 (future_id * perFutureSize)) + readBufsSize).
Definition getBulkBufs (future_id : Z) : Z :=
  u64 (u64 (u64 (client_local_region L + u64 (future_id * perFutureSize)) + readBufsSize) + swapBufsSize).
End Layout.

Definition remoteAddrOf (remote_base key : Z) : Z := u64 (remote_base + u64 (key * REG_SIZE)).

(** ** Facts *)

Lemma land_ones_mod a n : 0 <= n -> Z.land a (Z.ones n) = a mod 2 ^ n.
Proof. apply Z.land_ones. Qed.

Lemma reg_fields_div raw : is_u64 raw ->
  reg_value raw = raw mod 2 ^ 32 /\ reg_client raw = raw / 2 ^ 32 mod 2 ^ 16 /\ reg_seq raw = raw / 2 ^ 48.
Proof.
  intros Hr. unfold reg_value, reg_client, reg_seq, is_u64 in *.
  rewrite !Z.land_ones, !Z.shiftr_div_pow2 by lia. split_and!; [done|done|].
  apply Z.mod_small. split; [apply Z.div_pos; lia|]. apply Z.div_lt_upper_bound; lia.
Qed.

Lemma reg_bounds raw :
  0 <= reg_value raw < 2 ^ 32 /\ 0 <= reg_client raw < 2 ^ 16 /\ 0 <= reg_seq raw < 2 ^ 16.
Proof.
  unfold reg_value, reg_client, reg_seq. rewrite !Z.land_ones by lia.
  split_and!; apply Z.mod_pos_bound; lia.
Qed.

Lemma lor_high a b n : 0 <= n -> 0 <= a < 2 ^ n -> 0 <= b -> Z.lor a (b * 2 ^ n) = a + b * 2 ^ n.
Proof.
  intros Hn Ha Hb. assert (Hl : Z.land a (b * 2 ^ n) = 0).
  { rewrite <- Z.shiftl_mul_pow2 by lia. apply Z.bits_inj'. intros i Hi. rewrite Z.land_spec, Z.bits_0.
    destruct (decide (i < n)); [by rewrite Z.shiftl_spec_low, andb_false_r by lia|].
    rewrite <- (Z.mod_small a (2 ^ n)), Z.mod_pow2_bits_high by lia. done. }
  by rewrite <- Z.lxor_lor, Z.add_nocarry_lxor by done.
Qed.

Lemma reg_make_sum s id v :
  0 <= v < 2 ^ 32 -> 0 <= id < 2 ^ 16 -> 0 <= s ->
  reg_make s id v = v + id * 2 ^ 32 + s * 2 ^ 48.
Proof.
  intros Hv Hi Hs. unfold reg_make. rewrite !Z.shiftl_mul_pow2 by lia.
  by rewrite (lor_high v id 32), (lor_high _ s 48) by lia.
Qed.

Lemma reg_make_fields s id v :
  0 <= v < 2 ^ 32 -> 0 <= id < 2 ^ 16 -> 0 <= s < 2 ^ 16 ->
  is_u64 (reg_make s id v) /\ reg_value (reg_make s id v) = v /\
  reg_client (reg_make s id v) = id /\ reg_seq (reg_make s id v) = s.
Proof.
  intros Hv Hi Hs. rewrite reg_make_sum by lia. assert (Hu : is_u64 (v + id * 2 ^ 32 + s * 2 ^ 48)) by (unfold is_u64; lia).
  destruct (reg_fields_div _ Hu) as (-> & -> & ->). split; [done|].
  replace (v + id * 2 ^ 32 + s * 2 ^ 48) with (v + (id + s * 2 ^ 16) * 2 ^ 32) by lia.
  rewrite Z.mod_add, (Z.div_add _ _ (2 ^ 32)), (Z.mod_small v), (Z.div_small v) by lia.
  split_and!; [done| |].
  - rewrite Z.add_0_l, Z.mod_add, Z.mod_small by lia. done.
  - replace (v + (id + s * 2 ^ 16) * 2 ^ 32) with ((v + id * 2 ^ 32) + s * 2 ^ 48) by lia.
    rewrite Z.div_add, Z.div_small by lia. lia.
Qed.

Lemma reg_make_of_fields raw : is_u64 raw -> reg_make (reg_seq raw) (reg_client raw) (reg_value raw) = raw.
Proof.
  intros Hr. pose proof (reg_bounds raw) as (? & ? & ?). rewrite reg_make_sum by lia.
  destruct (reg_fields_div raw Hr) as (-> & -> & ->).
  pose proof (Z.div_mod raw (2 ^ 32) ltac:(lia)). pose proof (Z.div_mod (raw / 2 ^ 32) (2 ^ 16) ltac:(lia)) as H'.
  rewrite Z.div_div in H' by lia. change (2 ^ 32 * 2 ^ 16) with (2 ^ 48) in H'. lia.
Qed.
