(* ===== verification/Latency.v ===== *)
(** * Latency: the latency profiler (disco-skip/src/latency.hpp)

    [LatencyProfiler] counts measurements in buckets, of widths that grow with
    the latency.  Durations are nanoseconds in [Z].  [std::lower_bound] over
    the groups, whose bounds increase, is the number of leading groups that
    satisfy its predicate.  [percentile] and the reports compute in floating
    point and print; they are not modelled. *)

From S2P Require Import Prelude.

Local Open Scope Z_scope.

Record group := Group { g_start : Z; g_end : Z; g_granularity : Z; g_indices : nat; g_start_idx : nat }.

(** [MeasurementGroup(start, end, granularity)]: throws when the granularity
    does not divide the range. *)
Definition group_new (start end_ granularity : Z) : option group :=
  let indices := Z.quot (end_ - start) granularity in
  assert_ (start + indices * granularity =? end_) ;;
  Some (Group start end_ granularity (Z.to_nat indices) 0).

(** The bounds the constructor gives, in nanoseconds. *)
Definition group_bounds : list (Z * Z * Z) :=
  [(0, 1000, 5); (1000, 10000, 10); (10000, 20000, 20); (20000, 50000, 100); (50000, 100000, 200);
   (100000, 500000, 1000); (500000, 1000000, 10000); (1000000, 10000000, 100000);
   (10000000, 100000000, 1000000); (100000000, 1000000000, 10000000);
   (1000000000, 10000000000, 100000000)].

Record profiler := Profiler {
  p_measurements : Z;
  p_groups : list group;
  p_freq : list Z;
  p_total : Z;
}.

(** The loop that numbers the buckets. *)
Fixpoint number_groups (start_idx : nat) (gs : list group) : list group * nat :=
  match gs with
  | [] => ([], start_idx)
  | g :: gs' =>
      let '(gs'', n) := number_groups (start_idx + g_indices g) gs' in
      (Group (g_start g) (g_end g) (g_granularity g) (g_indices g) start_idx :: gs'', n)
  end.

Definition profiler_new : option profiler :=
  gs ← mapM (fun b => group_new b.1.1 b.1.2 b.2) group_bounds;
  let '(gs', n) := number_groups 0 gs in
  Some (Profiler 0 gs' (replicate n 0) 0).

(** [std::lower_bound] with a predicate that holds on a prefix. *)
Fixpoint lower_bound {A : Type} (p : A -> bool) (l : list A) : nat :=
  match l with
  | [] => O
  | a :: l' => if p a then S (lower_bound p l') else O
  end.

Definition addMeasurement (d : Z) (p : profiler) : option profiler :=
  let p1 := Profiler (u64 (p_measurements p + 1)) (p_groups p) (p_freq p) (p_total p + d) in
  if d <? 0 then Some p1
  else
    back ← last (p_groups p);
    if g_end back <=? d then Some p1
    else
      let it := lower_bound (fun g => g_start g <=? d) (p_groups p) in
      assert_ (0 <? it)%nat ;;
      g ← p_groups p !! (it - 1)%nat;
      let freq_index := (g_start_idx g + Z.to_nat (Z.quot (d - g_start g) (g_granularity g)))%nat in
      n ← p_freq p !! freq_index;
      Some (Profiler (p_measurements p1) (p_groups p) (<[freq_index := u64 (n + 1)]> (p_freq p)) (p_total p1)).

Definition getMeasurementCount (p : profiler) : Z := p_measurements p.

(** ** Facts *)

(** Groups that follow each other, from time [t] and bucket [n] on. *)
Fixpoint chained (t : Z) (n : nat) (gs : list group) (t' : Z) (n' : nat) : Prop :=
  match gs with
  | [] => t = t' /\ n = n'
  | g :: gs' =>
      g_start g = t /\ g_start_idx g = n /\ 0 < g_granularity g /\
      g_end g = t + Z.of_nat (g_indices g) * g_granularity g /\ (0 < g_indices g)%nat /\
      chained (g_end g) (n + g_indices g) gs' t' n'
  end.

(** The bucket of a duration [d]: the [j]-th one of the group [g]. *)
Definition in_bucket (d : Z) (g : group) (j : nat) : Prop :=
  (j < g_indices g)%nat /\
  g_start g + Z.of_nat j * g_granularity g <= d < g_start g + (Z.of_nat j + 1) * g_granularity g.

Lemma chained_le t n gs t' n' : chained t n gs t' n' -> t <= t' /\ (n <= n')%nat.
Proof.
  revert t n. induction gs as [|g gs IH]; intros t n; cbn; [lia|].
  intros (H1 & H2 & H3 & H4 & H5 & H6). apply IH in H6. nia.
Qed.

Lemma chained_last t n gs t' n' : chained t n gs t' n' -> gs <> [] -> exists g, last gs = Some g /\ g_end g = t'.
Proof.
  revert t n. induction gs as [|g gs IH]; intros t n; [done|]. cbn [chained].
  intros (_ & _ & _ & _ & _ & H) _. destruct gs as [|g' gs].
  - destruct H as [H _]. by exists g.
  - destruct (IH _ _ H) as (g'' & Hg & He); [done|]. exists g''. split; [by rewrite last_cons_cons|done].
Qed.

(** A duration in the range of the groups falls into the group that the
    search finds, and into one of its buckets. *)
Lemma chained_find t n gs t' n' d :
  chained t n gs t' n' -> t <= d < t' ->
  exists g j, gs !! (lower_bound (fun g => g_start g <=? d)%Z gs - 1)%nat = Some g /\
    (0 < lower_bound (fun g => g_start g <=? d)%Z gs)%nat /\
    Z.to_nat (Z.quot (d - g_start g) (g_granularity g)) = j /\ in_bucket d g j /\
    (g_start_idx g + j < n')%nat.
Proof.
  revert t n. induction gs as [|g gs IH]; intros t n Hc Hd; cbn in Hc; [lia|].
  destruct Hc as (H1 & H2 & H3 & H4 & H5 & H6). cbn [lower_bound].
  rewrite (proj2 (Z.leb_le _ _)) by lia. cbn [Nat.sub]. rewrite Nat.sub_0_r.
  destruct (decide (d < g_end g)) as [Hlt|Hge].
  - assert (Hlb : lower_bound (fun g0 => g_start g0 <=? d) gs = O).
    { destruct gs as [|g' gs]; [done|]. cbn in *. destruct H6 as [H6 _].
      by rewrite (proj2 (Z.leb_gt _ _)) by lia. }
    rewrite Hlb. exists g. eexists. split_and!; [done|lia|done| |].
    + unfold in_bucket. rewrite Z.quot_div_nonneg by lia.
      pose proof (Z.div_mod (d - g_start g) (g_granularity g) ltac:(lia)).
      pose proof (Z.mod_pos_bound (d - g_start g) (g_granularity g) ltac:(lia)).
      assert (0 <= (d - g_start g) / g_granularity g) by (apply Z.div_pos; lia).
      rewrite Z2Nat.id by lia. split; [|nia]. apply Nat2Z.inj_lt. rewrite Z2Nat.id by lia.
      apply Z.div_lt_upper_bound; nia.
    + apply chained_le in H6. rewrite Z.quot_div_nonneg by lia.
      assert (Z.to_nat ((d - g_start g) / g_granularity g) < g_indices g)%nat; [|lia].
      apply Nat2Z.inj_lt. rewrite Z2Nat.id by (apply Z.div_pos; lia). apply Z.div_lt_upper_bound; nia.
  - destruct (IH _ _ H6) as (g' & j & Hg & Hpos & Hj & Hb & Hn); [lia|]. exists g', j.
    destruct (lower_bound _ gs) as [|k] eqn:Hk; [lia|]. cbn [Nat.sub] in Hg. rewrite Nat.sub_0_r in Hg.
    split_and!; try done. lia.
Qed.

(** The range of a profiler. *)
Definition MAX_LATENCY : Z := 10 * 1000 * 1000 * 1000.

Definition profiler_ok (p : profiler) : Prop :=
  chained 0 0 (p_groups p) MAX_LATENCY (length (p_freq p)) /\ p_groups p <> [].

Lemma profiler_new_ok : exists p, profiler_new = Some p /\ profiler_ok p /\ p_measurements p = 0.
Proof.
  eexists. split; [vm_compute; reflexivity|]. split; [|done]. unfold profiler_ok.
  cbn [p_groups p_freq chained g_start g_end g_granularity g_indices g_start_idx].
  split; [|done]. split_and!; first [vm_compute; reflexivity|lia].
Qed.

(** Recording a latency never fails and counts it in its bucket.  On
    every profiler its constructor or earlier measurements gave,
    [addMeasurement] finds a bucket, inside the array, for each duration below
    ten seconds: the one whose bounds contain the duration, and no other count
    changes; durations outside the range change no bucket; and the groups stay
    as they are. *)
Theorem add_measurement_correct d p :
  profiler_ok p ->
  exists p', addMeasurement d p = Some p' /\ profiler_ok p' /\
    p_measurements p' = u64 (p_measurements p + 1) /\ p_total p' = p_total p + d /\ p_groups p' = p_groups p /\
    (~ 0 <= d < MAX_LATENCY -> p_freq p' = p_freq p) /\
    (0 <= d < MAX_LATENCY -> exists g j n, g ∈ p_groups p /\ in_bucket d g j /\
      p_freq p !! (g_start_idx g + j)%nat = Some n /\
      p_freq p' = <[(g_start_idx g + j)%nat := u64 (n + 1)]> (p_freq p)).
Proof.
  intros [Hc Hne]. unfold addMeasurement. destruct (chained_last _ _ _ _ _ Hc Hne) as (b & Hb & He).
  destruct (Z.ltb_spec d 0); [|rewrite Hb; cbn [mbind option_bind]; rewrite He; destruct (Z.leb_spec MAX_LATENCY d)].
  1,2: eexists; split; [done|]; split_and!; try done; lia.
  destruct (chained_find _ _ _ _ _ d Hc) as (g & j & Hg & Hpos & Hj & Hbk & Hn); [lia|].
  rewrite assert_true by (by apply Nat.ltb_lt). cbn [mbind option_bind]. rewrite Hg. cbn [mbind option_bind].
  rewrite Hj. destruct (lookup_lt_is_Some_2 (p_freq p) (g_start_idx g + j)) as [n Hl]; [done|].
  rewrite Hl. cbn [mbind option_bind]. eexists. split; [done|]. split_and!; try done; [|lia|].
  - unfold profiler_ok. cbn. by rewrite length_insert.
  - intros _. exists g, j, n. split_and!; try done. by eapply list_elem_of_lookup_2.
Qed.

(** 1.234 microseconds, in a new profiler. *)
Lemma add_measurement_correct_witness :
  exists p p', profiler_new = Some p /\ addMeasurement 1234 p = Some p' /\ p_measurements p' = 1 /\
    exists g j n, g ∈ p_groups p /\ in_bucket 1234 g j /\ p_freq p' = <[(g_start_idx g + j)%nat := u64 (n + 1)]> (p_freq p).
Proof.
  destruct profiler_new_ok as (p & Hp & Hok & H0).
  destruct (add_measurement_correct 1234 p Hok) as (p' & H1 & _ & H2 & _ & _ & _ & H3).
  destruct H3 as (g & j & n & H4 & H5 & _ & H6); [unfold MAX_LATENCY; lia|].
  exists p, p'. rewrite H0 in H2. split_and!; [exact Hp|exact H1|exact H2|]. exists g, j, n. auto.
Defined.
