(* ===== verification/DsNet.v ===== *)
(** * DsNet: the state of a disco-skip client and its network requests

    [DsState] (disco_skip_state.hpp) and the RDMA requests its futures post.
    The network card and the reliable connections are not this program's code:
    what the client relies on is written as [nic_exec], one request of one
    connection executed at the server, in the order of posting, with its
    result written to the client's buffer and its completion queued.  Servers
    are passive: their memory maps addresses to registers. *)

From S2P Require Import Prelude DsRegister Latency.

Local Open Scope Z_scope.

(** ** Memory *)

Definition memory : Type := Z -> Z.

Definition mem_set (a v : Z) (m : memory) : memory := fun b => if b =? a then v else m b.

(** [n] registers read from [src] into [dst]. *)
Fixpoint mem_copy (dst : Z) (m' : memory) (src : Z) (n : nat) (m : memory) : memory :=
  match n with
  | O => m
  | S n' => mem_copy (dst + REG_SIZE) m' (src + REG_SIZE) n' (mem_set dst (m' src) m)
  end.

(** ** Requests *)

Inductive wr_op :=
| RdmaRead (buf : Z) (registers : nat)
| RdmaCas (buf expected swap : Z).

Record wr := Wr { wr_id : Z; wr_addr : Z; wr_op_ : wr_op }.

(** ** The state of a client *)

(** What the constructor of [DsState] computes once. *)
Record config := Config {
  dc_layout : layout;
  dc_client_idx : Z;
  dc_quorum : nat;
  dc_indices : list nat;
}.

Definition quorum_of (L : layout) : Z :=
  if majority L =? 0 then num_servers L / 2 + 1 else majority L.

(** [client_idx] is a [uint8_t]. *)
Definition client_idx_of (L : layout) (proc_id : Z) : Z := u64 (proc_id - firstClientId L) mod 2 ^ 8.

Definition config_new (L : layout) (proc_id : Z) : config :=
  let m := quorum_of L in
  let L' := Layout (num_clients L) (num_servers L) (async_parallelism L) (num_registers L)
              (max_range L) m (cache_layers L) (consult_cache L) (layout_writeback L) (client_local_region L) in
  let idx := client_idx_of L proc_id in
  Config L' idx (Z.to_nat m)
    (map (fun i => Z.to_nat ((idx + Z.of_nat i) mod num_servers L)) (seq 0 (Z.to_nat m))).

Record counters := Counters {
  rdma_reads : Z;
  rdma_cas_attempts : Z;
  rdma_cas_failures : Z;
  gets_with_writeback : Z;
  gets_without_writeback : Z;
  put_retries : Z;
  cache_hits : Z;
  cache_misses : Z;
}.

Definition countRead (c : counters) : counters :=
  Counters (u64 (rdma_reads c + 1)) (rdma_cas_attempts c) (rdma_cas_failures c) (gets_with_writeback c)
    (gets_without_writeback c) (put_retries c) (cache_hits c) (cache_misses c).
Definition countCasAttempt (c : counters) : counters :=
  Counters (rdma_reads c) (u64 (rdma_cas_attempts c + 1)) (rdma_cas_failures c) (gets_with_writeback c)
    (gets_without_writeback c) (put_retries c) (cache_hits c) (cache_misses c).
Definition countCasFail (c : counters) : counters :=
  Counters (rdma_reads c) (rdma_cas_attempts c) (u64 (rdma_cas_failures c + 1)) (gets_with_writeback c)
    (gets_without_writeback c) (put_retries c) (cache_hits c) (cache_misses c).
Definition countWriteback (yes : bool) (c : counters) : counters :=
  Counters (rdma_reads c) (rdma_cas_attempts c) (rdma_cas_failures c)
    (if yes then u64 (gets_with_writeback c + 1) else gets_with_writeback c)
    (if yes then gets_without_writeback c else u64 (gets_without_writeback c + 1))
    (put_retries c) (cache_hits c) (cache_misses c).
Definition countRetry (c : counters) : counters :=
  Counters (rdma_reads c) (rdma_cas_attempts c) (rdma_cas_failures c) (gets_with_writeback c)
    (gets_without_writeback c) (u64 (put_retries c + 1)) (cache_hits c) (cache_misses c).
Definition metrics_cache_hit (c : counters) : counters :=
  Counters (rdma_reads c) (rdma_cas_attempts c) (rdma_cas_failures c) (gets_with_writeback c)
    (gets_without_writeback c) (put_retries c) (u64 (cache_hits c + 1)) (cache_misses c).
Definition metrics_cache_miss (c : counters) : counters :=
  Counters (rdma_reads c) (rdma_cas_attempts c) (rdma_cas_failures c) (gets_with_writeback c)
    (gets_without_writeback c) (put_retries c) (cache_hits c) (u64 (cache_misses c + 1)).

Record profilers := Profilers { get_profiler : profiler; put_profiler : profiler; range_profiler : profiler }.

(** The client's memory region, its connections (requests posted and not yet
    executed, completions not yet polled), the counts of requests to poll, the
    counters, the cached registers and the profilers. *)
Record client := Client {
  c_mr : memory;
  c_sq : list (list wr);
  c_cq : list (list Z);
  c_poll : list Z;
  c_cnt : counters;
  c_cache : regcache;
  c_prof : profilers;
}.

Definition with_mr (m : memory) (c : client) : client :=
  Client m (c_sq c) (c_cq c) (c_poll c) (c_cnt c) (c_cache c) (c_prof c).
Definition with_cnt (f : counters -> counters) (c : client) : client :=
  Client (c_mr c) (c_sq c) (c_cq c) (c_poll c) (f (c_cnt c)) (c_cache c) (c_prof c).
Definition with_cache (k : regcache) (c : client) : client :=
  Client (c_mr c) (c_sq c) (c_cq c) (c_poll c) (c_cnt c) k (c_prof c).
Definition with_prof (p : profilers) (c : client) : client :=
  Client (c_mr c) (c_sq c) (c_cq c) (c_poll c) (c_cnt c) (c_cache c) p.

Definition addGetMeasurement (d : Z) (c : client) : option client :=
  p ← addMeasurement d (get_profiler (c_prof c));
  Some (with_prof (Profilers p (put_profiler (c_prof c)) (range_profiler (c_prof c))) c).
Definition addPutMeasurement (d : Z) (c : client) : option client :=
  p ← addMeasurement d (put_profiler (c_prof c));
  Some (with_prof (Profilers (get_profiler (c_prof c)) p (range_profiler (c_prof c))) c).
Definition addRangeMeasurement (d : Z) (c : client) : option client :=
  p ← addMeasurement d (range_profiler (c_prof c));
  Some (with_prof (Profilers (get_profiler (c_prof c)) (put_profiler (c_prof c)) p) c).

(** [DsState(layout, rcx, proc_id)], over a region that holds [mr]. *)
Definition client_new (cfg : config) (mr : memory) : option client :=
  p ← profiler_new;
  let n := Z.to_nat (num_servers (dc_layout cfg)) in
  Some (Client mr (replicate n []) (replicate n []) (replicate n 0) (Counters 0 0 0 0 0 0 0 0)
    (cache_new (Z.to_nat (num_registers (dc_layout cfg)))) (Profilers p p p)).

(** A request posted on the connection to server [r], and counted in
    [to_poll_per_server[r]]. *)
Definition post (r : nat) (w : wr) (c : client) : option client :=
  q ← c_sq c !! r; n ← c_poll c !! r;
  Some (Client (c_mr c) (<[r := q ++ [w]]> (c_sq c)) (c_cq c) (<[r := n + 1]> (c_poll c))
    (c_cnt c) (c_cache c) (c_prof c)).

(** [ongoing_per_server[r] += n] *)
Definition bump (r : nat) (n : Z) (l : list Z) : option (list Z) := x ← l !! r; Some (<[r := x + n]> l).

(** [a[i] = x] on a fixed array. *)
Definition upd {A : Type} (i : nat) (x : A) (l : list A) : option (list A) :=
  assert_ (i <? length l)%nat ;; Some (<[i := x]> l).

(** [for (i = 0; i < n; ++i)]: [n] rounds from [i]. *)
Fixpoint for_loop {A : Type} (n i : nat) (body : nat -> A -> option A) (s : A) : option A :=
  match n with
  | O => Some s
  | S n' => s' ← body i s; for_loop n' (S i) body s'
  end.

(** ** The network *)

(** Execute the next request of the connection to server [r]. *)
Definition nic_exec (r : nat) (servers : nat -> memory) (c : client)
    : option ((nat -> memory) * client) :=
  q ← c_sq c !! r; done_ ← c_cq c !! r;
  match q with
  | [] => None
  | Wr id addr op :: q' =>
      let c' m := Client m (<[r := q']> (c_sq c)) (<[r := done_ ++ [id]]> (c_cq c)) (c_poll c)
                    (c_cnt c) (c_cache c) (c_prof c) in
      match op with
      | RdmaRead buf n => Some (servers, c' (mem_copy buf (servers r) addr n (c_mr c)))
      | RdmaCas buf expected swap =>
          let old := servers r addr in
          let m := mem_set buf old (c_mr c) in
          Some ((fun r' => if (r' =? r)%nat && (old =? expected) then mem_set addr swap (servers r') else servers r'),
                c' m)
      end
  end.

(** ** Facts *)

Lemma for_loop_inv {A : Type} (I : nat -> A -> Prop) n i body s :
  I i s ->
  (forall j t, (i <= j < i + n)%nat -> I j t -> exists t', body j t = Some t' /\ I (S j) t') ->
  exists s', for_loop n i body s = Some s' /\ I (i + n)%nat s'.
Proof.
  revert i s. induction n as [|n IH]; intros i s HI Hb.
  { exists s. by rewrite Nat.add_0_r. }
  destruct (Hb i s) as (s1 & H1 & HI1); [lia|done|]. cbn [for_loop]. rewrite H1. cbn [mbind option_bind].
  destruct (IH (S i) s1 HI1) as (s' & H2 & HI2); [intros; apply Hb; [lia|done]|].
  exists s'. split; [done|]. by rewrite Nat.add_succ_r.
Qed.

(** The same when the loop is known to end. *)
Lemma for_loop_ind {A : Type} (I : nat -> A -> Prop) n i body s s' :
  for_loop n i body s = Some s' -> I i s ->
  (forall j t t', (i <= j < i + n)%nat -> I j t -> body j t = Some t' -> I (S j) t') ->
  I (i + n)%nat s'.
Proof.
  revert i s. induction n as [|n IH]; intros i s Hf HI Hb; cbn [for_loop] in Hf.
  { injection Hf as <-. by rewrite Nat.add_0_r. }
  destruct (body i s) as [s1|] eqn:H1; [|done]. cbn [mbind option_bind] in Hf.
  rewrite Nat.add_succ_r, <- Nat.add_succ_l. apply (IH (S i) s1 Hf).
  - apply (Hb i s); [lia|done|done].
  - intros j t t' Hj. apply Hb. lia.
Qed.
