(* ===== verification/DsFutures.v ===== *)
(** * DsFutures: gets, puts and ranges as futures

    [GetFuture], [PutFuture] and [RangeFuture] are state machines: [doGet],
    [doPut] and [doRange] post the first requests, and [tryStepForward] takes
    the next step once every request the future posted has completed.  A
    future is a record of its members, a step is a function of the future and
    of the client; [None] is a thrown exception or an access out of range.
    The compile-time toggles [DS_REG_CACHE_ENABLED] and
    [DS_REG_WRITEBACK_ENABLED] are parameters, as is the address of each
    server's registers. *)

From S2P Require Import Prelude DsRegister Latency DsNet.

Local Open Scope Z_scope.

Definition kMaxQuorum : nat := 8.

(** [for (auto x : ongoing_per_server) if (x > 0) return false] *)
Definition some_ongoing (ongoing : list Z) : bool := existsb (fun x => 0 <? x) ongoing.

Inductive get_step := GReading | GWritingBack | GDone.

Record get_future := GetFuture {
  gf_id : Z; gf_step : get_step; gf_key : Z; gf_ongoing : list Z; gf_max_reg : Z; gf_max_count : Z;
  gf_expected : list Z; gf_result : Z; gf_measuring : bool; gf_start : Z;
}.

Inductive put_step := PReadSeq | POptimisticChain | PCas | PDone.

Record put_future := PutFuture {
  pf_id : Z; pf_step : put_step; pf_key : Z; pf_value : Z; pf_ongoing : list Z; pf_needs : list bool;
  pf_expected : list Z; pf_target : Z; pf_success : Z; pf_measuring : bool; pf_start : Z;
}.

Inductive range_step := RReading | RDone.

Record range_future := RangeFuture {
  rf_id : Z; rf_step : range_step; rf_start_key : Z; rf_range_len : Z; rf_ongoing : list Z;
  rf_results : list Z; rf_measuring : bool; rf_start : Z;
}.

Section Futures.
Context (remote_base : nat -> Z) (cfg : config) (reg_cache writeback : bool).

Local Abbreviation L := (dc_layout cfg) (only parsing).
Local Abbreviation quorum := (dc_quorum cfg) (only parsing).

Definition read_buf (id : Z) (r : nat) : Z := u64 (getReadBufs L id + Z.of_nat r * REG_SIZE).
Definition swap_buf (id : Z) (r : nat) : Z := u64 (getSwapBufs L id + Z.of_nat r * REG_SIZE).
Definition bulk_buf (id : Z) (r : nat) (off : Z) : Z :=
  u64 (getBulkBufs L id + (Z.of_nat r * max_range L + off) * REG_SIZE).

Definition remote_addr (r : nat) (key : Z) : Z := remoteAddrOf (remote_base r) key.

(** ** [GetFuture] *)

(** The constructor; members it does not initialise hold junk. *)
Definition get_new (id junk : Z) : option get_future :=
  assert_ (quorum <=? kMaxQuorum)%nat ;;
  Some (GetFuture id GDone junk (replicate (Z.to_nat (num_servers L)) 0) 0 0 (replicate kMaxQuorum junk) 0 false junk).

Definition gf_with (f : get_future) (step : get_step) (ongoing : list Z) : get_future :=
  GetFuture (gf_id f) step (gf_key f) ongoing (gf_max_reg f) (gf_max_count f) (gf_expected f)
    (gf_result f) (gf_measuring f) (gf_start f).

(** The loop of [doGet]: one read on each connection of the quorum. *)
Definition post_reads (id key : Z) (s : list Z * client) : option (list Z * client) :=
  for_loop quorum 0 (fun i '(ongoing, c) =>
    r ← dc_indices cfg !! i;
    c ← post r (Wr id (remote_addr r key) (RdmaRead (read_buf id r) 1)) c;
    ongoing ← bump r 1 ongoing;
    Some (ongoing, c)) s.

Definition doGet (key : Z) (measuring : bool) (now : Z) (f : get_future) (c : client)
    : option (get_future * client) :=
  '(ongoing, c) ← post_reads (gf_id f) key (gf_ongoing f, c);
  Some (GetFuture (gf_id f) GReading key ongoing 0 0 (gf_expected f) (gf_result f) measuring
          (if measuring then now else gf_start f), c).

Definition postWriteback (f : get_future) (c : client) : option (list Z * client) :=
  for_loop quorum 0 (fun i '(ongoing, c) =>
    e ← gf_expected f !! i;
    if e =? gf_max_reg f then Some (ongoing, c)
    else
      r ← dc_indices cfg !! i;
      c ← post r (Wr (gf_id f) (remote_addr r (gf_key f))
                    (RdmaCas (swap_buf (gf_id f) r) e (gf_max_reg f))) c;
      ongoing ← bump r 1 ongoing;
      Some (ongoing, with_cnt countCasAttempt c)) (gf_ongoing f, c).

(** The loop of step [Reading]: [expected], [max_reg], [max_count]. *)
Definition get_collect (f : get_future) (c : client) : option (list Z * Z * Z * client) :=
  for_loop quorum 0 (fun i '(expected, max_reg, max_count, c) =>
    r ← dc_indices cfg !! i;
    let reg := c_mr c (read_buf (gf_id f) r) in
    expected ← upd i reg expected;
    let c := with_cnt countRead c in
    if reg_lt max_reg reg then Some (expected, reg, 1, c)
    else if reg =? max_reg then Some (expected, max_reg, u64 (max_count + 1), c)
    else Some (expected, max_reg, max_count, c)) (gf_expected f, gf_max_reg f, gf_max_count f, c).

Definition get_measure (f : get_future) (now : Z) (c : client) : option client :=
  if gf_measuring f then addGetMeasurement (now - gf_start f) c else Some c.

Definition get_tryStepForward (now : Z) (f : get_future) (c : client) : option (bool * get_future * client) :=
  if some_ongoing (gf_ongoing f) then Some (false, f, c)
  else match gf_step f with
  | GReading =>
      '(expected, max_reg, max_count, c) ← get_collect f c;
      c ← (if reg_cache then k ← cache_put (gf_key f) max_reg (c_cache c); Some (with_cache k c) else Some c);
      let f := GetFuture (gf_id f) GReading (gf_key f) (gf_ongoing f) max_reg max_count expected
                 (reg_value max_reg) (gf_measuring f) (gf_start f) in
      if writeback && (max_count <? Z.of_nat quorum) then
        let c := with_cnt (countWriteback true) c in
        '(ongoing, c) ← postWriteback f c;
        Some (true, gf_with f GWritingBack ongoing, c)
      else
        let c := with_cnt (countWriteback false) c in
        c ← get_measure f now c;
        Some (true, gf_with f GDone (gf_ongoing f), c)
  | GWritingBack =>
      c ← for_loop quorum 0 (fun i c =>
            e ← gf_expected f !! i;
            if e =? gf_max_reg f then Some c
            else
              r ← dc_indices cfg !! i;
              if c_mr c (swap_buf (gf_id f) r) =? e then Some c else Some (with_cnt countCasFail c)) c;
      c ← get_measure f now c;
      Some (true, gf_with f GDone (gf_ongoing f), c)
  | GDone => Some (true, f, c)
  end.

(** ** [PutFuture] *)

Definition put_new (id junk : Z) : option put_future :=
  assert_ (quorum <=? kMaxQuorum)%nat ;;
  Some (PutFuture id PDone junk junk (replicate (Z.to_nat (num_servers L)) 0)
    (replicate (Z.to_nat (num_servers L)) false) (replicate kMaxQuorum junk) 0 0 false junk).

(** [Register(static_cast<uint16_t>(seq), client_idx, static_cast<uint32_t>(value))] *)
Definition target_of (seq value : Z) : Z := reg_make (u16 seq) (u16 (dc_client_idx cfg)) (u32 value).

(** [postCas()], on [needs_cas], [expected] and the target. *)
Definition postCas (f : put_future) (needs : list bool) (expected : list Z) (target : Z) (c : client)
    : option (list Z * client) :=
  for_loop quorum 0 (fun i '(ongoing, c) =>
    r ← dc_indices cfg !! i;
    need ← needs !! r;
    if negb need then Some (ongoing, c)
    else
      e ← expected !! i;
      c ← post r (Wr (pf_id f) (remote_addr r (pf_key f)) (RdmaCas (swap_buf (pf_id f) r) e target)) c;
      ongoing ← bump r 1 ongoing;
      Some (ongoing, with_cnt countCasAttempt c)) (pf_ongoing f, c).

(** [postOptimisticChain(slot)] *)
Definition postOptimisticChain (f : put_future) (slot : nat) (expected : list Z) (target : Z)
    (s : list Z * client) : option (list Z * client) :=
  let '(ongoing, c) := s in
  r ← dc_indices cfg !! slot;
  e ← expected !! slot;
  c ← post r (Wr (pf_id f) (remote_addr r (pf_key f)) (RdmaCas (swap_buf (pf_id f) r) e target)) c;
  ongoing ← bump r 1 ongoing;
  Some (ongoing, with_cnt countCasAttempt c).

(** The members a put starts with. *)
Definition put_start (key value : Z) (measuring : bool) (now : Z) (f : put_future) : put_future :=
  PutFuture (pf_id f) (pf_step f) key value (pf_ongoing f) (replicate (length (pf_needs f)) false)
    (pf_expected f) (pf_target f) 0 measuring (if measuring then now else pf_start f).

Definition pf_with (f : put_future) (step : put_step) (ongoing : list Z) (needs : list bool)
    (expected : list Z) (target success : Z) : put_future :=
  PutFuture (pf_id f) step (pf_key f) (pf_value f) ongoing needs expected target success
    (pf_measuring f) (pf_start f).

Definition doPut (key value : Z) (measuring : bool) (now : Z) (f : put_future) (c : client)
    : option (put_future * client) :=
  let f := put_start key value measuring now f in
  cached ← (if reg_cache then cache_get key (c_cache c) else Some None);
  match cached with
  | Some reg =>
      let c := with_cnt metrics_cache_hit c in
      let target := target_of (reg_seq reg + 1) value in
      '(needs, expected, (ongoing, c)) ← for_loop quorum 0 (fun i '(needs, expected, s) =>
          expected ← upd i reg expected;
          r ← dc_indices cfg !! i;
          needs ← upd r true needs;
          s ← postOptimisticChain f i expected target s;
          Some (needs, expected, s)) (pf_needs f, pf_expected f, (pf_ongoing f, c));
      Some (pf_with f POptimisticChain ongoing needs expected target 0, c)
  | None =>
      let c := if reg_cache then with_cnt metrics_cache_miss c else c in
      '(ongoing, c) ← post_reads (pf_id f) key (pf_ongoing f, c);
      Some (pf_with f PReadSeq ongoing (pf_needs f) (pf_expected f) (pf_target f) 0, c)
  end.

(** Step [ReadSeq]: [expected], [needs_cas] and the greatest sequence number. *)
Definition put_collect (f : put_future) (c : client) : option (list Z * list bool * Z * client) :=
  for_loop quorum 0 (fun i '(expected, needs, z_max, c) =>
    r ← dc_indices cfg !! i;
    let reg := c_mr c (read_buf (pf_id f) r) in
    expected ← upd i reg expected;
    needs ← upd r true needs;
    Some (expected, needs, Z.max z_max (reg_seq reg), with_cnt countRead c)) (pf_expected f, pf_needs f, 0, c).

(** Step [OptimisticChain], its first loop. *)
Definition put_optimistic (f : put_future) (c : client) : option (list bool * list Z * Z * Z * client) :=
  for_loop quorum 0 (fun i '(needs, expected, z_max, success, c) =>
    r ← dc_indices cfg !! i;
    let observed := c_mr c (swap_buf (pf_id f) r) in
    let c := with_cnt countRead c in
    e ← expected !! i;
    if observed =? e then
      needs ← upd r false needs; Some (needs, expected, z_max, u64 (success + 1), c)
    else
      expected ← upd i observed expected;
      Some (needs, expected, Z.max z_max (reg_seq observed), success, with_cnt countCasFail c))
    (pf_needs f, pf_expected f, u16 (reg_seq (pf_target f) - 1), pf_success f, c).

(** Its second loop: the replicas that succeeded hold the target. *)
Definition put_expect_target (f : put_future) (needs : list bool) (expected : list Z) : option (list Z) :=
  for_loop quorum 0 (fun i expected =>
    r ← dc_indices cfg !! i;
    need ← needs !! r;
    if negb need then upd i (pf_target f) expected else Some expected) expected.

(** The inner loop of step [CAS], which resets every replica. *)
Definition put_reset (f : put_future) (c : client) (needs : list bool) (expected : list Z)
    : option (list bool * list Z) :=
  for_loop quorum 0 (fun j '(needs, expected) =>
    rj ← dc_indices cfg !! j;
    needs ← upd rj true needs;
    expected ← upd j (c_mr c (swap_buf (pf_id f) rj)) expected;
    Some (needs, expected)) (needs, expected).

(** Step [CAS]: [needs_cas], [expected], the target and [success_count]. *)
Definition put_check (f : put_future) (c : client) : option (list bool * list Z * Z * Z * client) :=
  for_loop quorum 0 (fun i '(needs, expected, target, success, c) =>
    r ← dc_indices cfg !! i;
    need ← needs !! r;
    if negb need then Some (needs, expected, target, success, c)
    else
      let observed := c_mr c (swap_buf (pf_id f) r) in
      e ← expected !! i;
      if observed =? e then
        needs ← upd r false needs; Some (needs, expected, target, u64 (success + 1), c)
      else
        let c := with_cnt countCasFail c in
        expected ← upd i observed expected;
        if reg_seq target <=? reg_seq observed then
          let target := target_of (reg_seq observed + 1) (pf_value f) in
          '(needs, expected) ← put_reset f c needs expected;
          Some (needs, expected, target, 0, c)
        else Some (needs, expected, target, success, c))
    (pf_needs f, pf_expected f, pf_target f, pf_success f, c).

(** The end of a put: the target is cached and the latency recorded. *)
Definition put_done (f : put_future) (now target : Z) (c : client) : option client :=
  c ← (if reg_cache then k ← cache_put (pf_key f) target (c_cache c); Some (with_cache k c) else Some c);
  if pf_measuring f then addPutMeasurement (now - pf_start f) c else Some c.

Definition put_tryStepForward (now : Z) (f : put_future) (c : client) : option (bool * put_future * client) :=
  if some_ongoing (pf_ongoing f) then Some (false, f, c)
  else match pf_step f with
  | PReadSeq =>
      '(expected, needs, z_max, c) ← put_collect f c;
      let target := target_of (z_max + 1) (pf_value f) in
      '(ongoing, c) ← postCas f needs expected target c;
      Some (true, pf_with f PCas ongoing needs expected target (pf_success f), c)
  | POptimisticChain =>
      '(needs, expected, z_max, success, c) ← put_optimistic f c;
      expected ← put_expect_target f needs expected;
      if Z.of_nat quorum <=? success then
        c ← put_done f now (pf_target f) c;
        Some (true, pf_with f PDone (pf_ongoing f) needs expected (pf_target f) success, c)
      else
        let c := with_cnt countRetry c in
        let target := target_of (z_max + 1) (pf_value f) in
        '(ongoing, c) ← postCas f needs expected target c;
        Some (true, pf_with f PCas ongoing needs expected target success, c)
  | PCas =>
      '(needs, expected, target, success, c) ← put_check f c;
      if Z.of_nat quorum <=? success then
        c ← put_done f now target c;
        Some (true, pf_with f PDone (pf_ongoing f) needs expected target success, c)
      else
        let c := with_cnt countRetry c in
        '(ongoing, c) ← postCas f needs expected target c;
        Some (true, pf_with f PCas ongoing needs expected target success, c)
  | PDone => Some (true, f, c)
  end.

(** ** [RangeFuture] *)

Definition range_new (id junk : Z) : range_future :=
  RangeFuture id RDone 0 0 (replicate (Z.to_nat (num_servers L)) 0) [] false junk.

(** The bit that marks the requests of a range. *)
Definition RANGE_BIT : Z := 2 ^ 63.

Definition doRange (sk ek : Z) (measuring : bool) (now : Z) (f : range_future) (c : client)
    : option (range_future * client) :=
  let range_len := u64 (u64 (ek - sk) + 1) in
  assert_ (range_len <=? max_range L) ;;
  '(ongoing, c) ← for_loop quorum 0 (fun i '(ongoing, c) =>
      r ← dc_indices cfg !! i;
      let bytes := u32 (u64 (range_len * REG_SIZE)) in
      c ← post r (Wr (Z.lor (rf_id f) RANGE_BIT) (remote_addr r sk)
                    (RdmaRead (bulk_buf (rf_id f) r 0) (Z.to_nat (bytes / REG_SIZE)))) c;
      ongoing ← bump r 1 ongoing;
      Some (ongoing, c)) (rf_ongoing f, c);
  Some (RangeFuture (rf_id f) RReading sk range_len ongoing (rf_results f) measuring
          (if measuring then now else rf_start f), c).

(** [acc[off] = max(acc[off], src[off])], [n] rounds from [off]. *)
Fixpoint merge_regs (id : Z) (r0 r : nat) (off : Z) (n : nat) (m : memory) : memory :=
  match n with
  | O => m
  | S n' =>
      let a := m (bulk_buf id r0 off) in
      let s := m (bulk_buf id r off) in
      merge_regs id r0 r (off + 1) n' (if reg_lt a s then mem_set (bulk_buf id r0 off) s m else m)
  end.

Definition range_measure (f : range_future) (now : Z) (c : client) : option client :=
  if rf_measuring f then addRangeMeasurement (now - rf_start f) c else Some c.

Definition range_tryStepForward (now : Z) (f : range_future) (c : client)
    : option (bool * range_future * client) :=
  if some_ongoing (rf_ongoing f) then Some (false, f, c)
  else match rf_step f with
  | RReading =>
      let n := Z.to_nat (rf_range_len f) in
      r0 ← dc_indices cfg !! O;
      let c := with_cnt countRead c in
      m ← for_loop (quorum - 1) 1 (fun i m =>
            r ← dc_indices cfg !! i; Some (merge_regs (rf_id f) r0 r 0 n m)) (c_mr c);
      let c := with_mr m c in
      '(results, c) ← for_loop n 0 (fun off '(results, c) =>
          let reg := c_mr c (bulk_buf (rf_id f) r0 (Z.of_nat off)) in
          results ← upd off (reg_value reg) results;
          c ← (if reg_cache then
                 k ← cache_put (u64 (rf_start_key f + Z.of_nat off)) reg (c_cache c); Some (with_cache k c)
               else Some c);
          Some (results, c)) (replicate n 0, c);
      c ← range_measure f now c;
      Some (true, RangeFuture (rf_id f) RDone (rf_start_key f) (rf_range_len f) (rf_ongoing f) results
                    (rf_measuring f) (rf_start f), c)
  | RDone => Some (true, f, c)
  end.
End Futures.

Definition get_isDone (f : get_future) : bool := match gf_step f with GDone => true | _ => false end.
Definition getValue (f : get_future) : Z := gf_result f.
Definition get_addToOngoing (r : nat) (n : Z) (f : get_future) : option get_future :=
  o ← bump r n (gf_ongoing f); Some (gf_with f (gf_step f) o).

Definition put_isDone (f : put_future) : bool := match pf_step f with PDone => true | _ => false end.
Definition put_addToOngoing (r : nat) (n : Z) (f : put_future) : option put_future :=
  o ← bump r n (pf_ongoing f);
  Some (pf_with f (pf_step f) o (pf_needs f) (pf_expected f) (pf_target f) (pf_success f)).

Definition range_isDone (f : range_future) : bool := match rf_step f with RDone => true | _ => false end.
Definition getResults (f : range_future) : list Z := rf_results f.
Definition range_addToOngoing (r : nat) (n : Z) (f : range_future) : option range_future :=
  o ← bump r n (rf_ongoing f);
  Some (RangeFuture (rf_id f) (rf_step f) (rf_start_key f) (rf_range_len f) o (rf_results f)
          (rf_measuring f) (rf_start f)).
