(* ===== verification/DsLayout.v ===== *)
(** * DsLayout: the buffers of a client and the registers of a server

    The address arithmetic of [layout.hpp] on 64-bit words is exact as long as
    the region fits into the address space; the buffers of different futures,
    servers and purposes are then disjoint and inside the region. *)

From S2P Require Import Prelude DsRegister DsNet DsFutures.

Local Open Scope Z_scope.

(** The region, and the client's futures, fit into the address space. *)
Definition layout_ok (L : layout) : Prop :=
  0 < num_servers L /\ 0 < async_parallelism L /\ 0 <= max_range L /\ 0 <= client_local_region L /\
  client_local_region L + async_parallelism L * (8 * (2 * num_servers L + num_servers L * max_range L) + 64) < 2 ^ 64.

(** The size of a future's buffers, rounded up to a multiple of 64. *)
Definition future_size (L : layout) : Z :=
  (8 * (2 * num_servers L + num_servers L * max_range L) + 63) / 64 * 64.

Lemma align64_spec x : 0 <= x -> x + 63 < 2 ^ 64 -> align64 x = (x + 63) / 64 * 64.
Proof.
  intros H0 H1. unfold align64. rewrite (u64_small (x + 63)) by (unfold is_u64; lia).
  assert (Hm : u64 (Z.lnot 63) = Z.land (Z.lnot (Z.ones 6)) (Z.ones 64)).
  { rewrite Z.land_ones by lia. reflexivity. }
  rewrite Hm, (Z.land_comm (Z.lnot _)), Z.land_assoc, Z.land_ones, Z.mod_small by lia.
  rewrite <- Z.ldiff_land, Z.ldiff_ones_r by lia.
  by rewrite Z.shiftl_mul_pow2, Z.shiftr_div_pow2 by lia.
Qed.

Section Layout.
Context (L : layout) (HL : layout_ok L).

Local Abbreviation n := (num_servers L).
Local Abbreviation F := (future_size L).
Local Abbreviation region := (client_local_region L).

Lemma future_size_bounds :
  8 * (2 * n + n * max_range L) <= F < 8 * (2 * n + n * max_range L) + 64 /\ F mod 64 = 0.
Proof.
  unfold future_size. set (s := 8 * (2 * n + n * max_range L)).
  pose proof (Z.div_mod (s + 63) 64 ltac:(lia)). pose proof (Z.mod_pos_bound (s + 63) 64 ltac:(lia)).
  split; [lia|]. apply Z.mod_mul. lia.
Qed.

(** A future index times the size does not overflow. *)
Lemma future_offset id : 0 <= id < async_parallelism L ->
  0 <= id * F /\ region + id * F + F < 2 ^ 64 /\ (id + 1) * F <= async_parallelism L * F.
Proof.
  intros Hid. destruct HL as (H1 & H2 & H3 & H4 & H5). destruct future_size_bounds as [HF _]. nia.
Qed.

Lemma sizes_exact :
  readBufsSize L = 8 * n /\ swapBufsSize L = 8 * n /\ bulkBufsSize L = 8 * (n * max_range L) /\ perFutureSize L = F.
Proof.
  destruct HL as (H1 & H2 & H3 & H4 & H5).
  assert (Hb : 0 <= n * max_range L) by nia.
  assert (Hs : 8 * (2 * n + n * max_range L) + 64 < 2 ^ 64) by nia.
  unfold perFutureSize, readBufsSize, swapBufsSize, bulkBufsSize, REG_SIZE.
  rewrite !(u64_small (n * 8)), (u64_small (n * max_range L)), (u64_small (n * max_range L * 8)),
    (u64_small (n * 8 + n * 8)), (u64_small (n * 8 + n * 8 + n * max_range L * 8)) by (unfold is_u64; lia).
  rewrite align64_spec by lia. unfold future_size. split_and!; [lia|lia|lia|do 2 f_equal; lia].
Qed.

Lemma region_fits : region + async_parallelism L * F < 2 ^ 64.
Proof.
  destruct HL as (H1 & H2 & H3 & H4 & H5). destruct future_size_bounds as [[_ Hb] _].
  apply Z.lt_le_incl, (Z.mul_le_mono_nonneg_l _ _ (async_parallelism L)) in Hb; lia.
Qed.

Lemma clientSize_exact : clientSize L = async_parallelism L * F.
Proof.
  destruct sizes_exact as (_ & _ & _ & HF). unfold clientSize. rewrite HF. apply u64_small.
  destruct HL as (H1 & H2 & H3 & H4 & H5). destruct future_size_bounds as [Hb _]. unfold is_u64. nia.
Qed.

Lemma future_base id : 0 <= id < async_parallelism L ->
  getReadBufs L id = region + id * F /\ getSwapBufs L id = region + id * F + 8 * n /\
  getBulkBufs L id = region + id * F + 16 * n.
Proof.
  intros Hid. destruct sizes_exact as (HR & HS & _ & HF). destruct (future_offset id Hid) as (H0 & H1 & _).
  destruct future_size_bounds as [Hb _]. destruct HL as (H2 & H3 & H4 & H5 & _).
  assert (0 <= n * max_range L) by nia.
  unfold getReadBufs, getSwapBufs, getBulkBufs. rewrite HR, HS, HF.
  rewrite (u64_small (id * F)), (u64_small (region + id * F)), (u64_small (region + id * F + 8 * n)) by (unfold is_u64; lia).
  rewrite (u64_small (region + id * F + 8 * n + 8 * n)) by (unfold is_u64; lia). lia.
Qed.
End Layout.

(** ** The buffers of the futures *)

Inductive buffer := BRead | BSwap | BBulk (off : Z).

Section Buffers.
Context (cfg : config).
Local Abbreviation L := (dc_layout cfg).
Context (HL : layout_ok L).

Definition buf_addr (b : buffer) (id : Z) (r : nat) : Z :=
  match b with BRead => read_buf cfg id r | BSwap => swap_buf cfg id r | BBulk off => bulk_buf cfg id r off end.

Definition buf_ok (b : buffer) (id : Z) (r : nat) : Prop :=
  0 <= id < async_parallelism L /\ Z.of_nat r < num_servers L /\
  match b with BBulk off => 0 <= off < max_range L | _ => True end.

(** The word of a buffer in its future's part of the region. *)
Definition buf_slot (b : buffer) (r : nat) : Z :=
  match b with
  | BRead => Z.of_nat r
  | BSwap => num_servers L + Z.of_nat r
  | BBulk off => 2 * num_servers L + Z.of_nat r * max_range L + off
  end.

Lemma buf_slot_bounds b id r : buf_ok b id r ->
  0 <= buf_slot b r < 2 * num_servers L + num_servers L * max_range L.
Proof. destruct HL as (H1 & H2 & H3 & _). intros (_ & Hr & Hb). destruct b; cbn; nia. Qed.

Lemma buf_slot_inj b b' id id' r r' :
  buf_ok b id r -> buf_ok b' id' r' -> buf_slot b r = buf_slot b' r' -> b = b' /\ r = r'.
Proof.
  destruct HL as (H1 & H2 & H3 & _). intros (_ & Hr & Hb) (_ & Hr' & Hb') Hs.
  destruct b as [| |off], b' as [| |off']; cbn in *; try (exfalso; nia); try (split; [done|lia]).
  assert (r = r') as <-; [|split; [f_equal; lia|done]].
  assert (~ (Z.of_nat r < Z.of_nat r') /\ ~ (Z.of_nat r' < Z.of_nat r)); [|lia]. split; intros ?; nia.
Qed.

Lemma buf_addr_exact b id r : buf_ok b id r ->
  buf_addr b id r = client_local_region L + id * future_size L + 8 * buf_slot b r.
Proof.
  intros Hok. pose proof (buf_slot_bounds b id r Hok) as Hs. destruct Hok as (Hid & Hr & Hb).
  destruct (future_base L HL id Hid) as (HR & HS & HB). destruct (future_offset L HL id Hid) as (H0 & H1 & _).
  destruct (future_size_bounds L) as [HF _]. destruct HL as (H2 & H3 & H4 & H5 & _).
  destruct b as [| |off]; cbn [buf_addr buf_slot] in *; unfold read_buf, swap_buf, bulk_buf, REG_SIZE;
    rewrite ?HR, ?HS, ?HB, u64_small; unfold is_u64; lia.
Qed.

Lemma buf_addr_inj b id r b' id' r' :
  buf_ok b id r -> buf_ok b' id' r' -> buf_addr b id r = buf_addr b' id' r' -> (b, id, r) = (b', id', r').
Proof.
  intros Hok Hok' He.
  assert (Hdec : Decision ((b, id, r) = (b', id', r'))) by (unfold Decision; repeat decide equality).
  destruct Hdec as [|Hne]; [done|].
  pose proof (buf_slot_bounds b id r Hok) as Hs. pose proof (buf_slot_bounds b' id' r' Hok') as Hs'.
  rewrite !buf_addr_exact in He by done. destruct (future_size_bounds L) as [HF _].
  assert (id = id') as <-.
  { destruct (Z.lt_total id id') as [Hlt|[?|Hlt]]; [|done|]; exfalso.
    - assert ((id + 1) * future_size L <= id' * future_size L) by (apply Z.mul_le_mono_nonneg_r; lia). lia.
    - assert ((id' + 1) * future_size L <= id * future_size L) by (apply Z.mul_le_mono_nonneg_r; lia). lia. } destruct (buf_slot_inj b b' id id r r' Hok Hok') as [-> ->]; [lia|done].
Qed.
End Buffers.

(** C22: the buffers of a client are inside its memory region and disjoint, as
    long as [layout_ok] holds: there are servers and futures, and the region with
    the buffers of all futures, each rounded up to 64 bytes, ends below 2^64 (the
    code computes the addresses modulo 2^64 and does not check).  Then the word
    that a request of future [id] writes for server [r], in the read, swap or
    bulk buffers, lies inside the [clientSize()] bytes of the region, and two
    words that differ in purpose, future index, server or offset do not overlap.
    The futures of one index share its buffers: an [OpFuture] and the range
    future of that index write the same bulk words. *)
Theorem buffers_disjoint cfg b id r b' id' r' :
  layout_ok (dc_layout cfg) ->
  buf_ok cfg b id r -> buf_ok cfg b' id' r' ->
  client_local_region (dc_layout cfg) <= buf_addr cfg b id r /\
  buf_addr cfg b id r + REG_SIZE <=
    client_local_region (dc_layout cfg) + clientSize (dc_layout cfg) < 2 ^ 64 /\
  ((b, id, r) <> (b', id', r') ->
   buf_addr cfg b id r + REG_SIZE <= buf_addr cfg b' id' r' \/
   buf_addr cfg b' id' r' + REG_SIZE <= buf_addr cfg b id r).
Proof.
  intros HL Hok Hok'. rewrite !buf_addr_exact, clientSize_exact by done. unfold REG_SIZE.
  pose proof (buf_slot_bounds cfg HL b id r Hok) as Hs. pose proof (buf_slot_bounds cfg HL b' id' r' Hok') as Hs'.
  pose proof (future_offset _ HL id (proj1 Hok)) as (H0 & H1 & H2).
  pose proof (future_offset _ HL id' (proj1 Hok')) as (H0' & H1' & H2').
  destruct (future_size_bounds (dc_layout cfg)) as [HF _]. pose proof (region_fits _ HL).
  split_and!; [lia|lia|lia|]. intros Hne.
  destruct (Z.lt_total id id') as [Hlt|[->|Hlt]].
  - left. assert ((id + 1) * future_size (dc_layout cfg) <= id' * future_size (dc_layout cfg)) by (apply Z.mul_le_mono_nonneg_r; lia). lia.
  - assert (buf_slot cfg b r <> buf_slot cfg b' r'); [|lia].
    intros Heq. destruct (buf_slot_inj cfg HL b b' id' id' r r' Hok Hok' Heq) as [-> ->]. done.
  - right. assert ((id' + 1) * future_size (dc_layout cfg) <= id * future_size (dc_layout cfg)) by (apply Z.mul_le_mono_nonneg_r; lia). lia.
Qed.

(** Three servers, two futures, ranges of four keys. *)
Definition demo_layout : layout := Layout 3 3 2 16 4 2 4 false false 4096.

Lemma demo_layout_ok idx q ind : layout_ok (dc_layout (Config demo_layout idx q ind)).
Proof. unfold layout_ok. cbn. lia. Qed.

Lemma buffers_disjoint_witness :
  let cfg := Config demo_layout 0 2 [0%nat; 1%nat] in
  buf_addr cfg (BBulk 3) 1 2 + REG_SIZE <= 4096 + clientSize demo_layout < 2 ^ 64 /\
  (buf_addr cfg BSwap 0 2 + REG_SIZE <= buf_addr cfg (BBulk 0) 0 0 \/
   buf_addr cfg (BBulk 0) 0 0 + REG_SIZE <= buf_addr cfg BSwap 0 2).
Proof.
  intros cfg. split.
  - apply (buffers_disjoint cfg (BBulk 3) 1 2 BRead 0 0 (demo_layout_ok _ _ _)); unfold buf_ok; cbn; lia.
  - apply (buffers_disjoint cfg BSwap 0 2 (BBulk 0) 0 0 (demo_layout_ok _ _ _)); unfold buf_ok; cbn; lia || done.
Defined.
