(* ===== verification/DsClient.v ===== *)
(** * DsClient: the futures of a client and its event loop

    [OpFuture] (op_future.hpp) holds one future of each kind and forwards to
    the active one; [DsClient] (disco_skip_client.hpp) owns the futures, polls
    the completions of every connection, routes each to its future by the
    request id, and spins until a future is free or all are done.  What the
    network does between two polls is a parameter of the spinning loops. *)

From S2P Require Import Prelude Prog DsRegister Latency DsNet DsFutures.

Local Open Scope Z_scope.

Inductive kind := KNone | KGet | KPut | KRange.

Record op_future := OpFuture { of_kind : kind; of_get : get_future; of_put : put_future; of_range : range_future }.

Record ds_client := DsClient {
  d_cl : client;
  d_futures : list op_future;
  d_progress : list bool;
  d_range_futures : list range_future;
  d_range_progress : list bool;
}.

(** The servers' memory, the clock and the client. *)
Record world := World { w_servers : nat -> memory; w_now : Z; w_dc : ds_client }.

Definition with_futures (c : client) (fs : list op_future) (d : ds_client) : ds_client :=
  DsClient c fs (d_progress d) (d_range_futures d) (d_range_progress d).
Definition with_ranges (c : client) (fs : list range_future) (d : ds_client) : ds_client :=
  DsClient c (d_futures d) (d_progress d) fs (d_range_progress d).
Definition with_dc (w : world) (d : ds_client) : world := World (w_servers w) (w_now w) d.

Section Client.
Context (remote_base : nat -> Z) (cfg : config) (reg_cache writeback : bool).

(** ** [OpFuture] *)

Definition op_new (id junk : Z) : option op_future :=
  g ← get_new cfg id junk; p ← put_new cfg id junk; Some (OpFuture KNone g p (range_new cfg id junk)).

Definition op_doGet (key : Z) (measuring : bool) (now : Z) (f : op_future) (c : client)
    : option (op_future * client) :=
  '(g, c) ← doGet remote_base cfg key measuring now (of_get f) c; Some (OpFuture KGet g (of_put f) (of_range f), c).

Definition op_doPut (key value : Z) (measuring : bool) (now : Z) (f : op_future) (c : client)
    : option (op_future * client) :=
  '(p, c) ← doPut remote_base cfg reg_cache key value measuring now (of_put f) c;
  Some (OpFuture KPut (of_get f) p (of_range f), c).

Definition op_doRange (sk ek : Z) (measuring : bool) (now : Z) (f : op_future) (c : client)
    : option (op_future * client) :=
  '(r, c) ← doRange remote_base cfg sk ek measuring now (of_range f) c;
  Some (OpFuture KRange (of_get f) (of_put f) r, c).

Definition op_isDone (f : op_future) : bool :=
  match of_kind f with
  | KGet => get_isDone (of_get f)
  | KPut => put_isDone (of_put f)
  | KRange => range_isDone (of_range f)
  | KNone => true
  end.

Definition op_isMeasuring (f : op_future) : bool :=
  match of_kind f with
  | KGet => gf_measuring (of_get f)
  | KPut => pf_measuring (of_put f)
  | KRange => rf_measuring (of_range f)
  | KNone => false
  end.

Definition op_getValue (f : op_future) : Z := getValue (of_get f).
Definition op_getRangeResults (f : op_future) : list Z := getResults (of_range f).

Definition op_addToOngoing (r : nat) (n : Z) (f : op_future) : option op_future :=
  match of_kind f with
  | KGet => g ← get_addToOngoing r n (of_get f); Some (OpFuture KGet g (of_put f) (of_range f))
  | KPut => p ← put_addToOngoing r n (of_put f); Some (OpFuture KPut (of_get f) p (of_range f))
  | KRange => x ← range_addToOngoing r n (of_range f); Some (OpFuture KRange (of_get f) (of_put f) x)
  | KNone => Some f
  end.

Definition op_tryStepForward (now : Z) (f : op_future) (c : client) : option (bool * op_future * client) :=
  match of_kind f with
  | KGet =>
      '(b, g, c) ← get_tryStepForward remote_base cfg reg_cache writeback now (of_get f) c;
      Some (b, OpFuture KGet g (of_put f) (of_range f), c)
  | KPut =>
      '(b, p, c) ← put_tryStepForward remote_base cfg reg_cache now (of_put f) c;
      Some (b, OpFuture KPut (of_get f) p (of_range f), c)
  | KRange =>
      '(b, x, c) ← range_tryStepForward cfg reg_cache now (of_range f) c;
      Some (b, OpFuture KRange (of_get f) (of_put f) x, c)
  | KNone => Some (true, f, c)
  end.

(** ** [DsClient] *)

Local Abbreviation servers_n := (Z.to_nat (num_servers (dc_layout cfg))) (only parsing).
Local Abbreviation parallelism := (Z.to_nat (async_parallelism (dc_layout cfg))) (only parsing).

Definition ds_client_new (mr : memory) (junk : Z) : option ds_client :=
  c ← client_new cfg mr;
  fs ← mapM (fun i => op_new (Z.of_nat i) junk) (seq 0 parallelism);
  Some (DsClient c fs (replicate parallelism false)
          (map (fun i => range_new cfg (Z.of_nat i) junk) (seq 0 parallelism)) (replicate parallelism false)).

(** One completion of the connection to server [s]: routed by its id. *)
Definition route (s : nat) (raw_id : Z) (d : ds_client) : option ds_client :=
  let is_range_op := negb (Z.shiftr raw_id 63 =? 0) in
  let clean_id := Z.to_nat (Z.land raw_id (u64 (Z.lnot RANGE_BIT))) in
  if is_range_op then
    f ← d_range_futures d !! clean_id; f ← range_addToOngoing s (-1) f;
    p ← upd clean_id true (d_range_progress d);
    Some (DsClient (d_cl d) (d_futures d) (d_progress d) (<[clean_id := f]> (d_range_futures d)) p)
  else
    f ← d_futures d !! clean_id; f ← op_addToOngoing s (-1) f;
    p ← upd clean_id true (d_progress d);
    Some (DsClient (d_cl d) (<[clean_id := f]> (d_futures d)) p (d_range_futures d) (d_range_progress d)).

Fixpoint route_all (s : nat) (wces : list Z) (d : ds_client) : option ds_client :=
  match wces with
  | [] => Some d
  | id :: wces' => d' ← route s id d; route_all s wces' d'
  end.

(** The poll of one connection: at most [tp] completions, the [tp] that are
    outstanding. *)
Definition poll_server (s : nat) (any_progress : bool) (d : ds_client) : option (bool * ds_client) :=
  let c := d_cl d in
  tp ← c_poll c !! s;
  if tp <=? 0 then Some (any_progress, d)
  else
    cq ← c_cq c !! s;
    let wces := take (Z.to_nat tp) cq in
    let c' := Client (c_mr c) (c_sq c) (<[s := drop (Z.to_nat tp) cq]> (c_cq c))
                (<[s := tp - Z.of_nat (length wces)]> (c_poll c)) (c_cnt c) (c_cache c) (c_prof c) in
    d ← route_all s wces (DsClient c' (d_futures d) (d_progress d) (d_range_futures d) (d_range_progress d));
    Some (any_progress || negb (length wces =? 0)%nat, d).

Definition tickRdma (d : ds_client) : option (bool * ds_client) :=
  for_loop servers_n 0 (fun s '(any, d) => poll_server s any d) (false, d).

(** Step future [i] when it made progress. *)
Definition step_op (i : nat) (now : Z) (d : ds_client) : option ds_client :=
  p ← d_progress d !! i;
  if p : bool then
    f ← d_futures d !! i;
    '(_, f, c) ← op_tryStepForward now f (d_cl d);
    Some (DsClient c (<[i := f]> (d_futures d)) (<[i := false]> (d_progress d)) (d_range_futures d) (d_range_progress d))
  else Some d.

Definition step_range (i : nat) (now : Z) (d : ds_client) : option ds_client :=
  p ← d_range_progress d !! i;
  if p : bool then
    f ← d_range_futures d !! i;
    '(_, f, c) ← range_tryStepForward cfg reg_cache now f (d_cl d);
    Some (DsClient c (d_futures d) (d_progress d) (<[i := f]> (d_range_futures d)) (<[i := false]> (d_range_progress d)))
  else Some d.

(** One scan of [getFreeFuture]: the first future that is done. *)
Fixpoint free_scan (n i : nat) (now : Z) (d : ds_client) : option (option nat * ds_client) :=
  match n with
  | O => Some (None, d)
  | S n' =>
      d ← step_op i now d;
      f ← d_futures d !! i;
      if op_isDone f then Some (Some i, d) else free_scan n' (S i) now d
  end.

Fixpoint free_range_scan (n i : nat) (now : Z) (d : ds_client) : option (option nat * ds_client) :=
  match n with
  | O => Some (None, d)
  | S n' =>
      d ← step_range i now d;
      f ← d_range_futures d !! i;
      if range_isDone f then Some (Some i, d) else free_range_scan n' (S i) now d
  end.

(** ** The spinning loops, over what the network does before each poll *)

Context (net : world -> world).

(** [tickRdma()], after the network's turn. *)
Definition net_tick (w : world) : option world :=
  let w := net w in
  '(_, d) ← tickRdma (w_dc w); Some (with_dc w d).

Fixpoint getFreeFuture (fuel : nat) (w : world) : outcome world nat :=
  match fuel with
  | O => OutOfFuel
  | S fuel' =>
      match free_scan parallelism 0 (w_now w) (w_dc w) with
      | None => Crashed
      | Some (Some i, d) => Done i (with_dc w d)
      | Some (None, d) =>
          match net_tick (with_dc w d) with None => Crashed | Some w' => getFreeFuture fuel' w' end
      end
  end.

Fixpoint getFreeRangeFuture (fuel : nat) (w : world) : outcome world nat :=
  match fuel with
  | O => OutOfFuel
  | S fuel' =>
      match free_range_scan parallelism 0 (w_now w) (w_dc w) with
      | None => Crashed
      | Some (Some i, d) => Done i (with_dc w d)
      | Some (None, d) =>
          match net_tick (with_dc w d) with None => Crashed | Some w' => getFreeRangeFuture fuel' w' end
      end
  end.

(** One round of [finishAllFutures] for index [idx]. *)
Definition finish_round (idx : nat) (w : world) : option world :=
  w ← net_tick w;
  d ← step_op idx (w_now w) (w_dc w);
  d ← step_range idx (w_now w) d;
  Some (with_dc w d).

Definition both_done (idx : nat) (d : ds_client) : option bool :=
  f ← d_futures d !! idx; r ← d_range_futures d !! idx; Some (op_isDone f && range_isDone r).

Fixpoint finish_one (fuel idx : nat) (w : world) : outcome world unit :=
  match both_done idx (w_dc w) with
  | None => Crashed
  | Some true => Done tt w
  | Some false =>
      match fuel with
      | O => OutOfFuel
      | S fuel' => match finish_round idx w with None => Crashed | Some w' => finish_one fuel' idx w' end
      end
  end.

Fixpoint finish_from (n idx fuel : nat) (w : world) : outcome world unit :=
  match n with
  | O => Done tt w
  | S n' =>
      match finish_one fuel idx w with
      | Done _ w' => finish_from n' (S idx) fuel w'
      | Crashed => Crashed
      | OutOfFuel => OutOfFuel
      end
  end.

Definition finishAllFutures (fuel : nat) (w : world) : outcome world unit := finish_from parallelism 0 fuel w.
End Client.
