(* ===== verification/DsMain.v ===== *)
(** * DsMain: the operations of the benchmark, and a network that serves them

    The loop of [main] (main.cpp) takes a free future, starts an operation on
    it and waits for all futures.  [net_all] is a network that executes every
    request posted before the client polls again: the client is alone. *)

From S2P Require Import Prelude Prog DsRegister Latency DsNet DsFutures DsClient.

Local Open Scope Z_scope.

(** [YcsbOp], with the value a put writes. *)
Inductive ycsb_op :=
| OpGet (target_reg : Z)
| OpPut (target_reg value : Z)
| OpScan (target_reg scan_len : Z).

(** ** A network without other clients *)

(** Execute the requests of the connection to [r], oldest first. *)
Fixpoint drain (n r : nat) (servers : nat -> memory) (c : client) : (nat -> memory) * client :=
  match n with
  | O => (servers, c)
  | S n' =>
      match nic_exec r servers c with
      | Some (servers', c') => drain n' r servers' c'
      | None => (servers, c)
      end
  end.

Fixpoint drain_from (n r : nat) (servers : nat -> memory) (c : client) : (nat -> memory) * client :=
  match n with
  | O => (servers, c)
  | S n' =>
      let '(servers, c) := drain (length (default [] (c_sq c !! r))) r servers c in
      drain_from n' (S r) servers c
  end.

Definition net_all (w : world) : world :=
  let d := w_dc w in
  let '(servers, c) := drain_from (length (c_sq (d_cl d))) 0 (w_servers w) (d_cl d) in
  World servers (w_now w) (DsClient c (d_futures d) (d_progress d) (d_range_futures d) (d_range_progress d)).

Section Main.
Context (remote_base : nat -> Z) (cfg : config) (reg_cache writeback : bool) (net : world -> world).

(** The length and the end of a scan, clamped to [max_range] and to the
    registers. *)
Definition clamp_scan (target_reg scan_len : Z) : Z :=
  let len := if max_range (dc_layout cfg) <? scan_len then max_range (dc_layout cfg) else scan_len in
  if num_registers (dc_layout cfg) <? u64 (target_reg + len)
  then u64 (num_registers (dc_layout cfg) - target_reg) else len.

(** Start the operation on a free future: its index. *)
Definition start_op (fuel : nat) (op : ycsb_op) (measuring : bool) (w : world) : outcome world nat :=
  match op with
  | OpGet key =>
      match getFreeFuture remote_base cfg reg_cache writeback net fuel w with
      | Done i w =>
          match (f ← d_futures (w_dc w) !! i;
                 '(f, c) ← op_doGet remote_base cfg key measuring (w_now w) f (d_cl (w_dc w));
                 Some (with_dc w (with_futures c (<[i := f]> (d_futures (w_dc w))) (w_dc w)))) with
          | Some w => Done i w | None => Crashed end
      | Crashed => Crashed | OutOfFuel => OutOfFuel end
  | OpPut key value =>
      match getFreeFuture remote_base cfg reg_cache writeback net fuel w with
      | Done i w =>
          match (f ← d_futures (w_dc w) !! i;
                 '(f, c) ← op_doPut remote_base cfg reg_cache key value measuring (w_now w) f (d_cl (w_dc w));
                 Some (with_dc w (with_futures c (<[i := f]> (d_futures (w_dc w))) (w_dc w)))) with
          | Some w => Done i w | None => Crashed end
      | Crashed => Crashed | OutOfFuel => OutOfFuel end
  | OpScan key scan_len =>
      let len := clamp_scan key scan_len in
      let end_reg := u64 (key + len - 1) in
      match getFreeRangeFuture cfg reg_cache net fuel w with
      | Done i w =>
          match (f ← d_range_futures (w_dc w) !! i;
                 '(f, c) ← doRange remote_base cfg key end_reg measuring (w_now w) f (d_cl (w_dc w));
                 Some (with_dc w (with_ranges c (<[i := f]> (d_range_futures (w_dc w))) (w_dc w)))) with
          | Some w => Done i w | None => Crashed end
      | Crashed => Crashed | OutOfFuel => OutOfFuel end
  end.

(** One round of the loop. *)
Definition run_op (fuel : nat) (op : ycsb_op) (measuring : bool) (w : world) : outcome world nat :=
  match start_op fuel op measuring w with
  | Done i w =>
      match finishAllFutures remote_base cfg reg_cache writeback net fuel w with
      | Done _ w => Done i w
      | Crashed => Crashed | OutOfFuel => OutOfFuel
      end
  | Crashed => Crashed | OutOfFuel => OutOfFuel
  end.
End Main.
