(* ===== verification/DsAlone.v ===== *)
(** * DsAlone: one round trip of a client that is alone

    A future posts a batch of requests, at most one per server; the network
    executes them all; one [tickRdma] routes the completions to the future and
    leaves the connections idle.  The lemmas of this file follow a batch
    through posting, execution and polling. *)

From S2P Require Import Prelude Prog DsRegister Latency DsNet DsFutures DsLayout DsClient DsMain.

Local Open Scope Z_scope.

(** ** Tables indexed by server *)

Definition tab {A : Type} (n : nat) (f : nat -> A) : list A := map f (seq 0 n).

Section Tab.
Context {A : Type}.
Implicit Types (f g : nat -> A) (n r : nat).

Lemma tab_length n f : length (tab n f) = n.
Proof. unfold tab. by rewrite length_map, length_seq. Qed.

Lemma tab_lookup n f r : (r < n)%nat -> tab n f !! r = Some (f r).
Proof.
  intros Hr. unfold tab. change (map f (seq 0 n)) with (f <$> seq 0 n). by rewrite list_lookup_fmap, lookup_seq_lt.
Qed.

Lemma tab_ext n f g : (forall r, (r < n)%nat -> f r = g r) -> tab n f = tab n g.
Proof.
  intros H. apply list_eq. intros r. destruct (decide (r < n)%nat).
  - by rewrite !tab_lookup, H.
  - by rewrite !lookup_ge_None_2 by (rewrite tab_length; lia).
Qed.

Lemma tab_insert n f r (x : A) :
  (r < n)%nat -> <[r := x]> (tab n f) = tab n (fun r' => if (r' =? r)%nat then x else f r').
Proof.
  intros Hr. apply list_eq. intros r'. destruct (decide (r' < n)%nat).
  - rewrite (tab_lookup n _ r') by done. destruct (Nat.eqb_spec r' r) as [->|].
    + by rewrite list_lookup_insert_eq by by rewrite tab_length.
    + by rewrite list_lookup_insert_ne, tab_lookup by done.
  - by rewrite !lookup_ge_None_2 by (rewrite ?length_insert, tab_length; lia).
Qed.

Lemma tab_const n (x : A) : tab n (fun _ => x) = replicate n x.
Proof.
  apply list_eq. intros r. destruct (decide (r < n)%nat).
  - by rewrite tab_lookup, lookup_replicate_2.
  - by rewrite !lookup_ge_None_2 by (rewrite ?tab_length, ?length_replicate; lia).
Qed.
End Tab.

(** ** Batches of requests *)

Definition batch_t : Type := nat -> option wr.

Definition sqf (B : batch_t) (r : nat) : list wr := match B r with Some w => [w] | None => [] end.
Definition cqf (B : batch_t) (r : nat) : list Z := match B r with Some w => [wr_id w] | None => [] end.
Definition pollf (B : batch_t) (r : nat) : Z := match B r with Some _ => 1 | None => 0 end.

Definition no_batch : batch_t := fun _ => None.

Definition add_wr (r : nat) (w : wr) (B : batch_t) : batch_t := fun r' => if (r' =? r)%nat then Some w else B r'.

(** A client whose batch is posted, and one whose batch is executed. *)
Definition posted (n : nat) (mr : memory) (B : batch_t) (c : client) : client :=
  Client mr (tab n (sqf B)) (tab n (fun _ => [])) (tab n (pollf B)) (c_cnt c) (c_cache c) (c_prof c).

Definition served (n : nat) (mr : memory) (B : batch_t) (c : client) : client :=
  Client mr (tab n (fun _ => [])) (tab n (cqf B)) (tab n (pollf B)) (c_cnt c) (c_cache c) (c_prof c).

Lemma posted_ext n mr B B' c : (forall r, (r < n)%nat -> B r = B' r) -> posted n mr B c = posted n mr B' c.
Proof. intros H. unfold posted. f_equal; apply tab_ext; intros r Hr; unfold sqf, pollf; by rewrite H. Qed.

Lemma ongoing_ext n B B' : (forall r, (r < n)%nat -> B r = B' r) -> tab n (pollf B) = tab n (pollf B').
Proof. intros H. apply tab_ext. intros r Hr. unfold pollf. by rewrite H. Qed.

Lemma post_one n mr B c r w : (r < n)%nat -> B r = None ->
  post r w (posted n mr B c) = Some (posted n mr (add_wr r w B) c).
Proof.
  intros Hr HB. unfold post, posted. cbn [c_sq c_poll c_mr c_cq c_cnt c_cache c_prof].
  rewrite !tab_lookup by done. cbn [mbind option_bind]. rewrite !tab_insert by done.
  do 2 f_equal; apply tab_ext; intros r' _; unfold sqf, pollf, add_wr;
    (destruct (Nat.eqb_spec r' r) as [->|]; [by rewrite HB|done]).
Qed.

Lemma bump_one n B r w : (r < n)%nat -> B r = None ->
  bump r 1 (tab n (pollf B)) = Some (tab n (pollf (add_wr r w B))).
Proof.
  intros Hr HB. unfold bump. rewrite tab_lookup by done. cbn [mbind option_bind]. rewrite tab_insert by done.
  f_equal. apply tab_ext. intros r' _. unfold pollf, add_wr.
  destruct (Nat.eqb_spec r' r) as [->|]; [by rewrite HB|done].
Qed.

(** ** Posting: one request for each slot of the quorum that needs one *)

(** The requests of the first [i] slots. *)
Definition upto (ind : list nat) (i : nat) (B : batch_t) : batch_t :=
  fun r => if decide (r ∈ take i ind) then B r else None.

Lemma upto_step ind i r B w :
  NoDup ind -> ind !! i = Some r -> B r = Some w ->
  upto ind i B r = None /\ forall r', add_wr r w (upto ind i B) r' = upto ind (S i) B r'.
Proof.
  intros Hnd Hr HB. assert (Hni : r ∉ take i ind).
  { intros [j Hj]%list_elem_of_lookup. apply lookup_take_Some in Hj as [Hj Hlt].
    pose proof (NoDup_lookup _ _ _ _ Hnd Hj Hr). lia. }
  unfold upto, add_wr. rewrite (take_S_r ind i r Hr). split; [by rewrite decide_False|].
  intros r'. destruct (Nat.eqb_spec r' r) as [->|Hne].
  - rewrite decide_True; [done|]. apply elem_of_app. right. left.
  - apply decide_ext. rewrite elem_of_app, list_elem_of_singleton. tauto.
Qed.

Lemma upto_skip ind i r B r' :
  ind !! i = Some r -> B r = None -> upto ind i B r' = upto ind (S i) B r'.
Proof.
  intros Hr HB. unfold upto. rewrite (take_S_r ind i r Hr).
  destruct (decide (r' ∈ take i ind)) as [H1|H1], (decide (r' ∈ take i ind ++ [r])) as [H2|H2]; try done.
  - destruct H2. apply elem_of_app. by left.
  - apply elem_of_app in H2 as [? | ->%list_elem_of_singleton]; [done|by rewrite HB].
Qed.

Lemma upto_all ind B r : (forall r, r ∉ ind -> B r = None) -> upto ind (length ind) B r = B r.
Proof.
  intros HB. unfold upto. rewrite take_ge by done. destruct (decide (r ∈ ind)); [done|]. by rewrite HB.
Qed.

(** The state a posting loop is in after [i] slots; [c] collects the
    counters. *)
Definition posting (n : nat) (mr : memory) (ind : list nat) (B : batch_t) (cache : regcache) (prof : profilers)
    (i : nat) (s : list Z * client) : Prop :=
  exists c, s = (tab n (pollf (upto ind i B)), posted n mr (upto ind i B) c) /\ c_cache c = cache /\ c_prof c = prof.

Lemma posting_start n mr ind B c :
  posting n mr ind B (c_cache c) (c_prof c) 0 (tab n (fun _ => 0), posted n mr no_batch c).
Proof. exists c. split; [|done]. f_equal. Qed.

Lemma posting_skip n mr ind B cache prof i r s :
  ind !! i = Some r -> B r = None -> posting n mr ind B cache prof i s -> posting n mr ind B cache prof (S i) s.
Proof.
  intros Hr HB (c & -> & H1 & H2). exists c. split; [|done]. f_equal.
  - apply ongoing_ext. intros r' _. by eapply upto_skip.
  - apply posted_ext. intros r' _. by eapply upto_skip.
Qed.

(** One slot of a posting loop, [g] its change to the counters. *)
Lemma posting_step n mr ind B cache prof i r w ongoing c g :
  NoDup ind -> ind !! i = Some r -> (r < n)%nat -> B r = Some w ->
  posting n mr ind B cache prof i (ongoing, c) ->
  exists s, (c' ← post r w c; o' ← bump r 1 ongoing; Some (o', with_cnt g c')) = Some s /\
    posting n mr ind B cache prof (S i) s.
Proof.
  intros Hnd Hr Hn HB (c0 & Hs & H1 & H2). injection Hs as -> ->.
  destruct (upto_step ind i r B w Hnd Hr HB) as [Hnone Hext].
  rewrite post_one by done. cbn [mbind option_bind]. rewrite (bump_one n _ r w) by done. cbn [mbind option_bind].
  eexists. split; [done|].
  exists (Client (c_mr c0) (c_sq c0) (c_cq c0) (c_poll c0) (g (c_cnt c0)) (c_cache c0) (c_prof c0)).
  split; [|done]. f_equal; [by apply ongoing_ext|]. symmetry. rewrite <- (posted_ext n mr _ _ _ (fun r' _ => Hext r')). done.
Qed.

(** The loop as a whole. *)
Lemma post_loop n mr ind B c body :
  (forall r, r ∉ ind -> B r = None) ->
  (forall i s, (i < length ind)%nat -> posting n mr ind B (c_cache c) (c_prof c) i s ->
     exists s', body i s = Some s' /\ posting n mr ind B (c_cache c) (c_prof c) (S i) s') ->
  exists c', for_loop (length ind) 0 body (tab n (fun _ => 0), posted n mr no_batch c) =
      Some (tab n (pollf B), posted n mr B c') /\ c_cache c' = c_cache c /\ c_prof c' = c_prof c.
Proof.
  intros HB Hbody.
  destruct (for_loop_inv (posting n mr ind B (c_cache c) (c_prof c)) (length ind) 0 body
    (tab n (fun _ => 0), posted n mr no_batch c)) as (s & Hs & (c' & -> & H1 & H2));
    [apply posting_start|intros; apply Hbody; [lia|done]|].
  exists c'. rewrite Hs. split; [|done]. f_equal. cbn [Nat.add].
  rewrite (ongoing_ext n _ B), (posted_ext n mr _ B) by (intros; by apply upto_all). done.
Qed.

(** ** Execution *)

(** The words a request writes to the client's region, and what it does to the
    server's memory [m]. *)
Fixpoint copy_list (buf addr : Z) (k : nat) (m : memory) : list (Z * Z) :=
  match k with O => [] | S k' => (buf, m addr) :: copy_list (buf + REG_SIZE) (addr + REG_SIZE) k' m end.

Definition writes (w : wr) (m : memory) : list (Z * Z) :=
  match wr_op_ w with
  | RdmaRead buf k => copy_list buf (wr_addr w) k m
  | RdmaCas buf _ _ => [(buf, m (wr_addr w))]
  end.

Definition exec_server (w : wr) (m : memory) : memory :=
  match wr_op_ w with
  | RdmaRead _ _ => m
  | RdmaCas _ expected swap => if m (wr_addr w) =? expected then mem_set (wr_addr w) swap m else m
  end.

Definition exec_batch (B : batch_t) (servers : nat -> memory) (r : nat) : memory :=
  match B r with Some w => exec_server w (servers r) | None => servers r end.

Definition set_all (ws : list (Z * Z)) (m : memory) : memory := foldl (fun m p => mem_set p.1 p.2 m) m ws.

Lemma mem_copy_set buf m' addr k m : mem_copy buf m' addr k m = set_all (copy_list buf addr k m') m.
Proof. revert buf addr m. induction k as [|k IH]; intros buf addr m; [done|]. apply IH. Qed.

Lemma set_all_other ws m a : (forall v, (a, v) ∉ ws) -> set_all ws m a = m a.
Proof.
  revert m. induction ws as [|[b u] ws IH]; intros m H; [done|]. unfold set_all in *. cbn [foldl fst snd].
  rewrite IH by (intros v Hv; apply (H v); by right). unfold mem_set.
  destruct (Z.eqb_spec a b) as [->|]; [|done]. destruct (H u). left.
Qed.

Lemma set_all_in ws m a v : NoDup (map fst ws) -> (a, v) ∈ ws -> set_all ws m a = v.
Proof.
  revert m. induction ws as [|[b u] ws IH]; intros m Hnd Hin; [by apply elem_of_nil in Hin|].
  cbn [map fst] in Hnd. apply NoDup_cons in Hnd as [Hb Hnd].
  destruct (decide ((a, v) ∈ ws)) as [Hi|Hi]; [unfold set_all; cbn; by apply IH|].
  apply elem_of_cons in Hin as [[= -> ->]|]; [|done]. unfold set_all. cbn [foldl fst snd].
  fold (set_all ws (mem_set b u m)). rewrite set_all_other.
  - unfold mem_set. by rewrite Z.eqb_refl.
  - intros v' Hv'. apply Hb. apply list_elem_of_fmap. by exists (b, v').
Qed.

(** The state of the draining loop after [i] servers. *)
Definition drained (n i : nat) (mr : memory) (B : batch_t) (c : client) : client :=
  Client mr (tab n (fun r => if (r <? i)%nat then [] else sqf B r))
    (tab n (fun r => if (r <? i)%nat then cqf B r else [])) (tab n (pollf B)) (c_cnt c) (c_cache c) (c_prof c).

Lemma drain_one n i servers mr B c :
  (i < n)%nat ->
  exists servers' mr', drain (length (default [] (c_sq (drained n i mr B c) !! i))) i servers (drained n i mr B c) =
      (servers', drained n (S i) mr' B c) /\
    (forall r, servers' r = if (r =? i)%nat then exec_batch B servers i else servers r) /\
    mr' = match B i with Some w => set_all (writes w (servers i)) mr | None => mr end.
Proof.
  intros Hi. unfold drained at 1. cbn [c_sq]. rewrite tab_lookup by done. rewrite Nat.ltb_irrefl.
  assert (Hnext : forall mr, Client mr
      (<[i := []]> (tab n (fun r => if (r <? i)%nat then [] else sqf B r)))
      (<[i := cqf B i]> (tab n (fun r => if (r <? i)%nat then cqf B r else [])))
      (tab n (pollf B)) (c_cnt c) (c_cache c) (c_prof c) = drained n (S i) mr B c).
  { intros mr0. unfold drained. rewrite !tab_insert by done. f_equal; apply tab_ext; intros r Hr;
      (destruct (Nat.eqb_spec r i) as [->|Hne];
       [by rewrite (proj2 (Nat.ltb_lt i (S i))) by lia
       |destruct (Nat.ltb_spec r i), (Nat.ltb_spec r (S i)); done || lia]). }
  unfold sqf at 1, exec_batch. destruct (B i) as [w|] eqn:HB; cbn [default length id from_option].
  - destruct w as [id addr op]. assert (Hc : cqf B i = [id]) by (unfold cqf; by rewrite HB).
    destruct op as [buf k|buf e s];
      [eexists _, (set_all (writes (Wr id addr (RdmaRead buf k)) (servers i)) mr)
      |eexists _, (set_all (writes (Wr id addr (RdmaCas buf e s)) (servers i)) mr)];
      rewrite <- Hnext, Hc; cbn [drain]; unfold nic_exec, drained; cbn [c_sq c_cq c_mr c_poll c_cnt c_cache c_prof];
      rewrite !tab_lookup by done; cbn [mbind option_bind]; rewrite !Nat.ltb_irrefl; unfold sqf at 1;
      rewrite HB; unfold writes, exec_server; cbn [wr_op_ wr_addr wr_id app];
      (split; [rewrite ?mem_copy_set; reflexivity|split; [|reflexivity]]);
      intros r; cbn; destruct (Nat.eqb_spec r i) as [->|]; try done.
  - cbn [drain]. eexists _, mr. rewrite <- Hnext. split; [|split; [|reflexivity]].
    + unfold drained. f_equal. f_equal; rewrite tab_insert by done; apply tab_ext; intros r Hr;
        (destruct (Nat.eqb_spec r i) as [->|]; [|done]); rewrite Nat.ltb_irrefl; unfold sqf, cqf; by rewrite HB.
    + intros r. by destruct (Nat.eqb_spec r i) as [->|].
Qed.

(** Every request of a batch whose requests write different words is executed
    at its server, and its result is there. *)
Lemma drain_batch n servers mr B c :
  (forall r w, (r < n)%nat -> B r = Some w -> NoDup (map fst (writes w (servers r)))) ->
  (forall r r' w w' a v v', (r < n)%nat -> (r' < n)%nat -> r <> r' -> B r = Some w -> B r' = Some w' ->
     (a, v) ∈ writes w (servers r) -> (a, v') ∉ writes w' (servers r')) ->
  exists servers' mr', drain_from n 0 servers (posted n mr B c) = (servers', served n mr' B c) /\
    (forall r, servers' r = if (r <? n)%nat then exec_batch B servers r else servers r) /\
    (forall r w a v, (r < n)%nat -> B r = Some w -> (a, v) ∈ writes w (servers r) -> mr' a = v).
Proof.
  intros Hnd Hdisj.
  assert (H : forall k i sv m, (i + k = n)%nat ->
    (forall r, sv r = if (r <? i)%nat then exec_batch B servers r else servers r) ->
    (forall r w a v, (r < i)%nat -> B r = Some w -> (a, v) ∈ writes w (servers r) -> m a = v) ->
    exists servers' mr', drain_from k i sv (drained n i m B c) = (servers', drained n n mr' B c) /\
      (forall r, servers' r = if (r <? n)%nat then exec_batch B servers r else servers r) /\
      (forall r w a v, (r < n)%nat -> B r = Some w -> (a, v) ∈ writes w (servers r) -> mr' a = v)).
  { induction k as [|k IH]; intros i sv m Hik Hsv Hm.
    { rewrite Nat.add_0_r in Hik. subst i. by exists sv, m. }
    destruct (drain_one n i sv m B c) as (sv' & m' & Hd & Hsv' & Hm'); [lia|].
    cbn [drain_from]. rewrite Hd. apply IH; [lia| |].
    - intros r. rewrite Hsv'. destruct (Nat.eqb_spec r i) as [->|Hne].
      + rewrite (proj2 (Nat.ltb_lt i (S i))) by lia. unfold exec_batch. rewrite (Hsv i), Nat.ltb_irrefl. done.
      + rewrite Hsv. destruct (Nat.ltb_spec r i), (Nat.ltb_spec r (S i)); done || lia.
    - intros r w a v Hr HB Hin. rewrite Hm'. rewrite (Hsv i), Nat.ltb_irrefl.
      destruct (decide (r = i)) as [->|Hne].
      + rewrite HB. apply set_all_in; [apply Hnd; [lia|done]|done].
      + destruct (B i) as [w'|] eqn:HBi; [|apply (Hm r w a v); [lia|done|done]].
        rewrite set_all_other; [apply (Hm r w a v); [lia|done|done]|].
        intros v'. eapply (Hdisj r i w w' a v v'); [lia|lia|done..]. }
  destruct (H n O servers mr) as (sv & m & Hd & H1 & H2); [lia|done|intros; lia|].
  exists sv, m. split_and!; [|done|done].
  transitivity (drain_from n 0 servers (drained n 0 mr B c)); [done|]. rewrite Hd. f_equal.
  unfold drained, served. f_equal; apply tab_ext; intros r Hr; by rewrite (proj2 (Nat.ltb_lt r n)).
Qed.

(** ** Polling *)

(** A client that has the completions of its batch routed to one future: [mk]
    rebuilds it from its connections, the future's counts and its progress
    flag. *)
Record routed (n : nat) (id : Z) (mk : client -> list Z -> bool -> ds_client) : Prop := {
  routed_cl cl o b : d_cl (mk cl o b) = cl;
  routed_with cl cl' o b :
    DsClient cl' (d_futures (mk cl o b)) (d_progress (mk cl o b)) (d_range_futures (mk cl o b))
      (d_range_progress (mk cl o b)) = mk cl' o b;
  routed_route cl f b r :
    (r < n)%nat -> route r id (mk cl (tab n f) b) =
      Some (mk cl (tab n (fun r' => if (r' =? r)%nat then f r - 1 else f r')) true);
}.

(** Some server up to [i] has a request of the batch. *)
Definition any_upto (B : batch_t) (i : nat) : bool := existsb (fun r => bool_decide (is_Some (B r))) (seq 0 i).

Lemma any_upto_S B i : any_upto B (S i) = any_upto B i || bool_decide (is_Some (B i)).
Proof. unfold any_upto. rewrite seq_S, existsb_app. cbn. by rewrite orb_false_r. Qed.

Definition ticked (n i : nat) (mr : memory) (B : batch_t) (c : client) : client :=
  Client mr (tab n (fun _ => [])) (tab n (fun r => if (r <? i)%nat then [] else cqf B r))
    (tab n (fun r => if (r <? i)%nat then 0 else pollf B r)) (c_cnt c) (c_cache c) (c_prof c).

Lemma tick_one n id mk i mr B c b :
  routed n id mk -> (i < n)%nat -> (forall r w, B r = Some w -> wr_id w = id) ->
  exists any', poll_server i b (mk (ticked n i mr B c) (tab n (fun r => if (r <? i)%nat then 0 else pollf B r))
      (any_upto B i)) =
    Some (any', mk (ticked n (S i) mr B c) (tab n (fun r => if (r <? S i)%nat then 0 else pollf B r))
      (any_upto B (S i))).
Proof.
  intros [Hcl Hwith Hroute] Hi Hid. unfold poll_server. rewrite Hcl.
  change (c_poll (ticked n i mr B c)) with (tab n (fun r => if (r <? i)%nat then 0 else pollf B r)).
  change (c_cq (ticked n i mr B c)) with (tab n (fun r => if (r <? i)%nat then [] else cqf B r)).
  rewrite !tab_lookup, !Nat.ltb_irrefl by done. cbn [mbind option_bind]. rewrite any_upto_S.
  assert (Hlt : forall {A : Type} (x : A) (g : nat -> A) r, (r < n)%nat ->
    (if (r =? i)%nat then x else if (r <? i)%nat then x else g r) = (if (r <? S i)%nat then x else g r)).
  { intros A x g r Hr. destruct (Nat.eqb_spec r i) as [->|]; [by rewrite (proj2 (Nat.ltb_lt i (S i))) by lia|].
    destruct (Nat.ltb_spec r i), (Nat.ltb_spec r (S i)); done || lia. }
  destruct (B i) as [w|] eqn:HB.
  - assert (Hpi : pollf B i = 1) by (unfold pollf; by rewrite HB).
    assert (Hci : cqf B i = [id]) by (unfold cqf; rewrite HB; by rewrite (Hid i w HB)).
    rewrite Hpi. change (1 <=? 0) with false. cbv iota.
    rewrite Hci. change (Z.to_nat 1) with 1%nat. cbn [take drop length]. rewrite Hwith. cbn [route_all].
    rewrite Hroute by done. cbn [mbind option_bind]. eexists. do 2 f_equal.
    rewrite Nat.ltb_irrefl, Hpi, bool_decide_eq_true_2, orb_true_r by done.
    f_equal.
    + unfold ticked. cbn [c_mr c_sq c_cq c_poll c_cnt c_cache c_prof]. rewrite !tab_insert by done.
      f_equal; apply tab_ext; intros r Hr; by rewrite <- Hlt.
    + apply tab_ext. intros r Hr. by rewrite <- Hlt.
  - assert (Hpi : pollf B i = 0) by (unfold pollf; by rewrite HB).
    assert (Hci : cqf B i = []) by (unfold cqf; by rewrite HB).
    rewrite Hpi. change (0 <=? 0) with true. cbv iota.
    eexists. rewrite bool_decide_eq_false_2, orb_false_r by (by intros [? ?]).
    do 2 f_equal. f_equal.
    + unfold ticked. f_equal; apply tab_ext; intros r Hr; rewrite <- Hlt by done;
        (destruct (Nat.eqb_spec r i) as [->|]; [|done]); by rewrite Nat.ltb_irrefl.
    + apply tab_ext. intros r Hr. rewrite <- Hlt by done. destruct (Nat.eqb_spec r i) as [->|]; [|done].
      by rewrite Nat.ltb_irrefl.
Qed.

(** One tick after a batch was executed. *)
Lemma tick_batch cfg n id mk mr B c :
  routed n id mk -> n = Z.to_nat (num_servers (dc_layout cfg)) -> (forall r w, B r = Some w -> wr_id w = id) ->
  exists any', tickRdma cfg (mk (served n mr B c) (tab n (pollf B)) false) =
    Some (any', mk (posted n mr no_batch c) (tab n (fun _ => 0)) (any_upto B n)).
Proof.
  intros Hr Hn Hid. unfold tickRdma. rewrite <- Hn.
  destruct (for_loop_inv (fun i s => s.2 = mk (ticked n i mr B c)
      (tab n (fun r => if (r <? i)%nat then 0 else pollf B r)) (any_upto B i)) n 0
    (fun s '(any, d) => poll_server s any d) (false, mk (served n mr B c) (tab n (pollf B)) false))
    as ([any d] & H1 & H2).
  - done.
  - intros i [any d] Hi Hd. cbn in Hd. subst d. destruct (tick_one n id mk i mr B c any Hr) as (any' & H); [lia|done|].
    eexists. split; [exact H|done].
  - cbn [snd Nat.add] in H2. subst d. exists any. rewrite H1. do 3 f_equal.
    + unfold ticked, posted. f_equal; apply tab_ext; intros r Hrn; by rewrite (proj2 (Nat.ltb_lt r n)).
    + apply tab_ext. intros r Hrn. by rewrite (proj2 (Nat.ltb_lt r n)).
Qed.

(** ** Routing to an [OpFuture] and to a [RangeFuture] *)

Definition op_ongoing (f : op_future) : list Z :=
  match of_kind f with
  | KGet => gf_ongoing (of_get f) | KPut => pf_ongoing (of_put f) | KRange => rf_ongoing (of_range f) | KNone => []
  end.

Definition range_set_ongoing (o : list Z) (f : range_future) : range_future :=
  RangeFuture (rf_id f) (rf_step f) (rf_start_key f) (rf_range_len f) o (rf_results f) (rf_measuring f) (rf_start f).

Definition op_set_ongoing (o : list Z) (f : op_future) : op_future :=
  match of_kind f with
  | KGet => OpFuture KGet (gf_with (of_get f) (gf_step (of_get f)) o) (of_put f) (of_range f)
  | KPut => OpFuture KPut (of_get f)
      (pf_with (of_put f) (pf_step (of_put f)) o (pf_needs (of_put f)) (pf_expected (of_put f))
         (pf_target (of_put f)) (pf_success (of_put f))) (of_range f)
  | KRange => OpFuture KRange (of_get f) (of_put f) (range_set_ongoing o (of_range f))
  | KNone => f
  end.

Lemma bump_tab n r x f : (r < n)%nat ->
  bump r x (tab n f) = Some (tab n (fun r' => if (r' =? r)%nat then f r + x else f r')).
Proof. intros Hr. unfold bump. rewrite tab_lookup by done. cbn [mbind option_bind]. by rewrite tab_insert. Qed.

Lemma op_set_bump n f g r : of_kind f <> KNone -> (r < n)%nat ->
  op_addToOngoing r (-1) (op_set_ongoing (tab n g) f) =
  Some (op_set_ongoing (tab n (fun r' => if (r' =? r)%nat then g r - 1 else g r')) f).
Proof.
  intros Hk Hr. unfold op_addToOngoing, op_set_ongoing, get_addToOngoing, put_addToOngoing, range_addToOngoing.
  destruct (of_kind f); [done|..]; cbn [of_kind of_get of_put of_range gf_with pf_with gf_ongoing pf_ongoing rf_ongoing
    range_set_ongoing];
    rewrite bump_tab by done; done.
Qed.

Definition mk_op (idx : nat) (f : op_future) (d : ds_client) (cl : client) (o : list Z) (b : bool) : ds_client :=
  DsClient cl (<[idx := op_set_ongoing o f]> (d_futures d)) (<[idx := b]> (d_progress d)) (d_range_futures d)
    (d_range_progress d).

Definition mk_range (idx : nat) (f : range_future) (d : ds_client) (cl : client) (o : list Z) (b : bool) : ds_client :=
  DsClient cl (d_futures d) (d_progress d) (<[idx := range_set_ongoing o f]> (d_range_futures d))
    (<[idx := b]> (d_range_progress d)).

(** The request ids of a future. *)
Lemma plain_id i : 0 <= i < 2 ^ 63 ->
  Z.shiftr i 63 = 0 /\ Z.land i (u64 (Z.lnot RANGE_BIT)) = i.
Proof.
  intros Hi. rewrite Z.shiftr_div_pow2, Z.div_small by lia. split; [done|].
  change (u64 (Z.lnot RANGE_BIT)) with (Z.ones 63). rewrite Z.land_ones, Z.mod_small by lia. done.
Qed.

Lemma range_id i : 0 <= i < 2 ^ 63 ->
  Z.shiftr (Z.lor i RANGE_BIT) 63 = 1 /\ Z.land (Z.lor i RANGE_BIT) (u64 (Z.lnot RANGE_BIT)) = i.
Proof.
  intros Hi. assert (He : Z.lor i RANGE_BIT = i + 1 * 2 ^ 63) by (change RANGE_BIT with (1 * 2 ^ 63); apply lor_high; lia).
  rewrite He. rewrite Z.shiftr_div_pow2, Z.div_add, Z.div_small by lia. split; [done|].
  change (u64 (Z.lnot RANGE_BIT)) with (Z.ones 63). rewrite Z.land_ones, Z.mod_add, Z.mod_small by lia. done.
Qed.

Lemma mk_op_routed n idx f d :
  of_kind f <> KNone -> (idx < length (d_futures d))%nat -> (idx < length (d_progress d))%nat ->
  Z.of_nat idx < 2 ^ 63 -> routed n (Z.of_nat idx) (mk_op idx f d).
Proof.
  intros Hk Hf Hp Hi. split; [done|done|]. intros cl g b r Hr. unfold route.
  destruct (plain_id (Z.of_nat idx)) as [-> ->]; [lia|]. cbn [Z.eqb negb]. rewrite Nat2Z.id.
  unfold mk_op. cbn [d_futures d_progress d_range_futures d_range_progress d_cl].
  rewrite list_lookup_insert_eq by done. cbn [mbind option_bind]. rewrite op_set_bump by done.
  cbn [mbind option_bind]. unfold upd. rewrite length_insert, assert_true by (by apply Nat.ltb_lt).
  cbn [mbind option_bind]. by rewrite !list_insert_insert_eq.
Qed.

Lemma mk_range_routed n idx f d :
  (idx < length (d_range_futures d))%nat -> (idx < length (d_range_progress d))%nat ->
  Z.of_nat idx < 2 ^ 63 -> routed n (Z.lor (Z.of_nat idx) RANGE_BIT) (mk_range idx f d).
Proof.
  intros Hf Hp Hi. split; [done|done|]. intros cl g b r Hr. unfold route.
  destruct (range_id (Z.of_nat idx)) as [-> ->]; [lia|]. cbn [Z.eqb negb]. rewrite Nat2Z.id.
  unfold mk_range. cbn [d_futures d_progress d_range_futures d_range_progress d_cl].
  rewrite list_lookup_insert_eq by done. cbn [mbind option_bind]. unfold range_addToOngoing.
  change (rf_ongoing (range_set_ongoing (tab n g) f)) with (tab n g). rewrite bump_tab by done.
  cbn [mbind option_bind]. unfold upd. rewrite length_insert, assert_true by (by apply Nat.ltb_lt).
  cbn [mbind option_bind]. by rewrite !list_insert_insert_eq.
Qed.

(** * Clients at rest, and one round trip of an operation

    A client is at rest when all its futures are done and its connections are
    idle.  Starting an operation posts a batch for future 0; one round of
    [finishAllFutures] executes and polls the batch and steps the future. *)

(** The tag of a register orders it: sequence number, then client. *)
Definition reg_tag (a : Z) : Z := reg_seq a * 2 ^ 16 + reg_client a.

Lemma reg_lt_tag a b : reg_lt a b = (reg_tag a <? reg_tag b).
Proof.
  unfold reg_lt, reg_tag. pose proof (reg_bounds a). pose proof (reg_bounds b).
  destruct (Z.eqb_spec (reg_seq a) (reg_seq b)); cbn [negb]; zcases.
Qed.

(** What the client needs of its configuration. *)
Record cfg_ok (remote_base : nat -> Z) (cfg : config) : Prop := {
  cfg_layout : layout_ok (dc_layout cfg);
  cfg_quorum : (1 <= dc_quorum cfg <= kMaxQuorum)%nat;
  cfg_indices : length (dc_indices cfg) = dc_quorum cfg;
  cfg_nodup : NoDup (dc_indices cfg);
  cfg_servers : forall r, r ∈ dc_indices cfg -> (r < Z.to_nat (num_servers (dc_layout cfg)))%nat;
  cfg_parallel : async_parallelism (dc_layout cfg) < 2 ^ 63;
  cfg_range : max_range (dc_layout cfg) * REG_SIZE < 2 ^ 32;
  cfg_registers : forall r, (r < Z.to_nat (num_servers (dc_layout cfg)))%nat ->
    0 <= remote_base r /\ remote_base r + num_registers (dc_layout cfg) * REG_SIZE <= 2 ^ 64;
}.

Section Round.
Context (remote_base : nat -> Z) (cfg : config) (reg_cache writeback : bool) (Hcfg : cfg_ok remote_base cfg).

Local Abbreviation L := (dc_layout cfg).
Local Abbreviation n := (Z.to_nat (num_servers (dc_layout cfg))).
Local Abbreviation p := (Z.to_nat (async_parallelism (dc_layout cfg))).
Local Abbreviation ind := (dc_indices cfg).
Local Abbreviation quorum := (dc_quorum cfg).

Lemma n_pos : (0 < n)%nat.
Proof. destruct (cfg_layout _ _ Hcfg) as (H & _). lia. Qed.
Lemma p_pos : (0 < p)%nat.
Proof. destruct (cfg_layout _ _ Hcfg) as (_ & H & _). lia. Qed.

(** ** Addresses *)

Lemma remote_addr_exact r key : (r < n)%nat -> 0 <= key < num_registers L ->
  remote_addr remote_base r key = remote_base r + 8 * key.
Proof.
  intros Hr Hk. destruct (cfg_registers _ _ Hcfg r Hr) as [H1 H2]. unfold remote_addr, remoteAddrOf, REG_SIZE in *.
  rewrite (u64_small (key * 8)), u64_small by (unfold is_u64; lia). lia.
Qed.

Lemma remote_addr_inj r key key' : (r < n)%nat -> 0 <= key < num_registers L -> 0 <= key' < num_registers L ->
  remote_addr remote_base r key = remote_addr remote_base r key' -> key = key'.
Proof. intros Hr Hk Hk'. rewrite !remote_addr_exact by done. lia. Qed.

Lemma future0_ok b r : (r < n)%nat -> match b with BBulk off => 0 <= off < max_range L | _ => True end ->
  buf_ok cfg b 0 r.
Proof. intros Hr Hb. destruct (cfg_layout _ _ Hcfg) as (H1 & H2 & _). unfold buf_ok. split_and!; [lia|lia|lia|done]. Qed.

(** ** Clients at rest *)

Definition op_rest (i : nat) (f : op_future) : Prop :=
  gf_id (of_get f) = Z.of_nat i /\ pf_id (of_put f) = Z.of_nat i /\
  gf_step (of_get f) = GDone /\ pf_step (of_put f) = PDone /\ rf_step (of_range f) = RDone /\
  gf_ongoing (of_get f) = tab n (fun _ => 0) /\ pf_ongoing (of_put f) = tab n (fun _ => 0) /\
  length (gf_expected (of_get f)) = kMaxQuorum /\ length (pf_expected (of_put f)) = kMaxQuorum /\
  length (pf_needs (of_put f)) = n.

Definition range_rest (i : nat) (f : range_future) : Prop :=
  rf_id f = Z.of_nat i /\ rf_step f = RDone /\ rf_ongoing f = tab n (fun _ => 0).

Definition prof_ok (c : client) : Prop :=
  profiler_ok (get_profiler (c_prof c)) /\ profiler_ok (put_profiler (c_prof c)) /\
  profiler_ok (range_profiler (c_prof c)).

(** Idle connections. *)
Definition idle (c : client) : Prop := exists mr c0, c = posted n mr no_batch c0.

Record rest (d : ds_client) : Prop := {
  rest_idle : idle (d_cl d);
  rest_prof : prof_ok (d_cl d);
  rest_progress : d_progress d = replicate p false;
  rest_range_progress : d_range_progress d = replicate p false;
  rest_length : length (d_futures d) = p;
  rest_range_length : length (d_range_futures d) = p;
  rest_op i f : d_futures d !! i = Some f -> op_rest i f;
  rest_range i f : d_range_futures d !! i = Some f -> range_rest i f;
}.

Lemma op_rest_done i f : op_rest i f -> op_isDone f = true.
Proof.
  intros (_ & _ & H1 & H2 & H3 & _). unfold op_isDone, get_isDone, put_isDone, range_isDone.
  rewrite H1, H2, H3. by destruct (of_kind f).
Qed.

Lemma range_rest_done i f : range_rest i f -> range_isDone f = true.
Proof. intros (_ & H & _). unfold range_isDone. by rewrite H. Qed.

Lemma rest_future0 d : rest d -> exists f, d_futures d !! 0%nat = Some f /\ op_rest 0 f.
Proof.
  intros Hr. destruct (lookup_lt_is_Some_2 (d_futures d) 0) as [f Hf]; [rewrite (rest_length _ Hr); apply p_pos|].
  exists f. split; [done|]. by apply (rest_op _ Hr).
Qed.

Lemma rest_range0 d : rest d -> exists f, d_range_futures d !! 0%nat = Some f /\ range_rest 0 f.
Proof.
  intros Hr. destruct (lookup_lt_is_Some_2 (d_range_futures d) 0) as [f Hf]; [rewrite (rest_range_length _ Hr); apply p_pos|].
  exists f. split; [done|]. by apply (rest_range _ Hr).
Qed.

Lemma rest_progress_at d i : rest d -> (i < p)%nat ->
  d_progress d !! i = Some false /\ d_range_progress d !! i = Some false.
Proof. intros Hr Hi. rewrite (rest_progress _ Hr), (rest_range_progress _ Hr). by rewrite !lookup_replicate_2. Qed.

(** A client at rest whose future 0 has been replaced by one at rest. *)
Lemma rest_set_op d f c : rest d -> op_rest 0 f -> idle c -> prof_ok c ->
  rest (DsClient c (<[0%nat := f]> (d_futures d)) (d_progress d) (d_range_futures d) (d_range_progress d)).
Proof.
  intros [H1 H2 H3 H4 H5 H6 H7 H8] Hf Hi Hp. split; cbn; try done; [by rewrite length_insert|].
  intros i g Hg. apply list_lookup_insert_Some in Hg as [(<- & <- & _)|[_ Hg]]; [done|by apply H7].
Qed.

Lemma rest_set_range d f c : rest d -> range_rest 0 f -> idle c -> prof_ok c ->
  rest (DsClient c (d_futures d) (d_progress d) (<[0%nat := f]> (d_range_futures d)) (d_range_progress d)).
Proof.
  intros [H1 H2 H3 H4 H5 H6 H7 H8] Hf Hi Hp. split; cbn; try done; [by rewrite length_insert|].
  intros i g Hg. apply list_lookup_insert_Some in Hg as [(<- & <- & _)|[_ Hg]]; [done|by apply H8].
Qed.

(** ** The spinning loops of a client at rest *)

Lemma free_at_rest net fuel w : rest (w_dc w) ->
  getFreeFuture remote_base cfg reg_cache writeback net (S fuel) w = Done 0%nat w.
Proof.
  intros Hr. destruct (rest_future0 _ Hr) as (f & Hf & Hd). destruct (rest_progress_at _ 0 Hr p_pos) as [Hp _].
  cbn [getFreeFuture]. destruct p as [|k] eqn:Hk; [pose proof p_pos; lia|]. cbn [free_scan]. unfold step_op.
  rewrite Hp. cbn [mbind option_bind]. rewrite Hf. cbn [mbind option_bind]. rewrite (op_rest_done 0 f Hd).
  by destruct w.
Qed.

Lemma free_range_at_rest net fuel w : rest (w_dc w) ->
  getFreeRangeFuture cfg reg_cache net (S fuel) w = Done 0%nat w.
Proof.
  intros Hr. destruct (rest_range0 _ Hr) as (f & Hf & Hd). destruct (rest_progress_at _ 0 Hr p_pos) as [_ Hp].
  cbn [getFreeRangeFuture]. destruct p as [|k] eqn:Hk; [pose proof p_pos; lia|]. cbn [free_range_scan]. unfold step_range.
  rewrite Hp. cbn [mbind option_bind]. rewrite Hf. cbn [mbind option_bind]. rewrite (range_rest_done 0 f Hd).
  by destruct w.
Qed.

Lemma both_done_rest d i : rest d -> (i < p)%nat -> both_done i d = Some true.
Proof.
  intros Hr Hi. unfold both_done.
  destruct (lookup_lt_is_Some_2 (d_futures d) i) as [f Hf]; [by rewrite (rest_length _ Hr)|].
  destruct (lookup_lt_is_Some_2 (d_range_futures d) i) as [g Hg]; [by rewrite (rest_range_length _ Hr)|].
  rewrite Hf, Hg. cbn [mbind option_bind].
  by rewrite (op_rest_done i f), (range_rest_done i g) by (eapply rest_op || eapply rest_range; done).
Qed.

Lemma finish_from_rest net k i fuel w : rest (w_dc w) -> (i + k <= p)%nat ->
  finish_from remote_base cfg reg_cache writeback net k i fuel w = Done tt w.
Proof.
  intros Hr. revert i. induction k as [|k IH]; intros i Hi; [done|]. cbn [finish_from].
  assert (H : finish_one remote_base cfg reg_cache writeback net fuel i w = Done tt w).
  { destruct fuel; cbn [finish_one]; by rewrite both_done_rest by (done || lia). }
  rewrite H. apply IH. lia.
Qed.

(** All futures are drained once future 0 is and the client is at rest. *)
Lemma finish_all net fuel w w' :
  finish_one remote_base cfg reg_cache writeback net fuel 0 w = Done tt w' -> rest (w_dc w') ->
  finishAllFutures remote_base cfg reg_cache writeback net fuel w = Done tt w'.
Proof.
  intros H Hr. unfold finishAllFutures. pose proof p_pos. replace p with (S (p - 1)) by lia.
  cbn [finish_from]. rewrite H. apply finish_from_rest; [done|lia].
Qed.

(** ** A round trip *)

(** The requests of a batch write disjoint words. *)
Definition batch_ok (B : batch_t) (servers : nat -> memory) : Prop :=
  forall r w, (r < n)%nat -> B r = Some w ->
    NoDup (map fst (writes w (servers r))) /\
    forall a v, (a, v) ∈ writes w (servers r) -> exists b, buf_ok cfg b 0 r /\ a = buf_addr cfg b 0 r.

Lemma net_round now d mk id servers mr B c :
  routed n id mk -> (forall r w, B r = Some w -> wr_id w = id) -> batch_ok B servers ->
  d = mk (posted n mr B c) (tab n (pollf B)) false ->
  exists servers' mr',
    net_tick cfg net_all (World servers now d) =
      Some (World servers' now (mk (posted n mr' no_batch c) (tab n (fun _ => 0)) (any_upto B n))) /\
    (forall r, servers' r = if (r <? n)%nat then exec_batch B servers r else servers r) /\
    (forall r w a v, (r < n)%nat -> B r = Some w -> (a, v) ∈ writes w (servers r) -> mr' a = v).
Proof.
  intros Hr Hid HB ->.
  destruct (drain_batch n servers mr B c) as (sv & m & Hd & H1 & H2).
  { intros r w Hrn Hw. apply (HB r w Hrn Hw). }
  { intros r r' w w' a v v' Hrn Hrn' Hne Hw Hw' Hin Hin'.
    destruct (HB r w Hrn Hw) as [_ Ha]. destruct (HB r' w' Hrn' Hw') as [_ Ha'].
    destruct (Ha a v Hin) as (b & Hb & ->). destruct (Ha' _ v' Hin') as (b' & Hb' & He).
    apply (buf_addr_inj cfg (cfg_layout _ _ Hcfg)) in He; [congruence|done|done]. }
  destruct (tick_batch cfg n id mk m B c Hr eq_refl Hid) as (any & Ht).
  exists sv, m. split_and!; [|done|done]. destruct Hr as [Hcl Hwith _].
  assert (Hnet : net_all (World servers now (mk (posted n mr B c) (tab n (pollf B)) false)) =
    World sv now (mk (served n m B c) (tab n (pollf B)) false)).
  { unfold net_all. cbn [w_dc w_servers w_now]. rewrite Hcl.
    change (c_sq (posted n mr B c)) with (tab n (sqf B)). by rewrite tab_length, Hd, Hwith. }
  unfold net_tick. rewrite Hnet. cbn [w_dc]. by rewrite Ht.
Qed.

Lemma any_upto_true B r : (r < n)%nat -> B r <> None -> any_upto B n = true.
Proof.
  intros Hr HB. unfold any_upto. apply existsb_exists. exists r. rewrite in_seq. split; [lia|].
  apply bool_decide_eq_true_2. destruct (B r); [done|congruence].
Qed.

(** A round of [finishAllFutures] for future 0, an [OpFuture]. *)
Lemma op_round now d f servers mr B c r0 :
  rest d -> of_kind f <> KNone -> (forall r w, B r = Some w -> wr_id w = 0) -> batch_ok B servers ->
  (r0 < n)%nat -> B r0 <> None ->
  exists servers' mr',
    finish_round remote_base cfg reg_cache writeback net_all 0
      (World servers now (mk_op 0 f d (posted n mr B c) (tab n (pollf B)) false)) =
    ('(_, f', c') ← op_tryStepForward remote_base cfg reg_cache writeback now
        (op_set_ongoing (tab n (fun _ => 0)) f) (posted n mr' no_batch c);
     Some (World servers' now (DsClient c' (<[0%nat := f']> (d_futures d)) (d_progress d) (d_range_futures d)
       (d_range_progress d)))) /\
    (forall r, servers' r = if (r <? n)%nat then exec_batch B servers r else servers r) /\
    (forall r w a v, (r < n)%nat -> B r = Some w -> (a, v) ∈ writes w (servers r) -> mr' a = v).
Proof.
  intros Hr Hk Hid HB Hr0 HB0. pose proof p_pos as Hp.
  assert (Hrt : routed n 0 (mk_op 0 f d)).
  { apply (mk_op_routed n 0 f d Hk); [by rewrite (rest_length _ Hr)|rewrite (rest_progress _ Hr), length_replicate; done|lia]. }
  destruct (net_round now _ _ _ servers mr B c Hrt Hid HB eq_refl) as (sv & m & Ht & H1 & H2).
  exists sv, m. split_and!; [|done|done]. unfold finish_round. rewrite Ht. cbn [mbind option_bind].
  rewrite (any_upto_true B r0) by done. unfold mk_op, step_op. cbn [w_dc w_now d_progress d_futures d_cl].
  destruct (rest_progress_at d 0 Hr Hp) as [Hp1 Hp2].
  rewrite !list_lookup_insert_eq by
    first [exact (lookup_lt_Some _ _ _ Hp1)|rewrite (rest_length _ Hr); exact Hp]. cbn [mbind option_bind].
  destruct (op_tryStepForward _ _ _ _ _ _ _) as [[[b f'] c']|]; [|done]. cbn [mbind option_bind].
  unfold step_range. cbn [d_range_progress d_progress d_futures d_range_futures]. rewrite Hp2. cbn [mbind option_bind].
  rewrite !list_insert_insert_eq, (list_insert_id _ _ _ Hp1). done.
Qed.

(** And for the range future 0. *)
Lemma range_round now d f servers mr B c r0 :
  rest d -> (forall r w, B r = Some w -> wr_id w = Z.lor 0 RANGE_BIT) -> batch_ok B servers ->
  (r0 < n)%nat -> B r0 <> None ->
  exists servers' mr',
    finish_round remote_base cfg reg_cache writeback net_all 0
      (World servers now (mk_range 0 f d (posted n mr B c) (tab n (pollf B)) false)) =
    ('(_, f', c') ← range_tryStepForward cfg reg_cache now
        (range_set_ongoing (tab n (fun _ => 0)) f) (posted n mr' no_batch c);
     Some (World servers' now (DsClient c' (d_futures d) (d_progress d) (<[0%nat := f']> (d_range_futures d))
       (d_range_progress d)))) /\
    (forall r, servers' r = if (r <? n)%nat then exec_batch B servers r else servers r) /\
    (forall r w a v, (r < n)%nat -> B r = Some w -> (a, v) ∈ writes w (servers r) -> mr' a = v).
Proof.
  intros Hr Hid HB Hr0 HB0. pose proof p_pos as Hp.
  assert (Hrt : routed n (Z.lor 0 RANGE_BIT) (mk_range 0 f d)).
  { apply (mk_range_routed n 0 f d); [by rewrite (rest_range_length _ Hr)|rewrite (rest_range_progress _ Hr), length_replicate; done|lia]. }
  destruct (net_round now _ _ _ servers mr B c Hrt Hid HB eq_refl) as (sv & m & Ht & H1 & H2).
  exists sv, m. split_and!; [|done|done]. unfold finish_round. rewrite Ht. cbn [mbind option_bind].
  rewrite (any_upto_true B r0) by done. unfold mk_range, step_op. cbn [w_dc w_now d_progress d_futures d_cl].
  destruct (rest_progress_at d 0 Hr Hp) as [Hp1 Hp2]. rewrite Hp1. cbn [mbind option_bind].
  unfold step_range. cbn [d_range_progress d_progress d_futures d_range_futures d_cl].
  rewrite !list_lookup_insert_eq by
    first [exact (lookup_lt_Some _ _ _ Hp2)|rewrite (rest_range_length _ Hr); exact Hp]. cbn [mbind option_bind].
  destruct (range_tryStepForward _ _ _ _ _) as [[[b f'] c']|]; [|done]. cbn [mbind option_bind].
  rewrite !list_insert_insert_eq, (list_insert_id _ _ _ Hp2). done.
Qed.
End Round.
