(* ===== verification/DsGetPut.v ===== *)
(** * DsGetPut: gets and puts of a client that is alone

    What the posting and collecting loops of a get and of a put compute when
    every request of the quorum is executed in between, without the register
    cache. *)

From S2P Require Import Prelude Prog DsRegister Latency DsNet DsFutures DsLayout DsClient DsMain.
From S2P Require Import DsAlone.

Local Open Scope Z_scope.

(** ** The greatest register of a list, as [GetFuture] computes it *)

Definition scan_reg (s : Z * Z) (v : Z) : Z * Z :=
  if reg_lt s.1 v then (v, 1) else if v =? s.1 then (s.1, s.2 + 1) else s.

Definition scan_regs (l : list Z) : Z * Z := foldl scan_reg (0, 0) l.

Lemma scan_regs_snoc l v : scan_regs (l ++ [v]) = scan_reg (scan_regs l) v.
Proof. unfold scan_regs. by rewrite foldl_app. Qed.

Lemma scan_regs_spec l :
  ((scan_regs l).1 = 0 \/ (scan_regs l).1 ∈ l) /\
  (forall v, v ∈ l -> reg_tag v <= reg_tag (scan_regs l).1) /\
  (scan_regs l).2 = Z.of_nat (length (filter (fun v => v = (scan_regs l).1) l)).
Proof.
  induction l as [|v l IH] using rev_ind; [split_and!; [by left| |done]; by intros ? ?%elem_of_nil|].
  rewrite scan_regs_snoc. destruct IH as (H1 & H2 & H3). unfold scan_reg. rewrite reg_lt_tag.
  destruct (Z.ltb_spec (reg_tag (scan_regs l).1) (reg_tag v)) as [Hlt|Hge]; cbn [fst snd].
  - split_and!.
    + right. apply elem_of_app. right. left.
    + intros u [Hu|Hu%list_elem_of_singleton]%elem_of_app; [specialize (H2 u Hu); lia|subst u; lia].
    + rewrite filter_app, length_app. assert (Hnil : filter (fun u => u = v) l = []).
      { destruct (filter (fun u => u = v) l) as [|u l'] eqn:He; [done|].
        assert (Hu : u ∈ filter (fun u => u = v) l) by (rewrite He; left).
        apply list_elem_of_filter in Hu as [-> Hu]. specialize (H2 v Hu). lia. }
      rewrite Hnil. cbn. by rewrite decide_True.
  - destruct (Z.eqb_spec v (scan_regs l).1) as [Heq|Hne]; cbn [fst snd].
    + split_and!.
      * destruct H1 as [H1|H1]; [by left|right]. apply elem_of_app. by left.
      * intros u [Hu|Hu%list_elem_of_singleton]%elem_of_app; [auto|subst u; lia].
      * rewrite filter_app, length_app, H3. cbn. rewrite decide_True by done. cbn. lia.
    + split_and!.
      * destruct H1 as [H1|H1]; [by left|right]. apply elem_of_app. by left.
      * intros u [Hu|Hu%list_elem_of_singleton]%elem_of_app; [auto|subst u; lia].
      * rewrite filter_app, length_app, H3. cbn. rewrite decide_False by done. cbn. lia.
Qed.

Section GetPut.
Context (remote_base : nat -> Z) (cfg : config) (writeback : bool) (Hcfg : cfg_ok remote_base cfg).

Local Abbreviation L := (dc_layout cfg).
Local Abbreviation n := (Z.to_nat (num_servers (dc_layout cfg))).
Local Abbreviation ind := (dc_indices cfg).
Local Abbreviation quorum := (dc_quorum cfg).

(** The register of a key at a server, and at the servers of the quorum. *)
Definition reg_at (servers : nat -> memory) (key : Z) (r : nat) : Z := servers r (remote_addr remote_base r key).
Definition vals (servers : nat -> memory) (key : Z) : list Z := map (reg_at servers key) ind.

Lemma vals_lookup servers key i r : ind !! i = Some r -> vals servers key !! i = Some (reg_at servers key r).
Proof. intros H. unfold vals. change (map (reg_at servers key) ind) with (reg_at servers key <$> ind). by rewrite list_lookup_fmap, H. Qed.

Lemma vals_length servers key : length (vals servers key) = quorum.
Proof. unfold vals. by rewrite length_map, (cfg_indices _ _ Hcfg). Qed.

Lemma ind_lookup i : (i < quorum)%nat -> exists r, ind !! i = Some r /\ (r < n)%nat /\ r ∈ ind.
Proof.
  intros Hi. destruct (lookup_lt_is_Some_2 ind i) as [r Hr]; [by rewrite (cfg_indices _ _ Hcfg)|].
  exists r. assert (r ∈ ind) by by eapply list_elem_of_lookup_2. split_and!; [done|by apply (cfg_servers _ _ Hcfg)|done].
Qed.

(** ** Batches *)

Definition read_batch (id key : Z) : batch_t := fun r =>
  if decide (r ∈ ind) then Some (Wr id (remote_addr remote_base r key) (RdmaRead (read_buf cfg id r) 1)) else None.

(** A compare-and-swap on each server of the quorum that satisfies [P]. *)
Definition cas_batch (id key : Z) (expected : nat -> Z) (P : nat -> bool) (target : Z) : batch_t := fun r =>
  if decide (r ∈ ind) then
    if P r then Some (Wr id (remote_addr remote_base r key) (RdmaCas (swap_buf cfg id r) (expected r) target)) else None
  else None.

Lemma read_batch_out id key r : r ∉ ind -> read_batch id key r = None.
Proof. intros H. unfold read_batch. by rewrite decide_False. Qed.
Lemma cas_batch_out id key e P t r : r ∉ ind -> cas_batch id key e P t r = None.
Proof. intros H. unfold cas_batch. by rewrite decide_False. Qed.

Lemma read_batch_ok key servers : batch_ok cfg (read_batch 0 key) servers.
Proof.
  intros r w Hr Hw. unfold read_batch in Hw. case_decide; [|done]. injection Hw as <-. unfold writes. cbn.
  split; [apply NoDup_singleton|]. intros a v [= -> ->]%list_elem_of_singleton. exists BRead.
  split; [by apply (future0_ok remote_base)|done].
Qed.

Lemma cas_batch_ok key e P t servers : batch_ok cfg (cas_batch 0 key e P t) servers.
Proof.
  intros r w Hr Hw. unfold cas_batch in Hw. case_decide; [|done]. destruct (P r); [|done]. injection Hw as <-.
  unfold writes. cbn. split; [apply NoDup_singleton|]. intros a v [= -> ->]%list_elem_of_singleton. exists BSwap.
  split; [by apply (future0_ok remote_base)|done].
Qed.

Lemma batch_id (B : batch_t) : (exists key, B = read_batch 0 key) \/ (exists key e P t, B = cas_batch 0 key e P t) ->
  forall r w, B r = Some w -> wr_id w = 0.
Proof.
  intros [(key & ->)|(key & e & P & t & ->)] r w; unfold read_batch, cas_batch; case_decide; try done.
  - by intros [= <-].
  - destruct (P r); [|done]. by intros [= <-].
Qed.

Lemma with_cnt_id (c : client) : with_cnt (fun x => x) c = c.
Proof. by destruct c. Qed.

Lemma post_reads_spec mr c key :
  exists c', post_reads remote_base cfg 0 key (tab n (fun _ => 0), posted n mr no_batch c) =
      Some (tab n (pollf (read_batch 0 key)), posted n mr (read_batch 0 key) c') /\
    c_cache c' = c_cache c /\ c_prof c' = c_prof c.
Proof.
  unfold post_reads. rewrite <- (cfg_indices _ _ Hcfg). apply post_loop; [apply read_batch_out|].
  intros i [o cl] Hi Hs. rewrite (cfg_indices _ _ Hcfg) in Hi. destruct (ind_lookup i Hi) as (r & Hr & Hn & Hin).
  rewrite Hr. cbn [mbind option_bind].
  destruct (posting_step n mr ind (read_batch 0 key) (c_cache c) (c_prof c) i r
    (Wr 0 (remote_addr remote_base r key) (RdmaRead (read_buf cfg 0 r) 1)) o cl (fun x => x))
    as (s & Hstep & Hpost); [apply (cfg_nodup _ _ Hcfg)|done|done|unfold read_batch; by rewrite decide_True|done|].
  exists s. split; [|done]. rewrite <- Hstep.
  destruct (post r _ cl) as [cl'|]; [|done]. cbn [mbind option_bind].
  destruct (bump r 1 o) as [o'|]; [|done]. cbn [mbind option_bind]. by rewrite with_cnt_id.
Qed.

(** The compare-and-swaps of the slots that need one. *)
Lemma post_cas_loop mr c key (e : nat -> Z) (P : nat -> bool) t
    (body : nat -> list Z * client -> option (list Z * client)) :
  (forall i r o cl, ind !! i = Some r -> (i < quorum)%nat -> body i (o, cl) =
    if P r then
      c' ← post r (Wr 0 (remote_addr remote_base r key) (RdmaCas (swap_buf cfg 0 r) (e r) t)) cl;
      o' ← bump r 1 o; Some (o', with_cnt countCasAttempt c')
    else Some (o, cl)) ->
  exists c', for_loop quorum 0 body (tab n (fun _ => 0), posted n mr no_batch c) =
      Some (tab n (pollf (cas_batch 0 key e P t)), posted n mr (cas_batch 0 key e P t) c') /\
    c_cache c' = c_cache c /\ c_prof c' = c_prof c.
Proof.
  intros Hbody. rewrite <- (cfg_indices _ _ Hcfg). apply post_loop; [apply cas_batch_out|].
  intros i [o cl] Hi Hs. rewrite (cfg_indices _ _ Hcfg) in Hi. destruct (ind_lookup i Hi) as (r & Hr & Hn & Hin).
  rewrite (Hbody i r o cl Hr Hi). destruct (P r) eqn:HP.
  - apply (posting_step n mr ind (cas_batch 0 key e P t) (c_cache c) (c_prof c) i r
      (Wr 0 (remote_addr remote_base r key) (RdmaCas (swap_buf cfg 0 r) (e r) t)) o cl countCasAttempt);
      [apply (cfg_nodup _ _ Hcfg)|done|done|unfold cas_batch; by rewrite decide_True, HP|done].
  - eexists. split; [done|]. apply (posting_skip n mr ind _ _ _ i r); [done| |done].
    unfold cas_batch. by rewrite decide_True, HP.
Qed.

(** ** Collecting *)

(** Counting on the counters of a client whose connections are idle. *)
Lemma with_cnt_posted g mr B c : with_cnt g (posted n mr B c) = posted n mr B (with_cnt g c).
Proof. done. Qed.

Definition same_local (c c' : client) : Prop := c_cache c' = c_cache c /\ c_prof c' = c_prof c.

Lemma upd_snoc {A : Type} (l old : list A) i (x : A) :
  length l = i -> (i < length old)%nat ->
  upd i x (l ++ drop i old) = Some ((l ++ [x]) ++ drop (S i) old).
Proof.
  intros Hl Hi. unfold upd. rewrite assert_true by (apply Nat.ltb_lt; rewrite length_app, length_drop; lia).
  cbn [mbind option_bind]. f_equal. destruct (lookup_lt_is_Some_2 old i) as [y Hy]; [done|].
  rewrite (drop_S old y i Hy), insert_app_r_alt, Hl, Nat.sub_diag by lia. cbn. by rewrite <- app_assoc.
Qed.

Lemma get_collect_spec f mr c sv key :
  gf_id f = 0 -> length (gf_expected f) = kMaxQuorum -> gf_max_reg f = 0 -> gf_max_count f = 0 ->
  (forall r, r ∈ ind -> mr (read_buf cfg 0 r) = reg_at sv key r) ->
  exists c', get_collect cfg f (posted n mr no_batch c) =
      Some (vals sv key ++ drop quorum (gf_expected f), (scan_regs (vals sv key)).1, (scan_regs (vals sv key)).2,
            posted n mr no_batch c') /\ same_local c c'.
Proof.
  intros Hid Hlen Hm Hcnt Hmr. unfold get_collect. rewrite Hid, Hm, Hcnt.
  pose proof (cfg_quorum _ _ Hcfg) as [Hq1 Hq2]. set (vs := vals sv key).
  match goal with |- context [for_loop quorum 0 ?body ?s0] =>
    destruct (for_loop_inv (fun i s => exists c', same_local c c' /\
      s = (take i vs ++ drop i (gf_expected f), (scan_regs (take i vs)).1, (scan_regs (take i vs)).2,
           posted n mr no_batch c')) quorum 0 body s0) as (s & Hs & (c' & Hl & ->)) end.
  - by exists c.
  - intros i s [_ Hi] (c0 & Hl0 & ->). destruct (ind_lookup i) as (r & Hr & Hn & Hin); [done|].
    rewrite Hr. cbn [mbind option_bind posted c_mr]. rewrite (Hmr r Hin).
    pose proof (vals_lookup sv key i r Hr) as Hv. fold vs in Hv.
    assert (Htk : length (take i vs) = i) by (rewrite length_take; unfold vs; rewrite vals_length; lia).
    rewrite upd_snoc by lia. cbn [mbind option_bind]. rewrite (take_S_r vs i _ Hv), scan_regs_snoc.
    destruct (scan_regs_spec (take i vs)) as (_ & _ & Hc).
    assert (Hb : (length (filter (fun v => v = (scan_regs (take i vs)).1) (take i vs)) <= i)%nat).
    { etransitivity; [apply length_filter|]. by rewrite Htk. }
    unfold scan_reg. unfold kMaxQuorum in *.
    destruct (reg_lt _ _); [|destruct (_ =? _)]; cbn [fst snd];
      (eexists; split; [done|]; exists (with_cnt countRead c0); split; [done|]; try done).
    rewrite u64_small by (unfold is_u64; lia). done.
  - exists c'. cbn [Nat.add] in Hs. rewrite take_ge in Hs by (unfold vs; rewrite vals_length; lia). rewrite <- Hs. done.
Qed.

(** Step [ReadSeq] of a put. *)
Lemma put_collect_spec f mr c sv key :
  pf_id f = 0 -> length (pf_expected f) = kMaxQuorum -> length (pf_needs f) = n ->
  (forall r, r ∈ ind -> mr (read_buf cfg 0 r) = reg_at sv key r) ->
  exists c' needs, put_collect cfg f (posted n mr no_batch c) =
      Some (vals sv key ++ drop quorum (pf_expected f), needs, foldl Z.max 0 (map reg_seq (vals sv key)),
            posted n mr no_batch c') /\
    same_local c c' /\ length needs = n /\ (forall r, r ∈ ind -> needs !! r = Some true).
Proof.
  intros Hid Hlen Hneeds Hmr. unfold put_collect. rewrite Hid.
  pose proof (cfg_quorum _ _ Hcfg) as [Hq1 Hq2]. set (vs := vals sv key).
  match goal with |- context [for_loop quorum 0 ?body ?s0] =>
    destruct (for_loop_inv (fun i s => exists c' needs, same_local c c' /\ length needs = n /\
      (forall r, r ∈ take i ind -> needs !! r = Some true) /\
      s = (take i vs ++ drop i (pf_expected f), needs, foldl Z.max 0 (map reg_seq (take i vs)),
           posted n mr no_batch c')) quorum 0 body s0) as (s & Hs & (c' & needs & Hl & Hnl & Hnt & ->)) end.
  - exists c, (pf_needs f). split_and!; try done. by intros r Hr%elem_of_nil.
  - intros i s [_ Hi] (c0 & needs & Hl0 & Hnl & Hnt & ->). destruct (ind_lookup i) as (r & Hr & Hn & Hin); [done|].
    rewrite Hr. cbn [mbind option_bind posted c_mr]. rewrite (Hmr r Hin).
    pose proof (vals_lookup sv key i r Hr) as Hv. fold vs in Hv.
    assert (Htk : length (take i vs) = i) by (rewrite length_take; unfold vs; rewrite vals_length; lia).
    unfold kMaxQuorum in *. rewrite upd_snoc by lia. cbn [mbind option_bind].
    unfold upd. rewrite assert_true by (apply Nat.ltb_lt; lia). cbn [mbind option_bind].
    eexists. split; [done|]. exists (with_cnt countRead c0), (<[r := true]> needs).
    rewrite (take_S_r vs i _ Hv), map_app, foldl_app. split_and!; try done; [by rewrite length_insert|].
    rewrite (take_S_r ind i r Hr). intros r' [Hr'|Hr'%list_elem_of_singleton]%elem_of_app.
    + destruct (decide (r' = r)) as [->|]; [by rewrite list_lookup_insert_eq by lia|].
      rewrite list_lookup_insert_ne by done. auto.
    + subst r'. by rewrite list_lookup_insert_eq by lia.
  - exists c', needs. cbn [Nat.add] in Hs. rewrite take_ge in Hs by (unfold vs; rewrite vals_length; lia).
    rewrite take_ge in Hnt by (by rewrite (cfg_indices _ _ Hcfg)). done.
Qed.

(** The lookups of a table of the quorum's values. *)
Lemma vals_app_lookup sv key old i r : ind !! i = Some r -> (vals sv key ++ old) !! i = Some (reg_at sv key r).
Proof. intros Hr. apply lookup_app_l_Some. by apply vals_lookup. Qed.

(** Step [CAS] when every compare-and-swap found what it expected. *)
Lemma put_check_spec f mr c sv key old :
  pf_id f = 0 -> pf_expected f = vals sv key ++ old -> length (pf_needs f) = n -> pf_success f = 0 ->
  (forall r, r ∈ ind -> pf_needs f !! r = Some true) ->
  (forall r, r ∈ ind -> mr (swap_buf cfg 0 r) = reg_at sv key r) ->
  exists needs, put_check cfg f (posted n mr no_batch c) =
      Some (needs, pf_expected f, pf_target f, Z.of_nat quorum, posted n mr no_batch c) /\ length needs = n.
Proof.
  intros Hid Hexp Hneeds Hsucc Hall Hmr. unfold put_check. rewrite Hid, Hsucc.
  pose proof (cfg_quorum _ _ Hcfg) as [Hq1 Hq2].
  match goal with |- context [for_loop quorum 0 ?body ?s0] =>
    destruct (for_loop_inv (fun i s => exists needs, length needs = n /\
      (forall j r, (i <= j)%nat -> ind !! j = Some r -> needs !! r = Some true) /\
      s = (needs, pf_expected f, pf_target f, Z.of_nat i, posted n mr no_batch c)) quorum 0 body s0)
      as (s & Hs & (needs & Hnl & _ & ->)) end.
  - exists (pf_needs f). split_and!; try done. intros j r _ Hr. apply Hall. by eapply list_elem_of_lookup_2.
  - intros i s [_ Hi] (needs & Hnl & Hnt & ->). destruct (ind_lookup i) as (r & Hr & Hn & Hin); [done|].
    rewrite Hr. cbn [mbind option_bind]. rewrite (Hnt i r) by done. cbn [mbind option_bind negb posted c_mr].
    rewrite Hexp, (vals_app_lookup sv key old i r Hr). cbn [mbind option_bind]. rewrite (Hmr r Hin), Z.eqb_refl.
    unfold upd. rewrite assert_true by (apply Nat.ltb_lt; lia). cbn [mbind option_bind].
    eexists. split; [done|]. exists (<[r := false]> needs). split_and!.
    + by rewrite length_insert.
    + intros j r' Hj Hr'. rewrite list_lookup_insert_ne; [apply (Hnt j r'); [lia|done]|].
      intros ->. pose proof (NoDup_lookup _ _ _ _ (cfg_nodup _ _ Hcfg) Hr Hr'). lia.
    + unfold kMaxQuorum in *. rewrite u64_small by (unfold is_u64; lia). repeat f_equal. lia.
  - exists needs. split; [|done]. rewrite Hs. done.
Qed.

(** ** Running an operation *)

Lemma no_ongoing k : some_ongoing (tab k (fun _ => 0)) = false.
Proof. unfold some_ongoing. rewrite tab_const. induction k as [|k IH]; [done|]. exact IH. Qed.

(** Recording a latency leaves the connections alone. *)
Lemma get_measure_spec f now mr B c : prof_ok c ->
  exists c', get_measure f now (posted n mr B c) = Some (posted n mr B c') /\ prof_ok c' /\ c_cache c' = c_cache c.
Proof.
  intros (H1 & H2 & H3). unfold get_measure. destruct (gf_measuring f); [|by exists c].
  destruct (add_measurement_correct (now - gf_start f) (get_profiler (c_prof c)) H1) as (p' & Hp & Hok & _).
  unfold addGetMeasurement. cbn [posted c_prof]. rewrite Hp. cbn [mbind option_bind].
  exists (with_prof (Profilers p' (put_profiler (c_prof c)) (range_profiler (c_prof c))) c). done.
Qed.

Lemma put_done_spec f now t mr B c : prof_ok c ->
  exists c', put_done false f now t (posted n mr B c) = Some (posted n mr B c') /\ prof_ok c' /\ c_cache c' = c_cache c.
Proof.
  intros (H1 & H2 & H3). unfold put_done. cbn [mbind option_bind]. destruct (pf_measuring f); [|by exists c].
  destruct (add_measurement_correct (now - pf_start f) (put_profiler (c_prof c)) H2) as (p' & Hp & Hok & _).
  unfold addPutMeasurement. cbn [posted c_prof]. rewrite Hp. cbn [mbind option_bind].
  exists (with_prof (Profilers (get_profiler (c_prof c)) p' (range_profiler (c_prof c))) c). done.
Qed.

Lemma op_set_same f : of_kind f <> KNone -> op_set_ongoing (op_ongoing f) f = f.
Proof. destruct f as [[] [] [] []]; done. Qed.

(** A client whose future 0 has just posted a batch. *)
Lemma mk_op_start d f cl : rest cfg d -> of_kind f <> KNone ->
  DsClient cl (<[0%nat := f]> (d_futures d)) (d_progress d) (d_range_futures d) (d_range_progress d) =
  mk_op 0 f d cl (op_ongoing f) false.
Proof.
  intros Hr Hk. unfold mk_op. rewrite op_set_same by done.
  destruct (rest_progress_at cfg d 0 Hr (p_pos remote_base cfg Hcfg)) as [Hp _]. by rewrite (list_insert_id _ _ _ Hp).
Qed.

Lemma mk_op_busy d f cl o : rest cfg d -> op_isDone (op_set_ongoing o f) = false ->
  both_done 0 (mk_op 0 f d cl o false) = Some false.
Proof.
  intros Hr Hd. unfold both_done, mk_op. cbn [d_futures d_range_futures].
  pose proof (p_pos remote_base cfg Hcfg).
  rewrite list_lookup_insert_eq by (rewrite (rest_length _ _ Hr); lia).
  destruct (rest_range0 remote_base cfg Hcfg d Hr) as (g & Hg & _). rewrite Hg. cbn [mbind option_bind]. by rewrite Hd.
Qed.

(** The first slot of the quorum. *)
Lemma first_slot : exists r0, ind !! 0%nat = Some r0 /\ (r0 < n)%nat /\ r0 ∈ ind.
Proof. apply ind_lookup. pose proof (cfg_quorum _ _ Hcfg). lia. Qed.

(** What an executed batch leaves at the servers. *)
Lemma cas_batch_exec key e P t servers servers' key' r :
  (forall r, servers' r = if (r <? n)%nat then exec_batch (cas_batch 0 key e P t) servers r else servers r) ->
  (forall r, r ∈ ind -> e r = reg_at servers key r) ->
  0 <= key < num_registers L -> 0 <= key' < num_registers L -> (r < n)%nat ->
  reg_at servers' key' r =
    if decide (r ∈ ind /\ P r = true /\ key' = key) then t else reg_at servers key' r.
Proof.
  intros Hs He Hk Hk' Hr. unfold reg_at at 1. rewrite Hs, (proj2 (Nat.ltb_lt r n) Hr).
  unfold exec_batch, cas_batch. destruct (decide (r ∈ ind)) as [Hin|Hin]; [|by rewrite decide_False by tauto].
  destruct (P r); [|by rewrite decide_False by (intros (_ & ? & _); done)].
  unfold exec_server. cbn [wr_op_ wr_addr]. rewrite (He r Hin). fold (reg_at servers key r). rewrite Z.eqb_refl.
  unfold mem_set. destruct (Z.eqb_spec (remote_addr remote_base r key') (remote_addr remote_base r key)) as [Heq|Hne].
  - apply (remote_addr_inj remote_base cfg Hcfg) in Heq; [|done..]. by rewrite decide_True.
  - rewrite decide_False; [done|]. intros (_ & _ & ->). done.
Qed.

Lemma read_batch_exec key servers servers' r :
  (forall r, servers' r = if (r <? n)%nat then exec_batch (read_batch 0 key) servers r else servers r) ->
  servers' r = servers r.
Proof. intros Hs. rewrite Hs. unfold exec_batch, read_batch. case_decide; by destruct (r <? n)%nat. Qed.

Lemma read_batch_result key servers mr r :
  (forall r w a v, (r < n)%nat -> read_batch 0 key r = Some w -> (a, v) ∈ writes w (servers r) -> mr a = v) ->
  r ∈ ind -> mr (read_buf cfg 0 r) = reg_at servers key r.
Proof.
  intros Hm Hin. eapply Hm; [by apply (cfg_servers _ _ Hcfg)|unfold read_batch; by rewrite decide_True|]. left.
Qed.

Lemma cas_batch_result key e P t servers mr r :
  (forall r w a v, (r < n)%nat -> cas_batch 0 key e P t r = Some w -> (a, v) ∈ writes w (servers r) -> mr a = v) ->
  r ∈ ind -> P r = true -> mr (swap_buf cfg 0 r) = reg_at servers key r.
Proof.
  intros Hm Hin HP. eapply Hm; [by apply (cfg_servers _ _ Hcfg)|unfold cas_batch; by rewrite decide_True, HP|]. left.
Qed.
End GetPut.
