(* ===== verification/DsRun.v ===== *)
(** * DsRun: an operation of a client that is alone, from start to end

    A get takes one round trip, and a second one when it writes the greatest
    register back; a put takes two.  Each lemma gives the result of [run_op],
    the client at rest again, and the registers of every server: gets first, then puts, then scans. *)

From S2P Require Import Prelude Prog DsRegister Latency DsNet DsFutures DsLayout DsClient DsMain.
From S2P Require Import DsAlone DsGetPut.

Local Open Scope Z_scope.

Section Run.
Context (remote_base : nat -> Z) (cfg : config) (writeback : bool) (Hcfg : cfg_ok remote_base cfg).

Local Abbreviation L := (dc_layout cfg).
Local Abbreviation n := (Z.to_nat (num_servers (dc_layout cfg))).
Local Abbreviation ind := (dc_indices cfg).
Local Abbreviation quorum := (dc_quorum cfg).

(** What the execution of a batch leaves in the servers and in the region. *)
Definition batch_executed (B : batch_t) (servers servers' : nat -> memory) (mr' : memory) : Prop :=
  (forall r, servers' r = if (r <? n)%nat then exec_batch B servers r else servers r) /\
  (forall r w a v, (r < n)%nat -> B r = Some w -> (a, v) ∈ writes w (servers r) -> mr' a = v).

Definition finish_one_op (fuel : nat) (w : world) : outcome world unit :=
  finish_one remote_base cfg false writeback net_all fuel 0 w.

(** One turn of the draining loop: the batch is executed and the future takes
    its next step. *)
Lemma op_turn fuel now d f servers mr B c r0 :
  rest cfg d -> of_kind f <> KNone -> op_isDone (op_set_ongoing (tab n (pollf B)) f) = false ->
  (forall r w, B r = Some w -> wr_id w = 0) -> batch_ok cfg B servers ->
  (r0 < n)%nat -> B r0 <> None ->
  exists servers' mr', batch_executed B servers servers' mr' /\
    finish_one_op (S fuel) (World servers now (mk_op 0 f d (posted n mr B c) (tab n (pollf B)) false)) =
    match op_tryStepForward remote_base cfg false writeback now
        (op_set_ongoing (tab n (fun _ => 0)) f) (posted n mr' no_batch c) with
    | Some (_, f', c') =>
        finish_one_op fuel (World servers' now (DsClient c' (<[0%nat := f']> (d_futures d)) (d_progress d)
          (d_range_futures d) (d_range_progress d)))
    | None => Crashed
    end.
Proof.
  intros Hr Hk Hd Hid HB Hr0 HB0.
  destruct (op_round remote_base cfg false writeback Hcfg now d f servers mr B c r0 Hr Hk Hid HB Hr0 HB0)
    as (sv & m & Hround & H1 & H2).
  exists sv, m. split; [done|]. unfold finish_one_op at 1. cbn [finish_one w_dc].
  rewrite (mk_op_busy remote_base cfg Hcfg d f) by done. rewrite Hround.
  by destruct (op_tryStepForward _ _ _ _ _ _ _) as [[[b f'] c']|].
Qed.

(** The draining loop has nothing to do for a client at rest. *)
Lemma finish_one_rest fuel w : rest cfg (w_dc w) -> finish_one_op fuel w = Done tt w.
Proof.
  intros Hr. unfold finish_one_op. destruct fuel; cbn [finish_one];
    by rewrite (both_done_rest cfg) by (done || apply (p_pos remote_base cfg Hcfg)).
Qed.

Lemma slot_of r : r ∈ ind -> exists i, ind !! i = Some r /\ (i < quorum)%nat.
Proof.
  intros [i Hi]%list_elem_of_lookup. exists i. split; [done|]. rewrite <- (cfg_indices _ _ Hcfg).
  by eapply lookup_lt_Some.
Qed.

(** A count below the quorum leaves a laggard. *)
Lemma laggard sv key m :
  (length (filter (fun v => v = m) (vals remote_base cfg sv key)) < quorum)%nat ->
  exists r, r ∈ ind /\ reg_at remote_base sv key r <> m.
Proof.
  intros Hlt. destruct (decide (Forall (fun v => v = m) (vals remote_base cfg sv key))) as [Hall|Hex].
  - assert (Hf : filter (fun v => v = m) (vals remote_base cfg sv key) = vals remote_base cfg sv key).
    { clear Hlt. induction Hall as [|v l Hv Hl IH]; [done|]. by rewrite filter_cons_True, IH. }
    rewrite Hf, (vals_length remote_base cfg Hcfg) in Hlt. lia.
  - apply not_Forall_Exists in Hex; [|apply _]. apply Exists_exists in Hex as (v & Hv & Hne).
    unfold vals in Hv. apply list_elem_of_fmap in Hv as (r & -> & Hr). by exists r.
Qed.

Lemma prof_ok_local c c' : prof_ok c -> same_local c c' -> prof_ok c'.
Proof. unfold prof_ok. by intros H [_ ->]. Qed.

(** ** A get *)

Definition max_at (servers : nat -> memory) (key : Z) : Z := (scan_regs (vals remote_base cfg servers key)).1.

Definition rest_with (d : ds_client) (cl : client) (f : op_future) : ds_client :=
  DsClient cl (<[0%nat := f]> (d_futures d)) (d_progress d) (d_range_futures d) (d_range_progress d).

Lemma op_rest_get f g : op_rest cfg 0 f -> gf_id g = 0 -> gf_step g = GDone ->
  gf_ongoing g = tab n (fun _ => 0) -> length (gf_expected g) = kMaxQuorum ->
  op_rest cfg 0 (OpFuture KGet g (of_put f) (of_range f)).
Proof. unfold op_rest. intros (? & ? & ? & ? & ? & ? & ? & ? & ? & ?) **. cbn. split_and!; done. Qed.

Lemma op_rest_put f p : op_rest cfg 0 f -> pf_id p = 0 -> pf_step p = PDone ->
  pf_ongoing p = tab n (fun _ => 0) -> length (pf_expected p) = kMaxQuorum -> length (pf_needs p) = n ->
  op_rest cfg 0 (OpFuture KPut (of_get f) p (of_range f)).
Proof. unfold op_rest. intros (? & ? & ? & ? & ? & ? & ? & ? & ? & ?) **. cbn. split_and!; done. Qed.

Lemma rest_future_value d cl f : rest cfg d -> d_futures (rest_with d cl f) !! 0%nat = Some f.
Proof.
  intros Hr. cbn. rewrite list_lookup_insert_eq; [done|].
  rewrite (rest_length _ _ Hr). apply (p_pos remote_base cfg Hcfg).
Qed.

(** *** Its steps *)

(** The loop of step [WritingBack] only counts. *)
Lemma writeback_check_spec f mr c :
  (quorum <= length (gf_expected f))%nat ->
  exists c', for_loop quorum 0 (fun i c =>
      e ← gf_expected f !! i;
      if e =? gf_max_reg f then Some c
      else
        r ← ind !! i;
        if c_mr c (swap_buf cfg (gf_id f) r) =? e then Some c else Some (with_cnt countCasFail c))
      (posted n mr no_batch c) = Some (posted n mr no_batch c') /\ same_local c c'.
Proof.
  intros Hlen.
  match goal with |- context [for_loop quorum 0 ?body ?s0] =>
    destruct (for_loop_inv (fun _ s => exists c', same_local c c' /\ s = posted n mr no_batch c') quorum 0 body s0)
      as (s & Hs & (c' & Hl & ->)) end.
  - by exists c.
  - intros i s [_ Hi] (c0 & Hl & ->). destruct (lookup_lt_is_Some_2 (gf_expected f) i) as [e He]; [lia|].
    destruct (ind_lookup remote_base cfg Hcfg i) as (r & Hr & _); [done|].
    rewrite He. cbn [mbind option_bind]. destruct (e =? gf_max_reg f); [by eauto|].
    rewrite Hr. cbn [mbind option_bind]. destruct (_ =? e); [by eauto|].
    eexists. split; [done|]. by exists (with_cnt countCasFail c0).
  - by exists c'.
Qed.

Lemma get_writing_step now g mr c :
  prof_ok c -> gf_step g = GWritingBack -> gf_ongoing g = tab n (fun _ => 0) ->
  (quorum <= length (gf_expected g))%nat ->
  exists c', get_tryStepForward remote_base cfg false writeback now g (posted n mr no_batch c) =
    Some (true, gf_with g GDone (tab n (fun _ => 0)), posted n mr no_batch c') /\ prof_ok c'.
Proof.
  intros Hp Hs Ho Hlen. unfold get_tryStepForward. rewrite Hs, Ho, no_ongoing.
  destruct (writeback_check_spec g mr c Hlen) as (c1 & Hloop & Hl1). rewrite Hloop. cbn [mbind option_bind].
  destruct (get_measure_spec cfg g now mr no_batch c1) as (c2 & -> & Hp2 & _); [by eapply prof_ok_local|].
  by exists c2.
Qed.

(** The requests of the second round trip of a get that writes back. *)
Definition laggards (servers : nat -> memory) (key m : Z) (r : nat) : bool :=
  negb (reg_at remote_base servers key r =? m).

Definition writeback_batch (servers : nat -> memory) (key m : Z) : batch_t :=
  cas_batch remote_base cfg 0 key (reg_at remote_base servers key) (laggards servers key m) m.

Lemma postWriteback_spec g servers mr c old :
  gf_id g = 0 -> gf_ongoing g = tab n (fun _ => 0) ->
  gf_expected g = vals remote_base cfg servers (gf_key g) ++ old ->
  exists c', postWriteback remote_base cfg g (posted n mr no_batch c) =
    Some (tab n (pollf (writeback_batch servers (gf_key g) (gf_max_reg g))),
          posted n mr (writeback_batch servers (gf_key g) (gf_max_reg g)) c') /\ same_local c c'.
Proof.
  intros Hid Ho He. unfold postWriteback. rewrite Ho, Hid.
  apply (post_cas_loop remote_base cfg Hcfg). intros i r o cl Hr Hi.
  rewrite He, (vals_app_lookup remote_base cfg servers _ old i r Hr). cbn [mbind option_bind].
  unfold laggards. destruct (Z.eqb_spec (reg_at remote_base servers (gf_key g) r) (gf_max_reg g)); [done|].
  cbn [negb]. by rewrite Hr.
Qed.

(** The future of a get after it collected the registers. *)
Definition collected (g : get_future) (servers : nat -> memory) : get_future :=
  let vs := vals remote_base cfg servers (gf_key g) in
  GetFuture (gf_id g) GReading (gf_key g) (gf_ongoing g) (scan_regs vs).1 (scan_regs vs).2
    (vs ++ drop quorum (gf_expected g)) (reg_value (scan_regs vs).1) (gf_measuring g) (gf_start g).

(** Step [Reading]: done at once, or a write-back to the laggards. *)
Lemma get_reading_step now g servers mr c :
  prof_ok c -> gf_id g = 0 -> gf_step g = GReading -> gf_ongoing g = tab n (fun _ => 0) ->
  length (gf_expected g) = kMaxQuorum -> gf_max_reg g = 0 -> gf_max_count g = 0 ->
  (forall r, r ∈ ind -> mr (read_buf cfg 0 r) = reg_at remote_base servers (gf_key g) r) ->
  let g' := collected g servers in
  let B := writeback_batch servers (gf_key g) (gf_max_reg g') in
  exists c', prof_ok c' /\
    ((writeback = false \/ (Z.of_nat quorum <= gf_max_count g')) /\
     get_tryStepForward remote_base cfg false writeback now g (posted n mr no_batch c) =
       Some (true, gf_with g' GDone (tab n (fun _ => 0)), posted n mr no_batch c') \/
     (writeback = true /\ gf_max_count g' < Z.of_nat quorum) /\
     get_tryStepForward remote_base cfg false writeback now g (posted n mr no_batch c) =
       Some (true, gf_with g' GWritingBack (tab n (pollf B)), posted n mr B c')).
Proof.
  intros Hp Hid Hs Ho Hlen Hm Hc Hmr g' B. unfold get_tryStepForward. rewrite Hs, Ho, no_ongoing.
  destruct (get_collect_spec remote_base cfg Hcfg g mr c servers (gf_key g)) as (c1 & -> & Hl1); try done.
  cbn [mbind option_bind]. rewrite <- Ho. fold g'. cbv zeta.
  change (GetFuture _ _ _ _ _ _ _ _ _ _) with g'.
  change ((scan_regs (vals remote_base cfg servers (gf_key g))).2) with (gf_max_count g').
  destruct (writeback && (gf_max_count g' <? Z.of_nat quorum)) eqn:Hwb.
  - destruct (postWriteback_spec g' servers mr (with_cnt (countWriteback true) c1) (drop quorum (gf_expected g)))
      as (c2 & Hpost & Hl2); [done|done|done|].
    rewrite with_cnt_posted, Hpost. cbn [mbind option_bind]. exists c2. apply andb_true_iff in Hwb as [-> Hlt%Z.ltb_lt].
    split; [eapply prof_ok_local; [by eapply prof_ok_local|done]|by right].
  - rewrite with_cnt_posted.
    destruct (get_measure_spec cfg g' now mr no_batch (with_cnt (countWriteback false) c1)) as (c2 & -> & Hp2 & _);
      [by eapply prof_ok_local|]. cbn [mbind option_bind]. exists c2. split; [done|]. left.
    change (gf_ongoing g') with (gf_ongoing g). rewrite Ho.
    split; [|done]. apply andb_false_iff in Hwb as [->|Hge%Z.ltb_ge]; auto.
Qed.

Lemma get_writeback_turn fuel now d f g servers mr c old :
  rest cfg d -> prof_ok c -> op_rest cfg 0 f ->
  gf_id g = 0 -> gf_ongoing g = tab n (fun _ => 0) -> length (gf_expected g) = kMaxQuorum ->
  gf_expected g = vals remote_base cfg servers (gf_key g) ++ old ->
  (exists r, r ∈ ind /\ reg_at remote_base servers (gf_key g) r <> gf_max_reg g) ->
  0 <= gf_key g < num_registers L ->
  let B := writeback_batch servers (gf_key g) (gf_max_reg g) in
  exists servers' d',
    finish_one_op (S fuel) (World servers now (rest_with d (posted n mr B c)
      (OpFuture KGet (gf_with g GWritingBack (tab n (pollf B))) (of_put f) (of_range f)))) =
      Done tt (World servers' now d') /\
    rest cfg d' /\
    op_getValue <$> (d_futures d' !! 0%nat) = Some (gf_result g) /\
    forall r key', (r < n)%nat -> 0 <= key' < num_registers L ->
      reg_at remote_base servers' key' r =
        if decide (r ∈ ind /\ key' = gf_key g) then gf_max_reg g else reg_at remote_base servers key' r.
Proof.
  intros Hr Hp Hf Hid Ho Hlen Hexp (r0 & Hr0 & Hlag) Hkey B.
  set (F := OpFuture KGet (gf_with g GWritingBack (tab n (pollf B))) (of_put f) (of_range f)).
  unfold rest_with. rewrite (mk_op_start remote_base cfg Hcfg d F) by done.
  change (op_ongoing F) with (tab n (pollf B)).
  assert (Hbn : B r0 <> None).
  { unfold B, writeback_batch, cas_batch. rewrite decide_True by done. unfold laggards.
    by rewrite (proj2 (Z.eqb_neq _ _) Hlag). }
  destruct (op_turn fuel now d F servers mr B c r0) as (sv & m & [Hsv Hm] & Hturn); try done.
  { apply (batch_id remote_base cfg). right. by repeat eexists. }
  { apply (cas_batch_ok remote_base cfg Hcfg). }
  { by apply (cfg_servers _ _ Hcfg). }
  rewrite Hturn. unfold op_tryStepForward, op_set_ongoing, F. cbn [of_kind of_get of_put of_range].
  destruct (get_writing_step now (gf_with (gf_with g GWritingBack (tab n (pollf B))) GWritingBack (tab n (fun _ => 0))) m c)
    as (c2 & Hst & Hp2); [done|done|done|cbn; rewrite Hlen; apply (cfg_quorum _ _ Hcfg)|].
  cbn [gf_step gf_with] in Hst |- *. rewrite Hst. cbn [mbind option_bind].
  assert (Hrest : rest cfg (rest_with d (posted n m no_batch c2)
    (OpFuture KGet (gf_with g GDone (tab n (fun _ => 0))) (of_put f) (of_range f)))).
  { apply rest_set_op; [done|by apply op_rest_get|by repeat eexists|done]. }
  eexists sv, (rest_with d (posted n m no_batch c2) _). split; [apply finish_one_rest; exact Hrest|].
  split; [exact Hrest|]. split; [by rewrite rest_future_value|].
  intros r key' Hrn Hk. unfold B, writeback_batch in Hsv.
  rewrite (cas_batch_exec remote_base cfg Hcfg _ _ _ _ _ _ _ _ Hsv) by done. unfold laggards.
  destruct (decide (r ∈ ind /\ key' = gf_key g)) as [[Hin ->]|Hne]; [|rewrite decide_False by tauto; done].
  destruct (Z.eqb_spec (reg_at remote_base servers (gf_key g) r) (gf_max_reg g)) as [->|Hd]; cbn [negb].
  - by rewrite decide_False by (intros (_ & ? & _); done).
  - by rewrite decide_True.
Qed.

(** The round trip of the reads. *)
Lemma read_turn fuel now d f servers mr c key :
  rest cfg d -> of_kind f <> KNone -> op_isDone f = false ->
  let B := read_batch remote_base cfg 0 key in
  exists servers' mr', (forall r, servers' r = servers r) /\
    (forall r, r ∈ ind -> mr' (read_buf cfg 0 r) = reg_at remote_base servers key r) /\
    finish_one_op (S fuel) (World servers now (mk_op 0 f d (posted n mr B c) (tab n (pollf B)) false)) =
    match op_tryStepForward remote_base cfg false writeback now
        (op_set_ongoing (tab n (fun _ => 0)) f) (posted n mr' no_batch c) with
    | Some (_, f', c') => finish_one_op fuel (World servers' now (rest_with d c' f'))
    | None => Crashed
    end.
Proof.
  intros Hr Hk Hd B. destruct (first_slot remote_base cfg Hcfg) as (r0 & _ & Hr0 & Hin0).
  destruct (op_turn fuel now d f servers mr B c r0) as (sv & m & [Hsv Hm] & Hturn); try done.
  - rewrite <- Hd. unfold op_isDone, op_set_ongoing. by destruct (of_kind f) eqn:Hkf; rewrite ?Hkf.
  - apply (batch_id remote_base cfg). left. by exists key.
  - apply (read_batch_ok remote_base cfg Hcfg).
  - unfold B, read_batch. by rewrite decide_True.
  - exists sv, m. split_and!; [|intros r Hin|done].
    + intros r. by apply (read_batch_exec remote_base cfg key).
    + by apply (read_batch_result remote_base cfg Hcfg key servers m r).
Qed.

Lemma laggard_of servers key : (scan_regs (vals remote_base cfg servers key)).2 < Z.of_nat quorum ->
  exists r, r ∈ ind /\ reg_at remote_base servers key r <> max_at servers key.
Proof.
  destruct (scan_regs_spec (vals remote_base cfg servers key)) as (_ & _ & ->). intros Hlt.
  apply laggard, Nat2Z.inj_lt. exact Hlt.
Qed.

(** A full count: the quorum holds the greatest register. *)
Lemma all_at_max servers key : Z.of_nat quorum <= (scan_regs (vals remote_base cfg servers key)).2 ->
  forall r, r ∈ ind -> reg_at remote_base servers key r = max_at servers key.
Proof.
  destruct (scan_regs_spec (vals remote_base cfg servers key)) as (_ & _ & ->). intros Hge r Hr.
  destruct (decide (reg_at remote_base servers key r = max_at servers key)) as [|Hne]; [done|]. exfalso.
  destruct (slot_of r Hr) as (i & Hi & _).
  assert (Hin : reg_at remote_base servers key r ∈ vals remote_base cfg servers key).
  { eapply list_elem_of_lookup_2. by apply vals_lookup. }
  pose proof (length_filter_lt (fun v => v = max_at servers key) _ _ Hin Hne) as Hlt.
  rewrite (vals_length remote_base cfg Hcfg) in Hlt. apply Nat2Z.inj_lt in Hlt.
  exact (Z.lt_irrefl _ (Z.le_lt_trans _ _ _ Hge Hlt)).
Qed.

(** The registers after a get. *)
Definition get_effect (key : Z) (servers servers' : nat -> memory) : Prop :=
  forall r key', (r < n)%nat -> 0 <= key' < num_registers L ->
    reg_at remote_base servers' key' r =
      if decide (writeback = true /\ r ∈ ind /\ key' = key) then max_at servers key
      else reg_at remote_base servers key' r.

Lemma get_drain fuel now d f g servers mr c :
  rest cfg d -> prof_ok c -> op_rest cfg 0 f ->
  let B := read_batch remote_base cfg 0 (gf_key g) in
  gf_id g = 0 -> gf_step g = GReading -> gf_ongoing g = tab n (pollf B) -> gf_max_reg g = 0 -> gf_max_count g = 0 ->
  length (gf_expected g) = kMaxQuorum -> 0 <= gf_key g < num_registers L ->
  exists servers' d',
    finish_one_op (S (S fuel)) (World servers now (rest_with d (posted n mr B c) (OpFuture KGet g (of_put f) (of_range f)))) =
      Done tt (World servers' now d') /\
    rest cfg d' /\
    op_getValue <$> (d_futures d' !! 0%nat) = Some (reg_value (max_at servers (gf_key g))) /\
    get_effect (gf_key g) servers servers'.
Proof.
  intros Hr Hp Hf B Hid Hs Ho Hm0 Hc0 Hlen Hkey. set (F := OpFuture KGet g (of_put f) (of_range f)).
  destruct (read_turn (S fuel) now d F servers mr c (gf_key g) Hr) as (sv & m & Hsv & Hm & Hturn);
    [done|unfold op_isDone, get_isDone; cbn; by rewrite Hs|].
  unfold rest_with at 1. rewrite (mk_op_start remote_base cfg Hcfg d F) by done.
  change (op_ongoing F) with (gf_ongoing g). rewrite Ho. fold B in Hturn. rewrite Hturn. clear Hturn.
  assert (Hreg : forall r key', reg_at remote_base sv key' r = reg_at remote_base servers key' r).
  { intros r key'. unfold reg_at. by rewrite Hsv. }
  assert (Hvals : vals remote_base cfg sv (gf_key g) = vals remote_base cfg servers (gf_key g)) by (apply map_ext; auto).
  assert (Hmax : max_at sv (gf_key g) = max_at servers (gf_key g)) by (unfold max_at; by rewrite Hvals).
  unfold op_tryStepForward, op_set_ongoing, F. cbn [of_kind of_get of_put of_range]. rewrite Hs.
  destruct (get_reading_step now (gf_with g GReading (tab n (fun _ => 0))) sv m c) as (c2 & Hp2 & Hstep); try done.
  { intros r Hin. rewrite Hreg. by apply Hm. }
  set (g1 := collected _ _) in Hstep.
  assert (Hlen1 : length (gf_expected g1) = kMaxQuorum).
  { unfold g1. cbn. rewrite length_app, (vals_length remote_base cfg Hcfg), length_drop, Hlen.
    pose proof (cfg_quorum _ _ Hcfg). lia. }
  destruct Hstep as [[Hwb ->]|[[Hwb Hlt] ->]]; cbn [mbind option_bind].
  - assert (Hrest : rest cfg (rest_with d (posted n m no_batch c2)
      (OpFuture KGet (gf_with g1 GDone (tab n (fun _ => 0))) (of_put f) (of_range f)))).
    { apply rest_set_op; [done|by apply op_rest_get|by repeat eexists|done]. }
    eexists sv, _. split; [apply finish_one_rest; exact Hrest|]. split; [exact Hrest|]. split.
    { rewrite rest_future_value by done. cbn. by rewrite <- Hmax. }
    intros r key' Hrn Hk. rewrite Hreg. destruct (decide _) as [(-> & Hin & ->)|]; [|done].
    destruct Hwb as [?|Hcnt]; [done|]. rewrite <- Hmax, <- Hreg. by apply all_at_max.
  - destruct (laggard_of sv (gf_key g) Hlt) as (r0 & Hr0 & Hne).
    destruct (get_writeback_turn fuel now d f g1 sv m c2 (drop quorum (gf_expected g))) as (sv' & d' & Hfin & Hrest & Hv & Heff);
      try done; [by exists r0|].
    exists sv', d'. split; [exact Hfin|]. split; [done|]. split; [rewrite Hv; cbn; by rewrite <- Hmax|].
    intros r key' Hrn Hk. rewrite Heff, Hreg by done. change (gf_max_reg g1) with (max_at sv (gf_key g)).
    change (gf_key g1) with (gf_key g). rewrite Hmax, Hwb.
    by apply decide_ext; tauto.
Qed.

(** A get: its result is the value of the greatest register of the quorum,
    which the quorum holds after a write-back. *)
Lemma get_run fuel key measuring now servers d :
  (2 <= fuel)%nat -> rest cfg d -> 0 <= key < num_registers L ->
  exists servers' d',
    run_op remote_base cfg false writeback net_all fuel (OpGet key) measuring (World servers now d) =
      Done 0%nat (World servers' now d') /\
    rest cfg d' /\
    op_getValue <$> (d_futures d' !! 0%nat) = Some (reg_value (max_at servers key)) /\
    get_effect key servers servers'.
Proof.
  intros Hfuel Hr Hkey. destruct fuel as [|[|fuel]]; [lia|lia|].
  destruct (rest_future0 remote_base cfg Hcfg d Hr) as (f & Hf & Hfr).
  pose proof Hfr as (Hid & _ & _ & _ & _ & Ho & _ & Hlen & _). change (Z.of_nat 0) with 0 in Hid.
  destruct (rest_idle _ _ Hr) as (mr & c0 & Hcl).
  destruct (post_reads_spec remote_base cfg Hcfg mr c0 key) as (c1 & Hpost & Hl1).
  set (g := GetFuture 0 GReading key (tab n (pollf (read_batch remote_base cfg 0 key))) 0 0 (gf_expected (of_get f))
    (gf_result (of_get f)) measuring (if measuring then now else gf_start (of_get f))).
  destruct (get_drain fuel now d f g servers mr c1) as (sv & d' & Hfin & Hrest & Hv & Heff); try done.
  { eapply prof_ok_local; [|exact Hl1]. pose proof (rest_prof _ _ Hr) as Hp. by rewrite Hcl in Hp. }
  exists sv, d'. split; [|done].
  unfold run_op, start_op. rewrite (free_at_rest remote_base cfg false writeback Hcfg) by done. cbn [w_dc w_now].
  rewrite Hf. cbn [mbind option_bind]. unfold op_doGet, doGet. rewrite Hid, Ho, Hcl, Hpost. cbn [mbind option_bind].
  rewrite (finish_all remote_base cfg false writeback Hcfg net_all _ _ (World sv now d')); [done|exact Hfin|done].
Qed.
End Run.

(** * A put of a client that is alone, from start to end

    A put takes two round trips: it reads the quorum, then swaps the register
    of each of its servers for one with the next sequence number. *)

Section Put.
Context (remote_base : nat -> Z) (cfg : config) (writeback : bool) (Hcfg : cfg_ok remote_base cfg).

Local Abbreviation L := (dc_layout cfg).
Local Abbreviation n := (Z.to_nat (num_servers (dc_layout cfg))).
Local Abbreviation ind := (dc_indices cfg).
Local Abbreviation quorum := (dc_quorum cfg).

Definition max_seq (servers : nat -> memory) (key : Z) : Z := foldl Z.max 0 (map reg_seq (vals remote_base cfg servers key)).

(** The register a put writes. *)
Definition put_target (servers : nat -> memory) (key value : Z) : Z := target_of cfg (max_seq servers key + 1) value.

Definition put_batch (servers : nat -> memory) (key value : Z) : batch_t :=
  cas_batch remote_base cfg 0 key (reg_at remote_base servers key) (fun _ => true) (put_target servers key value).

Lemma put_read_step now p servers mr c :
  prof_ok c -> pf_id p = 0 -> pf_step p = PReadSeq -> pf_ongoing p = tab n (fun _ => 0) ->
  length (pf_expected p) = kMaxQuorum -> length (pf_needs p) = n ->
  (forall r, r ∈ ind -> mr (read_buf cfg 0 r) = reg_at remote_base servers (pf_key p) r) ->
  let B := put_batch servers (pf_key p) (pf_value p) in
  exists c' needs, put_tryStepForward remote_base cfg false now p (posted n mr no_batch c) =
    Some (true, pf_with p PCas (tab n (pollf B)) needs
                  (vals remote_base cfg servers (pf_key p) ++ drop quorum (pf_expected p))
                  (put_target servers (pf_key p) (pf_value p)) (pf_success p), posted n mr B c') /\
    prof_ok c' /\ length needs = n /\ (forall r, r ∈ ind -> needs !! r = Some true).
Proof.
  intros Hp Hid Hs Ho Hlen Hneeds Hmr B. unfold put_tryStepForward. rewrite Hs, Ho, no_ongoing.
  destruct (put_collect_spec remote_base cfg Hcfg p mr c servers (pf_key p)) as (c1 & needs & -> & Hl1 & Hnl & Hnt); try done.
  cbn [mbind option_bind]. fold (max_seq servers (pf_key p)). unfold postCas. rewrite Ho, Hid.
  match goal with |- context [for_loop quorum 0 ?body _] =>
    destruct (post_cas_loop remote_base cfg Hcfg mr c1 (pf_key p) (reg_at remote_base servers (pf_key p)) (fun _ => true)
      (put_target servers (pf_key p) (pf_value p)) body) as (c2 & -> & Hl2) end.
  - intros i r o cl Hr Hi. rewrite Hr. cbn [mbind option_bind].
    rewrite (Hnt r) by by eapply list_elem_of_lookup_2. cbn [mbind option_bind negb].
    by rewrite (vals_app_lookup remote_base cfg servers _ _ i r Hr).
  - cbn [mbind option_bind]. exists c2, needs. split_and!; try done. eapply prof_ok_local; [|done]. by eapply prof_ok_local.
Qed.

(** Step [CAS] when every swap found what it expected. *)
Lemma put_cas_step now p servers mr c old :
  prof_ok c -> pf_id p = 0 -> pf_step p = PCas -> pf_ongoing p = tab n (fun _ => 0) -> pf_success p = 0 ->
  pf_expected p = vals remote_base cfg servers (pf_key p) ++ old -> length (pf_needs p) = n ->
  (forall r, r ∈ ind -> pf_needs p !! r = Some true) ->
  (forall r, r ∈ ind -> mr (swap_buf cfg 0 r) = reg_at remote_base servers (pf_key p) r) ->
  exists c' needs, put_tryStepForward remote_base cfg false now p (posted n mr no_batch c) =
    Some (true, pf_with p PDone (tab n (fun _ => 0)) needs (pf_expected p) (pf_target p) (Z.of_nat quorum),
          posted n mr no_batch c') /\
    prof_ok c' /\ length needs = n.
Proof.
  intros Hp Hid Hs Ho H0 He Hnl Hnt Hmr. unfold put_tryStepForward. rewrite Hs, Ho, no_ongoing.
  destruct (put_check_spec remote_base cfg Hcfg p mr c servers (pf_key p) old) as (needs & -> & Hl); try done.
  cbn [mbind option_bind]. rewrite Z.leb_refl.
  destruct (put_done_spec cfg p now (pf_target p) mr no_batch c Hp) as (c' & -> & Hp' & _).
  cbn [mbind option_bind]. by exists c', needs.
Qed.

(** The registers after a put. *)
Definition put_effect (key value : Z) (servers servers' : nat -> memory) : Prop :=
  forall r key', (r < n)%nat -> 0 <= key' < num_registers L ->
    reg_at remote_base servers' key' r =
      if decide (r ∈ ind /\ key' = key) then put_target servers key value else reg_at remote_base servers key' r.

Lemma put_drain fuel now d f p servers mr c :
  rest cfg d -> prof_ok c -> op_rest cfg 0 f ->
  let B := read_batch remote_base cfg 0 (pf_key p) in
  pf_id p = 0 -> pf_step p = PReadSeq -> pf_ongoing p = tab n (pollf B) -> pf_success p = 0 ->
  length (pf_expected p) = kMaxQuorum -> length (pf_needs p) = n -> 0 <= pf_key p < num_registers L ->
  exists servers' d',
    finish_one_op remote_base cfg writeback (S (S fuel))
      (World servers now (rest_with d (posted n mr B c) (OpFuture KPut (of_get f) p (of_range f)))) =
      Done tt (World servers' now d') /\
    rest cfg d' /\ put_effect (pf_key p) (pf_value p) servers servers'.
Proof.
  intros Hr Hp Hf B Hid Hs Ho H0 Hlen Hnl Hkey. set (F := OpFuture KPut (of_get f) p (of_range f)).
  destruct (read_turn remote_base cfg writeback Hcfg (S fuel) now d F servers mr c (pf_key p) Hr) as (sv & m & Hsv & Hm & Hturn);
    [done|unfold op_isDone, put_isDone; cbn; by rewrite Hs|].
  unfold rest_with at 1. rewrite (mk_op_start remote_base cfg Hcfg d F) by done.
  change (op_ongoing F) with (pf_ongoing p). rewrite Ho. fold B in Hturn. rewrite Hturn. clear Hturn.
  assert (Hreg : forall r key', reg_at remote_base sv key' r = reg_at remote_base servers key' r).
  { intros r key'. unfold reg_at. by rewrite Hsv. }
  assert (Htgt : put_target sv (pf_key p) (pf_value p) = put_target servers (pf_key p) (pf_value p)).
  { unfold put_target, max_seq. do 4 f_equal. apply map_ext; auto. }
  unfold op_tryStepForward, op_set_ongoing, F. cbn [of_kind of_get of_put of_range]. rewrite Hs.
  destruct (put_read_step now (pf_with p PReadSeq (tab n (fun _ => 0)) (pf_needs p) (pf_expected p) (pf_target p)
    (pf_success p)) sv m c) as (c2 & needs & -> & Hp2 & Hnl2 & Hnt2); try done.
  { intros r Hin. rewrite Hreg. by apply Hm. }
  set (B2 := put_batch sv (pf_key p) (pf_value p)).
  set (p2 := pf_with p PCas (tab n (pollf B2)) needs (vals remote_base cfg sv (pf_key p) ++ drop quorum (pf_expected p))
    (put_target sv (pf_key p) (pf_value p)) (pf_success p)).
  set (F2 := OpFuture KPut (of_get f) p2 (of_range f)).
  enough (H : exists servers' d', finish_one_op remote_base cfg writeback (S fuel)
      (World sv now (rest_with d (posted n m B2 c2) F2)) = Done tt (World servers' now d') /\
    rest cfg d' /\ put_effect (pf_key p) (pf_value p) servers servers') by exact H.
  destruct (first_slot remote_base cfg Hcfg) as (r0 & _ & Hr0 & Hin0).
  destruct (op_turn remote_base cfg writeback Hcfg fuel now d F2 sv m B2 c2 r0) as (sv2 & m2 & [Hsv2 Hm2] & Hturn); try done.
  { apply (batch_id remote_base cfg). right. by repeat eexists. }
  { apply (cas_batch_ok remote_base cfg Hcfg). }
  { unfold B2, put_batch, cas_batch. by rewrite decide_True. }
  unfold rest_with at 1. rewrite (mk_op_start remote_base cfg Hcfg d F2) by done.
  change (op_ongoing F2) with (tab n (pollf B2)). rewrite Hturn. clear Hturn.
  unfold op_tryStepForward, op_set_ongoing, F2. cbn [of_kind of_get of_put of_range].
  match goal with |- context [put_tryStepForward _ _ _ _ ?q _] =>
    destruct (put_cas_step now q sv m2 c2 (drop quorum (pf_expected p))) as (c3 & needs3 & -> & Hp3 & Hnl3) end; try done.
  { intros r Hin. by apply (cas_batch_result remote_base cfg Hcfg (pf_key p) _ (fun _ => true) _ sv m2 r Hm2). }
  cbn [mbind option_bind].
  match goal with |- context [finish_one_op _ _ _ fuel ?w] => assert (Hrest : rest cfg (w_dc w)) end.
  { apply rest_set_op; [done|apply op_rest_put; try done|by repeat eexists|done].
    cbn. rewrite length_app, (vals_length remote_base cfg Hcfg), length_drop, Hlen.
    pose proof (cfg_quorum _ _ Hcfg). lia. }
  eexists sv2, _. split; [apply (finish_one_rest remote_base cfg writeback Hcfg); exact Hrest|]. split; [exact Hrest|].
  intros r key' Hrn Hk. unfold B2, put_batch in Hsv2.
  rewrite (cas_batch_exec remote_base cfg Hcfg _ _ _ _ _ _ _ _ Hsv2) by done. rewrite Hreg, Htgt.
  by apply decide_ext; tauto.
Qed.

Lemma put_run fuel key value measuring now servers d :
  (2 <= fuel)%nat -> rest cfg d -> 0 <= key < num_registers L ->
  exists servers' d',
    run_op remote_base cfg false writeback net_all fuel (OpPut key value) measuring (World servers now d) =
      Done 0%nat (World servers' now d') /\
    rest cfg d' /\ put_effect key value servers servers'.
Proof.
  intros Hfuel Hr Hkey. destruct fuel as [|[|fuel]]; [lia|lia|].
  destruct (rest_future0 remote_base cfg Hcfg d Hr) as (f & Hf & Hfr).
  pose proof Hfr as (_ & Hid & _ & _ & _ & _ & Ho & _ & Hlen & Hnl). change (Z.of_nat 0) with 0 in Hid.
  destruct (rest_idle _ _ Hr) as (mr & c0 & Hcl).
  destruct (post_reads_spec remote_base cfg Hcfg mr c0 key) as (c1 & Hpost & Hl1).
  set (p := pf_with (put_start key value measuring now (of_put f)) PReadSeq (tab n (pollf (read_batch remote_base cfg 0 key)))
    (replicate (length (pf_needs (of_put f))) false) (pf_expected (of_put f)) (pf_target (of_put f)) 0).
  destruct (put_drain fuel now d f p servers mr c1) as (sv & d' & Hfin & Hrest & Heff); try done.
  { eapply prof_ok_local; [|exact Hl1]. pose proof (rest_prof _ _ Hr) as Hp. by rewrite Hcl in Hp. }
  { unfold p. cbn. by rewrite length_replicate. }
  exists sv, d'. split; [|done].
  unfold run_op, start_op. rewrite (free_at_rest remote_base cfg false writeback Hcfg) by done. cbn [w_dc w_now].
  rewrite Hf. cbn [mbind option_bind]. unfold op_doPut, doPut. cbn [mbind option_bind].
  change (pf_id (put_start _ _ _ _ _)) with (pf_id (of_put f)).
  change (pf_ongoing (put_start _ _ _ _ _)) with (pf_ongoing (of_put f)). rewrite Hid, Ho, Hcl, Hpost. cbn [mbind option_bind].
  rewrite (finish_all remote_base cfg false writeback Hcfg net_all _ _ (World sv now d')); [done|exact Hfin|done].
Qed.
End Put.

(** * A scan of a client that is alone, from start to end

    A scan reads the registers of its keys from each server of the quorum in
    one round trip and keeps the greatest register of each key. *)

(** ** The greatest register of a list, as [RangeFuture] merges *)

Definition merge_reg (a s : Z) : Z := if reg_lt a s then s else a.

Definition best_reg (l : list Z) : Z := match l with [] => 0 | v :: l => foldl merge_reg v l end.

Lemma best_reg_snoc l v : l <> [] -> best_reg (l ++ [v]) = merge_reg (best_reg l) v.
Proof. destruct l as [|u l]; [done|]. intros _. cbn. by rewrite foldl_app. Qed.

Lemma best_reg_spec l : l <> [] ->
  best_reg l ∈ l /\ forall v, v ∈ l -> reg_tag v <= reg_tag (best_reg l).
Proof.
  induction l as [|v l IH] using rev_ind; [done|]. intros _. destruct (decide (l = [])) as [->|Hl].
  { cbn. split; [left|]. intros u ->%list_elem_of_singleton. done. }
  rewrite best_reg_snoc by done. destruct (IH Hl) as [H1 H2]. unfold merge_reg. rewrite reg_lt_tag.
  destruct (Z.ltb_spec (reg_tag (best_reg l)) (reg_tag v)); (split; [apply elem_of_app; (by left) || (right; left)|]);
    (intros u [Hu| ->%list_elem_of_singleton]%elem_of_app; [specialize (H2 u Hu)|]); lia.
Qed.

(** ** The words of a read *)

Lemma copy_list_elem buf addr k m a v : (a, v) ∈ copy_list buf addr k m <->
  exists i, 0 <= i < Z.of_nat k /\ a = buf + 8 * i /\ v = m (addr + 8 * i).
Proof.
  revert buf addr. induction k as [|k IH]; intros buf addr; cbn [copy_list].
  { split; [by intros ?%elem_of_nil|]. intros (i & Hi & _). lia. }
  rewrite elem_of_cons, IH. unfold REG_SIZE. split.
  - intros [[= -> ->]|(i & Hi & -> & ->)].
    + exists 0. split; [lia|]. split; [lia|]. f_equal. lia.
    + exists (i + 1). split; [lia|]. split; [lia|]. f_equal. lia.
  - intros (i & Hi & -> & ->). destruct (decide (i = 0)) as [->|Hne].
    + left. f_equal; [lia|]. f_equal. lia.
    + right. exists (i - 1). split; [lia|]. split; [lia|]. f_equal. lia.
Qed.

Lemma copy_list_nodup buf addr k m : NoDup (map fst (copy_list buf addr k m)).
Proof.
  revert buf addr. induction k as [|k IH]; intros buf addr; cbn [copy_list map fst]; [apply NoDup_nil_2|].
  apply NoDup_cons. split; [|apply IH]. intros ((a, v) & -> & Hin)%list_elem_of_fmap. cbn in Hin.
  apply copy_list_elem in Hin as (i & Hi & Ha & _). unfold REG_SIZE in Ha. lia.
Qed.

Section Scan.
Context (remote_base : nat -> Z) (cfg : config) (writeback : bool) (Hcfg : cfg_ok remote_base cfg).

Local Abbreviation L := (dc_layout cfg).
Local Abbreviation n := (Z.to_nat (num_servers (dc_layout cfg))).
Local Abbreviation ind := (dc_indices cfg).
Local Abbreviation quorum := (dc_quorum cfg).

Definition scan_batch (sk : Z) (len : nat) : batch_t := fun r =>
  if decide (r ∈ ind) then
    Some (Wr (Z.lor 0 RANGE_BIT) (remote_addr remote_base r sk) (RdmaRead (bulk_buf cfg 0 r 0) len)) else None.

Definition scan_ok (sk : Z) (len : nat) : Prop :=
  0 <= sk /\ (0 < len)%nat /\ Z.of_nat len <= max_range L /\ sk + Z.of_nat len <= num_registers L.

Lemma bulk_buf_next r i : (r < n)%nat -> 0 <= i < max_range L -> bulk_buf cfg 0 r 0 + 8 * i = bulk_buf cfg 0 r i.
Proof.
  intros Hr Hi. pose proof (cfg_layout _ _ Hcfg) as HL.
  assert (Hz : 0 <= 0 < max_range L) by lia.
  pose proof (buf_addr_exact cfg HL (BBulk 0) 0 r (future0_ok remote_base cfg Hcfg (BBulk 0) r Hr Hz)) as H0.
  pose proof (buf_addr_exact cfg HL (BBulk i) 0 r (future0_ok remote_base cfg Hcfg (BBulk i) r Hr Hi)) as H1.
  cbn [buf_addr buf_slot] in H0, H1. lia.
Qed.

Lemma scan_batch_ok sk len servers : scan_ok sk len -> batch_ok cfg (scan_batch sk len) servers.
Proof.
  intros (H0 & H1 & H2 & H3) r w Hr Hw. unfold scan_batch in Hw. case_decide; [|done]. injection Hw as <-.
  unfold writes. cbn [wr_op_ wr_addr]. split; [apply copy_list_nodup|].
  intros a v (i & Hi & -> & _)%copy_list_elem. exists (BBulk i). rewrite bulk_buf_next by (done || lia).
  split; [apply (future0_ok remote_base cfg Hcfg); [done|lia]|done].
Qed.

Lemma scan_batch_result sk len servers mr r off :
  scan_ok sk len ->
  (forall r w a v, (r < n)%nat -> scan_batch sk len r = Some w -> (a, v) ∈ writes w (servers r) -> mr a = v) ->
  r ∈ ind -> 0 <= off < Z.of_nat len -> mr (bulk_buf cfg 0 r off) = reg_at remote_base servers (sk + off) r.
Proof.
  intros (H0 & H1 & H2 & H3) Hm Hin Hoff. pose proof (cfg_servers _ _ Hcfg r Hin) as Hr.
  apply (Hm r (Wr (Z.lor 0 RANGE_BIT) (remote_addr remote_base r sk) (RdmaRead (bulk_buf cfg 0 r 0) len))); [done| |].
  { unfold scan_batch. by rewrite decide_True. }
  unfold writes. cbn [wr_op_ wr_addr]. apply copy_list_elem. exists off. split; [lia|]. split.
  - symmetry. apply bulk_buf_next; [done|lia].
  - unfold reg_at. f_equal. rewrite !(remote_addr_exact remote_base cfg Hcfg) by (done || lia). lia.
Qed.

(** ** Merging *)

(** The accumulator's words of the range. *)
Definition acc_word (r0 : nat) (off : Z) (k : nat) (a : Z) : Prop :=
  exists i, off <= i < off + Z.of_nat k /\ a = bulk_buf cfg 0 r0 i.

Lemma merge_regs_spec r0 r off k m :
  (r0 < n)%nat -> (r < n)%nat -> r <> r0 -> 0 <= off -> off + Z.of_nat k <= max_range L ->
  let m' := merge_regs cfg 0 r0 r off k m in
  (forall i, off <= i < off + Z.of_nat k ->
     m' (bulk_buf cfg 0 r0 i) = merge_reg (m (bulk_buf cfg 0 r0 i)) (m (bulk_buf cfg 0 r i))) /\
  (forall a, ~ acc_word r0 off k a -> m' a = m a).
Proof.
  intros Hr0 Hr Hne. revert off m. induction k as [|k IH]; intros off m H0 Hk; cbn [merge_regs].
  { split; [lia|done]. }
  set (m1 := if reg_lt _ _ then _ else m).
  assert (Hinj : forall r' i, (r' < n)%nat -> 0 <= i < max_range L -> bulk_buf cfg 0 r' i = bulk_buf cfg 0 r0 off ->
    r' = r0 /\ i = off).
  { intros r' i Hr' Hi He. pose proof (buf_addr_inj cfg (cfg_layout _ _ Hcfg) (BBulk i) 0 r' (BBulk off) 0 r0) as Hb.
    enough ((BBulk i, 0, r') = (BBulk off, 0, r0)) as [= -> ->] by done.
    apply Hb; [apply (future0_ok remote_base cfg Hcfg); done|apply (future0_ok remote_base cfg Hcfg); [done|lia]|done]. }
  assert (Hm1 : forall a, a <> bulk_buf cfg 0 r0 off -> m1 a = m a).
  { intros a Ha. unfold m1. destruct (reg_lt _ _); [|done]. unfold mem_set. by rewrite (proj2 (Z.eqb_neq _ _) Ha). }
  destruct (IH (off + 1) m1) as [H1 H2]; [lia|lia|]. split.
  - intros i Hi. destruct (decide (i = off)) as [->|Hio].
    + rewrite H2.
      * unfold m1, merge_reg. destruct (reg_lt _ _); [|done]. unfold mem_set. by rewrite Z.eqb_refl.
      * intros (j & Hj & He). symmetry in He. apply Hinj in He as [_ He]; [lia|done|lia].
    + rewrite H1 by lia. f_equal; apply Hm1; intros He; apply Hinj in He as [? ?]; done || lia.
  - intros a Ha. rewrite H2, Hm1; [done| |].
    + intros ->. apply Ha. exists off. split; [lia|done].
    + intros (j & Hj & ->). apply Ha. exists j. split; [lia|done].
Qed.

(** What a scan returns. *)
Definition scan_value (servers : nat -> memory) (key : Z) : Z := reg_value (best_reg (vals remote_base cfg servers key)).
Definition scan_values (servers : nat -> memory) (sk : Z) (len : nat) : list Z :=
  tab len (fun off => scan_value servers (sk + Z.of_nat off)).

Definition bulk_holds (servers : nat -> memory) (sk : Z) (len : nat) (m : memory) (r : nat) : Prop :=
  forall off, 0 <= off < Z.of_nat len -> m (bulk_buf cfg 0 r off) = reg_at remote_base servers (sk + off) r.

Lemma merge_loop_spec servers sk len mr r0 :
  scan_ok sk len -> ind !! 0%nat = Some r0 -> (forall r, r ∈ ind -> bulk_holds servers sk len mr r) ->
  exists m, for_loop (quorum - 1) 1 (fun i m => r ← ind !! i; Some (merge_regs cfg 0 r0 r 0 len m)) mr = Some m /\
    forall off, 0 <= off < Z.of_nat len ->
      m (bulk_buf cfg 0 r0 off) = best_reg (vals remote_base cfg servers (sk + off)).
Proof.
  intros Hok Hr0 Hmr. pose proof (cfg_quorum _ _ Hcfg) as [Hq _].
  assert (Hin0 : r0 ∈ ind) by by eapply list_elem_of_lookup_2.
  pose proof (cfg_servers _ _ Hcfg r0 Hin0) as Hn0.
  match goal with |- context [for_loop (quorum - 1) 1 ?body ?s0] =>
    destruct (for_loop_inv (fun i m =>
      (forall off, 0 <= off < Z.of_nat len ->
         m (bulk_buf cfg 0 r0 off) = best_reg (take i (vals remote_base cfg servers (sk + off)))) /\
      (forall r, r ∈ ind -> r <> r0 -> bulk_holds servers sk len m r)) (quorum - 1) 1 body s0) as (m & Hm & Hacc & _) end.
  - split; [|auto]. intros off Hoff. rewrite (Hmr r0 Hin0 off Hoff).
    pose proof (vals_lookup remote_base cfg servers (sk + off) 0 r0 Hr0) as Hv.
    by rewrite (take_S_r _ 0 _ Hv), take_0.
  - intros i m Hi [Hacc Hrest]. destruct (ind_lookup remote_base cfg Hcfg i) as (r & Hr & Hn & Hin); [lia|].
    assert (Hne : r <> r0) by (intros ->; pose proof (NoDup_lookup _ _ _ _ (cfg_nodup _ _ Hcfg) Hr Hr0); lia).
    rewrite Hr. cbn [mbind option_bind]. eexists. split; [done|].
    destruct Hok as (H0 & H1 & H2 & H3).
    destruct (merge_regs_spec r0 r 0 len m) as [Hm1 Hm2]; [done|done|done|lia|lia|]. split.
    + intros off Hoff. rewrite Hm1, Hacc, (Hrest r Hin Hne off Hoff) by lia.
      pose proof (vals_lookup remote_base cfg servers (sk + off) i r Hr) as Hv.
      rewrite (take_S_r _ i _ Hv), best_reg_snoc; [done|]. intros He%(f_equal length).
      rewrite length_take, (vals_length remote_base cfg Hcfg) in He. cbn in He. lia.
    + intros r' Hin' Hne' off Hoff. rewrite Hm2; [by apply Hrest|]. intros (j & Hj & He).
      pose proof (buf_addr_inj cfg (cfg_layout _ _ Hcfg) (BBulk off) 0 r' (BBulk j) 0 r0) as Hb.
      assert ((BBulk off, 0, r') = (BBulk j, 0, r0)) as [= _ ->]; [|done]. apply Hb; [| |done].
      * apply (future0_ok remote_base cfg Hcfg); [by apply (cfg_servers _ _ Hcfg)|lia].
      * apply (future0_ok remote_base cfg Hcfg); [done|lia].
  - exists m. split; [done|]. intros off Hoff. rewrite Hacc by done. f_equal. apply take_ge.
    rewrite (vals_length remote_base cfg Hcfg). lia.
Qed.

Lemma range_measure_spec f now mr c : prof_ok c ->
  exists c', range_measure f now (posted n mr no_batch c) = Some (posted n mr no_batch c') /\ prof_ok c'.
Proof.
  intros (H1 & H2 & H3). unfold range_measure. destruct (rf_measuring f); [|by exists c].
  destruct (add_measurement_correct (now - rf_start f) (range_profiler (c_prof c)) H3) as (p' & Hp & Hok & _).
  unfold addRangeMeasurement. cbn [posted c_prof]. rewrite Hp. cbn [mbind option_bind].
  exists (with_prof (Profilers (get_profiler (c_prof c)) (put_profiler (c_prof c)) p') c). done.
Qed.

Lemma range_reading_step now f servers sk len mr c :
  prof_ok c -> scan_ok sk len -> rf_id f = 0 -> rf_step f = RReading -> rf_ongoing f = tab n (fun _ => 0) ->
  rf_range_len f = Z.of_nat len -> (forall r, r ∈ ind -> bulk_holds servers sk len mr r) ->
  exists mr' c', range_tryStepForward cfg false now f (posted n mr no_batch c) =
    Some (true, RangeFuture 0 RDone (rf_start_key f) (rf_range_len f) (tab n (fun _ => 0))
                  (scan_values servers sk len) (rf_measuring f) (rf_start f), posted n mr' no_batch c') /\
    prof_ok c'.
Proof.
  intros Hp Hok Hid Hs Ho Hlen Hmr. unfold range_tryStepForward. rewrite Hs, Ho, no_ongoing, Hid, Hlen, Nat2Z.id.
  destruct (first_slot remote_base cfg Hcfg) as (r0 & Hr0 & _). rewrite Hr0. cbn [mbind option_bind].
  rewrite with_cnt_posted. change (c_mr (posted _ mr _ _)) with mr.
  destruct (merge_loop_spec servers sk len mr r0 Hok Hr0 Hmr) as (m & -> & Hm). cbn [mbind option_bind].
  change (with_mr m (posted n mr no_batch (with_cnt countRead c))) with (posted n m no_batch (with_cnt countRead c)).
  match goal with |- context [for_loop len 0 ?body ?s0] =>
    destruct (for_loop_inv (fun i s => s = (tab len (fun j => if (j <? i)%nat then scan_value servers (sk + Z.of_nat j) else 0),
      posted n m no_batch (with_cnt countRead c))) len 0 body s0) as (s & -> & ->) end.
  - by rewrite <- tab_const.
  - intros i s Hi ->. change (c_mr (posted _ m _ _)) with m. rewrite Hm by lia. fold (scan_value servers (sk + Z.of_nat i)).
    unfold upd. rewrite tab_length, assert_true by (apply Nat.ltb_lt; lia). cbn [mbind option_bind].
    eexists. split; [done|]. f_equal. rewrite tab_insert by lia. apply tab_ext. intros j Hj.
    destruct (Nat.eqb_spec j i) as [->|]; [by rewrite (proj2 (Nat.ltb_lt i (S i))) by lia|].
    destruct (Nat.ltb_spec j i), (Nat.ltb_spec j (S i)); done || lia.
  - cbn [mbind option_bind Nat.add].
    destruct (range_measure_spec f now m (with_cnt countRead c)) as (c' & -> & Hp'); [done|]. cbn [mbind option_bind].
    exists m, c'. split; [|done]. do 4 f_equal. apply tab_ext. intros j Hj. by rewrite (proj2 (Nat.ltb_lt j len)).
Qed.

(** ** From start to end *)

Definition started_range (sk : Z) (len : nat) (measuring : bool) (now : Z) (f : range_future) : range_future :=
  RangeFuture 0 RReading sk (Z.of_nat len) (tab n (pollf (scan_batch sk len))) (rf_results f) measuring
    (if measuring then now else rf_start f).

Lemma doRange_spec sk len measuring now f mr c :
  scan_ok sk len -> rf_id f = 0 -> rf_ongoing f = tab n (fun _ => 0) ->
  exists c', doRange remote_base cfg sk (u64 (sk + Z.of_nat len - 1)) measuring now f (posted n mr no_batch c) =
    Some (started_range sk len measuring now f, posted n mr (scan_batch sk len) c') /\ same_local c c'.
Proof.
  intros (H0 & H1 & H2 & H3) Hid Ho. unfold doRange. rewrite Hid, Ho.
  pose proof (cfg_range _ _ Hcfg) as Hrange. unfold REG_SIZE in Hrange.
  destruct (first_slot remote_base cfg Hcfg) as (r0 & _ & Hr0 & _).
  destruct (cfg_registers _ _ Hcfg r0 Hr0) as [Hb1 Hb2]. unfold REG_SIZE in Hb2.
  assert (Hl : u64 (u64 (u64 (sk + Z.of_nat len - 1) - sk) + 1) = Z.of_nat len).
  { rewrite (u64_small (sk + Z.of_nat len - 1)), (u64_small (sk + Z.of_nat len - 1 - sk)), u64_small by (unfold is_u64; lia). lia. }
  rewrite Hl, assert_true by lia. cbn [mbind option_bind].
  assert (Hbytes : Z.to_nat (u32 (u64 (Z.of_nat len * REG_SIZE)) / REG_SIZE) = len).
  { unfold REG_SIZE. rewrite (u64_small (Z.of_nat len * 8)) by (unfold is_u64; lia). unfold u32.
    rewrite Z.mod_small, Z.div_mul by lia. apply Nat2Z.id. }
  rewrite Hbytes.
  match goal with |- context [for_loop quorum 0 ?body ?s0] =>
    destruct (post_loop n mr ind (scan_batch sk len) c body) as (c' & Hloop & Hl1) end.
  - intros r Hr. unfold scan_batch. by rewrite decide_False.
  - intros i [o cl] Hi Hs. rewrite (cfg_indices _ _ Hcfg) in Hi.
    destruct (ind_lookup remote_base cfg Hcfg i Hi) as (r & Hr & Hn & Hin). rewrite Hr. cbn [mbind option_bind].
    destruct (posting_step n mr ind (scan_batch sk len) (c_cache c) (c_prof c) i r
      (Wr (Z.lor 0 RANGE_BIT) (remote_addr remote_base r sk) (RdmaRead (bulk_buf cfg 0 r 0) len)) o cl (fun x => x))
      as (s & Hstep & Hpost); [apply (cfg_nodup _ _ Hcfg)|done|done|unfold scan_batch; by rewrite decide_True|done|].
    exists s. split; [|done]. rewrite <- Hstep.
    destruct (post r _ cl) as [cl'|]; [|done]. cbn [mbind option_bind].
    destruct (bump r 1 o) as [o'|]; [|done]. cbn [mbind option_bind]. by rewrite with_cnt_id.
  - rewrite (cfg_indices _ _ Hcfg) in Hloop. rewrite Hloop. cbn [mbind option_bind]. by exists c'.
Qed.

Lemma scan_batch_exec sk len servers servers' r :
  (forall r, servers' r = if (r <? n)%nat then exec_batch (scan_batch sk len) servers r else servers r) ->
  servers' r = servers r.
Proof. intros Hs. rewrite Hs. unfold exec_batch, scan_batch. case_decide; by destruct (r <? n)%nat. Qed.

Lemma mk_range_start d f cl : rest cfg d ->
  DsClient cl (d_futures d) (d_progress d) (<[0%nat := f]> (d_range_futures d)) (d_range_progress d) =
  mk_range 0 f d cl (rf_ongoing f) false.
Proof.
  intros Hr. unfold mk_range. destruct (rest_progress_at cfg d 0 Hr (p_pos remote_base cfg Hcfg)) as [_ Hp].
  rewrite (list_insert_id _ _ _ Hp). by destruct f.
Qed.

Lemma mk_range_busy d f cl o : rest cfg d -> rf_step f = RReading ->
  both_done 0 (mk_range 0 f d cl o false) = Some false.
Proof.
  intros Hr Hd. unfold both_done, mk_range. cbn [d_futures d_range_futures].
  pose proof (p_pos remote_base cfg Hcfg).
  destruct (rest_future0 remote_base cfg Hcfg d Hr) as (g & Hg & _). rewrite Hg. cbn [mbind option_bind].
  rewrite list_lookup_insert_eq by (rewrite (rest_range_length _ _ Hr); lia). cbn [mbind option_bind].
  unfold range_isDone. cbn [rf_step range_set_ongoing]. rewrite Hd. by rewrite andb_false_r.
Qed.

Lemma scan_drain fuel now d f servers mr c sk len measuring :
  rest cfg d -> prof_ok c -> scan_ok sk len ->
  let B := scan_batch sk len in
  let f' := started_range sk len measuring now f in
  exists servers' d',
    finish_one_op remote_base cfg writeback (S fuel) (World servers now
      (DsClient (posted n mr B c) (d_futures d) (d_progress d) (<[0%nat := f']> (d_range_futures d)) (d_range_progress d))) =
      Done tt (World servers' now d') /\
    rest cfg d' /\ getResults <$> (d_range_futures d' !! 0%nat) = Some (scan_values servers sk len) /\
    forall r, servers' r = servers r.
Proof.
  intros Hr Hp Hok B f'. destruct (first_slot remote_base cfg Hcfg) as (r0 & _ & Hr0 & Hin0).
  rewrite mk_range_start by done. change (rf_ongoing f') with (tab n (pollf B)).
  destruct (range_round remote_base cfg false writeback Hcfg now d f' servers mr B c r0) as (sv & m & Hround & Hsv & Hm); try done.
  { intros r w Hw. unfold B, scan_batch in Hw. case_decide; [|done]. by injection Hw as <-. }
  { by apply scan_batch_ok. }
  { unfold B, scan_batch. by rewrite decide_True. }
  unfold finish_one_op at 1. cbn [finish_one w_dc]. rewrite mk_range_busy by done. rewrite Hround.
  destruct (range_reading_step now (range_set_ongoing (tab n (fun _ => 0)) f') servers sk len m c)
    as (m' & c' & -> & Hp'); try done.
  { intros r Hin off Hoff. by apply (scan_batch_result sk len servers m r off Hok Hm Hin Hoff). }
  cbn [mbind option_bind].
  match goal with |- context [finish_one _ _ _ _ _ fuel 0 ?w] => assert (Hrest : rest cfg (w_dc w)) end.
  { apply rest_set_range; [done|split_and!; done|by repeat eexists|done]. }
  eexists sv, _. split; [apply (finish_one_rest remote_base cfg writeback Hcfg); exact Hrest|]. split; [exact Hrest|]. split.
  - cbn [d_range_futures w_dc]. rewrite list_lookup_insert_eq; [done|].
    rewrite (rest_range_length _ _ Hr). apply (p_pos remote_base cfg Hcfg).
  - intros r. by apply (scan_batch_exec sk len).
Qed.

Lemma scan_run fuel sk scan_len measuring now servers d :
  (1 <= fuel)%nat -> rest cfg d -> 0 <= sk < num_registers L -> 1 <= scan_len -> 1 <= max_range L ->
  let len := Z.min scan_len (Z.min (max_range L) (num_registers L - sk)) in
  exists servers' d',
    run_op remote_base cfg false writeback net_all fuel (OpScan sk scan_len) measuring (World servers now d) =
      Done 0%nat (World servers' now d') /\
    rest cfg d' /\ getResults <$> (d_range_futures d' !! 0%nat) = Some (scan_values servers sk (Z.to_nat len)) /\
    forall r, servers' r = servers r.
Proof.
  intros Hfuel Hr Hsk Hs Hmax len. destruct fuel as [|fuel]; [lia|].
  destruct (first_slot remote_base cfg Hcfg) as (r0 & _ & Hr0 & _).
  destruct (cfg_registers _ _ Hcfg r0 Hr0) as [Hb1 Hb2]. unfold REG_SIZE in Hb2.
  pose proof (cfg_range _ _ Hcfg) as Hrange. unfold REG_SIZE in Hrange.
  assert (Hclamp : clamp_scan cfg sk scan_len = len).
  { unfold clamp_scan, len. set (l := if _ <? scan_len then _ else _).
    assert (Hl : l = Z.min scan_len (max_range L)) by (unfold l; destruct (Z.ltb_spec (max_range L) scan_len); lia).
    rewrite Hl, (u64_small (sk + _)) by (unfold is_u64; lia).
    destruct (Z.ltb_spec (num_registers L) (sk + Z.min scan_len (max_range L))); [|lia].
    rewrite u64_small by (unfold is_u64; lia). lia. }
  assert (Hok : scan_ok sk (Z.to_nat len)) by (unfold scan_ok, len; lia).
  destruct (rest_range0 remote_base cfg Hcfg d Hr) as (f & Hf & Hid & _ & Ho). change (Z.of_nat 0) with 0 in Hid.
  destruct (rest_idle _ _ Hr) as (mr & c0 & Hcl).
  destruct (doRange_spec sk (Z.to_nat len) measuring now f mr c0 Hok Hid Ho) as (c1 & Hdo & Hl1).
  rewrite Z2Nat.id in Hdo by (unfold len; lia).
  destruct (scan_drain fuel now d f servers mr c1 sk (Z.to_nat len) measuring Hr) as (sv & d' & Hfin & Hrest & Hv & Hsv); [|done|].
  { eapply prof_ok_local; [|exact Hl1]. pose proof (rest_prof _ _ Hr) as Hp. by rewrite Hcl in Hp. }
  exists sv, d'. split; [|done].
  unfold run_op, start_op. rewrite Hclamp, (free_range_at_rest remote_base cfg false Hcfg) by done. cbn [w_dc w_now].
  rewrite Hf. cbn [mbind option_bind]. rewrite Hcl, Hdo. cbn [mbind option_bind].
  rewrite (finish_all remote_base cfg false writeback Hcfg net_all _ _ (World sv now d')); [done|exact Hfin|done].
Qed.
End Scan.
