(* ===== verification/DsSequential.v ===== *)
(** * DsSequential: the replicated registers of a whole deployment

    Clients of one deployment call gets, puts and scans one after another, any
    client at any time, over the same servers.  Without the register cache the
    replicated registers are one map from keys to values: each call returns,
    within two round trips, what the map says.  With the cache, the default
    build, the same calls can return an overwritten value. *)

From S2P Require Import Prelude Prog DsRegister Latency DsNet DsFutures DsLayout DsClient DsMain.
From S2P Require Import DsAlone DsGetPut DsRun.

Local Open Scope Z_scope.

(** ** Calls *)

Record call := Call { caller : nat; call_op : ycsb_op; call_time : Z; call_measured : bool }.

Inductive answer := AGet (value : Z) | APut | AScan (values : list Z).

Record system := System { sys_servers : nat -> memory; sys_clients : list ds_client }.

(** What the caller reads from future [i] when its operation is done. *)
Definition answer_of (op : ycsb_op) (i : nat) (d : ds_client) : option answer :=
  match op with
  | OpGet _ => f ← d_futures d !! i; Some (AGet (op_getValue f))
  | OpPut _ _ => Some APut
  | OpScan _ _ => f ← d_range_futures d !! i; Some (AScan (getResults f))
  end.

(** The configuration of client [i]. *)
Definition client_config (L : layout) (i : nat) : config := config_new L (firstClientId L + Z.of_nat i).

Section Calls.
Context (remote_base : nat -> Z) (L : layout) (reg_cache writeback : bool).

Definition run_call (fuel : nat) (cl : call) (s : system) : option (answer * system) :=
  d ← sys_clients s !! caller cl;
  match run_op remote_base (client_config L (caller cl)) reg_cache writeback net_all fuel (call_op cl) (call_measured cl)
          (World (sys_servers s) (call_time cl) d) with
  | Done i w =>
      a ← answer_of (call_op cl) i (w_dc w);
      Some (a, System (w_servers w) (<[caller cl := w_dc w]> (sys_clients s)))
  | Crashed | OutOfFuel => None
  end.

Fixpoint run_calls (fuel : nat) (cls : list call) (s : system) : option (list answer * system) :=
  match cls with
  | [] => Some ([], s)
  | cl :: cls' =>
      '(a, s) ← run_call fuel cl s; '(l, s) ← run_calls fuel cls' s; Some (a :: l, s)
  end.

(** ** The abstract map *)

(** The keys of a scan. *)
Definition scan_keys (key scan_len : Z) : Z := Z.min scan_len (Z.min (max_range L) (num_registers L - key)).

Definition spec_call (op : ycsb_op) (st : Z -> Z) : answer * (Z -> Z) :=
  match op with
  | OpGet key => (AGet (st key), st)
  | OpPut key value => (APut, fun k => if k =? key then u32 value else st k)
  | OpScan key scan_len => (AScan (tab (Z.to_nat (scan_keys key scan_len)) (fun off => st (key + Z.of_nat off))), st)
  end.

Fixpoint spec_calls (cls : list call) (st : Z -> Z) : list answer :=
  match cls with
  | [] => []
  | cl :: cls' => let '(a, st) := spec_call (call_op cl) st in a :: spec_calls cls' st
  end.

(** A call of one of [n] clients on keys the servers hold. *)
Definition call_ok (n : nat) (cl : call) : Prop :=
  (caller cl < n)%nat /\
  match call_op cl with
  | OpGet key => 0 <= key < num_registers L
  | OpPut key _ => 0 <= key < num_registers L
  | OpScan key scan_len => 0 <= key < num_registers L /\ 1 <= scan_len
  end.

(** The parameters of a deployment: the quorums intersect, the counts and
    sizes fit into their words. *)
Record deployment_ok : Prop := {
  dep_layout : layout_ok L;
  dep_quorum : 1 <= quorum_of L <= num_servers L;
  dep_max : (Z.to_nat (quorum_of L) <= kMaxQuorum)%nat;
  dep_intersect : num_servers L < 2 * quorum_of L;
  dep_parallel : async_parallelism L < 2 ^ 63;
  dep_range : 1 <= max_range L /\ max_range L * REG_SIZE < 2 ^ 32;
  dep_registers : forall r, (r < Z.to_nat (num_servers L))%nat ->
    0 <= remote_base r /\ remote_base r + num_registers L * REG_SIZE <= 2 ^ 64;
}.
End Calls.

(** ** Configurations and clients of a deployment *)

Section Deployment.
Context (remote_base : nat -> Z) (L : layout) (Hdep : deployment_ok remote_base L).

Local Abbreviation n := (Z.to_nat (num_servers L)).
Local Abbreviation q := (Z.to_nat (quorum_of L)).

Lemma config_layout i : num_servers (dc_layout (client_config L i)) = num_servers L /\
  num_registers (dc_layout (client_config L i)) = num_registers L /\
  max_range (dc_layout (client_config L i)) = max_range L /\ dc_quorum (client_config L i) = q.
Proof. done. Qed.

Lemma client_config_ok i : cfg_ok remote_base (client_config L i).
Proof.
  destruct Hdep as [H1 H2 H3 H4 H5 H6 H7]. split; try done.
  - cbn. lia.
  - cbn. by rewrite length_map, length_seq.
  - cbn. apply NoDup_fmap_2_strong; [|apply NoDup_seq]. intros a b Ha%elem_of_seq Hb%elem_of_seq He.
    apply Z2Nat.inj in He; [|apply Z.mod_pos_bound; lia..].
    set (x := client_idx_of L (firstClientId L + Z.of_nat i)) in *.
    pose proof (Z.div_mod (x + Z.of_nat a) (num_servers L) ltac:(lia)) as Ea.
    pose proof (Z.div_mod (x + Z.of_nat b) (num_servers L) ltac:(lia)) as Eb. rewrite He in Ea.
    assert (Hd : (x + Z.of_nat a) / num_servers L = (x + Z.of_nat b) / num_servers L) by nia. rewrite Hd in Ea. lia.
  - cbn. intros r (k & -> & _)%list_elem_of_fmap.
    pose proof (Z.mod_pos_bound (client_idx_of L (firstClientId L + Z.of_nat i) + Z.of_nat k) (num_servers L) ltac:(lia)). lia.
  - cbn. lia.
Qed.

Lemma client_new_rest i mr junk :
  exists d, ds_client_new (client_config L i) mr junk = Some d /\ rest (client_config L i) d.
Proof.
  set (cfg := client_config L i). set (p := Z.to_nat (async_parallelism (dc_layout cfg))).
  destruct profiler_new_ok as (prof & Hprof & Hpok & _).
  set (g id := GetFuture id GDone junk (replicate n 0) 0 0 (replicate kMaxQuorum junk) 0 false junk).
  set (u id := PutFuture id PDone junk junk (replicate n 0) (replicate n false) (replicate kMaxQuorum junk) 0 0 false junk).
  set (o k := OpFuture KNone (g (Z.of_nat k)) (u (Z.of_nat k)) (range_new cfg (Z.of_nat k) junk)).
  assert (Hop : forall k, op_new cfg (Z.of_nat k) junk = Some (o k)).
  { intros k. unfold op_new, get_new, put_new. change (dc_quorum cfg) with q.
    by rewrite (proj2 (Nat.leb_le _ _) (dep_max _ _ Hdep)). }
  assert (Hmap : forall l, mapM (fun k => op_new cfg (Z.of_nat k) junk) l = Some (map o l)).
  { intros l. apply mapM_Some_2. induction l as [|k l IH]; constructor; [apply Hop|exact IH]. }
  unfold ds_client_new, client_new. rewrite Hprof. cbn [mbind option_bind]. rewrite Hmap. cbn [mbind option_bind].
  fold p. eexists. split; [done|]. split; cbn [d_cl d_futures d_progress d_range_futures d_range_progress].
  - exists mr. eexists (Client mr [] [] [] _ _ _). symmetry. unfold posted. f_equal; [exact (tab_const _ [])..|exact (tab_const _ 0)].
  - done.
  - done.
  - done.
  - by rewrite length_map, length_seq.
  - by rewrite length_map, length_seq.
  - intros k f Hf. change (map o (seq 0 p)) with (o <$> seq 0 p) in Hf.
    apply list_lookup_fmap_Some in Hf as (k' & -> & [-> Hk]%lookup_seq).
    unfold op_rest, o, g, u. cbn. rewrite !length_replicate, tab_const. by split_and!.
  - intros k f Hf. apply list_lookup_fmap_Some in Hf as (k' & -> & [-> Hk]%lookup_seq).
    unfold range_rest. cbn. rewrite tab_const. by split_and!.
Qed.

(** ** Quorums *)

Definition quorum_list (Q : list nat) : Prop := NoDup Q /\ length Q = q /\ forall r, r ∈ Q -> (r < n)%nat.

Lemma quorum_intersection Q Q' : quorum_list Q -> quorum_list Q' -> exists r, r ∈ Q /\ r ∈ Q'.
Proof.
  intros (Hnd & Hlen & Hlt) (Hnd' & Hlen' & Hlt').
  destruct (decide (Exists (fun r => r ∈ Q') Q)) as [Hex|Hno].
  { apply Exists_exists in Hex as (r & ? & ?). by exists r. }
  exfalso. assert (Hdisj : forall r, r ∈ Q -> r ∉ Q').
  { intros r Hr Hr'. apply Hno. apply Exists_exists. by exists r. }
  assert (Hall : (length (Q ++ Q') <= length (seq 0 n))%nat).
  { apply submseteq_length, NoDup_submseteq; [by apply NoDup_app|].
    intros r [Hr|Hr]%elem_of_app; apply elem_of_seq; [specialize (Hlt r Hr)|specialize (Hlt' r Hr)]; lia. }
  rewrite length_app, length_seq in Hall. pose proof (dep_intersect _ _ Hdep).
  pose proof (dep_quorum _ _ Hdep). lia.
Qed.

Lemma config_quorum i : quorum_list (dc_indices (client_config L i)).
Proof.
  pose proof (client_config_ok i) as H. split_and!.
  - apply (cfg_nodup _ _ H).
  - apply (cfg_indices _ _ H).
  - apply (cfg_servers _ _ H).
Qed.

(** ** The registers of a key *)

(** Register [x] is held by a quorum and is the newest. *)
Record newest (servers : nat -> memory) (key x : Z) : Prop := {
  newest_zero : x = 0 \/ 0 < reg_tag x;
  newest_held : exists Q, quorum_list Q /\ forall r, r ∈ Q -> reg_at remote_base servers key r = x;
  newest_max r : (r < n)%nat ->
    reg_at remote_base servers key r = x \/ reg_tag (reg_at remote_base servers key r) < reg_tag x;
}.

Section Newest.
Context (servers : nat -> memory) (key x : Z) (Hx : newest servers key x) (i : nat).
Local Abbreviation cfg := (client_config L i).

Lemma newest_seen : x ∈ vals remote_base cfg servers key.
Proof.
  destruct (newest_held _ _ _ Hx) as (Q & HQ & Hheld).
  destruct (quorum_intersection Q (dc_indices cfg) HQ (config_quorum i)) as (r & Hr & Hr').
  rewrite <- (Hheld r Hr). apply list_elem_of_fmap. by exists r.
Qed.

Lemma newest_vals v : v ∈ vals remote_base cfg servers key -> v = x \/ reg_tag v < reg_tag x.
Proof.
  intros (r & -> & Hr)%list_elem_of_fmap. apply (newest_max _ _ _ Hx).
  by apply (cfg_servers _ _ (client_config_ok i)).
Qed.

Lemma newest_max_at : max_at remote_base cfg servers key = x.
Proof.
  unfold max_at. destruct (scan_regs_spec (vals remote_base cfg servers key)) as (H1 & H2 & _).
  specialize (H2 x newest_seen). destruct H1 as [H1|H1].
  - rewrite H1 in *. destruct (newest_zero _ _ _ Hx) as [->|Hpos]; [done|]. change (reg_tag 0) with 0 in H2. lia.
  - apply newest_vals in H1 as [H1|H1]; [done|lia].
Qed.

Lemma newest_best : best_reg (vals remote_base cfg servers key) = x.
Proof.
  destruct (best_reg_spec (vals remote_base cfg servers key)) as [H1 H2].
  { intros He. pose proof newest_seen as H. rewrite He in H. by apply elem_of_nil in H. }
  specialize (H2 x newest_seen). apply newest_vals in H1 as [H1|H1]; [done|lia].
Qed.

Lemma newest_seq : max_seq remote_base cfg servers key = reg_seq x.
Proof.
  unfold max_seq. set (l := vals remote_base cfg servers key).
  assert (Hmax : forall l a, foldl Z.max a (map reg_seq l) = a /\ (forall v, v ∈ l -> reg_seq v <= a) \/
    (exists v, v ∈ l /\ foldl Z.max a (map reg_seq l) = reg_seq v) /\
    (forall v, v ∈ l -> reg_seq v <= foldl Z.max a (map reg_seq l)) /\ a <= foldl Z.max a (map reg_seq l)).
  { clear. induction l as [|v l IH]; intros a; cbn [map foldl]; [left; split; [done|by intros ? ?%elem_of_nil]|].
    destruct (IH (Z.max a (reg_seq v))) as [[He Hle]|((u & Hu & He) & Hle & Ha)].
    - rewrite He. destruct (Z.max_spec a (reg_seq v)) as [[Hlt Hm]|[Hge Hm]]; rewrite Hm in *.
      + right. split_and!; [exists v; split; [left|done]| |lia].
        intros u [->|Hu]%elem_of_cons; [lia|by apply Hle].
      + left. split; [done|]. intros u [->|Hu]%elem_of_cons; [lia|by apply Hle].
    - right. split_and!; [exists u; split; [by right|done]| |lia].
      intros w [->|Hw]%elem_of_cons; [lia|by apply Hle]. }
  assert (Hle : forall v, v ∈ l -> reg_seq v <= reg_seq x).
  { intros v [->|Hv]%newest_vals; [done|]. unfold reg_tag in Hv. pose proof (reg_bounds v). pose proof (reg_bounds x). lia. }
  pose proof newest_seen as Hin. fold l in Hin. pose proof (reg_bounds x).
  destruct (Hmax l 0) as [[-> H0]|((v & Hv & ->) & Hall & _)].
  - specialize (H0 x Hin). lia.
  - specialize (Hle v Hv). specialize (Hall x Hin). lia.
Qed.
End Newest.

Lemma newest_ext servers servers' key x :
  (forall r, (r < n)%nat -> reg_at remote_base servers' key r = reg_at remote_base servers key r) ->
  newest servers key x -> newest servers' key x.
Proof.
  intros He [H1 (Q & HQ & Hheld) H3]. split; [done| |].
  - exists Q. split; [done|]. intros r Hr. rewrite He; [by apply Hheld|]. by apply HQ.
  - intros r Hr. rewrite He by done. by apply H3.
Qed.

(** A quorum that is given the newest register. *)
Lemma newest_written servers servers' key x y i :
  (forall r, (r < n)%nat -> reg_at remote_base servers' key r =
     if decide (r ∈ dc_indices (client_config L i)) then y else reg_at remote_base servers key r) ->
  newest servers key x -> reg_tag x < reg_tag y \/ x = y -> newest servers' key y.
Proof.
  intros He [H1 (Q & HQ & Hheld) H3] Hxy. split.
  - destruct Hxy as [Hlt | <-]; [|done]. right. destruct H1 as [->|]; [exact Hlt|lia].
  - exists (dc_indices (client_config L i)). split; [apply config_quorum|]. intros r Hr.
    rewrite He; [by rewrite decide_True|]. by apply (config_quorum i).
  - intros r Hr. rewrite He by done. case_decide; [by left|]. destruct (H3 r Hr) as [-> | Hlt].
    + destruct Hxy as [Hlt | ->]; [by right|by left].
    + right. destruct Hxy as [? | <-]; lia.
Qed.

(** The servers hold the map [st], with sequence numbers up to [k]. *)
Definition agrees (k : Z) (st : Z -> Z) (servers : nat -> memory) : Prop :=
  forall key, 0 <= key < num_registers L ->
  exists x, newest servers key x /\ reg_value x = st key /\ reg_seq x <= k.

Lemma agrees_zero k : 0 <= k -> agrees k (fun _ => 0) (fun _ _ => 0).
Proof.
  intros Hk key _. exists 0. split; [|done]. split; [by left| |].
  - exists (dc_indices (client_config L 0)). split; [apply config_quorum|done].
  - intros r _. by left.
Qed.

Lemma target_newer i x value : reg_seq x < 2 ^ 16 - 1 ->
  let t := target_of (client_config L i) (reg_seq x + 1) value in
  reg_tag x < reg_tag t /\ reg_value t = u32 value /\ reg_seq t = reg_seq x + 1.
Proof.
  intros Hk t. pose proof (reg_bounds x) as (_ & Hc & Hs).
  assert (Hu : forall z, 0 <= u16 z < 2 ^ 16) by (intros z; apply Z.mod_pos_bound; lia).
  assert (Hv : 0 <= u32 value < 2 ^ 32) by (apply Z.mod_pos_bound; lia).
  destruct (reg_make_fields (u16 (reg_seq x + 1)) (u16 (dc_client_idx (client_config L i))) (u32 value)) as (_ & Hv' & Hc' & Hs');
    [done|done|done|]. fold (target_of (client_config L i) (reg_seq x + 1) value) in Hv', Hc', Hs'. fold t in Hv', Hc', Hs'.
  assert (He : u16 (reg_seq x + 1) = reg_seq x + 1) by (unfold u16; rewrite Z.mod_small; lia).
  rewrite He in Hs'. split_and!; [|done|done]. unfold reg_tag. rewrite Hs', Hc'.
  specialize (Hu (dc_client_idx (client_config L i))). lia.
Qed.

Context (writeback : bool).

Definition system_ok (c : nat) (s : system) : Prop :=
  length (sys_clients s) = c /\ forall i d, sys_clients s !! i = Some d -> rest (client_config L i) d.

Lemma system_ok_step c servers ds i d servers' : system_ok c (System servers ds) -> rest (client_config L i) d ->
  system_ok c (System servers' (<[i := d]> ds)).
Proof.
  intros [H1 H2] Hd. split; cbn; [by rewrite length_insert|]. intros j e He.
  apply list_lookup_insert_Some in He as [(<- & <- & _)|[_ He]]; [done|by apply H2].
Qed.

(** One call returns what the map says and leaves the servers in agreement
    with it. *)
Lemma run_call_spec fuel c cl s st k :
  (2 <= fuel)%nat -> call_ok L c cl -> system_ok c s -> agrees k st (sys_servers s) -> 0 <= k < 2 ^ 16 - 1 ->
  exists s', run_call remote_base L false writeback fuel cl s = Some ((spec_call L (call_op cl) st).1, s') /\
    system_ok c s' /\ agrees (k + 1) (spec_call L (call_op cl) st).2 (sys_servers s').
Proof.
  intros Hfuel [Hcl Hop] Hs Hag Hk. destruct cl as [i op now measured], s as [servers ds]. cbn [caller call_op sys_servers] in *.
  destruct (lookup_lt_is_Some_2 ds i) as [d Hd]; [by rewrite <- (proj1 Hs) in Hcl|].
  pose proof (proj2 Hs i d Hd) as Hr. pose proof (client_config_ok i) as Hcfg.
  unfold run_call. cbn [caller call_op call_time call_measured sys_servers sys_clients]. rewrite Hd. cbn [mbind option_bind].
  destruct op as [key|key value|key scan_len].
  - destruct (get_run remote_base _ writeback Hcfg fuel key measured now servers d) as (sv & d' & -> & Hrest & Hv & Heff); [done..|].
    cbn [answer_of w_dc w_servers]. destruct (d_futures d' !! 0%nat) as [f|]; [|done]. cbn in Hv. injection Hv as Hv.
    destruct (Hag key Hop) as (x & Hx & Hxv & Hxs). rewrite (newest_max_at _ _ _ Hx i), Hxv in Hv.
    cbn [mbind option_bind]. rewrite Hv. eexists. split; [done|]. split; [by apply (system_ok_step c servers)|].
    intros key' Hkey'. cbn [sys_servers spec_call snd]. destruct (Hag key' Hkey') as (y & Hy & Hyv & Hys). exists y. split_and!; [|done|lia].
    destruct (decide (writeback = true /\ key' = key)) as [[Hwb ->]|Hne].
    + assert (y = x) as ->.
      { by rewrite <- (newest_max_at _ _ _ Hx i), <- (newest_max_at _ _ _ Hy i). }
      apply (newest_written servers _ key x x i); [|done|by right].
      intros r Hrn. rewrite (Heff r key Hrn Hop), (newest_max_at _ _ _ Hx i). apply decide_ext. tauto.
    + apply (newest_ext servers); [|done]. intros r Hrn. rewrite (Heff r key' Hrn Hkey').
      by rewrite decide_False by tauto.
  - destruct (put_run remote_base _ writeback Hcfg fuel key value measured now servers d) as (sv & d' & -> & Hrest & Heff); [done..|].
    cbn [answer_of w_dc w_servers mbind option_bind]. eexists. split; [done|]. split; [by apply (system_ok_step c servers)|].
    intros key' Hkey'. cbn [sys_servers spec_call snd]. destruct (Z.eqb_spec key' key) as [->|Hne].
    + destruct (Hag key Hop) as (x & Hx & Hxv & Hxs).
      destruct (target_newer i x value) as (Ht1 & Ht2 & Ht3); [lia|].
      exists (put_target remote_base (client_config L i) servers key value). unfold put_target.
      rewrite (newest_seq _ _ _ Hx i). split_and!; [|done|lia].
      apply (newest_written servers _ key x _ i); [|done|by left].
      intros r Hrn. rewrite (Heff r key Hrn Hop). unfold put_target. rewrite (newest_seq _ _ _ Hx i). apply decide_ext. tauto.
    + destruct (Hag key' Hkey') as (y & Hy & Hyv & Hys). exists y. split_and!; [|done|lia].
      apply (newest_ext servers); [|done]. intros r Hrn. rewrite (Heff r key' Hrn Hkey'). by rewrite decide_False by tauto.
  - destruct Hop as [Hkey Hlen]. pose proof (dep_range _ _ Hdep) as [Hmax _].
    destruct (scan_run remote_base _ writeback Hcfg fuel key scan_len measured now servers d) as (sv & d' & -> & Hrest & Hv & Heff);
      [lia|done..|].
    cbn [answer_of w_dc w_servers]. destruct (d_range_futures d' !! 0%nat) as [f|]; [|done]. cbn in Hv. injection Hv as Hv.
    cbn [mbind option_bind]. rewrite Hv. eexists. split.
    + cbn [spec_call fst]. do 4 f_equal. apply tab_ext. intros off Hoff. unfold scan_value.
      assert (Hok : 0 <= key + Z.of_nat off < num_registers L).
      { cbn in Hoff. unfold scan_keys in Hoff. lia. }
      destruct (Hag _ Hok) as (x & Hx & Hxv & _). by rewrite (newest_best _ _ _ Hx i).
    + split; [by apply (system_ok_step c servers)|]. intros key' Hkey'. cbn [sys_servers spec_call snd]. destruct (Hag key' Hkey') as (y & Hy & Hyv & Hys).
      exists y. split_and!; [|done|lia]. apply (newest_ext servers); [|done]. intros r _. unfold reg_at. by rewrite Heff.
Qed.

Lemma run_calls_spec fuel c cls s st k :
  (2 <= fuel)%nat -> Forall (call_ok L c) cls -> system_ok c s -> agrees k st (sys_servers s) ->
  0 <= k -> k + Z.of_nat (length cls) < 2 ^ 16 ->
  exists s', run_calls remote_base L false writeback fuel cls s = Some (spec_calls L cls st, s') /\ system_ok c s'.
Proof.
  intros Hfuel Hcls. revert s st k. induction Hcls as [|cl cls Hcl Hcls IH]; intros s st k Hs Hag Hk Hlen; [by exists s|].
  cbn [length] in Hlen. destruct (run_call_spec fuel c cl s st k) as (s1 & H1 & Hs1 & Hag1); [done|done|done|done|lia|].
  cbn [run_calls spec_calls]. rewrite H1. cbn [mbind option_bind].
  destruct (IH s1 _ (k + 1) Hs1 Hag1) as (s2 & H2 & Hs2); [lia|lia|].
  destruct (spec_call L (call_op cl) st) as [a st1]. cbn [snd] in H2. rewrite H2. cbn [mbind option_bind]. by exists s2.
Qed.
End Deployment.
