(* ===== verification/DsDeployment.v ===== *)
(** * DsDeployment: what the replicated registers of a deployment promise

    The main theorems on the remote half of the program, the calls of a
    deployment of three servers as witnesses, and the two ways in which the
    promise fails: with the register cache, and when puts overlap. *)

From S2P Require Import Prelude Prog DsRegister Latency DsNet DsFutures DsLayout DsClient DsMain.
From S2P Require Import DsAlone DsGetPut DsRun DsSequential.

Local Open Scope Z_scope.

(** The clients of a deployment that starts, over servers whose memory is
    zero. *)
Definition clients_started (L : layout) (mrs : list memory) (ds : list ds_client) : Prop :=
  Forall2 (fun '(i, mr) d => exists junk, ds_client_new (client_config L i) mr junk = Some d)
    (zip (seq 0 (length mrs)) mrs) ds.

Definition zero_servers : nat -> memory := fun _ _ => 0.

Lemma started_ok remote_base L mrs ds : deployment_ok remote_base L -> clients_started L mrs ds ->
  system_ok L (length mrs) (System zero_servers ds).
Proof.
  intros Hdep Hds. unfold clients_started in Hds.
  assert (Hlen : length (zip (seq 0 (length mrs)) mrs) = length mrs) by (rewrite length_zip, length_seq; lia).
  split; cbn.
  - by rewrite <- (Forall2_length _ _ _ Hds).
  - intros i d Hd. destruct (Forall2_lookup_r _ _ _ _ _ Hds Hd) as ([j mr] & Hj & (junk & Hnew)).
    apply lookup_zip_Some in Hj as [[-> Hij]%lookup_seq _].
    destruct (client_new_rest remote_base L Hdep (0 + i) mr junk) as (d' & Hd' & Hr). rewrite Hd' in Hnew. by injection Hnew as <-.
Qed.

(** C3: without the register cache, a deployment is one map from keys to
    values.  Clients with intersecting quorums start over zeroed servers and
    call gets, puts and scans one after another, fewer than 2^16 in all, in
    any order, from any client, each spinning over a network that serves every
    request: every call completes, within two polls, and its answer is the one
    of the map that starts at 0 and takes the low 32 bits of each value put.
    It holds with and without the write-back of gets. *)
Theorem sequential_calls_correct remote_base L writeback mrs ds fuel cls :
  deployment_ok remote_base L -> clients_started L mrs ds ->
  Forall (call_ok L (length mrs)) cls -> Z.of_nat (length cls) < 2 ^ 16 -> (2 <= fuel)%nat ->
  exists s, run_calls remote_base L false writeback fuel cls (System zero_servers ds) =
    Some (spec_calls L cls (fun _ => 0), s).
Proof.
  intros Hdep Hds Hcls Hlen Hfuel.
  destruct (run_calls_spec remote_base L Hdep writeback fuel (length mrs) cls (System zero_servers ds) (fun _ => 0) 0)
    as (s & Hs & _); [done|done|by eapply started_ok|by apply agrees_zero|lia|lia|by exists s].
Qed.

(** C12: an operation of a client that is alone always completes, in the build
    without the register cache (DS_REG_CACHE_ENABLED=0; the default build, which
    has it, is not covered).  In a deployment whose sizes are sound
    ([deployment_ok]), from any client at rest and any contents of the servers'
    memory, a get, a put or a scan of valid keys returns after at most two polls,
    on its first future, and leaves the client at rest: all futures done, no
    request in flight and no completion unpolled. *)
Theorem operation_completes remote_base L i writeback fuel op measuring now servers d c :
  deployment_ok remote_base L -> rest (client_config L i) d -> (2 <= fuel)%nat ->
  call_ok L c (Call i op now measuring) ->
  exists servers' d',
    run_op remote_base (client_config L i) false writeback net_all fuel op measuring (World servers now d) =
      Done 0%nat (World servers' now d') /\
    rest (client_config L i) d'.
Proof.
  intros Hdep Hr Hfuel [_ Hop]. pose proof (client_config_ok remote_base L Hdep i) as Hcfg.
  destruct op as [key|key value|key len]; cbn [call_op] in Hop.
  - destruct (get_run remote_base _ writeback Hcfg fuel key measuring now servers d) as (sv & d' & H & Hd & _); eauto.
  - destruct (put_run remote_base _ writeback Hcfg fuel key value measuring now servers d) as (sv & d' & H & Hd & _); eauto.
  - destruct Hop as [Hk Hl]. pose proof (dep_range _ _ Hdep) as [Hm _].
    destruct (scan_run remote_base _ writeback Hcfg fuel key len measuring now servers d) as (sv & d' & H & Hd & _); eauto; lia.
Qed.

(** ** Three servers *)

(** Three servers, four registers each, and the majority by default: the
    quorums are {0,1}, {1,2} and {2,0}. *)
Definition three_servers : layout := Layout 3 3 1 4 2 0 4 false false 0.
Definition at_zero : nat -> Z := fun _ => 0.
Definition zero_region : memory := fun _ => 0.

Lemma three_servers_ok : deployment_ok at_zero three_servers.
Proof.
  split; unfold layout_ok, quorum_of, kMaxQuorum, at_zero, REG_SIZE; cbn;
    change (3 / 2) with 1; lia.
Qed.

Definition dummy_client : ds_client :=
  DsClient (Client zero_region [] [] [] (Counters 0 0 0 0 0 0 0 0) (cache_new 0)
    (Profilers (Profiler 0 [] [] 0) (Profiler 0 [] [] 0) (Profiler 0 [] [] 0))) [] [] [] [].

(** Client [i], its region zeroed. *)
Definition started (i : nat) : ds_client :=
  default dummy_client (ds_client_new (client_config three_servers i) zero_region 0).

Lemma started_new i : ds_client_new (client_config three_servers i) zero_region 0 = Some (started i).
Proof.
  destruct (client_new_rest at_zero three_servers three_servers_ok i zero_region 0) as (d & Hd & _).
  unfold started. by rewrite Hd.
Qed.

Lemma started_rest i : rest (client_config three_servers i) (started i).
Proof.
  destruct (client_new_rest at_zero three_servers three_servers_ok i zero_region 0) as (d & Hd & Hr).
  unfold started. by rewrite Hd.
Qed.

Definition three_clients : list ds_client := map started [0; 1; 2]%nat.

Lemma three_clients_started : clients_started three_servers [zero_region; zero_region; zero_region] three_clients.
Proof. unfold clients_started, three_clients. cbn. repeat constructor; exists 0; apply started_new. Qed.

(** Client 0 puts 5, client 1 puts 7, client 0 puts 9, then client 2 gets and
    scans. *)
Definition overwriting_calls : list call :=
  [Call 0 (OpPut 1 5) 10 true; Call 1 (OpPut 1 7) 20 true; Call 0 (OpPut 1 9) 30 true;
   Call 2 (OpGet 1) 40 true; Call 2 (OpScan 0 8) 50 true].

Lemma overwriting_calls_ok : Forall (call_ok three_servers 3) overwriting_calls.
Proof. repeat constructor; cbn; lia. Qed.

Lemma sequential_calls_correct_witness :
  exists s, run_calls at_zero three_servers false true 2 overwriting_calls (System zero_servers three_clients) =
    Some ([APut; APut; APut; AGet 9; AScan [0; 9]], s).
Proof.
  exact (sequential_calls_correct at_zero three_servers true [zero_region; zero_region; zero_region] three_clients 2
    overwriting_calls three_servers_ok three_clients_started overwriting_calls_ok eq_refl (le_n 2)).
Defined.

Lemma operation_completes_witness :
  exists servers' d',
    run_op at_zero (client_config three_servers 1) false true net_all 2 (OpGet 3) false
      (World (fun r _ => Z.of_nat r) 0 (started 1)) = Done 0%nat (World servers' 0 d') /\
    rest (client_config three_servers 1) d'.
Proof.
  apply (operation_completes at_zero three_servers 1 true 2 (OpGet 3) false 0 _ (started 1) 3 three_servers_ok);
    [apply started_rest|lia|split; cbn; lia].
Defined.

(** ** Where the promise fails *)

(** The answers and the registers of key [key] at the three servers. *)
Definition answers (o : option (list answer * system)) : option (list answer) := fst <$> o.

(** C5: with the register cache, the default build, a completed put can be
    lost.  Client 0 puts 5, client 1 puts 7, client 0 puts 9 and client 2 gets,
    one after another: the get returns 7, where without the cache it returns
    9.  The second put of client 0 finds its cached register at one server,
    where it swaps in the register with sequence number 2, and not at the
    other, which it retries with sequence number 3; the put counts both
    servers, but only one holds the register it reports. *)
Theorem cached_put_lost :
  let run reg_cache := answers (run_calls at_zero three_servers reg_cache false 9
    [Call 0 (OpPut 1 5) 0 false; Call 1 (OpPut 1 7) 0 false; Call 0 (OpPut 1 9) 0 false; Call 2 (OpGet 1) 0 false]
    (System zero_servers three_clients)) in
  run true = Some [APut; APut; APut; AGet 7] /\ run false = Some [APut; APut; APut; AGet 9].
Proof. split; vm_compute; reflexivity. Qed.

(** Client 0 puts 5 and is stopped after its reads, client 2 puts 7, client 0
    finishes; then client 1 and client 0 get. *)
Definition overlapping_puts (writeback : bool) : option (list answer) :=
  let cfg := client_config three_servers 0 in
  match start_op at_zero cfg false writeback net_all 9 (OpPut 1 5) false (World zero_servers 0 (started 0)) with
  | Done _ w =>
      w ← finish_round at_zero cfg false writeback net_all 0 w;
      '(_, s) ← run_call at_zero three_servers false writeback 9 (Call 2 (OpPut 1 7) 0 false)
                  (System (w_servers w) three_clients);
      match finishAllFutures at_zero cfg false writeback net_all 9 (World (sys_servers s) 0 (w_dc w)) with
      | Done _ w' =>
          answers (run_calls at_zero three_servers false writeback 9
            [Call 1 (OpGet 1) 0 false; Call 0 (OpGet 1) 0 false]
            (System (w_servers w') (<[0%nat := w_dc w']> (sys_clients s))))
      | Crashed | OutOfFuel => None
      end
  | Crashed | OutOfFuel => None
  end.

(** C6: puts that overlap can leave a register that is not linearizable, with
    or without write-back.  Both puts have returned when client 1 gets 7 and
    then client 0 gets 5: the second get goes back to a value that the first
    get had seen overwritten.  The swap of client 0 failed at server 0 with
    the sequence number of its own target, so it reset the expected registers
    of the whole quorum from the swap buffers, in the loop that compares them:
    server 1, not visited yet, compared equal and was counted as swapped to
    the new target, which it never received. *)
Theorem overlapping_puts_diverge writeback : overlapping_puts writeback = Some [AGet 7; AGet 5].
Proof. destruct writeback; vm_compute; reflexivity. Qed.

(** The sequence number of a register has 16 bits: the put that follows number
    65535 writes number 0, which is older than every other register. *)
Lemma sequence_number_wraps cfg value x : reg_seq x = 2 ^ 16 - 1 ->
  reg_seq (target_of cfg (reg_seq x + 1) value) = 0 /\ reg_lt (target_of cfg (reg_seq x + 1) value) x = true.
Proof.
  intros Hx. unfold target_of. rewrite Hx. change (u16 (2 ^ 16 - 1 + 1)) with 0.
  destruct (reg_make_fields 0 (u16 (dc_client_idx cfg)) (u32 value)) as (_ & _ & _ & Hs);
    [apply Z.mod_pos_bound; lia|apply Z.mod_pos_bound; lia|lia|].
  split; [done|]. unfold reg_lt. by rewrite Hs, Hx.
Qed.

(** The completions of a range that an [OpFuture] posted are routed to the
    range future of the same index: the operation itself never hears of them. *)
Lemma op_range_misrouted s id d d' : 0 <= id < 2 ^ 63 ->
  route s (Z.lor id RANGE_BIT) d = Some d' -> d_futures d' = d_futures d /\ d_progress d' = d_progress d.
Proof.
  intros Hid H. unfold route in H. destruct (range_id id Hid) as [H1 H2]. rewrite H1, H2 in H. cbn [Z.eqb negb] in H.
  destruct (d_range_futures d !! _) as [f|]; [|done]. cbn [mbind option_bind] in H.
  destruct (range_addToOngoing s (-1) f) as [f'|]; [|done]. cbn [mbind option_bind] in H.
  destruct (upd _ true (d_range_progress d)) as [p|]; [|done]. by injection H as <-.
Qed.
