(* ===== verification/DsConc.v ===== *)
(** * DsConc: the clients of a deployment, interleaved

    Every client of a deployment runs its own event loop; the network executes
    requests of different clients and servers in any order.  An event is one
    turn of one of them: the network executes the next request of a
    connection, a client polls a connection, steps a future, or starts an
    operation on a future that is done.  A run is a list of events; the
    spinning loops of a client are sequences of its events, whatever the
    others do in between.

    This file has the events, the effect of a posting loop on the connections
    of a client and on the counts of a future, and the loops of a put: the
    compare-and-swaps a put posts always raise the sequence number, since their
    targets are newer than what they expect.  The invariant behind it relates
    the slots of the quorum to the target: a slot that needs a swap expects an
    older register, a slot that does not has an older register in its swap
    buffer, except for the slots after the last reset, which need no swap. *)

From S2P Require Import Prelude Prog DsRegister Latency DsNet DsFutures DsLayout DsClient DsMain.
From S2P Require Import DsAlone DsSequential.

Local Open Scope Z_scope.

Inductive event :=
| ENic (client server : nat)
| EPoll (client server : nat)
| EStep (client idx : nat) (now : Z)
| EStepRange (client idx : nat) (now : Z)
| EStart (client idx : nat) (op : ycsb_op) (now : Z) (measuring : bool).

(** Events after which a register may have a greater sequence number. *)
Definition raising (e : event) : bool :=
  match e with EStep _ _ _ | EStart _ _ _ _ _ => true | _ => false end.

Definition raises (evs : list event) : Z := Z.of_nat (length (filter (fun e => raising e = true) evs)).

Section Events.
Context (remote_base : nat -> Z) (L : layout) (reg_cache writeback : bool).

(** Start [op] on future [idx], which is done. *)
Definition start_on (cfg : config) (idx : nat) (op : ycsb_op) (now : Z) (measuring : bool) (d : ds_client)
    : option ds_client :=
  match op with
  | OpGet key =>
      f ← d_futures d !! idx;
      assert_ (op_isDone f) ;;
      '(f, c) ← op_doGet remote_base cfg key measuring now f (d_cl d);
      Some (with_futures c (<[idx := f]> (d_futures d)) d)
  | OpPut key value =>
      f ← d_futures d !! idx;
      assert_ (op_isDone f) ;;
      '(f, c) ← op_doPut remote_base cfg reg_cache key value measuring now f (d_cl d);
      Some (with_futures c (<[idx := f]> (d_futures d)) d)
  | OpScan key scan_len =>
      f ← d_range_futures d !! idx;
      assert_ (range_isDone f) ;;
      '(f, c) ← doRange remote_base cfg key (u64 (key + clamp_scan cfg key scan_len - 1)) measuring now f (d_cl d);
      Some (with_ranges c (<[idx := f]> (d_range_futures d)) d)
  end.

Definition with_client (i : nat) (d : ds_client) (s : system) : system :=
  System (sys_servers s) (<[i := d]> (sys_clients s)).

Definition conc_step (e : event) (s : system) : option system :=
  match e with
  | ENic i r =>
      d ← sys_clients s !! i;
      '(servers, c) ← nic_exec r (sys_servers s) (d_cl d);
      Some (System servers (<[i := with_futures c (d_futures d) d]> (sys_clients s)))
  | EPoll i r =>
      d ← sys_clients s !! i; '(_, d) ← poll_server r false d; Some (with_client i d s)
  | EStep i idx now =>
      d ← sys_clients s !! i;
      d ← step_op remote_base (client_config L i) reg_cache writeback idx now d; Some (with_client i d s)
  | EStepRange i idx now =>
      d ← sys_clients s !! i; d ← step_range (client_config L i) reg_cache idx now d; Some (with_client i d s)
  | EStart i idx op now measuring =>
      d ← sys_clients s !! i; d ← start_on (client_config L i) idx op now measuring d; Some (with_client i d s)
  end.

Fixpoint conc_run (evs : list event) (s : system) : option system :=
  match evs with
  | [] => Some s
  | e :: evs' => s ← conc_step e s; conc_run evs' s
  end.

Lemma conc_run_app evs evs' s : conc_run (evs ++ evs') s = (s' ← conc_run evs s; conc_run evs' s').
Proof.
  revert s. induction evs as [|e evs IH]; intros s; [done|]. cbn [app conc_run].
  destruct (conc_step e s) as [s1|]; [|done]. apply IH.
Qed.
End Events.

(** ** Counting requests *)

Fixpoint cnt (id : Z) (l : list Z) : Z :=
  match l with [] => 0 | x :: l' => (if x =? id then 1 else 0) + cnt id l' end.

Lemma cnt_app id l l' : cnt id (l ++ l') = cnt id l + cnt id l'.
Proof. induction l as [|x l IH]; cbn; lia. Qed.

Lemma cnt_nonneg id l : 0 <= cnt id l.
Proof. induction l as [|x l IH]; cbn; [lia|]. destruct (x =? id); lia. Qed.

Lemma cnt_all id l : Forall (fun x => x = id) l -> cnt id l = Z.of_nat (length l).
Proof. induction 1 as [|x l -> H IH]; cbn [cnt length]; [done|]. rewrite Z.eqb_refl. lia. Qed.

Lemma cnt_none id l : Forall (fun x => x <> id) l -> cnt id l = 0.
Proof. induction 1 as [|x l Hx H IH]; cbn [cnt]; [done|]. rewrite (proj2 (Z.eqb_neq _ _) Hx). lia. Qed.

Lemma cnt_pos id l : id ∈ l -> 0 < cnt id l.
Proof.
  intros (l1 & l2 & ->)%list_elem_of_split. rewrite cnt_app. cbn. rewrite Z.eqb_refl.
  pose proof (cnt_nonneg id l1). pose proof (cnt_nonneg id l2). lia.
Qed.

(** The requests of future [id] to server [s] that are posted or completed and
    not yet polled. *)
Definition in_flight (c : client) (id : Z) (s : nat) : Z :=
  cnt id (map wr_id (c_sq c !!! s) ++ (c_cq c !!! s)).

Lemma in_flight_nonneg c id s : 0 <= in_flight c id s.
Proof. apply cnt_nonneg. Qed.

Lemma in_flight_pending c id s w : in_flight c id s = 0 -> w ∈ c_sq c !!! s -> wr_id w <> id.
Proof.
  unfold in_flight. rewrite cnt_app. intros H0 Hw He.
  assert (Hin : id ∈ map wr_id (c_sq c !!! s)) by (rewrite <- He; apply list_elem_of_fmap; eauto).
  pose proof (cnt_pos _ _ Hin). pose proof (cnt_nonneg id (c_cq c !!! s)). lia.
Qed.

(** ** Posting *)

(** The connections, region and cache of a client. *)
Definition same_conn (c c' : client) : Prop :=
  c_mr c' = c_mr c /\ c_sq c' = c_sq c /\ c_cq c' = c_cq c /\ c_cache c' = c_cache c.

Lemma same_conn_trans c1 c2 c3 : same_conn c1 c2 -> same_conn c2 c3 -> same_conn c1 c3.
Proof. unfold same_conn. intros (-> & -> & -> & ->). tauto. Qed.

(** From [s] to [s'], requests with the id of a future were posted, each
    satisfying [Q], and counted. *)
Record posts (id : Z) (Q : nat -> wr -> Prop) (s s' : list Z * client) : Prop := {
  posts_mr : c_mr s'.2 = c_mr s.2;
  posts_cq : c_cq s'.2 = c_cq s.2;
  posts_cache : c_cache s'.2 = c_cache s.2;
  posts_sq_length : length (c_sq s'.2) = length (c_sq s.2);
  posts_length : length s'.1 = length s.1;
  posts_at r : exists ws, c_sq s'.2 !!! r = (c_sq s.2 !!! r) ++ ws /\
    s'.1 !!! r = s.1 !!! r + Z.of_nat (length ws) /\ Forall (fun w => wr_id w = id /\ Q r w) ws;
}.

Lemma posts_refl id Q o c c' : same_conn c c' -> posts id Q (o, c) (o, c').
Proof.
  intros (H1 & H2 & H3 & H4). split; cbn; rewrite ?H1, ?H2; try done.
  intros r. exists []. rewrite app_nil_r. split_and!; [done|cbn; lia|done].
Qed.

Lemma posts_trans id Q s1 s2 s3 : posts id Q s1 s2 -> posts id Q s2 s3 -> posts id Q s1 s3.
Proof.
  intros [A1 A2 A3 A4 A5 A6] [B1 B2 B3 B4 B5 B6]. split; try congruence.
  intros r. destruct (A6 r) as (ws & HA1 & HA2 & HA3), (B6 r) as (ws' & HB1 & HB2 & HB3).
  exists (ws ++ ws'). rewrite HB1, HA1, <- app_assoc, HB2, HA2, length_app. split_and!; [done|lia|]. by apply Forall_app.
Qed.

Lemma posts_one id (Q : nat -> wr -> Prop) r w o c c' o' g :
  post r w c = Some c' -> bump r 1 o = Some o' -> wr_id w = id -> Q r w ->
  posts id Q (o, c) (o', with_cnt g c').
Proof.
  unfold post, bump. intros Hp Hb Hid HQ.
  destruct (c_sq c !! r) as [q|] eqn:Hq; [|done]. cbn [mbind option_bind] in Hp.
  destruct (c_poll c !! r) as [x|] eqn:Hx; [|done]. injection Hp as <-.
  destruct (o !! r) as [y|] eqn:Hy; [|done]. injection Hb as <-.
  pose proof (lookup_lt_Some _ _ _ Hq). pose proof (lookup_lt_Some _ _ _ Hy).
  split; cbn; try done; [by rewrite length_insert..|].
  intros r'. destruct (decide (r' = r)) as [->|Hne].
  - exists [w]. rewrite !list_lookup_total_insert_eq by done.
    rewrite (list_lookup_total_correct _ _ _ Hq), (list_lookup_total_correct _ _ _ Hy). split_and!; [done|cbn; lia|].
    by repeat constructor.
  - exists []. rewrite !list_lookup_total_insert_ne, app_nil_r by done. split_and!; [done|cbn; lia|done].
Qed.

Lemma posts_mono id (Q Q' : nat -> wr -> Prop) s s' :
  (forall r w, wr_id w = id -> Q r w -> Q' r w) -> posts id Q s s' -> posts id Q' s s'.
Proof.
  intros HQ [A1 A2 A3 A4 A5 A6]. split; try done. intros r. destruct (A6 r) as (ws & H1 & H2 & H3). exists ws.
  split_and!; try done. eapply Forall_impl; [exact H3|]. intros w [? ?]. auto.
Qed.

Lemma posts_same id Q o c o' c' c'' : posts id Q (o, c) (o', c') -> same_conn c' c'' -> posts id Q (o, c) (o', c'').
Proof. intros H Hs. eapply posts_trans; [exact H|by apply posts_refl]. Qed.

(** A loop that posts at most one request for each slot. *)
Lemma posts_loop id Q n (body : nat -> list Z * client -> option (list Z * client)) s s' :
  for_loop n 0 body s = Some s' ->
  (forall i t t', (i < n)%nat -> body i t = Some t' -> posts id Q t t') -> posts id Q s s'.
Proof.
  intros Hl Hb. apply (for_loop_ind (fun _ t => posts id Q s t) n 0 body s s' Hl).
  - destruct s. by apply posts_refl.
  - intros j t t' Hj Ht Hbt. eapply posts_trans; [exact Ht|]. apply (Hb j); [lia|done].
Qed.

(** The requests in flight after posting. *)
Lemma posts_in_flight id Q o c o' c' s id' : posts id Q (o, c) (o', c') ->
  in_flight c' id' s = in_flight c id' s + (if id =? id' then o' !!! s - o !!! s else 0).
Proof.
  intros [_ H2 _ _ _ H6]. cbn in H2. destruct (H6 s) as (ws & H & Ho & Hws). cbn in H, Ho.
  unfold in_flight. rewrite H, H2, map_app, !cnt_app, Ho. destruct (Z.eqb_spec id id') as [<-|Hne].
  - rewrite (cnt_all id (map wr_id ws)); [rewrite length_map; lia|]. apply Forall_map.
    eapply Forall_impl; [exact Hws|]. by intros w [? _].
  - rewrite (cnt_none id' (map wr_id ws)); [lia|]. apply Forall_map.
    eapply Forall_impl; [exact Hws|]. intros w [-> _]. done.
Qed.

Lemma posts_elem id Q o c o' c' s w : posts id Q (o, c) (o', c') -> w ∈ c_sq c' !!! s ->
  w ∈ c_sq c !!! s \/ wr_id w = id /\ Q s w.
Proof.
  intros [_ _ _ _ _ H6] Hw. destruct (H6 s) as (ws & H & _ & Hws). cbn in H. rewrite H in Hw.
  apply elem_of_app in Hw as [?|Hw]; [by left|right]. rewrite Forall_forall in Hws. by apply Hws.
Qed.

(** ** The loops of a put *)


Lemma upd_inv {A : Type} i (x : A) l l' : upd i x l = Some l' -> (i < length l)%nat /\ l' = <[i := x]> l.
Proof.
  unfold upd. destruct (assert_ (i <? length l)%nat) as [[]|] eqn:E; [|done]. intros [= <-].
  by apply assert_inv, Nat.ltb_lt in E.
Qed.

(** The loop tactics' case analyses: one step of an option computation. *)
Ltac step_in H :=
  match type of H with
  | mbind _ ?x = Some _ => let y := fresh "y" in let E := fresh "E" in
      destruct x as [y|] eqn:E; [cbn [mbind option_bind] in H|discriminate H]
  end.

Section Put.
Context (remote_base : nat -> Z) (cfg : config) (reg_cache : bool) (Hcfg : cfg_ok remote_base cfg).

Local Abbreviation L := (dc_layout cfg).
Local Abbreviation n := (Z.to_nat (num_servers (dc_layout cfg))).
Local Abbreviation ind := (dc_indices cfg).
Local Abbreviation quorum := (dc_quorum cfg).

Lemma slot_lookup i r : ind !! i = Some r -> (i < quorum)%nat /\ (r < n)%nat.
Proof.
  intros Hr. split; [rewrite <- (cfg_indices _ _ Hcfg); by eapply lookup_lt_Some|].
  apply (cfg_servers _ _ Hcfg). by eapply list_elem_of_lookup_2.
Qed.

Lemma slot_inj i j r : ind !! i = Some r -> ind !! j = Some r -> i = j.
Proof. apply NoDup_lookup, (cfg_nodup _ _ Hcfg). Qed.

Lemma target_seq x value : 0 <= x < 2 ^ 16 -> reg_seq (target_of cfg x value) = x.
Proof.
  intros Hx. unfold target_of.
  destruct (reg_make_fields (u16 x) (u16 (dc_client_idx cfg)) (u32 value)) as (_ & _ & _ & ->);
    [apply Z.mod_pos_bound; lia..|]. unfold u16. apply Z.mod_small. lia.
Qed.

(** ** Slots *)

Definition slot_ok (mr : memory) (id : Z) (needs : list bool) (expected : list Z) (target : Z) (b i : nat) : Prop :=
  forall r nd, ind !! i = Some r -> needs !! r = Some nd ->
    ((i < b)%nat -> if nd : bool then forall e, expected !! i = Some e -> reg_seq e < reg_seq target
                    else reg_seq (mr (swap_buf cfg id r)) < reg_seq target) /\
    ((b <= i)%nat -> nd = false).

Definition slots_ok (mr : memory) (id : Z) (needs : list bool) (expected : list Z) (target : Z) : Prop :=
  exists b, forall i, slot_ok mr id needs expected target b i.

(** A slot that needs a swap expects an older register. *)
Lemma slots_ok_needs mr id needs expected target i r e :
  slots_ok mr id needs expected target -> ind !! i = Some r -> needs !! r = Some true -> expected !! i = Some e ->
  reg_seq e < reg_seq target.
Proof.
  intros (b & Hb) Hr Hn He. destruct (Hb i r true Hr Hn) as [H1 H2]. destruct (decide (i < b)%nat) as [Hlt|Hge].
  - by apply (H1 Hlt).
  - discriminate H2. lia.
Qed.

(** A change of other servers' flags and of other slots' expectations. *)
Lemma slot_ok_other mr id needs needs' expected expected' target b i :
  slot_ok mr id needs expected target b i ->
  (forall r, ind !! i = Some r -> needs' !! r = needs !! r) -> expected' !! i = expected !! i ->
  slot_ok mr id needs' expected' target b i.
Proof.
  intros H Hn He r nd Hr Hnd. rewrite He. apply H; [done|]. by rewrite <- (Hn r Hr).
Qed.

(** ** The loops *)

(** Step [ReadSeq]. *)
Lemma put_collect_inv k f c expected needs z_max c' :
  put_collect cfg f c = Some (expected, needs, z_max, c') ->
  (forall a, reg_seq (c_mr c a) <= k) -> 0 <= k ->
  same_conn c c' /\ length needs = length (pf_needs f) /\ 0 <= z_max <= k /\
  (forall i r, ind !! i = Some r -> needs !! r = Some true /\ exists e, expected !! i = Some e /\ reg_seq e <= z_max).
Proof.
  intros Hc Hm Hk. unfold put_collect in Hc.
  apply (for_loop_ind (fun i '(expected, needs, z_max, c1) => same_conn c c1 /\ length needs = length (pf_needs f) /\
      0 <= z_max <= k /\
      (forall j r, (j < i)%nat -> ind !! j = Some r ->
         needs !! r = Some true /\ exists e, expected !! j = Some e /\ reg_seq e <= z_max))) in Hc.
  - destruct Hc as (H1 & H2 & H3 & H4). split_and!; try done; [lia|lia|]. intros i r Hr. apply H4; [|done].
    destruct (slot_lookup i r Hr). lia.
  - split_and!; try done; lia.
  - intros i [[[ex nd] z] c1] t' [_ Hi] (H1 & H2 & H3 & H4) Hb.
    destruct (ind !! i) as [r|] eqn:Hr; [|done]. cbn [mbind option_bind] in Hb.
    step_in Hb. step_in Hb. injection Hb as <-. apply upd_inv in E as [Hlen ->], E0 as [Hlen' ->].
    assert (Hmr : c_mr c1 = c_mr c) by apply H1. rewrite Hmr. specialize (Hm (read_buf cfg (pf_id f) r)).
    split_and!; [by eapply same_conn_trans|by rewrite length_insert|lia|lia|].
    intros j r' Hj Hr'. destruct (decide (j = i)) as [->|Hne].
    + assert (r' = r) as -> by congruence. rewrite !list_lookup_insert_eq by done. split; [done|]. eexists. split; [done|lia].
    + destruct (H4 j r') as (Hn & e & He & Hle); [lia|done|].
      assert (r' <> r) by (intros ->; by apply Hne, (slot_inj j i r)).
      rewrite !list_lookup_insert_ne by done. split; [done|]. exists e. split; [done|lia].
Qed.

(** Step [OptimisticChain]. *)
Lemma put_optimistic_inv k f c needs expected z_max success c' :
  put_optimistic cfg f c = Some (needs, expected, z_max, success, c') ->
  (forall a, reg_seq (c_mr c a) <= k) -> reg_seq (pf_target f) <= k -> k < 2 ^ 16 ->
  (forall i e, (i < quorum)%nat -> pf_expected f !! i = Some e -> reg_seq e < reg_seq (pf_target f)) ->
  same_conn c c' /\ length needs = length (pf_needs f) /\ 0 <= z_max <= k /\
  (forall i r, ind !! i = Some r ->
     reg_seq (c_mr c (swap_buf cfg (pf_id f) r)) <= z_max /\
     (needs !! r = Some true -> forall e, expected !! i = Some e -> reg_seq e <= z_max)).
Proof.
  intros Hc Hm Ht Hk Hexp. unfold put_optimistic in Hc. pose proof (cfg_quorum _ _ Hcfg) as [Hq _].
  set (z0 := u16 (reg_seq (pf_target f) - 1)) in Hc. pose proof (reg_bounds (pf_target f)) as (_ & _ & Hts).
  assert (Hz0 : 0 <= z0 < 2 ^ 16) by (apply Z.mod_pos_bound; lia).
  assert (Hz0' : 1 <= reg_seq (pf_target f) -> z0 = reg_seq (pf_target f) - 1) by (intros; unfold z0, u16; rewrite Z.mod_small; lia).
  apply (for_loop_ind (fun i '(needs, expected, z_max, success, c1) => same_conn c c1 /\ length needs = length (pf_needs f) /\
      z0 <= z_max /\ (1 <= reg_seq (pf_target f) -> z_max <= k) /\
      ((0 < i)%nat -> 1 <= reg_seq (pf_target f)) /\
      (forall j, (i <= j)%nat -> expected !! j = pf_expected f !! j) /\
      (forall j r, (j < i)%nat -> ind !! j = Some r ->
         reg_seq (c_mr c (swap_buf cfg (pf_id f) r)) <= z_max /\
         (needs !! r = Some true -> forall e, expected !! j = Some e -> reg_seq e <= z_max)))) in Hc.
  - destruct Hc as (H1 & H2 & H3 & H4 & H5 & _ & H6). specialize (H5 ltac:(lia)). specialize (H4 H5).
    split_and!; try done; [lia|]. intros i r Hr. apply H6; [|done]. destruct (slot_lookup i r Hr). lia.
  - split_and!; try done; lia.
  - intros i [[[[nd ex] z] su] c1] t' [_ Hi] (H1 & H2 & H3 & H4 & H5 & H6 & H7) Hb.
    destruct (ind !! i) as [r|] eqn:Hr; [|done]. cbn [mbind option_bind] in Hb.
    assert (Hmr : c_mr c1 = c_mr c) by apply H1. rewrite Hmr in Hb.
    set (observed := c_mr c (swap_buf cfg (pf_id f) r)) in Hb.
    destruct (ex !! i) as [e|] eqn:He; [|done]. cbn [mbind option_bind] in Hb.
    assert (Hlt : reg_seq e < reg_seq (pf_target f)) by (apply (Hexp i); [done|by rewrite <- H6]).
    pose proof (reg_bounds e) as (_ & _ & Hes). specialize (H4 ltac:(lia)). rewrite Hz0' in H3 by lia.
    assert (Hne : forall j r', (j < S i)%nat -> j <> i -> ind !! j = Some r' -> (j < i)%nat /\ r' <> r).
    { intros j r' Hj Hji Hr'. split; [lia|]. intros ->. by apply Hji, (slot_inj j i r). }
    destruct (Z.eqb_spec observed e) as [Heq|Hneq]; step_in Hb; injection Hb as <-; apply upd_inv in E as [Hlen ->].
    + split_and!; [by eapply same_conn_trans|by rewrite length_insert|lia|lia|lia|intros j Hj; apply H6; lia|].
      intros j r' Hj Hr'. destruct (decide (j = i)) as [->|Hji].
      * assert (r' = r) as -> by congruence. fold observed. rewrite Heq. split; [lia|].
        rewrite list_lookup_insert_eq by done. done.
      * destruct (Hne j r' Hj Hji Hr') as [Hj' Hrr]. rewrite list_lookup_insert_ne by done. by apply H7.
    + specialize (Hm (swap_buf cfg (pf_id f) r)). fold observed in Hm.
      split_and!; [by eapply same_conn_trans|done|lia|lia|lia|intros j Hj; rewrite list_lookup_insert_ne by lia; apply H6; lia|].
      intros j r' Hj Hr'. destruct (decide (j = i)) as [->|Hji].
      * assert (r' = r) as -> by congruence. fold observed. split; [lia|]. intros _ e'.
        rewrite list_lookup_insert_eq by done. intros [= <-]. lia.
      * destruct (Hne j r' Hj Hji Hr') as [Hj' Hrr]. rewrite list_lookup_insert_ne by done.
        destruct (H7 j r' Hj' Hr') as [Ha Hb]. split; [lia|]. intros Hn e' He'. specialize (Hb Hn e' He'). lia.
Qed.

Lemma put_expect_inv f needs expected expected' : put_expect_target cfg f needs expected = Some expected' ->
  forall i r, ind !! i = Some r -> needs !! r = Some true -> expected' !! i = expected !! i.
Proof.
  intros H. unfold put_expect_target in H.
  apply (for_loop_ind (fun _ ex => forall i r, ind !! i = Some r -> needs !! r = Some true -> ex !! i = expected !! i)
    quorum 0 _ _ _ H); [done|].
  intros i ex ex' _ IH Hb j r Hr Hn. step_in Hb. step_in Hb.
  destruct y0; cbn [negb] in Hb; [injection Hb as <-; by eapply IH|].
  apply upd_inv in Hb as [Hlen ->]. rewrite list_lookup_insert_ne; [by eapply IH|].
  intros ->. congruence.
Qed.

(** The inner loop of step [CAS]. *)
Lemma put_reset_inv f c needs expected needs' expected' :
  put_reset cfg f c needs expected = Some (needs', expected') ->
  length needs' = length needs /\
  forall i r, ind !! i = Some r ->
    needs' !! r = Some true /\ expected' !! i = Some (c_mr c (swap_buf cfg (pf_id f) r)).
Proof.
  intros H. unfold put_reset in H.
  apply (for_loop_ind (fun i '(nd, ex) => length nd = length needs /\
    forall j r, (j < i)%nat -> ind !! j = Some r ->
      nd !! r = Some true /\ ex !! j = Some (c_mr c (swap_buf cfg (pf_id f) r)))) in H.
  - destruct H as [H1 H2]. split; [done|]. intros i r Hr. apply H2; [|done]. destruct (slot_lookup i r Hr). lia.
  - split; [done|lia].
  - intros i [nd ex] t' [_ Hi] (H1 & H2) Hb. destruct (ind !! i) as [r|] eqn:Hr; [|done]. cbn [mbind option_bind] in Hb.
    step_in Hb. step_in Hb. injection Hb as <-. apply upd_inv in E as [Hlen ->], E0 as [Hlen' ->].
    split; [by rewrite length_insert|]. intros j r' Hj Hr'. destruct (decide (j = i)) as [->|Hji].
    + assert (r' = r) as -> by congruence. by rewrite !list_lookup_insert_eq.
    + rewrite !list_lookup_insert_ne by (done || intros ->; by apply Hji, (slot_inj j i r')). apply H2; [lia|done].
Qed.

(** Step [CAS].  Until a reset, the slots before [i] have an older register in
    their swap buffer than the target; after a reset at slot [b - 1], the slots
    from [i] on compare equal and need no swap. *)
Definition check_slots (mr : memory) (id : Z) (i : nat) (needs : list bool) (expected : list Z) (target : Z) : Prop :=
  (exists b, (forall j, slot_ok mr id needs expected target b j) /\
     forall j r, (j < i)%nat -> (j < b)%nat -> ind !! j = Some r -> reg_seq (mr (swap_buf cfg id r)) < reg_seq target) \/
  (exists b, (b <= i)%nat /\ (forall j, (j < i)%nat -> slot_ok mr id needs expected target b j) /\
     forall j r, (i <= j)%nat -> ind !! j = Some r ->
       needs !! r = Some true /\ expected !! j = Some (mr (swap_buf cfg id r))).

Lemma check_slots_success mr id i r e needs expected target :
  check_slots mr id i needs expected target -> ind !! i = Some r -> needs !! r = Some true ->
  expected !! i = Some e -> mr (swap_buf cfg id r) = e ->
  check_slots mr id (S i) (<[r := false]> needs) expected target.
Proof.
  intros H Hr Hn He Heq. pose proof (lookup_lt_Some _ _ _ Hn) as Hlen.
  assert (Hother : forall j r', j <> i -> ind !! j = Some r' -> <[r := false]> needs !! r' = needs !! r').
  { intros j r' Hj Hr'. apply list_lookup_insert_ne. intros ->. by apply Hj, (slot_inj j i r'). }
  destruct H as [(b & Hb & Hlt)|(b & Hbi & Hb & Hge)]; [left|right]; exists b.
  - assert (Hi : (i < b)%nat /\ reg_seq (mr (swap_buf cfg id r)) < reg_seq target).
    { destruct (Hb i r true Hr Hn) as [H1 H2]. destruct (decide (i < b)%nat) as [Hib|?]; [|discriminate H2; lia].
      split; [done|]. rewrite Heq. by apply (H1 Hib). }
    split.
    + intros j. destruct (decide (j = i)) as [->|Hj].
      * intros r' nd Hr' Hnd. assert (r' = r) as -> by congruence. rewrite list_lookup_insert_eq in Hnd by done.
        injection Hnd as <-. split; [intros _; apply Hi|done].
      * apply (slot_ok_other mr id needs _ expected); [apply Hb|intros r' Hr'; by apply (Hother j)|done].
    + intros j r' Hj Hjb Hr'. destruct (decide (j = i)) as [->|Hji].
      * assert (r' = r) as -> by congruence. apply Hi.
      * apply (Hlt j); [lia|done|done].
  - split; [lia|]. split.
    + intros j Hj. destruct (decide (j = i)) as [->|Hji].
      * intros r' nd Hr' Hnd. assert (r' = r) as -> by congruence. rewrite list_lookup_insert_eq in Hnd by done.
        injection Hnd as <-. split; [lia|done].
      * apply (slot_ok_other mr id needs _ expected); [apply Hb; lia|intros r' Hr'; by apply (Hother j)|done].
    + intros j r' Hj Hr'. rewrite (Hother j r') by (done || lia). apply Hge; [lia|done].
Qed.

(** Before a reset, when a swap fails. *)
Lemma check_slots_failing mr id i r e needs expected target :
  check_slots mr id i needs expected target -> ind !! i = Some r -> needs !! r = Some true ->
  expected !! i = Some e -> mr (swap_buf cfg id r) <> e ->
  exists b, (i < b)%nat /\ (forall j, slot_ok mr id needs expected target b j) /\
    forall j r, (j < i)%nat -> ind !! j = Some r -> reg_seq (mr (swap_buf cfg id r)) < reg_seq target.
Proof.
  intros [(b & Hb & Hlt)|(b & Hbi & Hb & Hge)] Hr Hn He Hne.
  - assert (Hib : (i < b)%nat).
    { destruct (decide (i < b)%nat) as [|Hge]; [done|]. destruct (Hb i r true Hr Hn) as [_ H]. discriminate H. lia. }
    exists b. split_and!; [done|done|]. intros j r' Hj Hr'. apply (Hlt j); [done|lia|done].
  - destruct (Hge i r) as [_ He']; [lia|done|]. congruence.
Qed.

(** A swap that failed on an older register: expect that one. *)
Lemma check_slots_failure mr id i r e needs expected target :
  check_slots mr id i needs expected target -> ind !! i = Some r -> needs !! r = Some true ->
  expected !! i = Some e -> mr (swap_buf cfg id r) <> e -> reg_seq (mr (swap_buf cfg id r)) < reg_seq target ->
  check_slots mr id (S i) needs (<[i := mr (swap_buf cfg id r)]> expected) target.
Proof.
  intros H Hr Hn He Hne Hobs. destruct (check_slots_failing _ _ _ _ _ _ _ _ H Hr Hn He Hne) as (b & Hib & Hb & Hlt).
  pose proof (lookup_lt_Some _ _ _ He) as Hlen. left. exists b. split.
  - intros j. destruct (decide (j = i)) as [->|Hji].
    + intros r' nd Hr' Hnd. assert (r' = r) as -> by congruence. rewrite Hn in Hnd. injection Hnd as <-.
      split; [|lia]. intros _ e'. rewrite list_lookup_insert_eq by done. by intros [= <-].
    + apply (slot_ok_other mr id needs _ expected); [apply Hb|done|by rewrite list_lookup_insert_ne].
  - intros j r' Hj _ Hr'. destruct (decide (j = i)) as [->|Hji]; [by assert (r' = r) as -> by congruence|].
    apply (Hlt j); [lia|done].
Qed.

(** A swap that failed on a register as new as the target: everything is reset
    for a newer target. *)
Lemma check_slots_reset mr id i r e needs expected target needs' expected' target' :
  check_slots mr id i needs expected target -> ind !! i = Some r -> needs !! r = Some true ->
  expected !! i = Some e -> mr (swap_buf cfg id r) <> e -> reg_seq target <= reg_seq (mr (swap_buf cfg id r)) ->
  reg_seq (mr (swap_buf cfg id r)) < reg_seq target' ->
  (forall j r, ind !! j = Some r -> needs' !! r = Some true /\ expected' !! j = Some (mr (swap_buf cfg id r))) ->
  check_slots mr id (S i) needs' expected' target'.
Proof.
  intros H Hr Hn He Hne Hge Hnew Hall. destruct (check_slots_failing _ _ _ _ _ _ _ _ H Hr Hn He Hne) as (b & Hib & Hb & Hlt).
  right. exists (S i). split; [lia|]. split; [|intros j r' _; apply Hall].
  intros j Hj r' nd Hr' Hnd. destruct (Hall j r' Hr') as [Hn' He']. rewrite Hn' in Hnd. injection Hnd as <-.
  split; [|lia]. intros _ e'. rewrite He'. intros [= <-]. destruct (decide (j = i)) as [->|Hji].
  - by assert (r' = r) as -> by congruence.
  - assert (reg_seq (mr (swap_buf cfg id r')) < reg_seq target) by (apply (Hlt j); [lia|done]). lia.
Qed.

Lemma put_check_inv k f c needs expected target success c' :
  put_check cfg f c = Some (needs, expected, target, success, c') ->
  (forall a, reg_seq (c_mr c a) <= k) -> 0 <= k -> k + 1 < 2 ^ 16 -> reg_seq (pf_target f) <= k ->
  slots_ok (c_mr c) (pf_id f) (pf_needs f) (pf_expected f) (pf_target f) ->
  same_conn c c' /\ length needs = length (pf_needs f) /\ reg_seq target <= k + 1 /\
  slots_ok (c_mr c) (pf_id f) needs expected target.
Proof.
  intros Hc Hm Hk0 Hk Ht (b & Hb). unfold put_check in Hc.
  apply (for_loop_ind (fun i '(needs, expected, target, success, c1) => same_conn c c1 /\
      length needs = length (pf_needs f) /\ reg_seq target <= k + 1 /\
      check_slots (c_mr c) (pf_id f) i needs expected target)) in Hc.
  - destruct Hc as (H1 & H2 & H3 & H4). split_and!; try done. destruct H4 as [(b' & Hb' & _)|(b' & Hbi & Hb' & _)].
    + by exists b'.
    + exists b'. intros i. destruct (decide (i < quorum)%nat) as [Hi|Hi]; [by apply Hb'|].
      intros r nd Hr. destruct (slot_lookup i r Hr). lia.
  - split_and!; [done|done|lia|]. left. exists b. split; [done|lia].
  - intros i [[[[nd ex] tg] su] c1] t' [_ Hi] (H1 & H2 & H3 & H4) Hbd.
    destruct (ind !! i) as [r|] eqn:Hr; [|done]. cbn [mbind option_bind] in Hbd.
    destruct (nd !! r) as [need|] eqn:Hn; [|done]. cbn [mbind option_bind] in Hbd.
    assert (Hmr : c_mr c1 = c_mr c) by apply H1. destruct need; cbn [negb] in Hbd.
    2: { injection Hbd as <-. split_and!; try done. destruct H4 as [(b' & Hb' & Hlt)|(b' & Hbi & Hb' & Hge)].
         - left. exists b'. split; [done|]. intros j r' Hj Hjb Hr'. destruct (decide (j = i)) as [->|Hji]; [|apply (Hlt j); [lia|done|done]].
           assert (r' = r) as -> by congruence. by apply (Hb' i r false Hr Hn).
         - destruct (Hge i r) as [Hn' _]; [lia|done|]. congruence. }
    destruct (ex !! i) as [e|] eqn:He; [|done]. cbn [mbind option_bind] in Hbd. rewrite Hmr in Hbd.
    set (observed := c_mr c (swap_buf cfg (pf_id f) r)) in Hbd.
    destruct (Z.eqb_spec observed e) as [Heq|Hne].
    + step_in Hbd. injection Hbd as <-. apply upd_inv in E as [Hlen ->].
      split_and!; [done|by rewrite length_insert|done|]. by eapply check_slots_success.
    + step_in Hbd. apply upd_inv in E as [Hlen ->]. specialize (Hm (swap_buf cfg (pf_id f) r)). fold observed in Hm.
      destruct (Z.leb_spec (reg_seq tg) (reg_seq observed)) as [Hge|Hlt].
      * step_in Hbd. destruct y as [nd' ex']. injection Hbd as <-. apply put_reset_inv in E as [Hl Hall].
        pose proof (reg_bounds observed) as (_ & _ & Hs).
        assert (Hts : reg_seq (target_of cfg (reg_seq observed + 1) (pf_value f)) = reg_seq observed + 1) by (apply target_seq; lia).
        split_and!; [by eapply same_conn_trans|congruence|lia|].
        apply (check_slots_reset _ _ _ r e nd ex tg); try done; [fold observed; lia|].
        intros j r' Hr'. destruct (Hall j r' Hr') as [-> ->]. cbn. by rewrite Hmr.
      * injection Hbd as <-. split_and!; [by eapply same_conn_trans|done|done|].
        by apply (check_slots_failure _ _ _ _ e).
Qed.
End Put.
