(* ===== verification/DsConcInv.v ===== *)
(** * DsConcInv: the invariant of a client among others

    What holds of a client's connections and futures after any events of the
    deployment, when no sequence number is above [k]: its requests are well
    formed, every compare-and-swap it has in flight gives a register that is at
    least as new as the one it expects, the futures count their requests, and
    the slots of every put satisfy the invariant of DsConc.  The second part shows
    that the steps of the futures keep it. *)

From S2P Require Import Prelude Prog DsRegister Latency DsNet DsFutures DsLayout DsClient DsMain.
From S2P Require Import DsAlone DsConc.

Local Open Scope Z_scope.

Section Inv.
Context (remote_base : nat -> Z) (cfg : config) (reg_cache writeback : bool) (Hcfg : cfg_ok remote_base cfg).

Local Abbreviation L := (dc_layout cfg).
Local Abbreviation n := (Z.to_nat (num_servers (dc_layout cfg))).
Local Abbreviation p := (Z.to_nat (async_parallelism (dc_layout cfg))).
Local Abbreviation ind := (dc_indices cfg).
Local Abbreviation quorum := (dc_quorum cfg).

(** A request of future [id] to server [s]. *)
Definition op_wr (k id : Z) (s : nat) (w : wr) : Prop :=
  wr_op_ w = RdmaRead (read_buf cfg id s) 1 \/
  exists e t, wr_op_ w = RdmaCas (swap_buf cfg id s) e t /\ reg_tag e <= reg_tag t /\ reg_seq t <= k.

Definition range_wr (id : Z) (s : nat) (w : wr) : Prop :=
  exists len, wr_op_ w = RdmaRead (bulk_buf cfg id s 0) len /\ Z.of_nat len <= max_range L.

Definition wr_ok (k : Z) (s : nat) (w : wr) : Prop :=
  exists id, 0 <= id < async_parallelism L /\
    (wr_id w = id /\ op_wr k id s w \/ wr_id w = Z.lor id RANGE_BIT /\ range_wr id s w).

Record conn_ok (k : Z) (c : client) : Prop := {
  conn_sq : length (c_sq c) = n;
  conn_cq : length (c_cq c) = n;
  conn_mem a : reg_seq (c_mr c a) <= k;
  conn_cache x : x ∈ rc_data (c_cache c) -> reg_seq x <= k;
  conn_wr s w : (s < n)%nat -> w ∈ c_sq c !!! s -> wr_ok k s w;
}.

(** ** Futures *)

Definition put_inv (k : Z) (c : client) (f : put_future) : Prop :=
  match pf_step f with
  | PReadSeq | PDone => True
  | POptimisticChain =>
      reg_seq (pf_target f) <= k /\
      forall i e, (i < quorum)%nat -> pf_expected f !! i = Some e -> reg_seq e < reg_seq (pf_target f)
  | PCas =>
      reg_seq (pf_target f) <= k /\
      slots_ok cfg (c_mr c) (pf_id f) (pf_needs f) (pf_expected f) (pf_target f) /\
      forall s w, (s < n)%nat -> w ∈ c_sq c !!! s -> wr_id w = pf_id f -> pf_needs f !! s = Some true
  end.

Definition get_inv (k : Z) (f : get_future) : Prop := gf_step f = GReading -> reg_seq (gf_max_reg f) <= k.

Definition all_zero (o : list Z) : Prop := forall s, (s < n)%nat -> o !!! s = 0.

Record op_inv (k : Z) (c : client) (idx : nat) (f : op_future) : Prop := {
  oi_gid : gf_id (of_get f) = Z.of_nat idx;
  oi_pid : pf_id (of_put f) = Z.of_nat idx;
  oi_glen : length (gf_ongoing (of_get f)) = n;
  oi_plen : length (pf_ongoing (of_put f)) = n;
  oi_kind : of_kind f <> KRange;
  oi_gdone : gf_step (of_get f) = GDone -> all_zero (gf_ongoing (of_get f));
  oi_pdone : pf_step (of_put f) = PDone -> all_zero (pf_ongoing (of_put f));
  oi_gother : of_kind f <> KGet -> gf_step (of_get f) = GDone;
  oi_pother : of_kind f <> KPut -> pf_step (of_put f) = PDone;
  oi_flight s : (s < n)%nat ->
    in_flight c (Z.of_nat idx) s = gf_ongoing (of_get f) !!! s + pf_ongoing (of_put f) !!! s;
  oi_get : get_inv k (of_get f);
  oi_put : put_inv k c (of_put f);
}.

Definition range_inv (idx : nat) (f : range_future) : Prop :=
  rf_id f = Z.of_nat idx /\ (rf_step f = RReading -> 0 <= rf_range_len f <= max_range L).

Record client_inv (k : Z) (d : ds_client) : Prop := {
  ci_conn : conn_ok k (d_cl d);
  ci_length : length (d_futures d) = p;
  ci_range_length : length (d_range_futures d) = p;
  ci_op idx f : d_futures d !! idx = Some f -> op_inv k (d_cl d) idx f;
  ci_range idx f : d_range_futures d !! idx = Some f -> range_inv idx f;
}.

(** ** More sequence numbers *)

Lemma wr_ok_mono k k' s w : k <= k' -> wr_ok k s w -> wr_ok k' s w.
Proof.
  intros Hk (id & Hid & [[H1 H2]|H]); exists id; (split; [done|]); [left|by right]. split; [done|].
  destruct H2 as [?|(e & t & ? & ? & ?)]; [by left|right]. exists e, t. split_and!; [done|done|lia].
Qed.

Lemma conn_ok_mono k k' c : k <= k' -> conn_ok k c -> conn_ok k' c.
Proof.
  intros Hk [H1 H2 H3 H4 H5]. split; try done.
  - intros a. specialize (H3 a). lia.
  - intros x Hx. specialize (H4 x Hx). lia.
  - intros s w Hs Hw. eapply wr_ok_mono; [exact Hk|]. by apply H5.
Qed.

Lemma put_inv_mono k k' c f : k <= k' -> put_inv k c f -> put_inv k' c f.
Proof. unfold put_inv. intros Hk. destruct (pf_step f); try done; intros [? ?]; split; [lia|done|lia|done]. Qed.

Lemma op_inv_mono k k' c idx f : k <= k' -> op_inv k c idx f -> op_inv k' c idx f.
Proof.
  intros Hk []. split; try done.
  - intros Hs. specialize (oi_get0 Hs). lia.
  - by eapply put_inv_mono.
Qed.

Lemma client_inv_mono k k' d : k <= k' -> client_inv k d -> client_inv k' d.
Proof.
  intros Hk [H1 H2 H3 H4 H5]. split; try done; [by eapply conn_ok_mono|].
  intros idx f Hf. eapply op_inv_mono; [exact Hk|]. by apply H4.
Qed.

(** ** What the futures of a client do not see of each other *)

(** From [c] to [c'], only what the other futures use changed. *)
Record frame (id : Z) (c c' : client) : Prop := {
  frame_mr r : (r < n)%nat -> c_mr c' (swap_buf cfg id r) = c_mr c (swap_buf cfg id r);
  frame_sq s w : (s < n)%nat -> w ∈ c_sq c' !!! s -> wr_id w = id -> w ∈ c_sq c !!! s;
  frame_flight s : (s < n)%nat -> in_flight c' id s = in_flight c id s;
}.

Lemma slots_ok_frame mr mr' id needs expected target :
  (forall r, (r < n)%nat -> needs !! r = Some false -> mr' (swap_buf cfg id r) = mr (swap_buf cfg id r)) ->
  slots_ok cfg mr id needs expected target -> slots_ok cfg mr' id needs expected target.
Proof.
  intros Hm (b & Hb). exists b. intros i r nd Hr Hnd. destruct (slot_lookup remote_base cfg Hcfg i r Hr) as [Hi Hrn].
  destruct (Hb i r nd Hr Hnd) as [H1 H2]. split; [|done]. destruct nd; [done|]. by rewrite Hm.
Qed.

Lemma put_inv_frame k c c' f : frame (pf_id f) c c' -> put_inv k c f -> put_inv k c' f.
Proof.
  intros [F1 F2 F3]. unfold put_inv. destruct (pf_step f); try done. intros (H1 & H2 & H3). split_and!; [done| |].
  - eapply slots_ok_frame; [|done]. auto.
  - intros s w Hs Hw Hid. apply (H3 s w Hs); [by apply F2|done].
Qed.

Lemma op_inv_frame k c c' idx f : frame (Z.of_nat idx) c c' -> op_inv k c idx f -> op_inv k c' idx f.
Proof.
  intros F []. split; try done.
  - intros s Hs. rewrite (frame_flight _ _ _ F s Hs). auto.
  - eapply put_inv_frame; [|done]. by rewrite oi_pid0.
Qed.

Lemma frame_posts id id' Q o c o' c' : posts id Q (o, c) (o', c') -> id <> id' -> frame id' c c'.
Proof.
  intros P Hne. split.
  - intros r _. pose proof (posts_mr _ _ _ _ P) as H. cbn in H. by rewrite H.
  - intros s w _ Hw Hid. destruct (posts_elem _ _ _ _ _ _ _ _ P Hw) as [?|[? _]]; [done|congruence].
  - intros s _. rewrite (posts_in_flight _ _ _ _ _ _ s id' P). rewrite (proj2 (Z.eqb_neq _ _) Hne). lia.
Qed.

Lemma frame_same id c c' : same_conn c c' -> frame id c c'.
Proof.
  intros (H1 & H2 & H3 & _). split; [by rewrite H1|by rewrite H2|]. intros s _. unfold in_flight. by rewrite H2, H3.
Qed.

Lemma cframe_trans id c1 c2 c3 : frame id c1 c2 -> frame id c2 c3 -> frame id c1 c3.
Proof.
  intros [A1 A2 A3] [B1 B2 B3]. split.
  - intros r Hr. by rewrite B1, A1.
  - intros s w Hs Hw Hid. apply A2; [done| |done]. by apply B2.
  - intros s Hs. by rewrite B3, A3.
Qed.

(** ** Connections after posting *)

Lemma conn_ok_posts k id (Q : nat -> wr -> Prop) o c o' c' :
  conn_ok k c -> posts id Q (o, c) (o', c') ->
  (forall r w, (r < n)%nat -> wr_id w = id -> Q r w -> wr_ok k r w) -> conn_ok k c'.
Proof.
  intros [H1 H2 H3 H4 H5] P HQ. pose proof P as [P1 P2 P3 P4 P5 P6]. cbn in *. split.
  - by rewrite P4.
  - by rewrite P2.
  - intros a. by rewrite P1.
  - intros x. rewrite P3. apply H4.
  - intros s w Hs Hw. destruct (posts_elem _ _ _ _ _ _ _ _ P Hw) as [?|[? ?]]; auto.
Qed.

Lemma conn_ok_same k c c' : conn_ok k c -> same_conn c c' -> conn_ok k c'.
Proof. intros [H1 H2 H3 H4 H5] (E1 & E2 & E3 & E4). split; rewrite ?E1, ?E2, ?E3, ?E4; done. Qed.

Lemma cache_put_inv key reg c c' :
  cache_put key reg c = Some c' -> forall x, x ∈ rc_data c' -> x = reg \/ x ∈ rc_data c.
Proof.
  unfold cache_put. intros H. step_in H. step_in H. injection H as <-. intros x.
  cbn [rc_data]. intros (i & Hi)%list_elem_of_lookup. apply list_lookup_insert_Some in Hi as [(_ & <- & _)|[_ Hi]]; [by left|right].
  by eapply list_elem_of_lookup_2.
Qed.

Lemma cache_get_inv key c reg : cache_get key c = Some (Some reg) -> reg ∈ rc_data c.
Proof.
  unfold cache_get. intros H. step_in H. step_in H. destruct y0; [|done]. step_in H. injection H as <-.
  by eapply list_elem_of_lookup_2.
Qed.

(** Caching a register of bounded sequence number. *)
Lemma conn_ok_cache k c key reg c' :
  conn_ok k c -> reg_seq reg <= k ->
  (if reg_cache then x ← cache_put key reg (c_cache c); Some (with_cache x c) else Some c) = Some c' ->
  conn_ok k c' /\ c_mr c' = c_mr c /\ c_sq c' = c_sq c /\ c_cq c' = c_cq c.
Proof.
  intros Hc Hr H. destruct reg_cache; [|injection H as <-; done].
  destruct (cache_put key reg (c_cache c)) as [x|] eqn:Hp; [|done]. injection H as <-. split; [|done].
  destruct Hc as [H1 H2 H3 H4 H5]. split; try done. cbn. intros y Hy.
  destruct (cache_put_inv _ _ _ _ Hp y Hy) as [->|?]; auto.
Qed.
End Inv.

(** * The steps of a client preserve its invariant

    Starting and stepping gets, puts and scans, polling, and the execution of
    a client's requests, each from a client that satisfies the invariant of
    DsConcInv to one that does. *)

Lemma not_ongoing o s : some_ongoing o = false -> (s < length o)%nat -> o !!! s <= 0.
Proof.
  intros H Hs. destruct (lookup_lt_is_Some_2 o s Hs) as [x Hx]. rewrite (list_lookup_total_correct _ _ _ Hx).
  unfold some_ongoing in H. destruct (Z.ltb_spec 0 x) as [Hlt|]; [|done].
  assert (existsb (fun x => 0 <? x) o = true); [|congruence].
  apply existsb_exists. exists x. split; [|by apply Z.ltb_lt]. apply list_elem_of_In. by eapply list_elem_of_lookup_2.
Qed.

Lemma with_cnt_same f c : same_conn c (with_cnt f c).
Proof. done. Qed.

Lemma with_prof_same q c : same_conn c (with_prof q c).
Proof. done. Qed.

Lemma seq_tag e t : reg_seq e < reg_seq t -> reg_tag e <= reg_tag t.
Proof. intros H. unfold reg_tag. pose proof (reg_bounds e). pose proof (reg_bounds t). lia. Qed.

Section Step.
Context (remote_base : nat -> Z) (cfg : config) (reg_cache writeback : bool) (Hcfg : cfg_ok remote_base cfg).

Local Abbreviation L := (dc_layout cfg).
Local Abbreviation n := (Z.to_nat (num_servers (dc_layout cfg))).
Local Abbreviation p := (Z.to_nat (async_parallelism (dc_layout cfg))).
Local Abbreviation ind := (dc_indices cfg).
Local Abbreviation quorum := (dc_quorum cfg).

(** ** Posting loops *)

(** Reads of one register. *)
Definition read_wr (id : Z) (r : nat) (w : wr) : Prop := wr_op_ w = RdmaRead (read_buf cfg id r) 1.

(** Compare-and-swaps to the target of the servers that need one. *)
Definition cas_wr (id : Z) (needs : list bool) (expected : list Z) (target : Z) (r : nat) (w : wr) : Prop :=
  needs !! r = Some true /\
  exists i e, ind !! i = Some r /\ expected !! i = Some e /\ wr_op_ w = RdmaCas (swap_buf cfg id r) e target.

Lemma post_reads_posts id key o c o' c' :
  post_reads remote_base cfg id key (o, c) = Some (o', c') -> posts id (read_wr id) (o, c) (o', c').
Proof.
  intros H. apply (posts_loop _ _ _ _ _ _ H). intros i [o1 c1] t' _ Hb. step_in Hb. step_in Hb. step_in Hb.
  injection Hb as <-. pose proof (posts_one id (read_wr id) y _ o1 c1 _ _ (fun x => x) E0 E1 eq_refl eq_refl) as Hp.
  by destruct y0.
Qed.

Lemma postCas_posts f needs expected target c o' c' :
  postCas remote_base cfg f needs expected target c = Some (o', c') ->
  posts (pf_id f) (cas_wr (pf_id f) needs expected target) (pf_ongoing f, c) (o', c').
Proof.
  intros H. apply (posts_loop _ _ _ _ _ _ H). intros i [o1 c1] t' _ Hb. step_in Hb. step_in Hb.
  destruct y0; cbn [negb] in Hb; [|injection Hb as <-; by apply posts_refl].
  step_in Hb. step_in Hb. step_in Hb. injection Hb as <-.
  apply (posts_one _ _ y _ o1 c1 _ _ countCasAttempt E2 E3 eq_refl). split; [done|]. by exists i, y0.
Qed.

Lemma postWriteback_posts f c o' c' :
  postWriteback remote_base cfg f c = Some (o', c') ->
  posts (gf_id f) (fun r w => exists i e, (i < quorum)%nat /\ gf_expected f !! i = Some e /\
    wr_op_ w = RdmaCas (swap_buf cfg (gf_id f) r) e (gf_max_reg f)) (gf_ongoing f, c) (o', c').
Proof.
  intros H. apply (posts_loop _ _ _ _ _ _ H). intros i [o1 c1] t' Hi Hb. step_in Hb.
  destruct (y =? gf_max_reg f); [injection Hb as <-; by apply posts_refl|].
  step_in Hb. step_in Hb. step_in Hb. injection Hb as <-.
  apply (posts_one _ _ y0 _ o1 c1 _ _ countCasAttempt E1 E2 eq_refl). by exists i, y.
Qed.

(** ** A get *)

Lemma get_collect_inv k f c expected m count c' :
  get_collect cfg f c = Some (expected, m, count, c') ->
  (forall a, reg_seq (c_mr c a) <= k) -> reg_seq (gf_max_reg f) <= k ->
  same_conn c c' /\ reg_seq m <= k /\
  forall i e, (i < quorum)%nat -> expected !! i = Some e -> reg_tag e <= reg_tag m.
Proof.
  intros H Hm Hmax. unfold get_collect in H.
  apply (for_loop_ind (fun i '(ex, m, _, c1) => same_conn c c1 /\ reg_seq m <= k /\
    forall j e, (j < i)%nat -> ex !! j = Some e -> reg_tag e <= reg_tag m)) in H; [done|split_and!; [done|done|lia]|].
  intros i [[[ex m1] co] c1] t' _ (H1 & H2 & H3) Hb. step_in Hb. step_in Hb. apply upd_inv in E0 as [Hlen ->].
  assert (Hmr : c_mr c1 = c_mr c) by apply H1. rewrite Hmr in Hb.
  set (reg := c_mr c (read_buf cfg (gf_id f) y)) in Hb. specialize (Hm (read_buf cfg (gf_id f) y)). fold reg in Hm.
  assert (Hnew : forall m2, reg_tag m1 <= reg_tag m2 -> reg_tag reg <= reg_tag m2 ->
    forall j e, (j < S i)%nat -> <[i := reg]> ex !! j = Some e -> reg_tag e <= reg_tag m2).
  { intros m2 Hle Hr j e Hj He. destruct (decide (j = i)) as [->|Hji].
    - rewrite list_lookup_insert_eq in He by done. by injection He as <-.
    - rewrite list_lookup_insert_ne in He by done. specialize (H3 j e ltac:(lia) He). lia. }
  rewrite reg_lt_tag in Hb.
  destruct (Z.ltb_spec (reg_tag m1) (reg_tag reg)); [|destruct (reg =? m1)];
    injection Hb as <-; (split_and!; [by eapply same_conn_trans|done|]); apply Hnew; lia.
Qed.

Lemma get_measure_same f now c c' : get_measure f now c = Some c' -> same_conn c c'.
Proof.
  unfold get_measure, addGetMeasurement. destruct (gf_measuring f); intros H; [|by injection H as <-].
  step_in H. by injection H as <-.
Qed.

(** What the step of a future gives: the client's invariant, the future's, and
    the other futures' view of the client unchanged. *)
Definition stepped (k : Z) (idx : nat) (c c' : client) (f' : op_future) : Prop :=
  conn_ok cfg k c' /\ op_inv cfg k c' idx f' /\ forall id, id <> Z.of_nat idx -> frame cfg id c c'.

(** No request of an active future is in flight once its counts allow a step. *)
Lemma get_idle k c idx f : op_inv cfg k c idx f -> of_kind f = KGet -> some_ongoing (gf_ongoing (of_get f)) = false ->
  all_zero cfg (gf_ongoing (of_get f)) /\ all_zero cfg (pf_ongoing (of_put f)) /\
  forall s, (s < n)%nat -> in_flight c (Z.of_nat idx) s = 0.
Proof.
  intros H Hk Hs. assert (Hz : all_zero cfg (pf_ongoing (of_put f))).
  { apply (oi_pdone _ _ _ _ _ H), (oi_pother _ _ _ _ _ H). by rewrite Hk. }
  assert (Hg : forall s, (s < n)%nat -> gf_ongoing (of_get f) !!! s = 0 /\ in_flight c (Z.of_nat idx) s = 0).
  { intros s Hsn. pose proof (oi_flight _ _ _ _ _ H s Hsn) as Hf. rewrite (Hz s Hsn) in Hf.
    pose proof (in_flight_nonneg c (Z.of_nat idx) s).
    pose proof (not_ongoing _ s Hs ltac:(by rewrite (oi_glen _ _ _ _ _ H))). lia. }
  split_and!; [|done|]; intros s Hsn; by apply Hg.
Qed.

Lemma put_idle k c idx f : op_inv cfg k c idx f -> of_kind f = KPut -> some_ongoing (pf_ongoing (of_put f)) = false ->
  all_zero cfg (pf_ongoing (of_put f)) /\ all_zero cfg (gf_ongoing (of_get f)) /\
  forall s, (s < n)%nat -> in_flight c (Z.of_nat idx) s = 0.
Proof.
  intros H Hk Hs. assert (Hz : all_zero cfg (gf_ongoing (of_get f))).
  { apply (oi_gdone _ _ _ _ _ H), (oi_gother _ _ _ _ _ H). by rewrite Hk. }
  assert (Hg : forall s, (s < n)%nat -> pf_ongoing (of_put f) !!! s = 0 /\ in_flight c (Z.of_nat idx) s = 0).
  { intros s Hsn. pose proof (oi_flight _ _ _ _ _ H s Hsn) as Hf. rewrite (Hz s Hsn) in Hf.
    pose proof (in_flight_nonneg c (Z.of_nat idx) s).
    pose proof (not_ongoing _ s Hs ltac:(by rewrite (oi_plen _ _ _ _ _ H))). lia. }
  split_and!; [|done|]; intros s Hsn; by apply Hg.
Qed.

(** A get that posts requests, or none, and whose put is done. *)
Lemma get_posted k c idx f g o' c1 c' (Q : nat -> wr -> Prop) :
  op_inv cfg k c idx f -> conn_ok cfg k c1 -> pf_step (of_put f) = PDone -> (idx < p)%nat ->
  (forall s, (s < n)%nat -> in_flight c (Z.of_nat idx) s = gf_ongoing (of_get f) !!! s) ->
  (forall id, frame cfg id c c1) ->
  posts (Z.of_nat idx) Q (gf_ongoing (of_get f), c1) (o', c') ->
  (forall r w, (r < n)%nat -> Q r w -> op_wr cfg k (Z.of_nat idx) r w) ->
  gf_id g = Z.of_nat idx -> gf_ongoing g = o' -> get_inv k g -> (gf_step g = GDone -> all_zero cfg o') ->
  stepped k idx c c' (OpFuture KGet g (of_put f) (of_range f)).
Proof.
  intros H Hc1 Hpd Hidx Hfl Hfr P HQ Hid Ho Hg Hdone.
  assert (Hframe : forall id, id <> Z.of_nat idx -> frame cfg id c c').
  { intros id Hne. eapply cframe_trans; [apply Hfr|]. apply (frame_posts cfg _ _ _ _ _ _ _ P). congruence. }
  split; [|split; [|done]].
  - apply (conn_ok_posts cfg k _ _ _ _ _ _ Hc1 P). intros r w Hr Hw HQw. exists (Z.of_nat idx). split; [lia|]. left. auto.
  - split; cbn [of_get of_put of_kind]; try done.
    + apply (oi_pid _ _ _ _ _ H).
    + rewrite Ho. pose proof (posts_length _ _ _ _ P) as Hl. cbn in Hl. rewrite Hl. apply (oi_glen _ _ _ _ _ H).
    + apply (oi_plen _ _ _ _ _ H).
    + rewrite Ho. exact Hdone.
    + apply (oi_pdone _ _ _ _ _ H).
    + intros s Hs. rewrite (posts_in_flight _ _ _ _ _ _ s _ P), Z.eqb_refl, Ho.
      rewrite (frame_flight _ _ _ _ (Hfr (Z.of_nat idx)) s Hs), Hfl by done.
      rewrite (oi_pdone _ _ _ _ _ H Hpd s Hs). lia.
    + unfold put_inv. by rewrite Hpd.
Qed.

Lemma get_step_inv k idx now f c b g' c' :
  get_tryStepForward remote_base cfg reg_cache writeback now (of_get f) c = Some (b, g', c') ->
  conn_ok cfg k c -> op_inv cfg k c idx f -> of_kind f = KGet -> (idx < p)%nat ->
  stepped k idx c c' (OpFuture KGet g' (of_put f) (of_range f)).
Proof.
  intros H Hc Hf Hk Hidx.
  assert (Hpd : pf_step (of_put f) = PDone) by (apply (oi_pother _ _ _ _ _ Hf); by rewrite Hk).
  assert (Hsame : forall c1, conn_ok cfg k c1 -> (forall id, frame cfg id c c1) -> stepped k idx c c1 f).
  { intros c1 Hc1 Hfr. split_and!; [done| |auto]. eapply op_inv_frame; [done|apply Hfr|done]. }
  assert (Hff : OpFuture KGet (of_get f) (of_put f) (of_range f) = f) by (destruct f; cbn in Hk; by rewrite Hk).
  unfold get_tryStepForward in H. destruct (some_ongoing (gf_ongoing (of_get f))) eqn:Hs.
  { injection H as <- <- <-. rewrite Hff. apply Hsame; [done|]. intros id. by apply frame_same. }
  destruct (get_idle k c idx f Hf Hk Hs) as (Hz & Hpz & Hfl).
  assert (Hfl' : forall s, (s < n)%nat -> in_flight c (Z.of_nat idx) s = gf_ongoing (of_get f) !!! s).
  { intros s Hsn. by rewrite Hfl, Hz. }
  destruct (gf_step (of_get f)) eqn:Hst.
  - step_in H. destruct y as [[[ex m] co] c1]. destruct (get_collect_inv k _ _ _ _ _ _ E) as (Hs1 & Hm & Hmax);
      [apply (conn_mem _ _ _ Hc)|by apply (oi_get _ _ _ _ _ Hf)|].
    pose proof (conn_ok_same cfg k c c1 Hc Hs1) as Hc1. step_in H.
    destruct (conn_ok_cache cfg reg_cache k c1 _ _ y Hc1 Hm E0) as (Hc2 & M1 & M2 & M3).
    assert (Hfr : forall id, frame cfg id c y).
    { intros id. eapply cframe_trans; [by apply frame_same|]. split; [by rewrite M1|by rewrite M2|].
      intros s _. unfold in_flight. by rewrite M2, M3. }
    set (g1 := GetFuture _ _ _ _ _ _ _ _ _ _) in H. cbv zeta in H.
    destruct (writeback && (co <? Z.of_nat quorum)).
    + step_in H. destruct y0 as [o2 c2]. injection H as <- <- <-.
      apply postWriteback_posts in E1. 
      assert (P : posts (Z.of_nat idx) (fun r w => exists i e, (i < quorum)%nat /\ ex !! i = Some e /\
        wr_op_ w = RdmaCas (swap_buf cfg (Z.of_nat idx) r) e m) (gf_ongoing (of_get f), y) (o2, c2)).
      { rewrite <- (oi_gid _ _ _ _ _ Hf). eapply posts_trans; [apply posts_refl, with_cnt_same|exact E1]. }
      eapply (get_posted k c idx f _ o2 _ c2); [done|exact Hc2|done|done|done|exact Hfr|exact P| | |done|done|done].
      * intros r w Hr (i & e & Hi & He & Hw). right. exists e, m. split; [done|]. split; [by apply (Hmax i)|done].
      * apply (oi_gid _ _ _ _ _ Hf).
    + step_in H. injection H as <- <- <-. apply get_measure_same in E1.
      eapply (get_posted k c idx f _ (gf_ongoing (of_get f)) y y0 (fun _ _ => False)); try done.
      * apply posts_refl. eapply same_conn_trans; [|exact E1]. done.
      * apply (oi_gid _ _ _ _ _ Hf).
  - step_in H. step_in H. injection H as <- <- <-. apply get_measure_same in E0.
    assert (Hs1 : same_conn c y).
    { apply (for_loop_ind (fun _ c1 => same_conn c c1) quorum 0 _ c y E); [done|].
      intros i c1 c2 _ H1 Hb. step_in Hb. destruct (y1 =? _); [by injection Hb as <-|]. step_in Hb.
      destruct (_ =? y1); injection Hb as <-; [done|by eapply same_conn_trans]. }
    eapply (get_posted k c idx f _ (gf_ongoing (of_get f)) c y0 (fun _ _ => False)); try done.
    + apply posts_refl. by eapply same_conn_trans.
    + apply (oi_gid _ _ _ _ _ Hf).
  - injection H as <- <- <-. rewrite Hff. apply Hsame; [done|]. intros id. by apply frame_same.
Qed.

(** ** A put *)

Lemma put_posted k k' c idx f g o' c1 c' (Q : nat -> wr -> Prop) :
  op_inv cfg k c idx f -> k <= k' -> conn_ok cfg k' c1 -> gf_step (of_get f) = GDone -> (idx < p)%nat ->
  (forall s, (s < n)%nat -> in_flight c (Z.of_nat idx) s = pf_ongoing (of_put f) !!! s) ->
  (forall id, frame cfg id c c1) ->
  posts (Z.of_nat idx) Q (pf_ongoing (of_put f), c1) (o', c') ->
  (forall r w, (r < n)%nat -> Q r w -> op_wr cfg k' (Z.of_nat idx) r w) ->
  pf_id g = Z.of_nat idx -> pf_ongoing g = o' -> put_inv cfg k' c' g -> (pf_step g = PDone -> all_zero cfg o') ->
  stepped k' idx c c' (OpFuture KPut (of_get f) g (of_range f)).
Proof.
  intros H Hk Hc1 Hgd Hidx Hfl Hfr P HQ Hid Ho Hg Hdone.
  assert (Hframe : forall id, id <> Z.of_nat idx -> frame cfg id c c').
  { intros id Hne. eapply cframe_trans; [apply Hfr|]. apply (frame_posts cfg _ _ _ _ _ _ _ P). congruence. }
  split; [|split; [|done]].
  - apply (conn_ok_posts cfg k' _ _ _ _ _ _ Hc1 P). intros r w Hr Hw HQw. exists (Z.of_nat idx). split; [lia|]. left. auto.
  - split; cbn [of_get of_put of_kind]; try done.
    + apply (oi_gid _ _ _ _ _ H).
    + apply (oi_glen _ _ _ _ _ H).
    + rewrite Ho. pose proof (posts_length _ _ _ _ P) as Hl. cbn in Hl. rewrite Hl. apply (oi_plen _ _ _ _ _ H).
    + apply (oi_gdone _ _ _ _ _ H).
    + rewrite Ho. exact Hdone.
    + intros s Hs. rewrite (posts_in_flight _ _ _ _ _ _ s _ P), Z.eqb_refl, Ho.
      rewrite (frame_flight _ _ _ _ (Hfr (Z.of_nat idx)) s Hs), Hfl by done.
      rewrite (oi_gdone _ _ _ _ _ H Hgd s Hs). lia.
    + intros Hst. congruence.
Qed.

(** The swaps of a put after its slots were checked. *)
Lemma put_cas_posted k c idx f c1 needs expected target success o' c' :
  op_inv cfg k c idx f -> conn_ok cfg k c -> gf_step (of_get f) = GDone -> (idx < p)%nat ->
  (forall s, (s < n)%nat -> in_flight c (Z.of_nat idx) s = 0) -> all_zero cfg (pf_ongoing (of_put f)) ->
  same_conn c c1 -> reg_seq target <= k + 1 -> slots_ok cfg (c_mr c) (Z.of_nat idx) needs expected target ->
  postCas remote_base cfg (of_put f) needs expected target c1 = Some (o', c') ->
  stepped (k + 1) idx c c' (OpFuture KPut (of_get f) (pf_with (of_put f) PCas o' needs expected target success) (of_range f)).
Proof.
  intros H Hc Hgd Hidx Hfl Hz Hs Ht Hsl Hpost. apply postCas_posts in Hpost. rewrite (oi_pid _ _ _ _ _ H) in Hpost.
  assert (Hc1 : conn_ok cfg (k + 1) c1) by (eapply conn_ok_same; [apply (conn_ok_mono cfg k); [lia|done]|done]).
  eapply (put_posted k (k + 1)); [done|lia|exact Hc1|done|done| |intros id; by apply frame_same|exact Hpost| |
    apply (oi_pid _ _ _ _ _ H)|done| |done].
  - intros s Hsn. by rewrite Hfl, Hz.
  - intros r w Hr (Hn & i & e & Hi & He & Hw). right. exists e, target. split_and!; [done| |done].
    apply seq_tag. by eapply (slots_ok_needs cfg _ _ _ _ _ i r).
  - unfold put_inv. cbn [pf_with pf_step pf_target pf_id pf_needs pf_expected]. rewrite (oi_pid _ _ _ _ _ H).
    pose proof (posts_mr _ _ _ _ Hpost) as Hmr. cbn in Hmr. destruct Hs as (Hs1 & Hs2 & _).
    rewrite Hmr, Hs1. split_and!; [done|done|]. intros s w Hsn Hw Hid.
    destruct (posts_elem _ _ _ _ _ _ _ _ Hpost Hw) as [Hold|[_ [Hn _]]]; [|done].
    exfalso. rewrite Hs2 in Hold. by apply (in_flight_pending c (Z.of_nat idx) s w (Hfl s Hsn)).
Qed.

Lemma put_done_inv k f now target c c' :
  put_done reg_cache f now target c = Some c' -> conn_ok cfg k c -> reg_seq target <= k ->
  conn_ok cfg k c' /\ c_mr c' = c_mr c /\ c_sq c' = c_sq c /\ c_cq c' = c_cq c.
Proof.
  intros H Hc Ht. unfold put_done in H. step_in H.
  destruct (conn_ok_cache cfg reg_cache k c _ _ y Hc Ht E) as (Hc2 & M1 & M2 & M3).
  destruct (pf_measuring f); [|by injection H as <-]. unfold addPutMeasurement in H. step_in H. injection H as <-.
  split; [|done]. eapply conn_ok_same; [exact Hc2|done].
Qed.

(** A put that is done. *)
Lemma put_done_posted k c idx f c1 c' needs expected target success now :
  op_inv cfg k c idx f -> conn_ok cfg k c -> gf_step (of_get f) = GDone -> (idx < p)%nat ->
  (forall s, (s < n)%nat -> in_flight c (Z.of_nat idx) s = 0) -> all_zero cfg (pf_ongoing (of_put f)) ->
  same_conn c c1 -> reg_seq target <= k + 1 -> put_done reg_cache (of_put f) now target c1 = Some c' ->
  stepped (k + 1) idx c c'
    (OpFuture KPut (of_get f) (pf_with (of_put f) PDone (pf_ongoing (of_put f)) needs expected target success) (of_range f)).
Proof.
  intros H Hc Hgd Hidx Hfl Hz Hs Ht Hd.
  assert (Hc1 : conn_ok cfg (k + 1) c1) by (eapply conn_ok_same; [apply (conn_ok_mono cfg k); [lia|done]|done]).
  destruct (put_done_inv (k + 1) _ _ _ _ _ Hd Hc1 Ht) as (Hc' & M1 & M2 & M3).
  eapply (put_posted k (k + 1) c idx f _ _ c' c' (fun _ _ => False)); try done; [lia| | |by apply posts_refl|].
  - intros s Hsn. by rewrite Hfl, Hz.
  - intros id. eapply cframe_trans; [by apply frame_same|]. split; [by rewrite M1|by rewrite M2|].
    intros s _. unfold in_flight. by rewrite M2, M3.
  - apply (oi_pid _ _ _ _ _ H).
Qed.

Lemma put_step_inv k idx now f c b g' c' :
  put_tryStepForward remote_base cfg reg_cache now (of_put f) c = Some (b, g', c') ->
  0 <= k -> k + 1 < 2 ^ 16 ->
  conn_ok cfg k c -> op_inv cfg k c idx f -> of_kind f = KPut -> (idx < p)%nat ->
  stepped (k + 1) idx c c' (OpFuture KPut (of_get f) g' (of_range f)).
Proof.
  intros H Hk0 Hk1 Hc Hf Hk Hidx.
  assert (Hgd : gf_step (of_get f) = GDone) by (apply (oi_gother _ _ _ _ _ Hf); by rewrite Hk).
  assert (Hsame : stepped (k + 1) idx c c f).
  { split_and!; [by apply (conn_ok_mono cfg k); [lia|]|by apply (op_inv_mono cfg k); [lia|]|].
    intros id _. by apply frame_same. }
  assert (Hff : OpFuture KPut (of_get f) (of_put f) (of_range f) = f) by (destruct f; cbn in Hk; by rewrite Hk).
  unfold put_tryStepForward in H. destruct (some_ongoing (pf_ongoing (of_put f))) eqn:Hs.
  { injection H as <- <- <-. by rewrite Hff. }
  destruct (put_idle k c idx f Hf Hk Hs) as (Hz & Hgz & Hfl).
  pose proof (conn_mem _ _ _ Hc) as Hm. pose proof (oi_put _ _ _ _ _ Hf) as Hinv. unfold put_inv in Hinv.
  destruct (pf_step (of_put f)) eqn:Hst.
  - step_in H. destruct y as [[[ex nd] z] c1]. step_in H. destruct y as [o2 c2]. injection H as <- <- <-.
    destruct (put_collect_inv remote_base cfg Hcfg k _ _ _ _ _ _ E Hm Hk0) as (Hs1 & Hl & Hzb & Hall).
    assert (Ht : reg_seq (target_of cfg (z + 1) (pf_value (of_put f))) = z + 1) by (apply target_seq; lia).
    eapply (put_cas_posted k c idx f c1); try done; [lia|].
    exists quorum. intros i r nd' Hr Hnd. destruct (slot_lookup remote_base cfg Hcfg i r Hr) as [Hi _].
    destruct (Hall i r Hr) as (Hn & e & He & Hle). rewrite Hn in Hnd. injection Hnd as <-.
    split; [|lia]. intros _ e'. rewrite He, Ht. intros [= <-]. lia.
  - destruct Hinv as [Ht Hexp]. step_in H. destruct y as [[[[nd ex] z] su] c1]. step_in H.
    destruct (put_optimistic_inv remote_base cfg Hcfg k _ _ _ _ _ _ _ E Hm Ht ltac:(lia) Hexp) as (Hs1 & Hl & Hzb & Hall).
    destruct (Z.of_nat quorum <=? su).
    + step_in H. injection H as <- <- <-. eapply put_done_posted; try done; lia.
    + step_in H. destruct y0 as [o2 c2]. injection H as <- <- <-.
      assert (Ht' : reg_seq (target_of cfg (z + 1) (pf_value (of_put f))) = z + 1) by (apply target_seq; lia).
      eapply (put_cas_posted k c idx f (with_cnt countRetry c1)); try done; [lia|].
      exists quorum. intros i r nd' Hr Hnd. destruct (slot_lookup remote_base cfg Hcfg i r Hr) as [Hi _].
      destruct (Hall i r Hr) as [H1 H2]. split; [|lia]. intros _. rewrite Ht'. rewrite (oi_pid _ _ _ _ _ Hf) in H1.
      destruct nd'; [|lia]. intros e. rewrite (put_expect_inv cfg _ _ _ _ E0 i r Hr Hnd). intros He.
      specialize (H2 Hnd e He). lia.
  - destruct Hinv as (Ht & Hsl & _). step_in H. destruct y as [[[[nd ex] tg] su] c1].
    destruct (put_check_inv remote_base cfg Hcfg k _ _ _ _ _ _ _ E Hm Hk0 Hk1 Ht Hsl) as (Hs1 & Hl & Ht' & Hsl').
    rewrite (oi_pid _ _ _ _ _ Hf) in Hsl'. destruct (Z.of_nat quorum <=? su).
    + step_in H. injection H as <- <- <-. by eapply put_done_posted.
    + step_in H. destruct y as [o2 c2]. injection H as <- <- <-.
      eapply (put_cas_posted k c idx f (with_cnt countRetry c1)); done.
  - injection H as <- <- <-. by rewrite Hff.
Qed.
End Step.
