(* ===== verification/DsConcNet.v ===== *)
(** * DsConcNet: starting operations, polling and executing requests

    The remaining events of a client preserve its invariant: operations start
    on futures that are done, completions are routed to the futures that
    posted them, and the network executes a request. *)

From S2P Require Import Prelude Prog DsRegister Latency DsNet DsFutures DsLayout DsClient DsMain.
From S2P Require Import DsAlone DsGetPut DsRun DsConc DsConcInv.

Local Open Scope Z_scope.

Section Start.
Context (remote_base : nat -> Z) (cfg : config) (reg_cache writeback : bool) (Hcfg : cfg_ok remote_base cfg).

Local Abbreviation L := (dc_layout cfg).
Local Abbreviation n := (Z.to_nat (num_servers (dc_layout cfg))).
Local Abbreviation p := (Z.to_nat (async_parallelism (dc_layout cfg))).
Local Abbreviation ind := (dc_indices cfg).
Local Abbreviation quorum := (dc_quorum cfg).

(** ** Gets and puts *)

Lemma op_done_idle k c idx f : op_inv cfg k c idx f -> op_isDone f = true ->
  gf_step (of_get f) = GDone /\ pf_step (of_put f) = PDone /\
  all_zero cfg (gf_ongoing (of_get f)) /\ all_zero cfg (pf_ongoing (of_put f)) /\
  forall s, (s < n)%nat -> in_flight c (Z.of_nat idx) s = 0.
Proof.
  intros H Hd. assert (Hs : gf_step (of_get f) = GDone /\ pf_step (of_put f) = PDone).
  { pose proof (oi_kind _ _ _ _ _ H) as Hk. pose proof (oi_gother _ _ _ _ _ H) as Hg.
    pose proof (oi_pother _ _ _ _ _ H) as Hp. unfold op_isDone, get_isDone, put_isDone in Hd.
    destruct (of_kind f); try done; split; auto.
    - by destruct (gf_step (of_get f)).
    - by destruct (pf_step (of_put f)). }
  destruct Hs as [Hg Hp]. pose proof (oi_gdone _ _ _ _ _ H Hg) as Hgz. pose proof (oi_pdone _ _ _ _ _ H Hp) as Hpz.
  split_and!; try done. intros s Hsn. rewrite (oi_flight _ _ _ _ _ H s Hsn), Hgz, Hpz by done. done.
Qed.

Lemma read_op_wr k id r w : read_wr cfg id r w -> op_wr cfg k id r w.
Proof. intros H. by left. Qed.

Lemma get_start_inv k idx key measuring now f c f' c' :
  op_doGet remote_base cfg key measuring now f c = Some (f', c') -> 0 <= k ->
  conn_ok cfg k c -> op_inv cfg k c idx f -> op_isDone f = true -> (idx < p)%nat ->
  stepped cfg k idx c c' f'.
Proof.
  intros H Hk Hc Hf Hd Hidx. destruct (op_done_idle k c idx f Hf Hd) as (Hg & Hp & Hgz & Hpz & Hfl).
  unfold op_doGet, doGet in H. step_in H. destruct y as [g c1]. injection H as <- <-.
  step_in E. destruct y as [o2 c2]. injection E as <- <-. apply post_reads_posts in E0.
  rewrite (oi_gid _ _ _ _ _ Hf) in E0.
  eapply (get_posted cfg k c idx f _ o2 c c2); [done|done|done|done| |intros id; by apply frame_same|exact E0| | |done| |done].
  - intros s Hs. by rewrite Hfl, Hgz.
  - intros r w _. apply read_op_wr.
  - apply (oi_gid _ _ _ _ _ Hf).
  - intros _. cbn. exact Hk.
Qed.

(** The swaps of a put that has the register cached. *)
Lemma optimistic_posts f reg target needs expected o c needs' expected' o' c' :
  for_loop quorum 0 (fun i '(needs, expected, s) =>
      expected ← upd i reg expected;
      r ← dc_indices cfg !! i;
      needs ← upd r true needs;
      s ← postOptimisticChain remote_base cfg f i expected target s;
      Some (needs, expected, s)) (needs, expected, (o, c)) = Some (needs', expected', (o', c')) ->
  posts (pf_id f) (fun r w => wr_op_ w = RdmaCas (swap_buf cfg (pf_id f) r) reg target) (o, c) (o', c') /\
  forall i, (i < quorum)%nat -> expected' !! i = Some reg.
Proof.
  intros H. apply (for_loop_ind (fun i '(_, ex, s) =>
    posts (pf_id f) (fun r w => wr_op_ w = RdmaCas (swap_buf cfg (pf_id f) r) reg target) (o, c) s /\
    forall j, (j < i)%nat -> ex !! j = Some reg)) in H; [done|split; [by apply posts_refl|lia]|].
  intros i [[nd ex] [o1 c1]] t' _ [HP Hex] Hb. step_in Hb. step_in Hb. step_in Hb. step_in Hb. injection Hb as <-.
  apply upd_inv in E as [Hlen ->]. unfold postOptimisticChain in E2. rewrite E0 in E2. cbn [mbind option_bind] in E2.
  rewrite list_lookup_insert_eq in E2 by done. cbn [mbind option_bind] in E2. step_in E2. step_in E2. injection E2 as <-.
  split.
  - eapply posts_trans; [exact HP|]. by apply (posts_one _ _ y0 _ o1 c1 _ _ countCasAttempt E E3 eq_refl).
  - intros j Hj. destruct (decide (j = i)) as [->|Hji]; [by rewrite list_lookup_insert_eq|].
    rewrite list_lookup_insert_ne by done. apply Hex. lia.
Qed.

Lemma put_start_inv k idx key value measuring now f c f' c' :
  op_doPut remote_base cfg reg_cache key value measuring now f c = Some (f', c') -> 0 <= k -> k + 1 < 2 ^ 16 ->
  conn_ok cfg k c -> op_inv cfg k c idx f -> op_isDone f = true -> (idx < p)%nat ->
  stepped cfg (k + 1) idx c c' f'.
Proof.
  intros H Hk Hk1 Hc Hf Hd Hidx. destruct (op_done_idle k c idx f Hf Hd) as (Hg & Hp & Hgz & Hpz & Hfl).
  assert (Hc1 : conn_ok cfg (k + 1) c) by (apply (conn_ok_mono cfg k); [lia|done]).
  assert (Hfl' : forall s, (s < n)%nat -> in_flight c (Z.of_nat idx) s = pf_ongoing (of_put f) !!! s).
  { intros s Hs. by rewrite Hfl, Hpz. }
  assert (Hput : forall g o2 c2 Q, posts (Z.of_nat idx) Q (pf_ongoing (of_put f), c) (o2, c2) ->
    (forall r w, (r < n)%nat -> Q r w -> op_wr cfg (k + 1) (Z.of_nat idx) r w) -> pf_id g = Z.of_nat idx ->
    pf_ongoing g = o2 -> put_inv cfg (k + 1) c2 g -> pf_step g <> PDone ->
    stepped cfg (k + 1) idx c c2 (OpFuture KPut (of_get f) g (of_range f))).
  { intros g o2 c2 Q HP HQ Hid Ho Hinv Hst.
    eapply (put_posted cfg k (k + 1)); [done|lia|exact Hc1|done|done|exact Hfl'|intros id; by apply frame_same|exact HP|done..]. }
  unfold op_doPut, doPut in H. step_in H. destruct y as [g c1]. injection H as <- <-.
  destruct (if reg_cache then cache_get key (c_cache c) else Some None) as [cached|] eqn:Hcached; [|done].
  cbn [mbind option_bind] in E. destruct cached as [reg|].
  - step_in E. destruct y as [[nd ex] [o2 c2]]. injection E as <- <-. apply optimistic_posts in E0 as [HP Hex].
    cbn [put_start pf_id pf_ongoing] in HP. rewrite (oi_pid _ _ _ _ _ Hf) in HP.
    assert (Hreg : reg_seq reg <= k).
    { destruct reg_cache; [|done]. apply (conn_cache _ _ _ Hc). by eapply cache_get_inv. }
    pose proof (reg_bounds reg) as (_ & _ & Hrs).
    assert (Ht : reg_seq (target_of cfg (reg_seq reg + 1) value) = reg_seq reg + 1) by (apply target_seq; lia).
    apply (Hput _ o2 c2 _ (posts_trans _ _ _ _ _ (posts_refl _ _ _ _ _ (with_cnt_same _ _)) HP)); try done.
    + intros r w _ Hw. right. eexists _, _. split; [exact Hw|]. split; [apply seq_tag; lia|lia].
    + apply (oi_pid _ _ _ _ _ Hf).
    + split; cbn [pf_with pf_target pf_expected]; [lia|]. intros i e Hi. rewrite Hex by done. intros [= <-]. lia.
  - step_in E. destruct y as [o2 c2]. injection E as <- <-. apply post_reads_posts in E0.
    cbn [put_start pf_id pf_ongoing] in E0. rewrite (oi_pid _ _ _ _ _ Hf) in E0.
    assert (HP : posts (Z.of_nat idx) (read_wr cfg (Z.of_nat idx)) (pf_ongoing (of_put f), c) (o2, c2)).
    { eapply posts_trans; [|exact E0]. apply posts_refl. by destruct reg_cache. }
    apply (Hput _ o2 c2 _ HP); try done.
    + intros r w _. apply read_op_wr.
    + apply (oi_pid _ _ _ _ _ Hf).
Qed.

(** A step of any operation. *)
Lemma op_step_inv k idx now f c b f' c' :
  op_tryStepForward remote_base cfg reg_cache writeback now f c = Some (b, f', c') ->
  0 <= k -> k + 1 < 2 ^ 16 -> conn_ok cfg k c -> op_inv cfg k c idx f -> (idx < p)%nat ->
  stepped cfg (k + 1) idx c c' f'.
Proof.
  intros H Hk0 Hk1 Hc Hf Hidx. unfold op_tryStepForward in H. destruct (of_kind f) eqn:Hk.
  - injection H as <- <- <-. split_and!; [by apply (conn_ok_mono cfg k); [lia|]|by apply (op_inv_mono cfg k); [lia|]|].
    intros id _. by apply frame_same.
  - step_in H. destruct y as [[b1 g] c1]. injection H as <- <- <-.
    destruct (get_step_inv remote_base cfg reg_cache writeback Hcfg k idx now f c _ _ _ E Hc Hf Hk Hidx) as (H1 & H2 & H3).
    split_and!; [by apply (conn_ok_mono cfg k); [lia|]|by apply (op_inv_mono cfg k); [lia|]|done].
  - step_in H. destruct y as [[b1 g] c1]. injection H as <- <- <-. by eapply (put_step_inv remote_base cfg reg_cache Hcfg).
  - by destruct (oi_kind _ _ _ _ _ Hf).
Qed.
End Start.

(** * Scans, polling and the network, among other clients *)

Section Net.
Context (remote_base : nat -> Z) (cfg : config) (reg_cache writeback : bool) (Hcfg : cfg_ok remote_base cfg).

Local Abbreviation L := (dc_layout cfg).
Local Abbreviation n := (Z.to_nat (num_servers (dc_layout cfg))).
Local Abbreviation p := (Z.to_nat (async_parallelism (dc_layout cfg))).
Local Abbreviation ind := (dc_indices cfg).
Local Abbreviation quorum := (dc_quorum cfg).

Lemma buf_ok_of b id r : 0 <= id < async_parallelism L -> (r < n)%nat ->
  match b with BBulk off => 0 <= off < max_range L | _ => True end -> buf_ok cfg b id r.
Proof. intros Hid Hr Hb. unfold buf_ok. split_and!; [lia|lia|lia|done]. Qed.

(** Buffers that differ in purpose, future or server have different words. *)
Lemma buf_ne b id r b' id' r' :
  buf_ok cfg b id r -> buf_ok cfg b' id' r' -> (b, id, r) <> (b', id', r') -> buf_addr cfg b id r <> buf_addr cfg b' id' r'.
Proof. intros H H' Hne He. apply Hne. by apply (buf_addr_inj cfg (cfg_layout _ _ Hcfg)). Qed.

Lemma bulk_next id r i : 0 <= id < async_parallelism L -> (r < n)%nat -> 0 <= i < max_range L ->
  bulk_buf cfg id r 0 + 8 * i = bulk_buf cfg id r i.
Proof.
  intros Hid Hr Hi. pose proof (cfg_layout _ _ Hcfg) as HL. assert (Hz : 0 <= 0 < max_range L) by lia.
  pose proof (buf_addr_exact cfg HL (BBulk 0) id r (buf_ok_of (BBulk 0) id r Hid Hr Hz)) as H0.
  pose proof (buf_addr_exact cfg HL (BBulk i) id r (buf_ok_of (BBulk i) id r Hid Hr Hi)) as H1.
  cbn [buf_addr buf_slot] in H0, H1. lia.
Qed.

Lemma plain_ne i j : 0 <= i < async_parallelism L -> 0 <= j < async_parallelism L -> Z.lor j RANGE_BIT <> i.
Proof.
  intros Hi Hj He. pose proof (cfg_parallel _ _ Hcfg).
  destruct (plain_id i ltac:(lia)) as [H1 _]. destruct (range_id j ltac:(lia)) as [H2 _]. rewrite He in H2. congruence.
Qed.

(** ** Scans *)

Lemma range_start_inv k idx sk ek measuring now f c f' c' :
  doRange remote_base cfg sk ek measuring now f c = Some (f', c') ->
  conn_ok cfg k c -> range_inv cfg idx f -> (idx < p)%nat ->
  conn_ok cfg k c' /\ range_inv cfg idx f' /\ forall id, 0 <= id < async_parallelism L -> frame cfg id c c'.
Proof.
  intros H Hc [Hid _] Hidx. unfold doRange in H. set (len := u64 (u64 (ek - sk) + 1)) in H. step_in H. apply assert_inv in E.
  apply Z.leb_le in E. step_in H. destruct y0 as [o2 c2]. injection H as <- <-.
  assert (Hlen : 0 <= len) by (apply u64_range).
  set (bytes := u32 (u64 (len * REG_SIZE))) in E0.
  assert (Hbytes : Z.of_nat (Z.to_nat (bytes / REG_SIZE)) <= max_range L).
  { pose proof (cfg_range _ _ Hcfg) as Hr. unfold bytes, REG_SIZE in *. rewrite (u64_small (len * 8)) by (unfold is_u64; lia).
    unfold u32. rewrite Z.mod_small, Z.div_mul by lia. lia. }
  assert (HP : posts (Z.lor (Z.of_nat idx) RANGE_BIT) (range_wr cfg (Z.of_nat idx)) (rf_ongoing f, c) (o2, c2)).
  { apply (posts_loop _ _ _ _ _ _ E0). intros i [o1 c1] t' _ Hb. step_in Hb. step_in Hb. step_in Hb. injection Hb as <-.
    rewrite <- (with_cnt_id y1). eapply posts_one; [exact E2|exact E3|by rewrite <- Hid|].
    exists (Z.to_nat (bytes / REG_SIZE)). cbn. by rewrite Hid. }
  split_and!.
  - apply (conn_ok_posts cfg k _ _ _ _ _ _ Hc HP). intros r w Hr Hw Hwr. exists (Z.of_nat idx). split; [lia|]. right. done.
  - done.
  - intros id Hid'. apply (frame_posts cfg _ _ _ _ _ _ _ HP). by apply plain_ne; [|lia].
Qed.

Lemma merge_regs_frame id r0 r off len m k :
  (forall a, reg_seq (m a) <= k) ->
  (forall a, reg_seq (merge_regs cfg id r0 r off len m a) <= k) /\
  (forall a, (forall i, off <= i < off + Z.of_nat len -> a <> bulk_buf cfg id r0 i) -> merge_regs cfg id r0 r off len m a = m a).
Proof.
  revert off m. induction len as [|len IH]; intros off m Hm; cbn [merge_regs]; [done|].
  set (m1 := if reg_lt (m (bulk_buf cfg id r0 off)) (m (bulk_buf cfg id r off))
             then mem_set (bulk_buf cfg id r0 off) (m (bulk_buf cfg id r off)) m else m).
  assert (Hm1 : forall a, reg_seq (m1 a) <= k).
  { intros a. unfold m1. destruct (reg_lt _ _); [|done]. unfold mem_set. destruct (a =? _); apply Hm. }
  destruct (IH (off + 1) m1 Hm1) as [H1 H2]. split; [done|]. intros a Ha. rewrite H2.
  - unfold m1. destruct (reg_lt _ _); [|done]. unfold mem_set.
    rewrite (proj2 (Z.eqb_neq _ _)); [done|]. apply Ha. lia.
  - intros i Hi. apply Ha. lia.
Qed.

Lemma range_step_inv k idx now f c b f' c' :
  range_tryStepForward cfg reg_cache now f c = Some (b, f', c') ->
  conn_ok cfg k c -> range_inv cfg idx f -> (idx < p)%nat ->
  conn_ok cfg k c' /\ range_inv cfg idx f' /\ forall id, 0 <= id < async_parallelism L -> frame cfg id c c'.
Proof.
  intros H Hc [Hid Hlen] Hidx. unfold range_tryStepForward in H.
  assert (Hsame : conn_ok cfg k c /\ range_inv cfg idx f /\ forall id, 0 <= id < async_parallelism L -> frame cfg id c c).
  { split; [done|]. split; [done|]. intros id _. by apply frame_same. }
  destruct (some_ongoing (rf_ongoing f)); [by injection H as <- <- <-|].
  destruct (rf_step f) eqn:Hst; [|by injection H as <- <- <-]. specialize (Hlen eq_refl).
  destruct (ind !! 0%nat) as [r0|] eqn:Hr0; [|done]. cbn [mbind option_bind] in H.
  destruct (slot_lookup remote_base cfg Hcfg 0 r0 Hr0) as [_ Hn0].
  step_in H. step_in H. destruct y0 as [rs c2]. step_in H. injection H as <- <- <-.
  (* the merged memory *)
  assert (Hm : (forall a, reg_seq (y a) <= k) /\
    (forall a, (forall i, 0 <= i < rf_range_len f -> a <> bulk_buf cfg (rf_id f) r0 i) -> y a = c_mr c a)).
  { apply (for_loop_ind (fun _ m => (forall a, reg_seq (m a) <= k) /\
      (forall a, (forall i, 0 <= i < rf_range_len f -> a <> bulk_buf cfg (rf_id f) r0 i) -> m a = c_mr c a)) _ _ _ _ _ E).
    - split; [apply (conn_mem _ _ _ Hc)|done].
    - intros i m m' _ [H1 H2] Hb. step_in Hb. injection Hb as <-.
      destruct (merge_regs_frame (rf_id f) r0 y1 0 (Z.to_nat (rf_range_len f)) m k H1) as [H3 H4]. split; [done|].
      intros a Ha. rewrite H4, H2; [done|done|]. intros j Hj. apply Ha. lia. }
  destruct Hm as [Hm1 Hm2]. set (c1 := with_mr y (with_cnt countRead c)) in E0.
  assert (Hc1 : conn_ok cfg k c1) by (destruct Hc as [? ? ? ? ?]; split; done).
  assert (Hc2 : conn_ok cfg k c2 /\ c_mr c2 = y /\ c_sq c2 = c_sq c /\ c_cq c2 = c_cq c).
  { apply (for_loop_ind (fun _ '(_, c3) => conn_ok cfg k c3 /\ c_mr c3 = y /\ c_sq c3 = c_sq c /\ c_cq c3 = c_cq c)) in E0; [done|done|].
    intros i [rs3 c3] t' _ (H1 & H2 & H3 & H4) Hb. step_in Hb. step_in Hb. injection Hb as <-.
    destruct (conn_ok_cache cfg reg_cache k c3 _ _ y2 H1 (conn_mem _ _ _ H1 _) E3) as (H5 & H6 & H7 & H8).
    split_and!; congruence || done. }
  destruct Hc2 as (Hc2 & M1 & M2 & M3).
  assert (Hs : same_conn c2 y0).
  { unfold range_measure, addRangeMeasurement in E1. destruct (rf_measuring f); [|by injection E1 as <-].
    step_in E1. by injection E1 as <-. }
  split; [by eapply conn_ok_same|]. split; [done|]. intros id Hid'. eapply cframe_trans; [|by apply frame_same].
  split; [|by rewrite M2|intros s _; unfold in_flight; by rewrite M2, M3].
  intros r Hr. rewrite M1. apply Hm2. intros i Hi.
  apply (buf_ne BSwap id r (BBulk i) (rf_id f) r0); [by apply buf_ok_of|apply buf_ok_of; [lia|done|lia]|congruence].
Qed.
End Net.

(** * Executing requests and polling their completions *)

Section Nic.
Context (remote_base : nat -> Z) (cfg : config) (reg_cache writeback : bool) (Hcfg : cfg_ok remote_base cfg).

Local Abbreviation L := (dc_layout cfg).
Local Abbreviation n := (Z.to_nat (num_servers (dc_layout cfg))).
Local Abbreviation p := (Z.to_nat (async_parallelism (dc_layout cfg))).
Local Abbreviation ind := (dc_indices cfg).
Local Abbreviation quorum := (dc_quorum cfg).

(** ** One request *)

(** The words of the client's region that a request writes. *)
Lemma writes_at k s w m a v : wr_ok cfg k s w -> (s < n)%nat -> (a, v) ∈ writes w m ->
  exists b id, 0 <= id < async_parallelism L /\ buf_ok cfg b id s /\ a = buf_addr cfg b id s /\ (exists a', v = m a') /\
    (b = BSwap -> wr_id w = id).
Proof.
  intros (id & Hid & Hw) Hs Hin. unfold writes in Hin.
  destruct Hw as [[Hwid [Hw|(e & t & Hw & _)]]|[Hwid (len & Hw & Hlen)]]; rewrite Hw in Hin.
  - apply list_elem_of_singleton in Hin as [= -> ->]. exists BRead, id. split_and!; try done; try lia.
    + apply (buf_ok_of cfg BRead); [done|done|done].
    + by eexists.
  - apply list_elem_of_singleton in Hin as [= -> ->]. exists BSwap, id. split_and!; try done; try lia.
    + apply (buf_ok_of cfg BSwap); [done|done|done].
    + by eexists.
  - apply copy_list_elem in Hin as (i & Hi & -> & ->). rewrite (bulk_next remote_base cfg Hcfg) by (done || lia).
    exists (BBulk i), id. split_and!; try done; try lia.
    + apply (buf_ok_of cfg (BBulk i)); [done|done|lia].
    + by eexists.
Qed.

Lemma set_all_cases ws m a : set_all ws m a = m a \/ (a, set_all ws m a) ∈ ws.
Proof.
  revert m. induction ws as [|[b u] ws IH]; intros m; [by left|]. unfold set_all in *. cbn [foldl fst snd].
  destruct (IH (mem_set b u m)) as [He|He]; [|by right; right].
  rewrite He. unfold mem_set. destruct (Z.eqb_spec a b) as [->|]; [right; left|by left].
Qed.

(** The request at the head of a connection, and its execution. *)
Lemma nic_exec_inv r servers c servers' c' :
  nic_exec r servers c = Some (servers', c') ->
  exists w q dn, c_sq c !! r = Some (w :: q) /\ c_cq c !! r = Some dn /\
    c_sq c' = <[r := q]> (c_sq c) /\ c_cq c' = <[r := dn ++ [wr_id w]]> (c_cq c) /\ c_cache c' = c_cache c /\
    c_mr c' = set_all (writes w (servers r)) (c_mr c) /\
    (forall s, s <> r -> servers' s = servers s) /\ servers' r = exec_server w (servers r).
Proof.
  unfold nic_exec. destruct (c_sq c !! r) as [[|[id addr op] q]|]; cbn [mbind option_bind]; [by destruct (c_cq c !! r)| |done].
  destruct (c_cq c !! r) as [dn|]; cbn [mbind option_bind]; [|done].
  destruct op as [buf len|buf e t]; intros [= <- <-]; exists (Wr id addr (RdmaRead buf len)), q, dn ||
    exists (Wr id addr (RdmaCas buf e t)), q, dn; split_and!; try done.
  - cbn. by rewrite mem_copy_set.
  - intros s Hs. rewrite (proj2 (Nat.eqb_neq _ _) Hs). done.
  - rewrite Nat.eqb_refl. cbn. by destruct (servers r addr =? e).
Qed.

Section Exec.
Context (k : Z) (r : nat) (servers servers' : nat -> memory) (c c' : client).
Context (Hx : nic_exec r servers c = Some (servers', c')) (Hc : conn_ok cfg k c).
Context (Hsv : forall s a, reg_seq (servers s a) <= k).

Lemma nic_server : (r < n)%nat.
Proof.
  destruct (nic_exec_inv _ _ _ _ _ Hx) as (w & q & dn & Hsq & _). rewrite <- (conn_sq _ _ _ Hc).
  by eapply lookup_lt_Some.
Qed.

Lemma nic_flight id s : in_flight c' id s = in_flight c id s.
Proof.
  destruct (nic_exec_inv _ _ _ _ _ Hx) as (w & q & dn & Hsq & Hcq & Hsq' & Hcq' & _).
  unfold in_flight. rewrite Hsq', Hcq'. destruct (decide (s = r)) as [->|Hne].
  - rewrite !list_lookup_total_insert_eq by (by eapply lookup_lt_Some).
    rewrite (list_lookup_total_correct _ _ _ Hsq), (list_lookup_total_correct _ _ _ Hcq).
    cbn [map app cnt]. rewrite !cnt_app. cbn. lia.
  - by rewrite !list_lookup_total_insert_ne.
Qed.

Lemma nic_pending s w : w ∈ c_sq c' !!! s -> w ∈ c_sq c !!! s.
Proof.
  destruct (nic_exec_inv _ _ _ _ _ Hx) as (w0 & q & dn & Hsq & _ & Hsq' & _). rewrite Hsq'.
  destruct (decide (s = r)) as [->|Hne]; [|by rewrite list_lookup_total_insert_ne].
  rewrite list_lookup_total_insert_eq by (by eapply lookup_lt_Some).
  rewrite (list_lookup_total_correct _ _ _ Hsq). intros. by right.
Qed.

(** The request that is executed. *)
Lemma nic_head : exists w, w ∈ c_sq c !!! r /\ wr_ok cfg k r w /\
  c_mr c' = set_all (writes w (servers r)) (c_mr c) /\
  (forall s, s <> r -> servers' s = servers s) /\ servers' r = exec_server w (servers r).
Proof.
  destruct (nic_exec_inv _ _ _ _ _ Hx) as (w & q & dn & Hsq & _ & _ & _ & _ & H1 & H2 & H3).
  assert (Hin : w ∈ c_sq c !!! r) by (rewrite (list_lookup_total_correct _ _ _ Hsq); left).
  exists w. split_and!; try done. apply (conn_wr _ _ _ Hc); [apply nic_server|done].
Qed.

Lemma nic_conn : conn_ok cfg k c'.
Proof.
  destruct (nic_exec_inv _ _ _ _ _ Hx) as (w & q & dn & Hsq & Hcq & Hsq' & Hcq' & Hca & Hmr & _).
  pose proof nic_server as Hr. pose proof Hc as [H1 H2 H3 H4 H5]. split.
  - by rewrite Hsq', length_insert.
  - by rewrite Hcq', length_insert.
  - intros a. rewrite Hmr. destruct (set_all_cases (writes w (servers r)) (c_mr c) a) as [->|Hin]; [done|].
    apply (writes_at k r w) in Hin as (b & id & _ & _ & _ & (a' & ->) & _); [done| |done].
    apply H5; [done|]. rewrite (list_lookup_total_correct _ _ _ Hsq). left.
  - intros x. rewrite Hca. apply H4.
  - intros s w' Hs Hw'. apply H5; [done|]. by apply nic_pending.
Qed.

(** Swap buffers that the request is not for. *)
Lemma nic_swap_other w id s :
  c_mr c' = set_all (writes w (servers r)) (c_mr c) -> wr_ok cfg k r w ->
  0 <= id < async_parallelism L -> (s < n)%nat -> s <> r \/ wr_id w <> id ->
  c_mr c' (swap_buf cfg id s) = c_mr c (swap_buf cfg id s).
Proof.
  intros Hmr Hw Hid Hs Hne. rewrite Hmr. apply set_all_other. intros v Hin.
  apply (writes_at k r w) in Hin as (b & id' & Hid' & Hb & Ha & _ & Hsw); [|done|apply nic_server].
  assert (Heq : (BSwap, id, s) = (b, id', r)).
  { apply (buf_addr_inj cfg (cfg_layout _ _ Hcfg)); [by apply buf_ok_of|done|exact Ha]. }
  injection Heq as <- -> ->. destruct Hne as [?|Hne]; [done|]. by apply Hne, Hsw.
Qed.

Lemma nic_op_inv idx f : (idx < p)%nat -> op_inv cfg k c idx f -> op_inv cfg k c' idx f.
Proof.
  intros Hidx H. pose proof H as [Hg Hp Hgl Hpl Hk Hgd Hpd Hgo Hpo Hfl Hget Hput]. split; try done.
  { intros s Hs. rewrite nic_flight. by apply Hfl. }
  destruct nic_head as (w & Hin & Hw & Hmr & _). unfold put_inv in *. destruct (pf_step (of_put f)); try done.
  destruct Hput as (H1 & H2 & H3). split_and!; [done| |].
  - eapply (slots_ok_frame remote_base cfg Hcfg); [|exact H2]. intros s Hs Hnf.
    apply (nic_swap_other w); [done|done|rewrite Hp; lia|done|].
    destruct (decide (s = r)) as [->|]; [right|by left]. intros Hwid.
    rewrite (H3 r w Hs Hin Hwid) in Hnf. done.
  - intros s w' Hs Hw' Hid. apply (H3 s w' Hs); [by apply nic_pending|done].
Qed.

(** The registers: tags do not decrease, and sequence numbers stay bounded. *)
Lemma nic_registers s a :
  reg_tag (servers s a) <= reg_tag (servers' s a) /\ reg_seq (servers' s a) <= k.
Proof.
  destruct nic_head as (w & _ & (id & _ & Hw) & _ & Hother & Hr). destruct (decide (s = r)) as [->|Hne].
  2: { rewrite (Hother s Hne). split; [done|apply Hsv]. }
  rewrite Hr. unfold exec_server.
  destruct Hw as [[_ [Hw|(e & t & Hw & Htag & Ht)]]|[_ (len & Hw & _)]]; rewrite Hw; [split; [done|apply Hsv]| |split; [done|apply Hsv]].
  destruct (Z.eqb_spec (servers r (wr_addr w)) e) as [He|]; [|split; [done|apply Hsv]].
  unfold mem_set. destruct (Z.eqb_spec a (wr_addr w)) as [->|]; [|split; [done|apply Hsv]]. rewrite He. done.
Qed.
End Exec.

(** ** Polling *)

(** A client whose completions from server [s] are [l]. *)
Definition with_cq (s : nat) (l : list Z) (c : client) : client :=
  Client (c_mr c) (c_sq c) (<[s := l]> (c_cq c)) (c_poll c) (c_cnt c) (c_cache c) (c_prof c).

Lemma with_cq_flight s l id r c : (s < length (c_cq c))%nat ->
  in_flight (with_cq s l c) id r =
    if decide (r = s) then cnt id (map wr_id (c_sq c !!! s)) + cnt id l else in_flight c id r.
Proof.
  intros Hs. unfold in_flight, with_cq. cbn [c_sq c_cq]. case_decide as Hr; [subst r|].
  - by rewrite list_lookup_total_insert_eq, cnt_app.
  - by rewrite list_lookup_total_insert_ne.
Qed.

Lemma op_inv_with_cq k s l l' c idx f : (s < length (c_cq c))%nat -> cnt (Z.of_nat idx) l = cnt (Z.of_nat idx) l' ->
  op_inv cfg k (with_cq s l c) idx f -> op_inv cfg k (with_cq s l' c) idx f.
Proof.
  intros Hs He [H1 H2 H3 H4 H5 H6 H7 H8 H9 Hfl Hg Hp]. split; try done.
  intros r Hr. specialize (Hfl r Hr). rewrite with_cq_flight in Hfl |- * by done. rewrite <- Hfl, He. done.
Qed.

Lemma bump_total r x o o' : bump r x o = Some o' ->
  length o' = length o /\ forall s, o' !!! s = o !!! s + (if decide (s = r) then x else 0).
Proof.
  unfold bump. intros H. step_in H. injection H as <-. pose proof (lookup_lt_Some _ _ _ E).
  split; [by rewrite length_insert|]. intros s. destruct (decide (s = r)) as [->|Hne].
  - rewrite list_lookup_total_insert_eq by done. by rewrite (list_lookup_total_correct _ _ _ E).
  - rewrite list_lookup_total_insert_ne by done. lia.
Qed.

(** A future that takes one of its completions. *)
Lemma op_inv_completion k s l c idx f f' :
  (s < n)%nat -> (s < length (c_cq c))%nat ->
  op_addToOngoing s (-1) f = Some f' ->
  op_inv cfg k (with_cq s (Z.of_nat idx :: l) c) idx f -> op_inv cfg k (with_cq s l c) idx f'.
Proof.
  intros Hsn Hs Hadd H.
  assert (Hpos : 0 < in_flight (with_cq s (Z.of_nat idx :: l) c) (Z.of_nat idx) s).
  { rewrite with_cq_flight, decide_True by done. cbn [cnt]. rewrite Z.eqb_refl.
    pose proof (cnt_nonneg (Z.of_nat idx) (map wr_id (c_sq c !!! s))). pose proof (cnt_nonneg (Z.of_nat idx) l). lia. }
  destruct H as [Hg Hp Hgl Hpl Hk Hgd Hpd Hgo Hpo Hfl Hget Hput].
  assert (Hfl' : forall r, (r < n)%nat -> in_flight (with_cq s l c) (Z.of_nat idx) r =
    gf_ongoing (of_get f) !!! r + pf_ongoing (of_put f) !!! r - (if decide (r = s) then 1 else 0)).
  { intros r Hr. rewrite <- Hfl by done. rewrite !with_cq_flight by done. case_decide; [|lia].
    cbn [cnt]. rewrite Z.eqb_refl. lia. }
  rewrite (Hfl s Hsn) in Hpos. unfold op_addToOngoing in Hadd. destruct (of_kind f) eqn:Hkf.
  - exfalso. rewrite (Hgd (Hgo ltac:(done)) s Hsn), (Hpd (Hpo ltac:(done)) s Hsn) in Hpos. lia.
  - step_in Hadd. injection Hadd as <-. unfold get_addToOngoing in E. step_in E. injection E as <-.
    apply bump_total in E0 as [Hl Ho]. split; cbn [of_get of_put of_kind gf_with gf_id gf_ongoing gf_step gf_max_reg]; try done.
    + by rewrite Hl.
    + intros Hd. exfalso. rewrite (Hgd Hd s Hsn), (Hpd (Hpo ltac:(done)) s Hsn) in Hpos. lia.
    + intros r Hr. rewrite Hfl', Ho by done. case_decide; lia.
  - step_in Hadd. injection Hadd as <-. unfold put_addToOngoing in E. step_in E. injection E as <-.
    apply bump_total in E0 as [Hl Ho].
    split; cbn [of_get of_put of_kind pf_with pf_id pf_ongoing pf_step pf_needs]; try done.
    + by rewrite Hl.
    + intros Hd. exfalso. rewrite (Hpd Hd s Hsn), (Hgd (Hgo ltac:(done)) s Hsn) in Hpos. lia.
    + intros r Hr. rewrite Hfl', Ho by done. case_decide; lia.
  - done.
Qed.

(** Routing keeps the invariant, with the completions that remain. *)
Definition routing (k : Z) (s : nat) (l : list Z) (c : client) (d : ds_client) : Prop :=
  length (d_futures d) = p /\ length (d_range_futures d) = p /\
  (forall idx f, d_futures d !! idx = Some f -> op_inv cfg k (with_cq s l c) idx f) /\
  (forall idx f, d_range_futures d !! idx = Some f -> range_inv cfg idx f).

Lemma route_inv k s id l c d d' :
  (s < n)%nat -> (s < length (c_cq c))%nat -> route s id d = Some d' -> routing k s (id :: l) c d ->
  routing k s l c d' /\ d_cl d' = d_cl d.
Proof.
  intros Hsn Hs H (Hl1 & Hl2 & Hop & Hrg). pose proof (cfg_parallel _ _ Hcfg) as Hpar. unfold route in H.
  assert (Hpl : forall idx f, d_futures d !! idx = Some f -> Z.of_nat idx < 2 ^ 63).
  { intros idx f Hf. apply lookup_lt_Some in Hf. lia. }
  destruct (Z.shiftr id 63 =? 0) eqn:Hbit; cbn [negb] in H.
  - apply Z.eqb_eq in Hbit. rewrite Z.shiftr_div_pow2 in Hbit by lia.
    assert (Hid : 0 <= id < 2 ^ 63).
    { pose proof (Z.div_mod id (2 ^ 63) ltac:(lia)). pose proof (Z.mod_pos_bound id (2 ^ 63) ltac:(lia)). lia. }
    destruct (plain_id id Hid) as [_ Hland]. rewrite Hland in H. step_in H. step_in H. step_in H. injection H as <-.
    pose proof (lookup_lt_Some _ _ _ E). split; [|done]. unfold routing. cbn [d_futures d_range_futures].
    split; [by rewrite length_insert|]. split; [done|]. split; [|done].
    intros idx f Hf. apply list_lookup_insert_Some in Hf as [(<- & <- & _)|[Hne Hf]].
    + apply (op_inv_completion k s l c _ y y0 Hsn Hs E0). rewrite Z2Nat.id by lia. by apply Hop.
    + eapply (op_inv_with_cq k s (id :: l) l); [done| |by apply Hop]. cbn [cnt].
      rewrite (proj2 (Z.eqb_neq _ _)); [lia|]. intros ->. by rewrite Nat2Z.id in Hne.
  - step_in H. step_in H. step_in H. injection H as <-. split; [|done]. unfold routing. cbn [d_futures d_range_futures].
    split; [done|]. split; [by rewrite length_insert|]. split.
    + intros idx f Hf. eapply (op_inv_with_cq k s (id :: l) l); [done| |by apply Hop]. cbn [cnt].
      rewrite (proj2 (Z.eqb_neq _ _)); [lia|]. intros ->. apply Z.eqb_neq in Hbit. apply Hbit.
      apply (plain_id (Z.of_nat idx)). split; [lia|by eapply Hpl].
    + intros idx f Hf. apply list_lookup_insert_Some in Hf as [(<- & <- & _)|[Hne Hf]]; [|by apply Hrg].
      unfold range_addToOngoing in E0. step_in E0. injection E0 as <-. by apply (Hrg _ y).
Qed.

Lemma route_all_inv k s l rest c d d' :
  (s < n)%nat -> (s < length (c_cq c))%nat -> route_all s l d = Some d' -> routing k s (l ++ rest) c d ->
  routing k s rest c d' /\ d_cl d' = d_cl d.
Proof.
  intros Hsn Hs. revert d. induction l as [|id l IH]; intros d H Hr; cbn [route_all] in H; [by injection H as <-|].
  step_in H. destruct (route_inv k s id (l ++ rest) c d y Hsn Hs E Hr) as [Hr' Hcl].
  destruct (IH y H Hr') as [? Hcl']. split; [done|congruence].
Qed.

Lemma poll_inv k s any d b d' :
  poll_server s any d = Some (b, d') -> client_inv cfg k d -> client_inv cfg k d'.
Proof.
  intros H [Hc Hl1 Hl2 Hop Hrg]. unfold poll_server in H. step_in H. destruct (y <=? 0); [by injection H as <- <-|].
  destruct (c_cq (d_cl d) !! s) as [cq|] eqn:Hcq; [|done]. cbn [mbind option_bind] in H.
  pose proof (lookup_lt_Some _ _ _ Hcq) as Hs. assert (Hsn : (s < n)%nat) by by rewrite <- (conn_cq _ _ _ Hc).
  set (c1 := Client _ _ _ _ _ _ _) in H. step_in H. injection H as <- <-.
  destruct (route_all_inv k s (take (Z.to_nat y) cq) (drop (Z.to_nat y) cq) (d_cl d) _ y0 Hsn Hs E0) as [(H1 & H2 & H3 & H4) Hcl].
  - split_and!; cbn [d_futures d_range_futures]; try done. intros idx f Hf. rewrite take_drop.
    specialize (Hop idx f Hf). destruct Hop as [G1 G2 G3 G4 G5 G6 G7 G8 G9 Gfl G10 G11]. split; try done.
    intros r Hr. rewrite with_cq_flight by done. rewrite <- Gfl by done. case_decide as Hrs; [subst r|done].
    unfold in_flight. by rewrite cnt_app, (list_lookup_total_correct _ _ _ Hcq).
  - cbn [d_cl] in Hcl. split; [|done|done| |exact H4]; rewrite Hcl.
    + destruct Hc as [C1 C2 C3 C4 C5]. split; try done. cbn. by rewrite length_insert.
    + intros idx f Hf. specialize (H3 idx f Hf). destruct H3 as [G1 G2 G3 G4 G5 G6 G7 G8 G9 Gfl G10 G11]. by split.
Qed.
End Nic.
