(* ===== verification/DsConcSafe.v ===== *)
(** * DsConcSafe: the registers never go back

    In every interleaving of the clients of a deployment, and of the network
    between each client and each server, the tag of a register (sequence
    number, then client) never decreases: no client ever overwrites a newer
    register with an older one, whatever it has cached, read or retried. *)

From S2P Require Import Prelude Prog DsRegister Latency DsNet DsFutures DsLayout DsClient DsMain.
From S2P Require Import DsAlone DsGetPut DsSequential DsDeployment DsConc DsConcInv.
From S2P Require Import DsConcNet.

Local Open Scope Z_scope.

(** ** The events of a client *)

Section Client.
Context (remote_base : nat -> Z) (cfg : config) (reg_cache writeback : bool) (Hcfg : cfg_ok remote_base cfg).
Context (k : Z) (Hk0 : 0 <= k) (Hk1 : k + 1 < 2 ^ 16).

Lemma client_stepped d idx c' f' progress :
  client_inv cfg k d -> (exists f, d_futures d !! idx = Some f) -> stepped cfg (k + 1) idx (d_cl d) c' f' ->
  client_inv cfg (k + 1) (DsClient c' (<[idx := f']> (d_futures d)) progress (d_range_futures d) (d_range_progress d)).
Proof.
  intros [Hc Hl1 Hl2 Hop Hrg] (f & Hf) (H1 & H2 & H3). split; cbn; [done|by rewrite length_insert|done| |done].
  intros j g Hg. apply list_lookup_insert_Some in Hg as [(<- & <- & _)|[Hne Hg]]; [done|].
  eapply (op_inv_frame remote_base cfg Hcfg); [apply H3; lia|]. apply (op_inv_mono cfg k); [lia|by apply Hop].
Qed.

Lemma client_range_stepped d idx c' f' progress :
  client_inv cfg k d -> conn_ok cfg k c' -> range_inv cfg idx f' ->
  (forall id, 0 <= id < async_parallelism (dc_layout cfg) -> frame cfg id (d_cl d) c') ->
  client_inv cfg k (DsClient c' (d_futures d) (d_progress d) (<[idx := f']> (d_range_futures d)) progress).
Proof.
  intros [Hc Hl1 Hl2 Hop Hrg] Hc' Hf' Hfr. split; cbn; [done|done|by rewrite length_insert| |].
  - intros j g Hg. eapply (op_inv_frame remote_base cfg Hcfg); [|by apply Hop]. apply Hfr. apply lookup_lt_Some in Hg. lia.
  - intros j g Hg. apply list_lookup_insert_Some in Hg as [(<- & <- & _)|[Hne Hg]]; [done|by apply Hrg].
Qed.

Lemma step_op_inv idx now d d' :
  step_op remote_base cfg reg_cache writeback idx now d = Some d' -> client_inv cfg k d -> client_inv cfg (k + 1) d'.
Proof.
  intros H Hd. unfold step_op in H. step_in H.
  destruct y; [|injection H as <-; by apply (client_inv_mono cfg k); [lia|]]. step_in H. step_in H.
  destruct y0 as [[b f'] c']. injection H as <-. apply (client_stepped d); [done|by exists y|].
  eapply (op_step_inv remote_base cfg reg_cache writeback Hcfg); [exact E1|done|done|apply (ci_conn _ _ _ Hd)|by apply (ci_op _ _ _ Hd)|].
  rewrite <- (ci_length _ _ _ Hd). by eapply lookup_lt_Some.
Qed.

Lemma step_range_inv idx now d d' :
  step_range cfg reg_cache idx now d = Some d' -> client_inv cfg k d -> client_inv cfg k d'.
Proof.
  intros H Hd. unfold step_range in H. step_in H. destruct y; [|by injection H as <-]. step_in H. step_in H.
  destruct y0 as [[b f'] c']. injection H as <-.
  destruct (range_step_inv remote_base cfg reg_cache Hcfg k idx now y (d_cl d) _ _ _ E1) as (H1 & H2 & H3).
  - apply (ci_conn _ _ _ Hd).
  - by apply (ci_range _ _ _ Hd).
  - rewrite <- (ci_range_length _ _ _ Hd). by eapply lookup_lt_Some.
  - by apply client_range_stepped.
Qed.

Lemma start_inv idx op now measuring d d' :
  start_on remote_base reg_cache cfg idx op now measuring d = Some d' ->
  client_inv cfg k d -> client_inv cfg (k + 1) d'.
Proof.
  intros H Hd. unfold start_on in H.
  assert (Hlen : forall f, d_futures d !! idx = Some f -> (idx < Z.to_nat (async_parallelism (dc_layout cfg)))%nat).
  { intros f Hf. rewrite <- (ci_length _ _ _ Hd). by eapply lookup_lt_Some. }
  destruct op as [key|key value|key len]; step_in H; step_in H; apply assert_inv in E0; step_in H; destruct y1 as [f' c'];
    injection H as <-.
  - apply (client_stepped d); [done|by exists y|].
    destruct (get_start_inv remote_base cfg k idx key measuring now y (d_cl d) f' c' E1 Hk0) as (H1 & H2 & H3);
      [apply (ci_conn _ _ _ Hd)|by apply (ci_op _ _ _ Hd)|done|by eapply Hlen|].
    split_and!; [by apply (conn_ok_mono cfg k); [lia|]|by apply (op_inv_mono cfg k); [lia|]|done].
  - apply (client_stepped d); [done|by exists y|].
    eapply (put_start_inv remote_base cfg reg_cache); [exact E1|done|done|apply (ci_conn _ _ _ Hd)|by apply (ci_op _ _ _ Hd)|done|by eapply Hlen].
  - destruct (range_start_inv remote_base cfg Hcfg k idx _ _ measuring now y (d_cl d) f' c' E1) as (H1 & H2 & H3).
    + apply (ci_conn _ _ _ Hd).
    + by apply (ci_range _ _ _ Hd).
    + rewrite <- (ci_range_length _ _ _ Hd). by eapply lookup_lt_Some.
    + apply (client_inv_mono cfg k); [lia|]. by apply client_range_stepped.
Qed.
End Client.

(** ** The deployment *)

Section System.
Context (remote_base : nat -> Z) (L : layout) (reg_cache writeback : bool) (Hdep : deployment_ok remote_base L).

Definition system_inv (k : Z) (s : system) : Prop :=
  (forall r a, reg_seq (sys_servers s r a) <= k) /\
  forall i d, sys_clients s !! i = Some d -> client_inv (client_config L i) k d.

(** What an event may change. *)
Definition raise (e : event) : Z := if raising e then 1 else 0.

Lemma system_inv_client k k' s i d d' :
  system_inv k s -> k <= k' -> sys_clients s !! i = Some d -> client_inv (client_config L i) k' d' ->
  system_inv k' (with_client i d' s).
Proof.
  intros [H1 H2] Hk Hd Hd'. split; cbn.
  - intros r a. specialize (H1 r a). lia.
  - intros j d2 Hj. apply list_lookup_insert_Some in Hj as [(<- & <- & _)|[_ Hj]]; [done|].
    apply (client_inv_mono _ k); [done|by apply H2].
Qed.

Lemma conc_step_inv k e s s' :
  conc_step remote_base L reg_cache writeback e s = Some s' -> system_inv k s -> 0 <= k -> k + raise e < 2 ^ 16 ->
  system_inv (k + raise e) s' /\ forall r a, reg_tag (sys_servers s r a) <= reg_tag (sys_servers s' r a).
Proof.
  intros H Hs Hk Hr. pose proof (client_config_ok remote_base L Hdep) as Hcfg.
  unfold conc_step in H. destruct e as [i r|i r|i idx now|i idx now|i idx op now measuring]; unfold raise in *; cbn [raising] in *;
    step_in H; pose proof (proj2 Hs i y E) as Hy.
  - step_in H. destruct y0 as [servers c]. injection H as <-. cbn [sys_servers].
    destruct Hs as [Hsv Hcl]. pose proof Hy as [Hc Hl1 Hl2 Hop Hrg].
    pose proof (nic_registers _ k r _ servers _ c E0 Hc Hsv) as Hreg. rewrite Z.add_0_r. split; [|intros r' a; exact (proj1 (Hreg r' a))].
    split; cbn [sys_servers sys_clients]; [intros r' a; exact (proj2 (Hreg r' a))|].
    intros j d Hj. apply list_lookup_insert_Some in Hj as [(<- & <- & _)|[_ Hj]]; [|by apply Hcl].
    split; cbn; [|done|done| |done].
    + by apply (nic_conn remote_base _ (Hcfg i) k r (sys_servers s) servers (d_cl y)).
    + intros idx f Hf. eapply (nic_op_inv remote_base _ (Hcfg i) k r (sys_servers s) servers (d_cl y)); try done; [|by apply Hop].
      rewrite <- Hl1. by eapply lookup_lt_Some.
  - step_in H. destruct y0 as [b d]. injection H as <-. split; [|done]. rewrite Z.add_0_r.
    eapply system_inv_client; [exact Hs|lia|exact E|]. exact (poll_inv remote_base _ (Hcfg i) k r false y b d E0 Hy).
  - step_in H. injection H as <-. split; [|done]. eapply system_inv_client; [exact Hs|lia|exact E|].
    exact (step_op_inv remote_base _ reg_cache writeback (Hcfg i) k Hk Hr idx now y y0 E0 Hy).
  - step_in H. injection H as <-. split; [|done]. rewrite Z.add_0_r. eapply system_inv_client; [exact Hs|lia|exact E|].
    exact (step_range_inv remote_base _ reg_cache (Hcfg i) k idx now y y0 E0 Hy).
  - step_in H. injection H as <-. split; [|done]. eapply system_inv_client; [exact Hs|lia|exact E|].
    exact (start_inv remote_base _ reg_cache (Hcfg i) k Hk Hr idx op now measuring y y0 E0 Hy).
Qed.

Lemma raises_cons e evs : raises (e :: evs) = raise e + raises evs.
Proof. unfold raises, raise. rewrite filter_cons. destruct (raising e); case_decide; done || (cbn [length]; lia). Qed.

Lemma raises_app evs evs' : raises (evs ++ evs') = raises evs + raises evs'.
Proof. unfold raises. rewrite filter_app, length_app. lia. Qed.

Lemma raises_nonneg evs : 0 <= raises evs.
Proof. unfold raises. lia. Qed.

Lemma conc_run_inv k evs s s' :
  conc_run remote_base L reg_cache writeback evs s = Some s' -> system_inv k s -> 0 <= k -> k + raises evs < 2 ^ 16 ->
  system_inv (k + raises evs) s' /\ forall r a, reg_tag (sys_servers s r a) <= reg_tag (sys_servers s' r a).
Proof.
  revert k s. induction evs as [|e evs IH]; intros k s H Hs Hk Hr; cbn [conc_run] in H.
  { injection H as <-. rewrite Z.add_0_r. done. }
  step_in H. rewrite raises_cons in *. pose proof (raises_nonneg evs) as Hn.
  assert (He : 0 <= raise e) by (unfold raise; destruct (raising e); lia).
  destruct (conc_step_inv k e s y E Hs Hk) as [H1 H2]; [lia|].
  destruct (IH (k + raise e) y H H1) as [H3 H4]; [lia|lia|]. rewrite Z.add_assoc. split; [done|].
  intros r a. specialize (H2 r a). specialize (H4 r a). lia.
Qed.

(** *** Deployments that start *)

Lemma client_new_shape cfg mr junk d : ds_client_new cfg mr junk = Some d ->
  c_mr (d_cl d) = mr /\ c_cache (d_cl d) = cache_new (Z.to_nat (num_registers (dc_layout cfg))) /\
  forall idx f, d_futures d !! idx = Some f -> of_kind f = KNone.
Proof.
  unfold ds_client_new, client_new. intros H. step_in H. step_in E. injection E as <-. step_in H. injection H as <-.
  split_and!; [done|done|]. cbn [d_futures]. intros idx f Hf. apply mapM_Some_1 in E.
  destruct (Forall2_lookup_r _ _ _ _ _ E Hf) as (j & _ & Hj). unfold op_new in Hj. step_in Hj. step_in Hj.
  by injection Hj as <-.
Qed.

Lemma client_new_inv i mr junk d :
  ds_client_new (client_config L i) mr junk = Some d -> (forall a, reg_seq (mr a) = 0) -> client_inv (client_config L i) 0 d.
Proof.
  intros H Hmr. destruct (client_new_shape _ _ _ _ H) as (Hm & Hca & Hkind).
  destruct (client_new_rest remote_base L Hdep i mr junk) as (d' & H' & Hr). rewrite H in H'. injection H' as <-.
  destruct (rest_idle _ _ Hr) as (mr0 & c0 & Hcl).
  assert (Hsq : forall s, (s < Z.to_nat (num_servers L))%nat -> c_sq (d_cl d) !!! s = [] /\ c_cq (d_cl d) !!! s = []).
  { intros s Hs. rewrite Hcl. unfold posted. cbn [c_sq c_cq].
    by rewrite !(list_lookup_total_correct _ _ _ (tab_lookup _ _ _ Hs)). }
  assert (Hzero : all_zero (client_config L i) (tab (Z.to_nat (num_servers (dc_layout (client_config L i)))) (fun _ => 0))).
  { intros s Hs. apply list_lookup_total_correct. by apply tab_lookup. }
  split.
  - split; rewrite ?Hm, ?Hca; try (rewrite Hcl; apply tab_length).
    + intros a. rewrite Hmr. lia.
    + cbn. intros x Hx%elem_of_replicate. destruct Hx as [-> _]. done.
    + intros s w Hs Hw. destruct (Hsq s Hs) as [He _]. rewrite He in Hw. by apply elem_of_nil in Hw.
  - apply (rest_length _ _ Hr).
  - apply (rest_range_length _ _ Hr).
  - intros idx f Hf. destruct (rest_op _ _ Hr idx f Hf) as (R1 & R2 & R3 & R4 & R5 & R6 & R7 & R8 & R9 & R10).
    split; rewrite ?R6, ?R7, ?(Hkind idx f Hf); try done; [apply tab_length|apply tab_length| | |].
    + intros s Hs. destruct (Hsq s Hs) as [E1 E2]. unfold in_flight. rewrite E1, E2.
      rewrite !(Hzero s Hs). done.
    + unfold get_inv. by rewrite R3.
    + unfold put_inv. by rewrite R4.
  - intros idx f Hf. destruct (rest_range _ _ Hr idx f Hf) as (R1 & R2 & _). split; [done|]. by rewrite R2.
Qed.
End System.

(** C4: registers never go back, in any interleaving.  Clients of a deployment
    with intersecting quorums start over zeroed servers and regions; then, in
    any order, clients start operations on futures that are done, poll and step
    their futures, and the network executes requests, each connection in its
    own time.  As long as fewer than 2^16 steps could raise a sequence number,
    each register of each server has a tag (sequence number, client) that never
    decreases, in every build (with or without the register cache and the
    write-back), and a sequence number of at most the number of those steps. *)
Theorem registers_never_go_back remote_base L reg_cache writeback clients ds evs evs' s s' :
  deployment_ok remote_base L -> clients_started L (replicate clients zero_region) ds ->
  conc_run remote_base L reg_cache writeback evs (System zero_servers ds) = Some s ->
  conc_run remote_base L reg_cache writeback evs' s = Some s' ->
  raises (evs ++ evs') < 2 ^ 16 ->
  forall r a, reg_tag (sys_servers s r a) <= reg_tag (sys_servers s' r a) /\
    reg_seq (sys_servers s' r a) <= raises (evs ++ evs').
Proof.
  intros Hdep Hds H H' Hr r a. rewrite raises_app in *. pose proof (raises_nonneg evs) as H1. pose proof (raises_nonneg evs') as H2.
  assert (Hinit : system_inv L 0 (System zero_servers ds)).
  { split; [done|]. cbn. intros i d Hd. unfold clients_started in Hds.
    destruct (Forall2_lookup_r _ _ _ _ _ Hds Hd) as ([j mr] & Hj & (junk & Hnew)).
    apply lookup_zip_Some in Hj as [[-> Hij]%lookup_seq Hmr]. apply lookup_replicate_1 in Hmr as [-> _].
    by apply (client_new_inv remote_base L Hdep _ zero_region junk). }
  destruct (conc_run_inv remote_base L reg_cache writeback Hdep 0 evs _ s H Hinit) as [Hs _]; [lia|lia|].
  destruct (conc_run_inv remote_base L reg_cache writeback Hdep (0 + raises evs) evs' s s' H' Hs) as [Hs' Ht]; [lia|lia|].
  split; [apply Ht|]. pose proof (proj1 Hs' r a). lia.
Qed.

(** Clients 0 and 2 put 5 and 7 at once: both read; client 2 swaps at server 0
    first; then client 0's swap there fails and is retried. *)
Definition both_read : list event :=
  [EStart 0 0 (OpPut 1 5) 0 false; EStart 2 0 (OpPut 1 7) 0 false;
   ENic 0 0; ENic 0 1; ENic 2 2; ENic 2 0; EPoll 0 0; EPoll 0 1; EPoll 2 2; EPoll 2 0;
   EStep 0 0 0; EStep 2 0 0; ENic 2 0].

Definition race_at_server_0 : list event :=
  [ENic 0 0; ENic 0 1; ENic 2 2; EPoll 0 0; EPoll 0 1; EPoll 2 0; EPoll 2 2; EStep 0 0 0; EStep 2 0 0; ENic 0 0].

Definition runs (evs : list event) (s : system) : bool :=
  match conc_run at_zero three_servers false false evs s with Some _ => true | None => false end.

Lemma runs_some evs evs' s : runs (evs ++ evs') s = true ->
  exists s1 s2, conc_run at_zero three_servers false false evs s = Some s1 /\
    conc_run at_zero three_servers false false evs' s1 = Some s2.
Proof.
  unfold runs. rewrite conc_run_app. destruct (conc_run _ _ _ _ evs s) as [s1|]; [|done]. cbn [mbind option_bind].
  destruct (conc_run _ _ _ _ evs' s1) as [s2|] eqn:E; [|done]. intros _. by exists s1, s2.
Qed.

(** The tags that server 0 holds for key 1 after the two halves. *)
Definition race_tags : option (Z * Z) :=
  s ← conc_run at_zero three_servers false false both_read (System zero_servers three_clients);
  s' ← conc_run at_zero three_servers false false race_at_server_0 s;
  Some (reg_seq (sys_servers s 0%nat 8), reg_seq (sys_servers s' 0%nat 8)).

Lemma registers_never_go_back_witness :
  race_tags = Some (1, 2) /\
  exists s s', conc_run at_zero three_servers false false both_read (System zero_servers three_clients) = Some s /\
    conc_run at_zero three_servers false false race_at_server_0 s = Some s' /\
    reg_tag (sys_servers s 0%nat 8) <= reg_tag (sys_servers s' 0%nat 8).
Proof.
  split; [vm_compute; reflexivity|].
  destruct (runs_some both_read race_at_server_0 (System zero_servers three_clients)) as (s & s' & E & E');
    [vm_compute; reflexivity|].
  exists s, s'. split; [exact E|]. split; [exact E'|].
  refine (proj1 (registers_never_go_back at_zero three_servers false false 3 three_clients both_read race_at_server_0 s s'
    three_servers_ok three_clients_started E E' _ 0%nat 8)). vm_compute. reflexivity.
Defined.
