(* ===== verification/SwarmLru.v ===== *)
(** * SwarmLru: the pointer cache of the baselines (lru-cache.hpp)

    swarm-kv and fusee keep the addresses of keys in an [LRUCache], a bounded
    map with a clock: [item_clock] is a circle of keys with reference counts,
    [item_map] records for each key its value and the index of its count, and
    [hand] goes round the circle when an entry must go.  The theorems: a cache
    is a lossy map that never answers a stale value and never outgrows its
    size, its eviction loop ends; and its counts are kept at the wrong index. *)

From S2P Require Import Prelude.

Local Open Scope Z_scope.

Record lru (K V : Type) `{Countable K} := Lru {
  item_map : gmap K (V * nat);
  item_clock : list (K * Z);
  lru_size : Z;
  hand : nat;
}.
Arguments Lru {K V _ _} item_map item_clock lru_size hand.
Arguments item_map {K V _ _} l.
Arguments item_clock {K V _ _} l.
Arguments lru_size {K V _ _} l.
Arguments hand {K V _ _} l.

Lemma replace_key {A} (l : list A) i y x : NoDup l -> x ∉ l -> l !! i = Some y ->
  NoDup (<[i := x]> l) /\ forall z, z ∈ <[i := x]> l <-> z = x \/ z ∈ l /\ z <> y.
Proof.
  intros Hd Hx Hi. rewrite (insert_take_drop _ _ _ (lookup_lt_Some _ _ _ Hi)). apply take_drop_middle in Hi.
  revert Hi. generalize (take i l) (drop (S i) l). intros a b <-.
  apply NoDup_app in Hd as (Ha & Hab & [Hy Hb]%NoDup_cons). rewrite elem_of_app, elem_of_cons in Hx.
  split.
  - apply NoDup_app. split_and!; [done| |apply NoDup_cons; split; [tauto|done]].
    intros z Hz [->|Hzb]%elem_of_cons; [tauto|]. apply (Hab z Hz). by right.
  - intros z. rewrite !elem_of_app, !elem_of_cons. specialize (Hab z). rewrite elem_of_cons in Hab. split.
    + intros [?|[->|?]]; [right|by left|right]; (split; [tauto|intros ->; tauto]).
    + intros [->|[[?|[->|?]] ?]]; tauto.
Qed.

Section Lru.
Context {K V : Type} `{Countable K}.
Implicit Types (c : lru K V) (m : gmap K (V * nat)) (clock : list (K * Z)) (k : K) (v : V).

Definition lru_new (size : Z) : lru K V := Lru ∅ [] size 0.

(** [item_clock[i].second += 1] *)
Definition touch (i : nat) clock : option (list (K * Z)) :=
  item ← clock !! i;
  Some (<[i := (item.1, u64 (item.2 + 1))]> clock).

(** The [while (true)] of [put]: it ends at an entry with no references, which
    it takes out of the map. *)
Fixpoint evict (fuel : nat) m clock (hand : nat) : option (gmap K (V * nat) * list (K * Z) * nat) :=
  match fuel with
  | O => None
  | S fuel' =>
      item ← clock !! hand;
      if item.2 =? 0 then Some (delete item.1 m, clock, hand)
      else evict fuel' m (<[hand := (item.1, item.2 - 1)]> clock) ((hand + 1) mod length clock)%nat
  end.

Definition lru_put (fuel : nat) k v c : option (lru K V) :=
  if lru_size c =? 0 then Some c
  else
    match item_map c !! k with
    | Some (_, i) =>
        clock ← touch i (item_clock c);
        Some (Lru (<[k := (v, i)]> (item_map c)) clock (lru_size c) (hand c))
    | None =>
        let m := <[k := (v, hand c)]> (item_map c) in
        if lru_size c <? Z.of_nat (size m) then
          '(m, clock, h) ← evict fuel m (item_clock c) (hand c);
          entry ← m !! k;
          Some (Lru (<[k := (entry.1, h)]> m) (<[h := (k, 0)]> clock) (lru_size c) ((h + 1) mod length clock)%nat)
        else
          let clock := item_clock c ++ [(k, 0)] in
          Some (Lru m clock (lru_size c) ((hand c + 1) mod length clock)%nat)
    end.

Definition lru_get k c : option (option V * lru K V) :=
  if lru_size c =? 0 then Some (None, c)
  else
    match item_map c !! k with
    | Some (v, i) =>
        clock ← touch i (item_clock c);
        Some (Some v, Lru (item_map c) clock (lru_size c) (hand c))
    | None => Some (None, c)
    end.

(** ** The invariant *)

Record lru_ok c : Prop := {
  ok_distinct : NoDup (item_clock c).*1;
  ok_keys k : is_Some (item_map c !! k) <-> k ∈ (item_clock c).*1;
  ok_index k v i : item_map c !! k = Some (v, i) -> (i < length (item_clock c))%nat;
  ok_hand : (hand c < length (item_clock c))%nat \/ item_clock c = [] /\ hand c = 0%nat;
  ok_size : Z.of_nat (length (item_clock c)) <= lru_size c;
  ok_counts : Forall (fun e => 0 <= e.2) (item_clock c);
}.

Lemma lru_new_ok n : 0 <= n -> lru_ok (lru_new n).
Proof.
  intros Hn. split; cbn; try done; [constructor| |by right].
  intros k. rewrite lookup_empty. split; [by intros []|by intros ?%elem_of_nil].
Qed.

(** The references that keep entries in the clock: each turn of the eviction
    loop that does not end it uses one up. *)
Definition references clock : nat := foldr (fun e n => (Z.to_nat e.2 + n)%nat) 0%nat clock.

Lemma keys_insert clock i item n : clock !! i = Some item -> (<[i := (item.1, n)]> clock).*1 = clock.*1.
Proof. intros Hi. rewrite list_fmap_insert. apply list_insert_id. by rewrite list_lookup_fmap, Hi. Qed.

Lemma references_insert clock i item (e : K * Z) : clock !! i = Some item ->
  (references (<[i := e]> clock) + Z.to_nat item.2 = references clock + Z.to_nat e.2)%nat.
Proof.
  intros Hi. rewrite (insert_take_drop _ _ _ (lookup_lt_Some _ _ _ Hi)). rewrite <- (take_drop_middle clock i item Hi) at 3.
  unfold references. rewrite !foldr_app. cbn [foldr fst snd]. generalize (foldr (fun e n => (Z.to_nat e.2 + n)%nat) 0%nat (drop (S i) clock)).
  intros n. induction (take i clock) as [|d l IH]; cbn [foldr] in *; lia.
Qed.

Lemma references_snoc clock k : references (clock ++ [(k, 0)]) = references clock.
Proof. unfold references. rewrite foldr_app. cbn. done. Qed.

Lemma counts_insert clock i (e : K * Z) : Forall (fun e => 0 <= e.2) clock -> 0 <= e.2 -> Forall (fun e => 0 <= e.2) (<[i := e]> clock).
Proof. intros. by apply Forall_insert. Qed.

Lemma next_hand h clock : clock <> [] -> ((h + 1) mod length clock < length clock)%nat.
Proof. intros Hc. apply Nat.mod_upper_bound. by destruct clock. Qed.

(** The eviction loop ends at an index whose key it has taken out; keys stay. *)
Lemma evict_spec fuel m : forall clock h, (h < length clock)%nat -> Forall (fun e => 0 <= e.2) clock ->
  (references clock < fuel)%nat -> exists clock' h' k,
  evict fuel m clock h = Some (delete k m, clock', h') /\ clock'.*1 = clock.*1 /\ clock' !! h' = Some (k, 0) /\
  Forall (fun e => 0 <= e.2) clock' /\ (references clock' <= references clock)%nat.
Proof.
  induction fuel as [|fuel IH]; intros clock h Hh Hc Hf; [lia|]. cbn [evict].
  destruct (lookup_lt_is_Some_2 clock h Hh) as [item Hi]. rewrite Hi. cbn [mbind option_bind].
  assert (H0 : 0 <= item.2) by (rewrite Forall_forall in Hc; by eapply Hc, list_elem_of_lookup_2).
  destruct (Z.eqb_spec item.2 0) as [Hz|Hz].
  - exists clock, h, item.1. split_and!; try done. rewrite Hi. destruct item. by cbn in Hz; subst.
  - pose proof (references_insert clock h item (item.1, item.2 - 1) Hi) as Hr. cbn [fst snd] in Hr.
    destruct (IH (<[h := (item.1, item.2 - 1)]> clock) ((h + 1) mod length clock)%nat) as (clock' & h' & k & He & Hk & Hl & Hc' & Hr').
    + rewrite length_insert. apply next_hand. by intros ->.
    + apply counts_insert; cbn; [done|lia].
    + lia.
    + exists clock', h', k. rewrite (keys_insert _ _ _ _ Hi) in Hk. split_and!; try done. lia.
Qed.

(** ** The operations *)

(** The map a cache stands for. *)
Definition values c : gmap K V := fst <$> item_map c.

Lemma values_lookup c k v : values c !! k = Some v <-> exists i, item_map c !! k = Some (v, i).
Proof.
  unfold values. rewrite lookup_fmap, fmap_Some. split.
  - intros ([v' i] & Hk & ->). by exists i.
  - intros [i Hi]. by exists (v, i).
Qed.

Lemma touch_spec c k v i : lru_ok c -> item_map c !! k = Some (v, i) -> exists clock',
  touch i (item_clock c) = Some clock' /\ clock'.*1 = (item_clock c).*1 /\ Forall (fun e => 0 <= e.2) clock' /\
  (references clock' <= references (item_clock c) + 1)%nat.
Proof.
  intros Hc Hk. destruct (lookup_lt_is_Some_2 (item_clock c) i) as [item Hi]; [by eapply ok_index|].
  assert (H0 : 0 <= item.2) by (pose proof (ok_counts c Hc) as Ha; rewrite Forall_forall in Ha; by eapply Ha, list_elem_of_lookup_2).
  exists (<[i := (item.1, u64 (item.2 + 1))]> (item_clock c)). unfold touch. rewrite Hi. split_and!; [done|by apply keys_insert| |].
  - apply counts_insert; [by apply ok_counts|apply u64_range].
  - pose proof (references_insert (item_clock c) i item (item.1, u64 (item.2 + 1)) Hi) as Hr. cbn [fst snd] in Hr.
    assert (u64 (item.2 + 1) <= item.2 + 1) by (apply Z.mod_le; lia). pose proof (u64_range (item.2 + 1)) as Hu. unfold is_u64 in Hu. lia.
Qed.

Lemma ok_same_keys c m clock : lru_ok c -> clock.*1 = (item_clock c).*1 -> Forall (fun e => 0 <= e.2) clock ->
  (forall k, is_Some (m !! k) <-> is_Some (item_map c !! k)) ->
  (forall k v i, m !! k = Some (v, i) -> (i < length clock)%nat) -> lru_ok (Lru m clock (lru_size c) (hand c)).
Proof.
  intros [H1 H2 H3 H4 H5 H6] Hk Hc Hm Hi. apply (f_equal length) in Hk as Hlen. rewrite !length_fmap in Hlen.
  split; cbn; [by rewrite Hk|intros k; by rewrite Hm, H2, Hk|done| |by rewrite Hlen|done].
  rewrite Hlen. destruct H4 as [|[H4 ->]]; [by left|]. right. rewrite H4 in Hlen. by destruct clock.
Qed.

Lemma lru_get_spec k c : lru_ok c -> exists c', lru_get k c = Some (values c !! k, c') /\ lru_ok c' /\
  values c' = values c /\ lru_size c' = lru_size c /\ (references (item_clock c') <= references (item_clock c) + 1)%nat.
Proof.
  intros Hc. unfold lru_get. destruct (Z.eqb_spec (lru_size c) 0) as [Hz|Hz].
  - exists c. split_and!; try done; [|lia]. do 2 f_equal. symmetry. unfold values. rewrite lookup_fmap, fmap_None.
    apply eq_None_not_Some. rewrite (ok_keys c Hc). pose proof (ok_size c Hc) as Hs. destruct (item_clock c); [|cbn in Hs; lia].
    by intros ?%elem_of_nil.
  - destruct (item_map c !! k) as [[v i]|] eqn:Hk.
    + destruct (touch_spec c k v i Hc Hk) as (clock' & -> & Hkeys & Hcounts & Hr). cbn [mbind option_bind].
      eexists. split_and!; [|apply (ok_same_keys c (item_map c) clock')|done|done|done]; try done.
      * do 2 f_equal. symmetry. apply values_lookup. by exists i.
      * intros k' v' i' Hk'. apply (f_equal length) in Hkeys. rewrite !length_fmap in Hkeys. rewrite Hkeys. by eapply ok_index.
    + exists c. split_and!; try done; [|lia]. do 2 f_equal. symmetry. unfold values. by rewrite lookup_fmap, Hk.
Qed.

Lemma values_insert_same c k v v0 i : item_map c !! k = Some (v0, i) ->
  fst <$> <[k := (v, i)]> (item_map c) = <[k := v]> (values c).
Proof. intros _. unfold values. by rewrite fmap_insert. Qed.

(** A full clock: as many entries as the cache may hold. *)
Definition full c : Prop := lru_size c <= Z.of_nat (length (item_clock c)).

Lemma size_item_map c : lru_ok c -> size (item_map c) = length (item_clock c).
Proof.
  intros Hc. assert (Hd : dom (item_map c) = list_to_set (item_clock c).*1).
  { apply set_eq. intros k. rewrite elem_of_dom, elem_of_list_to_set. by apply ok_keys. }
  rewrite <- size_dom, Hd, size_list_to_set by (by apply ok_distinct). by rewrite length_fmap.
Qed.

(** What a [put] makes of the values: the new one is there, and at most one
    other key has gone, which happens only for a new key in a full clock. *)
Definition put_effect k v c (m' : gmap K V) : Prop :=
  m' = <[k := v]> (values c) \/
  exists k', k' <> k /\ is_Some (values c !! k') /\ values c !! k = None /\ full c /\ m' = <[k := v]> (delete k' (values c)).

(** A [put] that evicts. *)
Lemma put_replaces c k v clock' h k' :
  lru_ok c -> item_map c !! k = None -> k ∉ (item_clock c).*1 ->
  clock'.*1 = (item_clock c).*1 -> clock' !! h = Some (k', 0) -> Forall (fun e => 0 <= e.2) clock' ->
  lru_ok (Lru (<[k := (v, h)]> (delete k' (item_map c))) (<[h := (k, 0)]> clock') (lru_size c) ((h + 1) mod length clock')%nat).
Proof.
  intros Hc Hk Hnk Hkeys Hh Hcounts. apply (f_equal length) in Hkeys as Hlen. rewrite !length_fmap in Hlen.
  apply lookup_lt_Some in Hh as Hlt.
  destruct (replace_key (item_clock c).*1 h k' k) as [Hd He]; [by apply ok_distinct|done|by rewrite <- Hkeys, list_lookup_fmap, Hh|].
  assert (Hks : (<[h := (k, 0)]> clock').*1 = <[h := k]> (item_clock c).*1) by (by rewrite list_fmap_insert, Hkeys).
  split; cbn; rewrite ?Hks, ?length_insert, ?Hlen; [done| | | | |by apply counts_insert].
  - intros k''. rewrite He, <- (ok_keys c Hc). destruct (decide (k'' = k)) as [->|Hne]; [rewrite lookup_insert_eq; split; eauto|].
    rewrite lookup_insert_ne by done. destruct (decide (k'' = k')) as [->|Hne'].
    + rewrite lookup_delete_eq. split; [by intros []|by intros [|[_ ?]]].
    + rewrite lookup_delete_ne by done. split; [by right|by intros [|[? _]]].
  - intros k'' v' i. destruct (decide (k'' = k)) as [->|]; [rewrite lookup_insert_eq; intros [= _ <-]; lia|].
    rewrite lookup_insert_ne by done. intros [_ Hi]%lookup_delete_Some. by eapply ok_index.
  - left. rewrite <- Hlen. apply next_hand. by intros ->.
  - by apply ok_size.
Qed.

(** A [put] that finds room. *)
Lemma put_appends c k v : lru_ok c -> k ∉ (item_clock c).*1 -> Z.of_nat (S (length (item_clock c))) <= lru_size c ->
  lru_ok (Lru (<[k := (v, hand c)]> (item_map c)) (item_clock c ++ [(k, 0)]) (lru_size c)
    ((hand c + 1) mod length (item_clock c ++ [(k, 0%Z)]))%nat).
Proof.
  intros Hc Hnk Hl. split; cbn; rewrite ?fmap_app, ?length_app; cbn.
  - apply NoDup_app. split_and!; [by apply ok_distinct|by intros x Hx ->%list_elem_of_singleton|apply NoDup_singleton].
  - intros k'. rewrite elem_of_app, list_elem_of_singleton, <- (ok_keys c Hc). destruct (decide (k' = k)) as [->|Hne].
    + rewrite lookup_insert_eq. split; eauto.
    + rewrite lookup_insert_ne by done. split; [by left|by intros [|]].
  - intros k' v' i. destruct (decide (k' = k)) as [->|Hne].
    + rewrite lookup_insert_eq. intros [= _ <-]. destruct (ok_hand c Hc) as [|[_ ->]]; lia.
    + rewrite lookup_insert_ne by done. intros ?%(ok_index c Hc). lia.
  - left. apply Nat.mod_upper_bound. lia.
  - lia.
  - apply Forall_app. split; [by apply ok_counts|by constructor].
Qed.

Lemma lru_put_spec fuel k v c : lru_ok c -> 0 < lru_size c -> (references (item_clock c) < fuel)%nat -> exists c',
  lru_put fuel k v c = Some c' /\ lru_ok c' /\ lru_size c' = lru_size c /\
  (references (item_clock c') <= references (item_clock c) + 1)%nat /\ put_effect k v c (values c').
Proof.
  intros Hc Hz Hf. unfold lru_put. destruct (Z.eqb_spec (lru_size c) 0) as [?|_]; [lia|].
  destruct (item_map c !! k) as [[v0 i]|] eqn:Hk.
  - destruct (touch_spec c k v0 i Hc Hk) as (clock' & -> & Hkeys & Hcounts & Hr). cbn [mbind option_bind].
    apply (f_equal length) in Hkeys as Hlen. rewrite !length_fmap in Hlen.
    eexists. split_and!; [done|apply ok_same_keys; try done|done|done|left; by eapply values_insert_same].
    + intros k'. destruct (decide (k' = k)) as [->|]; [|by rewrite lookup_insert_ne by done].
      rewrite lookup_insert_eq, Hk. split; eauto.
    + intros k' v' i'. rewrite Hlen. destruct (decide (k' = k)) as [->|].
      * rewrite lookup_insert_eq. intros [= -> ->]. by eapply ok_index.
      * rewrite lookup_insert_ne by done. by apply ok_index.
  - assert (Hnk : k ∉ (item_clock c).*1) by (rewrite <- (ok_keys c Hc), Hk; by intros []).
    rewrite map_size_insert_None by done. rewrite size_item_map by done.
    destruct (Z.ltb_spec (lru_size c) (Z.of_nat (S (length (item_clock c))))) as [Hl|Hl].
    + assert (Hh : (hand c < length (item_clock c))%nat) by (destruct (ok_hand c Hc) as [|[Hn _]]; [done|rewrite Hn in Hl; cbn in Hl; lia]).
      destruct (evict_spec fuel (<[k := (v, hand c)]> (item_map c)) (item_clock c) (hand c) Hh (ok_counts c Hc) Hf)
        as (clock' & h & k' & -> & Hkeys & Hh' & Hcounts & Hr). cbn [mbind option_bind].
      assert (Hk' : k' ∈ (item_clock c).*1) by (rewrite <- Hkeys; apply list_elem_of_fmap; exists (k', 0); split; [done|by eapply list_elem_of_lookup_2]).
      assert (Hne : k' <> k) by (by intros ->).
      rewrite lookup_delete_ne, lookup_insert_eq by done. cbn [mbind option_bind fst].
      rewrite delete_insert_ne, insert_insert_eq by done.
      eexists. split_and!; [done|by apply put_replaces|done| |].
      * pose proof (references_insert clock' h (k', 0) (k, 0) Hh') as Hri. cbn [fst snd item_clock] in *. lia.
      * right. exists k'. unfold values at 4. cbn. rewrite fmap_insert, fmap_delete. split_and!; try done.
        -- apply (ok_keys c Hc) in Hk' as [e He]. unfold values. rewrite lookup_fmap, He. by eexists.
        -- unfold values. by rewrite lookup_fmap, Hk.
        -- unfold full. lia.
    + eexists. split_and!; [done| |done|cbn; rewrite references_snoc; lia|left; unfold values; cbn; by rewrite fmap_insert].
      apply put_appends; [done|done|lia].
Qed.

(** ** Sessions *)

(** Calls on one cache, and the answers of its [get]s. *)
Inductive cache_call :=
  | CPut (k : K) (v : V)
  | CGet (k : K).

Fixpoint lru_run (fuel : nat) (calls : list cache_call) c : option (list (option V) * lru K V) :=
  match calls with
  | [] => Some ([], c)
  | CPut k v :: calls => c ← lru_put fuel k v c; lru_run fuel calls c
  | CGet k :: calls => '(r, c) ← lru_get k c; '(rs, c) ← lru_run fuel calls c; Some (r :: rs, c)
  end.

(** The same calls on a map that forgets nothing. *)
Fixpoint map_after (calls : list cache_call) (M : gmap K V) : gmap K V :=
  match calls with
  | [] => M
  | CPut k v :: calls => map_after calls (<[k := v]> M)
  | CGet k :: calls => map_after calls M
  end.

Fixpoint map_answers (calls : list cache_call) (M : gmap K V) : list (option V) :=
  match calls with
  | [] => []
  | CPut k v :: calls => map_answers calls (<[k := v]> M)
  | CGet k :: calls => M !! k :: map_answers calls M
  end.

(** What a cache may answer where the map answers [e]. *)
Definition lossy (r e : option V) : Prop := r = None \/ r = e.

Lemma size_values c : lru_ok c -> size (values c) = length (item_clock c).
Proof. intros Hc. unfold values. rewrite map_size_fmap. by apply size_item_map. Qed.

Lemma size_insert_le (M : gmap K V) k v : (size M <= size (<[k := v]> M))%nat.
Proof. rewrite map_size_insert. destruct (M !! k); cbn; lia. Qed.

Lemma map_after_size calls : forall M, (size M <= size (map_after calls M))%nat.
Proof.
  induction calls as [|[k v|k] calls IH]; intros M; cbn [map_after]; [done| |done].
  pose proof (size_insert_le M k v). specialize (IH (<[k := v]> M)). lia.
Qed.

Lemma put_mirrors fuel k v c : lru_ok c -> (references (item_clock c) < fuel)%nat -> exists c',
  lru_put fuel k v c = Some c' /\ lru_ok c' /\ lru_size c' = lru_size c /\
  (references (item_clock c') <= references (item_clock c) + 1)%nat /\
  (forall M, values c ⊆ M -> values c' ⊆ <[k := v]> M) /\
  (Z.of_nat (size (<[k := v]> (values c))) <= lru_size c -> values c' = <[k := v]> (values c)).
Proof.
  intros Hc Hf. pose proof (ok_size c Hc) as Hs. pose proof (size_values c Hc) as Hv.
  destruct (decide (lru_size c = 0)) as [Hz|Hz].
  - exists c. unfold lru_put. rewrite Hz. split_and!; try done; [lia| |].
    + intros M _. assert (values c = ∅) as -> by (apply map_size_empty_iff; lia). apply map_empty_subseteq.
    + rewrite map_size_insert. destruct (values c !! k) as [v'|] eqn:Hk; cbn; [|lia].
      rewrite (map_size_empty_inv (values c)) in Hk by lia. done.
  - destruct (lru_put_spec fuel k v c) as (c' & Hp & Hok & Hsz & Hr & He); [done|lia|done|].
    exists c'. split_and!; try done; destruct He as [He|(k' & Hne & _ & Hnone & Hfull & He)]; rewrite He; try done.
    + intros M HM. by apply insert_mono.
    + intros M HM. apply insert_mono. etrans; [apply delete_subseteq|done].
    + rewrite map_size_insert_None by done. unfold full in Hfull. lia.
Qed.

Lemma lru_run_spec fuel calls : forall c M, lru_ok c -> values c ⊆ M -> (references (item_clock c) + length calls <= fuel)%nat ->
  exists rs c', lru_run fuel calls c = Some (rs, c') /\ lru_ok c' /\ lru_size c' = lru_size c /\
  (references (item_clock c') <= references (item_clock c) + length calls)%nat /\
  values c' ⊆ map_after calls M /\ Forall2 lossy rs (map_answers calls M) /\
  (values c = M -> Z.of_nat (size (map_after calls M)) <= lru_size c -> rs = map_answers calls M).
Proof.
  induction calls as [|[k v|k] calls IH]; intros c M Hc HM Hf; cbn [lru_run map_after map_answers length] in *.
  - exists [], c. split_and!; try done; lia.
  - destruct (put_mirrors fuel k v c Hc) as (c1 & -> & Hc1 & Hs1 & Hr1 & HM1 & He1); [lia|]. cbn [mbind option_bind].
    destruct (IH c1 (<[k := v]> M)) as (rs & c2 & -> & Hc2 & Hs2 & Hr2 & HM2 & Ha & He2); [done|by apply HM1|lia|].
    exists rs, c2. split_and!; try done; [congruence|lia|]. intros <- Hsz. apply He2; [|by rewrite Hs1].
    apply He1. pose proof (map_after_size calls (<[k := v]> (values c))). lia.
  - destruct (lru_get_spec k c Hc) as (c1 & -> & Hc1 & Hv1 & Hs1 & Hr1). cbn [mbind option_bind].
    destruct (IH c1 M) as (rs & c2 & -> & Hc2 & Hs2 & Hr2 & HM2 & Ha & He2); [done|by rewrite Hv1|lia|]. cbn [mbind option_bind].
    eexists _, c2. split_and!; try done; [congruence|lia| |].
    + constructor; [|done]. destruct (values c !! k) as [v|] eqn:Hk; [right|by left].
      symmetry. by eapply lookup_weaken.
    + intros <- Hsz. f_equal. apply He2; [done|by rewrite Hs1].
Qed.

Lemma lru_run_app fuel calls1 calls2 : forall c, lru_run fuel (calls1 ++ calls2) c =
  '(rs1, c1) ← lru_run fuel calls1 c; '(rs2, c2) ← lru_run fuel calls2 c1; Some (rs1 ++ rs2, c2).
Proof.
  induction calls1 as [|[k v|k] calls1 IH]; intros c; cbn [lru_run app mbind option_bind].
  - by destruct (lru_run fuel calls2 c) as [[rs2 c2]|].
  - destruct (lru_put fuel k v c) as [c1|]; [apply IH|done].
  - destruct (lru_get k c) as [[r c1]|]; [|done]. cbn [mbind option_bind]. rewrite IH.
    destruct (lru_run fuel calls1 c1) as [[rs1 c1']|]; [|done]. cbn [mbind option_bind].
    by destruct (lru_run fuel calls2 c1') as [[rs2 c2]|].
Qed.

(** C37: A client's pointer cache is a lossy map that never answers a stale
    value: any sequence of puts and gets on a new cache returns, with as many
    turns of the eviction loop as there were calls at most in each; every get
    answers nothing or the value of the latest put of its key; the cache never
    holds more keys than its size, and while no more keys than that were put it
    forgets nothing, every get answering as a map does; a get that follows a put
    of its key in a cache of nonzero size answers that value. *)
Theorem lru_session size calls fuel k v : 0 <= size -> (length calls < fuel)%nat -> exists rs c,
  lru_run fuel calls (lru_new size) = Some (rs, c) /\
  Forall2 lossy rs (map_answers calls ∅) /\ values c ⊆ map_after calls ∅ /\
  Z.of_nat (base.size (values c)) <= size /\
  (Z.of_nat (base.size (map_after calls ∅)) <= size -> rs = map_answers calls ∅) /\
  (0 < size -> exists c', lru_run fuel (calls ++ [CPut k v; CGet k]) (lru_new size) = Some (rs ++ [Some v], c')).
Proof.
  intros Hs Hf.
  destruct (lru_run_spec fuel calls (lru_new size) ∅) as (rs & c & Hrun & Hc & Hsz & Hr & HM & Ha & He);
    [by apply lru_new_ok|unfold values; cbn; by rewrite fmap_empty|cbn; lia|].
  exists rs, c. split_and!; try done.
  - rewrite size_values by done. pose proof (ok_size c Hc) as Ho. by rewrite Hsz in Ho.
  - intros Hl. apply He; [unfold values; cbn; by rewrite fmap_empty|done].
  - intros Hpos. rewrite lru_run_app, Hrun. cbn [mbind option_bind lru_run].
    destruct (lru_put_spec fuel k v c) as (c1 & -> & Hc1 & _ & _ & He1); [done|rewrite Hsz; done|cbn in Hr; lia|]. cbn [mbind option_bind].
    destruct (lru_get_spec k c1 Hc1) as (c2 & -> & _). exists c2. cbn [mbind option_bind]. do 3 f_equal.
    destruct He1 as [->|(k' & _ & _ & _ & _ & ->)]; by rewrite lookup_insert_eq.
Qed.

(** ** The index of a count *)

(** A cache after its first puts, of distinct keys that fit. *)
Record filled c (kvs : list (K * V)) : Prop := {
  filled_clock : item_clock c = (fun kv => (kv.1, 0)) <$> kvs;
  filled_hand : hand c = pred (length kvs);
  filled_map k : item_map c !! k = None \/ k ∈ kvs.*1;
  filled_index j k v : kvs !! j = Some (k, v) -> item_map c !! k = Some (v, pred j);
}.

Lemma filled_put fuel c kvs k v : lru_ok c -> filled c kvs -> k ∉ kvs.*1 -> Z.of_nat (S (length kvs)) <= lru_size c ->
  exists c', lru_put fuel k v c = Some c' /\ lru_ok c' /\ lru_size c' = lru_size c /\ filled c' (kvs ++ [(k, v)]).
Proof.
  intros Hc [Hcl Hh Hm Hi] Hk Hs. assert (Hlen : length (item_clock c) = length kvs) by (by rewrite Hcl, length_fmap).
  assert (Hnk : k ∉ (item_clock c).*1) by (by rewrite Hcl, <- list_fmap_compose).
  assert (Hnone : item_map c !! k = None) by (by destruct (Hm k)).
  eexists. unfold lru_put. destruct (Z.eqb_spec (lru_size c) 0) as [?|_]; [lia|]. rewrite Hnone.
  rewrite map_size_insert_None, size_item_map, Hlen by done. destruct (Z.ltb_spec (lru_size c) (Z.of_nat (S (length kvs)))) as [?|_]; [lia|].
  split_and!; [done|apply put_appends; [done|done|by rewrite Hlen]|done|]. split; cbn.
  - by rewrite Hcl, fmap_app.
  - rewrite !length_app, Hlen, Hh. cbn. destruct kvs; [done|]. cbn [length pred]. rewrite Nat.mod_small; lia.
  - intros k'. rewrite fmap_app, elem_of_app. cbn. rewrite list_elem_of_singleton.
    destruct (decide (k' = k)) as [->|Hne]; [by right; right|]. rewrite lookup_insert_ne by done. destruct (Hm k'); auto.
  - intros j k' v' [Hj|[Hj Hj']]%lookup_app_Some.
    + rewrite lookup_insert_ne; [by apply Hi|]. intros ->. apply Hk, list_elem_of_fmap. eexists. split; [|by eapply list_elem_of_lookup_2]. done.
    + apply list_lookup_singleton_Some in Hj' as [Hj' [= <- <-]]. rewrite lookup_insert_eq, Hh. do 3 f_equal. lia.
Qed.

Lemma fill_spec fuel kvs : forall c pre, lru_ok c -> filled c pre -> NoDup (pre ++ kvs).*1 ->
  Z.of_nat (length (pre ++ kvs)) <= lru_size c -> exists c',
  lru_run fuel ((fun kv => CPut kv.1 kv.2) <$> kvs) c = Some ([], c') /\ lru_size c' = lru_size c /\ filled c' (pre ++ kvs).
Proof.
  induction kvs as [|[k v] kvs IH]; intros c pre Hc Hf Hd Hs.
  - exists c. by rewrite app_nil_r.
  - cbn [fmap list_fmap lru_run fst snd]. rewrite length_app in Hs. cbn in Hs.
    destruct (filled_put fuel c pre k v) as (c1 & -> & Hc1 & Hs1 & Hf1); [done|done| |lia|].
    + rewrite fmap_app in Hd. apply NoDup_app in Hd as (_ & Hd & _). intros Hk. apply (Hd k Hk). cbn. by left.
    + cbn [mbind option_bind]. rewrite (cons_middle (k, v) pre kvs) in Hd |- *. rewrite app_assoc in Hd |- *. rewrite <- Hs1.
      apply IH; try done.
      rewrite Hs1, !length_app. cbn. lia.
Qed.

(** Runs a call on a cache written out with distinct keys. *)
Ltac cache_step :=
  cbn; rewrite ?lookup_empty; repeat first
    [ rewrite lookup_insert_eq | rewrite lookup_insert_ne by congruence | rewrite lookup_delete_eq
    | rewrite lookup_delete_ne by congruence | rewrite map_size_insert_None by (simplify_map_eq; done) | rewrite map_size_empty
    | progress change (2 <? Z.of_nat 1) with false | progress change (2 <? Z.of_nat 2) with false | progress change (2 <? Z.of_nat 3) with true
    | progress change (u64 (0 + 1)) with 1 | progress change ((0 + 1) mod 1)%nat with 0%nat | progress change ((1 + 1) mod 2)%nat with 0%nat ]; cbn.

(** The cache keeps the counts of hits at the wrong index.  A key is
    recorded with [hand], but while the cache fills its entry goes to the end of
    the clock, and [hand] lags one behind: after any puts of distinct keys that
    fit, a hit on each key but the first counts for the key put before it.  So
    the clock may evict the only key that was used: with two places, put k1, put
    k2, get k2, put k3 loses k2 and keeps k1. *)
Theorem lru_counts_other_key size kvs j k v k' v' fuel :
  NoDup kvs.*1 -> Z.of_nat (length kvs) <= size -> kvs !! S j = Some (k, v) -> kvs !! j = Some (k', v') ->
  (exists c c', lru_run fuel ((fun kv => CPut kv.1 kv.2) <$> kvs) (lru_new size) = Some ([], c) /\
    item_clock c !! S j = Some (k, 0) /\ lru_get k c = Some (Some v, c') /\
    item_clock c' !! S j = Some (k, 0) /\ item_clock c' !! j = Some (k', 1)) /\
  (forall k1 k2 k3 v1 v2 v3, NoDup [k1; k2; k3] -> exists c,
    lru_run 2 [CPut k1 v1; CPut k2 v2; CGet k2; CPut k3 v3; CGet k2; CGet k1] (lru_new 2) = Some ([Some v2; None; Some v1], c)).
Proof.
  intros Hd Hs Hj Hj'. split.
  - destruct (fill_spec fuel kvs (lru_new size) []) as (c & Hrun & Hsz & [Hcl Hh Hm Hi]); [by apply lru_new_ok; lia| |done|done|].
    { split; cbn; try done. intros ?. left. apply lookup_empty. }
    cbn [app lru_size lru_new] in Hcl, Hi, Hsz.
    assert (Hlk : forall i a b, kvs !! i = Some (a, b) -> item_clock c !! i = Some (a, 0)) by (intros i a b Hi'; by rewrite Hcl, list_lookup_fmap, Hi').
    assert (Hlt := lookup_lt_Some _ _ _ Hj).
    exists c. unfold lru_get. rewrite Hsz. destruct (Z.eqb_spec size 0) as [?|_]; [lia|]. rewrite (Hi _ _ _ Hj). cbn [pred].
    unfold touch. rewrite (Hlk _ _ _ Hj'). cbn [mbind option_bind fst snd].
    eexists. split_and!; [done|by eapply Hlk|done| |]; cbn [item_clock].
    + rewrite list_lookup_insert_ne by lia. by eapply Hlk.
    + rewrite list_lookup_insert_eq; [done|]. rewrite Hcl, length_fmap. lia.
  - intros k1 k2 k3 v1 v2 v3 [H1 [H2 _]%NoDup_cons]%NoDup_cons. rewrite !elem_of_cons in H1. rewrite !elem_of_cons in H2.
    assert (k1 <> k2 /\ k1 <> k3 /\ k2 <> k3) as (H12 & H13 & H23) by tauto.
    eexists. cbn [lru_run]. unfold lru_put, lru_get, lru_new, touch.
    repeat (progress cache_step).
    done.
Qed.

End Lru.

Lemma lru_session_witness : exists rs c,
  lru_run 6 [CPut 1 10; CPut 2 20; CPut 3 30; CGet 2; CGet 3] (lru_new 2) = Some (rs, c) /\ rs = [None; Some 30] /\
  (size (values c) <= 2)%nat.
Proof.
  destruct (lru_session (K := Z) (V := Z) 2 [CPut 1 10; CPut 2 20; CPut 3 30; CGet 2; CGet 3] 6 7 70)
    as (rs & c & Hrun & _ & _ & Hs & _); [lia|cbn; lia|].
  exists rs, c. split_and!; [exact Hrun| |lia]. vm_compute in Hrun. congruence.
Defined.

Lemma lru_counts_other_key_witness : exists c c' : lru Z Z,
  lru_run 9 [CPut 1 10; CPut 2 20; CPut 3 30] (lru_new 4) = Some ([], c) /\
  lru_get 3 c = Some (Some 30, c') /\ item_clock c' !! 1%nat = Some (2, 1).
Proof.
  destruct (lru_counts_other_key (K := Z) (V := Z) 4 [(1, 10); (2, 20); (3, 30)] 1 3 30 2 20 9) as [(c & c' & Hr & _ & Hg & _ & Hi) _];
    [|cbn; lia|done|done|by exists c, c'].
  cbn. repeat (apply NoDup_cons; split; [rewrite ?elem_of_cons, elem_of_nil; lia|]). apply NoDup_nil_2.
Defined.
