(* ===== verification/SwarmState.v ===== *)
(** * SwarmState: timestamps, clock and memory layout of the baseline swarm-kv

    swarm-kv orders the writes of a key by 64-bit words that pack a timestamp,
    a log slot, a client and a verified flag (tspointers.hpp); a client draws
    timestamps from its clock and moves the clock past the timestamps it sees
    (oops_state.hpp); log entries and key-values lie in the memory of servers
    and clients at addresses that [Layout] computes (layout.hpp).  The theorems:
    words are faithful and ordered, the clock stays ahead of what it has seen,
    and as long as the memory fits, addresses are exact, ids out of range are
    refused and different objects never overlap. *)

From S2P Require Import Prelude.

Local Open Scope Z_scope.

(** ** tspointers.hpp *)

Definition TsSize : Z := 32.
Definition LogIdSize : Z := 24.
Definition ClientIdSize : Z := 7.

Definition TsMask : Z := Z.shiftl 1 TsSize - 1.
Definition LogIdMask : Z := Z.shiftl 1 LogIdSize - 1.
Definition ClientProcIdMask : Z := Z.shiftl 1 ClientIdSize - 1.

Definition TsOffset : Z := 64 - TsSize.
Definition LogIdOffset : Z := TsOffset - LogIdSize.
Definition ClientProcIdOffset : Z := LogIdOffset - ClientIdSize.

Definition makeTsp (ts log_id client_proc_id : Z) (validated : bool) : option Z :=
  if TsMask <? ts then None
  else if LogIdMask <? log_id then None
  else if ClientProcIdMask <? client_proc_id then None
  else
    let out := u64 (Z.shiftl (Z.land ts TsMask) TsOffset) in
    let out := Z.lor out (u64 (Z.shiftl (Z.land log_id LogIdMask) LogIdOffset)) in
    let out := Z.lor out (u64 (Z.shiftl (Z.land client_proc_id ClientProcIdMask) ClientProcIdOffset)) in
    Some (Z.lor out (if validated then 1 else 0)).

Definition extractTs (v : Z) : Z := Z.land (Z.shiftr v TsOffset) TsMask.
Definition extractLogId (v : Z) : Z := Z.land (Z.shiftr v LogIdOffset) LogIdMask.
Definition extractClientProcId (v : Z) : Z := Z.land (Z.shiftr v ClientProcIdOffset) ClientProcIdMask.
Definition filterLogIdAndClientProcId (v : Z) : Z :=
  Z.land v (Z.lor (Z.shiftl LogIdMask LogIdOffset) (Z.shiftl ClientProcIdMask ClientProcIdOffset)).
Definition isVerified (v : Z) : bool := negb (Z.land v 1 =? 0).
Definition validateTsp (tsp : Z) : Z := Z.lor tsp 1.

(** The word that packs four fields. *)
Definition tsp_word (ts log_id client_proc_id : Z) (validated : bool) : Z :=
  ts * 2 ^ 32 + log_id * 2 ^ 8 + client_proc_id * 2 + Z.b2z validated.

Definition tsp_fields (ts log_id client_proc_id : Z) : Prop :=
  0 <= ts < 2 ^ 32 /\ 0 <= log_id < 2 ^ 24 /\ 0 <= client_proc_id < 2 ^ 7.

Lemma makeTsp_spec ts log_id cid validated : tsp_fields ts log_id cid ->
  makeTsp ts log_id cid validated = Some (tsp_word ts log_id cid validated).
Proof.
  intros (Ht & Hl & Hc). unfold makeTsp, tsp_word.
  assert ((TsMask <? ts) = false /\ (LogIdMask <? log_id) = false /\ (ClientProcIdMask <? cid) = false) as (-> & -> & ->).
  { change TsMask with (2 ^ 32 - 1). change LogIdMask with (2 ^ 24 - 1). change ClientProcIdMask with (2 ^ 7 - 1). lia. }
  change TsMask with (Z.ones 32). change LogIdMask with (Z.ones 24). change ClientProcIdMask with (Z.ones 7).
  change TsOffset with 32. change LogIdOffset with 8. change ClientProcIdOffset with 1.
  rewrite !Z.land_ones, !Z.mod_small by lia.
  rewrite !(u64_small (Z.shiftl _ _)) by (unfold is_u64; rewrite Z.shiftl_mul_pow2; lia).
  assert (Hb : (if validated then 1 else 0) = Z.b2z validated) by (by destruct validated). rewrite Hb.
  assert (0 <= Z.b2z validated < 2) by (destruct validated; cbn; lia).
  rewrite <- !Z.lor_assoc. rewrite (lor_low cid), (lor_low log_id), (lor_low ts) by lia. f_equal. lia.
Qed.

Lemma makeTsp_refuses ts log_id cid validated : 0 <= ts -> 0 <= log_id -> 0 <= cid -> ~ tsp_fields ts log_id cid ->
  makeTsp ts log_id cid validated = None.
Proof.
  intros Ht Hl Hc Hf. unfold makeTsp, tsp_fields in *.
  destruct (Z.ltb_spec TsMask ts) as [|Ht']; [done|]. destruct (Z.ltb_spec LogIdMask log_id) as [|Hl']; [done|].
  destruct (Z.ltb_spec ClientProcIdMask cid) as [|Hc']; [done|]. exfalso.
  change TsMask with (2 ^ 32 - 1) in Ht'. change LogIdMask with (2 ^ 24 - 1) in Hl'. change ClientProcIdMask with (2 ^ 7 - 1) in Hc'. lia.
Qed.

Section Word.
Context (ts log_id cid : Z) (validated : bool) (Hf : tsp_fields ts log_id cid).

Lemma tsp_word_u64 : is_u64 (tsp_word ts log_id cid validated).
Proof using Hf. destruct Hf as (? & ? & ?). unfold is_u64, tsp_word. destruct validated; cbn [Z.b2z]; lia. Qed.

Lemma tsp_word_extract :
  extractTs (tsp_word ts log_id cid validated) = ts /\
  extractLogId (tsp_word ts log_id cid validated) = log_id /\
  extractClientProcId (tsp_word ts log_id cid validated) = cid /\
  isVerified (tsp_word ts log_id cid validated) = validated.
Proof using Hf.
  destruct Hf as (Ht & Hl & Hc). unfold extractTs, extractLogId, extractClientProcId, isVerified.
  change TsMask with (Z.ones 32). change LogIdMask with (Z.ones 24). change ClientProcIdMask with (Z.ones 7).
  change TsOffset with 32. change LogIdOffset with 8. change ClientProcIdOffset with 1.
  change (Z.land ?v 1) with (Z.land v (Z.ones 1)).
  rewrite !Z.land_ones, !Z.shiftr_div_pow2 by lia. unfold tsp_word.
  destruct validated; cbn [Z.b2z]; split_and!; try (Z.to_euclidean_division_equations; lia).
Qed.

Lemma tsp_word_validate : validateTsp (tsp_word ts log_id cid validated) = tsp_word ts log_id cid true.
Proof using Hf.
  clear Hf. unfold validateTsp, tsp_word. set (h := ts * 2 ^ 31 + log_id * 2 ^ 7 + cid).
  replace (ts * 2 ^ 32 + log_id * 2 ^ 8 + cid * 2) with (Z.shiftl h 1) by (rewrite Z.shiftl_mul_pow2; lia).
  assert (Hb : forall b, Z.shiftl h 1 + Z.b2z b = Z.lor (Z.shiftl h 1) (Z.b2z b)).
  { intros b. rewrite lor_low by (destruct b; cbn; lia). rewrite Z.shiftl_mul_pow2; lia. }
  rewrite !Hb, <- Z.lor_assoc. by destruct validated.
Qed.

Lemma tsp_word_filter : filterLogIdAndClientProcId (tsp_word ts log_id cid validated) = log_id * 2 ^ 8 + cid * 2.
Proof using Hf.
  destruct Hf as (Ht & Hl & Hc). unfold filterLogIdAndClientProcId.
  change (Z.lor _ _) with (Z.shiftl (Z.ones 31) 1).
  set (w := tsp_word _ _ _ _).
  rewrite land_high, Z.land_ones, Z.shiftl_mul_pow2, Z.shiftr_div_pow2 by lia. subst w. unfold tsp_word.
  destruct validated; cbn [Z.b2z]; Z.to_euclidean_division_equations; lia.
Qed.
End Word.

Lemma makeTsp_inv ts log_id cid validated v : 0 <= ts -> 0 <= log_id -> 0 <= cid ->
  makeTsp ts log_id cid validated = Some v -> tsp_fields ts log_id cid /\ v = tsp_word ts log_id cid validated.
Proof.
  intros Ht Hl Hc Hv. assert (Hf : tsp_fields ts log_id cid \/ ~ tsp_fields ts log_id cid) by (unfold tsp_fields; lia).
  destruct Hf as [Hf|Hf]; [|by rewrite makeTsp_refuses in Hv]. rewrite makeTsp_spec in Hv by done. split; [done|congruence].
Qed.

(** The order of two words, by timestamp, log slot, client and flag. *)
Definition tsp_before (ts log_id cid : Z) (validated : bool) (ts' log_id' cid' : Z) (validated' : bool) : Prop :=
  ts < ts' \/ ts = ts' /\ (log_id < log_id' \/ log_id = log_id' /\
    (cid < cid' \/ cid = cid' /\ validated = false /\ validated' = true)).

(** C38: The words that order the writes of swarm-kv are faithful: [makeTsp]
    refuses a field that does not fit its bits and otherwise gives a 64-bit
    word whose fields the extractors return; words are ordered by timestamp,
    then log slot, then client, and a verified word comes right after its
    unverified one, which is what [validateTsp] makes of it; the filter that
    checksums use agrees on two words exactly when log slot and client do. *)
Theorem tsp_words_correct ts log_id cid b : 0 <= ts -> 0 <= log_id -> 0 <= cid ->
  (tsp_fields ts log_id cid \/ makeTsp ts log_id cid b = None) /\
  (tsp_fields ts log_id cid -> exists v, makeTsp ts log_id cid b = Some v /\ is_u64 v /\
    extractTs v = ts /\ extractLogId v = log_id /\ extractClientProcId v = cid /\ isVerified v = b /\
    makeTsp ts log_id cid true = Some (validateTsp v) /\
    forall ts' log_id' cid' b' v', 0 <= ts' -> 0 <= log_id' -> 0 <= cid' -> makeTsp ts' log_id' cid' b' = Some v' ->
      (v < v' <-> tsp_before ts log_id cid b ts' log_id' cid' b') /\
      (filterLogIdAndClientProcId v = filterLogIdAndClientProcId v' <-> log_id = log_id' /\ cid = cid')).
Proof.
  intros Ht Hl Hc. split.
  - assert (Hf : tsp_fields ts log_id cid \/ ~ tsp_fields ts log_id cid) by (unfold tsp_fields; lia).
    destruct Hf; [by left|right; by apply makeTsp_refuses].
  - intros Hf. exists (tsp_word ts log_id cid b). rewrite !makeTsp_spec, tsp_word_validate by done.
    destruct (tsp_word_extract ts log_id cid b Hf) as (E1 & E2 & E3 & E4).
    split_and!; try done; [by apply tsp_word_u64|]. intros ts' log_id' cid' b' v' Ht' Hl' Hc' Hv'.
    apply makeTsp_inv in Hv' as [Hf' ->]; [|done..]. rewrite !tsp_word_filter by done.
    destruct Hf as (? & ? & ?), Hf' as (? & ? & ?). unfold tsp_word, tsp_before. split; [|lia].
    destruct b, b'; cbn [Z.b2z]; lia.
Qed.

Lemma tsp_words_correct_witness : exists v,
  makeTsp 5 3 2 false = Some v /\ extractTs v = 5 /\ makeTsp 5 3 2 true = Some (validateTsp v) /\
  (forall v', makeTsp 6 0 0 false = Some v' -> v < v').
Proof.
  destruct (tsp_words_correct 5 3 2 false ltac:(lia) ltac:(lia) ltac:(lia)) as [_ [v (Hv & _ & Ht & _ & _ & _ & Hval & Ho)]].
  - unfold tsp_fields. lia.
  - exists v. split_and!; try done. intros v' Hv'. destruct (Ho 6 0 0 false v') as [Ho' _]; [lia..|done|].
    apply Ho'. unfold tsp_before. lia.
Defined.

(** ** The clock of a client (oops_state.hpp) *)

Definition MIN_RTT : Z := 1400.
Definition TS_GRANULARITY : Z := MIN_RTT / 3.
Definition MIN_TS_PER_RTT : Z := MIN_RTT / TS_GRANULARITY.

Record clock := Clock {
  ts_time_offset : option Z;
  max_ever_seen_ts : Z;
  death_point : Z;
  dead_servers : Z;
}.

Definition clock_new (death_point : Z) : clock := Clock None 0 death_point 0.

(** The client plays the death of a server at [death_point]. *)
Definition mark_dead (time : Z) (st : clock) : clock :=
  if death_point st <? time then Clock (ts_time_offset st) (max_ever_seen_ts st) (2 ^ 64 - 1) 1 else st.

(** [now] is what the steady clock reads, in nanoseconds. *)
Definition newTs (now : Z) (st : clock) : option (Z * clock) :=
  let time := match ts_time_offset st with Some off => u64 (now - off) | None => 0 end in
  let st := mark_dead time st in
  let ts := time / TS_GRANULARITY in
  if ts <? max_ever_seen_ts st then None
  else if TsMask <? ts then None
  else Some (ts, st).

Definition syncClock (now : Z) (tsp : Z) (force : bool) (st : clock) : clock :=
  if negb force && bool_decide (ts_time_offset st = None) then st
  else
    let ts := extractTs tsp in
    if negb force && (ts <=? max_ever_seen_ts st) then st
    else
      let max_offset := u64 (now - u64 (u64 (ts + MIN_TS_PER_RTT) * TS_GRANULARITY)) in
      if negb force && (default 0 (ts_time_offset st) <=? max_offset)
      then Clock (ts_time_offset st) ts (death_point st) (dead_servers st)
      else Clock (Some max_offset) ts (death_point st) (dead_servers st).

(** A client's use of its clock, each call with what the steady clock reads. *)
Inductive clock_call :=
  | CNew (now : Z)
  | CSync (now : Z) (tsp : Z).

Definition call_now (e : clock_call) : Z := match e with CNew now | CSync now _ => now end.

Fixpoint clock_run (calls : list clock_call) (st : clock) : option (list Z * clock) :=
  match calls with
  | [] => Some ([], st)
  | CNew now :: calls => '(ts, st) ← newTs now st; '(tss, st) ← clock_run calls st; Some (ts :: tss, st)
  | CSync now tsp :: calls => clock_run calls (syncClock now tsp false st)
  end.

(** The offset of the logical time from the steady clock: a word that would be
    less than a round trip behind the logical time lowers it. *)
Definition offset_after (off : Z) (e : clock_call) : Z :=
  match e with
  | CNew _ => off
  | CSync now tsp => Z.min off (now - (extractTs tsp + MIN_TS_PER_RTT) * TS_GRANULARITY)
  end.

(** The steady clock does not go back and reads at least the time that the
    words seen ask for (so that no offset is negative), and the logical time is
    less than 2^32 granules. *)
Fixpoint clock_ok (t off : Z) (calls : list clock_call) : Prop :=
  match calls with
  | [] => True
  | e :: calls => t <= call_now e < 2 ^ 64 /\ 0 <= offset_after off e /\
      call_now e - offset_after off e < 2 ^ 32 * TS_GRANULARITY /\ clock_ok (call_now e) (offset_after off e) calls
  end.

(** The timestamps handed out: [m] is the largest seen so far, [l] the last one
    handed out. *)
Fixpoint ahead (m l : Z) (calls : list clock_call) (tss : list Z) : Prop :=
  match calls, tss with
  | [], [] => True
  | CNew _ :: calls, ts :: tss => m + MIN_TS_PER_RTT <= ts /\ l <= ts <= TsMask /\ ahead m ts calls tss
  | CSync _ tsp :: calls, tss => ahead (Z.max m (extractTs tsp)) l calls tss
  | _, _ => False
  end.

Record clock_inv (t m l : Z) (st : clock) (off : Z) : Prop := {
  inv_offset : ts_time_offset st = Some off;
  inv_max : max_ever_seen_ts st = m;
  inv_pos : 0 <= off /\ 0 <= m;
  inv_room : off + (m + 3) * 466 <= t;
  inv_last : l * 466 <= t - off;
}.

Lemma extractTs_range v : 0 <= extractTs v < 2 ^ 32.
Proof. unfold extractTs. change TsMask with (Z.ones 32). rewrite Z.land_ones by lia. apply Z.mod_pos_bound. lia. Qed.

Lemma mark_dead_offset time st : ts_time_offset (mark_dead time st) = ts_time_offset st.
Proof. unfold mark_dead. by destruct (_ <? _). Qed.

Lemma mark_dead_max time st : max_ever_seen_ts (mark_dead time st) = max_ever_seen_ts st.
Proof. unfold mark_dead. by destruct (_ <? _). Qed.

Lemma newTs_inv t m l st off now : clock_inv t m l st off -> t <= now < 2 ^ 64 -> now - off < 2 ^ 32 * 466 ->
  exists ts st', newTs now st = Some (ts, st') /\ m + 3 <= ts /\ l <= ts <= TsMask /\ clock_inv now m ts st' off.
Proof.
  intros [Ho Hm [Hp Hp'] Hr Hl] Hn Hlog. unfold newTs. rewrite Ho, u64_small by (unfold is_u64; lia).
  change TS_GRANULARITY with 466. set (ts := (now - off) / 466).
  assert (Hts : ts * 466 <= now - off < ts * 466 + 466) by (subst ts; Z.to_euclidean_division_equations; lia).
  rewrite mark_dead_max, Hm. change TsMask with (2 ^ 32 - 1). destruct (Z.ltb_spec ts m); [lia|]. destruct (Z.ltb_spec (2 ^ 32 - 1) ts); [lia|].
  eexists ts, _. split_and!; try done; try lia. split; rewrite ?mark_dead_offset, ?mark_dead_max; try done; lia.
Qed.

(** Past the last granule the timestamp does not fit its 32 bits. *)
Lemma clock_runs_out st off now : ts_time_offset st = Some off -> 0 <= off -> now < 2 ^ 64 ->
  2 ^ 32 * 466 <= now - off -> newTs now st = None.
Proof.
  intros Ho Hoff Hn Hlog. unfold newTs. rewrite Ho, u64_small by (unfold is_u64; lia).
  change TS_GRANULARITY with 466. rewrite mark_dead_max. destruct (_ <? max_ever_seen_ts st); [done|].
  change TsMask with (2 ^ 32 - 1). destruct (Z.ltb_spec (2 ^ 32 - 1) ((now - off) / 466)); [done|].
  Z.to_euclidean_division_equations; lia.
Qed.

Lemma syncClock_inv t m l st off now tsp : clock_inv t m l st off -> t <= now < 2 ^ 64 ->
  0 <= offset_after off (CSync now tsp) ->
  clock_inv now (Z.max m (extractTs tsp)) l (syncClock now tsp false st) (offset_after off (CSync now tsp)).
Proof.
  intros [Ho Hm [Hp Hp'] Hr Hl] Hn. cbn [offset_after]. change MIN_TS_PER_RTT with 3. change TS_GRANULARITY with 466.
  intros Ht. unfold syncClock. cbn [negb andb].
  rewrite bool_decide_eq_false_2 by (by rewrite Ho). rewrite Ho, Hm. cbn [default].
  pose proof (extractTs_range tsp) as He. destruct (Z.leb_spec (extractTs tsp) m) as [Hle|Hlt].
  { rewrite Z.max_l, Z.min_l by lia. split; try done; lia. }
  change MIN_TS_PER_RTT with 3. change TS_GRANULARITY with 466.
  rewrite (u64_small (extractTs tsp + 3)), (u64_small (_ * 466)), u64_small by (unfold is_u64; lia). rewrite Z.max_r by lia.
  unfold id. destruct (Z.leb_spec off (now - (extractTs tsp + 3) * 466)) as [Hoff|Hoff].
  - rewrite Z.min_l by lia. split; cbn; try done; lia.
  - rewrite Z.min_r by lia. split; cbn; [done|done|lia..].
Qed.

Definition last_now (t : Z) (calls : list clock_call) : Z := foldl (fun _ => call_now) t calls.
Definition last_offset (off : Z) (calls : list clock_call) : Z := foldl offset_after off calls.

Lemma clock_run_inv calls : forall t m l st off, clock_inv t m l st off -> clock_ok t off calls ->
  exists tss st' m' l', clock_run calls st = Some (tss, st') /\ ahead m l calls tss /\
    clock_inv (last_now t calls) m' l' st' (last_offset off calls).
Proof.
  induction calls as [|[now|now tsp] calls IH]; intros t m l st off Hi; [by exists [], st, m, l|..];
    cbn [clock_ok clock_run ahead call_now]; intros (Hn & Ho & Hlog & Hok);
    change TS_GRANULARITY with 466 in *; change MIN_TS_PER_RTT with 3 in *.
  - destruct (newTs_inv t m l st off now Hi Hn Hlog) as (ts & st1 & -> & Hm & Hl & Hi1). cbn [mbind option_bind].
    destruct (IH now m ts st1 off Hi1 Hok) as (tss & st2 & m' & l' & -> & Ha & Hi2). by exists (ts :: tss), st2, m', l'.
  - pose proof (syncClock_inv t m l st off now tsp Hi Hn Ho) as Hi1. eapply IH; done.
Qed.

Lemma clock_run_new calls now : forall st,
  clock_run (calls ++ [CNew now]) st =
    '(tss, st') ← clock_run calls st; '(ts, st'') ← newTs now st'; Some (tss ++ [ts], st'').
Proof.
  induction calls as [|[n|n tsp] calls IH]; intros st; cbn [app clock_run]; [|destruct (newTs n st) as [[ts st1]|]; [|done]|apply IH].
  - cbn. by destruct (newTs now st) as [[ts st']|].
  - cbn [mbind option_bind]. rewrite IH. destruct (clock_run calls st1) as [[tss st2]|]; [|done]. cbn [mbind option_bind].
    by destruct (newTs now st2) as [[ts' st3]|].
Qed.

(** C39: A client that has started its clock never runs into its own
    monotonicity check, and knows when its timestamps run out.  Let the steady
    clock not go back, read at least the time that each word the client sees
    asks for, and let the logical time (the steady clock minus the client's
    offset, which starts one round trip below the reading at the start and is
    lowered by words that are ahead) stay below 2^32 granules of 466 ns, about
    33 minutes.  Then every request for a timestamp succeeds, and gives one that
    is at least a round trip ahead of every timestamp seen before and not below
    any handed out before.  The first request after that time throws. *)
Theorem clock_stays_ahead dp t0 calls :
  MIN_TS_PER_RTT * TS_GRANULARITY <= t0 < 2 ^ 64 ->
  let off := t0 - MIN_TS_PER_RTT * TS_GRANULARITY in
  let start := syncClock t0 0 true (clock_new dp) in
  clock_ok t0 off calls ->
  (exists tss st, clock_run calls start = Some (tss, st) /\ ahead 0 0 calls tss) /\
  (forall now, now < 2 ^ 64 -> 2 ^ 32 * TS_GRANULARITY <= now - last_offset off calls ->
    clock_run (calls ++ [CNew now]) start = None).
Proof.
  intros Ht off start Hok. subst off. change MIN_TS_PER_RTT with 3 in *. change TS_GRANULARITY with 466 in *.
  destruct (clock_run_inv calls t0 0 0 start (t0 - 1398)) as (tss & st & m & l & Hrun & Ha & [Ho _ [Hp _] _ _]); [|done|].
  - subst start. unfold syncClock. cbn [negb andb]. change (extractTs 0) with 0.
    change (u64 (u64 (0 + MIN_TS_PER_RTT) * TS_GRANULARITY)) with 1398.
    rewrite u64_small by (unfold is_u64; lia). split; cbn; try done; lia.
  - split; [by exists tss, st|]. intros now Hn Hlog. rewrite clock_run_new, Hrun. cbn [mbind option_bind].
    by rewrite (clock_runs_out st _ now Ho).
Qed.

(** A host that has been up for a day; the word it sees is ahead and lowers the
    offset.  Half an hour later it still has timestamps, an hour later none. *)
Definition day : Z := 86400 * 10 ^ 9.
Definition clock_demo : list clock_call :=
  [CNew (day + 500); CSync (day + 1000) (Z.shiftl 100 32); CNew (day + 1010); CNew (day + 1800 * 10 ^ 9)].

Lemma clock_stays_ahead_witness :
  (exists tss st, clock_run clock_demo (syncClock day 0 true (clock_new 9)) = Some (tss, st) /\ tss = [4; 103; 3862661045]) /\
  clock_run (clock_demo ++ [CNew (day + 3600 * 10 ^ 9)]) (syncClock day 0 true (clock_new 9)) = None.
Proof.
  destruct (clock_stays_ahead 9 day clock_demo) as [(tss & st & Hrun & _) Hout];
    [by vm_compute|vm_compute; intuition congruence|]. split.
  - exists tss, st. split; [exact Hrun|]. vm_compute in Hrun. congruence.
  - apply Hout; [by vm_compute|vm_compute; congruence].
Defined.

(** A word that is ahead of what the steady clock reads: the offset it asks for
    wraps around, so it is not taken, and the client throws when it next needs a
    timestamp. *)
Lemma clock_left_behind st off now tsp now' :
  ts_time_offset st = Some off -> 0 <= off <= now -> now < 2 ^ 63 -> now <= now' < 2 ^ 63 ->
  max_ever_seen_ts st < extractTs tsp -> now < (extractTs tsp + MIN_TS_PER_RTT) * TS_GRANULARITY ->
  now' - off < extractTs tsp * TS_GRANULARITY -> newTs now' (syncClock now tsp false st) = None.
Proof.
  change MIN_TS_PER_RTT with 3. change TS_GRANULARITY with 466. intros Ho Hoff Hn Hn' Hm Hlt Hnew.
  pose proof (extractTs_range tsp) as He. unfold syncClock. cbn [negb andb].
  rewrite bool_decide_eq_false_2 by (by rewrite Ho). destruct (Z.leb_spec (extractTs tsp) (max_ever_seen_ts st)); [lia|].
  change MIN_TS_PER_RTT with 3. change TS_GRANULARITY with 466.
  rewrite (u64_small (extractTs tsp + 3)), (u64_small (_ * 466)) by (unfold is_u64; lia).
  assert (Hw : u64 (now - (extractTs tsp + 3) * 466) = now - (extractTs tsp + 3) * 466 + 2 ^ 64).
  { unfold u64. rewrite <- (Z.mod_small (_ + 2 ^ 64) (2 ^ 64)) by lia. by rewrite Z.add_mod, Z.mod_same, Z.add_0_r, Z.mod_mod by lia. }
  rewrite Hw, Ho. cbn [default]. unfold id. destruct (Z.leb_spec off (now - (extractTs tsp + 3) * 466 + 2 ^ 64)) as [_|?]; [|lia].
  unfold newTs. cbn [ts_time_offset]. rewrite u64_small by (unfold is_u64; lia). change TS_GRANULARITY with 466.
  assert (Hts : (now' - off) / 466 < extractTs tsp) by (Z.to_euclidean_division_equations; lia).
  rewrite mark_dead_max. cbn [max_ever_seen_ts]. destruct (Z.ltb_spec ((now' - off) / 466) (extractTs tsp)); [done|lia].
Qed.

(** ** The layout of memory (layout.hpp) *)

Definition u32 (x : Z) : Z := x mod 2 ^ 32.

(** [sizeof(KV)], [sizeof(LogEntry)], [offsetof(LogEntry, kv)]. *)
Definition KV_SIZE : Z := 24.
Definition LOG_ENTRY_SIZE : Z := 40.
Definition LOG_KV_OFFSET : Z := 16.

Record layout := Layout {
  doorbell : bool;
  in_place : bool;
  bucket_bits : Z;
  num_clients : Z;
  num_servers : Z;
  majority : Z;
  num_tsp : Z;
  guess_ts : bool;
  async_parallelism : Z;
  keys_per_server : Z;
  server_logs_per_client : Z;
  key_size : Z;
  value_size : Z;
  client_local_region : Z;
}.

Section Layout.
Context (L : layout).

Definition firstServerId : Z := 1.
Definition firstClientId : Z := u64 (num_servers L + 1).

Definition rawKVSize : Z := u32 (key_size L + value_size L).
Definition tspArraySize : Z := u32 (u64 (8 * num_tsp L)).
Definition rawDataSize : Z := u32 (rawKVSize + tspArraySize).
Definition partialKVSize : Z := u32 (KV_SIZE + rawKVSize).
Definition fullKVSize : Z := u32 (KV_SIZE + rawDataSize).

Definition rawKVOffset : Z := KV_SIZE.
Definition keyOffset : Z := KV_SIZE.
Definition valueOffset : Z := u64 (keyOffset + key_size L).
Definition tspArrayOffset : Z := u64 (valueOffset + value_size L).

(** Division by a zero [num_tsp] is undefined. *)
Definition clientTspOffset (client_idx : Z) : option Z :=
  assert_ (negb (num_tsp L =? 0)) ;; Some (u64 (tspArrayOffset + u64 (8 * (client_idx mod num_tsp L)))).

Definition partialLogEntrySize : Z := u32 (LOG_ENTRY_SIZE + rawKVSize).
Definition fullLogEntrySize : Z := u32 (LOG_ENTRY_SIZE + rawDataSize).

Definition pad64 (size : Z) : Z := u64 (Z.shiftl (u64 (Z.shiftr (u64 (size - 1)) 6 + 1)) 6).
Definition fullKVSizeWithPadding : Z := pad64 fullKVSize.
Definition fullLogEntrySizeWithPadding : Z := pad64 fullLogEntrySize.
Definition partialLogEntrySizeWithPadding : Z := pad64 partialLogEntrySize.

Definition serverLogSize : Z :=
  u64 (u64 (partialLogEntrySizeWithPadding * server_logs_per_client L) * num_clients L).
Definition clientLogSize : Z :=
  u64 (u64 (fullLogEntrySizeWithPadding * u64 (1 + num_servers L)) * async_parallelism L).

Definition serverLogsOffset : Z := 0.
Definition serverDataOffset : Z := serverLogSize.
Definition serverSize : Z := u64 (serverLogSize + u64 (fullKVSizeWithPadding * keys_per_server L)).
Definition clientLogsOffset : Z := 0.
Definition clientSize : Z := clientLogSize.

(** ** Addresses in a server's memory *)

Definition getServerLogAddress (region client_idx log_id : Z) : option Z :=
  if num_clients L <=? client_idx then None
  else if server_logs_per_client L <=? log_id then None
  else Some (u64 (u64 (region + serverLogsOffset) +
         u64 (partialLogEntrySizeWithPadding * u64 (log_id + u64 (server_logs_per_client L * client_idx))))).

Definition getServerLogKVAddress (region client_idx log_id : Z) : option Z :=
  a ← getServerLogAddress region client_idx log_id; Some (u64 (a + LOG_KV_OFFSET)).

Definition getServerKVAddress (region kv_id : Z) : option Z :=
  if keys_per_server L <=? kv_id then None
  else Some (u64 (u64 (region + serverDataOffset) + u64 (fullKVSizeWithPadding * kv_id))).

(** ** Addresses in a client's memory *)

Definition getClientLogAddress (logblock_id sublog_id : Z) : option Z :=
  if u64 (1 + num_servers L) <=? sublog_id then None
  else if async_parallelism L <=? logblock_id then None
  else Some (u64 (u64 (client_local_region L + clientLogsOffset) +
         u64 (fullLogEntrySizeWithPadding * u64 (sublog_id + u64 (logblock_id * u64 (1 + num_servers L)))))).

Definition getClientReadLogAddress (logblock_id server_idx : Z) : option Z :=
  if num_servers L <=? server_idx then None else getClientLogAddress logblock_id (u64 (1 + server_idx)).

Definition getClientWriteLogAddress (logblock_id : Z) : option Z := getClientLogAddress logblock_id 0.

(** ** The timestamps of a key-value *)

(** The words of [tspArrayOf]; indexing past them is out of bounds. *)
Definition maxTspOf (tsps : list Z) : option Z :=
  assert_ (Z.to_nat (num_tsp L) <=? length tsps)%nat ;;
  Some (foldl Z.max 0 (take (Z.to_nat (num_tsp L)) tsps)).

Definition myTspOf (tsps : list Z) (client_idx : Z) : option Z :=
  assert_ (negb (num_tsp L =? 0)) ;; tsps !! Z.to_nat (client_idx mod num_tsp L).
End Layout.

(** ** Sizes without wrap-around *)

Definition padded (n : Z) : Z := (n + 63) / 64 * 64.

(** Bytes of a key-value and of its timestamps, and the strides. *)
Definition raw (L : layout) : Z := key_size L + value_size L.
Definition log_stride (L : layout) : Z := padded (40 + raw L).
Definition kv_stride (L : layout) : Z := padded (24 + raw L + 8 * num_tsp L).
Definition client_stride (L : layout) : Z := padded (40 + raw L + 8 * num_tsp L).

Definition server_logs (L : layout) : Z := log_stride L * (server_logs_per_client L * num_clients L).
Definition server_bytes (L : layout) : Z := server_logs L + kv_stride L * keys_per_server L.
Definition client_bytes (L : layout) : Z := client_stride L * ((1 + num_servers L) * async_parallelism L).

(** The memory of a server whose region starts at [region], and of the client,
    fit their address spaces, and an entry's size fits 32 bits. *)
Record layout_fits (L : layout) (region : Z) : Prop := {
  fit_clients : 0 <= num_clients L;
  fit_servers : 0 <= num_servers L < 2 ^ 64 - 1;
  fit_tsp : 0 <= num_tsp L;
  fit_parallel : 0 <= async_parallelism L;
  fit_keys : 0 <= keys_per_server L;
  fit_logs : 0 <= server_logs_per_client L;
  fit_raw : 0 <= key_size L /\ 0 <= value_size L;
  fit_entry : 40 + raw L + 8 * num_tsp L < 2 ^ 32;
  fit_server : 0 <= region /\ region + server_bytes L < 2 ^ 64;
  fit_client : 0 <= client_local_region L /\ client_local_region L + client_bytes L < 2 ^ 64;
}.

Lemma padded_bounds n : n <= padded n < n + 64 /\ padded n mod 64 = 0.
Proof. unfold padded. split; [Z.to_euclidean_division_equations; lia|]. apply Z.mod_mul. lia. Qed.

Lemma pad64_spec n : 0 < n -> n < 2 ^ 32 -> pad64 n = padded n.
Proof.
  intros H0 H1. unfold pad64, padded. rewrite (u64_small (n - 1)) by (unfold is_u64; lia).
  rewrite Z.shiftr_div_pow2, Z.shiftl_mul_pow2 by lia. change (2 ^ 6) with 64.
  assert ((n - 1) / 64 + 1 = (n + 63) / 64) as Hd by (Z.to_euclidean_division_equations; lia).
  rewrite (u64_small ((n - 1) / 64 + 1)), Hd; [|unfold is_u64; rewrite Hd; Z.to_euclidean_division_equations; lia].
  apply u64_small. unfold is_u64. Z.to_euclidean_division_equations; lia.
Qed.

(** Two-level indexes [l + n * c]. *)
Lemma index_bound n m l c : 0 <= l < n -> 0 <= c < m -> 0 <= l + n * c < n * m.
Proof. intros. nia. Qed.

Lemma index_inj n l c l' c' : 0 <= l < n -> 0 <= l' < n -> l + n * c = l' + n * c' -> l = l' /\ c = c'.
Proof. intros. assert (c = c') as -> by nia. lia. Qed.

Lemma stride_disjoint s n i i' : n <= s -> i <> i' -> 0 <= n -> s * i + n <= s * i' \/ s * i' + n <= s * i.
Proof. intros Hn Hi H0. destruct (decide (i < i')); [left|right]; nia. Qed.

Lemma stride_below s n i m : n <= s -> 0 <= n -> 0 <= i < m -> 0 <= s * i /\ s * i + n <= s * m.
Proof. intros. nia. Qed.

Section Exact.
Context (L : layout) (region : Z) (HL : layout_fits L region).

Lemma raw_nonneg : 0 <= raw L.
Proof using HL. destruct HL. unfold raw. lia. Qed.

Lemma swarm_sizes_exact :
  rawKVSize L = raw L /\ tspArraySize L = 8 * num_tsp L /\
  partialLogEntrySize L = 40 + raw L /\ fullLogEntrySize L = 40 + raw L + 8 * num_tsp L /\
  fullKVSize L = 24 + raw L + 8 * num_tsp L /\ partialKVSize L = 24 + raw L.
Proof using HL.
  pose proof raw_nonneg as Hr. destruct HL. unfold partialLogEntrySize, fullLogEntrySize, fullKVSize, partialKVSize, rawDataSize.
  assert (Hk : rawKVSize L = raw L) by (unfold rawKVSize, u32; fold (raw L); apply Z.mod_small; lia).
  assert (Ht : tspArraySize L = 8 * num_tsp L).
  { unfold tspArraySize, u32. rewrite u64_small by (unfold is_u64; lia). apply Z.mod_small. lia. }
  rewrite Hk, Ht. unfold u32, LOG_ENTRY_SIZE, KV_SIZE. rewrite (Z.mod_small (raw L + _)) by lia.
  rewrite !Z.mod_small by lia. lia.
Qed.

Lemma strides_exact :
  partialLogEntrySizeWithPadding L = log_stride L /\ fullKVSizeWithPadding L = kv_stride L /\
  fullLogEntrySizeWithPadding L = client_stride L.
Proof using HL.
  pose proof raw_nonneg. destruct swarm_sizes_exact as (_ & _ & H1 & H2 & H3 & _). destruct HL.
  unfold partialLogEntrySizeWithPadding, fullKVSizeWithPadding, fullLogEntrySizeWithPadding. rewrite H1, H2, H3.
  rewrite !pad64_spec by lia. done.
Qed.

Lemma strides_bounds :
  40 + raw L <= log_stride L < 2 ^ 33 /\ 24 + raw L + 8 * num_tsp L <= kv_stride L < 2 ^ 33 /\
  40 + raw L + 8 * num_tsp L <= client_stride L < 2 ^ 33.
Proof using HL.
  pose proof raw_nonneg. pose proof (padded_bounds (40 + raw L)). pose proof (padded_bounds (24 + raw L + 8 * num_tsp L)).
  pose proof (padded_bounds (40 + raw L + 8 * num_tsp L)). destruct HL. unfold log_stride, kv_stride, client_stride. lia.
Qed.
End Exact.

(** Inner reductions do not matter. *)
Lemma u64_add_l x y : u64 (u64 x + y) = u64 (x + y).
Proof. unfold u64. by rewrite Z.add_mod_idemp_l by lia. Qed.
Lemma u64_add_r x y : u64 (x + u64 y) = u64 (x + y).
Proof. unfold u64. by rewrite Z.add_mod_idemp_r by lia. Qed.
Lemma u64_mul_l x y : u64 (u64 x * y) = u64 (x * y).
Proof. unfold u64. by rewrite Z.mul_mod_idemp_l by lia. Qed.
Lemma u64_mul_r x y : u64 (x * u64 y) = u64 (x * y).
Proof. unfold u64. by rewrite Z.mul_mod_idemp_r by lia. Qed.

(** The inner sums and products of an address. *)
Lemma u64_index s l n c : u64 (s * u64 (l + u64 (n * c))) = u64 (s * (l + n * c)).
Proof. by rewrite u64_add_r, u64_mul_r. Qed.

(** ** The objects and their places *)

Inductive place :=
  | ServerLog (client_idx log_id : Z)
  | ServerKV (kv_id : Z)
  | ClientWrite (logblock_id : Z)
  | ClientRead (logblock_id server_idx : Z).

Definition on_server (p : place) : bool :=
  match p with ServerLog _ _ | ServerKV _ => true | _ => false end.

Section Places.
Context (L : layout) (region : Z).

Definition address (p : place) : option Z :=
  match p with
  | ServerLog c l => getServerLogAddress L region c l
  | ServerKV k => getServerKVAddress L region k
  | ClientWrite b => getClientWriteLogAddress L b
  | ClientRead b s => getClientReadLogAddress L b s
  end.

Definition place_size (p : place) : Z :=
  match p with
  | ServerLog _ _ => partialLogEntrySize L
  | ServerKV _ => fullKVSize L
  | _ => fullLogEntrySize L
  end.

Definition base (p : place) : Z := if on_server p then region else client_local_region L.
Definition space (p : place) : Z := if on_server p then serverSize L else clientSize L.

(** Ids are unsigned. *)
Definition ids_nonneg (p : place) : Prop :=
  match p with
  | ServerLog c l => 0 <= c /\ 0 <= l
  | ServerKV k => 0 <= k
  | ClientWrite b => 0 <= b
  | ClientRead b s => 0 <= b /\ 0 <= s
  end.

Definition in_range (p : place) : Prop :=
  match p with
  | ServerLog c l => c < num_clients L /\ l < server_logs_per_client L
  | ServerKV k => k < keys_per_server L
  | ClientWrite b => b < async_parallelism L
  | ClientRead b s => b < async_parallelism L /\ s < num_servers L
  end.

(** Where an object lies in its memory. *)
Definition place_offset (p : place) : Z :=
  match p with
  | ServerLog c l => log_stride L * (l + server_logs_per_client L * c)
  | ServerKV k => server_logs L + kv_stride L * k
  | ClientWrite b => client_stride L * (0 + (1 + num_servers L) * b)
  | ClientRead b s => client_stride L * (1 + s + (1 + num_servers L) * b)
  end.

Context (HL : layout_fits L region).

Lemma bytes_nonneg : 0 <= server_bytes L /\ 0 <= client_bytes L.
Proof using HL.
  pose proof (strides_bounds L region HL) as (B1 & B2 & B3). pose proof (raw_nonneg L region HL). destruct HL.
  unfold server_bytes, server_logs, client_bytes. generalize dependent (log_stride L). generalize dependent (kv_stride L).
  generalize dependent (client_stride L). intros. split; [apply Z.add_nonneg_nonneg|]; repeat apply Z.mul_nonneg_nonneg; lia.
Qed.

Lemma space_exact p : space p = if on_server p then server_bytes L else client_bytes L.
Proof using HL.
  destruct (strides_exact L region HL) as (H1 & H2 & H3). pose proof (strides_bounds L region HL) as (B1 & B2 & B3).
  pose proof (raw_nonneg L region HL). destruct HL. unfold space, serverSize, clientSize, serverLogSize, clientLogSize.
  rewrite H1, H2, H3. destruct (on_server p).
  - rewrite (u64_mul_l (log_stride L * _)), u64_add_l, u64_add_r.
    rewrite <- (Z.mul_assoc (log_stride L)). fold (server_logs L). fold (server_bytes L).
    apply u64_small. unfold is_u64. split; [|lia]. apply bytes_nonneg.
  - rewrite u64_mul_r, u64_mul_l, <- Z.mul_assoc. fold (client_bytes L). apply u64_small.
    unfold is_u64. split; [|lia]. apply bytes_nonneg.
Qed.

Lemma offset_bounds p : ids_nonneg p -> in_range p -> 0 <= place_size p /\
  0 <= place_offset p /\ place_offset p + place_size p <= (if on_server p then server_bytes L else client_bytes L).
Proof using HL.
  destruct (swarm_sizes_exact L region HL) as (_ & _ & H1 & H2 & H3 & _). pose proof (strides_bounds L region HL) as (B1 & B2 & B3).
  pose proof (raw_nonneg L region HL). destruct HL. unfold server_bytes, client_bytes, server_logs.
  destruct p as [c l|k|b|b s]; cbn [ids_nonneg in_range place_size place_offset on_server]; rewrite ?H1, ?H2, ?H3; intros Hi Hr.
  - pose proof (index_bound (server_logs_per_client L) (num_clients L) l c).
    pose proof (stride_below (log_stride L) (40 + raw L) (l + server_logs_per_client L * c) (server_logs_per_client L * num_clients L)).
    assert (0 <= kv_stride L * keys_per_server L) by nia. lia.
  - pose proof (stride_below (kv_stride L) (24 + raw L + 8 * num_tsp L) k (keys_per_server L)). unfold server_logs.
    assert (0 <= log_stride L * (server_logs_per_client L * num_clients L)) by (apply Z.mul_nonneg_nonneg; [lia|apply Z.mul_nonneg_nonneg; lia]). lia.
  - pose proof (index_bound (1 + num_servers L) (async_parallelism L) 0 b).
    pose proof (stride_below (client_stride L) (40 + raw L + 8 * num_tsp L) (0 + (1 + num_servers L) * b) ((1 + num_servers L) * async_parallelism L)). lia.
  - pose proof (index_bound (1 + num_servers L) (async_parallelism L) (1 + s) b).
    pose proof (stride_below (client_stride L) (40 + raw L + 8 * num_tsp L) (1 + s + (1 + num_servers L) * b) ((1 + num_servers L) * async_parallelism L)). lia.
Qed.
(** An address is its offset in its memory, or refused. *)
Lemma address_exact p : ids_nonneg p -> in_range p -> address p = Some (base p + place_offset p).
Proof using HL.
  intros Hi Hr. pose proof (offset_bounds p Hi Hr) as (_ & Ho & Hs). pose proof bytes_nonneg as [Hb1 Hb2].
  destruct (strides_exact L region HL) as (H1 & H2 & H3). pose proof (space_exact (ServerKV 0)) as Hspace. cbn in Hspace.
  pose proof (offset_bounds p Hi Hr) as (Hsz & _ & _).
  destruct p as [c l|k|b|b s]; cbn [address ids_nonneg in_range place_offset on_server base] in *.
  - unfold getServerLogAddress, serverLogsOffset. destruct (Z.leb_spec (num_clients L) c); [lia|].
    destruct (Z.leb_spec (server_logs_per_client L) l); [lia|]. rewrite H1, u64_index, u64_add_l, u64_add_r. f_equal.
    destruct HL. rewrite u64_small by (unfold is_u64; lia). lia.
  - unfold getServerKVAddress, serverDataOffset. destruct (Z.leb_spec (keys_per_server L) k); [lia|].
    assert (Hl : serverLogSize L = u64 (server_logs L)).
    { unfold serverLogSize. by rewrite H1, u64_mul_l, <- Z.mul_assoc. }
    rewrite H2, Hl, (u64_add_r region), u64_add_l, u64_add_r. f_equal. destruct HL. rewrite u64_small by (unfold is_u64; lia). lia.
  - unfold getClientWriteLogAddress, getClientLogAddress, clientLogsOffset. destruct HL.
    rewrite (u64_small (1 + num_servers L)) by (unfold is_u64; lia). destruct (Z.leb_spec (1 + num_servers L) 0); [lia|].
    destruct (Z.leb_spec (async_parallelism L) b); [lia|]. rewrite H3, u64_index, u64_add_l, u64_add_r. f_equal.
    rewrite (Z.mul_comm b). rewrite u64_small by (unfold is_u64; lia). lia.
  - unfold getClientReadLogAddress, getClientLogAddress, clientLogsOffset. destruct HL. destruct (Z.leb_spec (num_servers L) s); [lia|].
    rewrite !(u64_small (1 + _)) by (unfold is_u64; lia). destruct (Z.leb_spec (1 + num_servers L) (1 + s)); [lia|].
    destruct (Z.leb_spec (async_parallelism L) b); [lia|]. rewrite H3, u64_index, u64_add_l, u64_add_r. f_equal.
    rewrite (Z.mul_comm b). rewrite u64_small by (unfold is_u64; lia). lia.
Qed.

Lemma address_refused p : ids_nonneg p -> ~ in_range p -> address p = None.
Proof using HL.
  destruct p as [c l|k|b|b s]; cbn [address ids_nonneg in_range]; intros Hi Hr.
  - unfold getServerLogAddress. zcases; done.
  - unfold getServerKVAddress. zcases; done.
  - unfold getClientWriteLogAddress, getClientLogAddress. zcases; done.
  - unfold getClientReadLogAddress, getClientLogAddress. zcases; done.
Qed.

Lemma offsets_disjoint p p' : ids_nonneg p -> in_range p -> ids_nonneg p' -> in_range p' -> on_server p = on_server p' -> p <> p' ->
  place_offset p + place_size p <= place_offset p' \/ place_offset p' + place_size p' <= place_offset p.
Proof using HL.
  destruct (swarm_sizes_exact L region HL) as (_ & _ & S1 & S2 & S3 & _). pose proof (strides_bounds L region HL) as ([B1 _] & [B2 _] & [B3 _]).
  pose proof (raw_nonneg L region HL) as Hr. destruct HL as [_ Hns Ht _ _ _ _ _ _ _].
  intros Hi Hr' Hi' Hr'' Hside Hne.
  assert (Hbelow : forall c l, ids_nonneg (ServerLog c l) -> in_range (ServerLog c l) ->
    log_stride L * (l + server_logs_per_client L * c) + (40 + raw L) <= server_logs L).
  { intros c l Hcl Hcl'. cbn in Hcl, Hcl'. unfold server_logs.
    pose proof (index_bound (server_logs_per_client L) (num_clients L) l c ltac:(lia) ltac:(lia)).
    by apply stride_below; [lia|lia|]. }
  assert (Hkv : forall k, 0 <= k -> 0 <= kv_stride L * k) by (intros; apply Z.mul_nonneg_nonneg; lia).
  destruct p as [c l|k|b|b s], p' as [c' l'|k'|b'|b' s']; try discriminate Hside; cbn [place_offset place_size] in *; rewrite ?S1, ?S2, ?S3.
  - apply stride_disjoint; [lia| |lia]. cbn in *. intros Heq. apply index_inj in Heq as [-> ->]; [done|lia..].
  - left. specialize (Hbelow c l Hi Hr'). specialize (Hkv k' Hi'). lia.
  - right. specialize (Hbelow c' l' Hi' Hr''). specialize (Hkv k Hi). lia.
  - assert (Hk : k <> k') by congruence.
    pose proof (stride_disjoint (kv_stride L) (24 + raw L + 8 * num_tsp L) k k' ltac:(lia) Hk ltac:(lia)). lia.
  - apply stride_disjoint; [lia| |lia]. cbn in *. intros Heq. apply index_inj in Heq as [_ ->]; [done|lia..].
  - apply stride_disjoint; [lia| |lia]. cbn in *. intros Heq. apply index_inj in Heq as [? ?]; lia.
  - apply stride_disjoint; [lia| |lia]. cbn in *. intros Heq. apply index_inj in Heq as [? ?]; lia.
  - apply stride_disjoint; [lia| |lia]. cbn in *. intros Heq. apply index_inj in Heq as [? ->]; [|lia..]. apply Hne. f_equal. lia.
Qed.
Lemma offset_aligned p : place_offset p mod 64 = 0.
Proof.
  apply Z.mod_divide; [lia|]. destruct p; cbn [place_offset]; unfold server_logs, log_stride, kv_stride, client_stride, padded.
  - exists ((40 + raw L + 63) / 64 * (log_id + server_logs_per_client L * client_idx)). lia.
  - exists ((40 + raw L + 63) / 64 * (server_logs_per_client L * num_clients L) + (24 + raw L + 8 * num_tsp L + 63) / 64 * kv_id). lia.
  - exists ((40 + raw L + 8 * num_tsp L + 63) / 64 * (0 + (1 + num_servers L) * logblock_id)). lia.
  - exists ((40 + raw L + 8 * num_tsp L + 63) / 64 * (1 + server_idx + (1 + num_servers L) * logblock_id)). lia.
Qed.

Lemma address_in_range p a : ids_nonneg p -> address p = Some a -> in_range p.
Proof using HL.
  intros Hi Ha. assert (Hd : in_range p \/ ~ in_range p) by (destruct p; cbn [in_range]; lia).
  destruct Hd as [|Hd]; [done|]. by rewrite address_refused in Ha.
Qed.

Lemma tsp_offset_spec client_idx o : 0 <= client_idx -> clientTspOffset L client_idx = Some o ->
  o = 24 + raw L + 8 * (client_idx mod num_tsp L) /\ 0 <= client_idx mod num_tsp L < num_tsp L.
Proof using HL.
  pose proof (raw_nonneg L region HL) as Hr. destruct HL as [_ _ Ht _ _ _ [Hk Hv] He _ _]. unfold raw in *.
  intros Hc. unfold clientTspOffset. destruct (Z.eqb_spec (num_tsp L) 0) as [|Hz]; [done|]. cbn [negb assert_ mbind option_bind].
  pose proof (Z.mod_pos_bound client_idx (num_tsp L) ltac:(lia)) as Hm. unfold tspArrayOffset, valueOffset, keyOffset, KV_SIZE.
  rewrite u64_add_r, u64_add_l, (u64_small (24 + _)) by (unfold is_u64; lia). rewrite u64_small by (unfold is_u64; lia). intros [= <-]. split; lia.
Qed.
End Places.

(** C40: The memory of swarm-kv is laid out without overlap: as long as the
    memories fit, an id out of range is refused, and every log entry and
    key-value of a server, and every log entry of the client's operations (one
    to write, one to read each server), lies inside its memory at a
    64-byte multiple from its start; two different objects of one memory do not
    overlap; and the timestamp words of a key-value lie behind its value, inside it. *)
Theorem swarm_objects_disjoint L region p : layout_fits L region -> ids_nonneg p ->
  (~ in_range L p -> address L region p = None) /\
  (in_range L p -> exists a, address L region p = Some a /\ (a - base L region p) mod 64 = 0 /\
    base L region p <= a /\ a + place_size L p <= base L region p + space L p /\
    forall p' a', ids_nonneg p' -> on_server p' = on_server p -> p' <> p -> address L region p' = Some a' ->
      a + place_size L p <= a' \/ a' + place_size L p' <= a) /\
  (forall client_idx o, 0 <= client_idx -> clientTspOffset L client_idx = Some o ->
    rawKVOffset + rawKVSize L <= o /\ o + 8 <= fullKVSize L).
Proof.
  intros HL Hi. split_and!; [by apply address_refused| |].
  - intros Hr. pose proof (offset_bounds L region HL p Hi Hr) as (Hs & Ho & Hb).
    eexists. split_and!; [by apply address_exact| |lia| |].
    + replace (_ - _) with (place_offset L p) by lia. apply offset_aligned.
    + rewrite (space_exact L region) by done. lia.
    + intros p' a' Hi' Hside Hne Ha'. assert (Hr' : in_range L p') by (by eapply (address_in_range L region)).
      rewrite (address_exact L region HL p' Hi' Hr') in Ha'. injection Ha' as <-.
      assert (base L region p' = base L region p) as -> by (unfold base; by rewrite Hside).
      pose proof (offsets_disjoint L region HL p p' Hi Hr Hi' Hr' (eq_sym Hside) (not_eq_sym Hne)). lia.
  - intros c o Hc Ho. destruct (tsp_offset_spec L region HL c o Hc Ho) as [-> Hm].
    destruct (swarm_sizes_exact L region HL) as (-> & _ & _ & _ & -> & _). unfold rawKVOffset, KV_SIZE. lia.
Qed.

Definition layout_example : layout := Layout true true 4 2 3 2 2 true 2 10 4 16 64 4096.

Lemma swarm_objects_disjoint_witness : exists a b,
  address layout_example 1000 (ServerLog 1 2) = Some a /\ address layout_example 1000 (ServerKV 3) = Some b /\
  (a + 120 <= b \/ b + 120 <= a).
Proof.
  assert (HL : layout_fits layout_example 1000) by (split; vm_compute; intuition congruence).
  destruct (swarm_objects_disjoint layout_example 1000 (ServerLog 1 2) HL) as (_ & Hok & _); [by vm_compute|].
  destruct Hok as (a & Ha & _ & _ & _ & Hd); [by vm_compute|]. exists a.
  eexists. split_and!; [done|vm_compute; reflexivity|].
  apply (Hd (ServerKV 3)); [by vm_compute|done|done|vm_compute; reflexivity].
Defined.
