(* ===== verification/SwarmIndex.v ===== *)
(** * SwarmIndex: the hash index of the baseline swarm-kv (race/)

    Servers keep an index of keys: an array of buckets of six 8-byte entries
    that clients read and change by RDMA (buckets.hpp, server_index.hpp).  An
    [IndexFuture] (client_index.hpp) reads the two bucket groups of a key, scans
    them for entries with the key's checksum and for free slots, and inserts by
    compare-and-swap.  The model runs any number of futures against the servers'
    memories; the theorems: a search stays in the memory and finds what is in
    the index, and an insertion may be lost without notice. *)

From S2P Require Import Prelude.

Local Open Scope Z_scope.

(** ** buckets.hpp *)

Definition NbBucketEntries : nat := 6.
Definition ValueMask : Z := Z.shiftl 1 48 - 1.

(** The bit fields, from the lowest bit: 1, 7, 8 and 48 bits. *)
Record BucketEntry := Entry {
  used : bool;
  padding : Z;
  checksum_of : Z;
  value_of : Z;
}.

Definition new_entry (checksum value : Z) : BucketEntry := Entry true 0 checksum (Z.land value ValueMask).

Definition asUint64 (e : BucketEntry) : Z :=
  Z.lor (Z.shiftl (value_of e) 16) (Z.lor (Z.shiftl (checksum_of e) 8) (Z.lor (Z.shiftl (padding e) 1) (Z.b2z (used e)))).

(** A word of memory read as an entry. *)
Definition entry_of (w : Z) : BucketEntry :=
  Entry (Z.testbit w 0) (Z.land (Z.shiftr w 1) 127) (Z.land (Z.shiftr w 8) 255) (Z.land (Z.shiftr w 16) ValueMask).

Definition getValue (e : BucketEntry) : Z := Z.land (value_of e) ValueMask.

Definition BucketSize : Z := 8 * Z.of_nat NbBucketEntries.
Definition GroupWords : nat := 2 * NbBucketEntries.

(** ** server_index.hpp *)

(** [1 << n] on [int]: undefined when it does not fit. *)
Definition int_shift (n : Z) : option Z := assert_ ((0 <=? n) && (n <? 31)) ;; Some (Z.shiftl 1 n).

Definition indexSize (bucket_bits : Z) : option Z :=
  n ← int_shift (bucket_bits - 1);
  assert_ (n * 3 <? 2 ^ 31) ;; Some (n * 3 * BucketSize).

(** ** client_index.hpp: where a key is looked for *)

(** A hashed key: 16 bytes. *)
Definition HashedKey := list Z.

Definition byte (hkey : HashedKey) (i : nat) : Z := default 0 (hkey !! i).

Definition checksum (hkey : HashedKey) : Z :=
  Z.lxor (Z.lxor (Z.lxor (byte hkey 0) (byte hkey 7)) (byte hkey 8)) (byte hkey 15).

(** The [i]-th 64-bit word of the key, little-endian. *)
Definition key_word (hkey : HashedKey) (i : nat) : Z :=
  foldr (fun b w => b + 256 * w) 0 (take 8 (drop (8 * i) hkey)).

Definition bucketOffsets (bucket_bits : Z) (hkey : HashedKey) : option (Z * Z) :=
  n ← int_shift bucket_bits;
  let mask := u64 (n - 1) in
  let id0 := Z.land (key_word hkey 0) mask in
  assert_ (negb (u64 (mask - 1) =? 0)) ;;
  let id1 := key_word hkey 1 mod u64 (mask - 1) in
  let even x := Z.land x (2 ^ 64 - 2) in
  let id1 := if even id0 <=? even id1 then u64 (id1 + 2) else id1 in
  assert_ (negb (id0 =? id1)) ;;
  assert_ (Z.land id1 mask =? id1) ;;
  Some (id0, id1).

Definition bucket_side (id : Z) : bool := Z.land id 1 =? 1.
Definition bucket_location (id : Z) : Z := Z.shiftr id 1 * 3 + (if bucket_side id then 1 else 0).

(** ** client_index.hpp: futures *)

Inductive Step := Searching | Inserting | Done.

Global Instance step_eq : EqDecision Step.
Proof. solve_decision. Defined.

Record IndexResult := Result {
  matches : list Z;
  nb_free : nat;
  first_free : Z;
  updated : bool;
}.

Definition no_result : IndexResult := Result [] 0 0 false.

(** What a future has sent to its server and was not executed yet. *)
Inductive request :=
  | RdmaRead (group : bool) (addr : Z)
  | RdmaCas (addr : Z) (new : Z).

(** An [IndexFuture] with its [WrContext].  The swap-back word of a CAS is the
    first word of the buffer.  [fu_sent] and [fu_done] are the network's:
    requests on their way, and completions not polled yet. *)
Record future := Future {
  fu_step : Step;
  fu_addr : Z * Z;
  fu_side : bool * bool;
  fu_check : Z;
  fu_result : IndexResult;
  fu_to_insert : BucketEntry;
  fu_server : nat;
  fu_ongoing : nat;
  fu_buffer : list Z;
  fu_sent : list request;
  fu_done : nat;
}.

Definition future_new : future :=
  Future Done (0, 0) (false, false) 0 no_result (new_entry 0 0) 0 0 (replicate (2 * GroupWords) 0) [] 0.

Definition group_of {A} (g : bool) (p : A * A) : A := if g then p.2 else p.1.

Definition retrySearch (f : future) : future :=
  Future Searching (fu_addr f) (fu_side f) (fu_check f) no_result (fu_to_insert f) (fu_server f) (fu_ongoing f + 1)
    (fu_buffer f) (fu_sent f ++ [RdmaRead false (fu_addr f).1; RdmaRead true (fu_addr f).2]) (fu_done f).

(** [remoteBuf] is the address of the index in each server's memory. *)
Definition search (bucket_bits : Z) (num_servers : nat) (remoteBuf : Z) (hkey : HashedKey) (f : future) : option future :=
  assert_ (negb (num_servers =? 0)%nat) ;;
  let server := Z.to_nat (key_word hkey 0 mod Z.of_nat num_servers) in
  '(id0, id1) ← bucketOffsets bucket_bits hkey;
  let addr id := u64 (remoteBuf + bucket_location id * BucketSize) in
  Some (retrySearch (Future (fu_step f) (addr id0, addr id1) (bucket_side id0, bucket_side id1) (checksum hkey)
    (fu_result f) (fu_to_insert f) server (fu_ongoing f) (fu_buffer f) (fu_sent f) (fu_done f))).

Definition tryInsert (value : Z) (f : future) : option future :=
  let to_insert := new_entry (fu_check f) value in
  assert_ (negb (nb_free (fu_result f) =? 0)%nat) ;;
  Some (Future (fu_step f) (fu_addr f) (fu_side f) (fu_check f) (fu_result f) to_insert (fu_server f) (fu_ongoing f + 1)
    (fu_buffer f) (fu_sent f ++ [RdmaCas (first_free (fu_result f)) (asUint64 to_insert)]) (fu_done f)).

Definition isDone (f : future) : bool := bool_decide (fu_step f = Done).

(** ** client_index.hpp: the scan *)

Record scan := Scan {
  sc_matches : list Z;
  sc_free : nat * nat;
  sc_first : Z * Z;
}.

Definition set_group {A} (g : bool) (x : A) (p : A * A) : A * A := if g then (p.1, x) else (x, p.2).

(** One entry: group [g], bucket [b] of the group, slot [e]. *)
Definition scan_entry (check : Z) (addr : Z * Z) (buffer : list Z) (sc : scan) (pos : bool * bool * nat) : scan :=
  let '(g, b, e) := pos in
  let i := (NbBucketEntries * (if b : bool then 1 else 0) + e)%nat in
  let entry := entry_of (default 0 (buffer !! ((if g : bool then GroupWords else 0) + i)%nat)) in
  if negb (used entry) then
    Scan (sc_matches sc) (set_group g (group_of g (sc_free sc) + 1)%nat (sc_free sc))
      (if (group_of g (sc_free sc) =? 0)%nat then set_group g (u64 (group_of g addr + 8 * Z.of_nat i)) (sc_first sc) else sc_first sc)
  else if checksum_of entry =? check then Scan (sc_matches sc ++ [getValue entry]) (sc_free sc) (sc_first sc)
  else sc.

(** The order of the three loops: main buckets before overflow buckets. *)
Definition positions (side : bool * bool) : list (bool * bool * nat) :=
  is_overflow ← [false; true]; g ← [false; true];
  (fun e => (g, xorb (group_of g side) is_overflow, e)) <$> seq 0 NbBucketEntries.

Definition scan_all (check : Z) (addr : Z * Z) (side : bool * bool) (buffer : list Z) : scan :=
  foldl (scan_entry check addr buffer) (Scan [] (0, 0)%nat (0, 0)) (positions side).

Definition set_result (f : future) (s : Step) (r : IndexResult) : future :=
  Future s (fu_addr f) (fu_side f) (fu_check f) r (fu_to_insert f) (fu_server f) (fu_ongoing f) (fu_buffer f) (fu_sent f) (fu_done f).

Definition tryStepForward (f : future) : bool * future :=
  if negb (fu_ongoing f =? 0)%nat then (false, f)
  else
    (true,
     match fu_step f with
     | Searching =>
         let sc := scan_all (fu_check f) (fu_addr f) (fu_side f) (fu_buffer f) in
         set_result f Done
           (Result (matches (fu_result f) ++ sc_matches sc) ((sc_free sc).1 + (sc_free sc).2)
              (group_of ((sc_free sc).1 <? (sc_free sc).2)%nat (sc_first sc)) (updated (fu_result f)))
     | Inserting =>
         let r := fu_result f in
         if asUint64 (entry_of (default 0 (fu_buffer f !! 0%nat))) =? 0
         then set_result f Done (Result (matches r ++ [getValue (fu_to_insert f)]) (nb_free r) (first_free r) true)
         else set_result f Done r
     | Done => f
     end).

(** [getAddressOf]: where the buffer holds an entry. *)
Definition getAddressOf (target : BucketEntry) (f : future) : option Z :=
  '(i, _) ← list_find (fun w => asUint64 (entry_of w) = asUint64 target) (take (2 * GroupWords) (fu_buffer f));
  Some (if (i <? GroupWords)%nat then u64 ((fu_addr f).1 + 8 * Z.of_nat i)
        else u64 ((fu_addr f).2 + 8 * Z.of_nat (i - GroupWords))).

(** ** The network and the clients

    [remoteBuf] is the same for every server.  A request outside the memory
    completes in error, on which [tickRdma] throws. *)

Definition word_index (remoteBuf addr : Z) : option nat :=
  assert_ ((remoteBuf <=? addr) && ((addr - remoteBuf) mod 8 =? 0)) ;;
  Some (Z.to_nat ((addr - remoteBuf) / 8)).

Definition with_network (f : future) (ongoing : nat) (buffer : list Z) (sent : list request) (completed : nat) : future :=
  Future (fu_step f) (fu_addr f) (fu_side f) (fu_check f) (fu_result f) (fu_to_insert f) (fu_server f) ongoing buffer sent completed.

(** The future's server executes its next request. *)
Definition nic_exec (remoteBuf : Z) (mems : list (list Z)) (f : future) : option (list (list Z) * future) :=
  match fu_sent f with
  | [] => Some (mems, f)
  | RdmaRead g addr :: sent =>
      m ← mems !! fu_server f;
      i ← word_index remoteBuf addr;
      assert_ (i + GroupWords <=? length m)%nat ;;
      let words := take GroupWords (drop i m) in
      let buffer := if g then take GroupWords (fu_buffer f) ++ words else words ++ drop GroupWords (fu_buffer f) in
      Some (mems, with_network f (fu_ongoing f) buffer sent (fu_done f + if g then 1 else 0))
  | RdmaCas addr new :: sent =>
      m ← mems !! fu_server f;
      i ← word_index remoteBuf addr;
      old ← m !! i;
      let m := if old =? 0 then <[i := new]> m else m in
      Some (<[fu_server f := m]> mems, with_network f (fu_ongoing f) (<[0%nat := old]> (fu_buffer f)) sent (fu_done f + 1))
  end.

(** The future's part of [tickRdma]. *)
Definition tickRdma (f : future) : future :=
  with_network f (fu_ongoing f - fu_done f) (fu_buffer f) (fu_sent f) 0.

Record index_sys := Sys {
  ix_mem : list (list Z);
  ix_futures : list future;
}.

Inductive event :=
  | ESearch (i : nat) (hkey : HashedKey)
  | EInsert (i : nat) (value : Z)
  | ENic (i : nat)
  | ETick (i : nat)
  | EStep (i : nat).

Global Instance event_eq : EqDecision event.
Proof. solve_decision. Defined.

Definition event_future (e : event) : nat :=
  match e with ESearch i _ | EInsert i _ | ENic i | ETick i | EStep i => i end.

Section System.
Context (bucket_bits remoteBuf : Z).

(** What an event does to its future, and to the memories. *)
Definition event_step (e : event) (mems : list (list Z)) (f : future) : option (list (list Z) * future) :=
  match e with
  | ESearch _ hkey => f ← search bucket_bits (length mems) remoteBuf hkey f; Some (mems, f)
  | EInsert _ value => f ← tryInsert value f; Some (mems, f)
  | ENic _ => nic_exec remoteBuf mems f
  | ETick _ => Some (mems, tickRdma f)
  | EStep _ => Some (mems, (tryStepForward f).2)
  end.

Definition exec_event (e : event) (s : index_sys) : option index_sys :=
  f ← ix_futures s !! event_future e;
  '(mems, f) ← event_step e (ix_mem s) f;
  Some (Sys mems (<[event_future e := f]> (ix_futures s))).

Fixpoint run_events (es : list event) (s : index_sys) : option index_sys :=
  match es with
  | [] => Some s
  | e :: es => s ← exec_event e s; run_events es s
  end.
End System.

(** The steps of a search when its network is prompt. *)
Definition search_now (i : nat) : list event := [ENic i; ENic i; ETick i; EStep i].

(** ** The buckets of a key *)

(** A hashed key has 16 bytes. *)
Definition hkey_ok (hkey : HashedKey) : Prop := length hkey = 16%nat /\ Forall (fun b => 0 <= b < 256) hkey.

(** Some hashed keys. *)
Definition seq_hkey (n : Z) : HashedKey := (fun i => (n + Z.of_nat i) mod 256) <$> seq 0 16.

Lemma seq_hkey_ok n : hkey_ok (seq_hkey n).
Proof.
  split; [done|]. apply Forall_fmap, Forall_forall. intros i _. cbn. apply Z.mod_pos_bound. lia.
Qed.

Lemma bytes_word_nonneg l : Forall (fun b => 0 <= b < 256) l -> 0 <= foldr (fun b w => b + 256 * w) 0 l.
Proof. induction 1; cbn [foldr]; lia. Qed.

Lemma key_word_nonneg hkey i : hkey_ok hkey -> 0 <= key_word hkey i.
Proof. intros [_ Hb]. apply bytes_word_nonneg. by apply Forall_take, Forall_drop. Qed.

Lemma land_even x : is_u64 x -> Z.land x (2 ^ 64 - 2) = x / 2 * 2.
Proof.
  intros Hx. change (2 ^ 64 - 2) with (Z.shiftl (Z.ones 63) 1). rewrite land_high by lia. unfold is_u64 in Hx.
  rewrite Z.shiftl_mul_pow2, Z.shiftr_div_pow2, Z.land_ones, Z.mod_small by (Z.to_euclidean_division_equations; lia). done.
Qed.

Lemma pow_bits bits : 2 <= bits <= 30 -> exists n, 2 ^ bits = 4 * n /\ 2 ^ (bits - 1) = 2 * n /\ 1 <= n <= 2 ^ 28.
Proof.
  intros Hb. exists (2 ^ (bits - 2)). replace bits with (Z.succ (Z.succ (bits - 2))) at 1 by lia.
  replace (bits - 1) with (Z.succ (bits - 2)) by lia. rewrite !Z.pow_succ_r by lia.
  assert (2 ^ 0 <= 2 ^ (bits - 2) <= 2 ^ 28) by (split; apply Z.pow_le_mono_r; lia). lia.
Qed.

Lemma int_shift_spec n : 0 <= n <= 30 -> int_shift n = Some (2 ^ n).
Proof. intros Hn. unfold int_shift. destruct (Z.leb_spec 0 n), (Z.ltb_spec n 31); try lia. cbn. by rewrite Z.shiftl_1_l. Qed.

(** The two buckets of a key are in range and in different groups of three. *)
Lemma bucketOffsets_spec bits hkey : 2 <= bits <= 30 -> hkey_ok hkey -> exists id0 id1,
  bucketOffsets bits hkey = Some (id0, id1) /\ 0 <= id0 < 2 ^ bits /\ 0 <= id1 < 2 ^ bits /\ id0 / 2 <> id1 / 2.
Proof.
  intros Hb Hk. destruct (pow_bits bits Hb) as (n & Hp & _ & Hn).
  pose proof (key_word_nonneg hkey 0 Hk) as H0. pose proof (key_word_nonneg hkey 1 Hk) as H1.
  unfold bucketOffsets. rewrite int_shift_spec by lia. cbn [mbind option_bind].
  assert (Hland : forall w, 0 <= w -> Z.land w (2 ^ bits - 1) = w mod 2 ^ bits) by (intros w Hw; rewrite Z.sub_1_r, <- Z.ones_equiv, Z.land_ones; [done|lia]).
  rewrite (u64_small (2 ^ bits - 1)), (u64_small (2 ^ bits - 1 - 1)), Hland by (unfold is_u64; lia).
  set (id0 := key_word hkey 0 mod 2 ^ bits). set (r := key_word hkey 1 mod (2 ^ bits - 1 - 1)).
  assert (Hid0 : 0 <= id0 < 4 * n) by (subst id0; rewrite <- Hp; apply Z.mod_pos_bound; lia).
  assert (Hr : 0 <= r < 4 * n - 2) by (subst r; rewrite Hp; pose proof (Z.mod_pos_bound (key_word hkey 1) (4 * n - 1 - 1)); lia).
  destruct (Z.eqb_spec (2 ^ bits - 1 - 1) 0); [lia|]. cbn [negb assert_ mbind option_bind].
  rewrite !land_even by (unfold is_u64; lia). rewrite (u64_small (r + 2)) by (unfold is_u64; lia).
  set (id1 := if id0 / 2 * 2 <=? r / 2 * 2 then r + 2 else r).
  assert (Hid1 : 0 <= id1 < 4 * n /\ id0 / 2 <> id1 / 2).
  { subst id1. destruct (Z.leb_spec (id0 / 2 * 2) (r / 2 * 2)); Z.to_euclidean_division_equations; lia. }
  destruct (Z.eqb_spec id0 id1) as [Heq|_]; [rewrite Heq in Hid1; tauto|]. cbn [negb assert_ mbind option_bind].
  rewrite Hland, (Z.mod_small id1), Z.eqb_refl by lia. cbn [assert_ mbind option_bind].
  exists id0, id1. rewrite Hp. tauto.
Qed.

(** The words of a server's index. *)
Definition ix_words (bits : Z) : Z := 2 ^ (bits - 1) * 3 * Z.of_nat NbBucketEntries.

Lemma indexSize_spec bits : 2 <= bits <= 30 -> indexSize bits = Some (8 * ix_words bits) /\ 0 <= ix_words bits < 2 ^ 34.
Proof.
  intros Hb. destruct (pow_bits bits Hb) as (n & _ & Hp & Hn). unfold indexSize, ix_words, BucketSize, NbBucketEntries.
  rewrite int_shift_spec by lia. cbn [mbind option_bind]. rewrite Hp.
  destruct (Z.ltb_spec (2 * n * 3) (2 ^ 31)); [|lia]. cbn [assert_ mbind option_bind]. split; [f_equal; lia|lia].
Qed.

(** The word a bucket group starts at. *)
Definition group_start (id : Z) : nat := Z.to_nat (bucket_location id * Z.of_nat NbBucketEntries).

Lemma bucket_location_spec id : 0 <= id -> bucket_location id = id / 2 * 3 + id mod 2.
Proof.
  intros H. unfold bucket_location, bucket_side. change (Z.land id 1) with (Z.land id (Z.ones 1)).
  rewrite Z.land_ones, Z.shiftr_div_pow2 by lia. change (2 ^ 1) with 2.
  destruct (Z.eqb_spec (id mod 2) 1); Z.to_euclidean_division_equations; lia.
Qed.

Section Place.
Context (bits remoteBuf : Z) (Hbits : 2 <= bits <= 30) (Hbuf : 0 <= remoteBuf /\ remoteBuf + 8 * ix_words bits < 2 ^ 64).

Lemma group_start_fits id : 0 <= id < 2 ^ bits -> (group_start id + GroupWords <= Z.to_nat (ix_words bits))%nat.
Proof using Hbits.
  intros Hid. destruct (pow_bits bits Hbits) as (n & Hp & Hp' & Hn). unfold group_start, ix_words, GroupWords, NbBucketEntries.
  rewrite bucket_location_spec by lia. rewrite Hp'. Z.to_euclidean_division_equations; lia.
Qed.

Lemma word_index_group id : 0 <= id < 2 ^ bits ->
  word_index remoteBuf (u64 (remoteBuf + bucket_location id * BucketSize)) = Some (group_start id).
Proof using Hbits Hbuf.
  intros Hid. pose proof (group_start_fits id Hid) as Hf. unfold group_start, GroupWords, BucketSize, NbBucketEntries in *.
  assert (0 <= bucket_location id) by (rewrite bucket_location_spec by lia; Z.to_euclidean_division_equations; lia).
  rewrite u64_small by (unfold is_u64; lia). unfold word_index.
  replace (remoteBuf + bucket_location id * (8 * Z.of_nat 6) - remoteBuf) with (bucket_location id * 6 * 8) by lia.
  rewrite Z.mod_mul, Z.div_mul by lia. destruct (Z.leb_spec remoteBuf (remoteBuf + bucket_location id * (8 * Z.of_nat 6))); [|lia].
  done.
Qed.

Lemma groups_apart id0 id1 : 0 <= id0 -> 0 <= id1 -> id0 / 2 <> id1 / 2 ->
  (group_start id0 + GroupWords <= group_start id1 \/ group_start id1 + GroupWords <= group_start id0)%nat.
Proof.
  intros H0 H1 Hne. unfold group_start, GroupWords, NbBucketEntries. rewrite !bucket_location_spec by done.
  Z.to_euclidean_division_equations; lia.
Qed.
End Place.

(** A future with nothing under way. *)
Definition idle (f : future) : Prop :=
  fu_ongoing f = 0%nat /\ fu_done f = 0%nat /\ fu_sent f = [] /\ length (fu_buffer f) = (2 * GroupWords)%nat.

(** ** Reads of the network *)

Lemma nic_read rb mems f g addr sent m i : fu_sent f = RdmaRead g addr :: sent -> mems !! fu_server f = Some m ->
  word_index rb addr = Some i -> (i + GroupWords <= length m)%nat ->
  exists buffer, nic_exec rb mems f = Some (mems, with_network f (fu_ongoing f) buffer sent (fu_done f + if g then 1 else 0)).
Proof.
  intros Hs Hm Hi Hl. unfold nic_exec. rewrite Hs, Hm. cbn [mbind option_bind]. rewrite Hi. cbn [mbind option_bind].
  rewrite (proj2 (Nat.leb_le _ _) Hl). cbn [assert_ mbind option_bind]. by eexists.
Qed.

(** ** The scan *)

Definition slot (b : bool) (e : nat) : nat := (NbBucketEntries * (if b then 1 else 0) + e)%nat.
Definition buffer_word (buffer : list Z) (g : bool) (j : nat) : Z :=
  default 0 (buffer !! ((if g then GroupWords else 0) + j)%nat).

(** A word the scan reports as a match. *)
Definition hit (check v w : Z) : Prop :=
  used (entry_of w) = true /\ checksum_of (entry_of w) = check /\ v = getValue (entry_of w).

Lemma positions_spec side g b e : (e < NbBucketEntries)%nat -> (g, b, e) ∈ positions side.
Proof.
  intros He. unfold positions. apply list_elem_of_bind. exists (xorb (group_of g side) b). split; [|destruct (xorb _ _); set_solver].
  apply list_elem_of_bind. exists g. split; [|destruct g; set_solver]. apply list_elem_of_fmap. exists e. split.
  - f_equal. f_equal. by destruct (group_of g side), b.
  - apply elem_of_seq. lia.
Qed.

Lemma positions_bound side g b e : (g, b, e) ∈ positions side -> (e < NbBucketEntries)%nat.
Proof.
  unfold positions. intros (o & Ho & _)%list_elem_of_bind. apply list_elem_of_bind in Ho as (g' & Hg & _).
  apply list_elem_of_fmap in Hg as (e' & [= _ _ ->] & He). apply elem_of_seq in He. lia.
Qed.

Lemma slot_surj j : (j < GroupWords)%nat -> exists b e, (e < NbBucketEntries)%nat /\ j = slot b e.
Proof.
  unfold GroupWords, slot, NbBucketEntries. intros Hj. destruct (decide (j < 6)%nat); [exists false, j|exists true, (j - 6)%nat]; lia.
Qed.

Lemma slot_bound b e : (e < NbBucketEntries)%nat -> (slot b e < GroupWords)%nat.
Proof. unfold slot, GroupWords, NbBucketEntries. destruct b; lia. Qed.

Section Scan.
Context (check : Z) (addr : Z * Z) (buffer : list Z).

Lemma scan_entry_matches sc g b e v : v ∈ sc_matches (scan_entry check addr buffer sc (g, b, e)) <->
  v ∈ sc_matches sc \/ hit check v (buffer_word buffer g (slot b e)).
Proof.
  unfold scan_entry, hit, buffer_word. fold (slot b e). set (en := entry_of _). destruct (used en); cbn [negb]; [|naive_solver].
  destruct (Z.eqb_spec (checksum_of en) check) as [He|He]; [|naive_solver]. cbn [sc_matches].
  rewrite elem_of_app, list_elem_of_singleton. naive_solver.
Qed.

Lemma scan_matches ps : forall sc v, v ∈ sc_matches (foldl (scan_entry check addr buffer) sc ps) <->
  v ∈ sc_matches sc \/ exists g b e, (g, b, e) ∈ ps /\ hit check v (buffer_word buffer g (slot b e)).
Proof.
  induction ps as [|[[g b] e] ps IH]; intros sc v; cbn [foldl].
  - split; [by left|intros [|(? & ? & ? & ?%elem_of_nil & _)]; done].
  - rewrite IH, scan_entry_matches. setoid_rewrite elem_of_cons. naive_solver.
Qed.

Lemma scan_all_matches side v : v ∈ sc_matches (scan_all check addr side buffer) <->
  exists g j, (j < GroupWords)%nat /\ hit check v (buffer_word buffer g j).
Proof.
  unfold scan_all. rewrite scan_matches. cbn [sc_matches]. split.
  - intros [?%elem_of_nil|(g & b & e & Hp & Hh)]; [done|]. exists g, (slot b e). split; [|done]. by eapply slot_bound, positions_bound.
  - intros (g & j & Hj & Hh). destruct (slot_surj j Hj) as (b & e & He & ->). right. exists g, b, e. split; [by apply positions_spec|done].
Qed.

(** Where the scan found its first free slots. *)
Definition first_ok (sc : scan) : Prop := forall g, group_of g (sc_free sc) <> 0%nat -> exists j, (j < GroupWords)%nat /\
  group_of g (sc_first sc) = u64 (group_of g addr + 8 * Z.of_nat j) /\ used (entry_of (buffer_word buffer g j)) = false.

Lemma group_of_set {A} g g' (x : A) p : group_of g (set_group g' x p) = if bool_decide (g = g') then x else group_of g p.
Proof. by destruct g, g', p. Qed.

Lemma scan_entry_first sc g b e : (e < NbBucketEntries)%nat -> first_ok sc -> first_ok (scan_entry check addr buffer sc (g, b, e)).
Proof.
  intros He Hf. unfold scan_entry. fold (slot b e). destruct (used _) eqn:Hu; cbn [negb].
  - by destruct (checksum_of _ =? check).
  - intros g' Hg'. cbn [sc_free sc_first] in *. rewrite group_of_set in Hg'. case_bool_decide as Hgg; [subst g'|].
    + destruct (Nat.eqb_spec (group_of g (sc_free sc)) 0) as [Hz|Hz]; [|by apply Hf].
      exists (slot b e). rewrite group_of_set, bool_decide_eq_true_2 by done. split_and!; [by apply slot_bound|done|done].
    + destruct (group_of g (sc_free sc) =? 0)%nat; [|by apply Hf].
      rewrite group_of_set, bool_decide_eq_false_2 by done. by apply Hf.
Qed.

Lemma scan_all_first side : first_ok (scan_all check addr side buffer).
Proof.
  unfold scan_all. assert (Hp : Forall (fun p => (p.2 < NbBucketEntries)%nat) (positions side)).
  { apply Forall_forall. intros [[g b] e] Hin. by eapply positions_bound. }
  assert (H0 : first_ok (Scan [] (0, 0)%nat (0, 0))) by (intros []; done).
  revert H0. generalize (Scan [] (0, 0)%nat (0, 0)). induction Hp as [|[[g b] e] ps He Hp IH]; intros sc Hsc; cbn [foldl]; [done|].
  by apply IH, scan_entry_first.
Qed.
End Scan.

(** ** Memory only grows *)

(** Entries that are there stay: a CAS replaces zero words only. *)
Definition kept (w w' : Z) : Prop := w = 0 \/ w' = w.
Definition grows : relation (list Z) := Forall2 kept.

Global Instance kept_refl : Reflexive kept.
Proof. by right. Qed.
Global Instance kept_trans : Transitive kept.
Proof. unfold kept. intros x y z [|] [|]; subst; auto. Qed.
Global Instance index_grows_refl : Reflexive grows.
Proof. unfold grows. apply _. Qed.
Global Instance index_grows_trans : Transitive grows.
Proof. unfold grows. apply _. Qed.

Lemma grows_cas m i new : m !! i = Some 0 -> grows m (<[i := new]> m).
Proof.
  intros Hi. apply Forall2_same_length_lookup_2; [by rewrite length_insert|]. intros j w w' Hw Hw'.
  destruct (decide (i = j)) as [->|Hne]; [left; congruence|]. rewrite list_lookup_insert_ne in Hw' by done. right. congruence.
Qed.

Lemma grows_lookup m m' i w : grows m m' -> m !! i = Some w -> w <> 0 -> m' !! i = Some w.
Proof. intros Hg Hw Hz. destruct (Forall2_lookup_l _ _ _ _ _ Hg Hw) as (w' & Hw' & [|]); [done|congruence]. Qed.

Lemma grows_lookup_inv m m' i w : grows m m' -> m' !! i = Some w -> exists w0, m !! i = Some w0 /\ (w0 = 0 \/ w = w0).
Proof. intros Hg Hw. destruct (Forall2_lookup_r _ _ _ _ _ Hg Hw) as (w0 & Hw0 & Hd). exists w0. naive_solver. Qed.

Lemma nic_exec_grows rb mems f mems' f' : nic_exec rb mems f = Some (mems', f') -> Forall2 grows mems mems'.
Proof.
  unfold nic_exec. intros Hx. destruct (fu_sent f) as [|[g addr|addr new] sent]; [by simplify_eq| |].
  - destruct (mems !! fu_server f) as [m|]; [|done]. cbn in Hx. destruct (word_index rb addr) as [i|]; [|done]. cbn in Hx.
    destruct (_ <=? _)%nat; [|done]. by injection Hx as <- _.
  - destruct (mems !! fu_server f) as [m|] eqn:Hm; [|done]. cbn in Hx. destruct (word_index rb addr) as [i|]; [|done]. cbn in Hx.
    destruct (m !! i) as [old|] eqn:Ho; [|done]. cbn in Hx. injection Hx as <- _.
    rewrite <- (list_insert_id mems _ _ Hm) at 1. apply Forall2_insert; [done|].
    destruct (Z.eqb_spec old 0) as [->|]; [by apply grows_cas|done].
Qed.

Lemma event_step_grows bits rb e mems f mems' f' : event_step bits rb e mems f = Some (mems', f') -> Forall2 grows mems mems'.
Proof.
  destruct e as [i k|i v|i|i|i]; cbn [event_step]; intros Hx; [| |by eapply nic_exec_grows|by simplify_eq|by simplify_eq].
  - destruct (search _ _ _ _ _); [|done]. by simplify_eq/=.
  - destruct (tryInsert _ _); [|done]. by simplify_eq/=.
Qed.

Lemma run_events_grows bits rb es : forall s s', run_events bits rb es s = Some s' -> Forall2 grows (ix_mem s) (ix_mem s').
Proof.
  induction es as [|e es IH]; intros s s' Hx; cbn [run_events] in Hx.
  - by simplify_eq.
  - destruct (exec_event bits rb e s) as [s1|] eqn:He; [|done]. cbn in Hx. unfold exec_event in He.
    destruct (ix_futures s !! event_future e) as [f|]; [|done]. cbn in He.
    destruct (event_step bits rb e (ix_mem s) f) as [[mems f']|] eqn:Hs; [|done]. cbn in He. injection He as <-.
    etrans; [by eapply event_step_grows|]. by apply IH in Hx.
Qed.

(** ** A search *)

(** Slot [j] of a group of [f] in its server's memory. *)
Definition group_word (rb : Z) (f : future) (mems : list (list Z)) (g : bool) (j : nat) : option Z :=
  m ← mems !! fu_server f; i ← word_index rb (group_of g (fu_addr f)); m !! (i + j)%nat.

(** [v] is in the index under the checksum [f] looks for, in its groups. *)
Definition indexed (rb : Z) (f : future) (mems : list (list Z)) (v : Z) : Prop :=
  exists g j w, (j < GroupWords)%nat /\ group_word rb f mems g j = Some w /\ hit (fu_check f) v w.

Lemma group_word_grows rb f mems mems' g j w : Forall2 grows mems mems' -> group_word rb f mems g j = Some w -> w <> 0 ->
  group_word rb f mems' g j = Some w.
Proof.
  unfold group_word. intros Hg Hw Hz. destruct (mems !! fu_server f) as [m|] eqn:Hm; [|done]. cbn in Hw.
  destruct (Forall2_lookup_l _ _ _ _ _ Hg Hm) as (m' & -> & Hmm). cbn. destruct (word_index _ _) as [i|]; [|done]. cbn in *.
  by eapply grows_lookup.
Qed.

Lemma hit_nonzero check v w : hit check v w -> w <> 0.
Proof. by intros [Hu _] ->. Qed.

(** A group of the buffer was read between memories [mems0] and [mems]. *)
Definition read_between (rb : Z) (f : future) (mems0 mems : list (list Z)) (g : bool) : Prop :=
  forall j, (j < GroupWords)%nat -> exists w0 w1, group_word rb f mems0 g j = Some w0 /\ group_word rb f mems g j = Some w1 /\
    (w0 = 0 \/ buffer_word (fu_buffer f) g j = w0) /\ (buffer_word (fu_buffer f) g j = 0 \/ w1 = buffer_word (fu_buffer f) g j).

Lemma read_between_grows rb f mems0 mems mems' g : Forall2 grows mems mems' -> read_between rb f mems0 mems g -> read_between rb f mems0 mems' g.
Proof.
  intros Hg Hr j Hj. destruct (Hr j Hj) as (w0 & w1 & H0 & H1 & Hb0 & Hb1). exists w0.
  assert (Hw : exists w', group_word rb f mems' g j = Some w' /\ (w1 = 0 \/ w' = w1)).
  { unfold group_word in *. destruct (mems !! fu_server f) as [m|] eqn:Hm; [|done]. cbn in H1.
    destruct (Forall2_lookup_l _ _ _ _ _ Hg Hm) as (m' & -> & Hmm). cbn. destruct (word_index _ _) as [i|]; [|done]. cbn in *.
    destruct (Forall2_lookup_l _ _ _ _ _ Hmm H1) as (w' & Hw' & Hd). by exists w'. }
  destruct Hw as (w' & Hw' & Hd). exists w'. split_and!; try done. destruct Hb1 as [|Hb1]; [by left|]. subst w1. naive_solver.
Qed.

(** What a finished search reports, against the memories it ran between. *)
Record search_result (rb : Z) (mems0 mems : list (list Z)) (f : future) : Prop := {
  found_all v : indexed rb f mems0 v -> v ∈ matches (fu_result f);
  found_only v : v ∈ matches (fu_result f) -> indexed rb f mems v;
  found_free : nb_free (fu_result f) <> 0%nat -> exists g j w, (j < GroupWords)%nat /\
    first_free (fu_result f) = u64 (group_of g (fu_addr f) + 8 * Z.of_nat j) /\
    group_word rb f mems0 g j = Some w /\ used (entry_of w) = false;
}.

Lemma scan_result rb mems0 mems f : fu_step f = Searching -> fu_ongoing f = 0%nat -> fu_result f = no_result ->
  read_between rb f mems0 mems false -> read_between rb f mems0 mems true ->
  fu_step (tryStepForward f).2 = Done /\ search_result rb mems0 mems (tryStepForward f).2.
Proof.
  intros Hs Ho Hres Hr0 Hr1. assert (Hr : forall g, read_between rb f mems0 mems g) by (by intros []). clear Hr0 Hr1.
  unfold tryStepForward. rewrite Ho, Hs. cbn [Nat.eqb negb snd]. split; [reflexivity|].
  split; cbn [set_result fu_result matches nb_free first_free]; rewrite ?Hres; cbn [no_result matches app].
  - intros v (g & j & w & Hj & Hw & Hh). apply scan_all_matches. exists g, j. split; [exact Hj|].
    change (group_word rb f mems0 g j = Some w) in Hw.
    destruct (Hr g j Hj) as (w0 & w1 & Hw0 & _ & [Hz|Hz] & _); rewrite Hw in Hw0; injection Hw0 as <-.
    + destruct (hit_nonzero _ _ _ Hh Hz).
    + rewrite Hz. exact Hh.
  - intros v (g & j & Hj & Hh)%scan_all_matches. destruct (Hr g j Hj) as (w0 & w1 & _ & Hw1 & _ & [Hz|Hz]).
    + destruct (hit_nonzero _ _ _ Hh Hz).
    + exists g, j, w1. split_and!; [exact Hj|exact Hw1|]. rewrite Hz. exact Hh.
  - set (sc := scan_all _ _ _ _). intros Hn.
    set (g := ((sc_free sc).1 <? (sc_free sc).2)%nat).
    assert (Hg : group_of g (sc_free sc) <> 0%nat) by (subst g; destruct (Nat.ltb_spec (sc_free sc).1 (sc_free sc).2); cbn [group_of]; lia).
    destruct (scan_all_first _ _ _ _ g Hg) as (j & Hj & Hfirst & Hu). destruct (Hr g j Hj) as (w0 & w1 & Hw0 & _ & Hz & _).
    exists g, j, w0. split_and!; [exact Hj|exact Hfirst|exact Hw0|]. destruct Hz as [->|Hz]; [reflexivity|]. rewrite Hz in Hu. exact Hu.
Qed.

(** How far a search is: requests sent, one group read, both read, done. *)
Inductive search_phase (rb : Z) (mems0 mems : list (list Z)) (f : future) : Prop :=
  | PhaseSent : fu_step f = Searching -> fu_result f = no_result -> fu_ongoing f = 1%nat -> fu_done f = 0%nat ->
      fu_sent f = [RdmaRead false (fu_addr f).1; RdmaRead true (fu_addr f).2] -> search_phase rb mems0 mems f
  | PhaseHalf : fu_step f = Searching -> fu_result f = no_result -> fu_ongoing f = 1%nat -> fu_done f = 0%nat ->
      fu_sent f = [RdmaRead true (fu_addr f).2] -> read_between rb f mems0 mems false -> search_phase rb mems0 mems f
  | PhaseRead : fu_step f = Searching -> fu_result f = no_result -> fu_sent f = [] -> fu_ongoing f = fu_done f ->
      read_between rb f mems0 mems false -> read_between rb f mems0 mems true -> search_phase rb mems0 mems f
  | PhaseDone : fu_step f = Done -> fu_ongoing f = 0%nat -> fu_done f = 0%nat -> fu_sent f = [] ->
      search_result rb mems0 mems f -> search_phase rb mems0 mems f.

Lemma search_result_grows rb mems0 mems mems' f : Forall2 grows mems mems' -> search_result rb mems0 mems f -> search_result rb mems0 mems' f.
Proof.
  intros Hg [Ha Ho Hf]. split; [exact Ha| |exact Hf]. intros v Hv. destruct (Ho v Hv) as (g & j & w & Hj & Hw & Hh).
  exists g, j, w. split_and!; [exact Hj| |exact Hh]. eapply group_word_grows; [exact Hg|exact Hw|]. by eapply hit_nonzero.
Qed.

Lemma search_phase_grows rb mems0 mems mems' f : Forall2 grows mems mems' -> search_phase rb mems0 mems f -> search_phase rb mems0 mems' f.
Proof.
  intros Hg []; [by eapply PhaseSent|eapply PhaseHalf|eapply PhaseRead|eapply PhaseDone]; try done;
    first [by eapply read_between_grows|by eapply search_result_grows].
Qed.

Lemma buffer_word_app g (l1 l2 : list Z) j : length l1 = GroupWords -> (j < GroupWords)%nat ->
  buffer_word (l1 ++ l2) g j = default 0 ((if g then l2 else l1) !! j).
Proof.
  intros Hl Hj. unfold buffer_word. destruct g; [by rewrite lookup_app_r, Hl, Nat.add_sub' by lia|].
  by rewrite lookup_app_l by lia.
Qed.

(** The network reads a group into its part of the buffer. *)
Lemma read_spec rb mems0 mems f g sent mems' f' :
  Forall2 grows mems0 mems -> length (fu_buffer f) = (2 * GroupWords)%nat ->
  fu_sent f = RdmaRead g (group_of g (fu_addr f)) :: sent -> nic_exec rb mems f = Some (mems', f') ->
  mems' = mems /\ fu_sent f' = sent /\ fu_done f' = (fu_done f + if g then 1 else 0)%nat /\ length (fu_buffer f') = (2 * GroupWords)%nat /\
  fu_step f' = fu_step f /\ fu_result f' = fu_result f /\ fu_ongoing f' = fu_ongoing f /\ fu_addr f' = fu_addr f /\
  read_between rb f' mems0 mems g /\ (read_between rb f mems0 mems (negb g) -> read_between rb f' mems0 mems (negb g)).
Proof.
  intros Hg Hlen Hs Hx. unfold nic_exec in Hx. rewrite Hs in Hx.
  destruct (mems !! fu_server f) as [m|] eqn:Hm; [|done]. cbn [mbind option_bind] in Hx.
  destruct (word_index rb (group_of g (fu_addr f))) as [i|] eqn:Hi; [|done]. cbn [mbind option_bind] in Hx.
  destruct (Nat.leb_spec (i + GroupWords) (length m)) as [Hl|]; [|done]. cbn [assert_ mbind option_bind] in Hx.
  injection Hx as <- <-. cbn [with_network fu_sent fu_done fu_buffer fu_step fu_result fu_ongoing fu_addr].
  assert (Hw : length (take GroupWords (drop i m)) = GroupWords) by (rewrite length_take, length_drop; lia).
  assert (Ht : length (take GroupWords (fu_buffer f)) = GroupWords) by (rewrite length_take; lia).
  assert (Hd : length (drop GroupWords (fu_buffer f)) = GroupWords) by (rewrite length_drop; lia).
  split_and!; try reflexivity; [destruct g; rewrite length_app; lia| |].
  - intros j Hj. destruct (lookup_lt_is_Some_2 m (i + j)) as [w Hwj]; [lia|].
    destruct (Forall2_lookup_r _ _ _ _ _ Hg Hm) as (m0 & Hm0 & Hgm). destruct (grows_lookup_inv _ _ _ _ Hgm Hwj) as (w0 & Hw0 & Hor).
    exists w0, w. unfold group_word. cbn [with_network fu_server fu_addr fu_buffer]. rewrite Hm0, Hm, Hi. cbn [mbind option_bind].
    assert (Hb : forall l1 l2, take GroupWords (drop i m) = (if g then l2 else l1) -> length l1 = GroupWords -> buffer_word (l1 ++ l2) g j = w).
    { intros l1 l2 Hl12 Hl1. rewrite buffer_word_app by done. rewrite <- Hl12, lookup_take_lt, lookup_drop, Hwj by done. done. }
    assert (Hb' : buffer_word (if g then take GroupWords (fu_buffer f) ++ take GroupWords (drop i m)
      else take GroupWords (drop i m) ++ drop GroupWords (fu_buffer f)) g j = w) by (destruct g; by apply Hb).
    rewrite Hb'. split_and!; [done|done|naive_solver|by right].
  - intros Hr j Hj. destruct (Hr j Hj) as (w0 & w1 & H0 & H1 & Hb). exists w0, w1. split_and!; [exact H0|exact H1|..].
    all: cbn [with_network fu_buffer].
    all: assert (Hb' : buffer_word (if g then take GroupWords (fu_buffer f) ++ take GroupWords (drop i m)
      else take GroupWords (drop i m) ++ drop GroupWords (fu_buffer f)) (negb g) j = buffer_word (fu_buffer f) (negb g) j);
      [|rewrite Hb'; apply Hb].
    all: destruct g; cbn [negb]; rewrite buffer_word_app by done; unfold buffer_word.
    all: rewrite ?lookup_take_lt, ?lookup_drop by done; done.
Qed.

Definition starts (e : event) : bool := match e with ESearch _ _ | EInsert _ _ => true | _ => false end.

Lemma search_phase_step bits rb mems0 mems f e mems' f' :
  Forall2 grows mems0 mems -> length (fu_buffer f) = (2 * GroupWords)%nat -> search_phase rb mems0 mems f -> starts e = false ->
  event_step bits rb e mems f = Some (mems', f') -> mems' = mems /\ length (fu_buffer f') = (2 * GroupWords)%nat /\ search_phase rb mems0 mems' f'.
Proof.
  intros Hg Hl Hp He Hx. destruct e as [i k|i v|i|i|i]; try discriminate He; cbn [event_step] in Hx.
  - destruct Hp as [Hs Hr Ho Hd Hsent|Hs Hr Ho Hd Hsent H0|Hs Hr Hsent Ho H0 H1|Hs Ho Hd Hsent Hr].
    + destruct (read_spec rb mems0 mems f false _ _ _ Hg Hl Hsent Hx) as (-> & E1 & E2 & E3 & E4 & E5 & E6 & E7 & E8 & _).
      split_and!; [done|done|]. apply PhaseHalf; try congruence; [by rewrite E2, Hd|exact E8].
    + destruct (read_spec rb mems0 mems f true _ _ _ Hg Hl Hsent Hx) as (-> & E1 & E2 & E3 & E4 & E5 & E6 & E7 & E8 & E9).
      split_and!; [done|done|]. apply PhaseRead; try congruence; [by rewrite E6, E2, Ho, Hd|by apply E9|exact E8].
    + unfold nic_exec in Hx. rewrite Hsent in Hx. injection Hx as <- <-. split_and!; [done|done|by apply PhaseRead].
    + unfold nic_exec in Hx. rewrite Hsent in Hx. injection Hx as <- <-. split_and!; [done|done|by apply PhaseDone].
  - injection Hx as <- <-. split_and!; [done|exact Hl|].
    destruct Hp as [Hs Hr Ho Hd Hsent|Hs Hr Ho Hd Hsent H0|Hs Hr Hsent Ho H0 H1|Hs Ho Hd Hsent Hr].
    + apply PhaseSent; cbn; rewrite ?Ho, ?Hd; done.
    + apply PhaseHalf; cbn; rewrite ?Ho, ?Hd; done.
    + apply PhaseRead; cbn; try done. lia.
    + apply PhaseDone; cbn; rewrite ?Ho, ?Hd; try done.
      destruct Hr as [Ha Hb Hc]. split; [exact Ha|exact Hb|exact Hc].
  - injection Hx as <- <-. split; [done|]. destruct (decide (fu_ongoing f = 0%nat)) as [Hz|Hz].
    + destruct Hp as [Hs Hr Ho Hd Hsent|Hs Hr Ho Hd Hsent H0|Hs Hr Hsent Ho H0 H1|Hs Ho Hd Hsent Hr]; [congruence|congruence| |].
      * destruct (scan_result rb mems0 mems f Hs Hz Hr H0 H1) as [E1 E2]. unfold tryStepForward in E1, E2 |- *.
        rewrite Hz, Hs in E1, E2 |- *. cbn [Nat.eqb negb snd] in E1, E2 |- *. split; [exact Hl|]. apply PhaseDone; [exact E1|exact Hz|rewrite Hz in Ho; exact (eq_sym Ho)|exact Hsent|exact E2].
      * unfold tryStepForward. rewrite Hz, Hs. split; [exact Hl|]. by apply PhaseDone.
    + unfold tryStepForward. destruct (Nat.eqb_spec (fu_ongoing f) 0); [done|]. by split.
Qed.

(** The same over any run in which the future starts nothing new. *)
Lemma search_phase_run bits rb mems0 i es : forall s s' f, Forall2 grows mems0 (ix_mem s) ->
  ix_futures s !! i = Some f -> length (fu_buffer f) = (2 * GroupWords)%nat -> search_phase rb mems0 (ix_mem s) f ->
  Forall (fun e => event_future e = i -> starts e = false) es -> run_events bits rb es s = Some s' ->
  exists f', ix_futures s' !! i = Some f' /\ search_phase rb mems0 (ix_mem s') f'.
Proof.
  induction es as [|e es IH]; intros s s' f Hg Hf Hl Hp Hes Hx; cbn [run_events] in Hx; [simplify_eq; by exists f|].
  apply Forall_cons in Hes as [He Hes]. unfold exec_event in Hx. destruct (ix_futures s !! event_future e) as [fe|] eqn:Hfe; [|done].
  cbn [mbind option_bind] in Hx. destruct (event_step bits rb e (ix_mem s) fe) as [[mems' fe']|] eqn:Hs; [|done]. cbn [mbind option_bind] in Hx.
  pose proof (event_step_grows _ _ _ _ _ _ _ Hs) as Hg'. assert (Hg2 : Forall2 grows mems0 mems') by (by etrans).
  destruct (decide (event_future e = i)) as [Hi|Hi].
  - rewrite Hi, Hf in Hfe. injection Hfe as <-. destruct (search_phase_step _ _ _ _ _ _ _ _ Hg Hl Hp (He Hi) Hs) as (-> & Hl' & Hp').
    refine (IH _ s' fe' _ _ Hl' _ Hes Hx); cbn [ix_mem ix_futures]; [exact Hg| |exact Hp'].
    rewrite Hi, list_lookup_insert_eq; [done|]. by eapply lookup_lt_Some.
  - refine (IH _ s' f _ _ Hl _ Hes Hx); cbn [ix_mem ix_futures]; [exact Hg2|by rewrite list_lookup_insert_ne|exact (search_phase_grows _ _ _ _ _ Hg' Hp)].
Qed.

(** C34: A search of the index finds what is there: among any number of clients
    that search and insert, in any order of their steps and of the network's,
    when a search ends it reports the value of every entry with its key's
    checksum that was in the key's buckets when it started, and nothing but
    values of such entries that are there when it ends; and if it reports a free
    slot, the slot it gives for an insertion was free when it started.  Entries
    are never overwritten. *)
Theorem race_search_finds bits rb i hkey s0 s1 s f0 es :
  ix_futures s0 !! i = Some f0 -> idle f0 -> exec_event bits rb (ESearch i hkey) s0 = Some s1 ->
  Forall (fun e => event_future e = i -> starts e = false) es -> run_events bits rb es s1 = Some s ->
  Forall2 grows (ix_mem s0) (ix_mem s) /\
  exists f, ix_futures s !! i = Some f /\ (isDone f = true -> search_result rb (ix_mem s0) (ix_mem s) f).
Proof.
  intros Hf0 (Ho & Hd & Hsent & Hl) He Hes Hrun. unfold exec_event in He. cbn [event_future] in He. rewrite Hf0 in He.
  cbn [mbind option_bind event_step] in He. destruct (search bits _ rb hkey f0) as [f1|] eqn:Hs; [|done].
  cbn [mbind option_bind] in He. injection He as <-. split; [by apply run_events_grows in Hrun|].
  assert (Hp : length (fu_buffer f1) = (2 * GroupWords)%nat /\ search_phase rb (ix_mem s0) (ix_mem s0) f1).
  { unfold search in Hs. destruct (negb _); [|done]. cbn [assert_ mbind option_bind] in Hs.
    destruct (bucketOffsets bits hkey) as [[id0 id1]|]; [|done]. cbn [mbind option_bind] in Hs. injection Hs as <-.
    split; [exact Hl|]. apply PhaseSent; cbn; rewrite ?Ho, ?Hd, ?Hsent; done. }
  destruct Hp as [Hl1 Hp]. destruct (search_phase_run bits rb (ix_mem s0) i es (Sys (ix_mem s0) (<[i:=f1]> (ix_futures s0))) s f1)
    as (f & Hf & Hpf); try done; [cbn; rewrite list_lookup_insert_eq; [done|by eapply lookup_lt_Some]|].
  exists f. split; [exact Hf|]. unfold isDone. intros Hdone%bool_decide_eq_true. destruct Hpf; congruence || done.
Qed.

Lemma race_search_finds_witness : exists s0 s1 s,
  s0 = Sys [<[12%nat := asUint64 (new_entry 16 111)]> (replicate 36 0)] [future_new; future_new] /\
  exec_event 2 4096 (ESearch 0 (seq_hkey 1)) s0 = Some s1 /\ run_events 2 4096 (EInsert 1 5 :: search_now 0) s1 = None /\
  run_events 2 4096 (ESearch 1 (seq_hkey 9) :: search_now 0) s1 = Some s /\
  (exists f, ix_futures s !! 0%nat = Some f /\ isDone f = true /\ matches (fu_result f) = [111] /\ search_result 4096 (ix_mem s0) (ix_mem s) f).
Proof.
  eexists _, _, _. split_and!; [reflexivity|vm_compute; reflexivity|vm_compute; reflexivity|vm_compute; reflexivity|].
  edestruct (race_search_finds 2 4096 0 (seq_hkey 1) (Sys [<[12%nat := asUint64 (new_entry 16 111)]> (replicate 36 0)] [future_new; future_new]))
    with (es := ESearch 1 (seq_hkey 9) :: search_now 0) as [_ (f & Hf & Hr)];
    [reflexivity|by vm_compute|vm_compute; reflexivity|by repeat constructor|vm_compute; reflexivity|].
  vm_compute in Hf. injection Hf as <-. eexists. split_and!; [reflexivity|reflexivity|reflexivity|]. by apply Hr.
Defined.

(** ** A search ends *)

Section Ends.
Context (bits rb : Z) (hkey : HashedKey) (Hb : 2 <= bits <= 30) (Hk : hkey_ok hkey).
Context (Hrb : 0 <= rb /\ rb + 8 * ix_words bits < 2 ^ 64) (i : nat).
Implicit Types (n server : nat) (f : future) (e : event) (es : list event) (s : index_sys).

(** Every server has the memory of an index. *)
Definition mems_ok (mems : list (list Z)) : Prop := Forall (fun m => Z.of_nat (length m) = ix_words bits) mems.

Lemma mems_ok_grows mems mems' : Forall2 grows mems mems' -> mems_ok mems -> mems_ok mems'.
Proof.
  intros Hg Hm. induction Hg as [|m m' mems mems' Hl Hg IH]; [done|]. apply Forall_cons in Hm as [H1 H2].
  constructor; [|by apply IH]. by rewrite <- (Forall2_length _ _ _ Hl).
Qed.

(** A future of which the network and the client have done the first [n] events
    of [search_now], and any others that change nothing. *)
Definition served (id0 id1 : Z) (n : nat) (f : future) : Prop :=
  let a id := u64 (rb + bucket_location id * BucketSize) in
  match n with
  | 0 => fu_sent f = [RdmaRead false (a id0); RdmaRead true (a id1)] /\ fu_done f = 0 /\ fu_ongoing f = 1 /\ fu_step f = Searching
  | 1 => fu_sent f = [RdmaRead true (a id1)] /\ fu_done f = 0 /\ fu_ongoing f = 1 /\ fu_step f = Searching
  | 2 => fu_sent f = [] /\ fu_done f = 1 /\ fu_ongoing f = 1 /\ fu_step f = Searching
  | 3 => fu_sent f = [] /\ fu_done f = 0 /\ fu_ongoing f = 0 /\ fu_step f = Searching
  | _ => fu_sent f = [] /\ fu_step f = Done
  end%nat.

Section Served.
Context (id0 id1 : Z) (Hid0 : 0 <= id0 < 2 ^ bits) (Hid1 : 0 <= id1 < 2 ^ bits).

(** A read of a group succeeds on such memories. *)
Lemma read_served mems server f g id sent :
  mems_ok mems -> (server < length mems)%nat -> fu_server f = server -> 0 <= id < 2 ^ bits ->
  fu_sent f = RdmaRead g (u64 (rb + bucket_location id * BucketSize)) :: sent ->
  exists buffer, nic_exec rb mems f = Some (mems, with_network f (fu_ongoing f) buffer sent (fu_done f + if g then 1 else 0)).
Proof using Hb Hrb.
  intros Hm Hlt Hs Hid Hsent. destruct (lookup_lt_is_Some_2 mems server Hlt) as [m Hmem].
  apply (nic_read rb mems f g _ _ m (group_start id) Hsent); [by rewrite Hs|by apply (word_index_group bits)|].
  pose proof (Forall_lookup_1 _ _ _ _ Hm Hmem) as Hl. cbn in Hl. pose proof (group_start_fits bits Hb id Hid) as Hfit. lia.
Qed.

(** An event of the future that starts nothing succeeds, leaves the memories,
    and brings it one event further if it is the one it waits for. *)
Lemma served_step n mems server f e :
  mems_ok mems -> (server < length mems)%nat -> fu_server f = server -> served id0 id1 n f ->
  starts e = false -> event_future e = i ->
  exists f', event_step bits rb e mems f = Some (mems, f') /\ fu_server f' = server /\
    (if decide (search_now i !! n = Some e) then served id0 id1 (S n) f' else served id0 id1 n f').
Proof using Hb Hrb Hid0 Hid1.
  intros Hm Hlt Hs Hf He Hi. destruct e as [j k|j v|j|j|j]; try discriminate He; cbn [event_future] in Hi; subst j; cbn [event_step].
  - destruct n as [|[|n]].
    + destruct (read_served mems server f false id0 _ Hm Hlt Hs Hid0 (proj1 Hf)) as [b ->]. eexists. split_and!; [done|done|].
      rewrite decide_True by done. destruct Hf as (_ & E1 & E2 & E3). cbn. by rewrite E1.
    + destruct (read_served mems server f true id1 _ Hm Hlt Hs Hid1 (proj1 Hf)) as [b ->]. eexists. split_and!; [done|done|].
      rewrite decide_True by done. destruct Hf as (_ & E1 & E2 & E3). cbn. by rewrite E1.
    + exists f. assert (fu_sent f = []) as Hsent by (destruct n as [|[|n]]; apply Hf). unfold nic_exec. rewrite Hsent.
      split_and!; [done|done|]. rewrite decide_False; [done|]. by destruct n as [|[|[|n]]].
  - exists (tickRdma f). split_and!; [done|done|]. unfold tickRdma.
    destruct n as [|[|[|[|n]]]]; cbn [served with_network fu_sent fu_done fu_ongoing fu_step] in Hf |- *;
      destruct (decide _) as [Hx|Hx]; try discriminate Hx; try by destruct Hx.
    all: destruct Hf as (E1 & E2); try (destruct E2 as (E2 & E3 & E4); rewrite ?E2, ?E3); by rewrite ?E1, ?E4.
  - eexists. split; [done|]. unfold tryStepForward. destruct n as [|[|[|[|n]]]].
    1-3: destruct Hf as (E1 & E2 & E3 & E4); rewrite E3; cbn; by rewrite decide_False by done.
    + destruct Hf as (E1 & E2 & E3 & E4). rewrite E3, E4. cbn. by rewrite decide_True by done.
    + destruct Hf as (E1 & E2). rewrite E2, decide_False by done.
      destruct (negb (fu_ongoing f =? 0)%nat); by cbn [snd].
Qed.

(** Some other future's event of the list fails. *)
Definition other_fails es s : Prop :=
  exists es1 e es2 s1, es = es1 ++ e :: es2 /\ event_future e <> i /\
    run_events bits rb es1 s = Some s1 /\ exec_event bits rb e s1 = None.

Definition ends es s : Prop :=
  (exists s' f', run_events bits rb es s = Some s' /\ ix_futures s' !! i = Some f' /\ isDone f' = true) \/ other_fails es s.

Lemma ends_cons e es s s1 : exec_event bits rb e s = Some s1 -> ends es s1 -> ends (e :: es) s.
Proof.
  intros He [(s' & f' & Hr & Hf)|(es1 & e' & es2 & s2 & -> & Hne & Hr & Hn)].
  - left. exists s', f'. cbn [run_events]. by rewrite He.
  - right. exists (e :: es1), e', es2, s2. cbn [run_events]. by rewrite He.
Qed.

Lemma sublist_drop_cons `{EqDecision A} (l : list A) n (x : A) xs :
  drop n l `sublist_of` x :: xs ->
  if decide (l !! n = Some x) then drop (S n) l `sublist_of` xs else drop n l `sublist_of` xs.
Proof.
  intros Hsub. destruct (l !! n) as [x'|] eqn:Hn.
  - rewrite (drop_S _ _ _ Hn) in Hsub |- *. apply sublist_cons_r in Hsub as [Hsub|(l' & Heq & Hsub)].
    + case_decide; [|done]. etrans; [|exact Hsub]. by apply sublist_cons.
    + injection Heq as -> ->. by rewrite decide_True.
  - apply lookup_ge_None in Hn. rewrite decide_False, drop_ge by done. apply sublist_nil_l.
Qed.

Lemma search_served es : forall n server s f,
  mems_ok (ix_mem s) -> (server < length (ix_mem s))%nat -> ix_futures s !! i = Some f -> fu_server f = server ->
  served id0 id1 n f -> Forall (fun e => event_future e = i -> starts e = false) es ->
  drop n (search_now i) `sublist_of` es -> ends es s.
Proof using Hb Hrb Hid0 Hid1.
  induction es as [|e es IH]; intros n server s f Hm Hlt Hf Hs Hsv Hes Hsub.
  - left. exists s, f. split_and!; [done|done|]. apply sublist_nil_r in Hsub. unfold isDone. apply bool_decide_eq_true.
    destruct n as [|[|[|[|n]]]]; try discriminate Hsub. apply Hsv.
  - apply Forall_cons in Hes as [He Hes]. apply sublist_drop_cons in Hsub.
    destruct (decide (event_future e = i)) as [Hi|Hi].
    + destruct (served_step n (ix_mem s) server f e Hm Hlt Hs Hsv (He Hi) Hi) as (f' & Hst & Hs' & Hsv').
      eapply ends_cons; [unfold exec_event; rewrite Hi, Hf; cbn [mbind option_bind]; by rewrite Hst|].
      assert (Hat : <[i := f']> (ix_futures s) !! i = Some f') by (apply list_lookup_insert_eq; by eapply lookup_lt_Some).
      case_decide; by eapply (IH _ server _ f').
    + rewrite decide_False in Hsub; [|intros Hn; apply Hi; by destruct n as [|[|[|[|n]]]]; try discriminate Hn; injection Hn as <-].
      destruct (exec_event bits rb e s) as [s1|] eqn:Hx; [|right; by exists [], e, es, s].
      eapply ends_cons; [done|].
      assert (Hg : Forall2 grows (ix_mem s) (ix_mem s1)) by (apply (run_events_grows bits rb [e]); cbn [run_events]; by rewrite Hx).
      apply (IH n server s1 f); [by eapply mems_ok_grows|by rewrite <- (Forall2_length _ _ _ Hg)| |done..].
      unfold exec_event in Hx. destruct (ix_futures s !! event_future e) as [fe|]; [|done]. cbn [mbind option_bind] in Hx.
      destruct (event_step bits rb e (ix_mem s) fe) as [[mems fe']|]; [|done]. injection Hx as <-. cbn [ix_futures].
      by rewrite list_lookup_insert_ne.
Qed.
End Served.

Lemma search_ends s f es :
  ix_mem s <> [] -> mems_ok (ix_mem s) -> ix_futures s !! i = Some f -> idle f ->
  Forall (fun e => event_future e = i -> starts e = false) es -> search_now i `sublist_of` es ->
  ends (ESearch i hkey :: es) s.
Proof using Hb Hk Hrb.
  intros Hne Hm Hf (Ho & Hd & Hsent & _) Hes Hsub.
  destruct (bucketOffsets_spec bits hkey Hb Hk) as (id0 & id1 & Hids & H0 & H1 & _).
  assert (Hn : (0 < length (ix_mem s))%nat) by (destruct (ix_mem s); [done|cbn; lia]).
  set (server := Z.to_nat (key_word hkey 0 mod Z.of_nat (length (ix_mem s)))).
  assert (Hlt : (server < length (ix_mem s))%nat).
  { subst server. pose proof (Z.mod_pos_bound (key_word hkey 0) (Z.of_nat (length (ix_mem s)))). lia. }
  destruct (search bits (length (ix_mem s)) rb hkey f) as [f1|] eqn:Hsearch; unfold search in Hsearch;
    (destruct (Nat.eqb_spec (length (ix_mem s)) 0) as [Hz|_]; [lia|]); cbn [negb assert_ mbind option_bind] in Hsearch;
    rewrite Hids in Hsearch; cbn [mbind option_bind] in Hsearch; [injection Hsearch as Hf1|done].
  eapply ends_cons.
  - unfold exec_event. cbn [event_future event_step]. rewrite Hf. cbn [mbind option_bind]. unfold search.
    destruct (Nat.eqb_spec (length (ix_mem s)) 0) as [Hz|_]; [lia|]. cbn [negb assert_ mbind option_bind].
    rewrite Hids. cbn [mbind option_bind]. by rewrite Hf1.
  - apply (search_served id0 id1 H0 H1 es 0 server _ f1); cbn [ix_mem ix_futures]; try done.
    + apply list_lookup_insert_eq. by eapply lookup_lt_Some.
    + by subst f1.
    + subst f1. cbn. by rewrite Ho, Hd, Hsent.
Qed.
End Ends.

(** C35: A key's buckets are in the index: for an index of 2 to 30 bucket bits
    that lies below 2^64 in the servers' memory, the two bucket groups that any
    16-byte hash selects lie in the memory the server allocates and do not
    overlap, and the client's asserts hold.  So a search by any idle future, on
    one or more servers with such memories, ends when its requests are served: in
    any run in which, after the search is started, its network executes the two
    reads and its client polls and steps, in this order, with any further such
    events of them and any events of other futures in between, and in which the
    future is given nothing new to do, it is done at the end, unless an event of
    another future fails first.  With one bucket bit every search divides by
    zero. *)
Theorem race_buckets_in_index bits remoteBuf hkey :
  2 <= bits <= 30 -> hkey_ok hkey -> 0 <= remoteBuf /\ remoteBuf + 8 * ix_words bits < 2 ^ 64 ->
  indexSize bits = Some (8 * ix_words bits) /\
  (exists id0 id1 i0 i1, bucketOffsets bits hkey = Some (id0, id1) /\
    word_index remoteBuf (u64 (remoteBuf + bucket_location id0 * BucketSize)) = Some i0 /\
    word_index remoteBuf (u64 (remoteBuf + bucket_location id1 * BucketSize)) = Some i1 /\
    Z.of_nat (i0 + GroupWords) <= ix_words bits /\ Z.of_nat (i1 + GroupWords) <= ix_words bits /\
    (i0 + GroupWords <= i1 \/ i1 + GroupWords <= i0)%nat) /\
  (forall i f s es, ix_mem s <> [] -> mems_ok bits (ix_mem s) -> ix_futures s !! i = Some f -> idle f ->
    Forall (fun e => event_future e = i -> starts e = false) es -> search_now i `sublist_of` es ->
    (exists s' f', run_events bits remoteBuf (ESearch i hkey :: es) s = Some s' /\
      ix_futures s' !! i = Some f' /\ isDone f' = true) \/
    other_fails bits remoteBuf i (ESearch i hkey :: es) s) /\
  bucketOffsets 1 hkey = None.
Proof.
  intros Hb Hk Hrb. destruct (indexSize_spec bits Hb) as [Hs Hw]. split_and!; [done| |by intros i f s es; apply search_ends|].
  - destruct (bucketOffsets_spec bits hkey Hb Hk) as (id0 & id1 & Ho & Hid0 & Hid1 & Hne).
    exists id0, id1, (group_start id0), (group_start id1).
    pose proof (group_start_fits bits Hb id0 Hid0). pose proof (group_start_fits bits Hb id1 Hid1).
    split_and!; [done|by eapply (word_index_group bits)..|lia|lia|by apply groups_apart; [lia..|]].
  - unfold bucketOffsets. rewrite int_shift_spec by lia. done.
Qed.

(** Two servers, two futures: the other one inserts at its own pace and polls in
    between. *)
Definition busy_events : list event :=
  [ESearch 1 (seq_hkey 9); ENic 0; ETick 0; ENic 1; ENic 0; EStep 0; ENic 1; ETick 1; ETick 0; EStep 1; EInsert 1 5; ENic 1; EStep 0].

Lemma race_buckets_in_index_witness :
  let s := Sys [replicate 36 0; replicate 36 0] [future_new; future_new] in
  (exists id0 id1, bucketOffsets 2 (seq_hkey 7) = Some (id0, id1)) /\ bucketOffsets 1 (seq_hkey 7) = None /\
  ((exists s' f', run_events 2 1000 (ESearch 0 (seq_hkey 7) :: busy_events) s = Some s' /\
     ix_futures s' !! 0%nat = Some f' /\ isDone f' = true) \/
   other_fails 2 1000 0 (ESearch 0 (seq_hkey 7) :: busy_events) s) /\
  is_Some (run_events 2 1000 (ESearch 0 (seq_hkey 7) :: busy_events) s).
Proof.
  intros s. destruct (race_buckets_in_index 2 1000 (seq_hkey 7)) as (_ & (id0 & id1 & _ & _ & Ho & _) & Hends & Hn);
    [lia|apply seq_hkey_ok|split; [lia|by vm_compute]|]. split_and!.
  - exists id0, id1. exact Ho.
  - exact Hn.
  - refine (Hends 0%nat future_new s busy_events _ _ _ _ _ _); [by intros ?| |reflexivity|unfold idle; cbn; by split_and!| |].
    + apply Forall_forall. intros m Hm. apply list_elem_of_In in Hm. by destruct Hm as [<-|[<-|[]]].
    + apply Forall_forall. intros e He. apply list_elem_of_In in He.
      repeat (destruct He as [<-|He]; [by intros ?|]). by destruct He.
    + apply sublist_cons, sublist_skip, sublist_cons, sublist_cons, sublist_skip, sublist_cons, sublist_cons, sublist_cons,
        sublist_skip, sublist_cons, sublist_cons, sublist_cons, sublist_skip, sublist_nil.
  - eexists. vm_compute. reflexivity.
Defined.

(** ** Insertions are not checked *)

Definition unchecked (f : future) : Prop := fu_step f <> Inserting /\ updated (fu_result f) = false.

Lemma event_step_unchecked bits rb e mems f mems' f' : event_step bits rb e mems f = Some (mems', f') -> unchecked f -> unchecked f'.
Proof.
  unfold unchecked. destruct e as [i k|i v|i|i|i]; cbn [event_step]; intros Hx Hu.
  - destruct (search _ _ _ _ _) as [f1|] eqn:Hs; [|done]. injection Hx as _ <-. unfold search in Hs.
    destruct (negb _); [|done]. cbn [assert_ mbind option_bind] in Hs.
    destruct (bucketOffsets bits k) as [[id0 id1]|]; [|done]. cbn [mbind option_bind] in Hs. by injection Hs as <-.
  - destruct (tryInsert _ _) as [f1|] eqn:Hs; [|done]. injection Hx as _ <-. unfold tryInsert in Hs.
    destruct (negb _); [|done]. cbn [assert_ mbind option_bind] in Hs. by injection Hs as <-.
  - unfold nic_exec in Hx. destruct (fu_sent f) as [|[g addr|addr new] sent]; [by simplify_eq| |].
    + destruct (mems !! fu_server f) as [m|]; [|done]. cbn in Hx. destruct (word_index rb addr) as [j|]; [|done]. cbn in Hx.
      destruct (_ <=? _)%nat; [|done]. by injection Hx as _ <-.
    + destruct (mems !! fu_server f) as [m|]; [|done]. cbn in Hx. destruct (word_index rb addr) as [j|]; [|done]. cbn in Hx.
      destruct (m !! j); [|done]. by injection Hx as _ <-.
  - by injection Hx as _ <-.
  - injection Hx as _ <-. unfold tryStepForward. destruct (negb _); [exact Hu|]. destruct Hu as [Hu1 Hu2].
    destruct (fu_step f) eqn:Hs; cbn [snd set_result fu_step fu_result updated]; [by rewrite Hu2|by destruct Hu1|by rewrite Hs].
Qed.

Lemma run_events_unchecked bits rb es : forall s s', Forall unchecked (ix_futures s) -> run_events bits rb es s = Some s' ->
  Forall unchecked (ix_futures s').
Proof.
  induction es as [|e es IH]; intros s s' Hu Hx; cbn [run_events] in Hx; [by simplify_eq|].
  unfold exec_event in Hx. destruct (ix_futures s !! event_future e) as [f|] eqn:Hf; [|done]. cbn [mbind option_bind] in Hx.
  destruct (event_step bits rb e (ix_mem s) f) as [[mems f']|] eqn:Hs; [|done]. cbn [mbind option_bind] in Hx.
  refine (IH _ _ _ Hx). cbn [ix_futures]. apply Forall_insert; [exact Hu|]. eapply event_step_unchecked; [exact Hs|].
  by eapply Forall_lookup_1.
Qed.

(** A hashed key with the buckets of [seq_hkey 1] and another checksum. *)
Definition rival_hkey : HashedKey := <[15%nat := 0]> (seq_hkey 9).

(** Two clients search for their keys in an empty index, then insert them. *)
Definition two_inserts : list event :=
  [ESearch 0 (seq_hkey 1); ESearch 1 rival_hkey] ++ search_now 0 ++ search_now 1 ++
  [EInsert 0 111; EInsert 1 222; ENic 0; ENic 1; ETick 0; ETick 1; EStep 0; EStep 1].

(** C36: The result of an insertion's compare-and-swap is never looked at, so an
    insertion can be lost without notice: [tryInsert] does not enter the step
    [Inserting], which no future ever does, and [updated] stays false; when two
    clients insert different keys into the same free slot, both are done without
    an error, one key is in the index, and a later search for the other finds
    nothing. *)
Theorem race_insert_lost :
  (forall bits rb es mems n s, run_events bits rb es (Sys mems (replicate n future_new)) = Some s ->
    Forall (fun f => fu_step f <> Inserting /\ updated (fu_result f) = false) (ix_futures s)) /\
  exists s s', run_events 2 4096 two_inserts (Sys [replicate 36 0] [future_new; future_new]) = Some s /\
    Forall (fun f => isDone f = true /\ fu_ongoing f = 0%nat) (ix_futures s) /\
    ix_mem s = [<[12%nat := asUint64 (new_entry (checksum (seq_hkey 1)) 111)]> (replicate 36 0)] /\
    run_events 2 4096 ([ESearch 0 (seq_hkey 1); ESearch 1 rival_hkey] ++ search_now 0 ++ search_now 1) s = Some s' /\
    (fun f => (isDone f, matches (fu_result f))) <$> ix_futures s' = [(true, [111]); (true, [])].
Proof.
  split.
  - intros bits rb es mems n s Hrun. refine (run_events_unchecked _ _ _ _ _ _ Hrun). apply Forall_replicate. by split.
  - eexists _, _. split_and!; [vm_compute; reflexivity| |vm_compute; reflexivity..].
    cbn [ix_futures]. repeat constructor.
Qed.
