(* ===== verification/SwarmMaxReg.v ===== *)
(** * SwarmMaxReg: the max register of one server (unreliable_maxreg.hpp)

    For each key a server keeps an array of timestamp words, one shared by every
    [num_tsp]-th client, a key-value and a log of entries.  An
    [UnreliableMaxRegFuture] reads and raises the words of one server by RDMA:
    a write swaps its own word, expecting the last it saw.  The model runs any
    number of clients against one server.  The theorems: lawful clients never
    lower a word, and a write that is done is in the register; one step,
    [WriteTsAndIn], has no guard and can lower the register. *)

From S2P Require Import Prelude SwarmState.

Local Open Scope Z_scope.

(** ** Memory *)

(** The part of a key-value that both ends hold: [in_place_tsp], checksum and
    the bytes of key and value. *)
Record KV := Kv { in_place_tsp : Z; chsum : list Z; raw_kv : list Z }.

(** An entry in the client's memory, with the words behind its value. *)
Record LogEntry := Log { notif : Z; from_tsp : Z; le_kv : KV; tsps : list Z }.

(** An entry of a server's log, and a key of a server. *)
Record server_log := SLog { sl_notif : Z; sl_from : Z; sl_kv : KV }.
Record server_kv := SKv { sk_kv : KV; sk_tsps : list Z }.

(** Keys by their number; log entries by client index and log slot. *)
Record server := Server { sv_keys : list server_kv; sv_logs : gmap (Z * Z) server_log }.

(** ** The future *)

Inductive Step :=
  | TryReadAll | ReadAll | ReadTs | NotifyAndReadTs | ReadLog | TryWriteAll | WriteAll | ReplicateAllAndReadNotifs
  | WriteTsAndIn | WriteTs | ReplicateTsAndReadNotifs | ReadNotifs | Dead | Done.

Global Instance maxreg_step_eq : EqDecision Step.
Proof. solve_decision. Defined.

(** [static_cast<size_t>(step)] *)
Definition step_index (s : Step) : nat :=
  match s with
  | TryReadAll => 0 | ReadAll => 1 | ReadTs => 2 | NotifyAndReadTs => 3 | ReadLog => 4 | TryWriteAll => 5 | WriteAll => 6
  | ReplicateAllAndReadNotifs => 7 | WriteTsAndIn => 8 | WriteTs => 9 | ReplicateTsAndReadNotifs => 10 | ReadNotifs => 11
  | Dead => 12 | Done => 13
  end.

(** Requests, with what they address: a key, a log entry, and the local entry
    they read from or write to. *)
Inductive request :=
  | RqReadKv (key entry : nat)
  | RqReadTsps (key entry : nat) (signaled : bool)
  | RqCasNotif (log : Z * Z) (entry : nat)
  | RqReadLog (log : Z * Z) (entry : nat)
  | RqWriteLog (log : Z * Z) (entry : nat)
  | RqCasTsp (key : nat) (slot : nat) (expected new : Z) (entry : nat)
  | RqWriteKv (key entry : nat)
  | RqReadNotif (log : Z * Z) (entry : nat).

Record maxreg := MaxReg {
  mr_step : Step;
  mr_to_poll : Z;
  mr_remote_kv : nat;
  mr_ongoing_kv : nat;
  mr_max : Z;
  mr_last : option Z;
  mr_ongoing_entry : nat;
  mr_next : option Step;
  mr_write : nat;
  mr_log : Z * Z;
  mr_out_of_place : bool;
  mr_in_place : bool;
  mr_primary : bool;
  mr_lazyness : Z;
  mr_progress : bool;
  mr_measuring : bool;
}.

(** A client with its entries (the write entry first, then those to read into),
    the parts of its state the future uses, the future, and the requests it has
    posted that the network has not executed, and completions not polled. *)
Record client := Client {
  cl_idx : Z;
  cl_entries : list LogEntry;
  cl_clock : clock;
  cl_to_poll : Z;
  cl_counts : list Z;
  cl_reg : maxreg;
  cl_sent : list request;
  cl_completed : Z;
}.

(** Updates of one field or of the future. *)
Definition with_reg (r : maxreg) (c : client) : client :=
  Client (cl_idx c) (cl_entries c) (cl_clock c) (cl_to_poll c) (cl_counts c) r (cl_sent c) (cl_completed c).
Definition with_entries (es : list LogEntry) (c : client) : client :=
  Client (cl_idx c) es (cl_clock c) (cl_to_poll c) (cl_counts c) (cl_reg c) (cl_sent c) (cl_completed c).
Definition with_clock (k : clock) (c : client) : client :=
  Client (cl_idx c) (cl_entries c) k (cl_to_poll c) (cl_counts c) (cl_reg c) (cl_sent c) (cl_completed c).
Definition with_counts (n : list Z) (c : client) : client :=
  Client (cl_idx c) (cl_entries c) (cl_clock c) (cl_to_poll c) n (cl_reg c) (cl_sent c) (cl_completed c).

Definition set_step (s : Step) (r : maxreg) : maxreg :=
  MaxReg s (mr_to_poll r) (mr_remote_kv r) (mr_ongoing_kv r) (mr_max r) (mr_last r) (mr_ongoing_entry r) (mr_next r) (mr_write r)
    (mr_log r) (mr_out_of_place r) (mr_in_place r) (mr_primary r) (mr_lazyness r) (mr_progress r) (mr_measuring r).
Definition set_poll (n : Z) (r : maxreg) : maxreg :=
  MaxReg (mr_step r) n (mr_remote_kv r) (mr_ongoing_kv r) (mr_max r) (mr_last r) (mr_ongoing_entry r) (mr_next r) (mr_write r)
    (mr_log r) (mr_out_of_place r) (mr_in_place r) (mr_primary r) (mr_lazyness r) (mr_progress r) (mr_measuring r).
Definition set_ongoing (r : maxreg) : maxreg :=
  MaxReg (mr_step r) (mr_to_poll r) (mr_remote_kv r) (mr_remote_kv r) (mr_max r) (mr_last r) (mr_write r) (mr_next r) (mr_write r)
    (mr_log r) (mr_out_of_place r) (mr_in_place r) (mr_primary r) (mr_lazyness r) (mr_progress r) (mr_measuring r).
Definition set_seen (m : Z) (l : option Z) (r : maxreg) : maxreg :=
  MaxReg (mr_step r) (mr_to_poll r) (mr_remote_kv r) (mr_ongoing_kv r) m l (mr_ongoing_entry r) (mr_next r) (mr_write r)
    (mr_log r) (mr_out_of_place r) (mr_in_place r) (mr_primary r) (mr_lazyness r) (mr_progress r) (mr_measuring r).
Definition set_next (n : option Step) (r : maxreg) : maxreg :=
  MaxReg (mr_step r) (mr_to_poll r) (mr_remote_kv r) (mr_ongoing_kv r) (mr_max r) (mr_last r) (mr_ongoing_entry r) n (mr_write r)
    (mr_log r) (mr_out_of_place r) (mr_in_place r) (mr_primary r) (mr_lazyness r) (mr_progress r) (mr_measuring r).
Definition set_target (w : nat) (log : Z * Z) (r : maxreg) : maxreg :=
  MaxReg (mr_step r) (mr_to_poll r) (mr_remote_kv r) (mr_ongoing_kv r) (mr_max r) (mr_last r) (mr_ongoing_entry r) (mr_next r) w
    log (mr_out_of_place r) (mr_in_place r) (mr_primary r) (mr_lazyness r) (mr_progress r) (mr_measuring r).
Definition set_progress (b : bool) (r : maxreg) : maxreg :=
  MaxReg (mr_step r) (mr_to_poll r) (mr_remote_kv r) (mr_ongoing_kv r) (mr_max r) (mr_last r) (mr_ongoing_entry r) (mr_next r) (mr_write r)
    (mr_log r) (mr_out_of_place r) (mr_in_place r) (mr_primary r) (mr_lazyness r) b (mr_measuring r).

Definition set_kv_tsp (t : Z) (e : LogEntry) : LogEntry :=
  Log (notif e) (from_tsp e) (Kv t (chsum (le_kv e)) (raw_kv (le_kv e))) (tsps e).
Definition set_tsps (ts : list Z) (e : LogEntry) : LogEntry := Log (notif e) (from_tsp e) (le_kv e) ts.
Definition set_from (t : Z) (e : LogEntry) : LogEntry := Log (notif e) t (le_kv e) (tsps e).
Definition set_notif (n : Z) (e : LogEntry) : LogEntry := Log n (from_tsp e) (le_kv e) (tsps e).
Definition set_le_kv (k : KV) (e : LogEntry) : LogEntry := Log (notif e) (from_tsp e) k (tsps e).

(** [value_or(0)], and the comparisons of the two guards. *)
Definition last_or_0 (r : maxreg) : Z := default 0 (mr_last r).

(** The guard of [doNext] (with [<]) and of [transitionTo] (with [<=]): where a
    step leads when the register is known to hold the write. *)
Definition guard (before : Z -> Z -> bool) (tsp max : Z) (s : Step) : Step :=
  let write_ts := if before tsp max then Done else WriteTs in
  match s with
  | ReplicateAllAndReadNotifs | ReplicateTsAndReadNotifs => if before tsp (Z.lor max 1) then ReadNotifs else s
  | WriteAll | TryWriteAll => if before tsp (Z.lor max 1) then write_ts else s
  | WriteTs => write_ts
  | _ => s
  end.

Section MaxReg.
Context (L : layout) (server_idx : Z) (hash : Z -> list Z -> list Z).

(** The local entry the future reads into. *)
Definition read_entry : nat := S (Z.to_nat server_idx).

Definition write_tsp (c : client) : option Z :=
  e ← cl_entries c !! mr_write (cl_reg c); Some (in_place_tsp (le_kv e)).

Definition extractClientIdx (tsp : Z) : Z := u64 (extractClientProcId tsp - firstClientId L).

(** [getServerLogAddress] throws on ids out of range. *)
Definition log_at (client_idx log_id : Z) : option (Z * Z) :=
  assert_ ((client_idx <? num_clients L) && (log_id <? server_logs_per_client L)) ;; Some (client_idx, log_id).

Definition log_of (tsp : Z) : option (Z * Z) := log_at (extractClientIdx tsp) (extractLogId tsp).

Definition doNext (s : Step) (c : client) : option client :=
  tsp ← write_tsp c;
  Some (with_reg (set_next (Some (guard Z.ltb tsp (mr_max (cl_reg c)) s)) (cl_reg c)) c).

(** ** The operations *)

Inductive operation :=
  | OpForKV (kv_id : Z) (my_last : option Z) (measuring : bool)
  | OpTryRead | OpRead | OpReadTs
  | OpNotifyAndReadTs (entry : nat)
  | OpReadLog (client_idx log_id : Z)
  | OpReplicate (entry : nat)
  | OpReplicateAndReadNotifs (entry : nat)
  | OpWrite (log_id : Z)
  | OpTryWrite (log_id : Z)
  | OpWriteTsAndIn
  | OpMarkAsDone.

Definition forKV (kv_id : Z) (my_last : option Z) (measuring : bool) (c : client) : option client :=
  assert_ (kv_id <? keys_per_server L) ;;
  let r := cl_reg c in
  Some (with_reg (MaxReg (mr_step r) (mr_to_poll r) (Z.to_nat kv_id) (mr_ongoing_kv r) (default 0 my_last) my_last (mr_ongoing_entry r)
    (mr_next r) (mr_write r) (mr_log r) (mr_out_of_place r) (mr_in_place r) (mr_primary r) (mr_lazyness r) (mr_progress r) measuring) c).

Definition entry_tsp (i : nat) (c : client) : option Z := e ← cl_entries c !! i; Some (in_place_tsp (le_kv e)).

(** Chooses what to write and where it is logged. *)
Definition target (w : nat) (log : Z * Z) (c : client) : client := with_reg (set_target w log (cl_reg c)) c.

Definition do_op (op : operation) (c : client) : option client :=
  match op with
  | OpForKV kv_id my_last measuring => forKV kv_id my_last measuring c
  | OpTryRead => doNext TryReadAll c
  | OpRead => doNext ReadAll c
  | OpReadTs => doNext ReadTs c
  | OpNotifyAndReadTs entry =>
      tsp ← entry_tsp entry c; log ← log_of tsp; doNext NotifyAndReadTs (target (mr_write (cl_reg c)) log c)
  | OpReadLog client_idx log_id =>
      log ← log_at client_idx log_id; doNext ReadLog (target (mr_write (cl_reg c)) log c)
  | OpReplicate entry => tsp ← entry_tsp entry c; log ← log_of tsp; doNext WriteAll (target entry log c)
  | OpReplicateAndReadNotifs entry =>
      tsp ← entry_tsp entry c; log ← log_of tsp; doNext ReplicateAllAndReadNotifs (target entry log c)
  | OpWrite log_id => log ← log_at (cl_idx c) log_id; doNext WriteAll (target 0 log c)
  | OpTryWrite log_id => log ← log_at (cl_idx c) log_id; doNext TryWriteAll (target 0 log c)
  | OpWriteTsAndIn => doNext WriteTsAndIn (target 0 (mr_log (cl_reg c)) c)
  | OpMarkAsDone => doNext Done c
  end.

Definition isDone (c : client) : bool :=
  bool_decide (mr_step (cl_reg c) = Done) &&
  bool_decide (mr_next (cl_reg c) = None \/ mr_next (cl_reg c) = Some Done).

Definition isLinearized (c : client) : option bool :=
  tsp ← write_tsp c;
  Some (bool_decide (mr_step (cl_reg c) = Done /\ mr_next (cl_reg c) = None) || bool_decide (mr_next (cl_reg c) = Some Done) ||
        (tsp <=? Z.lor (mr_max (cl_reg c)) 1)).

Definition notified (c : client) : option bool := e ← cl_entries c !! read_entry; Some (negb (notif e =? 0)).

(** ** Posting *)

Definition signaled (rq : request) : bool :=
  match rq with
  | RqReadKv _ _ | RqReadLog _ _ | RqCasTsp _ _ _ _ _ | RqReadNotif _ _ => true
  | RqReadTsps _ _ b => b
  | RqCasNotif _ _ | RqWriteLog _ _ | RqWriteKv _ _ => false
  end.

Definition addToOngoingRDMA (n : Z) (c : client) : client :=
  Client (cl_idx c) (cl_entries c) (cl_clock c) (cl_to_poll c + n) (cl_counts c)
    (set_poll (u64 (mr_to_poll (cl_reg c) + n)) (cl_reg c)) (cl_sent c) (cl_completed c).

Definition post (rqs : list request) (c : client) : client :=
  addToOngoingRDMA (Z.of_nat (length (filter (fun rq => signaled rq = true) rqs)))
    (Client (cl_idx c) (cl_entries c) (cl_clock c) (cl_to_poll c) (cl_counts c) (cl_reg c) (cl_sent c ++ rqs) (cl_completed c)).

Definition when {A} (b : bool) (l : list A) : list A := if b then l else [].

(** The word of a client; [num_tsp] must not be zero. *)
Definition my_slot (c : client) : option nat :=
  assert_ (negb (num_tsp L =? 0)) ;; Some (Z.to_nat (cl_idx c mod num_tsp L)).

Definition cas_tsp (c : client) : option request :=
  let r := cl_reg c in
  slot ← my_slot c; tsp ← write_tsp c;
  Some (RqCasTsp (mr_remote_kv r) slot (last_or_0 r) tsp read_entry).

(** What [transitionTo] posts in each step, in order. *)
Definition step_requests (s : Step) (c : client) : option (list request) :=
  let r := cl_reg c in
  let kv := mr_remote_kv r in
  let log := mr_log r in
  let w := mr_write r in
  let read_tsps := [RqReadTsps kv read_entry true] in
  let read_notif := [RqReadNotif log read_entry] in
  match s with
  | TryReadAll | ReadAll => Some (if mr_in_place r then [RqReadKv kv read_entry] else read_tsps)
  | ReadTs => Some read_tsps
  | NotifyAndReadTs => Some (RqCasNotif log read_entry :: read_tsps)
  | ReadLog => Some [RqReadLog log read_entry]
  | TryWriteAll | WriteAll | ReplicateAllAndReadNotifs =>
      cas ← cas_tsp c;
      let try := bool_decide (s = TryWriteAll) in
      let indexing := mr_primary r && bool_decide (mr_last r = None) in
      let replicating := negb (w =? 0)%nat in
      let lazy_replication := replicating && mr_out_of_place r in
      let lazy_try_write := try && mr_out_of_place r in
      let in_place := indexing || (mr_in_place r && negb lazy_replication && negb lazy_try_write) in
      Some (when (try && (1 <? num_tsp L)) [RqReadTsps kv read_entry false] ++
            when (mr_out_of_place r) [RqWriteLog log w] ++ [cas] ++ when in_place [RqWriteKv kv w] ++
            when (bool_decide (s = ReplicateAllAndReadNotifs)) read_notif)
  | WriteTsAndIn | WriteTs | ReplicateTsAndReadNotifs =>
      cas ← cas_tsp c;
      Some ([cas] ++ when (bool_decide (s = WriteTsAndIn) && mr_in_place r) [RqWriteKv kv w] ++
            when (bool_decide (s = ReplicateTsAndReadNotifs)) read_notif)
  | ReadNotifs => Some read_notif
  | Dead | Done => Some []
  end.

Definition count_step (s : Step) (c : client) : option client :=
  if mr_measuring (cl_reg c) then
    n ← cl_counts c !! step_index s; Some (with_counts (<[step_index s := n + 1]> (cl_counts c)) c)
  else Some c.

Definition transitionTo (s : Step) (c : client) : option client :=
  tsp ← write_tsp c;
  let s := guard Z.leb tsp (mr_max (cl_reg c)) s in
  let c := with_reg (set_step s (cl_reg c)) c in
  if bool_decide (s = Done) then Some c
  else
    let c := with_reg (set_ongoing (cl_reg c)) c in
    c ← count_step s c;
    rqs ← step_requests s c;
    Some (post rqs c).

(** ** Stepping *)

Definition isLazy (c : client) : bool := dead_servers (cl_clock c) <? mr_lazyness (cl_reg c).
Definition isDead (c : client) : bool := server_idx <? dead_servers (cl_clock c).

Definition is_write_step (s : Step) : bool :=
  match s with
  | TryWriteAll | WriteAll | ReplicateAllAndReadNotifs | WriteTsAndIn | WriteTs | ReplicateTsAndReadNotifs => true
  | _ => false
  end.

Definition is_read_step (s : Step) : bool :=
  match s with TryReadAll | ReadAll | ReadTs | NotifyAndReadTs => true | _ => false end.

(** [max_seen_tsp] and the clock move up to [tsp]. *)
Definition see (now tsp : Z) (c : client) : client :=
  if mr_max (cl_reg c) <? tsp
  then with_clock (syncClock now tsp false (cl_clock c)) (with_reg (set_seen tsp (mr_last (cl_reg c)) (cl_reg c)) c)
  else c.

Definition set_last (l : Z) (c : client) : client := with_reg (set_seen (mr_max (cl_reg c)) (Some l) (cl_reg c)) c.

(** The swapped-back word of a finished write. *)
Definition see_swapped (now : Z) (c : client) : option client :=
  re ← cl_entries c !! read_entry;
  we ← cl_entries c !! mr_ongoing_entry (cl_reg c);
  let last := if last_or_0 (cl_reg c) =? from_tsp re then in_place_tsp (le_kv we) else from_tsp re in
  slot ← my_slot c;
  assert_ (slot <? length (tsps we))%nat ;;
  let es := <[mr_ongoing_entry (cl_reg c) := set_tsps (<[slot := last]> (tsps we)) we]> (cl_entries c) in
  Some (see now last (set_last last (with_entries es c))).

(** The words a finished read brought. *)
Definition see_read (now : Z) (set_mine : bool) (c : client) : option client :=
  re ← cl_entries c !! read_entry;
  new_max ← maxTspOf L (tsps re);
  let c := see now new_max c in
  if set_mine then mine ← myTspOf L (tsps re) (cl_idx c); Some (set_last mine c) else Some c.

Definition update_seen (now : Z) (c : client) : option client :=
  if negb (mr_ongoing_kv (cl_reg c) =? mr_remote_kv (cl_reg c))%nat then Some c
  else
    let s := mr_step (cl_reg c) in
    if is_write_step s then
      c ← see_swapped now c;
      if bool_decide (s <> TryWriteAll) || (num_tsp L =? 1) then Some c else see_read now false c
    else if is_read_step s then see_read now true c
    else Some c.

(** Whether the entry read in place is the one sought, by its checksum. *)
Definition read_in_place (c : client) (re : LogEntry) : bool :=
  mr_in_place (cl_reg c) && (Z.lor (in_place_tsp (le_kv re)) 1 =? Z.lor (mr_max (cl_reg c)) 1) &&
  bool_decide (hash (filterLogIdAndClientProcId (in_place_tsp (le_kv re))) (raw_kv (le_kv re)) = chsum (le_kv re)).

(** The last switch of [tryStepForward]. *)
Definition advance (c : client) : option client :=
  match mr_step (cl_reg c) with
  | TryReadAll | ReadTs | NotifyAndReadTs | ReadLog | TryWriteAll | ReadNotifs => transitionTo Done c
  | ReadAll =>
      if mr_max (cl_reg c) =? 0 then transitionTo Done c
      else
        re ← cl_entries c !! read_entry;
        if read_in_place c re then transitionTo Done c
        else
          log ← log_of (mr_max (cl_reg c));
          transitionTo ReadLog (target (mr_write (cl_reg c)) log c)
  | WriteAll | WriteTsAndIn | WriteTs => transitionTo WriteTs c
  | ReplicateAllAndReadNotifs | ReplicateTsAndReadNotifs =>
      tsp ← write_tsp c;
      if tsp <? Z.lor (mr_max (cl_reg c)) 1 then transitionTo Done c else transitionTo ReplicateTsAndReadNotifs c
  | Dead | Done => Some c
  end.

Definition tryStepForward (now : Z) (c : client) : option (bool * client) :=
  if isDead c then Some (false, with_reg (set_step Dead (cl_reg c)) c)
  else if isLazy c then Some (false, c)
  else if (if (mr_ongoing_kv (cl_reg c) =? mr_remote_kv (cl_reg c))%nat then 0 else 1) <? mr_to_poll (cl_reg c) then Some (false, c)
  else
    c ← update_seen now c;
    match mr_next (cl_reg c) with
    | Some s => c ← transitionTo s (with_reg (set_next None (cl_reg c)) c); Some (true, c)
    | None =>
        let c := with_reg (set_progress true (cl_reg c)) c in
        if bool_decide (mr_step (cl_reg c) = Done) then Some (true, c)
        else c ← advance c; Some (true, c)
    end.

(** ** The network and the clients of one server *)

Definition with_network (es : list LogEntry) (sent : list request) (completed : Z) (c : client) : client :=
  Client (cl_idx c) es (cl_clock c) (cl_to_poll c) (cl_counts c) (cl_reg c) sent completed.

(** What a request does to the server and to the client's entries. *)
Definition serve (rq : request) (sv : server) (es : list LogEntry) : option (server * list LogEntry) :=
  match rq with
  | RqReadKv key i =>
      k ← sv_keys sv !! key; e ← es !! i; Some (sv, <[i := set_tsps (sk_tsps k) (set_le_kv (sk_kv k) e)]> es)
  | RqReadTsps key i _ => k ← sv_keys sv !! key; e ← es !! i; Some (sv, <[i := set_tsps (sk_tsps k) e]> es)
  | RqCasNotif log i =>
      l ← sv_logs sv !! log; e ← es !! i;
      let n := if sl_notif l =? 0 then 1 else sl_notif l in
      Some (Server (sv_keys sv) (<[log := SLog n (sl_from l) (sl_kv l)]> (sv_logs sv)), <[i := set_notif (sl_notif l) e]> es)
  | RqReadLog log i => l ← sv_logs sv !! log; e ← es !! i; Some (sv, <[i := set_le_kv (sl_kv l) e]> es)
  | RqWriteLog log i =>
      l ← sv_logs sv !! log; e ← es !! i;
      Some (Server (sv_keys sv) (<[log := SLog (sl_notif l) (from_tsp e) (le_kv e)]> (sv_logs sv)), es)
  | RqCasTsp key slot expected new i =>
      k ← sv_keys sv !! key; old ← sk_tsps k !! slot; e ← es !! i;
      let ts := if old =? expected then <[slot := new]> (sk_tsps k) else sk_tsps k in
      Some (Server (<[key := SKv (sk_kv k) ts]> (sv_keys sv)) (sv_logs sv), <[i := set_from old e]> es)
  | RqWriteKv key i =>
      k ← sv_keys sv !! key; e ← es !! i;
      Some (Server (<[key := SKv (le_kv e) (sk_tsps k)]> (sv_keys sv)) (sv_logs sv), es)
  | RqReadNotif log i => l ← sv_logs sv !! log; e ← es !! i; Some (sv, <[i := set_notif (sl_notif l) e]> es)
  end.

Definition nic_exec (sv : server) (c : client) : option (server * client) :=
  match cl_sent c with
  | [] => Some (sv, c)
  | rq :: sent =>
      '(sv, es) ← serve rq sv (cl_entries c);
      Some (sv, with_network es sent (cl_completed c + if signaled rq then 1 else 0) c)
  end.

(** The future's part of polling: [addToOngoingRDMA(-1)] per completion. *)
Definition poll (c : client) : client :=
  let c' := addToOngoingRDMA (- cl_completed c) c in with_network (cl_entries c') (cl_sent c') 0 c'.

Inductive event :=
  | EOp (op : operation)
  | ELocal (entry : nat) (e : LogEntry)
  | ENic
  | EPoll
  | EStep (now : Z).

(** One client's event; [ELocal] is the rest of the client, which fills in the
    entry to write and shares the entries among its futures. *)
Definition client_event (e : event) (sv : server) (c : client) : option (server * client) :=
  match e with
  | EOp op => c ← do_op op c; Some (sv, c)
  | ELocal i e => assert_ (i <? length (cl_entries c))%nat ;; Some (sv, with_entries (<[i := e]> (cl_entries c)) c)
  | ENic => nic_exec sv c
  | EPoll => Some (sv, poll c)
  | EStep now => '(_, c) ← tryStepForward now c; Some (sv, c)
  end.

(** A new future of a client, as [forKV] of the layer above configures it. *)
Definition client_new (idx : Z) (entries : list LogEntry) (k : clock) (counts : list Z) (out_of_place in_place primary : bool)
    (lazyness : Z) : client :=
  Client idx entries k 0 counts
    (MaxReg Done 0 0 0 0 (Some 0) 0 None 0 (0, 0) out_of_place in_place primary lazyness false false) [] 0.

(** Clients of one server; an event is a client's. *)
Definition pool_event (ie : nat * event) (p : server * list client) : option (server * list client) :=
  c ← p.2 !! ie.1; '(sv, c) ← client_event ie.2 p.1 c; Some (sv, <[ie.1 := c]> p.2).

Fixpoint run_pool (es : list (nat * event)) (p : server * list client) : option (server * list client) :=
  match es with
  | [] => Some p
  | ie :: es => p ← pool_event ie p; run_pool es p
  end.
End MaxReg.

(** ** What the register holds *)

(** Words only go up. *)
Definition words_le : relation server_kv := fun k k' => Forall2 Z.le (sk_tsps k) (sk_tsps k').
Definition raises : relation server := fun sv sv' => Forall2 words_le (sv_keys sv) (sv_keys sv').

Global Instance words_le_refl : Reflexive words_le.
Proof. intros k. unfold words_le. reflexivity. Qed.
Global Instance words_le_trans : Transitive words_le.
Proof. intros k1 k2 k3. unfold words_le. apply transitivity. Qed.
Global Instance raises_refl : Reflexive raises.
Proof. intros sv. unfold raises. reflexivity. Qed.
Global Instance raises_trans : Transitive raises.
Proof. intros s1 s2 s3. unfold raises. apply transitivity. Qed.

(** Some word of a key is at least [v]: the register's value is. *)
Definition holds (sv : server) (key : nat) (v : Z) : Prop :=
  v <= 0 \/ exists k slot w, sv_keys sv !! key = Some k /\ sk_tsps k !! slot = Some w /\ v <= w.

Lemma holds_raises sv sv' key v : raises sv sv' -> holds sv key v -> holds sv' key v.
Proof.
  intros Hr [Hv|(k & slot & w & Hk & Hw & Hv)]; [by left|]. right.
  destruct (Forall2_lookup_l _ _ _ _ _ Hr Hk) as (k' & Hk' & Hkk). destruct (Forall2_lookup_l _ _ _ _ _ Hkk Hw) as (w' & Hw' & Hww).
  exists k', slot, w'. split_and!; [done|done|lia].
Qed.

Lemma mr_holds_le sv key v v' : v' <= v -> holds sv key v -> holds sv key v'.
Proof. intros Hle [|(k & slot & w & Hk & Hw & Hv)]; [left; lia|]. right. exists k, slot, w. split_and!; [done|done|lia]. Qed.

Lemma foldl_max_in l : forall a, foldl Z.max a l = a \/ foldl Z.max a l ∈ l.
Proof.
  induction l as [|x l IH]; intros a; cbn [foldl]; [by left|]. rewrite elem_of_cons. destruct (IH (Z.max a x)) as [->|Hin]; [|by right; right].
  destruct (Z.max_spec a x) as [[_ ->]|[_ ->]]; [right; by left|by left].
Qed.

Lemma maxTspOf_holds L ts sv key m : Forall (holds sv key) ts -> maxTspOf L ts = Some m -> holds sv key m.
Proof.
  intros Hb. unfold maxTspOf. destruct (_ <=? _)%nat; [|done]. intros [= <-].
  destruct (foldl_max_in (take (Z.to_nat (num_tsp L)) ts) 0) as [->|Hin]; [left; lia|].
  apply elem_of_take in Hin as (i & Hi & _). by eapply Forall_lookup_1 in Hb.
Qed.

Lemma myTspOf_holds L ts sv key i m : Forall (holds sv key) ts -> myTspOf L ts i = Some m -> holds sv key m.
Proof. intros Hb. unfold myTspOf. destruct (negb _); [|done]. intros Hm. exact (Forall_lookup_1 _ _ _ _ Hb Hm). Qed.

Lemma words_hold sv key k : sv_keys sv !! key = Some k -> Forall (holds sv key) (sk_tsps k).
Proof. intros Hk. apply Forall_lookup. intros i w Hw. right. by exists k, i, w. Qed.

(** ** The invariant of a client *)

Definition nsig (l : list request) : nat := length (filter (fun rq => signaled rq = true) l).

Definition is_write_kv (rq : request) : bool := match rq with RqWriteKv _ _ => true | _ => false end.
Definition is_cas (rq : request) : bool := match rq with RqCasTsp _ _ _ _ _ => true | _ => false end.
Definition is_read (rq : request) : bool := match rq with RqReadKv _ _ | RqReadTsps _ _ _ => true | _ => false end.

(** Only writes in place may be left behind by a step whose completions are in. *)
Fixpoint tail_ok (l : list request) : Prop :=
  match l with
  | [] => True
  | rq :: l => (is_write_kv rq = true \/ signaled rq = true \/ (0 < nsig l)%nat) /\ tail_ok l
  end.

Lemma nsig_cons rq l : nsig (rq :: l) = ((if signaled rq then 1 else 0) + nsig l)%nat.
Proof. unfold nsig. rewrite filter_cons. by destruct (signaled rq). Qed.

Lemma nsig_app l1 l2 : nsig (l1 ++ l2) = (nsig l1 + nsig l2)%nat.
Proof. unfold nsig. by rewrite filter_app, length_app. Qed.

Lemma tail_ok_app l1 l2 : tail_ok l1 -> tail_ok l2 -> tail_ok (l1 ++ l2).
Proof.
  induction l1 as [|rq l1 IH]; cbn [tail_ok app]; [done|]. rewrite nsig_app. intros [Hrq Hl1] Hl2. split; [|by apply IH].
  destruct Hrq as [|[|]]; [by left|by right; left|right; right; lia].
Qed.

Lemma tail_ok_rest l : tail_ok l -> nsig l = 0%nat -> Forall (fun rq => is_write_kv rq = true) l.
Proof.
  induction l as [|rq l IH]; cbn [tail_ok]; [done|]. rewrite nsig_cons. intros [Hrq Hl] Hn.
  constructor; [|apply IH; [done|lia]]. destruct (signaled rq); [lia|]. destruct Hrq as [|[|]]; [done|done|lia].
Qed.

Section Invariant.
Context (L : layout) (server_idx : Z).
Local Abbreviation rd := (read_entry server_idx).

Record base_inv (sv : server) (c : client) : Prop := {
  b_last : last_or_0 (cl_reg c) <= mr_max (cl_reg c);
  b_max : holds sv (mr_remote_kv (cl_reg c)) (mr_max (cl_reg c));
  b_poll : mr_to_poll (cl_reg c) = Z.of_nat (nsig (cl_sent c)) + cl_completed c;
  b_small : 0 <= cl_completed c /\ mr_to_poll (cl_reg c) <= 8;
  b_tail : tail_ok (cl_sent c);
  b_cas : Forall (fun rq => match rq with RqCasTsp _ _ e n _ => e <= n | _ => True end) (cl_sent c);
}.

(** Requests under way belong to the step. *)
Definition rq_ok (c : client) (rq : request) : Prop :=
  match rq with
  | RqCasTsp key _ e n i => key = mr_remote_kv (cl_reg c) /\ i = rd /\ is_write_step (mr_step (cl_reg c)) = true /\
      e = last_or_0 (cl_reg c) /\ write_tsp c = Some n
  | RqReadKv key i => key = mr_remote_kv (cl_reg c) /\ i = rd /\ is_read_step (mr_step (cl_reg c)) = true
  | RqReadTsps key i _ => key = mr_remote_kv (cl_reg c) /\ i = rd
  | RqReadLog _ _ => mr_step (cl_reg c) = ReadLog
  | _ => True
  end.

(** The swap has been served: what it brought back, and if it succeeded, the
    word written, are in the register. *)
Definition swapped (sv : server) (c : client) : Prop := exists re tsp,
  cl_entries c !! rd = Some re /\ write_tsp c = Some tsp /\ holds sv (mr_remote_kv (cl_reg c)) (from_tsp re) /\
  (from_tsp re = last_or_0 (cl_reg c) -> holds sv (mr_remote_kv (cl_reg c)) tsp).

Definition has_read (sv : server) (c : client) : Prop := exists re,
  cl_entries c !! rd = Some re /\ Forall (holds sv (mr_remote_kv (cl_reg c))) (tsps re).

(** Steps that read the words. *)
Definition reads (s : Step) : bool := is_read_step s || (bool_decide (s = TryWriteAll) && negb (num_tsp L =? 1)).

Record active (sv : server) (c : client) : Prop := {
  a_kv : mr_ongoing_kv (cl_reg c) = mr_remote_kv (cl_reg c);
  a_entry : mr_ongoing_entry (cl_reg c) = mr_write (cl_reg c);
  a_next : mr_next (cl_reg c) = None \/ mr_next (cl_reg c) = Some Done;
  a_step : mr_step (cl_reg c) <> Done /\ mr_step (cl_reg c) <> Dead;
  a_rq : Forall (rq_ok c) (cl_sent c);
  a_swap : is_write_step (mr_step (cl_reg c)) = true -> Forall (fun rq => is_cas rq = false) (cl_sent c) -> swapped sv c;
  a_read : reads (mr_step (cl_reg c)) = true -> Forall (fun rq => is_read rq = false) (cl_sent c) -> has_read sv c;
}.

Record at_rest (c : client) : Prop := {
  r_step : mr_step (cl_reg c) = Done;
  r_sent : nsig (cl_sent c) = 0%nat /\ cl_completed c = 0;
  r_next : mr_next (cl_reg c) <> Some Dead;
  r_in : mr_next (cl_reg c) = Some WriteTsAndIn -> forall tsp, write_tsp c = Some tsp -> mr_max (cl_reg c) <= tsp;
}.

Definition inv (sv : server) (c : client) : Prop :=
  base_inv sv c /\ (at_rest c \/ active sv c \/ (mr_step (cl_reg c) = Dead /\ isDead server_idx c = true)).

Lemma inv_raises sv sv' c : raises sv sv' -> inv sv c -> inv sv' c.
Proof.
  intros Hr [[B1 B2 B3 B4 B5 B6] Hp]. split; [split; try done; by eapply holds_raises|].
  destruct Hp as [Hp|[[A1 A2 A3 A4 A5 A6 A7]|Hp]]; [by left| |by right; right]. right; left. split; try done.
  - intros Hw Hc. destruct (A6 Hw Hc) as (re & tsp & E1 & E2 & E3 & E4). exists re, tsp. split_and!; try done.
    + by eapply holds_raises.
    + intros Hf. eapply holds_raises; [exact Hr|by apply E4].
  - intros Hw Hc. destruct (A7 Hw Hc) as (re & E1 & E2). exists re. split; [done|].
    eapply Forall_impl; [exact E2|]. intros v. by apply holds_raises.
Qed.
(** *** Serving requests *)

Lemma fmap_update {A B} (f : A -> B) (l : list A) i x y : l !! i = Some x -> f y = f x -> f <$> <[i := y]> l = f <$> l.
Proof. intros Hi Hf. rewrite list_fmap_insert, Hf. apply list_insert_id. by rewrite list_lookup_fmap, Hi. Qed.

Lemma fmap_lookup {A B} (f : A -> B) (l l' : list A) i y : f <$> l' = f <$> l -> l' !! i = Some y -> exists x, l !! i = Some x /\ f x = f y.
Proof.
  intros Hf Hi. assert (Hl : (f <$> l') !! i = Some (f y)) by (by rewrite list_lookup_fmap, Hi).
  rewrite Hf, list_lookup_fmap in Hl. apply fmap_Some in Hl as (x & Hx & Hxy). by exists x.
Qed.

Definition keeps_tsp (rq : request) : bool := match rq with RqReadKv _ _ | RqReadLog _ _ => false | _ => true end.

(** Every outcome of [serve]: which fields of the entries it keeps. *)
Lemma serve_entries rq sv es sv' es' : serve rq sv es = Some (sv', es') ->
  length es' = length es /\
  (keeps_tsp rq = true -> (fun e => in_place_tsp (le_kv e)) <$> es' = (fun e => in_place_tsp (le_kv e)) <$> es) /\
  (is_cas rq = false -> from_tsp <$> es' = from_tsp <$> es) /\
  (is_read rq = false -> tsps <$> es' = tsps <$> es) /\
  (is_write_kv rq = true -> es' = es).
Proof.
  intros Hx. destruct rq as [key i|key i b|log i|log i|log i|key slot e n i|key i|log i]; cbn [serve] in Hx;
    repeat (match type of Hx with context [?m ≫= _] => destruct m eqn:?; [|done]; cbn [mbind option_bind] in Hx end);
    injection Hx as <- <-; cbn; rewrite ?length_insert; split_and!; try done; intros _; by eapply fmap_update.
Qed.

Lemma serve_raises rq sv es sv' es' : serve rq sv es = Some (sv', es') ->
  (match rq with RqCasTsp _ _ e n _ => e <= n | _ => True end) -> raises sv sv'.
Proof.
  intros Hx Hc. destruct rq as [key i|key i b|log i|log i|log i|key slot e n i|key i|log i]; cbn [serve] in Hx;
    repeat (match type of Hx with context [?m ≫= _] => destruct m eqn:?; [|done]; cbn [mbind option_bind] in Hx end);
    injection Hx as <- <-; unfold raises; cbn [sv_keys]; try reflexivity.
  - rewrite <- (list_insert_id (sv_keys sv) key s) at 1 by done. apply Forall2_insert; [reflexivity|]. unfold words_le. cbn [sk_tsps].
    destruct (Z.eqb_spec z e) as [->|]; [|reflexivity]. rewrite <- (list_insert_id (sk_tsps s) slot e) at 1 by done.
    apply Forall2_insert; [reflexivity|done].
  - rewrite <- (list_insert_id (sv_keys sv) key s) at 1 by done. apply Forall2_insert; [reflexivity|]. unfold words_le. reflexivity.
Qed.

(** A swap is served. *)
Lemma serve_cas key slot e n i sv es sv' es' : serve (RqCasTsp key slot e n i) sv es = Some (sv', es') ->
  exists re, es' !! i = Some re /\ holds sv key (from_tsp re) /\ (from_tsp re = e -> holds sv' key n).
Proof.
  intros Hx. cbn [serve] in Hx. destruct (sv_keys sv !! key) as [k|] eqn:Hk; [|done]. cbn [mbind option_bind] in Hx.
  destruct (sk_tsps k !! slot) as [old|] eqn:Ho; [|done]. cbn [mbind option_bind] in Hx.
  destruct (es !! i) as [re|] eqn:Hi; [|done]. cbn [mbind option_bind] in Hx. injection Hx as <- <-.
  eexists. split_and!; [apply list_lookup_insert_eq; by eapply lookup_lt_Some|cbn; right; by exists k, slot, old|].
  cbn [from_tsp set_from]. intros ->. rewrite Z.eqb_refl. right. cbn [sv_keys].
  eexists _, slot, n. split_and!; [apply list_lookup_insert_eq; by eapply lookup_lt_Some| |done].
  cbn [sk_tsps]. apply list_lookup_insert_eq. by eapply lookup_lt_Some.
Qed.

(** Words are read. *)
Lemma serve_read rq sv es sv' es' : serve rq sv es = Some (sv', es') -> is_read rq = true -> exists key i re,
  (rq = RqReadKv key i \/ exists b, rq = RqReadTsps key i b) /\ sv' = sv /\ es' !! i = Some re /\ Forall (holds sv key) (tsps re).
Proof.
  intros Hx Hr. destruct rq as [key i|key i b|log i|log i|log i|key slot e n i|key i|log i]; try discriminate Hr; cbn [serve] in Hx.
  all: destruct (sv_keys sv !! key) as [k|] eqn:Hk; [|done]; cbn [mbind option_bind] in Hx.
  all: destruct (es !! i) as [re|] eqn:Hi; [|done]; cbn [mbind option_bind] in Hx; injection Hx as <- <-.
  all: exists key, i; eexists; split_and!; [by eauto|done|apply list_lookup_insert_eq; by eapply lookup_lt_Some|by apply words_hold].
Qed.

Lemma write_tsp_keeps c es' sent n : (fun e => in_place_tsp (le_kv e)) <$> es' = (fun e => in_place_tsp (le_kv e)) <$> cl_entries c ->
  write_tsp (with_network es' sent n c) = write_tsp c.
Proof.
  intros Hf. unfold write_tsp. cbn. apply (f_equal (fun l => l !! mr_write (cl_reg c))) in Hf. rewrite !list_lookup_fmap in Hf.
  destruct (es' !! mr_write (cl_reg c)) as [e'|], (cl_entries c !! mr_write (cl_reg c)) as [e|]; cbn in *; congruence.
Qed.
(** What the rest of the state keeps when a request is served. *)
Section Served.
Context (sv sv' : server) (c : client) (rq : request) (sent : list request) (es' : list LogEntry).
Context (Hsent : cl_sent c = rq :: sent) (Hserve : serve rq sv (cl_entries c) = Some (sv', es')) (Hraises : raises sv sv').
Local Abbreviation c' := (with_network es' sent (cl_completed c + if signaled rq then 1 else 0) c).

Lemma served_base : base_inv sv c -> base_inv sv' c'.
Proof using Hsent Hraises.
  intros [B1 B2 B3 B4 B5 B6]. rewrite Hsent in B3, B5, B6. rewrite nsig_cons in B3. apply Forall_cons in B6 as [_ B6].
  destruct B5 as [_ B5]. split; cbn -[nsig]; try done; [by eapply holds_raises|revert B3; destruct (signaled rq); lia|destruct (signaled rq); lia].
Qed.

Lemma served_tsp : keeps_tsp rq = true -> write_tsp c' = write_tsp c.
Proof using Hserve. intros Hk. apply write_tsp_keeps. by apply (serve_entries rq sv (cl_entries c) sv' es'). Qed.

Lemma served_rest : base_inv sv c -> at_rest c -> at_rest c'.
Proof using Hsent Hserve.
  intros HB [R1 [R2 R2'] R3 R4]. pose proof (b_tail _ _ HB) as Ht. pose proof (tail_ok_rest _ Ht R2) as Hw.
  rewrite Hsent in Hw, R2. apply Forall_cons in Hw as [Hrq Hw]. rewrite nsig_cons in R2.
  assert (Hs : signaled rq = false) by (revert R2; destruct (signaled rq); [lia|done]).
  split; cbn -[nsig]; try done; [rewrite Hs; lia|].
  intros Hn tsp Ht'. apply (R4 Hn). rewrite <- Ht'. symmetry. apply served_tsp. by destruct rq.
Qed.

Lemma served_active : active sv c -> active sv' c'.
Proof using Hsent Hserve Hraises.
  pose proof served_tsp as Hkeep. intros [A1 A2 A3 A4 A5 A6 A7]. destruct (serve_entries _ _ _ _ _ Hserve) as (El & Ek & Ef & Et & _).
  rewrite Hsent in A5. apply Forall_cons in A5 as [Hrq A5].
  split; cbn; try done.
  - eapply Forall_impl; [exact A5|]. intros [key i|key i b|log i|log i|log i|key slot e n i|key i|log i]; cbn; try done.
    intros (H1 & H2 & H3 & H4 & H5). split_and!; try done. rewrite <- H5. apply Hkeep.
    destruct rq; try done; cbn in Hrq; [destruct Hrq as (_ & _ & Hrq)|]; destruct (mr_step (cl_reg c)); done.
  - intros Hw Hc. destruct (is_cas rq) eqn:Hcas.
    + destruct rq as [| | | | |key slot e n i| |]; try discriminate Hcas. destruct Hrq as (-> & -> & _ & He & Hn).
      destruct (serve_cas _ _ _ _ _ _ _ _ _ Hserve) as (re & E1 & E2 & E3). exists re, n. split_and!; try done.
      * rewrite <- Hn. by apply Hkeep.
      * by eapply holds_raises.
      * cbn. intros Hf. apply E3. by rewrite He.
    + destruct A6 as (re & tsp & E1 & E2 & E3 & E4); [done|rewrite Hsent; by constructor|].
      destruct (lookup_lt_is_Some_2 es' rd) as [re' Hre']; [rewrite El; by eapply lookup_lt_Some|].
      destruct (fmap_lookup _ _ _ _ _ (Ef eq_refl) Hre') as (re0 & Hre0 & Hfrom). rewrite E1 in Hre0. injection Hre0 as <-.
      exists re', tsp. split_and!; [done| |rewrite <- Hfrom; by eapply holds_raises|].
      * rewrite <- E2. apply Hkeep. destruct rq; try done; cbn in Hrq; [destruct Hrq as (_ & _ & Hrq)|]; destruct (mr_step (cl_reg c)); done.
      * rewrite <- Hfrom. cbn. intros Hl. eapply holds_raises; [exact Hraises|]. by apply E4.
  - intros Hw Hc. destruct (is_read rq) eqn:Hread.
    + destruct (serve_read _ _ _ _ _ Hserve Hread) as (key & i & re & Hor & -> & E1 & E2).
      assert (key = mr_remote_kv (cl_reg c) /\ i = rd) as [-> ->] by (destruct Hor as [->|[b ->]]; destruct Hrq; tauto).
      by exists re.
    + destruct A7 as (re & E1 & E2); [done|rewrite Hsent; by constructor|].
      destruct (lookup_lt_is_Some_2 es' rd) as [re' Hre']; [rewrite El; by eapply lookup_lt_Some|].
      destruct (fmap_lookup _ _ _ _ _ (Et eq_refl) Hre') as (re0 & Hre0 & Hts). rewrite E1 in Hre0. injection Hre0 as <-.
      exists re'. split; [done|]. rewrite <- Hts. eapply Forall_impl; [exact E2|]. intros v. by apply holds_raises.
Qed.
End Served.

Lemma mr_nic_inv sv c sv' c' : inv sv c -> nic_exec sv c = Some (sv', c') -> raises sv sv' /\ inv sv' c'.
Proof.
  intros [HB Hp] Hx. unfold nic_exec in Hx. destruct (cl_sent c) as [|rq sent] eqn:Hs; [injection Hx as <- <-; split; [reflexivity|by split]|].
  destruct (serve rq sv (cl_entries c)) as [[sv1 es1]|] eqn:Hserve; [|done]. cbn [mbind option_bind] in Hx. injection Hx as <- <-.
  assert (Hr : raises sv sv1).
  { eapply serve_raises; [exact Hserve|]. pose proof (b_cas _ _ HB) as Hc. rewrite Hs in Hc. by apply Forall_cons in Hc as [Hc _]. }
  split; [exact Hr|]. split; [by eapply served_base|].
  destruct Hp as [Hp|[Hp|[Hd1 Hd2]]]; [left; by eapply served_rest|right; left; by eapply served_active|by right; right].
Qed.
(** *** Polling *)

Lemma mr_poll_inv sv c : inv sv c -> inv sv (poll c).
Proof.
  intros [[B1 B2 B3 B4 B5 B6] Hp].
  assert (Hn : u64 (mr_to_poll (cl_reg c) + - cl_completed c) = Z.of_nat (nsig (cl_sent c))) by (rewrite u64_small by (unfold is_u64; lia); lia).
  split.
  - split; cbn -[nsig]; try done; [by rewrite Hn, Z.add_0_r|rewrite Hn; lia].
  - destruct Hp as [[R1 [R2 R2'] R3 R4]|[[A1 A2 A3 A4 A5 A6 A7]|Hp]]; [left|right; left|by right; right]; by split.
Qed.

(** *** Transitions *)

Lemma lor_1 x : Z.lor x 1 = x / 2 * 2 + 1.
Proof.
  rewrite (Z.div_mod x 2) at 1 by lia. pose proof (Z.mod_pos_bound x 2 ltac:(lia)) as Hm.
  assert (Hx : 2 * (x / 2) + x mod 2 = Z.lor (Z.shiftl (x / 2) 1) (x mod 2)) by (rewrite lor_low by lia; lia).
  rewrite Hx, <- Z.lor_assoc. assert (Z.lor (x mod 2) 1 = 1) as ->; [|rewrite lor_low by lia; lia].
  assert (x mod 2 = 0 \/ x mod 2 = 1) as [->| ->] by lia; done.
Qed.

Lemma lor_1_le x : x <= Z.lor x 1.
Proof. rewrite lor_1. Z.to_euclidean_division_equations; lia. Qed.

(** A step that swaps, past the guard, swaps in a larger word. *)
Lemma guard_raises tsp max s : is_write_step (guard Z.leb tsp max s) = true -> (s = WriteTsAndIn -> max <= tsp) -> max <= tsp.
Proof.
  pose proof (lor_1_le max) as Hm. intros Hw Hin. destruct s; cbn [guard] in Hw; try discriminate Hw; try (by apply Hin);
    repeat (match type of Hw with context [Z.leb ?a ?b] => destruct (Z.leb_spec a b) end); try discriminate Hw; lia.
Qed.

Lemma guard_not_dead before tsp max s : s <> Dead -> guard before tsp max s <> Dead.
Proof. intros Hs. destruct s; cbn [guard]; try done; repeat case_match; done. Qed.

(** What a step posts. *)
Record posted (c : client) (s : Step) (rqs : list request) : Prop := {
  p_ok : mr_step (cl_reg c) = s -> Forall (rq_ok c) rqs;
  p_cas : (forall tsp, write_tsp c = Some tsp -> is_write_step s = true -> last_or_0 (cl_reg c) <= tsp) ->
    Forall (fun rq => match rq with RqCasTsp _ _ e n _ => e <= n | _ => True end) rqs;
  p_tail : tail_ok rqs;
  p_nsig : (nsig rqs <= 8)%nat;
  p_swap : is_write_step s = true -> ~ Forall (fun rq => is_cas rq = false) rqs;
  p_read : reads s = true -> ~ Forall (fun rq => is_read rq = false) rqs;
}.

(** Decides the fields of [posted] on a written-out list. *)
Ltac no_such H := repeat (apply Forall_cons in H as [? H]; try discriminate).
Ltac each_request tac := repeat apply Forall_cons_2; try apply Forall_nil_2; tac.
Ltac posted_list :=
  split;
  [ intros Hst; each_request ltac:(cbn; rewrite ?Hst; repeat split; assumption || reflexivity)
  | intros Hle; each_request ltac:(exact I || (apply Hle; [assumption|reflexivity]))
  | cbn [tail_ok]; rewrite ?nsig_cons; repeat split; first [by left|by right; left|right; right; cbn; lia]
  | rewrite ?nsig_cons; change (nsig []) with 0%nat; cbn; lia
  | intros Hs H; first [discriminate Hs|no_such H]
  | intros Hs H; first [no_such H; fail|unfold reads in Hs; try match goal with E : num_tsp L = 1 |- _ => rewrite E in Hs end; cbn in Hs; discriminate Hs] ].

Lemma step_requests_spec c s rqs : 0 <= num_tsp L -> s <> Done -> s <> Dead -> step_requests L server_idx s c = Some rqs -> posted c s rqs.
Proof.
  intros Hn Hs1 Hs2 Hx. unfold step_requests, cas_tsp, my_slot in Hx.
  assert (Hcas : is_write_step s = true -> num_tsp L <> 0 /\ exists tsp, write_tsp c = Some tsp).
  { intros Hw. destruct (Z.eqb_spec (num_tsp L) 0); [destruct s; done|]. split; [done|].
    destruct (write_tsp c) as [tsp|]; [by exists tsp|destruct s; done]. }
  destruct (is_write_step s) eqn:Hw.
  - destruct (Hcas eq_refl) as [Hz [tsp Htsp]]. rewrite (proj2 (Z.eqb_neq _ _) Hz), Htsp in Hx. cbn [negb assert_ mbind option_bind] in Hx.
    destruct (Z.ltb_spec 1 (num_tsp L)) as [Hn1|Hn1], (Z.eqb_spec (num_tsp L) 1) as [Hn2|Hn2]; try lia.
    all: destruct s; try discriminate Hw; cbn [bool_decide decide_rel] in Hx.
    all: repeat (match type of Hx with context [bool_decide ?P] => (rewrite (bool_decide_eq_true_2 P) in Hx by done) || (rewrite (bool_decide_eq_false_2 P) in Hx by done) end).
    all: cbn [andb when app] in Hx; injection Hx as <-; unfold when.
    all: repeat (match goal with |- context [if ?b then _ else _] => destruct b end); cbn [app].
    all: posted_list.
  - destruct s; try done; injection Hx as <-; try destruct (mr_in_place (cl_reg c)); posted_list.
Qed.
(** No request that counts is under way. *)
Definition settled (sv : server) (c : client) : Prop :=
  base_inv sv c /\ nsig (cl_sent c) = 0%nat /\ cl_completed c = 0.

(** What a transition leaves alone. *)
Definition same_write (c c' : client) : Prop :=
  write_tsp c' = write_tsp c /\ mr_max (cl_reg c') = mr_max (cl_reg c) /\ mr_next (cl_reg c') = mr_next (cl_reg c) /\
  cl_clock c' = cl_clock c.

Context (Htsps : 0 <= num_tsp L).

Lemma count_step_same s c c' : count_step s c = Some c' -> exists n, c' = with_counts n c.
Proof.
  unfold count_step. destruct (mr_measuring (cl_reg c)).
  - destruct (cl_counts c !! step_index s); [|done]. intros [= <-]. by eexists.
  - intros [= <-]. exists (cl_counts c). by destruct c.
Qed.

Lemma transitionTo_inv sv c s c' : settled sv c -> s <> Dead ->
  mr_next (cl_reg c) = None \/ mr_next (cl_reg c) = Some Done ->
  (s = WriteTsAndIn -> forall tsp, write_tsp c = Some tsp -> mr_max (cl_reg c) <= tsp) ->
  transitionTo L server_idx s c = Some c' -> inv sv c' /\ same_write c c' /\
  exists tsp, write_tsp c = Some tsp /\ mr_step (cl_reg c') = guard Z.leb tsp (mr_max (cl_reg c)) s.
Proof using Htsps.
  intros [[B1 B2 B3 B4 B5 B6] [Hn Hc]] Hdead Hnext Hin Hx. unfold transitionTo in Hx.
  destruct (write_tsp c) as [tsp|] eqn:Htsp; [|done]. cbn [mbind option_bind] in Hx. set (s' := guard _ _ _ _) in Hx.
  assert (Hdead' : s' <> Dead) by (by apply guard_not_dead).
  case_bool_decide as Hdone.
  - injection Hx as <-. split_and!; [split; [by split|]|done|by exists tsp].
    left. split; cbn; [done|done|destruct Hnext as [->| ->]; done|].
    destruct Hnext as [E|E]; rewrite E; done.
  - destruct (count_step _ _) as [c1|] eqn:Hcount; [|done]. cbn [mbind option_bind] in Hx.
    apply count_step_same in Hcount as [n ->]. set (c1 := with_counts _ _) in Hx.
    destruct (step_requests L server_idx s' c1) as [rqs|] eqn:Hrqs; [|done]. cbn [mbind option_bind] in Hx. injection Hx as <-.
    destruct (step_requests_spec c1 s' rqs Htsps Hdone Hdead' Hrqs) as [P1 P2 P3 P4 P5 P6].
    assert (Hpoll : mr_to_poll (cl_reg c) = 0) by lia.
    assert (Hlen : u64 (mr_to_poll (cl_reg c) + Z.of_nat (nsig rqs)) = Z.of_nat (nsig rqs)) by (rewrite Hpoll, u64_small by (unfold is_u64; lia); done).
    assert (Hrest : Forall (fun rq => is_write_kv rq = true) (cl_sent c)) by (by apply tail_ok_rest).
    split_and!; [|done|by exists tsp]. split.
    + split; cbn -[nsig]; fold (nsig rqs); try done.
      * rewrite Hlen, nsig_app. lia.
      * rewrite Hlen. lia.
      * by apply tail_ok_app.
      * apply Forall_app. split; [done|]. apply P2. intros t Ht Hw. change (write_tsp c = Some t) in Ht. rewrite Htsp in Ht. injection Ht as <-.
        cbn. pose proof (guard_raises tsp (mr_max (cl_reg c)) s Hw) as Hg. assert (mr_max (cl_reg c) <= tsp) by (apply Hg; intros E; by apply (Hin E)).
        unfold last_or_0 in *. cbn. lia.
    + right; left. split; cbn -[nsig]; try done.
      * apply Forall_app. split; [eapply Forall_impl; [exact Hrest|by intros []]|]. by apply P1.
      * intros Hw [_ Hf]%Forall_app. by apply P5 in Hw.
      * intros Hw [_ Hf]%Forall_app. by apply P6 in Hw.
Qed.
(** *** What a finished step has seen *)

(** [c1] is [c] after looking at what its requests brought. *)
Record looked (sv : server) (c c1 : client) : Prop := {
  l_step : mr_step (cl_reg c1) = mr_step (cl_reg c);
  l_next : mr_next (cl_reg c1) = mr_next (cl_reg c);
  l_kv : mr_remote_kv (cl_reg c1) = mr_remote_kv (cl_reg c);
  l_poll : mr_to_poll (cl_reg c1) = mr_to_poll (cl_reg c);
  l_sent : cl_sent c1 = cl_sent c;
  l_completed : cl_completed c1 = cl_completed c;
  l_tsp : write_tsp c1 = write_tsp c;
  l_dead : isDead server_idx c1 = isDead server_idx c;
  l_le : mr_max (cl_reg c) <= mr_max (cl_reg c1);
  l_last : last_or_0 (cl_reg c1) <= mr_max (cl_reg c1);
  l_max : holds sv (mr_remote_kv (cl_reg c)) (mr_max (cl_reg c1));
}.

Lemma looked_refl sv c : base_inv sv c -> looked sv c c.
Proof using Type. intros [B1 B2 _ _ _ _]. by split. Qed.

Lemma looked_settled sv c c1 : settled sv c -> looked sv c c1 -> settled sv c1.
Proof using Type.
  intros [[B1 B2 B3 B4 B5 B6] [Hn Hc]] [L1 L2 L3 L4 L5 L6 L7 L8 L9 L10 L11].
  split_and!; [|by rewrite L5|by rewrite L6]. split; rewrite ?L3, ?L4, ?L5, ?L6; done.
Qed.

Lemma sync_dead now tsp st : dead_servers (syncClock now tsp false st) = dead_servers st.
Proof using Type. unfold syncClock. repeat case_match; done. Qed.

(** [see] raises [max_seen_tsp] only. *)
Lemma mr_see_max now v c : mr_max (cl_reg (see now v c)) = Z.max (mr_max (cl_reg c)) v.
Proof using Type. unfold see. destruct (Z.ltb_spec (mr_max (cl_reg c)) v); cbn; lia. Qed.

Lemma see_same now v c : let c' := see now v c in
  cl_entries c' = cl_entries c /\ mr_last (cl_reg c') = mr_last (cl_reg c) /\ mr_step (cl_reg c') = mr_step (cl_reg c) /\
  mr_next (cl_reg c') = mr_next (cl_reg c) /\ mr_remote_kv (cl_reg c') = mr_remote_kv (cl_reg c) /\ mr_write (cl_reg c') = mr_write (cl_reg c) /\
  mr_to_poll (cl_reg c') = mr_to_poll (cl_reg c) /\ cl_sent c' = cl_sent c /\ cl_completed c' = cl_completed c /\
  dead_servers (cl_clock c') = dead_servers (cl_clock c) /\ cl_idx c' = cl_idx c.
Proof using Type. unfold see. destruct (_ <? _); cbn; rewrite ?sync_dead; split_and!; done. Qed.

Lemma see_looked sv now v c c0 : looked sv c0 c -> holds sv (mr_remote_kv (cl_reg c0)) v -> looked sv c0 (see now v c).
Proof using Type.
  intros [L1 L2 L3 L4 L5 L6 L7 L8 L9 L10 L11] Hv. pose proof (see_same now v c) as (S1 & S2 & S3 & S4 & S5 & S6 & S7 & S8 & S9 & S10 & S11).
  pose proof (mr_see_max now v c) as Hm.
  split; try congruence; [unfold write_tsp; rewrite S1, S6; exact L7|unfold isDead; rewrite S10; exact L8|lia|unfold last_or_0 in *; rewrite S2; lia|].
  rewrite Hm. by destruct (Z.max_spec (mr_max (cl_reg c)) v) as [[_ ->]|[_ ->]].
Qed.

Lemma set_last_looked sv l c c0 : looked sv c0 c -> l <= mr_max (cl_reg c) -> looked sv c0 (set_last l c).
Proof using Type. intros [L1 L2 L3 L4 L5 L6 L7 L8 L9 L10 L11] Hl. by split. Qed.

Lemma see_swapped_looked sv now c c1 : base_inv sv c -> mr_ongoing_entry (cl_reg c) = mr_write (cl_reg c) -> swapped sv c ->
  see_swapped L server_idx now c = Some c1 -> looked sv c c1 /\
  (has_read sv c -> has_read sv c1).
Proof using Type.
  intros HB Hent (re & tsp & E1 & E2 & E3 & E4) Hx. unfold see_swapped in Hx. rewrite E1, Hent in Hx. cbn [mbind option_bind] in Hx.
  unfold write_tsp in E2. destruct (cl_entries c !! mr_write (cl_reg c)) as [we|] eqn:Hwe; [|done]. cbn [mbind option_bind] in E2, Hx.
  injection E2 as Htsp. rewrite Htsp in Hx. set (last := if _ =? _ then tsp else from_tsp re) in Hx.
  destruct (my_slot L c) as [slot|]; [|done]. cbn [mbind option_bind] in Hx. destruct (_ <? _)%nat; [|done]. cbn [assert_ mbind option_bind] in Hx.
  injection Hx as <-. set (es := <[_ := _]> _).
  assert (Hlast : holds sv (mr_remote_kv (cl_reg c)) last).
  { subst last. destruct (Z.eqb_spec (last_or_0 (cl_reg c)) (from_tsp re)); [by apply E4|done]. }
  assert (Hes : (fun e => in_place_tsp (le_kv e)) <$> es = (fun e => in_place_tsp (le_kv e)) <$> cl_entries c) by (by eapply fmap_update).
  split.
  - pose proof (see_same now last (set_last last (with_entries es c))) as (S1 & S2 & S3 & S4 & S5 & S6 & S7 & S8 & S9 & S10 & S11).
    pose proof (mr_see_max now last (set_last last (with_entries es c))) as Hm. cbn in Hm. destruct HB as [B1 B2 _ _ _ _].
    split; try done.
    + transitivity (write_tsp (with_network es (cl_sent c) (cl_completed c) c)); [unfold write_tsp; by rewrite S1, S6|by apply write_tsp_keeps].
    + unfold isDead. by rewrite S10.
    + rewrite Hm. lia.
    + unfold last_or_0. rewrite S2, Hm. cbn. lia.
    + rewrite Hm. by destruct (Z.max_spec (mr_max (cl_reg c)) last) as [[_ ->]|[_ ->]].
  - intros (re' & R1 & R2). pose proof (see_same now last (set_last last (with_entries es c))) as (S1 & _ & _ & _ & S5 & _).
    unfold has_read. rewrite S1, S5. cbn. subst es. rewrite E1 in R1. injection R1 as <-.
    destruct (decide (mr_write (cl_reg c) = rd)) as [Hr|Hr].
    + rewrite Hr in *. rewrite Hwe in E1. injection E1 as ->. eexists. split; [apply list_lookup_insert_eq; by eapply lookup_lt_Some|].
      cbn. by apply Forall_insert.
    + exists re. split; [by rewrite list_lookup_insert_ne|done].
Qed.
Lemma foldl_max_ge l : forall a x, x ∈ l -> x <= foldl Z.max a l.
Proof using Type.
  assert (Hle : forall l a, a <= foldl Z.max a l) by (intros l'; induction l' as [|y l' IH]; intros a; cbn; [lia|specialize (IH (Z.max a y)); lia]).
  induction l as [|y l IH]; intros a x; [by intros ?%elem_of_nil|]. cbn [foldl]. intros [->|Hx]%elem_of_cons; [|by apply IH].
  specialize (Hle l (Z.max a y)). lia.
Qed.

Lemma myTspOf_le_max ts i m mine : maxTspOf L ts = Some m -> myTspOf L ts i = Some mine -> mine <= m.
Proof using Htsps.
  unfold maxTspOf, myTspOf. destruct (_ <=? _)%nat; [|done]. cbn [assert_ mbind option_bind]. intros [= <-].
  destruct (Z.eqb_spec (num_tsp L) 0) as [|Hz]; [done|]. cbn [negb assert_ mbind option_bind]. intros Hm.
  apply foldl_max_ge, elem_of_take. eexists. split; [exact Hm|]. pose proof (Z.mod_pos_bound i (num_tsp L)). lia.
Qed.

Lemma see_read_looked sv now mine c0 c c1 : looked sv c0 c -> has_read sv c -> see_read L server_idx now mine c = Some c1 -> looked sv c0 c1.
Proof using Htsps.
  intros Hl (re & E1 & E2) Hx. unfold see_read in Hx. rewrite E1 in Hx. cbn [mbind option_bind] in Hx.
  destruct (maxTspOf L (tsps re)) as [m|] eqn:Hm; [|done]. cbn [mbind option_bind] in Hx. rewrite (l_kv _ _ _ Hl) in E2.
  assert (Hl' : looked sv c0 (see now m c)) by (apply see_looked; [done|by eapply maxTspOf_holds]).
  destruct mine; [|by injection Hx as <-].
  destruct (myTspOf L (tsps re) _) as [mine|] eqn:Hmine; [|done]. cbn [mbind option_bind] in Hx. injection Hx as <-.
  apply set_last_looked; [done|]. rewrite mr_see_max. pose proof (myTspOf_le_max _ _ _ _ Hm Hmine). lia.
Qed.

Lemma update_seen_looked sv now c c1 : settled sv c -> active sv c -> update_seen L server_idx now c = Some c1 -> looked sv c c1.
Proof using Htsps.
  intros [HB [Hn Hc]] [A1 A2 A3 A4 A5 A6 A7] Hx. pose proof (looked_refl sv c HB) as Hrefl.
  assert (Hrest : Forall (fun rq => is_write_kv rq = true) (cl_sent c)) by (by apply tail_ok_rest; [apply HB|]).
  assert (Hnc : Forall (fun rq => is_cas rq = false) (cl_sent c)) by (eapply Forall_impl; [exact Hrest|by intros []]).
  assert (Hnr : Forall (fun rq => is_read rq = false) (cl_sent c)) by (eapply Forall_impl; [exact Hrest|by intros []]).
  unfold update_seen in Hx. rewrite A1, Nat.eqb_refl in Hx. cbn [negb] in Hx.
  destruct (is_write_step (mr_step (cl_reg c))) eqn:Hw.
  - destruct (see_swapped L server_idx now c) as [c2|] eqn:Hs; [|done]. cbn [mbind option_bind] in Hx.
    destruct (see_swapped_looked sv now c c2 HB A2 (A6 eq_refl Hnc) Hs) as [Hl Hread].
    destruct (bool_decide (mr_step (cl_reg c) <> TryWriteAll) || (num_tsp L =? 1)) eqn:Hb; [by injection Hx as <-|].
    apply orb_false_iff in Hb as [Hb1 Hb2]. eapply see_read_looked; [exact Hl| |exact Hx]. apply Hread, A7; [|done].
    unfold reads. rewrite Hb2. apply bool_decide_eq_false in Hb1. apply dec_stable in Hb1. rewrite Hb1. done.
  - destruct (is_read_step (mr_step (cl_reg c))) eqn:Hr; [|by injection Hx as <-].
    eapply see_read_looked; [exact Hrefl| |exact Hx]. apply A7; [|done]. unfold reads. by rewrite Hr.
Qed.

Context (hash : Z -> list Z -> list Z).

(** *** Steps *)

(** The steps of a write that ends only when the register is known to hold it. *)
Definition write_steps (s : Step) : bool := match s with WriteAll | WriteTsAndIn | WriteTs => true | _ => false end.

(** A write under way, or done and held. *)
Definition writing (c : client) : Prop := exists tsp, write_tsp c = Some tsp /\
  match mr_step (cl_reg c), mr_next (cl_reg c) with
  | Done, None | Done, Some Done => tsp <= mr_max (cl_reg c)
  | Done, Some s => write_steps s = true
  | Dead, _ => True
  | s, n => write_steps s = true /\ n = None
  end.

Lemma transitionTo_writing sv c s c' : settled sv c -> mr_next (cl_reg c) = None -> write_steps s = true ->
  (s = WriteTsAndIn -> forall tsp, write_tsp c = Some tsp -> mr_max (cl_reg c) <= tsp) ->
  transitionTo L server_idx s c = Some c' -> writing c'.
Proof using Htsps.
  intros Hs Hn Hw Hin Hx. destruct (transitionTo_inv sv c s c' Hs) as (_ & (E1 & E2 & E3 & _) & tsp & Htsp & Hstep);
    [by intros ->|by left|done|done|]. exists tsp. rewrite E1, E2, E3, Hn, Hstep. split; [done|].
  pose proof (lor_1 (mr_max (cl_reg c))). destruct s; try discriminate Hw; cbn [guard].
  - destruct (Z.leb_spec tsp (Z.lor (mr_max (cl_reg c)) 1)); [|done]. by destruct (Z.leb_spec tsp (mr_max (cl_reg c))).
  - done.
  - by destruct (Z.leb_spec tsp (mr_max (cl_reg c))).
Qed.

(** [target] changes nothing the invariant is about but the write entry. *)
Lemma target_settled sv w log c : settled sv c -> settled sv (target w log c).
Proof using Type. intros [[B1 B2 B3 B4 B5 B6] Hn]. split; [by split|exact Hn]. Qed.

Lemma advance_inv sv c c' : settled sv c -> mr_next (cl_reg c) = None -> mr_step (cl_reg c) <> Done -> mr_step (cl_reg c) <> Dead ->
  advance L server_idx hash c = Some c' -> inv sv c' /\ (write_steps (mr_step (cl_reg c)) = true -> writing c').
Proof using Htsps.
  intros Hs Hn Hs1 Hs2 Hx.
  assert (Ht : forall s, s <> Dead -> s <> WriteTsAndIn -> transitionTo L server_idx s c = Some c' -> inv sv c').
  { intros s H1 H2 Ht. by apply (transitionTo_inv sv c s c' Hs H1 (or_introl Hn) ltac:(done) Ht). }
  assert (Hwr : transitionTo L server_idx WriteTs c = Some c' -> writing c') by (by apply (transitionTo_writing sv)).
  unfold advance in Hx. destruct (mr_step (cl_reg c)) eqn:Hstep; try done; cbn [write_steps].
  1,3,4,5,6,12: split; [by eapply Ht; [..|exact Hx]|done].
  - split; [|done]. destruct (mr_max (cl_reg c) =? 0); [by eapply Ht; [..|exact Hx]|].
    destruct (cl_entries c !! rd) as [re|]; [|done]. cbn [mbind option_bind] in Hx.
    destruct (read_in_place hash c re); [by eapply Ht; [..|exact Hx]|].
    destruct (log_of L (mr_max (cl_reg c))) as [log|]; [|done]. cbn [mbind option_bind] in Hx.
    by apply (transitionTo_inv sv _ ReadLog c' (target_settled sv _ _ c Hs) ltac:(done) (or_introl Hn) ltac:(done) Hx).
  - split; [by eapply Ht; [..|exact Hx]|by intros _; apply Hwr].
  - split; [|done]. destruct (write_tsp c); [|done]. cbn [mbind option_bind] in Hx. destruct (_ <? _); by eapply Ht; [..|exact Hx].
  - split; [by eapply Ht; [..|exact Hx]|by intros _; apply Hwr].
  - split; [by eapply Ht; [..|exact Hx]|by intros _; apply Hwr].
  - split; [|done]. destruct (write_tsp c); [|done]. cbn [mbind option_bind] in Hx. destruct (_ <? _); by eapply Ht; [..|exact Hx].
Qed.

Lemma settled_of_poll sv c : base_inv sv c -> mr_to_poll (cl_reg c) <= 0 -> settled sv c.
Proof using Type. intros HB Hp. split; [done|]. destruct HB as [_ _ B3 [B4 _] _ _]. lia. Qed.

Lemma next_settled sv n c : settled sv c -> settled sv (with_reg (set_next n (cl_reg c)) c).
Proof using Type. intros [[B1 B2 B3 B4 B5 B6] Hn]. split; [by split|exact Hn]. Qed.

Lemma progress_settled sv b c : settled sv c -> settled sv (with_reg (set_progress b (cl_reg c)) c).
Proof using Type. intros [[B1 B2 B3 B4 B5 B6] Hn]. split; [by split|exact Hn]. Qed.

(** A step keeps the invariant, and a write a write. *)
Lemma step_inv sv now c b c' : inv sv c -> tryStepForward L server_idx hash now c = Some (b, c') ->
  inv sv c' /\ (writing c -> writing c').
Proof using Htsps.
  intros Hinv Hx. pose proof Hinv as [HB Hp]. unfold tryStepForward in Hx. destruct (isDead server_idx c) eqn:Hdead.
  { injection Hx as <- <-. split; [split; [destruct HB; by split|by right; right]|].
    intros (tsp & Ht & _). exists tsp. split; [exact Ht|exact I]. }
  destruct (isLazy c); [injection Hx as <- <-; split; [exact Hinv|done]|].
  destruct (Z.ltb_spec (if (mr_ongoing_kv (cl_reg c) =? mr_remote_kv (cl_reg c))%nat then 0 else 1) (mr_to_poll (cl_reg c))) as [|Hpoll];
    [injection Hx as <- <-; split; [exact Hinv|done]|].
  destruct Hp as [Hrest|[Hact|[_ Hd]]]; [| |discriminate Hd].
  - destruct Hrest as [R1 [R2 R2'] R3 R4]. assert (Hs : settled sv c) by (by split).
    assert (Hu : update_seen L server_idx now c = Some c) by (unfold update_seen; rewrite R1; by destruct (negb _)).
    rewrite Hu in Hx. cbn [mbind option_bind] in Hx. destruct (mr_next (cl_reg c)) as [s|] eqn:Hn.
    + destruct (transitionTo _ _ _ _) as [c1|] eqn:Ht; [|done]. cbn [mbind option_bind] in Hx. injection Hx as <- <-.
      apply next_settled with (n := None) in Hs as Hs'. split.
      * eapply (transitionTo_inv sv _ s c1 Hs'); [by intros ->|by left| |exact Ht]. intros -> tsp Htsp. by apply (R4 eq_refl).
      * intros (tsp & Htsp & Hw). rewrite R1, Hn in Hw. destruct (decide (s = Done)) as [->|Hsd].
        -- destruct (transitionTo_inv sv _ Done c1 Hs' ltac:(done) ltac:(by left) ltac:(done) Ht) as (_ & (E1 & E2 & E3 & _) & t & _ & Hst).
           exists tsp. rewrite E1, E2, E3, Hst. split; [exact Htsp|]. cbn. exact Hw.
        -- eapply (transitionTo_writing sv); [exact Hs'|done|by destruct s| |exact Ht]. intros -> t Ht'. by apply (R4 eq_refl).
    + cbn [with_reg cl_reg] in Hx. rewrite bool_decide_eq_true_2 in Hx by (cbn; exact R1). injection Hx as <- <-. split.
      * apply (progress_settled sv true) in Hs as [HB' _]. split; [exact HB'|left]. split; cbn; try done; [by rewrite Hn|by rewrite Hn].
      * intros (tsp & Htsp & Hw). exists tsp. split; [exact Htsp|]. cbn. exact Hw.
  - rewrite (a_kv _ _ Hact), Nat.eqb_refl in Hpoll. assert (Hs : settled sv c) by (by apply settled_of_poll).
    destruct (update_seen L server_idx now c) as [c1|] eqn:Hu; [|done]. cbn [mbind option_bind] in Hx.
    pose proof (update_seen_looked sv now c c1 Hs Hact Hu) as Hl. pose proof (looked_settled sv c c1 Hs Hl) as Hs1.
    destruct Hact as [_ _ A3 [A4 A4'] _ _ _]. rewrite <- (l_next _ _ _ Hl) in A3. destruct A3 as [Hn|Hn]; rewrite Hn in Hx.
    + cbn [with_reg cl_reg] in Hx. rewrite bool_decide_eq_false_2 in Hx by (cbn; by rewrite (l_step _ _ _ Hl)).
      destruct (advance _ _ _ _) as [c2|] eqn:Ha; [|done]. cbn [mbind option_bind] in Hx. injection Hx as <- <-.
      apply (progress_settled sv true) in Hs1. destruct (advance_inv sv _ c2 Hs1) as [Hi Hw]; [exact Hn|cbn; by rewrite (l_step _ _ _ Hl)..|exact Ha|].
      split; [exact Hi|]. intros (tsp & Htsp & Hwr). apply Hw. cbn. rewrite (l_step _ _ _ Hl).
      destruct (mr_step (cl_reg c)); try done; tauto.
    + destruct (transitionTo _ _ _ _) as [c2|] eqn:Ht; [|done]. cbn [mbind option_bind] in Hx. injection Hx as <- <-.
      apply (next_settled sv None) in Hs1. split.
      * by eapply (transitionTo_inv sv _ Done c2 Hs1); [done|by left|done|exact Ht].
      * intros (tsp & Htsp & Hwr). rewrite (l_next _ _ _ Hl) in Hn. rewrite Hn in Hwr.
        destruct (mr_step (cl_reg c)); try done; by destruct Hwr.
Qed.
(** *** Operations and the rest of the client *)

(** What a client may do when: operations start when the future is done (it may
    be told at any time to stop), a hint is a word that was seen, entries change
    between operations, and [WriteTsAndIn] is not asked to go back. *)
Definition lawful (sv : server) (c : client) (e : event) : Prop :=
  match e with
  | EOp OpMarkAsDone => True
  | EOp (OpForKV kv_id my_last _) =>
      mr_step (cl_reg c) = Done /\ mr_next (cl_reg c) = None /\ holds sv (Z.to_nat kv_id) (default 0 my_last)
  | EOp OpWriteTsAndIn =>
      mr_step (cl_reg c) = Done /\ forall tsp, entry_tsp 0 c = Some tsp -> mr_max (cl_reg c) <= tsp
  | EOp _ => mr_step (cl_reg c) = Done
  | ELocal _ _ => mr_step (cl_reg c) = Done /\ mr_next (cl_reg c) = None
  | _ => True
  end.

Definition write_op (e : event) : bool :=
  match e with EOp (OpWrite _) | EOp (OpReplicate _) | EOp OpWriteTsAndIn => true | _ => false end.

Lemma inv_done sv c : inv sv c -> mr_step (cl_reg c) = Done -> at_rest c /\ settled sv c.
Proof using Type.
  intros [HB [Hr|[Ha|[Hd _]]]] Hs; [|by destruct (a_step _ _ Ha)|congruence].
  split; [done|]. split; [done|]. apply Hr.
Qed.

Lemma doNext_inv sv c s c' : settled sv c -> mr_step (cl_reg c) = Done -> s <> Dead ->
  (s = WriteTsAndIn -> forall tsp, write_tsp c = Some tsp -> mr_max (cl_reg c) <= tsp) ->
  doNext s c = Some c' -> inv sv c' /\ (write_steps s = true -> writing c').
Proof using Type.
  intros [HB [Hn Hc]] Hs Hd Hin Hx. unfold doNext in Hx. destruct (write_tsp c) as [tsp|] eqn:Htsp; [|done].
  cbn [mbind option_bind] in Hx. injection Hx as <-. split.
  - split; [destruct HB; by split|]. left. split; cbn; [done|done| |].
    + intros [= Hg]. by apply (guard_not_dead Z.ltb tsp (mr_max (cl_reg c)) s Hd).
    + intros [= Hg] t Ht. apply Hin; [|by rewrite <- Htsp].
      destruct s; cbn [guard] in Hg; try done; repeat case_match; done.
  - intros Hw. exists tsp. split; [exact Htsp|]. cbn. rewrite Hs. destruct s; try discriminate Hw; cbn [guard]; [|done|].
    + destruct (Z.ltb_spec tsp (Z.lor (mr_max (cl_reg c)) 1)); [|done]. destruct (Z.ltb_spec tsp (mr_max (cl_reg c))); [lia|done].
    + destruct (Z.ltb_spec tsp (mr_max (cl_reg c))); [lia|done].
Qed.

Lemma mark_done_inv sv c c' : inv sv c -> doNext Done c = Some c' -> inv sv c'.
Proof using Type.
  intros Hi Hx. destruct (decide (mr_step (cl_reg c) = Done)) as [Hs|Hs].
  - destruct (inv_done sv c Hi Hs) as [_ Hst]. by apply (doNext_inv sv c Done c' Hst Hs).
  - destruct Hi as [HB Hp]. unfold doNext in Hx. destruct (write_tsp c) as [tsp|]; [|done]. cbn [mbind option_bind guard] in Hx. injection Hx as <-.
    split; [destruct HB; by split|]. destruct Hp as [Hr|[[A1 A2 A3 A4 A5 A6 A7]|Hd]]; [by destruct Hr|right; left|by right; right].
    split; try done. by right.
Qed.

Lemma do_op_inv sv op c c' : inv sv c -> lawful sv c (EOp op) -> do_op L op c = Some c' ->
  inv sv c' /\ (write_op (EOp op) = true -> writing c').
Proof using hash.
  intros Hi Hl Hx. assert (Hop : op = OpMarkAsDone \/ op <> OpMarkAsDone) by (destruct op; by (left + right)).
  destruct Hop as [->|Hop]; [split; [by eapply mark_done_inv|done]|].
  assert (Hs : mr_step (cl_reg c) = Done) by (destruct op; cbn in Hl; try done; tauto).
  destruct (inv_done sv c Hi Hs) as [_ Hst].
  destruct op as [kv_id my_last m| | | |e|ci li|e|e|li|li| |]; cbn [do_op write_op] in *; try done.
  1: { unfold forKV in Hx. destruct (_ <? _); [|done]. cbn [assert_ mbind option_bind] in Hx. injection Hx as <-.
    destruct Hl as (_ & Hn & Hh), Hst as [[B1 B2 B3 B4 B5 B6] [Hn' Hc']]. split; [|done]. split; [split; cbn; try done|].
    left. split; cbn; try done; by rewrite Hn. }
  all: repeat (match type of Hx with context [?m ≫= _] => destruct m; [|done]; cbn [mbind option_bind] in Hx end).
  1-3: edestruct (doNext_inv sv) as [H1 H2]; [exact Hst|exact Hs| | |exact Hx|by split]; done.
  all: match type of Hx with doNext _ (target ?w ?log _) = _ => pose proof (target_settled sv w log _ Hst) as Ht end.
  all: edestruct (doNext_inv sv) as [H1 H2]; [exact Ht|exact Hs| | |exact Hx|by split]; try done.
  all: try done. intros _ tsp Htsp. destruct Hl as [_ Hl]. by apply Hl.
Qed.
Lemma local_inv sv c i e : inv sv c -> mr_step (cl_reg c) = Done -> mr_next (cl_reg c) = None ->
  inv sv (with_entries (<[i := e]> (cl_entries c)) c).
Proof using Type.
  intros Hi Hs Hn. destruct (inv_done sv c Hi Hs) as [[R1 R2 R3 R4] [HB _]]. split; [destruct HB; by split|].
  left. split; cbn; try done; by rewrite Hn.
Qed.

Lemma client_event_inv e sv c sv' c' : inv sv c -> lawful sv c e -> client_event L server_idx hash e sv c = Some (sv', c') ->
  raises sv sv' /\ inv sv' c'.
Proof using Htsps.
  intros Hi Hl Hx. destruct e as [op|i e| | |now]; cbn [client_event] in Hx.
  - destruct (do_op L op c) as [c1|] eqn:Hop; [|done]. cbn [mbind option_bind] in Hx. injection Hx as <- <-.
    split; [reflexivity|]. by eapply do_op_inv.
  - destruct (_ <? _)%nat; [|done]. cbn [assert_ mbind option_bind] in Hx. injection Hx as <- <-. destruct Hl as [Hs Hn].
    split; [reflexivity|by apply local_inv].
  - by eapply mr_nic_inv.
  - injection Hx as <- <-. split; [reflexivity|by apply mr_poll_inv].
  - destruct (tryStepForward _ _ _ _ _) as [[b c1]|] eqn:Hst; [|done]. cbn [mbind option_bind] in Hx. injection Hx as <- <-.
    split; [reflexivity|]. by eapply step_inv.
Qed.

(** A write stays one while its client starts nothing else. *)
Definition own (e : event) : bool := match e with EOp _ | ELocal _ _ => true | _ => false end.

Lemma nic_writing sv c sv' c' : inv sv c -> writing c -> nic_exec sv c = Some (sv', c') -> writing c'.
Proof using Type.
  intros [HB Hp] (tsp & Htsp & Hw) Hx. unfold nic_exec in Hx. destruct (cl_sent c) as [|rq sent] eqn:Hs; [injection Hx as <- <-; by exists tsp|].
  destruct (serve rq sv (cl_entries c)) as [[sv1 es1]|] eqn:Hserve; [|done]. cbn [mbind option_bind] in Hx. injection Hx as <- <-.
  destruct (serve_entries _ _ _ _ _ Hserve) as (El & Ek & _).
  destruct (keeps_tsp rq) eqn:Hk; [exists tsp; split; [by rewrite write_tsp_keeps by (by apply Ek)|exact Hw]|].
  destruct Hp as [[R1 [R2 R2'] _ _]|[Ha|[Hd _]]].
  - pose proof (tail_ok_rest _ (b_tail _ _ HB) R2) as Hrest. rewrite Hs in Hrest. apply Forall_cons in Hrest as [Hrq _]. by destruct rq.
  - pose proof (a_rq _ _ Ha) as Hrq. rewrite Hs in Hrq. apply Forall_cons in Hrq as [Hrq _].
    destruct rq; try discriminate Hk; cbn in Hrq; [destruct Hrq as (_ & _ & Hrq)|]; destruct (mr_step (cl_reg c)); try done; by destruct Hw.
  - unfold write_tsp in Htsp |- *. cbn. destruct (cl_entries c !! mr_write (cl_reg c)) as [e|] eqn:He; [|done].
    destruct (lookup_lt_is_Some_2 es1 (mr_write (cl_reg c))) as [e' He']; [rewrite El; by eapply lookup_lt_Some|].
    exists (in_place_tsp (le_kv e')). unfold write_tsp. cbn. rewrite He', Hd. done.
Qed.

Lemma client_event_writing e sv c sv' c' : inv sv c -> lawful sv c e -> writing c -> own e = false \/ write_op e = true ->
  client_event L server_idx hash e sv c = Some (sv', c') -> writing c'.
Proof using Htsps.
  intros Hi Hl Hw Ho Hx. destruct e as [op|i e| | |now]; cbn [client_event] in Hx.
  - destruct (do_op L op c) as [c1|] eqn:Hop; [|done]. cbn [mbind option_bind] in Hx. injection Hx as <- <-.
    destruct Ho as [Ho|Ho]; [done|]. by eapply do_op_inv.
  - by destruct Ho.
  - by eapply nic_writing.
  - by injection Hx as <- <-.
  - destruct (tryStepForward _ _ _ _ _) as [[b c1]|] eqn:Hst; [|done]. cbn [mbind option_bind] in Hx. injection Hx as <- <-.
    eapply step_inv; [exact Hi|exact Hst|exact Hw].
Qed.

(** ** Clients of one server *)

(** Every event of a run is lawful where it happens. *)
Fixpoint lawful_run (es : list (nat * event)) (p : server * list client) : Prop :=
  match es with
  | [] => True
  | ie :: es =>
      (forall c, p.2 !! ie.1 = Some c -> lawful p.1 c ie.2) /\
      (forall p', pool_event L server_idx hash ie p = Some p' -> lawful_run es p')
  end.

Definition pool_inv (p : server * list client) : Prop := Forall (inv p.1) p.2.

Lemma pool_event_inv ie p p' : pool_inv p -> (forall c, p.2 !! ie.1 = Some c -> lawful p.1 c ie.2) ->
  pool_event L server_idx hash ie p = Some p' -> raises p.1 p'.1 /\ pool_inv p'.
Proof using Htsps.
  intros Hi Hl Hx. unfold pool_event in Hx. destruct (p.2 !! ie.1) as [c|] eqn:Hc; [|done]. cbn [mbind option_bind] in Hx.
  destruct (client_event _ _ _ _ _ _) as [[sv1 c1]|] eqn:He; [|done]. cbn [mbind option_bind] in Hx. injection Hx as <-.
  destruct (client_event_inv _ _ _ _ _ (Forall_lookup_1 _ _ _ _ Hi Hc) (Hl c eq_refl) He) as [Hr Hi1]. split; [done|].
  unfold pool_inv. cbn. apply Forall_insert; [|done]. eapply Forall_impl; [exact Hi|]. intros c2. by apply inv_raises.
Qed.

Lemma run_pool_inv es : forall p p', pool_inv p -> lawful_run es p -> run_pool L server_idx hash es p = Some p' ->
  raises p.1 p'.1 /\ pool_inv p'.
Proof using Htsps.
  induction es as [|ie es IH]; intros p p' Hi Hl Hx; cbn [run_pool lawful_run] in *; [injection Hx as <-; by split; [reflexivity|]|].
  destruct Hl as [Hl1 Hl2]. destruct (pool_event L server_idx hash ie p) as [p1|] eqn:He; [|done]. cbn [mbind option_bind] in Hx.
  destruct (pool_event_inv ie p p1 Hi Hl1 He) as [Hr Hi1]. destruct (IH p1 p' Hi1 (Hl2 p1 eq_refl) Hx) as [Hr' Hi'].
  split; [by etrans|done].
Qed.

(** The client a write belongs to, while it starts nothing else. *)
Lemma run_pool_writing i es : forall p p' c, pool_inv p -> lawful_run es p -> run_pool L server_idx hash es p = Some p' ->
  Forall (fun ie => ie.1 = i -> own ie.2 = false) es -> p.2 !! i = Some c -> writing c ->
  exists c', p'.2 !! i = Some c' /\ writing c'.
Proof using Htsps.
  induction es as [|ie es IH]; intros p p' c Hi Hl Hx Hes Hc Hw; cbn [run_pool lawful_run] in *; [injection Hx as <-; by exists c|].
  destruct Hl as [Hl1 Hl2]. destruct (pool_event L server_idx hash ie p) as [p1|] eqn:He; [|done]. cbn [mbind option_bind] in Hx.
  destruct (pool_event_inv ie p p1 Hi Hl1 He) as [_ Hi1]. apply Forall_cons in Hes as [Ho Hes].
  unfold pool_event in He. destruct (p.2 !! ie.1) as [ci|] eqn:Hci; [|done]. cbn [mbind option_bind] in He.
  destruct (client_event _ _ _ _ _ _) as [[sv1 c1]|] eqn:Hce; [|done]. cbn [mbind option_bind] in He. injection He as <-.
  destruct (decide (ie.1 = i)) as [Hie|Hie].
  - rewrite Hie, Hc in Hci. injection Hci as <-. refine (IH _ _ c1 Hi1 (Hl2 _ eq_refl) Hx Hes _ _).
    + cbn. rewrite Hie. apply list_lookup_insert_eq. by eapply lookup_lt_Some.
    + eapply (client_event_writing ie.2 p.1 c); [by eapply Forall_lookup_1|apply Hl1; by subst i|done|left; by apply Ho|exact Hce].
  - refine (IH _ _ c Hi1 (Hl2 _ eq_refl) Hx Hes _ Hw). cbn. by rewrite list_lookup_insert_ne.
Qed.
End Invariant.

(** ** The register *)

(** A client at the start. *)
Definition fresh (c : client) : Prop := exists idx entries k counts oop inp prim lazyness,
  c = client_new idx entries k counts oop inp prim lazyness.

Lemma fresh_inv server_idx L sv c : fresh c -> inv L server_idx sv c.
Proof.
  intros (idx & entries & k & counts & oop & inp & prim & lazyness & ->). split; [split; cbn; try done; by left|].
  left. by split.
Qed.

Lemma run_pool_app L server_idx hash es1 : forall es2 p p2, run_pool L server_idx hash (es1 ++ es2) p = Some p2 ->
  lawful_run L server_idx hash (es1 ++ es2) p ->
  exists p1, run_pool L server_idx hash es1 p = Some p1 /\ run_pool L server_idx hash es2 p1 = Some p2 /\
    lawful_run L server_idx hash es1 p /\ lawful_run L server_idx hash es2 p1.
Proof.
  induction es1 as [|ie es1 IH]; intros es2 p p2 Hx Hl; [by exists p|]. cbn [app run_pool lawful_run] in *. destruct Hl as [Hl1 Hl2].
  destruct (pool_event L server_idx hash ie p) as [p0|] eqn:He; [|done]. cbn [mbind option_bind] in *.
  destruct (IH es2 p0 p2 Hx (Hl2 p0 eq_refl)) as (p1 & H1 & H2 & H3 & H4). exists p1. split_and!; [done|done|done| |done].
  by intros p' [= <-].
Qed.

(** C29: Any number of clients that share the max register of a server, and
    use it as they should, keep it one: whatever order their operations,
    requests, completions and steps come in, no timestamp word of the server
    ever goes down; every client's [max_seen_tsp] is held by the register of
    its key; and if a client has started a write and nothing since, then when
    its future says it is done, the register holds at least the word
    written. *)
Theorem maxreg_register_safe L server_idx hash es sv cs sv' cs' :
  0 <= num_tsp L -> Forall fresh cs -> lawful_run L server_idx hash es (sv, cs) ->
  run_pool L server_idx hash es (sv, cs) = Some (sv', cs') ->
  raises sv sv' /\ Forall (fun c => holds sv' (mr_remote_kv (cl_reg c)) (mr_max (cl_reg c))) cs' /\
  forall es1 i e es2 c tsp, es = es1 ++ (i, e) :: es2 -> write_op e = true -> Forall (fun ie => ie.1 = i -> own ie.2 = false) es2 ->
    cs' !! i = Some c -> isDone c = true -> write_tsp c = Some tsp -> holds sv' (mr_remote_kv (cl_reg c)) tsp.
Proof.
  intros Ht Hcs Hl Hx. assert (Hi : pool_inv L server_idx (sv, cs)) by (eapply Forall_impl; [exact Hcs|intros c; by apply fresh_inv]).
  destruct (run_pool_inv L server_idx Ht hash es _ _ Hi Hl Hx) as [Hr Hi']. split; [exact Hr|].
  split; [eapply Forall_impl; [exact Hi'|by intros c [[] _]]|]. intros es1 i e es2 c tsp -> Hw Hes Hc Hd Htsp.
  destruct (run_pool_app _ _ _ _ _ _ _ Hx Hl) as (p1 & Hx1 & Hx2 & Hl1 & Hl2).
  destruct (run_pool_inv L server_idx Ht hash es1 _ _ Hi Hl1 Hx1) as [_ Hi1]. cbn [run_pool lawful_run] in *. destruct Hl2 as [Hl2 Hl3].
  destruct (pool_event L server_idx hash (i, e) p1) as [p2|] eqn:He; [|done]. cbn [mbind option_bind] in Hx2.
  destruct (pool_event_inv L server_idx Ht hash _ _ _ Hi1 Hl2 He) as [_ Hi2]. unfold pool_event in He. cbn [fst snd] in *.
  destruct (p1.2 !! i) as [c1|] eqn:Hc1; [|done]. cbn [mbind option_bind] in He.
  destruct (client_event L server_idx hash e p1.1 c1) as [[sv2 c2]|] eqn:Hce; [|done]. cbn [mbind option_bind] in He. injection He as <-.
  assert (Hw2 : writing c2).
  { pose proof (Forall_lookup_1 _ _ _ _ Hi1 Hc1) as Hic. destruct e as [op| | | |]; try discriminate Hw. cbn [client_event] in Hce.
    destruct (do_op L op c1) as [c2'|] eqn:Hop; [|done]. cbn [mbind option_bind] in Hce. injection Hce as <- <-.
    by apply (do_op_inv L server_idx hash _ _ _ _ Hic (Hl2 c1 eq_refl) Hop). }
  destruct (run_pool_writing L server_idx Ht hash i es2 _ _ c2 Hi2 (Hl3 _ eq_refl) Hx2 Hes) as (c' & Hc' & tsp' & Htsp' & Hm);
    [cbn; apply list_lookup_insert_eq; by eapply lookup_lt_Some|done|]. cbn [snd] in Hc'. rewrite Hc in Hc'. injection Hc' as <-.
  rewrite Htsp in Htsp'. injection Htsp' as <-. destruct (Forall_lookup_1 _ _ _ _ Hi' Hc) as [[_ Hmax _ _ _ _] _]. cbn [fst] in Hmax.
  eapply mr_holds_le; [|exact Hmax]. unfold isDone in Hd. apply andb_prop in Hd as [Hd1 Hd2]. apply bool_decide_eq_true in Hd1, Hd2.
  rewrite Hd1 in Hm. destruct Hd2 as [Hd2|Hd2]; by rewrite Hd2 in Hm.
Qed.

(** *** Three clients that share a word *)

Definition small_layout (num_tsp : Z) : layout := Layout false false 2 3 1 1 num_tsp true 1 1 1 8 8 0.
Definition entry_of (tsp : Z) : LogEntry := Log 0 0 (Kv tsp [] []) [0].
Definition one_key : server := Server [SKv (Kv 0 [] []) [0]]
  (list_to_map ((fun i => ((i, 0), SLog 0 0 (Kv 0 [] []))) <$> [0; 1; 2])).
Definition client_of (idx tsp : Z) : client :=
  client_new idx [entry_of tsp; entry_of 0] (clock_new 9) (replicate 14 0) true false false 0.

(** The clients 0 and 1 write [a] and [b], 2 only reads. *)
Definition word_a : Z := tsp_word 5 0 2 false.
Definition word_b : Z := tsp_word 6 0 3 false.
Definition three_clients : list client := [client_of 0 word_a; client_of 1 word_b; client_of 2 0].

Definition served (i n : nat) : list (nat * event) := replicate n (i, ENic) ++ [(i, EPoll)].
Definition start (i : nat) (op : operation) : list (nat * event) := [(i, EOp (OpForKV 0 None false)); (i, EOp op); (i, EStep 9000)].
(** One client's whole operation. *)
Definition alone (i : nat) (op : operation) : list (nat * event) := start i op ++ served i 2 ++ [(i, EStep 9000)].

Lemma maxreg_register_safe_witness : exists cs' sv',
  run_pool (small_layout 1) 0 (fun _ l => l) (alone 1 (OpWrite 0) ++ alone 2 OpReadTs) (one_key, three_clients) = Some (sv', cs') /\
  raises one_key sv' /\ (fun c => (isDone c, mr_max (cl_reg c))) <$> cs' = [(true, 0); (true, word_b); (true, word_b)] /\
  holds sv' 0 word_b.
Proof.
  edestruct (maxreg_register_safe (small_layout 1) 0 (fun _ l => l) (alone 1 (OpWrite 0) ++ alone 2 OpReadTs) one_key three_clients)
    as (H1 & _ & H3); [done| | |vm_compute; reflexivity|].
  - repeat (constructor; [do 8 eexists; reflexivity|]). constructor.
  - repeat (split; [intros c Hc; vm_compute in Hc; injection Hc as <-; vm_compute; try done; intuition (done || (by left))|
      intros p' Hp; vm_compute in Hp; injection Hp as <-]). exact I.
  - eexists _, _. split; [vm_compute; reflexivity|]. split; [exact H1|]. split; [vm_compute; reflexivity|].
    edestruct (H3 [(1%nat, EOp (OpForKV 0 None false))] 1%nat (EOp (OpWrite 0))) as [Hz|Hh];
      [reflexivity|reflexivity|by repeat constructor|reflexivity|reflexivity|reflexivity| |right; exact Hh]. by left.
Defined.

(** Client 0 tries to write [a], client 1 writes [b] first, and client 0
    stamps its entry verified and writes it again. *)
Definition overtaken : list (nat * event) :=
  start 0 (OpTryWrite 0) ++ alone 1 (OpWrite 0) ++ served 0 2 ++
  [(0%nat, ELocal 0 (entry_of (validateTsp word_a))); (0%nat, EOp OpWriteTsAndIn); (0%nat, EStep 9000)].
Definition rewritten : list (nat * event) := overtaken ++ served 0 1 ++ [(0%nat, EStep 9000)].

Definition words (p : server * list client) : list (list Z) := sk_tsps <$> sv_keys p.1.
Definition dones (p : server * list client) : list (bool * Z) := (fun c => (isDone c, mr_max (cl_reg c))) <$> p.2.

(** C30: [doWriteTsAndIn] can lower the register: it is not guarded by what
    the client has seen, and swaps whatever word it saw last for its own.  If
    clients share a word (as all do by default), and one whose try to write
    [a] was overtaken by a larger [b] goes on to mark [a] verified, as
    [OopsDataFuture] does as soon as a majority took [a], then the word goes
    from [b] back to [a], although the write of [b] is done; a client that
    then reads the register is told [a].  (Either way both writers say they
    have seen [b].) *)
Theorem maxreg_in_place_lowers :
  validateTsp word_a < word_b /\
  exists p p', run_pool (small_layout 1) 0 (fun _ l => l) overtaken (one_key, three_clients) = Some p /\
    words p = [[word_b]] /\ dones p = [(false, word_b); (true, word_b); (true, 0)] /\
    run_pool (small_layout 1) 0 (fun _ l => l) (rewritten ++ alone 2 OpReadTs) (one_key, three_clients) = Some p' /\
    words p' = [[validateTsp word_a]] /\ dones p' = [(true, word_b); (true, word_b); (true, validateTsp word_a)].
Proof. split; [by vm_compute|]. eexists _, _. split_and!; vm_compute; reflexivity. Qed.
