(* ===== verification/SwarmRelaxed.v ===== *)
(** * SwarmRelaxed: the max register replicated over servers (relaxed_maxreg.hpp)

    A [RelaxedMaxRegFuture] drives one [UnreliableMaxRegFuture] per server; they
    share the entries, the clock and the counters of their client.  An operation
    starts on every server and ends when a majority of the servers that are
    neither dead nor put off is done.  The theorems: a finished write was seen by
    a majority, a read that follows it reports no smaller word, and reading a key
    that was never written throws. *)

From S2P Require Import Prelude SwarmState SwarmMaxReg.

Local Open Scope Z_scope.

(** ** The future *)

Inductive RxStep := RxTryRead | RxReadLog | RxRead | RxTryWrite | RxWrite | RxLinearized | RxDone.

Global Instance rx_step_eq : EqDecision RxStep.
Proof. solve_decision. Defined.

(** The future of one server, with its connection. *)
Record port := Port { pt_reg : maxreg; pt_poll : Z; pt_sent : list request; pt_completed : Z }.

(** The client ([rx_idx] to [rx_counts]), and the future; entry 0 is the one to
    write, entry [S i] the one to read into from server [i]. *)
Record relaxed := Relaxed {
  rx_idx : Z;
  rx_entries : list LogEntry;
  rx_clock : clock;
  rx_counts : list Z;
  rx_ports : list port;
  rx_step : RxStep;
  rx_max : Z;
  rx_entry : option nat;
  rx_measuring : bool;
}.

Definition with_shared (es : list LogEntry) (k : clock) (n : list Z) (ps : list port) (x : relaxed) : relaxed :=
  Relaxed (rx_idx x) es k n ps (rx_step x) (rx_max x) (rx_entry x) (rx_measuring x).
Definition with_ports (ps : list port) (x : relaxed) : relaxed := with_shared (rx_entries x) (rx_clock x) (rx_counts x) ps x.
Definition with_rx (s : RxStep) (max : Z) (entry : option nat) (x : relaxed) : relaxed :=
  Relaxed (rx_idx x) (rx_entries x) (rx_clock x) (rx_counts x) (rx_ports x) s max entry (rx_measuring x).
Definition with_step (s : RxStep) (x : relaxed) : relaxed := with_rx s (rx_max x) (rx_entry x) x.

(** The client as the future of server [i] sees it, and back. *)
Definition port_client (p : port) (x : relaxed) : client :=
  Client (rx_idx x) (rx_entries x) (rx_clock x) (pt_poll p) (rx_counts x) (pt_reg p) (pt_sent p) (pt_completed p).
Definition client_port (c : client) : port := Port (cl_reg c) (cl_to_poll c) (cl_sent c) (cl_completed c).
Definition focus (i : nat) (x : relaxed) : option client := p ← rx_ports x !! i; Some (port_client p x).
Definition blur (i : nat) (c : client) (x : relaxed) : relaxed :=
  with_shared (cl_entries c) (cl_clock c) (cl_counts c) (<[i := client_port c]> (rx_ports x)) x.

(** A loop over servers. *)
Fixpoint for_each {A} (f : nat -> A -> option A) (l : list nat) (a : A) : option A :=
  match l with
  | [] => Some a
  | i :: l => a ← f i a; for_each f l a
  end.

Definition set_flags (oop inp prim : bool) (lazyness : Z) (r : maxreg) : maxreg :=
  MaxReg (mr_step r) (mr_to_poll r) (mr_remote_kv r) (mr_ongoing_kv r) (mr_max r) (mr_last r) (mr_ongoing_entry r) (mr_next r) (mr_write r)
    (mr_log r) oop inp prim lazyness (mr_progress r) (mr_measuring r).

Section Relaxed.
Context (L : layout) (hash : Z -> list Z -> list Z).

Definition on_port (f : client -> option client) (i : nat) (x : relaxed) : option relaxed :=
  c ← focus i x; c ← f c; Some (blur i c x).

(** [for (auto& maxreg : maxregs)] *)
Definition each_port (f : client -> option client) (x : relaxed) : option relaxed :=
  for_each (on_port f) (seq 0 (length (rx_ports x))) x.

Definition resetProgressMarkers (x : relaxed) : relaxed :=
  with_ports ((fun p => Port (set_progress false (pt_reg p)) (pt_poll p) (pt_sent p) (pt_completed p)) <$> rx_ports x) x.

(** A client's future with its futures per server, as constructed. *)
Definition rx_new (idx : Z) (entries : list LogEntry) (k : clock) (counts : list Z) : option relaxed :=
  assert_ (0 <? num_servers L) ;;
  let p i := client_port (client_new idx entries k counts true (bool_decide (i = 0%nat) && in_place L) (bool_decide (i = 0%nat)) 0) in
  Some (Relaxed idx entries k counts (p <$> seq 0 (Z.to_nat (num_servers L))) RxDone 0 None false).

(** What [forKV] sets in the [i]-th server from the main one. *)
Definition port_forKV (kv_id main : Z) (my_last : option Z) (measuring : bool) (i : nat) (c : client) : option client :=
  let k := Z.of_nat i in
  let primary := (i =? 0)%nat in
  let inp := in_place L && (primary || ((main <? dead_servers (cl_clock c)) && (Z.land kv_id 1 =? u64 (k - 1)))) in
  let lazyness := if k <? majority L then 0 else u64 (1 + k - majority L) in
  forKV L kv_id my_last measuring (with_reg (set_flags true inp primary lazyness (cl_reg c)) c).

Definition rx_forKV (kv_id main : Z) (my_last : option Z) (measuring : bool) (x : relaxed) : option relaxed :=
  let x := Relaxed (rx_idx x) (rx_entries x) (rx_clock x) (rx_counts x) (rx_ports x) (rx_step x) 0 (rx_entry x) measuring in
  x ← for_each (fun i => on_port (port_forKV kv_id main my_last measuring i) (Z.to_nat (u64 (main + Z.of_nat i) mod num_servers L)))
        (seq 0 (Z.to_nat (num_servers L))) x;
  assert_ (0 <? length (rx_ports x))%nat ;; Some (with_rx (rx_step x) (rx_max x) (Some 1%nat) x).

(** [doRead], [doReadTs], … : the step, and what every server is asked. *)
Definition rx_do (s : RxStep) (op : operation) (x : relaxed) : option relaxed :=
  x ← each_port (do_op L op) (with_step s x); Some (resetProgressMarkers x).

Inductive rx_operation :=
  | RxForKV (kv_id main : Z) (my_last : option Z) (measuring : bool)
  | RxDoRead | RxDoReadTs
  | RxDoNotifyAndReadTs (entry : nat)
  | RxDoReadLog (client_idx log_id : Z)
  | RxDoReplicateAndReadNotifs (entry : nat)
  | RxDoReplicate (entry : nat)
  | RxDoWrite (log_id : Z)
  | RxDoTryWrite (log_id : Z)
  | RxDoWriteTsAndIn.

Definition rx_do_op (op : rx_operation) : relaxed -> option relaxed :=
  match op with
  | RxForKV kv_id main my_last measuring => rx_forKV kv_id main my_last measuring
  | RxDoRead => rx_do RxTryRead OpTryRead
  | RxDoReadTs => rx_do RxRead OpReadTs
  | RxDoNotifyAndReadTs entry => rx_do RxRead (OpNotifyAndReadTs entry)
  | RxDoReadLog client_idx log_id => rx_do RxReadLog (OpReadLog client_idx log_id)
  | RxDoReplicateAndReadNotifs entry => rx_do RxWrite (OpReplicateAndReadNotifs entry)
  | RxDoReplicate entry => rx_do RxWrite (OpReplicate entry)
  | RxDoWrite log_id => rx_do RxWrite (OpWrite log_id)
  | RxDoTryWrite log_id => rx_do RxTryWrite (OpTryWrite log_id)
  | RxDoWriteTsAndIn => rx_do RxWrite OpWriteTsAndIn
  end.

Definition rx_isLinearized (x : relaxed) : bool := bool_decide (rx_step x = RxDone) || bool_decide (rx_step x = RxLinearized).
Definition rx_isDone (x : relaxed) : bool := bool_decide (rx_step x = RxDone).

(** ** Queries over the servers in use *)

Definition isLazyOrDead (i : nat) (c : client) : bool := isLazy c || isDead (Z.of_nat i) c.

(** The servers in use, with their futures. *)
Definition in_use (x : relaxed) : list (nat * client) :=
  filter (fun ic => isLazyOrDead ic.1 ic.2 = false) (imap (fun i p => (i, port_client p x)) (rx_ports x)).

(** [<] on [std::optional] *)
Definition opt_lt (a b : option Z) : bool :=
  match a, b with None, Some _ => true | Some a, Some b => a <? b | _, None => false end.

Definition rx_getMyTsp (x : relaxed) : option Z :=
  foldl (fun v ic => if opt_lt v (mr_last (cl_reg ic.2)) then mr_last (cl_reg ic.2) else v) None (in_use x).
Definition rx_getMinTsp (x : relaxed) : Z :=
  foldl (fun v ic => if mr_max (cl_reg ic.2) <? v then mr_max (cl_reg ic.2) else v) (rx_max x) (in_use x).
Definition rx_getMyMinTsp (x : relaxed) : Z :=
  foldl (fun v ic => if last_or_0 (cl_reg ic.2) <? v then last_or_0 (cl_reg ic.2) else v) (u64 (-1)) (in_use x).

(** The first server in use for which [P] holds. *)
Fixpoint first_that (P : nat * client -> option bool) (l : list (nat * client)) : option (option nat) :=
  match l with
  | [] => Some None
  | ic :: l => b ← P ic; if b : bool then Some (Some ic.1) else first_that P l
  end.

Definition rx_notified (x : relaxed) : option bool :=
  r ← first_that (fun ic => notified (Z.of_nat ic.1) ic.2) (in_use x); Some (bool_decide (is_Some r)).

(** ** Stepping *)

(** What the loop of [tryStepForward] counts. *)
Record tally := Tally { ta_ready : Z; ta_done : Z; ta_progress : Z }.
Definition b2 (b : bool) : Z := if b then 1 else 0.

Definition set_entry_tsp (i : nat) (t : Z) (es : list LogEntry) : option (list LogEntry) :=
  e ← es !! i; Some (<[i := set_kv_tsp t e]> es).

(** [max_seen_tsp] follows a server, and its entry is taken and stamped. *)
Definition take_max (i : nat) (c : client) (x : relaxed) : option relaxed :=
  let r := cl_reg c in
  if (rx_max x <? mr_max r) || ((rx_max x =? mr_max r) && mr_in_place r) then
    es ← set_entry_tsp (S i) (mr_max r) (rx_entries x);
    Some (with_rx (rx_step x) (mr_max r) (Some (S i)) (with_shared es (rx_clock x) (rx_counts x) (rx_ports x) x))
  else Some x.

Definition is_ready (s : RxStep) (c : client) : option bool :=
  if isDone c then Some true else if bool_decide (s = RxWrite) then isLinearized c else Some false.

Definition visit (now : Z) (i : nat) (xt : relaxed * tally) : option (relaxed * tally) :=
  let '(x, t) := xt in
  c ← focus i x;
  if isLazyOrDead i c then Some (x, t)
  else
    '(_, c) ← tryStepForward L (Z.of_nat i) hash now c;
    let x := blur i c x in
    ready ← is_ready (rx_step x) c;
    x ← take_max i c x;
    Some (x, Tally (ta_ready t + b2 ready) (ta_done t + b2 (isDone c)) (ta_progress t + b2 (ready || mr_progress (cl_reg c)))).

Definition visit_all (now : Z) (x : relaxed) : option (relaxed * tally) :=
  for_each (visit now) (seq 0 (length (rx_ports x))) (x, Tally 0 0 0).

(** The entry read in place that has the largest timestamp, by its checksum. *)
Definition found_in_place (x : relaxed) (ic : nat * client) : option bool :=
  let c := ic.2 in
  if mr_in_place (cl_reg c) && (mr_max (cl_reg c) =? rx_max x) then
    e ← rx_entries x !! S ic.1;
    Some ((Z.lor (in_place_tsp (le_kv e)) 1 =? Z.lor (rx_max x) 1) &&
          bool_decide (hash (filterLogIdAndClientProcId (in_place_tsp (le_kv e))) (raw_kv (le_kv e)) = chsum (le_kv e)))
  else Some false.

Definition found_log (x : relaxed) (ic : nat * client) : option bool :=
  e ← rx_entries x !! S ic.1;
  Some (filterLogIdAndClientProcId (in_place_tsp (le_kv e)) =? filterLogIdAndClientProcId (rx_max x)).

Definition read_log (x : relaxed) : option relaxed :=
  found ← first_that (found_log x) (in_use x);
  let entry := match found with Some i => Some (S i) | None => rx_entry x end in
  i ← entry; es ← set_entry_tsp i (rx_max x) (rx_entries x);
  Some (with_rx RxDone (rx_max x) entry (with_shared es (rx_clock x) (rx_counts x) (rx_ports x) x)).

(** The switch at the end; [again] is the recursive call. *)
Definition conclude (again : relaxed -> option (bool * relaxed)) (t : tally) (x : relaxed) : option relaxed :=
  match rx_step x with
  | RxWrite => Some (with_step (if ta_done t <? majority L then RxLinearized else RxDone) x)
  | RxTryRead =>
      found ← first_that (found_in_place x) (in_use x);
      match found with
      | Some i => Some (with_rx RxDone (rx_max x) (Some (S i)) x)
      | None =>
          x ← each_port (do_op L (OpReadLog (extractClientIdx L (rx_max x)) (extractLogId (rx_max x)))) (with_step RxReadLog x);
          '(_, x) ← again x; Some x
      end
  | RxReadLog => read_log x
  | RxRead | RxTryWrite | RxLinearized => Some (with_step RxDone x)
  | RxDone => Some x
  end.

Fixpoint rx_tryStepForward (fuel : nat) (now : Z) (x : relaxed) : option (bool * relaxed) :=
  match fuel with
  | O => None
  | S fuel =>
      if bool_decide (rx_step x = RxDone) then Some (true, resetProgressMarkers x)
      else
        '(x, t) ← visit_all now x;
        if ta_progress t <? majority L then Some (false, x)
        else
          let x := resetProgressMarkers x in
          if ta_ready t <? majority L then Some (true, x)
          else
            x ← conclude (rx_tryStepForward fuel now) t x;
            x ← (if bool_decide (rx_step x = RxDone) then each_port (do_op L OpMarkAsDone) x else Some x);
            Some (true, x)
  end.

(** ** The future among servers *)

(** Server [i] serves the next request; its completions are polled; the future
    steps; the other clients change server [i]. *)
Inductive rx_event :=
  | RxNic (i : nat)
  | RxPoll (i : nat)
  | RxTick (now : Z)
  | RxOthers (i : nat) (sv : server).

Definition rx_exec (e : rx_event) (w : list server * relaxed) : option (list server * relaxed) :=
  let '(svs, x) := w in
  match e with
  | RxNic i =>
      sv ← svs !! i; c ← focus i x; '(sv, c) ← nic_exec sv c; Some (<[i := sv]> svs, blur i c x)
  | RxPoll i => c ← focus i x; Some (svs, blur i (poll c) x)
  | RxTick now => '(_, x) ← rx_tryStepForward 2 now x; Some (svs, x)
  | RxOthers i sv => assert_ (i <? length svs)%nat ;; Some (<[i := sv]> svs, x)
  end.

Fixpoint rx_run (es : list rx_event) (w : list server * relaxed) : option (list server * relaxed) :=
  match es with
  | [] => Some w
  | e :: es => w ← rx_exec e w; rx_run es w
  end.
End Relaxed.

(** ** Loops and counts *)

Section Loops.
Context {A : Type}.

Lemma for_each_ind (I : nat -> A -> Prop) f n : forall k a a', I k a ->
  (forall j b b', (k <= j < k + n)%nat -> I j b -> f j b = Some b' -> I (S j) b') ->
  for_each f (seq k n) a = Some a' -> I (k + n)%nat a'.
Proof using Type.
  induction n as [|n IH]; intros k a a' Ha Hf Hx; cbn [seq for_each] in Hx.
  - injection Hx as <-. by rewrite Nat.add_0_r.
  - destruct (f k a) as [a1|] eqn:E; [|done]. cbn [mbind option_bind] in Hx. rewrite <- Nat.add_succ_comm.
    refine (IH (S k) a1 a' _ _ Hx); [eapply Hf; [|exact Ha|exact E]; lia|]. intros j b b' Hj. apply Hf. lia.
Qed.

(** A loop over all servers. *)
Lemma for_each_all (I : nat -> A -> Prop) f n a a' : I 0%nat a -> (forall j b b', (j < n)%nat -> I j b -> f j b = Some b' -> I (S j) b') ->
  for_each f (seq 0 n) a = Some a' -> I n a'.
Proof using Type. intros Ha Hf Hx. apply (for_each_ind I f n 0 a a' Ha); [|done]. intros j b b' Hj. apply Hf. lia. Qed.
End Loops.

(** At least [m] of the servers below [n] satisfy [P]. *)
Definition at_least (m : Z) (n : nat) (P : nat -> Prop) : Prop :=
  exists C, NoDup C /\ m <= Z.of_nat (length C) /\ Forall (fun i => (i < n)%nat /\ P i) C.

Lemma at_least_0 n P : at_least 0 n P.
Proof. exists []. split_and!; [constructor|done|done]. Qed.

Lemma at_least_S m n P (b : bool) : at_least m n P -> (b = true -> P n) -> at_least (m + b2 b) (S n) P.
Proof.
  intros (C & H1 & H2 & H3) Hb. assert (H3' : Forall (fun i => (i < S n)%nat /\ P i) C) by (eapply Forall_impl; [exact H3|intros i [Hi HP]; split; [lia|done]]).
  destruct b; cbn [b2].
  - exists (n :: C). split_and!; [|cbn; lia|constructor; [split; [lia|by apply Hb]|done]].
    constructor; [|done]. intros Hin. rewrite Forall_forall in H3. apply H3 in Hin. lia.
  - exists C. split_and!; [done|lia|done].
Qed.

Lemma at_least_mono m m' n (P P' : nat -> Prop) : m' <= m -> (forall i, (i < n)%nat -> P i -> P' i) -> at_least m n P -> at_least m' n P'.
Proof.
  intros Hm HP (C & H1 & H2 & H3). exists C. split_and!; [done|lia|]. eapply Forall_impl; [exact H3|]. intros i [Hi Hp]. split; [done|by apply HP].
Qed.

(** Majorities meet. *)
Lemma at_least_meet m n P Q : Z.of_nat n < 2 * m -> at_least m n P -> at_least m n Q -> exists i, (i < n)%nat /\ P i /\ Q i.
Proof.
  intros Hm (C & C1 & C2 & C3) (D & D1 & D2 & D3). rewrite Forall_forall in C3, D3.
  destruct (decide (Exists (fun i => i ∈ D) C)) as [He|He].
  - apply Exists_exists in He as (i & Hc & Hd). exists i. destruct (C3 i Hc), (D3 i Hd). by split_and!.
  - exfalso. assert (Hs : C ++ D ⊆+ seq 0 n).
    { apply NoDup_submseteq.
      - apply NoDup_app. split_and!; [done| |done]. intros i Hc Hd. apply He, Exists_exists. by exists i.
      - intros i Hi. apply elem_of_seq. apply elem_of_app in Hi as [Hi|Hi]; [destruct (C3 i Hi)|destruct (D3 i Hi)]; lia. }
    apply submseteq_length in Hs. rewrite length_app, length_seq in Hs. lia.
Qed.

(** ** What a step of one server's future touches *)

(** The entry a request writes. *)
Definition rq_entry (rq : request) : option nat :=
  match rq with
  | RqReadKv _ i | RqReadTsps _ i _ | RqCasNotif _ i | RqReadLog _ i | RqCasTsp _ _ _ _ i | RqReadNotif _ i => Some i
  | RqWriteLog _ _ | RqWriteKv _ _ => None
  end.

(** The requests of server [i] write its entry only. *)
Definition own_request (i : nat) (rq : request) : Prop := forall e, rq_entry rq = Some e -> e = S i.

Lemma read_entry_nat i : read_entry (Z.of_nat i) = S i.
Proof. unfold read_entry. by rewrite Nat2Z.id. Qed.

Lemma serve_other rq sv es sv' es' i j : serve rq sv es = Some (sv', es') -> own_request i rq -> j <> S i -> es' !! j = es !! j.
Proof.
  intros Hx Ho Hj. destruct rq as [key e|key e b|log e|log e|log e|key slot x n e|key e|log e]; cbn [serve] in Hx;
    repeat (match type of Hx with context [?m ≫= _] => destruct m eqn:?; [|done]; cbn [mbind option_bind] in Hx end);
    injection Hx as <- <-; try done; rewrite (Ho e eq_refl); by rewrite list_lookup_insert_ne.
Qed.

(** [c'] is [c] after steps of the future of server [i], which touch the
    words of entry [e] only. *)
Record stepped (i e : nat) (c c' : client) : Prop := {
  st_tsp : (fun e => in_place_tsp (le_kv e)) <$> cl_entries c' = (fun e => in_place_tsp (le_kv e)) <$> cl_entries c;
  st_other : forall j, j <> e -> cl_entries c' !! j = cl_entries c !! j;
  st_write : mr_write (cl_reg c') = mr_write (cl_reg c);
  st_kv : mr_remote_kv (cl_reg c') = mr_remote_kv (cl_reg c);
  st_dead : dead_servers (cl_clock c') = dead_servers (cl_clock c);
  st_sent : exists rqs, cl_sent c' = cl_sent c ++ rqs /\ Forall (own_request i) rqs;
  st_max : mr_max (cl_reg c) <= mr_max (cl_reg c');
  st_idx : cl_idx c' = cl_idx c;
}.

Global Instance stepped_refl i e : Reflexive (stepped i e).
Proof. intros c. split; try done. exists []. by rewrite app_nil_r. Qed.

Global Instance stepped_trans i e : Transitive (stepped i e).
Proof.
  intros c1 c2 c3 [A1 A2 A3 A4 A5 (r1 & A6 & A6') A7 A8] [B1 B2 B3 B4 B5 (r2 & B6 & B6') B7 B8]. split; try congruence; try lia.
  - intros j Hj. by rewrite B2, A2.
  - exists (r1 ++ r2). rewrite B6, A6, app_assoc. split; [done|by apply Forall_app].
Qed.

Section Stepped.
Context (L : layout) (i e : nat) (hash : Z -> list Z -> list Z).
Local Abbreviation si := (Z.of_nat i).

Lemma step_requests_own s c rqs : step_requests L si s c = Some rqs -> Forall (own_request i) rqs.
Proof using Type.
  unfold step_requests. intros Hx.
  assert (Hcas : forall cas, cas_tsp L si c = Some cas -> own_request i cas).
  { unfold cas_tsp. destruct (my_slot L c); [|done]. destruct (write_tsp c); [|done]. intros cas [= <-]. intros ? [= <-]. apply read_entry_nat. }
  destruct s; try (destruct (cas_tsp L si c) as [cas|]; [|done]; specialize (Hcas cas eq_refl)); cbn [mbind option_bind] in Hx; injection Hx as <-;
    unfold when; repeat match goal with |- context [if ?b then _ else _] => destruct b end; cbn [app];
    repeat apply Forall_cons_2; try apply Forall_nil_2; try exact Hcas; intros ? [= <-]; apply read_entry_nat.
Qed.

Lemma transitionTo_stepped s c c' : transitionTo L si s c = Some c' -> stepped i e c c'.
Proof using Type.
  unfold transitionTo. destruct (write_tsp c) as [tsp|]; [|done]. cbn [mbind option_bind]. case_bool_decide.
  { intros [= <-]. split; try done. exists []. by rewrite app_nil_r. }
  destruct (count_step _ _) as [c1|] eqn:Hc; [|done]. cbn [mbind option_bind]. apply count_step_same in Hc as [n ->].
  destruct (step_requests _ _ _ _) as [rqs|] eqn:Hr; [|done]. intros [= <-]. apply step_requests_own in Hr.
  split; try done. by exists rqs.
Qed.

Lemma see_stepped now v c : stepped i e c (see now v c).
Proof using Type.
  pose proof (see_same now v c) as (S1 & S2 & S3 & S4 & S5 & S6 & S7 & S8 & S9 & S10 & S11). pose proof (mr_see_max now v c).
  split; intros; rewrite ?S1; try done; try congruence; [|lia]. exists []. by rewrite app_nil_r.
Qed.

Lemma set_last_stepped l c : stepped i e c (set_last l c).
Proof using Type. split; try done. exists []. by rewrite app_nil_r. Qed.

Lemma see_read_stepped now mine c c' : see_read L si now mine c = Some c' -> stepped i e c c'.
Proof using Type.
  unfold see_read. destruct (_ !! _); [|done]. cbn [mbind option_bind]. destruct (maxTspOf _ _); [|done]. cbn [mbind option_bind].
  destruct mine; [|intros [= <-]; apply see_stepped]. destruct (myTspOf _ _ _); [|done]. intros [= <-].
  etrans; [apply see_stepped|apply set_last_stepped].
Qed.

Lemma see_swapped_stepped now c c' : mr_ongoing_entry (cl_reg c) = e -> see_swapped L si now c = Some c' -> stepped i e c c'.
Proof using Type.
  intros He. unfold see_swapped. destruct (cl_entries c !! read_entry si) as [re|]; [|done]. cbn [mbind option_bind].
  destruct (cl_entries c !! mr_ongoing_entry _) as [we|] eqn:Hwe; [|done]. cbn [mbind option_bind].
  destruct (my_slot L c) as [slot|]; [|done]. cbn [mbind option_bind]. destruct (_ <? _)%nat; [|done]. intros [= <-].
  etrans; [|etrans; [apply set_last_stepped|apply see_stepped]]. rewrite He in *.
  split; try done; cbn; [by eapply fmap_update|intros j Hj; by rewrite list_lookup_insert_ne|exists []; by rewrite app_nil_r].
Qed.

Lemma update_seen_stepped now c c' : (is_write_step (mr_step (cl_reg c)) = true -> mr_ongoing_entry (cl_reg c) = e) ->
  update_seen L si now c = Some c' -> stepped i e c c'.
Proof using Type.
  intros He. unfold update_seen. destruct (negb _); [intros [= <-]; reflexivity|]. destruct (is_write_step _).
  - destruct (see_swapped _ _ _ _) as [c1|] eqn:Hs; [|done]. cbn [mbind option_bind]. apply see_swapped_stepped in Hs; [|by apply He].
    destruct (_ || _); [by intros [= <-]|]. intros Hr%see_read_stepped. by etrans.
  - destruct (is_read_step _); [apply see_read_stepped|intros [= <-]; reflexivity].
Qed.

(** Updates of the future that matter to none of the fields. *)
Lemma reg_stepped r c : mr_write r = mr_write (cl_reg c) -> mr_remote_kv r = mr_remote_kv (cl_reg c) -> mr_max r = mr_max (cl_reg c) ->
  stepped i e c (with_reg r c).
Proof using Type. intros H1 H2 H3. split; cbn; try done; [exists []; by rewrite app_nil_r|lia]. Qed.

Lemma advance_stepped c c' : advance L si hash c = Some c' -> stepped i e c c'.
Proof using Type.
  unfold advance. intros Hx.
  destruct (mr_step (cl_reg c)); try (by eapply transitionTo_stepped); try (injection Hx as <-; reflexivity).
  - destruct (_ =? 0); [by eapply transitionTo_stepped|]. destruct (_ !! _); [|done]. cbn [mbind option_bind] in Hx.
    destruct (read_in_place _ _ _); [by eapply transitionTo_stepped|]. destruct (log_of _ _) as [log|]; [|done]. cbn [mbind option_bind] in Hx.
    apply transitionTo_stepped in Hx. etrans; [|exact Hx]. by apply reg_stepped.
  - destruct (write_tsp c); [|done]. cbn [mbind option_bind] in Hx. destruct (_ <? _); by eapply transitionTo_stepped.
  - destruct (write_tsp c); [|done]. cbn [mbind option_bind] in Hx. destruct (_ <? _); by eapply transitionTo_stepped.
Qed.

Lemma tryStepForward_stepped now c b c' : (is_write_step (mr_step (cl_reg c)) = true -> mr_ongoing_entry (cl_reg c) = e) ->
  tryStepForward L si hash now c = Some (b, c') -> stepped i e c c'.
Proof using Type.
  intros He. unfold tryStepForward. destruct (isDead _ _); [intros [= <- <-]; by apply reg_stepped|].
  destruct (isLazy c); [intros [= <- <-]; reflexivity|]. destruct (_ <? _); [intros [= <- <-]; reflexivity|].
  destruct (update_seen _ _ _ _) as [c1|] eqn:Hu; [|done]. cbn [mbind option_bind]. apply update_seen_stepped in Hu; [|done].
  destruct (mr_next (cl_reg c1)) as [s|].
  - destruct (transitionTo _ _ _ _) as [c2|] eqn:Ht; [|done]. intros [= <- <-]. apply transitionTo_stepped in Ht.
    etrans; [exact Hu|]. etrans; [|exact Ht]. by apply reg_stepped.
  - case_bool_decide; [intros [= <- <-]; etrans; [exact Hu|]; by apply reg_stepped|].
    destruct (advance _ _ _ _) as [c2|] eqn:Ha; [|done]. intros [= <- <-]. apply advance_stepped in Ha.
    etrans; [exact Hu|]. etrans; [|exact Ha]. by apply reg_stepped.
Qed.
End Stepped.

(** ** What one server's future sees of the others *)

(** What a read or a swap brings into an entry. *)
Definition brought (e : LogEntry) : Z * list Z := (from_tsp e, tsps e).

(** The client of server [i] sees the same in [c'] as in [c]. *)
Record same_view (i : nat) (c c' : client) : Prop := {
  sv_reg : cl_reg c' = cl_reg c;
  sv_sent : cl_sent c' = cl_sent c;
  sv_completed : cl_completed c' = cl_completed c;
  sv_tsp : write_tsp c' = write_tsp c;
  sv_brought : brought <$> cl_entries c' !! S i = brought <$> cl_entries c !! S i;
  sv_dead : dead_servers (cl_clock c') = dead_servers (cl_clock c);
}.

Lemma inv_view L i sv c c' : same_view i c c' -> inv L (Z.of_nat i) sv c -> inv L (Z.of_nat i) sv c'.
Proof.
  intros [V1 V2 V3 V4 V5 V6] [[B1 B2 B3 B4 B5 B6] Hp].
  assert (Hb : forall e, cl_entries c !! S i = Some e -> exists e', cl_entries c' !! S i = Some e' /\ from_tsp e' = from_tsp e /\ tsps e' = tsps e).
  { intros e He. rewrite He in V5. destruct (cl_entries c' !! S i) as [e'|]; [|done]. exists e'. injection V5 as H1 H2. by split_and!. }
  split; [split; rewrite ?V1, ?V2, ?V3; done|].
  destruct Hp as [[R1 R2 R3 R4]|[[A1 A2 A3 A4 A5 A6 A7]|[H1 H2]]]; [left|right; left|right; right].
  - split; rewrite ?V1, ?V2, ?V3; try done. rewrite V4. exact R4.
  - split; rewrite ?V1, ?V2; try done.
    + eapply Forall_impl; [exact A5|]. intros rq Hrq. destruct rq; cbn in *; rewrite ?V1, ?V4; exact Hrq.
    + intros Hw Hc. destruct (A6 Hw Hc) as (re & tsp & E1 & E2 & E3 & E4). rewrite read_entry_nat in E1.
      destruct (Hb re E1) as (re' & F1 & F2 & F3). exists re', tsp. rewrite read_entry_nat, V1, V4, F2. by split_and!.
    + intros Hw Hc. destruct (A7 Hw Hc) as (re & E1 & E2). rewrite read_entry_nat in E1.
      destruct (Hb re E1) as (re' & F1 & F2 & F3). exists re'. rewrite read_entry_nat, V1, F3. by split.
  - unfold isDead in *. rewrite V1, V6. by split.
Qed.

Lemma writing_view i c c' : same_view i c c' -> writing c -> writing c'.
Proof. intros [V1 V2 V3 V4 V5 V6] (tsp & H1 & H2). exists tsp. by rewrite V4, V1. Qed.

Lemma inv_progress L si sv b c : inv L si sv c -> inv L si sv (with_reg (set_progress b (cl_reg c)) c).
Proof.
  intros [[B1 B2 B3 B4 B5 B6] Hp]. split; [by split|].
  destruct Hp as [[R1 R2 R3 R4]|[[A1 A2 A3 A4 A5 A6 A7]|Hp]]; [left; by split|right; left; by split|by right; right].
Qed.

(** Taking the future of a server out and putting it back. *)
Lemma focus_inv i x c : focus i x = Some c -> exists p, rx_ports x !! i = Some p /\ c = port_client p x.
Proof. unfold focus. destruct (rx_ports x !! i) as [p|]; [|done]. intros [= <-]. by exists p. Qed.

Lemma port_client_blur i c x : cl_idx c = rx_idx x -> port_client (client_port c) (blur i c x) = c.
Proof. intros Hi. destruct c. cbn in *. by subst. Qed.

Lemma blur_lookup i j c x p : rx_ports (blur i c x) !! j = Some p ->
  (j = i /\ p = client_port c) \/ (j <> i /\ rx_ports x !! j = Some p).
Proof. intros Hp. apply list_lookup_insert_Some in Hp as [(-> & -> & _)|[Hne Hp]]; [by left|right; by split]. Qed.

(** Words of the shared entries after a step of server [i]'s future. *)
Record shared_after (i : nat) (c c' : client) : Prop := {
  sa_zero : (fun e => in_place_tsp (le_kv e)) <$> cl_entries c' !! 0%nat = (fun e => in_place_tsp (le_kv e)) <$> cl_entries c !! 0%nat;
  sa_other : forall j, j <> i -> brought <$> cl_entries c' !! S j = brought <$> cl_entries c !! S j;
  sa_dead : dead_servers (cl_clock c') = dead_servers (cl_clock c);
  sa_idx : cl_idx c' = cl_idx c;
}.

Lemma stepped_shared i c c' : stepped i 0 c c' -> shared_after i c c'.
Proof.
  intros [S1 S2 S3 S4 S5 S6 S7 S8]. split; try done.
  - by rewrite <- !list_lookup_fmap, S1.
  - intros j _. by rewrite S2.
Qed.

Lemma nic_exec_same sv c sv' c' : nic_exec sv c = Some (sv', c') ->
  cl_reg c' = cl_reg c /\ (forall P, Forall P (cl_sent c) -> Forall P (cl_sent c')).
Proof.
  unfold nic_exec. destruct (cl_sent c) as [|rq sent] eqn:Hs; [intros [= <- <-]; rewrite Hs; by split|].
  destruct (serve _ _ _) as [[sv1 es]|]; [|done]. intros [= <- <-]. split; [done|]. intros P. by intros [_ H]%Forall_cons.
Qed.

Lemma served_shared i sv c sv' c' : Forall (own_request i) (cl_sent c) -> nic_exec sv c = Some (sv', c') -> shared_after i c c'.
Proof.
  intros Ho Hx. unfold nic_exec in Hx. destruct (cl_sent c) as [|rq sent]; [by injection Hx as <- <-|].
  apply Forall_cons in Ho as [Ho _]. destruct (serve rq sv (cl_entries c)) as [[sv1 es]|] eqn:Hs; [|done].
  cbn [mbind option_bind] in Hx. injection Hx as <- <-. split; try done; cbn.
  - by rewrite (serve_other _ _ _ _ _ _ _ Hs Ho).
  - intros j Hj. rewrite (serve_other _ _ _ _ _ _ _ Hs Ho); [done|congruence].
Qed.

Lemma write_tsp_zero c c' : cl_reg c' = cl_reg c -> mr_write (cl_reg c) = 0%nat ->
  (fun e => in_place_tsp (le_kv e)) <$> cl_entries c' !! 0%nat = (fun e => in_place_tsp (le_kv e)) <$> cl_entries c !! 0%nat ->
  write_tsp c' = write_tsp c.
Proof.
  intros Hr Hw He. unfold write_tsp. rewrite Hr, Hw. destruct (cl_entries c' !! 0%nat), (cl_entries c !! 0%nat); cbn in *; congruence.
Qed.

(** ** Writes *)

(** What a server's future is doing: at rest before the write; writing entry 0;
    told to stop. *)
Inductive mode := MRest | MWrite | MOver.

Definition mode_ok (m : mode) (c : client) : Prop :=
  match m with
  | MRest => mr_step (cl_reg c) = Done
  | MWrite => mr_write (cl_reg c) = 0%nat /\ writing c
  | MOver => mr_write (cl_reg c) = 0%nat
  end.

Section Write.
Context (L : layout) (Htsps : 0 <= num_tsp L) (key : nat) (t : Z).

(** The future of server [i], in mode [m]. *)
Record port_ok (m : mode) (i : nat) (sv : server) (c : client) : Prop := {
  po_inv : inv L (Z.of_nat i) sv c;
  po_own : Forall (own_request i) (cl_sent c);
  po_kv : mr_remote_kv (cl_reg c) = key;
  po_mode : mode_ok m c;
}.

Lemma port_ok_view m i sv c c' : same_view i c c' -> port_ok m i sv c -> port_ok m i sv c'.
Proof using Type.
  intros Hv [P1 P2 P3 P4]. pose proof Hv as [V1 V2 V3 V4 V5 V6].
  split; [by eapply inv_view|by rewrite V2|by rewrite V1|]. destruct m; cbn in *; rewrite ?V1; [done| |done].
  destruct P4 as [P4 P5]. split; [done|by eapply writing_view].
Qed.

Lemma port_ok_raises m i sv sv' c : raises sv sv' -> port_ok m i sv c -> port_ok m i sv' c.
Proof using Type. intros Hr [P1 P2 P3 P4]. split; try done. by eapply inv_raises. Qed.

Lemma port_ok_progress m i sv b c : port_ok m i sv c -> port_ok m i sv (with_reg (set_progress b (cl_reg c)) c).
Proof using Type. intros [P1 P2 P3 P4]. split; try done; [by apply inv_progress]. Qed.

(** Every server's future, each in its mode, and the timestamp to write. *)
Record write_inv (m : nat -> mode) (svs : list server) (x : relaxed) : Prop := {
  wi_len : length (rx_ports x) = length svs;
  wi_tsp : (fun e => in_place_tsp (le_kv e)) <$> rx_entries x !! 0%nat = Some t;
  wi_port : forall i p, rx_ports x !! i = Some p -> exists sv, svs !! i = Some sv /\ port_ok (m i) i sv (port_client p x);
}.

Lemma write_inv_raises m svs svs' x : Forall2 raises svs svs' -> write_inv m svs x -> write_inv m svs' x.
Proof using Type.
  intros Hr [W1 W2 W3]. split; [by rewrite W1; eapply Forall2_length|done|]. intros i p Hp. destruct (W3 i p Hp) as (sv & Hsv & Hok).
  destruct (Forall2_lookup_l _ _ _ _ _ Hr Hsv) as (sv' & Hsv' & Hr'). exists sv'. split; [done|by eapply port_ok_raises].
Qed.

(** One server's future changes: the others see nothing of it. *)
Lemma write_inv_blur (m m' : nat -> mode) svs x i p sv sv' c' : write_inv m svs x -> rx_ports x !! i = Some p -> svs !! i = Some sv ->
  (forall j, j <> i -> m' j = m j) ->
  shared_after i (port_client p x) c' -> ((forall j, m j <> MRest) \/ cl_entries c' = rx_entries x) -> port_ok (m' i) i sv' c' ->
  write_inv m' (<[i := sv']> svs) (blur i c' x).
Proof using Type.
  intros [W1 W2 W3] Hp Hsv Hm [H1 H2 H3 H4] Hr Hok. split.
  - cbn. by rewrite !length_insert.
  - cbn in *. by rewrite H1.
  - intros j q Hq. apply blur_lookup in Hq as [[-> ->]|[Hj Hq]].
    + exists sv'. split; [apply list_lookup_insert_eq; by eapply lookup_lt_Some|]. by rewrite port_client_blur.
    + destruct (W3 j q Hq) as (svj & Hsvj & Hokj). exists svj. split; [by rewrite list_lookup_insert_ne|]. rewrite Hm by done.
      eapply port_ok_view; [|exact Hokj]. split; try done; try (by apply H2).
      destruct Hr as [Hr|Hr]; [|unfold write_tsp; cbn; by rewrite Hr].
      apply write_tsp_zero; [done| |exact H1]. specialize (Hr j). destruct Hokj as [_ _ _ Hmode]. destruct (m j); cbn in Hmode; tauto.
Qed.

Lemma write_inv_reset m svs x : write_inv m svs x -> write_inv m svs (resetProgressMarkers x).
Proof using Type.
  intros [W1 W2 W3]. split; [cbn; by rewrite length_fmap|done|]. intros i q Hq. cbn in Hq. rewrite list_lookup_fmap in Hq.
  apply fmap_Some in Hq as (p & Hp & ->). destruct (W3 i p Hp) as (sv & Hsv & Hok). exists sv. split; [done|].
  by apply port_ok_progress with (b := false) in Hok.
Qed.

Lemma write_inv_rx m svs x s v e : write_inv m svs x -> write_inv m svs (with_rx s v e x).
Proof using Type. intros [W1 W2 W3]. by split. Qed.

(** Server [i] holds the word, or one as large but for the verified flag. *)
Definition held (svs : list server) (i : nat) : Prop := exists sv, svs !! i = Some sv /\ holds sv key t.
Definition held_or_verified (svs : list server) (i : nat) : Prop := exists sv m, svs !! i = Some sv /\ holds sv key m /\ t <= Z.lor m 1.

Lemma held_raises svs svs' i : Forall2 raises svs svs' -> held svs i -> held svs' i.
Proof using Type.
  intros Hr (sv & Hsv & Hh). destruct (Forall2_lookup_l _ _ _ _ _ Hr Hsv) as (sv' & Hsv' & Hr'). exists sv'.
  split; [done|by eapply holds_raises].
Qed.

Lemma held_or_verified_raises svs svs' i : Forall2 raises svs svs' -> held_or_verified svs i -> held_or_verified svs' i.
Proof using Type.
  intros Hr (sv & m & Hsv & Hh & Hm). destruct (Forall2_lookup_l _ _ _ _ _ Hr Hsv) as (sv' & Hsv' & Hr'). exists sv', m.
  split_and!; [done|by eapply holds_raises|done].
Qed.

Lemma held_verified svs i : held svs i -> held_or_verified svs i.
Proof using Type. intros (sv & Hsv & Hh). exists sv, t. split_and!; [done|done|apply lor_1_le]. Qed.

(** What the loop counts is held. *)
Lemma writing_held m i sv c : port_ok m i sv c -> writing c -> write_tsp c = Some t -> isDone c = true -> holds sv key t.
Proof using Type.
  intros [[[_ Hmax _ _ _ _] _] _ Hkv _] (tsp & Htsp & Hw) Ht Hd. rewrite Ht in Htsp. injection Htsp as <-. rewrite Hkv in Hmax.
  unfold isDone in Hd. apply andb_prop in Hd as [Hd1 Hd2]. apply bool_decide_eq_true in Hd1, Hd2.
  eapply mr_holds_le; [|exact Hmax]. rewrite Hd1 in Hw. destruct Hd2 as [Hd2|Hd2]; by rewrite Hd2 in Hw.
Qed.

(** *** Stepping *)

(** What taking the maximum changes: timestamps of entries to read into. *)
Record taken (x x' : relaxed) : Prop := {
  tk_ports : rx_ports x' = rx_ports x;
  tk_step : rx_step x' = rx_step x;
  tk_max : rx_max x <= rx_max x';
  tk_zero : rx_entries x' !! 0%nat = rx_entries x !! 0%nat;
  tk_brought : forall j, brought <$> rx_entries x' !! j = brought <$> rx_entries x !! j;
  tk_clock : rx_clock x' = rx_clock x;
  tk_idx : rx_idx x' = rx_idx x;
}.

Lemma set_entry_tsp_brought i v es es' j : set_entry_tsp i v es = Some es' -> brought <$> es' !! j = brought <$> es !! j.
Proof using Type.
  unfold set_entry_tsp. destruct (es !! i) as [e|] eqn:He; [|done]. intros [= <-].
  destruct (decide (i = j)) as [->|Hij]; [|by rewrite list_lookup_insert_ne].
  by rewrite list_lookup_insert_eq, He by (by eapply lookup_lt_Some).
Qed.

Lemma take_max_taken i c x x' : take_max i c x = Some x' -> taken x x' /\ mr_max (cl_reg c) <= rx_max x'.
Proof using Type.
  unfold take_max. destruct (_ || _) eqn:Hb.
  - destruct (set_entry_tsp _ _ _) as [es|] eqn:Hs; [|done]. intros [= <-]. cbn. split; [|done].
    split; cbn; try done; [|unfold set_entry_tsp in Hs; destruct (_ !! _); [|done]; injection Hs as <-; by rewrite list_lookup_insert_ne|intros j; by eapply set_entry_tsp_brought].
    apply orb_prop in Hb as [Hb|Hb]; [apply Z.ltb_lt in Hb; lia|]. apply andb_prop in Hb as [Hb _]. apply Z.eqb_eq in Hb. lia.
  - intros [= <-]. apply orb_false_iff in Hb as [Hb _]. apply Z.ltb_ge in Hb. by split.
Qed.

Lemma write_inv_taken m svs x x' : (forall j, m j <> MRest) -> taken x x' -> write_inv m svs x -> write_inv m svs x'.
Proof using Type.
  intros Hm [T1 T2 T3 T4 T5 T6 T7] [W1 W2 W3]. split; [by rewrite T1|by rewrite T4|]. intros i p Hp. rewrite T1 in Hp.
  destruct (W3 i p Hp) as (sv & Hsv & Hok). exists sv. split; [done|]. eapply port_ok_view; [|exact Hok]. split; cbn; try done; [|by rewrite T6].
  apply write_tsp_zero; [done| |cbn; by rewrite T4]. specialize (Hm i). destruct Hok as [_ _ _ Hmode]. destruct (m i); cbn in Hmode; tauto.
Qed.

Lemma port_ok_tsp x i p sv : (fun e => in_place_tsp (le_kv e)) <$> rx_entries x !! 0%nat = Some t ->
  port_ok MWrite i sv (port_client p x) -> write_tsp (port_client p x) = Some t.
Proof using Type.
  intros Ht [_ _ _ [Hw _]]. unfold write_tsp. rewrite Hw. cbn. by destruct (rx_entries x !! 0%nat).
Qed.

Context (hash : Z -> list Z -> list Z).

Lemma port_ok_step now i sv c b c' : port_ok MWrite i sv c -> tryStepForward L (Z.of_nat i) hash now c = Some (b, c') ->
  port_ok MWrite i sv c' /\ stepped i 0 c c'.
Proof using Htsps.
  intros [P1 P2 P3 [P4 P5]] Hx. assert (Hs : stepped i 0 c c').
  { eapply tryStepForward_stepped; [|exact Hx]. intros Hw. destruct P1 as [_ [Hr|[Ha|[Hd _]]]].
    - by rewrite (r_step _ Hr) in Hw.
    - by rewrite (a_entry _ _ _ _ Ha).
    - by rewrite Hd in Hw. }
  split; [|done]. destruct Hs as [S1 S2 S3 S4 S5 (rqs & S6 & S6') S7 S8].
  destruct (step_inv L (Z.of_nat i) Htsps hash sv now c b c' P1 Hx) as [Hi Hw].
  split; [done|rewrite S6; by apply Forall_app|congruence|]. split; [congruence|by apply Hw].
Qed.

(** The servers a step may count as ready. *)
Definition readied (s : RxStep) (svs : list server) (i : nat) : Prop :=
  if bool_decide (s = RxWrite) then held_or_verified svs i else held svs i.

Lemma port_ready s svs i sv c r : svs !! i = Some sv -> isDead (Z.of_nat i) c = false -> port_ok MWrite i sv c -> write_tsp c = Some t -> is_ready s c = Some r ->
  r = true -> readied s svs i.
Proof using Type.
  intros Hsv Hlive Hok Ht Hr ->. pose proof Hok as [[[_ Hmax _ _ _ _] Hp] _ Hkv [_ Hw]]. unfold readied.
  assert (Hd : isDone c = true -> held svs i) by (intros Hd; exists sv; split; [done|by eapply writing_held]).
  unfold is_ready in Hr. destruct (isDone c) eqn:Hdone.
  { case_bool_decide; [by apply held_verified, Hd|by apply Hd]. }
  case_bool_decide; [|done]. unfold isLinearized in Hr. rewrite Ht in Hr. cbn [mbind option_bind] in Hr. injection Hr as Hr.
  exists sv, (mr_max (cl_reg c)). rewrite Hkv in Hmax. split_and!; [done|done|].
  destruct Hw as (tsp & Htsp & Hw). rewrite Ht in Htsp. injection Htsp as <-. pose proof (lor_1_le (mr_max (cl_reg c))) as Hle.
  apply orb_prop in Hr as [Hr|Hr]; [|by apply Z.leb_le in Hr]. apply orb_prop in Hr as [Hr|Hr]; apply bool_decide_eq_true in Hr.
  - destruct Hr as [H1 H2]. rewrite H1, H2 in Hw. lia.
  - rewrite Hr in Hw. destruct (mr_step (cl_reg c)) eqn:Hs; try (by destruct Hw); [|lia].
    destruct Hp as [Hp|[Hp|[_ Hp]]]; [by rewrite (r_step _ Hp) in Hs|by destruct (a_step _ _ _ _ Hp)|congruence].
Qed.

Local Abbreviation writers := (fun _ : nat => MWrite).

Lemma visit_ok now svs i x ta x' ta' : write_inv writers svs x -> visit L hash now i (x, ta) = Some (x', ta') ->
  write_inv writers svs x' /\ rx_step x' = rx_step x /\
  exists bd br : bool, ta_done ta' = ta_done ta + b2 bd /\ ta_ready ta' = ta_ready ta + b2 br /\
    (bd = true -> held svs i) /\ (br = true -> readied (rx_step x) svs i).
Proof using Htsps.
  intros HW Hx. unfold visit in Hx. destruct (focus i x) as [c|] eqn:Hc; [|done]. cbn [mbind option_bind] in Hx.
  apply focus_inv in Hc as (p & Hp & ->). destruct (isLazyOrDead i (port_client p x)) eqn:Hlive.
  { injection Hx as <- <-. split_and!; [done|done|]. exists false, false. cbn. split_and!; try lia; done. }
  destruct (tryStepForward _ _ _ _ _) as [[b c']|] eqn:Hs; [|done]. cbn [mbind option_bind] in Hx.
  destruct (is_ready _ _) as [r|] eqn:Hr; [|done]. cbn [mbind option_bind] in Hx.
  destruct (take_max _ _ _) as [x1|] eqn:Ht; [|done]. cbn [mbind option_bind] in Hx. injection Hx as <- <-.
  destruct (wi_port _ _ _ HW i p Hp) as (sv & Hsv & Hok). destruct (port_ok_step _ _ _ _ _ _ Hok Hs) as [Hok' Hst].
  assert (HW' : write_inv writers svs (blur i c' x)).
  { rewrite <- (list_insert_id svs i sv) by done. eapply write_inv_blur; [exact HW|exact Hp|exact Hsv|done|by apply stepped_shared| |done].
    by left. }
  destruct (take_max_taken _ _ _ _ Ht) as [Htk _]. split_and!; [by apply (write_inv_taken writers svs _ _ ltac:(done) Htk)|exact (tk_step _ _ Htk)|].
  assert (Htsp : write_tsp c' = Some t).
  { rewrite <- (port_client_blur i c' x) by (apply Hst). eapply port_ok_tsp; [apply HW'|]. rewrite port_client_blur by apply Hst. exact Hok'. }
  exists (isDone c'), r. split_and!; [done|done| |].
  - intros Hd. exists sv. split; [done|]. eapply writing_held; [exact Hok'|apply Hok'|done|done].
  - intros Hrt. eapply port_ready; [exact Hsv| |exact Hok'|exact Htsp|exact Hr|exact Hrt].
    apply orb_false_iff in Hlive as [_ Hd]. unfold isDead in *. by rewrite (st_dead _ _ _ _ Hst).
Qed.

Lemma visit_all_ok now svs x x' ta : write_inv writers svs x -> visit_all L hash now x = Some (x', ta) ->
  write_inv writers svs x' /\ rx_step x' = rx_step x /\
  at_least (ta_done ta) (length svs) (held svs) /\ at_least (ta_ready ta) (length svs) (readied (rx_step x) svs).
Proof using Htsps.
  intros HW Hx. unfold visit_all in Hx. rewrite (wi_len _ _ _ HW) in Hx.
  refine (for_each_all (fun k xt => write_inv writers svs xt.1 /\ rx_step xt.1 = rx_step x /\ at_least (ta_done xt.2) k (held svs) /\
    at_least (ta_ready xt.2) k (readied (rx_step x) svs)) _ _ _ (x', ta) _ _ Hx).
  - split_and!; [done|done|apply at_least_0..].
  - intros j [y ty] [z tz] _ (I1 & I2 & I3 & I4) Hv. cbn [fst snd] in *.
    destruct (visit_ok _ _ _ _ _ _ _ I1 Hv) as (J1 & J2 & bd & br & J3 & J4 & J5 & J6). rewrite I2 in J2, J6.
    rewrite J3, J4. split_and!; [done|done|by apply at_least_S..].
Qed.

(** An operation on every server: the futures go from one mode to another,
    one after the other, and the entries stay. *)
Lemma each_port_ok m1 m2 f svs x x' : write_inv (fun _ => m1) svs x ->
  (forall i sv c c', port_ok m1 i sv c -> f c = Some c' ->
    port_ok m2 i sv c' /\ cl_entries c' = cl_entries c /\ cl_clock c' = cl_clock c /\ cl_idx c' = cl_idx c) ->
  each_port f x = Some x' -> write_inv (fun _ => m2) svs x' /\ rx_step x' = rx_step x.
Proof using Type.
  intros HW Hf Hx. unfold each_port in Hx. pose proof (wi_len _ _ _ HW) as Hlen.
  assert (HI : write_inv (fun j => if decide (j < length (rx_ports x))%nat then m2 else m1) svs x' /\ rx_step x' = rx_step x /\
    rx_entries x' = rx_entries x).
  { refine (for_each_all (fun k y => write_inv (fun j => if decide (j < k)%nat then m2 else m1) svs y /\ rx_step y = rx_step x /\
      rx_entries y = rx_entries x) _ _ _ _ _ _ Hx).
    - split_and!; [|done|done]. destruct HW as [W1 W2 W3]. split; [done|done|]. intros i p Hp. by apply W3.
    - intros j y z Hj (I1 & I2 & I3) Hz. unfold on_port in Hz. destruct (focus j y) as [c|] eqn:Hc; [|done]. cbn [mbind option_bind] in Hz.
      apply focus_inv in Hc as (p & Hp & ->). destruct (f _) as [c'|] eqn:Hfc; [|done]. injection Hz as <-.
      destruct (wi_port _ _ _ I1 j p Hp) as (sv & Hsv & Hok). rewrite decide_False in Hok by lia.
      destruct (Hf _ _ _ _ Hok Hfc) as (Hok' & E1 & E2 & E3).
      split_and!; [|done|cbn; by rewrite E1]. rewrite <- (list_insert_id svs j sv) by done.
      eapply write_inv_blur; [exact I1|exact Hp|exact Hsv| | |by right|].
      + intros j' Hj'. cbn. repeat case_decide; try lia; done.
      + split; cbn; by rewrite ?E1, ?E2, ?E3.
      + rewrite decide_True by lia. exact Hok'. }
  destruct HI as ([W1 W2 W3] & I2 & I3). split; [|done]. split; [done|done|]. intros i p Hp. destruct (W3 i p Hp) as (sv & Hsv & Hok).
  rewrite decide_True in Hok; [by exists sv|]. rewrite Hlen, <- W1. by eapply lookup_lt_Some.
Qed.

Lemma write_op_ok log i sv c c' : port_ok MRest i sv c -> do_op L (OpWrite log) c = Some c' ->
  port_ok MWrite i sv c' /\ cl_entries c' = cl_entries c /\ cl_clock c' = cl_clock c /\ cl_idx c' = cl_idx c.
Proof using hash.
  intros [P1 P2 P3 P4] Hx. destruct (do_op_inv L (Z.of_nat i) hash sv (OpWrite log) c c' P1 P4 Hx) as [Hi Hw].
  cbn [do_op] in Hx. destruct (log_at _ _ _) as [l|]; [|done]. cbn [mbind option_bind] in Hx. unfold doNext in Hx.
  destruct (write_tsp _); [|done]. cbn [mbind option_bind] in Hx. injection Hx as <-. split_and!; [|done..].
  split; try done. split; [done|by apply Hw].
Qed.

Lemma mark_op_ok i sv c c' : port_ok MWrite i sv c -> do_op L OpMarkAsDone c = Some c' ->
  port_ok MOver i sv c' /\ cl_entries c' = cl_entries c /\ cl_clock c' = cl_clock c /\ cl_idx c' = cl_idx c.
Proof using Type.
  intros [P1 P2 P3 [P4 P5]] Hx. cbn [do_op] in Hx. pose proof (mark_done_inv L (Z.of_nat i) sv c c' P1 Hx) as Hi. unfold doNext in Hx.
  destruct (write_tsp _); [|done]. cbn [mbind option_bind] in Hx. injection Hx as <-. split_and!; [|done..]. by split.
Qed.

(** *** Runs *)

Definition write_state (svs : list server) (x : relaxed) : Prop :=
  match rx_step x with
  | RxWrite => write_inv writers svs x
  | RxLinearized => write_inv writers svs x /\ at_least (majority L) (length svs) (held_or_verified svs)
  | RxDone => write_inv (fun _ => MOver) svs x /\ at_least (majority L) (length svs) (held svs)
  | _ => False
  end.

(** The future has become done. *)
Lemma write_state_done svs x x' : write_inv writers svs x -> at_least (majority L) (length svs) (held svs) -> rx_step x = RxDone ->
  each_port (do_op L OpMarkAsDone) x = Some x' -> write_state svs x'.
Proof using Type.
  intros HW Hd Hs Hx. destruct (each_port_ok MWrite MOver _ _ _ _ HW mark_op_ok Hx) as [HW' Hs'].
  unfold write_state. rewrite Hs', Hs. by split.
Qed.

Lemma write_state_tick fuel now svs x b x' : write_state svs x -> rx_tryStepForward L hash fuel now x = Some (b, x') -> write_state svs x'.
Proof using Htsps.
  destruct fuel as [|fuel]; [done|]. intros HW Hx. cbn [rx_tryStepForward] in Hx. unfold write_state in HW.
  case_bool_decide as Hdone.
  { rewrite Hdone in HW. destruct HW as [HW Hh]. injection Hx as <- <-. unfold write_state. cbn. rewrite Hdone. split; [by apply write_inv_reset|done]. }
  assert (HW0 : write_inv writers svs x /\ (rx_step x = RxWrite \/ rx_step x = RxLinearized)) by (destruct (rx_step x); try done; tauto).
  destruct HW0 as [HW0 Hs]. destruct (visit_all _ _ _ _) as [[x1 ta]|] eqn:Hv; [|done]. cbn [mbind option_bind] in Hx.
  destruct (visit_all_ok _ _ _ _ _ HW0 Hv) as (HW1 & Hs1 & Hd & Hr). 
  assert (Hkeep : forall y, write_inv writers svs y -> rx_step y = rx_step x -> write_state svs y).
  { intros y Hy Hys. unfold write_state. rewrite Hys. destruct (rx_step x); try done; by destruct HW. }
  destruct (_ <? _); [injection Hx as <- <-; by apply Hkeep|].
  destruct (Z.ltb_spec (ta_ready ta) (majority L)) as [|Hready]; [injection Hx as <- <-; apply Hkeep; [by apply write_inv_reset|done]|].
  apply write_inv_reset in HW1. set (x2 := resetProgressMarkers x1) in *. assert (Hs2 : rx_step x2 = rx_step x) by done.
  unfold conclude in Hx. rewrite Hs2 in Hx. unfold readied in Hr. destruct Hs as [Hs|Hs]; rewrite Hs in Hx, Hr; cbn [bool_decide decide_rel] in Hr.
  - rewrite bool_decide_eq_true_2 in Hr by done. cbn [mbind option_bind] in Hx. destruct (Z.ltb_spec (ta_done ta) (majority L)) as [|Hdn].
    + cbn in Hx. injection Hx as <- <-. unfold write_state. cbn. split; [by apply write_inv_rx|]. eapply at_least_mono; [exact Hready|by intros|exact Hr].
    + cbn -[each_port] in Hx. destruct (each_port _ _) as [x3|] eqn:He; [|done]. injection Hx as <- <-.
      refine (write_state_done svs _ _ _ _ _ He); [by apply write_inv_rx| |done]. eapply at_least_mono; [exact Hdn|by intros|exact Hd].
  - rewrite bool_decide_eq_false_2 in Hr by done. cbn -[each_port] in Hx. destruct (each_port _ _) as [x3|] eqn:He; [|done]. injection Hx as <- <-.
    refine (write_state_done svs _ _ _ _ _ He); [by apply write_inv_rx| |done]. eapply at_least_mono; [exact Hready|by intros|exact Hr].
Qed.

Lemma write_state_raises svs svs' x : Forall2 raises svs svs' -> write_state svs x -> write_state svs' x.
Proof using Type.
  intros Hr. pose proof (Forall2_length _ _ _ Hr) as Hlen. unfold write_state. rewrite <- Hlen. destruct (rx_step x); try done.
  - by apply write_inv_raises.
  - intros [H1 H2]. split; [by eapply write_inv_raises|]. eapply at_least_mono; [done| |exact H2]. intros i _. by apply held_or_verified_raises.
  - intros [H1 H2]. split; [by eapply write_inv_raises|]. eapply at_least_mono; [done| |exact H2]. intros i _. by apply held_raises.
Qed.

(** In every state: the modes of all servers. *)
Lemma write_state_inv svs x : write_state svs x ->
  exists m, m <> MRest /\ write_inv (fun _ => m) svs x /\
  forall svs' x', write_inv (fun _ => m) svs' x' -> rx_step x' = rx_step x -> Forall2 raises svs svs' -> write_state svs' x'.
Proof using hash.
  intros HW. assert (Hm : exists m, m <> MRest /\ write_inv (fun _ => m) svs x /\ m = match rx_step x with RxDone => MOver | _ => MWrite end).
  { unfold write_state in HW. destruct (rx_step x); try done; [exists MWrite|exists MWrite|exists MOver]; (split_and!; [done|tauto|done]). }
  destruct Hm as (m & Hm & Hi & ->). eexists. split_and!; [exact Hm|exact Hi|]. intros svs' x' Hi' Hs Hr.
  apply (write_state_raises _ _ _ Hr) in HW. unfold write_state in *. rewrite Hs. destruct (rx_step x); try done; split; try done; apply HW.
Qed.

(** What the others may do. *)
Fixpoint others_raise (es : list rx_event) (w : list server * relaxed) : Prop :=
  match es with
  | [] => True
  | e :: es =>
      match e with RxOthers i sv' => forall sv, w.1 !! i = Some sv -> raises sv sv' | _ => True end /\
      forall w', rx_exec L hash e w = Some w' -> others_raise es w'
  end.

Lemma insert_raises svs i sv sv' : svs !! i = Some sv -> raises sv sv' -> Forall2 raises svs (<[i := sv']> svs).
Proof using Type. intros Hi Hr. rewrite <- (list_insert_id svs i sv) at 1 by done. by apply Forall2_insert. Qed.

Lemma write_state_exec e w w' : write_state w.1 w.2 -> match e with RxOthers i sv' => forall sv, w.1 !! i = Some sv -> raises sv sv' | _ => True end ->
  rx_exec L hash e w = Some w' -> Forall2 raises w.1 w'.1 /\ write_state w'.1 w'.2.
Proof using Htsps.
  destruct w as [svs x]. cbn [fst snd]. intros HW He Hx. destruct (write_state_inv _ _ HW) as (m & Hm & Hi & Hback).
  destruct e as [i|i|now|i sv']; cbn [rx_exec] in Hx.
  - destruct (svs !! i) as [sv|] eqn:Hsv; [|done]. cbn [mbind option_bind] in Hx.
    destruct (focus i x) as [c|] eqn:Hc; [|done]. cbn [mbind option_bind] in Hx. apply focus_inv in Hc as (p & Hp & ->).
    destruct (nic_exec _ _) as [[sv' c']|] eqn:Hn; [|done]. cbn [mbind option_bind] in Hx. injection Hx as <-. cbn [fst snd].
    destruct (wi_port _ _ _ Hi i p Hp) as (sv0 & Hsv0 & Hok). rewrite Hsv in Hsv0. injection Hsv0 as <-.
    destruct (mr_nic_inv _ _ _ _ _ _ (po_inv _ _ _ _ Hok) Hn) as [Hr Hinv]. pose proof (insert_raises _ _ _ _ Hsv Hr) as Hrs.
    split; [exact Hrs|]. apply Hback; [|done|exact Hrs]. eapply write_inv_blur; [exact Hi|exact Hp|exact Hsv|done| |by left|].
    + eapply served_shared; [apply Hok|exact Hn].
    + destruct Hok as [P1 P2 P3 P4]. destruct (nic_exec_same _ _ _ _ Hn) as [E1 E2]. split; [done|by apply E2|by rewrite E1|].
      destruct m; [done| |cbn; by rewrite E1]. destruct P4 as [P4 P5]. split; [by rewrite E1|]. exact (nic_writing _ _ _ _ _ _ P1 P5 Hn).
  - destruct (focus i x) as [c|] eqn:Hc; [|done]. cbn [mbind option_bind] in Hx. apply focus_inv in Hc as (p & Hp & ->).
    injection Hx as <-. cbn [fst snd]. split; [reflexivity|]. destruct (wi_port _ _ _ Hi i p Hp) as (sv & Hsv & Hok).
    apply Hback; [|done|reflexivity]. rewrite <- (list_insert_id svs i sv) by done.
    eapply write_inv_blur; [exact Hi|exact Hp|exact Hsv|done|by split|by left|]. destruct Hok as [P1 P2 P3 P4].
    split; [by apply mr_poll_inv|done|done|by destruct m].
  - destruct (rx_tryStepForward _ _ _ _ _) as [[b x']|] eqn:Ht; [|done]. injection Hx as <-. split; [reflexivity|]. by eapply write_state_tick.
  - destruct (Nat.ltb_spec i (length svs)) as [Hlt|]; [|done]. cbn [assert_ mbind option_bind] in Hx. injection Hx as <-. cbn [fst snd].
    destruct (lookup_lt_is_Some_2 _ _ Hlt) as [sv Hsv]. pose proof (insert_raises _ _ _ _ Hsv (He sv Hsv)) as Hrs.
    split; [exact Hrs|]. by eapply write_state_raises.
Qed.

Lemma write_state_run es : forall w w', write_state w.1 w.2 -> others_raise es w -> rx_run L hash es w = Some w' ->
  Forall2 raises w.1 w'.1 /\ write_state w'.1 w'.2.
Proof using Htsps.
  induction es as [|e es IH]; intros w w' HW Ho Hx; cbn [rx_run others_raise] in *; [injection Hx as <-; by split|].
  destruct Ho as [Ho1 Ho2]. destruct (rx_exec L hash e w) as [w1|] eqn:He; [|done]. cbn [mbind option_bind] in Hx.
  destruct (write_state_exec _ _ _ HW Ho1 He) as [H1 H2]. destruct (IH w1 w' H2 (Ho2 w1 eq_refl) Hx) as [H3 H4].
  split; [by etrans|done].
Qed.
End Write.

(** The future of one server, idle: nothing is asked for or under way, and
    what it says it has seen is held. *)
Record idle (key : nat) (sv : server) (p : port) : Prop := {
  id_step : mr_step (pt_reg p) = Done;
  id_next : mr_next (pt_reg p) = None \/ mr_next (pt_reg p) = Some Done;
  id_sent : pt_sent p = [] /\ pt_completed p = 0 /\ mr_to_poll (pt_reg p) = 0;
  id_kv : mr_remote_kv (pt_reg p) = key;
  id_max : last_or_0 (pt_reg p) <= mr_max (pt_reg p) /\ holds sv key (mr_max (pt_reg p));
}.

(** A client whose futures are idle, for the key [forKV] has set. *)
Definition all_idle (key : nat) (svs : list server) (x : relaxed) : Prop := Forall2 (idle key) svs (rx_ports x).

Lemma idle_ok L key i sv p x : idle key sv p -> port_ok L key MRest i sv (port_client p x).
Proof.
  intros [I1 I2 (I3 & I4 & I5) I6 [I7 I8]]. split; cbn; [|by rewrite I3|done|done].
  split; [split; cbn; rewrite ?I3, ?I4, ?I5, ?I6; done|]. left. split; cbn; rewrite ?I3; try done; destruct I2 as [->| ->]; done.
Qed.

(** C31: A replicated write that is done is in a majority.  A client writes
    the word [t] to a key on all servers; then requests are served, completions
    polled and the future stepped in any order, while other clients change the
    servers in any way that lowers no word.  No word ever goes down, neither
    through this client; when the future says the write is linearized, a
    majority of the servers holds [t] up to its verified flag; and when it says
    it is done, a majority of the servers holds at least [t]. *)
Theorem relaxed_write_quorum L hash key t log svs x0 x1 es svs' x :
  0 <= num_tsp L -> all_idle key svs x0 -> (fun e => in_place_tsp (le_kv e)) <$> rx_entries x0 !! 0%nat = Some t ->
  rx_do_op L (RxDoWrite log) x0 = Some x1 -> others_raise L hash es (svs, x1) -> rx_run L hash es (svs, x1) = Some (svs', x) ->
  Forall2 raises svs svs' /\
  (rx_isLinearized x = true -> at_least (majority L) (length svs) (held_or_verified key t svs')) /\
  (rx_isDone x = true -> at_least (majority L) (length svs) (held key t svs')).
Proof.
  intros Ht Hidle He Hop Ho Hrun. cbn [rx_do_op] in Hop. unfold rx_do in Hop.
  destruct (each_port _ _) as [x1'|] eqn:Heach; [|done]. cbn [mbind option_bind] in Hop. injection Hop as <-.
  assert (HW0 : write_inv L key t (fun _ => MRest) svs (with_step RxWrite x0)).
  { split; [symmetry; by eapply Forall2_length|done|]. intros i p Hp. destruct (Forall2_lookup_r _ _ _ _ _ Hidle Hp) as (sv & Hsv & Hok).
    exists sv. split; [done|]. by apply (idle_ok L key i sv p (with_step RxWrite x0)). }
  destruct (each_port_ok L key t MRest MWrite _ _ _ _ HW0 (write_op_ok L key hash log) Heach) as [HW1 Hs].
  assert (HW : write_state L key t svs (resetProgressMarkers x1')).
  { unfold write_state. change (rx_step (resetProgressMarkers x1')) with (rx_step x1'). rewrite Hs. by apply write_inv_reset. }
  destruct (write_state_run L Ht key t hash es (svs, resetProgressMarkers x1') (svs', x) HW Ho Hrun) as [Hr HW']. cbn [fst snd] in *.
  rewrite (Forall2_length _ _ _ Hr). split; [done|]. unfold write_state in HW'. unfold rx_isLinearized, rx_isDone.
  destruct (rx_step x); try (by destruct HW').
  destruct HW' as [_ HW']. split; [intros _|done]. eapply at_least_mono; [done| |exact HW']. intros i _. apply held_verified.
Qed.

(** ** Reads *)

Section Read.
Context (L : layout) (hash : Z -> list Z -> list Z) (key : nat) (t : Z).

Definition read_start (s : Step) : Prop := s = TryReadAll \/ s = ReadTs.

(** What server [i] brought is recent. *)
Definition read_back (i : nat) (h : Prop) (c : client) : Prop :=
  h -> exists ts m, snd <$> (brought <$> cl_entries c !! S i) = Some ts /\ maxTspOf L ts = Some m /\ t <= m.

(** The read of one server's words, which held [t] at the start if [h]: asked
    for, posted, served, and done. *)
Inductive reading (i : nat) (h : Prop) (c : client) : Prop :=
  | RdAsked s :
      mr_step (cl_reg c) = Done -> mr_next (cl_reg c) = Some s -> read_start s ->
      cl_sent c = [] -> cl_completed c = 0 -> mr_to_poll (cl_reg c) = 0 -> reading i h c
  | RdPosted rq :
      read_start (mr_step (cl_reg c)) -> mr_next (cl_reg c) = None -> mr_ongoing_kv (cl_reg c) = mr_remote_kv (cl_reg c) ->
      cl_sent c = [rq] -> rq = RqReadKv key (S i) \/ rq = RqReadTsps key (S i) true ->
      cl_completed c = 0 -> mr_to_poll (cl_reg c) = 1 -> reading i h c
  | RdServed :
      read_start (mr_step (cl_reg c)) -> mr_next (cl_reg c) = None -> mr_ongoing_kv (cl_reg c) = mr_remote_kv (cl_reg c) ->
      cl_sent c = [] -> cl_completed c = mr_to_poll (cl_reg c) -> cl_completed c = 0 \/ cl_completed c = 1 ->
      read_back i h c -> reading i h c
  | RdDone :
      mr_step (cl_reg c) = Done -> mr_next (cl_reg c) = None ->
      cl_sent c = [] -> cl_completed c = 0 -> mr_to_poll (cl_reg c) = 0 -> (h -> t <= mr_max (cl_reg c)) -> reading i h c.

(** It is about this much of the client. *)
Lemma reading_view i h c c' : cl_reg c' = cl_reg c -> cl_sent c' = cl_sent c -> cl_completed c' = cl_completed c ->
  brought <$> cl_entries c' !! S i = brought <$> cl_entries c !! S i -> reading i h c -> reading i h c'.
Proof using Type.
  intros E1 E2 E3 E4 [s H1 H2 H3 H4 H5 H6|rq H1 H2 H3 H4 H5 H6 H7|H1 H2 H3 H4 H5 H6 H7|H1 H2 H3 H4 H5 H6].
  - eapply RdAsked; rewrite ?E1, ?E2, ?E3; done.
  - eapply RdPosted; rewrite ?E1, ?E2, ?E3; done.
  - eapply RdServed; rewrite ?E1, ?E2, ?E3; try done. unfold read_back. by rewrite E4.
  - eapply RdDone; rewrite ?E1, ?E2, ?E3; done.
Qed.

Lemma reading_progress i h b c : reading i h c -> reading i h (with_reg (set_progress b (cl_reg c)) c).
Proof using Type.
  intros [s H1 H2 H3 H4 H5 H6|rq H1 H2 H3 H4 H5 H6 H7|H1 H2 H3 H4 H5 H6 H7|H1 H2 H3 H4 H5 H6];
    [by eapply RdAsked|by eapply RdPosted|by eapply RdServed|by eapply RdDone].
Qed.

Lemma reading_done i h c : reading i h c -> isDone c = true -> h -> t <= mr_max (cl_reg c).
Proof using Type.
  unfold isDone. intros Hr [Hd1 Hd2]%andb_prop. apply bool_decide_eq_true in Hd1, Hd2.
  destruct Hr as [s H1 H2 [->| ->] H4 H5 H6|rq [H1|H1]|[H1|H1]|H1 H2 H3 H4 H5 H6]; try congruence; try done.
  - rewrite H2 in Hd2. by destruct Hd2.
  - rewrite H2 in Hd2. by destruct Hd2.
Qed.

(** Steps of one server's future. *)
Lemma reading_transition i h s c c' : read_start s -> mr_next (cl_reg c) = None -> mr_remote_kv (cl_reg c) = key ->
  cl_sent c = [] -> cl_completed c = 0 -> mr_to_poll (cl_reg c) = 0 ->
  transitionTo L (Z.of_nat i) s c = Some c' -> reading i h c' /\ cl_entries c' = cl_entries c.
Proof using Type.
  intros Hs Hn Hkv Hsent Hc Hp Hx. unfold transitionTo in Hx. destruct (write_tsp c); [|done]. cbn [mbind option_bind] in Hx.
  assert (Hg : guard Z.leb z (mr_max (cl_reg c)) s = s) by (by destruct Hs as [->| ->]). rewrite Hg in Hx.
  rewrite bool_decide_eq_false_2 in Hx by (by destruct Hs as [->| ->]).
  destruct (count_step _ _) as [c1|] eqn:Hcount; [|done]. cbn [mbind option_bind] in Hx. apply count_step_same in Hcount as [n ->].
  destruct (step_requests _ _ _ _) as [rqs|] eqn:Hrq; [|done]. cbn [mbind option_bind] in Hx. injection Hx as <-.
  assert (Hrqs : exists rq, rqs = [rq] /\ (rq = RqReadKv key (S i) \/ rq = RqReadTsps key (S i) true)).
  { unfold step_requests in Hrq. rewrite read_entry_nat in Hrq. cbn in Hrq. rewrite Hkv in Hrq.
    destruct Hs as [->| ->]; cbn in Hrq; [destruct (mr_in_place (cl_reg c))|]; injection Hrq as <-; eexists; split; [done|by left|done|by right|done|by right]. }
  destruct Hrqs as (rq & -> & Hrqs). split; [|done]. eapply (RdPosted _ _ _ rq); cbn; rewrite ?Hsent, ?Hp; try done.
  destruct Hrqs as [->| ->]; done.
Qed.

Lemma see_read_reading now i h c c1 : read_back i h c -> see_read L (Z.of_nat i) now true c = Some c1 ->
  (h -> t <= mr_max (cl_reg c1)) /\ mr_step (cl_reg c1) = mr_step (cl_reg c) /\ mr_next (cl_reg c1) = mr_next (cl_reg c) /\
  cl_sent c1 = cl_sent c /\ cl_completed c1 = cl_completed c /\ mr_to_poll (cl_reg c1) = mr_to_poll (cl_reg c).
Proof using Type.
  intros Hb Hx. unfold see_read in Hx. rewrite read_entry_nat in Hx. unfold read_back in Hb.
  destruct (cl_entries c !! S i) as [re|]; [|done]. cbn [mbind option_bind fmap option_fmap option_map] in *.
  destruct (maxTspOf L (tsps re)) as [m|] eqn:Hm; [|done]. cbn [mbind option_bind] in Hx.
  destruct (myTspOf _ _ _) as [mine|]; [|done]. injection Hx as <-.
  pose proof (see_same now m c) as (S1 & S2 & S3 & S4 & S5 & S6 & S7 & S8 & S9 & S10 & S11). cbn. split_and!; try done.
  intros Hh. destruct (Hb Hh) as (ts & m' & [= <-] & Hm' & Hle). cbn in Hm'. rewrite Hm in Hm'. injection Hm' as <-. rewrite mr_see_max. lia.
Qed.

Lemma reading_step now i h c b c' : reading i h c -> mr_remote_kv (cl_reg c) = key -> isLazyOrDead i c = false ->
  tryStepForward L (Z.of_nat i) hash now c = Some (b, c') -> reading i h c'.
Proof using Type.
  intros Hr Hkv [Hlazy Hdead]%orb_false_iff Hx. unfold tryStepForward in Hx. rewrite Hlazy, Hdead in Hx.
  destruct (Z.ltb_spec (if (mr_ongoing_kv (cl_reg c) =? mr_remote_kv (cl_reg c))%nat then 0 else 1) (mr_to_poll (cl_reg c))) as [|Hpoll];
    [injection Hx as <- <-; done|].
  assert (Hidle : mr_step (cl_reg c) = Done -> update_seen L (Z.of_nat i) now c = Some c).
  { intros Hs. unfold update_seen. rewrite Hs. by destruct (negb _). }
  destruct Hr as [s H1 H2 H3 H4 H5 H6|rq H1 H2 H3 H4 H5 H6 H7|H1 H2 H3 H4 H5 H6 H7|H1 H2 H3 H4 H5 H6].
  - rewrite Hidle in Hx by done. cbn [mbind option_bind] in Hx. rewrite H2 in Hx.
    destruct (transitionTo _ _ _ _) as [c2|] eqn:Ht; [|done]. injection Hx as <- <-.
    by eapply (reading_transition i h s (with_reg (set_next None (cl_reg c)) c)).
  - rewrite H3, Nat.eqb_refl in Hpoll. lia.
  - rewrite H3, Nat.eqb_refl in Hpoll. unfold update_seen in Hx. rewrite H3, Nat.eqb_refl in Hx. cbn [negb] in Hx.
    assert (Hs : is_write_step (mr_step (cl_reg c)) = false /\ is_read_step (mr_step (cl_reg c)) = true) by (by destruct H1 as [->| ->]).
    destruct Hs as [Hw1 Hw2]. rewrite Hw1, Hw2 in Hx. destruct (see_read _ _ _ _ _) as [c1|] eqn:Hsee; [|done]. cbn [mbind option_bind] in Hx.
    destruct (see_read_reading _ _ h _ _ H7 Hsee) as (E1 & E2 & E3 & E4 & E5 & E6). rewrite E3, H2 in Hx.
    rewrite bool_decide_eq_false_2 in Hx by (cbn; rewrite E2; by destruct H1 as [->| ->]).
    unfold advance in Hx. cbn [cl_reg with_reg mr_step set_progress] in Hx.
    assert (Ha : exists c2, transitionTo L (Z.of_nat i) Done (with_reg (set_progress true (cl_reg c1)) c1) = Some c2 /\ c2 = c').
    { rewrite E2 in Hx. destruct H1 as [H1|H1]; rewrite H1 in Hx; (destruct (transitionTo _ _ _ _) as [c2|]; [|done]); injection Hx as _ <-; by eexists. }
    destruct Ha as (c2 & Ht & ->). unfold transitionTo in Ht. destruct (write_tsp _); [|done]. cbn in Ht. injection Ht as <-.
    apply RdDone; cbn; try done; rewrite ?E3, ?E4, ?E5, ?E6; try done; lia.
  - rewrite Hidle in Hx by done. cbn [mbind option_bind] in Hx. rewrite H2 in Hx. rewrite bool_decide_eq_true_2 in Hx by done.
    injection Hx as <- <-. apply reading_progress. by apply RdDone.
Qed.

(** Completions. *)
Lemma reading_poll i h c : reading i h c -> reading i h (poll c).
Proof using Type.
  intros [s H1 H2 H3 H4 H5 H6|rq H1 H2 H3 H4 H5 H6 H7|H1 H2 H3 H4 H5 H6 H7|H1 H2 H3 H4 H5 H6].
  - eapply RdAsked; cbn; try done. by rewrite H5, H6.
  - eapply RdPosted; cbn; try done. by rewrite H6, H7.
  - eapply RdServed; cbn; try done; [|by left]. rewrite <- H5, Z.add_opp_diag_r. done.
  - eapply RdDone; cbn; try done. by rewrite H4, H5.
Qed.

(** The words of every key of a server. *)
Definition words_ok (sv : server) : Prop := Forall (fun k => length (sk_tsps k) = Z.to_nat (num_tsp L)) (sv_keys sv).

Lemma words_ok_raises sv sv' : raises sv sv' -> words_ok sv -> words_ok sv'.
Proof using Type.
  unfold raises, words_ok. intros Hr. induction Hr as [|k k' l l' Hk Hr IH]; [done|]. intros [H1 H2]%Forall_cons.
  constructor; [|by apply IH]. rewrite <- H1. symmetry. by eapply Forall2_length.
Qed.

Lemma words_hold_max sv k : words_ok sv -> sv_keys sv !! key = Some k -> holds sv key t -> exists m, maxTspOf L (sk_tsps k) = Some m /\ t <= m.
Proof using Type.
  intros Hok Hk Hh. pose proof (Forall_lookup_1 _ _ _ _ Hok Hk) as Hlen. cbn in Hlen. unfold maxTspOf. rewrite Hlen, Nat.leb_refl.
  cbn [assert_ mbind option_bind]. eexists. split; [reflexivity|]. rewrite take_ge by lia.
  assert (H0 : 0 <= foldl Z.max 0 (sk_tsps k)).
  { assert (Hle : forall l a, a <= foldl Z.max a l) by (intros l; induction l as [|y l IH]; intros a; cbn; [lia|specialize (IH (Z.max a y)); lia]). apply Hle. }
  destruct Hh as [Hh|(k' & slot & w & Hk' & Hw & Hle)]; [lia|]. rewrite Hk in Hk'. injection Hk' as <-.
  etrans; [exact Hle|]. apply foldl_max_ge. by eapply list_elem_of_lookup_2.
Qed.

Lemma reading_nic i h sv c sv' c' : reading i h c -> words_ok sv -> (h -> holds sv key t) -> nic_exec sv c = Some (sv', c') ->
  reading i h c' /\ sv' = sv /\ cl_reg c' = cl_reg c /\ cl_clock c' = cl_clock c /\ cl_idx c' = cl_idx c /\
  (forall j, j <> i -> cl_entries c' !! S j = cl_entries c !! S j).
Proof using Type.
  intros Hr Hok Hh Hx. unfold nic_exec in Hx.
  destruct Hr as [s H1 H2 H3 H4 H5 H6|rq H1 H2 H3 H4 H5 H6 H7|H1 H2 H3 H4 H5 H6 H7|H1 H2 H3 H4 H5 H6];
    match goal with H : cl_sent c = _ |- _ => rewrite H in Hx end.
  1: { injection Hx as <- <-. split_and!; try done. by eapply RdAsked. }
  2: { injection Hx as <- <-. split_and!; try done. by eapply RdServed. }
  2: { injection Hx as <- <-. split_and!; try done. by eapply RdDone. }
  assert (Hown : own_request i rq) by (destruct H5 as [->| ->]; by intros ? [= <-]).
  destruct (serve rq sv (cl_entries c)) as [[sv1 es]|] eqn:Hs; [|done]. cbn [mbind option_bind] in Hx. injection Hx as <- <-.
  assert (Hserved : sv1 = sv /\ exists k e, sv_keys sv !! key = Some k /\ es !! S i = Some e /\ tsps e = sk_tsps k).
  { destruct H5 as [->| ->]; cbn [serve] in Hs; (destruct (sv_keys sv !! key) as [k|] eqn:Hk; [|done]); cbn [mbind option_bind] in Hs;
      (destruct (cl_entries c !! S i) as [e|] eqn:He; [|done]); injection Hs as <- <-; split; [done| |done|]; exists k; eexists;
      (split_and!; [done|apply list_lookup_insert_eq; by eapply lookup_lt_Some|done]). }
  destruct Hserved as (-> & k & e & Hk & He & Hts). split_and!; try done.
  - apply RdServed; cbn; try done; [destruct H5 as [->| ->]; cbn; lia|destruct H5 as [->| ->]; cbn; lia|].
    intros Hh'. destruct (words_hold_max sv k Hok Hk (Hh Hh')) as (m & Hm & Hle). exists (tsps e), m. rewrite Hts. cbn. rewrite He. cbn.
    by rewrite Hts.
  - intros j Hj. cbn. eapply serve_other; [exact Hs|exact Hown|congruence].
Qed.

(** *** The replicated read *)

(** Every server's part of the read; [h] says which servers held [t] when it
    started. *)
Context (h : nat -> Prop).

Record read_inv (n : nat) (x : relaxed) : Prop := {
  ri_len : length (rx_ports x) = n;
  ri_port : forall i p, rx_ports x !! i = Some p -> mr_remote_kv (pt_reg p) = key /\ reading i (h i) (port_client p x);
}.

Lemma read_inv_blur n x i p c' : read_inv n x -> rx_ports x !! i = Some p -> cl_idx c' = rx_idx x ->
  (forall j, j <> i -> brought <$> cl_entries c' !! S j = brought <$> rx_entries x !! S j) ->
  mr_remote_kv (cl_reg c') = key -> reading i (h i) c' -> read_inv n (blur i c' x).
Proof using Type.
  intros [R1 R2] Hp Hidx Hb Hkv Hr. split; [cbn; by rewrite length_insert|]. intros j q Hq.
  apply blur_lookup in Hq as [[-> ->]|[Hj Hq]]; [by rewrite port_client_blur|]. destruct (R2 j q Hq) as [H1 H2]. split; [done|].
  eapply reading_view; [..|exact H2]; try done. by apply Hb.
Qed.

Lemma read_inv_taken n x x' : taken x x' -> read_inv n x -> read_inv n x'.
Proof using Type.
  intros [T1 T2 T3 T4 T5 T6 T7] [R1 R2]. split; [by rewrite T1|]. intros i p Hp. rewrite T1 in Hp. destruct (R2 i p Hp) as [H1 H2].
  split; [done|]. eapply reading_view; [..|exact H2]; try done; apply T5.
Qed.

Lemma read_inv_reset n x : read_inv n x -> read_inv n (resetProgressMarkers x).
Proof using Type.
  intros [R1 R2]. split; [cbn; by rewrite length_fmap|]. intros i q Hq. cbn in Hq. rewrite list_lookup_fmap in Hq.
  apply fmap_Some in Hq as (p & Hp & ->). destruct (R2 i p Hp) as [H1 H2]. split; [done|]. by apply reading_progress with (b := false) in H2.
Qed.

Lemma visit_read now n i x ta x' ta' : read_inv n x -> rx_step x <> RxWrite -> visit L hash now i (x, ta) = Some (x', ta') ->
  read_inv n x' /\ rx_step x' = rx_step x /\ rx_max x <= rx_max x' /\
  exists br : bool, ta_ready ta' = ta_ready ta + b2 br /\ (br = true -> h i -> t <= rx_max x').
Proof using Type.
  intros HR Hw Hx. unfold visit in Hx. destruct (focus i x) as [c|] eqn:Hc; [|done]. cbn [mbind option_bind] in Hx.
  apply focus_inv in Hc as (p & Hp & ->). destruct (isLazyOrDead i (port_client p x)) eqn:Hlive.
  { injection Hx as <- <-. split_and!; [done|done|done|]. exists false. cbn. split; [lia|done]. }
  destruct (tryStepForward _ _ _ _ _) as [[b c']|] eqn:Hs; [|done]. cbn [mbind option_bind] in Hx.
  destruct (is_ready _ _) as [r|] eqn:Hr; [|done]. cbn [mbind option_bind] in Hx.
  destruct (take_max _ _ _) as [x1|] eqn:Ht; [|done]. cbn [mbind option_bind] in Hx. injection Hx as <- <-.
  destruct (ri_port _ _ HR i p Hp) as [Hkv Hreading]. pose proof (reading_step _ _ _ _ _ _ Hreading Hkv Hlive Hs) as Hreading'.
  assert (Hst : stepped i (S i) (port_client p x) c').
  { eapply tryStepForward_stepped; [|exact Hs]. intros Hws. exfalso. destruct Hreading as [s H1|rq [H1|H1]|[H1|H1]|H1]; by rewrite H1 in Hws. }
  destruct (take_max_taken _ _ _ _ Ht) as [Htk Hmax]. split_and!.
  - apply (read_inv_taken _ _ _ Htk). eapply read_inv_blur; [exact HR|exact Hp|apply Hst| |rewrite (st_kv _ _ _ _ Hst); exact Hkv|exact Hreading'].
    intros j Hj. rewrite (st_other _ _ _ _ Hst) by congruence. done.
  - exact (tk_step _ _ Htk).
  - exact (tk_max _ _ Htk).
  - exists r. split; [done|]. intros -> Hh. etrans; [|exact Hmax]. eapply reading_done; [exact Hreading'| |exact Hh].
    unfold is_ready in Hr. cbn [rx_step blur with_shared] in Hr. rewrite bool_decide_eq_false_2 in Hr by done. by destruct (isDone c').
Qed.

Lemma visit_all_read now n x x' ta : read_inv n x -> rx_step x <> RxWrite -> visit_all L hash now x = Some (x', ta) ->
  read_inv n x' /\ rx_step x' = rx_step x /\ at_least (ta_ready ta) n (fun i => h i -> t <= rx_max x').
Proof using Type.
  intros HR Hw Hx. unfold visit_all in Hx. rewrite (ri_len _ _ HR) in Hx.
  refine (for_each_all (fun k xt => read_inv n xt.1 /\ rx_step xt.1 = rx_step x /\
    at_least (ta_ready xt.2) k (fun i => h i -> t <= rx_max xt.1)) _ _ _ (x', ta) _ _ Hx).
  - split_and!; [done|done|apply at_least_0].
  - intros j [y ty] [z tz] _ (I1 & I2 & I3) Hv. cbn [fst snd] in *.
    destruct (visit_read _ _ _ _ _ _ _ I1 ltac:(by rewrite I2) Hv) as (J1 & J2 & J3 & br & J4 & J5). rewrite J4.
    split_and!; [done|congruence|]. apply at_least_S; [|done].
    eapply at_least_mono; [done| |exact I3]. intros i _ Hi Hh. specialize (Hi Hh). lia.
Qed.

(** *** The maximum only grows *)

Lemma each_port_max f x x' : each_port f x = Some x' -> rx_max x' = rx_max x /\ rx_step x' = rx_step x.
Proof using Type.
  intros Hx. unfold each_port in Hx. refine (for_each_all (fun _ y => rx_max y = rx_max x /\ rx_step y = rx_step x) _ _ _ _ _ _ Hx); [done|].
  intros j y z _ [H1 H2] Hz. unfold on_port in Hz. destruct (focus j y); [|done]. cbn [mbind option_bind] in Hz.
  destruct (f _); [|done]. by injection Hz as <-.
Qed.

Lemma visit_all_max now x x' ta : visit_all L hash now x = Some (x', ta) -> rx_max x <= rx_max x'.
Proof using Type.
  intros Hx. unfold visit_all in Hx. refine (for_each_all (fun _ (xt : relaxed * tally) => rx_max x <= rx_max xt.1) _ _ _ (x', ta) _ _ Hx); [done|].
  intros j [y ty] [z tz] _ Hy Hz. cbn [fst] in *. unfold visit in Hz. destruct (focus j y) as [c|]; [|done]. cbn [mbind option_bind] in Hz.
  destruct (isLazyOrDead j c); [by injection Hz as <- <-|]. destruct (tryStepForward _ _ _ _ _) as [[b c']|]; [|done].
  cbn [mbind option_bind] in Hz. destruct (is_ready _ _); [|done]. cbn [mbind option_bind] in Hz.
  destruct (take_max _ _ _) as [x1|] eqn:Ht; [|done]. injection Hz as <- <-. apply take_max_taken in Ht as [Ht _].
  pose proof (tk_max _ _ Ht) as Hm. cbn in Hm. lia.
Qed.

Lemma read_log_max x x' : read_log x = Some x' -> rx_max x' = rx_max x.
Proof using Type.
  unfold read_log. destruct (first_that _ _) as [found|]; [|done]. cbn [mbind option_bind].
  destruct (match found with Some i => Some (S i) | None => rx_entry x end) as [e|]; [|done]. cbn [mbind option_bind].
  destruct (set_entry_tsp _ _ _); [|done]. by intros [= <-].
Qed.

Lemma conclude_max again ta x x' : (forall y b y', again y = Some (b, y') -> rx_max y <= rx_max y') ->
  conclude L hash again ta x = Some x' -> rx_max x <= rx_max x'.
Proof using Type.
  intros Ha Hx. unfold conclude in Hx. destruct (rx_step x); try (by injection Hx as <-).
  - destruct (first_that _ _) as [[i|]|]; [by injection Hx as <-| |done]. cbn [mbind option_bind] in Hx.
    destruct (each_port _ _) as [y|] eqn:He; [|done]. cbn [mbind option_bind] in Hx. apply each_port_max in He as [He _]. cbn in He.
    destruct (again y) as [[b y']|] eqn:Hy; [|done]. injection Hx as <-. apply Ha in Hy. lia.
  - apply read_log_max in Hx. lia.
Qed.

Lemma tick_max fuel now : forall x b x', rx_tryStepForward L hash fuel now x = Some (b, x') -> rx_max x <= rx_max x'.
Proof using Type.
  induction fuel as [|fuel IH]; intros x b x' Hx; [done|]. cbn [rx_tryStepForward] in Hx.
  case_bool_decide; [by injection Hx as <- <-|]. destruct (visit_all _ _ _ _) as [[x1 ta]|] eqn:Hv; [|done]. cbn [mbind option_bind] in Hx.
  apply visit_all_max in Hv. destruct (_ <? _); [by injection Hx as <- <-|]. destruct (_ <? _); [by injection Hx as <- <-|].
  destruct (conclude _ _ _ _ _) as [x2|] eqn:Hc; [|done]. cbn [mbind option_bind] in Hx. apply conclude_max in Hc; [|exact IH]. cbn in Hc.
  case_bool_decide; [|injection Hx as <- <-; lia]. destruct (each_port _ _) as [x3|] eqn:He; [|done]. injection Hx as <- <-.
  apply each_port_max in He as [He _]. lia.
Qed.

(** *** Runs *)

(** Either the word has been seen, or the first round of reads is under way. *)
Definition read_state (svs : list server) (x : relaxed) : Prop :=
  t <= rx_max x \/
  (rx_step x = RxTryRead \/ rx_step x = RxRead) /\ read_inv (length svs) x /\ Forall words_ok svs /\
  forall i sv, svs !! i = Some sv -> h i -> holds sv key t.

Lemma read_state_tick fuel now svs x b x' : Z.of_nat (length svs) < 2 * majority L -> at_least (majority L) (length svs) h ->
  read_state svs x -> rx_tryStepForward L hash fuel now x = Some (b, x') -> read_state svs x'.
Proof using Type.
  intros Hm Hh [HR|(Hs & HR & Hok & Hheld)] Hx; [left; apply tick_max in Hx; lia|]. destruct fuel as [|fuel]; [done|].
  cbn [rx_tryStepForward] in Hx. rewrite bool_decide_eq_false_2 in Hx by (by destruct Hs as [->| ->]).
  destruct (visit_all _ _ _ _) as [[x1 ta]|] eqn:Hv; [|done]. cbn [mbind option_bind] in Hx.
  destruct (visit_all_read _ _ _ _ _ HR ltac:(by destruct Hs as [->| ->]) Hv) as (HR1 & Hs1 & Hc).
  destruct (_ <? _); [injection Hx as <- <-; right; by rewrite Hs1|].
  destruct (Z.ltb_spec (ta_ready ta) (majority L)) as [|Hready].
  { injection Hx as <- <-. right. cbn. rewrite Hs1. split_and!; try done. by apply read_inv_reset. }
  left. assert (Ht : t <= rx_max x1).
  { destruct (at_least_meet (majority L) _ _ _ Hm (at_least_mono _ _ _ _ _ Hready ltac:(by intros) Hc) Hh) as (i & _ & H1 & H2). by apply H1. }
  destruct (conclude _ _ _ _ _) as [x2|] eqn:Hcon; [|done]. cbn [mbind option_bind] in Hx.
  apply conclude_max in Hcon; [|by intros; eapply tick_max]. cbn in Hcon.
  case_bool_decide; [|injection Hx as <- <-; lia]. destruct (each_port _ _) as [x3|] eqn:He; [|done]. injection Hx as <- <-.
  apply each_port_max in He as [He _]. lia.
Qed.

Lemma read_state_exec e w w' : Z.of_nat (length w.1) < 2 * majority L -> at_least (majority L) (length w.1) h ->
  read_state w.1 w.2 -> match e with RxOthers i sv' => forall sv, w.1 !! i = Some sv -> raises sv sv' | _ => True end ->
  rx_exec L hash e w = Some w' -> length w'.1 = length w.1 /\ read_state w'.1 w'.2.
Proof using Type.
  destruct w as [svs x]. cbn [fst snd]. intros Hm Hh HR He Hx. destruct e as [i|i|now|i sv']; cbn [rx_exec] in Hx.
  - destruct (svs !! i) as [sv|] eqn:Hsv; [|done]. cbn [mbind option_bind] in Hx.
    destruct (focus i x) as [c|] eqn:Hc; [|done]. cbn [mbind option_bind] in Hx. apply focus_inv in Hc as (p & Hp & ->).
    destruct (nic_exec _ _) as [[sv' c']|] eqn:Hn; [|done]. cbn [mbind option_bind] in Hx. injection Hx as <-. cbn [fst snd].
    split; [by rewrite length_insert|]. destruct HR as [HR|(Hs & HR & Hok & Hheld)]; [by left|].
    destruct (ri_port _ _ HR i p Hp) as [Hkv Hreading].
    destruct (reading_nic _ _ _ _ _ _ Hreading (Forall_lookup_1 _ _ _ _ Hok Hsv) (Hheld i sv Hsv) Hn) as (H1 & -> & H2 & H3 & H4 & H5).
    rewrite list_insert_id by done. right. split_and!; try done. eapply read_inv_blur; [exact HR|exact Hp|done| |by rewrite H2|done].
    intros j Hj. by rewrite H5.
  - destruct (focus i x) as [c|] eqn:Hc; [|done]. cbn [mbind option_bind] in Hx. apply focus_inv in Hc as (p & Hp & ->).
    injection Hx as <-. cbn [fst snd]. split; [done|]. destruct HR as [HR|(Hs & HR & Hok & Hheld)]; [by left|].
    destruct (ri_port _ _ HR i p Hp) as [Hkv Hreading]. right. split_and!; try done.
    eapply read_inv_blur; [exact HR|exact Hp|done|done|done|by apply reading_poll].
  - destruct (rx_tryStepForward _ _ _ _ _) as [[b x']|] eqn:Ht; [|done]. injection Hx as <-. split; [done|]. by eapply read_state_tick.
  - destruct (Nat.ltb_spec i (length svs)) as [Hlt|]; [|done]. cbn [assert_ mbind option_bind] in Hx. injection Hx as <-. cbn [fst snd].
    split; [by rewrite length_insert|]. destruct HR as [HR|(Hs & HR & Hok & Hheld)]; [by left|]. right. rewrite length_insert.
    destruct (lookup_lt_is_Some_2 _ _ Hlt) as [sv Hsv]. specialize (He sv Hsv). split_and!; try done.
    + apply Forall_insert; [done|]. eapply words_ok_raises; [exact He|]. by eapply Forall_lookup_1.
    + intros j sv2 Hj Hhj. apply list_lookup_insert_Some in Hj as [(-> & -> & _)|[_ Hj]]; [|by eapply Hheld].
      eapply holds_raises; [exact He|]. by eapply Hheld.
Qed.

Lemma read_state_run es : forall w w', Z.of_nat (length w.1) < 2 * majority L -> at_least (majority L) (length w.1) h ->
  read_state w.1 w.2 -> others_raise L hash es w -> rx_run L hash es w = Some w' -> read_state w'.1 w'.2.
Proof using Type.
  induction es as [|e es IH]; intros w w' Hm Hh HR Ho Hx; cbn [rx_run others_raise] in *; [by injection Hx as <-|].
  destruct Ho as [Ho1 Ho2]. destruct (rx_exec L hash e w) as [w1|] eqn:He; [|done]. cbn [mbind option_bind] in Hx.
  destruct (read_state_exec _ _ _ Hm Hh HR Ho1 He) as [H1 H2]. apply (IH w1 w'); [by rewrite H1|by rewrite H1|done|by apply Ho2|done].
Qed.
End Read.

(** A read is asked for. *)
Lemma idle_read key i sv p x c t h (op : operation) L : idle key sv p -> op = OpTryRead \/ op = OpReadTs ->
  do_op L op (port_client p x) = Some c ->
  mr_remote_kv (cl_reg c) = key /\ reading L key t i h c /\ cl_entries c = rx_entries x /\ cl_idx c = rx_idx x.
Proof.
  intros [I1 I2 (I3 & I4 & I5) I6 _] Hop Hx.
  assert (Hs : exists s, read_start s /\ doNext s (port_client p x) = Some c) by (destruct Hop as [->| ->]; eexists; split; [by left|done|by right|done]).
  destruct Hs as (s & Hs & Hn). unfold doNext in Hn. destruct (write_tsp _) as [tsp|]; [|done]. cbn [mbind option_bind] in Hn. injection Hn as <-.
  split_and!; try done. eapply (RdAsked _ _ _ _ _ _ s); cbn; try done. by destruct Hs as [->| ->].
Qed.

(** C32: A replicated read sees every write that finished before it.  If a
    majority of the servers holds the word [t] when an idle client asks for a
    read of the key, whole or of its timestamps, then whatever order requests
    are served, completions polled and the future stepped in, and however other
    clients raise the words of the servers meanwhile, the read that is done has
    seen at least [t]. *)
Theorem relaxed_read_sees L hash key t op svs x0 x1 es svs' x :
  Forall (words_ok L) svs -> Z.of_nat (length svs) < 2 * majority L -> at_least (majority L) (length svs) (held key t svs) ->
  all_idle key svs x0 -> op = RxDoRead \/ op = RxDoReadTs -> rx_do_op L op x0 = Some x1 ->
  others_raise L hash es (svs, x1) -> rx_run L hash es (svs, x1) = Some (svs', x) ->
  rx_isDone x = true -> t <= rx_max x.
Proof.
  intros Hok Hm Hh Hidle Hop Hx Ho Hrun Hd. set (h := held key t svs).
  assert (Hop' : exists s o, (s = RxTryRead \/ s = RxRead) /\ (o = OpTryRead \/ o = OpReadTs) /\ rx_do L s o x0 = Some x1).
  { destruct Hop as [->| ->]; eexists _, _; (split_and!; [| |exact Hx]); [by left|by left|by right|by right]. }
  destruct Hop' as (s & o & Hs & Hoo & Hx'). unfold rx_do in Hx'. destruct (each_port _ _) as [x1'|] eqn:He; [|done].
  cbn [mbind option_bind] in Hx'. injection Hx' as <-.
  assert (HI : length (rx_ports x1') = length svs /\ rx_step x1' = s /\
    forall i p, rx_ports x1' !! i = Some p -> (i < length svs)%nat -> mr_remote_kv (pt_reg p) = key /\ reading L key t i (h i) (port_client p x1')).
  { pose proof (Forall2_length _ _ _ Hidle) as Hlen. unfold each_port in He. cbn [rx_ports with_step with_rx] in He. rewrite <- Hlen in He.
    refine (proj1 (for_each_all (fun k y => (length (rx_ports y) = length svs /\ rx_step y = s /\
      (forall i p, rx_ports y !! i = Some p -> (i < k)%nat -> mr_remote_kv (pt_reg p) = key /\ reading L key t i (h i) (port_client p y))) /\
      rx_entries y = rx_entries x0 /\ rx_idx y = rx_idx x0 /\ forall i, (k <= i)%nat -> rx_ports y !! i = rx_ports x0 !! i) _ _ _ _ _ _ He)).
    - split_and!; try done. intros; lia.
    - intros j y z Hj ((J1 & J2 & J3) & J4 & J5 & J6) Hz. unfold on_port in Hz. destruct (focus j y) as [c|] eqn:Hc; [|done].
      cbn [mbind option_bind] in Hz. apply focus_inv in Hc as (p & Hp & ->). destruct (do_op _ _ _) as [c'|] eqn:Hdo; [|done]. injection Hz as <-.
      pose proof Hp as Hp0. rewrite J6 in Hp0 by done. destruct (Forall2_lookup_r _ _ _ _ _ Hidle Hp0) as (sv & _ & Hi).
      destruct (idle_read key j sv p y c' t (h j) o L Hi Hoo Hdo) as (K1 & K2 & K3 & K4). split_and!; try done; [| | |].
      + cbn. by rewrite length_insert.
      + intros i q Hq Hi'. apply blur_lookup in Hq as [[-> ->]|[Hne Hq]]; [by rewrite port_client_blur|].
        destruct (J3 i q Hq ltac:(lia)) as [M1 M2]. split; [done|]. eapply reading_view; [..|exact M2]; try done. cbn. by rewrite K3.
      + cbn. by rewrite K3.
      + intros i Hi'. cbn. rewrite list_lookup_insert_ne by lia. apply J6. lia. }
  destruct HI as (H1 & H2 & H3).
  assert (HR : read_state L key t h svs (resetProgressMarkers x1')).
  { right. split_and!; [cbn; rewrite H2; done| |done|].
    - apply read_inv_reset. split; [done|]. intros i p Hp. apply H3; [done|]. rewrite <- H1. by eapply lookup_lt_Some.
    - intros i sv Hsv (sv' & Hsv' & Hholds). congruence. }
  pose proof (read_state_run L hash key t h es (svs, resetProgressMarkers x1') (svs', x) Hm Hh HR Ho Hrun) as [Hr|[Hstep _]]; [done|].
  cbn [snd] in Hstep. apply bool_decide_eq_true in Hd. destruct Hstep; congruence.
Qed.

(** ** The recursion of a step *)

Section Fuel.
Context (L : layout) (hash : Z -> list Z -> list Z) (now : Z).

Lemma visit_all_step x x' ta : visit_all L hash now x = Some (x', ta) -> rx_step x' = rx_step x.
Proof using Type.
  intros Hx. unfold visit_all in Hx. refine (for_each_all (fun _ (xt : relaxed * tally) => rx_step xt.1 = rx_step x) _ _ _ (x', ta) _ _ Hx); [done|].
  intros j [y ty] [z tz] _ Hy Hz. cbn [fst] in *. unfold visit in Hz. destruct (focus j y) as [c|]; [|done]. cbn [mbind option_bind] in Hz.
  destruct (isLazyOrDead j c); [by injection Hz as <- <-|]. destruct (tryStepForward _ _ _ _ _) as [[b c']|]; [|done].
  cbn [mbind option_bind] in Hz. destruct (is_ready _ _); [|done]. cbn [mbind option_bind] in Hz.
  destruct (take_max _ _ _) as [x1|] eqn:Ht; [|done]. injection Hz as <- <-. apply take_max_taken in Ht as [Ht _].
  pose proof (tk_step _ _ Ht) as Hs. by rewrite Hs.
Qed.

Lemma tick_eq n m x : (forall ta y, rx_step y = rx_step x ->
    conclude L hash (rx_tryStepForward L hash n now) ta y = conclude L hash (rx_tryStepForward L hash m now) ta y) ->
  rx_tryStepForward L hash (S n) now x = rx_tryStepForward L hash (S m) now x.
Proof using Type.
  intros Hc. cbn [rx_tryStepForward]. case_bool_decide; [done|]. destruct (visit_all _ _ _ _) as [[x1 ta]|] eqn:Hv; [|done].
  cbn [mbind option_bind]. apply visit_all_step in Hv. destruct (_ <? _); [done|]. destruct (_ <? _); [done|]. by rewrite (Hc ta (resetProgressMarkers x1) Hv).
Qed.

(** Two calls are enough: the one that turns to the logs does not come back. *)
Lemma tick_fuel n x : rx_tryStepForward L hash (S (S n)) now x = rx_tryStepForward L hash 2 now x.
Proof using Type.
  assert (Hone : forall k m y, rx_step y <> RxTryRead -> rx_tryStepForward L hash (S k) now y = rx_tryStepForward L hash (S m) now y).
  { intros k m y Hy. apply tick_eq. intros ta z Hz. unfold conclude. rewrite Hz. by destruct (rx_step y). }
  apply tick_eq. intros ta y _. unfold conclude. destruct (rx_step y); try done.
  destruct (first_that _ _) as [[i|]|]; [done| |done]. cbn [mbind option_bind].
  destruct (each_port _ _) as [z|] eqn:He; [|done]. cbn [mbind option_bind]. apply each_port_max in He as [_ He].
  rewrite (Hone n 0%nat z); [done|]. by rewrite He.
Qed.
End Fuel.

(** ** A key that was never written *)

Lemma not_in_place hash x : Forall (fun p => mr_in_place (pt_reg p) = false) (rx_ports x) -> first_that (found_in_place hash x) (in_use x) = Some None.
Proof.
  intros Hp. assert (Hu : Forall (fun ic => mr_in_place (cl_reg ic.2) = false) (in_use x)).
  { unfold in_use. apply Forall_forall. intros ic [_ Hic]%list_elem_of_filter. apply elem_of_lookup_imap in Hic as (i & p & -> & Hi).
    exact (Forall_lookup_1 _ _ _ _ Hp Hi). }
  induction Hu as [|ic l Hic _ IH]; [done|]. cbn [first_that].
  assert (Hf : found_in_place hash x ic = Some false) by (unfold found_in_place; by rewrite Hic). rewrite Hf. exact IH.
Qed.

Lemma no_client_0 L log : 0 <= num_servers L -> num_servers L + num_clients L < 2 ^ 64 - 1 -> log_at L (extractClientIdx L 0) log = None.
Proof.
  intros Hs Hc. unfold log_at, extractClientIdx, firstClientId. change (extractClientProcId 0) with 0.
  assert (Hi : num_clients L <= u64 (0 - u64 (num_servers L + 1))).
  { destruct (Z.le_gt_cases (num_clients L) 0) as [Hn|Hn]; [pose proof (u64_range (0 - u64 (num_servers L + 1))); unfold is_u64 in *; lia|].
    rewrite (u64_small (num_servers L + 1)) by (unfold is_u64; lia). unfold u64. rewrite <- (Z.mod_unique (0 - (num_servers L + 1)) (2 ^ 64) (-1) (2 ^ 64 - (num_servers L + 1))); lia. }
  by rewrite (proj2 (Z.ltb_ge _ _) Hi).
Qed.

(** C33: Reading a key of which no majority has a word yet throws.  If the
    first round of a read of the whole entry is answered by a majority, none of
    which has seen a word, and no server keeps entries in place, then the future
    looks for the log of the client the word 0 names, which is none, and throws
    out of its step.  (An insertion makes its key visible in the index without
    waiting for its data to be written.) *)
Theorem relaxed_read_unwritten L hash fuel now x x1 ta :
  0 <= num_servers L -> num_servers L + num_clients L < 2 ^ 64 - 1 ->
  rx_step x = RxTryRead -> visit_all L hash now x = Some (x1, ta) -> majority L <= ta_progress ta -> majority L <= ta_ready ta ->
  rx_max x1 = 0 -> rx_step x1 = RxTryRead -> rx_ports x1 <> [] -> Forall (fun p => mr_in_place (pt_reg p) = false) (rx_ports x1) ->
  rx_tryStepForward L hash fuel now x = None.
Proof.
  intros Hn Hc Hs Hv Hp Hr Hm Hs1 Hports Hin. destruct fuel as [|fuel]; [done|]. cbn [rx_tryStepForward].
  rewrite bool_decide_eq_false_2 by (by rewrite Hs). rewrite Hv. cbn [mbind option_bind].
  rewrite (proj2 (Z.ltb_ge _ _) Hp), (proj2 (Z.ltb_ge _ _) Hr). unfold conclude. cbn [rx_step resetProgressMarkers with_ports with_shared].
  rewrite Hs1, not_in_place; [|cbn; apply Forall_fmap; eapply Forall_impl; [exact Hin|done]]. cbn [mbind option_bind].
  assert (He : forall y, rx_ports y <> [] -> each_port (do_op L (OpReadLog (extractClientIdx L 0) (extractLogId 0))) y = None).
  { intros y Hy. unfold each_port. destruct (rx_ports y) as [|p ps] eqn:Hps; [done|]. cbn [length seq for_each]. unfold on_port, focus.
    rewrite Hps. cbn [lookup list_lookup mbind option_bind do_op]. by rewrite no_client_0. }
  cbn [rx_max resetProgressMarkers with_ports with_shared]. rewrite Hm, He; [done|]. cbn. intros Hf. by apply fmap_nil_inv in Hf.
Qed.

(** ** Three servers *)

Definition three_servers : layout := Layout false false 2 3 3 2 1 true 1 1 1 8 8 0.
Definition client_at (idx tsp main : Z) : option relaxed :=
  rx_new three_servers idx (entry_of tsp :: replicate 3 (entry_of 0)) (clock_new 9) (replicate 14 0) ≫= rx_forKV three_servers 0 main None false.

(** Servers serve what was posted to them, it is polled, and the future steps. *)
Definition all_serve (ids : list nat) : list rx_event := (ids ≫= fun i => [RxNic i; RxNic i; RxPoll i]) ++ [RxTick 9000].

(** Nobody else does anything. *)
Lemma others_quiet L hash es : forall w, Forall (fun e => match e with RxOthers _ _ => False | _ => True end) es -> others_raise L hash es w.
Proof.
  induction es as [|e es IH]; intros w Hes; [done|]. apply Forall_cons in Hes as [He Hes]. split; [by destruct e|].
  intros w' _. by apply IH.
Qed.

(** Computes a client's operation and a run of it, for the proof [k] to use. *)
Ltac run_client client op svs es k :=
  let x0 := eval vm_compute in client in
  lazymatch x0 with Some ?x0 =>
    let x1 := eval vm_compute in (rx_do_op three_servers op x0) in
    lazymatch x1 with Some ?x1 =>
      let w := eval vm_compute in (rx_run three_servers (fun _ l => l) es (svs, x1)) in
      lazymatch w with Some (?svs', ?x) => k x0 x1 svs' x end
    end
  end.

(** The servers before and after the write of [word_a] to two of them. *)
Definition no_words : list server := replicate 3 one_key.
Definition write_run : list rx_event := RxTick 9000 :: all_serve [0%nat; 1%nat].
Definition read_run : list rx_event := RxTick 9000 :: all_serve [1%nat; 2%nat].
Definition two_words : list server := ltac:(run_client (client_at 0 word_a 0) (RxDoWrite 0) no_words write_run ltac:(fun x0 x1 svs' x => exact svs')).

Lemma idle_at idx tsp main svs x : client_at idx tsp main = Some x -> main = 0 \/ main = 1 -> length svs = 3%nat -> all_idle 0 svs x.
Proof.
  intros Hx Hm Hl. destruct svs as [|s1 [|s2 [|s3 []]]]; try discriminate Hl.
  destruct Hm as [->| ->]; vm_compute in Hx; injection Hx as <-; repeat constructor; cbn; try done; try (by left); lia.
Qed.

Lemma relaxed_write_quorum_witness : exists x0 x1 x,
  client_at 0 word_a 0 = Some x0 /\ rx_do_op three_servers (RxDoWrite 0) x0 = Some x1 /\
  rx_run three_servers (fun _ l => l) write_run (no_words, x1) = Some (two_words, x) /\
  rx_isDone x = true /\ at_least 2 3 (held 0 word_a two_words).
Proof.
  run_client (client_at 0 word_a 0) (RxDoWrite 0) no_words write_run ltac:(fun x0 x1 svs' x =>
    exists x0, x1, x;
    assert (H0 : client_at 0 word_a 0 = Some x0) by (vm_compute; reflexivity);
    assert (H1 : rx_do_op three_servers (RxDoWrite 0) x0 = Some x1) by (vm_compute; reflexivity);
    assert (H2 : rx_run three_servers (fun _ l => l) write_run (no_words, x1) = Some (svs', x)) by (vm_compute; reflexivity);
    destruct (relaxed_write_quorum three_servers (fun _ l => l) 0 word_a 0 no_words x0 x1 write_run svs' x)
      as (_ & _ & H); [done|apply (idle_at 0 word_a 0); [exact H0|by left|done]|reflexivity|exact H1|apply others_quiet; by repeat constructor|exact H2|]).
  split_and!; [exact H0|exact H1|exact H2|reflexivity|]. by apply H.
Defined.

Lemma two_words_ok : Forall (words_ok three_servers) two_words /\ at_least 2 3 (held 0 word_a two_words).
Proof.
  split; [repeat constructor|]. exists [0%nat; 1%nat]. split_and!; [|cbn; lia|].
  - repeat constructor; set_solver.
  - repeat apply Forall_cons_2; try apply Forall_nil_2; (split; [lia|]);
      (eexists; split; [reflexivity|]); right; eexists _, 0%nat, word_a; (split_and!; [reflexivity|vm_compute; reflexivity|done]).
Qed.

Lemma relaxed_read_sees_witness : exists x0 x1 svs' x,
  client_at 2 0 1 = Some x0 /\ rx_do_op three_servers RxDoReadTs x0 = Some x1 /\
  rx_run three_servers (fun _ l => l) read_run (two_words, x1) = Some (svs', x) /\ rx_isDone x = true /\ word_a <= rx_max x.
Proof.
  run_client (client_at 2 0 1) RxDoReadTs two_words read_run ltac:(fun x0 x1 svs' x =>
    exists x0, x1, svs', x;
    assert (H0 : client_at 2 0 1 = Some x0) by (vm_compute; reflexivity);
    assert (H1 : rx_do_op three_servers RxDoReadTs x0 = Some x1) by (vm_compute; reflexivity);
    assert (H2 : rx_run three_servers (fun _ l => l) read_run (two_words, x1) = Some (svs', x)) by (vm_compute; reflexivity);
    pose proof (relaxed_read_sees three_servers (fun _ l => l) 0 word_a RxDoReadTs two_words x0 x1 read_run svs' x) as H).
  split_and!; [exact H0|exact H1|exact H2|reflexivity|].
  apply H; [apply two_words_ok|done|apply two_words_ok|apply (idle_at 2 0 1); [exact H0|by right|done]|by right|exact H1| |exact H2|reflexivity].
  apply others_quiet. by repeat constructor.
Defined.

(** A read that all servers have answered, before the last step. *)
Definition answered : list rx_event := [RxTick 9000; RxNic 0; RxPoll 0; RxNic 1; RxPoll 1].

Lemma relaxed_read_unwritten_witness : exists x0 x1 x,
  client_at 2 0 0 = Some x0 /\ rx_do_op three_servers RxDoRead x0 = Some x1 /\
  rx_run three_servers (fun _ l => l) answered (no_words, x1) = Some (no_words, x) /\
  rx_tryStepForward three_servers (fun _ l => l) 2 9000 x = None.
Proof.
  run_client (client_at 2 0 0) RxDoRead no_words answered ltac:(fun x0 x1 svs' x =>
    exists x0, x1, x;
    let v := eval vm_compute in (visit_all three_servers (fun _ l => l) 9000 x) in
    lazymatch v with Some (?x2, ?ta) =>
      assert (Hv : visit_all three_servers (fun _ l => l) 9000 x = Some (x2, ta)) by (vm_compute; reflexivity);
      pose proof (relaxed_read_unwritten three_servers (fun _ l => l) 2 9000 x x2 ta) as H
    end).
  split_and!; [vm_compute; reflexivity..|].
  apply H; [done|done|reflexivity|exact Hv|by vm_compute|by vm_compute|reflexivity|reflexivity|done|by repeat constructor].
Defined.
